(* ===== verification/_CoqProject ===== *)
-Q . S2P
Prelude.v
Crc32c.v
PageBitmap.v
IOBackend.v
Config.v
MetaFile.v
Sha256.v
UrlKey.v
FileEntry.v
FileEntryInv.v
FileEntryRead.v
FileEntryFlush.v
FileEntryMeta.v
FileEntryFrame.v
SlotStore.v
SlotCodec.v
SlotScan.v
SlotCommit.v
SlotCreate.v
ReplicaFile.v
ReplicaStore.v
ReplicaView.v
IOFrame.v
ReplicaPublish.v
ReplicaAdopt.v
CacheStore.v
CacheFrame.v
CacheEvict.v
CacheOps.v
CacheOpen.v
CacheAdmin.v
CacheCleanup.v
WireRead.v
WireSpan.v
WireServe.v
Footprint.v
RootFile.v
TreeMeta.v
TreeSafe.v
TreeParse.v
FillLayout.v
FillHeader.v
FillBasket.v
TreeSound.v
FillGeometry.v
Transposer.v
TransposeBasket.v
TransposeFinish.v
TransposeSound.v
ReadMap.v
ReadShare.v
ReadStep.v
ReadRuns.v
ReadRule.v
ReadRuleSpec.v
ReadRuleLive.v
Executor.v
OpenRetry.v
OpenLazy.v
OpenRun.v
OpenUsers.v
Stitch.v
StitchServe.v
StitchReads.v
Xxh3.v
RNTupleMeta.v
RNTupleSafe.v
RNTupleSound.v
RNTuplePatch.v
RNTupleRewrite.v
RNTupleBuild.v
RNTupleReads.v
RNTupleSame.v
RNTupleReplica.v
Prefetch.v
PrefetchWire.v
PrefetchGate.v
ColdRun.v
ColdLayout.v
ColdSlots.v
