(* ===== verification/Prelude.v ===== *)
(** * xrd-ucache: a verification library for the uCache read cache

    uCache is an XRootD client plug-in: the reads of a remote file that hit the
    local cache are answered from disk, the others go to the origin and are kept.
    This library models the core of the cache (src/core) and the read path of the
    plug-in (src/plugin) as executable Rocq functions, and proves what makes
    them safe to put in front of an analysis: nothing that was not verified is
    served, whatever the disk, the origin or a concurrent process does.

    ** Parts of the program and where they are modelled

    Paths are under src/src. A definition keeps the name of the function it
    translates; a method cut at its lock is the composition of its locked sections.

    - Machine integers, byte lists, the state monad with [do]/[ret]: this file.
      Every [uint64_t] sum that can wrap is written [a +% b].
    - core/IOBackend.{h,cc}: IOBackend.v. The abstract class of system calls is
      the type class [IOBackend] over a world [W], what POSIX documents of them
      the class [IOLaws] over an abstract file system (names, inodes, open
      descriptors, contents). Any call may fail at any time. [MemIO] is an instance,
      with a schedule of injected faults; witnesses run on it.
    - core/vendor/crc32c.cc: Crc32c.v, Module Crc; core/vendor/sha256.cc: Sha256.v,
      Module Sha; core/UrlKey: UrlKey.v; core/PageBitmap.h: PageBitmap.v, Module
      Bitmap. The class [Checksum] is what the users of a CRC rely on: a function
      of the bytes; theorems over it hold for CRC-32C too.
    - core/MetaFile (the [.meta] sidecar): MetaFile.v, Module Meta.
    - core/FileEntry (one cached file: page bitmap, fill buffer, flush, sidecar
      commit, fetch gate): FileEntry.v, Module Entry, with its proofs in
      FileEntryInv.v, FileEntryRead.v, FileEntryFlush.v, FileEntryMeta.v.
    - core/SlotStore (converted records appended by several processes):
      SlotStore.v, Module Slots, proofs in SlotCodec.v, SlotScan.v, SlotCommit.v,
      SlotCreate.v.
    - core/ReplicaFile and core/ReplicaStore (rewritten copies stitched over the
      byte tier): ReplicaFile.v, ReplicaStore.v, proofs in ReplicaView.v (serving),
      ReplicaPublish.v (what a publish does and leaves), ReplicaAdopt.v (what a reader makes of it).
      IOFrame.v has the frame rules for code over the backend, and the backends that record
      their syncs, renames and unlinks.
    - core/CacheStore (the registry, admission, budget, eviction, cleanup, pins):
      CacheStore.v, Module Store, proofs in CacheFrame.v, CacheEvict.v, CacheOps.v,
      CacheOpen.v, CacheAdmin.v, CacheCleanup.v; Module CacheDemo of CacheFrame.v is the cache of the
      witnesses. Config.v holds the settings those components read.
    - plugin/ReadRounding.h and the read routes of plugin/UCacheFile.cc:
      WireRead.v, Module Wire, proofs in WireSpan.v (arithmetic of a wire read,
      and from the wire to the caller's buffers), WireServe.v (the
      routes from their guards to their completion). Stitch.v, Module Stitch, is the same of a
      handle with a replica view; proofs in StitchServe.v (one request) and StitchReads.v (Read,
      PgRead, VectorRead), on the frame of a cached read (FileEntryFrame.v).
    - core/ReadFootprint: Footprint.v.
    - transpose: RootFile.v (Module Root) has ROOT's key headers and frame containers
      (TreeMeta.cc, Transposer.cc). TreeMeta.v (Modules TreeData, Tree) is the parse of a TTree
      file (TreeMeta.cc): the container, the keys list, the streamed tree; proofs in TreeSafe.v
      (the record), TreeParse.v (the file), TreeSound.v (the whole, and a file byte by byte).
      Transposer.v (Module Trans) builds a replica overlay (Transposer.cc); proofs in
      TransposeBasket.v (the baskets), TransposeFinish.v (superseded ranges, tree record, keys list,
      header), TransposeSound.v (what the overlay's reader finds).
      FillLayout.v (Module Fill) is the layout a file is shown
      in while it is recompressed (FillLayout.cc), with proofs in FillHeader.v
      (the header window), FillBasket.v (conversion and placement) and FillGeometry.v (the
      layout as a whole). ReadMap.v (Module ReadMap) is transpose/ReadMap: the units of a file,
      the branches a request touches and their share; proofs in ReadShare.v (the branches,
      against a count of bytes), ReadStep.v (one step) and ReadRuns.v (the maps the parses
      give are well formed; which reads are of data).
    - core/vendor/xxh3: Xxh3.v, Module Xxh. transpose/RNTupleMeta: RNTupleMeta.v (Modules NTupleData,
      NTuple), the parse of an RNTuple file; proofs in RNTupleSafe.v (the walks of the envelopes, and the layout
      they find), RNTupleSound.v (the parse, and a file byte by byte). transpose/RNTupleRewrite:
      RNTupleRewrite.v (Module NRewrite), recompression by patch and append; proofs in RNTuplePatch.v (a layout
      is accepted by the walk; what a patched page list says), RNTupleBuild.v (the
      loops), RNTupleReads.v (what is appended and patched, read again; the parse of a
      virtual file), RNTupleSame.v (pages before and after), RNTupleReplica.v (the whole).
    - plugin/ReadRule (the max_read_fraction rule): ReadRule.v, Module Rule, the rules of a
      process as shared objects; proofs in ReadRuleSpec.v (what any call does to any rule) and
      ReadRuleLive.v (one rule's life among the others).
    - plugin/Executor (the pool) is Executor.v; plugin/OpenRetry.cc and the opening of the
      origin in UCacheFile.cc are OpenRetry.v: Module Policy (which failures are retried,
      back-off), Inner (HandleState's inner file and the lazy open of a trusted handle), Handler
      (RetryingOpenHandler, run by the pool), Users (the threads of a handle). Proofs in
      OpenLazy.v, OpenRun.v and OpenUsers.v.
    - plugin/Prefetch (read-ahead): Prefetch.v, Module Prefetch, one prediction thread: its queue of jobs, the
      state of its handles, the basket maps and switches the threads share, what is predicted and the requests on the wire.
      Proofs in PrefetchWire.v (Module PrefetchPredict: the prediction; Module PrefetchWire: what it
      asks for) and PrefetchGate.v (Module PrefetchQueue: posts and turns; Module PrefetchGate: the
      switches and the accounts).
    - plugin/ColdRun (files read in slots): ColdRun.v, Module Cold, the layout as the store keeps it, proofs in
      ColdLayout.v; Module ColdFill, the slots of a file in use and their commits, proofs in ColdSlots.v; Module ColdServe, how a
      request is cut along the layout, proofs in Module ColdView of ColdLayout.v.
    They interact as in the code: a wire read (Wire) asks an entry (Entry) for
    cached pages and hands it the origin's bytes; an entry stages them, writes
    them through the backend and commits its sidecar (Meta) with its bitmap
    (Bitmap) and CRCs (Crc); the cache root (Store) opens and releases
    entries under their keys (UrlKey, Sha) and removes closed ones together with
    their replicas (RStore) and slot stores (Slots).

    ** How state and operations correspond

    A C++ object is a record with the members' names; a member function that
    changes it is a state transformer. Operations that do I/O run in the state
    monad over (object, world). Locks: every section under a mutex is one
    function, and interleavings of threads are sequences of those functions
    ([EntryInv.step], [reachable] states); other processes act on the world between
    two sections, so theorems about files take the world as they find it. Counters
    of src/core/Stats.h that a theorem mentions are a function from names to
    numbers. Clocks, random ids and temporary-name sequences are arguments.

    ** What the theorems show

    - Serving. [readCached_verified], [replica_read_verified], [replica_end_to_end],
      [vread_served_exact], [read_miss_exact], [view_read_exact], [view_vread_exact]: bytes returned are bytes of
      the handle's own entry or overlay, of staged payloads or of pages that match their checksums,
      or exactly the origin's; every other case fails, parks or goes to the origin. [vread_miss_exact]: a vector miss is cut into legal,
      disjoint elements inside the file and scattered exactly.
    - Writing. [flush_data_before_bit], [store_atomic], [flushMeta_outcomes],
      [merge_image_exact], [concurrent_commits], [slot_commit_outcomes],
      [slot_commit_visible], [slot_create_outcomes], [replica_publish_safe],
      [replica_openView_validated]: for every schedule of failures and
      wherever the process stops, what is on disk is the old state, the new one, or
      something every reader refuses or verifies page by page.
    - State. [entry_invariant], [bitmap_refines_array], [open_one_entry_per_key],
      [replica_deserialize_sound], [deserialize_wf], [footprint_canonical].
    - The cache root. [evictNow_correct] (against the step relation
      [Evict.passes]), [cleanup_correct], [pin_changes_only_the_flag],
      [headroom_above_floor].
    - Codecs and keys. The round trips of the three file formats,
      [crc32c_any_path], [crc32c_incremental], [sha256_correct], and the theorems
      on normalization and CGI parameters.
    - The recompression layout. [header_window_correct], [layout_correct], [layout_roundtrip],
      [basket_same_content]: the reader of the patched file finds its header and decodes its baskets as it would
      those of the original.
    - The parse and the replica build. [tree_parse_safe]: on any bytes the parse stays inside its
      buffers, ends, and what it accepts is consistent with the record. [overlay_reads_as_original]:
      a built overlay is a file whose header, keys list, tree record and baskets lead its reader to
      the original's contents; [merge_exact]: what it declares superseded; [hostile_records_fault]:
      where malformed records make the build leave its buffers. [rntuple_parse_safe],
      [rntuple_reads_as_original]: the same two of an RNTuple file. [xxh3_any_path]: the digest
      does not depend on the compiler's 128-bit product, and every load is inside the input.
    - Read-ahead. [closes_come_through]: no close waits forever, or behind a fill. [silent_until_proven]: the origin
      is asked nothing before a prediction came true, in the map it was made with. [prediction_bounded], [wire_asks_absent_pages]: what is asked
      for, exactly. [wire_accounts]: no bytes and no hold on a handle outlive the requests.
    - Slots in use. [cold_request_exact]: a reader of the slot layout sees one file. [slots_invariant]: what is ready can be served, and memory is counted and bounded.
      [waiters_told]: nobody who waits is forgotten, but for the runs of [apply_drops_waiters]. [commit_punches_converted]:
      a commit frees only what a store holds converted.
    - The read rule. [groups_exact], [step_exact]: branches and shares are exactly what a
      count of bytes gives. [decision_comes]: a reader of several branches gets its decision;
      [never_direct_within]: one within the limit is never sent to the origin;
      [rules_settled], [maps_bounded]: decisions are final, and what a process holds
      is bounded. [reads_data_exact]: the runs kept after the decision lose nothing.
    - Opening. [backoff_exact], [lazy_open_exact], [open_completes_once]: both retry loops stop
      at the policy's open, on files of their own, with exact counts, and a client gets one
      completion; [open_always_completes]: it can always get it; [executor_exact]: the pool runs
      each task once, in order, delayed ones not early. [inner_file_safe]: no file in use is
      destroyed, unless a trusted handle is degraded before its lazy open is settled: [degrade_race]
      is such a run; [retry_revives] is a retry after the shutdown.
    - Boundary behaviour that the code does not intend: [deserialize_gate_wraps],
      [slot_scan_can_loop], [vread_guard_wraps], [slot_newer_lost_on_read_error],
      [frame_size_wraps].
      Each exhibits an input on which the modelled code does what its comments say
      it does not.

    ** Fuel and bounds

    A loop whose recursion is not structural takes fuel, and its theorem proves
    that the fuel given by the caller suffices: the page loops have the number of
    pages or staged pages; the complete read and write loops have the byte count
    plus the pending interruptions of the world (each round transfers a byte or
    consumes one interruption); the block scan has one unit per alignment unit left
    in the file, and out of fuel ([None]) is the endless loop of
    [slot_scan_can_loop]; a replica read one unit per page of the request; the cut loop
    of a wire read one unit per element, each non-empty; the lazy open's loop has two units
    per allowed retry and one. The bit loop of a
    footprint has 64.

    ** Choices a reader should know

    - [std::sort] on equal keys may give any order; the model uses stdpp's stable
      merge sort.
    - Worker threads over shards and victims run in index order: each touches its
      own files and result slot.
    - In WireRead.v an answer of the origin is an argument, a list of chunks or a
      failure; [None] also stands for a handle without a usable inner file.
    - libc's [fnmatch], the CPU's CRC instruction and the records' contents are
      parameters; hypotheses about them state what their documentation does.

    ** Not modelled

    - Config.cc, Stats, Trace, Log, CpuCounters: text settings and diagnostic output; no
      modelled operation reads them back, but for the settings of Config.v.
    - Of plugin/ColdRun.cc the fetches and conversions of a request, the registry and the set-up of a layout; CopyDetect.cc and the cold
      route of UCacheFile.cc, with Open's choice among a relayed, a trusted and a retried open:
      they drive XrdCl and the components above from many threads. The factory, the announcement
      and the network benchmark are glue.
    - The transpose command-line tools and [writeRewrittenRNTuple], which copies a recompression to
      a file so that ROOT can be asked to read it; in TreeMeta.cc and RNTupleMeta.cc the
      overloads that open a path or wrap a descriptor.
    - src/cli: reports, benchmarks and uploads over the operations modelled here.
    - src/core/testing: test support.
*)

From stdpp Require Export base numbers list gmap strings.
From Stdlib Require Export ZArith Lia.
#[global] Open Scope Z_scope.

(** ** Machine integers

    A [uintN_t] of the source is a [Z] in [[0, 2^N)]; [w8] .. [w64] are the
    wrap-around the C++ arithmetic applies. The moduli are literals so that
    [lia] and [vm_compute] see numbers. *)

Abbreviation p8 := 256.
Abbreviation p16 := 65536.
Abbreviation p31 := 2147483648.
Abbreviation p32 := 4294967296.
Abbreviation p63 := 9223372036854775808.
Abbreviation p64 := 18446744073709551616.

Definition w8 (z : Z) : Z := z mod p8.
Definition w16 (z : Z) : Z := z mod p16.
Definition w32 (z : Z) : Z := z mod p32.
Definition w64 (z : Z) : Z := z mod p64.

Declare Scope u64_scope.
Delimit Scope u64_scope with u64.
Notation "a +% b" := (w64 (a + b)) (at level 50, left associativity) : u64_scope.
Notation "a -% b" := (w64 (a - b)) (at level 50, left associativity) : u64_scope.
Notation "a *% b" := (w64 (a * b)) (at level 40, left associativity) : u64_scope.
#[global] Open Scope u64_scope.

Lemma w8_small z : 0 <= z < p8 -> w8 z = z.
Proof. apply Z.mod_small. Qed.
Lemma w16_small z : 0 <= z < p16 -> w16 z = z.
Proof. apply Z.mod_small. Qed.
Lemma w32_small z : 0 <= z < p32 -> w32 z = z.
Proof. apply Z.mod_small. Qed.
Lemma w64_small z : 0 <= z < p64 -> w64 z = z.
Proof. apply Z.mod_small. Qed.
Lemma w8_range z : 0 <= w8 z < p8.
Proof. apply Z.mod_pos_bound; lia. Qed.
Lemma w32_range z : 0 <= w32 z < p32.
Proof. apply Z.mod_pos_bound; lia. Qed.
Lemma w64_range z : 0 <= w64 z < p64.
Proof. apply Z.mod_pos_bound; lia. Qed.

(** The source's overflow test [off + len < off]: it fires exactly when the
    64-bit sum wraps. *)
Lemma w64_add_no_wrap a b :
  0 <= a < p64 -> 0 <= b < p64 -> a <= a +% b -> a +% b = a + b.
Proof.
  intros Ha Hb H. unfold w64 in *.
  destruct (Z.lt_ge_cases (a + b) p64) as [?|?]; [by apply Z.mod_small; lia|].
  rewrite (Z.mod_eq _ p64) in * by lia.
  assert ((a + b) / p64 = 1) as E by (symmetry; apply (Z.div_unique _ _ _ (a + b - p64)); lia).
  rewrite E in *. lia.
Qed.

Lemma w64_add_wrap a b :
  0 <= a < p64 -> 0 <= b < p64 -> p64 <= a + b -> a +% b = a + b - p64.
Proof.
  intros Ha Hb H. unfold w64. rewrite (Z.mod_eq _ p64) by lia.
  assert ((a + b) / p64 = 1) as -> by (symmetry; apply (Z.div_unique _ _ _ (a + b - p64)); lia).
  lia.
Qed.

Lemma bits_bound n x : 0 <= n -> 0 <= x < 2 ^ n <-> 0 <= x /\ Z.shiftr x n = 0.
Proof.
  intros Hn. rewrite Z.shiftr_div_pow2 by done. pose proof (Z.pow_pos_nonneg 2 n).
  split; intros [? H1]; (split; [done|]); [by apply Z.div_small|].
  apply Z.div_small_iff in H1; lia.
Qed.

(** [nowrap] removes every wrap whose argument is visibly in range. *)
Ltac nowrap := repeat match goal with
  | |- context [w64 ?x] => rewrite (w64_small x) by lia
  | |- context [w32 ?x] => rewrite (w32_small x) by lia
  | |- context [w16 ?x] => rewrite (w16_small x) by lia
  | |- context [w8 ?x] => rewrite (w8_small x) by lia
  end.
Ltac nowrap_in H := repeat match type of H with
  | context [w64 ?x] => rewrite (w64_small x) in H by lia
  | context [w32 ?x] => rewrite (w32_small x) in H by lia
  | context [w16 ?x] => rewrite (w16_small x) in H by lia
  | context [w8 ?x] => rewrite (w8_small x) in H by lia
  end.

(** Boolean tests of the code into propositions, and back. *)
Ltac b2p := repeat match goal with
  | H : (_ && _)%bool = true |- _ => apply andb_true_iff in H as [? ?]
  | H : (_ || _)%bool = false |- _ => apply orb_false_iff in H as [? ?]
  | H : negb _ = true |- _ => apply negb_true_iff in H
  | H : negb _ = false |- _ => apply negb_false_iff in H
  | H : (_ =? _) = true |- _ => apply Z.eqb_eq in H
  | H : (_ =? _) = false |- _ => apply Z.eqb_neq in H
  | H : (_ <? _) = true |- _ => apply Z.ltb_lt in H
  | H : (_ <? _) = false |- _ => apply Z.ltb_ge in H
  | H : (_ <=? _) = true |- _ => apply Z.leb_le in H
  | H : (_ <=? _) = false |- _ => apply Z.leb_gt in H
  end.

(** ** Byte buffers: a [std::vector<uint8_t>] or a [std::string] is the list of
    its bytes, indexed by [Z]. *)

Abbreviation bytes := (list Z).

Definition zlen {A} (l : list A) : Z := Z.of_nat (length l).

(** [v[i]]; out of range is undefined in the source, 0 here. *)
Definition zget (l : list Z) (i : Z) : Z := nth (Z.to_nat i) l 0.
Definition zset {A} (l : list A) (i : Z) (x : A) : list A := <[Z.to_nat i := x]> l.
(** [n] bytes from [off]. *)
Definition zsub {A} (l : list A) (off n : Z) : list A := take (Z.to_nat n) (drop (Z.to_nat off) l).
(** [memcpy(dst + off, src, size)] over a buffer that holds the target range. *)
Definition zsplice {A} (l : list A) (off : Z) (b : list A) : list A :=
  take (Z.to_nat off) l ++ b ++ drop (Z.to_nat off + length b) l.
Definition zeros (n : Z) : bytes := replicate (Z.to_nat n) 0.

Definition is_byte (b : Z) : Prop := 0 <= b < p8.

Definition is_u32 (c : Z) : Prop := 0 <= c < p32.
Definition is_u64 (c : Z) : Prop := 0 <= c < p64.

Lemma is_byte_bits b : is_byte b <-> 0 <= b /\ Z.shiftr b 8 = 0.
Proof. apply (bits_bound 8). lia. Qed.

Definition bytes_eqb (a b : bytes) : bool := bool_decide (a = b).

(** The bytes of a literal. *)
Fixpoint bs (s : string) : bytes :=
  match s with
  | EmptyString => []
  | String c s' => Z.of_N (Ascii.N_of_ascii c) :: bs s'
  end.

(** *** Lengths and pieces *)

Lemma zlen_nonneg {A} (l : list A) : 0 <= zlen l.
Proof. unfold zlen. lia. Qed.
Lemma zlen_nil {A} : zlen (@nil A) = 0.
Proof. done. Qed.
Lemma zlen_cons {A} (x : A) l : zlen (x :: l) = 1 + zlen l.
Proof. unfold zlen. simpl length. lia. Qed.
Lemma zlen_app {A} (a b : list A) : zlen (a ++ b) = zlen a + zlen b.
Proof. unfold zlen. rewrite length_app. lia. Qed.
Lemma zlen_zeros n : 0 <= n -> zlen (zeros n) = n.
Proof. unfold zlen, zeros. rewrite length_replicate. lia. Qed.
Lemma zlen_zset {A} (l : list A) i x : zlen (zset l i x) = zlen l.
Proof. unfold zlen, zset. by rewrite length_insert. Qed.
Lemma zlen_0_nil {A} (l : list A) : zlen l = 0 -> l = [].
Proof. unfold zlen. destruct l; [done|simpl; lia]. Qed.

Lemma zlen_zsub {A} (l : list A) off n :
  0 <= off -> 0 <= n -> off + n <= zlen l -> zlen (zsub l off n) = n.
Proof.
  unfold zlen, zsub. intros. rewrite length_take, length_drop. lia.
Qed.
Lemma zlen_zsub_le {A} (l : list A) off n : 0 <= n -> zlen (zsub l off n) <= n.
Proof. unfold zlen, zsub. intros. rewrite length_take. lia. Qed.

Lemma zlen_zsplice {A} (l b : list A) off :
  0 <= off -> off + zlen b <= zlen l -> zlen (zsplice l off b) = zlen l.
Proof.
  unfold zlen, zsplice. intros. rewrite !length_app, length_take, length_drop. lia.
Qed.

Lemma zsub_all {A} (l : list A) n : n = zlen l -> zsub l 0 n = l.
Proof.
  intros ->. unfold zsub, zlen. rewrite Nat2Z.id. simpl. rewrite drop_0.
  apply take_ge. lia.
Qed.

Lemma zsub_0 {A} (l : list A) off : zsub l off 0 = [].
Proof. done. Qed.

Lemma zsub_app_l {A} (a b : list A) off n :
  0 <= off -> 0 <= n -> off + n <= zlen a -> zsub (a ++ b) off n = zsub a off n.
Proof.
  unfold zsub, zlen. intros. rewrite drop_app_le by lia.
  rewrite take_app_le; [done|]. rewrite length_drop. lia.
Qed.

Lemma zsub_app_r {A} (a b : list A) off n :
  zlen a <= off -> zsub (a ++ b) off n = zsub b (off - zlen a) n.
Proof.
  unfold zsub, zlen. intros. rewrite drop_app_ge by lia. by repeat f_equal; lia.
Qed.

Lemma zsub_app {A} (a b : list A) n : n = zlen a -> zsub (a ++ b) 0 n = a.
Proof. intros ->. rewrite zsub_app_l by (pose proof (zlen_nonneg a); lia). by apply zsub_all. Qed.

(** Adjacent pieces join. *)
Lemma zsub_join {A} (l : list A) a n m :
  0 <= a -> 0 <= n -> 0 <= m -> zsub l a n ++ zsub l (a + n) m = zsub l a (n + m).
Proof.
  intros. unfold zsub. rewrite !Z2Nat.inj_add by lia.
  rewrite <- drop_drop. by rewrite take_take_drop.
Qed.

(** A piece of a piece. *)
Lemma zsub_zsub {A} (l : list A) a n b m :
  0 <= a -> 0 <= b -> 0 <= m -> b + m <= n -> zsub (zsub l a n) b m = zsub l (a + b) m.
Proof.
  intros. unfold zsub. rewrite Z2Nat.inj_add by lia.
  rewrite skipn_firstn_comm, take_take, drop_drop. f_equal. lia.
Qed.

Lemma zsub_zsplice_same {A} (l b : list A) off n :
  0 <= off -> off + zlen b <= zlen l -> n = zlen b -> zsub (zsplice l off b) off n = b.
Proof.
  intros ? ? ->. unfold zsplice.
  assert (zlen (take (Z.to_nat off) l) = off) as E
    by (unfold zlen in *; rewrite length_take; lia).
  rewrite zsub_app_r by lia. rewrite E, Z.sub_diag. by apply zsub_app.
Qed.

Lemma zsub_zsplice_before {A} (l b : list A) off o n :
  0 <= o -> 0 <= n -> o + n <= off -> off <= zlen l ->
  zsub (zsplice l off b) o n = zsub l o n.
Proof.
  intros. unfold zsplice.
  assert (zlen (take (Z.to_nat off) l) = off) as E
    by (unfold zlen in *; rewrite length_take; lia).
  rewrite zsub_app_l by lia. unfold zsub.
  rewrite skipn_firstn_comm, take_take. f_equal. lia.
Qed.

Lemma zsub_zsplice_after {A} (l b : list A) off o n :
  0 <= off -> off + zlen b <= o -> off + zlen b <= zlen l ->
  zsub (zsplice l off b) o n = zsub l o n.
Proof.
  intros. unfold zsplice. pose proof (zlen_nonneg b).
  assert (zlen (take (Z.to_nat off) l) = off) as E
    by (unfold zlen in *; rewrite length_take; lia).
  rewrite zsub_app_r by lia. rewrite E. rewrite zsub_app_r by lia.
  unfold zsub. rewrite drop_drop. f_equal. f_equal. unfold zlen in *. lia.
Qed.

Lemma zsub_zsplice_inner {A} (l b : list A) off o n :
  0 <= off -> off + zlen b <= zlen l -> off <= o -> 0 <= n -> o + n <= off + zlen b ->
  zsub (zsplice l off b) o n = zsub b (o - off) n.
Proof.
  intros. replace o with (off + (o - off)) at 1 by lia.
  rewrite <- (zsub_zsub _ off (zlen b)) by lia. by rewrite zsub_zsplice_same.
Qed.

Lemma zget_drop l n k : 0 <= n -> 0 <= k -> zget (drop (Z.to_nat n) l) k = zget l (n + k).
Proof.
  intros. unfold zget. rewrite !nth_lookup, lookup_drop. do 2 f_equal. lia.
Qed.
Lemma zlen_drop {A} (l : list A) n : 0 <= n <= zlen l -> zlen (drop (Z.to_nat n) l) = zlen l - n.
Proof. unfold zlen. intros. rewrite length_drop. lia. Qed.

(** Writing a piece over itself, or twice over the same place. *)
Lemma zsplice_zsub_id {A} (l : list A) off n :
  0 <= off -> 0 <= n -> off + n <= zlen l -> zsplice l off (zsub l off n) = l.
Proof.
  intros. unfold zsplice, zsub. rewrite length_take, length_drop.
  unfold zlen in *. rewrite Nat.min_l by lia.
  rewrite <- drop_drop. by rewrite take_drop, take_drop.
Qed.

Lemma zsplice_twice {A} (l a b : list A) off :
  0 <= off -> length a = length b -> off + zlen a <= zlen l ->
  zsplice (zsplice l off a) off b = zsplice l off b.
Proof.
  intros ? Hl ?. unfold zsplice, zlen in *.
  assert (length (take (Z.to_nat off) l) = Z.to_nat off) as E by (rewrite length_take; lia).
  rewrite take_app_le by lia. rewrite take_take, Nat.min_id. do 2 f_equal.
  rewrite app_assoc, drop_app_ge by (rewrite length_app; lia).
  rewrite length_app, E. rewrite Hl.
  replace (_ - _)%nat with 0%nat by lia. by rewrite drop_0.
Qed.

(** *** Single cells *)

Lemma zget_zset_eq l i x : 0 <= i < zlen l -> zget (zset l i x) i = x.
Proof.
  unfold zget, zset, zlen. intros. apply nth_lookup_Some.
  by apply list_lookup_insert_eq; lia.
Qed.

Lemma zget_zset_ne l i j x : 0 <= i -> 0 <= j -> i <> j -> zget (zset l i x) j = zget l j.
Proof.
  unfold zget, zset. intros. rewrite !nth_lookup.
  by rewrite list_lookup_insert_ne by lia.
Qed.

Lemma zget_zset l i j x :
  0 <= i < zlen l -> 0 <= j -> zget (zset l i x) j = if decide (i = j) then x else zget l j.
Proof.
  intros. case_decide; subst; [by apply zget_zset_eq | by apply zget_zset_ne; lia].
Qed.

Lemma zget_zeros n i : zget (zeros n) i = 0.
Proof.
  unfold zget, zeros. rewrite nth_lookup.
  destruct (replicate _ _ !! _) eqn:E; [|done]. by apply lookup_replicate in E as [-> _].
Qed.

Lemma zget_app_l a b i : 0 <= i < zlen a -> zget (a ++ b) i = zget a i.
Proof. unfold zget, zlen. intros. by rewrite app_nth1 by lia. Qed.
Lemma zget_app_r a b i : zlen a <= i -> zget (a ++ b) i = zget b (i - zlen a).
Proof. unfold zget, zlen. intros. rewrite app_nth2 by lia. f_equal. lia. Qed.

Lemma Forall_zget (P : Z -> Prop) l i : Forall P l -> P 0 -> P (zget l i).
Proof.
  intros Hl H0. unfold zget. rewrite nth_lookup.
  destruct (l !! _) eqn:E; [|done]. by eapply Forall_lookup_1.
Qed.

(** ** Little-endian fields: [put<T>] and [get<T>] of the serializers *)

Fixpoint le_bytes (n : nat) (v : Z) : bytes :=
  match n with
  | O => []
  | S n' => v mod p8 :: le_bytes n' (v / p8)
  end.

Fixpoint le_val (l : bytes) : Z :=
  match l with
  | [] => 0
  | b :: l' => b + p8 * le_val l'
  end.

(** [put<uintN_t>(buf, off, v)]: the low [n] bytes of [v]. *)
Definition putLE (n : nat) (buf : bytes) (off v : Z) : bytes := zsplice buf off (le_bytes n v).
(** [get<uintN_t>(p + off)]. *)
Definition getLE (n : nat) (buf : bytes) (off : Z) : Z := le_val (zsub buf off (Z.of_nat n)).

Lemma length_le_bytes n v : length (le_bytes n v) = n.
Proof. revert v. induction n; intros; simpl; [done|by rewrite IHn]. Qed.
Lemma zlen_le_bytes n v : zlen (le_bytes n v) = Z.of_nat n.
Proof. unfold zlen. by rewrite length_le_bytes. Qed.

Lemma le_bytes_is_byte n v : Forall is_byte (le_bytes n v).
Proof.
  revert v. induction n; intros; simpl; constructor; [|done].
  apply Z.mod_pos_bound. lia.
Qed.

Lemma le_val_bytes n v : 0 <= v < p8 ^ Z.of_nat n -> le_val (le_bytes n v) = v.
Proof.
  revert v. induction n as [|n IH]; intros v Hv.
  - change (p8 ^ Z.of_nat 0) with 1 in Hv. simpl. lia.
  - cbn [le_bytes le_val]. rewrite IH.
    + symmetry. rewrite Z.add_comm. apply Z.div_mod. lia.
    + rewrite Nat2Z.inj_succ, Z.pow_succ_r in Hv by lia. split.
      * apply Z.div_pos; lia.
      * apply Z.div_lt_upper_bound; lia.
Qed.

Lemma le_val_range l : Forall is_byte l -> 0 <= le_val l < p8 ^ zlen l.
Proof.
  induction 1 as [|b l Hb Hl IH]; [by vm_compute|].
  rewrite zlen_cons, Z.pow_add_r by (pose proof (zlen_nonneg l); lia).
  change (p8 ^ 1) with p8. unfold is_byte in Hb. cbn [le_val]. lia.
Qed.

Lemma le_bytes_val l : Forall is_byte l -> le_bytes (length l) (le_val l) = l.
Proof.
  induction 1 as [|b l Hb Hl IH]; [done|]. cbn [length le_val le_bytes].
  unfold is_byte in Hb.
  replace ((b + p8 * le_val l) mod p8) with b
    by (rewrite Z.mul_comm, Z.mod_add, Z.mod_small by lia; done).
  replace ((b + p8 * le_val l) / p8) with (le_val l).
  - by rewrite IH.
  - rewrite Z.mul_comm, Z.div_add, Z.div_small by lia. lia.
Qed.

Lemma zlen_putLE n buf off v :
  0 <= off -> off + Z.of_nat n <= zlen buf -> zlen (putLE n buf off v) = zlen buf.
Proof. intros. unfold putLE. apply zlen_zsplice; rewrite ?zlen_le_bytes; lia. Qed.

Lemma getLE_putLE_same n buf off v :
  0 <= off -> off + Z.of_nat n <= zlen buf -> 0 <= v < p8 ^ Z.of_nat n ->
  getLE n (putLE n buf off v) off = v.
Proof.
  intros. unfold getLE, putLE.
  rewrite zsub_zsplice_same; rewrite ?zlen_le_bytes; [|lia..]. by apply le_val_bytes.
Qed.

Lemma zsub_putLE_before n buf off v o m :
  0 <= o -> 0 <= m -> o + m <= off -> off <= zlen buf ->
  zsub (putLE n buf off v) o m = zsub buf o m.
Proof. apply zsub_zsplice_before. Qed.

Lemma zsub_putLE_after n buf off v o m :
  0 <= off -> off + Z.of_nat n <= o -> off + Z.of_nat n <= zlen buf ->
  zsub (putLE n buf off v) o m = zsub buf o m.
Proof. intros. apply zsub_zsplice_after; rewrite ?zlen_le_bytes; lia. Qed.

Lemma getLE_range n buf off :
  Forall is_byte buf -> 0 <= getLE n buf off < p8 ^ Z.of_nat n.
Proof.
  intros. unfold getLE.
  assert (Forall is_byte (zsub buf off (Z.of_nat n))) as Hb
    by (unfold zsub; by apply Forall_take, Forall_drop).
  pose proof (le_val_range _ Hb) as R. split; [lia|]. eapply Z.lt_le_trans; [apply R|].
  apply Z.pow_le_mono_r; [lia|]. by apply zlen_zsub_le; lia.
Qed.

Lemma Forall_zsub {A} (P : A -> Prop) l off n : Forall P l -> Forall P (zsub l off n).
Proof. intros. unfold zsub. by apply Forall_take, Forall_drop. Qed.
Lemma Forall_zsplice {A} (P : A -> Prop) l off b :
  Forall P l -> Forall P b -> Forall P (zsplice l off b).
Proof.
  intros. unfold zsplice. apply Forall_app_2; [by apply Forall_take|].
  apply Forall_app_2; [done|by apply Forall_drop].
Qed.
Lemma Forall_zeros n : Forall is_byte (zeros n).
Proof. unfold zeros. apply Forall_replicate. unfold is_byte. lia. Qed.
Lemma Forall_putLE n buf off v : Forall is_byte buf -> Forall is_byte (putLE n buf off v).
Proof. intros. apply Forall_zsplice; [done|apply le_bytes_is_byte]. Qed.

(** ** Hint databases

    [zlen] rewrites lengths of buffers; [bytes] proves that a buffer holds
    bytes. *)
Create HintDb bytes.
Create Rewrite HintDb zlen.
#[export] Hint Resolve Forall_zsub Forall_zsplice Forall_zeros Forall_putLE le_bytes_is_byte
  Forall_app_2 Forall_take Forall_drop : bytes.
#[export] Hint Extern 1 (is_byte _) => unfold is_byte; lia : bytes.
#[export] Hint Rewrite @zlen_nil @zlen_cons @zlen_app zlen_le_bytes @zlen_zset : zlen.
#[export] Hint Rewrite zlen_zeros using lia : zlen.

(** ** Counted loops

    [for (i = a; i < b; ++i)] is a fold over [zrange a b]. *)
Definition zrange (a b : Z) : list Z := seqZ a (b - a).

Lemma elem_of_zrange a b i : i ∈ zrange a b <-> a <= i < b.
Proof. unfold zrange. rewrite elem_of_seqZ. lia. Qed.
Lemma zrange_nil a b : b <= a -> zrange a b = [].
Proof. intros. unfold zrange. apply seqZ_nil. lia. Qed.
Lemma zrange_cons a b : a < b -> zrange a b = a :: zrange (a + 1) b.
Proof.
  intros. unfold zrange. rewrite seqZ_cons by lia. f_equal.
  unfold Z.succ, Z.pred. f_equal; lia.
Qed.
Lemma zrange_snoc a b : a <= b -> zrange a (b + 1) = zrange a b ++ [b].
Proof.
  intros. unfold zrange. replace (b + 1 - a) with ((b - a) + 1) by lia.
  rewrite seqZ_app by lia. f_equal. replace (a + (b - a)) with b by lia. done.
Qed.
Lemma zrange_app a b c : a <= b <= c -> zrange a c = zrange a b ++ zrange b c.
Proof.
  intros. unfold zrange. replace (c - a) with ((b - a) + (c - b)) by lia.
  rewrite seqZ_app by lia. do 2 f_equal; lia.
Qed.
Lemma NoDup_zrange a b : NoDup (zrange a b).
Proof. apply NoDup_seqZ. Qed.
Lemma zlen_zrange a b : a <= b -> zlen (zrange a b) = b - a.
Proof. intros. unfold zlen, zrange. rewrite length_seqZ. lia. Qed.

(** A loop invariant for [foldl] over a counted range. *)
Lemma foldl_zrange_ind {S} (f : S -> Z -> S) (P : Z -> S -> Prop) a b s :
  a <= b -> P a s -> (forall i s, a <= i < b -> P i s -> P (i + 1) (f s i)) ->
  P b (foldl f s (zrange a b)).
Proof.
  intros Hab H0 Hstep.
  assert (forall n : nat, a + Z.of_nat n <= b ->
    P (a + Z.of_nat n) (foldl f s (zrange a (a + Z.of_nat n)))) as G.
  { induction n as [|n IH]; intros Hn.
    - rewrite zrange_nil by lia. by rewrite Z.add_0_r.
    - rewrite Nat2Z.inj_succ. unfold Z.succ. rewrite Z.add_assoc.
      rewrite zrange_snoc by lia. rewrite foldl_app. simpl.
      apply Hstep; [lia|]. apply IH. lia. }
  specialize (G (Z.to_nat (b - a))). rewrite Z2Nat.id in G by lia.
  replace (a + (b - a)) with b in G by lia. by apply G; lia.
Qed.

Lemma foldl_map {A B S} (f : S -> B -> S) (g : A -> B) s l :
  foldl f s (map g l) = foldl (fun s x => f s (g x)) s l.
Proof. revert s. induction l; intros; [done|]. simpl. by rewrite IHl. Qed.

Lemma foldl_in_ext {A S} (f g : S -> A -> S) s l :
  (forall s x, x ∈ l -> f s x = g s x) -> foldl f s l = foldl g s l.
Proof.
  revert s. induction l as [|x l IH]; intros s H; [done|]. simpl. rewrite H by (by left).
  apply IH. intros. apply H. by right.
Qed.

(** ** A state monad for the code that talks to the backend *)

Definition M (W A : Type) : Type := W -> A * W.
Definition mret_ {W A} (a : A) : M W A := fun w => (a, w).
Definition mbind_ {W A B} (m : M W A) (k : A -> M W B) : M W B :=
  fun w => let '(a, w') := m w in k a w'.
Declare Scope io_scope.
Delimit Scope io_scope with io.
Notation "'do' x '<-' m ';' k" := (mbind_ m (fun x => k))
  (at level 10, x pattern, m at level 100, k at level 200) : io_scope.
Notation "'do_' m ';' k" := (mbind_ m (fun _ => k))
  (at level 10, m at level 100, k at level 200) : io_scope.
Notation "'ret' a" := (mret_ a) (at level 100) : io_scope.
#[global] Open Scope io_scope.

Lemma mbind_inv {W A B} (m : M W A) (k : A -> M W B) w b w'' :
  mbind_ m k w = (b, w'') -> exists a w', m w = (a, w') /\ k a w' = (b, w'').
Proof. unfold mbind_. destruct (m w) as [a w'] eqn:E. eauto. Qed.

(** ** Records written field by field

    A serializer fills a zeroed buffer with a list of writes (offset, bytes) in
    ascending order; [fields_ok] says they neither overlap nor leave the buffer. *)

Definition write_all (l : list (Z * bytes)) (buf : bytes) : bytes :=
  foldl (fun b f => zsplice b (fst f) (snd f)) buf l.

Fixpoint fields_ok (lo hi : Z) (l : list (Z * bytes)) : Prop :=
  match l with
  | [] => lo <= hi
  | (o, x) :: l' => lo <= o /\ fields_ok (o + zlen x) hi l'
  end.

Lemma fields_ok_le lo hi l : fields_ok lo hi l -> lo <= hi.
Proof.
  revert lo. induction l as [|[o x] l IH]; intros lo; simpl; [done|].
  intros [? H%IH]. pose proof (zlen_nonneg x). lia.
Qed.

Lemma fields_ok_weaken lo lo' hi l : lo' <= lo -> fields_ok lo hi l -> fields_ok lo' hi l.
Proof. destruct l as [|[o x] l]; simpl; intros; [lia|]. split; [lia|tauto]. Qed.

Lemma write_all_len l buf lo :
  0 <= lo -> fields_ok lo (zlen buf) l -> zlen (write_all l buf) = zlen buf.
Proof.
  revert buf lo. induction l as [|[o x] l IH]; intros buf lo Hlo; [done|]. cbn.
  intros [? Hl]. pose proof (zlen_nonneg x). pose proof (fields_ok_le _ _ _ Hl).
  assert (zlen (zsplice buf o x) = zlen buf) as E by (apply zlen_zsplice; lia).
  unfold write_all in IH. rewrite (IH _ (o + zlen x)); [done|lia|by rewrite E].
Qed.

Lemma write_all_hole l buf lo o n :
  0 <= lo -> fields_ok lo (zlen buf) l -> 0 <= o -> 0 <= n ->
  (forall f, f ∈ l -> o + n <= fst f \/ fst f + zlen (snd f) <= o) ->
  zsub (write_all l buf) o n = zsub buf o n.
Proof.
  revert buf lo. induction l as [|[o' x] l IH]; intros buf lo Hlo Hf Ho Hn Hd; [done|].
  destruct Hf as [? Hl]. pose proof (zlen_nonneg x). pose proof (fields_ok_le _ _ _ Hl).
  cbn. fold (write_all l (zsplice buf o' x)).
  assert (zlen (zsplice buf o' x) = zlen buf) as E by (apply zlen_zsplice; lia).
  rewrite (IH _ (o' + zlen x)); [|lia|by rewrite E|done|done|intros; apply Hd; by right].
  destruct (Hd (o', x)) as [Hb|Hb]; [by left|cbn in Hb..].
  - by apply zsub_zsplice_before; lia.
  - by apply zsub_zsplice_after; lia.
Qed.

Lemma write_all_get l buf lo o x n :
  0 <= lo -> fields_ok lo (zlen buf) l -> (o, x) ∈ l -> n = zlen x ->
  zsub (write_all l buf) o n = x.
Proof.
  intros Hlo Hf Hin ->. revert buf lo Hlo Hf. induction l as [|[o' x'] l IH]; intros buf lo Hlo Hf;
    [by apply elem_of_nil in Hin|].
  destruct Hf as [? Hl]. pose proof (zlen_nonneg x'). pose proof (fields_ok_le _ _ _ Hl).
  cbn. fold (write_all l (zsplice buf o' x')).
  assert (zlen (zsplice buf o' x') = zlen buf) as E by (apply zlen_zsplice; lia).
  apply elem_of_cons in Hin as [[= -> ->]|Hin].
  - rewrite (write_all_hole _ _ (o' + zlen x')); [|lia|by rewrite E|lia|lia|].
    + apply zsub_zsplice_same; lia.
    + intros f Hfl. left. clear -Hfl Hl. revert Hl. generalize (o' + zlen x'). intros lo Hl.
      induction l as [|[o1 x1] l IH] in lo, Hl, Hfl |- *; [by apply elem_of_nil in Hfl|].
      destruct Hl as [? Hl]. pose proof (zlen_nonneg x1).
      apply elem_of_cons in Hfl as [->|Hfl]; [cbn; lia|]. specialize (IH Hfl _ Hl). lia.
  - apply (IH Hin _ (o' + zlen x')); [lia|by rewrite E].
Qed.

Lemma write_all_bytes l buf :
  Forall is_byte buf -> Forall (fun f => Forall is_byte (snd f)) l ->
  Forall is_byte (write_all l buf).
Proof.
  intros Hb Hl. revert buf Hb. induction Hl; intros; cbn; [done|].
  apply IHHl. by apply Forall_zsplice.
Qed.

(** A field read back as an integer. *)
Lemma write_all_getLE l buf lo o k v :
  0 <= lo -> fields_ok lo (zlen buf) l -> (o, le_bytes k v) ∈ l -> 0 <= v < p8 ^ Z.of_nat k ->
  getLE k (write_all l buf) o = v.
Proof.
  intros. unfold getLE. erewrite write_all_get; eauto; [by apply le_val_bytes|by rewrite zlen_le_bytes].
Qed.

Lemma zsub_zeros n o m : 0 <= o -> 0 <= m -> o + m <= n -> zsub (zeros n) o m = zeros m.
Proof.
  intros. unfold zsub, zeros. rewrite drop_replicate, take_replicate. f_equal. lia.
Qed.

(** Patching a 4-byte field that holds zeros and zeroing it again is the identity:
    the checksum field during and after the digest pass. *)
Lemma putLE_zero_back buf o v :
  0 <= o -> o + 4 <= zlen buf -> zsub buf o 4 = zeros 4 ->
  putLE 4 (putLE 4 buf o v) o 0 = buf.
Proof.
  intros Ho Hl Hz. unfold putLE.
  rewrite zsplice_twice by (rewrite ?length_le_bytes, ?zlen_le_bytes; done || lia).
  change (le_bytes 4 0) with (zeros 4). rewrite <- Hz. apply zsplice_zsub_id; lia.
Qed.

Lemma getLE_putLE_before n m buf off v o :
  0 <= o -> o + Z.of_nat n <= off -> off <= zlen buf ->
  getLE n (putLE m buf off v) o = getLE n buf o.
Proof. intros. unfold getLE. rewrite zsub_putLE_before by lia. done. Qed.
Lemma getLE_putLE_after n m buf off v o :
  0 <= off -> off + Z.of_nat m <= o -> off + Z.of_nat m <= zlen buf ->
  getLE n (putLE m buf off v) o = getLE n buf o.
Proof. intros. unfold getLE. rewrite zsub_putLE_after by lia. done. Qed.

(** ** Images with a checksum patched in: fields over zeros, then 4 bytes at [c] *)
Definition sealed (l : list (Z * bytes)) (total c v : Z) : bytes :=
  putLE 4 (write_all l (zeros total)) c v.

Section sealed.
Context (l : list (Z * bytes)) (total c v : Z).
Hypothesis (Hl : fields_ok 0 total l) (Hc : 0 <= c) (Hct : c + 4 <= total).

Lemma sealed_buf_len : zlen (write_all l (zeros total)) = total.
Proof using Hl Hc Hct.
  rewrite (write_all_len _ _ 0); [apply zlen_zeros; lia|lia|]. by rewrite zlen_zeros by lia.
Qed.

Lemma zlen_sealed : zlen (sealed l total c v) = total.
Proof using Hl Hc Hct. unfold sealed. rewrite zlen_putLE; rewrite ?sealed_buf_len; lia. Qed.

Lemma sealed_sub o x n :
  (o, x) ∈ l -> n = zlen x -> 0 <= o -> (o + n <= c \/ c + 4 <= o) -> zsub (sealed l total c v) o n = x.
Proof using Hl Hc Hct.
  intros Hin -> Ho Hd. pose proof sealed_buf_len as Hb. pose proof (zlen_nonneg x).
  assert (zsub (write_all l (zeros total)) o (zlen x) = x) as E.
  { apply (write_all_get _ _ 0); [lia| |done|done]. by rewrite zlen_zeros by lia. }
  unfold sealed. destruct Hd.
  - rewrite zsub_putLE_before by lia. done.
  - rewrite zsub_putLE_after by lia. done.
Qed.

Lemma sealed_get k o x :
  (o, le_bytes k x) ∈ l -> 0 <= o -> (o + Z.of_nat k <= c \/ c + 4 <= o) -> 0 <= x < p8 ^ Z.of_nat k ->
  getLE k (sealed l total c v) o = x.
Proof using Hl Hc Hct.
  intros. unfold getLE. rewrite (sealed_sub o (le_bytes k x)); [by apply le_val_bytes|done| |done|done].
  by rewrite zlen_le_bytes.
Qed.

Lemma sealed_prefix n : 0 <= n <= c -> zsub (sealed l total c v) 0 n = zsub (write_all l (zeros total)) 0 n.
Proof using Hl Hc Hct. intros. unfold sealed. apply zsub_putLE_before; rewrite ?sealed_buf_len; lia. Qed.

Lemma sealed_seal : is_u32 v -> getLE 4 (sealed l total c v) c = v.
Proof using Hl Hc Hct. intros. apply getLE_putLE_same; rewrite ?sealed_buf_len; try done; lia. Qed.

Lemma sealed_bytes : Forall (fun f => Forall is_byte (snd f)) l -> Forall is_byte (sealed l total c v).
Proof using. intros. apply Forall_putLE, write_all_bytes; [apply Forall_zeros|done]. Qed.
End sealed.

(** ** Arrays of fixed-width integers *)
Definition le_array (k : nat) (l : list Z) : bytes := concat (map (le_bytes k) l).

Lemma zlen_le_array k l : zlen (le_array k l) = Z.of_nat k * zlen l.
Proof.
  induction l as [|x l IH]; [unfold zlen; simpl; lia|].
  unfold le_array in *. cbn [map concat]. rewrite zlen_app, zlen_le_bytes, IH, zlen_cons. lia.
Qed.

Lemma le_array_bytes k l : Forall is_byte (le_array k l).
Proof.
  induction l; [constructor|]. unfold le_array in *. cbn [map concat].
  apply Forall_app_2; [apply le_bytes_is_byte|done].
Qed.

Lemma le_array_get k l i v pre post :
  l !! i = Some v -> 0 <= v < p8 ^ Z.of_nat k ->
  getLE k (pre ++ le_array k l ++ post) (zlen pre + Z.of_nat k * Z.of_nat i) = v.
Proof.
  intros Hi Hv. unfold getLE. rewrite zsub_app_r by lia.
  replace (zlen pre + Z.of_nat k * Z.of_nat i - zlen pre) with (Z.of_nat k * Z.of_nat i) by lia.
  clear pre. revert l Hi. induction i as [|i IH]; intros [|x l] Hi; simplify_eq/=.
  - unfold le_array. cbn [map concat]. rewrite Z.mul_0_r, <- app_assoc.
    rewrite zsub_app by (by rewrite zlen_le_bytes). by apply le_val_bytes.
  - unfold le_array. cbn [map concat]. rewrite <- app_assoc.
    rewrite zsub_app_r by (rewrite zlen_le_bytes; lia). rewrite zlen_le_bytes.
    etransitivity; [|exact (IH l Hi)]. do 2 f_equal. lia.
Qed.

(** Reading an array back from the buffer that holds it. *)
Definition get_array (k : nat) (buf : bytes) (off n : Z) : list Z :=
  map (fun i => getLE k buf (off + Z.of_nat k * i)) (zrange 0 n).

Lemma zlen_get_array k buf off n : 0 <= n -> zlen (get_array k buf off n) = n.
Proof.
  intros. unfold get_array, zlen. rewrite length_map. fold (zlen (zrange 0 n)).
  rewrite zlen_zrange; lia.
Qed.

Lemma get_array_le_array k buf off l :
  0 <= off -> zsub buf off (Z.of_nat k * zlen l) = le_array k l ->
  off + Z.of_nat k * zlen l <= zlen buf ->
  Forall (fun v => 0 <= v < p8 ^ Z.of_nat k) l ->
  get_array k buf off (zlen l) = l.
Proof.
  intros Hoff Hsub Hlen Hv. pose proof (zlen_nonneg l).
  assert (buf = zsub buf 0 off ++ le_array k l ++ drop (Z.to_nat (off + Z.of_nat k * zlen l)) buf) as Hb.
  { rewrite <- Hsub, app_assoc.
    pose proof (zsub_join buf 0 off (Z.of_nat k * zlen l)) as J. rewrite Z.add_0_l in J. rewrite J by lia.
    unfold zsub. rewrite drop_0. by rewrite take_drop. }
  assert (zlen (zsub buf 0 off) = off) as Ho by (apply zlen_zsub; lia).
  apply list_eq. intros i. unfold get_array. rewrite list_lookup_fmap.
  destruct (l !! i) as [v|] eqn:Ei.
  - assert (zrange 0 (zlen l) !! i = Some (Z.of_nat i)) as ->.
    { apply lookup_seqZ. split; [lia|]. apply lookup_lt_Some in Ei. unfold zlen. lia. }
    cbn. f_equal. rewrite Hb.
    replace (off + Z.of_nat k * Z.of_nat i) with (zlen (zsub buf 0 off) + Z.of_nat k * Z.of_nat i)
      by (by rewrite Ho).
    apply le_array_get; [done|]. by eapply (Forall_lookup_1 _ _ _ _ Hv).
  - apply lookup_ge_None in Ei. replace (zrange 0 (zlen l) !! i) with (@None Z); [done|].
    symmetry. apply lookup_ge_None. unfold zrange. rewrite length_seqZ. unfold zlen. lia.
Qed.
