(* ===== verification/Crc32c.v ===== *)
(** * CRC-32C (src/core/vendor/crc32c.cc)

    The checksum every sidecar, page and record of the cache is verified with.
    The software path (table lookups, slice-by-8 between an alignment head and a
    byte tail) and the hardware path (the CPU's CRC32 instructions, which are
    parameters here) are translated; both are proved equal to the bit-serial
    definition of the polynomial, for every alignment of the buffer, and the
    incremental interface is proved to compose. *)

From S2P Require Import Prelude.

Module Crc.

(** ** The bit-serial definition

    The reflected Castagnoli polynomial; one step per bit on a 32-bit state. *)
Definition poly : Z := 0x82F63B78.

Definition crc_bit (c : Z) : Z :=
  if Z.testbit c 0 then Z.lxor poly (Z.shiftr c 1) else Z.shiftr c 1.

Definition crc_bits (n : nat) (c : Z) : Z := Nat.iter n crc_bit c.

(** One input byte. *)
Definition crc_byte (c b : Z) : Z := crc_bits 8 (Z.lxor c b).

(** The reference: state inverted on entry and exit, byte after byte. *)
Definition crc_spec (crc : Z) (data : bytes) : Z :=
  Z.lxor (foldl crc_byte (Z.lxor crc 0xFFFFFFFF) data) 0xFFFFFFFF.

(** ** The implementation *)

(** [initTables]: [table[0][i]] by eight bit steps, the others from it. *)
Definition table0 : list Z :=
  map (fun i => Nat.iter 8 (fun c => if Z.land c 1 =? 1 then Z.lxor poly (Z.shiftr c 1)
                                     else Z.shiftr c 1) i) (zrange 0 256).

Definition next_table (prev : list Z) : list Z :=
  map (fun i => Z.lxor (zget table0 (Z.land (zget prev i) 0xFF)) (Z.shiftr (zget prev i) 8))
      (zrange 0 256).

Definition initTables : list (list Z) :=
  let t1 := next_table table0 in let t2 := next_table t1 in let t3 := next_table t2 in
  let t4 := next_table t3 in let t5 := next_table t4 in let t6 := next_table t5 in
  let t7 := next_table t6 in
  [table0; t1; t2; t3; t4; t5; t6; t7].

Definition table : list (list Z) := Eval vm_compute in initTables.

Definition tbl (s : nat) (i : Z) : Z := zget (nth s table []) i.

(** [crc = table[0][(crc ^ *p++) & 0xFF] ^ (crc >> 8)]. *)
Definition sw_byte (crc b : Z) : Z :=
  Z.lxor (tbl 0 (Z.land (Z.lxor crc b) 0xFF)) (Z.shiftr crc 8).

(** One 8-byte slice: the little-endian word is xored with the state and its
    eight bytes looked up in the eight tables. *)
Definition sw_word (crc : Z) (w8bytes : bytes) : Z :=
  let v := Z.lxor (le_val w8bytes) crc in
  let byte k := Z.land (Z.shiftr v (8 * k)) 0xFF in
  Z.lxor (Z.lxor (Z.lxor (Z.lxor (Z.lxor (Z.lxor (Z.lxor
    (tbl 7 (Z.land v 0xFF)) (tbl 6 (byte 1))) (tbl 5 (byte 2))) (tbl 4 (byte 3)))
    (tbl 3 (byte 4))) (tbl 2 (byte 5))) (tbl 1 (byte 6))) (tbl 0 (byte 7)).

(** The three loops of [swCrc] and [hwCrc] differ only in their steps: bytes up
    to an 8-aligned address, whole words, the remaining bytes. [addr] is the
    address of the buffer. *)
Section loops.
Context {S : Type} (step1 : S -> Z -> S) (step8 : S -> bytes -> S).

Definition head_len (addr len : Z) : Z := Z.min len ((8 - addr mod 8) mod 8).

Fixpoint words (fuel : nat) (c : S) (p : bytes) : S :=
  match fuel with
  | O => c
  | Datatypes.S k =>
      if zlen p <? 8 then foldl step1 c p
      else words k (step8 c (zsub p 0 8)) (drop 8 p)
  end.

Definition crc_loops (addr : Z) (c : S) (p : bytes) : S :=
  let h := Z.to_nat (head_len addr (zlen p)) in
  words (Datatypes.S (length p)) (foldl step1 c (take h p)) (drop h p).
End loops.

Definition swCrc (addr crc : Z) (p : bytes) : Z :=
  Z.lxor (crc_loops sw_byte sw_word addr (Z.lxor crc 0xFFFFFFFF) p) 0xFFFFFFFF.

(** The hardware path: the intrinsics [_mm_crc32_u8]/[_mm_crc32_u64] (x86) and
    [__crc32cb]/[__crc32cd] (AArch64) are the CPU's, parameters here. *)
Section hardware.
Context (crc32_u8 : Z -> Z -> Z) (crc32_u64 : Z -> Z -> Z).

Definition hwCrc (addr crc : Z) (p : bytes) : Z :=
  Z.lxor (w32 (crc_loops (fun c b => crc32_u8 (w32 c) b) (fun c w => crc32_u64 c (le_val w))
                 addr (Z.lxor crc 0xFFFFFFFF) p)) 0xFFFFFFFF.
End hardware.

(** [crc32c(crc, data, len)]: the hardware path where the CPU has one ([useHw]),
    the tables otherwise; [addr] is where the buffer happens to lie. *)
Definition crc32c_at (useHw : bool) (crc32_u8 crc32_u64 : Z -> Z -> Z)
    (addr crc : Z) (p : bytes) : Z :=
  if useHw then hwCrc crc32_u8 crc32_u64 addr crc p else swCrc addr crc p.

(** The function the rest of the cache sees (the software path of a buffer at an
    aligned address; [crc32c_any_path] below shows the choice is immaterial). *)
Definition crc32c (crc : Z) (p : bytes) : Z := swCrc 0 crc p.

(** ** The bit steps are linear *)

Lemma crc_bit_xor c : crc_bit c = Z.lxor (Z.shiftr c 1) (if Z.testbit c 0 then poly else 0).
Proof. unfold crc_bit. destruct (Z.testbit c 0); [by rewrite Z.lxor_comm|by rewrite Z.lxor_0_r]. Qed.

Lemma crc_bit_lxor a b : crc_bit (Z.lxor a b) = Z.lxor (crc_bit a) (crc_bit b).
Proof.
  rewrite !crc_bit_xor, Z.shiftr_lxor, Z.lxor_spec.
  assert (forall p q r s, Z.lxor (Z.lxor p q) (Z.lxor r s) = Z.lxor (Z.lxor p r) (Z.lxor q s)) as X
    by (intros; rewrite !Z.lxor_assoc; f_equal; rewrite <- !Z.lxor_assoc; f_equal; apply Z.lxor_comm).
  rewrite X. f_equal.
  destruct (Z.testbit a 0), (Z.testbit b 0); simpl xorb; rewrite ?Z.lxor_0_r, ?Z.lxor_0_l; try done.
Qed.

Lemma crc_bits_lxor n a b : crc_bits n (Z.lxor a b) = Z.lxor (crc_bits n a) (crc_bits n b).
Proof. induction n as [|n IH]; [done|]. unfold crc_bits in *. simpl. by rewrite IH, crc_bit_lxor. Qed.

Lemma crc_bits_add n m c : crc_bits (n + m) c = crc_bits n (crc_bits m c).
Proof. unfold crc_bits. apply Nat.iter_add. Qed.

Lemma crc_bits_shiftl n x : crc_bits n (Z.shiftl x (Z.of_nat n)) = x.
Proof.
  induction n as [|n IH]; [by rewrite Z.shiftl_0_r|].
  replace (S n) with (n + 1)%nat by lia. rewrite crc_bits_add.
  replace (crc_bits 1 (Z.shiftl x (Z.of_nat (n + 1)))) with (Z.shiftl x (Z.of_nat n)); [done|].
  change (crc_bits 1 ?c) with (crc_bit c). rewrite crc_bit_xor.
  rewrite Z.shiftl_spec_low by lia. rewrite Z.lxor_0_r, Z.shiftr_shiftl_l by lia.
  f_equal. lia.
Qed.

Lemma split_byte x : x = Z.lxor (Z.land x 255) (Z.shiftl (Z.shiftr x 8) 8).
Proof.
  apply Z.bits_inj'. intros n Hn. rewrite Z.lxor_spec, Z.land_spec.
  change 255 with (Z.ones 8). destruct (Z.lt_ge_cases n 8).
  - rewrite Z.ones_spec_low, Z.shiftl_spec_low, andb_true_r, xorb_false_r by lia. done.
  - rewrite Z.ones_spec_high, andb_false_r, Z.shiftl_spec, Z.shiftr_spec by lia.
    rewrite xorb_false_l. f_equal. lia.
Qed.

(** Peeling the low byte off the state. *)
Lemma crc_bits_peel k n x :
  k = (n + 8)%nat ->
  crc_bits k x = Z.lxor (crc_bits k (Z.land x 255)) (crc_bits n (Z.shiftr x 8)).
Proof.
  intros ->.
  rewrite (split_byte x) at 1. rewrite crc_bits_lxor. f_equal.
  rewrite crc_bits_add. f_equal. apply (crc_bits_shiftl 8).
Qed.

(** ** The tables hold what the bit steps compute *)

Lemma table_init : table = initTables.
Proof. vm_compute. reflexivity. Qed.

Lemma tbl_spec (s : nat) i : (s < 8)%nat -> 0 <= i < 256 -> tbl s i = crc_bits (s * 8 + 8) i.
Proof.
  intros Hs Hi.
  assert (forallb (fun s => forallb (fun i => tbl s i =? crc_bits (s * 8 + 8) i) (zrange 0 256))
            (seq 0 8) = true) as C by (vm_compute; reflexivity).
  rewrite forallb_forall in C. specialize (C s). rewrite in_seq in C. specialize (C ltac:(lia)).
  rewrite forallb_forall in C. apply Z.eqb_eq, C.
  apply list_elem_of_In, elem_of_zrange. lia.
Qed.

Lemma land_255 x : 0 <= Z.land x 255 < 256.
Proof. change 255 with (Z.ones 8). rewrite Z.land_ones by lia. apply Z.mod_pos_bound. lia. Qed.

Lemma is_byte_shiftr b : is_byte b -> Z.shiftr b 8 = 0.
Proof. intros H. apply is_byte_bits in H. tauto. Qed.

Lemma sw_byte_spec c b : is_byte b -> sw_byte c b = crc_byte c b.
Proof.
  intros Hb. unfold sw_byte, crc_byte. rewrite (crc_bits_peel 8 0) by done.
  rewrite tbl_spec by (lia || apply land_255). change (0 * 8 + 8)%nat with 8%nat. f_equal.
  change (crc_bits 0 ?x) with x. by rewrite Z.shiftr_lxor, (is_byte_shiftr b), Z.lxor_0_r.
Qed.

Lemma byte_plus_shift b v : is_byte b -> 0 <= v -> b + 256 * v = Z.lxor b (Z.shiftl v 8).
Proof.
  intros Hb Hv. unfold is_byte in Hb.
  rewrite <- Z.add_nocarry_lxor; [rewrite Z.shiftl_mul_pow2 by lia; lia|].
  apply Z.bits_inj'. intros n Hn. rewrite Z.land_spec, Z.bits_0.
  destruct (Z.lt_ge_cases n 8).
  - rewrite Z.shiftl_spec_low by lia. apply andb_false_r.
  - replace (Z.testbit b n) with false; [done|]. symmetry.
    apply Z.bits_above_log2; [lia|]. destruct (Z.eq_dec b 0) as [->|]; [simpl; lia|].
    apply Z.log2_lt_pow2; [lia|]. eapply Z.lt_le_trans; [apply Hb|].
    change 256 with (2 ^ 8). apply Z.pow_le_mono_r; lia.
Qed.

(** Feeding bytes one at a time is feeding their little-endian word. *)
Lemma foldl_crc_byte c l :
  Forall is_byte l -> foldl crc_byte c l = crc_bits (length l * 8) (Z.lxor c (le_val l)).
Proof.
  intros Hl. revert c. induction Hl as [|b l Hb Hl IH]; intros c.
  { simpl. by rewrite Z.lxor_0_r. }
  cbn [foldl length le_val]. rewrite IH.
  replace (S (length l) * 8)%nat with (length l * 8 + 8)%nat by lia.
  rewrite crc_bits_add. f_equal. unfold crc_byte.
  rewrite byte_plus_shift by (done || apply le_val_range; done).
  rewrite <- Z.lxor_assoc, (crc_bits_lxor 8 (Z.lxor c b)). f_equal.
  symmetry. apply (crc_bits_shiftl 8).
Qed.

Lemma lxor_u32_le64 a c : 0 <= a < p64 -> 0 <= c < p64 -> Z.shiftr (Z.lxor a c) 64 = 0.
Proof.
  intros. rewrite Z.shiftr_lxor. rewrite !Z.shiftr_div_pow2 by lia.
  change (2 ^ 64) with p64. rewrite !Z.div_small by lia. done.
Qed.

Lemma sw_word_spec c w :
  Forall is_byte w -> length w = 8%nat -> 0 <= c < p64 -> sw_word c w = foldl crc_byte c w.
Proof.
  intros Hw Hl Hc. rewrite foldl_crc_byte, Hl, (Z.lxor_comm c) by done.
  assert (Z.shiftr (Z.lxor (le_val w) c) 64 = 0) as Htop.
  { apply lxor_u32_le64; [|done]. pose proof (le_val_range w Hw) as R. unfold zlen in R.
    rewrite Hl in R. exact R. }
  unfold sw_word. cbv zeta. remember (Z.lxor (le_val w) c) as x.
  rewrite !tbl_spec by (lia || apply land_255).
  cbn [Nat.mul Nat.add]. cbn [Z.mul Pos.mul].
  rewrite (crc_bits_peel 64 56 x), (crc_bits_peel 56 48 (Z.shiftr x 8)) by done.
  rewrite !Z.shiftr_shiftr by lia. change (8 + 8) with 16. change (8 + 8) with 16.
  rewrite (crc_bits_peel 48 40 (Z.shiftr x 16)), (crc_bits_peel 40 32 (Z.shiftr _ 8)) by done.
  rewrite !Z.shiftr_shiftr by lia. change (16 + 8) with 24. change (24 + 8) with 32.
  rewrite (crc_bits_peel 32 24 (Z.shiftr x 32)), (crc_bits_peel 24 16 (Z.shiftr _ 8)) by done.
  rewrite !Z.shiftr_shiftr by lia. change (32 + 8) with 40. change (40 + 8) with 48.
  rewrite (crc_bits_peel 16 8 (Z.shiftr x 48)), (crc_bits_peel 8 0 (Z.shiftr _ 8)) by done.
  rewrite !Z.shiftr_shiftr by lia. change (48 + 8) with 56. change (56 + 8) with 64.
  rewrite Htop. change (crc_bits 0 0) with 0. rewrite Z.lxor_0_r.
  by rewrite !Z.lxor_assoc.
Qed.

(** ** The loops

    For any pair of steps that agree, the alignment head, the words and the tail
    together feed every byte once, in order. [P] is what the state satisfies. *)
Section loops_correct.
Context {S : Type} (step1 : S -> Z -> S) (step8 : S -> bytes -> S) (P : S -> Prop).
Hypothesis P_step1 : forall c b, P c -> is_byte b -> P (step1 c b).
Hypothesis step8_ok : forall c w, P c -> Forall is_byte w -> length w = 8%nat ->
  step8 c w = foldl step1 c w.

Lemma P_foldl c p : P c -> Forall is_byte p -> P (foldl step1 c p).
Proof. intros Hc Hp. revert c Hc. induction Hp; intros; simpl; eauto. Qed.

Lemma words_foldl fuel c p :
  P c -> Forall is_byte p -> (length p < fuel)%nat -> words step1 step8 fuel c p = foldl step1 c p.
Proof.
  revert c p. induction fuel as [|fuel IH]; intros c p Hc Hp Hf; [lia|]. simpl.
  destruct (zlen p <? 8) eqn:E; b2p; [done|]. unfold zlen in E.
  assert (length (zsub p 0 8) = 8%nat) as L
    by (unfold zsub; rewrite length_take, length_drop; lia).
  rewrite step8_ok; [|done|by apply Forall_zsub|done].
  rewrite IH; [|by apply P_foldl; auto with bytes|by apply Forall_drop|rewrite length_drop; lia].
  rewrite <- foldl_app. f_equal. apply (take_drop 8).
Qed.

Lemma crc_loops_foldl addr c p :
  P c -> Forall is_byte p -> crc_loops step1 step8 addr c p = foldl step1 c p.
Proof.
  intros Hc Hp. unfold crc_loops. rewrite words_foldl.
  - by rewrite <- foldl_app, take_drop.
  - by apply P_foldl; auto with bytes.
  - by apply Forall_drop.
  - rewrite length_drop. lia.
Qed.
End loops_correct.

Lemma u32_bits c : is_u32 c <-> 0 <= c /\ Z.shiftr c 32 = 0.
Proof. apply (bits_bound 32). lia. Qed.

Lemma is_u32_lxor a b : is_u32 a -> is_u32 b -> is_u32 (Z.lxor a b).
Proof.
  rewrite !u32_bits. intros [? Ha] [? Hb]. split; [by apply Z.lxor_nonneg|].
  by rewrite Z.shiftr_lxor, Ha, Hb.
Qed.

Lemma is_u32_byte b : is_byte b -> is_u32 b.
Proof. unfold is_byte, is_u32. lia. Qed.

Lemma crc_bit_u32 c : is_u32 c -> is_u32 (crc_bit c).
Proof.
  intros Hc. rewrite crc_bit_xor. apply is_u32_lxor.
  - unfold is_u32 in *. rewrite Z.shiftr_div_pow2 by lia. split; [apply Z.div_pos; lia|].
    apply Z.div_lt_upper_bound; lia.
  - unfold is_u32, poly. destruct (Z.testbit c 0); lia.
Qed.

Lemma crc_byte_u32 c b : is_u32 c -> is_byte b -> is_u32 (crc_byte c b).
Proof.
  intros. unfold crc_byte, crc_bits. apply Nat.iter_invariant; [intros; by apply crc_bit_u32|].
  by apply is_u32_lxor; [|apply is_u32_byte].
Qed.

Lemma foldl_sw_byte c p : Forall is_byte p -> foldl sw_byte c p = foldl crc_byte c p.
Proof.
  intros Hp. revert c. induction Hp; intros; [done|]. simpl. by rewrite sw_byte_spec.
Qed.

Lemma is_u32_ones : is_u32 0xFFFFFFFF.
Proof. unfold is_u32. lia. Qed.

Lemma swCrc_spec addr crc p :
  is_u32 crc -> Forall is_byte p -> swCrc addr crc p = crc_spec crc p.
Proof.
  intros Hc Hp. unfold swCrc, crc_spec. f_equal.
  rewrite (crc_loops_foldl sw_byte sw_word is_u32).
  - by apply foldl_sw_byte.
  - intros. rewrite sw_byte_spec by done. by apply crc_byte_u32.
  - intros c w Hcu Hw Hl. rewrite foldl_sw_byte by done. apply sw_word_spec; try done.
    unfold is_u32 in Hcu. lia.
  - apply is_u32_lxor; [done|apply is_u32_ones].
  - done.
Qed.

Lemma crc_spec_u32 crc p : is_u32 crc -> Forall is_byte p -> is_u32 (crc_spec crc p).
Proof.
  intros. apply is_u32_lxor; [|apply is_u32_ones].
  apply (P_foldl crc_byte); [apply crc_byte_u32| |done].
  apply is_u32_lxor; [done|apply is_u32_ones].
Qed.

Lemma crc_spec_app crc a b : crc_spec crc (a ++ b) = crc_spec (crc_spec crc a) b.
Proof.
  unfold crc_spec. rewrite foldl_app. do 2 f_equal.
  by rewrite Z.lxor_assoc, Z.lxor_nilpotent, Z.lxor_0_r.
Qed.

(** ** The hardware path

    What the instruction set documents of the CRC32 instructions: one consumes a
    byte, the other eight, little-endian. *)
Class HwCrc (crc32_u8 crc32_u64 : Z -> Z -> Z) : Prop := {
  hw_u8 : forall c b, is_u32 c -> is_byte b -> crc32_u8 c b = crc_byte c b;
  hw_u64 : forall c v, is_u32 c -> 0 <= v < p64 ->
    crc32_u64 c v = foldl crc_byte c (le_bytes 8 v)
}.

Lemma hwCrc_spec u8 u64 `{!HwCrc u8 u64} addr crc p :
  is_u32 crc -> Forall is_byte p -> hwCrc u8 u64 addr crc p = crc_spec crc p.
Proof.
  intros Hc Hp. unfold hwCrc, crc_spec. f_equal.
  assert (forall c p, is_u32 c -> Forall is_byte p ->
    foldl (fun c b => u8 (w32 c) b) c p = foldl crc_byte c p /\ is_u32 (foldl crc_byte c p)) as F.
  { intros c q Hcu Hq. revert c Hcu. induction Hq; intros; simpl; [done|].
    rewrite w32_small by done. rewrite hw_u8 by done. apply IHHq. by apply crc_byte_u32. }
  assert (is_u32 (Z.lxor crc 4294967295)) as Hi by (apply is_u32_lxor; [done|apply is_u32_ones]).
  rewrite (crc_loops_foldl _ _ is_u32).
  - destruct (F _ _ Hi Hp) as [-> ?]. by apply w32_small.
  - intros c b Hcu Hb. rewrite w32_small, hw_u8 by done. by apply crc_byte_u32.
  - intros c w Hcu Hw Hl. destruct (F c w Hcu Hw) as [-> _].
    pose proof (le_val_range w Hw) as R. unfold zlen in R. rewrite Hl in R.
    rewrite hw_u64 by done. rewrite <- Hl. by rewrite le_bytes_val.
  - done.
  - done.
Qed.

(** whichever path the CPU offers and wherever the buffer lies in memory,
    [crc32c] is the bit-serial CRC-32C of the data: the slice-by-8 tables, the
    alignment head and tail, and the hardware instructions all compute it. *)
Theorem crc32c_any_path (useHw : bool) u8 u64 (HW : HwCrc u8 u64) (addr crc : Z) (p : bytes) :
  is_u32 crc -> Forall is_byte p ->
  crc32c_at useHw u8 u64 addr crc p = crc_spec crc p.
Proof.
  intros. unfold crc32c_at. destruct useHw; [by apply hwCrc_spec|by apply swCrc_spec].
Qed.

Definition ref_u8 (c b : Z) : Z := crc_byte c b.
Definition ref_u64 (c v : Z) : Z := foldl crc_byte c (le_bytes 8 v).
#[export] Instance ref_HwCrc : HwCrc ref_u8 ref_u64.
Proof. by constructor. Qed.

Lemma crc32c_any_path_witness :
  crc32c_at true ref_u8 ref_u64 3 0 (bs "123456789") = crc_spec 0 (bs "123456789") /\
  crc_spec 0 (bs "123456789") = 0xE3069283.
Proof.
  split; [|vm_compute; reflexivity].
  apply (crc32c_any_path true ref_u8 ref_u64 ref_HwCrc 3 0 (bs "123456789")).
  - unfold is_u32. lia.
  - repeat constructor; vm_compute; congruence.
Defined.

(** the incremental interface composes: continuing from the CRC of [a] over
    [b] is the CRC of [a] followed by [b]. *)
Theorem crc32c_incremental (crc : Z) (a b : bytes) :
  is_u32 crc -> Forall is_byte a -> Forall is_byte b ->
  crc32c (crc32c crc a) b = crc32c crc (a ++ b).
Proof.
  intros. unfold crc32c. rewrite (swCrc_spec 0 crc a) by done.
  rewrite !swCrc_spec by auto using crc_spec_u32 with bytes. by rewrite crc_spec_app.
Qed.

Lemma crc32c_incremental_witness :
  crc32c (crc32c 0 (bs "12345")) (bs "6789") = crc32c 0 (bs "123456789").
Proof.
  apply (crc32c_incremental 0 (bs "12345") (bs "6789"));
    [unfold is_u32; lia | repeat constructor; vm_compute; congruence..].
Defined.

Lemma crc32c_u32 s p : is_u32 s -> Forall is_byte p -> is_u32 (crc32c s p).
Proof. intros. unfold crc32c. rewrite swCrc_spec by done. by apply crc_spec_u32. Qed.

#[global] Arguments crc_bits : simpl never.
#[global] Arguments crc32c : simpl never.

End Crc.

(** ** What the rest of the cache relies on *)
Class Checksum := {
  crc : Z -> bytes -> Z;
  crc_u32 : forall s p, is_u32 s -> Forall is_byte p -> is_u32 (crc s p)
}.

#[export] Instance crc32c_Checksum : Checksum := { crc := Crc.crc32c; crc_u32 := Crc.crc32c_u32 }.
