(* ===== verification/PageBitmap.v ===== *)
(** * Presence bitmap (src/core/PageBitmap.h)

    One bit per page, least significant bit first within a byte, with a running
    population count. The invariant [wf] says the byte vector has the size
    [reset] gives it and [count_] is the number of set bits; every operation
    preserves it, and [get] after [set]/[clear] behaves as an array of booleans. *)

From S2P Require Import Prelude.

Module Bitmap.

Record PageBitmap := mkPageBitmap {
  bits_ : bytes;
  npages_ : Z;
  count_ : Z
}.

Definition reset (npages : Z) : PageBitmap :=
  mkPageBitmap (zeros ((npages +% 7) / 8)) npages 0.

Definition bit (i : Z) : Z := Z.shiftl 1 (Z.land i 7).

Definition get (b : PageBitmap) (i : Z) : bool :=
  negb (Z.land (zget (bits_ b) (Z.shiftr i 3)) (bit i) =? 0).

Definition set (b : PageBitmap) (i : Z) : PageBitmap :=
  let m := bit i in
  let v := zget (bits_ b) (Z.shiftr i 3) in
  if Z.land v m =? 0
  then mkPageBitmap (zset (bits_ b) (Z.shiftr i 3) (Z.lor v m)) (npages_ b) (count_ b +% 1)
  else b.

Definition clear (b : PageBitmap) (i : Z) : PageBitmap :=
  let m := bit i in
  let v := zget (bits_ b) (Z.shiftr i 3) in
  if Z.land v m =? 0 then b
  else mkPageBitmap (zset (bits_ b) (Z.shiftr i 3) (Z.land v (w8 (Z.lnot m)))) (npages_ b) (count_ b -% 1).

Definition clearAll (b : PageBitmap) : PageBitmap :=
  mkPageBitmap (map (fun _ => 0) (bits_ b)) (npages_ b) 0.

(** [rangeSet(first, last)]: inclusive. *)
Definition rangeSet (b : PageBitmap) (first last : Z) : bool :=
  forallb (get b) (zrange first (last + 1)).

Definition raw (b : PageBitmap) : bytes := bits_ b.
Definition rawSize (b : PageBitmap) : Z := zlen (bits_ b).
(** [memcpy(b.raw(), ...)]: the bytes replaced from outside; [recount] follows. *)
Definition with_raw (b : PageBitmap) (r : bytes) : PageBitmap := mkPageBitmap r (npages_ b) (count_ b).

Definition popcount (b : PageBitmap) : Z :=
  foldl (fun n i => if get b i then n + 1 else n) 0 (zrange 0 (npages_ b)).

Definition recount (b : PageBitmap) : PageBitmap :=
  mkPageBitmap (bits_ b) (npages_ b)
    (foldl (fun n i => if get b i then n +% 1 else n) 0 (zrange 0 (npages_ b))).

(** ** Invariant *)

Record wf (b : PageBitmap) : Prop := {
  wf_npages : 0 <= npages_ b < p63;
  wf_size : zlen (bits_ b) = (npages_ b + 7) / 8;
  wf_bytes : Forall is_byte (bits_ b);
  wf_count : count_ b = popcount b
}.

Lemma land7 i : 0 <= Z.land i 7 < 8.
Proof. change 7 with (Z.ones 3). rewrite Z.land_ones by lia. apply Z.mod_pos_bound. lia. Qed.

Lemma bit_testbit i n : 0 <= n -> Z.testbit (bit i) n = (n =? Z.land i 7).
Proof.
  intros Hn. unfold bit. pose proof (land7 i). rewrite Z.shiftl_spec by done.
  destruct (Z.eqb_spec n (Z.land i 7)) as [->|Hne].
  - by rewrite Z.sub_diag.
  - destruct (Z.lt_ge_cases n (Z.land i 7)).
    + by apply Z.testbit_neg_r; lia.
    + by apply (Z.bits_above_log2 1); simpl; lia.
Qed.

(** [get] is a bit of the byte vector. *)
Lemma get_testbit b i : get b i = Z.testbit (zget (bits_ b) (Z.shiftr i 3)) (Z.land i 7).
Proof.
  unfold get. pose proof (land7 i).
  destruct (Z.testbit (zget (bits_ b) (Z.shiftr i 3)) (Z.land i 7)) eqn:E.
  - apply negb_true_iff, Z.eqb_neq. intros H0.
    apply (f_equal (fun z => Z.testbit z (Z.land i 7))) in H0.
    rewrite Z.land_spec, bit_testbit, E, Z.eqb_refl, Z.bits_0 in H0 by lia. done.
  - apply negb_false_iff, Z.eqb_eq, Z.bits_inj'. intros n Hn.
    rewrite Z.land_spec, bit_testbit, Z.bits_0 by done.
    destruct (Z.eqb_spec n (Z.land i 7)) as [->|]; [by rewrite E|by rewrite andb_false_r].
Qed.

Lemma page_index_inj i j :
  Z.shiftr i 3 = Z.shiftr j 3 -> Z.land i 7 = Z.land j 7 -> i = j.
Proof.
  change 7 with (Z.ones 3). rewrite !Z.land_ones, !Z.shiftr_div_pow2 by lia.
  change (2 ^ 3) with 8. intros. rewrite (Z.div_mod i 8), (Z.div_mod j 8) by lia. congruence.
Qed.

Lemma byte_index_bound b i :
  wf b -> 0 <= i < npages_ b -> 0 <= Z.shiftr i 3 < zlen (bits_ b).
Proof.
  intros [_ Hs _ _] Hi. rewrite Hs, Z.shiftr_div_pow2 by lia. change (2 ^ 3) with 8.
  split; [apply Z.div_pos; lia|]. apply Z.div_lt_upper_bound; [lia|].
  pose proof (Z.mul_div_le (npages_ b + 7) 8). pose proof (Z.mod_pos_bound (npages_ b + 7) 8).
  rewrite Z.mod_eq in * by lia. lia.
Qed.

(** ** Reading back *)

Lemma byte_lor v m : is_byte v -> is_byte m -> is_byte (Z.lor v m).
Proof.
  rewrite !is_byte_bits. intros [? Hv] [? Hm]. split; [by apply Z.lor_nonneg|].
  by rewrite Z.shiftr_lor, Hv, Hm.
Qed.

Lemma byte_land v m : is_byte v -> 0 <= m -> is_byte (Z.land v m).
Proof.
  rewrite !is_byte_bits. intros [? Hv] ?. split; [apply Z.land_nonneg; by left|].
  by rewrite Z.shiftr_land, Hv.
Qed.

Lemma bit_is_byte i : is_byte (bit i).
Proof.
  unfold is_byte, bit. pose proof (land7 i). rewrite Z.shiftl_mul_pow2, Z.mul_1_l by lia.
  split; [apply Z.pow_nonneg; lia|]. change 256 with (2 ^ 8). apply Z.pow_lt_mono_r; lia.
Qed.

Lemma byte_testbit_high v n : is_byte v -> 8 <= n -> Z.testbit v n = false.
Proof.
  unfold is_byte. intros. destruct (Z.eq_dec v 0) as [->|]; [apply Z.bits_0|].
  apply Z.bits_above_log2; [lia|]. apply Z.log2_lt_pow2; [lia|].
  eapply Z.lt_le_trans; [apply H|]. change 256 with (2 ^ 8). apply Z.pow_le_mono_r; lia.
Qed.

Lemma not_bit_testbit i n : 0 <= n < 8 -> Z.testbit (w8 (Z.lnot (bit i))) n = negb (n =? Z.land i 7).
Proof.
  intros. unfold w8. change p8 with (2 ^ 8). rewrite Z.mod_pow2_bits_low by lia.
  rewrite Z.lnot_spec, bit_testbit by lia. done.
Qed.

Lemma get_set b i j :
  wf b -> 0 <= i < npages_ b -> 0 <= j < npages_ b ->
  get (set b i) j = if decide (i = j) then true else get b j.
Proof.
  intros Hwf Hi Hj. pose proof (byte_index_bound _ _ Hwf Hi). pose proof (byte_index_bound _ _ Hwf Hj).
  unfold set. destruct (Z.land _ _ =? 0) eqn:E.
  - rewrite !get_testbit. cbn [bits_]. rewrite zget_zset by lia. pose proof (land7 j).
    case_decide as Hb.
    + rewrite Z.lor_spec, bit_testbit, Hb by lia.
      destruct (decide (i = j)) as [->|Hne]; [by rewrite Z.eqb_refl, orb_true_r|].
      destruct (Z.eqb_spec (Z.land j 7) (Z.land i 7)) as [El|].
      * exfalso. by apply Hne, page_index_inj.
      * by rewrite orb_false_r.
    + rewrite decide_False; [done|]. by intros ->.
  - case_decide as Hij; [|done]. subst. unfold get. by rewrite E.
Qed.

Lemma get_clear b i j :
  wf b -> 0 <= i < npages_ b -> 0 <= j < npages_ b ->
  get (clear b i) j = if decide (i = j) then false else get b j.
Proof.
  intros Hwf Hi Hj. pose proof (byte_index_bound _ _ Hwf Hi). pose proof (byte_index_bound _ _ Hwf Hj).
  unfold clear. destruct (Z.land _ _ =? 0) eqn:E.
  - case_decide as Hij; [|done]. subst. unfold get. by rewrite E.
  - rewrite !get_testbit. cbn [bits_]. rewrite zget_zset by lia. pose proof (land7 j).
    case_decide as Hb.
    + rewrite Z.land_spec, not_bit_testbit, Hb by lia.
      destruct (decide (i = j)) as [->|Hne]; [by rewrite Z.eqb_refl, andb_false_r|].
      destruct (Z.eqb_spec (Z.land j 7) (Z.land i 7)) as [El|].
      * exfalso. by apply Hne, page_index_inj.
      * by rewrite andb_true_r.
    + rewrite decide_False; [done|]. by intros ->.
Qed.

(** ** The population count *)

(** Set bits among [l]. *)
Definition count_in (f : Z -> bool) (l : list Z) : Z := foldr (fun i n => Z.b2z (f i) + n) 0 l.

Lemma foldl_count (f : Z -> bool) n l :
  foldl (fun n i => if f i then n + 1 else n) n l = n + count_in f l.
Proof.
  revert n. induction l as [|x l IH]; intros n; cbn [foldl count_in foldr]; [lia|].
  rewrite IH. unfold count_in. destruct (f x); simpl Z.b2z; lia.
Qed.

Lemma popcount_count_in b : popcount b = count_in (get b) (zrange 0 (npages_ b)).
Proof. unfold popcount. by rewrite foldl_count. Qed.

Lemma count_in_le f l : 0 <= count_in f l <= zlen l.
Proof.
  induction l as [|x l IH]; [done|]. rewrite zlen_cons. cbn [count_in foldr].
  fold (count_in f l). destruct (f x); simpl Z.b2z; lia.
Qed.

Lemma popcount_bounds b : 0 <= npages_ b -> 0 <= popcount b <= npages_ b.
Proof.
  intros. rewrite popcount_count_in. pose proof (count_in_le (get b) (zrange 0 (npages_ b))).
  rewrite zlen_zrange in H0 by lia. lia.
Qed.

Lemma count_in_ext f g l : (forall i, i ∈ l -> f i = g i) -> count_in f l = count_in g l.
Proof.
  induction l as [|x l IH]; intros H; [done|]. cbn [count_in foldr].
  rewrite (H x) by left. f_equal. apply IH. intros. apply H. by right.
Qed.

(** Switching one cell on adds one to the count. *)
Lemma count_in_update f g l i :
  NoDup l -> i ∈ l -> f i = false -> g i = true -> (forall j, j ∈ l -> j <> i -> f j = g j) ->
  count_in g l = count_in f l + 1.
Proof.
  induction l as [|x l IH]; intros Hnd Hin Hf Hg Hr; [by apply elem_of_nil in Hin|].
  apply NoDup_cons in Hnd as [Hx Hnd]. cbn [count_in foldr]. fold (count_in f l) (count_in g l).
  apply elem_of_cons in Hin as [->|Hin].
  - rewrite Hf, Hg. rewrite (count_in_ext f g l); [simpl; lia|].
    intros j Hj. apply Hr; [by right|]. by intros ->.
  - rewrite (Hr x); [|by left|by intros ->]. rewrite IH; [lia|done..|].
    intros. apply Hr; [by right|done].
Qed.

Lemma popcount_full b :
  0 <= npages_ b -> popcount b = npages_ b <-> (forall i, 0 <= i < npages_ b -> get b i = true).
Proof.
  intros Hn. rewrite popcount_count_in.
  assert (forall l, count_in (get b) l = zlen l <-> (forall i, i ∈ l -> get b i = true)) as G.
  { induction l as [|x l IH]; [split; [set_solver|done]|].
    rewrite zlen_cons. cbn [count_in foldr]. fold (count_in (get b) l).
    pose proof (count_in_le (get b) l). split.
    - intros H0 i [->|Hi]%elem_of_cons; destruct (get b x) eqn:E; simpl Z.b2z in H0; try done; try lia.
      apply IH; [lia|done].
    - intros Hall. rewrite (Hall x) by left. simpl Z.b2z. f_equal. apply IH. intros. apply Hall. by right. }
  specialize (G (zrange 0 (npages_ b))). rewrite zlen_zrange, Z.sub_0_r in G by lia.
  rewrite G. split; intros H0 i Hi; apply H0; by apply elem_of_zrange.
Qed.

(** ** Every operation preserves the invariant *)

Lemma npages_set b i : npages_ (set b i) = npages_ b.
Proof. unfold set. by destruct (_ =? 0). Qed.
Lemma npages_clear b i : npages_ (clear b i) = npages_ b.
Proof. unfold clear. by destruct (_ =? 0). Qed.

Lemma reset_wf n : 0 <= n < p63 -> wf (reset n).
Proof.
  intros. unfold reset. nowrap. constructor; cbn [npages_ bits_ count_].
  - done.
  - rewrite zlen_zeros; [done|]. apply Z.div_pos; lia.
  - apply Forall_zeros.
  - rewrite popcount_count_in. cbn [npages_]. rewrite (count_in_ext _ (fun _ => false)).
    + symmetry. induction (zrange 0 n); [done|]. done.
    + intros i _. unfold get. cbn [bits_]. rewrite zget_zeros. by rewrite Z.land_0_l.
Qed.

Lemma get_reset n i : get (reset n) i = false.
Proof. unfold get, reset. cbn [bits_]. by rewrite zget_zeros, Z.land_0_l. Qed.

Lemma set_count b i : wf b -> 0 <= i < npages_ b ->
  count_ (set b i) = if get b i then count_ b else count_ b + 1.
Proof.
  intros Hwf Hi. pose proof (popcount_bounds b) as Hb. destruct Hwf as [Hn _ _ Hc].
  unfold set, get. destruct (_ =? 0); cbn [negb count_]; [|done]. nowrap. done.
Qed.

Lemma set_popcount b i : wf b -> 0 <= i < npages_ b ->
  popcount (set b i) = if get b i then popcount b else popcount b + 1.
Proof.
  intros Hwf Hi. rewrite !popcount_count_in, npages_set. destruct (get b i) eqn:E.
  - apply count_in_ext. intros j [? ?]%elem_of_zrange. rewrite get_set by done.
    by case_decide; subst.
  - apply count_in_update with i; [apply NoDup_zrange|by apply elem_of_zrange|done| |].
    + rewrite get_set by done. by rewrite decide_True.
    + intros j [? ?]%elem_of_zrange ?. rewrite get_set by done. by rewrite decide_False.
Qed.

Lemma clear_popcount b i : wf b -> 0 <= i < npages_ b ->
  popcount (clear b i) = if get b i then popcount b - 1 else popcount b.
Proof.
  intros Hwf Hi. rewrite !popcount_count_in, npages_clear. destruct (get b i) eqn:E.
  - rewrite (count_in_update (get (clear b i)) (get b) _ i); [lia|apply NoDup_zrange|
      by apply elem_of_zrange| |done|].
    + rewrite get_clear by done. by rewrite decide_True.
    + intros j [? ?]%elem_of_zrange ?. rewrite get_clear by done. by rewrite decide_False.
  - apply count_in_ext. intros j [? ?]%elem_of_zrange. rewrite get_clear by done.
    by case_decide; subst.
Qed.

Lemma set_wf b i : wf b -> 0 <= i < npages_ b -> wf (set b i).
Proof.
  intros Hwf Hi. constructor.
  - rewrite npages_set. apply Hwf.
  - rewrite npages_set, <- (wf_size b) by done. unfold set. destruct (_ =? 0); [|done].
    cbn [bits_]. by rewrite zlen_zset.
  - unfold set. destruct (_ =? 0); [|apply Hwf]. cbn [bits_]. apply Forall_insert; [apply Hwf|].
    apply byte_lor; [|apply bit_is_byte]. apply Forall_zget; [apply Hwf|]. unfold is_byte; lia.
  - rewrite set_count, set_popcount by done. by rewrite (wf_count b).
Qed.

Lemma clear_wf b i : wf b -> 0 <= i < npages_ b -> wf (clear b i).
Proof.
  intros Hwf Hi. pose proof (clear_popcount b i Hwf Hi) as Hp. constructor.
  - rewrite npages_clear. apply Hwf.
  - rewrite npages_clear, <- (wf_size b) by done. unfold clear. destruct (_ =? 0); [done|].
    cbn [bits_]. by rewrite zlen_zset.
  - unfold clear. destruct (_ =? 0); [apply Hwf|]. cbn [bits_]. apply Forall_insert; [apply Hwf|].
    apply byte_land; [|apply w8_range]. apply Forall_zget; [apply Hwf|]. unfold is_byte; lia.
  - rewrite Hp. pose proof (popcount_bounds (clear b i)) as Hb. rewrite npages_clear, Hp in Hb.
    destruct Hwf as [Hn _ _ Hc]. unfold clear, get in *.
    destruct (Z.land _ _ =? 0); cbn [negb count_] in *; [done|].
    rewrite Hc. nowrap. done.
Qed.

Lemma clearAll_wf b : wf b -> wf (clearAll b).
Proof.
  intros Hwf. assert (forall i, zget (map (fun _ => 0) (bits_ b)) i = 0) as H0.
  { intros. unfold zget. rewrite nth_lookup, list_lookup_fmap. by destruct (bits_ b !! _). }
  constructor; cbn [npages_ bits_ count_ clearAll].
  - apply Hwf.
  - unfold zlen. rewrite length_map. apply (wf_size b Hwf).
  - apply Forall_fmap, Forall_true. intros. unfold compose, is_byte. lia.
  - rewrite popcount_count_in. cbn [npages_]. rewrite (count_in_ext _ (fun _ => false)).
    + symmetry. induction (zrange 0 _); done.
    + intros i _. unfold get. cbn [bits_]. by rewrite H0, Z.land_0_l.
Qed.

Lemma get_clearAll b i : get (clearAll b) i = false.
Proof.
  unfold get, clearAll. cbn [bits_]. unfold zget. rewrite nth_lookup, list_lookup_fmap.
  by destruct (bits_ b !! _).
Qed.

Lemma rangeSet_spec b first last :
  rangeSet b first last = true <-> (forall i, first <= i <= last -> get b i = true).
Proof.
  unfold rangeSet. rewrite forallb_forall. split; intros H i Hi.
  - apply H, list_elem_of_In, elem_of_zrange. lia.
  - apply list_elem_of_In, elem_of_zrange in Hi. apply H. lia.
Qed.

(** [recount] restores the invariant over any bytes of the right size. *)
Lemma recount_wf n r :
  0 <= n < p63 -> zlen r = (n + 7) / 8 -> Forall is_byte r -> wf (recount (with_raw (reset n) r)).
Proof.
  intros Hn Hl Hb. constructor; cbn [npages_ bits_ count_ recount with_raw reset]; try done.
  assert (forall l m, 0 <= m -> m + zlen l < p64 ->
    foldl (fun n0 i => if get (with_raw (reset n) r) i then n0 +% 1 else n0) m l =
    foldl (fun n0 i => if get (with_raw (reset n) r) i then n0 + 1 else n0) m l) as G.
  { induction l as [|x l IH]; intros m Hm Hs; [done|]. rewrite zlen_cons in Hs.
    pose proof (zlen_nonneg l). cbn [foldl]. destruct (get _ x); [nowrap|]; apply IH; lia. }
  rewrite G; [done|lia|]. rewrite zlen_zrange; lia.
Qed.

(** The bytes of a well-formed bitmap, loaded and recounted, are that bitmap. *)
Lemma recount_raw b : wf b -> recount (with_raw (reset (npages_ b)) (raw b)) = b.
Proof.
  intros Hwf. pose proof (recount_wf (npages_ b) (bits_ b) (wf_npages _ Hwf) (wf_size _ Hwf) (wf_bytes _ Hwf)) as Hr.
  pose proof (wf_count _ Hr) as Hc. rewrite popcount_count_in in Hc.
  pose proof (wf_count _ Hwf) as Hc2. rewrite popcount_count_in in Hc2.
  destruct b as [r n c]. unfold recount, with_raw, raw in *. cbn in *. f_equal. rewrite Hc, Hc2.
  by apply count_in_ext.
Qed.

#[global] Hint Resolve reset_wf set_wf clear_wf clearAll_wf : core.

(** Operation sequences and the array of booleans that specifies them. *)
Inductive op := OSet (i : Z) | OClear (i : Z) | OClearAll.
Definition apply_op (b : PageBitmap) (o : op) : PageBitmap :=
  match o with OSet i => set b i | OClear i => clear b i | OClearAll => clearAll b end.
Definition op_ok (n : Z) (o : op) : Prop :=
  match o with OSet i | OClear i => 0 <= i < n | OClearAll => True end.
(** The specification: a function from pages to booleans. *)
Definition spec_op (f : Z -> bool) (o : op) : Z -> bool :=
  match o with
  | OSet i => fun j => if decide (i = j) then true else f j
  | OClear i => fun j => if decide (i = j) then false else f j
  | OClearAll => fun _ => false
  end.

Lemma npages_apply b o : npages_ (apply_op b o) = npages_ b.
Proof. destruct o; [apply npages_set|apply npages_clear|done]. Qed.

Lemma apply_op_refines b f o :
  wf b -> (forall j, 0 <= j < npages_ b -> get b j = f j) -> op_ok (npages_ b) o ->
  wf (apply_op b o) /\ forall j, 0 <= j < npages_ b -> get (apply_op b o) j = spec_op f o j.
Proof.
  intros Hwf Hf Ho. destruct o; cbn [apply_op spec_op op_ok] in *; split; auto; intros j Hj.
  - rewrite get_set by done. case_decide; auto.
  - rewrite get_clear by done. case_decide; auto.
  - apply get_clearAll.
Qed.

(** the bitmap is an array of booleans with its count: starting from a
    well-formed bitmap, [set]/[clear] change exactly the addressed bit, [get]
    reads it back, every other page's bit is kept, and the O(1) [count()] stays
    the number of set bits, whatever sequence of operations is applied. *)
Theorem bitmap_refines_array (n : Z) (ops : list op) :
  0 <= n < p63 -> Forall (op_ok n) ops ->
  let b := foldl apply_op (reset n) ops in
  let f := foldl spec_op (fun _ => false) ops in
  wf b /\ npages_ b = n /\ (forall j, 0 <= j < n -> get b j = f j) /\
  count_ b = count_in f (zrange 0 n).
Proof.
  intros Hn Hops. cbv zeta.
  assert (forall b f, wf b -> npages_ b = n -> (forall j, 0 <= j < n -> get b j = f j) ->
    let b' := foldl apply_op b ops in let f' := foldl spec_op f ops in
    wf b' /\ npages_ b' = n /\ (forall j, 0 <= j < n -> get b' j = f' j)) as G.
  { induction Hops as [|o ops Ho Hops IH]; intros b f Hwf <- Hf; [done|]. cbn [foldl].
    destruct (apply_op_refines b f o Hwf Hf Ho) as [? ?].
    apply IH; [done|apply npages_apply|done]. }
  destruct (G (reset n) (fun _ => false)) as (Hwf & Hnp & Hget); [auto|done|intros; apply get_reset|].
  split; [done|]. split; [done|]. split; [done|].
  rewrite (wf_count _ Hwf), popcount_count_in, Hnp. apply count_in_ext.
  intros i [? ?]%elem_of_zrange. by apply Hget.
Qed.

Lemma bitmap_refines_array_witness :
  let b := foldl apply_op (reset 11) [OSet 3; OSet 10; OClear 3; OSet 10] in
  wf b /\ npages_ b = 11 /\
  (forall j, 0 <= j < 11 -> get b j = foldl spec_op (fun _ => false) [OSet 3; OSet 10; OClear 3; OSet 10] j) /\
  count_ b = count_in (foldl spec_op (fun _ => false) [OSet 3; OSet 10; OClear 3; OSet 10]) (zrange 0 11).
Proof. apply (bitmap_refines_array 11); [lia|]. repeat constructor; simpl; lia. Defined.

End Bitmap.
Abbreviation PageBitmap := Bitmap.PageBitmap.
