(* ===== verification/IOBackend.v ===== *)
(** * The filesystem backend (src/core/IOBackend.h, IOBackend.cc)

    [IOBackend] is the source's abstract class: every disk operation of the core
    goes through it. Its methods are the fields of a type class over a world
    type [W]; what POSIX documents of the calls behind them is the class
    [IOLaws], stated over an abstract file system [fs] that the world shows
    through [view]. Any call may fail, with any errno, at any time.

    The two complete loops [pwriteFull] and [preadFull] are translated from the
    source and proved against the laws. [MemIO] is an in-memory backend with a
    schedule of injected faults (the model of src/core/testing/FaultIO.h over a
    memory file system) and an instance of the laws, so the laws are consistent
    and everything proved from them can be run. *)

From S2P Require Import Prelude.

(** ** Error numbers: methods return [-errno] on failure. *)
Abbreviation ENOENT := 2.
Abbreviation EINTR := 4.
Abbreviation EIO := 5.
Abbreviation EEXIST := 17.
Abbreviation EINVAL := 22.
Abbreviation ENOSPC := 28.
Abbreviation ENOSYS := 38.
Abbreviation EOPNOTSUPP := 95.
Abbreviation ESTALE := 116.

Record oflags := mkFlags { o_write : bool; o_creat : bool; o_trunc : bool; o_excl : bool }.
Definition O_RDONLY : oflags := mkFlags false false false false.
Definition O_RDWR : oflags := mkFlags true false false false.
Definition O_RDWR_CREAT : oflags := mkFlags true true false false.
Definition O_WRONLY_CREAT_TRUNC : oflags := mkFlags true true true false.
Definition O_RDWR_CREAT_EXCL : oflags := mkFlags true true false true.

Record stat_t := mkStat { st_size : Z; st_nlink : Z; st_ino : Z; st_mtime : Z; st_mtime_ns : Z }.
Definition stat0 : stat_t := mkStat 0 0 0 0 0.

Inductive lock_op := LOCK_SH | LOCK_EX | LOCK_UN | LOCK_SH_NB | LOCK_EX_NB.

(** ** The abstract class *)
Class IOBackend (W : Type) := {
  io_open : bytes -> oflags -> M W Z;
  io_close : Z -> M W Z;
  io_pread : Z -> Z -> Z -> M W (Z * bytes);     (* fd, count, offset -> result, bytes *)
  io_pwrite : Z -> bytes -> Z -> M W Z;          (* fd, data, offset *)
  io_fdatasync : Z -> M W Z;
  io_ftruncate : Z -> Z -> M W Z;
  io_fstat : Z -> M W (Z * stat_t);
  io_stat : bytes -> M W (Z * stat_t);
  io_unlink : bytes -> M W Z;
  io_rename : bytes -> bytes -> M W Z;
  io_mkdirs : bytes -> M W Z;
  io_flock : Z -> lock_op -> M W Z;
  io_punchHole : Z -> Z -> Z -> M W Z;           (* fd, offset, length *)
  io_link : bytes -> bytes -> M W Z;
  io_intr : W -> nat                             (* interruptions (EINTR) still to come *)
}.

(** ** The complete loops *)
Section full.
Context {W : Type} `{!IOBackend W}.

(** [while (done < count)]: a short write is continued, EINTR retried, no
    progress is [-EIO]. [None] only when the fuel runs out. *)
Fixpoint pwrite_loop (fuel : nat) (fd : Z) (p : bytes) (offset done : Z) : M W (option Z) :=
  match fuel with
  | O => ret None
  | S fuel' =>
      if done <? zlen p then
        do n <- io_pwrite fd (drop (Z.to_nat done) p) (offset +% done);
        if n <? 0 then
          if n =? -EINTR then pwrite_loop fuel' fd p offset done else ret (Some n)
        else if n =? 0 then ret (Some (-EIO))
        else pwrite_loop fuel' fd p offset (done + n)
      else ret (Some done)
  end.

(** The fuel bounds the iterations: each one moves at least a byte or is an
    interruption (see [pwriteFull_spec]). *)
Definition full_fuel (count : Z) (w : W) : nat := S (Z.to_nat count + io_intr w).

Definition pwriteFull (fd : Z) (p : bytes) (offset : Z) : M W Z := fun w =>
  (do r <- pwrite_loop (full_fuel (zlen p) w) fd p offset 0;
   ret (default (-EINTR) r)) w.

Fixpoint pread_loop (fuel : nat) (fd count offset : Z) (done : Z) (acc : bytes)
    : M W (option (Z * bytes)) :=
  match fuel with
  | O => ret None
  | S fuel' =>
      if done <? count then
        do nb <- io_pread fd (count - done) (offset +% done);
        let n := fst nb in
        if n <? 0 then
          if n =? -EINTR then pread_loop fuel' fd count offset done acc
          else ret (Some (n, []))
        else if n =? 0 then ret (Some (done, acc))
        else pread_loop fuel' fd count offset (done + n) (acc ++ snd nb)
      else ret (Some (done, acc))
  end.

(** Result and the bytes that landed in the caller's buffer. *)
Definition preadFull (fd count offset : Z) : M W (Z * bytes) := fun w =>
  (do r <- pread_loop (full_fuel count w) fd count offset 0 [];
   ret (default (-EINTR, []) r)) w.
End full.

(** ** The abstract file system *)
Record inode := mkInode { i_data : bytes; i_nlink : Z; i_mtime : Z; i_mtime_ns : Z }.
Record fs := mkFs {
  fs_names : gmap bytes Z;   (* path -> inode number *)
  fs_inodes : gmap Z inode;
  fs_fds : gmap Z Z          (* open descriptor -> inode number *)
}.

Definition set_inode (s : fs) (ino : Z) (n : inode) : fs :=
  mkFs (fs_names s) (<[ino := n]> (fs_inodes s)) (fs_fds s).
Definition set_names (s : fs) (m : gmap bytes Z) : fs := mkFs m (fs_inodes s) (fs_fds s).
Definition with_data (n : inode) (d : bytes) : inode :=
  mkInode d (i_nlink n) (i_mtime n) (i_mtime_ns n).
Definition with_nlink (n : inode) (k : Z) : inode :=
  mkInode (i_data n) k (i_mtime n) (i_mtime_ns n).

Definition file_of (s : fs) (path : bytes) : option inode :=
  fs_names s !! path ≫= fun ino => fs_inodes s !! ino.
Definition open_file (s : fs) (fd : Z) : option inode :=
  fs_fds s !! fd ≫= fun ino => fs_inodes s !! ino.

(** A write past the end leaves a zero-filled gap. *)
Definition write_at (d : bytes) (off : Z) (b : bytes) : bytes :=
  match b with
  | [] => d
  | _ => take (Z.to_nat off) (d ++ zeros (off - zlen d)) ++ b ++ drop (Z.to_nat off + length b) d
  end.
Definition resize (d : bytes) (n : Z) : bytes := take (Z.to_nat n) (d ++ zeros (n - zlen d)).
Definition zero_range (d : bytes) (off n : Z) : bytes :=
  let e := Z.min (off + n) (zlen d) in
  if off <? e then zsplice d off (zeros (e - off)) else d.

Definition stat_of (ino : Z) (n : inode) : stat_t :=
  mkStat (zlen (i_data n)) (i_nlink n) ino (i_mtime n) (i_mtime_ns n).

Definition unlink_name (s : fs) (path : bytes) : fs :=
  match fs_names s !! path with
  | None => s
  | Some ino =>
      mkFs (delete path (fs_names s))
           (alter (fun n => with_nlink n (i_nlink n - 1)) ino (fs_inodes s)) (fs_fds s)
  end.

(** What a successful [open] does: [fd] is new; the file is found (and emptied
    with O_TRUNC), or created. *)
Definition opened (s : fs) (path : bytes) (fl : oflags) (fd : Z) (s' : fs) : Prop :=
  fs_fds s !! fd = None /\
  match fs_names s !! path with
  | Some ino =>
      o_excl fl = false /\ exists n, fs_inodes s !! ino = Some n /\
      s' = mkFs (fs_names s)
             (if o_trunc fl then <[ino := with_data n []]> (fs_inodes s) else fs_inodes s)
             (<[fd := ino]> (fs_fds s))
  | None =>
      o_creat fl = true /\ exists ino mt mtn, fs_inodes s !! ino = None /\
      s' = mkFs (<[path := ino]> (fs_names s)) (<[ino := mkInode [] 1 mt mtn]> (fs_inodes s))
             (<[fd := ino]> (fs_fds s))
  end.

(** The file behind [fd], and only it, went from [d] to [d'] with [P d d']; its
    modification time may have moved. *)
Definition file_updated (P : bytes -> bytes -> Prop) (s : fs) (fd : Z) (s' : fs) : Prop :=
  exists ino f f', fs_fds s !! fd = Some ino /\ fs_inodes s !! ino = Some f /\
    i_nlink f' = i_nlink f /\ P (i_data f) (i_data f') /\ s' = set_inode s ino f'.

(** Nothing outside [off, off + n) changed: what a write that failed half way
    leaves behind. *)
Definition within (off n : Z) (d d' : bytes) : Prop :=
  zlen d <= zlen d' /\
  forall o k, 0 <= o -> 0 <= k -> o + k <= zlen d -> (o + k <= off \/ off + n <= o) ->
    zsub d' o k = zsub d o k.

(** [rename(a, b)]: [b] now names what [a] did; nothing happens when they name
    the same file already. *)
Definition renamed (s : fs) (a b : bytes) (s' : fs) : Prop :=
  exists ino, fs_names s !! a = Some ino /\
    if decide (fs_names s !! b = Some ino) then s' = s
    else s' = let u := unlink_name s b in set_names u (<[b := ino]> (delete a (fs_names u))).

Definition linked (s : fs) (a b : bytes) (s' : fs) : Prop :=
  exists ino f, fs_names s !! a = Some ino /\ fs_names s !! b = None /\
    fs_inodes s !! ino = Some f /\
    s' = mkFs (<[b := ino]> (fs_names s)) (<[ino := with_nlink f (i_nlink f + 1)]> (fs_inodes s))
           (fs_fds s).

(** ** What POSIX documents of the calls

    Every law covers failure: [r < 0] and nothing observable happened, except
    that a failed [pwrite] may leave anything in the range it was writing. *)
Class IOLaws (W : Type) `{!IOBackend W} := {
  view : W -> fs;
  law_open : forall path fl w r w', io_open path fl w = (r, w') ->
    (r < 0 /\ view w' = view w) \/ (0 <= r /\ opened (view w) path fl r (view w'));
  law_close : forall fd w r w', io_close fd w = (r, w') ->
    r <= 0 /\ view w' = mkFs (fs_names (view w)) (fs_inodes (view w)) (delete fd (fs_fds (view w)));
  law_pread : forall fd n off w r b w', io_pread fd n off w = (r, b, w') ->
    view w' = view w /\
    (0 <= r -> r = zlen b /\ r <= n /\ exists f, open_file (view w) fd = Some f /\
       (0 <= off -> b = zsub (i_data f) off r /\ (r = 0 -> 0 < n -> zlen (i_data f) <= off)));
  law_pwrite : forall fd b off w r w', io_pwrite fd b off w = (r, w') -> 0 <= off -> Forall is_byte b ->
    (0 <= r <= zlen b /\
       file_updated (fun d d' => d' = write_at d off (zsub b 0 r)) (view w) fd (view w')) \/
    (r < 0 /\ (view w' = view w \/
                (r <> -EINTR /\ file_updated (within off (zlen b)) (view w) fd (view w'))));
  law_fdatasync : forall fd w r w', io_fdatasync fd w = (r, w') -> r <= 0 /\ view w' = view w;
  law_ftruncate : forall fd n w r w', io_ftruncate fd n w = (r, w') ->
    (r < 0 /\ view w' = view w) \/
    (r = 0 /\ file_updated (fun d d' => d' = resize d n) (view w) fd (view w'));
  law_fstat : forall fd w r st w', io_fstat fd w = (r, st, w') ->
    r <= 0 /\ view w' = view w /\
    (r = 0 -> exists ino f, fs_fds (view w) !! fd = Some ino /\
       fs_inodes (view w) !! ino = Some f /\ st = stat_of ino f);
  law_stat : forall path w r st w', io_stat path w = (r, st, w') ->
    r <= 0 /\ view w' = view w /\
    (r = 0 -> exists ino f, fs_names (view w) !! path = Some ino /\
       fs_inodes (view w) !! ino = Some f /\ st = stat_of ino f);
  law_unlink : forall path w r w', io_unlink path w = (r, w') ->
    (r < 0 /\ view w' = view w) \/
    (r = 0 /\ is_Some (fs_names (view w) !! path) /\ view w' = unlink_name (view w) path);
  law_rename : forall a b w r w', io_rename a b w = (r, w') ->
    (r < 0 /\ view w' = view w) \/ (r = 0 /\ renamed (view w) a b (view w'));
  law_mkdirs : forall p w r w', io_mkdirs p w = (r, w') -> r <= 0 /\ view w' = view w;
  law_flock : forall fd op w r w', io_flock fd op w = (r, w') -> r <= 0 /\ view w' = view w;
  law_punchHole : forall fd off n w r w', io_punchHole fd off n w = (r, w') ->
    (r < 0 /\ view w' = view w) \/
    (r = 0 /\ file_updated (fun d d' => d' = zero_range d off n) (view w) fd (view w'));
  law_link : forall a b w r w', io_link a b w = (r, w') ->
    (r < 0 /\ view w' = view w) \/ (r = 0 /\ linked (view w) a b (view w'));
  (** interruptions are finite: an EINTR uses one up, no transfer adds any *)
  intr_pread : forall fd n off w r b w', io_pread fd n off w = (r, b, w') ->
    (io_intr w' <= io_intr w)%nat /\ (r = -EINTR -> (io_intr w' < io_intr w)%nat);
  intr_pwrite : forall fd b off w r w', io_pwrite fd b off w = (r, w') ->
    (io_intr w' <= io_intr w)%nat /\ (r = -EINTR -> (io_intr w' < io_intr w)%nat)
}.

(** ** Facts about written data *)

Lemma write_at_prefix d off : 0 <= off -> zlen (take (Z.to_nat off) (d ++ zeros (off - zlen d))) = off.
Proof.
  intros. unfold zlen, zeros. rewrite length_take, length_app, length_replicate.
  unfold zlen. lia.
Qed.

Lemma write_at_ne d off b :
  b <> [] -> write_at d off b =
    take (Z.to_nat off) (d ++ zeros (off - zlen d)) ++ b ++ drop (Z.to_nat off + length b) d.
Proof. by destruct b. Qed.

Lemma zeros_neg n : n <= 0 -> zeros n = [].
Proof. intros. unfold zeros. by rewrite Z2Nat.nonpos. Qed.

Lemma write_at_app d off a b :
  0 <= off -> write_at (write_at d off a) (off + zlen a) b = write_at d off (a ++ b).
Proof.
  intros Hoff. destruct (decide (a = [])) as [->|Ha]; [by rewrite Z.add_0_r|].
  destruct (decide (b = [])) as [->|Hb]; [by rewrite app_nil_r|].
  rewrite (write_at_ne _ _ b), (write_at_ne _ _ a), (write_at_ne _ _ (a ++ b))
    by (try done; intros [? ?]%app_nil; done).
  set (pre := take (Z.to_nat off) (d ++ zeros (off - zlen d))).
  assert (zlen pre = off) as Hp by (by apply write_at_prefix).
  set (rest := drop (Z.to_nat off + length a) d). rewrite (app_assoc pre a rest).
  assert (zlen (pre ++ a) = off + zlen a) as HpA by (rewrite zlen_app; lia).
  rewrite zeros_neg, app_nil_r by (rewrite zlen_app; pose proof (zlen_nonneg rest); lia).
  rewrite take_app_le, take_ge by (unfold zlen in *; lia).
  rewrite drop_app_ge by (unfold zlen in *; lia).
  rewrite <- !app_assoc. do 3 f_equal. unfold rest. rewrite drop_drop. f_equal.
  rewrite length_app. unfold zlen in *. rewrite length_app in *. lia.
Qed.

Lemma write_at_inside d off b :
  0 <= off -> off + zlen b <= zlen d -> write_at d off b = zsplice d off b.
Proof.
  intros. destruct b as [|x b].
  - simpl. unfold zsplice. simpl. by rewrite Nat.add_0_r, take_drop.
  - unfold write_at, zsplice. rewrite zlen_cons in *. pose proof (zlen_nonneg b).
    rewrite take_app_le; [done|]. unfold zlen in *. lia.
Qed.

Lemma write_at_0_nil b : write_at [] 0 b = b.
Proof. destruct b; [done|]. unfold write_at. simpl. by rewrite app_nil_r. Qed.

Lemma zlen_write_at d off b :
  0 <= off -> b <> [] -> zlen (write_at d off b) = Z.max (zlen d) (off + zlen b).
Proof.
  intros Ho Hb. destruct b as [|x b]; [done|]. unfold write_at. rewrite zlen_app, write_at_prefix by done.
  rewrite zlen_app. unfold zlen. rewrite length_drop. lia.
Qed.

(** What [pread] finds where [pwrite] put it, and elsewhere. *)
Lemma zsub_write_at d off b : 0 <= off -> zsub (write_at d off b) off (zlen b) = b.
Proof.
  intros. destruct b as [|x b]; [done|]. unfold write_at.
  rewrite zsub_app_r by (rewrite write_at_prefix by done; lia).
  rewrite write_at_prefix by done. rewrite Z.sub_diag. by apply zsub_app.
Qed.

Lemma zsub_write_at_before d off b o n :
  0 <= o -> 0 <= n -> o + n <= off -> o + n <= zlen d -> zsub (write_at d off b) o n = zsub d o n.
Proof.
  intros. destruct b as [|x b]; [done|]. unfold write_at.
  rewrite zsub_app_l by (rewrite ?write_at_prefix; lia).
  unfold zsub. rewrite skipn_firstn_comm, take_take.
  rewrite drop_app_le by (unfold zlen in *; lia).
  rewrite take_app_le by (rewrite length_drop; unfold zlen in *; lia). f_equal. lia.
Qed.

Lemma zsub_write_at_after d off b o n :
  0 <= off -> off + zlen b <= o -> o <= zlen d -> zsub (write_at d off b) o n = zsub d o n.
Proof.
  intros. destruct b as [|x b]; [done|]. unfold write_at.
  rewrite zsub_app_r; rewrite write_at_prefix by done; [|pose proof (zlen_nonneg (x :: b)); lia].
  rewrite zsub_app_r by lia. unfold zsub. rewrite drop_drop. do 2 f_equal. unfold zlen in *. lia.
Qed.

Lemma within_refl off n d : within off n d d.
Proof. by split. Qed.

Lemma within_weaken off n off' n' d d' :
  off' <= off -> off + n <= off' + n' -> within off n d d' -> within off' n' d d'.
Proof. intros ? ? [? H]. split; [done|]. intros. apply H; lia. Qed.

Lemma within_trans off n d d' d'' : within off n d d' -> within off n d' d'' -> within off n d d''.
Proof.
  intros [L1 H1] [L2 H2]. split; [lia|]. intros. rewrite H2 by lia. by apply H1.
Qed.

Lemma write_at_within d off b n : 0 <= off -> zlen b <= n -> within off n d (write_at d off b).
Proof.
  intros Ho Hn. destruct (decide (b = [])) as [->|Hb]; [apply within_refl|]. split.
  - rewrite zlen_write_at by done. lia.
  - intros o k Hko Hk Hd [H|H]; [by apply zsub_write_at_before|].
    destruct (decide (k = 0)) as [->|]; [done|]. apply zsub_write_at_after; lia.
Qed.

(** ** The loops against the laws *)
Section full_spec.
Context {W : Type} `{!IOBackend W, !IOLaws W}.

Lemma file_updated_trans (P Q R : bytes -> bytes -> Prop) s fd s' s'' :
  (forall d d' d'', P d d' -> Q d' d'' -> R d d'') ->
  file_updated P s fd s' -> file_updated Q s' fd s'' -> file_updated R s fd s''.
Proof.
  intros H (ino & f & f1 & Hfd & Hi & Hn & Hp & ->) (ino2 & f2 & f3 & Hfd2 & Hi2 & Hn2 & Hq & ->).
  cbn in Hfd2. rewrite Hfd in Hfd2. injection Hfd2 as <-. cbn in Hi2.
  rewrite lookup_insert_eq in Hi2. injection Hi2 as <-.
  exists ino, f, f3. split; [done|]. split; [done|]. split; [congruence|]. split; [by eapply H|].
  unfold set_inode. cbn. by rewrite insert_insert_eq.
Qed.

Lemma file_updated_weaken (P Q : bytes -> bytes -> Prop) s fd s' :
  (forall d d', P d d' -> Q d d') -> file_updated P s fd s' -> file_updated Q s fd s'.
Proof. intros H (ino & f & f1 & ? & ? & ? & ? & ?). exists ino, f, f1. auto 10. Qed.

(** Nothing written yet, or the first [k] bytes of [p]. *)
Definition written (p : bytes) (off k : Z) (s : fs) (fd : Z) (s' : fs) : Prop :=
  (k = 0 /\ s' = s) \/ file_updated (fun d d' => d' = write_at d off (zsub p 0 k)) s fd s'.
(** The range [off, off + n) of the file may hold anything, everything else is
    as before. *)
Definition scribbled (off n : Z) (s : fs) (fd : Z) (s' : fs) : Prop :=
  s' = s \/ file_updated (within off n) s fd s'.

Lemma written_step p off k r s fd s' s'' :
  0 <= off -> 0 <= k -> 0 <= r -> k + r <= zlen p ->
  written p off k s fd s' ->
  file_updated (fun d d' => d' = write_at d (off + k) (zsub (drop (Z.to_nat k) p) 0 r)) s' fd s'' ->
  written p off (k + r) s fd s''.
Proof.
  intros Hoff Hk Hr Hle H1 H2. right.
  assert (zsub (drop (Z.to_nat k) p) 0 r = zsub p k r) as E
    by (unfold zsub; by rewrite drop_drop, Nat.add_0_r).
  assert (zsub p 0 k ++ zsub p k r = zsub p 0 (k + r)) as J
    by (by rewrite <- (zsub_join p 0 k r) by lia).
  rewrite E in H2. destruct H1 as [[-> ->]|H1].
  - eapply file_updated_weaken, H2. intros d d' ->. by rewrite !Z.add_0_r, Z.add_0_l.
  - eapply file_updated_trans, H2; [|exact H1]. intros d d' d'' -> ->.
    rewrite <- J. rewrite <- write_at_app by done. rewrite zlen_zsub by lia. done.
Qed.

Lemma written_scribbled p off k s fd s' :
  0 <= off -> 0 <= k <= zlen p -> written p off k s fd s' -> scribbled off (zlen p) s fd s'.
Proof.
  intros ? ? [[_ ->]|H]; [by left|right]. eapply file_updated_weaken, H. intros d d' ->.
  apply write_at_within; [done|]. rewrite zlen_zsub; lia.
Qed.

Lemma scribbled_trans off n s fd s' s'' :
  scribbled off n s fd s' -> scribbled off n s' fd s'' -> scribbled off n s fd s''.
Proof.
  intros [->|H1] [->|H2]; try (by left); try (by right).
  right. eapply file_updated_trans; [|exact H1|exact H2]. intros ? ? ?. apply within_trans.
Qed.

Lemma pwrite_loop_spec fuel fd p off done w0 w o w' :
  0 <= off -> off + zlen p < p64 -> Forall is_byte p -> 0 <= done <= zlen p ->
  (Z.to_nat (zlen p - done) + io_intr w < fuel)%nat ->
  written p off done w0 fd (view w) ->
  pwrite_loop fuel fd p off done w = (o, w') ->
  exists r, o = Some r /\
    ((r = zlen p /\ written p off (zlen p) w0 fd (view w')) \/
     (r < 0 /\ scribbled off (zlen p) w0 fd (view w'))).
Proof.
  intros Hoff Hlen Hb. revert done w. induction fuel as [|fuel IH]; intros done w Hd Hf Hw; [lia|].
  cbn [pwrite_loop]. destruct (done <? zlen p) eqn:Ed; b2p.
  2: { intros [= <- <-]. exists done. split; [easy|]. left. replace (zlen p) with done by lia. easy. }
  intros (n & w1 & Hn & Hk)%mbind_inv. rewrite w64_small in Hn by lia.
  assert (Forall is_byte (drop (Z.to_nat done) p)) as Hbd by (by apply Forall_drop).
  pose proof (intr_pwrite _ _ _ _ _ _ Hn) as [Hi1 Hi2].
  assert (zlen (drop (Z.to_nat done) p) = zlen p - done) as Hzd
    by (unfold zlen; rewrite length_drop; unfold zlen in *; lia).
  destruct (law_pwrite _ _ _ _ _ _ Hn ltac:(lia) Hbd) as [[Hr Hu]|[Hr Hu]].
  - replace (n <? 0) with false in Hk by (symmetry; apply Z.ltb_ge; lia).
    destruct (n =? 0) eqn:E0; b2p.
    + injection Hk as <- <-. exists (-EIO). split; [easy|]. right. split; [lia|].
      eapply scribbled_trans; [by eapply written_scribbled|]. right.
      eapply file_updated_weaken, Hu. intros d d' ->. rewrite E0. apply within_refl.
    + eapply IH, Hk; [lia|lia|]. eapply written_step; eauto; lia.
  - replace (n <? 0) with true in Hk by (symmetry; apply Z.ltb_lt; lia).
    destruct (n =? -EINTR) eqn:E0; b2p.
    + destruct Hu as [Hu|[? _]]; [|easy]. eapply IH, Hk; [lia|specialize (Hi2 E0); lia|].
      by rewrite Hu.
    + injection Hk as <- <-. exists n. split; [easy|]. right. split; [lia|].
      eapply scribbled_trans; [by eapply written_scribbled|].
      destruct Hu as [->|[_ Hu]]; [by left|right].
      eapply file_updated_weaken, Hu. intros d d'. apply within_weaken; lia.
Qed.

(** The complete write returns: the whole count written, or an error with at
    most that file touched. *)
Lemma pwriteFull_spec fd p off w r w' :
  0 <= off -> off + zlen p < p64 -> Forall is_byte p ->
  pwriteFull fd p off w = (r, w') ->
  (r = zlen p /\ written p off (zlen p) (view w) fd (view w')) \/
  (r < 0 /\ scribbled off (zlen p) (view w) fd (view w')).
Proof.
  intros Hoff Hlen Hb H. unfold pwriteFull in H. apply mbind_inv in H as (o & w1 & H1 & H2).
  injection H2 as <- <-. pose proof (zlen_nonneg p).
  destruct (pwrite_loop_spec (full_fuel (zlen p) w) fd p off 0 (view w) w o w1 Hoff Hlen Hb ltac:(lia)
    ltac:(unfold full_fuel; lia) (or_introl (conj eq_refl eq_refl)) H1) as (r & -> & Hr).
  exact Hr.
Qed.

Lemma pread_loop_spec fuel fd count off done acc w o w' :
  0 <= off -> off + count < p64 -> 0 <= done <= count -> zlen acc = done ->
  (Z.to_nat (count - done) + io_intr w < fuel)%nat ->
  (forall f, open_file (view w) fd = Some f -> acc = zsub (i_data f) off done) ->
  (done = 0 \/ is_Some (open_file (view w) fd)) ->
  pread_loop fuel fd count off done acc w = (o, w') ->
  exists r b, o = Some (r, b) /\ view w' = view w /\
    ((0 <= r <= count /\ r = zlen b /\
      (count = 0 \/ exists f, open_file (view w) fd = Some f /\
        b = zsub (i_data f) off count)) \/
     (r < 0 /\ b = [])).
Proof.
  intros Hoff Hlen. revert done acc w. induction fuel as [|fuel IH]; intros done acc w Hd Ha Hf Hacc Hop; [lia|].
  cbn [pread_loop]. destruct (done <? count) eqn:Ed; b2p.
  2: { intros [= <- <-]. exists done, acc. do 2 (split; [easy|]). left. split; [lia|].
       split; [easy|]. assert (done = count) as -> by lia.
       destruct Hop as [->|[f Hf1]]; [by left|right]. exists f. split; [easy|]. by apply Hacc. }
  intros ([n b] & w1 & Hn & Hk)%mbind_inv. rewrite w64_small in Hn by lia. cbn [fst snd] in Hk.
  pose proof (intr_pread _ _ _ _ _ _ _ Hn) as [Hi1 Hi2].
  destruct (law_pread _ _ _ _ _ _ _ Hn) as [Hv Hr]. rewrite <- Hv.
  destruct (n <? 0) eqn:En; b2p.
  - destruct (n =? -EINTR) eqn:E0; b2p.
    + eapply IH, Hk; [lia|easy|specialize (Hi2 E0); lia|rewrite Hv; easy|rewrite Hv; easy].
    + injection Hk as <- <-. exists n, []. do 2 (split; [easy|]). by right.
  - destruct (Hr En) as (Hnb & Hle & f & Hfo & Hdat). specialize (Hdat ltac:(lia)) as [Hb He].
    destruct (n =? 0) eqn:E0; b2p.
    + injection Hk as <- <-. exists done, acc. do 2 (split; [easy|]). left. split; [lia|].
      split; [easy|]. right. exists f. rewrite Hv. split; [easy|].
      rewrite (Hacc f Hfo). specialize (He E0 ltac:(lia)).
      replace count with (done + (count - done)) by lia. rewrite <- zsub_join by lia.
      replace (zsub (i_data f) (off + done) (count - done)) with (@nil Z); [by rewrite app_nil_r|].
      unfold zsub. rewrite drop_ge by (unfold zlen in He; lia). by rewrite take_nil.
    + eapply IH, Hk; [lia|rewrite zlen_app; lia|lia| |].
      * intros f' Hf'. rewrite Hv, Hfo in Hf'. injection Hf' as <-.
        rewrite (Hacc f Hfo), Hb. rewrite zsub_join by lia. done.
      * right. rewrite Hv. eauto.
Qed.

Lemma preadFull_spec fd count off w r b w' :
  0 <= off -> 0 <= count -> off + count < p64 ->
  preadFull fd count off w = ((r, b), w') ->
  view w' = view w /\
  ((0 <= r <= count /\ r = zlen b /\
     (count = 0 \/ exists f, open_file (view w) fd = Some f /\ b = zsub (i_data f) off count)) \/
   (r < 0 /\ b = [])).
Proof.
  intros Hoff Hc Hlen H. unfold preadFull in H. apply mbind_inv in H as (o & w1 & H1 & H2).
  injection H2 as H2 <-.
  destruct (pread_loop_spec (full_fuel count w) fd count off 0 [] w o w1 Hoff Hlen ltac:(lia) eq_refl
    ltac:(unfold full_fuel; lia) ltac:(easy) ltac:(by left) H1) as (r' & b' & -> & Hv & Hr).
  injection H2 as <- <-. done.
Qed.

Lemma preadFull_view fd n off (w : W) x w' : preadFull fd n off w = (x, w') -> view w' = view w.
Proof.
  unfold preadFull. intros (y & w1 & Hp & [= _ <-])%mbind_inv. revert Hp.
  generalize (full_fuel n w) as fuel, 0 as done, (@nil Z) as acc. intros fuel. revert w y w1.
  induction fuel as [|fuel IH]; intros w y w1 done acc; cbn [pread_loop]; [by intros [= _ <-]|].
  destruct (done <? _); [|by intros [= _ <-]]. intros ([k d] & w2 & Hk & H)%mbind_inv.
  destruct (law_pread _ _ _ _ _ _ _ Hk) as [Hv _]. rewrite <- Hv. cbn [fst snd] in H.
  destruct (k <? 0); [destruct (k =? -EINTR); [by eapply IH|by injection H as _ <-]|].
  destruct (k =? 0); [by injection H as _ <-|by eapply IH].
Qed.
End full_spec.

(** ** [MemIO]: a memory file system with injected faults

    Each call consumes one entry of the schedule: proceed, fail with an errno,
    or transfer at most so many bytes. A crash at any point is the schedule that
    fails every call from there on. *)
Inductive fault := FOk | FErr (e : Z) | FShort (n : Z).

Record memw := mkMem { m_fs : fs; m_faults : list fault }.

Definition mem_fresh {A} (m : gmap Z A) : Z := 1 + map_fold (fun k _ a => Z.max k a) 0 m.

Lemma mem_fresh_spec {A} (m : gmap Z A) : m !! mem_fresh m = None /\ 0 <= mem_fresh m.
Proof.
  unfold mem_fresh.
  assert (0 <= map_fold (fun k _ a => Z.max k a) 0 m /\
    forall k, is_Some (m !! k) -> k <= map_fold (fun k _ a => Z.max k a) 0 m) as [H0 H].
  { apply (map_fold_weak_ind (fun r (m : gmap Z A) => 0 <= r /\ forall k, is_Some (m !! k) -> k <= r)).
    - split; [lia|]. intros k [x Hx]. by rewrite lookup_empty in Hx.
    - intros i x m' r Hi [Hr1 Hr2]. split; [lia|]. intros k [y Hy].
      destruct (decide (i = k)) as [->|Hne]; [lia|]. rewrite lookup_insert_ne in Hy by done.
      specialize (Hr2 k ltac:(eauto)). lia. }
  split; [|lia]. destruct (m !! _) eqn:E; [|done]. specialize (H _ ltac:(eauto)). lia.
Qed.

Definition popf (w : memw) : fault * memw :=
  match m_faults w with
  | [] => (FOk, w)
  | f :: l => (f, mkMem (m_fs w) l)
  end.

(** Run [k] unless the schedule injects an error. *)
Definition faulty {A} (bad : Z -> A) (k : fs -> option Z -> A * fs) : M memw A := fun w =>
  match popf w with
  | (FErr e, w') => (bad (if 0 <? e then - e else -EIO), w')
  | (FShort n, w') => let '(a, s) := k (m_fs w') (Some n) in (a, mkMem s (m_faults w'))
  | (FOk, w') => let '(a, s) := k (m_fs w') None in (a, mkMem s (m_faults w'))
  end.

Definition EBADF : Z := 9.

Definition on_fd {A} (fd : Z) (bad : A) (k : Z -> inode -> A * fs) (s : fs) : A * fs :=
  match fs_fds s !! fd with
  | Some ino => match fs_inodes s !! ino with Some f => k ino f | None => (bad, s) end
  | None => (bad, s)
  end.

Definition mem_open (path : bytes) (fl : oflags) : M memw Z := faulty id (fun s _ =>
  let fd := mem_fresh (fs_fds s) in
  match fs_names s !! path with
  | Some ino =>
      match fs_inodes s !! ino with
      | Some n => if o_excl fl then (-EEXIST, s)
                  else (fd, mkFs (fs_names s)
                    (if o_trunc fl then <[ino := with_data n []]> (fs_inodes s) else fs_inodes s)
                    (<[fd := ino]> (fs_fds s)))
      | None => (-EIO, s)
      end
  | None =>
      if o_creat fl then
        let ino := mem_fresh (fs_inodes s) in
        (fd, mkFs (<[path := ino]> (fs_names s)) (<[ino := mkInode [] 1 0 0]> (fs_inodes s))
               (<[fd := ino]> (fs_fds s)))
      else (-ENOENT, s)
  end).

Definition mem_close (fd : Z) : M memw Z := fun w =>
  let '(f, w') := popf w in
  let s := m_fs w' in
  (match f with FErr e => if 0 <? e then - e else -EIO | _ => 0 end,
   mkMem (mkFs (fs_names s) (fs_inodes s) (delete fd (fs_fds s))) (m_faults w')).

Definition mem_pread (fd n off : Z) : M memw (Z * bytes) := faulty (fun e => (e, [])) (fun s sh =>
  if (n <? 0) || (off <? 0) then ((-EINVAL, []), s) else
  on_fd fd (- EBADF, []) (fun _ f =>
    let b := zsub (i_data f) off (match sh with Some k => Z.min n (Z.max 1 k) | None => n end) in
    ((zlen b, b), s)) s).

Definition mem_pwrite (fd : Z) (b : bytes) (off : Z) : M memw Z := faulty id (fun s sh =>
  on_fd fd (- EBADF) (fun ino f =>
    let k := match sh with Some k => Z.max 0 (Z.min (zlen b) k) | None => zlen b end in
    (k, set_inode s ino (with_data f (write_at (i_data f) off (zsub b 0 k))))) s).

Definition mem_upd (fd : Z) (g : bytes -> bytes) : M memw Z := faulty id (fun s _ =>
  on_fd fd (- EBADF) (fun ino f => (0, set_inode s ino (with_data f (g (i_data f))))) s).

Definition mem_fstat (fd : Z) : M memw (Z * stat_t) := faulty (fun e => (e, stat0)) (fun s _ =>
  on_fd fd (- EBADF, stat0) (fun ino f => ((0, stat_of ino f), s)) s).

Definition mem_stat (path : bytes) : M memw (Z * stat_t) := faulty (fun e => (e, stat0)) (fun s _ =>
  match fs_names s !! path with
  | Some ino => match fs_inodes s !! ino with
                | Some f => ((0, stat_of ino f), s)
                | None => ((-ENOENT, stat0), s)
                end
  | None => ((-ENOENT, stat0), s)
  end).

Definition mem_unlink (path : bytes) : M memw Z := faulty id (fun s _ =>
  match fs_names s !! path with Some _ => (0, unlink_name s path) | None => (-ENOENT, s) end).

Definition mem_rename (a b : bytes) : M memw Z := faulty id (fun s _ =>
  match fs_names s !! a with
  | Some ino =>
      (0, if decide (fs_names s !! b = Some ino) then s
          else let u := unlink_name s b in set_names u (<[b := ino]> (delete a (fs_names u))))
  | None => (-ENOENT, s)
  end).

Definition mem_noop : M memw Z := faulty id (fun s _ => (0, s)).

Definition mem_link (a b : bytes) : M memw Z := faulty id (fun s _ =>
  match fs_names s !! a, fs_names s !! b with
  | Some ino, None =>
      match fs_inodes s !! ino with
      | Some f => (0, mkFs (<[b := ino]> (fs_names s))
                        (<[ino := with_nlink f (i_nlink f + 1)]> (fs_inodes s)) (fs_fds s))
      | None => (-EIO, s)
      end
  | Some _, Some _ => (-EEXIST, s)
  | None, _ => (-ENOENT, s)
  end).

#[export] Instance MemIO : IOBackend memw := {
  io_open := mem_open; io_close := mem_close; io_pread := mem_pread; io_pwrite := mem_pwrite;
  io_fdatasync := fun _ => mem_noop; io_ftruncate := fun fd n => mem_upd fd (fun d => resize d n);
  io_fstat := mem_fstat; io_stat := mem_stat; io_unlink := mem_unlink; io_rename := mem_rename;
  io_mkdirs := fun _ => mem_noop; io_flock := fun _ _ => mem_noop;
  io_punchHole := fun fd off n => mem_upd fd (fun d => zero_range d off n);
  io_link := mem_link; io_intr := fun w => length (m_faults w)
}.

(** *** [MemIO] obeys the laws *)

Lemma neg_err e : (if 0 <? e then - e else -EIO) < 0.
Proof. destruct (0 <? e) eqn:E; b2p; lia. Qed.

(** One call: the schedule either failed it or ran its body on the same files. *)
Lemma faulty_inv {A} (bad : Z -> A) k w a w' :
  faulty bad k w = (a, w') ->
  (exists e, e < 0 /\ a = bad e /\ m_fs w' = m_fs w /\
     (length (m_faults w') < length (m_faults w))%nat) \/
  (exists sh, k (m_fs w) sh = (a, m_fs w') /\ (length (m_faults w') <= length (m_faults w))%nat).
Proof.
  unfold faulty, popf. destruct (m_faults w) as [|[|e|n] l] eqn:E; cbn [m_fs m_faults].
  - destruct (k (m_fs w) None) as [a' s] eqn:Hk. intros [= <- <-]. right. exists None. simpl.
    split; [done|by rewrite E].
  - destruct (k (m_fs w) None) as [a' s] eqn:Hk. intros [= <- <-]. right. exists None. simpl. split; [done|lia].
  - intros [= <- <-]. left. eexists. split; [apply neg_err|]. simpl. split; [done|]. split; [done|lia].
  - destruct (k (m_fs w) (Some n)) as [a' s] eqn:Hk. intros [= <- <-]. right. exists (Some n).
    simpl. split; [done|lia].
Qed.

Lemma on_fd_inv {A} fd (bad : A) k s a s' :
  on_fd fd bad k s = (a, s') ->
  (a = bad /\ s' = s) \/
  (exists ino f, fs_fds s !! fd = Some ino /\ fs_inodes s !! ino = Some f /\ k ino f = (a, s')).
Proof.
  unfold on_fd. destruct (fs_fds s !! fd) as [ino|] eqn:E; [|intros [= <- <-]; by left].
  destruct (fs_inodes s !! ino) as [f|] eqn:E2; [|intros [= <- <-]; by left].
  intros. right. eauto.
Qed.

Lemma mem_upd_law fd g w r w' :
  mem_upd fd g w = (r, w') ->
  (r < 0 /\ m_fs w' = m_fs w) \/ (r = 0 /\ file_updated (fun d d' => d' = g d) (m_fs w) fd (m_fs w')).
Proof.
  intros [(e & He & -> & Hv & _)|(sh & Hk & _)]%faulty_inv; [by left|].
  apply on_fd_inv in Hk as [[-> Hv]|(ino & f & H1 & H2 & [= <- Hv])]; [left; split; [unfold EBADF; lia|done]|].
  right. split; [done|]. exists ino, f, (with_data f (g (i_data f))). by rewrite <- Hv.
Qed.

Lemma mem_noop_law w r w' : mem_noop w = (r, w') -> r <= 0 /\ m_fs w' = m_fs w.
Proof.
  intros [(e & He & -> & Hv & _)|(sh & [= <- Hv] & _)]%faulty_inv; cbn [id]; split; auto; lia.
Qed.

Lemma mem_open_law path fl w r w' :
  mem_open path fl w = (r, w') ->
  (r < 0 /\ m_fs w' = m_fs w) \/ (0 <= r /\ opened (m_fs w) path fl r (m_fs w')).
Proof.
  intros [(e & He & -> & Hv & _)|(sh & Hk & _)]%faulty_inv; [by left|].
  pose proof (mem_fresh_spec (fs_fds (m_fs w))) as [Hfd Hfd0]. unfold opened.
  destruct (fs_names (m_fs w) !! path) as [ino|].
  - destruct (fs_inodes (m_fs w) !! ino) as [n|]; [|injection Hk as <- <-; left; split; [lia|done]].
    destruct (o_excl fl); injection Hk as <- <-; [left; split; [lia|done]|right]. eauto 10.
  - destruct (o_creat fl); injection Hk as <- <-; [right|left; split; [lia|done]].
    split; [done|]. split; [done|]. split; [done|]. exists (mem_fresh (fs_inodes (m_fs w))), 0, 0.
    split; [apply mem_fresh_spec|done].
Qed.

Lemma take_length_take {A} n (l : list A) : take (length (take n l)) l = take n l.
Proof. revert l. induction n; intros [|x l]; simpl; try done. by rewrite IHn. Qed.

Lemma mem_pread_law fd n off w r b w' :
  mem_pread fd n off w = ((r, b), w') ->
  m_fs w' = m_fs w /\
  (0 <= r -> r = zlen b /\ r <= n /\ exists f, open_file (m_fs w) fd = Some f /\
     (0 <= off -> b = zsub (i_data f) off r /\ (r = 0 -> 0 < n -> zlen (i_data f) <= off))).
Proof.
  intros [(e & He & [= -> ->] & Hv & _)|(sh & Hk & _)]%faulty_inv; [split; [done|lia]|].
  destruct ((n <? 0) || (off <? 0)) eqn:E; [injection Hk as <- <- <-; split; [done|lia]|]. b2p.
  apply on_fd_inv in Hk as [[[= -> ->] ->]|(ino & f & H1 & H2 & [= Hr Hb Hs])].
  { split; [done|]. unfold EBADF. lia. }
  split; [done|]. intros Hr0.
  set (m := match sh with Some k => Z.min n (Z.max 1 k) | None => n end) in *.
  assert (0 <= m <= n /\ (0 < n -> 0 < m)) as [Hm Hm1] by (destruct sh; lia).
  pose proof (zlen_zsub_le (i_data f) off m ltac:(lia)). subst b r.
  split; [done|]. split; [lia|]. exists f. split; [unfold open_file; by rewrite H1|]. intros Hoff.
  split; [unfold zsub, zlen; rewrite Nat2Z.id; by rewrite take_length_take|].
  intros Hz Hn. unfold zsub, zlen in Hz. rewrite length_take, length_drop in Hz. unfold zlen. lia.
Qed.

Lemma mem_pwrite_law fd b off w r w' :
  mem_pwrite fd b off w = (r, w') ->
  (0 <= r <= zlen b /\
     file_updated (fun d d' => d' = write_at d off (zsub b 0 r)) (m_fs w) fd (m_fs w')) \/
  (r < 0 /\ (m_fs w' = m_fs w \/
     (r <> -EINTR /\ file_updated (within off (zlen b)) (m_fs w) fd (m_fs w')))).
Proof.
  intros [(e & He & -> & Hv & _)|(sh & Hk & _)]%faulty_inv; [right; auto|].
  apply on_fd_inv in Hk as [[-> Hv]|(ino & f & H1 & H2 & [= Hr Hs])].
  { right. unfold EBADF. split; [lia|by left]. }
  left. pose proof (zlen_nonneg b). split; [destruct sh; lia|].
  exists ino, f, (with_data f (write_at (i_data f) off (zsub b 0 r))). rewrite <- Hs, <- Hr. by destruct sh.
Qed.

#[export] Instance MemIO_laws : IOLaws memw.
Proof.
  refine {| view := m_fs |}; cbn.
  - apply mem_open_law.
  - intros fd w r w'. unfold mem_close, popf. destruct (m_faults w) as [|[|e|n] l]; cbn;
      intros [= <- <-]; cbn; split; try lia; try done. pose proof (neg_err e). lia.
  - apply mem_pread_law.
  - intros fd b off w r w' H _ _. by apply mem_pwrite_law.
  - intros fd. apply mem_noop_law.
  - intros fd n. apply mem_upd_law.
  - intros fd w r st w' [(e & He & [= -> ->] & Hv & _)|(sh & Hk & _)]%faulty_inv.
    { split; [lia|]. split; [done|lia]. }
    apply on_fd_inv in Hk as [[[= -> ->] ->]|(ino & f & H1 & H2 & [= <- <- <-])].
    { unfold EBADF. split; [lia|]. split; [done|lia]. }
    split; [lia|]. split; [done|]. eauto.
  - intros path w r st w' [(e & He & [= -> ->] & Hv & _)|(sh & Hk & _)]%faulty_inv.
    { split; [lia|]. split; [done|lia]. }
    destruct (fs_names (m_fs w) !! path) as [ino|];
      [destruct (fs_inodes (m_fs w) !! ino) as [f|] eqn:E2|]; injection Hk as <- <- <-;
      (split; [lia|]); (split; [done|]); intros; try lia. eauto.
  - intros path w r w' [(e & He & -> & Hv & _)|(sh & Hk & _)]%faulty_inv; [by left|].
    destruct (fs_names (m_fs w) !! path); injection Hk as <- Hs; [right|left; split; [lia|done]].
    split; [done|]. split; [by eexists|done].
  - intros a b w r w' [(e & He & -> & Hv & _)|(sh & Hk & _)]%faulty_inv; [by left|].
    destruct (fs_names (m_fs w) !! a) as [ino|] eqn:E; injection Hk as <- Hs; [right|left; split; [lia|done]].
    split; [done|]. exists ino. split; [done|]. rewrite <- Hs. by case_decide.
  - intros _. apply mem_noop_law.
  - intros _ _. apply mem_noop_law.
  - intros fd off n. apply mem_upd_law.
  - intros a b w r w' [(e & He & -> & Hv & _)|(sh & Hk & _)]%faulty_inv; [by left|].
    unfold linked. destruct (fs_names (m_fs w) !! a) as [ino|];
      [destruct (fs_names (m_fs w) !! b) as [ino2|];
       [|destruct (fs_inodes (m_fs w) !! ino) as [f|] eqn:E2]|];
      injection Hk as <- Hs; try (left; split; [lia|done]).
    right. split; [done|]. eauto 10.
  - intros fd n off w r b w' [(e & He & _ & _ & Hl)|(sh & Hk & Hl)]%faulty_inv; [lia|].
    split; [done|]. intros ->. destruct ((n <? 0) || (off <? 0)); [done|].
    apply on_fd_inv in Hk as [[? _]|(ino & f & _ & _ & [= Hr _ _])]; [done|].
    pose proof (zlen_nonneg (zsub (i_data f) off (match sh with Some k => Z.min n (Z.max 1 k) | None => n end))). lia.
  - intros fd b off w r w' [(e & He & _ & _ & Hl)|(sh & Hk & Hl)]%faulty_inv; [lia|].
    split; [done|]. intros ->.
    apply on_fd_inv in Hk as [[? _]|(ino & f & _ & _ & [= Hr _])]; [done|].
    pose proof (zlen_nonneg b). destruct sh; lia.
Defined.
