(* ===== verification/Config.v ===== *)
(** * Settings (src/core/Config.h)

    The settings the modelled components read. The fields of [Config] that no
    modelled component uses (tracing, host lists) are left out; those of read-ahead are in Prefetch.v, the three
    of the open retries are in OpenRetry.v. *)

From S2P Require Import Prelude.

Module Config.

Inductive ValidateMode := VNone | VSize | VSizeMtime | VCksum.
Inductive FsyncMode := FsOff | FsData | FsAll.

#[global] Instance ValidateMode_eq : EqDecision ValidateMode.
Proof. solve_decision. Defined.
#[global] Instance FsyncMode_eq : EqDecision FsyncMode.
Proof. solve_decision. Defined.

Record Config := mkConfig {
  cacheDir : bytes;
  pageSize : Z;
  validate : ValidateMode;
  fsync : FsyncMode;
  metaFlushSeconds : Z;
  fillBufferMb : Z;
  fillBufferTotalMb : Z
}.

(** A power of two in [4 KiB, 1 MiB]. *)
Definition validPageSize (p : Z) : bool :=
  (4096 <=? p) && (p <=? Z.shiftl 1 20) && (Z.land p (w32 (p - 1)) =? 0).

(** The settings of an installation that configures nothing. *)
Definition defaults (dir : bytes) : Config := mkConfig dir 4096 VSize FsOff 30 48 1024.

End Config.
