(* ===== verification/MetaFile.v ===== *)
(** * The .meta sidecar (src/core/MetaFile.h, MetaFile.cc)

    [MetaData] is the in-memory sidecar of one cached file; [serialize] and
    [deserialize] are its on-disk image, [load], [loadSummary] and [store] the
    file operations over the backend. Proved here: the round trip, what a
    successful [deserialize] guarantees of the result, and that [store] replaces
    the sidecar atomically whatever call fails. *)

From S2P Require Import Prelude IOBackend Crc32c PageBitmap Config.

Module Meta.

Definition kFormatVersion : Z := 1.
Definition kFlagPinned : Z := 1.
Definition kFlagComplete : Z := 2.
Definition kCksumNone : Z := 0.

Record MetaData := mkMeta {
  pageSize : Z;
  flags : Z;
  fileSize : Z;
  atime : Z;
  originMtime : Z;
  cksumKind : Z;
  originCksum : Z;
  key : bytes;
  bitmap : PageBitmap;
  pageCrcs : list Z
}.

Definition set_flags (v : Z) (m : MetaData) : MetaData :=
  mkMeta (pageSize m) v (fileSize m) (atime m) (originMtime m) (cksumKind m) (originCksum m)
    (key m) (bitmap m) (pageCrcs m).
Definition set_atime (v : Z) (m : MetaData) : MetaData :=
  mkMeta (pageSize m) (flags m) (fileSize m) v (originMtime m) (cksumKind m) (originCksum m)
    (key m) (bitmap m) (pageCrcs m).
Definition set_origin (mt k c : Z) (m : MetaData) : MetaData :=
  mkMeta (pageSize m) (flags m) (fileSize m) (atime m) mt k c (key m) (bitmap m) (pageCrcs m).
(** The presence bit and the CRC of one page. *)
Definition set_page (b : PageBitmap) (i c : Z) (m : MetaData) : MetaData :=
  mkMeta (pageSize m) (flags m) (fileSize m) (atime m) (originMtime m) (cksumKind m)
    (originCksum m) (key m) b (zset (pageCrcs m) i c).

(** [npages()]; the 64-bit sum wraps for sizes within a page of 2^64. *)
Definition npages_of (pageSize fileSize : Z) : Z :=
  if pageSize =? 0 then 0 else (fileSize +% pageSize -% 1) / pageSize.
Definition npages (m : MetaData) : Z := npages_of (pageSize m) (fileSize m).

(** [pageBytes(i)]: the tail page may be short. *)
Definition pageBytes (m : MetaData) (i : Z) : Z :=
  let start := i *% pageSize m in
  let end_ := Z.min (start +% pageSize m) (fileSize m) in
  w32 (end_ -% start).

Definition cachedBytes (m : MetaData) : Z :=
  let n := Bitmap.count_ (bitmap m) in
  if n =? 0 then 0
  else
    let bytes_ := n *% pageSize m in
    let last := npages m -% 1 in
    if Bitmap.get (bitmap m) last
    then bytes_ -% w32 (pageSize m - pageBytes m last)
    else bytes_.

(** [fresh(key, fileSize, pageSize)]; [now] is [time(nullptr)]. *)
Definition fresh (now : Z) (key : bytes) (fileSize pageSize : Z) : MetaData :=
  let np := npages_of pageSize fileSize in
  mkMeta pageSize 0 fileSize now 0 kCksumNone 0 key (Bitmap.reset np) (zeros np).

Definition kMagic : bytes := bs "UCAC".
Definition kHeaderSize : Z := 56.
Definition kCrcFieldOff : Z := 52.

Definition align8 (n : Z) : Z := Z.land (n +% 7) (w64 (Z.lnot 7)).

(** The image's geometry, as [deserialize] and [loadSummary] compute it. *)
Definition bitmapOff_of (keyLen : Z) : Z := align8 (kHeaderSize +% keyLen).
Definition bitmapSize_of (np : Z) : Z := (np +% 7) / 8.
Definition crcsOff_of (keyLen np : Z) : Z := bitmapOff_of keyLen +% bitmapSize_of np.
Definition total_of (keyLen np : Z) : Z := crcsOff_of keyLen np +% np *% 4.

Definition isPow2 (p : Z) : bool := Z.land p (w32 (p - 1)) =? 0.

Section checksum.
Context `{CK : Checksum}.

(** The fields, in the order the source writes them. *)
Definition fields (m : MetaData) : list (Z * bytes) :=
  let np := npages m in
  let bitmapOff := bitmapOff_of (zlen (key m)) in
  let crcsOff := bitmapOff +% Bitmap.rawSize (bitmap m) in
  [ (0, kMagic); (4, le_bytes 4 kFormatVersion); (8, le_bytes 4 (pageSize m));
    (12, le_bytes 4 (flags m)); (16, le_bytes 8 (fileSize m)); (24, le_bytes 8 (atime m));
    (32, le_bytes 8 (originMtime m)); (40, le_bytes 1 (cksumKind m));
    (44, le_bytes 4 (originCksum m)); (48, le_bytes 4 (w32 (zlen (key m))));
    (kHeaderSize, key m); (bitmapOff, Bitmap.raw (bitmap m)) ] ++
  (if negb (np =? 0) && (zlen (pageCrcs m) =? np) then [(crcsOff, le_array 4 (pageCrcs m))] else []).

Definition serialize (m : MetaData) : bytes :=
  let np := npages m in
  let crcsOff := bitmapOff_of (zlen (key m)) +% Bitmap.rawSize (bitmap m) in
  let total := crcsOff +% np *% 4 in
  let buf := write_all (fields m) (zeros total) in
  putLE 4 buf kCrcFieldOff (crc 0 buf).

Definition deserialize (p : bytes) : option MetaData :=
  let n := zlen p in
  if (n <? kHeaderSize) || negb (bytes_eqb (zsub p 0 4) kMagic) then None
  else if negb (getLE 4 p 4 =? kFormatVersion) then None
  else
    let ps := getLE 4 p 8 in
    let fs := getLE 8 p 16 in
    let keyLen := getLE 4 p 48 in
    let storedCrc := getLE 4 p kCrcFieldOff in
    if (ps =? 0) || negb (isPow2 ps) then None
    else
      let np := npages_of ps fs in
      let bitmapOff := bitmapOff_of keyLen in
      let bitmapSize := bitmapSize_of np in
      let crcsOff := crcsOff_of keyLen np in
      let total := total_of keyLen np in
      if negb (n =? total) || (64 * 1024 <? keyLen) then None
      else if negb (crc 0 (putLE 4 p kCrcFieldOff 0) =? storedCrc) then None
      else Some (mkMeta ps (getLE 4 p 12) fs (getLE 8 p 24) (getLE 8 p 32) (getLE 1 p 40)
             (getLE 4 p 44) (zsub p kHeaderSize keyLen)
             (Bitmap.recount (Bitmap.with_raw (Bitmap.reset np) (zsub p bitmapOff bitmapSize)))
             (get_array 4 p crcsOff np)).
End checksum.

(** ** File operations *)
Section io.
Context {W : Type} `{!IOBackend W} `{CK : Checksum}.

Definition load (path : bytes) : M W (option MetaData) :=
  do st <- io_stat path;
  if fst st <? 0 then ret None
  else if (st_size (snd st) <=? 0) || (p31 <? st_size (snd st)) then ret None
  else
    do fd <- io_open path O_RDONLY;
    if fd <? 0 then ret None
    else
      do rb <- preadFull fd (st_size (snd st)) 0;
      do_ io_close fd;
      if negb (fst rb =? st_size (snd st)) then ret None
      else ret (deserialize (snd rb)).

(** The scan-path load: header, key and bitmap, no page CRCs, and a size match
    in place of the whole-image CRC. *)
Definition loadSummary (path : bytes) : M W (option MetaData) :=
  do st <- io_stat path;
  if fst st <? 0 then ret None
  else if (st_size (snd st) <? kHeaderSize) || (p31 <? st_size (snd st)) then ret None
  else
    do fd <- io_open path O_RDONLY;
    if fd <? 0 then ret None
    else
      do rb <- preadFull fd kHeaderSize 0;
      let hdr := snd rb in
      if negb (fst rb =? kHeaderSize) || negb (bytes_eqb (zsub hdr 0 4) kMagic)
         || negb (getLE 4 hdr 4 =? kFormatVersion)
      then do_ io_close fd; ret None
      else
        let ps := getLE 4 hdr 8 in
        let fs := getLE 8 hdr 16 in
        let keyLen := getLE 4 hdr 48 in
        if (ps =? 0) || negb (isPow2 ps) || (64 * 1024 <? keyLen)
        then do_ io_close fd; ret None
        else
          let np := npages_of ps fs in
          let bitmapOff := bitmapOff_of keyLen in
          let crcsOff := crcsOff_of keyLen np in
          if negb (st_size (snd st) =? total_of keyLen np)
          then do_ io_close fd; ret None
          else
            let len := crcsOff -% kHeaderSize in
            do rb2 <- preadFull fd len kHeaderSize;
            do_ io_close fd;
            if negb (fst rb2 =? len) then ret None
            else
              let buf := snd rb2 in
              ret (Some (mkMeta ps (getLE 4 hdr 12) fs (getLE 8 hdr 24) (getLE 8 hdr 32)
                (getLE 1 hdr 40) (getLE 4 hdr 44) (zsub buf 0 keyLen)
                (Bitmap.recount (Bitmap.with_raw (Bitmap.reset np)
                   (zsub buf (bitmapOff - kHeaderSize) (bitmapSize_of np)))) [])).

Definition tmp_of (path : bytes) : bytes := path ++ bs ".tmp".

(** Atomic rewrite: write and close [path.tmp], then rename it over [path]. *)
Definition store_bytes (path buf : bytes) (fsyncMeta : bool) : M W Z :=
  let tmp := tmp_of path in
  do fd <- io_open tmp O_WRONLY_CREAT_TRUNC;
  if fd <? 0 then ret fd
  else
    do w <- pwriteFull fd buf 0;
    let rc := if negb (w =? zlen buf) then (if w <? 0 then w else -EIO) else 0 in
    do rc <- (if (rc =? 0) && fsyncMeta then io_fdatasync fd else ret rc);
    do crc_ <- io_close fd;
    let rc := if (rc =? 0) && (crc_ <? 0) then crc_ else rc in
    if negb (rc =? 0) then do_ io_unlink tmp; ret rc
    else
      do rc <- io_rename tmp path;
      if negb (rc =? 0) then do_ io_unlink tmp; ret rc
      else ret rc.

Definition store (path : bytes) (m : MetaData) (fsyncMeta : bool) : M W Z :=
  store_bytes path (serialize m) fsyncMeta.
End io.

(** ** Well-formed sidecars *)

(** What every entry's page geometry satisfies. *)
Record geom (m : MetaData) : Prop := {
  g_ps : Config.validPageSize (pageSize m) = true;
  g_fs : 0 <= fileSize m < p63
}.

Record wf (m : MetaData) : Prop := {
  wf_geom : geom m;
  wf_flags : is_u32 (flags m);
  wf_atime : is_u64 (atime m);
  wf_mtime : is_u64 (originMtime m);
  wf_kind : is_byte (cksumKind m);
  wf_cksum : is_u32 (originCksum m);
  wf_key : Forall is_byte (key m) /\ zlen (key m) <= 64 * 1024;
  wf_bitmap : Bitmap.wf (bitmap m) /\ Bitmap.npages_ (bitmap m) = npages m;
  wf_crcs : zlen (pageCrcs m) = npages m /\ Forall is_u32 (pageCrcs m)
}.

Lemma validPageSize_range p : Config.validPageSize p = true -> 4096 <= p <= 1048576 /\ isPow2 p = true.
Proof.
  unfold Config.validPageSize, isPow2. change (Z.shiftl 1 20) with 1048576. intros. b2p.
  split; [lia|]. by apply Z.eqb_eq.
Qed.

Lemma npages_of_plain ps fs :
  4096 <= ps <= 1048576 -> 0 <= fs < p63 -> npages_of ps fs = (fs + ps - 1) / ps.
Proof.
  intros. unfold npages_of. replace (ps =? 0) with false by (symmetry; apply Z.eqb_neq; lia).
  by nowrap.
Qed.

Lemma npages_of_range ps fs :
  4096 <= ps <= 1048576 -> 0 <= fs < p63 ->
  0 <= npages_of ps fs < 2 ^ 52 /\ npages_of ps fs * ps < fs + ps /\ fs <= npages_of ps fs * ps.
Proof.
  intros. rewrite npages_of_plain by done.
  pose proof (Z.mul_div_le (fs + ps - 1) ps). pose proof (Z.mod_pos_bound (fs + ps - 1) ps).
  rewrite Z.mod_eq in * by lia. split; [|nia]. split; [apply Z.div_pos; lia|].
  apply Z.div_lt_upper_bound; [lia|]. change (2 ^ 52) with 4503599627370496. nia.
Qed.

Lemma geom_npages m : geom m ->
  0 <= npages m < 2 ^ 52 /\ npages m * pageSize m < fileSize m + pageSize m /\
  fileSize m <= npages m * pageSize m.
Proof. intros [?%validPageSize_range ?]. apply npages_of_range; tauto. Qed.

Lemma align8_plain n : 0 <= n < p63 -> align8 n = 8 * ((n + 7) / 8).
Proof.
  intros. unfold align8. rewrite w64_small by lia.
  replace (8 * ((n + 7) / 8)) with (Z.shiftl (Z.shiftr (n + 7) 3) 3)
    by (rewrite Z.shiftl_mul_pow2, Z.shiftr_div_pow2 by lia; change (2 ^ 3) with 8; lia).
  change (w64 (Z.lnot 7)) with (Z.shiftl (Z.ones 61) 3).
  assert (forall k, 64 <= k -> Z.testbit (n + 7) k = false) as Hhigh.
  { intros k Hk. apply Z.bits_above_log2; [lia|]. apply Z.log2_lt_pow2; [lia|].
    apply Z.lt_le_trans with (2 ^ 64); [change (2 ^ 64) with p64; lia|].
    apply Z.pow_le_mono_r; lia. }
  apply Z.bits_inj'. intros k Hk. rewrite Z.land_spec.
  destruct (Z.lt_ge_cases k 3).
  - rewrite !Z.shiftl_spec_low by lia. apply andb_false_r.
  - rewrite !Z.shiftl_spec, Z.shiftr_spec by lia. replace (k - 3 + 3) with k by lia.
    destruct (Z.lt_ge_cases k 64).
    + rewrite Z.ones_spec_low by lia. apply andb_true_r.
    + rewrite Hhigh by lia. done.
Qed.

(** Offsets of the image, without wrap-around. *)
Lemma layout_plain keyLen np :
  0 <= keyLen <= 64 * 1024 -> 0 <= np < 2 ^ 52 ->
  bitmapOff_of keyLen = 8 * ((63 + keyLen) / 8) /\
  56 + keyLen <= bitmapOff_of keyLen <= 63 + keyLen /\
  bitmapSize_of np = (np + 7) / 8 /\ 0 <= bitmapSize_of np <= np /\
  crcsOff_of keyLen np = bitmapOff_of keyLen + bitmapSize_of np /\
  total_of keyLen np = crcsOff_of keyLen np + np * 4.
Proof.
  change (2 ^ 52) with 4503599627370496. intros.
  assert (bitmapOff_of keyLen = 8 * ((63 + keyLen) / 8)) as E.
  { unfold bitmapOff_of, kHeaderSize. rewrite w64_small by lia. rewrite align8_plain by lia.
    by replace (56 + keyLen + 7) with (63 + keyLen) by lia. }
  pose proof (Z.mul_div_le (63 + keyLen) 8). pose proof (Z.mod_pos_bound (63 + keyLen) 8).
  rewrite Z.mod_eq in * by lia.
  assert (bitmapSize_of np = (np + 7) / 8) as E2 by (unfold bitmapSize_of; by nowrap).
  assert (0 <= (np + 7) / 8 <= np) as ?.
  { split; [apply Z.div_pos; lia|]. destruct (Z.eq_dec np 0) as [->|]; [vm_compute; congruence|].
    apply Z.lt_succ_r, Z.div_lt_upper_bound; lia. }
  assert (crcsOff_of keyLen np = bitmapOff_of keyLen + bitmapSize_of np) as E3.
  { unfold crcsOff_of. rewrite E2, E. apply w64_small. lia. }
  split; [done|]. split; [rewrite E; lia|]. split; [done|]. split; [by rewrite E2|]. split; [done|].
  unfold total_of. rewrite (w64_small (np * 4)) by lia. apply w64_small. rewrite E3, E2, E. lia.
Qed.

(** ** The round trip *)
Section roundtrip.
Context `{CK : Checksum}.
Context (m : MetaData) (Hm : wf m).
Let np := npages m.
Let kl := zlen (key m).
Let buf := write_all (fields m) (zeros (total_of kl np)).

Lemma np_range : 0 <= np < 2 ^ 52.
Proof using Hm. apply geom_npages, (wf_geom _ Hm). Qed.
Lemma kl_range : 0 <= kl <= 64 * 1024.
Proof using Hm. destruct (wf_key _ Hm). pose proof (zlen_nonneg (key m)). unfold kl. lia. Qed.

Lemma rawSize_eq : Bitmap.rawSize (bitmap m) = bitmapSize_of np.
Proof using Hm.
  destruct (layout_plain kl np kl_range np_range) as (_ & _ & E & _).
  destruct (wf_bitmap _ Hm) as [Hb Hn]. rewrite E. unfold Bitmap.rawSize.
  by rewrite (Bitmap.wf_size _ Hb), Hn.
Qed.

Lemma fields_fit : fields_ok 0 (total_of kl np) (fields m).
Proof using Hm.
  destruct (layout_plain kl np kl_range np_range) as (_ & Ho & _ & Hs & Hc & Ht).
  pose proof kl_range. pose proof np_range. pose proof rawSize_eq as Hr. unfold Bitmap.rawSize in Hr.
  unfold fields. fold np. fold kl. unfold Bitmap.rawSize. rewrite Hr.
  fold (crcsOff_of kl np). unfold Bitmap.raw.
  destruct (wf_crcs _ Hm) as [Hcl _]. fold np in Hcl.
  unfold kHeaderSize in *. destruct (negb (np =? 0) && _); cbn [app fields_ok];
    rewrite ?zlen_le_bytes, ?zlen_le_array, ?Hr; change (zlen kMagic) with 4; unfold kl in *; lia.
Qed.

Lemma buf_len : zlen buf = total_of kl np.
Proof using Hm.
  destruct (layout_plain kl np kl_range np_range) as (_ & Ho & _ & Hs & Hc & Ht).
  pose proof kl_range. pose proof np_range.
  unfold buf. rewrite (write_all_len _ _ 0); [apply zlen_zeros; lia|lia|].
  rewrite zlen_zeros by lia. apply fields_fit.
Qed.

Lemma buf_bytes : Forall is_byte buf.
Proof using Hm.
  apply write_all_bytes; [apply Forall_zeros|]. unfold fields.
  destruct (wf_key _ Hm), (wf_bitmap _ Hm) as [[_ _ ? _] _].
  apply Forall_app_2.
  - assert (Forall is_byte kMagic) by (repeat constructor; vm_compute; congruence).
    repeat (apply Forall_cons_2; [cbn [snd]; first [apply le_bytes_is_byte | done]|]).
    apply Forall_nil_2.
  - destruct (_ && _); [apply Forall_singleton, le_array_bytes|apply Forall_nil_2].
Qed.

Lemma serialize_eq : serialize m = putLE 4 buf kCrcFieldOff (crc 0 buf).
Proof using Hm.
  unfold serialize. fold np. fold kl. rewrite rawSize_eq. done.
Qed.

Lemma total_pos : 56 <= total_of kl np.
Proof using Hm.
  destruct (layout_plain kl np kl_range np_range) as (_ & Ho & _ & Hs & Hc & Ht).
  pose proof kl_range. pose proof np_range. lia.
Qed.

Lemma zlen_serialize : zlen (serialize m) = total_of kl np.
Proof using Hm.
  rewrite serialize_eq, zlen_putLE; [apply buf_len|unfold kCrcFieldOff; lia|].
  rewrite buf_len. pose proof total_pos. unfold kCrcFieldOff. lia.
Qed.

Lemma serialize_bytes : Forall is_byte (serialize m).
Proof using Hm. rewrite serialize_eq. apply Forall_putLE, buf_bytes. Qed.

Lemma buf_crc_hole : zsub buf 52 4 = zeros 4.
Proof using Hm.
  pose proof total_pos. pose proof fields_fit as F. pose proof kl_range.
  destruct (layout_plain kl np kl_range np_range) as (_ & Ho & _ & Hs & Hc & Ht).
  unfold buf. rewrite (write_all_hole _ _ 0); [apply zsub_zeros; lia|lia| |lia|lia|].
  { rewrite zlen_zeros by lia. done. }
  intros f Hf. unfold fields in Hf. fold np in Hf. fold kl in Hf.
  rewrite rawSize_eq in Hf. fold (crcsOff_of kl np) in Hf.
  apply elem_of_app in Hf as [Hf|Hf].
  - unfold kHeaderSize in Hf.
    repeat (apply elem_of_cons in Hf as [->|Hf];
      [cbn [fst snd]; rewrite ?zlen_le_bytes; change (zlen kMagic) with 4; lia|]).
    by apply elem_of_nil in Hf.
  - destruct (_ && _); [|by apply elem_of_nil in Hf].
    apply list_elem_of_singleton in Hf as ->. cbn [fst]. lia.
Qed.

Ltac in_fields := unfold fields; cbn [app];
  solve [repeat (apply elem_of_cons; first [left; reflexivity | right])].
(* field membership, offsets and widths *)
Ltac side := match goal with
  | |- _ ∈ _ => in_fields
  | |- _ \/ _ => first [left; change (zlen kMagic) with 4; lia | right; unfold kHeaderSize; lia]
  | |- _ => change (zlen kMagic) with 4; change (p8 ^ Z.of_nat 4) with p32;
            change (p8 ^ Z.of_nat 8) with p64; change (p8 ^ Z.of_nat 1) with p8;
            unfold kHeaderSize, kFormatVersion, kl in *; lia
  end.

Lemma field_get k o v :
  0 <= o -> o + Z.of_nat k <= 52 -> (o, le_bytes k v) ∈ fields m -> 0 <= v < p8 ^ Z.of_nat k ->
  getLE k (serialize m) o = v.
Proof using Hm.
  intros. pose proof total_pos. rewrite serialize_eq.
  rewrite getLE_putLE_before by (rewrite ?buf_len; unfold kCrcFieldOff; lia).
  apply (write_all_getLE _ _ 0); [lia| |done|done].
  rewrite zlen_zeros by lia. apply fields_fit.
Qed.

Lemma field_sub o x n :
  (o + zlen x <= 52 \/ 56 <= o) -> 0 <= o -> (o, x) ∈ fields m -> n = zlen x ->
  zsub (serialize m) o n = x.
Proof using Hm.
  intros Hd Ho Hin ->. pose proof total_pos. pose proof (zlen_nonneg x). rewrite serialize_eq.
  assert (zsub buf o (zlen x) = x) as E.
  { apply (write_all_get _ _ 0); [lia| |done|done]. rewrite zlen_zeros by lia. apply fields_fit. }
  unfold kCrcFieldOff. destruct Hd.
  - rewrite zsub_putLE_before by (rewrite ?buf_len; lia). done.
  - rewrite zsub_putLE_after by (rewrite ?buf_len; lia). done.
Qed.

Lemma crc_field_ok :
  getLE 4 (serialize m) kCrcFieldOff = crc 0 (putLE 4 (serialize m) kCrcFieldOff 0).
Proof using Hm.
  pose proof total_pos. rewrite serialize_eq. unfold kCrcFieldOff.
  rewrite putLE_zero_back by (rewrite ?buf_len; auto using buf_crc_hole; lia).
  apply getLE_putLE_same; rewrite ?buf_len; try lia. apply (crc_u32 0); [unfold is_u32; lia|apply buf_bytes].
Qed.

Lemma crcs_get : get_array 4 (serialize m) (crcsOff_of kl np) np = pageCrcs m.
Proof using Hm.
  destruct (layout_plain kl np kl_range np_range) as (_ & Ho & _ & Hs & Hc & Ht).
  pose proof kl_range. pose proof np_range. destruct (wf_crcs _ Hm) as [Hl Hu]. fold np in Hl.
  destruct (Z.eq_dec np 0) as [E0|E0].
  { rewrite E0 in *. by rewrite (zlen_0_nil _ Hl). }
  rewrite <- Hl at 2. apply get_array_le_array; [lia| |rewrite Hl, zlen_serialize; lia|].
  - apply field_sub; [right; lia|lia| |by rewrite zlen_le_array].
    unfold fields. fold np. fold kl. rewrite rawSize_eq, Hl, Z.eqb_refl.
    replace (np =? 0) with false by (symmetry; by apply Z.eqb_neq). apply elem_of_app. right.
    apply list_elem_of_singleton. done.
  - eapply Forall_impl; [exact Hu|]. done.
Qed.

Lemma deserialize_serialize : deserialize (serialize m) = Some m.
Proof using Hm.
  destruct (layout_plain kl np kl_range np_range) as (_ & Ho & _ & Hs & Hc & Ht).
  pose proof kl_range. pose proof np_range. pose proof total_pos.
  destruct Hm as [[Hps Hfs] Hfl Hat Hmt Hkd Hck [Hkb Hkl] [Hbw Hbn] Hcr].
  apply validPageSize_range in Hps as [Hpr Hpp]. unfold is_u32, is_u64, is_byte in *.
  unfold deserialize. rewrite zlen_serialize.
  rewrite (field_sub 0 kMagic) by side.
  rewrite (field_get 4 4 kFormatVersion) by side.
  rewrite (field_get 4 8 (pageSize m)) by side.
  rewrite (field_get 8 16 (fileSize m)) by side.
  rewrite (field_get 4 48 kl) by (first [side |
    unfold fields; fold kl; rewrite (w32_small kl) by lia; cbn [app];
    repeat (apply elem_of_cons; first [left; reflexivity | right])]).
  rewrite crc_field_ok, Hpp. change (npages_of (pageSize m) (fileSize m)) with np.
  rewrite !Z.eqb_refl. change (bytes_eqb kMagic kMagic) with true.
  replace (total_of kl np <? kHeaderSize) with false by (symmetry; apply Z.ltb_ge; done).
  replace (pageSize m =? 0) with false by (symmetry; apply Z.eqb_neq; lia).
  replace (64 * 1024 <? kl) with false by (symmetry; apply Z.ltb_ge; lia). cbn [orb negb].
  rewrite crcs_get.
  rewrite (field_sub kHeaderSize (key m) kl) by side.
  rewrite (field_sub (bitmapOff_of kl) (Bitmap.raw (bitmap m)) (bitmapSize_of np))
    by (first [exact (eq_sym rawSize_eq) | side]).
  rewrite (field_get 4 12 (flags m)) by side.
  rewrite (field_get 8 24 (atime m)) by side.
  rewrite (field_get 8 32 (originMtime m)) by side.
  rewrite (field_get 1 40 (cksumKind m)) by side.
  rewrite (field_get 4 44 (originCksum m)) by side.
  replace np with (Bitmap.npages_ (bitmap m)). rewrite Bitmap.recount_raw by done. by destruct m.
Qed.
End roundtrip.

(** ** [store] against the laws of the backend *)
Section store_spec.
Context {W : Type} `{!IOBackend W, !IOLaws W}.

(** The file system while [tmp], and nothing else, is being written: [s] is the
    state before, [d] what the temporary file holds. *)
Record writing (s : fs) (tmp : bytes) (d : bytes) (s1 : fs) : Prop := {
  wr_ino : exists ino f, fs_names s1 !! tmp = Some ino /\ fs_inodes s1 !! ino = Some f /\ i_data f = d /\
    (forall q, q <> tmp -> fs_names s !! q = Some ino -> fs_names s !! tmp = Some ino) /\
    (forall i, i <> ino -> fs_inodes s1 !! i = fs_inodes s !! i);
  wr_names : forall q, q <> tmp -> fs_names s1 !! q = fs_names s !! q
}.

(** Every name has its inode. *)
Definition fs_ok (s : fs) : Prop :=
  forall q ino, fs_names s !! q = Some ino -> is_Some (fs_inodes s !! ino).
(** [a] is no other name of [b]'s file. *)
Definition distinct (s : fs) (a b : bytes) : Prop :=
  forall ino, fs_names s !! a = Some ino -> fs_names s !! b <> Some ino.
Definition data_of (s : fs) (q : bytes) : option bytes := i_data <$> file_of s q.

Lemma writing_opened s tmp fd s1 :
  fs_ok s -> opened s tmp O_WRONLY_CREAT_TRUNC fd s1 ->
  writing s tmp [] s1 /\ fs_fds s1 !! fd = fs_names s1 !! tmp.
Proof.
  intros Hn [_ Ho]. destruct (fs_names s !! tmp) as [ino|] eqn:E.
  - destruct Ho as (_ & n & Hi & ->). split; [|cbn; by rewrite lookup_insert_eq, E]. split; [|done].
    exists ino, (with_data n []). cbn. rewrite lookup_insert_eq. repeat (split; [done|]).
    intros i Hne. by rewrite lookup_insert_ne.
  - destruct Ho as (_ & ino & mt & mtn & Hi & ->). split; [|cbn; by rewrite !lookup_insert_eq]. split.
    + exists ino, (mkInode [] 1 mt mtn). cbn. rewrite !lookup_insert_eq. repeat (split; [done|]).
      split; [|intros i Hne; by rewrite lookup_insert_ne].
      intros q Hq [f Hf]%Hn. congruence.
    + intros q Hq. cbn. by rewrite lookup_insert_ne.
Qed.

Lemma writing_updated (P : bytes -> bytes -> Prop) s tmp d fd s1 s2 :
  writing s tmp d s1 -> fs_fds s1 !! fd = fs_names s1 !! tmp -> file_updated P s1 fd s2 ->
  exists d', P d d' /\ writing s tmp d' s2.
Proof.
  intros [(ino & f & Hi & Hf & Hd & Hal & Hfr) Hnm] Hfd (ino' & g & g' & Hfd' & Hg & _ & HP & ->).
  assert (ino' = ino) as -> by congruence. rewrite Hf in Hg. injection Hg as <-. rewrite Hd in HP.
  exists (i_data g'). split; [done|]. split; [|done].
  exists ino, g'. cbn. rewrite lookup_insert_eq. repeat (split; [done|]).
  intros i Hne. rewrite lookup_insert_ne by done. by apply Hfr.
Qed.

Lemma writing_close s tmp d s1 fds :
  writing s tmp d s1 -> writing s tmp d (mkFs (fs_names s1) (fs_inodes s1) fds).
Proof. intros [H1 H2]. split; [exact H1|exact H2]. Qed.

Lemma writing_file s tmp d s1 q :
  writing s tmp d s1 -> q <> tmp -> distinct s q tmp -> file_of s1 q = file_of s q.
Proof.
  intros [(ino & f & Hi & Hf & Hd & Hal & Hfr) Hnm] Hq Hds. unfold file_of. rewrite Hnm by done.
  destruct (fs_names s !! q) as [iq|] eqn:E; [|done]. cbn. apply Hfr. intros ->.
  by apply (Hds _ E), (Hal q).
Qed.

Lemma unlink_file s tmp q : q <> tmp -> distinct s q tmp -> file_of (unlink_name s tmp) q = file_of s q.
Proof.
  intros Hq Hd. unfold unlink_name. destruct (fs_names s !! tmp) as [ino|] eqn:E; [|done].
  unfold file_of. cbn. rewrite lookup_delete_ne by done.
  destruct (fs_names s !! q) as [iq|] eqn:Eq; [|done]. cbn. apply lookup_alter_ne.
  intros ->. by apply (Hd _ Eq).
Qed.

Lemma unlink_data s a q : q <> a -> data_of (unlink_name s a) q = data_of s q.
Proof.
  intros Hq. unfold data_of, unlink_name. destruct (fs_names s !! a) as [ino|] eqn:E; [|done].
  unfold file_of. cbn. rewrite lookup_delete_ne by done.
  destruct (fs_names s !! q) as [iq|] eqn:Eq; [|done]. cbn.
  destruct (decide (ino = iq)) as [->|]; [|by rewrite lookup_alter_ne].
  rewrite lookup_alter_eq. by destruct (fs_inodes s !! iq).
Qed.

Lemma writing_distinct s tmp d s1 q :
  writing s tmp d s1 -> q <> tmp -> distinct s q tmp -> distinct s1 q tmp.
Proof.
  intros [(ino & f & Hi & Hf & Hd & Hal & Hfr) Hnm] Hq Hds i. rewrite Hnm by done. intros Hqi.
  rewrite Hi. intros [= <-]. by apply (Hds _ Hqi), (Hal q).
Qed.

(** Every file but the temporary one is as it was. *)
Definition kept (s : fs) (tmp : bytes) (s' : fs) : Prop :=
  forall q, q <> tmp -> distinct s q tmp -> file_of s' q = file_of s q.

Lemma writing_abandon s tmp d w r w' :
  writing s tmp d (view w) -> io_unlink tmp w = (r, w') -> kept s tmp (view w').
Proof.
  intros Hw Hu q Hq Hds. rewrite <- (writing_file _ _ _ _ q Hw Hq Hds).
  destruct (law_unlink _ _ _ _ Hu) as [[_ ->]|(_ & _ & ->)]; [done|].
  apply unlink_file; [done|]. by eapply writing_distinct.
Qed.

Definition replaced (s : fs) (path tmp buf : bytes) (s' : fs) : Prop :=
  data_of s' path = Some buf /\
  forall q, q <> path -> q <> tmp -> distinct s q tmp -> data_of s' q = data_of s q.

Lemma writing_renamed s tmp buf s1 path s2 :
  path <> tmp -> distinct s path tmp -> writing s tmp buf s1 -> renamed s1 tmp path s2 ->
  replaced s path tmp buf s2.
Proof.
  intros Hp Hd Hw (ino & Hi & Hr). pose proof (writing_distinct _ _ _ _ _ Hw Hp Hd) as Hd1.
  rewrite decide_False in Hr by (intros E; by apply (Hd1 _ E)). subst s2.
  destruct Hw as [(ino' & f & Hi' & Hf & Hdat & Hal & Hfr) Hnm] eqn:Hw'.
  assert (ino' = ino) as -> by congruence. split.
  - unfold data_of, file_of. cbn. rewrite lookup_insert_eq. cbn. unfold unlink_name.
    destruct (fs_names s1 !! path) as [ip|] eqn:Ep; cbn.
    + rewrite lookup_alter_ne by (intros ->; by apply (Hd1 _ Ep)). rewrite Hf. cbn. by rewrite Hdat.
    + rewrite Hf. cbn. by rewrite Hdat.
  - intros q Hq1 Hq2 Hds. unfold data_of.
    rewrite <- (writing_file _ _ _ _ q Hw Hq2 Hds).
    fold (data_of s1 q). rewrite <- (unlink_data s1 path q) by done.
    unfold data_of, file_of. cbn. rewrite lookup_insert_ne, lookup_delete_ne by done. done.
Qed.

Lemma tmp_of_ne path : path <> tmp_of path.
Proof.
  intros E. apply (f_equal (@length Z)) in E. unfold tmp_of in E. rewrite length_app in E.
  cbn in E. lia.
Qed.

Lemma writing_scribbled s tmp d fd off n s1 s2 :
  writing s tmp d s1 -> fs_fds s1 !! fd = fs_names s1 !! tmp -> scribbled off n s1 fd s2 ->
  exists d', writing s tmp d' s2.
Proof.
  intros Hw Hfd [->|Hu]; [by eexists|].
  destruct (writing_updated _ _ _ _ _ _ _ Hw Hfd Hu) as (d' & _ & ?). by exists d'.
Qed.

(** The write of the temporary file: all of [buf], or an error. *)
Lemma store_write_spec s tmp fd buf w1 n w2 :
  writing s tmp [] (view w1) -> fs_fds (view w1) !! fd = fs_names (view w1) !! tmp ->
  Forall is_byte buf -> zlen buf < p64 -> pwriteFull fd buf 0 w1 = (n, w2) ->
  exists d, writing s tmp d (view w2) /\
    (n = zlen buf -> d = buf) /\ (n = zlen buf \/ n < 0).
Proof.
  intros Hw1 Hf1 Hb Hl Hn. pose proof (zlen_nonneg buf).
  destruct (pwriteFull_spec fd buf 0 _ _ _ ltac:(lia) ltac:(lia) Hb Hn) as [[-> Hwr]|[Hneg Hsc]].
  - destruct Hwr as [[H0 ->]|Hu].
    + apply zlen_0_nil in H0 as ->. exists []. auto.
    + destruct (writing_updated _ _ _ _ _ _ _ Hw1 Hf1 Hu) as (d & -> & Hw2). exists buf.
      rewrite zsub_all, write_at_0_nil in Hw2 by done. auto.
  - destruct (writing_scribbled _ _ _ _ _ _ _ _ Hw1 Hf1 Hsc) as (d & Hw2). exists d.
    split; [done|]. split; [lia|by right].
Qed.

(** The end of [store_bytes]: rename a complete temporary file, or drop it. *)
Lemma store_finish_spec s path tmp d buf rc w r w' :
  path <> tmp -> distinct s path tmp -> writing s tmp d (view w) -> rc <= 0 -> (rc = 0 -> d = buf) ->
  (if negb (rc =? 0) then do_ io_unlink tmp; ret rc
   else
     do rc <- io_rename tmp path;
     if negb (rc =? 0) then do_ io_unlink tmp; ret rc
     else ret rc) w = (r, w') ->
  (r = 0 /\ replaced s path tmp buf (view w')) \/ (r < 0 /\ kept s tmp (view w')).
Proof.
  intros Hne Hds Hw Hle Hd H. destruct (rc =? 0) eqn:E3; b2p; cbn [negb] in H.
  - rewrite (Hd E3) in Hw. apply mbind_inv in H as (rr & w5 & Hr & H5).
    destruct (law_rename _ _ _ _ _ Hr) as [[Hneg Hv5]|[-> Hren]].
    + replace (rr =? 0) with false in H5 by (symmetry; apply Z.eqb_neq; lia). cbn [negb] in H5.
      apply mbind_inv in H5 as (u & w6 & Hu & [= <- <-]). right. split; [lia|].
      eapply writing_abandon, Hu. by rewrite Hv5.
    + cbn in H5. injection H5 as <- <-. left. split; [done|]. by eapply writing_renamed.
  - apply mbind_inv in H as (u & w6 & Hu & [= <- <-]). right. split; [lia|].
    by eapply writing_abandon.
Qed.

(** Whatever call fails: the complete new file under [path], or the old one. *)
Lemma store_bytes_spec path buf fsyncMeta w r w' :
  fs_ok (view w) -> distinct (view w) path (tmp_of path) ->
  Forall is_byte buf -> zlen buf < p64 ->
  store_bytes path buf fsyncMeta w = (r, w') ->
  (r = 0 /\ replaced (view w) path (tmp_of path) buf (view w')) \/
  (r < 0 /\ kept (view w) (tmp_of path) (view w')).
Proof.
  intros Hok Hds Hb Hl. pose proof (tmp_of_ne path) as Hne. unfold store_bytes.
  set (tmp := tmp_of path) in *.
  intros (fd & w1 & Ho & H1)%mbind_inv.
  destruct (law_open _ _ _ _ _ Ho) as [[Hfd Hv]|[Hfd Hop]].
  { rewrite (proj2 (Z.ltb_lt _ _) Hfd) in H1. injection H1 as <- <-. right. split; [lia|].
    intros q _ _. by rewrite Hv. }
  rewrite (proj2 (Z.ltb_ge _ _) Hfd) in H1.
  destruct (writing_opened _ _ _ _ Hok Hop) as [Hw1 Hf1].
  apply mbind_inv in H1 as (n & w2 & Hn & H2).
  destruct (store_write_spec _ _ _ _ _ _ _ Hw1 Hf1 Hb Hl Hn) as (d & Hw2 & Hd & Hn2).
  set (rc := if negb (n =? zlen buf) then if n <? 0 then n else -EIO else 0) in H2.
  assert (rc <= 0 /\ (rc = 0 -> d = buf)) as [Hrc Hrc0].
  { subst rc. destruct (n =? zlen buf) eqn:E; b2p; [split; [cbn; lia|auto]|]. cbn.
    destruct (n <? 0) eqn:E1; b2p; (split; [lia|]); intros; exfalso; lia. }
  clearbody rc. apply mbind_inv in H2 as (rc2 & w3 & Hs & H3).
  assert (view w3 = view w2 /\ rc2 <= 0 /\ (rc2 = 0 -> d = buf)) as (Hv3 & Hrc2le & Hrc2).
  { destruct (rc =? 0) eqn:E; b2p; [destruct fsyncMeta|]; cbn in Hs;
      [destruct (law_fdatasync _ _ _ _ Hs)|injection Hs as <- <-..]; auto. }
  apply mbind_inv in H3 as (c & w4 & Hc & H4).
  destruct (law_close _ _ _ _ Hc) as [Hc0 Hv4].
  assert (writing (view w) tmp d (view w4)) as Hw4 by (rewrite Hv4, Hv3; by apply writing_close).
  eapply store_finish_spec, H4; [done..| |]; destruct (rc2 =? 0) eqn:E; b2p; auto; try done.
  cbn. destruct (c <? 0); lia.
Qed.

(** [load] sees the file's bytes, or nothing. *)
Lemma load_spec `{CK : Checksum} path w o w' :
  load path w = (o, w') -> o = None \/ exists d, data_of (view w) path = Some d /\ o = deserialize d.
Proof.
  unfold load. intros ([r st] & w1 & Hst & H1)%mbind_inv. cbn [fst snd] in H1.
  destruct (law_stat _ _ _ _ _ Hst) as (Hr & Hv1 & Hst0).
  destruct (r <? 0) eqn:Er; b2p; [injection H1 as <- <-; by left|].
  destruct (Hst0 ltac:(lia)) as (ino & f & Hn & Hi & ->). cbn [stat_of st_size] in H1.
  destruct (_ || _) eqn:Es in H1; b2p; [injection H1 as <- <-; by left|].
  apply mbind_inv in H1 as (fd & w2 & Ho & H2).
  destruct (law_open _ _ _ _ _ Ho) as [[Hfd _]|[Hfd Hop]].
  { rewrite (proj2 (Z.ltb_lt _ _) Hfd) in H2. injection H2 as <- <-. by left. }
  rewrite (proj2 (Z.ltb_ge _ _) Hfd) in H2. apply mbind_inv in H2 as ([n b] & w3 & Hp & H3).
  apply mbind_inv in H3 as (c & w4 & _ & H4). cbn [fst snd] in H4.
  destruct (n =? zlen (i_data f)) eqn:En; b2p; cbn [negb] in H4; injection H4 as <- <-; [|by left].
  right. exists (i_data f). unfold data_of, file_of. rewrite Hn. cbn. rewrite Hi. split; [done|].
  f_equal. rewrite Hv1 in Hop. destruct Hop as [_ Hop]. rewrite Hn in Hop. destruct Hop as (_ & g & Hg & Hv2).
  destruct (preadFull_spec fd (zlen (i_data f)) 0 _ _ _ _ ltac:(lia) ltac:(lia) ltac:(lia) Hp)
    as [_ [(_ & _ & [?|(g' & Hg' & ->)])|[? _]]]; [lia| |lia].
  rewrite Hv2 in Hg'. unfold open_file in Hg'. cbn in Hg'. rewrite lookup_insert_eq in Hg'. cbn in Hg'.
  rewrite Hi in Hg'. injection Hg' as <-. by apply zsub_all.
Qed.
End store_spec.

(** ** What a successful [deserialize] guarantees *)
Section sound.
Context `{CK : Checksum}.

(** The guards of [deserialize], and what it builds once they all passed. *)
Definition accepts (p : bytes) : bool :=
  let ps := getLE 4 p 8 in
  let np := npages_of ps (getLE 8 p 16) in
  let keyLen := getLE 4 p 48 in
  (kHeaderSize <=? zlen p) && bytes_eqb (zsub p 0 4) kMagic && (getLE 4 p 4 =? kFormatVersion)
  && negb (ps =? 0) && isPow2 ps && (zlen p =? total_of keyLen np) && (keyLen <=? 64 * 1024)
  && (crc 0 (putLE 4 p kCrcFieldOff 0) =? getLE 4 p kCrcFieldOff).

Definition decoded (p : bytes) : MetaData :=
  let ps := getLE 4 p 8 in
  let fs := getLE 8 p 16 in
  let np := npages_of ps fs in
  let keyLen := getLE 4 p 48 in
  mkMeta ps (getLE 4 p 12) fs (getLE 8 p 24) (getLE 8 p 32) (getLE 1 p 40) (getLE 4 p 44)
    (zsub p kHeaderSize keyLen)
    (Bitmap.recount (Bitmap.with_raw (Bitmap.reset np) (zsub p (bitmapOff_of keyLen) (bitmapSize_of np))))
    (get_array 4 p (crcsOff_of keyLen np) np).

Lemma deserialize_eq p : deserialize p = if accepts p then Some (decoded p) else None.
Proof.
  unfold deserialize, accepts, decoded. rewrite !(Z.leb_antisym (zlen p)), !(Z.leb_antisym (64 * 1024)).
  destruct (zlen p <? kHeaderSize); [done|]. destruct (bytes_eqb _ _); [|done].
  destruct (getLE 4 p 4 =? _); [|done]. destruct (getLE 4 p 8 =? 0); [done|].
  destruct (isPow2 _); [|done]. destruct (zlen p =? _); [|done].
  destruct (64 * 1024 <? _); [done|]. by destruct (crc 0 _ =? _).
Qed.

Lemma get_array_range k p off n :
  Forall is_byte p -> Forall (fun v => 0 <= v < p8 ^ Z.of_nat k) (get_array k p off n).
Proof. intros. unfold get_array. apply Forall_fmap, Forall_forall. intros. by apply getLE_range. Qed.

Lemma decoded_wf p : Forall is_byte p -> accepts p = true -> geom (decoded p) -> wf (decoded p).
Proof.
  intros Hp Ha Hg. pose proof (geom_npages _ Hg) as [Hnp _].
  unfold npages in Hnp. unfold accepts in Ha. cbv zeta in Ha. b2p.
  assert (0 <= getLE 4 p 48) by (apply getLE_range; done).
  destruct (layout_plain (getLE 4 p 48) (npages (decoded p)) ltac:(lia) Hnp) as (_ & Ho & Hs' & Hs & Hc & Ht).
  unfold npages, kHeaderSize in *. cbn [pageSize fileSize decoded] in *.
  change (2 ^ 52) with 4503599627370496 in *.
  assert (forall k o, 0 <= getLE k p o < p8 ^ Z.of_nat k) as R by (intros; by apply getLE_range).
  split; unfold is_u32, is_u64, is_byte; try apply (R 4%nat); try apply (R 8%nat); try apply (R 1%nat); try done.
  - cbn [key decoded]. unfold kHeaderSize. split; [by apply Forall_zsub|]. rewrite zlen_zsub; lia.
  - cbn [bitmap decoded]. split; [|done]. apply Bitmap.recount_wf; [lia| |by apply Forall_zsub].
    rewrite zlen_zsub; [done|lia..].
  - cbn [pageCrcs decoded]. split; [apply zlen_get_array, Hnp|]. by apply (get_array_range 4).
Qed.
End sound.

(** ** Properties *)

(** a well-formed sidecar survives its on-disk image: [deserialize] of
    [serialize m] accepts the image (magic, version, geometry, length and CRC)
    and gives back exactly [m]: every field, the key, the bitmap with its count
    and the page CRC table. *)
Theorem meta_roundtrip `{CK : Checksum} (m : MetaData) (Hm : wf m) :
  deserialize (serialize m) = Some m.
Proof. exact (deserialize_serialize m Hm). Qed.

(** whatever bytes a sidecar file holds, an image that [deserialize] accepts
    with a configured page size and a sane file size is well-formed: the bitmap
    has one bit per page with the right population count, there is one CRC per
    page, the key is bounded. So a torn, truncated or foreign sidecar is either
    refused or harmless to index. *)
Theorem deserialize_wf `{CK : Checksum} (p : bytes) (m : MetaData)
    (Hp : Forall is_byte p) (Hd : deserialize p = Some m) (Hg : geom m) : wf m.
Proof.
  rewrite deserialize_eq in Hd. destruct (accepts p) eqn:Ea; [|done]. injection Hd as <-.
  by apply decoded_wf.
Qed.

(** C38: [store] is atomic for every failure schedule of the backend. If it returns
    0 the sidecar file holds exactly the serialized image, and a later [load] in
    that state either fails to read or returns [m]. If it returns anything else
    the sidecar (and every other file but [path.tmp]) is untouched. *)
Theorem store_atomic {W} `{!IOBackend W, !IOLaws W} `{CK : Checksum}
    (path : bytes) (m : MetaData) (fsyncMeta : bool) (w : W) (r : Z) (w' : W)
    (Hm : wf m) (Hok : fs_ok (view w)) (Hds : distinct (view w) path (tmp_of path))
    (Hst : store path m fsyncMeta w = (r, w')) :
  (r = 0 /\ data_of (view w') path = Some (serialize m) /\
     forall w2 o w3, view w2 = view w' -> load path w2 = (o, w3) -> o = None \/ o = Some m) \/
  (r < 0 /\ kept (view w) (tmp_of path) (view w')).
Proof.
  unfold store in Hst.
  assert (zlen (serialize m) < p64) as Hl.
  { rewrite zlen_serialize by done. unfold total_of. apply w64_range. }
  destruct (store_bytes_spec _ _ _ _ _ _ Hok Hds (serialize_bytes m Hm) Hl Hst)
    as [[-> [Hd _]]|[Hr Hk]]; [left|by right].
  split; [done|]. split; [done|]. intros w2 o w3 Hv Hld.
  destruct (load_spec _ _ _ _ Hld) as [->|(d & Hd2 & ->)]; [by left|right].
  rewrite Hv, Hd in Hd2. injection Hd2 as <-. by apply deserialize_serialize.
Qed.

(** the arithmetic of the geometry gate is modulo 2^64, so it does not bound the
    page count by the image's length: an 88-byte image passes every check of
    [deserialize] (CRC included) and decodes to a sidecar of more than 2^61 pages.
    The source then allocates a bitmap and a CRC table for that many pages. *)
Theorem deserialize_gate_wraps :
  exists p m, zlen p <= 88 /\ Forall is_byte p /\ deserialize p = Some m /\ 2 ^ 61 < npages m.
Proof.
  set (j := 18446744073709551616 / 33 + 1).
  set (img := write_all [(0, kMagic); (4, le_bytes 4 1); (8, le_bytes 4 1); (16, le_bytes 8 (8 * j))]
                (zeros (total_of 0 (8 * j)))).
  set (p := putLE 4 img kCrcFieldOff (crc 0 img)).
  exists p, (decoded p). split; [by vm_compute|]. split.
  { apply Forall_forall. intros x Hx. unfold is_byte.
    assert (forallb (fun x => (0 <=? x) && (x <? 256)) p = true) as F by (vm_compute; done).
    rewrite forallb_forall in F. specialize (F x (proj1 (list_elem_of_In _ _) Hx)). b2p. done. }
  rewrite deserialize_eq. replace (accepts p) with true by (vm_compute; done). split; [done|].
  unfold npages, decoded. cbn [pageSize fileSize]. by vm_compute.
Qed.

(** *** Witnesses: a two-page file whose first page is present. *)
Definition demo : MetaData :=
  mkMeta 4096 kFlagPinned 5000 1700000000 0 kCksumNone 0 (bs "host:1094//f")
    (Bitmap.set (Bitmap.reset 2) 0) [3735928559; 0].

Lemma demo_wf : wf demo.
Proof.
  split; unfold is_u32, is_u64, is_byte; try (cbn; unfold kFlagPinned, kCksumNone; lia).
  - split; [done|]. cbn. lia.
  - split; [repeat constructor; vm_compute; congruence|by vm_compute].
  - split; [|done]. apply Bitmap.set_wf; [|cbn; lia]. apply Bitmap.reset_wf. lia.
  - split; [done|]. repeat constructor; vm_compute; congruence.
Qed.

Lemma meta_roundtrip_witness :
  wf demo /\ deserialize (serialize demo) = Some demo.
Proof. split; [exact demo_wf|]. apply (meta_roundtrip demo). exact demo_wf. Defined.

Lemma deserialize_wf_witness :
  exists m, deserialize (serialize demo) = Some m /\ wf m.
Proof.
  exists demo. split; [vm_compute; reflexivity|].
  apply (deserialize_wf (serialize demo) demo);
    [apply serialize_bytes, demo_wf|vm_compute; reflexivity|apply demo_wf].
Defined.

(** An empty disk; the second and later calls of the second run fail. *)
Definition disk0 : memw := mkMem (mkFs ∅ ∅ ∅) [].

Lemma store_atomic_witness :
  let (r, w') := store (bs "f.meta") demo true disk0 in
  r = 0 /\ fst (load (bs "f.meta") w') = Some demo.
Proof.
  assert (fs_ok (view disk0)) as Hok.
  { change (view disk0) with (mkFs ∅ ∅ ∅). intros ? ? Hx. cbn [fs_names] in Hx.
    by rewrite lookup_empty in Hx. }
  assert (distinct (view disk0) (bs "f.meta") (tmp_of (bs "f.meta"))) as Hds.
  { change (view disk0) with (mkFs ∅ ∅ ∅). intros ino Hx. cbn [fs_names] in Hx.
    by rewrite lookup_empty in Hx. }
  destruct (store (bs "f.meta") demo true disk0) as [r w'] eqn:E.
  assert (r = 0) as Hr by (vm_compute in E; congruence).
  destruct (store_atomic _ demo true disk0 r w' demo_wf Hok Hds E) as [(_ & _ & Hl)|[? _]]; [|lia].
  split; [done|]. destruct (load (bs "f.meta") w') as [o w3] eqn:El.
  destruct (Hl w' o w3 eq_refl El) as [->| ->]; [|done].
  exfalso. vm_compute in E. injection E as _ <-. vm_compute in El. congruence.
Defined.
End Meta.
