(* ===== verification/Sha256.v ===== *)
(** * SHA-256 (src/core/vendor/sha256.cc)

    The digest that names cache objects. [sha256] is the source's block loop with
    its 128-byte tail buffer; [digest_spec] is the standard's definition, the
    compression function folded over the padded message. They agree, and
    [sha256Hex] is always 64 lowercase hexadecimal digits. *)

From S2P Require Import Prelude.

Module Sha.

(** The source's table [K], in decimal. *)
Definition K : list Z := [
  1116352408; 1899447441; 3049323471; 3921009573; 961987163; 1508970993; 2453635748; 2870763221;
  3624381080; 310598401; 607225278; 1426881987; 1925078388; 2162078206; 2614888103; 3248222580;
  3835390401; 4022224774; 264347078; 604807628; 770255983; 1249150122; 1555081692; 1996064986;
  2554220882; 2821834349; 2952996808; 3210313671; 3336571891; 3584528711; 113926993; 338241895;
  666307205; 773529912; 1294757372; 1396182291; 1695183700; 1986661051; 2177026350; 2456956037;
  2730485921; 2820302411; 3259730800; 3345764771; 3516065817; 3600352804; 4094571909; 275423344;
  430227734; 506948616; 659060556; 883997877; 958139571; 1322822218; 1537002063; 1747873779;
  1955562222; 2024104815; 2227730452; 2361852424; 2428436474; 2756734187; 3204031479; 3329325298].

Definition rotr (x n : Z) : Z := Z.lor (Z.shiftr x n) (w32 (Z.shiftl x (32 - n))).

(** The message schedule: sixteen big-endian words, then 48 derived ones. *)
Definition schedule0 (block : bytes) : list Z :=
  map (fun i => Z.lor (Z.lor (Z.lor (Z.shiftl (zget block (4 * i)) 24) (Z.shiftl (zget block (4 * i + 1)) 16))
                             (Z.shiftl (zget block (4 * i + 2)) 8)) (zget block (4 * i + 3))) (zrange 0 16).
Definition schedule (block : bytes) : list Z :=
  foldl (fun w i =>
    let s0 := Z.lxor (Z.lxor (rotr (zget w (i - 15)) 7) (rotr (zget w (i - 15)) 18)) (Z.shiftr (zget w (i - 15)) 3) in
    let s1 := Z.lxor (Z.lxor (rotr (zget w (i - 2)) 17) (rotr (zget w (i - 2)) 19)) (Z.shiftr (zget w (i - 2)) 10) in
    w ++ [w32 (zget w (i - 16) + s0 + zget w (i - 7) + s1)]) (schedule0 block) (zrange 16 64).

(** One round over the working variables (a, ..., h). *)
Definition round (w : list Z) (v : list Z) (i : Z) : list Z :=
  match v with
  | [a; b; c; d; e; f; g; hh] =>
      let s1 := Z.lxor (Z.lxor (rotr e 6) (rotr e 11)) (rotr e 25) in
      let ch := Z.lxor (Z.land e f) (Z.land (w32 (Z.lnot e)) g) in
      let t1 := w32 (hh + s1 + ch + zget K i + zget w i) in
      let s0 := Z.lxor (Z.lxor (rotr a 2) (rotr a 13)) (rotr a 22) in
      let maj := Z.lxor (Z.lxor (Z.land a b) (Z.land a c)) (Z.land b c) in
      let t2 := w32 (s0 + maj) in
      [w32 (t1 + t2); a; b; c; w32 (d + t1); e; f; g]
  | _ => v
  end.

Definition compress (h : list Z) (block : bytes) : list Z :=
  zip_with (fun x y => w32 (x + y)) h (foldl (round (schedule block)) h (zrange 0 64)).

Definition h0 : list Z :=
  [0x6a09e667; 0xbb67ae85; 0x3c6ef372; 0xa54ff53a; 0x510e527f; 0x9b05688c; 0x1f83d9ab; 0x5be0cd19].

(** The 128-byte tail: the remainder, 0x80, zeros and the bit length. *)
Definition tail_of (p : bytes) : bytes * Z :=
  let len := zlen p in
  let full := len / 64 in
  let rem := len - full * 64 in
  let tail := zsplice (zeros 128) 0 (zsub p (full * 64) rem) in
  let tail := zset tail rem 0x80 in
  let tlen := if rem <? 56 then 64 else 128 in
  let bits := len *% 8 in
  (foldl (fun t i => zset t (tlen - 1 - i) (w8 (Z.shiftr bits (8 * i)))) tail (zrange 0 8), tlen).

Definition sha256 (p : bytes) : bytes :=
  let full := zlen p / 64 in
  let h := foldl (fun h i => compress h (zsub p (64 * i) 64)) h0 (zrange 0 full) in
  let '(tail, tlen) := tail_of p in
  let h := compress h (zsub tail 0 64) in
  let h := if tlen =? 128 then compress h (zsub tail 64 64) else h in
  concat (map (fun x => [w8 (Z.shiftr x 24); w8 (Z.shiftr x 16); w8 (Z.shiftr x 8); w8 x]) h).

Definition hexdigit (n : Z) : Z := zget (bs "0123456789abcdef") n.
Definition hex_of (d : bytes) : bytes :=
  concat (map (fun b => [hexdigit (Z.shiftr b 4); hexdigit (Z.land b 15)]) d).
Definition sha256Hex (s : bytes) : bytes := hex_of (sha256 s).

(** ** The standard's definition *)

(** Big-endian 64-bit length in bits. *)
Definition be64 (v : Z) : bytes := rev (le_bytes 8 v).
Definition padded (p : bytes) : bytes :=
  p ++ [0x80] ++ zeros ((55 - zlen p) mod 64) ++ be64 (zlen p *% 8).
Definition blocks (m : bytes) : list bytes := map (fun i => zsub m (64 * i) 64) (zrange 0 (zlen m / 64)).
Definition digest_spec (p : bytes) : list Z := foldl compress h0 (blocks (padded p)).
Definition be_words (h : list Z) : bytes := concat (map (fun x => rev (le_bytes 4 x)) h).

Lemma byte_at x k n : n = 8 * k -> 0 <= k -> w8 (Z.shiftr x n) = (x / p8 ^ k) mod p8.
Proof.
  intros -> ?. rewrite Z.shiftr_div_pow2 by lia. rewrite Z.pow_mul_r by lia. done.
Qed.

Lemma out_word x : [w8 (Z.shiftr x 24); w8 (Z.shiftr x 16); w8 (Z.shiftr x 8); w8 x] = rev (le_bytes 4 x).
Proof.
  cbn [le_bytes rev app]. rewrite !Z.div_div by lia.
  rewrite (byte_at x 3), (byte_at x 2), (byte_at x 1) by lia. done.
Qed.

(** The tail buffer is what padding appends to the whole blocks. *)
Definition tail_blocks (p : bytes) : bytes :=
  let rem := zlen p mod 64 in
  let tlen := if rem <? 56 then 64 else 128 in
  zsub p (zlen p / 64 * 64) rem ++ [0x80] ++ zeros (tlen - 9 - rem) ++ be64 (zlen p *% 8).

Lemma zset_app_r {A} (a l : list A) n y : zlen a <= n -> zset (a ++ l) n y = a ++ zset l (n - zlen a) y.
Proof.
  intros. unfold zset, zlen in *. rewrite insert_app_r_alt by lia. do 2 f_equal. lia.
Qed.

Lemma zeros_S n : 0 <= n -> zeros (1 + n) = 0 :: zeros n.
Proof. intros. unfold zeros. by rewrite Z2Nat.inj_add by lia. Qed.
Lemma zeros_app a b : 0 <= a -> 0 <= b -> zeros (a + b) = zeros a ++ zeros b.
Proof. intros. unfold zeros. rewrite Z2Nat.inj_add by lia. apply replicate_add. Qed.

(** Filling eight trailing cells from the last one back writes a big-endian
    integer. *)
Lemma fill_be64 pre x0 x1 x2 x3 x4 x5 x6 x7 post tlen bits :
  tlen = zlen pre + 8 ->
  foldl (fun t i => zset t (tlen - 1 - i) (w8 (Z.shiftr bits (8 * i))))
    (pre ++ [x0; x1; x2; x3; x4; x5; x6; x7] ++ post) (zrange 0 8) = pre ++ be64 bits ++ post.
Proof.
  intros ->. change (zrange 0 8) with [0; 1; 2; 3; 4; 5; 6; 7]. cbn [foldl].
  rewrite !zset_app_r by lia.
  repeat match goal with |- context [zset _ (zlen pre + 8 - 1 - ?k - zlen pre)] =>
    let v := eval compute in (7 - k) in replace (zlen pre + 8 - 1 - k - zlen pre) with v by lia end.
  unfold zset. simpl. f_equal. unfold be64. cbn [le_bytes rev app]. rewrite !Z.div_div by lia.
  rewrite (byte_at bits 7), (byte_at bits 6), (byte_at bits 5), (byte_at bits 4), (byte_at bits 3),
    (byte_at bits 2), (byte_at bits 1), (byte_at bits 0) by lia.
  by rewrite Z.div_1_r.
Qed.

Lemma rem_range (p : bytes) : 0 <= zlen p mod 64 < 64.
Proof. apply Z.mod_pos_bound. lia. Qed.

Definition tail_len (p : bytes) : Z := if zlen p mod 64 <? 56 then 64 else 128.

Lemma tail_len_cases p :
  (tail_len p = 64 /\ zlen p mod 64 < 56) \/ (tail_len p = 128 /\ 56 <= zlen p mod 64).
Proof. unfold tail_len. destruct (_ <? _) eqn:E; b2p; auto. Qed.

Lemma tail_of_spec p : tail_of p = (tail_blocks p ++ zeros (128 - tail_len p), tail_len p).
Proof.
  unfold tail_of, tail_blocks. rewrite <- Zmod_eq_full by lia. fold (tail_len p).
  pose proof (rem_range p). pose proof (Z.mul_div_le (zlen p) 64). pose proof (zlen_nonneg p).
  pose proof (Z.div_pos (zlen p) 64). pose proof (Zmod_eq_full (zlen p) 64).
  set (rem := zlen p mod 64) in *. set (r := zsub p (zlen p / 64 * 64) rem).
  assert (zlen r = rem) as Hr by (apply zlen_zsub; lia).
  f_equal. assert (zsplice (zeros 128) 0 r = r ++ zeros (128 - rem)) as ->.
  { unfold zsplice, zeros. change (Z.to_nat 0) with 0%nat. rewrite take_0, drop_replicate. cbn [app].
    do 2 f_equal. unfold zlen in Hr. lia. }
  rewrite zset_app_r by lia. rewrite Hr, Z.sub_diag.
  pose proof (tail_len_cases p) as Ht. fold rem in Ht. set (t := tail_len p) in *. clearbody t.
  replace (128 - rem) with (1 + ((t - 9 - rem) + (8 + (128 - t)))) by lia.
  rewrite zeros_S, !zeros_app by lia. change (zset (0 :: ?l) 0 128) with (128 :: l).
  change (zeros 8) with [0; 0; 0; 0; 0; 0; 0; 0].
  replace (r ++ 128 :: zeros (t - 9 - rem) ++ [0; 0; 0; 0; 0; 0; 0; 0] ++ zeros (128 - t))
    with ((r ++ [128] ++ zeros (t - 9 - rem)) ++ [0; 0; 0; 0; 0; 0; 0; 0] ++ zeros (128 - t))
    by (by rewrite <- !app_assoc).
  rewrite fill_be64 by (autorewrite with zlen; rewrite ?Hr; lia).
  by rewrite <- !app_assoc.
Qed.

Lemma zlen_be64 v : zlen (be64 v) = 8.
Proof. unfold be64, zlen. by rewrite length_rev, length_le_bytes. Qed.

Lemma zlen_tail_blocks p : zlen (tail_blocks p) = tail_len p.
Proof.
  unfold tail_blocks. fold (tail_len p). pose proof (rem_range p). pose proof (tail_len_cases p).
  pose proof (Zmod_eq_full (zlen p) 64). pose proof (zlen_nonneg p). pose proof (Z.div_pos (zlen p) 64).
  rewrite !zlen_app, zlen_be64, zlen_zsub by lia. autorewrite with zlen. lia.
Qed.

Lemma padded_split p : padded p = zsub p 0 (64 * (zlen p / 64)) ++ tail_blocks p.
Proof.
  pose proof (rem_range p). pose proof (Zmod_eq_full (zlen p) 64). pose proof (zlen_nonneg p).
  pose proof (Z.div_pos (zlen p) 64). pose proof (tail_len_cases p).
  unfold padded, tail_blocks. fold (tail_len p). rewrite (app_assoc (zsub p 0 _)).
  replace (zlen p / 64 * 64) with (0 + 64 * (zlen p / 64)) by lia. rewrite zsub_join by lia.
  rewrite zsub_all by lia. do 4 f_equal.
  symmetry. apply (Z.mod_unique_pos _ _ (- (zlen p / 64) - (if zlen p mod 64 <? 56 then 0 else 1)));
    unfold tail_len in *; destruct (zlen p mod 64 <? 56) eqn:E; b2p; lia.
Qed.

Lemma sha256_digest p : sha256 p = be_words (digest_spec p).
Proof.
  pose proof (rem_range p). pose proof (Zmod_eq_full (zlen p) 64). pose proof (zlen_nonneg p).
  pose proof (Z.div_pos (zlen p) 64). pose proof (Z.mul_div_le (zlen p) 64).
  unfold sha256. rewrite tail_of_spec. unfold be_words, digest_spec, blocks.
  set (full := zlen p / 64) in *.
  assert (zlen (zsub p 0 (64 * full)) = 64 * full) as Hf by (apply zlen_zsub; lia).
  assert (zlen (padded p) / 64 = full + tail_len p / 64) as ->.
  { rewrite padded_split. fold full. rewrite zlen_app, zlen_tail_blocks, Hf.
    rewrite Z.mul_comm, Z.div_add_l by lia. done. }
  assert (0 <= full) by (by apply Z.div_pos; lia).
  assert (0 <= tail_len p / 64) by (destruct (tail_len_cases p) as [[-> _]|[-> _]]; done).
  rewrite (zrange_app 0 full (full + tail_len p / 64)) by lia.
  rewrite map_app, foldl_app. f_equal.
  rewrite !foldl_map.
  rewrite (foldl_in_ext (fun h i => compress h (zsub p (64 * i) 64))
    (fun h i => compress h (zsub (padded p) (64 * i) 64)) h0 (zrange 0 full)).
  2:{ intros h i Hi%elem_of_zrange. f_equal. rewrite padded_split. fold full.
      rewrite zsub_app_l, zsub_zsub by lia. done. }
  set (hf := foldl _ _ _). pose proof (zlen_tail_blocks p) as Htb.
  assert (forall k, 0 <= k -> 64 * k + 64 <= tail_len p ->
    zsub (padded p) (64 * (full + k)) 64 = zsub (tail_blocks p ++ zeros (128 - tail_len p)) (64 * k) 64) as Hblk.
  { intros k Hk Hk2. rewrite padded_split. fold full. rewrite zsub_app_r by lia.
    rewrite zsub_app_l by lia. f_equal. lia. }
  destruct (tail_len_cases p) as [[Et _]|[Et _]]; rewrite Et in *;
    pose proof (Hblk 0 ltac:(lia) ltac:(lia)) as B0; rewrite Z.add_0_r in B0; change (64 * 0) with 0 in B0.
  - change (64 / 64) with 1. rewrite (zrange_cons full (full + 1)), (zrange_nil (full + 1)) by lia.
    cbn [foldl]. rewrite <- B0. apply map_ext, out_word.
  - pose proof (Hblk 1 ltac:(lia) ltac:(lia)) as B1. change (64 * 1) with 64 in B1.
    change (128 / 64) with 2.
    rewrite (zrange_cons full (full + 2)), (zrange_cons (full + 1)), (zrange_nil (full + 1 + 1)) by lia.
    cbn [foldl]. rewrite <- B0, <- B1. apply map_ext, out_word.
Qed.

(** ** Names made of digests *)
Definition is_hexdigit (c : Z) : bool := ((48 <=? c) && (c <=? 57)) || ((97 <=? c) && (c <=? 102)).

Lemma length_round w v i : length (round w v i) = length v.
Proof. by do 9 (destruct v as [|? v]; try done). Qed.

Lemma length_compress h b : length (compress h b) = length h.
Proof.
  unfold compress. rewrite length_zip_with.
  assert (forall l v, length (foldl (round (schedule b)) v l) = length v) as E.
  { induction l as [|x l IH]; intros v; [done|]. cbn [foldl]. by rewrite IH, length_round. }
  rewrite E. lia.
Qed.

Lemma length_digest p : length (digest_spec p) = 8%nat.
Proof.
  unfold digest_spec. change 8%nat with (length h0). generalize h0.
  induction (blocks (padded p)) as [|b l IH]; intros h; [done|]. cbn [foldl]. by rewrite IH, length_compress.
Qed.

Lemma hexdigit_ok n : 0 <= n < 16 -> is_hexdigit (hexdigit n) = true.
Proof.
  intros Hn. assert (forallb (fun n => is_hexdigit (hexdigit n)) (zrange 0 16) = true) as F by (by vm_compute).
  rewrite forallb_forall in F. apply F. by apply list_elem_of_In, elem_of_zrange.
Qed.

Lemma hex_of_spec d : Forall is_byte d ->
  zlen (hex_of d) = 2 * zlen d /\ Forall (fun c => is_hexdigit c = true) (hex_of d).
Proof.
  unfold hex_of. induction 1 as [|b d Hb Hd [IH1 IH2]]; [by split|]. cbn [map concat].
  split; [rewrite zlen_app, zlen_cons, IH1; autorewrite with zlen; lia|].
  unfold is_byte in Hb. repeat apply Forall_cons_2; [..|exact IH2]; apply hexdigit_ok.
  - rewrite Z.shiftr_div_pow2 by lia. change (2 ^ 4) with 16. split; [apply Z.div_pos; lia|].
    apply Z.div_lt_upper_bound; lia.
  - change 15 with (Z.ones 4). rewrite Z.land_ones by lia. apply Z.mod_pos_bound. lia.
Qed.

Lemma be_words_spec h : zlen (be_words h) = 4 * zlen h /\ Forall is_byte (be_words h).
Proof.
  unfold be_words. induction h as [|x h [IH1 IH2]]; [by split|]. cbn [map concat].
  rewrite zlen_app, IH1, zlen_cons. split.
  - unfold zlen at 1. rewrite length_rev, length_le_bytes. lia.
  - apply Forall_app_2; [apply Forall_rev, le_bytes_is_byte|done].
Qed.

Lemma sha256Hex_shape s :
  zlen (sha256Hex s) = 64 /\ Forall (fun c => is_hexdigit c = true) (sha256Hex s).
Proof.
  unfold sha256Hex. rewrite sha256_digest.
  destruct (be_words_spec (digest_spec s)) as [Hl Hb].
  destruct (hex_of_spec _ Hb) as [Hl2 Hh]. split; [|done].
  rewrite Hl2, Hl. unfold zlen. by rewrite length_digest.
Qed.

(** the block loop with its 128-byte tail buffer computes the standard SHA-256
    of every message: the compression function folded over the message padded
    with 0x80, zeros and the big-endian bit length; and its hexadecimal form is
    64 lowercase hexadecimal digits. *)
Theorem sha256_correct (p : bytes) :
  sha256 p = be_words (digest_spec p) /\
  zlen (sha256Hex p) = 64 /\ Forall (fun c => is_hexdigit c = true) (sha256Hex p).
Proof. split; [apply sha256_digest|apply sha256Hex_shape]. Qed.

(** The standard's test vector. *)
Example sha256_abc :
  sha256Hex (bs "abc") = bs "ba7816bf8f01cfea414140de5dae2223b00361a396177a9cb410ff61f20015ad".
Proof. vm_compute. reflexivity. Qed.

End Sha.
