(* ===== verification/UrlKey.v ===== *)
(** * Cache keys (src/core/UrlKey.h, UrlKey.cc)

    A URL becomes a normalized key (scheme, host, port, path, whitelisted CGI),
    its SHA-256 names the object files. Strings are lists of bytes; the helpers
    on top are the [std::string], [std::getline] and [atoi] calls of the source.
    [fnmatch] is libc's and stays a parameter. *)

From stdpp Require Import pretty.
From S2P Require Import Prelude Sha256.

Module UrlKey.

Abbreviation c_slash := 47.
Abbreviation c_colon := 58.
Abbreviation c_quest := 63.
Abbreviation c_at := 64.
Abbreviation c_amp := 38.
Abbreviation c_eq := 61.
Abbreviation c_lbr := 91.
Abbreviation c_rbr := 93.

(** ** [std::string] *)

(** [s.find(c)]: the first position of [c]. *)
Fixpoint find (c : Z) (s : bytes) : option nat :=
  match s with
  | [] => None
  | x :: s' => if x =? c then Some 0%nat else S <$> find c s'
  end.
Definition rfind (c : Z) (s : bytes) : option nat :=
  (fun k => length s - 1 - k)%nat <$> find c (rev s).
(** [s.find("://")]. *)
Fixpoint find_css (s : bytes) : option nat :=
  match s with
  | [] => None
  | x :: s' => if bytes_eqb (take 3 s) [c_colon; c_slash; c_slash] then Some 0%nat
               else S <$> find_css s'
  end.

(** [while (std::getline(is, seg, d))]: the pieces between delimiters; nothing
    after a trailing delimiter. *)
Fixpoint getlines_from (d : Z) (cur : bytes) (s : bytes) : list bytes :=
  match s with
  | [] => match cur with [] => [] | _ => [rev cur] end
  | c :: s' => if c =? d then rev cur :: getlines_from d [] s' else getlines_from d (c :: cur) s'
  end.
Definition getlines (d : Z) (s : bytes) : list bytes := getlines_from d [] s.

(** [std::tolower] in the C locale. *)
Definition tolower (c : Z) : Z := if (65 <=? c) && (c <=? 90) then c + 32 else c.
Definition toLower (s : bytes) : bytes := map tolower s.

Definition isdigit (c : Z) : bool := (48 <=? c) && (c <=? 57).
Definition isspace (c : Z) : bool := (c =? 32) || ((9 <=? c) && (c <=? 13)).
Fixpoint skip_spaces (s : bytes) : bytes :=
  match s with c :: s' => if isspace c then skip_spaces s' else s | [] => [] end.
Fixpoint digits (acc : Z) (s : bytes) : Z :=
  match s with c :: s' => if isdigit c then digits (acc * 10 + (c - 48)) s' else acc | [] => acc end.
(** [atoi]: [strtol] clamped to 64 bits, then narrowed to [int]. *)
Definition to_int (z : Z) : Z := let r := w32 z in if r <? p31 then r else r - p32.
Definition atoi (s : bytes) : Z :=
  let s := skip_spaces s in
  let '(neg, s) := match s with
    | 45 :: s' => (true, s')
    | 43 :: s' => (false, s')
    | _ => (false, s)
    end in
  let v := digits 0 s in
  to_int (if neg then Z.max (- p63) (- v) else Z.min (p63 - 1) v).

(** [std::to_string] of a positive number. *)
Definition to_string (z : Z) : bytes := bs (pretty z).

(** Lexicographic order of [std::string]. *)
Fixpoint str_lt (a b : bytes) : bool :=
  match a, b with
  | [], [] => false
  | [], _ => true
  | _, [] => false
  | x :: a', y :: b' => (x <? y) || ((x =? y) && str_lt a' b')
  end.
(** [m[k] = v] on a [std::map] kept in key order. *)
Fixpoint map_set (k v : bytes) (m : list (bytes * bytes)) : list (bytes * bytes) :=
  match m with
  | [] => [(k, v)]
  | (k', v') :: m' =>
      if bytes_eqb k k' then (k, v) :: m'
      else if str_lt k k' then (k, v) :: m
      else (k', v') :: map_set k v m'
  end.

Definition mem (k : bytes) (l : list bytes) : bool := existsb (bytes_eqb k) l.

(** ** The key *)
Record UrlKey := mkUrlKey { key : bytes; hashHex : bytes; scheme : bytes; host : bytes }.

Definition defaultPort (s : bytes) : Z :=
  if bytes_eqb s (bs "root") || bytes_eqb s (bs "xroot") || bytes_eqb s (bs "roots")
     || bytes_eqb s (bs "xroots") then 1094
  else if bytes_eqb s (bs "http") then 80
  else if bytes_eqb s (bs "https") then 443
  else 0.

(** The segment stack of [normalizePath], last segment at the end. *)
Definition push_seg (segs : list bytes) (seg : bytes) : list bytes :=
  if bytes_eqb seg [] || bytes_eqb seg (bs ".") then segs
  else if bytes_eqb seg (bs "..") then removelast segs
  else segs ++ [seg].
Definition join_segs (segs : list bytes) : bytes := concat (map (fun s => c_slash :: s) segs).
Definition normalizePath (s : bytes) : bytes :=
  let out := join_segs (foldl push_seg [] (getlines c_slash s)) in
  match out with [] => [c_slash] | _ => out end.

(** Authority to host and port. *)
Definition splitAuth (scheme auth : bytes) : option (bytes * Z) :=
  match auth with
  | 91 :: _ =>
      match find c_rbr auth with
      | None => None
      | Some close =>
          Some (take (close + 1) auth,
            match drop (close + 1) auth with
            | 58 :: r => atoi r
            | _ => defaultPort scheme
            end)
      end
  | _ =>
      match rfind c_colon auth with
      | Some colon => Some (take colon auth, atoi (drop (colon + 1) auth))
      | None => Some (auth, defaultPort scheme)
      end
  end.

(** The whitelisted CGI parameters, sorted. *)
Definition keep_kv (keepCgi : list bytes) (m : list (bytes * bytes)) (kv : bytes) : list (bytes * bytes) :=
  let eq := find c_eq kv in
  let k := match eq with None => kv | Some e => take e kv end in
  if mem k keepCgi
  then map_set k (match eq with None => [] | Some e => drop (e + 1) kv end) m
  else m.
Definition keptCgi (keepCgi : list bytes) (cgi : bytes) : bytes :=
  if negb (bytes_eqb cgi []) && negb (bool_decide (keepCgi = [])) then
    foldl (fun kept kv => kept ++ (match kept with [] => [c_quest] | _ => [c_amp] end)
                               ++ fst kv ++ [c_eq] ++ snd kv) []
      (foldl (keep_kv keepCgi) [] (getlines c_amp cgi))
  else [].

Definition parse (url : bytes) (keepCgi : list bytes) : option UrlKey :=
  match find_css url with
  | None | Some 0%nat => None
  | Some schemeEnd =>
      let scheme := toLower (take schemeEnd url) in
      let afterScheme := drop (schemeEnd + 3) url in
      match find c_slash afterScheme with
      | None => None
      | Some pathStart =>
          let auth := take pathStart afterScheme in
          if bytes_eqb auth [] then None
          else
            let auth := match rfind c_at auth with None => auth | Some at_ => drop (at_ + 1) auth end in
            match splitAuth scheme auth with
            | None => None
            | Some (host, port) =>
                let host := toLower host in
                if bytes_eqb host [] || (port <=? 0) then None
                else
                  let rest := drop pathStart afterScheme in
                  let '(rest, cgi) := match find c_quest rest with
                    | Some q => (take q rest, drop (q + 1) rest)
                    | None => (rest, [])
                    end in
                  let k := scheme ++ bs "://" ++ host ++ [c_colon] ++ to_string port
                             ++ normalizePath rest ++ keptCgi keepCgi cgi in
                  Some (mkUrlKey k (Sha.sha256Hex k) scheme host)
            end
      end
  end.

Definition objectDir (k : UrlKey) (cacheDir : bytes) : bytes :=
  cacheDir ++ bs "/objects/" ++ take 2 (hashHex k).
Definition dataPath (k : UrlKey) (cacheDir : bytes) : bytes :=
  objectDir k cacheDir ++ bs "/" ++ hashHex k ++ bs ".data".
Definition metaPath (k : UrlKey) (cacheDir : bytes) : bytes :=
  objectDir k cacheDir ++ bs "/" ++ hashHex k ++ bs ".meta".

(** [fnmatch(glob, host, FNM_CASEFOLD)] is libc's. *)
Definition hostMatchesAny (fnmatch : bytes -> bytes -> Z) (globs : list bytes) (host : bytes) : bool :=
  existsb (fun g => fnmatch g host =? 0) globs.

(** [param.substr(0, param.find('='))]. *)
Definition param_key (param : bytes) : bytes :=
  match find c_eq param with None => param | Some e => take e param end.
Definition strip_step (names : list bytes) (kept param : bytes) : bytes :=
  if bytes_eqb param [] then kept
  else if mem (param_key param) names then kept
  else kept ++ (match kept with [] => [] | _ => [c_amp] end) ++ param.
Definition stripCgiParams (url : bytes) (names : list bytes) : bytes :=
  match find c_quest url with
  | None => url
  | Some q =>
      let kept := foldl (strip_step names) [] (getlines c_amp (drop (q + 1) url)) in
      match kept with [] => take q url | _ => take q url ++ [c_quest] ++ kept end
  end.

(** ** Facts about the string helpers *)

Lemma bytes_eqb_spec a b : bytes_eqb a b = true <-> a = b.
Proof. unfold bytes_eqb. apply bool_decide_eq_true. Qed.
Lemma bytes_eqb_neq a b : bytes_eqb a b = false <-> a <> b.
Proof. unfold bytes_eqb. apply bool_decide_eq_false. Qed.

Lemma find_Some c s n : find c s = Some n -> exists a b, s = a ++ c :: b /\ (c ∉ a) /\ length a = n.
Proof.
  revert n. induction s as [|x s IH]; intros n; simpl; [done|]. destruct (x =? c) eqn:E; b2p.
  - intros [= <-]. subst. exists [], s. split; [done|]. split; [apply not_elem_of_nil|done].
  - destruct (find c s) as [m|]; [|done]. intros [= <-]. destruct (IH m eq_refl) as (a & b & -> & Hc & Hl).
    exists (x :: a), b. split; [done|]. split; [|simpl; lia]. rewrite not_elem_of_cons. auto.
Qed.

Lemma find_app_intro c a b : c ∉ a -> find c (a ++ c :: b) = Some (length a).
Proof.
  induction a as [|x a IH]; intros Hc; simpl.
  - by rewrite Z.eqb_refl.
  - apply not_elem_of_cons in Hc as [? ?]. replace (x =? c) with false by (symmetry; by apply Z.eqb_neq).
    by rewrite IH.
Qed.

Lemma find_None c s : find c s = None <-> c ∉ s.
Proof.
  split.
  - intros Hf Hin. apply list_elem_of_In, in_split in Hin as (a & b & ->).
    destruct (find c (a ++ c :: b)) eqn:E; [done|]. clear Hf. revert E.
    induction a as [|x a IH]; simpl; [by rewrite Z.eqb_refl|]. destruct (x =? c); [done|].
    destruct (find c (a ++ c :: b)); [done|]. by intros _; apply IH.
  - intros Hc. destruct (find c s) as [n|] eqn:E; [|done].
    apply find_Some in E as (a & b & -> & _). destruct Hc. apply elem_of_app. right. by left.
Qed.

Lemma find_app c s t n : find c s = Some n -> find c (s ++ t) = Some n /\ (n < length s)%nat.
Proof.
  intros (a & b & -> & Hc & <-)%find_Some. rewrite <- app_assoc. cbn [app].
  split; [by apply find_app_intro|]. rewrite length_app. simpl. lia.
Qed.

Lemma find_css_app s t n :
  find_css s = Some n -> find_css (s ++ t) = Some n /\ (n + 3 <= length s)%nat.
Proof.
  revert n. induction s as [|x s IH]; intros n; [done|]. cbn [find_css app].
  destruct (bytes_eqb (take 3 (x :: s)) _) eqn:E.
  - intros [= <-]. apply bytes_eqb_spec in E.
    assert (3 <= length (x :: s))%nat as Hl.
    { apply (f_equal (@length Z)) in E. rewrite length_take in E. simpl length in *. lia. }
    split; [|lia]. change (x :: s ++ t) with ((x :: s) ++ t). rewrite take_app_le by done.
    by rewrite (proj2 (bytes_eqb_spec _ _) E).
  - destruct (find_css s) as [m|] eqn:Em; [|done]. intros [= <-].
    destruct (IH m eq_refl) as [Ha Hl]. rewrite Ha. split; [|simpl; lia].
    apply bytes_eqb_neq in E. destruct (bytes_eqb (take 3 (x :: s ++ t)) _) eqn:E2; [|done].
    apply bytes_eqb_spec in E2. destruct E. change (x :: s ++ t) with ((x :: s) ++ t) in E2.
    rewrite take_app_le in E2 by (simpl; lia). done.
Qed.

(** *** Splitting *)
Lemma getlines_from_app d cur a s :
  d ∉ a -> getlines_from d cur (a ++ d :: s) = (rev cur ++ a) :: getlines d s.
Proof.
  revert cur. induction a as [|x a IH]; intros cur Hd; simpl.
  - by rewrite Z.eqb_refl, app_nil_r.
  - apply not_elem_of_cons in Hd as [? ?]. replace (x =? d) with false by (symmetry; by apply Z.eqb_neq).
    rewrite IH by done. simpl. by rewrite <- app_assoc.
Qed.

Lemma getlines_from_last d cur a :
  d ∉ a -> rev cur ++ a <> [] -> getlines_from d cur a = [rev cur ++ a].
Proof.
  revert cur. induction a as [|x a IH]; intros cur Hd Hne; simpl.
  - rewrite app_nil_r in *. destruct cur; [done|done].
  - apply not_elem_of_cons in Hd as [? ?]. replace (x =? d) with false by (symmetry; by apply Z.eqb_neq).
    rewrite IH; simpl; [by rewrite <- app_assoc|done|]. rewrite <- app_assoc. by destruct (rev cur).
Qed.

Lemma elem_of_rev (x : Z) l : x ∈ rev l <-> x ∈ l.
Proof. rewrite !list_elem_of_In. symmetry. apply in_rev. Qed.

Lemma getlines_no_delim d s : Forall (fun p => d ∉ p) (getlines d s).
Proof.
  unfold getlines. assert (d ∉ (@nil Z)) as Hc by apply not_elem_of_nil. revert Hc. generalize (@nil Z).
  induction s as [|x s IH]; intros cur Hc; simpl.
  - destruct cur; constructor; [|constructor]. by rewrite elem_of_rev.
  - destruct (x =? d) eqn:E; b2p.
    + constructor; [by rewrite elem_of_rev|]. apply IH, not_elem_of_nil.
    + apply IH. rewrite not_elem_of_cons. auto.
Qed.

(** Pieces joined by the delimiter split back into the same pieces. *)
Definition join_with (d : Z) (l : list bytes) : bytes :=
  match l with [] => [] | x :: l' => x ++ concat (map (cons d) l') end.

Lemma getlines_join d l :
  Forall (fun p => (d ∉ p) /\ p <> []) l -> getlines d (join_with d l) = l.
Proof.
  induction 1 as [|x l [Hd Hne] Hl IH]; [done|]. destruct l as [|y l].
  - cbn. rewrite app_nil_r. unfold getlines. rewrite getlines_from_last; done.
  - cbn [join_with map concat app] in *. unfold getlines at 1. cbn [app].
    rewrite getlines_from_app by done. simpl. by rewrite IH.
Qed.

(** ** Paths *)
Definition safe_seg (s : bytes) : Prop :=
  s <> [] /\ s <> bs "." /\ s <> bs ".." /\ c_slash ∉ s.

Lemma push_seg_safe segs seg :
  c_slash ∉ seg -> Forall safe_seg segs -> Forall safe_seg (push_seg segs seg).
Proof.
  intros Hn Hs. unfold push_seg. destruct (_ || _) eqn:E; [done|]. apply orb_false_iff in E as [E1 E2].
  apply bytes_eqb_neq in E1, E2. destruct (bytes_eqb seg (bs "..")) eqn:E3.
  - rewrite removelast_firstn_len. by apply Forall_take.
  - apply bytes_eqb_neq in E3. apply Forall_app_2; [done|]. by repeat constructor.
Qed.

Lemma push_seg_id segs l : Forall safe_seg l -> foldl push_seg segs l = segs ++ l.
Proof.
  intros H. revert segs. induction H as [|x l (H1 & H2 & H3 & H4) Hl IH]; intros segs;
    [by rewrite app_nil_r|].
  cbn [foldl]. unfold push_seg at 2.
  apply bytes_eqb_neq in H1, H2, H3. rewrite H1, H2, H3. cbn [orb].
  rewrite IH. by rewrite <- app_assoc.
Qed.

Lemma normal_segs s : Forall safe_seg (foldl push_seg [] (getlines c_slash s)).
Proof.
  pose proof (getlines_no_delim c_slash s) as H. assert (Forall safe_seg []) as H0 by constructor.
  revert H0. generalize (@nil bytes). induction H as [|x l Hx Hl IH]; intros segs H0; [done|].
  cbn [foldl]. apply IH. by apply push_seg_safe.
Qed.

Definition path_of (segs : list bytes) : bytes :=
  match segs with [] => [c_slash] | _ => join_segs segs end.

Lemma normalizePath_canonical s :
  normalizePath s = path_of (foldl push_seg [] (getlines c_slash s)).
Proof. unfold normalizePath. by destruct (foldl push_seg [] (getlines c_slash s)). Qed.

Lemma normalizePath_path_of segs : Forall safe_seg segs -> normalizePath (path_of segs) = path_of segs.
Proof.
  intros Hs. destruct segs as [|x segs]; [done|].
  rewrite normalizePath_canonical. f_equal.
  assert (path_of (x :: segs) = c_slash :: join_with c_slash (x :: segs)) as -> by done.
  change (getlines c_slash (c_slash :: ?l)) with ([] :: getlines c_slash l).
  rewrite getlines_join; [|eapply Forall_impl; [exact Hs|]; intros ? (? & _ & _ & ?); done].
  change (foldl push_seg [] ([] :: ?l)) with (foldl push_seg [] l). by rewrite push_seg_id.
Qed.

(** path normalization cannot escape the root and is canonical: the result is
    "/" or a sequence of "/segment" whose segments are non-empty, contain no
    slash and are neither "." nor "..", and normalizing it again changes
    nothing. *)
Theorem normalizePath_correct (s : bytes) :
  (exists segs, Forall safe_seg segs /\ normalizePath s = path_of segs) /\
  normalizePath (normalizePath s) = normalizePath s.
Proof.
  rewrite normalizePath_canonical. split; [eauto using normal_segs|].
  apply normalizePath_path_of, normal_segs.
Qed.

(** ** CGI parameters *)
Lemma keep_none keepCgi l m :
  Forall (fun kv => mem (param_key kv) keepCgi = false) l -> foldl (keep_kv keepCgi) m l = m.
Proof.
  intros H. revert m. induction H as [|kv l Hk Hl IH]; intros m; [done|]. cbn [foldl].
  unfold keep_kv at 2. unfold param_key in Hk. rewrite Hk. apply IH.
Qed.

Lemma kept_none keepCgi cgi :
  Forall (fun kv => mem (param_key kv) keepCgi = false) (getlines c_amp cgi) -> keptCgi keepCgi cgi = [].
Proof. intros. unfold keptCgi. destruct (_ && _); [|done]. by rewrite keep_none. Qed.

(** what is not whitelisted never enters a cache key. Appending a CGI part
    (authorization tokens, routing hints, session ids) none of whose parameters
    is in [keepCgi] to a URL that parses leaves the key, its hash and the host
    exactly as they were. *)
Theorem parse_ignores_cgi (u cgi : bytes) (keepCgi : list bytes) (k : UrlKey)
    (Hq : c_quest ∉ u) (Hu : parse u keepCgi = Some k)
    (Hc : Forall (fun kv => mem (param_key kv) keepCgi = false) (getlines c_amp cgi)) :
  parse (u ++ c_quest :: cgi) keepCgi = Some k.
Proof.
  unfold parse in *. destruct (find_css u) as [n|] eqn:En; [|done].
  destruct (find_css_app _ (c_quest :: cgi) _ En) as [-> Hn]. destruct n as [|n]; [done|].
  rewrite take_app_le, drop_app_le by lia.
  set (after := drop (S n + 3) u) in *.
  destruct (find c_slash after) as [p|] eqn:Ep; [|done].
  destruct (find_app _ _ (c_quest :: cgi) _ Ep) as [-> Hp].
  rewrite take_app_le, drop_app_le by lia.
  destruct (bytes_eqb (take p after) []); [done|]. destruct (splitAuth _ _) as [[h port]|]; [|done].
  destruct (_ || _); [done|].
  assert (c_quest ∉ drop p after) as Hqr.
  { intros Hin. apply Hq. unfold after in Hin. rewrite drop_drop in Hin. rewrite <- (take_drop (S n + 3 + p) u).
    apply elem_of_app. by right. }
  rewrite (proj2 (find_None _ _) Hqr) in Hu. rewrite find_app_intro by done.
  rewrite take_app_length. replace (length (drop p after) + 1)%nat with (length (drop p after ++ [c_quest]))
    by (rewrite length_app; simpl; lia).
  rewrite (app_assoc _ [c_quest] cgi : drop p after ++ c_quest :: cgi = _), drop_app_length.
  rewrite (kept_none keepCgi cgi) by done.
  rewrite (kept_none keepCgi []) in Hu by constructor. done.
Qed.

(** *** Stripping parameters *)
Definition before_cgi (u : bytes) : bytes := match find c_quest u with None => u | Some q => take q u end.
Definition params (u : bytes) : list bytes :=
  match find c_quest u with None => [] | Some q => getlines c_amp (drop (q + 1) u) end.
Definition kept_param (names : list bytes) (p : bytes) : bool :=
  negb (bytes_eqb p []) && negb (mem (param_key p) names).

Lemma join_with_snoc d l x : l <> [] -> join_with d (l ++ [x]) = join_with d l ++ d :: x.
Proof.
  destruct l as [|y l]; [done|]. intros _. cbn [join_with app]. rewrite map_app, concat_app. cbn.
  by rewrite app_nil_r, <- app_assoc.
Qed.

Lemma join_with_nil d l : Forall (fun p => p <> []) l -> join_with d l = [] -> l = [].
Proof. destruct 1; [done|]. cbn. intros [-> _]%app_nil. done. Qed.

Lemma strip_fold names l acc :
  Forall (fun p => p <> []) acc ->
  foldl (strip_step names) (join_with c_amp acc) l = join_with c_amp (acc ++ List.filter (kept_param names) l).
Proof.
  revert acc. induction l as [|p l IH]; intros acc Hacc; cbn [foldl List.filter]; [by rewrite app_nil_r|].
  unfold strip_step at 2, kept_param. destruct (bytes_eqb p []) eqn:Ep; cbn [negb andb]; [by apply IH|].
  destruct (mem (param_key p) names); cbn [negb]; [by apply IH|]. apply bytes_eqb_neq in Ep.
  replace (join_with c_amp acc ++ _) with (join_with c_amp (acc ++ [p])).
  - rewrite IH by (apply Forall_app_2; [done|by repeat constructor]). by rewrite <- app_assoc.
  - destruct (join_with c_amp acc) as [|z zs] eqn:Ej.
    + apply join_with_nil in Ej as ->; [|done]. cbn. by rewrite app_nil_r.
    + rewrite join_with_snoc by (intros ->; done). rewrite Ej. done.
Qed.

(** [stripCgiParams] removes exactly the named parameters (and empty ones) and
    preserves everything else byte for byte and in order: the part before '?'
    is unchanged and the parameters of the result are those of the URL filtered
    by name. *)
Theorem stripCgiParams_correct (url : bytes) (names : list bytes) :
  before_cgi (stripCgiParams url names) = before_cgi url /\
  params (stripCgiParams url names) = List.filter (kept_param names) (params url).
Proof.
  unfold before_cgi, params, stripCgiParams. destruct (find c_quest url) as [q|] eqn:Eq.
  2: { by rewrite Eq. }
  apply find_Some in Eq as (a & b & -> & Ha & <-).
  rewrite take_app_length. replace (length a + 1)%nat with (length (a ++ [c_quest])) by (rewrite length_app; simpl; lia).
  rewrite (app_assoc a [c_quest] b : a ++ c_quest :: b = _), drop_app_length.
  pose proof (strip_fold names (getlines c_amp b) [] (Forall_nil_2 _)) as Hf. cbn [join_with app] in Hf. rewrite Hf.
  set (l := List.filter (kept_param names) (getlines c_amp b)).
  assert (Forall (fun p => (c_amp ∉ p) /\ p <> []) l) as Hl.
  { apply Forall_forall. intros p Hp. apply list_elem_of_In, filter_In in Hp as [Hin Hk].
    unfold kept_param in Hk. b2p. split; [|by apply bytes_eqb_neq].
    pose proof (getlines_no_delim c_amp b) as Hd. rewrite Forall_forall in Hd. apply Hd. by apply list_elem_of_In. }
  destruct (join_with c_amp l) as [|z zs] eqn:Ej.
  - apply join_with_nil in Ej as ->; [|eapply Forall_impl; [exact Hl|]; intros ? [? ?]; done].
    by rewrite (proj2 (find_None _ _) Ha).
  - cbn [app]. rewrite find_app_intro, take_app_length by done. split; [done|].
    rewrite (app_assoc a [c_quest] (z :: zs) : a ++ c_quest :: z :: zs = _).
    replace (length a + 1)%nat with (length (a ++ [c_quest])) by (rewrite length_app; simpl; lia).
    rewrite drop_app_length, <- Ej. by apply getlines_join.
Qed.

(** ** Witnesses and examples *)
Lemma parse_ignores_cgi_witness :
  let u := bs "root://user@Host.example//store/./a/../f.root" in
  let cgi := bs "authz=Bearer%20x&tried=a" in
  option_map key (parse (u ++ c_quest :: cgi) [bs "svcClass"]) = Some (bs "root://host.example:1094/store/f.root").
Proof.
  intros u cgi.
  destruct (parse u [bs "svcClass"]) as [k|] eqn:Eu; [|vm_compute in Eu; discriminate].
  rewrite (parse_ignores_cgi u cgi [bs "svcClass"] k).
  - vm_compute in Eu. injection Eu as <-. reflexivity.
  - apply find_None. vm_compute. reflexivity.
  - exact Eu.
  - repeat constructor.
Defined.

Example strip_example :
  stripCgiParams (bs "root://h//f?tried=a,b&authz=t&triedrc=x") [bs "tried"; bs "triedrc"]
  = bs "root://h//f?authz=t".
Proof. vm_compute. reflexivity. Qed.

End UrlKey.
