(* ===== verification/FileEntry.v ===== *)
(** * The per-file cache entry (src/core/FileEntry.h, FileEntry.cc)

    The state of one open entry, the process-wide pools it shares with the other
    entries, and every operation of the class: open, the read path with its CRC
    verification, the fill buffer and its flush, speculative pages, the sidecar
    commit that merges with other processes' images, the fetch gate, ranges on
    the wire, hole punching and the scrub.

    A method that takes the lock more than once is the composition of its locked
    sections (pure functions of [FileEntry]) and the backend calls between them;
    the locked sections are the steps of FileEntryInv.v. Log lines, the tracer,
    the latency histograms and the close-time JSON record are left out. *)

From stdpp Require Import sorting.
From S2P Require Import Prelude IOBackend Crc32c PageBitmap Config MetaFile UrlKey.

Module Entry.
Import Meta.

Record BufPage := mkBufPage { data : bytes; bcrc : Z; spec : bool; touched : bool }.

(** Parked callbacks are numbered. *)
Record FileEntry := mkEntry {
  dataPath_ : bytes;
  metaPath_ : bytes;
  dataFd_ : Z;
  onPersist_ : bool;
  closing_ : bool;
  meta_ : MetaData;
  dirty_ : bool;
  lastFlushS_ : Z;
  setSince_ : PageBitmap;
  clearedSince_ : PageBitmap;
  pinTouched_ : bool;
  buf_ : gmap Z BufPage;
  flushing_ : gmap Z BufPage;
  bufBytes_ : Z;
  specBytes_ : Z;
  lastBufFlushS_ : Z;
  flushInProgress_ : bool;
  inflight_ : gmap (Z * Z) (list Z);
  flight_ : list (Z * Z);
  flightWaiters_ : list Z;
  servedOnce_ : PageBitmap;
  lastDiskEnd_ : Z
}.

Definition set_dataPath (v : bytes) (e : FileEntry) : FileEntry :=
  mkEntry
    v (metaPath_ e) (dataFd_ e) (onPersist_ e) (closing_ e) (meta_ e) (dirty_ e) (lastFlushS_ e)
    (setSince_ e) (clearedSince_ e) (pinTouched_ e) (buf_ e) (flushing_ e) (bufBytes_ e) (specBytes_
    e) (lastBufFlushS_ e) (flushInProgress_ e) (inflight_ e) (flight_ e) (flightWaiters_ e)
    (servedOnce_ e) (lastDiskEnd_ e).
Definition set_metaPath (v : bytes) (e : FileEntry) : FileEntry :=
  mkEntry
    (dataPath_ e) v (dataFd_ e) (onPersist_ e) (closing_ e) (meta_ e) (dirty_ e) (lastFlushS_ e)
    (setSince_ e) (clearedSince_ e) (pinTouched_ e) (buf_ e) (flushing_ e) (bufBytes_ e) (specBytes_
    e) (lastBufFlushS_ e) (flushInProgress_ e) (inflight_ e) (flight_ e) (flightWaiters_ e)
    (servedOnce_ e) (lastDiskEnd_ e).
Definition set_dataFd (v : Z) (e : FileEntry) : FileEntry :=
  mkEntry
    (dataPath_ e) (metaPath_ e) v (onPersist_ e) (closing_ e) (meta_ e) (dirty_ e) (lastFlushS_ e)
    (setSince_ e) (clearedSince_ e) (pinTouched_ e) (buf_ e) (flushing_ e) (bufBytes_ e) (specBytes_
    e) (lastBufFlushS_ e) (flushInProgress_ e) (inflight_ e) (flight_ e) (flightWaiters_ e)
    (servedOnce_ e) (lastDiskEnd_ e).
Definition set_onPersist (v : bool) (e : FileEntry) : FileEntry :=
  mkEntry
    (dataPath_ e) (metaPath_ e) (dataFd_ e) v (closing_ e) (meta_ e) (dirty_ e) (lastFlushS_ e)
    (setSince_ e) (clearedSince_ e) (pinTouched_ e) (buf_ e) (flushing_ e) (bufBytes_ e) (specBytes_
    e) (lastBufFlushS_ e) (flushInProgress_ e) (inflight_ e) (flight_ e) (flightWaiters_ e)
    (servedOnce_ e) (lastDiskEnd_ e).
Definition set_closing (v : bool) (e : FileEntry) : FileEntry :=
  mkEntry
    (dataPath_ e) (metaPath_ e) (dataFd_ e) (onPersist_ e) v (meta_ e) (dirty_ e) (lastFlushS_ e)
    (setSince_ e) (clearedSince_ e) (pinTouched_ e) (buf_ e) (flushing_ e) (bufBytes_ e) (specBytes_
    e) (lastBufFlushS_ e) (flushInProgress_ e) (inflight_ e) (flight_ e) (flightWaiters_ e)
    (servedOnce_ e) (lastDiskEnd_ e).
Definition set_meta (v : MetaData) (e : FileEntry) : FileEntry :=
  mkEntry
    (dataPath_ e) (metaPath_ e) (dataFd_ e) (onPersist_ e) (closing_ e) v (dirty_ e) (lastFlushS_ e)
    (setSince_ e) (clearedSince_ e) (pinTouched_ e) (buf_ e) (flushing_ e) (bufBytes_ e) (specBytes_
    e) (lastBufFlushS_ e) (flushInProgress_ e) (inflight_ e) (flight_ e) (flightWaiters_ e)
    (servedOnce_ e) (lastDiskEnd_ e).
Definition set_dirty (v : bool) (e : FileEntry) : FileEntry :=
  mkEntry
    (dataPath_ e) (metaPath_ e) (dataFd_ e) (onPersist_ e) (closing_ e) (meta_ e) v (lastFlushS_ e)
    (setSince_ e) (clearedSince_ e) (pinTouched_ e) (buf_ e) (flushing_ e) (bufBytes_ e) (specBytes_
    e) (lastBufFlushS_ e) (flushInProgress_ e) (inflight_ e) (flight_ e) (flightWaiters_ e)
    (servedOnce_ e) (lastDiskEnd_ e).
Definition set_lastFlushS (v : Z) (e : FileEntry) : FileEntry :=
  mkEntry
    (dataPath_ e) (metaPath_ e) (dataFd_ e) (onPersist_ e) (closing_ e) (meta_ e) (dirty_ e) v
    (setSince_ e) (clearedSince_ e) (pinTouched_ e) (buf_ e) (flushing_ e) (bufBytes_ e) (specBytes_
    e) (lastBufFlushS_ e) (flushInProgress_ e) (inflight_ e) (flight_ e) (flightWaiters_ e)
    (servedOnce_ e) (lastDiskEnd_ e).
Definition set_setSince (v : PageBitmap) (e : FileEntry) : FileEntry :=
  mkEntry
    (dataPath_ e) (metaPath_ e) (dataFd_ e) (onPersist_ e) (closing_ e) (meta_ e) (dirty_ e)
    (lastFlushS_ e) v (clearedSince_ e) (pinTouched_ e) (buf_ e) (flushing_ e) (bufBytes_ e)
    (specBytes_ e) (lastBufFlushS_ e) (flushInProgress_ e) (inflight_ e) (flight_ e) (flightWaiters_
    e) (servedOnce_ e) (lastDiskEnd_ e).
Definition set_clearedSince (v : PageBitmap) (e : FileEntry) : FileEntry :=
  mkEntry
    (dataPath_ e) (metaPath_ e) (dataFd_ e) (onPersist_ e) (closing_ e) (meta_ e) (dirty_ e)
    (lastFlushS_ e) (setSince_ e) v (pinTouched_ e) (buf_ e) (flushing_ e) (bufBytes_ e) (specBytes_
    e) (lastBufFlushS_ e) (flushInProgress_ e) (inflight_ e) (flight_ e) (flightWaiters_ e)
    (servedOnce_ e) (lastDiskEnd_ e).
Definition set_pinTouched (v : bool) (e : FileEntry) : FileEntry :=
  mkEntry
    (dataPath_ e) (metaPath_ e) (dataFd_ e) (onPersist_ e) (closing_ e) (meta_ e) (dirty_ e)
    (lastFlushS_ e) (setSince_ e) (clearedSince_ e) v (buf_ e) (flushing_ e) (bufBytes_ e)
    (specBytes_ e) (lastBufFlushS_ e) (flushInProgress_ e) (inflight_ e) (flight_ e) (flightWaiters_
    e) (servedOnce_ e) (lastDiskEnd_ e).
Definition set_buf (v : gmap Z BufPage) (e : FileEntry) : FileEntry :=
  mkEntry
    (dataPath_ e) (metaPath_ e) (dataFd_ e) (onPersist_ e) (closing_ e) (meta_ e) (dirty_ e)
    (lastFlushS_ e) (setSince_ e) (clearedSince_ e) (pinTouched_ e) v (flushing_ e) (bufBytes_ e)
    (specBytes_ e) (lastBufFlushS_ e) (flushInProgress_ e) (inflight_ e) (flight_ e) (flightWaiters_
    e) (servedOnce_ e) (lastDiskEnd_ e).
Definition set_flushing (v : gmap Z BufPage) (e : FileEntry) : FileEntry :=
  mkEntry
    (dataPath_ e) (metaPath_ e) (dataFd_ e) (onPersist_ e) (closing_ e) (meta_ e) (dirty_ e)
    (lastFlushS_ e) (setSince_ e) (clearedSince_ e) (pinTouched_ e) (buf_ e) v (bufBytes_ e)
    (specBytes_ e) (lastBufFlushS_ e) (flushInProgress_ e) (inflight_ e) (flight_ e) (flightWaiters_
    e) (servedOnce_ e) (lastDiskEnd_ e).
Definition set_bufBytes (v : Z) (e : FileEntry) : FileEntry :=
  mkEntry
    (dataPath_ e) (metaPath_ e) (dataFd_ e) (onPersist_ e) (closing_ e) (meta_ e) (dirty_ e)
    (lastFlushS_ e) (setSince_ e) (clearedSince_ e) (pinTouched_ e) (buf_ e) (flushing_ e) v
    (specBytes_ e) (lastBufFlushS_ e) (flushInProgress_ e) (inflight_ e) (flight_ e) (flightWaiters_
    e) (servedOnce_ e) (lastDiskEnd_ e).
Definition set_specBytes (v : Z) (e : FileEntry) : FileEntry :=
  mkEntry
    (dataPath_ e) (metaPath_ e) (dataFd_ e) (onPersist_ e) (closing_ e) (meta_ e) (dirty_ e)
    (lastFlushS_ e) (setSince_ e) (clearedSince_ e) (pinTouched_ e) (buf_ e) (flushing_ e)
    (bufBytes_ e) v (lastBufFlushS_ e) (flushInProgress_ e) (inflight_ e) (flight_ e)
    (flightWaiters_ e) (servedOnce_ e) (lastDiskEnd_ e).
Definition set_lastBufFlushS (v : Z) (e : FileEntry) : FileEntry :=
  mkEntry
    (dataPath_ e) (metaPath_ e) (dataFd_ e) (onPersist_ e) (closing_ e) (meta_ e) (dirty_ e)
    (lastFlushS_ e) (setSince_ e) (clearedSince_ e) (pinTouched_ e) (buf_ e) (flushing_ e)
    (bufBytes_ e) (specBytes_ e) v (flushInProgress_ e) (inflight_ e) (flight_ e) (flightWaiters_ e)
    (servedOnce_ e) (lastDiskEnd_ e).
Definition set_flushInProgress (v : bool) (e : FileEntry) : FileEntry :=
  mkEntry
    (dataPath_ e) (metaPath_ e) (dataFd_ e) (onPersist_ e) (closing_ e) (meta_ e) (dirty_ e)
    (lastFlushS_ e) (setSince_ e) (clearedSince_ e) (pinTouched_ e) (buf_ e) (flushing_ e)
    (bufBytes_ e) (specBytes_ e) (lastBufFlushS_ e) v (inflight_ e) (flight_ e) (flightWaiters_ e)
    (servedOnce_ e) (lastDiskEnd_ e).
Definition set_inflight (v : gmap (Z * Z) (list Z)) (e : FileEntry) : FileEntry :=
  mkEntry
    (dataPath_ e) (metaPath_ e) (dataFd_ e) (onPersist_ e) (closing_ e) (meta_ e) (dirty_ e)
    (lastFlushS_ e) (setSince_ e) (clearedSince_ e) (pinTouched_ e) (buf_ e) (flushing_ e)
    (bufBytes_ e) (specBytes_ e) (lastBufFlushS_ e) (flushInProgress_ e) v (flight_ e)
    (flightWaiters_ e) (servedOnce_ e) (lastDiskEnd_ e).
Definition set_flight (v : list (Z * Z)) (e : FileEntry) : FileEntry :=
  mkEntry
    (dataPath_ e) (metaPath_ e) (dataFd_ e) (onPersist_ e) (closing_ e) (meta_ e) (dirty_ e)
    (lastFlushS_ e) (setSince_ e) (clearedSince_ e) (pinTouched_ e) (buf_ e) (flushing_ e)
    (bufBytes_ e) (specBytes_ e) (lastBufFlushS_ e) (flushInProgress_ e) (inflight_ e) v
    (flightWaiters_ e) (servedOnce_ e) (lastDiskEnd_ e).
Definition set_flightWaiters (v : list Z) (e : FileEntry) : FileEntry :=
  mkEntry
    (dataPath_ e) (metaPath_ e) (dataFd_ e) (onPersist_ e) (closing_ e) (meta_ e) (dirty_ e)
    (lastFlushS_ e) (setSince_ e) (clearedSince_ e) (pinTouched_ e) (buf_ e) (flushing_ e)
    (bufBytes_ e) (specBytes_ e) (lastBufFlushS_ e) (flushInProgress_ e) (inflight_ e) (flight_ e) v
    (servedOnce_ e) (lastDiskEnd_ e).
Definition set_servedOnce (v : PageBitmap) (e : FileEntry) : FileEntry :=
  mkEntry
    (dataPath_ e) (metaPath_ e) (dataFd_ e) (onPersist_ e) (closing_ e) (meta_ e) (dirty_ e)
    (lastFlushS_ e) (setSince_ e) (clearedSince_ e) (pinTouched_ e) (buf_ e) (flushing_ e)
    (bufBytes_ e) (specBytes_ e) (lastBufFlushS_ e) (flushInProgress_ e) (inflight_ e) (flight_ e)
    (flightWaiters_ e) v (lastDiskEnd_ e).
Definition set_lastDiskEnd (v : Z) (e : FileEntry) : FileEntry :=
  mkEntry
    (dataPath_ e) (metaPath_ e) (dataFd_ e) (onPersist_ e) (closing_ e) (meta_ e) (dirty_ e)
    (lastFlushS_ e) (setSince_ e) (clearedSince_ e) (pinTouched_ e) (buf_ e) (flushing_ e)
    (bufBytes_ e) (specBytes_ e) (lastBufFlushS_ e) (flushInProgress_ e) (inflight_ e) (flight_ e)
    (flightWaiters_ e) (servedOnce_ e) v.

(** The counters of [Stats] and [Obs] this class moves. *)
Inductive ctr :=
  | validationsFailed | metaCorrupt | failopenEvents | opens | crcFailures | prefetchServedBytes
  | prefetchRefetchedBytes | prefetchDroppedUnread | ramHitBytes | hitDiskReads | hitDiskBytes
  | hitDiskSeq | firstTouchBytes | hitBytes | pageWrites | flushRuns | flushRunBytes
  | bufferStalls | bufferStallUs | fetchesJoined
  | o_servedBytes | o_ramBytes | o_diskReads | o_diskSeq | o_diskBytes | o_firstTouchBytes
  | o_wireBytes | o_prefetchServed | o_prefetchDropped | o_firstUs | o_lastUs.
#[global] Instance ctr_eq : EqDecision ctr.
Proof. solve_decision. Defined.

(** What leaves the entry: the usage hook and the callbacks it fires. *)
Inductive event := OnPersist (n : Z) (allowEvict : bool) | Fire (cb : Z).

(** Page [i] in the stage: in [buf_] first, then in the snapshot being written. *)
Definition staged_at (e : FileEntry) (i : Z) : option (bool * BufPage) :=
  match buf_ e !! i with
  | Some p => Some (true, p)
  | None => (fun p => (false, p)) <$> flushing_ e !! i
  end.
Definition has (m : gmap Z BufPage) (i : Z) : bool := match m !! i with Some _ => true | None => false end.

(** ** Presence transitions *)
Definition publishPage (e : FileEntry) (pg c : Z) : FileEntry :=
  set_clearedSince (Bitmap.clear (clearedSince_ e) pg)
    (set_setSince (Bitmap.set (setSince_ e) pg)
      (set_meta (set_page (Bitmap.set (bitmap (meta_ e)) pg) pg c (meta_ e)) e)).

Definition retractPage (e : FileEntry) (pg : Z) : FileEntry :=
  set_setSince (Bitmap.clear (setSince_ e) pg)
    (set_clearedSince (Bitmap.set (clearedSince_ e) pg)
      (set_meta (set_page (Bitmap.clear (bitmap (meta_ e)) pg) pg 0 (meta_ e)) e)).

Definition not_flag (f : Z) : Z := w32 (Z.lnot f).
Definition clear_complete (e : FileEntry) : FileEntry :=
  set_meta (set_flags (Z.land (flags (meta_ e)) (not_flag kFlagComplete)) (meta_ e)) e.
(** [if (bitmap.count() == npages()) flags |= kFlagComplete]. *)
Definition mark_if_complete (e : FileEntry) : FileEntry :=
  if Bitmap.count_ (bitmap (meta_ e)) =? npages (meta_ e)
  then set_meta (set_flags (Z.lor (flags (meta_ e)) kFlagComplete) (meta_ e)) e
  else e.

(** ** Ranges *)
Definition runBytes (m : MetaData) (firstPage lastPage : Z) : Z :=
  lastPage *% pageSize m +% pageBytes m lastPage -% firstPage *% pageSize m.

Definition pageHere (e : FileEntry) (i : Z) : bool :=
  Bitmap.get (bitmap (meta_ e)) i || has (buf_ e) i || has (flushing_ e) i.

Definition hasRange (e : FileEntry) (off len : Z) : bool :=
  if (len =? 0) || (off +% len <? off) || (fileSize (meta_ e) <? off +% len) then false
  else
    let first := off / pageSize (meta_ e) in
    let last := (off +% len -% 1) / pageSize (meta_ e) in
    if bool_decide (buf_ e = ∅) && bool_decide (flushing_ e = ∅)
    then Bitmap.rangeSet (bitmap (meta_ e)) first last
    else forallb (pageHere e) (zrange first (last + 1)).

(** The pages a fill loop visits: [for (i = (off+P-1)/P; i*P < end; ++i)] up to the
    first page that does not end inside [end]. [end <= fileSize], so the loop
    never passes the last page. *)
Fixpoint full_from (m : MetaData) (end_ : Z) (l : list Z) : list Z :=
  match l with
  | [] => []
  | i :: l' =>
      if negb (i *% pageSize m <? end_) then []
      else if end_ <? i *% pageSize m +% pageBytes m i then []
      else i :: full_from m end_ l'
  end.
Definition fullPages (m : MetaData) (off end_ : Z) : list Z :=
  full_from m end_ (zrange ((off +% pageSize m -% 1) / pageSize m) (npages m)).

(** ** Speculative pages *)
Definition unmarkSpeculative (inBuf : bool) (i : Z) (p : BufPage) (nbytes : Z) (e : FileEntry) : FileEntry :=
  let p' := mkBufPage (data p) (bcrc p) false (touched p) in
  let e := if inBuf then set_buf (<[i := p']> (buf_ e)) e else set_flushing (<[i := p']> (flushing_ e)) e in
  set_bufBytes (bufBytes_ e +% nbytes) (set_specBytes (specBytes_ e -% nbytes) e).

(** The pages wholly inside [off, end): the file's tail page counts as whole. *)
Definition inner_first (m : MetaData) (off : Z) : Z := (off +% pageSize m -% 1) / pageSize m.
Definition inner_stop (m : MetaData) (end_ : Z) : Z :=
  if end_ =? fileSize m then (end_ +% pageSize m -% 1) / pageSize m else end_ / pageSize m.

(** Erase the pages of [[firstPage, stopPage)] that carry the mark; the bytes
    erased, and those among them the cache itself never touched. *)
Definition spec_in (firstPage stopPage : Z) (kv : Z * BufPage) : Prop :=
  firstPage <= fst kv < stopPage /\ spec (snd kv) = true.
#[global] Instance spec_in_dec a b kv : Decision (spec_in a b kv).
Proof. unfold spec_in. apply _. Defined.

Definition sum_pages (m : MetaData) (f : BufPage -> bool) (b : gmap Z BufPage) : Z :=
  map_fold (fun i p n => (if f p then pageBytes m i else 0) + n) 0 b.

Definition erase_spec (firstPage stopPage : Z) (e : FileEntry) : FileEntry * Z * Z :=
  let gone := filter (spec_in firstPage stopPage) (buf_ e) in
  let dropped := sum_pages (meta_ e) (fun _ => true) gone in
  let unread := sum_pages (meta_ e) (fun p => negb (touched p)) gone in
  (set_specBytes (specBytes_ e -% dropped) (set_buf (filter (fun kv => ~ spec_in firstPage stopPage kv) (buf_ e)) e), w64 dropped, w64 unread).

Definition mark_touched (firstPage stopPage : Z) (e : FileEntry) (pg : Z) : FileEntry :=
  if (pg <? firstPage) || (stopPage <=? pg) then
    match buf_ e !! pg with
    | Some p => if spec p then set_buf (<[pg := mkBufPage (data p) (bcrc p) true true]> (buf_ e)) e else e
    | None => e
    end
  else e.

(** ** Ranges on the wire *)
Definition pageInFlight (e : FileEntry) (page : Z) : bool :=
  existsb (fun r => (fst r <=? page) && (page <? snd r)) (flight_ e).

(** The first range holding [at], and the outer loop: every round strictly
    advances, so one round per range is enough. *)
Definition flight_step (fl : list (Z * Z)) (at_ : Z) : option Z :=
  snd <$> List.find (fun r => (fst r <=? at_) && (at_ <? snd r)) fl.
Fixpoint flight_loop (fuel : nat) (fl : list (Z * Z)) (at_ endPage : Z) : Z :=
  match fuel with
  | O => at_
  | S fuel' =>
      if at_ <? endPage then
        match flight_step fl at_ with
        | Some b => flight_loop fuel' fl b endPage
        | None => at_
        end
      else at_
  end.
Definition coveredByFlight (e : FileEntry) (firstPage endPage : Z) : bool :=
  endPage <=? flight_loop (S (length (flight_ e))) (flight_ e) firstPage endPage.

(** Page range of a byte range, [None] where the source returns. *)
Definition flight_range (m : MetaData) (off len : Z) : option (Z * Z) :=
  if (len =? 0) || (off +% len <? off) then None
  else
    let end_ := Z.min (off +% len) (fileSize m) in
    if end_ <=? off then None
    else Some (off / pageSize m, (end_ +% pageSize m -% 1) / pageSize m).

Definition noteFetchInFlight (off len : Z) (e : FileEntry) : FileEntry :=
  match flight_range (meta_ e) off len with
  | None => e
  | Some r => set_flight (flight_ e ++ [r]) e
  end.

(** [erase(find(...))]: the first equal element. *)
Fixpoint erase_first (r : Z * Z) (l : list (Z * Z)) : list (Z * Z) :=
  match l with
  | [] => []
  | x :: l' => if decide (x = r) then l' else x :: erase_first r l'
  end.
Definition withdraw (e : FileEntry) (r : Z * Z) : FileEntry :=
  match flight_range (meta_ e) (fst r) (snd r) with
  | None => e
  | Some k => set_flight (erase_first k (flight_ e)) e
  end.

(** All of one wire request's ranges, then every parked reader. *)
Definition clearFetchInFlights (ranges : list (Z * Z)) (e : FileEntry) : FileEntry * list Z :=
  let e' := foldl withdraw e ranges in
  (set_flightWaiters [] e', flightWaiters_ e').
Definition clearFetchInFlight (off len : Z) (e : FileEntry) : FileEntry * list Z :=
  match flight_range (meta_ e) off len with
  | None => (e, [])
  | Some k => (set_flightWaiters [] (set_flight (erase_first k (flight_ e)) e), flightWaiters_ e)
  end.

(** The absent stretches of [[i, last]]: each must be covered; [Some saw] when all
    are, with whether there was one. [fuel] counts the pages left. *)
Fixpoint absent_end (fuel : nat) (e : FileEntry) (j last : Z) : Z :=
  match fuel with
  | O => j
  | S fuel' => if (j <=? last) && negb (pageHere e j) then absent_end fuel' e (j + 1) last else j
  end.
Fixpoint wait_scan (fuel : nat) (e : FileEntry) (i last : Z) (saw : bool) : option bool :=
  match fuel with
  | O => Some saw
  | S fuel' =>
      if last <? i then Some saw
      else if pageHere e i then wait_scan fuel' e (i + 1) last saw
      else
        let j := absent_end (Z.to_nat (last + 1 - i)) e i last in
        if coveredByFlight e i j then wait_scan fuel' e j last true else None
  end.
Fixpoint wait_ranges (e : FileEntry) (ranges : list (Z * Z)) (saw : bool) : option bool :=
  match ranges with
  | [] => Some saw
  | (off, len) :: rest =>
      if (len =? 0) || (fileSize (meta_ e) <? off +% len) then None
      else
        let P := pageSize (meta_ e) in
        let first := off / P in
        let last := (off +% len -% 1) / P in
        match wait_scan (Z.to_nat (last + 2 - first)) e first last saw with
        | None => None
        | Some saw' => wait_ranges e rest saw'
        end
  end.
Definition waitForInFlight_locked (ranges : list (Z * Z)) (cb : Z) (e : FileEntry) : bool * FileEntry :=
  match flight_ e with
  | [] => (false, e)
  | _ =>
      match wait_ranges e ranges false with
      | Some true => (true, set_flightWaiters (flightWaiters_ e ++ [cb]) e)
      | _ => (false, e)
      end
  end.

(** ** The fetch gate *)
Definition beginFetch_locked (off len cb : Z) (e : FileEntry) : bool * FileEntry :=
  match inflight_ e !! (off, len) with
  | None => (true, set_inflight (<[(off, len) := []]> (inflight_ e)) e)
  | Some l => (false, set_inflight (<[(off, len) := l ++ [cb]]> (inflight_ e)) e)
  end.
Definition endFetch (off len : Z) (e : FileEntry) : FileEntry * list Z :=
  match inflight_ e !! (off, len) with
  | None => (e, [])
  | Some l => (set_inflight (delete (off, len) (inflight_ e)) e, l)
  end.

(** What a prefetch would have to fetch. *)
Definition absent_step (e : FileEntry) (skipInFlight : bool) (runs : list (Z * Z)) (i : Z) : list (Z * Z) :=
  if pageHere e i then runs
  else if skipInFlight && pageInFlight e i then runs
  else
    let pStart := i *% pageSize (meta_ e) in
    let pLen := pageBytes (meta_ e) i in
    match last runs with
    | Some (o, l) => if o +% l =? pStart then removelast runs ++ [(o, l +% pLen)] else runs ++ [(pStart, pLen)]
    | None => runs ++ [(pStart, pLen)]
    end.
Definition absentRuns (e : FileEntry) (off len : Z) (skipInFlight : bool) : list (Z * Z) :=
  if (len =? 0) || (off +% len <? off) then []
  else
    let end_ := Z.min (off +% len) (fileSize (meta_ e)) in
    if end_ <=? off then []
    else foldl (absent_step e skipInFlight) []
           (zrange (off / pageSize (meta_ e)) ((end_ -% 1) / pageSize (meta_ e) + 1)).

(** ** The world around an entry *)
Section ops.
Context {W : Type} `{!IOBackend W} `{CK : Checksum}.
Context (cfg : Config.Config) (ukey : UrlKey.UrlKey).
(** The clocks: any sequence of readings. *)
Context (clockS clockUs : nat -> Z).

Record World := mkWorld {
  io_ : W;
  g_bufTotal_ : Z;
  g_specTotal_ : Z;
  g_specDropped_ : Z;
  stats_ : ctr -> Z;
  events_ : list event;
  ticks_ : nat
}.
Definition St : Type := FileEntry * World.

Definition set_io (v : W) (w : World) : World :=
  mkWorld v (g_bufTotal_ w) (g_specTotal_ w) (g_specDropped_ w) (stats_ w) (events_ w) (ticks_ w).
Definition set_pools (b s d : Z) (w : World) : World :=
  mkWorld (io_ w) b s d (stats_ w) (events_ w) (ticks_ w).
Definition set_stats (v : ctr -> Z) (w : World) : World :=
  mkWorld (io_ w) (g_bufTotal_ w) (g_specTotal_ w) (g_specDropped_ w) v (events_ w) (ticks_ w).
Definition set_events (v : list event) (w : World) : World :=
  mkWorld (io_ w) (g_bufTotal_ w) (g_specTotal_ w) (g_specDropped_ w) (stats_ w) v (ticks_ w).
Definition tick (w : World) : World :=
  mkWorld (io_ w) (g_bufTotal_ w) (g_specTotal_ w) (g_specDropped_ w) (stats_ w) (events_ w) (S (ticks_ w)).

Definition getE : M St FileEntry := fun s => (fst s, s).
Definition modE (f : FileEntry -> FileEntry) : M St unit := fun s => (tt, (f (fst s), snd s)).
(** A locked section with a result. *)
Definition locked {A} (f : FileEntry -> A * FileEntry) : M St A := fun s =>
  let '(a, e) := f (fst s) in (a, (e, snd s)).
Definition modW (f : World -> World) : M St unit := fun s => (tt, (fst s, f (snd s))).
Definition io {A} (m : M W A) : M St A := fun s =>
  let '(a, w) := m (io_ (snd s)) in (a, (fst s, set_io w (snd s))).
Definition bump (c : ctr) (n : Z) : M St unit :=
  modW (fun w => set_stats (fun c' => if decide (c' = c) then stats_ w c' +% n else stats_ w c') w).
Definition fire (l : list event) : M St unit := modW (fun w => set_events (events_ w ++ l) w).
Definition add_bufTotal (n : Z) : M St unit :=
  modW (fun w => set_pools (g_bufTotal_ w +% n) (g_specTotal_ w) (g_specDropped_ w) w).
Definition add_specTotal (n : Z) : M St unit :=
  modW (fun w => set_pools (g_bufTotal_ w) (g_specTotal_ w +% n) (g_specDropped_ w) w).
Definition add_specDropped (n : Z) : M St unit :=
  modW (fun w => set_pools (g_bufTotal_ w) (g_specTotal_ w) (g_specDropped_ w +% n) w).
Definition nowS : M St Z := fun s => (w64 (clockS (ticks_ (snd s))), (fst s, tick (snd s))).
Definition nowUsSteady : M St Z := fun s => (w64 (clockUs (ticks_ (snd s))), (fst s, tick (snd s))).
Definition when (b : bool) (m : M St unit) : M St unit := if b then m else ret tt.

(** The span ends move one way only. *)
Definition noteActivity : M St unit :=
  do t <- nowUsSteady;
  modW (fun w => set_stats (fun c =>
    if decide (c = o_firstUs) then (if stats_ w o_firstUs =? 0 then t else stats_ w o_firstUs)
    else if decide (c = o_lastUs) then Z.max (stats_ w o_lastUs) t
    else stats_ w c) w).

(** Coarse: at most one update per minute. *)
Definition atime_locked (now : Z) (e : FileEntry) : FileEntry :=
  if atime (meta_ e) +% 60 <=? now then set_dirty true (set_meta (set_atime now (meta_ e)) e) else e.
Definition touchAtime : M St unit := do now <- nowS; modE (atime_locked now).

(** ** The sidecar commit *)
Definition adoptable (m : MetaData) (originSize originMtime_ cksumKind_ originCksum_ : Z) : bool :=
  bytes_eqb (key m) (UrlKey.key ukey) && (fileSize m =? originSize)
  && Config.validPageSize (pageSize m) && (npages m =? zlen (pageCrcs m))
  && (if decide (Config.validate cfg = Config.VSizeMtime) then originMtime m =? originMtime_ else true)
  && (if decide (Config.validate cfg = Config.VCksum) then
        if negb (cksumKind_ =? kCksumNone)
        then (cksumKind m =? cksumKind_) && (originCksum m =? originCksum_) else true
      else true).

(** The delta of one page onto the image on disk. *)
Definition merge_page (snapshot : MetaData) (sets clears : PageBitmap) (out : MetaData) (i : Z) : MetaData :=
  if Bitmap.get clears i then set_page (Bitmap.clear (bitmap out) i) i 0 out
  else if Bitmap.get sets i
       then set_page (Bitmap.set (bitmap out) i) i (zget (pageCrcs snapshot) i) out
       else out.
Definition with_pin (dst src : Z) : Z :=
  Z.lor (Z.land dst (not_flag kFlagPinned)) (Z.land src kFlagPinned).
Definition recomplete (n : Z) (m : MetaData) : MetaData :=
  let f := Z.land (flags m) (not_flag kFlagComplete) in
  set_flags (if negb (n =? 0) && (Bitmap.count_ (bitmap m) =? n) then Z.lor f kFlagComplete else f) m.

Definition merge_image (disk snapshot : MetaData) (sets clears : PageBitmap) (pinTouched : bool) : MetaData :=
  let n := npages disk in
  let out := foldl (merge_page snapshot sets clears) disk (zrange 0 n) in
  let out := if pinTouched then set_flags (with_pin (flags out) (flags snapshot)) out else out in
  let out := recomplete n out in
  set_atime (Z.max (atime out) (atime snapshot)) out.

(** The locked section that takes the snapshot; [None]: nothing to do yet. *)
Definition fm_snapshot (force : bool) (now : Z) (e : FileEntry)
    : option (MetaData * PageBitmap * PageBitmap * bool) * FileEntry :=
  if negb (dirty_ e) then (None, e)
  else if negb force && (now <? lastFlushS_ e +% w64 (Config.metaFlushSeconds cfg)) then (None, e)
  else (Some (meta_ e, setSince_ e, clearedSince_ e, pinTouched_ e),
        set_lastFlushS now (set_dirty false (set_pinTouched false
          (set_clearedSince (Bitmap.clearAll (clearedSince_ e))
            (set_setSince (Bitmap.clearAll (setSince_ e)) e))))).

(** A failed store: the deltas are pending again, newer opposite transitions win. *)
Definition rearm_page (sets clears : PageBitmap) (e : FileEntry) (i : Z) : FileEntry :=
  let e := if Bitmap.get sets i && negb (Bitmap.get (clearedSince_ e) i)
           then set_setSince (Bitmap.set (setSince_ e) i) e else e in
  if Bitmap.get clears i && negb (Bitmap.get (setSince_ e) i)
  then set_clearedSince (Bitmap.set (clearedSince_ e) i) e else e.
Definition fm_rearm (sets clears : PageBitmap) (pinTouched : bool) (e : FileEntry) : FileEntry :=
  let e := set_dirty true e in
  let e := foldl (rearm_page sets clears) e (zrange 0 (npages (meta_ e))) in
  set_pinTouched (pinTouched_ e || pinTouched) e.

(** A committed merge: untouched pages take the state that is on disk now. *)
Definition adopt_page (out : MetaData) (e : FileEntry) (i : Z) : FileEntry :=
  if Bitmap.get (setSince_ e) i || Bitmap.get (clearedSince_ e) i then e
  else
    let m := meta_ e in
    if Bitmap.get (bitmap out) i
    then set_meta (set_page (Bitmap.set (bitmap m) i) i (zget (pageCrcs out) i) m) e
    else set_meta (set_page (Bitmap.clear (bitmap m) i) i 0 m) e.
Definition fm_adopt (out : MetaData) (e : FileEntry) : FileEntry :=
  let n := npages (meta_ e) in
  let e := foldl (adopt_page out) e (zrange 0 n) in
  let e := if pinTouched_ e then e
           else set_meta (set_flags (with_pin (flags (meta_ e)) (flags out)) (meta_ e)) e in
  let e := set_meta (recomplete n (meta_ e)) e in
  set_meta (set_atime (Z.max (atime (meta_ e)) (atime out)) (meta_ e)) e.

Definition flushMeta (force : bool) : M St unit :=
  do e0 <- getE;
  do now <- (if negb (dirty_ e0) then ret 0 else nowS);
  do snap <- locked (fm_snapshot force now);
  match snap with
  | None => ret tt
  | Some (snapshot, sets, clears, pinTouched) =>
      do e <- getE;
      do_ io (io_flock (dataFd_ e) LOCK_EX);
      do st <- io (io_fstat (dataFd_ e));
      if (fst st =? 0) && (st_nlink (snd st) =? 0)
      then do_ io (io_flock (dataFd_ e) LOCK_UN); ret tt   (* evicted while open *)
      else
        do disk <- io (load (metaPath_ e));
        let merged := match disk with
          | Some d => if (pageSize d =? pageSize snapshot)
                         && adoptable d (fileSize snapshot) (originMtime snapshot) (cksumKind snapshot)
                              (originCksum snapshot)
                      then Some (merge_image d snapshot sets clears pinTouched) else None
          | None => None
          end in
        let out := match merged with Some o => o | None => snapshot end in
        do rc <- io (store (metaPath_ e) out (bool_decide (Config.fsync cfg = Config.FsAll)));
        do_ io (io_flock (dataFd_ e) LOCK_UN);
        if rc <? 0 then
          do_ bump failopenEvents 1;
          modE (fm_rearm sets clears pinTouched)
        else
          match merged with
          | None => ret tt
          | Some o => modE (fm_adopt o)
          end
  end.

(** ** The fill buffer *)

(** [std::map] order. *)
Definition key_le (a b : Z * BufPage) : Prop := fst a <= fst b.
#[local] Instance key_le_dec : RelDecision key_le.
Proof using. unfold key_le. intros a b. apply _. Defined.
Definition in_order (b : gmap Z BufPage) : list (Z * BufPage) := merge_sort key_le (map_to_list b).

(** The locked section that opens a flush: the bytes taken and whether a fill
    thread is draining at the cap. [force] first waits for a running flush. *)
Definition fb_begin (force : bool) (now total : Z) (e : FileEntry) : option (Z * bool) * FileEntry :=
  if negb force && flushInProgress_ e then (None, e)
  else if bufBytes_ e =? 0 then (None, e)
  else
    let capB := w64 (Z.shiftl (w64 (Config.fillBufferMb cfg)) 20) in
    let totalCapB := w64 (Z.shiftl (w64 (Config.fillBufferTotalMb cfg)) 20) in
    let capStall := negb force && ((capB <=? bufBytes_ e) || (totalCapB <=? total)) in
    if negb force && negb capStall && (now <? lastBufFlushS_ e +% w64 (Config.metaFlushSeconds cfg))
    then (None, e)
    else (Some (bufBytes_ e, capStall),
          set_flushInProgress true (set_bufBytes 0
            (set_buf (filter (fun kv => spec (snd kv) = true) (buf_ e))
              (set_flushing (filter (fun kv => spec (snd kv) = false) (buf_ e)) e)))).

Definition kMaxRun : Z := Z.shiftl 8 20.

(** The pages of one coalesced write: its bytes, (page, crc) pairs and the rest. *)
Fixpoint take_run (m : MetaData) (next size : Z) (l : list (Z * BufPage))
    : bytes * list (Z * Z) * list (Z * BufPage) :=
  match l with
  | (i, p) :: l' =>
      if (i =? next) && (size <? kMaxRun) then
        let nbytes := pageBytes m i in
        let '(run, pages, rest) := take_run m (next + 1) (size + nbytes) l' in
        (zsub (data p) 0 nbytes ++ run, (i, bcrc p) :: pages, rest)
      else ([], [], l)
  | [] => ([], [], [])
  end.

(** The write loop; stops at the first failed write. [fuel] bounds the runs. *)
Fixpoint flush_runs (fuel : nat) (m : MetaData) (fd : Z) (l : list (Z * BufPage))
    (published : list (Z * Z)) (written : Z) : M St (list (Z * Z) * Z) :=
  match fuel, l with
  | S fuel', (firstPage, _) :: _ =>
      let '(run, runPages, rest) := take_run m firstPage 0 l in
      do _ <- nowUsSteady;
      do w <- io (pwriteFull fd run (firstPage *% pageSize m));
      if negb (w =? zlen run) then
        do_ bump failopenEvents 1; ret (published, written)
      else
        do _ <- nowUsSteady;
        do_ bump flushRuns 1;
        do_ bump flushRunBytes (zlen run);
        flush_runs fuel' m fd rest (published ++ runPages) (written +% zlen run)
  | _, _ => ret (published, written)
  end.

(** The locked section that ends a flush. *)
Definition fb_end (published : list (Z * Z)) (now : Z) (e : FileEntry) : FileEntry :=
  let e := foldl (fun e pc => publishPage e (fst pc) (snd pc)) e published in
  let e := match published with [] => e | _ => mark_if_complete (set_dirty true e) end in
  set_lastBufFlushS now (set_flushInProgress false (set_flushing ∅ e)).

(** The unlocked middle of a flush: the coalesced writes of the snapshot, then
    the payload sync per policy (data before bit). The pages that may be
    published and the bytes written. *)
Definition fb_write : M St (list (Z * Z) * Z) :=
  do e <- getE;
  let pages := in_order (flushing_ e) in
  do pw <- flush_runs (length pages) (meta_ e) (dataFd_ e) pages [] 0;
  match fst pw with
  | [] => ret pw
  | _ =>
      if decide (Config.fsync cfg = Config.FsOff) then ret pw
      else
        do rc <- io (io_fdatasync (dataFd_ e));
        if rc <? 0 then do_ bump failopenEvents 1; ret ([], 0) else ret pw
  end.

Definition flushBuffer (force : bool) : M St unit :=
  do now <- nowS;
  do s <- (fun s => (s, s));
  do snap <- locked (fb_begin force now (g_bufTotal_ (snd s)));
  match snap with
  | None => ret tt
  | Some (snapBytes, capStall) =>
      do stallT0 <- (if capStall : bool then nowUsSteady else ret 0);
      do pw <- fb_write;
      let '(published, written) := pw in
      do now2 <- nowS;
      do_ modE (fb_end published now2);
      do_ add_bufTotal (- snapBytes);
      do_ (match published with [] => ret tt | _ => bump pageWrites (zlen published) end);
      do_ (if capStall : bool then
             do t <- nowUsSteady; do_ bump bufferStalls 1; bump bufferStallUs (t -% stallT0)
           else ret tt);
      do_ flushMeta force;
      do e <- getE;
      if negb (written =? 0) && onPersist_ e then fire [OnPersist written (negb (closing_ e))] else ret tt
  end.

Definition flushAll : M St unit := do_ flushBuffer true; flushMeta true.

Definition checkpoint : M St unit :=
  do now <- nowS;
  do e <- getE;
  if (0 <? bufBytes_ e) && negb (flushInProgress_ e)
     && (lastBufFlushS_ e +% w64 (Config.metaFlushSeconds cfg) <=? now)
  then flushBuffer true
  else flushMeta false.

(** ** The read path *)

Definition demote_locked (firstPage lastPage : Z) (e : FileEntry) : FileEntry :=
  set_dirty true (clear_complete (foldl retractPage e (zrange firstPage (lastPage + 1)))).
Definition demoteRun (firstPage lastPage : Z) : M St unit :=
  do_ modE (demote_locked firstPage lastPage); bump crcFailures 1.

(** Re-read page by page; demote exactly the pages that are bad now. *)
Fixpoint demote_pages (m : MetaData) (fd : Z) (l expect : list Z) : M St unit :=
  match l, expect with
  | i :: l', x :: expect' =>
      let nbytes := pageBytes m i in
      do rb <- io (preadFull fd nbytes (i *% pageSize m));
      do_ (if negb (fst rb =? nbytes) then demoteRun i i
           else if negb (crc 0 (snd rb) =? x) then demoteRun i i
           else ret tt);
      demote_pages m fd l' expect'
  | _, _ => ret tt
  end.
Definition demoteBadPages (firstPage lastPage : Z) (expect : list Z) : M St bool :=
  do e <- getE;
  do_ demote_pages (meta_ e) (dataFd_ e) (zrange firstPage (lastPage + 1)) expect;
  ret false.

(** The verification loop over the bytes that came in; [o] is the offset of the
    page in them, [got] how many there are. *)
Fixpoint verify_pages (m : MetaData) (lastPage : Z) (got : Z) (b : bytes) (o : Z) (l expect : list Z)
    : M St bool :=
  match l, expect with
  | i :: l', x :: expect' =>
      let nbytes := pageBytes m i in
      if got <? o +% nbytes then demoteBadPages i lastPage expect
      else if negb (crc 0 (zsub b o nbytes) =? x) then do_ demoteRun i i; ret false
      else verify_pages m lastPage got b (o +% nbytes) l' expect'
  | _, _ => ret true
  end.
(** Verdict and the bytes in [dst]. *)
Definition readVerifyRun (firstPage lastPage : Z) (expect : list Z) : M St (bool * bytes) :=
  do e <- getE;
  let m := meta_ e in
  do rb <- io (preadFull (dataFd_ e) (runBytes m firstPage lastPage) (firstPage *% pageSize m));
  let got := if 0 <? fst rb then fst rb else 0 in
  do ok <- verify_pages m lastPage got (snd rb) 0 (zrange firstPage (lastPage + 1)) expect;
  ret (ok, snd rb).

Definition kMaxCoalescedRead : Z := Z.shiftl 1 20.

Record Run := mkRun { firstPage : Z; lastPage : Z; crcBase : Z }.

(** The request's local accounting. *)
Record Acct := mkAcct { ramB : Z; ftB : Z; dReads : Z; dBytes : Z; dSeq : Z; specServed : Z }.
Definition acct0 : Acct := mkAcct 0 0 0 0 0 0.

(** The plan built under one lock take. *)
Record Plan := mkPlan { p_e : FileEntry; p_out : bytes; p_acct : Acct; p_runs : list Run; p_crcs : list Z }.

Definition add_run (m : MetaData) (i ncrcs : Z) (runs : list Run) : list Run :=
  match last runs with
  | Some r =>
      if (lastPage r + 1 =? i) && (runBytes m (firstPage r) i <=? kMaxCoalescedRead)
      then removelast runs ++ [mkRun (firstPage r) i (crcBase r)]
      else runs ++ [mkRun i i ncrcs]
  | None => runs ++ [mkRun i i ncrcs]
  end.

(** One page of the plan: staged pages are copied out, resident pages join a
    run, an absent page ends the request ([None]). *)
Definition plan_page (off len : Z) (account : bool) (pl : Plan) (i : Z) : option Plan :=
  let e := p_e pl in
  let m := meta_ e in
  let a := p_acct pl in
  let pStart := i *% pageSize m in
  let cStart := Z.max off pStart in
  let cEnd := Z.min (off +% len) (pStart +% pageBytes m i) in
  match staged_at e i with
  | Some (inBuf, p) =>
      let '(e, served) := if spec p && account
        then (unmarkSpeculative inBuf i p (pageBytes m i) e, pageBytes m i) else (e, 0) in
      let out := zsplice (p_out pl) (cStart -% off) (zsub (data p) (cStart -% pStart) (cEnd -% cStart)) in
      let first_touch := account && negb (Bitmap.get (servedOnce_ e) i) in
      let e := if first_touch then set_servedOnce (Bitmap.set (servedOnce_ e) i) e else e in
      Some (mkPlan e out
        (mkAcct (ramB a +% (cEnd -% cStart)) (if first_touch then ftB a +% (cEnd -% cStart) else ftB a)
           (dReads a) (dBytes a) (dSeq a) (specServed a +% served))
        (p_runs pl) (p_crcs pl))
  | None =>
      if negb (Bitmap.get (bitmap m) i) then None
      else Some (mkPlan e (p_out pl) a (add_run m i (zlen (p_crcs pl)) (p_runs pl))
                   (p_crcs pl ++ [zget (pageCrcs m) i]))
  end.
(** [false] when a page was absent; the plan up to there either way. *)
Fixpoint plan_loop (off len : Z) (account : bool) (l : list Z) (pl : Plan) : bool * Plan :=
  match l with
  | [] => (true, pl)
  | i :: l' => match plan_page off len account pl i with
               | None => (false, pl)
               | Some pl' => plan_loop off len account l' pl'
               end
  end.

Definition size_served (e : FileEntry) : FileEntry :=
  if Bitmap.npages_ (servedOnce_ e) =? 0 then set_servedOnce (Bitmap.reset (npages (meta_ e))) e else e.
Definition plan_locked (off len : Z) (account : bool) (first last_ : Z) (out : bytes) (e : FileEntry)
    : (bool * Plan) * FileEntry :=
  let '(ok, pl) := plan_loop off len account (zrange first (last_ + 1))
                     (mkPlan (size_served e) out acct0 [] []) in
  ((ok, pl), p_e pl).

(** Published at every exit; the pools move with the marks whatever happens. *)
Definition publish (account servedOk : bool) (a : Acct) : M St unit :=
  do_ when (negb (specServed a =? 0)) (do_ add_specTotal (- specServed a); add_bufTotal (specServed a));
  if negb account then ret tt
  else
    do_ when (negb (specServed a =? 0) && servedOk)
          (do_ bump prefetchServedBytes (specServed a); bump o_prefetchServed (specServed a));
    do_ when (negb (ramB a =? 0)) (do_ bump ramHitBytes (ramB a); bump o_ramBytes (ramB a));
    do_ when (negb (dReads a =? 0))
          (do_ bump hitDiskReads (dReads a); do_ bump hitDiskBytes (dBytes a); do_ bump hitDiskSeq (dSeq a);
           do_ bump o_diskReads (dReads a); do_ bump o_diskBytes (dBytes a); bump o_diskSeq (dSeq a));
    when (negb (ftB a =? 0)) (do_ bump firstTouchBytes (ftB a); bump o_firstTouchBytes (ftB a)).

Definition swap_disk_end (v : Z) : M St Z := locked (fun e => (lastDiskEnd_ e, set_lastDiskEnd v e)).

(** The reads, one per run; [false] as soon as one does not verify. *)
Fixpoint read_runs (m : MetaData) (off len : Z) (crcs : list Z) (runs : list Run) (out : bytes) (a : Acct)
    : M St (bool * bytes * Acct) :=
  match runs with
  | [] => ret (true, out, a)
  | r :: runs' =>
      let rStart := firstPage r *% pageSize m in
      let rBytes := runBytes m (firstPage r) (lastPage r) in
      let direct := (off <=? rStart) && (rStart +% rBytes <=? off +% len) in
      do vb <- readVerifyRun (firstPage r) (lastPage r) (drop (Z.to_nat (crcBase r)) crcs);
      let '(ok, b) := vb in
      if negb ok then ret (false, out, a)
      else
        let cStart := Z.max off rStart in
        let cEnd := Z.min (off +% len) (rStart +% rBytes) in
        let out := if direct then zsplice out (rStart -% off) b
                   else zsplice out (cStart -% off) (zsub b (cStart -% rStart) (cEnd -% cStart)) in
        do prevEnd <- swap_disk_end (rStart +% rBytes);
        read_runs m off len crcs runs' out
          (mkAcct (ramB a) (ftB a) (dReads a +% 1) (dBytes a +% rBytes)
             (if rStart =? prevEnd then dSeq a +% 1 else dSeq a) (specServed a))
  end.

(** first_touch of the pages read from disk. *)
Definition touch_page (off len : Z) (ea : FileEntry * Z) (i : Z) : FileEntry * Z :=
  let '(e, ft) := ea in
  if Bitmap.get (servedOnce_ e) i then ea
  else
    let pStart := i *% pageSize (meta_ e) in
    (set_servedOnce (Bitmap.set (servedOnce_ e) i) e,
     ft +% (Z.min (off +% len) (pStart +% pageBytes (meta_ e) i) -% Z.max off pStart)).
Definition touch_runs (off len : Z) (runs : list Run) (ft : Z) (e : FileEntry) : Z * FileEntry :=
  let '(e, ft) := foldl (touch_page off len) (e, ft)
    (concat (map (fun r => zrange (firstPage r) (lastPage r + 1)) runs)) in (ft, e).

(** [out] is the caller's buffer ([len] bytes); verdict and the buffer after (which
    a caller must not use when the verdict is [false]). *)
Definition readCached (off len : Z) (out : bytes) (account : bool) : M St (bool * bytes) :=
  do_ when account noteActivity;
  if len =? 0 then ret (true, out)
  else
    do e <- getE;
    let m := meta_ e in
    if (off +% len <? off) || (fileSize m <? off +% len) then ret (false, out)
    else
      let first := off / pageSize m in
      let last_ := (off +% len -% 1) / pageSize m in
      do bp <- locked (plan_locked off len account first last_ out);
      let '(present, pl) := bp in
      if negb present then do_ publish account false (p_acct pl); ret (false, p_out pl)
      else
        do res <- read_runs m off len (p_crcs pl) (p_runs pl) (p_out pl) (p_acct pl);
        let '(ok, out, a) := res in
        if negb ok then do_ publish account false a; ret (false, out)
        else
          do a <- (if negb (bool_decide (p_runs pl = [])) && account then
                     do ft <- locked (touch_runs off len (p_runs pl) (ftB a));
                     ret (mkAcct (ramB a) ft (dReads a) (dBytes a) (dSeq a) (specServed a))
                   else ret a);
          do_ publish account true a;
          if negb account then ret (true, out)
          else
            do_ touchAtime;
            do_ bump hitBytes len;
            do_ bump o_servedBytes len;
            ret (true, out).

(** CRC scrub over all present pages. *)
Fixpoint verify_all (l : list Z) (checked bad : Z) : M St (Z * Z) :=
  match l with
  | [] => ret (checked, bad)
  | i :: l' =>
      do e <- getE;
      if negb (Bitmap.get (bitmap (meta_ e)) i) then verify_all l' checked bad
      else
        do vb <- readVerifyRun i i [zget (pageCrcs (meta_ e)) i];
        verify_all l' (checked +% 1) (if fst vb : bool then bad else bad +% 1)
  end.
Definition verifyAll : M St (Z * Z) :=
  do e <- getE;
  do res <- verify_all (zrange 0 (npages (meta_ e))) 0 0;
  do_ when (negb (snd res =? 0)) (flushMeta true);
  ret res.

(** ** The write path *)

(** One full page of a fill: (entry, bytes staged, bytes a prediction had). *)
Definition stage_page (off : Z) (inb : bytes) (st : FileEntry * Z * Z) (i : Z) : FileEntry * Z * Z :=
  let '(e, staged, covered) := st in
  let m := meta_ e in
  let nbytes := pageBytes m i in
  match buf_ e !! i with
  | Some p =>
      if spec p then (unmarkSpeculative true i p nbytes e, staged, covered +% nbytes) else st
  | None =>
      if Bitmap.get (bitmap m) i || has (flushing_ e) i then st
      else
        let d := zsub inb (i *% pageSize m -% off) nbytes in
        (set_bufBytes (bufBytes_ e +% nbytes)
           (set_buf (<[i := mkBufPage d (crc 0 d) false false]> (buf_ e)) e),
         staged +% nbytes, covered)
  end.
Definition stage_locked (off end_ : Z) (inb : bytes) (e : FileEntry) : (Z * Z) * FileEntry :=
  let '(e', staged, covered) := foldl (stage_page off inb) (e, 0, 0) (fullPages (meta_ e) off end_) in
  ((staged, covered), e').

(** One page of the unbuffered path: written unless present; [None] stops. *)
Fixpoint direct_pages (m : MetaData) (fd off : Z) (inb : bytes) (l : list Z)
    (done : list (Z * Z)) (written : Z) : M St (list (Z * Z) * Z) :=
  match l with
  | [] => ret (done, written)
  | i :: l' =>
      do e <- getE;
      if Bitmap.get (bitmap (meta_ e)) i then direct_pages m fd off inb l' done written
      else
        let nbytes := pageBytes m i in
        let pStart := i *% pageSize m in
        let d := zsub inb (pStart -% off) nbytes in
        do w <- io (pwriteFull fd d pStart);
        if negb (w =? nbytes) then do_ bump failopenEvents 1; ret (done, written)
        else direct_pages m fd off inb l' (done ++ [(i, crc 0 d)]) (written +% nbytes)
  end.
Definition publish_done (done : list (Z * Z)) (e : FileEntry) : FileEntry :=
  mark_if_complete (set_dirty true (foldl (fun e pc => publishPage e (fst pc) (snd pc)) e done)).

Definition writePagesDirect (off len : Z) (inb : bytes) : M St unit :=
  do_ noteActivity;
  if len =? 0 then ret tt
  else
    do e <- getE;
    let m := meta_ e in
    let end_ := Z.min (off +% len) (fileSize m) in
    if end_ <=? off then ret tt
    else
      do dw <- direct_pages m (dataFd_ e) off inb (fullPages m off end_) [] 0;
      let '(done, written) := dw in
      match done with
      | [] => ret tt
      | _ =>
          do rc <- (if decide (Config.fsync cfg = Config.FsOff) then ret 0
                    else io (io_fdatasync (dataFd_ e)));
          if rc <? 0 then bump failopenEvents 1
          else
            do_ modE (publish_done done);
            do_ bump pageWrites (zlen done);
            do_ bump o_wireBytes written;
            do_ touchAtime;
            do_ flushMeta false;
            if onPersist_ e then fire [OnPersist written true] else ret tt
      end.

Definition writePages (off len : Z) (inb : bytes) : M St unit :=
  do_ noteActivity;
  if Config.fillBufferMb cfg <=? 0 then writePagesDirect off len inb
  else if len =? 0 then ret tt
  else
    do e <- getE;
    let end_ := Z.min (off +% len) (fileSize (meta_ e)) in
    if end_ <=? off then ret tt
    else
      do sc <- locked (stage_locked off end_ inb);
      let '(staged, covered) := sc in
      do_ when (negb (covered =? 0))
        (do_ add_specTotal (- covered); do_ add_bufTotal covered;
         do_ bump prefetchServedBytes covered; do_ bump prefetchRefetchedBytes covered;
         bump o_prefetchServed covered);
      if staged =? 0 then ret tt
      else
        do_ add_bufTotal staged;
        do_ bump o_wireBytes staged;
        do_ touchAtime;
        flushBuffer false.

(** *** Speculative pages *)
Definition spec_page (off : Z) (inb : bytes) (st : FileEntry * Z) (i : Z) : FileEntry * Z :=
  let '(e, staged) := st in
  let m := meta_ e in
  let nbytes := pageBytes m i in
  if pageHere e i then st
  else
    let d := zsub inb (i *% pageSize m -% off) nbytes in
    (set_specBytes (specBytes_ e +% nbytes)
       (set_buf (<[i := mkBufPage d (crc 0 d) true false]> (buf_ e)) e), staged +% nbytes).
Definition spec_locked (off end_ : Z) (inb : bytes) (e : FileEntry) : Z * FileEntry :=
  let '(e', staged) := foldl (spec_page off inb) (e, 0) (fullPages (meta_ e) off end_) in (staged, e').

Definition stageSpeculative (off len : Z) (inb : bytes) : M St Z :=
  if (len =? 0) || (Config.fillBufferMb cfg <=? 0) then ret 0
  else
    do e <- getE;
    let end_ := Z.min (off +% len) (fileSize (meta_ e)) in
    if end_ <=? off then ret 0
    else
      do staged <- locked (spec_locked off end_ inb);
      do_ when (negb (staged =? 0)) (add_specTotal staged);
      ret staged.

Definition noteSpeculativeDropped (n : Z) : M St unit :=
  do_ add_specDropped n; do_ bump prefetchDroppedUnread n; bump o_prefetchDropped n.

Definition dropSpeculative (off len : Z) : M St Z :=
  if (len =? 0) || (off +% len <? off) then ret 0
  else
    do e <- getE;
    let m := meta_ e in
    let end_ := Z.min (off +% len) (fileSize m) in
    if end_ <=? off then ret 0
    else
      let firstPage := inner_first m off in
      let stopPage := inner_stop m end_ in
      if stopPage <=? firstPage then ret 0
      else
        do du <- locked (fun e => let '(e', dropped, unread) := erase_spec firstPage stopPage e in
                                  ((dropped, unread), e'));
        let '(dropped, unread) := du in
        do_ when (negb (dropped =? 0)) (add_specTotal (- dropped));
        do_ when (negb (unread =? 0)) (noteSpeculativeDropped unread);
        ret dropped.
Definition dropAllSpeculative : M St Z :=
  do e <- getE; dropSpeculative 0 (fileSize (meta_ e)).

Definition consume_locked (off end_ : Z) (e : FileEntry) : Z * FileEntry :=
  let m := meta_ e in
  let firstPage := inner_first m off in
  let stopPage := inner_stop m end_ in
  let e := foldl (mark_touched firstPage stopPage) e [off / pageSize m; (end_ -% 1) / pageSize m] in
  let '(e', used, _) := erase_spec firstPage stopPage e in
  (used, e').
Definition consumeSpeculative (off len : Z) : M St Z :=
  if (len =? 0) || (off +% len <? off) then ret 0
  else
    do e <- getE;
    let end_ := Z.min (off +% len) (fileSize (meta_ e)) in
    if end_ <=? off then ret 0
    else
      do used <- locked (consume_locked off end_);
      do_ when (negb (used =? 0))
        (do_ add_specTotal (- used); do_ bump prefetchServedBytes used; bump o_prefetchServed used);
      ret used.

(** ** Gate, pin, punch *)
Definition beginFetch (off len cb : Z) : M St bool :=
  do own <- locked (beginFetch_locked off len cb);
  do_ when (negb own) (bump fetchesJoined 1);
  ret own.
Definition waitForInFlight (ranges : list (Z * Z)) (cb : Z) : M St bool :=
  do parked <- locked (waitForInFlight_locked ranges cb);
  do_ when parked (bump fetchesJoined 1);
  ret parked.

Definition pin_locked (p : bool) (e : FileEntry) : FileEntry :=
  let f := flags (meta_ e) in
  let f := if p then Z.lor f kFlagPinned else Z.land f (not_flag kFlagPinned) in
  set_dirty true (set_pinTouched true (set_meta (set_flags f (meta_ e)) e)).
Definition setPinned (p : bool) : M St unit := do_ modE (pin_locked p); flushMeta true.

(** Locals of [releaseRanges] under the lock; the two pools' subtractions are
    collected and applied by the caller. *)
Record Rel := mkRel { r_e : FileEntry; r_spans : list (Z * Z); r_resident : list Z; r_any : bool;
                      r_specDropped : Z; r_subSpec : Z; r_subBuf : Z }.

Definition drop_staged (r : Rel) (i : Z) : Rel :=
  let e := r_e r in
  match buf_ e !! i with
  | None => r
  | Some p =>
      let nb := pageBytes (meta_ e) i in
      let e' := set_buf (delete i (buf_ e)) e in
      if spec p
      then mkRel (set_specBytes (specBytes_ e -% nb) e') (r_spans r) (r_resident r) (r_any r)
             (if touched p then r_specDropped r else r_specDropped r +% nb) (r_subSpec r + nb) (r_subBuf r)
      else mkRel (set_bufBytes (bufBytes_ e -% nb) e') (r_spans r) (r_resident r) (r_any r)
             (r_specDropped r) (r_subSpec r) (r_subBuf r + nb)
  end.
Definition release_page (rr : Rel * Z) (i : Z) : Rel * Z :=
  let r := drop_staged (fst rr) i in
  let e := r_e r in
  if negb (Bitmap.get (bitmap (meta_ e)) i) then (r, snd rr)
  else (mkRel (retractPage e i) (r_spans r) (r_resident r) true (r_specDropped r) (r_subSpec r) (r_subBuf r),
        snd rr +% pageBytes (meta_ e) i).
Definition release_range (r : Rel) (rg : Z * Z) : Rel :=
  let '(off, len) := rg in
  let m := meta_ (r_e r) in
  let P := pageSize m in
  if (len =? 0) || (off +% len <? off) || (fileSize m <? off +% len) then r
  else
    let first := (off +% P -% 1) / P in
    let lastEnd := (off +% len) / P in
    if lastEnd <=? first then r
    else
      let '(r, res) := foldl release_page (r, 0) (zrange first lastEnd) in
      mkRel (clear_complete (r_e r)) (r_spans r ++ [(first *% P, (lastEnd -% first) *% P)])
        (r_resident r ++ [res]) (r_any r) (r_specDropped r) (r_subSpec r) (r_subBuf r).
Definition release_locked (ranges : list (Z * Z)) (e : FileEntry) : Rel * FileEntry :=
  let r := foldl release_range (mkRel e [] [] false 0 0 0) ranges in
  (r, if r_any r then set_dirty true (r_e r) else r_e r).

Fixpoint punch_spans (fd : Z) (spans : list (Z * Z)) (resident : list Z) (punched : Z) : M St Z :=
  match spans, resident with
  | (off, len) :: spans', res :: resident' =>
      do rc <- io (io_punchHole fd off len);
      punch_spans fd spans' resident' (if rc =? 0 then punched +% res else punched)
  | _, _ => ret punched
  end.

Definition releaseRanges (ranges : list (Z * Z)) : M St Z :=
  do r <- locked (release_locked ranges);
  do_ add_specTotal (- r_subSpec r);
  do_ add_bufTotal (- r_subBuf r);
  do_ when (negb (r_specDropped r =? 0)) (noteSpeculativeDropped (r_specDropped r));
  match r_spans r with
  | [] => ret 0
  | _ =>
      do_ flushMeta true;
      do e <- getE;
      punch_spans (dataFd_ e) (r_spans r) (r_resident r) 0
  end.

(** ** Open and close *)

(** The handle [open] returns: [meta_] adopted or fresh. *)
Definition fresh_entry (fd : Z) (hook : bool) (m : MetaData) (dirty : bool) (now : Z) : FileEntry :=
  mkEntry (UrlKey.dataPath ukey (Config.cacheDir cfg)) (UrlKey.metaPath ukey (Config.cacheDir cfg))
    fd hook false m dirty now (Bitmap.reset (npages m)) (Bitmap.reset (npages m)) false
    ∅ ∅ 0 0 now false ∅ [] [] (Bitmap.reset 0) (p64 - 1).

(** [open] runs before there is an entry: over the backend, with the counters it
    moves as its second result. *)
Definition open (now originSize originMtime_ cksumKind_ originCksum_ : Z) (hook : bool)
    : M W (option FileEntry * list ctr) :=
  let adopts m := adoptable m originSize originMtime_ cksumKind_ originCksum_ in
  let metaPath := UrlKey.metaPath ukey (Config.cacheDir cfg) in
  do rc <- io_mkdirs (UrlKey.objectDir ukey (Config.cacheDir cfg));
  if rc <? 0 then ret (None, [])
  else
    do fd <- io_open (UrlKey.dataPath ukey (Config.cacheDir cfg)) O_RDWR_CREAT;
    if fd <? 0 then ret (None, [])
    else
      do_ io_flock fd LOCK_SH;
      do loaded <- load metaPath;
      do_ io_flock fd LOCK_UN;
      let adopt l := match l with Some m => if adopts m then Some m else None | None => None end in
      match adopt loaded with
      | Some m => ret (Some (fresh_entry fd hook m false now), [opens])
      | None =>
          do_ io_flock fd LOCK_EX;
          do loaded <- load metaPath;
          match adopt loaded with
          | Some m => do_ io_flock fd LOCK_UN; ret (Some (fresh_entry fd hook m false now), [opens])
          | None =>
              do why <- (match loaded with
                | Some _ => ret [validationsFailed]
                | None => do st <- io_stat metaPath; ret (if fst st =? 0 then [metaCorrupt] else [])
                end);
              do t0 <- io_ftruncate fd 0;
              do t1 <- (if t0 <? 0 then ret t0 else io_ftruncate fd originSize);
              if (t0 <? 0) || (t1 <? 0) then
                do_ io_flock fd LOCK_UN; do_ io_close fd; ret (None, why)
              else
                let m := set_origin originMtime_ cksumKind_ originCksum_
                           (fresh now (UrlKey.key ukey) originSize (Config.pageSize cfg)) in
                do rc <- store metaPath m (bool_decide (Config.fsync cfg = Config.FsAll));
                do_ io_flock fd LOCK_UN;
                if rc =? 0 then ret (Some (fresh_entry fd hook m false now), why ++ [opens])
                else ret (Some (fresh_entry fd hook m true now), why ++ [failopenEvents; opens])
          end
      end.

(** The destructor, up to the close-time record. *)
Definition close : M St unit :=
  do_ modE (set_closing true);
  do _ <- dropAllSpeculative;
  do_ flushAll;
  do e <- getE;
  do_ (if 0 <=? dataFd_ e then do _ <- io (io_close (dataFd_ e)); ret tt else ret tt);
  when (negb (bufBytes_ e =? 0)) (add_bufTotal (- bufBytes_ e)).
End ops.
End Entry.
