(* ===== verification/FileEntryInv.v ===== *)
(** * Invariants of an entry under any interleaving (FileEntry)

    Every public method of [FileEntry] changes the entry only inside sections
    that hold its mutex. [step] has one constructor per locked section, with
    arguments as free as the callers leave them, so a run of [step]s is an
    arbitrary interleaving of the methods of any number of threads. [Inv] is
    what holds between any two of them: the bitmaps and the CRC table have the
    file's geometry, the pages set and the pages cleared since the last commit
    are disjoint, every staged page holds exactly its page's bytes and their
    CRC, no speculative page is in the snapshot being written, and the two byte
    counters are the sums over the stage. *)

From S2P Require Import Prelude IOBackend Crc32c PageBitmap Config MetaFile UrlKey FileEntry.

Module EntryInv.
Import Meta Entry.

(** ** Sums over a stage *)
Definition msum (w : Z -> BufPage -> Z) (b : gmap Z BufPage) : Z := map_fold (fun i p n => w i p + n) 0 b.

Section msum.
Context (w : Z -> BufPage -> Z).

Lemma msum_empty : msum w ∅ = 0.
Proof. apply map_fold_empty. Qed.

Lemma msum_insert b i p : b !! i = None -> msum w (<[i := p]> b) = w i p + msum w b.
Proof. intros. unfold msum. rewrite map_fold_insert_L; [done|intros; lia|done]. Qed.

Lemma msum_delete b i p : b !! i = Some p -> msum w b = w i p + msum w (delete i b).
Proof.
  intros H. rewrite <- msum_insert by apply lookup_delete_eq.
  by rewrite insert_delete_id.
Qed.

Lemma msum_update b i p q : b !! i = Some p -> msum w (<[i := q]> b) = w i q - w i p + msum w b.
Proof.
  intros H. rewrite <- insert_delete_eq, msum_insert by apply lookup_delete_eq.
  rewrite (msum_delete b i p H). lia.
Qed.

Lemma msum_filter (Q : Z * BufPage -> Prop) `{!forall x, Decision (Q x)} b :
  msum w b = msum w (filter Q b) + msum w (filter (fun kv => ~ Q kv) b).
Proof.
  induction b as [|i p b Hi IH] using map_ind; [by rewrite !map_filter_empty, msum_empty|].
  rewrite msum_insert, IH by done. destruct (decide (Q (i, p))).
  - rewrite map_filter_insert_True, map_filter_insert_False, delete_id by (done || tauto).
    rewrite msum_insert; [lia|]. apply map_lookup_filter_None. by left.
  - rewrite map_filter_insert_False, delete_id, map_filter_insert_True by done.
    rewrite msum_insert; [lia|]. apply map_lookup_filter_None. by left.
Qed.
End msum.

Lemma msum_ext w w' b : (forall i p, b !! i = Some p -> w i p = w' i p) -> msum w b = msum w' b.
Proof.
  induction b as [|i p b Hi IH] using map_ind; intros H; [done|].
  rewrite !msum_insert by done. rewrite (H i p) by apply lookup_insert_eq. rewrite IH; [done|].
  intros j q Hj. apply H. rewrite lookup_insert_ne; [done|]. intros ->. congruence.
Qed.

Lemma msum_0 w b : (forall i p, b !! i = Some p -> w i p = 0) -> msum w b = 0.
Proof.
  intros H. rewrite (msum_ext _ (fun _ _ => 0)) by done. clear H.
  induction b as [|i p b Hi IH] using map_ind; [done|]. by rewrite msum_insert, IH.
Qed.

Lemma msum_bound w b n c :
  (forall i p, b !! i = Some p -> 0 <= i < n /\ 0 <= w i p <= c) -> 0 <= c -> 0 <= n -> 0 <= msum w b <= n * c.
Proof.
  intros H Hc Hn.
  assert (0 <= msum w b <= Z.of_nat (size b) * c) as Hs.
  { induction b as [|i p b Hi IH] using map_ind; [rewrite msum_empty; lia|].
    rewrite msum_insert, map_size_insert_None by done.
    specialize (H i p (lookup_insert_eq _ _ _)) as Hp.
    assert (0 <= msum w b <= Z.of_nat (size b) * c); [|lia].
    apply IH. intros j q Hj. apply H. rewrite lookup_insert_ne; [done|]. intros ->. congruence. }
  assert (Z.of_nat (size b) <= n); [|nia].
  rewrite <- size_dom.
  assert (dom b ⊆ (list_to_set (zrange 0 n) : gset Z)) as Hd.
  { intros i [p Hp]%elem_of_dom. apply elem_of_list_to_set, elem_of_zrange. by apply (H i p). }
  apply subseteq_size in Hd. rewrite size_list_to_set in Hd by apply NoDup_zrange.
  pose proof (zlen_zrange 0 n). unfold zlen in *. lia.
Qed.
(** ** The invariant *)
Section inv.
Context `{CK : Checksum}.
Context (P fs : Z) (HP : Config.validPageSize P = true) (Hfs : 0 <= fs < p63).

Definition np : Z := npages_of P fs.
(** Bytes of page [i] (the tail page may be short). *)
Definition pb (i : Z) : Z := w32 (Z.min (i *% P +% P) fs -% i *% P).

Lemma P_range : 4096 <= P <= 1048576.
Proof using HP. by apply validPageSize_range. Qed.
Lemma np_bound : 0 <= np < 2 ^ 52 /\ np * P < fs + P /\ fs <= np * P.
Proof using HP Hfs. apply npages_of_range; [apply P_range|done]. Qed.

Lemma pb_plain i : 0 <= i < np ->
  i *% P = i * P /\ i * P < fs /\ pb i = Z.min P (fs - i * P) /\ 0 < pb i <= P.
Proof using HP Hfs.
  intros Hi. pose proof P_range. destruct np_bound as (? & ? & ?).
  assert (i * P < fs) by nia. assert (0 <= i * P) by nia.
  assert (pb i = Z.min P (fs - i * P)) as E.
  { unfold pb. rewrite (w64_small (i * P)), (w64_small (i * P + P)) by lia.
    rewrite w64_small, w32_small by lia. lia. }
  rewrite E. split; [apply w64_small; lia|]. lia.
Qed.

Definition bm_ok (b : PageBitmap) : Prop := Bitmap.wf b /\ Bitmap.npages_ b = np.
Definition meta_ok (m : MetaData) : Prop :=
  pageSize m = P /\ fileSize m = fs /\ bm_ok (bitmap m) /\ zlen (pageCrcs m) = np.
Definition page_ok (i : Z) (p : BufPage) : Prop :=
  0 <= i < np /\ zlen (data p) = pb i /\ bcrc p = crc 0 (data p) /\ Forall is_byte (data p).
Definition real (i : Z) (p : BufPage) : Z := if spec p then 0 else pb i.
Definition specw (i : Z) (p : BufPage) : Z := if spec p then pb i else 0.

Record Inv (e : FileEntry) : Prop := mkInv {
  i_meta : meta_ok (meta_ e);
  i_set : bm_ok (setSince_ e);
  i_clr : bm_ok (clearedSince_ e);
  i_disj : forall i, 0 <= i < np -> Bitmap.get (setSince_ e) i = true -> Bitmap.get (clearedSince_ e) i = false;
  i_buf : forall i p, buf_ e !! i = Some p -> page_ok i p;
  i_fl : forall i p, flushing_ e !! i = Some p -> page_ok i p /\ spec p = false;
  i_apart : forall i, is_Some (buf_ e !! i) -> flushing_ e !! i = None;
  i_real : bufBytes_ e = msum real (buf_ e);
  i_spec : specBytes_ e = msum specw (buf_ e);
  i_prog : flushInProgress_ e = false -> flushing_ e = ∅;
  i_served : Bitmap.npages_ (servedOnce_ e) = 0 \/ bm_ok (servedOnce_ e)
}.

Lemma meta_ok_geom m : meta_ok m -> geom m.
Proof using HP Hfs. intros (H1 & H2 & _). split; [by rewrite H1|by rewrite H2]. Qed.
Lemma meta_ok_npages m : meta_ok m -> npages m = np.
Proof using. intros (H1 & H2 & _). unfold npages, np. by rewrite H1, H2. Qed.
Lemma meta_ok_pb m i : meta_ok m -> pageBytes m i = pb i.
Proof using. intros (H1 & H2 & _). unfold pageBytes, pb. by rewrite H1, H2. Qed.

(** *** Bitmaps of the file's geometry *)
Lemma bm_set b i : bm_ok b -> 0 <= i < np -> bm_ok (Bitmap.set b i).
Proof using.
  intros [Hw Hn] Hi. split; [apply Bitmap.set_wf; [done|lia]|]. by rewrite Bitmap.npages_set.
Qed.
Lemma bm_clear b i : bm_ok b -> 0 <= i < np -> bm_ok (Bitmap.clear b i).
Proof using.
  intros [Hw Hn] Hi. split; [apply Bitmap.clear_wf; [done|lia]|]. by rewrite Bitmap.npages_clear.
Qed.
Lemma bm_clearAll b : bm_ok b -> bm_ok (Bitmap.clearAll b).
Proof using. intros [Hw Hn]. split; [by apply Bitmap.clearAll_wf|done]. Qed.
Lemma bm_reset : bm_ok (Bitmap.reset np).
Proof using HP Hfs.
  split; [|done]. apply Bitmap.reset_wf. destruct np_bound as [H _].
  change (2 ^ 52) with 4503599627370496 in H. lia.
Qed.
Lemma bm_get_set b i j : bm_ok b -> 0 <= i < np -> 0 <= j < np ->
  Bitmap.get (Bitmap.set b i) j = if decide (i = j) then true else Bitmap.get b j.
Proof using. intros [Hw Hn] Hi Hj. apply Bitmap.get_set; [done|lia|lia]. Qed.
Lemma bm_get_clear b i j : bm_ok b -> 0 <= i < np -> 0 <= j < np ->
  Bitmap.get (Bitmap.clear b i) j = if decide (i = j) then false else Bitmap.get b j.
Proof using. intros [Hw Hn] Hi Hj. apply Bitmap.get_clear; [done|lia|lia]. Qed.

(** *** The byte counters cannot wrap *)
Lemma msum_stage w b :
  (forall i p, 0 <= i < np -> 0 <= w i p <= P) -> (forall i p, b !! i = Some p -> page_ok i p) ->
  0 <= msum w b < p63 + 1048576.
Proof using HP Hfs.
  intros Hw Hb. pose proof P_range. destruct np_bound as (? & ? & ?).
  destruct (msum_bound w b np P) as [? ?]; [|lia|lia|split; [done|lia]].
  intros i p Hp. destruct (Hb i p Hp) as [Hi _]. split; [done|]. by apply Hw.
Qed.
Lemma real_range i p : 0 <= i < np -> 0 <= real i p <= P.
Proof using HP Hfs. intros Hi. destruct (pb_plain i Hi) as (_ & _ & _ & ?). unfold real. destruct (spec p); lia. Qed.
Lemma specw_range i p : 0 <= i < np -> 0 <= specw i p <= P.
Proof using HP Hfs. intros Hi. destruct (pb_plain i Hi) as (_ & _ & _ & ?). unfold specw. destruct (spec p); lia. Qed.

(** *** One page in or out of the stage *)
Lemma stage_insert e i p :
  Inv e -> buf_ e !! i = None -> flushing_ e !! i = None -> page_ok i p ->
  Inv (set_bufBytes (bufBytes_ e +% real i p) (set_specBytes (specBytes_ e +% specw i p)
         (set_buf (<[i := p]> (buf_ e)) e))).
Proof using HP Hfs.
  intros [] Hb Hf Hp.
  assert (forall j q, <[i := p]> (buf_ e) !! j = Some q -> page_ok j q) as Hok.
  { intros j q [[<- <-]|[? ?]]%lookup_insert_Some; eauto. }
  split; cbn; auto.
  - intros j [q [[<- _]|[? ?]]%lookup_insert_Some]; eauto.
  - pose proof (msum_stage real _ real_range Hok) as B. rewrite msum_insert in * by done.
    rewrite i_real0, Z.add_comm. apply w64_small. lia.
  - pose proof (msum_stage specw _ specw_range Hok) as B. rewrite msum_insert in * by done.
    rewrite i_spec0, Z.add_comm. apply w64_small. lia.
Qed.

Lemma stage_delete e i p :
  Inv e -> buf_ e !! i = Some p ->
  Inv (set_bufBytes (bufBytes_ e -% real i p) (set_specBytes (specBytes_ e -% specw i p)
         (set_buf (delete i (buf_ e)) e))).
Proof using HP Hfs.
  intros [] Hb.
  assert (forall j q, delete i (buf_ e) !! j = Some q -> page_ok j q) as Hok.
  { intros j q [? ?]%lookup_delete_Some; eauto. }
  split; cbn; auto.
  - intros j [q [? ?]%lookup_delete_Some]; eauto.
  - pose proof (msum_stage real _ real_range Hok) as B. rewrite (msum_delete _ _ _ _ Hb) in i_real0.
    rewrite i_real0. rewrite w64_small; lia.
  - pose proof (msum_stage specw _ specw_range Hok) as B. rewrite (msum_delete _ _ _ _ Hb) in i_spec0.
    rewrite i_spec0. rewrite w64_small; lia.
Qed.

Lemma stage_update e i p q :
  Inv e -> buf_ e !! i = Some p -> page_ok i q ->
  Inv (set_bufBytes (bufBytes_ e +% (real i q - real i p)) (set_specBytes (specBytes_ e +% (specw i q - specw i p))
         (set_buf (<[i := q]> (buf_ e)) e))).
Proof using HP Hfs.
  intros [] Hb Hq.
  assert (forall j r, <[i := q]> (buf_ e) !! j = Some r -> page_ok j r) as Hok.
  { intros j r [[<- <-]|[? ?]]%lookup_insert_Some; eauto. }
  split; cbn; auto.
  - intros j [r [[<- _]|[? ?]]%lookup_insert_Some]; eauto.
  - pose proof (msum_stage real _ real_range Hok) as B. rewrite (msum_update _ _ _ _ _ Hb) in *.
    rewrite i_real0, Z.add_comm. apply w64_small. lia.
  - pose proof (msum_stage specw _ specw_range Hok) as B. rewrite (msum_update _ _ _ _ _ Hb) in *.
    rewrite i_spec0, Z.add_comm. apply w64_small. lia.
Qed.

(** *** Presence transitions *)
Lemma zlen_set_page b i c m : zlen (pageCrcs (set_page b i c m)) = zlen (pageCrcs m).
Proof using. cbn. apply zlen_zset. Qed.

Lemma meta_ok_page m b i c : meta_ok m -> bm_ok b -> meta_ok (set_page b i c m).
Proof using. intros (? & ? & ? & ?) Hb. do 3 (split; [done|]). by rewrite zlen_set_page. Qed.

Lemma publishPage_inv e pg c : Inv e -> 0 <= pg < np -> Inv (publishPage e pg c).
Proof using HP Hfs.
  intros [] Hp. split; cbn; auto using bm_set, bm_clear.
  - apply meta_ok_page; [done|]. apply bm_set; [apply i_meta0|done].
  - intros i Hi. rewrite bm_get_set, bm_get_clear by done. case_decide; auto.
Qed.

Lemma retractPage_inv e pg : Inv e -> 0 <= pg < np -> Inv (retractPage e pg).
Proof using HP Hfs.
  intros [] Hp. split; cbn; auto using bm_set, bm_clear.
  - apply meta_ok_page; [done|]. apply bm_clear; [apply i_meta0|done].
  - intros i Hi. rewrite bm_get_set, bm_get_clear by done. case_decide; [done|auto].
Qed.

(** Changes outside what the invariant speaks of. *)
Lemma Inv_frame e e' :
  Inv e -> meta_ok (meta_ e') ->
  setSince_ e' = setSince_ e -> clearedSince_ e' = clearedSince_ e -> buf_ e' = buf_ e ->
  flushing_ e' = flushing_ e -> bufBytes_ e' = bufBytes_ e -> specBytes_ e' = specBytes_ e ->
  flushInProgress_ e' = flushInProgress_ e -> servedOnce_ e' = servedOnce_ e -> Inv e'.
Proof using.
  intros [] Hm E1 E2 E3 E4 E5 E6 E7 E8.
  split; rewrite ?E1, ?E2, ?E3, ?E4, ?E5, ?E6, ?E7, ?E8; auto.
Qed.

Lemma Inv_fold {A} (f : FileEntry -> A -> FileEntry) l e :
  (forall e x, x ∈ l -> Inv e -> Inv (f e x)) -> Inv e -> Inv (foldl f e l).
Proof using.
  revert e. induction l as [|x l IH]; intros e Hf He; [done|]. cbn [foldl]. apply IH.
  - intros. apply Hf; [by right|done].
  - apply Hf; [by left|done].
Qed.
(** ** The locked sections *)

Lemma counters_range e : Inv e -> 0 <= bufBytes_ e < p64 /\ 0 <= specBytes_ e < p64.
Proof using HP Hfs.
  intros []. pose proof (msum_stage real _ real_range i_buf0). pose proof (msum_stage specw _ specw_range i_buf0).
  rewrite i_real0, i_spec0. lia.
Qed.

(** Replacing a staged page by one with the same mark. *)
Lemma stage_replace e i p q :
  Inv e -> buf_ e !! i = Some p -> page_ok i q -> spec q = spec p -> Inv (set_buf (<[i := q]> (buf_ e)) e).
Proof using HP Hfs.
  intros He Hb Hq Hs. pose proof (counters_range e He).
  pose proof (stage_update e i p q He Hb Hq) as H1. unfold real, specw in H1. rewrite Hs, !Z.sub_diag, !Z.add_0_r in H1.
  rewrite !w64_small in H1 by lia. destruct H1. split; auto.
Qed.

Lemma unmark_inv e i p n :
  Inv e -> buf_ e !! i = Some p -> spec p = true -> n = pageBytes (meta_ e) i ->
  Inv (unmarkSpeculative true i p n e).
Proof using HP Hfs.
  intros He Hb Hs ->. unfold unmarkSpeculative. cbn.
  rewrite (meta_ok_pb _ _ (i_meta _ He)).
  pose proof (stage_update e i p (mkBufPage (data p) (bcrc p) false (touched p)) He Hb (i_buf _ He i p Hb)) as H1.
  unfold real, specw in H1. rewrite Hs in H1. cbn [spec] in H1.
  rewrite Z.sub_0_r in H1. exact H1.
Qed.

Lemma staged_ok i inb off :
  0 <= i < np -> Forall is_byte inb -> 0 <= off -> off <= i * P -> i * P + pb i - off <= zlen inb ->
  page_ok i (mkBufPage (zsub inb (i *% P -% off) (pb i)) (crc 0 (zsub inb (i *% P -% off) (pb i))) false false) /\
  page_ok i (mkBufPage (zsub inb (i *% P -% off) (pb i)) (crc 0 (zsub inb (i *% P -% off) (pb i))) true false).
Proof using HP Hfs.
  intros Hi Hb Ho Hle Hlen. destruct (pb_plain i Hi) as (E & ? & ? & ?). rewrite E.
  rewrite (w64_small (i * P - off)) by lia.
  unfold page_ok. cbn [data bcrc]. repeat split; try lia; auto using Forall_zsub; rewrite zlen_zsub; lia.
Qed.

(** What the fill loops know of the page they are at. *)
Definition in_span (off end_ i : Z) : Prop := 0 <= i < np /\ off <= i * P /\ i * P + pb i <= end_.

Lemma fullPages_span m off end_ i :
  meta_ok m -> 0 <= off < fs -> end_ <= fs -> i ∈ fullPages m off end_ -> in_span off end_ i.
Proof using HP Hfs.
  intros Hm Hoff Hend Hin. pose proof P_range. pose proof (meta_ok_npages m Hm) as Hn.
  assert (forall l, (forall j, j ∈ l -> 0 <= j < np /\ off <= j * P) -> i ∈ full_from m end_ l -> in_span off end_ i) as G.
  { induction l as [|j l IH]; intros Hl Hi; [by apply elem_of_nil in Hi|]. cbn in Hi.
    destruct (negb _); [by apply elem_of_nil in Hi|].
    destruct (end_ <? _) eqn:E; [by apply elem_of_nil in Hi|]. b2p.
    apply elem_of_cons in Hi as [->|Hi]; [|apply IH; [intros; apply Hl; by right|done]].
    destruct (Hl j ltac:(by left)) as [Hj Hj2]. destruct (pb_plain j Hj) as (E1 & ? & ? & ?).
    rewrite (meta_ok_pb m j Hm) in E. destruct Hm as (HPm & _). rewrite HPm, E1, w64_small in E by lia. split; [done|]. lia. }
  apply (G _) in Hin; [done|]. intros j Hj%elem_of_zrange. destruct Hm as (E1 & _). rewrite E1 in Hj. rewrite Hn in Hj.
  rewrite (w64_small (off + P)), w64_small in Hj by lia.
  pose proof (Z.div_pos (off + P - 1) P). pose proof (Z.mod_pos_bound (off + P - 1) P).
  rewrite Z.mod_eq in * by lia. split; [lia|nia].
Qed.

Lemma stage_page_inv off end_ inb e st cv i :
  Inv e -> Forall is_byte inb -> 0 <= off -> end_ - off <= zlen inb -> in_span off end_ i ->
  Inv (fst (fst (stage_page off inb (e, st, cv) i))).
Proof using HP Hfs.
  intros He Hb Ho Hl (Hi & Hlo & Hhi). unfold stage_page. destruct (buf_ e !! i) as [p|] eqn:Ep.
  - destruct (spec p) eqn:Es; [|done]. cbn [fst]. by apply unmark_inv.
  - destruct (_ || _) eqn:E; [done|]. apply orb_false_iff in E as [_ Ef]. cbn [fst].
    assert (flushing_ e !! i = None) as Hf by (unfold has in Ef; by destruct (flushing_ e !! i)).
    rewrite (meta_ok_pb _ _ (i_meta _ He)). destruct (i_meta _ He) as (-> & _).
    destruct (staged_ok i inb off Hi Hb Ho Hlo ltac:(lia)) as [Hp _].
    pose proof (stage_insert e i _ He Ep Hf Hp) as H1. unfold real, specw in H1. cbn [spec] in H1.
    rewrite Z.add_0_r in H1. rewrite (w64_small (specBytes_ e)) in H1 by apply (counters_range e He).
    destruct H1. split; auto.
Qed.

Lemma spec_page_inv off end_ inb e st i :
  Inv e -> Forall is_byte inb -> 0 <= off -> end_ - off <= zlen inb -> in_span off end_ i ->
  Inv (fst (spec_page off inb (e, st) i)).
Proof using HP Hfs.
  intros He Hb Ho Hl (Hi & Hlo & Hhi). unfold spec_page, pageHere. destruct (_ || _) eqn:E; [done|].
  apply orb_false_iff in E as [E Ef]. apply orb_false_iff in E as [_ Eb]. cbn [fst].
  assert (flushing_ e !! i = None) as Hf by (unfold has in Ef; by destruct (flushing_ e !! i)).
  assert (buf_ e !! i = None) as Hbn by (unfold has in Eb; by destruct (buf_ e !! i)).
  rewrite (meta_ok_pb _ _ (i_meta _ He)). destruct (i_meta _ He) as (-> & _).
  destruct (staged_ok i inb off Hi Hb Ho Hlo ltac:(lia)) as [_ Hp].
  pose proof (stage_insert e i _ He Hbn Hf Hp) as H1. unfold real, specw in H1. cbn [spec] in H1.
  rewrite Z.add_0_r in H1. rewrite (w64_small (bufBytes_ e)) in H1 by apply (counters_range e He).
  destruct H1. split; auto.
Qed.

(** A fold whose state carries counters next to the entry. *)
Lemma Inv_fold_fst {A B} (f : FileEntry * B -> A -> FileEntry * B) l e b :
  (forall e b x, x ∈ l -> Inv e -> Inv (fst (f (e, b) x))) -> Inv e -> Inv (fst (foldl f (e, b) l)).
Proof using.
  revert e b. induction l as [|x l IH]; intros e b Hf He; [done|]. cbn [foldl].
  pose proof (Hf e b x ltac:(by left) He) as H1. destruct (f (e, b) x) as [e' b']. apply IH; [|done].
  intros. apply Hf; [by right|done].
Qed.

Lemma stage_locked_inv off end_ inb e :
  Inv e -> Forall is_byte inb -> 0 <= off < fs -> end_ <= fs -> end_ - off <= zlen inb ->
  Inv (snd (stage_locked off end_ inb e)).
Proof using HP Hfs.
  intros He Hb Ho Hend Hl. unfold stage_locked.
  assert (forall l e st cv, (forall i, i ∈ l -> in_span off end_ i) -> Inv e ->
    Inv (fst (fst (foldl (stage_page off inb) (e, st, cv) l)))) as G.
  { induction l as [|x l IH]; intros e0 st cv Hin He0; [done|]. cbn [foldl].
    pose proof (stage_page_inv off end_ inb e0 st cv x He0 Hb ltac:(lia) Hl (Hin x ltac:(by left))) as H1.
    destruct (stage_page off inb (e0, st, cv) x) as [[e1 s1] c1]. apply IH; [|done]. intros. apply Hin. by right. }
  specialize (G (fullPages (meta_ e) off end_) e 0 0
    (fun i => fullPages_span _ off end_ i (i_meta _ He) Ho Hend) He).
  by destruct (foldl _ _ _) as [[e1 s1] c1].
Qed.

Lemma spec_locked_inv off end_ inb e :
  Inv e -> Forall is_byte inb -> 0 <= off < fs -> end_ <= fs -> end_ - off <= zlen inb ->
  Inv (snd (spec_locked off end_ inb e)).
Proof using HP Hfs.
  intros He Hb Ho Hend Hl. unfold spec_locked.
  pose proof (Inv_fold_fst (spec_page off inb) (fullPages (meta_ e) off end_) e 0) as G.
  destruct (foldl _ _ _) as [e1 s1]. apply G; [|done]. intros e0 b x Hx He0.
  eapply spec_page_inv; eauto; [lia|]. by eapply fullPages_span; [apply (i_meta _ He)|..].
Qed.
Lemma sum_pages_msum m f b : meta_ok m -> sum_pages m f b = msum (fun i p => if f p then pb i else 0) b.
Proof using.
  intros Hm. unfold sum_pages. transitivity (msum (fun i p => if f p then pageBytes m i else 0) b); [done|].
  apply msum_ext. intros i p _. by rewrite meta_ok_pb.
Qed.

Lemma erase_spec_inv a b e : Inv e -> Inv (fst (fst (erase_spec a b e))).
Proof using HP Hfs.
  intros He. pose proof (counters_range e He) as [_ Hr]. destruct He. unfold erase_spec. cbn [fst].
  rewrite (sum_pages_msum _ _ _ i_meta0).
  pose proof (msum_filter real (spec_in a b) (buf_ e)) as H1.
  pose proof (msum_filter specw (spec_in a b) (buf_ e)) as H2.
  rewrite (msum_0 real (filter (spec_in a b) _)) in H1.
  2: { intros i p [_ [_ Hs]]%map_lookup_filter_Some. unfold real. cbn in Hs. by rewrite Hs. }
  rewrite (msum_ext specw (fun i p => pb i) (filter (spec_in a b) _)) in H2.
  2: { intros i p [_ [_ Hs]]%map_lookup_filter_Some. unfold specw. cbn in Hs. by rewrite Hs. }
  assert (forall i p, filter (fun kv => ~ spec_in a b kv) (buf_ e) !! i = Some p -> page_ok i p) as Hok.
  { intros i p [? _]%map_lookup_filter_Some. eauto. }
  pose proof (msum_stage specw _ specw_range Hok).
  split; cbn; auto.
  - intros i [p [? _]%map_lookup_filter_Some]. eauto.
  - by rewrite H1 in i_real0.
  - rewrite i_spec0, H2. rewrite w64_small; lia.
Qed.

Lemma mark_touched_inv a b e pg : Inv e -> Inv (mark_touched a b e pg).
Proof using HP Hfs.
  intros He. unfold mark_touched. destruct (_ || _); [|done].
  destruct (buf_ e !! pg) as [p|] eqn:E; [|done]. destruct (spec p) eqn:Es; [|done].
  eapply stage_replace; eauto. apply (i_buf _ He _ _ E).
Qed.

Lemma consume_locked_inv off end_ e : Inv e -> Inv (snd (consume_locked off end_ e)).
Proof using HP Hfs.
  intros He. unfold consume_locked. set (e1 := foldl _ _ _).
  pose proof (erase_spec_inv (inner_first (meta_ e) off) (inner_stop (meta_ e) end_) e1) as H.
  destruct (erase_spec _ _ e1) as [[e2 u] v]. apply H.
  apply Inv_fold; [|done]. intros. by apply mark_touched_inv.
Qed.

(** *** Flags, times and the other fields *)
Lemma meta_flags_ok f m : meta_ok m -> meta_ok (set_flags f m).
Proof using. done. Qed.
Lemma meta_atime_ok f m : meta_ok m -> meta_ok (set_atime f m).
Proof using. done. Qed.

Ltac frame := match goal with He : Inv ?e |- Inv _ => apply (Inv_frame e); try done; apply (i_meta _ He) end.

Lemma set_meta_inv e m : Inv e -> meta_ok m -> Inv (set_meta m e).
Proof using. intros He Hm. by apply (Inv_frame e). Qed.
Lemma clear_complete_inv e : Inv e -> Inv (clear_complete e).
Proof using. intros He. apply set_meta_inv; [done|]. apply meta_flags_ok, (i_meta _ He). Qed.
Lemma mark_if_complete_inv e : Inv e -> Inv (mark_if_complete e).
Proof using.
  intros He. unfold mark_if_complete. destruct (_ =? _); [|done].
  apply set_meta_inv; [done|]. apply meta_flags_ok, (i_meta _ He).
Qed.
Lemma set_dirty_inv v e : Inv e -> Inv (set_dirty v e).
Proof using. intros He. frame. Qed.

Lemma demote_locked_inv a b e : Inv e -> 0 <= a -> b < np -> Inv (demote_locked a b e).
Proof using HP Hfs.
  intros He Ha Hb. unfold demote_locked. apply set_dirty_inv, clear_complete_inv.
  apply Inv_fold; [|done]. intros e0 i Hi%elem_of_zrange He0. apply retractPage_inv; [done|lia].
Qed.

Lemma publish_fold_inv l e :
  Inv e -> (forall pg c, (pg, c) ∈ l -> 0 <= pg < np) ->
  Inv (foldl (fun e pc => publishPage e (fst pc) (snd pc)) e l).
Proof using HP Hfs.
  intros He Hl. apply Inv_fold; [|done]. intros e0 [pg c] Hin He0. apply publishPage_inv; [done|].
  by apply (Hl pg c).
Qed.

Lemma publish_done_inv l e :
  Inv e -> (forall pg c, (pg, c) ∈ l -> 0 <= pg < np) -> Inv (publish_done l e).
Proof using HP Hfs.
  intros. unfold publish_done. apply mark_if_complete_inv, set_dirty_inv. by apply publish_fold_inv.
Qed.

(** *** Flush *)
Lemma fb_begin_inv cfg force now total e :
  Inv e -> (force = true -> flushInProgress_ e = false) -> Inv (snd (fb_begin cfg force now total e)).
Proof using HP Hfs.
  intros He Hforce. unfold fb_begin. destruct (negb force && flushInProgress_ e) eqn:Eq; [done|].
  assert (flushing_ e = ∅) as Hfl.
  { apply (i_prog _ He). destruct force; [by apply Hforce|]. by destruct (flushInProgress_ e). }
  destruct (bufBytes_ e =? 0); [done|]. destruct (_ && _ && _); [done|]. destruct He. cbn [snd].
  pose proof (msum_filter specw (fun kv => spec kv.2 = true) (buf_ e)) as H2.
  rewrite (msum_0 specw (filter (fun kv => ~ _) _)) in H2.
  2: { intros i p [_ Hs]%map_lookup_filter_Some. unfold specw. cbn in Hs. by destruct (spec p). }
  split; cbn; auto.
  - intros i p [? _]%map_lookup_filter_Some. eauto.
  - intros i p [? ?]%map_lookup_filter_Some. eauto.
  - intros i [p [Hp Hs]%map_lookup_filter_Some]. apply map_lookup_filter_None. right.
    intros q Hq. cbn in *. rewrite Hp in Hq. injection Hq as <-. by rewrite Hs.
  - symmetry. apply msum_0. intros i p [_ Hs]%map_lookup_filter_Some. unfold real. cbn in Hs. by rewrite Hs.
  - rewrite i_spec0, H2. lia.
  - done.
Qed.

Lemma clear_flushing_inv e now b :
  Inv e -> Inv (set_lastBufFlushS now (set_flushInProgress b (set_flushing ∅ e))).
Proof using.
  intros []. split; cbn; auto. intros i p Hp. by rewrite lookup_empty in Hp.
Qed.

Lemma fb_end_inv l now e :
  Inv e -> (forall pg c, (pg, c) ∈ l -> 0 <= pg < np) -> Inv (fb_end l now e).
Proof using HP Hfs.
  intros He Hl. unfold fb_end. apply clear_flushing_inv.
  destruct l as [|x l]; [done|]. by apply mark_if_complete_inv, set_dirty_inv, publish_fold_inv.
Qed.

(** *** Sidecar commit *)
Lemma fm_snapshot_inv cfg force now e : Inv e -> Inv (snd (fm_snapshot cfg force now e)).
Proof using HP Hfs.
  intros He. unfold fm_snapshot. destruct (negb (dirty_ e)); [done|]. destruct (_ && _); [done|].
  destruct He. split; cbn; auto using bm_clearAll. intros i _. by rewrite Bitmap.get_clearAll.
Qed.

Lemma rearm_page_inv sets clears e i :
  Inv e -> 0 <= i < np -> Inv (rearm_page sets clears e i).
Proof using HP Hfs.
  intros He Hi. unfold rearm_page.
  set (e1 := if _ && _ then set_setSince _ _ else e).
  assert (Inv e1) as He1.
  { subst e1. destruct (_ && _) eqn:E; [|done]. b2p. destruct He. split; cbn; auto using bm_set.
    intros j Hj. rewrite bm_get_set by done. case_decide; [by subst|auto]. }
  destruct (Bitmap.get clears i && _) eqn:E; [|done]. b2p. destruct He1. split; cbn; auto using bm_set.
  intros j Hj. rewrite bm_get_set by done. case_decide; [subst; congruence|auto].
Qed.

Lemma fm_rearm_inv sets clears pin e : Inv e -> Inv (fm_rearm sets clears pin e).
Proof using HP Hfs.
  intros He. unfold fm_rearm.
  assert (Inv (foldl (rearm_page sets clears) (set_dirty true e) (zrange 0 (npages (meta_ (set_dirty true e)))))) as H.
  { apply Inv_fold; [|by apply set_dirty_inv]. intros e0 i Hi%elem_of_zrange He0.
    apply rearm_page_inv; [done|]. cbn in Hi. by rewrite (meta_ok_npages _ (i_meta _ He)) in Hi. }
  frame.
Qed.

Lemma adopt_page_inv out e i : Inv e -> 0 <= i < np -> Inv (adopt_page out e i).
Proof using HP Hfs.
  intros He Hi. unfold adopt_page. destruct (_ || _); [done|]. pose proof (i_meta _ He) as Hm.
  destruct (Bitmap.get _ _); apply set_meta_inv; try done; apply meta_ok_page; try done;
    [apply bm_set|apply bm_clear]; try done; apply Hm.
Qed.

Lemma fm_adopt_inv out e : Inv e -> Inv (fm_adopt out e).
Proof using HP Hfs.
  intros He. unfold fm_adopt. rewrite (meta_ok_npages _ (i_meta _ He)).
  assert (Inv (foldl (adopt_page out) e (zrange 0 np))) as H.
  { apply Inv_fold; [|done]. intros e0 i Hi%elem_of_zrange He0. by apply adopt_page_inv. }
  set (e1 := foldl _ _ _) in *. clearbody e1. clear He e.
  set (e2 := if pinTouched_ e1 then e1 else _).
  assert (Inv e2) as H2.
  { subst e2. destruct (pinTouched_ e1); [done|]. apply set_meta_inv; [done|apply (i_meta _ H)]. }
  apply set_meta_inv; [apply set_meta_inv|]; try done; apply (i_meta _ H2).
Qed.
(** *** Read path *)
Lemma bm_served_inv e b : Inv e -> bm_ok b -> Inv (set_servedOnce b e).
Proof using. intros [] Hb. split; cbn; auto. Qed.

Lemma unmark_served inBuf i p n e : servedOnce_ (unmarkSpeculative inBuf i p n e) = servedOnce_ e.
Proof using. by destruct inBuf. Qed.

Lemma plan_page_inv off len acc pl i pl' :
  0 <= i < np -> Inv (p_e pl) -> bm_ok (servedOnce_ (p_e pl)) -> plan_page off len acc pl i = Some pl' ->
  Inv (p_e pl') /\ bm_ok (servedOnce_ (p_e pl')).
Proof using HP Hfs.
  intros Hi He Hs. unfold plan_page. destruct (staged_at (p_e pl) i) as [[inBuf p]|] eqn:Est.
  - set (es := if spec p && acc then _ else _).
    assert (Inv (fst es) /\ servedOnce_ (fst es) = servedOnce_ (p_e pl)) as [H1 H2].
    { subst es. destruct (spec p && acc) eqn:E; [|done]. b2p. cbn [fst].
      split; [|apply unmark_served]. unfold staged_at in Est.
      destruct (buf_ (p_e pl) !! i) as [q|] eqn:Eb.
      - injection Est as <- ->. by apply unmark_inv.
      - destruct (flushing_ (p_e pl) !! i) as [q|] eqn:Ef; [|done]. injection Est as <- ->.
        destruct (i_fl _ He _ _ Ef). congruence. }
    clearbody es. destruct es as [e1 served]. cbn [fst] in *. intros [= <-]. cbn [p_e].
    destruct (acc && _); cbn; [|by rewrite H2]. rewrite H2. split; [apply bm_served_inv; [done|]|]; by apply bm_set.
  - destruct (negb _); [done|]. intros [= <-]. done.
Qed.

Lemma plan_loop_inv off len acc l pl :
  (forall i, i ∈ l -> 0 <= i < np) -> Inv (p_e pl) -> bm_ok (servedOnce_ (p_e pl)) ->
  Inv (p_e (snd (plan_loop off len acc l pl))) /\ bm_ok (servedOnce_ (p_e (snd (plan_loop off len acc l pl)))).
Proof using HP Hfs.
  revert pl. induction l as [|i l IH]; intros pl Hl He Hs; [done|]. cbn [plan_loop].
  destruct (plan_page off len acc pl i) as [pl'|] eqn:E; [|done].
  destruct (plan_page_inv _ _ _ _ _ _ (Hl i ltac:(by left)) He Hs E). apply IH; [|done|done].
  intros. apply Hl. by right.
Qed.

Lemma size_served_inv e : Inv e -> Inv (size_served e) /\ bm_ok (servedOnce_ (size_served e)).
Proof using HP Hfs.
  intros He. unfold size_served. rewrite (meta_ok_npages _ (i_meta _ He)).
  pose proof bm_reset. destruct (_ =? 0) eqn:E; b2p; [split; [by apply bm_served_inv|done]|].
  split; [done|]. by destruct (i_served _ He).
Qed.

Lemma plan_locked_inv off len acc first last_ out e :
  Inv e -> 0 <= first -> last_ < np ->
  Inv (snd (plan_locked off len acc first last_ out e)) /\
  bm_ok (servedOnce_ (snd (plan_locked off len acc first last_ out e))).
Proof using HP Hfs.
  intros He Hf Hl. unfold plan_locked. destruct (size_served_inv e He).
  pose proof (plan_loop_inv off len acc (zrange first (last_ + 1)) (mkPlan (size_served e) out acct0 [] [])) as G.
  destruct (plan_loop _ _ _ _ _) as [ok pl]. apply G; [|done|done]. intros i Hi%elem_of_zrange. lia.
Qed.

Lemma touch_runs_inv off len runs ft e :
  Inv e -> bm_ok (servedOnce_ e) -> (forall r, r ∈ runs -> 0 <= firstPage r /\ lastPage r < np) ->
  Inv (snd (touch_runs off len runs ft e)).
Proof using HP Hfs.
  intros He Hs Hr. unfold touch_runs.
  assert (forall l e ft, (forall i, i ∈ l -> 0 <= i < np) -> Inv e -> bm_ok (servedOnce_ e) ->
    Inv (fst (foldl (touch_page off len) (e, ft) l))) as G.
  { induction l as [|i l IH]; intros e0 f0 Hl He0 Hs0; [done|]. cbn [foldl touch_page].
    assert (forall j, j ∈ l -> 0 <= j < np) by (intros; apply Hl; by right).
    pose proof (Hl i ltac:(by left)).
    destruct (Bitmap.get (servedOnce_ e0) i); [by apply IH|].
    apply IH; [done|apply bm_served_inv; [done|]|cbn]; by apply bm_set. }
  specialize (G (concat (map (fun r => zrange (firstPage r) (lastPage r + 1)) runs)) e ft).
  destruct (foldl _ _ _) as [e1 f1]. apply G; [|done|done].
  intros i Hi. apply list_elem_of_In, in_concat in Hi as (l & Hl & Hi). apply in_map_iff in Hl as (r & <- & Hin).
  apply list_elem_of_In, elem_of_zrange in Hi. destruct (Hr r); [by apply list_elem_of_In|]. lia.
Qed.

(** *** Pin, atime, punch *)
Lemma pin_locked_inv p e : Inv e -> Inv (pin_locked p e).
Proof using. intros He. unfold pin_locked. frame. Qed.

Lemma atime_locked_inv now e : Inv e -> Inv (atime_locked now e).
Proof using. intros He. unfold atime_locked. destruct (_ <=? _); [frame|done]. Qed.

Lemma drop_staged_inv r i : Inv (r_e r) -> Inv (r_e (drop_staged r i)).
Proof using HP Hfs.
  intros He. unfold drop_staged. destruct (buf_ (r_e r) !! i) as [p|] eqn:E; [|done].
  pose proof (stage_delete _ i p He E) as H. pose proof (counters_range _ He).
  rewrite (meta_ok_pb _ _ (i_meta _ He)). unfold real, specw in H.
  destruct (spec p); cbn [r_e]; rewrite Z.sub_0_r in H.
  - rewrite (w64_small (bufBytes_ (r_e r))) in H by lia. destruct H. split; auto.
  - rewrite (w64_small (specBytes_ (r_e r))) in H by lia. destruct H. split; auto.
Qed.

Lemma release_page_inv r i : 0 <= i < np -> Inv (r_e (fst r)) -> Inv (r_e (fst (release_page r i))).
Proof using HP Hfs.
  intros Hi He. unfold release_page. pose proof (drop_staged_inv (fst r) i He).
  destruct (negb _); [done|]. cbn. by apply retractPage_inv.
Qed.

Lemma release_range_inv r rg :
  0 <= fst rg < p64 -> 0 <= snd rg < p64 -> Inv (r_e r) -> Inv (r_e (release_range r rg)).
Proof using HP Hfs.
  intros H1 H2 He. destruct rg as [off len]. cbn [fst snd] in *. unfold release_range.
  destruct (_ || _ || _) eqn:E; [done|]. b2p. destruct (i_meta _ He) as (HPm & Hfm & _).
  rewrite HPm, Hfm in *. pose proof P_range. destruct np_bound as (? & ? & ?).
  rewrite (w64_add_no_wrap off len) in * by (unfold is_u64 in *; lia).
  destruct (_ <=? _) eqn:E2; [done|]. b2p.
  assert (forall l rr, (forall i, i ∈ l -> 0 <= i < np) -> Inv (r_e (fst rr)) ->
    Inv (r_e (fst (foldl release_page rr l)))) as G.
  { induction l as [|i l IH]; intros rr Hl Hr; [done|]. cbn [foldl]. apply IH; [intros; apply Hl; by right|].
    apply release_page_inv; [apply Hl; by left|done]. }
  specialize (G (zrange ((off +% P -% 1) / P) ((off + len) / P)) (r, 0)).
  destruct (foldl _ _ _) as [r1 res]. cbn [r_e]. apply clear_complete_inv, G; [|done].
  intros i Hi%elem_of_zrange. rewrite (w64_small (off + P)), w64_small in Hi by lia.
  pose proof (Z.div_pos (off + P - 1) P). split; [lia|].
  assert ((off + len) / P * P <= off + len) by (rewrite Z.mul_comm; apply Z.mul_div_le; lia). nia.
Qed.

Lemma release_locked_inv ranges e :
  Inv e -> Forall (fun rg => 0 <= fst rg < p64 /\ 0 <= snd rg < p64) ranges ->
  Inv (snd (release_locked ranges e)).
Proof using HP Hfs.
  intros He Hr. unfold release_locked.
  assert (forall r, Inv (r_e r) -> Inv (r_e (foldl release_range r ranges))) as G.
  { induction Hr as [|rg l [? ?] Hl IH]; intros r Hr0; [done|]. cbn [foldl]. by apply IH, release_range_inv. }
  specialize (G (mkRel e [] [] false 0 0 0) He). destruct (r_any _); [by apply set_dirty_inv|done].
Qed.

(** *** Gate and wire ranges touch none of it *)
Lemma noteFetch_inv off len e : Inv e -> Inv (noteFetchInFlight off len e).
Proof using. intros He. unfold noteFetchInFlight. destruct (flight_range _ _ _); [frame|done]. Qed.
Lemma withdraw_inv e r : Inv e -> Inv (withdraw e r).
Proof using. intros He. unfold withdraw. destruct (flight_range _ _ _); [frame|done]. Qed.
Lemma clearFetch_inv ranges e : Inv e -> Inv (fst (clearFetchInFlights ranges e)).
Proof using.
  intros He. unfold clearFetchInFlights. cbn [fst].
  assert (Inv (foldl withdraw e ranges)) by (apply Inv_fold; [|done]; intros; by apply withdraw_inv). frame.
Qed.
Lemma clearFetch1_inv off len e : Inv e -> Inv (fst (clearFetchInFlight off len e)).
Proof using. intros He. unfold clearFetchInFlight. destruct (flight_range _ _ _); cbn [fst]; [frame|done]. Qed.
Lemma wait_inv ranges cb e : Inv e -> Inv (snd (waitForInFlight_locked ranges cb e)).
Proof using.
  intros He. unfold waitForInFlight_locked. destruct (flight_ e); [done|].
  destruct (wait_ranges _ _ _) as [[|]|]; cbn [snd]; [frame|done|done].
Qed.
Lemma beginFetch_inv off len cb e : Inv e -> Inv (snd (beginFetch_locked off len cb e)).
Proof using. intros He. unfold beginFetch_locked. destruct (inflight_ e !! _); cbn [snd]; frame. Qed.
Lemma endFetch_inv off len e : Inv e -> Inv (fst (endFetch off len e)).
Proof using. intros He. unfold endFetch. destruct (inflight_ e !! _); cbn [fst]; [frame|done]. Qed.
(** ** Interleavings *)
Context (cfg : Config.Config).

(** One locked section of one method of one thread. The premises are what the
    callers establish before taking the lock. *)
Inductive step (e : FileEntry) : FileEntry -> Prop :=
| s_writePages off end_ inb :
    0 <= off < fs -> end_ <= fs -> end_ - off <= zlen inb -> Forall is_byte inb ->
    step e (snd (stage_locked off end_ inb e))
| s_stageSpeculative off end_ inb :
    0 <= off < fs -> end_ <= fs -> end_ - off <= zlen inb -> Forall is_byte inb ->
    step e (snd (spec_locked off end_ inb e))
| s_dropSpeculative a b : step e (fst (fst (erase_spec a b e)))
| s_consumeSpeculative off end_ : step e (snd (consume_locked off end_ e))
| s_readCached_plan off len account first last_ out :
    0 <= first -> last_ < np -> step e (snd (plan_locked off len account first last_ out e))
| s_readCached_touch off len runs ft :
    bm_ok (servedOnce_ e) -> (forall r, r ∈ runs -> 0 <= firstPage r /\ lastPage r < np) ->
    step e (snd (touch_runs off len runs ft e))
| s_demoteRun a b : 0 <= a -> b < np -> step e (demote_locked a b e)
| s_swap_disk_end v : step e (set_lastDiskEnd v e)
| s_direct_publish done :
    (forall pg c, (pg, c) ∈ done -> 0 <= pg < np) -> step e (publish_done done e)
| s_flush_begin force now total :
    (force = true -> flushInProgress_ e = false) -> step e (snd (fb_begin cfg force now total e))
| s_flush_end published now :
    flushInProgress_ e = true ->
    (forall pg c, (pg, c) ∈ published -> exists p, flushing_ e !! pg = Some p /\ bcrc p = c) ->
    step e (fb_end published now e)
| s_meta_snapshot force now : step e (snd (fm_snapshot cfg force now e))
| s_meta_rearm sets clears pin : step e (fm_rearm sets clears pin e)
| s_meta_adopt out : step e (fm_adopt out e)
| s_touchAtime now : step e (atime_locked now e)
| s_setPinned p : step e (pin_locked p e)
| s_releaseRanges ranges :
    Forall (fun rg => 0 <= fst rg < p64 /\ 0 <= snd rg < p64) ranges ->
    step e (snd (release_locked ranges e))
| s_noteFetchInFlight off len : step e (noteFetchInFlight off len e)
| s_clearFetchInFlights ranges : step e (fst (clearFetchInFlights ranges e))
| s_clearFetchInFlight off len : step e (fst (clearFetchInFlight off len e))
| s_waitForInFlight ranges cb : step e (snd (waitForInFlight_locked ranges cb e))
| s_beginFetch off len cb : step e (snd (beginFetch_locked off len cb e))
| s_endFetch off len : step e (fst (endFetch off len e))
| s_close : step e (set_closing true e).

Lemma step_inv e e' : Inv e -> step e e' -> Inv e'.
Proof using HP Hfs.
  intros He. destruct 1; eauto using stage_locked_inv, spec_locked_inv, erase_spec_inv, consume_locked_inv,
    touch_runs_inv, demote_locked_inv, publish_done_inv, fb_begin_inv, fm_snapshot_inv, fm_rearm_inv,
    fm_adopt_inv, atime_locked_inv, pin_locked_inv, release_locked_inv, noteFetch_inv, clearFetch_inv,
    clearFetch1_inv, wait_inv, beginFetch_inv, endFetch_inv; try frame.
  - by apply plan_locked_inv.
  - apply fb_end_inv; [done|]. intros pg c Hin. destruct (H0 pg c Hin) as (p & Hp & _).
    by apply (i_fl _ He _ _ Hp).
Qed.

Lemma steps_inv e e' : Inv e -> rtc step e e' -> Inv e'.
Proof using HP Hfs. intros He Hs. induction Hs; eauto using step_inv. Qed.

(** What [open] hands out. *)
Lemma fresh_entry_inv ukey fd hook m dirty now : meta_ok m -> Inv (fresh_entry cfg ukey fd hook m dirty now).
Proof using HP Hfs.
  intros Hm. unfold fresh_entry. rewrite (meta_ok_npages m Hm). pose proof bm_reset.
  split; cbn; auto; try (intros i p Hp; by rewrite lookup_empty in Hp).
  intros i _. by rewrite Bitmap.get_reset.
Qed.
End inv.

(** C5: the invariant of an entry holds in every state reachable from [open] by any
    interleaving of the locked sections of any number of threads: the bitmaps
    and the CRC table keep the file's geometry and exact counts, no page is both
    "set since" and "cleared since" the last commit, each staged page holds
    exactly its page's bytes with their CRC, the stage and the snapshot being
    written are disjoint, a speculative page is never in the snapshot, and
    [bufBytes_] / [specBytes_] are exactly the real and speculative bytes of the
    stage (no drift, no wrap-around). *)
Theorem entry_invariant `{CK : Checksum} (P fs : Z) (cfg : Config.Config) (ukey : UrlKey.UrlKey)
    (fd now : Z) (hook dirty : bool) (m : MetaData) (e : FileEntry)
    (HP : Config.validPageSize P = true) (Hfs : 0 <= fs < p63) (Hm : meta_ok P fs m)
    (Hreach : rtc (step P fs cfg) (fresh_entry cfg ukey fd hook m dirty now) e) :
  Inv P fs e.
Proof. eapply steps_inv; [done|done| |exact Hreach]. by apply fresh_entry_inv. Qed.

(** A page staged by a fill, one staged speculatively, a flush that publishes
    the first. *)
Definition demo_cfg : Config.Config := Config.defaults (bs "/c").
Definition demo_key : UrlKey.UrlKey := UrlKey.mkUrlKey (bs "k") (bs "abcd") (bs "root") (bs "h").
Definition demo_open : FileEntry :=
  fresh_entry demo_cfg demo_key 3 false (fresh 0 (bs "k") 10000 4096) false 0.

Definition demo_crc : Z := Eval vm_compute in crc 0 (zeros 4096).

Definition e1 : FileEntry := snd (stage_locked 0 4096 (zeros 4096) demo_open).
Definition e2 : FileEntry := snd (spec_locked 4096 8192 (zeros 4096) e1).
Definition e3 : FileEntry := snd (fb_begin demo_cfg true 1 4096 e2).
Definition e4 : FileEntry := fb_end [(0, demo_crc)] 2 e3.

Lemma demo_flushed : exists p, flushing_ e3 !! 0 = Some p /\ bcrc p = demo_crc.
Proof.
  exists (mkBufPage (zeros 4096) demo_crc false false). split; [|reflexivity]. vm_compute. reflexivity.
Qed.

Lemma demo_steps : rtc (step 4096 10000 demo_cfg) demo_open e4.
Proof.
  apply rtc_l with e1.
  { apply (s_writePages _ _ _ _ 0 4096 (zeros 4096)); try lia; [by rewrite zlen_zeros|apply Forall_zeros]. }
  apply rtc_l with e2.
  { apply (s_stageSpeculative _ _ _ _ 4096 8192 (zeros 4096)); try lia; [by rewrite zlen_zeros|apply Forall_zeros]. }
  apply rtc_l with e3.
  { apply (s_flush_begin _ _ _ _ true 1 4096). intros _. vm_compute. reflexivity. }
  apply rtc_once. apply (s_flush_end _ _ _ _ [(0, demo_crc)] 2); [vm_compute; reflexivity|].
  intros pg c Hin%list_elem_of_singleton. injection Hin as -> ->. exact demo_flushed.
Qed.

Lemma demo_meta_ok : meta_ok 4096 10000 (fresh 0 (bs "k") 10000 4096).
Proof.
  split; [done|]. split; [done|]. split; [|by vm_compute].
  split; [|by vm_compute]. apply Bitmap.reset_wf. by vm_compute.
Qed.

Lemma demo_inv : Inv 4096 10000 e4.
Proof.
  eapply steps_inv; [reflexivity|lia| |exact demo_steps]. apply fresh_entry_inv; [reflexivity|lia|exact demo_meta_ok].
Qed.

Lemma entry_invariant_witness :
  Inv 4096 10000 e4 /\ bufBytes_ e4 = 0 /\ specBytes_ e4 = 4096 /\ Bitmap.get (bitmap (meta_ e4)) 0 = true.
Proof.
  split; [|by vm_compute].
  apply (entry_invariant 4096 10000 demo_cfg demo_key 3 0 false false (fresh 0 (bs "k") 10000 4096));
    [reflexivity|lia|exact demo_meta_ok|exact demo_steps].
Defined.
End EntryInv.
