(* ===== verification/FileEntryRead.v ===== *)
(** * The read path (FileEntry::readCached)

    A request that [readCached] answers got every byte either from a staged page
    or from the data file through a page whose CRC matched the sidecar's; and a
    request over pages that are all there and intact is answered. *)

From S2P Require Import Prelude IOBackend Crc32c PageBitmap Config MetaFile UrlKey FileEntry FileEntryInv.

Module EntryRead.
Import Meta Entry EntryInv.

Section read.
Context {W : Type} `{!IOBackend W, !IOLaws W} `{CK : Checksum}.
Context (cfg : Config.Config) (clockS clockUs : nat -> Z).
Context (P fs : Z) (HP : Config.validPageSize P = true) (Hfs : 0 <= fs < p63).
Abbreviation np := (np P fs).
Abbreviation pb := (pb P fs).
Abbreviation meta_ok := (meta_ok P fs).
Abbreviation Inv := (Inv P fs).

Definition staged_data (e : FileEntry) (i : Z) : option bytes := (fun bp => data (snd bp)) <$> staged_at e i.

(** Where the bytes [d] of page [i] may come from. *)
Definition from_disk (s : IOBackend.fs) (e : FileEntry) (i : Z) (d : bytes) : Prop :=
  staged_data e i = None /\ Bitmap.get (bitmap (meta_ e)) i = true /\ zlen d = pb i /\
  crc 0 d = zget (pageCrcs (meta_ e)) i /\
  exists f, open_file s (dataFd_ e) = Some f /\ d = zsub (i_data f) (i * P) (pb i).
Definition page_src (s : IOBackend.fs) (e : FileEntry) (i : Z) (d : bytes) : Prop :=
  staged_data e i = Some d \/ from_disk s e i d.

(** A run, and everything else about the entry that the reads keep. *)
Definition same_src (e e' : FileEntry) : Prop :=
  meta_ e' = meta_ e /\ dataFd_ e' = dataFd_ e /\ forall i, staged_data e' i = staged_data e i.

Lemma same_src_refl e : same_src e e.
Proof. by split. Qed.
Lemma same_src_trans e e' e'' : same_src e e' -> same_src e' e'' -> same_src e e''.
Proof. intros (? & ? & H1) (? & ? & H2). split; [congruence|]. split; [congruence|]. intros. by rewrite H2, H1. Qed.

(** ** Arithmetic of a run *)
Lemma last_short i : 0 <= i -> i + 1 < np -> pb i = P.
Proof using HP Hfs.
  intros. destruct (pb_plain P fs HP Hfs i) as (_ & _ & E & _); [lia|].
  destruct (pb_plain P fs HP Hfs (i + 1)) as (_ & ? & _); [lia|]. rewrite E. lia.
Qed.

Lemma page_end i j : 0 <= i <= j -> j < np -> (i < j -> i * P + pb i <= j * P) /\ i * P + pb i <= fs.
Proof using HP Hfs.
  intros. pose proof (P_range P HP). destruct (pb_plain P fs HP Hfs i) as (_ & ? & E & ?); [lia|].
  split; [|lia]. intros. nia.
Qed.

Lemma runBytes_plain m a b :
  meta_ok m -> 0 <= a <= b -> b < np -> runBytes m a b = b * P + pb b - a * P /\ 0 < runBytes m a b <= fs.
Proof using HP Hfs.
  intros Hm Hab Hb. pose proof (P_range P HP). unfold runBytes. rewrite (meta_ok_pb P fs m b Hm).
  destruct Hm as (-> & _).
  destruct (pb_plain P fs HP Hfs a) as (Ea & ? & ? & ?); [lia|].
  destruct (pb_plain P fs HP Hfs b) as (Eb & ? & ? & ?); [lia|].
  assert (0 <= a * P <= b * P) by nia.
  rewrite Ea, Eb. rewrite (w64_small (b * P + pb b)) by lia. rewrite w64_small by lia. lia.
Qed.

(** ** Verification *)
Lemma verify_pages_true m first last_ got b l expect i s s' :
  meta_ok m -> 0 <= first <= i -> last_ < np -> l = zrange i (last_ + 1) -> last_ + 1 - i <= zlen expect ->
  verify_pages m last_ got b ((i - first) * P) l expect s = (true, s') ->
  s' = s /\ forall j, i <= j <= last_ ->
    (j - first) * P + pb j <= got /\ crc 0 (zsub b ((j - first) * P) (pb j)) = zget expect (j - i).
Proof using HP Hfs.
  intros Hm Hf Hl. pose proof (P_range P HP). revert i expect Hf.
  induction l as [|x l IH]; intros i expect Hf Hr Hlen Hv.
  { injection Hv as <-. split; [done|]. intros j Hj. exfalso.
    assert (j ∈ zrange i (last_ + 1)) as Hin by (apply elem_of_zrange; lia). rewrite <- Hr in Hin.
    by apply elem_of_nil in Hin. }
  assert (i < last_ + 1) as Hi.
  { destruct (Z.lt_ge_cases i (last_ + 1)); [done|]. rewrite zrange_nil in Hr by lia. done. }
  rewrite zrange_cons in Hr by done. injection Hr as -> Hr. destruct expect as [|x expect].
  { rewrite zlen_nil in Hlen. lia. }
  rewrite zlen_cons in Hlen. cbn [verify_pages] in Hv. rewrite (meta_ok_pb P fs m i Hm) in Hv.
  destruct (pb_plain P fs HP Hfs i) as (_ & ? & Ei & ?); [lia|].
  assert (0 <= (i - first) * P + pb i <= fs) by nia. rewrite (w64_small ((i - first) * P + pb i)) in Hv by lia.
  destruct (got <? _) eqn:Eg; b2p.
  { unfold demoteBadPages in Hv. apply mbind_inv in Hv as (? & ? & _ & Hv).
    apply mbind_inv in Hv as (? & ? & _ & Hv). injection Hv as ? ?. done. }
  destruct (crc 0 _ =? x) eqn:Ec; b2p; cbn [negb] in Hv.
  2: { apply mbind_inv in Hv as (? & ? & _ & Hv). injection Hv as ? ?. done. }
  destruct (Z.eq_dec i last_) as [->|Hne].
  - rewrite zrange_nil in Hr by lia. subst l. cbn in Hv. injection Hv as <-. split; [done|].
    intros j Hj. assert (j = last_) as -> by lia. rewrite Z.sub_diag. split; [done|]. exact Ec.
  - rewrite (last_short i) in * by lia.
    destruct (IH (i + 1) expect) as [-> IHj]; [lia|done|lia| |].
    { replace ((i + 1 - first) * P) with ((i - first) * P + P) by lia. exact Hv. }
    split; [done|]. intros j Hj. destruct (Z.eq_dec j i) as [->|].
    + rewrite (last_short i) by lia. rewrite Z.sub_diag. split; [lia|exact Ec].
    + destruct (IHj j ltac:(lia)) as [? E]. split; [done|]. rewrite E.
      unfold zget. replace (Z.to_nat (j - i)) with (S (Z.to_nat (j - (i + 1)))) by lia. done.
Qed.

Abbreviation St := (@St W).
Abbreviation fsview s := (view (io_ (snd s : World))).

Lemma io_inv {A} (m : M W A) (s : St) a s' :
  io m s = (a, s') -> exists w', m (io_ (snd s)) = (a, w') /\ s' = (fst s, set_io w' (snd s)).
Proof. unfold io. destruct (m (io_ (snd s))) as [x w'] eqn:E. intros [= -> <-]. eauto. Qed.

(** A run that verifies: its bytes are the data file's, each page matches its
    CRC, and nothing changed. *)
Lemma readVerifyRun_true a b expect (s : St) d s' :
  Inv (fst s) -> 0 <= a <= b -> b < np -> b + 1 - a <= zlen expect ->
  readVerifyRun a b expect s = ((true, d), s') ->
  fst s' = fst s /\ fsview s' = fsview s /\ zlen d = b * P + pb b - a * P /\
  (exists f, open_file (fsview s) (dataFd_ (fst s)) = Some f /\ d = zsub (i_data f) (a * P) (b * P + pb b - a * P)) /\
  forall j, a <= j <= b -> crc 0 (zsub d ((j - a) * P) (pb j)) = zget expect (j - a).
Proof using HP Hfs.
  intros He Hab Hb Hlen Hv. unfold readVerifyRun in Hv. apply mbind_inv in Hv as (e & s0 & [= <- <-] & Hv).
  apply mbind_inv in Hv as ([r d'] & s1 & Hio & Hv). apply mbind_inv in Hv as (ok & s2 & Hv & [= -> -> <-]).
  pose proof (i_meta _ _ _ He) as Hm. destruct (runBytes_plain _ a b Hm Hab Hb) as [Er Hr0].
  pose proof (P_range P HP). destruct (pb_plain P fs HP Hfs a) as (Ea & ? & ? & ?); [lia|].
  destruct (pb_plain P fs HP Hfs b) as (Eb & ? & ? & ?); [lia|].
  assert (0 <= a * P <= b * P) by nia. apply io_inv in Hio as (w' & Hio & ->). cbn [fst snd] in *.
  replace (pageSize (meta_ (fst s))) with P in Hio by (symmetry; apply Hm). rewrite Ea, Er in Hio.
  destruct (preadFull_spec (dataFd_ (fst s)) (b * P + pb b - a * P) (a * P) _ _ _ _ ltac:(lia) ltac:(lia) ltac:(lia) Hio) as [Hview Hres].
  destruct (verify_pages_true (meta_ (fst s)) a b _ d _ expect a _ _ Hm ltac:(lia) Hb eq_refl Hlen
    ltac:(rewrite Z.sub_diag; exact Hv)) as [-> Hpages].
  destruct (Hpages b ltac:(lia)) as [Hgot _].
  destruct Hres as [(Hr1 & -> & Hd)|[Hr1 _]]; [|destruct (0 <? r) eqn:E; b2p; lia].
  replace (if 0 <? zlen d then zlen d else 0) with (zlen d) in Hgot
    by (destruct (0 <? zlen d) eqn:E; b2p; lia).
  destruct Hd as [Hd|(f & Hf & Hd)]; [lia|]. cbn [fst snd set_io io_].
  split; [done|]. split; [done|]. split; [lia|]. split; [eauto|].
  intros j Hj. by apply Hpages.
Qed.

(** ** A request *)
Section request.
Context (off len : Z) (Hoff : 0 <= off) (Hlen : 0 < len) (Hend : off + len <= fs).
Context (e : FileEntry) (He : Inv e) (s0 : IOBackend.fs).

Definition first : Z := off / P.
Definition last_ : Z := (off + len - 1) / P.
(** The part of page [i] the request wants. *)
Definition lo (i : Z) : Z := Z.max off (i * P).
Definition hi (i : Z) : Z := Z.min (off + len) (i * P + pb i).

Lemma req_pages : 0 <= first /\ first <= last_ /\ last_ < np.
Proof using HP Hfs Hoff Hlen Hend.
  pose proof (P_range P HP). destruct (np_bound P fs HP Hfs) as (? & ? & ?). unfold first, last_.
  split; [apply Z.div_pos; lia|]. split; [apply Z.div_le_mono; lia|].
  apply Z.div_lt_upper_bound; lia.
Qed.

Lemma req_page i : first <= i <= last_ ->
  0 <= i < np /\ off <= lo i < hi i /\ hi i <= off + len /\ i * P <= lo i /\ hi i <= i * P + pb i.
Proof using HP Hfs Hoff Hlen Hend.
  intros Hi. pose proof req_pages. pose proof (P_range P HP).
  destruct (pb_plain P fs HP Hfs i) as (_ & ? & ? & ?); [lia|].
  assert (i * P <= off + len - 1).
  { pose proof (Z.mul_div_le (off + len - 1) P ltac:(lia)). unfold last_ in *. nia. }
  assert (off < (i + 1) * P).
  { pose proof (Z.mul_succ_div_gt off P ltac:(lia)). unfold first in *. nia. }
  unfold lo, hi. lia.
Qed.

Lemma req_apart i j : first <= i -> i < j -> j <= last_ -> hi i <= lo j.
Proof using HP Hfs Hoff Hlen Hend.
  intros. pose proof req_pages. destruct (page_end i j) as [H' _]; [lia|lia|].
  specialize (H' ltac:(lia)). unfold hi, lo. lia.
Qed.

(** Page [i]'s part of the buffer holds bytes of an acceptable source. *)
Definition filled (out : bytes) (i : Z) : Prop :=
  exists d, page_src s0 e i d /\ zsub out (lo i - off) (hi i - lo i) = zsub d (lo i - i * P) (hi i - lo i).

Lemma filled_splice out i a x :
  first <= i <= last_ -> filled out i -> 0 <= a -> a + zlen x <= zlen out ->
  (hi i - off <= a \/ a + zlen x <= lo i - off) -> filled (zsplice out a x) i.
Proof using HP Hfs Hoff Hlen Hend.
  intros Hi (d & Hs & Hd) Ha Hx Hap. destruct (req_page i Hi) as (? & ? & ? & ? & ?).
  exists d. split; [done|]. rewrite <- Hd. pose proof (zlen_nonneg x). destruct Hap.
  - apply zsub_zsplice_before; lia.
  - apply zsub_zsplice_after; lia.
Qed.

(** *** The plan *)
Definition run_ok (n : Z) (crcs : list Z) (r : Run) : Prop :=
  first <= firstPage r <= lastPage r /\ lastPage r < n /\
  0 <= crcBase r /\ crcBase r + (lastPage r - firstPage r) < zlen crcs /\
  forall k, firstPage r <= k <= lastPage r ->
    staged_data e k = None /\ Bitmap.get (bitmap (meta_ e)) k = true /\
    zget crcs (crcBase r + (k - firstPage r)) = zget (pageCrcs (meta_ e)) k.
Definition in_runs (runs : list Run) (i : Z) : Prop :=
  exists r, r ∈ runs /\ firstPage r <= i <= lastPage r.

Record plan_ok (n : Z) (pl : Plan) : Prop := {
  po_src : same_src e (p_e pl);
  po_len : zlen (p_out pl) = len;
  po_runs : forall r, r ∈ p_runs pl -> run_ok n (p_crcs pl) r;
  po_last : forall r, last (p_runs pl) = Some r -> crcBase r + (lastPage r - firstPage r) + 1 = zlen (p_crcs pl);
  po_cov : forall i, first <= i < n -> filled (p_out pl) i \/ in_runs (p_runs pl) i
}.

Lemma run_ok_grow n crcs x r : run_ok n crcs r -> run_ok (n + 1) (crcs ++ [x]) r.
Proof using.
  intros (? & ? & ? & ? & H). split; [done|]. split; [lia|]. split; [done|].
  split; [rewrite zlen_app; pose proof (zlen_nonneg [x]); lia|]. intros k Hk.
  rewrite zget_app_l by lia. by apply H.
Qed.

Lemma staged_at_None e' i : staged_data e' i = None -> staged_at e' i = None.
Proof using. unfold staged_data. by destruct (staged_at e' i). Qed.

Lemma same_src_unmark e' inBuf i p n :
  staged_at e' i = Some (inBuf, p) -> same_src e' (unmarkSpeculative inBuf i p n e').
Proof using.
  intros Hs. split; [by destruct inBuf|]. split; [by destruct inBuf|]. intros j.
  unfold staged_data, staged_at, unmarkSpeculative in *. destruct (buf_ e' !! i) as [q|] eqn:Eb.
  - injection Hs as <- ->. cbn. destruct (decide (i = j)) as [->|].
    + by rewrite lookup_insert_eq, Eb.
    + by rewrite lookup_insert_ne.
  - destruct (flushing_ e' !! i) as [q|] eqn:Ef; [|done]. injection Hs as <- ->. cbn.
    destruct (buf_ e' !! j) eqn:Ej; [done|]. destruct (decide (i = j)) as [->|].
    + by rewrite lookup_insert_eq, Ef.
    + by rewrite lookup_insert_ne.
Qed.

(** The copy of a staged page. *)
Lemma filled_staged out i d :
  first <= i <= last_ -> zlen out = len -> staged_data e i = Some d -> zlen d = pb i ->
  filled (zsplice out (lo i - off) (zsub d (lo i - i * P) (hi i - lo i))) i.
Proof using HP Hfs Hoff Hlen Hend.
  intros Hi Ho Hs Hd. destruct (req_page i Hi) as (? & ? & ? & ? & ?). exists d. split; [by left|].
  apply zsub_zsplice_same; rewrite ?zlen_zsub; lia.
Qed.

Lemma staged_page_len e' i inBuf p : Inv e' -> staged_at e' i = Some (inBuf, p) -> zlen (data p) = pb i.
Proof using.
  intros [] Hs. unfold staged_at in Hs. destruct (buf_ e' !! i) as [q|] eqn:Eb.
  - injection Hs as <- ->. by apply (i_buf0 _ _ Eb).
  - destruct (flushing_ e' !! i) as [q|] eqn:Ef; [|done]. injection Hs as <- ->. by apply (i_fl0 _ _ Ef).
Qed.

Lemma plan_staged n pl account inBuf p pl' :
  first <= n <= last_ -> plan_ok n pl -> Inv (p_e pl) -> staged_at (p_e pl) n = Some (inBuf, p) ->
  plan_page off len account pl n = Some pl' -> plan_ok (n + 1) pl'.
Proof using HP Hfs Hoff Hlen Hend.
  intros Hn [Hsrc Hl Hruns Hlast Hcov] Hpe Hst Hpp. pose proof req_pages.
  destruct (req_page n Hn) as (? & ? & ? & ? & ?).
  destruct (pb_plain P fs HP Hfs n) as (En & ? & ? & ?); [lia|].
  assert (0 <= n * P) by (pose proof (P_range P HP); nia).
  unfold plan_page in Hpp. rewrite Hst in Hpp. pose proof (i_meta _ _ _ Hpe) as Hm.
  rewrite (meta_ok_pb P fs _ n Hm) in Hpp. destruct Hm as (HPm & _). rewrite HPm, En in Hpp.
  set (es := if spec p && account then _ else _) in Hpp.
  assert (same_src (p_e pl) (fst es)) as Hsm.
  { subst es. destruct (_ && _); [by apply same_src_unmark|apply same_src_refl]. }
  clearbody es. destruct es as [e1 served]. cbn [fst] in Hsm.
  rewrite (w64_small (off + len)), (w64_small (n * P + pb n)) in Hpp by lia.
  fold (lo n) (hi n) in Hpp.
  rewrite (w64_small (lo n - off)), (w64_small (lo n - n * P)), (w64_small (hi n - lo n)) in Hpp by lia.
  injection Hpp as <-. pose proof (staged_page_len _ _ _ _ Hpe Hst) as Hdl.
  assert (staged_data e n = Some (data p)) as Hsd.
  { destruct Hsrc as (_ & _ & H'). rewrite <- H'. unfold staged_data. by rewrite Hst. }
  assert (zlen (zsub (data p) (lo n - n * P) (hi n - lo n)) = hi n - lo n) as Hz by (apply zlen_zsub; lia).
  split; cbn [p_e p_out p_runs p_crcs]; auto.
  - eapply same_src_trans; [exact Hsrc|]. destruct (_ && _); [|done].
    eapply same_src_trans; [exact Hsm|]. done.
  - rewrite zlen_zsplice; lia.
  - intros r Hr. destruct (Hruns r Hr) as (? & ? & ?). split; [done|]. split; [lia|done].
  - intros i Hi. destruct (Z.eq_dec i n) as [->|]; [left; by apply filled_staged|].
    destruct (Hcov i ltac:(lia)) as [Hf|?]; [left|by right].
    apply filled_splice; [lia|done|lia|rewrite Hz; lia|]. left.
    pose proof (req_apart i n ltac:(lia) ltac:(lia) ltac:(lia)). lia.
Qed.

Lemma last_snoc_inv {A} (l : list A) r : last l = Some r -> l = removelast l ++ [r].
Proof using.
  intros Hl. destruct l as [|x l] using rev_ind; [done|]. rewrite last_snoc in Hl. injection Hl as ->.
  by rewrite removelast_last.
Qed.

Lemma plan_resident n pl account pl' :
  first <= n <= last_ -> plan_ok n pl -> Inv (p_e pl) -> staged_at (p_e pl) n = None ->
  plan_page off len account pl n = Some pl' -> plan_ok (n + 1) pl'.
Proof using HP Hfs Hoff Hlen Hend.
  intros Hn [Hsrc Hl Hruns Hlast Hcov] Hpe Hst Hpp. unfold plan_page in Hpp. rewrite Hst in Hpp.
  destruct Hsrc as (Hmeta & Hfd & Hsd). rewrite Hmeta in Hpp.
  destruct (Bitmap.get (bitmap (meta_ e)) n) eqn:Eg; [|done]. cbn [negb] in Hpp. injection Hpp as <-.
  assert (staged_data e n = None) as Hnone by (rewrite <- Hsd; unfold staged_data; by rewrite Hst).
  set (crcs' := p_crcs pl ++ [zget (pageCrcs (meta_ e)) n]).
  assert (zlen crcs' = zlen (p_crcs pl) + 1) as Hz by (unfold crcs'; rewrite zlen_app; done).
  assert (zget crcs' (zlen (p_crcs pl)) = zget (pageCrcs (meta_ e)) n) as Hnew.
  { unfold crcs'. rewrite zget_app_r by lia. by rewrite Z.sub_diag. }
  assert (run_ok (n + 1) crcs' (mkRun n n (zlen (p_crcs pl)))) as Hsingle.
  { pose proof (zlen_nonneg (p_crcs pl)). unfold run_ok; cbn [firstPage lastPage crcBase].
    split; [lia|]. split; [lia|]. split; [done|]. split; [lia|]. intros k Hk. assert (k = n) as -> by lia.
    rewrite Z.sub_diag, Z.add_0_r. done. }
  assert (forall r, r ∈ p_runs pl -> run_ok (n + 1) crcs' r) as Hold by (intros; by apply run_ok_grow, Hruns).
  assert (plan_ok (n + 1) (mkPlan (p_e pl) (p_out pl) (p_acct pl) (p_runs pl ++ [mkRun n n (zlen (p_crcs pl))]) crcs')) as Hpush.
  { split; cbn [p_e p_out p_runs p_crcs]; [done|done| | |].
    - intros r [?| ->%list_elem_of_singleton]%elem_of_app; auto.
    - intros r. rewrite last_snoc. intros [= <-]. cbn. lia.
    - intros i Hi. destruct (Z.eq_dec i n) as [->|].
      + right. eexists. split; [apply elem_of_app; right; by apply list_elem_of_singleton|]. cbn. lia.
      + destruct (Hcov i ltac:(lia)) as [?|(r & Hr & ?)]; [by left|right]. exists r.
        split; [apply elem_of_app; by left|done]. }
  unfold add_run. destruct (last (p_runs pl)) as [r|] eqn:El; [|done].
  destruct (_ && _) eqn:Eb; [|done]. b2p. specialize (Hlast r eq_refl).
  pose proof (last_snoc_inv _ _ El) as Hsplit.
  assert (r ∈ p_runs pl) as Hin by (rewrite Hsplit; apply elem_of_app; right; by apply list_elem_of_singleton).
  destruct (Hold r Hin) as (R1 & R2 & R3 & R4 & R5).
  split; cbn [p_e p_out p_runs p_crcs]; [done|done| | |].
  - intros r' [Hr'| ->%list_elem_of_singleton]%elem_of_app.
    + apply Hold. rewrite Hsplit. apply elem_of_app. by left.
    + unfold run_ok; cbn [firstPage lastPage crcBase].
      split; [lia|]. split; [lia|]. split; [done|]. split; [lia|]. intros k Hk.
      destruct (Z.eq_dec k n) as [->|]; [|apply R5; lia].
      split; [done|]. split; [done|]. rewrite <- Hnew. f_equal. lia.
  - intros r'. rewrite last_snoc. intros [= <-]. cbn. lia.
  - intros i Hi. destruct (Z.eq_dec i n) as [->|].
    + right. eexists. split; [apply elem_of_app; right; by apply list_elem_of_singleton|]. cbn. lia.
    + destruct (Hcov i ltac:(lia)) as [?|(r' & Hr' & ?)]; [by left|right].
      rewrite Hsplit in Hr'. apply elem_of_app in Hr' as [?| ->%list_elem_of_singleton].
      * exists r'. split; [apply elem_of_app; by left|done].
      * eexists. split; [apply elem_of_app; right; by apply list_elem_of_singleton|]. cbn. lia.
Qed.

Lemma plan_loop_ok account n pl pl' :
  first <= n <= last_ + 1 -> plan_ok n pl -> Inv (p_e pl) -> bm_ok P fs (servedOnce_ (p_e pl)) ->
  plan_loop off len account (zrange n (last_ + 1)) pl = (true, pl') ->
  plan_ok (last_ + 1) pl' /\ Inv (p_e pl').
Proof using HP Hfs Hoff Hlen Hend.
  remember (zrange n (last_ + 1)) as l eqn:Hl. revert n pl Hl. pose proof req_pages.
  induction l as [|x l IH]; intros n pl Hl Hn Hok Hpe Hs Hpl.
  - injection Hpl as <-. destruct (Z.eq_dec n (last_ + 1)) as [->|]; [done|].
    rewrite zrange_cons in Hl by lia. done.
  - destruct (Z.eq_dec n (last_ + 1)) as [->|]; [by rewrite zrange_nil in Hl by lia|].
    rewrite zrange_cons in Hl by lia. injection Hl as -> Hl. cbn [plan_loop] in Hpl.
    destruct (plan_page off len account pl n) as [pl1|] eqn:Ep; [|done].
    destruct (plan_page_inv P fs HP Hfs off len account pl n pl1 ltac:(lia) Hpe Hs Ep) as [H1 H2].
    eapply (IH (n + 1)); eauto; [lia|].
    destruct (staged_at (p_e pl) n) as [[inBuf p]|] eqn:Est; [eapply plan_staged|eapply plan_resident]; eauto; lia.
Qed.

(** *** The reads *)

(** What a verified run [a..b] puts into the buffer, directly or through the
    scratch buffer. *)
Definition run_out (out d : bytes) (a b : Z) : bytes :=
  zsplice out (lo a - off) (zsub d (lo a - a * P) (hi b - lo a)).

Lemma run_bounds a b : first <= a <= b -> b <= last_ ->
  a * P <= lo a /\ lo a < hi b /\ hi b <= b * P + pb b /\ off <= lo a /\ hi b <= off + len.
Proof using HP Hfs Hoff Hlen Hend.
  intros. destruct (req_page a) as (? & ? & ? & ? & ?); [lia|]. destruct (req_page b) as (? & ? & ? & ? & ?); [lia|].
  destruct (Z.eq_dec a b) as [->|]; [lia|]. pose proof (req_apart a b ltac:(lia) ltac:(lia) ltac:(lia)). lia.
Qed.

Lemma run_out_len out d a b :
  first <= a <= b -> b <= last_ -> zlen out = len -> zlen d = b * P + pb b - a * P ->
  zlen (run_out out d a b) = len.
Proof using HP Hfs Hoff Hlen Hend.
  intros Ha Hb Ho Hd. destruct (run_bounds a b Ha Hb) as (? & ? & ? & ? & ?).
  unfold run_out. rewrite zlen_zsplice; rewrite ?zlen_zsub; lia.
Qed.

Lemma run_out_filled out d a b i :
  first <= a <= b -> b <= last_ -> zlen out = len -> zlen d = b * P + pb b - a * P ->
  a <= i <= b -> page_src s0 e i (zsub d ((i - a) * P) (pb i)) -> filled (run_out out d a b) i.
Proof using HP Hfs Hoff Hlen Hend.
  intros Ha Hb Ho Hd Hi Hs. destruct (run_bounds a b Ha Hb) as (? & ? & ? & ? & ?).
  destruct (req_page i) as (? & ? & ? & ? & ?); [lia|]. pose proof req_pages. pose proof (P_range P HP).
  assert (a * P <= i * P) by (apply Z.mul_le_mono_nonneg_r; lia).
  assert (lo a <= lo i) by (unfold lo; lia).
  assert (hi i <= hi b).
  { destruct (Z.eq_dec i b) as [->|]; [lia|].
    pose proof (req_apart i b ltac:(lia) ltac:(lia) ltac:(lia)). destruct (req_page b); lia. }
  destruct (pb_plain P fs HP Hfs i) as (_ & ? & ? & ?); [lia|].
  assert (0 <= (i - a) * P) by (apply Z.mul_nonneg_nonneg; lia).
  assert ((i - a) * P + pb i <= b * P + pb b - a * P).
  { destruct (page_end i b) as [Hpe _]; [lia|lia|]. destruct (pb_plain P fs HP Hfs b) as (_ & _ & _ & ?); [lia|].
    destruct (Z.eq_dec i b) as [->|]; [lia|]. specialize (Hpe ltac:(lia)). lia. }
  eexists. split; [exact Hs|]. unfold run_out.
  rewrite zsub_zsplice_inner; rewrite ?zlen_zsub; try lia.
  rewrite !zsub_zsub by lia. f_equal. lia.
Qed.

Lemma run_out_other out d a b i :
  first <= a <= b -> b <= last_ -> zlen out = len -> zlen d = b * P + pb b - a * P ->
  first <= i <= last_ -> (i < a \/ b < i) -> filled out i -> filled (run_out out d a b) i.
Proof using HP Hfs Hoff Hlen Hend.
  intros Ha Hb Ho Hd Hi Hap Hf. destruct (run_bounds a b Ha Hb) as (? & ? & ? & ? & ?).
  assert (zlen (zsub d (lo a - a * P) (hi b - lo a)) = hi b - lo a) as Hz by (apply zlen_zsub; lia).
  apply filled_splice; rewrite ?Hz; [done|done|lia|lia|]. destruct Hap.
  - left. pose proof (req_apart i a ltac:(lia) ltac:(lia) ltac:(lia)). lia.
  - right. pose proof (req_apart b i ltac:(lia) ltac:(lia) ltac:(lia)). lia.
Qed.

(** The two ways the source copies are this one. *)
Lemma run_copy out d a b :
  first <= a <= b -> b <= last_ -> zlen d = b * P + pb b - a * P ->
  let rStart := a * P in let rBytes := b * P + pb b - a * P in
  (if (off <=? rStart) && (rStart + rBytes <=? off + len) then zsplice out (rStart - off) d
   else zsplice out (Z.max off rStart - off)
          (zsub d (Z.max off rStart - rStart) (Z.min (off + len) (rStart + rBytes) - Z.max off rStart)))
  = run_out out d a b.
Proof using.
  intros Ha Hb Hd rStart rBytes. unfold run_out, lo, hi, rStart, rBytes.
  replace (a * P + (b * P + pb b - a * P)) with (b * P + pb b) by lia.
  destruct (_ && _) eqn:E; [|done]. b2p. rewrite Z.max_r, Z.min_r by lia.
  rewrite Z.sub_diag. f_equal. symmetry. apply zsub_all. lia.
Qed.

Lemma read_runs_ok crcs runs out a (s : St) out' a' s' :
  Inv (fst s) -> same_src e (fst s) -> fsview s = s0 -> zlen out = len ->
  (forall r, r ∈ runs -> run_ok (last_ + 1) crcs r) ->
  (forall i, first <= i <= last_ -> filled out i \/ in_runs runs i) ->
  read_runs (meta_ e) off len crcs runs out a s = ((true, out', a'), s') ->
  zlen out' = len /\ forall i, first <= i <= last_ -> filled out' i.
Proof using HP Hfs Hoff Hlen Hend.
  revert out a s. induction runs as [|r runs IH]; intros out a s Hi Hsrc Hv Ho Hruns Hcov Hrr.
  { injection Hrr as <- <- <-. split; [done|]. intros i Hr. destruct (Hcov i Hr) as [?|(r & Hr' & _)]; [done|].
    by apply elem_of_nil in Hr'. }
  cbn [read_runs] in Hrr. destruct (Hruns r ltac:(by left)) as (R1 & R2 & R3 & R4 & R5). pose proof req_pages.
  set (ra := firstPage r) in *. set (rb := lastPage r) in *.
  apply mbind_inv in Hrr as ([ok d] & s1 & Hrv & Hrr). cbn [fst snd] in Hrr.
  destruct ok; cbn [negb] in Hrr; [|injection Hrr; done].
  destruct (readVerifyRun_true ra rb (drop (Z.to_nat (crcBase r)) crcs) _ _ _ Hi ltac:(lia) ltac:(lia)
    ltac:(rewrite zlen_drop by lia; lia) Hrv) as (Es & Ev & Hd & (f & Hf & Hfd) & Hcrc).
  apply mbind_inv in Hrr as (prev & s2 & Hsw & Hrr). injection Hsw as _ <-.
  destruct Hsrc as (Hmeta & Hdfd & Hsd).
  pose proof (i_meta _ _ _ Hi) as Hm. rewrite Hmeta in Hm.
  destruct (runBytes_plain (meta_ e) ra rb Hm ltac:(lia) ltac:(lia)) as [Er ?].
  destruct Hm as (HPm & _). rewrite HPm, Er in Hrr.
  destruct (pb_plain P fs HP Hfs ra) as (Ea & ? & _); [lia|].
  destruct (pb_plain P fs HP Hfs rb) as (_ & ? & ? & ?); [lia|].
  assert (0 <= ra * P) by (pose proof (P_range P HP); apply Z.mul_nonneg_nonneg; lia).
  rewrite Ea in Hrr. rewrite (w64_small (off + len)), (w64_small (ra * P + _)) in Hrr by lia.
  destruct (run_bounds ra rb ltac:(lia) ltac:(lia)) as (? & ? & ? & ? & ?).
  eassert (_ = run_out out d ra rb) as Hro by (apply (run_copy out d ra rb); [lia|lia|exact Hd]).
  cbv zeta in Hro.
  set (newout := if _ && _ then zsplice _ _ _ else _) in Hrr.
  assert (newout = run_out out d ra rb) as Hnew.
  { rewrite <- Hro. subst newout. destruct (_ && _) eqn:Ed.
    - b2p. f_equal. apply w64_small. lia.
    - replace (ra * P + (rb * P + pb rb - ra * P)) with (rb * P + pb rb) by lia.
      fold (lo ra) (hi rb). rewrite !w64_small by lia. done. }
  rewrite Hnew in Hrr. clear newout Hnew Hro.
  eapply IH, Hrr.
  - cbn [fst]. rewrite Es. apply (Inv_frame P fs (fst s)); try done. apply (i_meta _ _ _ Hi).
  - cbn [fst]. rewrite Es. done.
  - cbn [snd]. congruence.
  - by apply run_out_len; [lia|lia| |].
  - intros r' Hr'. apply Hruns. by right.
  - intros i Hir. destruct (decide (ra <= i <= rb)) as [Hin|Hout].
    + left. apply run_out_filled; [lia|lia|done|done|done|]. right.
      destruct (R5 i Hin) as (Hn & Hb & Hc). destruct (req_page i Hir) as (Hinp & _).
      destruct (pb_plain P fs HP Hfs i Hinp) as (_ & ? & ? & ?).
      assert (0 <= (i - ra) * P) by (pose proof (P_range P HP); apply Z.mul_nonneg_nonneg; lia).
      assert ((i - ra) * P + pb i <= rb * P + pb rb - ra * P).
      { destruct (page_end i rb) as [Hpe _]; [lia|lia|]. destruct (Z.eq_dec i rb) as [->|]; [lia|].
        specialize (Hpe ltac:(lia)). lia. }
      split; [done|]. split; [done|]. split; [rewrite zlen_zsub; lia|]. split.
      * rewrite Hcrc by lia. rewrite zget_drop by lia. exact Hc.
      * exists f. rewrite <- Hv, <- Hdfd. split; [done|]. rewrite Hfd. rewrite zsub_zsub by lia. f_equal. lia.
    + destruct (Hcov i Hir) as [Hf'|(r' & Hr' & Hri)].
      * left. apply run_out_other; [lia|lia|done|done|done|lia|done].
      * apply elem_of_cons in Hr' as [->|Hr']; [by destruct Hout|]. right. by exists r'.
Qed.
End request.

(** ** The whole method *)
Lemma noteActivity_world (s : St) x s' :
  noteActivity clockUs s = (x, s') -> fst s' = fst s /\ io_ (snd s') = io_ (snd s).
Proof using.
  unfold noteActivity. intros (t & s1 & [= <- <-] & [= <- <-])%mbind_inv. done.
Qed.

Lemma size_served_src e : same_src e (size_served e).
Proof using. unfold size_served. by destruct (_ =? 0). Qed.

Lemma plan_ok_init off len out e s0 :
  zlen out = len -> plan_ok off len e s0 (first off) (mkPlan (size_served e) out acct0 [] []).
Proof using.
  intros Ho. split; cbn [p_e p_out p_runs p_crcs].
  - apply size_served_src.
  - done.
  - intros r Hr. by apply elem_of_nil in Hr.
  - done.
  - intros i Hi. lia.
Qed.

(** What an answered request holds, page by page. *)
Definition served (s0 : IOBackend.fs) (e : FileEntry) (off len : Z) (out : bytes) : Prop :=
  off + len <= fs /\ zlen out = len /\
  forall i, off / P <= i <= (off + len - 1) / P ->
    let lo := Z.max off (i * P) in
    let hi := Z.min (off + len) (i * P + pb i) in
    lo < hi /\ exists d, page_src s0 e i d /\ zsub out (lo - off) (hi - lo) = zsub d (lo - i * P) (hi - lo).

Lemma readCached_served off len out account (s : St) out' s' :
  Inv (fst s) -> 0 <= off < p64 -> 0 < len < p64 -> zlen out = len ->
  readCached clockS clockUs off len out account s = ((true, out'), s') ->
  served (fsview s) (fst s) off len out'.
Proof using HP Hfs.
  intros He Hoff Hlen Ho Hrc. unfold readCached in Hrc.
  apply mbind_inv in Hrc as (u & s1 & Hact & Hrc).
  assert (fst s1 = fst s /\ io_ (snd s1) = io_ (snd s)) as [E1 E2].
  { destruct account; cbn in Hact; [by eapply noteActivity_world|]. by injection Hact as _ <-. }
  replace (len =? 0) with false in Hrc by (symmetry; apply Z.eqb_neq; lia).
  apply mbind_inv in Hrc as (e0 & s2 & [= <- <-] & Hrc). rewrite E1 in Hrc.
  pose proof (i_meta _ _ _ He) as (HPm & Hfm & _). rewrite HPm, Hfm in Hrc.
  destruct (_ || _) eqn:Eg in Hrc; [injection Hrc; done|]. b2p.
  rewrite (w64_add_no_wrap off len) in * by lia. rewrite (w64_small (off + len - 1)) in Hrc by lia.
  fold (first off) (last_ off len) in Hrc.
  apply mbind_inv in Hrc as ([present pl] & s3 & Hpl & Hrc).
  unfold locked, plan_locked in Hpl. rewrite E1 in Hpl.
  destruct (plan_loop off len account _ _) as [ok pl'] eqn:Eplan. injection Hpl as -> -> <-.
  destruct present; cbn [negb] in Hrc; [|apply mbind_inv in Hrc as (? & ? & _ & [= ?]); done].
  apply mbind_inv in Hrc as ([[ok out1] a1] & s4 & Hrr & Hrc).
  destruct ok; cbn [negb] in Hrc; [|apply mbind_inv in Hrc as (? & ? & _ & [= ?]); done].
  assert (out1 = out') as ->.
  { apply mbind_inv in Hrc as (a2 & s5 & _ & Hrc). apply mbind_inv in Hrc as (? & s6 & _ & Hrc).
    destruct account; cbn [negb] in Hrc; [|by injection Hrc as <- _].
    repeat apply mbind_inv in Hrc as (? & ? & _ & Hrc). by injection Hrc as <- _. }
  destruct (size_served_inv P fs HP Hfs _ He) as [Hs1 Hs2].
  destruct (req_pages off len ltac:(lia) ltac:(lia) ltac:(lia)) as (? & ? & ?).
  destruct (plan_loop_ok off len ltac:(lia) ltac:(lia) ltac:(lia) (fst s) (fsview s) account (first off)
    (mkPlan (size_served (fst s)) out acct0 [] []) pl ltac:(lia) (plan_ok_init _ _ _ _ _ Ho) Hs1 Hs2 Eplan) as [[] Hpe].
  rewrite <- E1 in Hrr at 1. rewrite E1 in Hrr.
  destruct (read_runs_ok off len ltac:(lia) ltac:(lia) ltac:(lia) (fst s) (fsview s) (p_crcs pl) (p_runs pl)
    (p_out pl) (p_acct pl) (p_e pl, snd s1) out' a1 s4 Hpe po_src0 ltac:(cbn; by rewrite E2) po_len0 po_runs0
    ltac:(intros; apply po_cov0; lia) Hrr) as [Hl Hf].
  split; [lia|]. split; [done|]. intros i Hi. destruct (Hf i Hi) as (d & Hd1 & Hd2).
  destruct (req_page off len ltac:(lia) ltac:(lia) ltac:(lia) i Hi) as (_ & ? & _).
  split; [unfold lo, hi in *; lia|]. by exists d.
Qed.
End read.

(** C1: whatever the disk returns, [readCached] never serves an unverified byte. If
    it answers a request, the request lies inside the file, the whole buffer was
    written, and the part of every page in it comes from that page's staged
    payload or from the data file through a full page whose CRC32C equals the
    sidecar's CRC for it. *)
Theorem readCached_verified {W} `{!IOBackend W, !IOLaws W} `{CK : Checksum} (clockS clockUs : nat -> Z)
    (P fs : Z) (off len : Z) (out out' : bytes) (account : bool) (s s' : @St W)
    (HP : Config.validPageSize P = true) (Hfs : 0 <= fs < p63) (He : Inv P fs (fst s))
    (Hoff : 0 <= off < p64) (Hlen : 0 < len < p64) (Hout : zlen out = len)
    (Hrc : readCached clockS clockUs off len out account s = ((true, out'), s')) :
  served P fs (view (io_ (snd s))) (fst s) off len out'.
Proof. by eapply readCached_served. Qed.

(** The data file of [EntryInv.e4] on a memory disk: page 0 is resident, page 1
    staged speculatively; the request crosses both. *)
Definition demo_disk (faults : list fault) : memw :=
  mkMem (mkFs {[ bs "d" := 1 ]} {[ 1 := mkInode (zeros 10000) 1 0 0 ]} {[ 3 := 1 ]}) faults.
Definition demo_world (faults : list fault) : @World memw :=
  mkWorld (demo_disk faults) 0 4096 0 (fun _ => 0) [] 0.

Lemma readCached_verified_witness :
  exists out' s', readCached (fun _ => 0) (fun _ => 0) 4000 200 (zeros 200) true (e4, demo_world [])
                    = ((true, out'), s') /\
    served 4096 10000 (view (demo_disk [])) e4 4000 200 out'.
Proof.
  destruct (readCached (fun _ => 0) (fun _ => 0) 4000 200 (zeros 200) true (e4, demo_world [])) as [[b out'] s'] eqn:E.
  assert (b = true) as ->.
  { transitivity (fst (fst (readCached (fun _ => 0) (fun _ => 0) 4000 200 (zeros 200) true (e4, demo_world [])))).
    - by rewrite E.
    - vm_compute. reflexivity. }
  exists out', s'. split; [reflexivity|].
  apply (readCached_verified (fun _ => 0) (fun _ => 0) 4096 10000 4000 200 (zeros 200) out' true (e4, demo_world []) s');
    [reflexivity|lia|exact demo_inv|lia|lia|reflexivity|exact E].
Defined.

End EntryRead.
