(* ===== verification/FileEntryFlush.v ===== *)
(** * The flush writes data before bits (FileEntry::flushBuffer)

    Whatever write or sync fails, the pages a flush may publish are pages of its
    snapshot whose bytes are in the data file, and no page outside the snapshot
    changed on disk. *)

From stdpp Require Import sorting.
From S2P Require Import Prelude IOBackend Crc32c PageBitmap Config MetaFile UrlKey FileEntry FileEntryInv FileEntryRead.

Module EntryFlush.
Import Meta Entry EntryInv EntryRead.

Section flush.
Context {W : Type} `{!IOBackend W, !IOLaws W} `{CK : Checksum}.
Context (cfg : Config.Config) (clockUs : nat -> Z).
Context (P fs : Z) (HP : Config.validPageSize P = true) (Hfs : 0 <= fs < p63).
Abbreviation np := (np P fs).
Abbreviation pb := (pb P fs).
Abbreviation meta_ok := (meta_ok P fs).
Abbreviation page_ok := (page_ok P fs).
Abbreviation Inv := (Inv P fs).
Abbreviation St := (@St W).
Abbreviation fsview s := (view (io_ (snd s : World))).

Definition entry_of (ip : Z * BufPage) : Z * Z := (fst ip, bcrc (snd ip)).

(** ** One coalesced run *)
Lemma take_run_spec m next size l run pages rest :
  meta_ok m -> Forall (fun ip => page_ok (fst ip) (snd ip)) l ->
  take_run m next size l = (run, pages, rest) ->
  exists pre, l = pre ++ rest /\ pages = map entry_of pre /\
    map fst pre = zrange next (next + zlen pre) /\ run = concat (map (fun ip => data (snd ip)) pre).
Proof using.
  intros Hm Hl. revert next size run pages. induction Hl as [|[i p] l Hp Hl IH]; intros next size run pages.
  { intros [= <- <- <-]. exists []. rewrite Z.add_0_r, zrange_nil by lia. done. }
  cbn [take_run]. destruct (_ && _) eqn:E; b2p.
  2: { intros [= <- <- <-]. exists []. rewrite Z.add_0_r, zrange_nil by lia. done. }
  destruct (take_run m (next + 1) _ l) as [[run' pages'] rest'] eqn:Et. intros [= <- <- <-].
  destruct (IH _ _ _ _ Et) as (pre & -> & -> & Hk & ->). exists ((i, p) :: pre). subst i.
  rewrite zlen_cons. pose proof (zlen_nonneg pre). split; [done|]. split; [done|]. split.
  - cbn [map fst]. rewrite Hk. rewrite (zrange_cons next) by lia. do 2 f_equal. lia.
  - cbn [map concat snd]. f_equal. destruct Hp as (_ & Hz & _). cbn [fst snd] in Hz.
    apply zsub_all. by rewrite (meta_ok_pb P fs m next Hm).
Qed.

Lemma take_run_progress m i p l run pages rest :
  take_run m i 0 ((i, p) :: l) = (run, pages, rest) -> (length rest <= length l)%nat.
Proof using.
  cbn [take_run]. rewrite Z.eqb_refl. cbn [andb]. change (0 <? kMaxRun) with true.
  assert (forall l next size run pages rest, take_run m next size l = (run, pages, rest) ->
    (length rest <= length l)%nat) as G.
  { clear. induction l as [|[i p] l IH]; intros next size run pages rest; cbn; [by intros [= _ _ <-]|].
    destruct (_ && _); [|by intros [= _ _ <-]].
    destruct (take_run m (next + 1) _ l) as [[? ?] ?] eqn:E. intros [= _ _ <-]. apply IH in E. lia. }
  destruct (take_run m (i + 1) _ l) as [[? ?] ?] eqn:E. intros [= _ _ <-]. by apply G in E.
Qed.

(** Consecutive full pages lie one page apart in the run. *)
Lemma run_slices first pre :
  0 <= first -> Forall (fun ip => page_ok (fst ip) (snd ip)) pre ->
  map fst pre = zrange first (first + zlen pre) ->
  let run := concat (map (fun ip => data (snd ip)) pre) in
  (pre <> [] -> zlen run = (first + zlen pre - 1) * P + pb (first + zlen pre - 1) - first * P) /\
  forall i p, (i, p) ∈ pre -> first <= i < first + zlen pre /\ zsub run ((i - first) * P) (pb i) = data p /\
    (i - first) * P + pb i <= zlen run.
Proof using HP Hfs.
  pose proof (P_range P HP) as HPr. intros Hf Hp. revert first Hf.
  induction Hp as [|[j q] pre Hq Hp IH]; intros first Hf Hk run.
  { split; [done|]. intros i p Hin. by apply elem_of_nil in Hin. }
  rewrite zlen_cons in *. pose proof (zlen_nonneg pre). cbn [map fst] in Hk.
  rewrite (zrange_cons first) in Hk by lia. injection Hk as -> Hk.
  replace (first + (1 + zlen pre)) with (first + 1 + zlen pre) in * by lia.
  destruct (IH (first + 1) ltac:(lia) Hk) as [IHl IHs]. destruct Hq as (Hi & Hz & _). cbn [fst snd] in Hi, Hz.
  subst run. cbn [map concat snd] in *. set (run' := concat (map _ pre)) in *.
  destruct (pb_plain P fs HP Hfs first Hi) as (_ & ? & ? & ?). rewrite zlen_app, Hz.
  destruct pre as [|x pre'].
  - cbn in run'. subst run'. change (zlen (@nil (Z * BufPage))) with 0 in *. change (zlen (@nil Z)) with 0 in *. split.
    + intros _. replace (first + 1 + 0 - 1) with first by lia. rewrite ?zlen_nil; lia.
    + intros i p [= -> ->]%list_elem_of_singleton. rewrite Z.sub_diag, app_nil_r.
      split; [lia|]. split; [by apply zsub_all|]. rewrite ?zlen_nil; lia.
  - specialize (IHl ltac:(done)). set (pre := x :: pre') in *.
    assert (pb first = P) as Epb.
    { apply (last_short P fs HP Hfs); [done|]. destruct x as [jx qx].
      rewrite Forall_forall in Hp. destruct (Hp (jx, qx) ltac:(by left)) as (Hjx & _). cbn [fst] in Hjx.
      subst pre. cbn [map fst] in Hk. rewrite zlen_cons in Hk. pose proof (zlen_nonneg pre').
      rewrite (zrange_cons (first + 1)) in Hk by lia. injection Hk as -> _. lia. }
    split; [intros _; lia|]. intros i p [[= -> ->]|Hin]%elem_of_cons.
    + rewrite Z.sub_diag. pose proof (zlen_nonneg run'). split; [lia|]. split; [by apply zsub_app|lia].
    + destruct (IHs i p Hin) as (? & Hs & ?). split; [lia|]. rewrite <- Hs. split; [|lia].
      assert (0 <= (i - (first + 1)) * P) by (apply Z.mul_nonneg_nonneg; lia).
      rewrite zsub_app_r by lia. f_equal. lia.
Qed.

(** ** Its effect on the data file *)
Definition page_at (d : bytes) (i : Z) : bytes := zsub d (i * P) (pb i).

Lemma file_updated_open (Q : bytes -> bytes -> Prop) s fd s' f :
  file_updated Q s fd s' -> open_file s fd = Some f ->
  exists f', open_file s' fd = Some f' /\ Q (i_data f) (i_data f').
Proof using.
  intros (ino & g & g' & Hfd & Hg & _ & HQ & ->) Hf. unfold open_file in *. cbn in *. rewrite Hfd in *. cbn in *.
  rewrite Hg in Hf. injection Hf as <-. exists g'. by rewrite lookup_insert_eq.
Qed.

(** Bytes outside [[a * P, a * P + n)] keep every page that is not in it. *)
Lemma within_pages a b n d d' :
  0 <= a <= b -> b < np -> n = b * P + pb b - a * P -> fs <= zlen d -> within (a * P) n d d' ->
  fs <= zlen d' /\ forall i, 0 <= i < np -> (i < a \/ b < i) -> page_at d' i = page_at d i.
Proof using HP Hfs.
  intros Hab Hb -> Hd [Hl Hw]. split; [lia|]. intros i Hi Hout.
  destruct (pb_plain P fs HP Hfs i Hi) as (_ & ? & ? & ?). pose proof (P_range P HP).
  assert (0 <= i * P) by (apply Z.mul_nonneg_nonneg; lia).
  apply Hw; [lia|lia|lia|]. destruct Hout.
  - left. destruct (page_end P fs HP Hfs i a) as [Hpe _]; [lia|lia|]. apply Hpe. lia.
  - right. destruct (page_end P fs HP Hfs b i) as [Hpe _]; [lia|lia|]. specialize (Hpe ltac:(lia)). lia.
Qed.

Lemma pre_bounds first pre :
  pre <> [] -> Forall (fun ip => page_ok (fst ip) (snd ip)) pre -> map fst pre = zrange first (first + zlen pre) ->
  0 <= first <= first + zlen pre - 1 /\ first + zlen pre - 1 < np /\
  forall i, (i ∈ map fst pre) <-> first <= i <= first + zlen pre - 1.
Proof using.
  intros Hne Hp Hk. assert (0 < zlen pre) by (destruct pre; [done|rewrite zlen_cons; pose proof (zlen_nonneg pre); lia]).
  assert (forall i, (i ∈ map fst pre) <-> first <= i <= first + zlen pre - 1) as Hm.
  { intros i. rewrite Hk, elem_of_zrange. lia. }
  assert (forall i, i ∈ map fst pre -> 0 <= i < np) as Hr.
  { intros i Hi. apply list_elem_of_fmap in Hi as (ip & -> & Hin). rewrite Forall_forall in Hp. by apply Hp. }
  split; [|split; [|done]].
  - split; [|lia]. apply Hr, Hm. lia.
  - apply Hr, Hm. lia.
Qed.

Lemma run_written first pre s fd s' f :
  pre <> [] -> Forall (fun ip => page_ok (fst ip) (snd ip)) pre -> map fst pre = zrange first (first + zlen pre) ->
  let run := concat (map (fun ip => data (snd ip)) pre) in
  open_file s fd = Some f -> fs <= zlen (i_data f) ->
  written run (first * P) (zlen run) s fd s' ->
  exists f', open_file s' fd = Some f' /\ fs <= zlen (i_data f') /\
    (forall i p, (i, p) ∈ pre -> page_at (i_data f') i = data p) /\
    (forall i, 0 <= i < np -> i ∉ map fst pre -> page_at (i_data f') i = page_at (i_data f) i).
Proof using HP Hfs.
  intros Hne Hp Hk run Hf Hlen Hw. destruct (pre_bounds first pre Hne Hp Hk) as (Ha & Hb & Hmem).
  destruct (run_slices first pre ltac:(lia) Hp Hk) as [Hrl Hsl]. fold run in Hrl, Hsl. specialize (Hrl Hne).
  set (b := first + zlen pre - 1) in *. pose proof (P_range P HP).
  destruct (pb_plain P fs HP Hfs first ltac:(lia)) as (_ & ? & ? & ?).
  destruct (pb_plain P fs HP Hfs b ltac:(lia)) as (_ & ? & ? & ?).
  assert (0 <= first * P <= b * P) by (split; [apply Z.mul_nonneg_nonneg|apply Z.mul_le_mono_nonneg_r]; lia).
  destruct Hw as [[Hz0 _]|Hu]; [lia|].
  destruct (file_updated_open _ _ _ _ _ Hu Hf) as (f' & Hf' & Hd).
  rewrite zsub_all in Hd by done. exists f'. split; [done|].
  destruct (within_pages first b (zlen run) (i_data f) (i_data f') Ha Hb Hrl Hlen) as [Hl' Hoth].
  { rewrite Hd. apply write_at_within; lia. }
  split; [done|]. split.
  - intros i p Hin. destruct (Hsl i p Hin) as (Hi & Hs & Hle).
    assert (0 <= (i - first) * P) by (apply Z.mul_nonneg_nonneg; lia).
    assert (0 < pb i) by (apply (pb_plain P fs HP Hfs); lia).
    unfold page_at. rewrite Hd, write_at_inside by lia.
    rewrite zsub_zsplice_inner by lia. rewrite <- Hs. f_equal. lia.
  - intros i Hi Hin. apply Hoth; [done|]. rewrite Hmem in Hin. lia.
Qed.

Lemma run_scribbled first pre s fd s' f :
  pre <> [] -> Forall (fun ip => page_ok (fst ip) (snd ip)) pre -> map fst pre = zrange first (first + zlen pre) ->
  let run := concat (map (fun ip => data (snd ip)) pre) in
  open_file s fd = Some f -> fs <= zlen (i_data f) ->
  scribbled (first * P) (zlen run) s fd s' ->
  exists f', open_file s' fd = Some f' /\ fs <= zlen (i_data f') /\
    (forall i, 0 <= i < np -> i ∉ map fst pre -> page_at (i_data f') i = page_at (i_data f) i).
Proof using HP Hfs.
  intros Hne Hp Hk run Hf Hlen [->|Hu]; [by exists f|].
  destruct (pre_bounds first pre Hne Hp Hk) as (Ha & Hb & Hmem).
  destruct (run_slices first pre ltac:(lia) Hp Hk) as [Hrl _]. fold run in Hrl. specialize (Hrl Hne).
  destruct (file_updated_open _ _ _ _ _ Hu Hf) as (f' & Hf' & Hd). exists f'. split; [done|].
  destruct (within_pages first (first + zlen pre - 1) (zlen run) _ _ Ha Hb Hrl Hlen Hd) as [? Hoth].
  split; [done|]. intros i Hi Hin. apply Hoth; [done|]. rewrite Hmem in Hin. lia.
Qed.

(** ** The loop *)
Definition failopens (s : St) : Z := stats_ (snd s) failopenEvents.

Lemma bump_inv c n (s : St) x s' :
  bump c n s = (x, s') -> fst s' = fst s /\ fsview s' = fsview s /\
    failopens s' = if decide (failopenEvents = c) then failopens s +% n else failopens s.
Proof using. by intros [= _ <-]. Qed.

Lemma now_inv (s : St) x s' :
  nowUsSteady clockUs s = (x, s') -> fst s' = fst s /\ fsview s' = fsview s /\ failopens s' = failopens s.
Proof using. by intros [= _ <-]. Qed.

Lemma no_wrap_eq x : x +% 1 <> x.
Proof using.
  intros E. pose proof (w64_range (x + 1)) as R. rewrite E in R. unfold w64 in E.
  destruct (Z.eq_dec x (p64 - 1)) as [->|]; [by vm_compute in E|]. rewrite Z.mod_small in E by lia. lia.
Qed.
Lemma no_wrap_eq2 x : x +% 1 +% 1 <> x.
Proof using.
  intros E. pose proof (w64_range (x +% 1 + 1)) as R. rewrite E in R. unfold w64 in E.
  rewrite Z.add_mod_idemp_l in E by lia.
  destruct (Z.lt_ge_cases (x + 2) p64); [rewrite Z.mod_small in E; lia|].
  rewrite Z.mod_eq in E by lia. assert ((x + 1 + 1) / p64 = 1) as Hd; [|lia].
  symmetry. apply (Z.div_unique _ _ _ (x + 2 - p64)); lia.
Qed.

(** What a (possibly interrupted) write of the pages [l] did: [pre] of them are
    on disk, everything that is not in [l] is as it was. *)
Definition wrote (fd : Z) (l pre : list (Z * BufPage)) (s0 s1 : IOBackend.fs) : Prop :=
  forall f, open_file s0 fd = Some f -> fs <= zlen (i_data f) ->
  exists f', open_file s1 fd = Some f' /\ fs <= zlen (i_data f') /\
    (forall i p, (i, p) ∈ pre -> page_at (i_data f') i = data p) /\
    (forall i, 0 <= i < np -> i ∉ map fst l -> page_at (i_data f') i = page_at (i_data f) i).

Lemma wrote_app fd a b pre s0 s1 s2 :
  NoDup (map fst (a ++ b)) -> Forall (fun ip => page_ok (fst ip) (snd ip)) a ->
  wrote fd a a s0 s1 -> wrote fd b pre s1 s2 -> wrote fd (a ++ b) (a ++ pre) s0 s2.
Proof using.
  intros Hnd Ha W1 W2 f Hf Hl. destruct (W1 f Hf Hl) as (f1 & Hf1 & Hl1 & Hin1 & Hout1).
  destruct (W2 f1 Hf1 Hl1) as (f2 & Hf2 & Hl2 & Hin2 & Hout2). exists f2. split; [done|]. split; [done|].
  rewrite map_app in *. apply NoDup_app in Hnd as (_ & Hnd & _). split.
  - intros i p [Hi|Hi]%elem_of_app; [|by apply Hin2]. rewrite <- (Hin1 i p Hi). apply Hout2.
    + rewrite Forall_forall in Ha. by apply (Ha (i, p) Hi).
    + apply Hnd. apply list_elem_of_fmap. by exists (i, p).
  - intros i Hi Hn. rewrite not_elem_of_app in Hn. destruct Hn. rewrite Hout2, Hout1; done.
Qed.

Lemma wrote_nil fd l s : wrote fd l [] s s.
Proof using. intros f Hf Hl. exists f. split; [done|]. split; [done|]. split; [|done]. intros i p Hi. by apply elem_of_nil in Hi. Qed.

Lemma flush_runs_spec fuel m fd l acc wr (s : St) pub wr' s' :
  meta_ok m -> (length l <= fuel)%nat -> NoDup (map fst l) ->
  Forall (fun ip => page_ok (fst ip) (snd ip)) l -> Forall (fun ip => Forall is_byte (data (snd ip))) l ->
  flush_runs clockUs fuel m fd l acc wr s = ((pub, wr'), s') ->
  fst s' = fst s /\ exists pre rest, l = pre ++ rest /\ pub = acc ++ map entry_of pre /\
    wrote fd l pre (fsview s) (fsview s') /\
    ((failopens s' = failopens s /\ rest = []) \/ failopens s' = failopens s +% 1).
Proof using HP Hfs.
  intros Hm. revert l acc wr s. induction fuel as [|fuel IH]; intros l acc wr s Hlen Hnd Hok Hby Hrun.
  { destruct l; [|simpl in Hlen; lia]. injection Hrun as <- <- <-. split; [done|]. exists [], [].
    split; [done|]. split; [by rewrite app_nil_r|]. split; [apply wrote_nil|by left]. }
  destruct l as [|[i p] l].
  { injection Hrun as <- <- <-. split; [done|]. exists [], [].
    split; [done|]. split; [by rewrite app_nil_r|]. split; [apply wrote_nil|by left]. }
  cbn [flush_runs] in Hrun. destruct (take_run m i 0 ((i, p) :: l)) as [[run pages] rest] eqn:Et.
  pose proof (take_run_progress _ _ _ _ _ _ _ Et) as Hprog.
  destruct (take_run_spec m _ _ _ _ _ _ Hm Hok Et) as (pre & Hl & -> & Hk & ->).
  assert (pre <> []) as Hne by (intros ->; apply (f_equal length) in Hl; simpl in Hl; simpl in Hprog; lia).
  assert (length rest <= fuel)%nat as Hfuel by (simpl in Hlen; lia).
  rewrite Hl in *. apply Forall_app in Hok as [Hok1 Hok2]. apply Forall_app in Hby as [Hby1 Hby2].
  set (run := concat (map (fun ip => data (snd ip)) pre)) in *.
  apply mbind_inv in Hrun as (t0 & s1 & (E1 & V1 & F1)%now_inv & Hrun).
  apply mbind_inv in Hrun as (w & s2 & Hio & Hrun). apply io_inv in Hio as (w2 & Hpw & ->).
  destruct (pre_bounds i pre Hne Hok1 Hk) as (Ha & Hb & _).
  destruct (pb_plain P fs HP Hfs i ltac:(lia)) as (Ei & ? & ? & ?). destruct Hm as (HPm & Hm'). rewrite HPm, Ei in Hpw.
  destruct (run_slices i pre ltac:(lia) Hok1 Hk) as [Hrl _]. specialize (Hrl Hne). fold run in Hrl.
  destruct (pb_plain P fs HP Hfs (i + zlen pre - 1) ltac:(lia)) as (_ & ? & ? & ?).
  assert (0 <= i * P) by (apply Z.mul_nonneg_nonneg; [lia|pose proof (P_range P HP); lia]).
  assert (Forall is_byte run) as Hrb.
  { unfold run. clear -Hby1. induction Hby1; cbn; [constructor|by apply Forall_app_2]. }
  destruct (pwriteFull_spec fd run (i * P) _ _ _ ltac:(lia) ltac:(lia) Hrb Hpw) as [[-> Hwr]|[Hneg Hsc]].
  - rewrite Z.eqb_refl in Hrun. cbn [negb] in Hrun.
    apply mbind_inv in Hrun as (t1 & s3 & (E3 & V3 & F3)%now_inv & Hrun).
    apply mbind_inv in Hrun as (u1 & s4 & (E4 & V4 & F4)%bump_inv & Hrun).
    apply mbind_inv in Hrun as (u2 & s5 & (E5 & V5 & F5)%bump_inv & Hrun).
    destruct (IH rest _ _ _ Hfuel
      ltac:(rewrite map_app in Hnd; by apply NoDup_app in Hnd as (_ & _ & ?)) Hok2 Hby2 Hrun)
      as (E6 & pre2 & rest2 & -> & -> & Hw2 & Hfin).
    rewrite decide_False in F4 by done. rewrite decide_False in F5 by done. cbn in E3, V3, F3. split; [congruence|]. exists (pre ++ pre2), rest2. split; [by rewrite app_assoc|].
    split; [by rewrite map_app, app_assoc|]. split.
    + eapply wrote_app; [done|done| |exact Hw2]. rewrite V5, V4, V3. rewrite <- V1.
      intros f Hf Hfl. eapply (run_written i pre); eauto.
    + unfold failopens in *. cbn in F3. rewrite F5, F4, F3, F1 in Hfin. exact Hfin.
  - replace (w =? zlen run) with false in Hrun by (symmetry; apply Z.eqb_neq; pose proof (zlen_nonneg run); lia).
    cbn [negb] in Hrun. apply mbind_inv in Hrun as (u1 & s4 & (E4 & V4 & F4)%bump_inv & [= <- <- <-]).
    rewrite decide_True in F4 by done. cbn in E4, V4. unfold failopens in F4. cbn in F4. split; [congruence|]. exists [], (pre ++ rest). rewrite app_nil_r. split; [done|]. split; [done|]. split.
    + intros f Hf Hfl. rewrite V4. rewrite <- V1 in Hf.
      destruct (run_scribbled i pre _ _ _ f Hne Hok1 Hk Hf Hfl Hsc) as (f' & ? & ? & Ho). exists f'.
      split; [done|]. split; [done|]. split; [intros j q Hj; by apply elem_of_nil in Hj|].
      intros j Hj Hn. apply Ho; [done|]. rewrite map_app, not_elem_of_app in Hn. tauto.
    + right. unfold failopens in *. by rewrite F4, F1.
Qed.

(** ** The snapshot in page order *)
Lemma elem_of_in_order b i p : (i, p) ∈ in_order b <-> b !! i = Some p.
Proof using. unfold in_order. rewrite merge_sort_Permutation. apply elem_of_map_to_list. Qed.
Lemma NoDup_in_order b : NoDup (map fst (in_order b)).
Proof using.
  unfold in_order. rewrite (Permutation_map fst (merge_sort_Permutation _ _)).
  apply NoDup_fst_map_to_list.
Qed.

(** Publishing a list of pages. *)
Definition bit_of (e : FileEntry) (i : Z) : bool := Bitmap.get (bitmap (meta_ e)) i.
Definition crc_of (e : FileEntry) (i : Z) : Z := zget (pageCrcs (meta_ e)) i.

Lemma publishPage_at e pg c i :
  Inv e -> 0 <= pg < np -> 0 <= i < np ->
  bit_of (publishPage e pg c) i = (if decide (pg = i) then true else bit_of e i) /\
  crc_of (publishPage e pg c) i = (if decide (pg = i) then c else crc_of e i).
Proof using HP Hfs.
  intros He Hp Hi. destruct (i_meta _ _ _ He) as (_ & _ & Hb & Hz). unfold bit_of, crc_of. cbn.
  split; [by apply (bm_get_set P fs)|]. apply zget_zset; lia.
Qed.

Lemma publish_fold_at l e i :
  Inv e -> (forall pg c, (pg, c) ∈ l -> 0 <= pg < np) -> NoDup (map fst l) -> 0 <= i < np ->
  let e' := foldl (fun e pc => publishPage e (fst pc) (snd pc)) e l in
  (i ∉ map fst l -> bit_of e' i = bit_of e i /\ crc_of e' i = crc_of e i) /\
  (forall c, (i, c) ∈ l -> bit_of e' i = true /\ crc_of e' i = c).
Proof using HP Hfs.
  intros He Hl Hnd Hi. revert e He. induction l as [|[pg c] l IH]; intros e He e'.
  { split; [done|]. intros c Hc. by apply elem_of_nil in Hc. }
  cbn [map fst] in Hnd. apply NoDup_cons in Hnd as [Hpg Hnd]. subst e'. cbn [foldl fst snd].
  assert (0 <= pg < np) as Hpr by (apply (Hl pg c); by left).
  pose proof (publishPage_inv P fs HP Hfs e pg c He Hpr) as He1.
  destruct (IH (fun pg' c' Hin => Hl pg' c' ltac:(by right)) Hnd _ He1) as [IH1 IH2].
  destruct (publishPage_at e pg c i He Hpr Hi) as [B1 C1]. split.
  - cbn [map fst]. intros [Hne Hni]%not_elem_of_cons. destruct (IH1 Hni) as [-> ->]. rewrite B1, C1.
    rewrite !decide_False by congruence. done.
  - intros c' [[= -> ->]|Hin]%elem_of_cons; [|by apply IH2]. destruct (IH1 Hpg) as [-> ->].
    rewrite B1, C1. by rewrite !decide_True.
Qed.

Lemma fb_end_at l now e i :
  Inv e -> (forall pg c, (pg, c) ∈ l -> 0 <= pg < np) -> NoDup (map fst l) -> 0 <= i < np ->
  (i ∉ map fst l -> bit_of (fb_end l now e) i = bit_of e i /\ crc_of (fb_end l now e) i = crc_of e i) /\
  (forall c, (i, c) ∈ l -> bit_of (fb_end l now e) i = true /\ crc_of (fb_end l now e) i = c).
Proof using HP Hfs.
  intros He Hl Hnd Hi.
  assert (forall e, bit_of (mark_if_complete (set_dirty true e)) i = bit_of e i /\
                    crc_of (mark_if_complete (set_dirty true e)) i = crc_of e i) as Hmk.
  { intros e0. unfold mark_if_complete. by destruct (_ =? _). }
  pose proof (publish_fold_at l e i He Hl Hnd Hi) as H. cbv zeta in H. unfold fb_end.
  destruct l as [|x l]; [exact H|]. set (e1 := foldl _ _ _) in *.
  destruct (Hmk e1) as [M1 M2]. unfold bit_of, crc_of in *. cbn [meta_ set_lastBufFlushS set_flushInProgress set_flushing].
  rewrite M1, M2. exact H.
Qed.

Lemma fb_write_spec (s : St) pub wr s' :
  Inv (fst s) -> fb_write cfg clockUs s = ((pub, wr), s') ->
  fst s' = fst s /\ exists pre, wrote (dataFd_ (fst s)) (in_order (flushing_ (fst s))) pre (fsview s) (fsview s') /\
    (pub = map entry_of pre \/ pub = []) /\ (forall ip, ip ∈ pre -> ip ∈ in_order (flushing_ (fst s))) /\
    NoDup (map fst pre) /\
    (failopens s' = failopens s -> pub = map entry_of (in_order (flushing_ (fst s)))).
Proof using HP Hfs.
  intros He Hw. unfold fb_write in Hw. apply mbind_inv in Hw as (e & s0 & [= <- <-] & Hw).
  set (l := in_order (flushing_ (fst s))) in *.
  assert (Forall (fun ip => page_ok (fst ip) (snd ip)) l) as Hok.
  { apply Forall_forall. intros [i p] Hin%elem_of_in_order. by apply (i_fl _ _ _ He). }
  assert (Forall (fun ip => Forall is_byte (data (snd ip))) l) as Hby.
  { apply Forall_forall. intros [i p] Hin%elem_of_in_order. by apply (i_fl _ _ _ He i p Hin). }
  apply mbind_inv in Hw as ([pub1 wr1] & s1 & Hfr & Hw). cbn [fst] in Hw.
  destruct (flush_runs_spec (length l) _ _ l [] 0 s pub1 wr1 s1 (i_meta _ _ _ He) ltac:(done)
    (NoDup_in_order _) Hok Hby Hfr) as (E1 & pre & rest & Hl & Hp1 & Hwr & Hall). cbn [app] in Hp1.
  assert (forall ip, ip ∈ pre -> ip ∈ l) as Hsub by (intros; rewrite Hl; apply elem_of_app; by left).
  assert (NoDup (map fst pre)) as Hnd.
  { pose proof (NoDup_in_order (flushing_ (fst s))) as H. fold l in H. rewrite Hl, map_app in H.
    by apply NoDup_app in H as (? & _). }
  assert (failopens s1 = failopens s -> pub1 = map entry_of l) as Hfull.
  { intros E. destruct Hall as [[_ ->]|Hx]; [|rewrite Hx in E; by apply no_wrap_eq in E].
    rewrite app_nil_r in Hl. by rewrite Hl. }
  assert (forall pub' s'', pub' = pub1 -> s'' = s1 -> fst s'' = fst s /\ exists pre,
    wrote (dataFd_ (fst s)) l pre (fsview s) (fsview s'') /\ (pub' = map entry_of pre \/ pub' = []) /\
    (forall ip, ip ∈ pre -> ip ∈ l) /\ NoDup (map fst pre) /\ (failopens s'' = failopens s -> pub' = map entry_of l)) as Hdone.
  { intros pub' s'' -> ->. split; [done|]. exists pre. auto 10. }
  destruct pub1 as [|x xs] eqn:Epub; [injection Hw as <- <- <-; by apply Hdone|].
  destruct (decide _); [injection Hw as <- <- <-; by apply Hdone|].
  apply mbind_inv in Hw as (rc & s2 & (w2 & Hsync & ->)%io_inv & Hw).
  destruct (law_fdatasync _ _ _ _ Hsync) as [_ Hv2].
  destruct (rc <? 0).
  - apply mbind_inv in Hw as (u & s3 & (E3 & V3 & F3)%bump_inv & [= <- <- <-]).
    rewrite decide_True in F3 by done. cbn in E3, V3. unfold failopens in F3. cbn in F3.
    split; [congruence|]. exists pre. rewrite V3, Hv2. split; [done|]. split; [by right|]. split; [done|]. split; [done|].
    intros E. exfalso. unfold failopens in *. rewrite F3 in E.
    destruct Hall as [[Hx _]|Hx]; rewrite Hx in E; [by apply no_wrap_eq in E|by apply no_wrap_eq2 in E].
  - injection Hw as <- <- <-. cbn. split; [done|]. exists pre. rewrite Hv2. auto 10.
Qed.
End flush.

(** C4: data before bit, for every failure of any write or of the sync. After the
    write phase of a flush and the publication that ends it: a page that was not
    in the snapshot has its old bytes on disk, its old presence bit and its old
    CRC; a page whose bit is set now either was present before with the same CRC,
    or is a page of the snapshot whose staged payload is what the data file holds
    and whose recorded CRC is the CRC of those bytes; and if no failure was
    counted, every page of the snapshot was published. *)
Theorem flush_data_before_bit {W} `{!IOBackend W, !IOLaws W} `{CK : Checksum}
    (cfg : Config.Config) (clockUs : nat -> Z) (P fs now : Z) (s s' : @St W)
    (published : list (Z * Z)) (written : Z) (f : inode)
    (HP : Config.validPageSize P = true) (Hfs : 0 <= fs < p63) (He : Inv P fs (fst s))
    (Hopen : open_file (view (io_ (snd s))) (dataFd_ (fst s)) = Some f) (Hsize : fs <= zlen (i_data f))
    (Hw : fb_write cfg clockUs s = ((published, written), s')) :
  let e := fst s in
  let e' := fb_end published now (fst s') in
  (exists f', open_file (view (io_ (snd s'))) (dataFd_ e) = Some f' /\
    forall i, 0 <= i < np P fs ->
      (flushing_ e !! i = None ->
         page_at P fs (i_data f') i = page_at P fs (i_data f) i /\
         bit_of e' i = bit_of e i /\ crc_of e' i = crc_of e i) /\
      (bit_of e' i = true ->
         (bit_of e i = true /\ crc_of e' i = crc_of e i) \/
         exists p, flushing_ e !! i = Some p /\ page_at P fs (i_data f') i = data p /\
                   crc_of e' i = crc 0 (page_at P fs (i_data f') i))) /\
  (failopens s' = failopens s ->
     forall i p, flushing_ e !! i = Some p -> bit_of e' i = true /\ crc_of e' i = bcrc p).
Proof.
  cbv zeta. destruct (fb_write_spec cfg clockUs P fs HP Hfs s published written s' He Hw)
    as (E & pre & Hwr & Hpub & Hsub & Hnd & Hall). rewrite E.
  destruct (Hwr f Hopen Hsize) as (f' & Hf' & _ & Hin & Hout).
  assert (forall pg c, (pg, c) ∈ published -> exists p, (pg, p) ∈ pre /\ c = bcrc p) as Hp.
  { intros pg c Hc. destruct Hpub as [->| ->]; [|by apply elem_of_nil in Hc].
    apply list_elem_of_fmap in Hc as ([i p] & [= -> ->] & Hi). eauto. }
  assert (forall pg c, (pg, c) ∈ published -> 0 <= pg < np P fs) as Hr.
  { intros pg c Hc. destruct (Hp pg c Hc) as (p & Hpp & _). apply Hsub, elem_of_in_order in Hpp.
    by apply (i_fl _ _ _ He _ _ Hpp). }
  assert (NoDup (map fst published)) as Hnd2.
  { destruct Hpub as [->| ->]; [by rewrite map_map|constructor]. }
  split.
  - exists f'. split; [done|]. intros i Hi.
    destruct (fb_end_at P fs HP Hfs published now (fst s) i He Hr Hnd2 Hi) as [Hold Hnew].
    assert (i ∉ map fst published \/ exists c, (i, c) ∈ published) as [Hni|[c Hc]].
    { destruct (decide (i ∈ map fst published)) as [Hx|]; [right|by left].
      apply list_elem_of_fmap in Hx as ([j c] & -> & Hx). eauto. }
    + split; [|intros Hb; left; destruct (Hold Hni) as [B ->]; by rewrite <- B].
      intros Hnone. split; [|by apply Hold]. apply Hout; [done|].
      intros ([j p] & -> & Hj)%list_elem_of_fmap. apply elem_of_in_order in Hj. cbn in Hnone. congruence.
    + destruct (Hp i c Hc) as (p & Hpre & Hcp). pose proof (proj1 (elem_of_in_order _ _ _) (Hsub _ Hpre)) as Hfl.
      split; [intros Hnone; congruence|]. intros _. right. exists p. split; [done|].
      rewrite (Hin i p Hpre). split; [done|]. destruct (Hnew c Hc) as [_ ->]. rewrite Hcp.
      by apply (i_fl _ _ _ He _ _ Hfl).
  - intros Hno i p Hfl. destruct (i_fl _ _ _ He _ _ Hfl) as [(Hi & _) _].
    destruct (fb_end_at P fs HP Hfs published now (fst s) i He Hr Hnd2 Hi) as [_ Hnew].
    apply Hnew. rewrite (Hall Hno). apply list_elem_of_fmap. exists (i, p). split; [done|].
    by apply elem_of_in_order.
Qed.

(** The flush begun in [EntryInv.e3]; the second run has the disk full. *)
Lemma e3_inv : Inv 4096 10000 e3.
Proof.
  apply fb_begin_inv; [reflexivity|lia| |intros _; vm_compute; reflexivity].
  apply spec_locked_inv; [reflexivity|lia| |apply Forall_zeros|lia|lia|reflexivity].
  apply stage_locked_inv; [reflexivity|lia| |apply Forall_zeros|lia|lia|reflexivity].
  apply fresh_entry_inv; [reflexivity|lia|exact demo_meta_ok].
Qed.

Lemma flush_data_before_bit_witness :
  let run faults := fb_write demo_cfg (fun _ => 0) (e3, demo_world faults) in
  bit_of (fb_end (fst (fst (run []))) 5 e3) 0 = true /\ fst (fst (run [FErr ENOSPC])) = [].
Proof.
  intros run. split; [|vm_compute; reflexivity].
  destruct (run []) as [[pub wr] s'] eqn:E.
  destruct (flush_data_before_bit demo_cfg (fun _ => 0) 4096 10000 5 (e3, demo_world []) s' pub wr
    (mkInode (zeros 10000) 1 0 0) ltac:(reflexivity) ltac:(lia) e3_inv ltac:(vm_compute; reflexivity)
    ltac:(vm_compute; discriminate) E) as [_ H].
  cbn [fst snd] in *.
  assert (fst s' = e3) as Es.
  { transitivity (fst (snd (run []))); [by rewrite E|vm_compute; reflexivity]. }
  rewrite <- Es. apply (H ltac:(transitivity (failopens (snd (run []))); [by rewrite E|vm_compute; reflexivity]) 0
    (mkBufPage (zeros 4096) demo_crc false false)). vm_compute. reflexivity.
Defined.

End EntryFlush.
