(* ===== verification/FileEntryMeta.v ===== *)
(** * The sidecar commit (FileEntry::flushMeta)

    Several processes may hold the same entry and share its sidecar. A commit
    starts from the image on disk and applies only what this handle changed since
    its last store. Proved here: exactly which image is stored, that commits of
    different handles over different pages commute (nobody's pages are lost,
    nobody's clears come back), and what every outcome of [flushMeta] leaves in
    memory and on disk. *)

From S2P Require Import Prelude IOBackend Crc32c PageBitmap Config MetaFile UrlKey FileEntry FileEntryInv FileEntryRead FileEntryFlush.

Module EntryMeta.
Import Meta Entry EntryInv EntryRead EntryFlush.

Section commit.
Context `{CK : Checksum}.
Context (P fs : Z) (HP : Config.validPageSize P = true) (Hfs : 0 <= fs < p63).
Abbreviation np := (np P fs).
Abbreviation meta_ok := (meta_ok P fs).
Abbreviation bm_ok := (bm_ok P fs).
Abbreviation Inv := (Inv P fs).

Definition mbit (m : MetaData) (i : Z) : bool := Bitmap.get (bitmap m) i.
Definition mcrc (m : MetaData) (i : Z) : Z := zget (pageCrcs m) i.

(** ** The merged image *)
Definition merged_bit (disk : MetaData) (sets clears : PageBitmap) (i : Z) : bool :=
  if Bitmap.get clears i then false else if Bitmap.get sets i then true else mbit disk i.
Definition merged_crc (disk snapshot : MetaData) (sets clears : PageBitmap) (i : Z) : Z :=
  if Bitmap.get clears i then 0 else if Bitmap.get sets i then mcrc snapshot i else mcrc disk i.

(** Everything but presence. *)
Definition same_rest (m m' : MetaData) : Prop :=
  flags m' = flags m /\ atime m' = atime m /\ originMtime m' = originMtime m /\ cksumKind m' = cksumKind m /\
  originCksum m' = originCksum m /\ key m' = key m.

Lemma merge_page_at snapshot sets clears out i j :
  meta_ok out -> 0 <= i < np -> 0 <= j < np ->
  let out' := merge_page snapshot sets clears out i in
  meta_ok out' /\ same_rest out out' /\
  mbit out' j = (if decide (i = j) then merged_bit out sets clears i else mbit out j) /\
  mcrc out' j = (if decide (i = j) then merged_crc out snapshot sets clears i else mcrc out j).
Proof using HP Hfs.
  intros Hm Hi Hj. pose proof Hm as (_ & _ & Hb & Hz). unfold merge_page, merged_bit, merged_crc, mbit, mcrc.
  destruct (Bitmap.get clears i); [|destruct (Bitmap.get sets i)].
  - split; [apply meta_ok_page; [done|by apply bm_clear]|]. split; [done|]. cbn [bitmap pageCrcs set_page].
    rewrite (bm_get_clear P fs) by done. rewrite zget_zset by lia. by case_decide; subst.
  - split; [apply meta_ok_page; [done|by apply bm_set]|]. split; [done|]. cbn [bitmap pageCrcs set_page].
    rewrite (bm_get_set P fs) by done. rewrite zget_zset by lia. by case_decide; subst.
  - split; [done|]. split; [done|]. by case_decide; subst.
Qed.

Lemma merge_fold snapshot sets clears disk :
  meta_ok disk ->
  let out := foldl (merge_page snapshot sets clears) disk (zrange 0 np) in
  meta_ok out /\ same_rest disk out /\
  forall j, 0 <= j < np -> mbit out j = merged_bit disk sets clears j /\
                           mcrc out j = merged_crc disk snapshot sets clears j.
Proof using HP Hfs.
  intros Hd. destruct (np_bound P fs HP Hfs) as [[Hn0 _] _].
  pose proof (foldl_zrange_ind (merge_page snapshot sets clears) (fun k out => meta_ok out /\ same_rest disk out /\
    forall j, 0 <= j < np ->
      mbit out j = (if decide (j < k) then merged_bit disk sets clears j else mbit disk j) /\
      mcrc out j = (if decide (j < k) then merged_crc disk snapshot sets clears j else mcrc disk j))
    0 np disk Hn0) as G. destruct G as (H1 & H2 & H3); [| |].
  3: { split; [done|]. split; [done|]. intros j Hj.
    destruct (H3 j Hj) as [-> ->]. by rewrite !decide_True by lia. }
  - split; [done|]. split; [done|]. intros j Hj. by rewrite !decide_False by lia.
  - intros i out Hi (H1 & H2 & H3). destruct (merge_page_at snapshot sets clears out i i H1 Hi Hi) as (G1 & G2 & _).
    split; [done|]. split; [unfold same_rest in *; intuition congruence|]. intros j Hj.
    destruct (merge_page_at snapshot sets clears out i j H1 Hi Hj) as (_ & _ & -> & ->).
    destruct (H3 j Hj) as [Bj Cj]. destruct (decide (i = j)) as [<-|Hne].
    + destruct (H3 i Hi) as [Bi Ci]. rewrite decide_False in Bi by lia. rewrite decide_False in Ci by lia.
      rewrite !decide_True by lia. unfold merged_bit, merged_crc. by rewrite Bi, Ci.
    + rewrite Bj, Cj. split; apply decide_ext; lia.
Qed.

(** The complete flag after [recomplete]. *)
Definition all_present (m : MetaData) : Prop := forall i, 0 <= i < np -> mbit m i = true.

Lemma count_full m : meta_ok m -> (Bitmap.count_ (bitmap m) =? np) = true <-> all_present m.
Proof using HP Hfs.
  intros (_ & _ & [Hw Hn] & _). rewrite Z.eqb_eq, (Bitmap.wf_count _ Hw). rewrite <- Hn at 1.
  rewrite Bitmap.popcount_full by apply Hw. unfold all_present, mbit. by rewrite Hn.
Qed.

Definition has_flag (f : Z) (b : Z) : bool := negb (Z.land f b =? 0).

Lemma flag_bit f k : 0 <= k -> has_flag f (Z.shiftl 1 k) = Z.testbit f k.
Proof using.
  intros Hk. unfold has_flag.
  assert (Z.land f (Z.shiftl 1 k) = if Z.testbit f k then Z.shiftl 1 k else 0) as ->.
  { apply Z.bits_inj'. intros n Hn. rewrite Z.land_spec, Z.shiftl_spec by done.
    destruct (Z.eq_dec n k) as [->|].
    - rewrite Z.sub_diag, andb_true_r. destruct (Z.testbit f k); [|by rewrite Z.bits_0].
      by rewrite Z.shiftl_spec, Z.sub_diag.
    - assert (Z.testbit 1 (n - k) = false) as E1.
      { destruct (Z.lt_ge_cases (n - k) 0); [by apply Z.testbit_neg_r|]. apply (Z.bits_above_log2 1); simpl; lia. }
      rewrite E1, andb_false_r. destruct (Z.testbit f k); [by rewrite Z.shiftl_spec, E1|by rewrite Z.bits_0]. }
  destruct (Z.testbit f k); [|done]. apply negb_true_iff, Z.eqb_neq. rewrite Z.shiftl_mul_pow2 by done.
  pose proof (Z.pow_pos_nonneg 2 k). lia.
Qed.

Lemma testbit_not_flag k n : 0 <= n < 32 -> 0 <= k -> Z.testbit (not_flag (Z.shiftl 1 k)) n = negb (n =? k).
Proof using.
  intros Hn Hk. unfold not_flag, w32. change p32 with (2 ^ 32). rewrite Z.mod_pow2_bits_low by lia.
  rewrite Z.lnot_spec, Z.shiftl_spec by lia. f_equal. destruct (Z.eqb_spec n k) as [->|].
  - by rewrite Z.sub_diag.
  - destruct (Z.lt_ge_cases (n - k) 0); [by apply Z.testbit_neg_r|]. apply (Z.bits_above_log2 1); simpl; lia.
Qed.

Lemma recomplete_complete n m : has_flag (flags (recomplete n m)) kFlagComplete =
  negb (n =? 0) && (Bitmap.count_ (bitmap m) =? n).
Proof using.
  change kFlagComplete with (Z.shiftl 1 1). rewrite flag_bit by lia. unfold recomplete. cbn [flags set_flags].
  change kFlagComplete with (Z.shiftl 1 1).
  assert (Z.testbit (Z.land (flags m) (not_flag (Z.shiftl 1 1))) 1 = false) as E
    by (rewrite Z.land_spec, testbit_not_flag by lia; apply andb_false_r).
  destruct (_ && _); [by rewrite Z.lor_spec, E|done].
Qed.

Lemma recomplete_pin n m : has_flag (flags (recomplete n m)) kFlagPinned = has_flag (flags m) kFlagPinned.
Proof using.
  change kFlagPinned with (Z.shiftl 1 0). rewrite !flag_bit by lia. unfold recomplete. cbn [flags set_flags].
  change kFlagComplete with (Z.shiftl 1 1).
  assert (Z.testbit (Z.land (flags m) (not_flag (Z.shiftl 1 1))) 0 = Z.testbit (flags m) 0) as E
    by (rewrite Z.land_spec, testbit_not_flag by lia; apply andb_true_r).
  destruct (_ && _); [|done]. rewrite Z.lor_spec, E. apply orb_false_r.
Qed.

Lemma with_pin_flag dst src : has_flag (with_pin dst src) kFlagPinned = has_flag src kFlagPinned.
Proof using.
  unfold with_pin. change kFlagPinned with (Z.shiftl 1 0). rewrite !flag_bit by lia.
  rewrite Z.lor_spec, !Z.land_spec, testbit_not_flag by lia. cbn. by rewrite andb_false_r, andb_true_r.
Qed.

Lemma merge_image_spec disk snapshot sets clears pin :
  meta_ok disk ->
  let out := merge_image disk snapshot sets clears pin in
  meta_ok out /\ key out = key disk /\
  (forall j, 0 <= j < np -> mbit out j = merged_bit disk sets clears j /\
                            mcrc out j = merged_crc disk snapshot sets clears j) /\
  has_flag (flags out) kFlagPinned = has_flag (flags (if pin then snapshot else disk)) kFlagPinned /\
  (has_flag (flags out) kFlagComplete = true <-> 0 < np /\ all_present out) /\
  atime out = Z.max (atime disk) (atime snapshot).
Proof using HP Hfs.
  intros Hd. unfold merge_image. rewrite (meta_ok_npages P fs disk Hd).
  destruct (merge_fold snapshot sets clears disk Hd) as (H1 & (Hf & Ha & _ & _ & _ & Hk) & H3).
  set (m1 := foldl _ _ _) in *.
  set (m2 := if pin then set_flags _ m1 else m1).
  assert (bitmap m2 = bitmap m1 /\ pageCrcs m2 = pageCrcs m1 /\ meta_ok m2 /\ key m2 = key m1 /\ atime m2 = atime m1)
    as (B2 & C2 & M2 & K2 & A2) by (subst m2; by destruct pin).
  assert (has_flag (flags m2) kFlagPinned = has_flag (flags (if pin then snapshot else disk)) kFlagPinned) as F2.
  { subst m2. destruct pin; [cbn; apply with_pin_flag|by rewrite Hf]. }
  clearbody m2. cbv zeta. split; [done|]. split; [cbn; congruence|].
  split; [unfold mbit, mcrc; cbn; rewrite B2, C2; exact H3|].
  split; [cbn [flags set_atime]; by rewrite recomplete_pin|]. split; [|cbn; congruence].
  cbn [flags set_atime]. rewrite recomplete_complete, andb_true_iff, negb_true_iff, Z.eqb_neq.
  rewrite (count_full m2 M2). unfold all_present, mbit. cbn. destruct (np_bound P fs HP Hfs) as [[? _] _].
  split; intros [? ?]; (split; [lia|done]).
Qed.

(** ** Failure: the deltas are pending again *)
Lemma rearm_at sets clears e i j :
  Inv e -> 0 <= i < np -> 0 <= j < np ->
  let e' := rearm_page sets clears e i in
  let s := Bitmap.get (setSince_ e) i in let c := Bitmap.get (clearedSince_ e) i in
  let s' := s || (Bitmap.get sets i && negb c) in
  Inv e' /\ meta_ e' = meta_ e /\ pinTouched_ e' = pinTouched_ e /\ dirty_ e' = dirty_ e /\
  Bitmap.get (setSince_ e') j = (if decide (i = j) then s' else Bitmap.get (setSince_ e) j) /\
  Bitmap.get (clearedSince_ e') j =
    (if decide (i = j) then c || (Bitmap.get clears i && negb s') else Bitmap.get (clearedSince_ e) j).
Proof using HP Hfs.
  intros He Hi Hj e' s c s'. split; [by apply rearm_page_inv|].
  pose proof (i_set _ _ _ He) as Hs. pose proof (i_clr _ _ _ He) as Hc.
  subst e' s' s c. unfold rearm_page.
  assert (Bitmap.get (Bitmap.set (setSince_ e) i) i = true) as Hii.
  { rewrite (bm_get_set P fs) by done. by rewrite decide_True. }
  destruct (Bitmap.get sets i && negb (Bitmap.get (clearedSince_ e) i)) eqn:E1;
    cbn [setSince_ clearedSince_ set_setSince meta_ pinTouched_ dirty_]; rewrite ?Hii, ?orb_true_r, ?orb_false_r.
  - rewrite !andb_false_r. cbn. rewrite (bm_get_set P fs) by done. rewrite orb_false_r.
    repeat (split; [done|]). by case_decide; subst.
  - destruct (Bitmap.get clears i && negb (Bitmap.get (setSince_ e) i)) eqn:E2; cbn.
    + rewrite (bm_get_set P fs) by done. rewrite orb_true_r. repeat (split; [done|]). split; by case_decide; subst.
    + rewrite orb_false_r. repeat (split; [done|]). split; by case_decide; subst.
Qed.

(** With nothing changed in between, a failed store restores the pending deltas
    exactly. *)
Lemma fm_rearm_spec sets clears pin e :
  Inv e -> bm_ok sets -> bm_ok clears ->
  (forall j, 0 <= j < np -> Bitmap.get (setSince_ e) j = false /\ Bitmap.get (clearedSince_ e) j = false) ->
  (forall j, 0 <= j < np -> Bitmap.get sets j = true -> Bitmap.get clears j = false) ->
  let e' := fm_rearm sets clears pin e in
  dirty_ e' = true /\ meta_ e' = meta_ e /\ pinTouched_ e' = (pinTouched_ e || pin) /\
  forall j, 0 <= j < np -> Bitmap.get (setSince_ e') j = Bitmap.get sets j /\
                           Bitmap.get (clearedSince_ e') j = Bitmap.get clears j.
Proof using HP Hfs.
  intros He Hs Hc H0 Hdis. destruct (np_bound P fs HP Hfs) as [[Hn0 _] _]. unfold fm_rearm.
  cbn [meta_ set_dirty]. rewrite (meta_ok_npages P fs _ (i_meta _ _ _ He)).
  pose proof (foldl_zrange_ind (rearm_page sets clears) (fun k e' => Inv e' /\ dirty_ e' = true /\
    meta_ e' = meta_ e /\ pinTouched_ e' = pinTouched_ e /\ forall j, 0 <= j < np ->
      Bitmap.get (setSince_ e') j = (if decide (j < k) then Bitmap.get sets j else false) /\
      Bitmap.get (clearedSince_ e') j = (if decide (j < k) then Bitmap.get clears j else false))
    0 np (set_dirty true e) Hn0) as G.
  destruct G as (_ & G1 & G2 & G3 & G4).
  - split; [by apply set_dirty_inv|]. do 3 (split; [done|]). intros j Hj. rewrite !decide_False by lia. by apply H0.
  - intros i e1 Hi (I1 & D1 & M1 & P1 & B1).
    destruct (rearm_at sets clears e1 i i I1 Hi Hi) as (I2 & M2 & P2 & D2 & _).
    split; [done|]. split; [congruence|]. split; [congruence|]. split; [congruence|]. intros j Hj.
    destruct (rearm_at sets clears e1 i j I1 Hi Hj) as (_ & _ & _ & _ & -> & ->).
    destruct (B1 i Hi) as [Bs Bc]. rewrite decide_False in Bs by lia. rewrite decide_False in Bc by lia.
    rewrite Bs, Bc. cbn [orb negb]. rewrite andb_true_r. destruct (decide (i = j)) as [<-|Hne].
    + rewrite !decide_True by lia. split; [done|]. specialize (Hdis i Hi).
      destruct (Bitmap.get sets i); [by rewrite Hdis|by rewrite andb_true_r].
    + destruct (B1 j Hj) as [-> ->]. split; apply decide_ext; lia.
  - cbn. split; [done|]. split; [done|]. split; [by rewrite G3|]. intros j Hj.
    destruct (G4 j Hj) as [-> ->]. by rewrite !decide_True by lia.
Qed.

(** ** Success: the handle's view is the committed image *)
Lemma adopt_at out e i j :
  Inv e -> 0 <= i < np -> 0 <= j < np ->
  Bitmap.get (setSince_ e) i = false -> Bitmap.get (clearedSince_ e) i = false ->
  let e' := adopt_page out e i in
  Inv e' /\ setSince_ e' = setSince_ e /\ clearedSince_ e' = clearedSince_ e /\
  mbit (meta_ e') j = (if decide (i = j) then mbit out i else mbit (meta_ e) j) /\
  mcrc (meta_ e') j = (if decide (i = j) then (if mbit out i then mcrc out i else 0) else mcrc (meta_ e) j).
Proof using HP Hfs.
  intros He Hi Hj Hs Hc e'. split; [by apply adopt_page_inv|]. subst e'. unfold adopt_page. rewrite Hs, Hc. cbn [orb].
  destruct (i_meta _ _ _ He) as (_ & _ & Hb & Hl). unfold mbit, mcrc in *.
  destruct (Bitmap.get (bitmap out) i); cbn [meta_ set_meta setSince_ clearedSince_ bitmap pageCrcs set_page];
    rewrite ?(bm_get_set P fs), ?(bm_get_clear P fs), zget_zset by (done || lia); repeat (split; [done|]);
    by case_decide.
Qed.

Lemma fm_adopt_spec out e :
  Inv e -> (forall j, 0 <= j < np -> Bitmap.get (setSince_ e) j = false /\ Bitmap.get (clearedSince_ e) j = false) ->
  let e' := fm_adopt out e in
  setSince_ e' = setSince_ e /\ clearedSince_ e' = clearedSince_ e /\
  (dirty_ e' = dirty_ e /\ pinTouched_ e' = pinTouched_ e) /\
  forall j, 0 <= j < np -> mbit (meta_ e') j = mbit out j /\
    mcrc (meta_ e') j = (if mbit out j then mcrc out j else 0).
Proof using HP Hfs.
  intros He H0. destruct (np_bound P fs HP Hfs) as [[Hn0 _] _]. unfold fm_adopt. cbv zeta.
  rewrite (meta_ok_npages P fs _ (i_meta _ _ _ He)).
  pose proof (foldl_zrange_ind (adopt_page out) (fun k e' => Inv e' /\ setSince_ e' = setSince_ e /\
    clearedSince_ e' = clearedSince_ e /\ (dirty_ e' = dirty_ e /\ pinTouched_ e' = pinTouched_ e) /\ forall j, 0 <= j < np -> j < k ->
      mbit (meta_ e') j = mbit out j /\ mcrc (meta_ e') j = (if mbit out j then mcrc out j else 0)) 0 np e Hn0) as G.
  destruct G as (_ & G1 & G2 & G3 & G4).
  - split; [done|]. do 3 (split; [done|]). intros; lia.
  - intros i e1 Hi (I1 & S1 & C1 & D1 & B1). destruct (H0 i Hi) as [H0s H0c].
    pose proof (fun j Hj => adopt_at out e1 i j I1 Hi Hj ltac:(by rewrite S1) ltac:(by rewrite C1)) as A.
    destruct (A i Hi) as (I2 & S2 & C2 & _). split; [done|]. split; [congruence|]. split; [congruence|].
    split; [rewrite <- (proj1 D1), <- (proj2 D1); unfold adopt_page; destruct (Bitmap.get (setSince_ e1) i || _); [done|by destruct (Bitmap.get (bitmap out) i)]|].
    intros j Hj Hjk. destruct (A j Hj) as (_ & _ & _ & -> & ->). case_decide; [by subst|]. apply B1; lia.
  - unfold mbit, mcrc in *. cbn. destruct G3 as [G3 G3']. rewrite G3'. destruct (pinTouched_ e) eqn:Ep; cbn;
      (split; [done|split; [done|split; [by rewrite ?G3, ?G3'|]]]); intros j Hj; apply G4; lia.
Qed.

(** ** Well-formed images *)
Lemma u32_land a b : is_u32 a -> 0 <= b -> is_u32 (Z.land a b).
Proof using.
  unfold is_u32. rewrite !(bits_bound 32) by lia. intros [? Ha] ?.
  split; [apply Z.land_nonneg; by left|]. by rewrite Z.shiftr_land, Ha.
Qed.
Lemma u32_lor a b : is_u32 a -> is_u32 b -> is_u32 (Z.lor a b).
Proof using.
  unfold is_u32. rewrite !(bits_bound 32) by lia. intros [? Ha] [? Hb].
  split; [by apply Z.lor_nonneg|]. by rewrite Z.shiftr_lor, Ha, Hb.
Qed.
Lemma not_flag_nonneg f : 0 <= not_flag f.
Proof using. apply w32_range. Qed.

Lemma wf_flags_set m f : wf m -> is_u32 f -> wf (set_flags f m).
Proof using. intros [[? ?]] ?. split; auto. by split. Qed.
Lemma wf_recomplete n m : wf m -> wf (recomplete n m).
Proof using.
  intros Hm. apply wf_flags_set; [done|]. pose proof (wf_flags _ Hm).
  assert (is_u32 (Z.land (flags m) (not_flag kFlagComplete))) by (apply u32_land; [done|apply not_flag_nonneg]).
  destruct (_ && _); [|done]. apply u32_lor; [done|]. unfold is_u32, kFlagComplete. lia.
Qed.

Lemma Forall_zset (Q : Z -> Prop) l i x : Forall Q l -> Q x -> Forall Q (zset l i x).
Proof using. intros. unfold zset. by apply Forall_insert. Qed.

Lemma meta_ok_wf m : wf m -> pageSize m = P -> fileSize m = fs -> meta_ok m.
Proof using.
  intros [] E1 E2. destruct wf_bitmap0, wf_crcs0. unfold npages in *. rewrite E1, E2 in *. by split.
Qed.

Lemma merge_page_wf snapshot sets clears out i :
  meta_ok out -> Forall is_u32 (pageCrcs snapshot) -> 0 <= i < np -> wf out ->
  wf (merge_page snapshot sets clears out i).
Proof using HP Hfs.
  intros Hm Hs Hi Hw. destruct (merge_page_at snapshot sets clears out i i Hm Hi Hi) as ((E1 & E2 & [Hb Hn] & Hl) & (F1 & F2 & F3 & F4 & F5 & F6) & _).
  pose proof Hw as []. split; rewrite ?F1, ?F2, ?F3, ?F4, ?F5, ?F6; try done.
  - by split; rewrite ?E1, ?E2.
  - split; [done|]. rewrite Hn. unfold npages. by rewrite E1, E2.
  - split; [rewrite Hl; unfold npages; by rewrite E1, E2|]. destruct wf_crcs0 as [_ Hu].
    unfold merge_page. destruct (Bitmap.get clears i); [|destruct (Bitmap.get sets i); [|done]]; cbn [pageCrcs set_page];
      apply Forall_zset; try done; first [unfold is_u32; lia | apply Forall_zget; [done|unfold is_u32; lia]].
Qed.

Lemma merge_image_wf disk snapshot sets clears pin :
  meta_ok disk -> wf disk -> wf snapshot -> wf (merge_image disk snapshot sets clears pin).
Proof using HP Hfs.
  intros Hd Hwd Hws. destruct (np_bound P fs HP Hfs) as [[Hn0 _] _]. unfold merge_image.
  rewrite (meta_ok_npages P fs disk Hd).
  pose proof (foldl_zrange_ind (merge_page snapshot sets clears) (fun _ m => meta_ok m /\ wf m) 0 np disk Hn0
    (conj Hd Hwd)) as G. destruct G as [_ Hw].
  { intros i m Hi [Hm Hw]. split; [by apply (merge_page_at _ _ _ _ i i)|].
    apply merge_page_wf; try done. apply (wf_crcs _ Hws). }
  set (m1 := foldl _ _ _) in *. clearbody m1.
  assert (wf (if pin then set_flags (with_pin (flags m1) (flags snapshot)) m1 else m1)) as Hw2.
  { destruct pin; [|done]. apply wf_flags_set; [done|]. apply u32_lor; apply u32_land; try apply wf_flags; done. }
  set (m2 := if pin then _ else _) in *. clearbody m2.
  pose proof (wf_recomplete np m2 Hw2) as Hw3. set (m3 := recomplete np m2) in *. clearbody m3.
  pose proof (wf_atime _ Hw3). pose proof (wf_atime _ Hws). destruct Hw3 as [[? ?]]. split; auto; [by split|].
  cbn. unfold is_u64 in *. lia.
Qed.
End commit.

(** ** [flushMeta] over the backend *)
Section flush_meta.
Context {W : Type} `{!IOBackend W, !IOLaws W} `{CK : Checksum}.
Context (cfg : Config.Config) (ukey : UrlKey.UrlKey) (clockS : nat -> Z).
Context (P fs : Z) (HP : Config.validPageSize P = true) (Hfs : 0 <= fs < p63).
Abbreviation np := (np P fs).
Abbreviation meta_ok := (meta_ok P fs).
Abbreviation Inv := (Inv P fs).
Abbreviation St := (@St W).
Abbreviation fsview s := (view (io_ (snd s : World))).

(** Same files, whatever happened to descriptors. *)
Definition same_files (s s' : IOBackend.fs) : Prop :=
  fs_names s' = fs_names s /\ fs_inodes s' = fs_inodes s.

Lemma same_files_trans s s' s'' : same_files s s' -> same_files s' s'' -> same_files s s''.
Proof using. intros [E1 E2] [E3 E4]. split; [by rewrite E3|by rewrite E4]. Qed.
Lemma same_files_eq s s' : s' = s -> same_files s s'.
Proof using. by intros ->. Qed.
Lemma same_files_of s s' q : same_files s s' -> file_of s' q = file_of s q.
Proof using. intros [E1 E2]. unfold file_of. by rewrite E1, E2. Qed.

Lemma opened_same s path fd s' : opened s path O_RDONLY fd s' -> same_files s s'.
Proof using.
  intros [_ H]. destruct (fs_names s !! path) as [ino|].
  - destruct H as (_ & n & _ & ->). done.
  - by destruct H as [? _].
Qed.

Lemma load_files path (w : W) o w' : load path w = (o, w') -> same_files (view w) (view w').
Proof using.
  unfold load. intros ([r st] & w1 & Hst & H1)%mbind_inv. destruct (law_stat _ _ _ _ _ Hst) as (_ & Hv1 & _).
  rewrite <- Hv1. cbn [fst snd] in H1. destruct (r <? 0); [injection H1 as _ <-; done|].
  destruct (_ || _); [injection H1 as _ <-; done|]. apply mbind_inv in H1 as (fd & w2 & Ho & H2).
  destruct (law_open _ _ _ _ _ Ho) as [[Hfd Hv]|[Hfd Hop]].
  { rewrite (proj2 (Z.ltb_lt _ _) Hfd) in H2. injection H2 as _ <-. by apply same_files_eq. }
  apply opened_same in Hop. eapply same_files_trans; [exact Hop|].
  rewrite (proj2 (Z.ltb_ge _ _) Hfd) in H2. apply mbind_inv in H2 as ([n b] & w3 & Hp & H3).
  apply mbind_inv in H3 as (c & w4 & Hc & H4).
  pose proof (preadFull_view _ _ _ _ _ _ Hp) as Hv3.
  destruct (law_close _ _ _ _ Hc) as [_ Hv4].
  assert (w' = w4) as -> by (destruct (negb _); by injection H4 as _ <-).
  rewrite Hv4, Hv3. done.
Qed.

(** Every file holds bytes. *)
Definition bytes_ok (s : IOBackend.fs) : Prop :=
  forall i n, fs_inodes s !! i = Some n -> Forall is_byte (i_data n).

Lemma data_of_bytes s q d : bytes_ok s -> data_of s q = Some d -> Forall is_byte d.
Proof using.
  intros Hb. unfold data_of, file_of. destruct (fs_names s !! q) as [ino|]; [|done]. cbn.
  destruct (fs_inodes s !! ino) as [n|] eqn:E; [|done]. intros [= <-]. by eapply Hb.
Qed.

(** What one call sees: the reading of its clock, whether it is due to store, the answer of the
    fstat it makes under the data file's lock, the sidecar it then loads, and what storing [out]
    returns. *)
Definition fm_now (s : St) : Z := w64 (clockS (ticks_ (snd s))).
Definition fm_due (force : bool) (s : St) : Prop :=
  dirty_ (fst s) = true /\ (force = true \/ lastFlushS_ (fst s) +% w64 (Config.metaFlushSeconds cfg) <= fm_now s).
Definition fm_fstat (s : St) : (Z * stat_t) * W :=
  io_fstat (dataFd_ (fst s)) (snd (io_flock (dataFd_ (fst s)) LOCK_EX (io_ (snd s)))).
Definition fm_unlinked (s : St) : Prop := fst (fst (fm_fstat s)) = 0 /\ st_nlink (snd (fst (fm_fstat s))) = 0.
Definition fm_load (s : St) : option MetaData * W := load (metaPath_ (fst s)) (snd (fm_fstat s)).
Definition fm_stores (s : St) (out : MetaData) : Z :=
  fst (store (metaPath_ (fst s)) out (bool_decide (Config.fsync cfg = Config.FsAll)) (snd (fm_load s))).

(** A sidecar on disk of the same pages and the same origin as this handle's. *)
Definition same_origin (e : FileEntry) (d : MetaData) : bool :=
  (pageSize d =? pageSize (meta_ e))
  && adoptable cfg ukey d (fileSize (meta_ e)) (originMtime (meta_ e)) (cksumKind (meta_ e)) (originCksum (meta_ e)).

(** The image a commit stores: when the load gives a sidecar of the same origin, which is the one on
    disk, that one with this handle's changes and nothing else of the handle's; this handle's
    own image only when the load gives none, or one of another origin. *)
Definition commit_image (s : St) (out : MetaData) : Prop :=
  let e := fst s in
  match fst (fm_load s) with
  | None => out = meta_ e
  | Some disk =>
      (exists d, data_of (fsview s) (metaPath_ e) = Some d /\ deserialize d = Some disk) /\
      if same_origin e disk
      then out = merge_image disk (meta_ e) (setSince_ e) (clearedSince_ e) (pinTouched_ e) /\
        forall j, 0 <= j < np -> mbit out j = merged_bit disk (setSince_ e) (clearedSince_ e) j /\
                                 mcrc out j = merged_crc disk (meta_ e) (setSince_ e) (clearedSince_ e) j
      else out = meta_ e
  end.

(** Nothing pending. *)
Definition clean (e : FileEntry) : Prop := dirty_ e = false /\ pinTouched_ e = false /\
  forall j, 0 <= j < np -> Bitmap.get (setSince_ e) j = false /\ Bitmap.get (clearedSince_ e) j = false.

Inductive outcome (force : bool) (s s' : St) : Prop :=
| o_nothing : ~ fm_due force s -> fst s' = fst s -> fsview s' = fsview s -> outcome force s s'
| o_evicted :
    fm_due force s -> fm_unlinked s ->
    (exists ino f, fs_fds (fsview s) !! dataFd_ (fst s) = Some ino /\ fs_inodes (fsview s) !! ino = Some f /\ i_nlink f = 0) ->
    fsview s' = fsview s -> meta_ (fst s') = meta_ (fst s) -> clean (fst s') -> outcome force s s'
| o_failed out :
    fm_due force s -> ~ fm_unlinked s -> commit_image s out -> fm_stores s out < 0 ->
    kept (fsview s) (tmp_of (metaPath_ (fst s))) (fsview s') ->
    dirty_ (fst s') = true -> meta_ (fst s') = meta_ (fst s) -> pinTouched_ (fst s') = pinTouched_ (fst s) ->
    (forall j, 0 <= j < np -> Bitmap.get (setSince_ (fst s')) j = Bitmap.get (setSince_ (fst s)) j /\
                              Bitmap.get (clearedSince_ (fst s')) j = Bitmap.get (clearedSince_ (fst s)) j) ->
    outcome force s s'
| o_stored out :
    fm_due force s -> ~ fm_unlinked s -> commit_image s out -> 0 <= fm_stores s out -> wf out ->
    data_of (fsview s') (metaPath_ (fst s)) = Some (serialize out) -> clean (fst s') ->
    (forall j, 0 <= j < np -> mbit (meta_ (fst s')) j = mbit out j /\
                              (mbit out j = true -> mcrc (meta_ (fst s')) j = mcrc out j)) ->
    outcome force s s'.

Lemma fm_snapshot_cases force now e :
  (fm_snapshot cfg force now e = (None, e) /\
   (dirty_ e = false \/ force = false /\ now < lastFlushS_ e +% w64 (Config.metaFlushSeconds cfg))) \/
  exists e1, fm_snapshot cfg force now e = (Some (meta_ e, setSince_ e, clearedSince_ e, pinTouched_ e), e1) /\
    dirty_ e = true /\ (force = true \/ lastFlushS_ e +% w64 (Config.metaFlushSeconds cfg) <= now) /\
    meta_ e1 = meta_ e /\ metaPath_ e1 = metaPath_ e /\ dataFd_ e1 = dataFd_ e /\ dirty_ e1 = false /\
    pinTouched_ e1 = false /\
    (forall j, Bitmap.get (setSince_ e1) j = false /\ Bitmap.get (clearedSince_ e1) j = false).
Proof using.
  unfold fm_snapshot. destruct (negb (dirty_ e)) eqn:Ed; b2p; [left; split; [done|by left]|].
  destruct (_ && _) eqn:Ef; b2p; [left; split; [done|by right]|]. right.
  eexists. split; [reflexivity|]. cbn. split; [done|]. split.
  { destruct force; [by left|right]. cbn in Ef. by apply Z.ltb_ge in Ef. }
  do 5 (split; [done|]). intros j. by rewrite !Bitmap.get_clearAll.
Qed.

Lemma adoptable_wf s path d disk sz mt k c :
  bytes_ok s -> data_of s path = Some d -> deserialize d = Some disk -> pageSize disk = P ->
  adoptable cfg ukey disk sz mt k c = true -> sz = fs -> meta_ok disk /\ wf disk.
Proof using HP Hfs.
  intros Hb Hd Hds HPd Ha ->. unfold adoptable in Ha. b2p.
  assert (fileSize disk = fs) as Hfd by done.
  assert (wf disk) as Hw.
  { rewrite deserialize_eq in Hds. destruct (accepts d) eqn:Ea; [|done]. injection Hds as <-.
    apply decoded_wf; [by eapply data_of_bytes|done|]. split; [by rewrite HPd|by rewrite Hfd]. }
  split; [|done]. by apply meta_ok_wf.
Qed.

(** What the disk contributes to a commit. *)
Definition merged_of (e : FileEntry) (disk : option MetaData) : option MetaData :=
  match disk with
  | Some d => if (pageSize d =? pageSize (meta_ e))
                 && adoptable cfg ukey d (fileSize (meta_ e)) (originMtime (meta_ e)) (cksumKind (meta_ e))
                      (originCksum (meta_ e))
              then Some (merge_image d (meta_ e) (setSince_ e) (clearedSince_ e) (pinTouched_ e)) else None
  | None => None
  end.
Lemma merged_of_Some e d : merged_of e (Some d) =
  if same_origin e d then Some (merge_image d (meta_ e) (setSince_ e) (clearedSince_ e) (pinTouched_ e)) else None.
Proof using. done. Qed.

Lemma merged_of_image (s : St) :
  Inv (fst s) -> wf (meta_ (fst s)) -> bytes_ok (fsview s) -> view (snd (fm_fstat s)) = fsview s ->
  let out := match merged_of (fst s) (fst (fm_load s)) with Some o => o | None => meta_ (fst s) end in
  wf out /\ commit_image s out.
Proof using HP Hfs.
  intros He Hw Hb Hv out. subst out. destruct (i_meta _ _ _ He) as (HPm & Hfm & _). unfold commit_image. cbv zeta.
  destruct (fst (fm_load s)) as [d|] eqn:El; rewrite ?merged_of_Some; [|by split].
  destruct (load_spec (metaPath_ (fst s)) (snd (fm_fstat s)) (Some d) (snd (fm_load s))) as [?|(bs & Hd & Hds)]; [|done|].
  { rewrite <- El. apply surjective_pairing. }
  rewrite Hv in Hd. destruct (same_origin (fst s) d) eqn:E; [|split; [done|split; [by exists bs|done]]].
  unfold same_origin in E. apply andb_true_iff in E as [E1 E2]. b2p.
  destruct (adoptable_wf _ _ _ _ _ _ _ _ Hb Hd (eq_sym Hds) ltac:(congruence) E2 Hfm) as [Hm Hwd].
  split; [by apply (merge_image_wf P fs)|]. split; [by exists bs|]. split; [done|].
  apply (merge_image_spec P fs HP Hfs d _ _ _ _ Hm).
Qed.

Lemma flushMeta_outcome force (s s' : St) :
  Inv (fst s) -> wf (meta_ (fst s)) -> fs_ok (fsview s) -> bytes_ok (fsview s) ->
  distinct (fsview s) (metaPath_ (fst s)) (tmp_of (metaPath_ (fst s))) ->
  flushMeta cfg ukey clockS force s = (tt, s') ->
  outcome force s s'.
Proof using HP Hfs.
  intros He Hwf Hok Hby Hds Hfm. unfold flushMeta in Hfm.
  apply mbind_inv in Hfm as (e0 & s0 & [= <- <-] & Hfm).
  apply mbind_inv in Hfm as (now & s1 & Hnow & Hfm).
  assert (fst s1 = fst s /\ io_ (snd s1) = io_ (snd s) /\ (dirty_ (fst s) = true -> now = fm_now s)) as (Es1 & Ew1 & Hn).
  { destruct (dirty_ (fst s)); injection Hnow as <- <-; done. }
  apply mbind_inv in Hfm as (snap & s2 & Hsn & Hfm). unfold locked in Hsn. rewrite Es1 in Hsn.
  destruct (fm_snapshot_cases force now (fst s)) as [[E Hnd]|(e1 & E & D0 & Hdue & M1 & Pm & Fd & D1 & Pt & B1)]; rewrite E in Hsn.
  { injection Hsn as <- <-. injection Hfm as <-. apply o_nothing; [|done|cbn; by rewrite Ew1].
    intros [G1 G2]. destruct Hnd as [?|[-> Hlt]]; [congruence|]. rewrite (Hn G1) in Hlt. destruct G2; [done|lia]. }
  assert (fm_due force s) as Hd by (split; [done|]; by rewrite <- (Hn D0)). clear Hdue Hn D0 Hnow.
  assert (Inv e1) as He1 by (pose proof (fm_snapshot_inv P fs HP Hfs cfg force now _ He) as H; by rewrite E in H). clear E.
  injection Hsn as <- <-. apply mbind_inv in Hfm as (e2 & s3 & [= <- <-] & Hfm). cbn [fst] in Hfm.
  rewrite Pm, Fd in Hfm.
  apply mbind_inv in Hfm as (r1 & s4 & (wa & Hl & ->)%io_inv & Hfm). cbn [fst snd set_io io_] in *. rewrite Ew1 in Hl.
  destruct (law_flock _ _ _ _ _ Hl) as [_ Hva].
  apply mbind_inv in Hfm as ([rs st] & s5 & (wb & Hst & ->)%io_inv & Hfm). cbn [fst snd set_io io_] in *.
  assert (fm_fstat s = ((rs, st), wb)) as Ef by (unfold fm_fstat; by rewrite Hl).
  destruct (law_fstat _ _ _ _ _ Hst) as (_ & Hvb & Hstat). rewrite Hva in Hvb, Hstat.
  destruct (_ && _) eqn:Eev in Hfm.
  { b2p. apply mbind_inv in Hfm as (r2 & s6 & (wc & Hu & ->)%io_inv & [= <-]). cbn [fst snd set_io io_] in *.
    destruct (law_flock _ _ _ _ _ Hu) as [_ Hvc].
    destruct (Hstat ltac:(done)) as (ino & f & Hfd & Hi & ->).
    apply o_evicted; [done|by unfold fm_unlinked; rewrite Ef|by exists ino, f|cbn; congruence|done|by split_and!]. }
  assert (~ fm_unlinked s) as Hnu.
  { unfold fm_unlinked. rewrite Ef. cbn. intros [-> U]. cbn in Eev. by rewrite U in Eev. }
  apply mbind_inv in Hfm as (disk & s6 & (wc & Hld & ->)%io_inv & Hfm). cbn [fst snd set_io io_] in *.
  assert (fm_load s = (disk, wc)) as Eld by (unfold fm_load; by rewrite Ef).
  pose proof (load_files _ _ _ _ Hld) as [Hsn Hsi]. rewrite Hvb in Hsn, Hsi.
  destruct (merged_of_image s He Hwf Hby ltac:(by rewrite Ef)) as [Hwo Hci]. rewrite Eld in Hwo, Hci. cbn [fst] in Hwo, Hci.
  fold (merged_of (fst s) disk) in Hfm. set (merged := merged_of (fst s) disk) in *.
  set (out := match merged with Some o => o | None => meta_ (fst s) end) in *.
  apply mbind_inv in Hfm as (rc & s7 & (wd & Hsto & ->)%io_inv & Hfm). cbn [fst snd set_io io_] in *.
  assert (fm_stores s out = rc) as Erc by (unfold fm_stores; rewrite Eld; cbn [snd]; by rewrite Hsto).
  apply mbind_inv in Hfm as (r3 & s8 & (we & Hun & ->)%io_inv & Hfm). cbn [fst snd set_io io_] in *.
  destruct (law_flock _ _ _ _ _ Hun) as [_ Hve].
  assert (zlen (serialize out) < p64) as Hlen by (rewrite zlen_serialize by done; apply w64_range).
  destruct (store_bytes_spec _ _ _ _ _ _ ltac:(unfold fs_ok in *; rewrite Hsn, Hsi; exact Hok)
    ltac:(unfold distinct in *; rewrite Hsn; exact Hds) (serialize_bytes out Hwo) Hlen Hsto) as [[-> [Hdt _]]|[Hrc Hk]].
  - cbn in Hfm. rewrite <- Hve in Hdt. clearbody merged. destruct merged as [o|]; injection Hfm as <-.
    + destruct (fm_adopt_spec P fs HP Hfs o e1 He1 ltac:(auto)) as (S2 & C2 & [D2 P2] & B2).
      apply (o_stored _ _ _ out); cbn [fst snd io_]; try done; [by rewrite Erc| |].
      { split; [by rewrite D2|]. split; [by rewrite P2|]. intros j Hj; rewrite S2, C2; apply B1. }
      intros j Hj. destruct (B2 j Hj) as [E1 E2]. split; [exact E1|]. intros E3. change (mbit o j = true) in E3.
      rewrite E2. by rewrite E3.
    + apply (o_stored _ _ _ out); cbn [fst snd io_]; try done; [by rewrite Erc|]. intros j Hj. subst out. by rewrite M1.
  - rewrite (proj2 (Z.ltb_lt _ _) Hrc) in Hfm.
    apply mbind_inv in Hfm as (u & s9 & (E9 & V9 & _)%bump_inv & [= <-]). cbn [fst snd io_] in *.
    destruct (fm_rearm_spec P fs HP Hfs (setSince_ (fst s)) (clearedSince_ (fst s)) (pinTouched_ (fst s)) e1 He1 (i_set _ _ _ He)
      (i_clr _ _ _ He) ltac:(auto) (i_disj _ _ _ He)) as (G1 & G2 & G3 & G4).
    apply (o_failed _ _ _ out); cbn [fst snd io_]; rewrite ?E9; try done; [by rewrite Erc| |congruence|by rewrite G3, Pt].
    rewrite V9. cbn. rewrite Hve. intros q Hq Hdq. rewrite Hk; [|done|unfold distinct in *; by rewrite Hsn].
    unfold file_of. by rewrite Hsn, Hsi.
Qed.
End flush_meta.

(** a commit changes exactly what this handle changed. Over the image another
    process left on disk, [merge_image] takes this handle's value for the pages
    it published or retracted since its last store (bit and CRC) and the disk's
    for every other page; it takes the pin flag from this handle only if this
    handle set it, recomputes the complete flag from the merged presence, and
    keeps the later access time. *)
Theorem merge_image_exact `{CK : Checksum} (P fs : Z) (disk snapshot : MetaData) (sets clears : PageBitmap) (pin : bool)
    (HP : Config.validPageSize P = true) (Hfs : 0 <= fs < p63) (Hd : meta_ok P fs disk) :
  let out := merge_image disk snapshot sets clears pin in
  meta_ok P fs out /\ key out = key disk /\
  (forall j, 0 <= j < np P fs ->
     mbit out j = (if Bitmap.get clears j then false else if Bitmap.get sets j then true else mbit disk j) /\
     mcrc out j = (if Bitmap.get clears j then 0 else if Bitmap.get sets j then mcrc snapshot j else mcrc disk j)) /\
  has_flag (flags out) kFlagPinned = has_flag (flags (if pin then snapshot else disk)) kFlagPinned /\
  (has_flag (flags out) kFlagComplete = true <-> 0 < np P fs /\ all_present P fs out) /\
  atime out = Z.max (atime disk) (atime snapshot).
Proof. exact (merge_image_spec P fs HP Hfs disk snapshot sets clears pin Hd). Qed.

(** The pages a handle has pending. *)
Definition pending (sets clears : PageBitmap) (j : Z) : bool := Bitmap.get sets j || Bitmap.get clears j.

(** C11: no lost update. Two handles of one entry, in different processes, commit over
    the same sidecar with changes to different pages. The two orders give the
    same presence and the same CRC for every page; each handle's published pages
    are present with its CRC and its retracted pages are absent after both
    commits, in either order. *)
Theorem concurrent_commits `{CK : Checksum} (P fs : Z) (disk a b : MetaData) (sa ca sb cb : PageBitmap) (pa pb : bool)
    (HP : Config.validPageSize P = true) (Hfs : 0 <= fs < p63) (Hd : meta_ok P fs disk)
    (Hdis : forall j, 0 <= j < np P fs -> pending sa ca j && pending sb cb j = false) :
  let ab := merge_image (merge_image disk a sa ca pa) b sb cb pb in
  let ba := merge_image (merge_image disk b sb cb pb) a sa ca pa in
  forall j, 0 <= j < np P fs ->
    mbit ab j = mbit ba j /\ mcrc ab j = mcrc ba j /\
    (Bitmap.get ca j = true -> mbit ab j = false) /\
    (Bitmap.get cb j = true -> mbit ab j = false) /\
    (Bitmap.get sa j = true -> Bitmap.get ca j = false -> mbit ab j = true /\ mcrc ab j = mcrc a j) /\
    (Bitmap.get sb j = true -> Bitmap.get cb j = false -> mbit ab j = true /\ mcrc ab j = mcrc b j).
Proof.
  intros ab ba j Hj. subst ab ba. specialize (Hdis j Hj).
  destruct (merge_image_spec P fs HP Hfs disk a sa ca pa Hd) as (Ma & _ & Ba & _).
  destruct (merge_image_spec P fs HP Hfs disk b sb cb pb Hd) as (Mb & _ & Bb & _).
  destruct (merge_image_spec P fs HP Hfs _ b sb cb pb Ma) as (_ & _ & Bab & _).
  destruct (merge_image_spec P fs HP Hfs _ a sa ca pa Mb) as (_ & _ & Bba & _).
  destruct (Bab j Hj) as [-> ->], (Bba j Hj) as [-> ->]. unfold merged_bit, merged_crc.
  destruct (Ba j Hj) as [-> ->], (Bb j Hj) as [-> ->]. unfold merged_bit, merged_crc, pending in *.
  destruct (Bitmap.get sa j), (Bitmap.get ca j), (Bitmap.get sb j), (Bitmap.get cb j); cbn in *; intuition congruence.
Qed.

(** C10: [flushMeta] does one of four things, and which one is fixed by what the call sees.
    It does nothing, and changes nothing, exactly when the entry is not dirty or, unless forced, the
    interval since the last store has not passed on the call's own clock reading. Otherwise, when the
    fstat under the lock says the data file has no link, no file changes: an evicted entry is never
    brought back. Otherwise it stores one image: if the load gives a sidecar of the same origin, that
    sidecar with this handle's pages applied - every page it published or retracted since its last
    store has its value, every other the disk's - and its own image only if the load gives none or
    one of another origin. If the store fails, every file but the temporary one is as before, the
    entry is dirty again and its pending deltas are exactly those it had; if it succeeds, the sidecar
    is that image, nothing is pending, and the handle's view of presence is the stored one. *)
Theorem flushMeta_outcomes {W} `{!IOBackend W, !IOLaws W} `{CK : Checksum} (cfg : Config.Config)
    (ukey : UrlKey.UrlKey) (clockS : nat -> Z) (P fs : Z) (force : bool) (s s' : @St W)
    (HP : Config.validPageSize P = true) (Hfs : 0 <= fs < p63) (He : Inv P fs (fst s)) (Hwf : wf (meta_ (fst s)))
    (Hok : fs_ok (view (io_ (snd s)))) (Hby : bytes_ok (view (io_ (snd s))))
    (Hds : distinct (view (io_ (snd s))) (metaPath_ (fst s)) (tmp_of (metaPath_ (fst s))))
    (Hfm : flushMeta cfg ukey clockS force s = (tt, s')) :
  outcome cfg ukey clockS P fs force s s'.
Proof. by eapply flushMeta_outcome. Qed.

(** *** Witnesses: two handles of [demo], one publishing page 1, one dropping page 0. *)
Definition two : PageBitmap := Bitmap.reset 2.
Definition commit_a : MetaData := set_page (Bitmap.set (bitmap demo) 1) 1 77 demo.

Lemma demo_ok : meta_ok 4096 5000 demo.
Proof. apply meta_ok_wf; [exact demo_wf|reflexivity|reflexivity]. Qed.

Lemma merge_image_exact_witness :
  mbit (merge_image demo commit_a (Bitmap.set two 1) two false) 1 = true /\
  mcrc (merge_image demo commit_a (Bitmap.set two 1) two false) 1 = 77 /\
  has_flag (flags (merge_image demo commit_a (Bitmap.set two 1) two false)) kFlagComplete = true.
Proof.
  destruct (merge_image_exact 4096 5000 demo commit_a (Bitmap.set two 1) two false
    ltac:(reflexivity) ltac:(lia) demo_ok) as (_ & _ & H & _).
  destruct (H 1 ltac:(vm_compute; split; congruence)) as [-> ->]. by vm_compute.
Defined.

Lemma concurrent_commits_witness :
  mbit (merge_image (merge_image demo commit_a (Bitmap.set two 1) two false) demo two (Bitmap.set two 0) false) 0 = false /\
  mbit (merge_image (merge_image demo commit_a (Bitmap.set two 1) two false) demo two (Bitmap.set two 0) false) 1 = true.
Proof.
  assert (forall j, 0 <= j < np 4096 5000 ->
    pending (Bitmap.set two 1) two j && pending two (Bitmap.set two 0) j = false) as Hdis.
  { intros j Hj. assert (j = 0 \/ j = 1) as [-> | ->] by (change (np 4096 5000) with 2 in Hj; lia); by vm_compute. }
  pose proof (concurrent_commits 4096 5000 demo commit_a demo (Bitmap.set two 1) two two (Bitmap.set two 0) false false
    ltac:(reflexivity) ltac:(lia) demo_ok Hdis) as H.
  destruct (H 0 ltac:(vm_compute; split; congruence)) as (_ & _ & _ & H0 & _).
  destruct (H 1 ltac:(vm_compute; split; congruence)) as (_ & _ & _ & _ & H1 & _).
  split; [by apply H0; vm_compute|by apply H1; vm_compute].
Defined.

Definition e4_meta : MetaData := Eval vm_compute in meta_ e4.

Lemma e4_wf : wf (meta_ e4).
Proof.
  pose proof (i_meta _ _ _ demo_inv) as Hm. assert (meta_ e4 = e4_meta) as E by (vm_compute; reflexivity).
  rewrite E in *. destruct Hm as (HPm & Hfm & [Hb Hn] & Hl).
  split; unfold is_u32, is_u64, is_byte; try (cbn; lia).
  - split; [reflexivity|cbn; lia].
  - split; [repeat constructor; cbn; lia|vm_compute; congruence].
  - split; [done|reflexivity].
  - split; [reflexivity|]. repeat constructor; cbn; lia.
Qed.

Lemma flushMeta_outcomes_witness :
  let s' := snd (flushMeta demo_cfg demo_key (fun _ => 0) true (e4, demo_world [])) in
  outcome demo_cfg demo_key (fun _ => 0) 4096 10000 true (e4, demo_world []) s' /\ dirty_ e4 = true /\ dirty_ (fst s') = false.
Proof.
  intros s'. split; [|by vm_compute].
  destruct (flushMeta demo_cfg demo_key (fun _ => 0) true (e4, demo_world [])) as [[] s2] eqn:E. subst s'. cbn [snd].
  apply (flushMeta_outcomes demo_cfg demo_key (fun _ => 0) 4096 10000 true (e4, demo_world []) s2);
    [reflexivity|lia|exact demo_inv|exact e4_wf| | | |exact E].
  - intros q ino Hq. cbn in Hq. apply lookup_singleton_Some in Hq as [<- <-]. by eexists.
  - intros ino n Hi. cbn in Hi. apply lookup_singleton_Some in Hi as [<- <-]. apply Forall_zeros.
  - intros ino Hi. vm_compute in Hi. congruence.
Defined.
End EntryMeta.
