(* ===== verification/FileEntryFrame.v ===== *)
(** * What a cached read leaves alone

    A call of [readCached], whatever it returns, keeps the entry's invariant and the file
    system: it only reads files and changes marks in memory. It can only lose sources: the
    staged pages stay as they were, and a page of the data file it retracts was there before. *)

From S2P Require Import Prelude IOBackend Crc32c PageBitmap Config MetaFile UrlKey FileEntry FileEntryInv FileEntryRead.

Module EntryFrame.
Import Meta Entry EntryInv EntryRead.

Section frame.
Context {W : Type} `{!IOBackend W, !IOLaws W} `{CK : Checksum}.
Context (clockS clockUs : nat -> Z).
Context (P fs : Z) (HP : Config.validPageSize P = true) (Hfs : 0 <= fs < p63).
Abbreviation St := (@Entry.St W).
Abbreviation np := (np P fs).
Abbreviation Inv := (Inv P fs).
Abbreviation bm_ok := (bm_ok P fs).
Abbreviation fsview s := (view (io_ (snd (s : St)))).

(** [e] has no source of bytes that [e0] had not: the same data file and staged payloads, and no
    resident page, nor a checksum of one, that was not [e0]'s. *)
Record src_le (e0 e : FileEntry) : Prop := {
  sl_fd : dataFd_ e = dataFd_ e0;
  sl_staged : forall i, staged_data e i = staged_data e0 i;
  sl_bits : forall i, 0 <= i < np -> Bitmap.get (bitmap (meta_ e)) i = true ->
    Bitmap.get (bitmap (meta_ e0)) i = true /\ zget (pageCrcs (meta_ e)) i = zget (pageCrcs (meta_ e0)) i
}.
Lemma src_le_refl e : src_le e e.
Proof using. by split. Qed.
Lemma src_le_trans e e' e'' : src_le e e' -> src_le e' e'' -> src_le e e''.
Proof using.
  intros [F S B] [F' S' B']. split; [congruence| |]. { intros i. by rewrite S', S. }
  intros i Hi H. destruct (B' i Hi H) as [H1 E1]. destruct (B i Hi H1) as [H2 E2]. split; [done|congruence].
Qed.
#[local] Instance src_le_preorder : PreOrder src_le.
Proof using. split; [exact src_le_refl|exact src_le_trans]. Qed.
Lemma same_src_le e e' : same_src e e' -> src_le e e'.
Proof using. intros (Hm & Hd & Hs). split; [done|done|]. by rewrite Hm. Qed.

(** Bytes served by an entry with fewer sources are bytes of the entry with more. *)
Lemma served_src_le s0 e0 e off len b : src_le e0 e -> 0 <= off -> 0 < len ->
  served P fs s0 e off len b -> served P fs s0 e0 off len b.
Proof using HP Hfs.
  intros [F S B] Ho Hl (Hend & Hz & H). split; [done|]. split; [done|]. intros i Hi. destruct (H i Hi) as [Hlt (d & Hd & E)].
  split; [done|]. exists d. split; [|done]. destruct Hd as [Hd|(Hn & Hb & Hp & Hc & f & Hf & Hd)]; [left; by rewrite <- S|right].
  destruct (req_pages P fs HP Hfs off len Ho Hl Hend) as (Q1 & _ & Q2). unfold first, last_ in *.
  destruct (B i ltac:(lia) Hb) as [B1 B2]. split; [by rewrite <- S|]. split; [done|]. split; [done|].
  split; [congruence|]. exists f. by rewrite <- F.
Qed.

(** What the reads do to the sources. *)
Lemma retract_src_le e i : Inv e -> 0 <= i < np -> src_le e (retractPage e i).
Proof using HP Hfs.
  intros He Hi. split; [done|done|]. intros j Hj. cbn.
  rewrite (bm_get_clear P fs) by (done || apply (i_meta _ _ _ He)). case_decide; [done|]. intros ->. split; [done|].
  apply zget_zset_ne; lia.
Qed.
Lemma demote_src_le a b e : Inv e -> 0 <= a -> b < np -> src_le e (demote_locked a b e).
Proof using HP Hfs.
  intros He Ha Hb. unfold demote_locked. transitivity (foldl retractPage e (zrange a (b + 1))); [|by split].
  assert (forall i, i ∈ zrange a (b + 1) -> 0 <= i < np) as Hl by (intros i Hi%elem_of_zrange; lia).
  revert He Hl. generalize (zrange a (b + 1)). intros l. revert e. induction l as [|i l IH]; intros e He Hl; [done|]. cbn [foldl].
  assert (0 <= i < np) as Hi by (apply Hl; by left).
  transitivity (retractPage e i); [by apply retract_src_le|].
  apply IH; [by apply (retractPage_inv P fs)|]. intros j Hj. apply Hl. by right.
Qed.
Lemma atime_src_le now e : src_le e (atime_locked now e).
Proof using. unfold atime_locked. destruct (_ <=? _); by split. Qed.
Lemma plan_page_src off len account pl i pl' : plan_page off len account pl i = Some pl' -> src_le (p_e pl) (p_e pl').
Proof using.
  unfold plan_page. destruct (staged_at (p_e pl) i) as [[inBuf p]|] eqn:E; [|destruct (negb _); [done|by intros [= <-]]].
  set (es := if spec p && account then _ else _).
  assert (src_le (p_e pl) (fst es)) as H.
  { subst es. destruct (_ && _); [|done]. apply same_src_le. by apply same_src_unmark. }
  clearbody es. destruct es as [e1 served]. cbn [fst] in H. intros [= <-]. cbn [p_e].
  destruct (account && _); [|done]. transitivity e1; [done|by split].
Qed.
Lemma plan_locked_src off len account a b out e : src_le e (snd (plan_locked off len account a b out e)).
Proof using.
  unfold plan_locked.
  assert (forall l pl, src_le (p_e pl) (p_e (snd (plan_loop off len account l pl)))) as G.
  { induction l as [|i l IH]; intros pl; [done|]. cbn [plan_loop]. destruct (plan_page off len account pl i) as [pl'|] eqn:E; [|done].
    transitivity (p_e pl'); [by eapply plan_page_src|apply IH]. }
  specialize (G (zrange a (b + 1)) (mkPlan (size_served e) out acct0 [] [])).
  destruct (plan_loop _ _ _ _ _) as [ok pl]. transitivity (size_served e); [apply same_src_le, size_served_src|exact G].
Qed.
Lemma touch_src off len runs ft e : src_le e (snd (touch_runs off len runs ft e)).
Proof using.
  unfold touch_runs.
  assert (forall l e ft, src_le e (fst (foldl (touch_page off len) (e, ft) l))) as G.
  { induction l as [|i l IH]; intros e1 f1; [done|]. cbn [foldl touch_page]. destruct (Bitmap.get (servedOnce_ e1) i); [done|].
    etransitivity; [|apply IH]. by split. }
  specialize (G (concat (map (fun r => zrange (firstPage r) (lastPage r + 1)) runs)) e ft). by destruct (foldl _ _ _).
Qed.

(** ** The entry kept along a read that started from [e0]

    [sized]: the map of served pages has its size. *)
Context (e0 : FileEntry).
Definition good (sized : bool) (e : FileEntry) : Prop := Inv e /\ (sized = true -> bm_ok (servedOnce_ e)) /\ src_le e0 e.
Definition kept {A} (sized : bool) (m : M St A) : Prop :=
  forall s a s', good sized (fst s) -> m s = (a, s') -> good sized (fst s') /\ fsview s' = fsview s.

Lemma kept_ret {A} z (a : A) : kept z (ret a).
Proof using. by intros s x s' H [= _ <-]. Qed.
Lemma kept_bind {A B} z (m : M St A) (k : A -> M St B) : kept z m -> (forall a, kept z (k a)) -> kept z (do x <- m; k x).
Proof using.
  intros Hm Hk s b s' H (a & s1 & H1 & H2)%mbind_inv. destruct (Hm _ _ _ H H1) as [G E].
  destruct (Hk a _ _ _ G H2) as [G' E']. split; [done|congruence].
Qed.
Lemma kept_if {A} z (b : bool) (m1 m2 : M St A) : kept z m1 -> kept z m2 -> kept z (if b then m1 else m2).
Proof using. by destruct b. Qed.
Lemma kept_getE z : kept z (getE : M St FileEntry).
Proof using. by intros s x s' H [= _ <-]. Qed.
Lemma kept_modW z f : (forall w, io_ (f w) = io_ w) -> kept z (modW f : M St unit).
Proof using. intros Hf s x s' H [= _ <-]. cbn. by rewrite Hf. Qed.
Lemma kept_modE z f : (forall e, good z e -> good z (f e)) -> kept z (modE f : M St unit).
Proof using. intros Hf s x s' H [= _ <-]. split; [by apply Hf|done]. Qed.
Lemma kept_pread z fd n off : kept z (io (preadFull fd n off) : M St (Z * bytes)).
Proof using.
  intros s [r b] s' H (w' & Hp & ->)%io_inv. split; [done|]. cbn. by eapply preadFull_view.
Qed.
Lemma kept_when z b (m : M St unit) : kept z m -> kept z (when b m).
Proof using. intros. unfold when. apply kept_if; [done|apply kept_ret]. Qed.
Lemma kept_bump z c n : kept z (bump c n : M St unit).
Proof using. by apply kept_modW. Qed.
Lemma kept_nowS z : kept z (nowS clockS : M St Z).
Proof using. by intros s x s' H [= _ <-]. Qed.

Lemma demote_served a b e : servedOnce_ (demote_locked a b e) = servedOnce_ e.
Proof using.
  unfold demote_locked. change (servedOnce_ (foldl retractPage e (zrange a (b + 1))) = servedOnce_ e).
  generalize (zrange a (b + 1)). intros l. revert e. induction l as [|i l IH]; intros e; [done|]. cbn [foldl]. by rewrite IH.
Qed.
Lemma kept_demote z a b : 0 <= a -> b < np -> kept z (demoteRun a b : M St unit).
Proof using HP Hfs.
  intros Ha Hb. apply kept_bind; [|intros _; apply kept_bump]. apply kept_modE. intros e (He & Hz & Hl). split_and!.
  - by apply (demote_locked_inv P fs HP Hfs).
  - by rewrite demote_served.
  - transitivity e; [done|by apply demote_src_le].
Qed.

Lemma kept_demote_pages z m fd l expect : (forall i, i ∈ l -> 0 <= i < np) -> kept z (demote_pages m fd l expect : M St unit).
Proof using HP Hfs.
  revert expect. induction l as [|i l IH]; intros [|x expect] Hl; cbn [demote_pages]; try apply kept_ret.
  assert (0 <= i < np) as Hi by (apply Hl; by left).
  apply kept_bind; [apply kept_pread|]. intros rb. apply kept_bind.
  - repeat apply kept_if; try apply kept_ret; apply kept_demote; lia.
  - intros _. apply IH. intros j Hj. apply Hl. by right.
Qed.
Lemma kept_demoteBadPages z a b expect : 0 <= a -> b < np -> kept z (demoteBadPages a b expect : M St bool).
Proof using HP Hfs.
  intros Ha Hb. unfold demoteBadPages. apply kept_bind; [apply kept_getE|]. intros e.
  apply kept_bind; [|intros _; apply kept_ret]. apply kept_demote_pages. intros i Hi%elem_of_zrange. lia.
Qed.
Lemma kept_verify_pages z m last_ got b o l expect : last_ < np -> (forall i, i ∈ l -> 0 <= i < np) ->
  kept z (verify_pages m last_ got b o l expect : M St bool).
Proof using HP Hfs.
  intros Hlast. revert o expect. induction l as [|i l IH]; intros o [|x expect] Hl; cbn [verify_pages]; try apply kept_ret.
  assert (0 <= i < np) as Hi by (apply Hl; by left).
  apply kept_if; [apply kept_demoteBadPages; lia|]. apply kept_if.
  - apply kept_bind; [apply kept_demote; lia|]. intros _. apply kept_ret.
  - apply IH. intros j Hj. apply Hl. by right.
Qed.
Lemma kept_readVerifyRun z a b expect : 0 <= a -> b < np -> kept z (readVerifyRun a b expect : M St (bool * bytes)).
Proof using HP Hfs.
  intros Ha Hb. unfold readVerifyRun. apply kept_bind; [apply kept_getE|]. intros e.
  apply kept_bind; [apply kept_pread|]. intros rb. apply kept_bind; [|intros ok; apply kept_ret].
  apply kept_verify_pages; [done|]. intros i Hi%elem_of_zrange. lia.
Qed.

Definition in_pages (r : Run) : Prop := 0 <= firstPage r /\ lastPage r < np.
Lemma kept_read_runs z m off len crcs runs out a : Forall in_pages runs ->
  kept z (read_runs m off len crcs runs out a : M St (bool * bytes * Acct)).
Proof using HP Hfs.
  intros Hr. revert out a. induction Hr as [|r runs [R1 R2] _ IH]; intros out a; cbn [read_runs]; [apply kept_ret|].
  apply kept_bind; [by apply kept_readVerifyRun|]. intros [ok b]. apply kept_if; [apply kept_ret|].
  apply kept_bind; [|intros prev; apply IH].
  intros s x s' (Hi & Hz & Hl) [= _ <-]. split; [|done]. split_and!; [|done|by destruct Hl].
  by apply (step_inv P fs HP Hfs (Config.defaults []) _ _ Hi), s_swap_disk_end.
Qed.

Lemma kept_publish z account okk a : kept z (publish account okk a : M St unit).
Proof using.
  unfold publish. apply kept_bind.
  - apply kept_when, kept_bind; [|intros _]; by apply kept_modW.
  - intros _. apply kept_if; [apply kept_ret|].
    repeat (apply kept_bind; [|intros _]);
      repeat (first [apply kept_when | apply kept_bump | apply kept_bind; [|intros _]]).
Qed.
Lemma kept_touchAtime z : kept z (touchAtime clockS : M St unit).
Proof using.
  unfold touchAtime. apply kept_bind; [apply kept_nowS|]. intros now. apply kept_modE. intros e (He & Hz & Hl). split_and!.
  - by apply (atime_locked_inv P fs).
  - unfold atime_locked. by destruct (_ <=? _).
  - transitivity e; [done|apply atime_src_le].
Qed.

(** A plan over a request in the file: its runs are pages of the file. *)
Lemma plan_runs off len account e out pl : Inv e -> 0 <= off -> 0 < len -> off + len <= fs -> zlen out = len ->
  plan_loop off len account (zrange (off / P) ((off + len - 1) / P + 1)) (mkPlan (size_served e) out acct0 [] []) = (true, pl) ->
  Forall in_pages (p_runs pl).
Proof using HP Hfs.
  intros He Ho Hl Hend Hout Hp. destruct (size_served_inv P fs HP Hfs _ He) as [H1 H2].
  destruct (req_pages P fs HP Hfs off len Ho Hl Hend) as (Q1 & Q2 & Q3).
  destruct (plan_loop_ok P fs HP Hfs off len Ho Hl Hend e (IOBackend.mkFs ∅ ∅ ∅) account (off / P)
    (mkPlan (size_served e) out acct0 [] []) pl) as [[_ _ Hr _ _] _]; try done; [unfold first, last_ in *; lia|by apply plan_ok_init|].
  apply Forall_forall. intros r Hin. destruct (Hr r Hin) as (R1 & R2 & _). unfold in_pages, first, last_ in *. lia.
Qed.

Lemma kept_noteActivity z : kept z (noteActivity clockUs : M St unit).
Proof using. intros s x s' H Hn. apply noteActivity_world in Hn as [E1 E2]. by rewrite E1, E2. Qed.

Lemma touch_served off len runs ft e : bm_ok (servedOnce_ e) -> Forall in_pages runs ->
  bm_ok (servedOnce_ (snd (touch_runs off len runs ft e))).
Proof using HP Hfs.
  intros Hs Hr. unfold touch_runs.
  assert (forall l e ft, (forall i, i ∈ l -> 0 <= i < np) -> bm_ok (servedOnce_ e) ->
    bm_ok (servedOnce_ (fst (foldl (touch_page off len) (e, ft) l)))) as G.
  { induction l as [|i l IH]; intros e1 f0 Hl Hs0; [done|]. cbn [foldl touch_page].
    assert (forall j, j ∈ l -> 0 <= j < np) by (intros; apply Hl; by right).
    pose proof (Hl i ltac:(by left)).
    destruct (Bitmap.get (servedOnce_ e1) i); [by apply IH|]. apply IH; [done|]. cbn. by apply bm_set. }
  specialize (G (concat (map (fun r => zrange (firstPage r) (lastPage r + 1)) runs)) e ft).
  destruct (foldl _ _ _) as [e2 f1]. apply G; [|done].
  intros i Hi. apply list_elem_of_In, in_concat in Hi as (l & Hl & Hi). apply in_map_iff in Hl as (r & <- & Hin).
  apply list_elem_of_In, elem_of_zrange in Hi. apply list_elem_of_In in Hin.
  destruct (proj1 (Forall_forall _ _) Hr r Hin) as [R1 R2]. lia.
Qed.

Lemma readCached_kept off len out account (s : St) r s' :
  Inv (fst s) -> src_le e0 (fst s) -> 0 <= off < p64 -> 0 <= len < p64 -> zlen out = len ->
  readCached clockS clockUs off len out account s = (r, s') -> Inv (fst s') /\ fsview s' = fsview s /\ src_le e0 (fst s').
Proof using HP Hfs.
  intros He Hle Hoff Hlen Hout H. unfold readCached in H. apply mbind_inv in H as (u & s1 & Hact & H).
  assert (good false (fst s)) as G by done.
  assert (kept false (when account (noteActivity clockUs))) as K by apply kept_when, kept_noteActivity.
  destruct (K _ _ _ G Hact) as [(G1 & _ & L1) V1]. clear K.
  destruct (len =? 0) eqn:E0; [by injection H as <- <-|]. b2p.
  apply mbind_inv in H as (e & s2 & [= <- <-] & H). cbv zeta in H.
  pose proof (i_meta _ _ _ G1) as (Ep & Ef & _). rewrite Ep, Ef in H.
  destruct (_ || _) eqn:Eg in H; [by injection H as <- <-|]. b2p.
  rewrite (w64_add_no_wrap off len) in * by lia. rewrite (w64_small (off + len - 1)) in H by lia.
  apply mbind_inv in H as ([present pl] & s3 & Hpl & H). unfold locked in Hpl.
  destruct (plan_locked off len account (off / P) ((off + len - 1) / P) out (fst s1)) as [[ok0 pl0] e3] eqn:El.
  injection Hpl as -> -> <-.
  destruct (req_pages P fs HP Hfs off len ltac:(lia) ltac:(lia) ltac:(lia)) as (Q1 & Q2 & Q3). unfold first, last_ in *.
  destruct (plan_locked_inv P fs HP Hfs off len account (off / P) ((off + len - 1) / P) out (fst s1) G1 ltac:(lia) ltac:(lia)) as [I3 B3].
  pose proof (plan_locked_src off len account (off / P) ((off + len - 1) / P) out (fst s1)) as L3.
  rewrite El in I3, B3, L3. cbn [snd] in I3, B3, L3.
  assert (good true e3) as G3 by (split_and!; [done|done|by transitivity (fst s1)]).
  destruct present; cbn [negb] in H.
  2:{ assert (kept true (do_ publish account false (p_acct pl); ret (false, p_out pl))) as K
        by (apply kept_bind; [apply kept_publish|intros; apply kept_ret]).
      destruct (K _ _ _ (G3 : good true (fst (e3, snd s1))) H) as [(? & _ & ?) V]. split; [done|]. split; [by rewrite V|done]. }
  assert (Forall in_pages (p_runs pl)) as Hruns.
  { unfold plan_locked in El. destruct (plan_loop _ _ _ _ _) as [ok pl'] eqn:Ep'. injection El as -> -> _.
    eapply (plan_runs off len account (fst s1) out pl); [done|lia|lia|lia|done|exact Ep']. }
  match type of H with ?m _ = _ => assert (kept true m) as K end.
  { apply kept_bind; [by apply kept_read_runs|]. intros [[ok out1] a1]. apply kept_if.
    { apply kept_bind; [apply kept_publish|intros; apply kept_ret]. }
    apply kept_bind.
    - apply kept_if; [|apply kept_ret]. apply kept_bind; [|intros; apply kept_ret].
      intros t x t' (Gi & Gz & Gl) Ht. unfold locked in Ht.
      destruct (touch_runs off len (p_runs pl) (ftB a1) (fst t)) as [ft e5] eqn:Et. injection Ht as <- <-. cbn.
      pose proof (touch_runs_inv P fs HP Hfs off len (p_runs pl) (ftB a1) (fst t) Gi (Gz eq_refl)) as T. rewrite Et in T.
      assert (forall r0, r0 ∈ p_runs pl -> 0 <= firstPage r0 /\ lastPage r0 < np) as Hr by (by apply Forall_forall).
      pose proof (touch_src off len (p_runs pl) (ftB a1) (fst t)) as L. rewrite Et in L.
      split; [|done]. split; [by apply T|]. split; [|by transitivity (fst t)]. intros _.
      pose proof (touch_served off len (p_runs pl) (ftB a1) (fst t) (Gz eq_refl) Hruns) as S. by rewrite Et in S.
    - intros a2. apply kept_bind; [apply kept_publish|]. intros _. apply kept_if; [apply kept_ret|].
      apply kept_bind; [apply kept_touchAtime|]. intros _. apply kept_bind; [apply kept_bump|]. intros _.
      apply kept_bind; [apply kept_bump|]. intros _. apply kept_ret. }
  destruct (K _ _ _ (G3 : good true (fst (e3, snd s1))) H) as [(? & _ & ?) V]. split; [done|]. split; [by rewrite V|done].
Qed.

End frame.
End EntryFrame.
