(* ===== verification/SlotStore.v ===== *)
(** * The slot store (src/core/SlotStore.h, SlotStore.cc)

    The per-entry file of converted records: a header and the layout blob written
    once, then commit blocks appended under an exclusive lock by any number of
    processes. The codecs, creation by link, the block scan, commit and the read
    of a record, with every error path.

    Locks are backend calls; the object's mutex is taken in the model by running
    a method whole, and a try-lock that fails is an argument. One device is
    assumed where the source compares [st_dev]. The random store id, the process
    id, the sequence number of temporary names and the clock are arguments. *)

From S2P Require Import Prelude IOBackend Crc32c UrlKey.

Module Slots.

Record SlotStoreHeader := mkHdr {
  layoutVersion : Z; container : Z; slotFactor100 : Z; declined : bool; codecs : bytes;
  originSize : Z; originMtime : Z; cksumKind : Z; originCksum : Z; virtualSize : Z; nSlots : Z;
  layoutHash : Z; storeId : Z; blobLen : Z; blobCrc : Z
}.

Definition kZstd : Z := 1.
Definition kRaw : Z := 2.
Definition kKept : Z := 3.
Record SlotEntry := mkSlot { slot : Z; kind : Z; off : Z; len : Z; ecrc : Z }.
Record SlotRecord := mkRec { rslot : Z; rkind : Z; rbytes : bytes }.

Definition kFormatVersion : Z := 2.
Definition kHeaderBytes : Z := 4096.
Definition kAlign : Z := 4096.
Definition kBlockHeader : Z := 64.
Definition kEntry : Z := 24.
Definition kCodecsMax : Z := 256.
Definition kDebrisAgeS : Z := 60.
Definition kMagic : bytes := bs "UCSLOTS1".
Definition kBlockMagic : bytes := bs "USBLOCK1".

Definition alignUp (v : Z) : Z := (v +% kAlign -% 1) / kAlign *% kAlign.

(** ** Codecs *)
Definition entry_fields (e : SlotEntry) : list (Z * bytes) :=
  [ (0, le_bytes 4 (slot e)); (4, le_bytes 1 (kind e)); (8, le_bytes 8 (off e));
    (16, le_bytes 4 (len e)); (20, le_bytes 4 (ecrc e)) ].
Definition encodeEntry (e : SlotEntry) : bytes := write_all (entry_fields e) (zeros kEntry).
(** The source fills [e] and says whether its kind is known. *)
Definition decodeEntry (p : bytes) (at_ : Z) : SlotEntry * bool :=
  let e := mkSlot (getLE 4 p at_) (getLE 1 p (at_ + 4)) (getLE 8 p (at_ + 8)) (getLE 4 p (at_ + 16))
             (getLE 4 p (at_ + 20)) in
  (e, (kind e =? kZstd) || (kind e =? kRaw) || (kind e =? kKept)).

Section store.
Context {W : Type} `{!IOBackend W} `{CK : Checksum}.

Definition header_fields (h : SlotStoreHeader) : list (Z * bytes) :=
  let n := Z.min (zlen (codecs h)) kCodecsMax in
  [ (0, kMagic); (8, le_bytes 4 kFormatVersion); (12, le_bytes 4 (layoutVersion h));
    (16, le_bytes 1 (container h)); (18, le_bytes 1 (if declined h then 1 else 0));
    (20, le_bytes 4 (nSlots h)); (24, le_bytes 8 (originSize h)); (32, le_bytes 8 (originMtime h));
    (40, le_bytes 1 (cksumKind h)); (42, le_bytes 2 (slotFactor100 h)); (44, le_bytes 4 (originCksum h));
    (48, le_bytes 8 (virtualSize h)); (56, le_bytes 8 (layoutHash h)); (64, le_bytes 8 (storeId h));
    (72, le_bytes 8 (blobLen h)); (80, le_bytes 4 (blobCrc h)); (84, le_bytes 2 n);
    (86, zsub (codecs h) 0 n) ].

Definition encodeSlotHeader (h : SlotStoreHeader) : bytes :=
  let b := write_all (header_fields h) (zeros kHeaderBytes) in
  putLE 4 b (kHeaderBytes - 4) (crc 0 (zsub b 0 (kHeaderBytes - 4))).

Definition decodeSlotHeader (p : bytes) : option SlotStoreHeader :=
  if (zlen p <? kHeaderBytes) || negb (bytes_eqb (zsub p 0 8) kMagic) then None
  else if negb (getLE 4 p (kHeaderBytes - 4) =? crc 0 (zsub p 0 (kHeaderBytes - 4))) then None
  else if negb (getLE 4 p 8 =? kFormatVersion) then None
  else
    let cn := getLE 2 p 84 in
    if kCodecsMax <? cn then None
    else Some (mkHdr (getLE 4 p 12) (getLE 1 p 16) (getLE 2 p 42) (negb (getLE 1 p 18 =? 0)) (zsub p 86 cn)
           (getLE 8 p 24) (getLE 8 p 32) (getLE 1 p 40) (getLE 4 p 44) (getLE 8 p 48) (getLE 4 p 20)
           (getLE 8 p 56) (getLE 8 p 64) (getLE 8 p 72) (getLE 4 p 80)).

(** The seeded CRC a record of [slot] in store [id] must carry. *)
Definition recordCrc (id slot : Z) (p : bytes) : Z :=
  crc (crc 0 (le_bytes 8 id ++ le_bytes 4 slot ++ le_bytes 4 (w32 (zlen p)))) p.

Definition path (objectDir hashHex : bytes) : bytes := objectDir ++ bs "/" ++ hashHex ++ bs ".slots".

(** ** The object *)
Record SlotStore := mkStore {
  fd_ : Z; path_ : bytes; hdr_ : SlotStoreHeader; blob_ : bytes; readOff_ : Z; claimedEnd_ : Z
}.
Definition new_store (fd : Z) (p : bytes) (h : SlotStoreHeader) (b : bytes) : SlotStore :=
  mkStore fd p h b (alignUp (kHeaderBytes +% blobLen h)) 0.

Inductive Read := ROk (h : SlotStoreHeader) (blob : bytes) | RUnusable | RNewer.

(** The magic, and a version above this build's at offset 8. *)
Definition newerFormat (p : bytes) (n : Z) : bool :=
  (12 <=? n) && bytes_eqb (zsub p 0 8) kMagic && (kFormatVersion <? getLE 4 p 8).

Definition readHeadAndBlob (fd : Z) : M W Read :=
  do r <- preadFull fd kHeaderBytes 0;
  let '(got, b) := r in
  if (12 <=? got) && newerFormat b got then ret RNewer
  else if negb (got =? kHeaderBytes) then ret RUnusable
  else
    match decodeSlotHeader b with
    | None => ret RUnusable
    | Some h =>
        if blobLen h =? 0 then ret (ROk h [])
        else
          do r2 <- preadFull fd (blobLen h) kHeaderBytes;
          if negb (fst r2 =? blobLen h) || negb (crc 0 (snd r2) =? blobCrc h) then ret RUnusable
          else ret (ROk h (snd r2))
    end.

Definition isDebris (nowS fd : Z) : M W bool :=
  do st <- io_fstat fd;
  ret ((fst st =? 0) && (kDebrisAgeS <? nowS - st_mtime (snd st))).

Definition open (objectDir hashHex : bytes) : M W (option SlotStore) :=
  let p := path objectDir hashHex in
  do fd <- io_open p O_RDWR;
  if fd <? 0 then ret None
  else
    do r <- readHeadAndBlob fd;
    match r with
    | ROk h blob => ret (Some (new_store fd p h blob))
    | _ => do_ io_close fd; ret None
    end.

(** Why [openOrCreate] has no store to return. *)
Inductive Err := EMkdirs (rc : Z) | ENewer | EBeingWritten | EOpen (rc : Z) | ETmp (rc : Z) | EWrite | ELink (rc : Z) | ERaced.
Definition result : Type := (SlotStore * bool) + Err.

(** Header and layout into the private file [tmp]; its descriptor. *)
Definition write_new (tmp : bytes) (want : SlotStoreHeader) (blob : bytes) : M W (Z + Err) :=
  do tfd <- io_open tmp O_RDWR_CREAT_EXCL;
  if tfd <? 0 then ret (inr (ETmp tfd))
  else
    let hb := encodeSlotHeader want in
    do w <- pwriteFull tfd hb 0;
    let ok := w =? zlen hb in
    do ok <- (if ok && negb (bool_decide (blob = [])) then
                do w2 <- pwriteFull tfd blob kHeaderBytes; ret (w2 =? zlen blob)
              else ret ok);
    do rc <- (if ok then io_fdatasync tfd else ret 1);
    if negb (rc =? 0) then
      do_ io_close tfd; do_ io_unlink tmp; ret (inr EWrite)
    else ret (inl tfd).

Definition with_blob (h : SlotStoreHeader) (id : Z) (blob : bytes) : SlotStoreHeader :=
  mkHdr (layoutVersion h) (container h) (slotFactor100 h) (declined h) (codecs h) (originSize h) (originMtime h)
    (cksumKind h) (originCksum h) (virtualSize h) (nSlots h) (layoutHash h) id (zlen blob) (crc 0 blob).

Definition tmp_name (p : bytes) (pid seq : Z) : bytes :=
  p ++ bs ".tmp." ++ UrlKey.to_string pid ++ bs "." ++ UrlKey.to_string seq.

(** One attempt: a result, or [None] for another round. *)
Definition attempt (p : bytes) (want : SlotStoreHeader) (blob : bytes) (id pid seq now : Z) : M W (option result) :=
  do fd <- io_open p O_RDWR;
  if 0 <=? fd then
    do r <- readHeadAndBlob fd;
    match r with
    | ROk h b => ret (Some (inl (new_store fd p h b, false)))
    | RNewer => do_ io_close fd; ret (Some (inr ENewer))
    | RUnusable =>
        do debris <- isDebris now fd;
        do_ io_close fd;
        if negb debris then ret (Some (inr EBeingWritten))
        else do_ io_unlink p; ret None
    end
  else if negb (fd =? -ENOENT) then ret (Some (inr (EOpen fd)))
  else
    let want := with_blob want id blob in
    let tmp := tmp_name p pid seq in
    do r <- write_new tmp want blob;
    match r with
    | inr e => ret (Some (inr e))
    | inl tfd =>
        do lrc <- io_link tmp p;
        do_ io_unlink tmp;
        if lrc =? -EEXIST then do_ io_close tfd; ret None
        else if lrc <? 0 then do_ io_close tfd; ret (Some (inr (ELink lrc)))
        else ret (Some (inl (new_store tfd p want blob, true)))
    end.

(** [env k] is the random id, the process id, the sequence number and the time of attempt [k]. *)
Fixpoint attempts (n : nat) (k : nat) (env : nat -> Z * Z * Z * Z) (p : bytes) (want : SlotStoreHeader)
    (blob : bytes) : M W result :=
  match n with
  | O => ret (inr ERaced)
  | S n' =>
      let '(id, pid, seq, now) := env k in
      do r <- attempt p want blob id pid seq now;
      match r with
      | Some res => ret res
      | None => attempts n' (S k) env p want blob
      end
  end.

Definition openOrCreate (env : nat -> Z * Z * Z * Z) (objectDir hashHex : bytes) (want : SlotStoreHeader)
    (blob : bytes) : M W result :=
  do rc <- io_mkdirs objectDir;
  if rc <? 0 then ret (inr (EMkdirs rc))
  else attempts 3 0 env (path objectDir hashHex) want blob.

(** ** Questions that read the header only *)
Definition serving (objectDir hashHex : bytes) : M W bool :=
  do fd <- io_open (path objectDir hashHex) O_RDONLY;
  if fd <? 0 then ret false
  else
    do r <- preadFull fd kHeaderBytes 0;
    let '(got, b) := r in
    let ok := ((12 <=? got) && newerFormat b got) ||
              ((got =? kHeaderBytes) && match decodeSlotHeader b with Some h => negb (declined h) | None => false end) in
    do_ io_close fd;
    ret ok.

Definition newer (objectDir hashHex : bytes) : M W bool :=
  do fd <- io_open (path objectDir hashHex) O_RDONLY;
  if fd <? 0 then ret false
  else
    do r <- preadFull fd 12 0;
    let n := (fst r =? 12) && newerFormat (snd r) 12 in
    do_ io_close fd;
    ret n.

Definition holdsRecords (objectDir hashHex : bytes) : M W bool :=
  do fd <- io_open (path objectDir hashHex) O_RDONLY;
  if fd <? 0 then ret false
  else
    do r <- preadFull fd kHeaderBytes 0;
    do ok <- (match (if fst r =? kHeaderBytes then decodeSlotHeader (snd r) else None) with
              | Some h =>
                  if declined h then ret false
                  else
                    do st <- io_fstat fd;
                    ret ((fst st =? 0) &&
                         ((kHeaderBytes +% blobLen h +% kAlign -% 1) / kAlign *% kAlign <? st_size (snd st)))
              | None => ret false
              end);
    do_ io_close fd;
    ret ok.

Definition drop (objectDir hashHex : bytes) : M W unit := do _ <- io_unlink (path objectDir hashHex); ret tt.

(** ** Blocks *)

(** The header of a block at the start of [h]: [blockLen] and the entry count. *)
Definition block_header (id : Z) (h : bytes) : option (Z * Z) :=
  if (zlen h =? kBlockHeader) && bytes_eqb (zsub h 0 8) kBlockMagic && (getLE 8 h 8 =? id)
     && (getLE 4 h 60 =? crc 0 (zsub h 0 60))
  then Some (getLE 8 h 16, getLE 4 h 24) else None.

Definition claim (pos blockLen claimed : Z) : Z :=
  if (kBlockHeader <=? blockLen) && (blockLen <? 2 ^ 40) then Z.max claimed (pos +% blockLen) else claimed.

(** The entries of a block that point inside it (or nowhere). *)
Definition block_entries (pos blockLen n : Z) (ents : bytes) : list SlotEntry :=
  omap (fun i => let '(e, known) := decodeEntry ents (i * kEntry) in
                 if known && ((kind e =? kKept) || ((pos <=? off e) && (off e +% len e <=? pos +% blockLen)))
                 then Some e else None) (zrange 0 n).

(** The scan reads through [rd] (a count and an offset); [None] only when the fuel
    runs out. Result: the position reached, the furthest claim, the entries. *)
Section scan.
Context {X : Type} (rd : Z -> Z -> M X (Z * bytes)).
Fixpoint scan (fuel : nat) (id end_ pos claimed : Z) (out : list SlotEntry) : M X (option (Z * Z * list SlotEntry)) :=
  match fuel with
  | O => ret None
  | S fuel' =>
      if end_ <? pos +% kBlockHeader then ret (Some (pos, claimed, out))
      else
        do r <- rd kBlockHeader pos;
        let h := snd r in
        match (if fst r =? kBlockHeader then block_header id h else None) with
        | None => scan fuel' id end_ (pos +% kAlign) claimed out
        | Some (blockLen, n) =>
            let claimed := claim pos blockLen claimed in
            if (blockLen <? kBlockHeader + n * kEntry) || (end_ <? pos +% blockLen)
            then scan fuel' id end_ (pos +% kAlign) claimed out
            else
              do r2 <- (if n =? 0 then ret (0, []) else rd (n * kEntry) (pos +% kBlockHeader));
              if negb (n =? 0) && (negb (fst r2 =? n * kEntry) || negb (crc 0 (snd r2) =? getLE 4 h 28))
              then scan fuel' id end_ (pos +% kAlign) claimed out
              else scan fuel' id end_ (alignUp (pos +% blockLen)) claimed
                     (out ++ block_entries pos blockLen n (snd r2))
        end
  end.
End scan.

(** One round per boundary left. *)
Definition scan_fuel (end_ pos : Z) : nat := S (Z.to_nat ((end_ - pos) / kAlign + 1)).

Definition St : Type := SlotStore * W.
Definition lift {A} (m : M W A) : M St A := fun s => let '(a, w) := m (snd s) in (a, (fst s, w)).
Definition getS : M St SlotStore := fun s => (fst s, s).
Definition setS (f : SlotStore -> SlotStore) : M St unit := fun s => (tt, (f (fst s), snd s)).

Definition readBlocks (end_ : Z) : M St (option (list SlotEntry)) :=
  do s <- getS;
  do r <- lift (scan (preadFull (fd_ s)) (scan_fuel end_ (readOff_ s)) (storeId (hdr_ s)) end_ (readOff_ s) (claimedEnd_ s) []);
  match r with
  | None => ret None
  | Some (pos, claimed, out) =>
      do_ setS (fun s => mkStore (fd_ s) (path_ s) (hdr_ s) (blob_ s) (Z.max (readOff_ s) pos) claimed);
      ret (Some out)
  end.

(** [busy]: another thread of this process holds the mutex. *)
Definition refresh (wait busy : bool) : M St (option (list SlotEntry)) :=
  if negb wait && busy then ret (Some [])
  else
    do s <- getS;
    do st <- lift (io_fstat (fd_ s));
    if negb (fst st =? 0) || (st_size (snd st) <? readOff_ s +% kBlockHeader) then ret (Some [])
    else
      do rc <- lift (io_flock (fd_ s) (if wait then LOCK_SH else LOCK_SH_NB));
      if negb (rc =? 0) then ret (Some [])
      else
        do st <- lift (io_fstat (fd_ s));
        do out <- (if fst st =? 0 then readBlocks (st_size (snd st)) else ret (Some []));
        do_ lift (io_flock (fd_ s) LOCK_UN);
        ret out.

Definition dropIfCurrent (busy : bool) : M St bool :=
  if busy then ret false
  else
    do s <- getS;
    do rc <- lift (io_flock (fd_ s) LOCK_EX_NB);
    if negb (rc =? 0) then ret false
    else
      do st <- lift (io_fstat (fd_ s));
      do same <- (if (fst st =? 0) && (0 <? st_nlink (snd st)) then
                    do sp <- lift (io_stat (path_ s));
                    ret ((fst sp =? 0) && (st_ino (snd st) =? st_ino (snd sp)))
                  else ret false);
      do_ (if same then do _ <- lift (io_unlink (path_ s)); ret tt else ret tt);
      do_ lift (io_flock (fd_ s) LOCK_UN);
      ret same.

(** The entries of a block at [base] whose records start at [at_] inside it. *)
Fixpoint place (id base at_ : Z) (l : list SlotRecord) : list SlotEntry :=
  match l with
  | [] => []
  | r :: l' =>
      if rkind r =? kKept then mkSlot (rslot r) (rkind r) 0 0 0 :: place id base at_ l'
      else mkSlot (rslot r) (rkind r) (base +% at_) (w32 (zlen (rbytes r))) (recordCrc id (rslot r) (rbytes r))
             :: place id base (at_ +% zlen (rbytes r)) l'
  end.
(** The records, one after the other. *)
Definition payload (l : list SlotRecord) : bytes :=
  concat (map (fun r => if rkind r =? kKept then [] else rbytes r) l).
Definition data_len (l : list SlotRecord) : Z := foldr (fun r n => zlen (rbytes r) + n) 0 l.
Definition block_len (l : list SlotRecord) : Z := kBlockHeader + zlen l * kEntry + data_len l.

Definition block_fields (id base : Z) (l : list SlotRecord) : list (Z * bytes) :=
  let ents := concat (map encodeEntry (place id base (kBlockHeader + zlen l * kEntry) l)) in
  [ (0, kBlockMagic); (8, le_bytes 8 id); (16, le_bytes 8 (block_len l)); (24, le_bytes 4 (w32 (zlen l)));
    (28, le_bytes 4 (crc 0 ents)); (kBlockHeader, ents); (kBlockHeader + zlen l * kEntry, payload l) ].
Definition block (id base : Z) (l : list SlotRecord) : bytes :=
  let blk := write_all (block_fields id base l) (zeros (block_len l)) in
  putLE 4 blk 60 (crc 0 (zsub blk 0 60)).

(** The write of a block past everything anyone has written or claimed: the
    file's end, the blocks read, and the extent of any block cut short. *)
Definition commit_write (size : Z) (write : list SlotRecord) (fsync : bool) : M St (Z * list SlotEntry) :=
  do s <- getS;
  let base := alignUp (Z.max size (Z.max (readOff_ s) (claimedEnd_ s))) in
  let id := storeId (hdr_ s) in
  let blk := block id base write in
  do w <- lift (pwriteFull (fd_ s) blk base);
  if negb (w =? zlen blk) then ret ((if w <? 0 then w else -EIO), [])
  else
    do_ (if fsync then do _ <- lift (io_fdatasync (fd_ s)); ret tt else ret tt);
    do_ setS (fun s => mkStore (fd_ s) (path_ s) (hdr_ s) (blob_ s) (alignUp (base +% zlen blk))
                         (Z.max (claimedEnd_ s) (base +% zlen blk)));
    ret (data_len write, place id base (kBlockHeader + zlen write * kEntry) write).

(** The caller's two callbacks share a state [C]. *)
Section commit.
Context {C : Type} (onOthers : C -> list SlotEntry -> C) (taken : C -> Z -> bool).

Definition unlocking {A} (fd : Z) (a : A) : M St A := do_ lift (io_flock fd LOCK_UN); ret a.

(** Result, the entries committed, the caller's state; [None] is a scan that ran
    out of fuel. *)
Definition commit (recs : list SlotRecord) (fsync : bool) (c : C) : M St (option (Z * list SlotEntry * C)) :=
  do s <- getS;
  if declined (hdr_ s) then ret (Some (-EINVAL, [], c))
  else
    do rc <- lift (io_flock (fd_ s) LOCK_EX);
    if negb (rc =? 0) then ret (Some (rc, [], c))
    else
      do st <- lift (io_fstat (fd_ s));
      do current <- (if (fst st =? 0) && negb (st_nlink (snd st) =? 0) then
                       do sp <- lift (io_stat (path_ s));
                       ret ((fst sp =? 0) && (st_ino (snd st) =? st_ino (snd sp)))
                     else ret false);
      if negb current then unlocking (fd_ s) (Some (-ESTALE, [], c))
      else
        do others <- readBlocks (st_size (snd st));
        match others with
        | None => ret None
        | Some others =>
            let c := match others with [] => c | _ => onOthers c others end in
            let write := filter (fun r => taken c (rslot r) = false) recs in
            match write with
            | [] => unlocking (fd_ s) (Some (0, [], c))
            | _ =>
                do r <- commit_write (st_size (snd st)) write fsync;
                unlocking (fd_ s) (Some (fst r, snd r, c))
            end
        end.
End commit.

Definition readRecord (e : SlotEntry) : M St (bool * bytes) :=
  if kind e =? kKept then ret (false, [])
  else
    do s <- getS;
    do r <- lift (preadFull (fd_ s) (len e) (off e));
    if negb (fst r =? len e) then ret (false, snd r)
    else ret (recordCrc (storeId (hdr_ s)) (slot e) (snd r) =? ecrc e, snd r).

Definition fileBytes : M St Z :=
  do s <- getS;
  do st <- lift (io_fstat (fd_ s));
  ret (if fst st =? 0 then st_size (snd st) else 0).

(** The destructor. *)
Definition close : M St unit :=
  do s <- getS;
  if 0 <=? fd_ s then do _ <- lift (io_close (fd_ s)); ret tt else ret tt.
End store.
End Slots.
