(* ===== verification/SlotCodec.v ===== *)
(** * Codecs of the slot store: header, entries and blocks

    The header and entry round trips, and what a commit block holds: its header
    decodes, its entries decode to the ones placed, each record lies where its
    entry says. *)

From S2P Require Import Prelude IOBackend Crc32c UrlKey SlotStore.

Module SlotCodec.
Import Slots.

Record wf_header (h : SlotStoreHeader) : Prop := {
  wh_u32 : is_u32 (layoutVersion h) /\ is_u32 (nSlots h) /\ is_u32 (originCksum h) /\ is_u32 (blobCrc h);
  wh_u64 : is_u64 (originSize h) /\ is_u64 (originMtime h) /\ is_u64 (virtualSize h) /\ is_u64 (layoutHash h) /\
           is_u64 (storeId h) /\ is_u64 (blobLen h);
  wh_u8 : is_byte (container h) /\ is_byte (cksumKind h);
  wh_u16 : 0 <= slotFactor100 h < p16;
  wh_codecs : Forall is_byte (codecs h) /\ zlen (codecs h) <= kCodecsMax
}.
Definition wf_entry (e : SlotEntry) : Prop :=
  is_u32 (slot e) /\ is_byte (kind e) /\ is_u64 (off e) /\ is_u32 (len e) /\ is_u32 (ecrc e).
Definition known (k : Z) : Prop := k = kZstd \/ k = kRaw \/ k = kKept.

(** Membership of a field in a literal list. *)
Ltac in_list := solve [repeat (apply elem_of_cons; first [left; reflexivity | right])].
Ltac widths := change (p8 ^ Z.of_nat 4) with p32 in *; change (p8 ^ Z.of_nat 8) with p64 in *;
  change (p8 ^ Z.of_nat 2) with p16 in *; change (p8 ^ Z.of_nat 1) with p8 in *.
Ltac fside := first [in_list | widths; unfold is_u32, is_u64, is_byte in *; lia | (left; cbn; lia) | done].

Section codec.
Context `{CK : Checksum}.

(** ** The header *)
Lemma header_fields_ok h : zlen (codecs h) <= kCodecsMax -> fields_ok 0 kHeaderBytes (header_fields h).
Proof using.
  intros Hc. pose proof (zlen_nonneg (codecs h)). unfold header_fields, kCodecsMax, kHeaderBytes in *. cbn [fields_ok].
  rewrite !zlen_le_bytes, zlen_zsub by lia. change (zlen kMagic) with 8. lia.
Qed.

Lemma header_image h :
  encodeSlotHeader h = sealed (header_fields h) kHeaderBytes (kHeaderBytes - 4)
    (crc 0 (zsub (write_all (header_fields h) (zeros kHeaderBytes)) 0 (kHeaderBytes - 4))).
Proof using. unfold encodeSlotHeader, sealed. cbv zeta. reflexivity. Qed.

Lemma header_bytes h : wf_header h -> Forall is_byte (encodeSlotHeader h).
Proof using.
  intros [_ _ _ _ [Hc _]]. rewrite header_image. apply sealed_bytes. unfold header_fields.
  repeat (apply Forall_cons_2; [cbn [snd]; first [apply le_bytes_is_byte | by apply Forall_zsub | by repeat constructor; vm_compute]|]).
  constructor.
Qed.

Lemma zlen_header h : wf_header h -> zlen (encodeSlotHeader h) = kHeaderBytes.
Proof using.
  intros [_ _ _ _ [_ Hc]]. rewrite header_image. apply zlen_sealed; [by apply header_fields_ok|unfold kHeaderBytes; lia..].
Qed.

Lemma header_prefix_bytes h :
  Forall is_byte (codecs h) -> Forall is_byte (write_all (header_fields h) (zeros kHeaderBytes)).
Proof using.
  intros Hc. apply write_all_bytes; [apply Forall_zeros|]. unfold header_fields.
  repeat (apply Forall_cons_2; [cbn [snd]; first [apply le_bytes_is_byte | by apply Forall_zsub | by repeat constructor; vm_compute]|]).
  constructor.
Qed.

(** What a header image shows: any field below the seal, and the seal. *)
Lemma header_facts h :
  wf_header h ->
  let img := encodeSlotHeader h in
  (forall k o v, (o, le_bytes k v) ∈ header_fields h -> 0 <= o -> o + Z.of_nat k <= 4092 ->
     0 <= v < p8 ^ Z.of_nat k -> getLE k img o = v) /\
  (forall o x, (o, x) ∈ header_fields h -> 0 <= o -> o + zlen x <= 4092 -> zsub img o (zlen x) = x) /\
  getLE 4 img (kHeaderBytes - 4) = crc 0 (zsub img 0 (kHeaderBytes - 4)).
Proof using.
  intros Hh. pose proof Hh as [_ _ _ _ [Hcb Hcl]]. pose proof (header_fields_ok h Hcl) as Hf.
  set (x := crc 0 (zsub (write_all (header_fields h) (zeros kHeaderBytes)) 0 (kHeaderBytes - 4))).
  assert (is_u32 x) as Hx by (apply crc_u32; [unfold is_u32; lia|by apply Forall_zsub, header_prefix_bytes]).
  assert (0 <= kHeaderBytes - 4 /\ kHeaderBytes - 4 + 4 <= kHeaderBytes) as [Hc1 Hc2] by (unfold kHeaderBytes; lia).
  cbv zeta. rewrite header_image. fold x. split; [|split].
  - intros. apply sealed_get; try done. by left.
  - intros. apply sealed_sub; try done. by left.
  - rewrite sealed_seal by done. by rewrite sealed_prefix.
Qed.

Lemma decode_encode_header h : wf_header h -> decodeSlotHeader (encodeSlotHeader h) = Some h.
Proof using.
  intros Hh. pose proof (zlen_header h Hh) as Hlen. destruct (header_facts h Hh) as (G & S & X).
  set (img := encodeSlotHeader h) in *. clearbody img.
  pose proof Hh as [(? & ? & ? & ?) (? & ? & ? & ? & ? & ?) [? ?] ? [Hcb Hcl]]. pose proof (zlen_nonneg (codecs h)).
  assert (Z.min (zlen (codecs h)) kCodecsMax = zlen (codecs h)) as Hmin by lia.
  unfold decodeSlotHeader. rewrite Hlen, Z.ltb_irrefl, X, Z.eqb_refl. cbn [orb negb].
  assert (zsub img 0 8 = kMagic) as -> by (apply (S 0 kMagic); [in_list|lia|vm_compute; congruence]).
  change (bytes_eqb kMagic kMagic) with true. cbn [negb].
  rewrite (G 4%nat 8 kFormatVersion) by (unfold kFormatVersion; fside). rewrite Z.eqb_refl. cbn [negb].
  rewrite (G 2%nat 84 (zlen (codecs h)));
    [|unfold header_fields; rewrite Hmin; in_list|lia|cbn; lia|unfold kCodecsMax in *; widths; lia].
  rewrite (proj2 (Z.ltb_ge _ _) Hcl).
  rewrite (S 86 (codecs h));
    [|unfold header_fields; rewrite Hmin, zsub_all by done; in_list|lia|unfold kCodecsMax, kHeaderBytes in *; lia].
  rewrite (G 4%nat 12 (layoutVersion h)), (G 1%nat 16 (container h)), (G 2%nat 42 (slotFactor100 h)),
    (G 1%nat 18 (if declined h then 1 else 0)), (G 8%nat 24 (originSize h)), (G 8%nat 32 (originMtime h)),
    (G 1%nat 40 (cksumKind h)), (G 4%nat 44 (originCksum h)), (G 8%nat 48 (virtualSize h)),
    (G 4%nat 20 (nSlots h)), (G 8%nat 56 (layoutHash h)), (G 8%nat 64 (storeId h)), (G 8%nat 72 (blobLen h)),
    (G 4%nat 80 (blobCrc h)) by (first [fside | destruct (declined h); fside]).
  f_equal. clear. destruct h as [? ? ? d ?]. cbn. by destruct d.
Qed.

(** ** Entries *)
Lemma entry_fields_ok e : fields_ok 0 kEntry (entry_fields e).
Proof using. unfold entry_fields, kEntry. cbn [fields_ok]. rewrite !zlen_le_bytes. lia. Qed.

Lemma zlen_entry e : zlen (encodeEntry e) = kEntry.
Proof using.
  unfold encodeEntry. rewrite (write_all_len _ _ 0); [by apply zlen_zeros|lia|]. apply entry_fields_ok.
Qed.

Lemma entry_bytes e : Forall is_byte (encodeEntry e).
Proof using. apply write_all_bytes; [apply Forall_zeros|]. repeat (apply Forall_cons_2; [apply le_bytes_is_byte|]). constructor. Qed.

Lemma decode_encode_entry e pre post :
  wf_entry e -> known (kind e) -> decodeEntry (pre ++ encodeEntry e ++ post) (zlen pre) = (e, true).
Proof using.
  intros (H1 & H2 & H3 & H4 & H5) Hk. unfold decodeEntry.
  assert (forall k o v, (o, le_bytes k v) ∈ entry_fields e -> 0 <= o -> o + Z.of_nat k <= kEntry -> 0 <= v < p8 ^ Z.of_nat k ->
    getLE k (pre ++ encodeEntry e ++ post) (zlen pre + o) = v) as G.
  { intros k o v Hin Ho Hok Hv. unfold getLE. rewrite zsub_app_r by lia. replace (zlen pre + o - zlen pre) with o by lia.
    rewrite zsub_app_l by (rewrite ?zlen_entry; lia). fold (getLE k (encodeEntry e) o).
    apply (write_all_getLE _ _ 0); [lia|apply entry_fields_ok|done|done]. }
  rewrite <- (Z.add_0_r (zlen pre)) at 1. rewrite (G 4%nat 0 (slot e)), (G 1%nat 4 (kind e)), (G 8%nat 8 (off e)),
    (G 4%nat 16 (len e)), (G 4%nat 20 (ecrc e)) by (first [fside | unfold kEntry; cbn; lia]).
  assert ((kind e =? kZstd) || (kind e =? kRaw) || (kind e =? kKept) = true) as E.
  { destruct Hk as [->|[->| ->]]; done. }
  cbn [kind]. rewrite E. by destruct e.
Qed.

Lemma zlen_entries l : zlen (concat (map encodeEntry l)) = zlen l * kEntry.
Proof using.
  induction l as [|e l IH]; [done|]. cbn [map concat]. rewrite zlen_app, zlen_entry, IH, zlen_cons. lia.
Qed.
Lemma entries_bytes l : Forall is_byte (concat (map encodeEntry l)).
Proof using. induction l; [constructor|]. cbn [map concat]. apply Forall_app_2; [apply entry_bytes|done]. Qed.

(** ** Blocks *)
Definition wf_record (r : SlotRecord) : Prop :=
  is_u32 (rslot r) /\ known (rkind r) /\ Forall is_byte (rbytes r) /\ zlen (rbytes r) < p32.

(** Entry [e] places record [r] of a block at [base]: [pay] are the block's bytes
    from [at_] on. *)
Definition places (id base at_ : Z) (pay : bytes) (r : SlotRecord) (e : SlotEntry) : Prop :=
  slot e = rslot r /\ kind e = rkind r /\
  (rkind r = kKept -> off e = 0 /\ len e = 0 /\ ecrc e = 0) /\
  (rkind r <> kKept ->
     len e = zlen (rbytes r) /\ ecrc e = recordCrc id (rslot r) (rbytes r) /\
     base + at_ <= off e /\ off e + len e <= base + at_ + zlen pay /\
     zsub pay (off e - base - at_) (len e) = rbytes r).

Lemma recordCrc_u32 id s p : Forall is_byte p -> is_u32 (recordCrc id s p).
Proof using.
  intros. apply crc_u32; [|done]. apply crc_u32; [unfold is_u32; lia|].
  repeat (apply Forall_app_2; [apply le_bytes_is_byte|]). apply le_bytes_is_byte.
Qed.

Lemma places_shift id base at_ x pay r e :
  places id base (at_ + zlen x) pay r e -> places id base at_ (x ++ pay) r e.
Proof using.
  intros (? & ? & ? & H). split; [done|]. split; [done|]. split; [done|]. intros Hk.
  destruct (H Hk) as (Hl & ? & ? & ? & Hs). pose proof (zlen_nonneg x). rewrite zlen_app.
  split; [done|]. split; [done|]. split; [lia|]. split; [lia|]. rewrite zsub_app_r by lia.
  replace (off e - base - at_ - zlen x) with (off e - base - (at_ + zlen x)) by lia. done.
Qed.

Lemma place_spec id base at_ l :
  0 <= base -> 0 <= at_ -> Forall wf_record l -> base + at_ + zlen (payload l) < p64 ->
  Forall2 (places id base at_ (payload l)) l (place id base at_ l).
Proof using.
  intros Hb Ha Hl. revert at_ Ha. induction Hl as [|r l (Hs & Hk & Hby & Hz) Hl IH]; intros at_ Ha Hlen; [constructor|].
  unfold payload in *. cbn [place map concat] in *. pose proof (zlen_nonneg (rbytes r)).
  pose proof (zlen_nonneg (concat (map (fun r => if rkind r =? kKept then [] else rbytes r) l))).
  destruct (rkind r =? kKept) eqn:E; b2p.
  - constructor; [done|]. by apply IH.
  - rewrite zlen_app in Hlen. rewrite (w64_small (at_ + zlen (rbytes r))) by lia. constructor.
    + split; [done|]. split; [done|]. split; [done|]. intros _. cbn. rewrite !w32_small, !w64_small by lia. rewrite zlen_app.
      split; [done|]. split; [done|]. split; [lia|]. split; [lia|].
      replace (base + at_ - base - at_) with 0 by lia. by apply zsub_app.
    + eapply Forall2_impl; [apply IH; lia|]. intros r' e'. apply places_shift.
Qed.

Lemma zlen_place id base at_ l : zlen (place id base at_ l) = zlen l.
Proof using.
  revert at_. induction l as [|r l IH]; intros at_; [done|]. cbn [place].
  destruct (rkind r =? kKept); rewrite !zlen_cons, IH; done.
Qed.

Lemma payload_len l : 0 <= zlen (payload l) <= data_len l.
Proof using.
  split; [apply zlen_nonneg|]. induction l as [|r l IH]; [done|]. unfold payload in *. cbn [map concat data_len foldr].
  rewrite zlen_app. fold (data_len l). pose proof (zlen_nonneg (rbytes r)).
  destruct (rkind r =? kKept); rewrite ?zlen_nil; lia.
Qed.
Lemma payload_bytes l : Forall wf_record l -> Forall is_byte (payload l).
Proof using.
  induction 1 as [|r l (_ & _ & Hb & _) Hl IH]; [constructor|]. unfold payload in *. cbn [map concat].
  apply Forall_app_2; [|done]. destruct (rkind r =? kKept); [constructor|done].
Qed.

Lemma getLE_prefix k b m o : 0 <= o -> o + Z.of_nat k <= m -> getLE k (zsub b 0 m) o = getLE k b o.
Proof using. intros. unfold getLE. rewrite zsub_zsub by lia. done. Qed.

Section block.
Context (id base : Z) (l : list SlotRecord).
Hypothesis (Hid : is_u64 id) (Hbase : 0 <= base) (Hend : base + block_len l < 2 ^ 40) (Hn : zlen l < p32) (Hl : Forall wf_record l).
Let n := zlen l.
Let at0 := kBlockHeader + n * kEntry.
Let placed := place id base at0 l.
Let ents := concat (map encodeEntry placed).
Let blk := block id base l.

Lemma block_sizes : 0 <= n /\ block_len l = at0 + data_len l /\ zlen (payload l) <= data_len l /\ zlen ents = n * kEntry.
Proof using.
  pose proof (zlen_nonneg l). destruct (payload_len l). subst n at0 placed ents. unfold block_len.
  rewrite zlen_entries, zlen_place. done.
Qed.

Lemma block_fields_ok : fields_ok 0 (block_len l) (block_fields id base l).
Proof using.
  destruct block_sizes as (? & Hbl & ? & He). subst n at0 placed ents.
  unfold block_fields. cbn [fields_ok]. rewrite !zlen_le_bytes, He. change (zlen kBlockMagic) with 8. unfold kBlockHeader in *. lia.
Qed.

Lemma ents_u32 : is_u32 (crc 0 ents).
Proof using. apply crc_u32; [unfold is_u32; lia|apply entries_bytes]. Qed.

Lemma block_fields_bytes : Forall (fun f => Forall is_byte (snd f)) (block_fields id base l).
Proof using Hl.
  unfold block_fields.
  repeat (apply Forall_cons_2; [cbn [snd]; first [apply le_bytes_is_byte | apply entries_bytes | by apply payload_bytes
    | by repeat constructor; vm_compute]|]). constructor.
Qed.

Lemma block_min : 64 <= block_len l.
Proof using.
  clear. pose proof (zlen_nonneg l). destruct (payload_len l). unfold block_len, kBlockHeader, kEntry. lia.
Qed.

Lemma block_facts :
  zlen blk = block_len l /\ Forall is_byte blk /\
  (forall k o v, (o, le_bytes k v) ∈ block_fields id base l -> 0 <= o -> o + Z.of_nat k <= 60 -> 0 <= v < p8 ^ Z.of_nat k -> getLE k blk o = v) /\
  (forall o x, (o, x) ∈ block_fields id base l -> 0 <= o -> (o + zlen x <= 60 \/ 64 <= o) -> zsub blk o (zlen x) = x) /\
  getLE 4 blk 60 = crc 0 (zsub blk 0 60).
Proof using Hl.
  pose proof block_min. pose proof block_fields_ok as Hf. pose proof block_fields_bytes as Hb.
  set (x := crc 0 (zsub (write_all (block_fields id base l) (zeros (block_len l))) 0 60)).
  assert (blk = sealed (block_fields id base l) (block_len l) 60 x) as E by (subst x blk; unfold block, sealed; cbv zeta; reflexivity).
  assert (is_u32 x) as Hx by (apply crc_u32; [unfold is_u32; lia|apply Forall_zsub, write_all_bytes; [apply Forall_zeros|done]]).
  clearbody blk. subst blk. split; [apply zlen_sealed; try done; lia|]. split; [by apply sealed_bytes|]. split; [|split].
  - intros. apply sealed_get; first [done | lia | by left].
  - intros o y Hin Ho Hd. apply sealed_sub; try done; lia.
  - rewrite sealed_seal by (done || lia). by rewrite sealed_prefix by (done || lia).
Qed.

Lemma block_header_ok : block_header id (zsub blk 0 kBlockHeader) = Some (block_len l, n).
Proof using Hid Hend Hn Hl Hbase.
  destruct block_facts as (Hz & _ & G & S & X). pose proof block_min. destruct block_sizes as (? & _ & _ & _).
  unfold block_header. rewrite zlen_zsub by (unfold kBlockHeader; lia). change (kBlockHeader =? kBlockHeader) with true.
  unfold kBlockHeader. rewrite !zsub_zsub by lia. rewrite !getLE_prefix by (cbn; lia). rewrite !Z.add_0_l.
  assert (zsub blk 0 8 = kBlockMagic) as -> by (apply (S 0 kBlockMagic); [in_list|lia|left; vm_compute; congruence]).
  change (bytes_eqb kBlockMagic kBlockMagic) with true. rewrite X, Z.eqb_refl.
  rewrite (G 8%nat 8 id) by fside. rewrite Z.eqb_refl. cbn [andb].
  rewrite (G 8%nat 16 (block_len l)); [|in_list|lia|cbn; lia|widths; lia].
  rewrite (G 4%nat 24 (zlen l)); [done| |lia|cbn; lia|widths; lia].
  unfold block_fields. rewrite (w32_small (zlen l)) by lia. in_list.
Qed.

Lemma block_ents : zsub blk kBlockHeader (n * kEntry) = ents /\ getLE 4 (zsub blk 0 kBlockHeader) 28 = crc 0 ents.
Proof using Hl.
  destruct block_facts as (Hz & _ & G & S & X). destruct block_sizes as (? & _ & _ & He). pose proof ents_u32 as Hu.
  rewrite getLE_prefix by (unfold kBlockHeader; cbn; lia). split.
  - rewrite <- He. apply S; [unfold block_fields; fold n; fold at0; fold placed; fold ents; in_list|unfold kBlockHeader; lia|right; done].
  - apply G; [unfold block_fields; fold n; fold at0; fold placed; fold ents; in_list|lia|cbn; lia|exact Hu].
Qed.

Lemma placed_spec : Forall2 (places id base at0 (payload l)) l placed.
Proof using Hbase Hend Hl.
  destruct block_sizes as (? & Hbl & ? & _). apply place_spec; try done; subst at0; unfold kBlockHeader, kEntry in *; lia.
Qed.

Lemma placed_inside e : e ∈ placed ->
  wf_entry e /\ known (kind e) /\ (kind e = kKept \/ (base <= off e /\ off e + len e <= base + block_len l)).
Proof using Hbase Hend Hl.
  intros (i & Hi)%list_elem_of_lookup. destruct (Forall2_lookup_r _ _ _ _ _ placed_spec Hi) as (r & Hr & Hs & Hk & H1 & H2).
  destruct (Forall_lookup_1 _ _ _ _ Hl Hr) as (Hsl & Hkn & Hby & Hz).
  destruct block_sizes as (? & Hbl & ? & _). pose proof (zlen_nonneg (rbytes r)).
  assert (0 <= at0) by (subst at0; unfold kBlockHeader, kEntry; lia).
  assert (is_byte (kind e)) by (rewrite Hk; unfold is_byte; destruct Hkn as [->|[->| ->]]; vm_compute; split; congruence).
  destruct (decide (rkind r = kKept)) as [E|E].
  - destruct (H1 E) as (O1 & O2 & O3). unfold wf_entry, is_u64, is_u32, is_byte in *. rewrite Hs, O1, O2, O3, Hk.
    split; [|split; [done|by left]]. rewrite Hk in *. lia.
  - destruct (H2 E) as (L1 & C1 & O1 & O2 & _). pose proof (recordCrc_u32 id (rslot r) (rbytes r) Hby).
    unfold wf_entry, is_u64, is_u32, is_byte in *. rewrite Hk in *. rewrite Hs, C1. split; [lia|]. split; [done|]. right. lia.
Qed.

Lemma block_entries_ok : block_entries base (block_len l) n ents = placed.
Proof using Hbase Hend Hl.
  assert (zlen placed = n) as Hpl by apply zlen_place. unfold block_entries. rewrite <- Hpl.
  assert (forall m, 0 <= m <= zlen placed -> omap (fun i => let '(e, kn) := decodeEntry ents (i * kEntry) in
     if kn && ((kind e =? kKept) || ((base <=? off e) && (off e +% len e <=? base +% block_len l))) then Some e else None)
     (zrange 0 m) = take (Z.to_nat m) placed) as G.
  { intros m [H0 H1]. revert m H0 H1. apply (natlike_ind (fun m => m <= zlen placed -> _ = take (Z.to_nat m) placed)); [done|].
    intros m Hm IH Hle. rewrite <- Z.add_1_r in *. rewrite zrange_snoc, omap_app, IH by lia.
    destruct (placed !! Z.to_nat m) as [e|] eqn:Ee.
    2: { apply lookup_ge_None in Ee. unfold zlen in Hle. lia. }
    replace (Z.to_nat (m + 1)) with (S (Z.to_nat m)) by lia. rewrite (take_S_r _ _ _ Ee). f_equal. cbn [omap list_omap].
    destruct (placed_inside e ltac:(by eapply list_elem_of_lookup_2)) as (Hw & Hk & Hin).
    assert (decodeEntry ents (m * kEntry) = (e, true)) as ->.
    { subst ents. rewrite <- (take_drop_middle _ _ _ Ee). rewrite map_app, concat_app. cbn [map concat].
      rewrite <- (decode_encode_entry e (concat (map encodeEntry (take (Z.to_nat m) placed)))
        (concat (map encodeEntry (skipn (S (Z.to_nat m)) placed))) Hw Hk). f_equal.
      rewrite zlen_entries. f_equal. unfold zlen. rewrite length_take. unfold zlen in Hle. lia. }
    cbn [andb]. destruct Hin as [->|[? ?]]; [done|].
    assert ((kind e =? kKept) || ((base <=? off e) && (off e +% len e <=? base +% block_len l)) = true) as ->; [|done].
    apply orb_true_iff. right. destruct Hw as (_ & _ & ? & ? & _). unfold is_u64, is_u32 in *. pose proof block_min.
    rewrite !w64_small by lia. apply andb_true_iff. split; apply Z.leb_le; lia. }
  rewrite G by (pose proof (zlen_nonneg placed); lia). apply take_ge. unfold zlen. lia.
Qed.

(** The record an entry points at. *)
Lemma block_record i r e : l !! i = Some r -> placed !! i = Some e -> rkind r <> kKept ->
  zsub blk (off e - base) (len e) = rbytes r /\ ecrc e = recordCrc id (slot e) (rbytes r).
Proof using Hbase Hend Hl.
  intros Hr He Hk. destruct (Forall2_lookup_lr _ _ _ _ _ _ placed_spec Hr He) as (Hs & _ & _ & H).
  destruct (H Hk) as (L1 & C1 & O1 & O2 & D). rewrite Hs. split; [|done].
  destruct block_facts as (Hz & _ & _ & S & _). destruct block_sizes as (? & Hbl & ? & _).
  pose proof (zlen_nonneg (rbytes r)). pose proof (zlen_nonneg (payload l)).
  rewrite <- D. rewrite <- (S at0 (payload l));
    [|unfold block_fields; fold n; fold at0; in_list|subst at0; unfold kBlockHeader, kEntry; lia|right; subst at0; unfold kBlockHeader, kEntry; lia].
  assert (0 <= at0) by (subst at0; unfold kBlockHeader, kEntry; lia). rewrite zsub_zsub by lia. f_equal. lia.
Qed.
End block.
End codec.

(** the header codec round trip: a header written by [encodeSlotHeader] is 4096
    bytes and decodes, CRC and version checks included, to itself. *)
Theorem slot_header_roundtrip `{CK : Checksum} (h : SlotStoreHeader) (Hh : wf_header h) :
  zlen (encodeSlotHeader h) = kHeaderBytes /\ decodeSlotHeader (encodeSlotHeader h) = Some h.
Proof. split; [by apply zlen_header|by apply decode_encode_header]. Qed.

Definition some_header : SlotStoreHeader := mkHdr 3 1 150 false (bs "zstd") 1000 7 1 99 1200 8 77 42 16 5.

Lemma slot_header_roundtrip_witness :
  wf_header some_header /\ decodeSlotHeader (encodeSlotHeader some_header) = Some some_header.
Proof.
  assert (wf_header some_header) as Hh.
  { split; unfold is_u32, is_u64, is_byte; cbn; try lia. split; [repeat constructor; cbn; lia|vm_compute; congruence]. }
  split; [exact Hh|]. apply (slot_header_roundtrip some_header Hh).
Defined.
End SlotCodec.
