(* ===== verification/SlotScan.v ===== *)
(** * The block scan of the slot store

    The scan of a file image, as a function of the image: termination, the
    round that reads back a block, and what a commit leaves for the next reader. *)

From S2P Require Import Prelude IOBackend Crc32c UrlKey SlotStore SlotCodec.

Module SlotScan.
Import Slots SlotCodec.

Definition aligned (v : Z) : Prop := v mod kAlign = 0.

Lemma alignUp_spec v : 0 <= v < p63 ->
  aligned (alignUp v) /\ v <= alignUp v < v + kAlign /\ 0 <= alignUp v.
Proof.
  intros. unfold aligned, alignUp, kAlign. rewrite (w64_small (v + 4096)), (w64_small (v + 4096 - 1)) by lia.
  pose proof (Z.mul_div_le (v + 4096 - 1) 4096). pose proof (Z.mod_pos_bound (v + 4096 - 1) 4096) as Hm.
  rewrite Z.mod_eq in Hm by lia. set (q := (v + 4096 - 1) / 4096) in *. clearbody q.
  rewrite w64_small by lia. rewrite Z.mod_mul by lia. lia.
Qed.

Lemma aligned_le a b : aligned a -> aligned b -> a < b -> a + kAlign <= b.
Proof. unfold aligned, kAlign. intros. Z.div_mod_to_equations. lia. Qed.
Lemma aligned_add a : aligned a -> aligned (a + kAlign).
Proof. unfold aligned, kAlign. intros. Z.div_mod_to_equations. lia. Qed.
Lemma alignUp_le v b : 0 <= v < p63 -> aligned b -> v <= b -> alignUp v <= b.
Proof.
  intros Hv Hb Hle. destruct (alignUp_spec v Hv) as (Ha & ? & ?).
  destruct (Z.le_gt_cases (alignUp v) b); [done|]. pose proof (aligned_le b (alignUp v) Hb Ha ltac:(lia)).
  unfold kAlign in *. lia.
Qed.
Lemma alignUp_aligned v : 0 <= v < p63 -> aligned v -> alignUp v = v.
Proof.
  intros Hv Ha. destruct (alignUp_spec v Hv) as (? & ? & ?). pose proof (alignUp_le v v Hv Ha ltac:(lia)). lia.
Qed.

Section image.
Context `{CK : Checksum}.

(** Reading from an image. *)
Definition rd_img (d : bytes) (n o : Z) : M unit (Z * bytes) := ret (zlen (zsub d o n), zsub d o n).
Definition img_scan (d : bytes) (fuel : nat) (id end_ pos claimed : Z) (out : list SlotEntry)
    : option (Z * Z * list SlotEntry) :=
  fst (scan (rd_img d) fuel id end_ pos claimed out tt).

(** One round: the next position, the entries found, the extent claimed. *)
Definition hop (d : bytes) (id end_ pos : Z) : Z * list SlotEntry * option Z :=
  let h := zsub d pos kBlockHeader in
  match block_header id h with
  | None => (pos +% kAlign, [], None)
  | Some (bl, n) =>
      if (bl <? kBlockHeader + n * kEntry) || (end_ <? pos +% bl) then (pos +% kAlign, [], Some bl)
      else
        let ents := if n =? 0 then [] else zsub d (pos +% kBlockHeader) (n * kEntry) in
        if negb (n =? 0) && (negb (zlen ents =? n * kEntry) || negb (crc 0 ents =? getLE 4 h 28))
        then (pos +% kAlign, [], Some bl)
        else (alignUp (pos +% bl), block_entries pos bl n ents, Some bl)
  end.
Definition claims (pos claimed : Z) (c : option Z) : Z :=
  match c with Some bl => claim pos bl claimed | None => claimed end.

Lemma img_scan_hop d fuel id end_ pos cl out :
  img_scan d (S fuel) id end_ pos cl out =
    if end_ <? pos +% kBlockHeader then Some (pos, cl, out)
    else let '(nx, es, c) := hop d id end_ pos in img_scan d fuel id end_ nx (claims pos cl c) (out ++ es).
Proof using.
  unfold img_scan, hop. cbn [scan]. destruct (end_ <? pos +% kBlockHeader); [done|].
  unfold mbind_, rd_img, mret_. cbn [fst snd].
  replace (if zlen (zsub d pos kBlockHeader) =? kBlockHeader then block_header id (zsub d pos kBlockHeader) else None)
    with (block_header id (zsub d pos kBlockHeader)).
  2: { unfold block_header. destruct (zlen _ =? kBlockHeader); done. }
  destruct (block_header id _) as [[bl n]|]; cbn [claims]; [|by rewrite app_nil_r].
  destruct (_ || _); [by rewrite app_nil_r|].
  destruct (n =? 0); cbn [fst snd negb andb]; [done|]. destruct (_ || _); cbn [negb]; [by rewrite app_nil_r|done].
Qed.

(** ** Termination *)
Definition sane (d : bytes) (id : Z) : Prop :=
  forall pos bl n, aligned pos -> 0 <= pos -> block_header id (zsub d pos kBlockHeader) = Some (bl, n) -> pos + bl < p63.

Lemma block_header_range id h bl n : Forall is_byte h -> block_header id h = Some (bl, n) ->
  0 <= bl < p64 /\ 0 <= n < p32.
Proof using.
  intros Hb. unfold block_header. destruct (_ && _); [|done]. intros [= <- <-].
  split; [apply (getLE_range 8)|apply (getLE_range 4)]; done.
Qed.

Lemma hop_forward d id end_ pos :
  Forall is_byte d -> sane d id -> aligned pos -> 0 <= pos -> pos + kBlockHeader <= end_ -> end_ < 2 ^ 62 ->
  let '(nx, _, _) := hop d id end_ pos in aligned nx /\ pos + kAlign <= nx < p63.
Proof using.
  intros Hb Hs Ha Hp He Hend. change (2 ^ 62) with 4611686018427387904 in Hend. unfold hop, kBlockHeader in *.
  assert (aligned (pos +% kAlign) /\ pos + kAlign <= pos +% kAlign < p63) as Hstep.
  { unfold kAlign in *. rewrite w64_small by lia. split; [by apply aligned_add|lia]. }
  destruct (block_header id _) as [[bl n]|] eqn:E; [|done]. pose proof (Hs pos bl n Ha Hp E).
  apply block_header_range in E as [Hbl Hn]; [|by apply Forall_zsub].
  destruct (_ || _) eqn:Eb; [done|]. destruct (negb (n =? 0) && _); [done|]. b2p.
  rewrite !w64_small in * by lia. destruct (alignUp_spec (pos + bl) ltac:(lia)) as (A & ? & ?). split; [done|].
  unfold kEntry in *. pose proof (aligned_le pos (alignUp (pos + bl)) Ha A ltac:(lia)). unfold kAlign in *. lia.
Qed.

Definition rounds (end_ pos : Z) : Z := (end_ - pos) / kAlign + 1.

Lemma rounds_less end_ pos nx : pos + kAlign <= nx -> rounds end_ nx + 1 <= rounds end_ pos.
Proof using.
  unfold rounds, kAlign. intros. assert ((end_ - nx) / 4096 <= (end_ - pos - 4096) / 4096) by (apply Z.div_le_mono; lia).
  replace (end_ - pos) with (end_ - pos - 4096 + 1 * 4096) by lia. rewrite Z.div_add by lia. lia.
Qed.
Lemma rounds_pos end_ pos : pos <= end_ -> 1 <= rounds end_ pos.
Proof using. unfold rounds, kAlign. intros. assert (0 <= (end_ - pos) / 4096) by (apply Z.div_pos; lia). lia. Qed.

Lemma img_scan_total d id end_ fuel pos cl out :
  Forall is_byte d -> sane d id -> aligned pos -> 0 <= pos < p63 -> end_ < 2 ^ 62 -> (Z.to_nat (rounds end_ pos) < fuel)%nat ->
  exists r, img_scan d fuel id end_ pos cl out = Some r.
Proof using.
  intros Hb Hs. revert pos cl out. induction fuel as [|fuel IH]; intros pos cl out Ha Hp Hend Hf; [lia|].
  rewrite img_scan_hop. destruct (end_ <? pos +% kBlockHeader) eqn:E; [by eexists|]. b2p.
  change (2 ^ 62) with 4611686018427387904 in *. unfold kBlockHeader in E. rewrite w64_small in E by lia.
  pose proof (hop_forward d id end_ pos Hb Hs Ha ltac:(lia) ltac:(unfold kBlockHeader; lia) Hend) as H.
  destruct (hop d id end_ pos) as [[nx es] c]. destruct H as [Ha' Hn].
  pose proof (rounds_less end_ pos nx ltac:(lia)). pose proof (rounds_pos end_ pos ltac:(lia)).
  apply IH; [done|unfold kAlign in *; lia|done|lia].
Qed.

(** ** Claims only grow *)
Lemma img_scan_claims d fuel id end_ pos cl out p1 c1 o1 :
  img_scan d fuel id end_ pos cl out = Some (p1, c1, o1) -> cl <= c1.
Proof using.
  revert pos cl out. induction fuel as [|fuel IH]; intros pos cl out; [done|]. rewrite img_scan_hop.
  destruct (end_ <? _); [intros [= _ <- _]; lia|]. destruct (hop d id end_ pos) as [[nx es] c].
  intros H%IH. destruct c as [bl|]; cbn in H; [|done]. unfold claim in H. destruct (_ && _); lia.
Qed.

(** ** After a commit *)
Section visible.
Context (d : bytes) (id base : Z) (l : list SlotRecord).
Hypothesis (Hd : Forall is_byte d) (Hs : sane d id) (Hid : is_u64 id) (Hl : Forall wf_record l) (Hn : zlen l < p32).
Hypothesis (Ha : aligned base) (Hbase : zlen d <= base) (Hend : base + block_len l < 2 ^ 40).
(** The file does not end inside a block header. *)
Hypothesis (Htail : zlen d mod kAlign = 0 \/ kBlockHeader <= zlen d mod kAlign).
Let S0 := zlen d.
Let E := base + block_len l.
Let d' := write_at d base (block id base l).
Let placed := place id base (kBlockHeader + zlen l * kEntry) l.

Lemma block_ne : block id base l <> [].
Proof using Hl. clear -Hl. destruct (block_facts id base l Hl) as (Hz & _). pose proof (block_min l). intros Hx. rewrite Hx in Hz. change (zlen (@nil Z)) with 0 in Hz. lia. Qed.

Lemma base_range : 0 <= base /\ 0 <= S0 /\ 64 <= block_len l /\ E < 2 ^ 40.
Proof using Hbase Hend. pose proof (zlen_nonneg d). pose proof (block_min l). unfold S0, E in *. lia. Qed.

Lemma new_len : zlen d' = E.
Proof using Hl Hbase Hend.
  pose proof base_range. destruct (block_facts id base l Hl) as (Hz & _).
  unfold d', E, S0 in *. rewrite zlen_write_at, Hz by (lia || apply block_ne). lia.
Qed.

(** Below the old end nothing changed; the gap is zero; the block is at [base]. *)
Lemma new_old o k : 0 <= o -> 0 <= k -> o + k <= S0 -> zsub d' o k = zsub d o k.
Proof using Hbase. intros. unfold d', S0 in *. apply zsub_write_at_before; lia. Qed.

Lemma new_block o k : 0 <= o -> 0 <= k -> o + k <= block_len l -> zsub d' (base + o) k = zsub (block id base l) o k.
Proof using Hl Hbase Hend.
  intros. pose proof base_range. destruct (block_facts id base l Hl) as (Hz & _).
  rewrite <- (zsub_write_at d base (block id base l)) by lia. rewrite Hz, zsub_zsub by lia. done.
Qed.

Lemma new_gap o k : S0 <= o -> 0 <= k -> o + k <= base -> zsub d' o k = zeros k.
Proof using Hl Hbase Hend.
  intros. pose proof base_range. unfold d', S0 in *. rewrite write_at_ne by apply block_ne.
  rewrite zsub_app_l by (rewrite ?write_at_prefix; lia).
  rewrite take_app_ge by (unfold zlen in *; lia). rewrite zsub_app_r by lia.
  unfold zeros. rewrite take_replicate. fold (zeros (base - zlen d)).
  replace (Nat.min _ _) with (Z.to_nat (base - zlen d)) by (unfold zlen in *; lia). apply zsub_zeros; lia.
Qed.

Lemma gap_header : block_header id (zeros kBlockHeader) = None.
Proof using. unfold block_header. by rewrite andb_comm; cbn; rewrite andb_false_r. Qed.

Lemma scan_block fuel cl out :
  (2 <= fuel)%nat -> exists c', img_scan d' fuel id E base cl out = Some (alignUp E, c', out ++ placed).
Proof using Hid Hl Hn Hbase Hend Ha.
  intros Hf. destruct fuel as [|[|fuel]]; [lia|lia|]. pose proof base_range as (? & ? & ? & HE).
  change (2 ^ 40) with 1099511627776 in *. unfold E in *.
  rewrite img_scan_hop. unfold kBlockHeader at 1. rewrite w64_small by lia.
  replace (base + block_len l <? base + 64) with false by (symmetry; apply Z.ltb_ge; lia).
  unfold hop. assert (zsub d' base kBlockHeader = zsub (block id base l) 0 kBlockHeader) as ->
    by (rewrite <- new_block by (unfold kBlockHeader; lia); by rewrite Z.add_0_r).
  rewrite (block_header_ok id base l) by done. cbn zeta.
  destruct (block_sizes id base l) as (Hn0 & Hbl & Hpl & _). pose proof (payload_len l).
  rewrite (w64_small (base + block_len l)) by lia.
  replace ((block_len l <? kBlockHeader + zlen l * kEntry) || (base + block_len l <? base + block_len l)) with false
    by (symmetry; apply orb_false_iff; split; apply Z.ltb_ge; lia).
  destruct (block_ents id base l Hl) as [He Hc].
  assert ((if zlen l =? 0 then [] else zsub d' (base +% kBlockHeader) (zlen l * kEntry)) =
    concat (map encodeEntry placed)) as ->.
  { destruct (zlen l =? 0) eqn:E0; b2p; [unfold placed; by rewrite (zlen_0_nil l E0)|].
    rewrite w64_small by (unfold kBlockHeader; lia). rewrite new_block by (unfold kBlockHeader, kEntry in *; lia). exact He. }
  rewrite Hc, zlen_entries. unfold placed at 1. rewrite zlen_place, !Z.eqb_refl. cbn [negb orb andb]. rewrite andb_false_r.
  rewrite img_scan_hop. destruct (alignUp_spec (base + block_len l) ltac:(lia)) as (_ & ? & ?).
  rewrite w64_small by (unfold kBlockHeader, kAlign in *; lia).
  replace (base + block_len l <? alignUp (base + block_len l) + kBlockHeader) with true
    by (symmetry; apply Z.ltb_lt; unfold kBlockHeader; lia).
  eexists. unfold placed. rewrite (block_entries_ok id base l) by (done || lia). done.
Qed.

(** From the end of the old file to [base] there is nothing but the block. *)
Lemma scan_gap fuel pos cl out :
  aligned pos -> S0 <= pos <= base -> (Z.to_nat (rounds E pos) < fuel)%nat ->
  exists c', img_scan d' fuel id E pos cl out = Some (alignUp E, c', out ++ placed).
Proof using Hid Hl Hn Hbase Hend Ha.
  pose proof base_range as (? & ? & ? & HE). change (2 ^ 40) with 1099511627776 in *.
  revert pos cl out. induction fuel as [|fuel IH]; intros pos cl out Hp Hr Hf; [lia|].
  destruct (decide (pos = base)) as [->|Hne].
  { apply scan_block. pose proof (rounds_pos E base ltac:(unfold E in *; lia)). lia. }
  pose proof (aligned_le pos base Hp Ha ltac:(lia)) as Hle.
  rewrite img_scan_hop, w64_small by (unfold kBlockHeader; lia).
  replace (E <? pos + kBlockHeader) with false by (symmetry; apply Z.ltb_ge; unfold E in *; unfold kBlockHeader, kAlign in *; lia).
  unfold hop. rewrite new_gap by (unfold kBlockHeader, kAlign in *; lia). rewrite gap_header. cbn zeta.
  rewrite w64_small by (unfold kAlign in *; lia). rewrite app_nil_r.
  apply IH; [by apply aligned_add|unfold kAlign in *; lia|].
  pose proof (rounds_less E pos (pos + kAlign) ltac:(lia)). pose proof (rounds_pos E pos ltac:(unfold E in *; lia)). lia.
Qed.

(** A round inside the old file: the same on both images, or over a block that a
    crash cut short and that the longer file completes. *)
Lemma hop_new pos :
  aligned pos -> 0 <= pos -> pos + kBlockHeader <= S0 ->
  (fst (hop d' id E pos) = fst (hop d id S0 pos) /\ fst (fst (hop d id S0 pos)) <= base) \/
  (exists bl es, hop d id S0 pos = (pos + kAlign, [], Some bl) /\ S0 < pos + bl <= E /\ kBlockHeader <= bl < 2 ^ 40 /\
     fst (hop d' id E pos) = (alignUp (pos + bl), es)).
Proof using Hd Hs Hl Hbase Hend Ha.
  intros Hp H0 Hle. pose proof base_range as (? & ? & ? & HE). assert (S0 <= base) by exact Hbase. change (2 ^ 40) with 1099511627776 in *.
  pose proof (aligned_le pos base Hp Ha ltac:(unfold kBlockHeader in *; lia)) as Hstep.
  unfold hop. rewrite new_old by (unfold kBlockHeader in *; lia).
  rewrite (w64_small (pos + kAlign)) by (unfold kAlign in *; lia).
  destruct (block_header id _) as [[bl n]|] eqn:Eh; [|left; by split].
  pose proof (Hs pos bl n Hp H0 Eh). apply block_header_range in Eh as [Hbl Hnn]; [|by apply Forall_zsub].
  rewrite (w64_small (pos + bl)) by lia. rewrite (w64_small (pos + kBlockHeader)) by (unfold kBlockHeader in *; lia).
  destruct (bl <? kBlockHeader + n * kEntry) eqn:E1; cbn [orb]; [left; by split|]. b2p.
  unfold kBlockHeader, kEntry in *.
  destruct (S0 <? pos + bl) eqn:E2; b2p.
  - destruct (E <? pos + bl) eqn:E3; b2p; [left; by split|].
    destruct (negb (n =? 0) && _) eqn:E4; [left; by split|]. right. eexists bl, _. split; [done|]. split; [lia|]. split; [lia|]. done.
  - left. replace (E <? pos + bl) with false by (symmetry; apply Z.ltb_ge; unfold S0, E in *; lia).
    rewrite new_old by lia. destruct (negb (n =? 0) && _); [by split|]. split; [done|]. cbn [fst].
    apply alignUp_le; [lia|done|]. unfold S0 in *. lia.
Qed.

Lemma claim_ge pos bl cl : 0 <= pos -> pos + bl < p64 -> kBlockHeader <= bl < 2 ^ 40 -> pos + bl <= claim pos bl cl.
Proof using.
  clear. intros. unfold claim, kBlockHeader in *. rewrite w64_small by lia.
  rewrite (proj2 (Z.leb_le _ _)), (proj2 (Z.ltb_lt _ _)) by lia. cbn. lia.
Qed.

Lemma header_fits pos : aligned pos -> 0 <= pos < S0 -> pos + kBlockHeader <= S0.
Proof using Htail.
  clear - Htail. intros Hp Hr. unfold S0, aligned, kAlign, kBlockHeader in *. Z.div_mod_to_equations. lia.
Qed.

Lemma scan_after fuel0 pos cl out p1 c1 o1 :
  aligned pos -> 0 <= pos <= base -> img_scan d fuel0 id S0 pos cl out = Some (p1, c1, o1) -> c1 <= base ->
  exists pre, (c1 <= S0 -> o1 = out ++ pre) /\
    forall fuel cl' out', (Z.to_nat (rounds E pos) < fuel)%nat ->
      exists c', img_scan d' fuel id E pos cl' out' = Some (alignUp E, c', out' ++ pre ++ placed).
Proof using Hd Hs Hid Hl Hn Hbase Hend Ha Htail.
  pose proof base_range as (? & ? & ? & HE). assert (S0 <= base) by exact Hbase. change (2 ^ 40) with 1099511627776 in *.
  revert pos cl out. induction fuel0 as [|fuel0 IH]; intros pos cl out Hp Hr Hsc Hc; [done|].
  rewrite img_scan_hop, w64_small in Hsc by (unfold kBlockHeader; lia).
  destruct (Z.lt_ge_cases pos S0) as [Hlt|Hge].
  2: { rewrite (proj2 (Z.ltb_lt _ _)) in Hsc by (unfold kBlockHeader; lia). injection Hsc as <- <- <-.
    exists []. split; [by rewrite app_nil_r|]. intros. apply scan_gap; try done; lia. }
  pose proof (header_fits pos Hp ltac:(lia)) as Hfit. rewrite (proj2 (Z.ltb_ge _ _)) in Hsc by lia.
  pose proof (hop_forward d id S0 pos Hd Hs Hp ltac:(lia) Hfit ltac:(unfold S0 in *; lia)) as Hfw.
  assert (forall fuel cl' out', (Z.to_nat (rounds E pos) < S fuel)%nat ->
    img_scan d' (S fuel) id E pos cl' out' = let '(nx, es, c) := hop d' id E pos in
      img_scan d' fuel id E nx (claims pos cl' c) (out' ++ es)) as Hnew.
  { intros. rewrite img_scan_hop, w64_small by (unfold kBlockHeader; lia).
    by rewrite (proj2 (Z.ltb_ge _ _)) by (unfold E, S0 in *; lia). }
  pose proof (rounds_pos E pos ltac:(unfold E, S0 in *; lia)) as Hrp.
  destruct (hop_new pos Hp ltac:(lia) Hfit) as [[Heq Hnx]|(bl & es & Hd1 & Hbl & Hbb & Hd2)].
  - destruct (hop d id S0 pos) as [[nx es] c]. cbn [fst] in *. destruct Hfw as [Hanx Hnxr].
    destruct (IH nx _ _ Hanx ltac:(unfold kAlign in *; lia) Hsc Hc) as (pre & Hclean & Hall).
    exists (es ++ pre). split; [intros; by rewrite Hclean, app_assoc|]. intros [|fuel] cl' out' Hf; [lia|].
    rewrite (Hnew fuel cl' out' Hf). destruct (hop d' id E pos) as [[nx' es'] c']. cbn [fst] in Heq. injection Heq as -> ->.
    pose proof (rounds_less E pos nx ltac:(lia)).
    destruct (Hall fuel (claims pos cl' c') (out' ++ es) ltac:(lia)) as (c2 & ->). exists c2. by rewrite !app_assoc.
  - rewrite Hd1 in Hsc. cbn [claims] in Hsc.
    pose proof (claim_ge pos bl cl ltac:(lia) ltac:(lia) Hbb) as Hcl. pose proof (img_scan_claims _ _ _ _ _ _ _ _ _ _ Hsc) as Hmono.
    destruct (alignUp_spec (pos + bl) ltac:(lia)) as (Hau & ? & ?).
    pose proof (alignUp_le (pos + bl) base ltac:(lia) Ha ltac:(lia)).
    exists es. split; [intros; lia|]. intros [|fuel] cl' out' Hf; [lia|].
    rewrite (Hnew fuel cl' out' Hf). destruct (hop d' id E pos) as [[nx' es'] c']. cbn [fst] in Hd2. injection Hd2 as -> ->.
    pose proof (rounds_less E pos (alignUp (pos + bl)) ltac:(apply aligned_le; try done; unfold kBlockHeader in *; lia)).
    destruct (scan_gap fuel (alignUp (pos + bl)) (claims pos cl' c') (out' ++ es) Hau ltac:(lia) ltac:(lia)) as (c2 & ->).
    exists c2. by rewrite app_assoc.
Qed.
End visible.
End image.

(** *** A block header whose length wraps *)
Definition loop_header : bytes :=
  Eval vm_compute in
    let h := write_all [(0, kBlockMagic); (8, le_bytes 8 42); (16, le_bytes 8 (p64 - 4096))] (zeros kBlockHeader) in
    putLE 4 h 60 (crc 0 (zsub h 0 60)).
Definition loop_file : bytes := zeros 4096 ++ loop_header.

(** the extent check of the scan is modulo 2^64. A file of 4160 bytes whose one
    block header, CRC included, is valid but claims 2^64 - 4096 bytes: the check
    passes, the scan goes back to offset 0 and meets the same header again; it
    never returns, whatever the fuel. *)
Theorem slot_scan_can_loop :
  zlen loop_file = 4160 /\ block_header 42 (zsub loop_file 4096 kBlockHeader) = Some (p64 - 4096, 0) /\
  forall fuel claimed out, img_scan loop_file fuel 42 4160 4096 claimed out = None.
Proof.
  split; [reflexivity|]. split; [vm_compute; reflexivity|].
  assert (hop loop_file 42 4160 4096 = (0, [], Some (p64 - 4096))) as H1 by (vm_compute; reflexivity).
  assert (hop loop_file 42 4160 0 = (4096, [], None)) as H2 by (vm_compute; reflexivity).
  assert ((4160 <? 4096 +% kBlockHeader) = false) as H3 by reflexivity.
  assert ((4160 <? 0 +% kBlockHeader) = false) as H4 by reflexivity.
  generalize dependent loop_file. intros d H1 H2.
  assert (forall fuel claimed out, img_scan d fuel 42 4160 4096 claimed out = None /\
    img_scan d fuel 42 4160 0 claimed out = None) as H.
  { induction fuel as [|fuel IH]; intros claimed out; [done|]. rewrite !img_scan_hop, H1, H2, H3, H4. split; apply IH. }
  intros. apply H.
Qed.
End SlotScan.
