(* ===== verification/SlotCommit.v ===== *)
(** * Commits of the slot store

    What [readBlocks] and [commit] do over any backend, for every failure: the
    scan returns, nothing already in the file is touched, a store that was
    dropped or replaced takes nothing; and what a successful commit leaves for
    every later reader. *)

From S2P Require Import Prelude IOBackend Crc32c UrlKey SlotStore SlotCodec SlotScan.

Module SlotCommit.
Import Slots SlotCodec SlotScan.

Section backend.
Context {W : Type} `{!IOBackend W, !IOLaws W} `{CK : Checksum}.

Definition data_at (s : IOBackend.fs) (fd : Z) : bytes := match open_file s fd with Some f => i_data f | None => [] end.

(** ** The scan over a backend *)
Lemma header_read id fd f pos w r b w' bl n :
  open_file (view w) fd = Some f -> 0 <= pos -> pos + kBlockHeader < p64 ->
  preadFull fd kBlockHeader pos w = ((r, b), w') ->
  (if r =? kBlockHeader then block_header id b else None) = Some (bl, n) ->
  block_header id (zsub (i_data f) pos kBlockHeader) = Some (bl, n).
Proof using IOLaws0.
  intros Hf Hp Hlt Hrd. destruct (preadFull_spec fd kBlockHeader pos w r b w' Hp ltac:(unfold kBlockHeader; lia) Hlt Hrd) as [_ H].
  destruct (r =? kBlockHeader) eqn:E; [|done]. b2p. destruct H as [(_ & _ & [?|(f' & Hf' & ->)])|[? _]];
    [unfold kBlockHeader in *; lia| |unfold kBlockHeader in *; lia]. rewrite Hf in Hf'. by injection Hf' as <-.
Qed.

Lemma claim_bounds pos bl cl : 0 <= pos -> 0 <= bl -> pos < 2 ^ 62 -> cl <= claim pos bl cl <= Z.max cl (pos + 2 ^ 40).
Proof using.
  change (2 ^ 62) with 4611686018427387904. change (2 ^ 40) with 1099511627776. intros. unfold claim.
  destruct (_ && _) eqn:E; [|lia]. b2p. change (2 ^ 40) with 1099511627776 in *. rewrite w64_small by lia. lia.
Qed.

Lemma scan_run fd f id end_ fuel pos cl out (w : W) o w' :
  open_file (view w) fd = Some f -> Forall is_byte (i_data f) -> sane (i_data f) id ->
  aligned pos -> 0 <= pos < 2 ^ 62 -> end_ < 2 ^ 62 -> (Z.to_nat (rounds end_ pos) < fuel)%nat ->
  scan (preadFull fd) fuel id end_ pos cl out w = (o, w') ->
  exists p1 c1 o1, o = Some (p1, c1, o1) /\ view w' = view w /\
    aligned p1 /\ pos <= p1 <= Z.max pos (end_ + kAlign) /\ cl <= c1 <= Z.max cl (end_ + 2 ^ 40).
Proof using IOLaws0.
  change (2 ^ 62) with 4611686018427387904. change (2 ^ 40) with 1099511627776.
  intros Hf Hb Hs. revert pos cl out w Hf. induction fuel as [|fuel IH]; intros pos cl out w Hf Ha Hp He Hfu Hsc; [lia|].
  cbn [scan] in Hsc. rewrite w64_small in Hsc by (unfold kBlockHeader; lia).
  destruct (end_ <? pos + kBlockHeader) eqn:E.
  { injection Hsc as <- <-. exists pos, cl, out. b2p. unfold kAlign. repeat split; try done; lia. }
  b2p. apply mbind_inv in Hsc as ([r b] & w1 & Hrd & Hsc). cbn [fst snd] in Hsc.
  destruct (preadFull_spec fd kBlockHeader pos w r b w1 (proj1 Hp) ltac:(unfold kBlockHeader; lia) ltac:(unfold kBlockHeader; lia) Hrd) as [Hv1 _].
  match goal with |- ?G => pose (Q := G); change Q end.
  assert (forall nx cl2 out2 w2, view w2 = view w -> aligned nx -> pos + kAlign <= nx <= end_ + kAlign ->
    cl <= cl2 <= Z.max cl (end_ + 1099511627776) -> nx < 4611686018427387904 + kAlign ->
    scan (preadFull fd) fuel id end_ nx cl2 out2 w2 = (o, w') -> Q) as Hnext.
  { unfold Q. intros nx cl2 out2 w2 Hv Han Hn Hc Hlt Hs2. pose proof (rounds_less end_ pos nx ltac:(lia)).
    pose proof (rounds_pos end_ pos ltac:(unfold kBlockHeader in *; lia)).
    destruct (decide (nx < 4611686018427387904)) as [Hsm|Hbig].
    - destruct (IH nx cl2 out2 w2 ltac:(by rewrite Hv) Han ltac:(unfold kAlign in *; lia) He ltac:(lia) Hs2)
        as (p1 & c1 & o1 & -> & Hv2 & Ha1 & Hp1 & Hc1).
      exists p1, c1, o1. rewrite Hv2. repeat split; try done; unfold kAlign in *; lia.
    - destruct fuel as [|fuel']; [lia|]. cbn [scan] in Hs2.
      rewrite (w64_small (nx + kBlockHeader)), (proj2 (Z.ltb_lt _ _)) in Hs2 by (unfold kBlockHeader, kAlign in *; lia).
      injection Hs2 as <- <-. exists nx, cl2, out2. repeat split; try done; unfold kAlign in *; lia. }
  assert (forall cl2 out2 w2, view w2 = view w -> cl <= cl2 <= Z.max cl (end_ + 1099511627776) ->
    scan (preadFull fd) fuel id end_ (pos +% kAlign) cl2 out2 w2 = (o, w') -> Q) as Hstep.
  { clearbody Q. intros cl2 out2 w2 Hv Hc Hs2. refine (Hnext (pos + kAlign) cl2 out2 w2 Hv (aligned_add pos Ha) _ Hc _ _).
    - unfold kBlockHeader, kAlign in *. lia.
    - unfold kAlign in *. lia.
    - by rewrite w64_small in Hs2 by (unfold kAlign; lia). }
  clearbody Q. destruct (if r =? kBlockHeader then block_header id b else None) as [[bl n]|] eqn:Eh;
    [|apply (Hstep cl out w1); [done|lia|done]].
  pose proof (header_read id fd f pos w r b w1 bl n Hf (proj1 Hp) ltac:(unfold kBlockHeader; lia) Hrd Eh) as Hh.
  pose proof (Hs pos bl n Ha (proj1 Hp) Hh) as Hsane. apply block_header_range in Hh as [Hbl Hn]; [|by apply Forall_zsub].
  pose proof (claim_bounds pos bl cl (proj1 Hp) (proj1 Hbl) (proj2 Hp)) as Hcb. change (2 ^ 40) with 1099511627776 in Hcb.
  assert (cl <= claim pos bl cl <= Z.max cl (end_ + 1099511627776)) as Hcl by (unfold kBlockHeader in *; lia).
  rewrite (w64_small (pos + bl)) in Hsc by lia.
  destruct (_ || _) eqn:E2; [by apply (Hstep (claim pos bl cl) out w1)|]. b2p.
  apply mbind_inv in Hsc as ([r2 b2] & w2 & Hrd2 & Hsc). cbn [fst snd] in Hsc.
  assert (view w2 = view w) as Hv2.
  { destruct (n =? 0); [by injection Hrd2 as _ _ <-|]. 
    destruct (preadFull_spec fd (n * kEntry) (pos + kBlockHeader) w1 r2 b2 w2 ltac:(unfold kBlockHeader; lia) ltac:(unfold kEntry; lia)
      ltac:(unfold kEntry, kBlockHeader in *; lia) Hrd2) as [-> _]. done. }
  destruct (negb (n =? 0) && _); [by apply (Hstep (claim pos bl cl) out w2)|].
  destruct (alignUp_spec (pos + bl) ltac:(lia)) as (Hau & ? & ?).
  eapply Hnext in Hsc; [exact Hsc|done|done| |done|unfold kAlign in *; lia].
  split; [apply aligned_le; try done; unfold kBlockHeader, kEntry in *; lia|unfold kAlign in *; lia].
Qed.

Lemma sublist_Forall {A} (P : A -> Prop) (k l : list A) : k `sublist_of` l -> Forall P l -> Forall P k.
Proof using. induction 1; intros Hl; [done|..]; apply Forall_cons_1 in Hl as [? ?]; [constructor; auto|auto]. Qed.

Lemma sublist_elem_of {A} (k l : list A) x : k `sublist_of` l -> x ∈ k -> x ∈ l.
Proof using. induction 1; rewrite ?elem_of_cons; intuition. Qed.

(** ** Handles *)
Record handle_ok (st : SlotStore) : Prop := {
  ho_id : is_u64 (storeId (hdr_ st));
  ho_off : aligned (readOff_ st) /\ 0 <= readOff_ st < 2 ^ 61;
  ho_claim : 0 <= claimedEnd_ st < 2 ^ 61
}.

Abbreviation St := (@St W).
Lemma lift_inv {A} (m : M W A) (s : St) a s' : lift m s = (a, s') -> exists w', m (snd s) = (a, w') /\ s' = (fst s, w').
Proof using. unfold lift. destruct (m (snd s)) as [a' w'] eqn:E. intros [= <- <-]. eauto. Qed.

(** Same store, later position. *)
Definition moved (st st' : SlotStore) : Prop :=
  fd_ st' = fd_ st /\ path_ st' = path_ st /\ hdr_ st' = hdr_ st /\ blob_ st' = blob_ st /\
  readOff_ st <= readOff_ st' /\ claimedEnd_ st <= claimedEnd_ st'.

Lemma readBlocks_spec (s : St) f o s' :
  handle_ok (fst s) -> open_file (view (snd s)) (fd_ (fst s)) = Some f -> Forall is_byte (i_data f) ->
  sane (i_data f) (storeId (hdr_ (fst s))) -> zlen (i_data f) < 2 ^ 60 ->
  readBlocks (zlen (i_data f)) s = (o, s') ->
  (exists others, o = Some others) /\ view (snd s') = view (snd s) /\ moved (fst s) (fst s') /\
  aligned (readOff_ (fst s')) /\ readOff_ (fst s') <= Z.max (readOff_ (fst s)) (zlen (i_data f) + kAlign) /\
  claimedEnd_ (fst s') <= Z.max (claimedEnd_ (fst s)) (zlen (i_data f) + 2 ^ 40).
Proof using IOLaws0.
  change (2 ^ 60) with 1152921504606846976. intros [Hid [Hoa Hor] Hcr] Hf Hb Hs Hlen H.
  change (2 ^ 61) with 2305843009213693952 in *. destruct s as [st w]. cbn [fst snd] in *. unfold readBlocks in H.
  apply mbind_inv in H as (s0 & s1 & [= <- <-] & H). cbn [fst] in H.
  apply mbind_inv in H as (x & s2 & (w1 & Hsc & ->)%lift_inv & H). cbn [fst snd] in *.
  destruct (scan_run (fd_ st) f (storeId (hdr_ st)) (zlen (i_data f)) (scan_fuel (zlen (i_data f)) (readOff_ st))
    (readOff_ st) (claimedEnd_ st) [] w x w1 Hf Hb Hs Hoa ltac:(change (2 ^ 62) with 4611686018427387904; lia)
    ltac:(change (2 ^ 62) with 4611686018427387904; lia) ltac:(unfold scan_fuel, rounds; lia) Hsc)
    as (p1 & c1 & o1 & -> & Hv & Ha1 & Hp1 & Hc1).
  injection H as <- <-. cbn. split; [eauto|]. split; [done|]. split; [by repeat split; cbn; lia|].
  rewrite Z.max_r by lia. repeat split; try done; lia.
Qed.

Definition base_of (size : Z) (st : SlotStore) : Z := alignUp (Z.max size (Z.max (readOff_ st) (claimedEnd_ st))).

Lemma written_all p off k (s : IOBackend.fs) fd s' : k = zlen p -> 0 < k ->
  written p off k s fd s' -> file_updated (fun d d' => d' = write_at d off p) s fd s'.
Proof using. intros -> Hk [[? _]|H]; [lia|]. by rewrite zsub_all in H. Qed.

(** The write phase. *)
Lemma commit_write_spec size write fsync (s : St) r es s' :
  handle_ok (fst s) -> 0 <= size < 2 ^ 61 -> block_len write < 2 ^ 61 -> Forall wf_record write ->
  commit_write size write fsync s = ((r, es), s') ->
  let st := fst s in let base := base_of size st in let id := storeId (hdr_ st) in
  size <= base /\ aligned base /\
  ((r = data_len write /\ es = place id base (kBlockHeader + zlen write * kEntry) write /\
    file_updated (fun d d' => d' = write_at d base (block id base write)) (view (snd s)) (fd_ st) (view (snd s')) /\
    fst s' = mkStore (fd_ st) (path_ st) (hdr_ st) (blob_ st) (alignUp (base + block_len write))
               (Z.max (claimedEnd_ st) (base + block_len write))) \/
   (r < 0 /\ es = [] /\ scribbled base (block_len write) (view (snd s)) (fd_ st) (view (snd s')) /\ fst s' = st)).
Proof using IOLaws0.
  change (2 ^ 61) with 2305843009213693952. intros [Hid [Hoa Hor] Hcr] Hsz Hlen Hwf H.
  change (2 ^ 61) with 2305843009213693952 in *. destruct s as [st w]. cbn [fst snd] in *. unfold commit_write in H.
  apply mbind_inv in H as (s0 & s1 & [= <- <-] & H). cbn [fst] in H. fold (base_of size st) in H.
  destruct (alignUp_spec (Z.max size (Z.max (readOff_ st) (claimedEnd_ st))) ltac:(lia)) as (Ha & Hr & _). fold (base_of size st) in Ha, Hr.
  set (base := base_of size st) in *. set (id := storeId (hdr_ st)) in *. cbv zeta. clearbody base id.
  destruct (block_facts id base write Hwf) as (Hz & Hbb & _). pose proof (block_min write). unfold kAlign in Hr.
  split; [lia|]. split; [done|].
  apply mbind_inv in H as (n & s2 & (w1 & Hw & ->)%lift_inv & H). cbn [fst snd] in *.
  assert (0 <= base /\ base + zlen (block id base write) < p64) as [Hb0 Hb1] by (rewrite Hz; lia).
  destruct (pwriteFull_spec (fd_ st) (block id base write) base w n w1 Hb0 Hb1 Hbb Hw) as [[-> Hwr]|[Hn Hsb]].
  - rewrite Z.eqb_refl in H. cbn [negb] in H. left.
    apply mbind_inv in H as (u & s3 & Hsync & H).
    assert (exists w2, s3 = (st, w2) /\ view w2 = view w1) as (w2 & -> & Hv2).
    { destruct fsync; [|injection Hsync as _ <-; eauto].
      apply mbind_inv in Hsync as (rc & s4 & (w2 & Hfs & ->)%lift_inv & [= _ <-]). cbn [fst snd] in *.
      destruct (law_fdatasync _ _ _ _ Hfs) as [_ ?]. eauto. }
    apply mbind_inv in H as (u2 & s5 & [= _ <-] & H). injection H as <- <- <-. cbn [fst snd].
    rewrite Hz, w64_small by lia. split; [done|]. split; [done|]. split; [|done].
    rewrite Hv2. eapply written_all, Hwr; [done|lia].
  - replace (n =? zlen (block id base write)) with false in H by (symmetry; apply Z.eqb_neq; lia).
    rewrite (proj2 (Z.ltb_lt _ _) Hn) in H. injection H as <- <- <-. right. rewrite Hz in Hsb. done.
Qed.

(** ** The whole commit *)
Lemma unlocking_inv {A} fd (a : A) (s : St) a' s' : unlocking fd a s = (a', s') ->
  a' = a /\ fst s' = fst s /\ view (snd s') = view (snd s).
Proof using IOLaws0.
  unfold unlocking. intros (rc & s1 & (w1 & Hf & ->)%lift_inv & [= <- <-])%mbind_inv. cbn.
  by destruct (law_flock _ _ _ _ _ Hf) as [_ ->].
Qed.

(** The store is the one its path names. *)
Definition current (s : IOBackend.fs) (st : SlotStore) : Prop :=
  exists ino f, fs_fds s !! fd_ st = Some ino /\ fs_inodes s !! ino = Some f /\ i_nlink f <> 0 /\
                fs_names s !! path_ st = Some ino.

Inductive committed_as (s : IOBackend.fs) (st : SlotStore) (recs : list SlotRecord) (r : Z) (es : list SlotEntry)
    (s' : IOBackend.fs) (st' : SlotStore) : Prop :=
  | c_nothing : es = [] -> s' = s -> moved st st' -> committed_as s st recs r es s' st'
  | c_torn base n : r < 0 -> es = [] -> current s st -> moved st st' -> zlen (data_at s (fd_ st)) <= base ->
      scribbled base n s (fd_ st) s' -> committed_as s st recs r es s' st'
  | c_block write base : es <> [] -> current s st -> moved st st' -> write `sublist_of` recs ->
      r = data_len write -> aligned base ->
      zlen (data_at s (fd_ st)) <= base -> Z.max (readOff_ st) (claimedEnd_ st) <= base ->
      es = place (storeId (hdr_ st)) base (kBlockHeader + zlen write * kEntry) write ->
      file_updated (fun d d' => d' = write_at d base (block (storeId (hdr_ st)) base write)) s (fd_ st) s' ->
      committed_as s st recs r es s' st'.

Lemma moved_refl st : moved st st.
Proof using. repeat split; lia. Qed.

Lemma current_check (st : SlotStore) (s : St) (x : bool) (s' : St) (ft : Z * stat_t) :
  fst s = st ->
  (fst ft = 0 -> exists ino f, fs_fds (view (snd s)) !! fd_ st = Some ino /\ fs_inodes (view (snd s)) !! ino = Some f /\ snd ft = stat_of ino f) ->
  (if (fst ft =? 0) && negb (st_nlink (snd ft) =? 0)
   then do sp <- lift (io_stat (path_ st)); ret ((fst sp =? 0) && (st_ino (snd ft) =? st_ino (snd sp)))
   else ret false) s = (x, s') ->
  fst s' = st /\ view (snd s') = view (snd s) /\ (x = true -> fst ft = 0 /\ current (view (snd s)) st).
Proof using IOLaws0.
  intros Hst Hft. destruct (_ && _) eqn:E; [|by intros [= <- <-]]. b2p.
  intros ([rs sp] & s1 & (w1 & Hs & ->)%lift_inv & [= <- <-])%mbind_inv. cbn [fst snd].
  destruct (law_stat _ _ _ _ _ Hs) as (_ & Hv & Hsp). split; [done|]. split; [done|]. intros Hx. b2p. split; [done|].
  destruct (Hft ltac:(done)) as (ino & f & Hfd & Hi & Est). destruct (Hsp ltac:(done)) as (ino2 & f2 & Hnm & Hi2 & ->).
  rewrite Est in *. cbn in *. subst ino2. exists ino, f. done.
Qed.

Section callbacks.
Context {C : Type} (onOthers : C -> list SlotEntry -> C) (taken : C -> Z -> bool).

Lemma commit_spec recs fsync (c : C) (s : St) o s' :
  handle_ok (fst s) ->
  (forall f, open_file (view (snd s)) (fd_ (fst s)) = Some f -> Forall is_byte (i_data f) /\
     sane (i_data f) (storeId (hdr_ (fst s))) /\ zlen (i_data f) < 2 ^ 60) ->
  Forall wf_record recs -> (forall w, w `sublist_of` recs -> block_len w < 2 ^ 61) ->
  commit onOthers taken recs fsync c s = (o, s') ->
  exists r es c', o = Some (r, es, c') /\ committed_as (view (snd s)) (fst s) recs r es (view (snd s')) (fst s').
Proof using IOLaws0.
  intros Hok Hfile Hwf Hlen H. destruct s as [st w]. cbn [fst snd] in *. unfold commit in H.
  apply mbind_inv in H as (s0 & s1 & [= <- <-] & H). cbn [fst] in H.
  destruct (declined (hdr_ st)).
  { injection H as <- <-. do 3 eexists. split; [done|]. by apply c_nothing; [| |apply moved_refl]. }
  apply mbind_inv in H as (rc & s2 & (w1 & Hlk & ->)%lift_inv & H). cbn [fst snd] in *.
  destruct (law_flock _ _ _ _ _ Hlk) as [_ Hv1]. destruct (negb (rc =? 0)).
  { injection H as <- <-. do 3 eexists. split; [done|]. by apply c_nothing; [| |apply moved_refl]. }
  apply mbind_inv in H as (ft & s3 & (w2 & Hst & ->)%lift_inv & H). cbn [fst snd] in *. destruct ft as [rs ft].
  destruct (law_fstat _ _ _ _ _ Hst) as (_ & Hv2 & Hstat).
  apply mbind_inv in H as (x & s4 & Hcur & H).
  apply (current_check st) in Hcur as (E4 & Hv4 & Hcur); [|done|cbn [snd]; rewrite Hv2; exact Hstat]. cbn [fst snd] in *.
  destruct s4 as [st4 w4]. cbn [fst snd] in *. subst st4.
  assert (view w4 = view w) as Hvw by congruence. rewrite Hv2, Hv1 in Hcur. rewrite Hv1 in Hstat.
  destruct x; cbn [negb] in H.
  2: { apply unlocking_inv in H as (-> & E & Hv). do 3 eexists. split; [done|]. cbn [fst snd] in *.
       apply c_nothing; [done|congruence|rewrite E; apply moved_refl]. }
  destruct (Hcur eq_refl) as [-> Hc]. destruct (Hstat eq_refl) as (ino & f & Hfd & Hi & ->). cbn [stat_of st_size snd] in H.
  assert (open_file (view w) (fd_ st) = Some f) as Hof by (unfold open_file; by rewrite Hfd).
  destruct (Hfile f Hof) as (Hb & Hsane & Hsz).
  apply mbind_inv in H as (others & s5 & Hrb & H).
  destruct (readBlocks_spec (st, w4) f others s5 Hok ltac:(by rewrite <- Hof; cbn; rewrite Hvw) Hb Hsane Hsz Hrb)
    as ((others' & ->) & Hv5 & Hmv & Ha5 & Ho5 & Hc5). cbn [fst snd] in *.
  set (c1 := match others' with [] => c | _ => onOthers c others' end) in *.
  set (write := filter (fun r => taken c1 (rslot r) = false) recs) in *.
  assert (write `sublist_of` recs) as Hsub by apply sublist_filter.
  destruct write as [|r0 rest] eqn:Ew.
  { apply unlocking_inv in H as (-> & E & Hv). do 3 eexists. split; [done|].
    apply c_nothing; [done|congruence|by rewrite E]. }
  rewrite <- Ew in *. clearbody write. destruct s5 as [st5 w5]. cbn [fst snd] in *.
  apply mbind_inv in H as ([r es] & s6 & Hcw & H).
  destruct Hmv as (M1 & M2 & M3 & M4 & M5 & M6).
  assert (handle_ok st5) as Hok5.
  { destruct Hok as [? [? ?] ?]. change (2 ^ 60) with 1152921504606846976 in *. change (2 ^ 61) with 2305843009213693952 in *.
    change (2 ^ 40) with 1099511627776 in *. unfold kAlign in *. split; [by rewrite M3|split; [done|]|];
    change (2 ^ 61) with 2305843009213693952; lia. }
  pose proof (zlen_nonneg (i_data f)).
  destruct (commit_write_spec (zlen (i_data f)) write fsync (st5, w5) r es s6 Hok5
    ltac:(change (2 ^ 60) with 1152921504606846976 in *; change (2 ^ 61) with 2305843009213693952; lia)
    (Hlen _ Hsub) (sublist_Forall _ _ _ Hsub Hwf) Hcw) as (Hbs & Hba & Hout). cbn [fst snd] in *.
  apply unlocking_inv in H as (-> & E & Hv). do 3 eexists. split; [done|].
  assert (data_at (view w) (fd_ st) = i_data f) as Hda by (unfold data_at; by rewrite Hof).
  assert (view w5 = view w) as Hv5w by congruence. rewrite Hv, E.
  destruct Hout as [(-> & -> & Hup & Hs6)|(Hneg & -> & Hsc & Hs6)]; rewrite Hv5w, M1 in *.
  - rewrite M3 in *. destruct (alignUp_spec (Z.max (zlen (i_data f)) (Z.max (readOff_ st5) (claimedEnd_ st5)))) as (_ & ? & _).
    { destruct Hok5 as [_ [_ ?] ?]. change (2 ^ 61) with 2305843009213693952 in *. change (2 ^ 60) with 1152921504606846976 in *. lia. }
    apply (c_block _ _ _ _ _ _ _ write (base_of (zlen (i_data f)) st5)); try done.
    + intros Hnil. apply (f_equal zlen) in Hnil. cbn [snd] in Hnil. rewrite zlen_place, Ew, zlen_cons in Hnil. change (zlen (@nil SlotEntry)) with 0 in Hnil. pose proof (zlen_nonneg rest). lia.
    + rewrite Hs6. unfold moved. cbn. destruct Hok5 as [_ [_ ?] ?]. repeat split; try done; [|lia].
      pose proof (block_min write) as Hbm. pose proof (Hlen _ Hsub). change (2 ^ 61) with 2305843009213693952 in *.
      change (2 ^ 60) with 1152921504606846976 in *. unfold base_of, kAlign in *.
      destruct (alignUp_spec (alignUp (zlen (i_data f) `max` (readOff_ st5 `max` claimedEnd_ st5)) + block_len write)) as (_ & ? & _); lia.
    + by rewrite Hda.
    + unfold base_of in *. lia.
  - apply (c_torn _ _ _ _ _ _ _ (base_of (zlen (i_data f)) st5) (block_len write)); try done.
    + rewrite Hs6. by repeat split.
    + by rewrite Hda.
Qed.
End callbacks.

(** ** Consequences for the file *)
Lemma file_updated_data (P : bytes -> bytes -> Prop) s fd s' f : open_file s fd = Some f -> file_updated P s fd s' ->
  exists f', open_file s' fd = Some f' /\ P (i_data f) (i_data f').
Proof using.
  intros Hf (ino & f0 & f1 & Hfd & Hi & _ & HP & ->). unfold open_file in *. rewrite Hfd in Hf. cbn in Hf. rewrite Hi in Hf.
  injection Hf as <-. exists f1. cbn. rewrite Hfd. cbn. by rewrite lookup_insert_eq.
Qed.

Lemma committed_file s st recs r es s' st' f :
  open_file s (fd_ st) = Some f -> committed_as s st recs r es s' st' ->
  exists f', open_file s' (fd_ st) = Some f' /\
    forall a k, 0 <= a -> 0 <= k -> a + k <= zlen (i_data f) -> zsub (i_data f') a k = zsub (i_data f) a k.
Proof using.
  intros Hf [_ -> _|base n _ _ _ _ Hle Hsc|write base _ _ _ _ _ _ Hle _ _ Hup]; [eauto| |];
    unfold data_at in Hle; rewrite Hf in Hle.
  - destruct Hsc as [->|Hup]; [eauto|]. destruct (file_updated_data _ _ _ _ f Hf Hup) as (f' & Hf' & _ & Hw).
    exists f'. split; [done|]. intros. apply Hw; lia.
  - destruct (file_updated_data _ _ _ _ f Hf Hup) as (f' & Hf' & Hd').
    exists f'. split; [done|]. intros. rewrite Hd'. apply zsub_write_at_before; lia.
Qed.

Lemma sublist_zlen {A} (k l : list A) : k `sublist_of` l -> zlen k <= zlen l.
Proof using. intros H%sublist_length. unfold zlen. lia. Qed.

Lemma commit_block_at {C} (onOthers : C -> list SlotEntry -> C) taken recs fsync (c : C) (s : St) r es c' s' f f' :
  handle_ok (fst s) -> open_file (view (snd s)) (fd_ (fst s)) = Some f -> Forall is_byte (i_data f) ->
  sane (i_data f) (storeId (hdr_ (fst s))) -> zlen (i_data f) < 2 ^ 60 -> Forall wf_record recs ->
  (forall l, l `sublist_of` recs -> block_len l < 2 ^ 61) ->
  commit onOthers taken recs fsync c s = (Some (r, es, c'), s') -> es <> [] ->
  open_file (view (snd s')) (fd_ (fst s)) = Some f' -> zlen (i_data f') < 2 ^ 40 ->
  exists write base, write `sublist_of` recs /\ aligned base /\ zlen (i_data f) <= base /\
    Z.max (readOff_ (fst s)) (claimedEnd_ (fst s)) <= base /\
    es = place (storeId (hdr_ (fst s))) base (kBlockHeader + zlen write * kEntry) write /\
    i_data f' = write_at (i_data f) base (block (storeId (hdr_ (fst s))) base write) /\
    base + block_len write < 2 ^ 40.
Proof using IOLaws0.
  intros Hok Hf Hb Hsane Hsz Hwf Hlen Hrun Hes Hf' Hsz'.
  assert (forall f0, open_file (view (snd s)) (fd_ (fst s)) = Some f0 -> Forall is_byte (i_data f0) /\
     sane (i_data f0) (storeId (hdr_ (fst s))) /\ zlen (i_data f0) < 2 ^ 60) as Hfile
    by (intros f0 Hf0; rewrite Hf in Hf0; by injection Hf0 as <-).
  destruct (commit_spec onOthers taken recs fsync c s _ s' Hok Hfile Hwf Hlen Hrun) as (r1 & es1 & c1 & Heq & Hc).
  injection Heq as <- <- <-.
  destruct Hc as [?|? ? _ ?|write base _ _ _ Hsub _ Ha Hle Hmax -> Hup]; [done|done|].
  unfold data_at in Hle. rewrite Hf in Hle. destruct (file_updated_data _ _ _ _ f Hf Hup) as (f1 & Hf1 & Hd').
  rewrite Hf1 in Hf'. injection Hf' as ->. exists write, base. do 6 (split; [done|]).
  pose proof (sublist_Forall _ _ _ Hsub Hwf) as Hww. destruct (block_facts (storeId (hdr_ (fst s))) base write Hww) as (Hz & _).
  pose proof (block_min write). pose proof (zlen_nonneg (i_data f)).
  rewrite Hd', zlen_write_at, Hz in Hsz'; [lia|lia|]. intros Hnil. rewrite Hnil in Hz. change (zlen (@nil Z)) with 0 in Hz. lia.
Qed.

Lemma block_reads_back id base d write recs :
  write `sublist_of` recs -> Forall wf_record write -> zlen d <= base -> base + block_len write < 2 ^ 40 ->
  forall e, e ∈ place id base (kBlockHeader + zlen write * kEntry) write -> kind e <> kKept ->
    exists rec, rec ∈ recs /\ slot e = rslot rec /\
      zsub (write_at d base (block id base write)) (off e) (len e) = rbytes rec /\
      ecrc e = recordCrc id (slot e) (rbytes rec).
Proof using.
  intros Hsub Hwf Hle Hend e (i & Hi)%list_elem_of_lookup Hk. pose proof (zlen_nonneg d).
  destruct (Forall2_lookup_r _ _ _ _ _ (placed_spec id base write ltac:(lia) Hend Hwf) Hi) as (rec & Hr & Hs & Hkd & _ & H2).
  destruct (block_record id base write ltac:(lia) Hend Hwf i rec e Hr Hi ltac:(congruence)) as [Hd Hc].
  exists rec. split; [eapply sublist_elem_of; [exact Hsub|by eapply list_elem_of_lookup_2]|]. split; [done|]. split; [|done].
  rewrite <- Hd. destruct (H2 ltac:(congruence)) as (L1 & _ & O1 & O2 & _).
  destruct (block_sizes id base write) as (? & Hbl & ? & _). pose proof (zlen_nonneg (rbytes rec)). unfold kBlockHeader, kEntry in *.
  rewrite <- (new_block d id base write Hwf Hle Hend) by lia. f_equal. lia.
Qed.
End backend.

(** *** A store just created on a memory disk, and two records for it *)
Definition demo_hdr : SlotStoreHeader := mkHdr 1 0 100 false [] 1000 0 0 0 1000 8 0 0 0 0.
Definition demo_created : result * memw :=
  Eval vm_compute in openOrCreate (fun _ => (42, 1, 0, 0)) (bs "/c") (bs "ab") demo_hdr [] (mkMem (mkFs ∅ ∅ ∅) []).
Definition demo_store : SlotStore :=
  Eval vm_compute in match fst demo_created with inl (st, _) => st | inr _ => new_store 0 [] demo_hdr [] end.
Definition demo_disk : memw := Eval vm_compute in snd demo_created.
Definition demo_recs : list SlotRecord := [mkRec 5 kRaw [1; 2; 3]; mkRec 7 kKept []].
Definition demo_file : bytes := Eval vm_compute in data_at (view demo_disk) (fd_ demo_store).

Lemma demo_handle : handle_ok demo_store.
Proof. split; vm_compute; try split; try split; congruence. Qed.

Lemma demo_bytes : Forall is_byte demo_file.
Proof.
  apply Forall_forall. intros x Hx. assert (forallb (fun x => (0 <=? x) && (x <? 256)) demo_file = true) as F by (vm_compute; reflexivity).
  rewrite forallb_forall in F. specialize (F x (proj1 (list_elem_of_In _ _) Hx)). b2p. unfold is_byte. lia.
Qed.

Lemma demo_sane : sane demo_file 42.
Proof.
  intros pos bl n Ha Hp. destruct (decide (pos = 0)) as [->|Hne].
  - replace (block_header 42 (zsub demo_file 0 kBlockHeader)) with (@None (Z * Z)) by (vm_compute; reflexivity). done.
  - assert (kAlign <= pos) by (change kAlign with (0 + kAlign); apply aligned_le; [reflexivity|done|lia]).
    unfold block_header, zsub. rewrite drop_ge by (change (length demo_file) with 4096%nat; unfold kAlign in *; lia). done.
Qed.

Lemma demo_recs_wf : Forall wf_record demo_recs.
Proof.
  repeat constructor; cbn; unfold is_byte; try lia; by (left + (right; left) + (right; right)).
Qed.

Lemma demo_recs_len l : l `sublist_of` demo_recs -> block_len l < 2 ^ 61.
Proof.
  intros Hs. pose proof (sublist_length _ _ Hs) as Hn. cbn in Hn.
  assert (data_len l <= 3).
  { apply sublist_cons_r in Hs as [Hs|(k & -> & Hs)]; apply sublist_cons_r in Hs as [Hs|(k' & -> & Hs)];
      apply sublist_nil_r in Hs as ->; vm_compute; congruence. }
  unfold block_len, kBlockHeader, kEntry, zlen. change (2 ^ 61) with 2305843009213693952. lia.
Qed.

(** C24: [commit] returns on any file of sane block headers, whatever the backend
    fails, and never touches what the file already holds: every byte below the
    old end is as before. A handle whose store was dropped or replaced changes
    nothing at all. A failed commit reports no entries. A successful one writes
    a sublist of the records as one block, at an aligned offset past the end of
    the file, past everything read and past every extent claimed, and reports
    the entries of that block. *)
Theorem slot_commit_outcomes {W C} `{!IOBackend W, !IOLaws W} `{CK : Checksum}
    (onOthers : C -> list SlotEntry -> C) (taken : C -> Z -> bool) (recs : list SlotRecord) (fsync : bool) (c : C)
    (s s' : @St W) (o : option (Z * list SlotEntry * C)) (f : inode)
    (Hok : handle_ok (fst s)) (Hf : open_file (view (snd s)) (fd_ (fst s)) = Some f) (Hb : Forall is_byte (i_data f))
    (Hsane : sane (i_data f) (storeId (hdr_ (fst s)))) (Hsize : zlen (i_data f) < 2 ^ 60)
    (Hwf : Forall wf_record recs) (Hlen : forall l, l `sublist_of` recs -> block_len l < 2 ^ 61)
    (Hrun : commit onOthers taken recs fsync c s = (o, s')) :
  exists r es c' f', o = Some (r, es, c') /\
    committed_as (view (snd s)) (fst s) recs r es (view (snd s')) (fst s') /\
    open_file (view (snd s')) (fd_ (fst s)) = Some f' /\
    (forall a k, 0 <= a -> 0 <= k -> a + k <= zlen (i_data f) -> zsub (i_data f') a k = zsub (i_data f) a k) /\
    (~ current (view (snd s)) (fst s) -> es = [] /\ view (snd s') = view (snd s)).
Proof.
  destruct (commit_spec onOthers taken recs fsync c s o s' Hok) as (r & es & c' & -> & Hc); try done.
  { intros f0 Hf0. rewrite Hf in Hf0. by injection Hf0 as <-. }
  destruct (committed_file _ _ _ _ _ _ _ f Hf Hc) as (f' & Hf' & Hkeep).
  exists r, es, c', f'. do 4 (split; [done|]). intros Hn. by destruct Hc.
Qed.

(** a commit is visible to every later reader. If the committing handle knows
    every extent a scan of the file claims (it has read the file), then after
    the commit a scan of the new file from the start, with enough fuel, returns
    and its last entries are exactly the committed ones; they are the only new
    ones unless a block was cut short before. Each of them reads back: at its
    offset lie the bytes of the record it was written for, and their seeded CRC
    is the entry's. *)
Theorem slot_commit_visible {W C} `{!IOBackend W, !IOLaws W} `{CK : Checksum}
    (onOthers : C -> list SlotEntry -> C) (taken : C -> Z -> bool) (recs : list SlotRecord) (fsync : bool) (c c' : C)
    (s s' : @St W) (r : Z) (es : list SlotEntry) (f f' : inode) (start : Z) (fuel0 : nat) (p1 c1 : Z) (o1 : list SlotEntry)
    (Hok : handle_ok (fst s)) (Hf : open_file (view (snd s)) (fd_ (fst s)) = Some f) (Hb : Forall is_byte (i_data f))
    (Hsane : sane (i_data f) (storeId (hdr_ (fst s)))) (Hsz : zlen (i_data f) < 2 ^ 60)
    (Hwf : Forall wf_record recs) (Hn : zlen recs < p32)
    (Hlen : forall l, l `sublist_of` recs -> block_len l < 2 ^ 61)
    (Hstart : aligned start /\ 0 <= start <= readOff_ (fst s))
    (Hscan : img_scan (i_data f) fuel0 (storeId (hdr_ (fst s))) (zlen (i_data f)) start 0 [] = Some (p1, c1, o1))
    (Hknows : c1 <= claimedEnd_ (fst s))
    (Htail : zlen (i_data f) mod kAlign = 0 \/ kBlockHeader <= zlen (i_data f) mod kAlign)
    (Hrun : commit onOthers taken recs fsync c s = (Some (r, es, c'), s')) (Hes : es <> [])
    (Hf' : open_file (view (snd s')) (fd_ (fst s)) = Some f') (Hsize : zlen (i_data f') < 2 ^ 40) :
  let d' := i_data f' in let id := storeId (hdr_ (fst s)) in
  (exists pre, (c1 <= zlen (i_data f) -> pre = o1) /\
     forall fuel, (Z.to_nat (rounds (zlen d') start) < fuel)%nat ->
       exists cl, img_scan d' fuel id (zlen d') start 0 [] = Some (alignUp (zlen d'), cl, pre ++ es)) /\
  (forall e, e ∈ es -> kind e <> kKept ->
     exists rec, rec ∈ recs /\ slot e = rslot rec /\ zsub d' (off e) (len e) = rbytes rec /\
                 ecrc e = recordCrc id (slot e) (rbytes rec)).
Proof.
  destruct (commit_block_at _ _ _ _ _ _ _ _ _ _ f f' Hok Hf Hb Hsane Hsz Hwf Hlen Hrun Hes Hf' Hsize)
    as (write & base & Hsub & Ha & Hba & Hmax & -> & Hd' & Hend).
  assert (zlen write < p32) as Hnw by (pose proof (sublist_zlen _ _ Hsub); lia).
  pose proof (sublist_Forall _ _ _ Hsub Hwf) as Hww. destruct (ho_id _ Hok) as [Hid0 Hid1].
  cbv zeta. rewrite Hd'. split.
  - rewrite (new_len (i_data f) (storeId (hdr_ (fst s))) base write Hww Hba Hend).
    destruct (scan_after (i_data f) (storeId (hdr_ (fst s))) base write Hb Hsane ltac:(by split) Hww Hnw Ha Hba Hend Htail fuel0 start 0 []
      p1 c1 o1 (proj1 Hstart) ltac:(lia) Hscan ltac:(lia)) as (pre & Hclean & Hall).
    exists pre. split; [intros; by rewrite Hclean|]. intros fuel Hfu. by apply Hall.
  - by apply block_reads_back.
Qed.

(** *** Witnesses: the two records committed to the new store. *)
Definition demo_run : option (Z * list SlotEntry * unit) * @St memw :=
  commit (fun c _ => c) (fun _ _ => false) demo_recs true tt (demo_store, demo_disk).
Definition demo_es : list SlotEntry := Eval vm_compute in match fst demo_run with Some (_, es, _) => es | None => [] end.
Definition demo_inode : inode := Eval vm_compute in default (mkInode [] 0 0 0) (open_file (view demo_disk) (fd_ demo_store)).

Lemma demo_inode_data : i_data demo_inode = demo_file.
Proof. reflexivity. Qed.

Lemma slot_commit_outcomes_witness :
  exists r es c', fst demo_run = Some (r, es, c') /\
    committed_as (view demo_disk) demo_store demo_recs r es (view (snd (snd demo_run))) (fst (snd demo_run)).
Proof.
  destruct (slot_commit_outcomes (fun c _ => c) (fun _ _ => false) demo_recs true tt (demo_store, demo_disk) (snd demo_run)
    (fst demo_run) demo_inode) as (r & es & c' & f' & H1 & H2 & _).
  - exact demo_handle.
  - vm_compute. reflexivity.
  - rewrite demo_inode_data. exact demo_bytes.
  - rewrite demo_inode_data. exact demo_sane.
  - vm_compute. reflexivity.
  - exact demo_recs_wf.
  - exact demo_recs_len.
  - unfold demo_run. by destruct (commit _ _ _ _ _ _).
  - exists r, es, c'. split; [exact H1|exact H2].
Defined.

Lemma slot_commit_visible_witness :
  demo_es <> [] /\
  exists f', open_file (view (snd (snd demo_run))) (fd_ demo_store) = Some f' /\
    forall e, e ∈ demo_es -> kind e <> kKept -> exists rec, rec ∈ demo_recs /\ zsub (i_data f') (off e) (len e) = rbytes rec.
Proof.
  split; [discriminate|].
  set (f' := default (mkInode [] 0 0 0) (open_file (view (snd (snd demo_run))) (fd_ demo_store))).
  assert (open_file (view (snd (snd demo_run))) (fd_ demo_store) = Some f') as Hf' by (subst f'; vm_compute; reflexivity).
  exists f'. split; [exact Hf'|].
  assert (fst demo_run = Some (3, demo_es, tt)) as E by (vm_compute; reflexivity).
  destruct (slot_commit_visible (fun c _ => c) (fun _ _ => false) demo_recs true tt tt (demo_store, demo_disk) (snd demo_run)
    3 demo_es demo_inode f' 4096 2 4096 0 []) as [_ H].
  - exact demo_handle.
  - vm_compute. reflexivity.
  - rewrite demo_inode_data. exact demo_bytes.
  - rewrite demo_inode_data. exact demo_sane.
  - vm_compute. reflexivity.
  - exact demo_recs_wf.
  - vm_compute. reflexivity.
  - exact demo_recs_len.
  - split; [reflexivity|]. vm_compute. split; congruence.
  - vm_compute. reflexivity.
  - vm_compute. congruence.
  - left. vm_compute. reflexivity.
  - rewrite <- E. unfold demo_run. by destruct (commit _ _ _ _ _ _).
  - discriminate.
  - exact Hf'.
  - subst f'. vm_compute. reflexivity.
  - intros e He Hk. destruct (H e He Hk) as (rec & ? & _ & ? & _). eauto.
Defined.
End SlotCommit.
