(* ===== verification/SlotCreate.v ===== *)
(** * Creation of the slot store

    What [openOrCreate] leaves under the store's path, for every backend failure:
    the file that was there, nothing (debris was removed), or a complete store.
    A store never exists without its header and layout. *)

From S2P Require Import Prelude IOBackend Crc32c Config MetaFile UrlKey SlotStore SlotCodec.

Module SlotCreate.
Import Slots SlotCodec.
Import Meta(writing, fs_ok, distinct, data_of, kept, writing_updated, writing_scribbled, writing_close, writing_file,
  writing_distinct, writing_abandon, unlink_data, wr_ino, wr_names).

Section create.
Context {W : Type} `{!IOBackend W, !IOLaws W} `{CK : Checksum}.

(** ** The file system stays sound *)
Lemma fs_ok_opened s path fl fd s' : fs_ok s -> opened s path fl fd s' -> fs_ok s'.
Proof using.
  intros Hs [_ Ho]. destruct (fs_names s !! path) as [ino|] eqn:E.
  - destruct Ho as (_ & n & Hi & ->). intros q i Hq%Hs. cbn. destruct (o_trunc fl); [|done].
    destruct (decide (ino = i)) as [<-|]; [by rewrite lookup_insert_eq|by rewrite lookup_insert_ne].
  - destruct Ho as (_ & ino & mt & mtn & Hi & ->). intros q i. cbn. intros [[<- <-]|[_ Hq%Hs]]%lookup_insert_Some;
      [by rewrite lookup_insert_eq|]. destruct (decide (ino = i)) as [<-|]; [by rewrite lookup_insert_eq|by rewrite lookup_insert_ne].
Qed.
Lemma fs_ok_updated P s fd s' : fs_ok s -> file_updated P s fd s' -> fs_ok s'.
Proof using.
  intros Hs (ino & f & f' & _ & _ & _ & _ & ->) q i Hq%Hs. cbn.
  destruct (decide (ino = i)) as [<-|]; [by rewrite lookup_insert_eq|by rewrite lookup_insert_ne].
Qed.
Lemma fs_ok_unlink s p : fs_ok s -> fs_ok (unlink_name s p).
Proof using.
  intros Hs. unfold unlink_name. destruct (fs_names s !! p) as [ino|]; [|done]. intros q i. cbn.
  intros [_ Hq%Hs]%lookup_delete_Some. destruct (decide (ino = i)) as [<-|].
  - rewrite lookup_alter_eq. by destruct (fs_inodes s !! ino); [|destruct Hq].
  - by rewrite lookup_alter_ne.
Qed.
Lemma fs_ok_linked s a b s' : fs_ok s -> linked s a b s' -> fs_ok s'.
Proof using.
  intros Hs (ino & f & _ & _ & _ & ->) q i. cbn. intros [[<- <-]|[_ Hq%Hs]]%lookup_insert_Some; [by rewrite lookup_insert_eq|].
  destruct (decide (ino = i)) as [<-|]; [by rewrite lookup_insert_eq|by rewrite lookup_insert_ne].
Qed.
Lemma fs_ok_fds s fds : fs_ok s -> fs_ok (mkFs (fs_names s) (fs_inodes s) fds).
Proof using. done. Qed.
Lemma fs_ok_written p off k s fd s' : fs_ok s -> written p off k s fd s' -> fs_ok s'.
Proof using. intros Hs [[_ ->]|H]; [done|by eapply fs_ok_updated]. Qed.
Lemma fs_ok_scribbled off n s fd s' : fs_ok s -> scribbled off n s fd s' -> fs_ok s'.
Proof using. intros Hs [->|H]; [done|by eapply fs_ok_updated]. Qed.

(** ** The private file *)
Lemma writing_excl s tmp fd s1 :
  fs_ok s -> opened s tmp O_RDWR_CREAT_EXCL fd s1 ->
  writing s tmp [] s1 /\ fs_fds s1 !! fd = fs_names s1 !! tmp /\ fs_names s !! tmp = None.
Proof using.
  intros Hn [_ Ho]. destruct (fs_names s !! tmp) as [ino|] eqn:E; [by destruct Ho as [? _]|].
  destruct Ho as (_ & ino & mt & mtn & Hi & ->). split; [|cbn; by rewrite !lookup_insert_eq]. split.
  - exists ino, (mkInode [] 1 mt mtn). cbn. rewrite !lookup_insert_eq. repeat (split; [done|]).
    split; [|intros i Hne; by rewrite lookup_insert_ne]. intros q Hq [f Hf]%Hn. congruence.
  - intros q Hq. cbn. by rewrite lookup_insert_ne.
Qed.

Lemma updated_fds P s fd s' : file_updated P s fd s' -> fs_fds s' = fs_fds s /\ fs_names s' = fs_names s.
Proof using. by intros (ino & f & f' & _ & _ & _ & _ & ->). Qed.

(** One complete write into it. *)
Lemma private_write s tmp d fd buf off (w1 : W) n w2 :
  writing s tmp d (view w1) -> fs_ok (view w1) -> fs_fds (view w1) !! fd = fs_names (view w1) !! tmp ->
  Forall is_byte buf -> 0 <= off -> off + zlen buf < p64 -> pwriteFull fd buf off w1 = (n, w2) ->
  exists d', writing s tmp d' (view w2) /\ fs_ok (view w2) /\ fs_fds (view w2) !! fd = fs_names (view w2) !! tmp /\
    (n = zlen buf -> d' = write_at d off buf).
Proof using IOLaws0.
  intros Hw Hok Hfd Hb Ho Hl Hn. destruct (pwriteFull_spec fd buf off w1 n w2 Ho Hl Hb Hn) as [[-> Hwr]|[Hneg Hsc]].
  - pose proof (fs_ok_written _ _ _ _ _ _ Hok Hwr). destruct Hwr as [[H0 ->]|Hu].
    + exists d. apply zlen_0_nil in H0 as ->. done.
    + destruct (writing_updated _ _ _ _ _ _ _ Hw Hfd Hu) as (d' & -> & Hw2). destruct (updated_fds _ _ _ _ Hu) as [-> ->].
      rewrite zsub_all in Hw2 by done. eauto 10.
  - pose proof (fs_ok_scribbled _ _ _ _ _ Hok Hsc). destruct (writing_scribbled _ _ _ _ _ _ _ _ Hw Hfd Hsc) as (d' & Hw2).
    exists d'. split; [done|]. split; [done|]. split; [|intros ->; pose proof (zlen_nonneg buf); lia].
    destruct Hsc as [->|Hu]; [done|]. by destruct (updated_fds _ _ _ _ Hu) as [-> ->].
Qed.

Lemma write_at_end d b : write_at d (zlen d) b = d ++ b.
Proof using.
  destruct (decide (b = [])) as [->|Hb]; [by rewrite app_nil_r|]. rewrite write_at_ne by done.
  rewrite Z.sub_diag. change (zeros 0) with (@nil Z). rewrite app_nil_r. unfold zlen. rewrite Nat2Z.id.
  rewrite take_ge, drop_ge by lia. by rewrite app_nil_r.
Qed.

Definition image (h : SlotStoreHeader) (blob : bytes) : bytes := encodeSlotHeader h ++ blob.

(** Everything named before is as it was: all but [tmp]. *)
Definition untouched (s : IOBackend.fs) (tmp : bytes) (s' : IOBackend.fs) : Prop :=
  forall q, q <> tmp -> data_of s' q = data_of s q.

Lemma unlink_untouched tmp (w : W) r w' : io_unlink tmp w = (r, w') -> untouched (view w) tmp (view w') /\ (fs_ok (view w) -> fs_ok (view w')).
Proof using IOLaws0.
  intros Hu. destruct (law_unlink _ _ _ _ Hu) as [[_ ->]|(_ & _ & ->)]; [done|]. split; [|apply fs_ok_unlink].
  intros q Hq. by apply unlink_data.
Qed.

Lemma writing_untouched s tmp d s1 : fs_names s !! tmp = None -> writing s tmp d s1 -> untouched s tmp s1.
Proof using.
  intros Hn Hw q Hq. unfold data_of. rewrite (writing_file _ _ _ _ q Hw Hq); [done|]. intros i _. by rewrite Hn.
Qed.

Lemma write_new_spec tmp want blob (w : W) r w' :
  fs_ok (view w) -> wf_header want -> Forall is_byte blob -> zlen blob < p63 ->
  write_new tmp want blob w = (r, w') ->
  fs_ok (view w') /\ untouched (view w) tmp (view w') /\
  match r with
  | inl tfd => fs_names (view w) !! tmp = None /\ writing (view w) tmp (image want blob) (view w') /\
               fs_fds (view w') !! tfd = fs_names (view w') !! tmp
  | inr _ => True
  end.
Proof using IOLaws0.
  intros Hok Hwf Hbb Hbl H. unfold write_new in H. pose proof (zlen_nonneg blob).
  apply mbind_inv in H as (tfd & w1 & Ho & H).
  destruct (law_open _ _ _ _ _ Ho) as [[Hneg Hv]|[Hpos Hop]].
  { rewrite (proj2 (Z.ltb_lt _ _) Hneg) in H. injection H as <- <-. rewrite Hv. done. }
  rewrite (proj2 (Z.ltb_ge _ _) Hpos) in H. pose proof (fs_ok_opened _ _ _ _ _ Hok Hop) as Hok1.
  destruct (writing_excl _ _ _ _ Hok Hop) as (Hw1 & Hf1 & Hn1).
  pose proof (zlen_header want Hwf) as Hz. pose proof (header_bytes want Hwf) as Hhb.
  set (hb := encodeSlotHeader want) in *.
  apply mbind_inv in H as (n & w2 & Hp & H).
  destruct (private_write (view w) tmp [] tfd hb 0 w1 n w2 Hw1 Hok1 Hf1 Hhb ltac:(lia) ltac:(rewrite Hz; unfold kHeaderBytes; lia) Hp)
    as (d2 & Hw2 & Hok2 & Hf2 & Hd2).
  apply mbind_inv in H as (ok & w3 & Hbw & H).
  assert (exists d3, writing (view w) tmp d3 (view w3) /\ fs_ok (view w3) /\ fs_fds (view w3) !! tfd = fs_names (view w3) !! tmp /\
    (ok = true -> d3 = hb ++ blob)) as (d3 & Hw3 & Hok3 & Hf3 & Hd3).
  { destruct (n =? zlen hb) eqn:En; b2p; cbn [andb] in Hbw.
    - rewrite (Hd2 En), write_at_0_nil in Hw2. destruct (decide (blob = [])) as [->|Hne].
      + rewrite bool_decide_true in Hbw by done. injection Hbw as <- <-. exists hb. by rewrite app_nil_r.
      + rewrite bool_decide_false in Hbw by done. cbn [negb] in Hbw. apply mbind_inv in Hbw as (n2 & w2' & Hp2 & [= <- <-]).
        destruct (private_write (view w) tmp hb tfd blob kHeaderBytes w2 n2 w2' Hw2 Hok2 Hf2 Hbb ltac:(unfold kHeaderBytes; lia) ltac:(unfold kHeaderBytes; lia) Hp2)
          as (d3 & Hw3 & Hok3 & Hf3 & Hd3). exists d3. do 3 (split; [done|]). intros ?. b2p.
        rewrite Hd3 by done. rewrite <- Hz. apply write_at_end.
    - injection Hbw as <- <-. exists d2. done. }
  apply mbind_inv in H as (rc & w4 & Hsy & H).
  assert (view w4 = view w3 /\ (rc = 0 -> ok = true)) as [Hv4 Hrc].
  { destruct ok; [destruct (law_fdatasync _ _ _ _ Hsy) as [_ ->]; done|injection Hsy as <- <-; done]. }
  destruct (negb (rc =? 0)) eqn:Erc.
  - apply mbind_inv in H as (c & w5 & Hc & H). apply mbind_inv in H as (u & w6 & Hu & [= <- <-]).
    destruct (law_close _ _ _ _ Hc) as [_ Hv5].
    assert (writing (view w) tmp d3 (view w5)) as Hw5 by (rewrite Hv5, Hv4; by apply writing_close).
    destruct (unlink_untouched _ _ _ _ Hu) as [Hun Hoku]. split; [|split; [|done]].
    + apply Hoku. rewrite Hv5, Hv4. by apply fs_ok_fds.
    + intros q Hq. rewrite Hun by done. by apply (writing_untouched _ _ _ _ Hn1 Hw5).
  - injection H as <- <-. b2p. rewrite (Hd3 (Hrc ltac:(done))) in Hw3. rewrite Hv4. split; [done|].
    split; [by apply (writing_untouched _ _ _ _ Hn1 Hw3)|]. done.
Qed.

(** ** One attempt *)
Lemma tmp_name_ne p pid seq : tmp_name p pid seq <> p.
Proof using.
  intros E. apply (f_equal (@length Z)) in E. unfold tmp_name in E. rewrite length_app in E. cbn in E. lia.
Qed.

Lemma opened_existing s p fd s' : opened s p O_RDWR fd s' ->
  exists f, open_file s' fd = Some f /\ data_of s p = Some (i_data f) /\ forall q, data_of s' q = data_of s q.
Proof using.
  intros [_ Ho]. destruct (fs_names s !! p) as [ino|] eqn:E; [|by destruct Ho].
  destruct Ho as (_ & n & Hi & ->). exists n. unfold open_file, data_of, file_of. cbn. rewrite lookup_insert_eq, E. cbn. by rewrite Hi.
Qed.

Lemma close_data fd (w : W) r w' : io_close fd w = (r, w') ->
  (forall q, data_of (view w') q = data_of (view w) q) /\ (fs_ok (view w) -> fs_ok (view w')).
Proof using IOLaws0. intros Hc. by destruct (law_close _ _ _ _ Hc) as [_ ->]. Qed.

(** What the read of an open store returned. *)
Definition served_from (d : bytes) (h : SlotStoreHeader) (blob : bytes) : Prop :=
  decodeSlotHeader (zsub d 0 kHeaderBytes) = Some h /\ (blobLen h <> 0 -> crc 0 blob = blobCrc h).

Lemma readHeadAndBlob_spec fd f (w : W) r w' :
  open_file (view w) fd = Some f -> readHeadAndBlob fd w = (r, w') ->
  view w' = view w /\ match r with ROk h b => served_from (i_data f) h b | _ => True end.
Proof using IOLaws0.
  intros Hf H. unfold readHeadAndBlob in H. apply mbind_inv in H as ([got b] & w1 & Hp & H).
  pose proof (preadFull_view _ _ _ _ _ _ Hp) as Hv. destruct (_ && newerFormat _ _); [by injection H as <- <-|].
  destruct (got =? kHeaderBytes) eqn:E; cbn [negb] in H; [|by injection H as <- <-]. b2p.
  destruct (preadFull_spec fd kHeaderBytes 0 w got b w1 ltac:(lia) ltac:(unfold kHeaderBytes; lia) ltac:(unfold kHeaderBytes; lia) Hp)
    as [_ [(_ & _ & [?|(f1 & Hf1 & ->)])|[? _]]]; [unfold kHeaderBytes in *; lia| |unfold kHeaderBytes in *; lia].
  rewrite Hf in Hf1. injection Hf1 as <-.
  destruct (decodeSlotHeader _) as [h|] eqn:Ed; [|by injection H as <- <-].
  destruct (blobLen h =? 0) eqn:E0; b2p; [by injection H as <- <-|].
  apply mbind_inv in H as ([n2 b2] & w2 & Hp2 & H). pose proof (preadFull_view _ _ _ _ _ _ Hp2) as Hv2.
  cbn [fst snd] in H. rewrite <- Hv, <- Hv2. destruct (_ || _) eqn:Eo; injection H as <- <-; [done|]. b2p. done.
Qed.

Definition attempt_outcome (s : IOBackend.fs) (p : bytes) (want : SlotStoreHeader) (blob : bytes) (id : Z)
    (o : option result) (s' : IOBackend.fs) : Prop :=
  match o with
  | Some (inl (st, true)) => path_ st = p /\ hdr_ st = with_blob want id blob /\ blob_ st = blob /\
      data_of s p = None /\ data_of s' p = Some (image (hdr_ st) blob)
  | Some (inl (st, false)) => data_of s' p = data_of s p /\
      exists d, data_of s p = Some d /\ served_from d (hdr_ st) (blob_ st)
  | Some (inr _) => data_of s' p = data_of s p
  | None => data_of s' p = data_of s p \/ data_of s' p = None
  end.

Lemma unlinked_none p (w : W) r w' : fs_ok (view w) -> io_unlink p w = (r, w') ->
  data_of (view w') p = data_of (view w) p \/ data_of (view w') p = None.
Proof using IOLaws0.
  intros Hok Hu. destruct (law_unlink _ _ _ _ Hu) as [[_ ->]|(_ & [ino Hn] & ->)]; [by left|right].
  unfold data_of, file_of, unlink_name. rewrite Hn. cbn. by rewrite lookup_delete_eq.
Qed.

Lemma attempt_spec p want blob id pid seq now (w : W) o w' :
  fs_ok (view w) -> wf_header (with_blob want id blob) -> Forall is_byte blob -> zlen blob < p63 ->
  attempt p want blob id pid seq now w = (o, w') ->
  fs_ok (view w') /\ attempt_outcome (view w) p want blob id o (view w') /\
  (forall q, q <> p -> q <> tmp_name p pid seq -> data_of (view w') q = data_of (view w) q).
Proof using IOLaws0.
  intros Hok Hwf Hb Hl H. unfold attempt in H. apply mbind_inv in H as (fd & w1 & Ho & H).
  destruct (law_open _ _ _ _ _ Ho) as [[Hneg Hv1]|[Hpos Hop]].
  - rewrite (proj2 (Z.leb_gt _ _) Hneg) in H. destruct (negb (fd =? -ENOENT)).
    { injection H as <- <-. rewrite Hv1. done. }
    set (tmp := tmp_name p pid seq) in *. assert (tmp <> p) as Hne by apply tmp_name_ne.
    apply mbind_inv in H as (r & w2 & Hnew & H).
    destruct (write_new_spec tmp (with_blob want id blob) blob w1 r w2 ltac:(by rewrite Hv1) Hwf Hb Hl Hnew) as (Hok2 & Hun & Hr).
    rewrite Hv1 in *. destruct r as [tfd|e].
    2: { injection H as <- <-. split; [done|]. split; [by apply Hun|]. intros q _ Hq. by apply Hun. }
    destruct Hr as (Hn1 & Hw2 & Hfd2). apply mbind_inv in H as (lrc & w3 & Hlk & H).
    apply mbind_inv in H as (u & w4 & Hu & H). destruct (unlink_untouched _ _ _ _ Hu) as [Hun4 Hok4].
    destruct (law_link _ _ _ _ _ Hlk) as [[Hln Hv3]|[-> Hli]].
    + assert (fs_ok (view w4) /\ untouched (view w) tmp (view w4)) as [Hk4 Hu4].
      { rewrite Hv3 in *. split; [auto|]. intros q Hq. rewrite Hun4 by done. by apply Hun. }
      assert (forall w5 rr, io_close tfd w4 = (rr, w5) -> fs_ok (view w5) /\ untouched (view w) tmp (view w5)) as Hcl.
      { intros w5 rr Hc. destruct (close_data _ _ _ _ Hc) as [Hd Hk]. split; [auto|]. intros q Hq. rewrite Hd. by apply Hu4. }
      destruct (lrc =? -EEXIST); [|rewrite (proj2 (Z.ltb_lt _ _) Hln) in H];
        apply mbind_inv in H as (rr & w5 & Hc & [= <- <-]); destruct (Hcl _ _ Hc) as [? Hu5];
        (split; [done|]); (split; [|intros q _ Hq; by apply Hu5]); cbn; [left|]; by apply Hu5.
    + cbn in H. injection H as <- <-. pose proof (fs_ok_linked _ _ _ _ Hok2 Hli) as Hok3.
      destruct Hli as (ino & f & Hnt & Hnp & Hi & Hv3). destruct Hw2 as [(ino' & f' & Hi' & Hf' & Hd' & _) Hnm].
      assert (ino' = ino) as -> by congruence. assert (f' = f) as -> by congruence.
      split; [auto|]. split.
      * cbn. do 3 (split; [done|]). split.
        -- unfold data_of, file_of. by rewrite <- (Hnm p) by done; rewrite Hnp.
        -- rewrite Hun4 by done. rewrite Hv3. unfold data_of, file_of. cbn. rewrite lookup_insert_eq. cbn.
           rewrite lookup_insert_eq. cbn. by rewrite Hd'.
      * intros q Hqp Hqt. rewrite Hun4, <- (Hun q) by done. rewrite Hv3. unfold data_of, file_of. cbn.
        rewrite lookup_insert_ne by done. destruct (fs_names (view w2) !! q) as [iq|]; [|done]. cbn.
        destruct (decide (ino = iq)) as [<-|]; [|by rewrite lookup_insert_ne]. rewrite lookup_insert_eq, Hi. done.
  - rewrite (proj2 (Z.leb_le _ _) Hpos) in H. pose proof (fs_ok_opened _ _ _ _ _ Hok Hop) as Hok1.
    destruct (opened_existing _ _ _ _ Hop) as (f & Hf & Hdp & Hsame).
    apply mbind_inv in H as (r & w2 & Hrd & H). destruct (readHeadAndBlob_spec fd f w1 r w2 Hf Hrd) as [Hv2 Hr].
    destruct r as [h b| |].
    + injection H as <- <-. rewrite Hv2. split; [done|]. split; [|intros; apply Hsame]. cbn. split; [apply Hsame|eauto].
    + apply mbind_inv in H as (db & w3 & Hdb & H). apply mbind_inv in H as (c & w4 & Hc & H).
      assert (view w3 = view w2) as Hv3.
      { unfold isDebris in Hdb. apply mbind_inv in Hdb as ([rs st] & w5 & Hst & [= _ <-]).
        by destruct (law_fstat _ _ _ _ _ Hst) as (_ & -> & _). }
      destruct (close_data _ _ _ _ Hc) as [Hd4 Hk4]. rewrite Hv3, Hv2 in *.
      destruct (negb db).
      * injection H as <- <-. split; [auto|]. split; [|intros]; cbn; by rewrite Hd4, Hsame.
      * apply mbind_inv in H as (u & w5 & Hu & [= <- <-]). destruct (unlink_untouched _ _ _ _ Hu) as [Hun Hk5].
        split; [auto|]. split; [|intros q Hq _; by rewrite Hun, Hd4, Hsame].
        cbn. rewrite <- Hsame, <- Hd4. apply (unlinked_none p w4 u w5); auto.
    + apply mbind_inv in H as (c & w3 & Hc & [= <- <-]). destruct (close_data _ _ _ _ Hc) as [Hd4 Hk4]. rewrite Hv2 in *.
      split; [auto|]. split; [|intros]; cbn; by rewrite Hd4, Hsame.
Qed.

(** ** All attempts *)
Definition id_of (env : nat -> Z * Z * Z * Z) (k : nat) : Z := let '(id, _, _, _) := env k in id.
Definition tmp_at (env : nat -> Z * Z * Z * Z) (p : bytes) (k : nat) : bytes :=
  let '(_, pid, seq, _) := env k in tmp_name p pid seq.

(** What is under [p] in the end, [s] being the beginning. *)
Definition create_outcome (s : IOBackend.fs) (p : bytes) (want : SlotStoreHeader) (blob : bytes)
    (env : nat -> Z * Z * Z * Z) (res : result) (s' : IOBackend.fs) : Prop :=
  match res with
  | inl (st, true) => exists k, path_ st = p /\ hdr_ st = with_blob want (id_of env k) blob /\ blob_ st = blob /\
      data_of s' p = Some (image (hdr_ st) blob)
  | inl (st, false) => data_of s' p = data_of s p /\
      exists d, data_of s p = Some d /\ served_from d (hdr_ st) (blob_ st)
  | inr _ => data_of s' p = data_of s p \/ data_of s' p = None
  end.

Lemma attempts_spec n k env p want blob (w0 w : W) res w' :
  fs_ok (view w) -> (forall j, wf_header (with_blob want (id_of env j) blob)) -> Forall is_byte blob -> zlen blob < p63 ->
  (data_of (view w) p = data_of (view w0) p \/ data_of (view w) p = None) ->
  (forall q, q <> p -> (forall j, q <> tmp_at env p j) -> data_of (view w) q = data_of (view w0) q) ->
  attempts n k env p want blob w = (res, w') ->
  create_outcome (view w0) p want blob env res (view w') /\
  (forall q, q <> p -> (forall j, q <> tmp_at env p j) -> data_of (view w') q = data_of (view w0) q).
Proof using IOLaws0.
  intros Hok Hwf Hb Hl. revert k w Hok. induction n as [|n IH]; intros k w Hok Hp Hq H.
  { injection H as <- <-. done. }
  cbn [attempts] in H. specialize (Hwf k) as Hwk. unfold id_of in Hwk.
  destruct (env k) as [[[id pid] seq] now] eqn:Ek.
  apply mbind_inv in H as (o & w1 & Ha & H).
  destruct (attempt_spec p want blob id pid seq now w o w1 Hok Hwk Hb Hl Ha) as (Hok1 & Hout & Hoth).
  assert (forall q, q <> p -> (forall j, q <> tmp_at env p j) -> data_of (view w1) q = data_of (view w0) q) as Hq1.
  { intros q H1 H2. specialize (H2 k) as H2k. unfold tmp_at in H2k. rewrite Ek in H2k. rewrite Hoth by done. by apply Hq. }
  destruct o as [[[st []]|e]|]; cbn in Hout.
  - injection H as <- <-. split; [|done]. destruct Hout as (? & ? & ? & _ & ?). exists k. unfold id_of. by rewrite Ek.
  - injection H as <- <-. split; [|done]. destruct Hout as (He & d & Hd & Hs).
    destruct Hp as [Hp|Hp]; [|congruence]. cbn. split; [congruence|]. exists d. split; [congruence|done].
  - injection H as <- <-. split; [|done]. cbn. destruct Hp; [left|right]; congruence.
  - eapply IH, H; [done| |done]. destruct Hout as [->| ->]; [done|by right].
Qed.
End create.

(** a slot store never exists without its header and layout. Whatever the backend
    fails, after [openOrCreate] the store's path names the file it named before,
    with the same bytes; or nothing; or, when the call reports a creation, a file
    that is exactly the header and the layout, header and layout being those of
    the returned object. When it reports an existing store, that store's file is
    untouched and the returned header is the one it decodes to, the layout
    passing its CRC. No other file changes but the temporary ones. *)
Theorem slot_create_outcomes {W} `{!IOBackend W, !IOLaws W} `{CK : Checksum} (env : nat -> Z * Z * Z * Z)
    (objectDir hashHex : bytes) (want : SlotStoreHeader) (blob : bytes) (w w' : W) (res : result)
    (Hok : fs_ok (view w)) (Hwf : forall k, wf_header (with_blob want (id_of env k) blob))
    (Hb : Forall is_byte blob) (Hl : zlen blob < p63)
    (Hrun : openOrCreate env objectDir hashHex want blob w = (res, w')) :
  let p := path objectDir hashHex in
  create_outcome (view w) p want blob env res (view w') /\
  (forall q, q <> p -> (forall j, q <> tmp_at env p j) -> data_of (view w') q = data_of (view w) q).
Proof.
  cbv zeta. unfold openOrCreate in Hrun. apply mbind_inv in Hrun as (rc & w1 & Hm & H).
  destruct (law_mkdirs _ _ _ _ Hm) as [_ Hv]. destruct (rc <? 0).
  - injection H as <- <-. rewrite Hv. cbn. split; [by left|done].
  - rewrite <- Hv in *. eapply attempts_spec; eauto.
Qed.

(** A store of a newer format, last written long ago. *)
Definition newer_file : bytes := Eval vm_compute in kMagic ++ le_bytes 4 3 ++ zeros 4084.
Definition newer_disk (faults : list fault) : memw :=
  mkMem (mkFs {[ path (bs "/c") (bs "ab") := 1 ]} {[ 1 := mkInode newer_file 1 0 0 ]} ∅) faults.

Definition store_of (r : result) : SlotStore :=
  match r with inl (st, _) => st | inr _ => new_store 0 [] (mkHdr 0 0 0 false [] 0 0 0 0 0 0 0 0 0 0) [] end.

(** a read error makes [openOrCreate] remove a newer build's store. With no fault the
    store is recognised and left in place; when the read of the header fails
    with EIO the store counts as debris of a creation that died (its file is
    older than a minute), is unlinked, and a store of this build's format is
    created in its place. *)
Theorem slot_newer_lost_on_read_error :
  let run faults := openOrCreate (fun _ => (42, 1, 0, 1000)) (bs "/c") (bs "ab")
                      (mkHdr 1 0 100 false [] 1000 0 0 0 1000 8 0 0 0 0) [] (newer_disk faults) in
  fst (run []) = inr ENewer /\ data_of (view (snd (run []))) (path (bs "/c") (bs "ab")) = Some newer_file /\
  exists st, fst (run [FOk; FOk; FErr EIO]) = inl (st, true) /\
    data_of (view (snd (run [FOk; FOk; FErr EIO]))) (path (bs "/c") (bs "ab")) = Some (image (hdr_ st) []).
Proof.
  intros run. split; [vm_compute; reflexivity|]. split; [vm_compute; reflexivity|].
  exists (store_of (fst (run [FOk; FOk; FErr EIO]))). split; vm_compute; reflexivity.
Qed.

Lemma slot_create_outcomes_witness :
  let run := openOrCreate (fun _ => (42, 1, 0, 1000)) (bs "/c") (bs "ab")
               (mkHdr 1 0 100 false [] 1000 0 0 0 1000 8 0 0 0 0) [] (mkMem (mkFs ∅ ∅ ∅) []) in
  exists st, fst run = inl (st, true) /\ data_of (view (snd run)) (path (bs "/c") (bs "ab")) = Some (image (hdr_ st) []).
Proof.
  intros run. destruct (slot_create_outcomes (fun _ => (42, 1, 0, 1000)) (bs "/c") (bs "ab")
    (mkHdr 1 0 100 false [] 1000 0 0 0 1000 8 0 0 0 0) [] (mkMem (mkFs ∅ ∅ ∅) []) (snd run) (fst run)) as [H _].
  - intros q ino Hq. change (view (mkMem (mkFs ∅ ∅ ∅) [])) with (mkFs ∅ ∅ ∅) in Hq. cbn [fs_names] in Hq. by rewrite lookup_empty in Hq.
  - intros k. split; unfold is_u32, is_u64, is_byte; vm_compute; repeat split; congruence || constructor.
  - constructor.
  - vm_compute. reflexivity.
  - subst run. by destruct (openOrCreate _ _ _ _ _ _).
  - assert (exists st, fst run = inl (st, true)) as [st E] by (exists (store_of (fst run)); vm_compute; reflexivity).
    rewrite E in H. destruct H as (k & _ & _ & _ & H). exists st. split; [exact E|exact H].
Defined.
End SlotCreate.
