(* ===== verification/ReplicaFile.v ===== *)
(** * Replica sidecars (src/core/ReplicaFile.h, ReplicaFile.cc)

    The [.tmeta] codec: two format versions, bounds on every count, a whole-image
    CRC and the structural checks the serving layer relies on; load and atomic
    store. Proved: the round trip, and that an accepted sidecar has sorted,
    disjoint extents inside the virtual file and inside the overlay. *)

From S2P Require Import Prelude IOBackend Crc32c PageBitmap Config MetaFile.

Module Replica.

Record Extent := mkExtent { virtOff : Z; elen : Z; tdataOff : Z }.
Record Range := mkRange { roff : Z; rlen : Z }.
Record OrigRange := mkOrig { ovirt : Z; olen : Z; origOff : Z; origLen : Z }.

Definition kFormatVersion : Z := 2.
Definition kFormatVersionV1 : Z := 1.
Definition kOverlayPageSize : Z := 64 * 1024.
Definition kZstd1 : Z := 1.
Definition kRaw : Z := 3.

Record ReplicaMeta := mkRep {
  flags : Z; encoding : Z; encoderVersion : Z; originSize : Z; originMtime : Z; cksumKind : Z; originCksum : Z;
  virtualSize : Z; tdataBytes : Z; key : bytes; extents : list Extent; superseded : list Range;
  origMap : list OrigRange; pageCrcs : list Z
}.

Definition npages_of (n : Z) : Z := (n +% kOverlayPageSize -% 1) / kOverlayPageSize.
Definition npages (m : ReplicaMeta) : Z := npages_of (tdataBytes m).
Definition pageBytes_of (n i : Z) : Z :=
  let start := i *% kOverlayPageSize in
  w32 (Z.min (start +% kOverlayPageSize) n -% start).
Definition pageBytes (m : ReplicaMeta) (i : Z) : Z := pageBytes_of (tdataBytes m) i.
Definition runBytes (m : ReplicaMeta) (first last_ : Z) : Z :=
  last_ *% kOverlayPageSize +% pageBytes m last_ -% first *% kOverlayPageSize.

Definition kMagic : bytes := bs "UCTR".
Definition kHeaderSizeV1 : Z := 72.
Definition kHeaderSize : Z := 80.
Definition kOrigMapCountOff : Z := 72.
Definition kOrigRangeBytes : Z := 32.
Definition kMaxOrigMap : Z := 2 ^ 22.
Definition kCrcFieldOff : Z := 68.
Definition kMaxKeyLen : Z := 64 * 1024.
Definition kMaxExtents : Z := 2 ^ 20.
Definition kMaxSuperseded : Z := 2 ^ 24.

(** Offsets of the sections of an image. *)
Record sections := mkSections { extOff : Z; supOff : Z; omOff : Z; crcsOff : Z; total : Z }.
Definition layout (keyOff keyLen nExt nSup nOrig np : Z) : sections :=
  let extOff := Meta.align8 (keyOff +% keyLen) in
  let supOff := extOff +% nExt *% 24 in
  let omOff := supOff +% nSup *% 16 in
  let crcsOff := omOff +% nOrig *% kOrigRangeBytes in
  mkSections extOff supOff omOff crcsOff (crcsOff +% np *% 4).

Definition extent_words (e : Extent) : list Z := [virtOff e; elen e; tdataOff e].
Definition range_words (r : Range) : list Z := [roff r; rlen r].
Definition orig_words (o : OrigRange) : list Z := [ovirt o; olen o; origOff o; origLen o].
Definition words_of {A} (f : A -> list Z) (l : list A) : bytes := le_array 8 (concat (map f l)).

Definition layout_of (m : ReplicaMeta) : sections :=
  layout kHeaderSize (zlen (key m)) (zlen (extents m)) (zlen (superseded m)) (zlen (origMap m)) (npages m).

Section checksum.
Context `{CK : Checksum}.

Definition fields (m : ReplicaMeta) : list (Z * bytes) :=
  let l := layout_of m in
  [ (0, kMagic); (4, le_bytes 4 kFormatVersion); (8, le_bytes 4 (flags m)); (12, le_bytes 1 (encoding m));
    (13, le_bytes 1 (cksumKind m)); (16, le_bytes 8 (originSize m)); (24, le_bytes 8 (originMtime m));
    (32, le_bytes 4 (originCksum m)); (36, le_bytes 4 (encoderVersion m)); (40, le_bytes 8 (virtualSize m));
    (48, le_bytes 8 (tdataBytes m)); (56, le_bytes 4 (w32 (zlen (key m)))); (60, le_bytes 4 (w32 (zlen (extents m))));
    (64, le_bytes 4 (w32 (zlen (superseded m)))); (kOrigMapCountOff, le_bytes 4 (w32 (zlen (origMap m))));
    (kHeaderSize, key m); (extOff l, words_of extent_words (extents m)); (supOff l, words_of range_words (superseded m));
    (omOff l, words_of orig_words (origMap m));
    (crcsOff l, le_array 4 (take (Z.to_nat (npages m)) (pageCrcs m))) ].

Definition serialize (m : ReplicaMeta) : bytes :=
  let buf := write_all (fields m) (zeros (total (layout_of m))) in
  putLE 4 buf kCrcFieldOff (crc 0 buf).

(** Sorted, disjoint, inside the virtual file and inside the overlay. *)
Fixpoint extents_ok (virtualSize tdataBytes prevEnd : Z) (l : list Extent) : bool :=
  match l with
  | [] => true
  | e :: l' =>
      if (elen e =? 0) || (virtOff e <? prevEnd) then false
      else if (virtOff e +% elen e <? virtOff e) || (virtualSize <? virtOff e +% elen e) then false
      else if (tdataOff e +% elen e <? tdataOff e) || (tdataBytes <? tdataOff e +% elen e) then false
      else extents_ok virtualSize tdataBytes (virtOff e +% elen e) l'
  end.
Definition superseded_ok (originSize : Z) (l : list Range) : bool :=
  forallb (fun r => negb ((rlen r =? 0) || (roff r +% rlen r <? roff r) || (originSize <? roff r +% rlen r))) l.

Definition get_extents (p : bytes) (q n : Z) : list Extent :=
  map (fun i => let q := q + 24 * i in mkExtent (getLE 8 p q) (getLE 8 p (q + 8)) (getLE 8 p (q + 16))) (zrange 0 n).
Definition get_ranges (p : bytes) (q n : Z) : list Range :=
  map (fun i => let q := q + 16 * i in mkRange (getLE 8 p q) (getLE 8 p (q + 8))) (zrange 0 n).
Definition get_origs (p : bytes) (q n : Z) : list OrigRange :=
  map (fun i => let q := q + 32 * i in
                mkOrig (getLE 8 p q) (getLE 8 p (q + 8)) (getLE 8 p (q + 16)) (getLE 8 p (q + 24))) (zrange 0 n).

Definition deserialize (p : bytes) : option ReplicaMeta :=
  let n := zlen p in
  if (n <? kHeaderSizeV1) || negb (bytes_eqb (zsub p 0 4) kMagic) then None
  else
    let ver := getLE 4 p 4 in
    if negb (ver =? kFormatVersion) && negb (ver =? kFormatVersionV1) then None
    else
      let v2 := ver =? kFormatVersion in
      if v2 && (n <? kHeaderSize) then None
      else
        let keyLen := getLE 4 p 56 in
        let nExt := getLE 4 p 60 in
        let nSup := getLE 4 p 64 in
        let storedCrc := getLE 4 p kCrcFieldOff in
        let nOrig := if v2 then getLE 4 p kOrigMapCountOff else 0 in
        if (kMaxKeyLen <? keyLen) || (kMaxExtents <? nExt) || (kMaxSuperseded <? nSup) || (kMaxOrigMap <? nOrig) then None
        else
          let tdata := getLE 8 p 48 in
          let np := npages_of tdata in
          let keyOff := if v2 then kHeaderSize else kHeaderSizeV1 in
          let l := layout keyOff keyLen nExt nSup nOrig np in
          if negb (n =? total l) then None
          else if negb (crc 0 (putLE 4 p kCrcFieldOff 0) =? storedCrc) then None
          else
            let m := mkRep (getLE 4 p 8) (getLE 1 p 12) (getLE 4 p 36) (getLE 8 p 16) (getLE 8 p 24) (getLE 1 p 13)
                       (getLE 4 p 32) (getLE 8 p 40) tdata (zsub p keyOff keyLen) (get_extents p (extOff l) nExt)
                       (get_ranges p (supOff l) nSup) (get_origs p (omOff l) nOrig) (get_array 4 p (crcsOff l) np) in
            if virtualSize m <? originSize m then None
            else if negb (extents_ok (virtualSize m) (tdataBytes m) 0 (extents m)) then None
            else if negb (superseded_ok (originSize m) (superseded m)) then None
            else Some m.
End checksum.

Section io.
Context {W : Type} `{!IOBackend W} `{CK : Checksum}.

Definition load (path : bytes) : M W (option ReplicaMeta) :=
  do st <- io_stat path;
  if fst st <? 0 then ret None
  else if (st_size (snd st) <=? 0) || (p31 <? st_size (snd st)) then ret None
  else
    do fd <- io_open path O_RDONLY;
    if fd <? 0 then ret None
    else
      do rb <- preadFull fd (st_size (snd st)) 0;
      do_ io_close fd;
      if negb (fst rb =? st_size (snd st)) then ret None
      else ret (deserialize (snd rb)).

(** The body of [store] is the one of MetaFile::store, line for line. *)
Definition store (path : bytes) (m : ReplicaMeta) (fsyncMeta : bool) : M W Z :=
  Meta.store_bytes path (serialize m) fsyncMeta.
End io.

(** ** What the structural checks give *)
Definition ext_end (e : Extent) : Z := virtOff e + elen e.

(** Extents in order, each starting at or after [lo]. *)
Fixpoint in_order (vs td lo : Z) (l : list Extent) : Prop :=
  match l with
  | [] => True
  | e :: l' => 0 < elen e /\ lo <= virtOff e /\ ext_end e <= vs /\ 0 <= tdataOff e /\ tdataOff e + elen e <= td /\
               in_order vs td (ext_end e) l'
  end.

Definition u64_extent (e : Extent) : Prop := is_u64 (virtOff e) /\ is_u64 (elen e) /\ is_u64 (tdataOff e).
Definition u64_range (r : Range) : Prop := is_u64 (roff r) /\ is_u64 (rlen r).
Definition u64_orig (o : OrigRange) : Prop := is_u64 (ovirt o) /\ is_u64 (olen o) /\ is_u64 (origOff o) /\ is_u64 (origLen o).

(** The source's two-part range test. *)
Lemma fits_spec a b lim : is_u64 a -> is_u64 b -> lim < p64 ->
  (a +% b <? a) || (lim <? a +% b) = false <-> a + b <= lim.
Proof.
  unfold is_u64. intros Ha Hb Hl. destruct (Z.lt_ge_cases (a + b) p64).
  - rewrite w64_small by lia. rewrite orb_false_iff, !Z.ltb_ge. lia.
  - rewrite w64_add_wrap by lia. split; [|lia]. intros E. b2p. lia.
Qed.

Lemma extents_ok_spec vs td lo l : Forall u64_extent l -> vs < p64 -> td < p64 ->
  extents_ok vs td lo l = true <-> in_order vs td lo l.
Proof.
  intros Hl Hv Ht. revert lo. induction Hl as [|e l (H1 & H2 & H3) Hl IH]; intros lo; [done|].
  cbn [extents_ok in_order]. unfold ext_end.
  pose proof (fits_spec (virtOff e) (elen e) vs H1 H2 Hv) as F1. pose proof (fits_spec (tdataOff e) (elen e) td H3 H2 Ht) as F2.
  unfold is_u64 in *.
  destruct ((elen e =? 0) || (virtOff e <? lo)) eqn:E1.
  { split; [done|]. intros (? & ? & _). apply orb_true_iff in E1 as [E1|E1]; b2p; lia. }
  b2p.
  destruct ((virtOff e +% elen e <? virtOff e) || (vs <? virtOff e +% elen e)).
  { split; [done|]. intros (_ & _ & Hx & _). by apply F1 in Hx. }
  destruct ((tdataOff e +% elen e <? tdataOff e) || (td <? tdataOff e +% elen e)).
  { split; [done|]. intros (_ & _ & _ & _ & Hx & _). by apply F2 in Hx. }
  pose proof (proj1 F1 eq_refl). pose proof (proj1 F2 eq_refl). rewrite w64_small by lia. rewrite IH. intuition lia.
Qed.

Lemma superseded_ok_spec os l : Forall u64_range l -> os < p64 ->
  superseded_ok os l = true <-> Forall (fun r => 0 < rlen r /\ roff r + rlen r <= os) l.
Proof.
  intros Hl Ho. induction Hl as [|r l [H1 H2] Hl IH]; [done|]. cbn [superseded_ok forallb].
  fold (superseded_ok os l). rewrite andb_true_iff, IH, negb_true_iff, Forall_cons, <- orb_assoc, orb_false_iff.
  rewrite (fits_spec _ _ _ H1 H2 Ho), Z.eqb_neq. unfold is_u64 in *. intuition lia.
Qed.

(** ** Accepted sidecars *)
Record sound (m : ReplicaMeta) : Prop := {
  sd_size : originSize m <= virtualSize m;
  sd_extents : in_order (virtualSize m) (tdataBytes m) 0 (extents m);
  sd_superseded : Forall (fun r => 0 < rlen r /\ roff r + rlen r <= originSize m) (superseded m);
  sd_counts : zlen (key m) <= kMaxKeyLen /\ zlen (extents m) <= kMaxExtents /\ zlen (superseded m) <= kMaxSuperseded /\
              zlen (origMap m) <= kMaxOrigMap;
  sd_crcs : zlen (pageCrcs m) = npages m /\ Forall is_u32 (pageCrcs m);
  sd_widths : is_u64 (originSize m) /\ is_u64 (virtualSize m) /\ is_u64 (tdataBytes m) /\
              Forall u64_extent (extents m) /\ Forall u64_range (superseded m) /\ Forall u64_orig (origMap m)
}.

Lemma get8_u64 p q : Forall is_byte p -> is_u64 (getLE 8 p q).
Proof. apply (getLE_range 8). Qed.
Lemma get_extents_u64 p q n : Forall is_byte p -> Forall u64_extent (get_extents p q n).
Proof. intros. apply Forall_map, Forall_true. intros i. repeat split; by apply get8_u64. Qed.
Lemma get_ranges_u64 p q n : Forall is_byte p -> Forall u64_range (get_ranges p q n).
Proof. intros. apply Forall_map, Forall_true. intros i. repeat split; by apply get8_u64. Qed.
Lemma get_origs_u64 p q n : Forall is_byte p -> Forall u64_orig (get_origs p q n).
Proof. intros. apply Forall_map, Forall_true. intros i. repeat split; by apply get8_u64. Qed.

Lemma zlen_map_zrange {A} (f : Z -> A) n : 0 <= n -> zlen (map f (zrange 0 n)) = n.
Proof. intros. unfold zlen. rewrite length_map. fold (zlen (zrange 0 n)). rewrite zlen_zrange; lia. Qed.

Lemma npages_of_nonneg n : 0 <= npages_of n.
Proof. unfold npages_of. apply Z.div_pos; [apply w64_range|unfold kOverlayPageSize; lia]. Qed.

Lemma deserialize_sound_lemma `{CK : Checksum} p m : Forall is_byte p -> deserialize p = Some m -> sound m.
Proof.
  intros Hp. unfold deserialize.
  destruct (_ || negb _); [done|]. destruct (_ && negb _); [done|]. destruct (_ && (_ <? kHeaderSize)); [done|].
  set (nOrig := if getLE 4 p 4 =? kFormatVersion then _ else 0).
  assert (0 <= nOrig) as Hno by (subst nOrig; destruct (_ =? _); [apply (getLE_range 4); done|lia]).
  destruct (_ || (kMaxOrigMap <? nOrig)) eqn:Ec; [done|]. b2p.
  set (l := layout _ _ _ _ _ _). clearbody l.
  destruct (negb _); [done|]. destruct (negb _); [done|].
  set (m0 := mkRep _ _ _ _ _ _ _ _ _ _ _ _ _ _). destruct (virtualSize m0 <? originSize m0) eqn:E1; [done|]. b2p.
  assert (is_u64 (originSize m0) /\ is_u64 (virtualSize m0) /\ is_u64 (tdataBytes m0) /\ Forall u64_extent (extents m0) /\
    Forall u64_range (superseded m0) /\ Forall u64_orig (origMap m0)) as Hw.
  { split; [by apply get8_u64|]. split; [by apply get8_u64|]. split; [by apply get8_u64|].
    split; [by apply get_extents_u64|]. split; [by apply get_ranges_u64|by apply get_origs_u64]. }
  destruct Hw as (Hw1 & Hw2 & Hw3 & Hw4 & Hw5 & Hw6).
  destruct (extents_ok _ _ _ _) eqn:E2; [|done]. destruct (superseded_ok _ _) eqn:E3; [|done]. cbn [negb]. intros [= <-].
  apply extents_ok_spec in E2; [|done|apply Hw2|apply Hw3]. apply superseded_ok_spec in E3; [|done|apply Hw1].
  pose proof (getLE_range 4 p 56 Hp). pose proof (getLE_range 4 p 60 Hp). pose proof (getLE_range 4 p 64 Hp).
  split; try done; unfold m0; cbn [key extents superseded origMap pageCrcs].
  - unfold get_extents, get_ranges, get_origs. rewrite !zlen_map_zrange by lia.
    pose proof (zlen_zsub_le p (if getLE 4 p 4 =? kFormatVersion then kHeaderSize else kHeaderSizeV1) (getLE 4 p 56)). lia.
  - split; [apply zlen_get_array, npages_of_nonneg|]. apply Forall_map, Forall_true. intros i. apply (getLE_range 4). done.
Qed.

(** ** Arrays of 64-bit records *)
Lemma getLE_inner p q n x o : zsub p q n = x -> 0 <= q -> 0 <= o -> o + 8 <= n -> getLE 8 p (q + o) = getLE 8 x o.
Proof. intros <- ? ? ?. unfold getLE. rewrite zsub_zsub by lia. done. Qed.

Lemma words_len {A} (f : A -> list Z) k l : (forall a, zlen (f a) = k) -> zlen (words_of f l) = 8 * k * zlen l.
Proof.
  intros Hk. unfold words_of. rewrite zlen_le_array. induction l as [|a l IH]; [unfold zlen; cbn; lia|].
  cbn [map concat]. rewrite zlen_app, Hk, zlen_cons. lia.
Qed.

Lemma get_words {A} (f : A -> list Z) (g : bytes -> Z -> A) (P : A -> Prop) k l p q :
  (forall a, zlen (f a) = k) -> 0 <= k -> 0 <= q ->
  (forall a p q, P a -> 0 <= q -> zsub p q (8 * k) = le_array 8 (f a) -> g p q = a) ->
  Forall P l -> zsub p q (8 * k * zlen l) = words_of f l ->
  map (fun i => g p (q + 8 * k * i)) (zrange 0 (zlen l)) = l.
Proof.
  intros Hk Hk0 Hq Hg Hl. revert q Hq. induction Hl as [|a l Ha Hl IH]; intros q Hq Hs; [done|].
  rewrite zlen_cons in *. pose proof (zlen_nonneg l). rewrite zrange_cons by lia. cbn [map].
  assert (words_of f (a :: l) = le_array 8 (f a) ++ words_of f l) as E.
  { unfold words_of, le_array. cbn [map concat]. by rewrite map_app, concat_app. }
  rewrite E in Hs. assert (zlen (le_array 8 (f a)) = 8 * k) as Ea by (rewrite zlen_le_array, Hk; lia).
  assert (zlen (words_of f l) = 8 * k * zlen l) as El by (by apply words_len).
  f_equal.
  - rewrite Z.mul_0_r, Z.add_0_r. apply Hg; [done|done|].
    rewrite <- (zsub_app (le_array 8 (f a)) (words_of f l) (8 * k)), <- Hs by done.
    rewrite zsub_zsub by lia. by rewrite Z.add_0_r.
  - rewrite <- (IH (q + 8 * k)) at 2; [|lia|].
    + replace (zrange (0 + 1) (1 + zlen l)) with (map (Z.add 1) (zrange 0 (zlen l))).
      * rewrite map_map. apply map_ext. intros i. f_equal. lia.
      * unfold zrange. replace (0 + 1) with (1 + 0) by done. rewrite <- fmap_add_seqZ. do 2 f_equal. lia.
    + transitivity (zsub (le_array 8 (f a) ++ words_of f l) (8 * k) (8 * k * zlen l)).
      * rewrite <- Hs. rewrite zsub_zsub by lia. done.
      * rewrite zsub_app_r by lia. rewrite Ea, Z.sub_diag. apply zsub_all. done.
Qed.

Lemma word_get p q n l i v o : zsub p q n = le_array 8 l -> l !! i = Some v -> is_u64 v -> 0 <= q ->
  n = 8 * zlen l -> o = 8 * Z.of_nat i -> getLE 8 p (q + o) = v.
Proof.
  intros Hs Hi Hv Hq -> ->. pose proof (lookup_lt_Some _ _ _ Hi). unfold zlen in *.
  rewrite (getLE_inner _ _ _ _ _ Hs) by lia.
  pose proof (le_array_get 8 l i v [] [] Hi Hv) as G. rewrite zlen_nil, app_nil_r in G. exact G.
Qed.

Lemma get_extents_words p q l : 0 <= q -> Forall u64_extent l ->
  zsub p q (24 * zlen l) = words_of extent_words l -> get_extents p q (zlen l) = l.
Proof.
  intros Hq Hl Hs. apply (get_words extent_words
    (fun p q => mkExtent (getLE 8 p q) (getLE 8 p (q + 8)) (getLE 8 p (q + 16))) u64_extent 3); [done|lia|done| |done|done].
  clear. intros [a b c] p q (H1 & H2 & H3) Hq Hs. cbn in H1, H2, H3. rewrite <- (Z.add_0_r q) at 1.
  f_equal; [eapply (word_get _ _ _ _ 0)|eapply (word_get _ _ _ _ 1)|eapply (word_get _ _ _ _ 2)]; (exact Hs || done).
Qed.

Lemma get_ranges_words p q l : 0 <= q -> Forall u64_range l ->
  zsub p q (16 * zlen l) = words_of range_words l -> get_ranges p q (zlen l) = l.
Proof.
  intros Hq Hl Hs. apply (get_words range_words
    (fun p q => mkRange (getLE 8 p q) (getLE 8 p (q + 8))) u64_range 2); [done|lia|done| |done|done].
  clear. intros [a b] p q (H1 & H2) Hq Hs. cbn in H1, H2. rewrite <- (Z.add_0_r q) at 1.
  f_equal; [eapply (word_get _ _ _ _ 0)|eapply (word_get _ _ _ _ 1)]; (exact Hs || done).
Qed.

Lemma get_origs_words p q l : 0 <= q -> Forall u64_orig l ->
  zsub p q (32 * zlen l) = words_of orig_words l -> get_origs p q (zlen l) = l.
Proof.
  intros Hq Hl Hs. apply (get_words orig_words
    (fun p q => mkOrig (getLE 8 p q) (getLE 8 p (q + 8)) (getLE 8 p (q + 16)) (getLE 8 p (q + 24))) u64_orig 4);
    [done|lia|done| |done|done].
  clear. intros [a b c d] p q (H1 & H2 & H3 & H4) Hq Hs. cbn in H1, H2, H3, H4. rewrite <- (Z.add_0_r q) at 1.
  f_equal; [eapply (word_get _ _ _ _ 0)|eapply (word_get _ _ _ _ 1)|eapply (word_get _ _ _ _ 2)|
            eapply (word_get _ _ _ _ 3)]; (exact Hs || done).
Qed.

(** ** The round trip *)
Record wf (m : ReplicaMeta) : Prop := {
  wf_sound : sound m;
  wf_tdata : tdataBytes m < p63;
  wf_key : Forall is_byte (key m);
  wf_scalars : is_u32 (flags m) /\ is_byte (encoding m) /\ is_u32 (encoderVersion m) /\ is_u64 (originMtime m) /\
               is_byte (cksumKind m) /\ is_u32 (originCksum m)
}.

Lemma rep_layout_plain kl ne ns no np : 0 <= kl <= kMaxKeyLen -> 0 <= ne <= kMaxExtents -> 0 <= ns <= kMaxSuperseded ->
  0 <= no <= kMaxOrigMap -> 0 <= np < 2 ^ 48 ->
  let l := layout kHeaderSize kl ne ns no np in
  80 + kl <= extOff l /\ supOff l = extOff l + 24 * ne /\ omOff l = supOff l + 16 * ns /\
  crcsOff l = omOff l + 32 * no /\ total l = crcsOff l + 4 * np /\ total l < 2 ^ 52.
Proof.
  unfold kMaxKeyLen, kMaxExtents, kMaxSuperseded, kMaxOrigMap. change (2 ^ 20) with 1048576. change (2 ^ 22) with 4194304.
  change (2 ^ 24) with 16777216. change (2 ^ 48) with 281474976710656. change (2 ^ 52) with 4503599627370496.
  intros ? ? ? ? ?. unfold layout, kHeaderSize, kOrigRangeBytes. cbn [extOff supOff omOff crcsOff total].
  rewrite (w64_small (80 + kl)) by lia. rewrite Meta.align8_plain by lia.
  pose proof (Z.div_mod (80 + kl + 7) 8). pose proof (Z.mod_pos_bound (80 + kl + 7) 8).
  set (e := 8 * ((80 + kl + 7) / 8)) in *. assert (80 + kl <= e <= 80 + kl + 7) by lia. clearbody e. nowrap. lia.
Qed.

Lemma rep_npages_of_plain n : 0 <= n < p63 -> npages_of n = (n + kOverlayPageSize - 1) / kOverlayPageSize /\
  0 <= npages_of n < 2 ^ 48.
Proof.
  intros. unfold npages_of, kOverlayPageSize in *. change (2 ^ 48) with 281474976710656. nowrap.
  split; [done|]. split; [apply Z.div_pos; lia|apply Z.div_lt_upper_bound; lia].
Qed.

Section roundtrip.
Context `{CK : Checksum}.
Context (m : ReplicaMeta) (Hm : wf m).
Let L := layout_of m.
Let buf := write_all (fields m) (zeros (total L)).

Lemma wf_ranges :
  0 <= zlen (key m) <= kMaxKeyLen /\ 0 <= zlen (extents m) <= kMaxExtents /\
  0 <= zlen (superseded m) <= kMaxSuperseded /\ 0 <= zlen (origMap m) <= kMaxOrigMap /\ 0 <= npages m < 2 ^ 48.
Proof using Hm.
  destruct (sd_counts _ (wf_sound _ Hm)) as (? & ? & ? & ?). destruct (sd_widths _ (wf_sound _ Hm)) as (_ & _ & [? _] & _).
  pose proof (wf_tdata _ Hm). pose proof (zlen_nonneg (key m)). pose proof (zlen_nonneg (extents m)).
  pose proof (zlen_nonneg (superseded m)). pose proof (zlen_nonneg (origMap m)).
  destruct (rep_npages_of_plain (tdataBytes m)) as [_ ?]; [lia|]. repeat (split; [lia|]). done.
Qed.

Lemma layout_of_plain :
  80 + zlen (key m) <= extOff L /\ supOff L = extOff L + 24 * zlen (extents m) /\
  omOff L = supOff L + 16 * zlen (superseded m) /\ crcsOff L = omOff L + 32 * zlen (origMap m) /\
  total L = crcsOff L + 4 * npages m /\ total L < 2 ^ 52.
Proof using Hm. destruct wf_ranges as (? & ? & ? & ? & ?). by apply rep_layout_plain. Qed.

Lemma crcs_take : take (Z.to_nat (npages m)) (pageCrcs m) = pageCrcs m.
Proof using Hm. destruct (sd_crcs _ (wf_sound _ Hm)) as [E _]. apply take_ge. unfold zlen in E. lia. Qed.

Lemma rep_fields_fit : fields_ok 0 (total L) (fields m).
Proof using Hm.
  destruct layout_of_plain as (? & ? & ? & ? & ? & ?). destruct wf_ranges as (? & ? & ? & ? & ?).
  destruct (sd_crcs _ (wf_sound _ Hm)) as [Ec _]. unfold fields. fold L. rewrite crcs_take. cbn [fields_ok].
  rewrite ?zlen_le_bytes, ?zlen_le_array, (words_len extent_words 3), (words_len range_words 2), (words_len orig_words 4) by done.
  change (zlen kMagic) with 4. unfold kHeaderSize, kOrigMapCountOff in *. rewrite Ec. lia.
Qed.

Lemma total_ge : 80 <= total L.
Proof using Hm. destruct layout_of_plain as (? & ? & ? & ? & ? & ?). destruct wf_ranges as (? & ? & ? & ? & ?). lia. Qed.

Lemma serialize_sealed : serialize m = sealed (fields m) (total L) kCrcFieldOff (crc 0 buf).
Proof using. done. Qed.

Ltac fit := first [apply rep_fields_fit | pose proof total_ge; unfold kCrcFieldOff; lia].

Lemma rep_zlen_serialize : zlen (serialize m) = total L.
Proof using Hm. rewrite serialize_sealed. apply zlen_sealed; fit. Qed.

Lemma fields_bytes : Forall (fun f => Forall is_byte (snd f)) (fields m).
Proof using Hm.
  pose proof (wf_key _ Hm). assert (Forall is_byte kMagic) by (repeat constructor; vm_compute; congruence).
  unfold fields, words_of. repeat (apply Forall_cons_2; [cbn [snd]; first [apply le_bytes_is_byte | apply le_array_bytes | done]|]).
  apply Forall_nil_2.
Qed.

Lemma rep_serialize_bytes : Forall is_byte (serialize m).
Proof using Hm. rewrite serialize_sealed. apply sealed_bytes, fields_bytes. Qed.

Lemma rep_buf_crc_hole : zsub buf kCrcFieldOff 4 = zeros 4.
Proof using Hm.
  pose proof total_ge. pose proof rep_fields_fit. destruct layout_of_plain as (? & ? & ? & ? & ? & ?).
  destruct wf_ranges as (? & ? & ? & ? & ?).
  unfold buf, kCrcFieldOff. rewrite (write_all_hole _ _ 0); [apply zsub_zeros; lia|lia| |lia|lia|].
  { by rewrite zlen_zeros by lia. }
  intros f Hf. unfold fields in Hf. fold L in Hf. unfold kHeaderSize, kOrigMapCountOff in Hf.
  repeat (apply elem_of_cons in Hf as [->|Hf];
    [cbn [fst snd]; rewrite ?zlen_le_bytes; change (zlen kMagic) with 4; lia|]).
  by apply elem_of_nil in Hf.
Qed.

Lemma rep_crc_field_ok : getLE 4 (serialize m) kCrcFieldOff = crc 0 (putLE 4 (serialize m) kCrcFieldOff 0).
Proof using Hm.
  pose proof total_ge. rewrite serialize_sealed. rewrite sealed_seal; [|fit..|].
  - unfold sealed. fold buf. rewrite putLE_zero_back; [done|unfold kCrcFieldOff; lia| |apply rep_buf_crc_hole].
    unfold buf. rewrite sealed_buf_len with (c := kCrcFieldOff); fit.
  - apply (crc_u32 0); [unfold is_u32; lia|]. apply write_all_bytes; [apply Forall_zeros|apply fields_bytes].
Qed.

Lemma f_get k o v : (o, le_bytes k v) ∈ fields m -> 0 <= o -> (o + Z.of_nat k <= 68 \/ 72 <= o) ->
  0 <= v < p8 ^ Z.of_nat k -> getLE k (serialize m) o = v.
Proof using Hm. intros. rewrite serialize_sealed. apply sealed_get; first [done | fit]. Qed.

Lemma f_sub o x n : (o, x) ∈ fields m -> n = zlen x -> 0 <= o -> (o + n <= 68 \/ 72 <= o) -> zsub (serialize m) o n = x.
Proof using Hm. intros. rewrite serialize_sealed. apply sealed_sub; first [done | fit]. Qed.

Ltac side := match goal with
  | |- _ ∈ _ => unfold fields; fold L; rewrite ?crcs_take; solve [repeat (apply elem_of_cons; first [left; reflexivity | right])]
  | |- _ => change (zlen kMagic) with 4; change (p8 ^ Z.of_nat 4) with p32;
            change (p8 ^ Z.of_nat 8) with p64; change (p8 ^ Z.of_nat 1) with p8; unfold kFormatVersion; lia
  end.

Lemma get_counts :
  getLE 4 (serialize m) 56 = zlen (key m) /\ getLE 4 (serialize m) 60 = zlen (extents m) /\
  getLE 4 (serialize m) 64 = zlen (superseded m) /\ getLE 4 (serialize m) 72 = zlen (origMap m).
Proof using Hm.
  destruct wf_ranges as (H1 & H2 & H3 & H4 & _). revert H1 H2 H3 H4. unfold kMaxKeyLen, kMaxExtents, kMaxSuperseded, kMaxOrigMap.
  change (2 ^ 20) with 1048576. change (2 ^ 22) with 4194304. change (2 ^ 24) with 16777216. intros.
  rewrite (f_get 4 56 (w32 (zlen (key m)))), (f_get 4 60 (w32 (zlen (extents m)))),
    (f_get 4 64 (w32 (zlen (superseded m)))), (f_get 4 72 (w32 (zlen (origMap m)))) by (first [apply w32_range | side]).
  rewrite !w32_small by lia. done.
Qed.

Lemma get_arrays :
  get_extents (serialize m) (extOff L) (zlen (extents m)) = extents m /\
  get_ranges (serialize m) (supOff L) (zlen (superseded m)) = superseded m /\
  get_origs (serialize m) (omOff L) (zlen (origMap m)) = origMap m /\
  get_array 4 (serialize m) (crcsOff L) (npages m) = pageCrcs m.
Proof using Hm.
  destruct layout_of_plain as (? & ? & ? & ? & ? & ?). destruct wf_ranges as (? & ? & ? & ? & ?).
  destruct (sd_widths _ (wf_sound _ Hm)) as (_ & _ & _ & ? & ? & ?). destruct (sd_crcs _ (wf_sound _ Hm)) as [Ec Hc].
  split; [|split; [|split]].
  - apply get_extents_words; [lia|done|]. apply f_sub; [side|by rewrite (words_len _ 3)|lia|lia].
  - apply get_ranges_words; [lia|done|]. apply f_sub; [side|by rewrite (words_len _ 2)|lia|lia].
  - apply get_origs_words; [lia|done|]. apply f_sub; [side|by rewrite (words_len _ 4)|lia|lia].
  - rewrite <- Ec. apply get_array_le_array; [lia| |rewrite rep_zlen_serialize; lia|done].
    apply f_sub; [side|by rewrite zlen_le_array|lia|lia].
Qed.

Lemma rep_deserialize_serialize : deserialize (serialize m) = Some m.
Proof using Hm.
  pose proof total_ge. destruct get_counts as (E1 & E2 & E3 & E4). destruct get_arrays as (G1 & G2 & G3 & G4).
  destruct wf_ranges as (R1 & R2 & R3 & R4 & R5). destruct Hm as [Hs Ht Hk (S1 & S2 & S3 & S4 & S5 & S6)].
  destruct (sd_widths _ Hs) as (V1 & V2 & V3 & V4 & V5 & V6). unfold is_u32, is_u64, is_byte in *.
  unfold deserialize. rewrite rep_zlen_serialize. rewrite (f_sub 0 kMagic) by side.
  rewrite (f_get 4 4 kFormatVersion) by side. rewrite (f_get 8 48 (tdataBytes m)) by side. unfold kOrigMapCountOff.
  rewrite E1, E2, E3, E4, rep_crc_field_ok. change (bytes_eqb kMagic kMagic) with true.
  replace (total L <? kHeaderSizeV1) with false by (symmetry; apply Z.ltb_ge; unfold kHeaderSizeV1; lia).
  replace (total L <? kHeaderSize) with false by (symmetry; apply Z.ltb_ge; unfold kHeaderSize; lia).
  change (kFormatVersion =? kFormatVersion) with true. cbn [orb negb andb].
  rewrite !(proj2 (Z.ltb_ge _ _)) by lia. cbn [orb]. fold (npages m). fold (layout_of m). fold L.
  rewrite !Z.eqb_refl. cbn [negb]. rewrite G1, G2, G3, G4.
  rewrite (f_sub kHeaderSize (key m)) by (first [reflexivity | unfold kHeaderSize; side]).
  rewrite (f_get 4 8 (flags m)), (f_get 1 12 (encoding m)), (f_get 4 36 (encoderVersion m)), (f_get 8 16 (originSize m)),
    (f_get 8 24 (originMtime m)), (f_get 1 13 (cksumKind m)), (f_get 4 32 (originCksum m)), (f_get 8 40 (virtualSize m)) by side.
  cbn [virtualSize originSize tdataBytes extents superseded].
  rewrite (proj2 (Z.ltb_ge _ _)) by apply (sd_size _ Hs).
  rewrite (proj2 (extents_ok_spec _ _ 0 _ V4 (proj2 V2) (proj2 V3)) (sd_extents _ Hs)).
  rewrite (proj2 (superseded_ok_spec _ _ V5 (proj2 V1)) (sd_superseded _ Hs)). cbn [negb]. by destruct m.
Qed.
End roundtrip.

(** the sidecar codec of a replica round-trips: a well-formed sidecar serializes to
    an image of the layout's size, and that image passes the version, count,
    size, CRC and structural gates and decodes to the same sidecar. *)
Theorem replica_roundtrip `{CK : Checksum} (m : ReplicaMeta) (Hm : wf m) :
  zlen (serialize m) = total (layout_of m) /\ deserialize (serialize m) = Some m.
Proof. split; [by apply rep_zlen_serialize|by apply rep_deserialize_serialize]. Qed.

(** C39: whatever bytes are on disk, a sidecar [deserialize] accepts can be trusted blindly
    by the serving layer: the origin fits in the virtual file, the extents are
    non-empty, sorted, disjoint, inside the virtual file and inside the overlay
    (in exact arithmetic, no wrap-around), every superseded range is inside the
    origin, the counts are within their bounds, and there is one 32-bit CRC per
    overlay page. *)
Theorem replica_deserialize_sound `{CK : Checksum} (p : bytes) (m : ReplicaMeta)
    (Hp : Forall is_byte p) (Hd : deserialize p = Some m) : sound m.
Proof. by eapply deserialize_sound_lemma. Qed.

(** A replica with two extents over one overlay page. *)
Definition demo : ReplicaMeta :=
  mkRep 0 kZstd1 10500 1000 7 1 99 1300 200 (bs "/store/a.root") [mkExtent 100 50 0; mkExtent 1000 150 50]
    [mkRange 100 40; mkRange 200 60] [mkOrig 100 50 100 40] [12345].

Ltac all_ok := unfold u64_extent, u64_range, u64_orig, is_u64, is_u32, is_byte; cbn;
  repeat (apply Forall_cons_2; [cbn; lia|]); first [apply Forall_nil_2 | lia].

Lemma rep_demo_wf : wf demo.
Proof.
  split; [|cbn; lia|all_ok|repeat split; vm_compute; congruence].
  split; [cbn; lia|cbn; unfold ext_end; cbn; lia|all_ok|repeat split; vm_compute; congruence|split; [reflexivity|all_ok]|].
  repeat (split; [all_ok|]). all_ok.
Qed.

Lemma replica_roundtrip_witness : wf demo /\ deserialize (serialize demo) = Some demo.
Proof. split; [exact rep_demo_wf|]. apply (replica_roundtrip demo rep_demo_wf). Defined.

Lemma replica_deserialize_sound_witness :
  Forall is_byte (serialize demo) /\ deserialize (serialize demo) = Some demo /\ sound demo.
Proof.
  assert (Forall is_byte (serialize demo)) as Hb by apply (rep_serialize_bytes demo rep_demo_wf).
  assert (deserialize (serialize demo) = Some demo) as Hd by apply (rep_deserialize_serialize demo rep_demo_wf).
  split; [exact Hb|]. split; [exact Hd|]. exact (replica_deserialize_sound _ _ Hb Hd).
Defined.
End Replica.
