(* ===== verification/ReplicaStore.v ===== *)
(** * Replica views and their lifecycle (src/core/ReplicaStore.h, ReplicaStore.cc)

    [ReplicaView] serves stitched ranges: [map] splits a virtual range into
    overlay and origin pieces, [originRanges] names the original ranges behind
    it, [read] returns overlay bytes whose page CRCs were verified. [ReplicaStore]
    publishes a replica in an order no crash can turn into a servable torn view,
    adopts one after validating it, drops it, and punches the superseded ranges
    of the byte tier. *)

From S2P Require Import Prelude IOBackend Crc32c Config UrlKey MetaFile FileEntry SlotStore ReplicaFile.

Module RStore.
Import Replica.

(** ** The view's pieces *)
Record Seg := mkSeg { overlay : bool; soff : Z; slen : Z; stdata : Z }.

(** [std::lower_bound] with the predicate "ends at or before [o]": on a range the
    predicate partitions, the suffix that starts at the first element past [o]. *)
Fixpoint lower_bound {A} (before : A -> bool) (l : list A) : list A :=
  match l with
  | [] => []
  | x :: l' => if before x then lower_bound before l' else l
  end.

Fixpoint map_from (l : list Extent) (pos end_ : Z) : list Seg :=
  if negb (pos <? end_) then []
  else
    match l with
    | [] => [mkSeg false pos (end_ -% pos) 0]
    | e :: l' =>
        if end_ <=? virtOff e then [mkSeg false pos (end_ -% pos) 0]
        else
          let gap := if pos <? virtOff e then [mkSeg false pos (virtOff e -% pos) 0] else [] in
          let pos := if pos <? virtOff e then virtOff e else pos in
          let segEnd := Z.min end_ (virtOff e +% elen e) in
          if pos <? segEnd
          then gap ++ mkSeg true pos (segEnd -% pos) (tdataOff e +% (pos -% virtOff e)) :: map_from l' segEnd end_
          else gap ++ map_from l' pos end_
    end.

Definition map (m : ReplicaMeta) (off len : Z) : list Seg :=
  if virtualSize m <=? off then []
  else
    let end_ := Z.min (off +% len) (virtualSize m) in
    if end_ <=? off then []
    else map_from (lower_bound (fun e => virtOff e +% elen e <=? off) (extents m)) off end_.

(** Bytes the overlay does not carry are origin bytes below [originSize]. *)
Definition passThrough (originSize a b : Z) : list Range :=
  let hi := Z.min b originSize in
  if a <? hi then [mkRange a (hi -% a)] else [].

Fixpoint origin_from (originSize : Z) (l : list OrigRange) (pos end_ : Z) : list Range :=
  if negb (pos <? end_) then []
  else
    match l with
    | [] => passThrough originSize pos end_
    | o :: l' =>
        if end_ <=? ovirt o then passThrough originSize pos end_
        else
          let gap := if pos <? ovirt o then passThrough originSize pos (ovirt o) else [] in
          let pos := if pos <? ovirt o then ovirt o else pos in
          let segEnd := Z.min end_ (ovirt o +% olen o) in
          if pos <? segEnd
          then gap ++ mkRange (origOff o) (origLen o) :: origin_from originSize l' segEnd end_
          else gap ++ origin_from originSize l' pos end_
    end.

Definition originRanges (m : ReplicaMeta) (off len : Z) (out : list Range) : list Range :=
  if match origMap m with [] => true | _ => false end || (len =? 0) then out
  else
    let end_ := Z.min (off +% len) (virtualSize m) in
    if end_ <=? off then out
    else out ++ origin_from (originSize m) (lower_bound (fun o => ovirt o +% olen o <=? off) (origMap m)) off end_.

Definition hasOriginMap (m : ReplicaMeta) : bool := match origMap m with [] => false | _ => true end.

(** ** The counters of [Stats] this component moves *)
Inductive rctr := replicaReads | replicaReadBytes | replicaCrcFailures | replicaInvalid | replicaOpens
  | replicaPublished | replicaPunchedBytes.
#[global] Instance rctr_eq : EqDecision rctr.
Proof. solve_decision. Defined.

Record ReplicaView := mkView { meta_ : ReplicaMeta; fd_ : Z; invalid_ : bool }.
Definition invalidated (v : ReplicaView) : ReplicaView := mkView (meta_ v) (fd_ v) true.

Definition kMaxCoalescedRead : Z := Z.shiftl 1 20.

(** The last page of the run that starts at [rf]: [while (rl + 1 < stop && ...)]. *)
Fixpoint run_end (fuel : nat) (m : ReplicaMeta) (rf rl stop : Z) : Z :=
  match fuel with
  | O => rl
  | S fuel' =>
      if (rl + 1 <? stop) && (runBytes m rf (rl + 1) <=? kMaxCoalescedRead) then run_end fuel' m rf (rl + 1) stop else rl
  end.

Section checksum.
Context `{CK : Checksum}.
(** The CRC of every page of a run against the sidecar's; [got] bytes arrived. *)
Fixpoint verify_run (m : ReplicaMeta) (got : Z) (b : bytes) (o : Z) (l : list Z) : bool :=
  match l with
  | [] => true
  | i :: l' =>
      let nbytes := pageBytes m i in
      if (got <? o +% nbytes) || negb (crc 0 (zsub b o nbytes) =? zget (pageCrcs m) i) then false
      else verify_run m got b (o +% nbytes) l'
  end.
End checksum.

Section store.
Context {W : Type} `{!IOBackend W} `{CK : Checksum}.

Record World := mkWorld { io_ : W; stats_ : rctr -> Z }.
Definition io {A} (x : M W A) : M World A := fun s => let '(a, w) := x (io_ s) in (a, mkWorld w (stats_ s)).
Definition bump (c : rctr) (n : Z) : M World unit := fun s =>
  (tt, mkWorld (io_ s) (fun c' => if decide (c' = c) then stats_ s c' +% n else stats_ s c')).

(** ** Reading overlay bytes

    The result, the caller's buffer and the view. A run inside the request is
    read straight into the buffer, so bytes that then fail may be in it. *)
Fixpoint read_loop (fuel : nat) (v : ReplicaView) (off len rf last_ : Z) (out : bytes)
    : M World (option (bool * bytes * ReplicaView)) :=
  match fuel with
  | O => ret None
  | S fuel' =>
      if negb (rf <=? last_) then ret (Some (true, out, v))
      else
        let m := meta_ v in
        let rl := run_end (Z.to_nat (last_ - rf)) m rf rf (last_ + 1) in
        let rStart := rf *% kOverlayPageSize in
        let rBytes := runBytes m rf rl in
        let direct := (off <=? rStart) && (rStart +% rBytes <=? off +% len) in
        do rb <- io (preadFull (fd_ v) rBytes rStart);
        let got := if 0 <? fst rb then fst rb else 0 in
        let out := if direct then zsplice out (rStart -% off) (snd rb) else out in
        if negb (verify_run m got (snd rb) 0 (zrange rf (rl + 1))) then
          do_ bump replicaCrcFailures 1;
          ret (Some (false, out, invalidated v))
        else
          do_ bump replicaReads 1;
          do_ bump replicaReadBytes rBytes;
          let cStart := Z.max off rStart in
          let cEnd := Z.min (off +% len) (rStart +% rBytes) in
          let out := if direct then out else zsplice out (cStart -% off) (zsub (snd rb) (cStart -% rStart) (cEnd -% cStart)) in
          read_loop fuel' v off len (rl + 1) last_ out
  end.

Definition read (v : ReplicaView) (off len : Z) (out : bytes) : M World (option (bool * bytes * ReplicaView)) :=
  if len =? 0 then ret (Some (true, out, v))
  else if (off +% len <? off) || (tdataBytes (meta_ v) <? off +% len) then ret (Some (false, out, invalidated v))
  else
    let first := off / kOverlayPageSize in
    let last_ := (off +% len -% 1) / kOverlayPageSize in
    read_loop (S (S (Z.to_nat (last_ - first)))) v off len first last_ out.

Definition destroy (v : ReplicaView) : M World Z := if 0 <=? fd_ v then io (io_close (fd_ v)) else ret 0.

(** ** Paths *)
Context (cfg : Config.Config).
Definition tdataPath (k : UrlKey.UrlKey) : bytes :=
  UrlKey.objectDir k (Config.cacheDir cfg) ++ bs "/" ++ UrlKey.hashHex k ++ bs ".tdata".
Definition tmetaPath (k : UrlKey.UrlKey) : bytes :=
  UrlKey.objectDir k (Config.cacheDir cfg) ++ bs "/" ++ UrlKey.hashHex k ++ bs ".tmeta".
Definition tokPath (k : UrlKey.UrlKey) : bytes :=
  UrlKey.objectDir k (Config.cacheDir cfg) ++ bs "/" ++ UrlKey.hashHex k ++ bs ".tok".

(** ** The verify-once marker *)
Definition kTokMagic : bytes := bs "UCTV".
Definition mtimeNs (st : stat_t) : Z := w64 (st_mtime st) *% 1000000000 +% w64 (st_mtime_ns st).
Definition tokImage (tdataBytes mtNs : Z) (m : ReplicaMeta) : bytes :=
  let buf := zsplice (zeros 28) 0 kTokMagic in
  let buf := putLE 8 buf 4 tdataBytes in
  let buf := putLE 8 buf 12 mtNs in
  let buf := putLE 4 buf 20 (crc 0 (le_array 4 (pageCrcs m))) in
  putLE 4 buf 24 (crc 0 (zsub buf 0 24)).
Definition tokWrite (path : bytes) (tdataBytes mtNs : Z) (m : ReplicaMeta) : M W unit :=
  do fd <- io_open path O_WRONLY_CREAT_TRUNC;
  if fd <? 0 then ret tt
  else
    do_ pwriteFull fd (tokImage tdataBytes mtNs m) 0;
    do_ io_close fd;
    ret tt.
Definition tokMatches (path : bytes) (tdataBytes mtNs : Z) (m : ReplicaMeta) : M W bool :=
  do fd <- io_open path O_RDONLY;
  if fd <? 0 then ret false
  else
    do r <- preadFull fd 28 0;
    do_ io_close fd;
    ret ((fst r =? 28) && bytes_eqb (snd r) (tokImage tdataBytes mtNs m)).

Definition drop (k : UrlKey.UrlKey) : M W unit :=
  do_ io_unlink (tmetaPath k);
  do_ io_unlink (tdataPath k);
  do_ io_unlink (tokPath k);
  do_ io_unlink (tmetaPath k ++ bs ".tmp");
  do_ io_unlink (tdataPath k ++ bs ".tmp");
  ret tt.

(** ** Publish *)
Definition page_crcs (tdataBytes : Z) (tdata : bytes) : list Z :=
  List.map (fun i => crc 0 (zsub tdata (i *% kOverlayPageSize) (pageBytes_of tdataBytes i))) (zrange 0 (npages_of tdataBytes)).
(** The sidecar with the integrity data of the payload. *)
Definition with_payload (m : ReplicaMeta) (k : bytes) (tdata : bytes) : ReplicaMeta :=
  mkRep (flags m) (encoding m) (encoderVersion m) (originSize m) (originMtime m) (cksumKind m) (originCksum m)
    (virtualSize m) (zlen tdata) k (extents m) (superseded m) (origMap m) (page_crcs (zlen tdata) tdata).

(** Overlay bytes into [dTmp], synced, closed and renamed over [dPath]. *)
Definition publish_tdata (dPath tdata : bytes) : M W Z :=
  let dTmp := dPath ++ bs ".tmp" in
  do fd <- io_open dTmp O_WRONLY_CREAT_TRUNC;
  if fd <? 0 then ret fd
  else
    do w <- pwriteFull fd tdata 0;
    let rc := if negb (w =? zlen tdata) then (if w <? 0 then w else -EIO) else 0 in
    do rc <- (if rc =? 0 then io_fdatasync fd else ret rc);
    do crc_ <- io_close fd;
    let rc := if (rc =? 0) && (crc_ <? 0) then crc_ else rc in
    do rc <- (if rc =? 0 then io_rename dTmp dPath else ret rc);
    if negb (rc =? 0) then do_ io_unlink dTmp; ret rc
    else ret 0.

Definition publish_files (k : UrlKey.UrlKey) (m : ReplicaMeta) (tdata : bytes) : M W Z :=
  let dir := UrlKey.objectDir k (Config.cacheDir cfg) in
  do rc <- io_mkdirs dir;
  if rc <? 0 then ret rc
  else
    do busy <- Slots.serving dir (UrlKey.hashHex k);
    if (busy : bool) then ret (-EEXIST)
    else
      let dPath := tdataPath k in
      do rc <- publish_tdata dPath tdata;
      if negb (rc =? 0) then ret rc
      else
        do rc <- store (tmetaPath k) m true;
        if negb (rc =? 0) then do_ io_unlink dPath; ret rc
        else
          do busy <- Slots.serving dir (UrlKey.hashHex k);
          if (busy : bool) then
            do_ io_unlink (tmetaPath k);
            do_ io_unlink dPath;
            ret (-EEXIST)
          else
            do st <- io_stat dPath;
            do_ (if fst st =? 0 then tokWrite (tokPath k) (w64 (st_size (snd st))) (mtimeNs (snd st)) m else ret tt);
            ret 0.

Definition publish (k : UrlKey.UrlKey) (meta : ReplicaMeta) (tdata : bytes) : M World Z :=
  let m := with_payload meta (UrlKey.key k) tdata in
  match deserialize (serialize m) with
  | None => ret (-EINVAL)
  | Some _ =>
      do rc <- io (publish_files k m tdata);
      if rc =? 0 then do_ bump replicaPublished 1; ret 0 else ret rc
  end.

(** ** Adoption *)
Definition adoptable (m : ReplicaMeta) (k : bytes) (originSize_ originMtime_ cksumKind_ originCksum_ : Z) : bool :=
  bytes_eqb (key m) k && (originSize m =? originSize_) && (kZstd1 <=? encoding m) && (encoding m <=? kRaw) &&
  (if decide (Config.validate cfg = Config.VSizeMtime) then originMtime m =? originMtime_ else true) &&
  (if decide (Config.validate cfg = Config.VCksum) then
     if negb (cksumKind_ =? 0) then (cksumKind m =? cksumKind_) && (originCksum m =? originCksum_) else true
   else true).

(** The open-time verify of every overlay page. *)
Fixpoint scan_loop (fuel : nat) (fd : Z) (m : ReplicaMeta) (rf : Z) : M W (option bool) :=
  match fuel with
  | O => ret None
  | S fuel' =>
      if negb (rf <? npages m) then ret (Some true)
      else
        let rl := run_end (Z.to_nat (npages m - 1 - rf)) m rf rf (npages m) in
        let rBytes := runBytes m rf rl in
        do rb <- preadFull fd rBytes (rf *% kOverlayPageSize);
        let got := if 0 <? fst rb then fst rb else 0 in
        if negb (verify_run m got (snd rb) 0 (zrange rf (rl + 1))) then ret (Some false)
        else scan_loop fuel' fd m (rl + 1)
  end.
Definition full_verify (fd : Z) (m : ReplicaMeta) : M W (option bool) :=
  scan_loop (S (Z.to_nat (npages m))) fd m 0.

Definition quarantine (k : UrlKey.UrlKey) : M World (option ReplicaView) :=
  do_ bump replicaInvalid 1;
  do_ io (drop k);
  ret None.

(** The outer [option] is the fuel of the scan. *)
Definition openView (k : UrlKey.UrlKey) (originSize_ originMtime_ cksumKind_ originCksum_ : Z)
    : M World (option (option ReplicaView)) :=
  let quar := do v <- quarantine k; ret (Some v) in
  do st <- io (io_stat (tmetaPath k));
  if fst st <? 0 then ret (Some None)
  else
    do om <- io (load (tmetaPath k));
    match om with
    | None => quar
    | Some m =>
        if negb (adoptable m (UrlKey.key k) originSize_ originMtime_ cksumKind_ originCksum_) then quar
        else
          do fd <- io (io_open (tdataPath k) O_RDONLY);
          if fd <? 0 then quar
          else
            do dst <- io (io_fstat fd);
            if (fst dst <? 0) || negb (w64 (st_size (snd dst)) =? tdataBytes m) then do_ io (io_close fd); quar
            else
              do known <- io (tokMatches (tokPath k) (tdataBytes m) (mtimeNs (snd dst)) m);
              do ok <- (if (known : bool) then ret (Some true) else
                do ok <- io (full_verify fd m);
                match ok with
                | Some true =>
                    do_ io (tokWrite (tokPath k) (tdataBytes m) (mtimeNs (snd dst)) m);
                    ret (Some true)
                | Some false =>
                    do_ bump replicaCrcFailures 1;
                    do_ io (io_close fd);
                    ret (Some false)
                | None => ret None
                end);
              match ok with
              | None => ret None
              | Some false => quar
              | Some true =>
                  do_ bump replicaOpens 1;
                  ret (Some (Some (mkView m fd false)))
              end
    end.
End store.

(** ** Punch-and-clear: the byte tier gives up the superseded original ranges *)
Definition punchSuperseded {W} `{!IOBackend W} `{CK : Checksum} (cfg : Config.Config) (ukey : UrlKey.UrlKey)
    (clockS : nat -> Z) (ranges : list Range) : M (@Entry.St W * (rctr -> Z)) Z := fun s =>
  let spans := List.map (fun r => (roff r, rlen r)) ranges in
  let '(punched, e) := Entry.releaseRanges cfg ukey clockS spans (fst s) in
  (punched, (e, fun c => if decide (c = replicaPunchedBytes) then snd s c +% punched else snd s c)).
End RStore.
