(* ===== verification/ReplicaView.v ===== *)
(** * What a replica view serves (src/core/ReplicaStore.cc, ReplicaView)

    [map] against a byte-by-byte reference, [originRanges] against the ranges it
    must name, and [read] against the file behind the view: bytes are returned
    only after every touched page's CRC matched. *)

From S2P Require Import Prelude IOBackend Crc32c ReplicaFile ReplicaStore.

Module RView.
Import Replica RStore.
Implicit Types (e : Extent) (m : ReplicaMeta).

(** ** Reference: where one virtual byte comes from *)
Definition inside (e : Extent) (x : Z) : bool := (virtOff e <=? x) && (x <? ext_end e).
Definition source (l : list Extent) (x : Z) : option Z :=
  match List.find (fun e => inside e x) l with
  | Some e => Some (tdataOff e + (x - virtOff e))
  | None => None
  end.
(** The bytes of a segment with their sources. *)
Definition seg_bytes (s : Seg) : list (Z * option Z) :=
  List.map (fun k => (soff s + k, if overlay s then Some (stdata s + k) else None)) (zrange 0 (slen s)).
Definition stitched (l : list Extent) (a b : Z) : list (Z * option Z) :=
  List.map (fun x => (x, source l x)) (zrange a b).

Lemma map_zrange_shift {A} (f : Z -> A) a n : List.map (fun k => f (a + k)) (zrange 0 n) = List.map f (zrange a (a + n)).
Proof.
  unfold zrange. rewrite Z.sub_0_r. replace (a + n - a) with n by lia.
  replace (seqZ a n) with (Z.add a <$> seqZ 0 n) by (rewrite fmap_add_seqZ; f_equal; lia).
  symmetry. apply map_map.
Qed.

Lemma seg_bytes_eq (ov : bool) a n t l :
  (forall x, a <= x < a + n -> source l x = if ov then Some (t + (x - a)) else None) ->
  seg_bytes (mkSeg ov a n t) = stitched l a (a + n).
Proof.
  intros H. unfold seg_bytes, stitched. cbn [soff slen overlay stdata].
  rewrite <- (map_zrange_shift (fun x => (x, source l x))). apply map_ext_in. intros k Hk.
  apply list_elem_of_In, elem_of_zrange in Hk. rewrite H by lia.
  destruct ov; [|done]. do 3 f_equal. lia.
Qed.

Lemma stitched_app l a b c : a <= b <= c -> stitched l a c = stitched l a b ++ stitched l b c.
Proof. intros. unfold stitched. by rewrite (zrange_app a b c), List.map_app. Qed.
Lemma stitched_nil l a b : b <= a -> stitched l a b = [].
Proof. intros. unfold stitched. by rewrite zrange_nil. Qed.
Lemma stitched_ext l l' a b : (forall x, a <= x < b -> source l x = source l' x) -> stitched l a b = stitched l' a b.
Proof.
  intros H. apply map_ext_in. intros x Hx. apply list_elem_of_In, elem_of_zrange in Hx. by rewrite H.
Qed.

Section extents.
Context (vs td : Z).

Lemma in_order_after lo l e : in_order vs td lo l -> e ∈ l ->
  lo <= virtOff e /\ 0 < elen e /\ ext_end e <= vs /\ 0 <= tdataOff e /\ tdataOff e + elen e <= td.
Proof.
  revert lo. induction l as [|a l IH]; intros lo; [by intros _ ?%elem_of_nil|]. cbn [in_order].
  intros (? & ? & ? & ? & ? & Hl). rewrite elem_of_cons. intros [->|He]; [repeat split; lia|].
  pose proof (IH _ Hl He). unfold ext_end in *. repeat split; lia.
Qed.

Lemma source_cons e l x :
  source (e :: l) x = if inside e x then Some (tdataOff e + (x - virtOff e)) else source l x.
Proof. unfold source. cbn [List.find]. by destruct (inside e x). Qed.

Lemma source_before lo l x : in_order vs td lo l -> x < lo -> source l x = None.
Proof.
  revert lo. induction l as [|e l IH]; intros lo Hl Hx; [done|]. destruct Hl as (? & ? & ? & ? & ? & Hl).
  rewrite source_cons. unfold inside, ext_end in *. rewrite (proj2 (Z.leb_gt _ _)) by lia. cbn [andb].
  eapply IH; [exact Hl|lia].
Qed.

Definition seg_ok (s : Seg) : Prop := 0 < slen s /\ (overlay s = true -> 0 <= stdata s /\ stdata s + slen s <= td).

(** The walk over the sorted extents yields the reference, piece by piece. *)
Lemma map_from_spec l lo pos end_ : vs < p64 -> td < p64 ->
  in_order vs td lo l -> Forall u64_extent l -> 0 <= pos -> end_ <= vs -> (forall e, e ∈ l -> pos < ext_end e) ->
  concat (List.map seg_bytes (map_from l pos end_)) = stitched l pos end_ /\ Forall seg_ok (map_from l pos end_).
Proof.
  intros Hv Ht Hl Hu. revert lo pos Hl. induction Hu as [|e l (U1 & U2 & U3) Hu IH]; intros lo pos Hl Hp He Hend;
    cbn [map_from]; (destruct (pos <? end_) eqn:E; b2p; cbn [negb]; [|by rewrite stitched_nil by lia]).
  - cbn [List.map concat]. rewrite app_nil_r. rewrite w64_small by lia. split.
    + rewrite (seg_bytes_eq _ _ _ _ []) by done. f_equal. lia.
    + apply Forall_singleton; split; cbn; [lia|done].
  - destruct Hl as (L1 & L2 & L3 & L4 & L5 & Hl). pose proof (Hend e) as Hee. specialize (Hee ltac:(by left)).
    unfold is_u64, ext_end in *.
    assert (forall x, x < virtOff e -> source (e :: l) x = None) as Hb.
    { intros x Hx. eapply (source_before (virtOff e)); [|exact Hx]. cbn [in_order]. unfold ext_end. repeat split; try lia. done. }
    assert (forall x, virtOff e <= x < virtOff e + elen e -> source (e :: l) x = Some (tdataOff e + (x - virtOff e))) as Hi.
    { intros x Hx. rewrite source_cons. unfold inside, ext_end. by rewrite (proj2 (Z.leb_le _ _)), (proj2 (Z.ltb_lt _ _)) by lia. }
    assert (forall x, virtOff e + elen e <= x -> source (e :: l) x = source l x) as Ha.
    { intros x Hx. rewrite source_cons. unfold inside, ext_end. rewrite (proj2 (Z.ltb_ge _ _)) by lia. by rewrite andb_false_r. }
    destruct (end_ <=? virtOff e) eqn:E1; b2p.
    { cbn [List.map concat]. rewrite app_nil_r, w64_small by lia. split.
      - rewrite (seg_bytes_eq _ _ _ _ (e :: l)); [f_equal; lia|]. intros. apply Hb. lia.
      - apply Forall_singleton; split; cbn; [lia|done]. }
    rewrite (w64_small (virtOff e + elen e)) by lia.
    set (p := if pos <? virtOff e then virtOff e else pos). set (gap := if pos <? virtOff e then _ else _).
    set (se := Z.min end_ (virtOff e + elen e)).
    assert (pos <= p /\ virtOff e <= p < se /\ se <= end_ /\ se <= virtOff e + elen e) as (P1 & P2 & P3 & P4)
      by (subst p se; destruct (pos <? virtOff e) eqn:?; b2p; lia).
    assert (concat (List.map seg_bytes gap) = stitched (e :: l) pos p /\ Forall seg_ok gap) as [G1 G2].
    { subst gap p. destruct (pos <? virtOff e) eqn:Eg; b2p; [|by rewrite stitched_nil by lia].
      cbn [List.map concat]. rewrite app_nil_r, w64_small by lia. split.
      - rewrite (seg_bytes_eq _ _ _ _ (e :: l)); [f_equal; lia|]. intros. apply Hb. lia.
      - apply Forall_singleton; split; cbn; [lia|done]. }
    clearbody gap p. rewrite (proj2 (Z.ltb_lt p se)) by lia. rewrite (w64_small (p - virtOff e)), !w64_small by lia.
    destruct (IH (virtOff e + elen e) se) as [I1 I2]; [exact Hl|lia|lia| |].
    { intros a Hx. pose proof (in_order_after _ _ _ Hl Hx). unfold ext_end in *. lia. }
    rewrite List.map_app, concat_app, G1. cbn [List.map concat]. rewrite I1. split.
    + rewrite (stitched_app (e :: l) pos p end_), (stitched_app (e :: l) p se end_) by lia. f_equal. f_equal.
      * rewrite (seg_bytes_eq _ _ _ _ (e :: l)); [f_equal; lia|]. intros x Hx. rewrite Hi by lia. f_equal. lia.
      * apply stitched_ext. intros x Hx. symmetry. apply Ha. subst se. lia.
    + apply Forall_app_2; [done|]. constructor; [|done]. split; cbn; lia.
Qed.
End extents.

Lemma lower_bound_spec {A} (before : A -> bool) l : exists l0, l = l0 ++ lower_bound before l /\ Forall (fun x => before x = true) l0.
Proof.
  induction l as [|x l (l0 & E & H)]; [by exists []|]. cbn [lower_bound]. destruct (before x) eqn:Eb; [|by exists []].
  exists (x :: l0). cbn. rewrite <- E. by repeat constructor.
Qed.

Lemma in_order_drop vs td lo l0 l : in_order vs td lo (l0 ++ l) -> exists lo', lo <= lo' /\ in_order vs td lo' l.
Proof.
  revert lo. induction l0 as [|e l0 IH]; intros lo; [by exists lo|]. cbn. intros (? & ? & ? & ? & ? & H).
  destruct (IH _ H) as (lo' & ? & ?). exists lo'. unfold ext_end in *. split; [lia|done].
Qed.
Lemma in_order_app_dropped vs td lo l0 l x : in_order vs td lo (l0 ++ l) -> (forall e, e ∈ l0 -> ext_end e <= x) ->
  source (l0 ++ l) x = source l x.
Proof.
  revert lo. induction l0 as [|e l0 IH]; intros lo Hl Hx; [done|]. cbn in Hl. destruct Hl as (? & ? & ? & ? & ? & Hl).
  cbn [app]. rewrite source_cons. unfold inside. pose proof (Hx e ltac:(by left)).
  rewrite (proj2 (Z.ltb_ge _ _)), andb_false_r by lia. eapply IH; [exact Hl|]. intros. apply Hx. by right.
Qed.

Lemma lower_bound_after off m : sound m -> 0 <= off -> forall e,
  e ∈ lower_bound (fun e => virtOff e +% elen e <=? off) (extents m) -> off < ext_end e.
Proof.
  intros Hs Ho. destruct (sd_widths _ Hs) as (_ & V & _ & U & _). pose proof (sd_extents _ Hs) as Hl.
  revert U Hl. generalize (extents m) 0. intros l. induction l as [|e l IH]; intros lo U Hl a; cbn [lower_bound];
    [by intros ?%elem_of_nil|].
  inversion U as [|? ? U1 U2]; subst. destruct Hl as (? & ? & ? & ? & ? & Hl). destruct U1 as (? & ? & ?). unfold is_u64, ext_end in *.
  rewrite w64_small by lia. destruct (virtOff e + elen e <=? off) eqn:E; b2p; [by eapply IH|].
  rewrite elem_of_cons. intros [->|Ha]; [lia|]. pose proof (in_order_after _ _ _ _ _ Hl Ha). unfold ext_end in *. lia.
Qed.

(** [map] stitches exactly: on an accepted sidecar, the segments of a range, read
    byte by byte, are the bytes of the range in order up to the end of the
    virtual file, each with the source the byte-by-byte reference gives it (the
    overlay byte of the extent that contains it, or the origin). No segment is
    empty and every overlay segment lies inside the overlay. *)
Theorem replica_map_bytewise (m : ReplicaMeta) (off len : Z) (Hm : sound m) (Ho : is_u64 off) :
  concat (List.map seg_bytes (map m off len)) = stitched (extents m) off (Z.min (off +% len) (virtualSize m)) /\
  Forall (seg_ok (tdataBytes m)) (map m off len).
Proof.
  unfold map. set (end_ := Z.min _ _).
  destruct (virtualSize m <=? off) eqn:E1; b2p; [rewrite stitched_nil by lia; done|].
  destruct (end_ <=? off) eqn:E2; b2p; [rewrite stitched_nil by lia; done|].
  destruct (lower_bound_spec (fun e => virtOff e +% elen e <=? off) (extents m)) as (l0 & E & H0).
  pose proof (lower_bound_after off m Hm (proj1 Ho)) as Ha. set (l := lower_bound _ _) in *.
  destruct (sd_widths _ Hm) as (_ & V1 & V2 & U & _). pose proof (sd_extents _ Hm) as Hl. rewrite E in Hl.
  destruct (in_order_drop _ _ _ _ _ Hl) as (lo & _ & Hl'). rewrite E in U. apply Forall_app in U as [U0 U].
  destruct (map_from_spec (virtualSize m) (tdataBytes m) l lo off end_) as [M1 M2];
    [apply V1|apply V2|done|done|apply Ho|subst end_; lia|exact Ha|]. split; [|done].
  rewrite M1. apply stitched_ext. intros x Hx. rewrite E. symmetry. eapply in_order_app_dropped; [exact Hl|].
  intros e He. pose proof (proj1 (Forall_forall _ _) H0 e He) as Hb. pose proof (proj1 (Forall_forall _ _) U0 e He) as (? & ? & ?).
  pose proof (in_order_after _ _ _ _ e Hl ltac:(apply elem_of_app; by left)). b2p. unfold is_u64, ext_end in *.
  rewrite w64_small in Hb by lia. lia.
Qed.

Lemma replica_map_bytewise_witness :
  sound demo /\ is_u64 120 /\ map demo 120 1000 = [mkSeg true 120 30 20; mkSeg false 150 850 0; mkSeg true 1000 120 50] /\
  concat (List.map seg_bytes (map demo 120 1000)) = stitched (extents demo) 120 1120.
Proof.
  assert (is_u64 120) as Hu by (unfold is_u64; lia).
  split; [exact (wf_sound _ rep_demo_wf)|]. split; [exact Hu|]. split; [reflexivity|].
  exact (proj1 (replica_map_bytewise demo 120 1000 (wf_sound _ rep_demo_wf) Hu)).
Defined.

(** ** Reading overlay bytes *)
Section geometry.
Context (m : ReplicaMeta) (Htd : 0 <= tdataBytes m < p63).
Let td := tdataBytes m.
Abbreviation P := 65536.

Lemma npages_mul i : i < npages m <-> i * P < td.
Proof using Htd.
  unfold td, npages. destruct (rep_npages_of_plain _ Htd) as [-> _]. unfold kOverlayPageSize. change (64 * 1024) with P.
  pose proof (Z.div_mod (tdataBytes m + P - 1) P). pose proof (Z.mod_pos_bound (tdataBytes m + P - 1) P). lia.
Qed.

Lemma opage_plain i : 0 <= i < npages m ->
  i *% kOverlayPageSize = i * P /\ pageBytes m i = Z.min P (td - i * P) /\ 0 < pageBytes m i <= P /\ i * P + pageBytes m i <= td.
Proof using Htd.
  intros Hi. pose proof (proj1 (npages_mul i) ltac:(lia)) as Ht. unfold td in *.
  assert (pageBytes m i = Z.min P (td - i * P)) as E.
  { unfold pageBytes, pageBytes_of, kOverlayPageSize. change (64 * 1024) with P. rewrite (w64_small (i * P)) by lia.
    rewrite (w64_small (i * P + P)) by lia. rewrite w64_small by lia. rewrite w32_small by lia. unfold td. lia. }
  unfold kOverlayPageSize. change (64 * 1024) with P. rewrite E, w64_small by lia. unfold td in *. lia.
Qed.

Lemma orun_plain a b : 0 <= a <= b -> b < npages m ->
  runBytes m a b = b * P + pageBytes m b - a * P /\ 0 < runBytes m a b /\ a * P + runBytes m a b <= td.
Proof using Htd.
  intros. destruct (opage_plain a) as (E1 & _ & _ & _); [lia|]. destruct (opage_plain b) as (E2 & ? & ? & ?); [lia|].
  unfold td in *. unfold runBytes. rewrite E1, E2, (w64_small (b * P + pageBytes m b)) by lia. rewrite w64_small by lia. lia.
Qed.

Lemma run_end_range fuel rf rl stop : rl < stop -> rl <= run_end fuel m rf rl stop < stop.
Proof using.
  revert rl. induction fuel as [|fuel IH]; intros rl H; cbn [run_end]; [lia|].
  destruct (_ && _) eqn:E; [|lia]. b2p. pose proof (IH (rl + 1)). lia.
Qed.

(** Page [i] of the overlay [d] is whole and matches its CRC. *)
Definition page_good `{CK : Checksum} (d : bytes) (i : Z) : Prop :=
  i * P + pageBytes m i <= zlen d /\ crc 0 (zsub d (i * P) (pageBytes m i)) = zget (pageCrcs m) i.

Lemma verify_run_spec `{CK : Checksum} d rf rl : 0 <= rf <= rl -> rl < npages m ->
  let b := zsub d (rf * P) (runBytes m rf rl) in
  forall i, rf <= i <= rl + 1 ->
  verify_run m (zlen b) b ((i - rf) * P) (zrange i (rl + 1)) = true <-> forall j, i <= j <= rl -> page_good d j.
Proof using Htd.
  intros Hr Hn b. destruct (orun_plain rf rl Hr Hn) as (Er & Er0 & Er1). unfold td in *.
  assert (forall k, 0 <= k -> k <= runBytes m rf rl -> (k <= zlen b <-> rf * P + k <= zlen d) \/ k = 0) as Hb.
  { intros k Hk Hk'. destruct (Z.eq_dec k 0); [by right|left]. unfold b, zsub, zlen. rewrite length_take, length_drop. lia. }
  intros i Hi. remember (Z.to_nat (rl + 1 - i)) as n eqn:Hn'. revert i Hi Hn'.
  induction n as [|n IH]; intros i Hi Hk.
  - rewrite zrange_nil by lia. cbn [verify_run]. split; [intros; lia|done].
  - rewrite zrange_cons by lia. cbn [verify_run]. destruct (opage_plain i) as (_ & Ep & Hp & _); [lia|].
    destruct (opage_plain rl) as (_ & Epl & _ & _); [lia|]. unfold td in *.
    rewrite (w64_small ((i - rf) * P + pageBytes m i)) by lia.
    assert (zsub b ((i - rf) * P) (pageBytes m i) = zsub d (i * P) (pageBytes m i)) as ->.
    { unfold b. rewrite zsub_zsub by lia. f_equal. lia. }
    assert (((i - rf) * P + pageBytes m i <= zlen b) <-> (i * P + pageBytes m i <= zlen d)) as Hl.
    { destruct (Hb ((i - rf) * P + pageBytes m i)) as [->|E0]; lia. }
    destruct (zlen b <? (i - rf) * P + pageBytes m i) eqn:E1; cbn [orb].
    { b2p. split; [done|]. intros H. destruct (H i) as [H1 _]; [lia|]. apply Hl in H1. lia. }
    destruct (crc 0 _ =? _) eqn:E2; cbn [negb]; b2p.
    2: { split; [done|]. intros H. by destruct (H i) as [_ H1]; [lia|]. }
    assert (page_good d i) as Hg by (split; [apply Hl; lia|done]).
    destruct (Z.eq_dec i rl) as [->|Hne].
    + rewrite zrange_nil by lia. split; [|done]. intros _ j Hj. by replace j with rl by lia.
    + pose proof (proj1 (npages_mul rl) Hn) as Hrl. unfold td in Hrl.
      replace ((i - rf) * P + pageBytes m i) with ((i + 1 - rf) * P) by lia.
      rewrite (IH (i + 1)) by lia. split; intros H j Hj; [|apply H; lia].
      destruct (Z.eq_dec j i) as [->|]; [done|]. apply H. lia.
Qed.
End geometry.

Section reading.
Context {W : Type} `{!IOBackend W, !IOLaws W} `{CK : Checksum}.

Lemma rio_inv {A} (x : M W A) (s : World) a (s' : World) : io x s = (a, s') -> exists w', x (io_ s) = (a, w') /\ s' = mkWorld w' (stats_ s).
Proof. unfold io. destruct (x (io_ s)) as [a' w']. intros [= <- <-]. eauto. Qed.

Context (v : ReplicaView) (f : inode) (off len : Z).
Let m := meta_ v.
Let d := i_data f.
Hypothesis (Htd : 0 <= tdataBytes (meta_ v) < p63) (Hoff : 0 <= off) (Hlen : 0 < len) (Hend : off + len <= tdataBytes (meta_ v)).
Abbreviation P := 65536.
Let first := off / P.
Let last_ := (off + len - 1) / P.

(** How much of the buffer is final when the pages below [rf] are done. *)
Definition filled_to (rf : Z) : Z := Z.max 0 (Z.min len (rf * P - off)).

Lemma view_pages : first * P <= off < (first + 1) * P /\ last_ * P <= off + len - 1 < (last_ + 1) * P /\
  0 <= first <= last_ /\ last_ < npages (meta_ v).
Proof using Htd Hoff Hlen Hend.
  unfold first, last_. pose proof (Z.div_mod off P). pose proof (Z.mod_pos_bound off P).
  pose proof (Z.div_mod (off + len - 1) P). pose proof (Z.mod_pos_bound (off + len - 1) P).
  assert ((off + len - 1) / P < npages (meta_ v)) by (apply npages_mul; [done|lia]).
  repeat split; try lia. all: try apply Z.div_pos; try apply Z.div_le_mono; lia.
Qed.

Lemma splice_prefix out k b n : 0 <= k -> 0 <= n -> zlen out = len -> k + n <= len -> zsub out 0 k = zsub d off k ->
  b = zsub d (off + k) n -> zlen b = n ->
  zsub (zsplice out k b) 0 (k + n) = zsub d off (k + n) /\ zlen (zsplice out k b) = len.
Proof using Hoff Hlen.
  intros Hk Hn Ho Hkn Hp Hb Hbl. split; [|rewrite zlen_zsplice; lia].
  rewrite <- (zsub_join _ 0 k n), <- (zsub_join d off k n) by lia. f_equal.
  - rewrite zsub_zsplice_before by lia. done.
  - rewrite Z.add_0_l, zsub_zsplice_same by lia. done.
Qed.

(** One run: what arrives, what is verified, what lands in the buffer. *)
Lemma run_step rf rl (w w' : W) rb out :
  first <= rf <= rl -> rl <= last_ -> zlen out = len -> zsub out 0 (filled_to rf) = zsub d off (filled_to rf) ->
  open_file (view w) (fd_ v) = Some f ->
  let rBytes := runBytes m rf rl in
  preadFull (fd_ v) rBytes (rf * P) w = (rb, w') ->
  let direct := (off <=? rf * P) && (rf * P + rBytes <=? off + len) in
  let got := if 0 <? fst rb then fst rb else 0 in
  let out1 := if direct then zsplice out (rf * P -% off) (snd rb) else out in
  let cStart := Z.max off (rf * P) in
  let cEnd := Z.min (off + len) (rf * P + rBytes) in
  let out2 := if direct then out1 else zsplice out1 (cStart -% off) (zsub (snd rb) (cStart -% rf * P) (cEnd -% cStart)) in
  view w' = view w /\ zlen out1 = len /\
  (verify_run m got (snd rb) 0 (zrange rf (rl + 1)) = true ->
     (forall j, rf <= j <= rl -> page_good m d j) /\ zlen out2 = len /\
     zsub out2 0 (filled_to (rl + 1)) = zsub d off (filled_to (rl + 1))) /\
  ((forall j, rf <= j <= rl -> page_good m d j) -> 0 <= fst rb ->
     verify_run m got (snd rb) 0 (zrange rf (rl + 1)) = true).
Proof using Htd Hoff Hlen Hend.
  intros Hrf Hrl Hout Hpre Hf rBytes Hp direct got out1 cStart cEnd out2. pose proof view_pages as Hq.
  destruct (orun_plain m Htd rf rl) as (Er & Er0 & Er1); [lia|unfold m; lia|].
  destruct (opage_plain m Htd rf) as (Es & Ep & _ & _); [unfold m in *; lia|].
  destruct (opage_plain m Htd rl) as (_ & Epl & Hpl & _); [unfold m in *; lia|].
  unfold m in *. fold rBytes in Er, Er0, Er1.
  destruct rb as [r b]. cbn [fst snd] in *.
  destruct (preadFull_spec (fd_ v) rBytes (rf * P) w r b w' ltac:(lia) ltac:(lia) ltac:(lia) Hp) as [Hv Hres]. split; [exact Hv|].
  assert (r < 0 /\ b = [] \/ 0 <= r /\ r = zlen b /\ b = zsub d (rf * P) rBytes) as Hb.
  { destruct Hres as [(? & ? & [?|(f' & Hf' & Hb)])|?]; [lia| |by left].
    right. rewrite Hf in Hf'. injection Hf' as <-. split; [lia|]. by split. }
  assert (zlen b <= rBytes) as Hbl.
  { destruct Hb as [[_ ->]|(_ & _ & ->)]; [rewrite zlen_nil; lia|apply zlen_zsub_le; lia]. }
  assert (zlen out1 = len) as Ho1.
  { subst out1 direct. destruct (_ && _) eqn:Ed; [|done]. b2p. rewrite w64_small by lia.
    rewrite zlen_zsplice by lia. done. }
  split; [done|].
  assert (r < 0 -> verify_run (meta_ v) 0 [] 0 (zrange rf (rl + 1)) = false) as Hneg.
  { intros _. rewrite zrange_cons by lia. cbn [verify_run]. destruct (opage_plain (meta_ v) Htd rf) as (_ & _ & Hpp & _); [lia|].
    rewrite Z.add_0_l, w64_small by lia. by rewrite (proj2 (Z.ltb_lt _ _)) by lia. }
  assert (0 <= r -> verify_run (meta_ v) got b 0 (zrange rf (rl + 1)) = true <-> forall j, rf <= j <= rl -> page_good (meta_ v) d j) as Hver.
  { intros Hr. destruct Hb as [?|(_ & Hrb & Hb)]; [lia|]. replace got with (zlen b) by (subst got; destruct (0 <? r) eqn:?; b2p; lia).
    pose proof (verify_run_spec (meta_ v) Htd d rf rl ltac:(lia) ltac:(lia) rf ltac:(lia)) as V. cbn zeta in V.
    rewrite Z.sub_diag, Z.mul_0_l in V. fold rBytes in V. rewrite Hb. exact V. }
  split; [|by intros Hg Hr; apply Hver]. intros Hok.
  assert (0 <= r) as Hr.
  { destruct (Z.lt_ge_cases r 0) as [Hr|]; [|done]. destruct Hb as [[_ Hb]|?]; [|lia].
    subst got. rewrite (proj2 (Z.ltb_ge 0 r)), Hb, Hneg in Hok by lia. done. }
  pose proof (proj1 (Hver Hr) Hok) as Hg. split; [done|]. destruct Hb as [?|(_ & Hrb & Hb)]; [lia|].
  assert (zlen b = rBytes) as Hbe.
  { destruct (Hg rl ltac:(lia)) as [Hgl _]. rewrite Hb, zlen_zsub; lia. }
  destruct (Hg rl ltac:(lia)) as [Hgl _].
  pose proof (proj1 (npages_mul (meta_ v) Htd last_) ltac:(lia)) as Hla.
  subst out2 out1 direct. destruct (_ && _) eqn:Ed.
  - b2p. rewrite w64_small in * by lia.
    replace (filled_to (rl + 1)) with ((rf * P - off) + rBytes) by (unfold filled_to; lia).
    destruct (splice_prefix out (rf * P - off) b rBytes) as [S1 S2]; try lia; [|rewrite Hb; f_equal; lia|done].
    replace (rf * P - off) with (filled_to rf) by (unfold filled_to; lia). done.
  - assert (cEnd - cStart = filled_to (rl + 1) - filled_to rf /\ cStart - off = filled_to rf /\ 0 <= cEnd - cStart /\ 0 <= cStart - rf * P) as
      (C1 & C2 & C3 & C4) by (unfold filled_to; subst cEnd cStart; lia).
    assert (0 <= filled_to rf /\ filled_to (rl + 1) <= len) as [C5 C6] by (unfold filled_to; lia).
    assert (cEnd < p64 /\ cStart < p64) as [? ?] by (subst cEnd cStart; lia).
    rewrite !w64_small by lia. rewrite C2, C1.
    assert (zlen (zsub b (cStart - rf * P) (filled_to (rl + 1) - filled_to rf)) = filled_to (rl + 1) - filled_to rf) as Hz.
    { apply zlen_zsub; subst cStart cEnd; lia. }
    destruct (splice_prefix out (filled_to rf) (zsub b (cStart - rf * P) (filled_to (rl + 1) - filled_to rf))
      (filled_to (rl + 1) - filled_to rf)) as [S1 S2]; try lia; [done| |].
    { rewrite Hb, zsub_zsub by (subst cStart cEnd; lia). f_equal. lia. }
    replace (filled_to rf + (filled_to (rl + 1) - filled_to rf)) with (filled_to (rl + 1)) in S1 by lia. by split.
Qed.

Definition read_outcome (rf : Z) (s s' : World) (o : option (bool * bytes * ReplicaView)) : Prop :=
  exists ok out v', o = Some (ok, out, v') /\ view (io_ s') = view (io_ s) /\ zlen out = len /\
  (ok = true -> v' = v /\ out = zsub d off len /\ (forall j, rf <= j <= last_ -> page_good m d j) /\
     stats_ s' replicaCrcFailures = stats_ s replicaCrcFailures) /\
  (ok = false -> v' = invalidated v /\ stats_ s' replicaCrcFailures = stats_ s replicaCrcFailures +% 1) /\
  ((forall j, rf <= j <= last_ -> page_good m d j) ->
   (forall n o (w : W), 0 <= fst (fst (preadFull (fd_ v) n o w))) -> ok = true).

Lemma read_loop_spec fuel rf out s o s' :
  first <= rf <= last_ + 1 -> zlen out = len -> zsub out 0 (filled_to rf) = zsub d off (filled_to rf) ->
  open_file (view (io_ s)) (fd_ v) = Some f -> (Z.to_nat (last_ + 1 - rf) < fuel)%nat ->
  read_loop fuel v off len rf last_ out s = (o, s') -> read_outcome rf s s' o.
Proof using Htd Hoff Hlen Hend.
  revert rf out s. induction fuel as [|fuel IH]; intros rf out s Hrf Hout Hpre Hf Hfu Hrun; [lia|].
  pose proof view_pages as Hq. cbn [read_loop] in Hrun. destruct (rf <=? last_) eqn:Erf; b2p; cbn [negb] in Hrun.
  2: { injection Hrun as <- <-. replace rf with (last_ + 1) in * by lia. exists true, out, v. do 3 (split; [done|]).
       split; [|done]. intros _. split; [done|]. split; [|split; [intros; lia|done]].
       replace (filled_to (last_ + 1)) with len in Hpre by (unfold filled_to; lia). by rewrite zsub_all in Hpre. }
  pose proof (run_end_range (meta_ v) (Z.to_nat (last_ - rf)) rf rf (last_ + 1)) as Hrl.
  set (rl := run_end _ _ _ _ _) in *. specialize (Hrl ltac:(lia)).
  destruct (opage_plain (meta_ v) Htd rf) as (Es & _); [lia|].
  destruct (orun_plain (meta_ v) Htd rf rl) as (_ & Er0 & Er1); [lia|lia|]. rewrite Es in Hrun.
  rewrite (w64_small (off + len)), (w64_small (rf * P + _)) in Hrun by lia.
  apply mbind_inv in Hrun as (rb & s1 & Hio & Hrun). apply rio_inv in Hio as (w1 & Hp & ->).
  destruct (run_step rf rl _ _ _ _ ltac:(lia) ltac:(lia) Hout Hpre Hf Hp) as (Hv & Ho1 & Hgood & Hback). fold m in Hrun.
  destruct (verify_run m _ (snd rb) 0 (zrange rf (rl + 1))) eqn:Ever; cbn [negb] in Hrun.
  - destruct (Hgood eq_refl) as (Hg & Ho2 & Hpre2). clear Hgood Hback.
    cbn [bump mbind_ io_ stats_] in Hrun. unfold mbind_, bump in Hrun. cbn [io_ stats_] in Hrun.
    eapply IH in Hrun; [|lia|exact Ho2|exact Hpre2|cbn [io_]; by rewrite Hv|lia].
    destruct Hrun as (ok & out' & v' & -> & H1 & H2 & H3 & H4 & H5). cbn [io_ stats_] in *.
    exists ok, out', v'. split; [done|]. split; [by rewrite H1|]. split; [done|]. split; [|split].
    + intros Hok. destruct (H3 Hok) as (-> & -> & Hj & ->). split; [done|]. split; [done|]. split; [|done].
      intros j Hjr. destruct (Z.lt_ge_cases rl j); [apply Hj; lia|apply Hg; lia].
    + intros Hok. destruct (H4 Hok) as (-> & ->). done.
    + intros Hj. apply H5. intros j Hjr. apply Hj. lia.
  - unfold mbind_, bump in Hrun. injection Hrun as <- <-. cbn [io_ stats_].
    eexists false, _, (invalidated v). split; [reflexivity|]. cbn [io_]. split; [exact Hv|]. split; [exact Ho1|].
    split; [done|]. split; [done|]. intros Hj Hnf. specialize (Hnf (runBytes m rf rl) (rf * P) (io_ s)).
    unfold m in *. rewrite Hp in Hnf. cbn [fst] in Hnf. apply Hback; [|done]. intros. apply Hj. lia.
Qed.
End reading.

Lemma replica_read_verified_lemma {W} `{!IOBackend W, !IOLaws W} `{CK : Checksum} (v : ReplicaView) (f : inode)
    (off len : Z) (out : bytes) (s s' : World) (o : option (bool * bytes * ReplicaView))
    (Htd : 0 <= tdataBytes (meta_ v) < p63) (Ho : is_u64 off) (Hl : is_u64 len) (Hout : zlen out = len)
    (Hf : open_file (view (io_ s)) (fd_ v) = Some f) (Hrun : read v off len out s = (o, s')) :
  let pages j := off / 65536 <= j <= (off + len - 1) / 65536 in
  exists ok out' v', o = Some (ok, out', v') /\ view (io_ s') = view (io_ s) /\ zlen out' = len /\
  (ok = true -> v' = v /\ out' = zsub (i_data f) off len /\
     (0 < len -> off + len <= tdataBytes (meta_ v) /\ forall j, pages j -> page_good (meta_ v) (i_data f) j)) /\
  (ok = false -> v' = invalidated v) /\
  (off + len <= tdataBytes (meta_ v) -> (forall j, pages j -> page_good (meta_ v) (i_data f) j) ->
   (forall n o (w : W), 0 <= fst (fst (preadFull (fd_ v) n o w))) -> ok = true).
Proof.
  intros pages. unfold is_u64 in *. unfold read in Hrun. destruct (len =? 0) eqn:E0; b2p.
  { injection Hrun as <- <-. exists true, out, v. do 3 (split; [done|]). split; [|done].
    intros _. split; [done|]. split; [|lia]. rewrite E0 in *. rewrite zsub_0. by apply zlen_0_nil. }
  pose proof (fits_spec off len (tdataBytes (meta_ v)) Ho Hl ltac:(lia)) as F.
  destruct (_ || _) eqn:E1.
  { injection Hrun as <- <-. exists false, out, (invalidated v). repeat (split; [done|]). intros Hfit. by apply F in Hfit. }
  pose proof (proj1 F eq_refl) as Hfit. rewrite (w64_small (off + len)), w64_small in Hrun by lia.
  unfold kOverlayPageSize in Hrun. change (64 * 1024) with 65536 in Hrun.
  destruct (view_pages v off len) as (R1 & R2 & R3 & R4); [lia..|].
  eapply (read_loop_spec v f off len) in Hrun;
    [|lia|lia|lia|lia|lia|exact Hout| |exact Hf|lia].
  - destruct Hrun as (ok & out' & v' & H). exists ok, out', v'. destruct H as (-> & H1 & H2 & H3 & H4 & H5).
    split; [done|]. split; [done|]. split; [done|]. split; [|split].
    + intros Hok. destruct (H3 Hok) as (? & ? & ? & _). split; [done|]. split; [done|]. intros _. split; [lia|done].
    + intros Hok. apply (H4 Hok).
    + intros _. done.
  - unfold filled_to. replace (Z.max 0 _) with 0 by lia. by rewrite !zsub_0.
Qed.

(** a view never returns an unverified byte. Whatever the backend does, [read]
    terminates, changes nothing on disk, and either reports success, the buffer
    then being exactly the overlay file's bytes of the range and every overlay
    page it touches being whole in the file and matching its CRC in the sidecar;
    or it reports failure and the view is marked invalid. A range outside the
    overlay (or one whose end wraps) fails. Conversely, when the touched pages
    are good and no read fails, it succeeds. *)
Theorem replica_read_verified {W} `{!IOBackend W, !IOLaws W} `{CK : Checksum} (v : ReplicaView) (f : inode)
    (off len : Z) (out : bytes) (s s' : World) (o : option (bool * bytes * ReplicaView))
    (Htd : 0 <= tdataBytes (meta_ v) < p63) (Ho : is_u64 off) (Hl : is_u64 len) (Hout : zlen out = len)
    (Hf : open_file (view (io_ s)) (fd_ v) = Some f) (Hrun : read v off len out s = (o, s')) :
  let pages j := off / 65536 <= j <= (off + len - 1) / 65536 in
  exists ok out' v', o = Some (ok, out', v') /\ view (io_ s') = view (io_ s) /\ zlen out' = len /\
  (ok = true -> v' = v /\ out' = zsub (i_data f) off len /\
     (0 < len -> off + len <= tdataBytes (meta_ v) /\ forall j, pages j -> page_good (meta_ v) (i_data f) j)) /\
  (ok = false -> v' = invalidated v) /\
  (off + len <= tdataBytes (meta_ v) -> (forall j, pages j -> page_good (meta_ v) (i_data f) j) ->
   (forall n o (w : W), 0 <= fst (fst (preadFull (fd_ v) n o w))) -> ok = true).
Proof. by eapply replica_read_verified_lemma. Qed.

(** A view over an overlay of nine bytes. *)
Definition overlay_bytes : bytes := [1; 2; 3; 4; 5; 6; 7; 8; 9].
Definition demo_view : ReplicaView :=
  mkView (mkRep 0 kZstd1 0 10 0 0 0 20 9 [] [mkExtent 0 9 0] [] [] [crc 0 overlay_bytes]) 5 false.
Definition demo_world : @World memw :=
  mkWorld (mkMem (mkFs ∅ {[1 := mkInode overlay_bytes 1 0 0]} {[5 := 1]}) []) (fun _ => 0).

Lemma replica_read_verified_witness :
  open_file (view (io_ demo_world)) (fd_ demo_view) = Some (mkInode overlay_bytes 1 0 0) /\
  (let '(o, s') := read demo_view 2 4 (zeros 4) demo_world in o = Some (true, [3; 4; 5; 6], demo_view)) /\
  exists ok out' v', fst (read demo_view 2 4 (zeros 4) demo_world) = Some (ok, out', v') /\ zlen out' = 4.
Proof.
  split; [reflexivity|]. split; [vm_compute; reflexivity|].
  destruct (replica_read_verified demo_view (mkInode overlay_bytes 1 0 0) 2 4 (zeros 4) demo_world
    (snd (read demo_view 2 4 (zeros 4) demo_world)) (fst (read demo_view 2 4 (zeros 4) demo_world)))
    as (ok & out' & v' & H1 & _ & H3 & _); [cbn; lia|unfold is_u64; lia|unfold is_u64; lia|reflexivity|reflexivity|
    exact (surjective_pairing _)|].
  by exists ok, out', v'.
Defined.
End RView.
