(* ===== verification/IOFrame.v ===== *)
(** * Frames for code over the backend

    [keeps I m]: every run of [m] preserves the file-system property [I],
    whatever calls fail. It composes over the monad, and each backend call keeps
    [calm] (every name has its inode, no two names share one) and, for read-only
    code, the names and the contents.

    [IOTrace] is a backend that records its syncs, renames and unlinks; any backend
    does, over its world and a list of them ([recorded_io]). *)

From S2P Require Import Prelude IOBackend MetaFile.

Section keeps.
Context {W : Type} `{!IOBackend W, !IOLaws W}.

Definition keeps {A} (I : fs -> Prop) (m : M W A) : Prop :=
  forall w a w', I (view w) -> m w = (a, w') -> I (view w').

Lemma keeps_ret {A} I (a : A) : keeps I (ret a).
Proof. by intros w x w' HI [= _ <-]. Qed.
Lemma keeps_bind {A B} I (m : M W A) (k : A -> M W B) : keeps I m -> (forall a, keeps I (k a)) -> keeps I (do x <- m; k x).
Proof. intros Hm Hk w b w' HI (a & w1 & H1 & H2)%mbind_inv. eapply Hk; [|exact H2]. by eapply Hm. Qed.
Lemma keeps_if {A} I (b : bool) (m1 m2 : M W A) : keeps I m1 -> keeps I m2 -> keeps I (if b then m1 else m2).
Proof. by destruct b. Qed.
Lemma keeps_option {A B} I (o : option B) (m1 : B -> M W A) (m2 : M W A) :
  (forall b, keeps I (m1 b)) -> keeps I m2 -> keeps I (match o with Some b => m1 b | None => m2 end).
Proof. by destruct o. Qed.

(** ** Calm file systems *)
Definition lone (s : fs) : Prop := forall a b ino, a <> b -> fs_names s !! a = Some ino -> fs_names s !! b <> Some ino.
Definition calm (s : fs) : Prop := Meta.fs_ok s /\ lone s.

Lemma calm_distinct s a b : calm s -> a <> b -> Meta.distinct s a b.
Proof using. intros [_ H] Hab ino Ha. by apply (H a b). Qed.

Lemma calm_same s s' : fs_names s' = fs_names s -> (forall i, is_Some (fs_inodes s !! i) -> is_Some (fs_inodes s' !! i)) ->
  calm s -> calm s'.
Proof using.
  intros Hn Hi [Ho Hl]. split.
  - intros q ino Hq. rewrite Hn in Hq. by apply Hi, (Ho q).
  - intros a b ino. rewrite Hn. apply Hl.
Qed.

Lemma calm_updated P s fd s' : file_updated P s fd s' -> calm s -> calm s'.
Proof using.
  intros (ino & f & f' & _ & _ & _ & _ & ->). apply calm_same; [done|]. intros i Hi. cbn.
  destruct (decide (ino = i)) as [->|]; [by rewrite lookup_insert_eq|by rewrite lookup_insert_ne].
Qed.
Lemma calm_scribbled off n s fd s' : scribbled off n s fd s' -> calm s -> calm s'.
Proof using. intros [->|H]; [done|by eapply calm_updated]. Qed.
Lemma calm_written p off k s fd s' : written p off k s fd s' -> calm s -> calm s'.
Proof using. intros [[_ ->]|H]; [done|by eapply calm_updated]. Qed.

Lemma calm_unlink s p : calm s -> calm (unlink_name s p).
Proof using.
  intros [Ho Hl]. unfold unlink_name. destruct (fs_names s !! p) as [ip|] eqn:E; [|done]. split.
  - intros q ino. cbn. intros [_ Hq%Ho]%lookup_delete_Some. destruct (decide (ip = ino)) as [->|].
    + rewrite lookup_alter_eq. by destruct (fs_inodes s !! ino); [|destruct Hq].
    + by rewrite lookup_alter_ne.
  - intros a b ino Hab. cbn. intros [_ Ha]%lookup_delete_Some [_ Hb]%lookup_delete_Some. by apply (Hl a b ino).
Qed.

Lemma calm_opened s p fl fd s' : opened s p fl fd s' -> calm s -> calm s'.
Proof using.
  intros [_ H] Hc. destruct (fs_names s !! p) as [ip|] eqn:E.
  - destruct H as (_ & n & Hn & ->). revert Hc. apply calm_same; [done|]. intros i Hi. cbn. destruct (o_trunc fl); [|done].
    destruct (decide (ip = i)) as [->|]; [by rewrite lookup_insert_eq|by rewrite lookup_insert_ne].
  - destruct H as (_ & ino & mt & mtn & Hi & ->). destruct Hc as [Ho Hl]. split.
    + intros q i. cbn. intros [[<- <-]|[_ Hq%Ho]]%lookup_insert_Some; [by rewrite lookup_insert_eq|].
      rewrite lookup_insert_ne; [done|]. intros ->. rewrite Hi in Hq. by destruct Hq.
    + intros a b i Hab. cbn. intros [[<- <-]|[Hpa Ha]]%lookup_insert_Some; intros [[<- Hb]|[Hpb Hb]]%lookup_insert_Some; try done.
      * apply Ho in Hb. rewrite Hi in Hb. by destruct Hb.
      * subst i. apply Ho in Ha. rewrite Hi in Ha. by destruct Ha.
      * by apply (Hl a b i).
Qed.

Lemma calm_renamed s a b s' : renamed s a b s' -> calm s -> calm s'.
Proof using.
  intros (ino & Ha & H) Hc. destruct (decide _) as [Hb|Hb]; [by subst|]. subst s'. pose proof Hc as [Ho Hl].
  destruct (calm_unlink s b Hc) as [Ho' Hl'].
  assert (fs_names (unlink_name s b) !! a = Some ino \/ a = b) as Hau.
  { unfold unlink_name. destruct (fs_names s !! b) eqn:E; cbn; [|by left]. destruct (decide (a = b)); [by right|left].
    by rewrite lookup_delete_ne. }
  destruct Hau as [Hau| ->]; [|done]. split.
  - intros q i. cbn. intros [[<- <-]|[_ [_ Hq]%lookup_delete_Some]]%lookup_insert_Some; [by eapply Ho'|by eapply Ho'].
  - intros p q i Hpq. cbn. intros [[<- <-]|[Hp [Hp' Hpi]%lookup_delete_Some]]%lookup_insert_Some;
      intros [[<- Hq]|[Hq [Hq' Hqi]%lookup_delete_Some]]%lookup_insert_Some; try done.
    + by apply (Hl' a q ino Hq').
    + subst i. by apply (Hl' a p ino Hp').
    + by apply (Hl' p q i).
Qed.

(** ** One call at a time *)
Ltac call H := let Hi := fresh in let w := fresh in let a := fresh in let w' := fresh in
  intros w a w' Hi H; revert Hi.

Lemma keeps_view {A} I (m : M W A) : (forall w a w', m w = (a, w') -> view w' = view w) -> keeps I m.
Proof using. intros H w a w' HI Hm. by rewrite (H _ _ _ Hm). Qed.
Lemma keeps_stat I p : keeps I (io_stat p).
Proof. apply keeps_view. intros w [r st] w' H. apply (law_stat _ _ _ _ _ H). Qed.
Lemma keeps_fstat I fd : keeps I (io_fstat fd).
Proof. apply keeps_view. intros w [r st] w' H. apply (law_fstat _ _ _ _ _ H). Qed.
Lemma keeps_fdatasync I fd : keeps I (io_fdatasync fd).
Proof. apply keeps_view. intros w r w' H. apply (law_fdatasync _ _ _ _ H). Qed.
Lemma keeps_mkdirs I p : keeps I (io_mkdirs p).
Proof. apply keeps_view. intros w r w' H. apply (law_mkdirs _ _ _ _ H). Qed.
Lemma keeps_preadFull I fd n off : keeps I (preadFull fd n off).
Proof. apply keeps_view. intros w r w' H. by eapply preadFull_view. Qed.

Lemma keeps_open p fl : keeps calm (io_open p fl).
Proof. call H. destruct (law_open _ _ _ _ _ H) as [[_ ->]|[_ Ho]]; [done|by eapply calm_opened]. Qed.
Lemma keeps_close fd : keeps calm (io_close fd).
Proof. call H. by destruct (law_close _ _ _ _ H) as [_ ->]. Qed.
Lemma keeps_unlink p : keeps calm (io_unlink p).
Proof. call H. destruct (law_unlink _ _ _ _ H) as [[_ ->]|(_ & _ & ->)]; [done|apply calm_unlink]. Qed.
Lemma keeps_rename a b : keeps calm (io_rename a b).
Proof. call H. destruct (law_rename _ _ _ _ _ H) as [[_ ->]|[_ Hr]]; [done|by eapply calm_renamed]. Qed.
Lemma keeps_pwriteFull fd b off : Forall is_byte b -> 0 <= off -> off + zlen b < p64 -> keeps calm (pwriteFull fd b off).
Proof.
  intros Hb Ho Hl. call H. destruct (pwriteFull_spec _ _ _ _ _ _ Ho Hl Hb H) as [[_ Hw]|[_ Hs]];
    [by eapply calm_written|by eapply calm_scribbled].
Qed.

(** Read-only code: the names and the inodes stay. *)
Definition frozen (s0 s : fs) : Prop := fs_names s = fs_names s0 /\ fs_inodes s = fs_inodes s0.
Lemma frozen_refl s : frozen s s.
Proof using. done. Qed.
Lemma frozen_trans s0 s1 s2 : frozen s0 s1 -> frozen s1 s2 -> frozen s0 s2.
Proof using. intros [H1 H2] [H3 H4]. split; congruence. Qed.
Lemma frozen_calm s0 s : frozen s0 s -> calm s0 -> calm s.
Proof using. intros [Hn Hi]. apply calm_same; [done|]. intros i. by rewrite Hi. Qed.
Lemma frozen_data s0 s q : frozen s0 s -> Meta.data_of s q = Meta.data_of s0 q.
Proof using. intros [Hn Hi]. unfold Meta.data_of, file_of. by rewrite Hn, Hi. Qed.

Lemma rdonly_opened s p fd s' : opened s p O_RDONLY fd s' ->
  frozen s s' /\ exists f, file_of s p = Some f /\ open_file s' fd = Some f.
Proof using.
  intros [_ H]. destruct (fs_names s !! p) as [ip|] eqn:E; [|by destruct H]. destruct H as (_ & n & Hn & ->).
  split; [done|]. exists n. unfold file_of, open_file. rewrite E. cbn. by rewrite lookup_insert_eq, Hn.
Qed.

Lemma keeps_frozen_open s0 p : keeps (frozen s0) (io_open p O_RDONLY).
Proof.
  call H. destruct (law_open _ _ _ _ _ H) as [[_ ->]|[_ Ho]]; [done|]. apply rdonly_opened in Ho as [Hf _].
  intros Hi. by eapply frozen_trans.
Qed.
Lemma keeps_frozen_open_rw s0 p : keeps (frozen s0) (io_open p O_RDWR).
Proof.
  call H. destruct (law_open _ _ _ _ _ H) as [[_ ->]|[_ [_ Ho]]]; [done|].
  destruct (fs_names _ !! p) as [ip|]; [|by destruct Ho]. destruct Ho as (_ & n & Hn & ->). done.
Qed.
Lemma keeps_frozen_close s0 fd : keeps (frozen s0) (io_close fd).
Proof. call H. by destruct (law_close _ _ _ _ H) as [_ ->]. Qed.
End keeps.

Create HintDb keeps.
#[export] Hint Resolve keeps_ret keeps_stat keeps_fstat keeps_fdatasync keeps_mkdirs keeps_preadFull keeps_open
  keeps_close keeps_unlink keeps_rename keeps_pwriteFull keeps_frozen_open keeps_frozen_open_rw keeps_frozen_close : keeps.

(** Walks through a body: binds, branches, then the calls. *)
Ltac keeps := repeat first
  [ solve [auto with keeps] | apply keeps_bind; [|intros ?] | apply keeps_if | apply keeps_option; [intros ?|]
  | progress cbv zeta | case_match ].

Section keeps_more.
Context {W : Type} `{!IOBackend W, !IOLaws W}.

Lemma keeps_store_bytes path buf sync : Forall is_byte buf -> zlen buf < p64 -> keeps calm (Meta.store_bytes (W := W) path buf sync).
Proof. intros Hb Hl. unfold Meta.store_bytes. assert (0 + zlen buf < p64) by lia. assert (0 <= 0) by lia. keeps. Qed.

(** The atomic store on a calm file system: all or nothing, and calm again. *)
Lemma store_bytes_calm path buf sync (w : W) r w' :
  calm (view w) -> Forall is_byte buf -> zlen buf < p64 -> Meta.store_bytes path buf sync w = (r, w') ->
  calm (view w') /\ (forall q, q <> path -> q <> Meta.tmp_of path -> Meta.data_of (view w') q = Meta.data_of (view w) q) /\
  (r = 0 /\ Meta.data_of (view w') path = Some buf \/ r < 0 /\ Meta.data_of (view w') path = Meta.data_of (view w) path).
Proof.
  intros Hc Hb Hl H. split; [by eapply keeps_store_bytes|].
  pose proof (Meta.tmp_of_ne path) as Hne. pose proof (calm_distinct _ path (Meta.tmp_of path) Hc Hne) as Hd.
  destruct (Meta.store_bytes_spec _ _ _ _ _ _ (proj1 Hc) Hd Hb Hl H) as [[-> [Hp Ho]]|[Hr Hk]].
  - split; [|by left]. intros q Hq1 Hq2. apply Ho; [done|done|by apply calm_distinct].
  - split; [|right; split; [done|]; unfold Meta.data_of; by rewrite (Hk path)].
    intros q _ Hq. unfold Meta.data_of. rewrite (Hk q); [done|done|by apply calm_distinct].
Qed.

Lemma unlink_calm p (w : W) r w' : calm (view w) -> io_unlink p w = (r, w') ->
  calm (view w') /\ (forall q, q <> p -> Meta.data_of (view w') q = Meta.data_of (view w) q) /\
  (Meta.data_of (view w') p = None \/ Meta.data_of (view w') p = Meta.data_of (view w) p /\ r < 0).
Proof.
  intros Hc H. split; [by eapply keeps_unlink|].
  destruct (law_unlink _ _ _ _ H) as [[Hr ->]|(_ & [ino Hn] & ->)]; [split; [done|by right]|].
  split; [intros; by apply Meta.unlink_data|left].
  unfold Meta.data_of, file_of, unlink_name. rewrite Hn. cbn. by rewrite lookup_delete_eq.
Qed.

(** Files are removed at most. *)
Definition removes (s0 s : fs) : Prop := forall q x, Meta.data_of s q = Some x -> Meta.data_of s0 q = Some x.
Lemma removes_refl s : removes s s.
Proof using. by intros q x. Qed.
Lemma removes_trans s0 s1 s2 : removes s0 s1 -> removes s1 s2 -> removes s0 s2.
Proof using. intros H1 H2 q x Hq. by apply H1, H2. Qed.
Lemma removes_frozen s0 s s' : frozen s s' -> removes s0 s -> removes s0 s'.
Proof using. intros F R q x. rewrite (frozen_data _ _ _ F). apply R. Qed.
Lemma removes_none s0 s q : removes s0 s -> Meta.data_of s0 q = None -> Meta.data_of s q = None.
Proof using. intros R H0. destruct (Meta.data_of s q) as [x|] eqn:E; [|done]. apply R in E. congruence. Qed.

Lemma unlinked_data p (w : W) w' r : io_unlink p w = (r, w') -> r = 0 -> Meta.data_of (view w') p = None.
Proof.
  intros H ->. destruct (law_unlink _ _ _ _ H) as [[? _]|(_ & [ino Hn] & ->)]; [lia|].
  unfold Meta.data_of, file_of, unlink_name. rewrite Hn. cbn. by rewrite lookup_delete_eq.
Qed.
Lemma unlink_others p (w : W) w' r q : io_unlink p w = (r, w') -> q <> p -> Meta.data_of (view w') q = Meta.data_of (view w) q.
Proof. intros H Hq. destruct (law_unlink _ _ _ _ H) as [[_ ->]|(_ & _ & ->)]; [done|by apply Meta.unlink_data]. Qed.
Lemma keeps_removes_unlink s0 p : keeps (W := W) (removes s0) (io_unlink p).
Proof.
  intros w r w' R H q x Hq. apply R. destruct (decide (q = p)) as [->|]; [|by rewrite (unlink_others _ _ _ _ _ H) in Hq].
  destruct (law_unlink _ _ _ _ H) as [[_ E]|(Hr & _ & _)]; [by rewrite E in Hq|].
  by rewrite (unlinked_data _ _ _ _ H Hr) in Hq.
Qed.
End keeps_more.
#[export] Hint Resolve keeps_removes_unlink : keeps.

(** ** Whole-file loads

    The body [MetaFile::load] and [ReplicaFile::load] share, over the decoder. *)
Section load.
Context {W A : Type} `{!IOBackend W, !IOLaws W} (decode : bytes -> option A).

Definition load_with (path : bytes) : M W (option A) :=
  do st <- io_stat path;
  if fst st <? 0 then ret None
  else if (st_size (snd st) <=? 0) || (p31 <? st_size (snd st)) then ret None
  else
    do fd <- io_open path O_RDONLY;
    if fd <? 0 then ret None
    else
      do rb <- preadFull fd (st_size (snd st)) 0;
      do_ io_close fd;
      if negb (fst rb =? st_size (snd st)) then ret None
      else ret (decode (snd rb)).

Lemma load_with_spec path (w : W) o w' : load_with path w = (o, w') ->
  frozen (view w) (view w') /\ (o = None \/ exists d, Meta.data_of (view w) path = Some d /\ o = decode d).
Proof.
  intros H. split.
  { revert H. assert (keeps (W := W) (frozen (view w)) (load_with path)) as K by (unfold load_with; keeps).
    apply K, frozen_refl. }
  revert H. unfold load_with. intros ([r st] & w1 & Hst & H1)%mbind_inv. cbn [fst snd] in H1.
  destruct (law_stat _ _ _ _ _ Hst) as (Hr & Hv1 & Hst0).
  destruct (r <? 0) eqn:Er; b2p; [injection H1 as <- <-; by left|].
  destruct (Hst0 ltac:(lia)) as (ino & f & Hn & Hi & ->). cbn [stat_of st_size] in H1.
  destruct (_ || _) eqn:Es in H1; b2p; [injection H1 as <- <-; by left|].
  apply mbind_inv in H1 as (fd & w2 & Ho & H2).
  destruct (law_open _ _ _ _ _ Ho) as [[Hfd _]|[Hfd Hop]].
  { rewrite (proj2 (Z.ltb_lt _ _) Hfd) in H2. injection H2 as <- <-. by left. }
  rewrite (proj2 (Z.ltb_ge _ _) Hfd) in H2. apply mbind_inv in H2 as ([n b] & w3 & Hp & H3).
  apply mbind_inv in H3 as (c & w4 & _ & H4). cbn [fst snd] in H4.
  destruct (n =? zlen (i_data f)) eqn:En; b2p; cbn [negb] in H4; injection H4 as <- <-; [|by left].
  right. exists (i_data f). assert (file_of (view w) path = Some f) as Hf by (unfold file_of; rewrite Hn; done).
  unfold Meta.data_of. rewrite Hf. split; [done|]. f_equal. rewrite Hv1 in Hop.
  destruct (rdonly_opened _ _ _ _ Hop) as (_ & f2 & Hf2 & Hof). assert (f2 = f) as -> by congruence.
  destruct (preadFull_spec fd (zlen (i_data f)) 0 w2 n b w3 ltac:(lia) ltac:(lia) ltac:(lia) Hp)
    as [_ [(_ & _ & [?|(g' & Hg' & ->)])|[? _]]]; [lia| |lia].
  rewrite Hof in Hg'. injection Hg' as <-. by apply zsub_all.
Qed.
End load.

(** ** The calls that make a change last or take it away

    A backend whose successful syncs and renames, and whose unlinks, are recorded in order; every
    other call records nothing. Any backend can be recorded so (see [recorded] below). *)
Inductive io_event :=
| Synced (ino : Z) (d : bytes)        (* an fdatasync of the file [ino] returned 0 when it held [d] *)
| Renamed (a b : bytes) (ino : Z)     (* a rename of [a], which named [ino], to [b] returned 0 *)
| Unlinked (p : bytes) (r : Z).       (* an unlink of [p] returned [r] *)

Definition sync_events (s : fs) (fd r : Z) : list io_event :=
  if r =? 0 then match fs_fds s !! fd with
    | Some ino => match fs_inodes s !! ino with Some f => [Synced ino (i_data f)] | None => [] end
    | None => [] end
  else [].
Definition rename_events (s : fs) (a b : bytes) (r : Z) : list io_event :=
  if r =? 0 then match fs_names s !! a with Some ino => [Renamed a b ino] | None => [] end else [].

Class IOTrace (W : Type) `{!IOBackend W, !IOLaws W} := {
  events : W -> list io_event;
  tr_open : forall p fl w r w', io_open p fl w = (r, w') -> events w' = events w;
  tr_close : forall fd w r w', io_close fd w = (r, w') -> events w' = events w;
  tr_pread : forall fd n off w r w', io_pread fd n off w = (r, w') -> events w' = events w;
  tr_pwrite : forall fd b off w r w', io_pwrite fd b off w = (r, w') -> events w' = events w;
  tr_ftruncate : forall fd n w r w', io_ftruncate fd n w = (r, w') -> events w' = events w;
  tr_fstat : forall fd w r w', io_fstat fd w = (r, w') -> events w' = events w;
  tr_stat : forall p w r w', io_stat p w = (r, w') -> events w' = events w;
  tr_mkdirs : forall p w r w', io_mkdirs p w = (r, w') -> events w' = events w;
  tr_flock : forall fd op w r w', io_flock fd op w = (r, w') -> events w' = events w;
  tr_punchHole : forall fd off n w r w', io_punchHole fd off n w = (r, w') -> events w' = events w;
  tr_link : forall a b w r w', io_link a b w = (r, w') -> events w' = events w;
  tr_fdatasync : forall fd w r w', io_fdatasync fd w = (r, w') -> events w' = events w ++ sync_events (view w) fd r;
  tr_rename : forall a b w r w', io_rename a b w = (r, w') -> events w' = events w ++ rename_events (view w) a b r;
  tr_unlink : forall p w r w', io_unlink p w = (r, w') -> events w' = events w ++ [Unlinked p r]
}.

(** *** Any backend, recorded *)
Section recorded.
Context {W : Type} `{!IOBackend W, !IOLaws W}.

(** A call on the backend below, with what it records of the state before and the result. *)
Definition record {A} (m : M W A) (ev : fs -> A -> list io_event) : M (W * list io_event) A := fun wl =>
  let '(a, w') := m (fst wl) in (a, (w', snd wl ++ ev (view (fst wl)) a)).
Abbreviation silent m := (record m (fun _ _ => [])).

#[export] Instance recorded_io : IOBackend (W * list io_event) := {
  io_open p fl := silent (io_open p fl);
  io_close fd := silent (io_close fd);
  io_pread fd n off := silent (io_pread fd n off);
  io_pwrite fd b off := silent (io_pwrite fd b off);
  io_fdatasync fd := record (io_fdatasync fd) (fun s r => sync_events s fd r);
  io_ftruncate fd n := silent (io_ftruncate fd n);
  io_fstat fd := silent (io_fstat fd);
  io_stat p := silent (io_stat p);
  io_unlink p := record (io_unlink p) (fun _ r => [Unlinked p r]);
  io_rename a b := record (io_rename a b) (fun s r => rename_events s a b r);
  io_mkdirs p := silent (io_mkdirs p);
  io_flock fd op := silent (io_flock fd op);
  io_punchHole fd off n := silent (io_punchHole fd off n);
  io_link a b := silent (io_link a b);
  io_intr wl := io_intr (fst wl)
}.

Lemma record_inv {A} (m : M W A) ev wl a wl' : record m ev wl = (a, wl') ->
  m (fst wl) = (a, fst wl') /\ snd wl' = snd wl ++ ev (view (fst wl)) a.
Proof. unfold record. destruct (m (fst wl)) as [x w'] eqn:E. by intros [= <- <-]. Qed.

#[export] Instance recorded_laws : IOLaws (W * list io_event).
Proof.
  refine {| view := fun wl => view (fst wl) |}; intros; match goal with H0 : _ = _ |- _ => rename H0 into H end; apply record_inv in H as [H _].
  - by eapply law_open.
  - by eapply law_close.
  - by eapply law_pread.
  - by eapply law_pwrite.
  - by eapply law_fdatasync.
  - by eapply law_ftruncate.
  - by eapply law_fstat.
  - by eapply law_stat.
  - by eapply law_unlink.
  - by eapply law_rename.
  - by eapply law_mkdirs.
  - by eapply law_flock.
  - by eapply law_punchHole.
  - by eapply law_link.
  - exact (intr_pread _ _ _ _ _ _ _ H).
  - exact (intr_pwrite _ _ _ _ _ _ H).
Defined.

#[export] Instance recorded_trace : IOTrace (W * list io_event).
Proof.
  refine {| events := snd |}; intros;
    match goal with H : _ = _ |- _ => apply record_inv in H as [_ H]; rewrite ?app_nil_r in H; exact H end.
Defined.
End recorded.

(** *** Code that records nothing, and the atomic store *)
Create HintDb quiet.
Section trace.
Context {W : Type} `{!IOBackend W, !IOLaws W, !IOTrace W}.

Definition quiet {A} (m : M W A) : Prop := forall w a w', m w = (a, w') -> events w' = events w.
Lemma quiet_ret {A} (a : A) : quiet (ret a).
Proof. by intros w x w' [= _ <-]. Qed.
Lemma quiet_bind {A B} (m : M W A) (k : A -> M W B) : quiet m -> (forall a, quiet (k a)) -> quiet (do x <- m; k x).
Proof. intros Hm Hk w b w' (a & w1 & H1 & H2)%mbind_inv. rewrite (Hk _ _ _ _ H2). by eapply Hm. Qed.
Lemma quiet_if {A} (b : bool) (m1 m2 : M W A) : quiet m1 -> quiet m2 -> quiet (if b then m1 else m2).
Proof. by destruct b. Qed.
Lemma quiet_open p fl : quiet (io_open p fl).
Proof. intros w a w'. apply tr_open. Qed.
Lemma quiet_close fd : quiet (io_close fd).
Proof. intros w a w'. apply tr_close. Qed.
Lemma quiet_stat p : quiet (io_stat p).
Proof. intros w a w'. apply tr_stat. Qed.
Lemma quiet_mkdirs p : quiet (io_mkdirs p).
Proof. intros w a w'. apply tr_mkdirs. Qed.
Lemma quiet_pwriteFull fd b off : quiet (pwriteFull fd b off).
Proof.
  assert (forall fuel d, quiet (pwrite_loop fuel fd b off d)) as G.
  { induction fuel as [|fuel IH]; intros d; cbn [pwrite_loop]; [apply quiet_ret|]. apply quiet_if; [|apply quiet_ret].
    apply quiet_bind; [intros w a w'; apply tr_pwrite|]. intros n. repeat apply quiet_if; auto using quiet_ret. }
  intros w a w' H. unfold pwriteFull in H. by eapply (quiet_bind _ _ (G _ _) (fun _ => quiet_ret _)).
Qed.
Lemma quiet_preadFull fd n off : quiet (preadFull fd n off).
Proof.
  assert (forall fuel d acc, quiet (pread_loop fuel fd n off d acc)) as G.
  { induction fuel as [|fuel IH]; intros d acc; cbn [pread_loop]; [apply quiet_ret|]. apply quiet_if; [|apply quiet_ret].
    apply quiet_bind; [intros w a w'; apply tr_pread|]. intros nb. cbv zeta. repeat apply quiet_if; auto using quiet_ret. }
  intros w a w' H. unfold preadFull in H. by eapply (quiet_bind _ _ (G _ _ _) (fun _ => quiet_ret _)).
Qed.

(** What [store_bytes] records: nothing when it cannot open the temporary file; the sync and the
    rename of one file with the whole image when it succeeds; else, after a sync or before it, the
    removal of the temporary file. *)
Definition store_events (path buf : bytes) (r : Z) (l : list io_event) : Prop :=
  if r =? 0 then exists i, l = [Synced i buf; Renamed (Meta.tmp_of path) path i]
  else l = [] \/ exists l0 u, l = l0 ++ [Unlinked (Meta.tmp_of path) u] /\ (l0 = [] \/ exists i, l0 = [Synced i buf]).

(** The end of [store_bytes], after the sync: [l0] is what it recorded. *)
Lemma store_finish_events path ino rc (w : W) r w' : rc <= 0 -> (rc = 0 -> fs_names (view w) !! Meta.tmp_of path = Some ino) ->
  (if negb (rc =? 0) then do_ io_unlink (Meta.tmp_of path); ret rc
   else
     do rc <- io_rename (Meta.tmp_of path) path;
     if negb (rc =? 0) then do_ io_unlink (Meta.tmp_of path); ret rc
     else ret rc) w = (r, w') ->
  exists l, events w' = events w ++ l /\
    if r =? 0 then rc = 0 /\ l = [Renamed (Meta.tmp_of path) path ino] else exists u, l = [Unlinked (Meta.tmp_of path) u].
Proof.
  intros Hle Hi H. destruct (rc =? 0) eqn:E; b2p; cbn [negb] in H.
  - apply mbind_inv in H as (rr & w1 & Hr & H). pose proof (tr_rename _ _ _ _ _ Hr) as E1.
    unfold rename_events in E1. rewrite (Hi E) in E1. destruct (rr =? 0) eqn:Er; cbn [negb] in H.
    + injection H as <- <-. eexists. split; [exact E1|]. by rewrite Er.
    + apply mbind_inv in H as (u & w2 & Hu & [= <- <-]). pose proof (tr_unlink _ _ _ _ Hu) as E2.
      rewrite E1, app_nil_r in E2. eexists. split; [exact E2|]. rewrite Er. by eexists.
  - apply mbind_inv in H as (u & w2 & Hu & [= <- <-]). pose proof (tr_unlink _ _ _ _ Hu) as E2.
    eexists. split; [exact E2|]. rewrite (proj2 (Z.eqb_neq rc 0)) by done. by eexists.
Qed.
Lemma pwriteFull_fds fd b off (w : W) n w' : Forall is_byte b -> 0 <= off -> off + zlen b < p64 -> pwriteFull fd b off w = (n, w') ->
  fs_fds (view w') = fs_fds (view w) /\ fs_names (view w') = fs_names (view w).
Proof.
  intros Hb Ho Hl H. assert (forall P, file_updated P (view w) fd (view w') ->
    fs_fds (view w') = fs_fds (view w) /\ fs_names (view w') = fs_names (view w)) as G.
  { by intros P (ino & f & f' & _ & _ & _ & _ & ->). }
  destruct (pwriteFull_spec _ _ _ _ _ _ Ho Hl Hb H) as [[_ [[_ ->]|Hw]]|[_ [->|Hw]]]; try done; by eapply G.
Qed.

Lemma store_bytes_events path buf (w : W) r w' :
  calm (view w) -> Forall is_byte buf -> zlen buf < p64 -> Meta.store_bytes path buf true w = (r, w') ->
  exists l, events w' = events w ++ l /\ store_events path buf r l.
Proof.
  intros Hc Hb Hl H. unfold Meta.store_bytes in H. set (tmp := Meta.tmp_of path) in *. unfold store_events. fold tmp.
  apply mbind_inv in H as (fd & w1 & Ho & H). pose proof (tr_open _ _ _ _ _ Ho) as E1.
  destruct (law_open _ _ _ _ _ Ho) as [[Hfd Hv]|[Hfd Hop]].
  { rewrite (proj2 (Z.ltb_lt _ _) Hfd) in H. injection H as <- <-. exists []. rewrite app_nil_r, (proj2 (Z.eqb_neq fd 0)) by lia. auto. }
  rewrite (proj2 (Z.ltb_ge _ _) Hfd) in H. destruct (Meta.writing_opened _ _ _ _ (proj1 Hc) Hop) as [Hw1 Hf1].
  apply mbind_inv in H as (n & w2 & Hn & H). pose proof (quiet_pwriteFull _ _ _ _ _ _ Hn) as E2.
  destruct (Meta.store_write_spec _ _ _ _ _ _ _ Hw1 Hf1 Hb Hl Hn) as (d & Hw2 & Hd & Hn2).
  destruct (pwriteFull_fds fd buf 0 _ _ _ Hb ltac:(lia) ltac:(lia) Hn) as [F2 N2]. rewrite <- F2, <- N2 in Hf1.
  set (rc := if negb (n =? zlen buf) then if n <? 0 then n else -EIO else 0) in H.
  assert (rc <= 0 /\ (rc = 0 -> d = buf)) as [Hrc Hrc0].
  { subst rc. destruct (n =? zlen buf) eqn:E; b2p; [split; [cbn; lia|auto]|]. cbn.
    destruct (n <? 0) eqn:E3; b2p; (split; [lia|]); intros; exfalso; lia. }
  clearbody rc. apply mbind_inv in H as (rc2 & w3 & Hs & H). rewrite andb_true_r in Hs.
  destruct Hw2 as [(ino & f & Hi & Hif & Hfd' & _) _]. rewrite Hi in Hf1.
  assert (view w3 = view w2 /\ rc2 <= 0 /\ exists l0, events w3 = events w ++ l0 /\ (rc2 = 0 -> l0 = [Synced ino buf]) /\
    (l0 = [] \/ exists i, l0 = [Synced i buf])) as (V3 & Hle & l0 & E3 & L0 & L1).
  { destruct (rc =? 0) eqn:E; b2p; cbn in Hs.
    - pose proof (tr_fdatasync _ _ _ _ Hs) as E3. destruct (law_fdatasync _ _ _ _ Hs) as [Hr V3].
      unfold sync_events in E3. rewrite Hf1, Hif, Hfd', (Hrc0 E), E2, E1 in E3. split; [done|]. split; [done|].
      eexists. split; [exact E3|]. destruct (rc2 =? 0) eqn:Er; b2p; [split; [done|right; by eexists]|split; [done|by left]].
    - injection Hs as <- <-. split; [done|]. split; [done|]. exists []. rewrite app_nil_r. split; [congruence|]. split; [done|by left]. }
  apply mbind_inv in H as (c & w4 & Hcl & H). pose proof (tr_close _ _ _ _ Hcl) as E4.
  destruct (law_close _ _ _ _ Hcl) as [Hc0 V4].
  destruct (store_finish_events path ino (if (rc2 =? 0) && (c <? 0) then c else rc2) w4 r w') as (l & E5 & HL).
  { destruct (_ && _); lia. } { intros _. rewrite V4, V3. exact Hi. } { exact H. }
  exists (l0 ++ l). split; [by rewrite E5, E4, E3, app_assoc|]. destruct (r =? 0) eqn:Er.
  - destruct HL as [Hz ->]. exists ino. rewrite L0; [done|]. destruct (_ && _) eqn:Eq in Hz; b2p; lia.
  - right. destruct HL as [u ->]. by exists l0, u.
Qed.
End trace.
#[export] Hint Resolve quiet_ret quiet_open quiet_close quiet_stat quiet_mkdirs quiet_pwriteFull quiet_preadFull : quiet.
Ltac quiet := repeat first
  [ solve [auto with quiet] | apply quiet_bind; [|intros ?] | apply quiet_if | progress cbv zeta | case_match ].
