(* ===== verification/ReplicaPublish.v ===== *)
(** * Publishing a replica (src/core/ReplicaStore.cc, ReplicaStore::publish)

    [publish] for every failure schedule: the order of its syncs, renames and
    unlinks, and what may be on disk afterwards, at any point a process can die.
    What a reader then makes of the files is in ReplicaAdopt.v. *)

From S2P Require Import Prelude IOBackend Crc32c Config UrlKey MetaFile SlotStore ReplicaFile ReplicaStore ReplicaView IOFrame.

Module RPublish.
Import Replica RStore RView.

(* conversion unfolds the codec last *)
#[local] Strategy 100 [deserialize serialize].

Section publish.
Context {W : Type} `{!IOBackend W, !IOLaws W} `{CK : Checksum} (cfg : Config.Config).

Lemma serving_keeps s0 dir hh : keeps (W := W) (frozen s0) (Slots.serving dir hh).
Proof. unfold Slots.serving. keeps. Qed.

(** The overlay's write-and-rename is the sidecar store's, sync forced. *)
Lemma publish_tdata_store path buf : forall w : W, publish_tdata path buf w = Meta.store_bytes path buf true w.
Proof.
  intros w. unfold publish_tdata, Meta.store_bytes, Meta.tmp_of, mbind_.
  destruct (io_open _ _ w) as [fd w1]. destruct (fd <? 0); [done|]. destruct (pwriteFull fd buf 0 w1) as [n w2].
  set (rc := if negb (n =? zlen buf) then _ else 0). clearbody rc. rewrite andb_true_r.
  destruct (if rc =? 0 then io_fdatasync fd else ret rc) as [rc2 w3] eqn:E. clear E.
  destruct (io_close fd w3) as [c w4]. set (rc3 := if (rc2 =? 0) && (c <? 0) then c else rc2). clearbody rc3.
  destruct (rc3 =? 0) eqn:E3; cbn [negb].
  - destruct (io_rename _ _ w4) as [rr w5]. destruct (rr =? 0) eqn:E; cbn [negb]; [|done]. b2p. by rewrite E.
  - unfold mret_. by rewrite E3.
Qed.

Context (k : UrlKey.UrlKey).
Let D := tdataPath cfg k.
Let T := tmetaPath cfg k.
Let K := tokPath cfg k.

(** The five paths of a replica are different. *)
Lemma paths_ne : D <> T /\ D <> K /\ T <> K /\ D <> D ++ bs ".tmp" /\ T <> T ++ bs ".tmp" /\ D <> T ++ bs ".tmp" /\
  T <> D ++ bs ".tmp" /\ K <> D ++ bs ".tmp" /\ K <> T ++ bs ".tmp".
Proof.
  unfold D, T, K, tdataPath, tmetaPath, tokPath. generalize (UrlKey.objectDir k (Config.cacheDir cfg)). intros o.
  rewrite !(app_assoc o), !(app_assoc (o ++ bs "/")). generalize ((o ++ bs "/") ++ UrlKey.hashHex k). clear o. intros b.
  rewrite <- !(app_assoc b). assert (forall x y, b ++ x = b ++ y -> x = y) as H by (intros ? ?; apply app_inv_head).
  repeat split; intros E; apply H in E; vm_compute in E; congruence.
Qed.

(** Only the replica's own files change. *)
Definition others (s s' : fs) : Prop :=
  forall q, q <> D -> q <> T -> q <> K -> q <> D ++ bs ".tmp" -> q <> T ++ bs ".tmp" -> Meta.data_of s' q = Meta.data_of s q.

(** What the calls of [publish] may leave: [d], [t] are the overlay and the sidecar on disk before. *)
Inductive left_behind (tdata img : bytes) (d t d' t' : option bytes) : Prop :=
| lb_old_sidecar : t' = t -> (d' = d \/ d' = Some tdata \/ d' = None) -> left_behind tdata img d t d' t'
| lb_new_sidecar : (t' = Some img \/ t' = None) -> (d' = Some tdata \/ d' = None) -> left_behind tdata img d t d' t'.

Lemma tokImage_bytes n mt m : zlen (tokImage n mt m) = 28 /\ Forall is_byte (tokImage n mt m).
Proof.
  unfold tokImage. assert (zlen (zsplice (zeros 28) 0 kTokMagic) = 28) as E by reflexivity. split.
  - rewrite !zlen_putLE; rewrite ?zlen_putLE; rewrite ?zlen_putLE; rewrite ?zlen_putLE; rewrite ?E; lia.
  - repeat apply Forall_putLE. apply Forall_zsplice; [apply Forall_zeros|]. repeat constructor; vm_compute; congruence.
Qed.

Lemma tokWrite_spec path n mt m (w : W) x w' : calm (view w) -> tokWrite path n mt m w = (x, w') ->
  calm (view w') /\ forall q, q <> path -> Meta.data_of (view w') q = Meta.data_of (view w) q.
Proof.
  intros Hc H. unfold tokWrite in H. apply mbind_inv in H as (fd & w1 & Ho & H).
  destruct (law_open _ _ _ _ _ Ho) as [[Hfd Hv]|[Hfd Hop]].
  { rewrite (proj2 (Z.ltb_lt _ _) Hfd) in H. injection H as _ <-. by rewrite Hv. }
  rewrite (proj2 (Z.ltb_ge _ _) Hfd) in H. apply mbind_inv in H as (r & w2 & Hw & H).
  destruct (tokImage_bytes n mt m) as [Hl Hb].
  destruct (Meta.writing_opened _ _ _ _ (proj1 Hc) Hop) as [Hw1 Hf1].
  destruct (Meta.store_write_spec _ _ _ _ _ _ _ Hw1 Hf1 Hb ltac:(lia) Hw) as (d & Hw2 & _ & _).
  apply mbind_inv in H as (c & w3 & Hcl & [= _ <-]).
  assert (calm (view w2)) as Hc2.
  { eapply keeps_pwriteFull; [exact Hb| | |by eapply calm_opened|exact Hw]; lia. }
  split; [by eapply keeps_close|]. intros q Hq. destruct (law_close _ _ _ _ Hcl) as [_ ->]. unfold Meta.data_of.
  change (file_of (mkFs _ _ _) q) with (file_of (view w2) q).
  by rewrite (Meta.writing_file _ _ _ _ q Hw2 Hq (calm_distinct _ _ _ Hc Hq)).
Qed.

Lemma serialize_is_bytes m : Forall is_byte (key m) -> Forall is_byte (serialize m).
Proof.
  intros Hk. unfold serialize. apply Forall_putLE, write_all_bytes; [apply Forall_zeros|].
  assert (Forall is_byte kMagic) by (repeat constructor; vm_compute; congruence).
  unfold fields, words_of. repeat (apply Forall_cons_2; [cbn [snd]; first [apply le_bytes_is_byte | apply le_array_bytes | done]|]).
  apply Forall_nil_2.
Qed.

Lemma deserialize_len p m : deserialize p = Some m -> zlen p < p64.
Proof.
  unfold deserialize. destruct (_ || negb _); [done|]. destruct (_ && negb _); [done|]. destruct (_ && (_ <? kHeaderSize)); [done|].
  destruct (_ || (kMaxOrigMap <? _)); [done|]. destruct (zlen p =? total _) eqn:E; [|done]. intros _. b2p. rewrite E.
  unfold layout. cbn [total]. apply w64_range.
Qed.

Lemma unlink_step p (w : W) r w' : calm (view w) -> io_unlink p w = (r, w') ->
  calm (view w') /\ (forall q, q <> p -> Meta.data_of (view w') q = Meta.data_of (view w) q) /\
  (Meta.data_of (view w') p = None \/ Meta.data_of (view w') p = Meta.data_of (view w) p).
Proof. intros Hc H. destruct (unlink_calm _ _ _ _ Hc H) as (? & ? & [?|[? _]]); auto. Qed.

Ltac step H := apply mbind_inv in H as (? & ? & ? & H).

Lemma publish_files_spec m tdata (w : W) rc w' :
  calm (view w) -> Forall is_byte tdata -> zlen tdata < p64 -> Forall is_byte (serialize m) -> zlen (serialize m) < p64 ->
  publish_files cfg k m tdata w = (rc, w') ->
  calm (view w') /\ others (view w) (view w') /\
  left_behind tdata (serialize m) (Meta.data_of (view w) D) (Meta.data_of (view w) T) (Meta.data_of (view w') D) (Meta.data_of (view w') T) /\
  rc <= 0 /\ (rc = 0 -> Meta.data_of (view w') D = Some tdata /\ Meta.data_of (view w') T = Some (serialize m)).
Proof.
  intros Hc Hb Hl Hsb Hsl H. unfold publish_files in H. fold D T K in H. unfold others.
  destruct paths_ne as (N1 & N2 & N3 & N4 & N5 & N6 & N7 & N8 & N9). clearbody D T K.
  fold (Meta.tmp_of D) in *. fold (Meta.tmp_of T) in *.
  apply mbind_inv in H as (mk & w1 & Hmk & H). destruct (law_mkdirs _ _ _ _ Hmk) as [Hmk0 V1].
  destruct (mk <? 0) eqn:Emk; b2p.
  { injection H as <- <-. rewrite V1. split; [done|]. split; [done|]. split; [constructor; auto|]. split; [lia|intros; lia]. }
  apply mbind_inv in H as (busy & w2 & Hsv & H).
  pose proof (serving_keeps (view w1) _ _ _ _ _ (frozen_refl _) Hsv) as F2. rewrite V1 in F2.
  pose proof (frozen_calm _ _ F2 Hc) as C2. destruct busy.
  { injection H as <- <-. split; [done|]. split; [intros q _ _ _ _ _; by apply frozen_data|].
    rewrite !(frozen_data _ _ _ F2). split; [constructor; auto|]. split; [lia|intros; lia]. }
  apply mbind_inv in H as (r3 & w3 & Hd & H). rewrite publish_tdata_store in Hd.
  destruct (store_bytes_calm _ _ _ _ _ _ C2 Hb Hl Hd) as (C3 & O3 & R3).
  assert (forall q, q <> D -> q <> Meta.tmp_of D -> Meta.data_of (view w3) q = Meta.data_of (view w) q) as O3'.
  { intros q Hq1 Hq2. rewrite O3 by done. by apply frozen_data. }
  destruct R3 as [[-> HD]|[Hr3 HD]]; cycle 1.
  { rewrite (proj2 (Z.eqb_neq r3 0)) in H by lia. injection H as <- <-. split; [done|].
    split; [intros q ? ? ? ? ?; by apply O3'|]. rewrite HD, (frozen_data _ _ _ F2), O3' by done.
    split; [constructor; auto|]. split; [lia|intros; lia]. }
  cbn [negb Z.eqb] in H. apply mbind_inv in H as (r4 & w4 & Ht & H).
  destruct (store_bytes_calm _ _ _ _ _ _ C3 Hsb Hsl Ht) as (C4 & O4 & R4).
  assert (Meta.data_of (view w4) D = Some tdata) as HD4 by (rewrite O4; done).
  assert (forall q, q <> D -> q <> T -> q <> Meta.tmp_of D -> q <> Meta.tmp_of T -> Meta.data_of (view w4) q = Meta.data_of (view w) q) as O4'.
  { intros q ? ? ? ?. rewrite O4 by done. by apply O3'. }
  destruct R4 as [[-> HT]|[Hr4 HT]]; cycle 1.
  { rewrite (proj2 (Z.eqb_neq r4 0)) in H by lia. cbn [negb] in H. apply mbind_inv in H as (u & w5 & Hu & [= <- <-]).
    destruct (unlink_step _ _ _ _ C4 Hu) as (C5 & O5 & R5). split; [done|].
    split; [intros q ? ? ? ? ?; rewrite O5 by done; by apply O4'|].
    split; [|split; [lia|intros; lia]]. apply lb_old_sidecar; [rewrite O5, HT by done; by apply O3'|].
    destruct R5 as [->| ->]; [by right; right|right; by left]. }
  cbn [negb Z.eqb] in H. apply mbind_inv in H as (busy2 & w5 & Hsv2 & H).
  pose proof (serving_keeps (view w4) _ _ _ _ _ (frozen_refl _) Hsv2) as F5. pose proof (frozen_calm _ _ F5 C4) as C5.
  assert (forall q, Meta.data_of (view w5) q = Meta.data_of (view w4) q) as O5 by (intros; by apply frozen_data).
  destruct busy2.
  - apply mbind_inv in H as (u1 & w6 & Hu1 & H). apply mbind_inv in H as (u2 & w7 & Hu2 & [= <- <-]).
    destruct (unlink_step _ _ _ _ C5 Hu1) as (C6 & O6 & R6). destruct (unlink_step _ _ _ _ C6 Hu2) as (C7 & O7 & R7).
    split; [done|]. split; [intros q ? ? ? ? ?; rewrite O7, O6, O5 by done; by apply O4'|].
    split; [|split; [lia|intros; lia]]. apply lb_new_sidecar.
    + rewrite O7 by done. destruct R6 as [->| ->]; [by right|left]. by rewrite O5.
    + destruct R7 as [->| ->]; [by right|left]. by rewrite O6, O5.
  - apply mbind_inv in H as ([rst st] & w6 & Hst & H). destruct (law_stat _ _ _ _ _ Hst) as (_ & V6 & _). cbn [fst snd] in H.
    apply mbind_inv in H as (x & w7 & Htok & [= <- <-]).
    assert (calm (view w7) /\ forall q, q <> K -> Meta.data_of (view w7) q = Meta.data_of (view w4) q) as [C7 O7].
    { destruct (rst =? 0); [|injection Htok as _ <-; rewrite V6; split; [done|intros; apply O5]].
      apply tokWrite_spec in Htok as [? O]; [|by rewrite V6]. split; [done|]. intros q Hq. rewrite O, V6 by done. apply O5. }
    split; [done|]. split; [intros q ? ? ? ? ?; rewrite O7 by done; by apply O4'|].
    rewrite !O7, HT, HD4 by done. split; [apply lb_new_sidecar; by left|]. split; [lia|done].
Qed.
End publish.

Lemma publish_spec {W} `{!IOBackend W, !IOLaws W} `{CK : Checksum} cfg k m0 tdata (s s' : @World W) rc :
  calm (view (io_ s)) -> Forall is_byte (UrlKey.key k) -> Forall is_byte tdata -> zlen tdata < p64 ->
  publish cfg k m0 tdata s = (rc, s') ->
  let m := with_payload m0 (UrlKey.key k) tdata in
  let at_ w := Meta.data_of (view (io_ w)) in
  calm (view (io_ s')) /\ others cfg k (view (io_ s)) (view (io_ s')) /\
  left_behind tdata (serialize m) (at_ s (tdataPath cfg k)) (at_ s (tmetaPath cfg k)) (at_ s' (tdataPath cfg k)) (at_ s' (tmetaPath cfg k)) /\
  rc <= 0 /\
  (rc = 0 -> at_ s' (tdataPath cfg k) = Some tdata /\ at_ s' (tmetaPath cfg k) = Some (serialize m) /\
     is_Some (deserialize (serialize m)) /\ stats_ s' replicaPublished = stats_ s replicaPublished +% 1) /\
  (rc <> 0 -> stats_ s' = stats_ s).
Proof.
  intros Hc Hk Hb Hl Hrun m at_. subst at_. cbn beta. unfold publish in Hrun. fold m in Hrun.
  assert (Forall is_byte (key m)) as Hkm by exact Hk. clearbody m. destruct (deserialize (serialize m)) as [m'|] eqn:Ed; cycle 1.
  { injection Hrun as <- <-. split; [done|]. split; [done|]. split; [constructor; auto|]. split; [lia|]. split; [intros; lia|done]. }
  apply mbind_inv in Hrun as (r & s1 & Hio & Hrun). apply rio_inv in Hio as (w1 & Hio & ->).
  eapply publish_files_spec in Hio; [|exact Hc|exact Hb|exact Hl|by apply serialize_is_bytes|by eapply deserialize_len].
  destruct Hio as (Hcalm & Ho & Hlb & Hrc & Hz). destruct (r =? 0) eqn:Er; b2p.
  - unfold mbind_, bump in Hrun. injection Hrun as <- <-. cbn [io_ stats_]. split; [done|]. split; [done|]. split; [done|]. split; [lia|].
    split; [|done]. intros _. destruct (Hz Er) as [-> ->]. repeat split; try done.
  - injection Hrun as <- <-. cbn [io_ stats_]. repeat (split; [done|]). done.
Qed.


(** ** The order of the calls that last *)
Section order.
Context {W : Type} `{!IOBackend W, !IOLaws W, !IOTrace W} `{CK : Checksum} (cfg : Config.Config) (k : UrlKey.UrlKey).
Let D := tdataPath cfg k.
Let T := tmetaPath cfg k.

(** The overlay [tdata], then its sidecar [img], each synced and then renamed into place. *)
Definition placed_overlay (tdata : bytes) (i : Z) : list io_event := [Synced i tdata; Renamed (D ++ bs ".tmp") D i].
Definition placed_sidecar (img : bytes) (j : Z) : list io_event := [Synced j img; Renamed (T ++ bs ".tmp") T j].

(** What a publish that returns [rc] synced, renamed and unlinked, in order. *)
Inductive publish_order (tdata img : bytes) : Z -> list io_event -> Prop :=
| po_no_overlay rc l : rc < 0 -> store_events D tdata rc l -> publish_order tdata img rc l
| po_no_sidecar rc i l u : rc < 0 -> store_events T img rc l ->
    publish_order tdata img rc (placed_overlay tdata i ++ l ++ [Unlinked D u])
| po_withdrawn i j u v :
    publish_order tdata img (-EEXIST) (placed_overlay tdata i ++ placed_sidecar img j ++ [Unlinked T u; Unlinked D v])
| po_published i j : publish_order tdata img 0 (placed_overlay tdata i ++ placed_sidecar img j).

Lemma serving_quiet dir hh : quiet (W := W) (Slots.serving dir hh).
Proof. unfold Slots.serving. quiet. Qed.
Lemma tokWrite_quiet path n mt m : quiet (W := W) (tokWrite path n mt m).
Proof. unfold tokWrite. quiet. Qed.

Lemma publish_files_order m tdata (w : W) rc w' :
  calm (view w) -> Forall is_byte tdata -> zlen tdata < p64 -> Forall is_byte (serialize m) -> zlen (serialize m) < p64 ->
  publish_files cfg k m tdata w = (rc, w') ->
  exists l, events w' = events w ++ l /\ publish_order tdata (serialize m) rc l.
Proof.
  intros Hc Hb Hl Hsb Hsl H. unfold publish_files in H.
  fold D T in H.
  assert (forall rc, rc < 0 -> store_events D tdata rc []) as Hnone by (intros r Hr; unfold store_events; rewrite (proj2 (Z.eqb_neq r 0)) by lia; by left).
  apply mbind_inv in H as (mk & w1 & Hmk & H). destruct (law_mkdirs _ _ _ _ Hmk) as [Hmk0 V1].
  pose proof (quiet_mkdirs _ _ _ _ Hmk) as Q1.
  destruct (mk <? 0) eqn:Emk; b2p.
  { injection H as <- <-. exists []. rewrite app_nil_r. split; [done|]. apply po_no_overlay; auto. }
  apply mbind_inv in H as (busy & w2 & Hsv & H). pose proof (serving_quiet _ _ _ _ _ Hsv) as Q2.
  pose proof (serving_keeps (view w1) _ _ _ _ _ (frozen_refl _) Hsv) as F2. rewrite V1 in F2.
  pose proof (frozen_calm _ _ F2 Hc) as C2. destruct busy.
  { injection H as <- <-. exists []. rewrite app_nil_r, Q2. split; [done|]. by apply po_no_overlay; [|apply Hnone]. }
  apply mbind_inv in H as (r3 & w3 & Hd & H). rewrite publish_tdata_store in Hd.
  destruct (store_bytes_events _ _ _ _ _ C2 Hb Hl Hd) as (l3 & E3 & L3).
  destruct (store_bytes_calm _ _ _ _ _ _ C2 Hb Hl Hd) as (C3 & _ & R3). rewrite Q2, Q1 in E3.
  destruct (r3 =? 0) eqn:Er3; cbn [negb] in H; b2p.
  2: { injection H as <- <-. exists l3. split; [done|]. apply po_no_overlay; [|done]. destruct R3 as [[? _]|[? _]]; lia. }
  subst r3. unfold store_events in L3. cbn in L3. destruct L3 as [i ->].
  apply mbind_inv in H as (r4 & w4 & Ht & H).
  destruct (store_bytes_events _ _ _ _ _ C3 Hsb Hsl Ht) as (l4 & E4 & L4).
  destruct (store_bytes_calm _ _ _ _ _ _ C3 Hsb Hsl Ht) as (C4 & _ & R4). rewrite E3, <- app_assoc in E4.
  destruct (r4 =? 0) eqn:Er4; cbn [negb] in H; b2p.
  2: { apply mbind_inv in H as (u & w5 & Hu & [= <- <-]). pose proof (tr_unlink _ _ _ _ Hu) as E5.
    rewrite E4, <- !app_assoc in E5. eexists. split; [exact E5|]. apply po_no_sidecar; [destruct R4 as [[? _]|[? _]]; lia|done]. }
  subst r4. unfold store_events in L4. cbn in L4. destruct L4 as [j ->].
  apply mbind_inv in H as (busy2 & w5 & Hsv2 & H). pose proof (serving_quiet _ _ _ _ _ Hsv2) as Q5. rewrite E4 in Q5.
  destruct busy2.
  - apply mbind_inv in H as (u1 & w6 & Hu1 & H). apply mbind_inv in H as (u2 & w7 & Hu2 & [= <- <-]).
    pose proof (tr_unlink _ _ _ _ Hu1) as E6. pose proof (tr_unlink _ _ _ _ Hu2) as E7.
    rewrite E6, Q5, <- !app_assoc in E7. eexists. split; [exact E7|]. apply (po_withdrawn tdata (serialize m) i j u1 u2).
  - apply mbind_inv in H as ([rst st] & w6 & Hst & H). pose proof (quiet_stat _ _ _ _ Hst) as Q6. rewrite Q5 in Q6.
    apply mbind_inv in H as (x & w7 & Htok & [= <- <-]).
    assert (events w7 = events w6) as Q7.
    { destruct (fst (rst, st) =? 0); [by eapply tokWrite_quiet|by injection Htok as _ <-]. }
    rewrite Q6 in Q7. eexists. split; [exact Q7|]. apply (po_published tdata (serialize m) i j).
Qed.

Lemma publish_order_spec m0 tdata (s s' : @World W) rc :
  calm (view (io_ s)) -> Forall is_byte (UrlKey.key k) -> Forall is_byte tdata -> zlen tdata < p64 ->
  publish cfg k m0 tdata s = (rc, s') ->
  exists l, events (io_ s') = events (io_ s) ++ l /\ publish_order tdata (serialize (with_payload m0 (UrlKey.key k) tdata)) rc l.
Proof.
  intros Hc Hk Hb Hl Hrun. unfold publish in Hrun. set (m := with_payload m0 (UrlKey.key k) tdata) in *.
  assert (Forall is_byte (key m)) as Hkm by exact Hk. clearbody m. destruct (deserialize (serialize m)) as [m'|] eqn:Ed; cycle 1.
  { injection Hrun as <- <-. exists []. rewrite app_nil_r. split; [done|]. by apply po_no_overlay; [|left]. }
  apply mbind_inv in Hrun as (r & s1 & Hio & Hrun). apply rio_inv in Hio as (w1 & Hio & ->).
  eapply publish_files_order in Hio; [|exact Hc|exact Hb|exact Hl|by apply serialize_is_bytes|by eapply deserialize_len].
  destruct Hio as (l & E & L). exists l. destruct (r =? 0) eqn:Er; b2p.
  - unfold mbind_, bump in Hrun. injection Hrun as <- <-. by rewrite Er in L.
  - by injection Hrun as <- <-.
Qed.
End order.

(** A key with its hash, and a cache under [/c]. *)
Definition a_key : UrlKey.UrlKey := UrlKey.mkUrlKey (bs "root://h:1094//f") (bs "abcd") (bs "root") (bs "h").
Definition a_cfg : Config.Config := Config.defaults (bs "/c").
Definition payload : bytes := [1; 2; 3; 4; 5; 6; 7; 8; 9].
Definition a_meta : ReplicaMeta := mkRep 0 kZstd1 0 10 0 0 0 20 0 [] [mkExtent 0 9 0] [] [] [].
Definition empty_world (l : list fault) : @World memw := mkWorld (mkMem (mkFs ∅ ∅ ∅) l) (fun _ => 0).

Lemma empty_calm l : calm (view (io_ (empty_world l))).
Proof. split; [intros q ino H; cbn in H; by rewrite lookup_empty in H|intros a b ino _ H; cbn in H; by rewrite lookup_empty in H]. Qed.
End RPublish.
