(* ===== verification/ReplicaAdopt.v ===== *)
(** * Adopting a replica (src/core/ReplicaStore.cc, ReplicaStore::openView)

    What holds of a view [openView] returns, on any disk and under any failure,
    what it can make of the files a publish left; and the end-to-end property:
    from the publisher's payload to the bytes a reader of the adopted view gets. *)

From S2P Require Import Prelude IOBackend Crc32c Config UrlKey MetaFile SlotStore ReplicaFile ReplicaStore ReplicaView IOFrame ReplicaPublish SlotCreate.

Module RAdopt.
Import Replica RStore RView.

#[local] Strategy 100 [deserialize serialize].

Section adopt.
Context {W : Type} `{!IOBackend W, !IOLaws W} `{CK : Checksum}.

(** ** The open-time verify *)
Lemma scan_loop_spec fuel fd m f (w : W) rf o w' :
  0 <= tdataBytes m < p63 -> open_file (view w) fd = Some f -> 0 <= rf <= npages m ->
  (Z.to_nat (npages m - rf) < fuel)%nat -> scan_loop fuel fd m rf w = (o, w') ->
  view w' = view w /\ exists b, o = Some b /\ (b = true -> forall j, rf <= j < npages m -> page_good m (i_data f) j).
Proof.
  intros Htd Hf. revert rf w Hf. induction fuel as [|fuel IH]; intros rf w Hf Hrf Hfu H; [lia|].
  cbn [scan_loop] in H. destruct (rf <? npages m) eqn:E; b2p; cbn [negb] in H.
  2: { injection H as <- <-. split; [done|]. exists true. split; [done|]. intros; lia. }
  pose proof (run_end_range m (Z.to_nat (npages m - 1 - rf)) rf rf (npages m)) as Hrl.
  set (rl := run_end _ _ _ _ _) in *. specialize (Hrl ltac:(lia)).
  destruct (opage_plain m Htd rf) as (Es & _ & Hp0 & _); [lia|]. destruct (orun_plain m Htd rf rl) as (_ & Er0 & Er1); [lia|lia|].
  rewrite Es in H. apply mbind_inv in H as ([r b] & w1 & Hp & H). cbn [fst snd] in H.
  destruct (preadFull_spec fd (runBytes m rf rl) (rf * 65536) w r b w1 ltac:(lia) ltac:(lia) ltac:(lia) Hp) as [Hv Hres].
  destruct (verify_run m _ b 0 (zrange rf (rl + 1))) eqn:Ever; cbn [negb] in H.
  2: { injection H as <- <-. split; [done|]. by exists false. }
  apply IH in H; [|by rewrite Hv|lia|lia]. destruct H as (Hv2 & bb & -> & Hg). split; [congruence|].
  exists bb. split; [done|]. intros Hb j Hj. destruct (Z.lt_ge_cases rl j); [apply (Hg Hb); lia|].
  destruct Hres as [(R1 & R2 & [R3|(f' & Hf' & R3)])|[R1 R2]]; [lia| |].
  - assert (f' = f) as -> by congruence.
    assert ((if 0 <? r then r else 0) = zlen b) as Egot by (destruct (0 <? r) eqn:?; b2p; lia). rewrite Egot in Ever.
    pose proof (verify_run_spec m Htd (i_data f) rf rl ltac:(lia) ltac:(lia) rf ltac:(lia)) as V. cbn zeta in V.
    rewrite <- R3, Z.sub_diag, Z.mul_0_l in V. apply V; [done|lia].
  - rewrite (proj2 (Z.ltb_ge 0 r)) in Ever by lia. rewrite zrange_cons in Ever by lia. cbn [verify_run] in Ever.
    rewrite Z.add_0_l, w64_small in Ever by lia. by rewrite (proj2 (Z.ltb_lt 0 (pageBytes m rf))) in Ever by lia.
Qed.

(** A descriptor stays open on its file while others come and go. *)
Definition holds (fd ino : Z) (s : fs) : Prop := fs_fds s !! fd = Some ino.
Lemma holds_open p fl (w : W) fd2 w' fd ino : io_open p fl w = (fd2, w') -> holds fd ino (view w) ->
  holds fd ino (view w') /\ (0 <= fd2 -> fd2 <> fd).
Proof.
  intros H Hh. unfold holds in *. destruct (law_open _ _ _ _ _ H) as [[Hneg ->]|[_ [Hn Ho]]]; [split; [done|lia]|].
  assert (fd2 <> fd) as Hne by (intros ->; congruence). split; [|done].
  destruct (fs_names (view w) !! p); [destruct Ho as (_ & n & _ & ->)|destruct Ho as (_ & i & mt & mtn & _ & ->)];
    cbn; by rewrite lookup_insert_ne.
Qed.
Lemma holds_close fd2 (w : W) r w' fd ino : io_close fd2 w = (r, w') -> fd2 <> fd -> holds fd ino (view w) -> holds fd ino (view w').
Proof. intros H Hne Hh. destruct (law_close _ _ _ _ H) as [_ ->]. unfold holds. cbn. by rewrite lookup_delete_ne. Qed.

Lemma pwriteFull_frame fd b off (w : W) r w' : 0 <= off -> off + zlen b < p64 -> Forall is_byte b ->
  pwriteFull fd b off w = (r, w') -> fs_fds (view w') = fs_fds (view w) /\ fs_names (view w') = fs_names (view w).
Proof.
  intros Ho Hl Hb H. destruct (pwriteFull_spec _ _ _ _ _ _ Ho Hl Hb H) as [[_ [[_ ->]|U]]|[_ [->|U]]]; try done;
    by apply SlotCreate.updated_fds in U.
Qed.

Lemma tokMatches_spec path n mt m (w : W) b w' : tokMatches path n mt m w = (b, w') ->
  frozen (view w) (view w') /\ (forall fd ino, holds fd ino (view w) -> holds fd ino (view w')) /\
  (b = true -> exists d, Meta.data_of (view w) path = Some d /\ zsub d 0 28 = tokImage n mt m).
Proof.
  intros H. split; [|split].
  { revert H. assert (keeps (W := W) (frozen (view w)) (tokMatches path n mt m)) as K by (unfold tokMatches; keeps).
    apply K, frozen_refl. }
  { intros fd ino Hh. unfold tokMatches in H. apply mbind_inv in H as (fd2 & w1 & Ho & H).
    destruct (holds_open _ _ _ _ _ _ _ Ho Hh) as [H1 Hne].
    destruct (fd2 <? 0) eqn:E; b2p; [by injection H as _ <-|]. apply mbind_inv in H as (x & w2 & Hp & H).
    apply mbind_inv in H as (c & w3 & Hc & [= _ <-]). apply (holds_close _ _ _ _ _ _ Hc (Hne ltac:(lia))).
    by rewrite (preadFull_view _ _ _ _ _ _ Hp). }
  intros ->. unfold tokMatches in H. apply mbind_inv in H as (fd & w1 & Ho & H).
  destruct (law_open _ _ _ _ _ Ho) as [[Hfd _]|[Hfd Hop]].
  { by rewrite (proj2 (Z.ltb_lt _ _) Hfd) in H. }
  rewrite (proj2 (Z.ltb_ge _ _) Hfd) in H. apply mbind_inv in H as ([r b] & w2 & Hp & H).
  apply mbind_inv in H as (c & w3 & _ & H). cbn [fst snd] in H. injection H as H _. b2p. apply bool_decide_eq_true in H0.
  destruct (rdonly_opened _ _ _ _ Hop) as (_ & f & Hf & Hof). exists (i_data f). unfold Meta.data_of. rewrite Hf.
  split; [done|]. rewrite <- H0.
  destruct (preadFull_spec fd 28 0 w1 r b w2 ltac:(lia) ltac:(lia) ltac:(lia) Hp) as [_ [(_ & _ & [?|(g & Hg & ->)])|[? _]]]; [lia| |lia].
  by assert (g = f) as -> by congruence.
Qed.

Lemma tokWrite_holds path n mt m (w : W) x w' fd ino f : calm (view w) -> tokWrite path n mt m w = (x, w') ->
  holds fd ino (view w) -> fs_inodes (view w) !! ino = Some f -> fs_names (view w) !! path <> Some ino ->
  holds fd ino (view w') /\ fs_inodes (view w') !! ino = Some f.
Proof.
  intros Hc H Hh Hi Hp. unfold tokWrite in H. apply mbind_inv in H as (fd2 & w1 & Ho & H).
  destruct (holds_open _ _ _ _ _ _ _ Ho Hh) as [H1 Hne].
  destruct (law_open _ _ _ _ _ Ho) as [[Hfd Hv]|[Hfd Hop]].
  { rewrite (proj2 (Z.ltb_lt _ _) Hfd) in H. injection H as _ <-. by rewrite Hv. }
  rewrite (proj2 (Z.ltb_ge _ _) Hfd) in H. apply mbind_inv in H as (r & w2 & Hw & H).
  apply mbind_inv in H as (c & w3 & Hcl & [= _ <-]).
  destruct (RPublish.tokImage_bytes n mt m) as [Hl Hb]. assert (zlen (tokImage n mt m) < p64) as Hl' by lia.
  destruct (Meta.writing_opened _ _ _ _ (proj1 Hc) Hop) as [Hw1 Hf1].
  destruct (Meta.store_write_spec _ _ _ _ _ _ _ Hw1 Hf1 Hb Hl' Hw) as (d & Hw2 & _ & _).
  destruct (pwriteFull_frame fd2 (tokImage n mt m) 0 w1 r w2 (Z.le_refl 0) Hl' Hb Hw) as [E2 N2].
  split.
  - apply (holds_close _ _ _ _ _ _ Hcl (Hne Hfd)). unfold holds. by rewrite E2.
  - destruct (law_close _ _ _ _ Hcl) as [_ ->]. cbn. destruct Hw2 as [(it & ft & Hn & Hft & _ & Hal & Hfr) Hnm].
    rewrite Hfr; [done|]. intros <-. destruct Hop as [_ Hop]. destruct (fs_names (view w) !! path) as [ip|] eqn:Ep.
    + destruct Hop as (_ & g & Hg & Hop). destruct Hw1 as [(i1 & f1 & Hn1 & _) _]. rewrite Hop in Hn1. cbn in Hn1.
      rewrite N2, Hop in Hn. cbn in Hn. congruence.
    + destruct Hop as (_ & i2 & mt2 & mtn2 & Hi2 & Hop).
      rewrite N2, Hop in Hn. cbn in Hn. rewrite lookup_insert_eq in Hn. congruence.
Qed.

Lemma drop_removes cfg k s0 : keeps (W := W) (removes s0) (drop cfg k).
Proof. unfold drop. repeat first [apply keeps_bind; [apply keeps_removes_unlink|intros ?] | apply keeps_ret]. Qed.

(** What an adopted view guarantees; [s] is the disk before, [s'] after. *)
Record adopted (cfg : Config.Config) (k : UrlKey.UrlKey) (os om ck oc : Z) (s s' : fs) (v : ReplicaView) : Prop := {
  ad_valid : invalid_ v = false;
  ad_sidecar : exists d, Meta.data_of s (tmetaPath cfg k) = Some d /\ deserialize d = Some (meta_ v);
  ad_matches : adoptable cfg (meta_ v) (UrlKey.key k) os om ck oc = true;
  ad_overlay : exists ino f, fs_names s !! tdataPath cfg k = Some ino /\ fs_inodes s !! ino = Some f /\
    zlen (i_data f) = tdataBytes (meta_ v) /\ holds (fd_ v) ino s' /\ fs_inodes s' !! ino = Some f /\
    ((forall j, 0 <= j < npages (meta_ v) -> page_good (meta_ v) (i_data f) j) \/
     (exists d, Meta.data_of s (tokPath cfg k) = Some d /\
        zsub d 0 28 = tokImage (tdataBytes (meta_ v)) (mtimeNs (stat_of ino f)) (meta_ v)))
}.

Lemma quarantine_spec cfg k (s : World) r s' : quarantine cfg k s = (r, s') ->
  r = None /\ (forall s0, removes s0 (view (io_ s)) -> removes s0 (view (io_ s'))) /\
  stats_ s' replicaInvalid = stats_ s replicaInvalid +% 1.
Proof.
  unfold quarantine. intros H. apply mbind_inv in H as ([] & s1 & [= <-] & H). apply mbind_inv in H as (x & s2 & H & [= <- <-]).
  apply rio_inv in H as (w & H & ->). cbn [io_ stats_] in *. split; [done|]. split; [|done].
  intros s0 R. eapply drop_removes; [|exact H]. done.
Qed.

Definition refused (s s' : World) : Prop :=
  removes (view (io_ s)) (view (io_ s')) /\
  (stats_ s' = stats_ s /\ frozen (view (io_ s)) (view (io_ s')) \/ stats_ s' replicaInvalid = stats_ s replicaInvalid +% 1).

Lemma quar_refused cfg k (s0 s : World) o s' :
  frozen (view (io_ s0)) (view (io_ s)) -> stats_ s replicaInvalid = stats_ s0 replicaInvalid ->
  (do v <- quarantine cfg k; ret (Some v)) s = (o, s') -> o = Some None /\ refused s0 s'.
Proof.
  intros F E H. apply mbind_inv in H as (v & s1 & H & [= <- <-]). destruct (quarantine_spec _ _ _ _ _ H) as (-> & R & S).
  split; [done|]. split; [|right; by rewrite S, E]. apply R. eapply removes_frozen; [exact F|]. by intros q x.
Qed.

Lemma replica_load_spec path (w : W) o w' : load path w = (o, w') ->
  frozen (view w) (view w') /\ (o = None \/ exists d, Meta.data_of (view w) path = Some d /\ o = deserialize d).
Proof. apply (load_with_spec deserialize). Qed.

Lemma openView_spec cfg k os om ck oc (s : World) o s' :
  calm (view (io_ s)) -> (forall i f, fs_inodes (view (io_ s)) !! i = Some f -> zlen (i_data f) < p63) ->
  openView cfg k os om ck oc s = (o, s') ->
  exists r, o = Some r /\
  match r with
  | Some v => adopted cfg k os om ck oc (view (io_ s)) (view (io_ s')) v
  | None => refused s s'
  end.
Proof.
  intros Hc Hsz H. unfold openView in H.
  apply mbind_inv in H as ([r st] & s1 & H1 & H). apply rio_inv in H1 as (w1 & H1 & ->).
  destruct (law_stat _ _ _ _ _ H1) as (_ & V1 & _). cbn [fst snd] in H.
  destruct (r <? 0) eqn:Er.
  { injection H as <- <-. exists None. split; [done|]. split; cbn [io_]; rewrite V1; [by intros q x|by left]. }
  apply mbind_inv in H as (om_ & s2 & H2 & H). apply rio_inv in H2 as (w2 & H2 & ->). cbn [io_ stats_] in *.
  destruct (replica_load_spec _ _ _ _ H2) as [F2 L2]. rewrite V1 in F2, L2.
  destruct om_ as [m|]; [|eapply quar_refused in H as [-> ?]; [by exists None|done|done]].
  destruct (adoptable _ _ _ _ _ _ _) eqn:Ead; cbn [negb] in H; [|eapply quar_refused in H as [-> ?]; [by exists None|done|done]].
  destruct L2 as [L2|(dm & Hdm & Ldm)]; [done|].
  apply mbind_inv in H as (fd & s3 & H3 & H). apply rio_inv in H3 as (w3 & H3 & ->). cbn [io_ stats_] in *.
  destruct (law_open _ _ _ _ _ H3) as [[Hfd V3]|[Hfd Hop]].
  { rewrite (proj2 (Z.ltb_lt _ _) Hfd) in H. eapply quar_refused in H as [-> ?]; [by exists None| |done]. cbn [io_]. by rewrite V3. }
  rewrite (proj2 (Z.ltb_ge _ _) Hfd) in H. destruct (rdonly_opened _ _ _ _ Hop) as (F3 & f & Hf & Hof).
  pose proof (frozen_trans _ _ _ F2 F3) as F03.
  assert (exists ino, fs_names (view (io_ s)) !! tdataPath cfg k = Some ino /\ fs_inodes (view (io_ s)) !! ino = Some f /\
    holds fd ino (view w3)) as (ino & Hn & Hi & Hh).
  { destruct Hop as [_ Hop]. unfold file_of in Hf. destruct F2 as [N2 I2]. rewrite N2, I2 in *.
    destruct (fs_names (view (io_ s)) !! tdataPath cfg k) as [ino|]; [|done]. exists ino. cbn in Hf.
    destruct Hop as (_ & n & _ & ->). unfold holds. cbn. by rewrite lookup_insert_eq. }
  pose proof (Hsz _ _ Hi) as Hlf. pose proof (zlen_nonneg (i_data f)).
  apply mbind_inv in H as ([rf dst] & s4 & H4 & H). apply rio_inv in H4 as (w4 & H4 & ->). cbn [io_ stats_ fst snd] in *.
  destruct (law_fstat _ _ _ _ _ H4) as (Hr4 & V4 & Hst4).
  destruct ((rf <? 0) || negb (w64 (st_size dst) =? tdataBytes m)) eqn:Esz.
  { apply mbind_inv in H as (c & s5 & H5 & H). apply rio_inv in H5 as (w5 & H5 & ->). cbn [io_ stats_] in *.
    eapply quar_refused in H as [-> ?]; [by exists None| |done]. cbn [io_]. destruct (law_close _ _ _ _ H5) as [_ ->]. rewrite V4. exact F03. }
  apply orb_false_iff in Esz as [E4 Esz]. b2p.
  destruct (Hst4 ltac:(lia)) as (ino' & f' & Hfd' & Hi' & ->). unfold holds in Hh.
  assert (ino' = ino) as -> by congruence. destruct F03 as [N03 I03]. assert (f' = f) as -> by congruence.
  cbn [stat_of st_size] in Esz. rewrite w64_small in Esz by lia.
  apply mbind_inv in H as (known & s5 & H5 & H). apply rio_inv in H5 as (w5 & H5 & ->). cbn [io_ stats_] in *.
  destruct (tokMatches_spec _ _ _ _ _ _ _ H5) as (F5 & K5 & T5). rewrite V4 in F5, K5, T5. specialize (K5 fd ino Hh).
  pose proof (frozen_trans _ _ _ (conj N03 I03 : frozen _ _) F5) as F05.
  assert (open_file (view w5) fd = Some f) as Hof5.
  { unfold open_file. unfold holds in K5. rewrite K5. cbn. destruct F05 as [_ ->]. done. }
  apply mbind_inv in H as (ok & s6 & H6 & H). destruct known.
  - injection H6 as <- <-. apply mbind_inv in H as (u & s7 & [= _ <-] & [= <- <-]). cbn [io_ stats_] in *.
    eexists; split; [reflexivity|]. split; cbn [meta_ fd_ invalid_]; [done|by exists dm|done|]. exists ino, f.
    do 3 (split; [done|]). split; [done|]. split; [destruct F05 as [_ ->]; done|]. right.
    destruct (T5 eq_refl) as (d & Hd & Hz). exists d. split; [|done]. rewrite <- Hd. symmetry. by apply frozen_data.
  - apply mbind_inv in H6 as (ok' & s7 & H7 & H6). apply rio_inv in H7 as (w7 & H7 & ->). cbn [io_ stats_] in *.
    pose proof (rep_npages_of_plain (tdataBytes m) ltac:(lia)) as [_ Hnp]. fold (npages m) in Hnp.
    destruct (scan_loop_spec (S (Z.to_nat (npages m))) fd m f w5 0 ok' w7 ltac:(lia) Hof5 ltac:(lia) ltac:(lia) H7) as (V7 & b & -> & Hgood).
    destruct b.
    + apply mbind_inv in H6 as (u & s8 & H8 & [= <- <-]). apply rio_inv in H8 as (w8 & H8 & ->). cbn [io_ stats_] in *.
      apply mbind_inv in H as (u' & s9 & [= _ <-] & [= <- <-]). cbn [io_ stats_] in *.
      eexists; split; [reflexivity|]. split; cbn [meta_ fd_ invalid_]; [done|by exists dm|done|]. exists ino, f.
      pose proof (frozen_calm _ _ F05 Hc) as C5. rewrite <- V7 in C5.
      destruct (tokWrite_holds _ _ _ _ _ _ _ fd ino f C5 H8) as [G1 G2].
      { by rewrite V7. } { rewrite V7. destruct F05 as [_ ->]. done. }
      { rewrite V7. destruct F05 as [-> _]. destruct Hc as [_ Hl]. apply (Hl (tdataPath cfg k)); [|done].
        apply (RPublish.paths_ne cfg k). }
      do 5 (split; [done|]). left. intros j Hj. apply Hgood; [done|lia].
    + apply mbind_inv in H6 as ([] & s8 & [= <-] & H6). apply mbind_inv in H6 as (c & s9 & H9 & [= <- <-]).
      apply rio_inv in H9 as (w9 & H9 & ->). cbn [io_ stats_] in *. eapply (quar_refused _ _ s) in H as [-> ?]; [by exists None| |done].
      cbn [io_]. destruct (law_close _ _ _ _ H9) as [_ ->]. by rewrite V7.
Qed.
End adopt.

(** [openView] adopts only what it validated. On any disk whose files are shorter
    than 2^63 bytes and under any failure it terminates. A view it returns is
    valid; its sidecar is the decoded one on disk and agrees with the caller's
    key, size and validators; its descriptor is the overlay file, whose size is
    the sidecar's and whose content adoption did not change; and either every
    overlay page was read whole with a matching CRC, or the verify-once marker on
    disk is the one for this size, modification time and page CRCs. A refusal
    either changes nothing and counts nothing, or is counted invalid, and removes
    files at most: no file is created or modified. *)
Theorem replica_openView_validated {W} `{!IOBackend W, !IOLaws W} `{CK : Checksum} (cfg : Config.Config) (k : UrlKey.UrlKey)
    (os om ck oc : Z) (s s' : World) (o : option (option ReplicaView))
    (Hc : calm (view (io_ s))) (Hsz : forall i f, fs_inodes (view (io_ s)) !! i = Some f -> zlen (i_data f) < p63)
    (Hrun : openView cfg k os om ck oc s = (o, s')) :
  exists r, o = Some r /\
  match r with
  | Some v => adopted cfg k os om ck oc (view (io_ s)) (view (io_ s')) v
  | None => refused s s'
  end.
Proof. by eapply openView_spec. Qed.

Import RPublish.

(** ** What a later open makes of the files a publish left *)
Section left.
Context {W : Type} `{!IOBackend W, !IOLaws W} `{CK : Checksum} (cfg : Config.Config) (k : UrlKey.UrlKey).
Abbreviation at_ s p := (Meta.data_of (view (io_ (s : @World W))) p).
Abbreviation D := (tdataPath cfg k).
Abbreviation T := (tmetaPath cfg k).

(** Every page of the overlay [data] passes the sidecar [m], or the verify-once marker that is on disk
    was written for an overlay of this size, checksums and modification time. *)
Definition checked (m : ReplicaMeta) (data : bytes) (s : @World W) : Prop :=
  (forall j, 0 <= j < npages m -> page_good m data j) \/
  exists ino f d, fs_names (view (io_ s)) !! D = Some ino /\ fs_inodes (view (io_ s)) !! ino = Some f /\
    at_ s (tokPath cfg k) = Some d /\ zsub d 0 28 = tokImage (tdataBytes m) (mtimeNs (stat_of ino f)) m.

(** Whatever view a later process opens over the files [s'] holds, it is one of three: the new
    replica, whole; the one from before, untouched; or the sidecar from before over the new
    overlay, and then only an overlay that passes that sidecar. What it serves is the overlay's
    bytes, of pages that match the view's own sidecar. *)
Definition only_whole_views (tdata : bytes) (m : ReplicaMeta) (s s' : @World W) : Prop :=
  forall os om ck oc (s2 s3 : @World W) v, view (io_ s2) = view (io_ s') -> openView cfg k os om ck oc s2 = (Some (Some v), s3) ->
  exists data, at_ s' D = Some data /\ zlen data = tdataBytes (meta_ v) /\
    (at_ s' T = Some (serialize m) /\ deserialize (serialize m) = Some (meta_ v) /\ data = tdata \/
     at_ s' T = at_ s T /\ at_ s D = Some data \/
     at_ s' T = at_ s T /\ data = tdata /\ checked (meta_ v) tdata s') /\
    forall off len out out' v' (s4 s5 : @World W), view (io_ s4) = view (io_ s3) -> is_u64 off -> is_u64 len -> zlen out = len ->
      read v off len out s4 = (Some (true, out', v'), s5) ->
      out' = zsub data off len /\ (0 < len -> off + len <= zlen data /\
        forall j, off / 65536 <= j <= (off + len - 1) / 65536 -> page_good (meta_ v) data j).

Lemma whole_views m tdata (s s' : @World W) :
  calm (view (io_ s')) -> (forall i f, fs_inodes (view (io_ s')) !! i = Some f -> zlen (i_data f) < p63) ->
  left_behind tdata (serialize m) (at_ s D) (at_ s T) (at_ s' D) (at_ s' T) -> only_whole_views tdata m s s'.
Proof.
  intros Hc Hsz Hlb os om ck oc s2 s3 v H2 Hopen.
  destruct (openView_spec cfg k os om ck oc s2 (Some (Some v)) s3) as (r & [= <-] & A); [by rewrite H2|by rewrite H2|done|].
  destruct A as [_ (d & Hd & Hde) _ (ino & f & Hn & Hi & Hfl & Hh & Hi3 & Hck)]. rewrite H2 in *.
  assert (at_ s' D = Some (i_data f)) as HD by (unfold Meta.data_of, file_of; rewrite Hn; cbn; by rewrite Hi).
  exists (i_data f). split; [done|]. split; [done|]. split.
  - assert (i_data f = tdata -> checked (meta_ v) tdata s') as Hchk.
    { intros <-. destruct Hck as [?|(d' & Hd' & Ht)]; [by left|right]. by exists ino, f, d'. }
    rewrite HD, Hd in Hlb. destruct Hlb as [Ht [Hx|[Hx|Hx]]|[Ht|Ht] [Hx|Hx]]; try done.
    + right; left. split; congruence.
    + right; right. injection Hx as Hx. split; [congruence|]. split; [done|by apply Hchk].
    + left. injection Ht as ->. by injection Hx as ->.
  - intros off len out out' v' s4 s5 H4 Ho Hl Hout Hread. pose proof (Hsz _ _ Hi). pose proof (zlen_nonneg (i_data f)).
    destruct (replica_read_verified_lemma v f off len out s4 s5 (Some (true, out', v'))) as (ok & b & v2 & [= <- <- <-] & _ & _ & Hok & _);
      [lia|done|done|done| |done|].
    + rewrite H4. unfold open_file. unfold holds in Hh. rewrite Hh. cbn. exact Hi3.
    + destruct (Hok eq_refl) as (_ & -> & Hp). split; [done|]. intros Hl0. rewrite Hfl. by apply Hp.
Qed.
End left.

(** C14: [publish] never leaves a servable torn replica, whatever fails and wherever it stops: a
    process that dies at some call is the backend failing every call from there on. Over any backend
    with its syncs, renames and unlinks recorded, the order of those calls is one of four: the
    overlay was not put in place; it was, and the sidecar was not, and then the overlay's unlink was
    tried; both were, and were withdrawn again for a slot store; both were. "Put in place" is in each
    case the sync of the complete file followed by its rename, the overlay's before the sidecar's. On
    return nothing but the replica's own files has changed, and whatever view a later process opens
    over them is the new replica whole, the old one untouched, or - where a death or a failed unlink
    left the new overlay under the old sidecar - one whose every overlay page passed that sidecar's
    checksums, or whose marker on disk vouches for this very size and modification time; and every
    read such a view answers is of pages that match its own sidecar. A result of 0 means both files
    are in place, the sidecar passed the deserializer, and the publish is counted. *)
Theorem replica_publish_safe {W} `{!IOBackend W, !IOLaws W, !IOTrace W} `{CK : Checksum} (cfg : Config.Config) (k : UrlKey.UrlKey)
    (m0 : ReplicaMeta) (tdata : bytes) (s s' : World) (rc : Z)
    (Hc : calm (view (io_ s))) (Hk : Forall is_byte (UrlKey.key k)) (Hb : Forall is_byte tdata) (Hl : zlen tdata < p64)
    (Hsz : forall i f, fs_inodes (view (io_ s')) !! i = Some f -> zlen (i_data f) < p63)
    (Hrun : publish cfg k m0 tdata s = (rc, s')) :
  let m := with_payload m0 (UrlKey.key k) tdata in
  let at_ w := Meta.data_of (view (io_ w)) in
  (exists l, events (io_ s') = events (io_ s) ++ l /\ publish_order cfg k tdata (serialize m) rc l) /\
  others cfg k (view (io_ s)) (view (io_ s')) /\
  left_behind tdata (serialize m) (at_ s (tdataPath cfg k)) (at_ s (tmetaPath cfg k)) (at_ s' (tdataPath cfg k)) (at_ s' (tmetaPath cfg k)) /\
  only_whole_views cfg k tdata m s s' /\
  rc <= 0 /\
  (rc = 0 -> at_ s' (tdataPath cfg k) = Some tdata /\ at_ s' (tmetaPath cfg k) = Some (serialize m) /\
     is_Some (deserialize (serialize m)) /\ stats_ s' replicaPublished = stats_ s replicaPublished +% 1) /\
  (rc <> 0 -> stats_ s' = stats_ s).
Proof.
  intros m at_. split; [by apply publish_order_spec|].
  destruct (publish_spec cfg k m0 tdata s s' rc Hc Hk Hb Hl Hrun) as (Hc' & Ho & Hlb & H).
  split; [done|]. split; [done|]. split; [by apply whole_views|done].
Qed.

(** C2: end to end. After a publish that returned 0, whatever failed on the way, a view
    some process adopts from that disk, with whatever failures of its own, serves
    the publisher's bytes: every [read] that reports success fills the buffer
    with the payload's bytes of the range. A well-formed sidecar is adopted as it
    was published. *)
Theorem replica_end_to_end {W} `{!IOBackend W, !IOLaws W} `{CK : Checksum} (cfg : Config.Config) (k : UrlKey.UrlKey)
    (m0 : ReplicaMeta) (tdata : bytes) (os om ck oc off len : Z) (out out' : bytes) (v v' : ReplicaView)
    (s s1 s2 s3 s4 s5 : World)
    (Hc : calm (view (io_ s))) (Hk : Forall is_byte (UrlKey.key k)) (Hb : Forall is_byte tdata) (Hl : zlen tdata < p63)
    (Hpub : publish cfg k m0 tdata s = (0, s1)) (H12 : view (io_ s2) = view (io_ s1))
    (Hsz : forall i f, fs_inodes (view (io_ s1)) !! i = Some f -> zlen (i_data f) < p63)
    (Hopen : openView cfg k os om ck oc s2 = (Some (Some v), s3)) (H34 : view (io_ s4) = view (io_ s3))
    (Ho : is_u64 off) (Hlen : is_u64 len) (Hout : zlen out = len)
    (Hread : read v off len out s4 = (Some (true, out', v'), s5)) :
  out' = zsub tdata off len /\
  (wf (with_payload m0 (UrlKey.key k) tdata) -> meta_ v = with_payload m0 (UrlKey.key k) tdata).
Proof.
  destruct (RPublish.publish_spec cfg k m0 tdata s s1 0 Hc Hk Hb ltac:(lia) Hpub) as (C1 & _ & _ & _ & Hz & _).
  destruct (Hz eq_refl) as (HD & HT & _ & _). clear Hz Hpub. cbn beta zeta in HD, HT.
  destruct (openView_spec cfg k os om ck oc s2 (Some (Some v)) s3) as (r & [= <-] & A); [by rewrite H12|by rewrite H12|done|].
  destruct A as [_ (d & Hd & Hde) _ (ino & f & Hn & Hi & Hfl & Hh & Hi3 & _)]. rewrite H12 in *.
  assert (i_data f = tdata) as Hf.
  { unfold Meta.data_of, file_of in HD. rewrite Hn in HD. cbn in HD. rewrite Hi in HD. cbn in HD. congruence. }
  split.
  - destruct (replica_read_verified_lemma v f off len out s4 s5 (Some (true, out', v'))) as (ok & b & v2 & [= <- <- <-] & _ & _ & Hok & _);
      [rewrite <- Hfl, Hf; pose proof (zlen_nonneg tdata); lia|done|done|done| |done|].
    + rewrite H34. unfold open_file. unfold holds in Hh. rewrite Hh. cbn. exact Hi3.
    + destruct (Hok eq_refl) as (_ & -> & _). by rewrite Hf.
  - intros Hwf. rewrite HT in Hd. injection Hd as <-. pose proof (rep_deserialize_serialize _ Hwf). congruence.
Qed.

(** The whole cycle on an empty cache. *)
Definition published : Z * World := publish a_cfg a_key a_meta payload (empty_world []).
Definition opened_ : option (option ReplicaView) * World := openView a_cfg a_key 10 0 0 0 (snd published).
Definition the_view : ReplicaView :=
  match fst opened_ with Some (Some v) => v | _ => mkView a_meta (-1) true end.
Definition served : option (bool * bytes * ReplicaView) * World := read the_view 2 4 (zeros 4) (snd opened_).

Definition small (s : fs) : bool := bool_decide (map_Forall (fun _ f => zlen (i_data f) < p63) (fs_inodes s)).
Lemma small_spec s : small s = true -> forall i f, fs_inodes s !! i = Some f -> zlen (i_data f) < p63.
Proof. intros H%bool_decide_eq_true_1 i f Hf. by apply (H i f). Qed.
Lemma key_bytes : Forall is_byte (UrlKey.key a_key) /\ Forall is_byte payload.
Proof. split; repeat constructor; vm_compute; congruence. Qed.
Lemma published_calm : calm (view (io_ (snd published))).
Proof.
  destruct key_bytes as [Hk Hb].
  apply (publish_spec a_cfg a_key a_meta payload (empty_world []) (snd published) (fst published) (empty_calm []) Hk Hb);
    [reflexivity|apply surjective_pairing].
Qed.
Lemma published_small : small (view (io_ (snd published))) = true.
Proof. vm_compute. reflexivity. Qed.
Lemma opened_ok : fst opened_ = Some (Some the_view).
Proof. vm_compute. reflexivity. Qed.
Lemma served_ok : fst served = Some (true, [3; 4; 5; 6], the_view).
Proof. vm_compute. reflexivity. Qed.

(** A publish over the memory file system, recorded. *)
Definition recorded_world : @World (memw * list io_event) := mkWorld (mkMem (mkFs ∅ ∅ ∅) [], []) (fun _ => 0).
Definition recorded_publish : Z * @World (memw * list io_event) := publish a_cfg a_key a_meta payload recorded_world.
Lemma recorded_small : small (view (io_ (snd recorded_publish))) = true.
Proof. vm_compute. reflexivity. Qed.

Lemma replica_publish_safe_witness :
  fst recorded_publish = 0 /\
  (exists i j, events (io_ (snd recorded_publish)) =
     placed_overlay a_cfg a_key payload i ++
     placed_sidecar a_cfg a_key (serialize (with_payload a_meta (UrlKey.key a_key) payload)) j) /\
  Meta.data_of (view (io_ (snd recorded_publish))) (tdataPath a_cfg a_key) = Some payload.
Proof.
  assert (fst recorded_publish = 0) as E by (vm_compute; reflexivity). split; [exact E|].
  destruct (replica_publish_safe a_cfg a_key a_meta payload recorded_world (snd recorded_publish) (fst recorded_publish))
    as ((l & El & Hl) & _ & _ & _ & _ & H & _);
    [exact (empty_calm [])|exact (proj1 key_bytes)|exact (proj2 key_bytes)|reflexivity|exact (small_spec _ recorded_small)|exact (surjective_pairing _)|].
  split; [|exact (proj1 (H E))]. rewrite E in Hl.
  inversion Hl as [rc l' Hrc|rc i l' u Hrc|i j u v|i j]; subst; [exfalso; lia|exfalso; lia|].
  exists i, j. exact El.
Defined.

Lemma replica_openView_validated_witness :
  exists r, fst opened_ = Some r /\ match r with Some v => invalid_ v = false | None => False end.
Proof.
  destruct (replica_openView_validated a_cfg a_key 10 0 0 0 (snd published) (snd opened_) (fst opened_) published_calm
    (small_spec _ published_small) (surjective_pairing _)) as (r & Hr & Ha).
  exists r. split; [exact Hr|]. rewrite opened_ok in Hr. injection Hr as <-. exact (ad_valid _ _ _ _ _ _ _ _ _ Ha).
Defined.

Lemma replica_end_to_end_witness : fst published = 0 /\ [3; 4; 5; 6] = zsub payload 2 4.
Proof.
  assert (fst published = 0) as E by (vm_compute; reflexivity). split; [exact E|].
  refine (proj1 (replica_end_to_end a_cfg a_key a_meta payload 10 0 0 0 2 4 (zeros 4) [3; 4; 5; 6] the_view the_view
    (empty_world []) (snd published) (snd published) (snd opened_) (snd opened_) (snd served)
    (empty_calm []) (proj1 key_bytes) (proj2 key_bytes) eq_refl _ eq_refl (small_spec _ published_small) _ eq_refl _ _ eq_refl _)).
  - rewrite <- E. exact (surjective_pairing published).
  - rewrite <- opened_ok. exact (surjective_pairing opened_).
  - unfold is_u64. lia.
  - unfold is_u64. lia.
  - rewrite <- served_ok. exact (surjective_pairing served).
Defined.
End RAdopt.
