(* ===== verification/CacheStore.v ===== *)
(** * The cache root (src/core/CacheStore.h, CacheStore.cc)

    The process-wide store: the registry of open entries (one per key), admission,
    the eviction pass with its budget, protection window and lock, the shard scan
    it works from, cleanup, the sweep of orphaned artifacts, pinning, removal and
    invalidation. An open handle is an object [objs_] holds; a registry slot is a
    weak pointer, whose lock fails once the object is gone.

    Worker threads over shards and over victims are run in index order: each
    touches its own shard's or victim's files and result slot. The usage hook of
    an entry ([OnPersist]) is the step [notePersisted]. Footprints, the JSON
    statistics and log lines are left out; [coverage] is kept as its two operands. *)

From Stdlib Require Import SpecFloat.
From stdpp Require Import sorting.
From S2P Require Import Prelude IOBackend Crc32c PageBitmap Config MetaFile UrlKey FileEntry SlotStore.

(** ** The two backend calls only the store makes *)
Class IODirs (W : Type) := {
  io_listDir : bytes -> M W (Z * list bytes);
  io_spaceInfo : bytes -> M W (Z * Z * Z)        (* result, available, total *)
}.

Module Store.

(** ** Settings of the budget *)
Record Budget := mkBudget {
  maxBytes : Z; minFreeBytes : Z; budgetAuto : bool; highWater : spec_float; lowWater : spec_float;
  evictCheckSeconds : Z; evictProtectSeconds : Z
}.

(** [static_cast<uint64_t>(w * bytes)] in binary64. *)
Definition of_uint64 (n : Z) : spec_float := binary_normalize 53 1024 n 0 false.
Definition to_uint64 (f : spec_float) : Z :=
  match f with
  | S754_finite false m e => if 0 <=? e then Z.shiftl (Zpos m) e else Z.shiftr (Zpos m) (- e)
  | _ => 0
  end.
Definition waterMark (f : spec_float) (n : Z) : Z := to_uint64 (SFmul 53 1024 f (of_uint64 n)).

(** ** State *)
Record Obj := mkObj { o_key : UrlKey.UrlKey; o_entry : Entry.FileEntry; o_obs : Entry.ctr -> Z }.
Inductive sctr := evictedEntries | evictedBytes | admissionsBypassed | filesOpened | replicaOrphansSwept | o_opens (id : Z).
#[global] Instance sctr_eq : EqDecision sctr.
Proof. solve_decision. Defined.

Definition is_obs (c : Entry.ctr) : bool :=
  match c with
  | Entry.o_servedBytes | Entry.o_ramBytes | Entry.o_diskReads | Entry.o_diskSeq | Entry.o_diskBytes
  | Entry.o_firstTouchBytes | Entry.o_wireBytes | Entry.o_prefetchServed | Entry.o_prefetchDropped
  | Entry.o_firstUs | Entry.o_lastUs => true
  | _ => false
  end.

(** One object as the shard scan sees it. *)
Record MetaScan := mkScan {
  s_dataPath : bytes; s_metaPath : bytes; s_hashHex : bytes; s_key : bytes; s_fileSize : Z; s_atime : Z;
  s_cachedBytes : Z; s_replicaBytes : Z; s_replicated : bool; s_slotDeclined : bool; s_coverage : Z * Z;
  s_artifacts : Z; s_pinned : bool; s_complete : bool
}.
Definition kArtTdata : Z := 1.
Definition kArtTmeta : Z := 2.
Definition kArtTok : Z := 4.
Definition kArtVal : Z := 8.
Definition kArtCost : Z := 16.
Definition kArtSlots : Z := 32.
Definition art_has (s bit : Z) : bool := negb (Z.land s bit =? 0).

(** ** Strings *)
Definition str_le (a b : bytes) : Prop := UrlKey.str_lt b a = false.
#[global] Instance str_le_dec a b : Decision (str_le a b).
Proof. unfold str_le. apply _. Defined.
Definition chop (f : bytes) (n : Z) : bytes := take (Z.to_nat (zlen f - n)) f.
Definition ends_with (f suf : bytes) : bool := (zlen suf <=? zlen f) && bytes_eqb (drop (Z.to_nat (zlen f - zlen suf)) f) suf.
(** [f.find(pat)]. *)
Fixpoint find_sub (pat f : bytes) : option nat :=
  if bytes_eqb (take (length pat) f) pat then Some 0%nat
  else match f with [] => None | _ :: f' => S <$> find_sub pat f' end.
Definition elem_str (f : bytes) (l : list bytes) : bool := existsb (bytes_eqb f) l.

(** Victims oldest first. *)
Definition older (a b : MetaScan) : Prop := s_atime a <= s_atime b.
#[global] Instance older_dec a b : Decision (older a b).
Proof. unfold older. apply _. Defined.

Section store.
Context {W : Type} `{!IOBackend W, !IODirs W} `{CK : Checksum}.
Context (cfg : Config.Config) (clockS clockUs : nat -> Z).

Record Store := mkStore {
  world_ : @Entry.World W;
  budget_ : Budget;
  objs_ : gmap Z Obj;
  nextObj_ : Z;
  registry_ : gmap bytes Z;
  lastEvictCheckS_ : Z;
  approxUsage_ : Z;
  lastEvictEvicted_ : Z;
  admissionBlocked_ : bool;
  blockedWarned_ : bool;
  seenKeys_ : list bytes;
  dumpStatsOnDtor_ : bool;
  counts_ : sctr -> Z
}.

Definition set_world v s := mkStore v (budget_ s) (objs_ s) (nextObj_ s) (registry_ s) (lastEvictCheckS_ s) (approxUsage_ s)
  (lastEvictEvicted_ s) (admissionBlocked_ s) (blockedWarned_ s) (seenKeys_ s) (dumpStatsOnDtor_ s) (counts_ s).
Definition set_budget v s := mkStore (world_ s) v (objs_ s) (nextObj_ s) (registry_ s) (lastEvictCheckS_ s) (approxUsage_ s)
  (lastEvictEvicted_ s) (admissionBlocked_ s) (blockedWarned_ s) (seenKeys_ s) (dumpStatsOnDtor_ s) (counts_ s).
Definition set_objs v n s := mkStore (world_ s) (budget_ s) v n (registry_ s) (lastEvictCheckS_ s) (approxUsage_ s)
  (lastEvictEvicted_ s) (admissionBlocked_ s) (blockedWarned_ s) (seenKeys_ s) (dumpStatsOnDtor_ s) (counts_ s).
Definition set_registry v s := mkStore (world_ s) (budget_ s) (objs_ s) (nextObj_ s) v (lastEvictCheckS_ s) (approxUsage_ s)
  (lastEvictEvicted_ s) (admissionBlocked_ s) (blockedWarned_ s) (seenKeys_ s) (dumpStatsOnDtor_ s) (counts_ s).
Definition set_lastCheck v s := mkStore (world_ s) (budget_ s) (objs_ s) (nextObj_ s) (registry_ s) v (approxUsage_ s)
  (lastEvictEvicted_ s) (admissionBlocked_ s) (blockedWarned_ s) (seenKeys_ s) (dumpStatsOnDtor_ s) (counts_ s).
Definition set_approx v s := mkStore (world_ s) (budget_ s) (objs_ s) (nextObj_ s) (registry_ s) (lastEvictCheckS_ s) v
  (lastEvictEvicted_ s) (admissionBlocked_ s) (blockedWarned_ s) (seenKeys_ s) (dumpStatsOnDtor_ s) (counts_ s).
Definition set_lastEvicted v s := mkStore (world_ s) (budget_ s) (objs_ s) (nextObj_ s) (registry_ s) (lastEvictCheckS_ s) (approxUsage_ s)
  v (admissionBlocked_ s) (blockedWarned_ s) (seenKeys_ s) (dumpStatsOnDtor_ s) (counts_ s).
Definition set_blocked v s := mkStore (world_ s) (budget_ s) (objs_ s) (nextObj_ s) (registry_ s) (lastEvictCheckS_ s) (approxUsage_ s)
  (lastEvictEvicted_ s) v (blockedWarned_ s) (seenKeys_ s) (dumpStatsOnDtor_ s) (counts_ s).
Definition set_warned v s := mkStore (world_ s) (budget_ s) (objs_ s) (nextObj_ s) (registry_ s) (lastEvictCheckS_ s) (approxUsage_ s)
  (lastEvictEvicted_ s) (admissionBlocked_ s) v (seenKeys_ s) (dumpStatsOnDtor_ s) (counts_ s).
Definition set_seen v s := mkStore (world_ s) (budget_ s) (objs_ s) (nextObj_ s) (registry_ s) (lastEvictCheckS_ s) (approxUsage_ s)
  (lastEvictEvicted_ s) (admissionBlocked_ s) (blockedWarned_ s) v (dumpStatsOnDtor_ s) (counts_ s).
Definition set_counts v s := mkStore (world_ s) (budget_ s) (objs_ s) (nextObj_ s) (registry_ s) (lastEvictCheckS_ s) (approxUsage_ s)
  (lastEvictEvicted_ s) (admissionBlocked_ s) (blockedWarned_ s) (seenKeys_ s) (dumpStatsOnDtor_ s) v.
Definition set_dump v s := mkStore (world_ s) (budget_ s) (objs_ s) (nextObj_ s) (registry_ s) (lastEvictCheckS_ s) (approxUsage_ s)
  (lastEvictEvicted_ s) (admissionBlocked_ s) (blockedWarned_ s) (seenKeys_ s) v (counts_ s).

Definition get : M Store Store := fun s => (s, s).
Definition modS (f : Store -> Store) : M Store unit := fun s => (tt, f s).
Definition io {A} (m : M W A) : M Store A := fun s =>
  let '(a, w) := m (Entry.io_ (world_ s)) in (a, set_world (Entry.set_io w (world_ s)) s).
Definition bump (c : sctr) (n : Z) : M Store unit :=
  modS (fun s => set_counts (fun c' => if decide (c' = c) then counts_ s c' +% n else counts_ s c') s).
Definition nowS : M Store Z := fun s =>
  (w64 (clockS (Entry.ticks_ (world_ s))), set_world (Entry.tick (world_ s)) s).
Definition when (b : bool) (m : M Store unit) : M Store unit := if b then m else ret tt.

(** A method of the entry [id]: its own state and counters, the shared world. *)
Definition on_entry {A} (id : Z) (m : UrlKey.UrlKey -> M Entry.St A) : M Store (option A) := fun s =>
  match objs_ s !! id with
  | None => (None, s)
  | Some o =>
      let w := world_ s in
      let '(a, (e, w')) := m (o_key o)
        (o_entry o, Entry.set_stats (fun c => if is_obs c then o_obs o c else Entry.stats_ w c) w) in
      let global c := if is_obs c then Entry.stats_ w c else Entry.stats_ w' c in
      (Some a, set_objs (<[id := mkObj (o_key o) e (Entry.stats_ w')]> (objs_ s)) (nextObj_ s)
                 (set_world (Entry.set_stats global w') s))
  end.

(** ** The scan *)
Definition objRoot : bytes := Config.cacheDir cfg ++ bs "/objects".
Definition slash (a b : bytes) : bytes := a ++ bs "/" ++ b.

(** The [kArt*] bits of a stem, from the listing alone. *)
Definition artifacts_of (names : list bytes) (stem : bytes) : Z :=
  let bit suf k a := if elem_str (stem ++ bs suf) names then Z.lor a k else a in
  bit ".slots" kArtSlots (bit ".cost" kArtCost (bit ".val" kArtVal (bit ".tok" kArtTok
    (bit ".tmeta" kArtTmeta (bit ".tdata" kArtTdata 0))))).

Definition scan_file (dir : bytes) (names : list bytes) (replicated : bool) (f : bytes) : M W (option MetaScan) :=
  if (zlen f <? 5) || negb (ends_with f (bs ".meta")) then ret None
  else
    let metaPath := slash dir f in
    do m <- Meta.loadSummary metaPath;
    match m with
    | None => ret None
    | Some m =>
        let stem := chop f 5 in
        let arts := artifacts_of names stem in
        do td <- (if art_has arts kArtTdata then io_stat (slash dir (stem ++ bs ".tdata")) else ret (-1, stat0));
        let haveTd := fst td =? 0 in
        let rb := if haveTd then w64 (st_size (snd td)) else 0 in
        do sl <- (if art_has arts kArtSlots then io_stat (slash dir (stem ++ bs ".slots")) else ret (-1, stat0));
        let haveSlots := fst sl =? 0 in
        let size := w64 (st_size (snd sl)) in
        let declined := haveSlots && (size =? Slots.kHeaderBytes) in
        let more := haveSlots && (Slots.kHeaderBytes <? size) in
        do rep <- (if more && replicated && negb haveTd then Slots.holdsRecords dir stem else ret haveTd);
        ret (Some (mkScan (slash dir (stem ++ bs ".data")) metaPath stem (Meta.key m) (Meta.fileSize m) (Meta.atime m)
               (Meta.cachedBytes m) (if more then rb +% size else rb) rep declined
               (Bitmap.count_ (Meta.bitmap m), Meta.npages m) arts
               (negb (Z.land (Meta.flags m) Meta.kFlagPinned =? 0)) (negb (Z.land (Meta.flags m) Meta.kFlagComplete =? 0))))
    end.

Fixpoint scan_files (dir : bytes) (names : list bytes) (replicated : bool) (l : list bytes) (out : list MetaScan)
    : M W (list MetaScan) :=
  match l with
  | [] => ret out
  | f :: l' =>
      do s <- scan_file dir names replicated f;
      scan_files dir names replicated l' (match s with Some s => out ++ [s] | None => out end)
  end.

Definition scanShard (shard : bytes) (replicated : bool) : M W (list MetaScan) :=
  let dir := slash objRoot shard in
  do r <- io_listDir dir;
  if fst r <? 0 then ret [] else scan_files dir (snd r) replicated (snd r) [].

Fixpoint scan_shards (shards : list bytes) (replicated : bool) : M W (list MetaScan) :=
  match shards with
  | [] => ret []
  | sh :: l => do a <- scanShard sh replicated; do b <- scan_shards l replicated; ret (a ++ b)
  end.

Definition scanObjects (replicated : bool) : M W (list MetaScan) :=
  do r <- io_listDir objRoot;
  if fst r <? 0 then ret [] else scan_shards (merge_sort str_le (snd r)) replicated.

Definition scan_total (l : list MetaScan) : Z :=
  foldl (fun t s => t +% (s_cachedBytes s +% s_replicaBytes s)) 0 l.
Definition usageBytes : M Store Z := do l <- io (scanObjects false); ret (scan_total l).
Definition listEntries : M Store (list MetaScan) := io (scanObjects true).

(** ** The budget *)
Definition effectiveMinFree (b : Budget) : M W Z :=
  if negb (minFreeBytes b =? 0) then ret (minFreeBytes b)
  else if negb (budgetAuto b) then ret 0
  else
    do sp <- io_spaceInfo (Config.cacheDir cfg);
    let '(r, avail, total) := sp in
    if (r =? 0) && (0 <? avail) && (0 <? total) then ret (Z.min (Z.min (Z.shiftl 50 30) (total / 10)) (avail / 2))
    else ret (Z.shiftl 10 30).

Definition headroomToFloor (b : Budget) : M W Z :=
  do floor <- effectiveMinFree b;
  if floor =? 0 then ret (p64 - 1)
  else
    do sp <- io_spaceInfo (Config.cacheDir cfg);
    let '(r, avail, total) := sp in
    if negb (r =? 0) || (total =? 0) then ret 0
    else ret (if floor <? avail then avail -% floor else 0).

Definition with_minFree (v : Z) (b : Budget) : Budget :=
  mkBudget (maxBytes b) v (budgetAuto b) (highWater b) (lowWater b) (evictCheckSeconds b) (evictProtectSeconds b).

Definition resolveBudget : M Store unit :=
  do s <- get;
  do_ (if budgetAuto (budget_ s) && (minFreeBytes (budget_ s) =? 0) then
         do _ <- io (io_spaceInfo (Config.cacheDir cfg));
         do v <- io (effectiveMinFree (budget_ s));
         modS (fun s => set_budget (with_minFree v (budget_ s)) s)
       else ret tt);
  if 0 <? maxBytes (budget_ s) then do u <- usageBytes; modS (set_approx u) else ret tt.

(** ** Removing one entry's files: only what the scan saw *)
Definition suffixes : list (string * Z) :=
  [(".tdata", kArtTdata); (".tmeta", kArtTmeta); (".tok", kArtTok); (".val", kArtVal); (".cost", kArtCost); (".slots", kArtSlots)].
Fixpoint unlink_artifacts (base : bytes) (arts : Z) (l : list (string * Z)) : M W unit :=
  match l with
  | [] => ret tt
  | (suf, k) :: l' =>
      do_ (if art_has arts k then do _ <- io_unlink (base ++ bs suf); ret tt else ret tt);
      unlink_artifacts base arts l'
  end.
(** Data first, then the sidecar, then the artifacts; false when the data stays. *)
Definition remove_scanned (s : MetaScan) : M W bool :=
  do r <- io_unlink (s_dataPath s);
  if negb (r =? 0) then ret false
  else
    do_ io_unlink (s_metaPath s);
    do_ unlink_artifacts (chop (s_dataPath s) 5) (s_artifacts s) suffixes;
    ret true.

(** ** The sweep of orphans *)
Definition sweep_suffixes : list string :=
  [".tdata"; ".tmeta"; ".tok"; ".val"; ".cost"; ".tdata.tmp"; ".tmeta.tmp"; ".slots"].
Fixpoint match_suffix (f : bytes) (l : list string) : option bytes :=
  match l with
  | [] => None
  | suf :: l' => if (zlen (bs suf) <? zlen f) && ends_with f (bs suf) then Some (chop f (zlen (bs suf))) else match_suffix f l'
  end.
(** The hash an artifact belongs to, and whether it is a creation file. *)
Definition artifact_of (f : bytes) : option (bytes * bool) :=
  match match_suffix f sweep_suffixes with
  | Some h => Some (h, false)
  | None => match find_sub (bs ".slots.tmp.") f with Some n => Some (take n f, true) | None => None end
  end.
Definition metas_of (files : list bytes) : list bytes :=
  (fun f => chop f 5) <$> List.filter (fun f => (5 <? zlen f) && ends_with f (bs ".meta")) files.

Definition sweep_file (dir : bytes) (metas : list bytes) (now : Z) (f : bytes) : M Store unit :=
  match artifact_of f with
  | None => ret tt
  | Some (hash, creationDebris) =>
      if elem_str hash metas && negb creationDebris then ret tt
      else
        do st <- io (io_stat (slash dir f));
        if negb (fst st =? 0) || (now <? w64 (st_mtime (snd st)) +% 3600) then ret tt
        else
          do r <- io (io_unlink (slash dir f));
          when (r =? 0) (bump replicaOrphansSwept 1)
  end.
Fixpoint sweep_files (dir : bytes) (metas : list bytes) (now : Z) (l : list bytes) : M Store unit :=
  match l with
  | [] => ret tt
  | f :: l' => do_ sweep_file dir metas now f; sweep_files dir metas now l'
  end.
Fixpoint sweep_shards (now : Z) (l : list bytes) : M Store unit :=
  match l with
  | [] => ret tt
  | sh :: l' =>
      let dir := slash objRoot sh in
      do r <- io (io_listDir dir);
      do_ (if fst r <? 0 then ret tt else sweep_files dir (metas_of (snd r)) now (snd r));
      sweep_shards now l'
  end.
Definition sweepReplicaOrphans : M Store unit :=
  do now <- nowS;
  do r <- io (io_listDir objRoot);
  if fst r <? 0 then ret tt else sweep_shards now (snd r).

(** ** Live entries *)
Definition in_hash_order (m : gmap bytes Z) : list (bytes * Z) := merge_sort (fun a b => str_le (fst a) (fst b)) (map_to_list m).
Definition live (s : Store) : list (bytes * Z) :=
  List.filter (fun kv => match objs_ s !! snd kv with Some _ => true | None => false end) (in_hash_order (registry_ s)).
(** Expired slots are pruned; the hashes and the objects that are left. *)
Definition prune : M Store (list (bytes * Z)) := fun s =>
  (live s, set_registry (filter (fun kv => is_Some (objs_ s !! snd kv)) (registry_ s)) s).

Fixpoint flush_live (l : list (bytes * Z)) : M Store unit :=
  match l with
  | [] => ret tt
  | (_, id) :: l' => do _ <- on_entry id (fun k => Entry.flushAll cfg k clockS clockUs); flush_live l'
  end.

(** ** Eviction *)
Record Pass := mkPass { p_usage : Z; p_avail : Z; p_sawProtected : bool; p_evicted : Z }.

Definition byteTarget (b : Budget) : Z := if maxBytes b =? 0 then 0 else waterMark (lowWater b) (maxBytes b).
Definition resumeFree (b : Budget) : Z := minFreeBytes b +% minFreeBytes b / 10.
Definition needEvict (b : Budget) (haveSpace : bool) (p : Pass) : bool :=
  (negb (maxBytes b =? 0) && (byteTarget b <? p_usage p)) || (haveSpace && (p_avail p <? resumeFree b)).

Definition protectCutoff (b : Budget) (now : Z) : Z :=
  if negb (evictProtectSeconds b =? 0) && (evictProtectSeconds b <? now) then now -% evictProtectSeconds b else 0.

(** One victim in the order of the pass: [hashes] are open. *)
Definition evict_one (hashes : list bytes) (cutoff : Z) (s : MetaScan) (p : Pass) : M Store Pass :=
  if s_pinned s || elem_str (s_hashHex s) hashes then ret p
  else if negb (cutoff =? 0) && (cutoff <=? s_atime s) then ret (mkPass (p_usage p) (p_avail p) true (p_evicted p))
  else
    do m <- io (Meta.load (s_metaPath s));
    if match m with Some m => negb (Z.land (Meta.flags m) Meta.kFlagPinned =? 0) | None => false end then ret p
    else
      do ok <- io (remove_scanned s);
      if negb ok then ret p
      else
        let reclaimed := s_cachedBytes s +% s_replicaBytes s in
        do_ bump evictedEntries 1;
        do_ bump evictedBytes reclaimed;
        ret (mkPass (p_usage p -% Z.min (p_usage p) reclaimed) (p_avail p +% reclaimed) (p_sawProtected p) (p_evicted p + 1)).

Fixpoint evict_loop (b : Budget) (haveSpace : bool) (hashes : list bytes) (cutoff : Z) (l : list MetaScan) (p : Pass)
    : M Store Pass :=
  match l with
  | [] => ret p
  | s :: l' =>
      if negb (needEvict b haveSpace p) then ret p
      else do p <- evict_one hashes cutoff s p; evict_loop b haveSpace hashes cutoff l' p
  end.

(** The pass under the lock. *)
Definition evict_pass : M Store Z :=
  do lv <- prune;
  do_ flush_live lv;
  do scans <- io (scanObjects false);
  do s <- get;
  let b := budget_ s in
  do sp <- (if 0 <? minFreeBytes b then io (io_spaceInfo (Config.cacheDir cfg)) else ret (-1, 0, 0));
  let '(r, avail, _) := sp in
  let haveSpace := r =? 0 in
  do passNow <- nowS;
  let p := mkPass (scan_total scans) (if haveSpace then avail else 0) false 0 in
  do p <- (if needEvict b haveSpace p
           then evict_loop b haveSpace (fst <$> lv) (protectCutoff b passNow) (merge_sort older scans) p else ret p);
  do_ sweepReplicaOrphans;
  do_ modS (set_blocked (needEvict b haveSpace p && p_sawProtected p));
  do_ modS (set_approx (p_usage p));
  do_ modS (set_lastEvicted (p_evicted p));
  ret (p_evicted p).

Definition lockPath : bytes := Config.cacheDir cfg ++ bs "/LOCK".
(** Runs [body] under the cache-wide lock; [no] when another process holds it. *)
Definition with_lock {A} (no : A) (body : M Store A) : M Store A :=
  do lockFd <- io (io_open lockPath O_RDWR_CREAT);
  if lockFd <? 0 then ret no
  else
    do r <- io (io_flock lockFd LOCK_EX_NB);
    if r <? 0 then do_ io (io_close lockFd); ret no
    else
      do a <- body;
      do_ io (io_flock lockFd LOCK_UN);
      do_ io (io_close lockFd);
      ret a.
Definition evictNow : M Store Z := with_lock (-1) evict_pass.

Definition eviction_off (b : Budget) : bool := (maxBytes b =? 0) && (minFreeBytes b =? 0).
(** [now < lastEvictCheckS_ + evictCheckSeconds], when the limit applies. *)
Definition rate_limited (b : Budget) (bypass : bool) (now last : Z) : bool :=
  negb bypass && (0 <? evictCheckSeconds b) && (now <? last +% w64 (evictCheckSeconds b)).
Definition over_budget (s : Store) : bool :=
  (0 <? maxBytes (budget_ s)) && (waterMark (highWater (budget_ s)) (maxBytes (budget_ s)) <? approxUsage_ s).

Definition maybeEvict : M Store unit :=
  do s <- get;
  let b := budget_ s in
  if eviction_off b then ret tt
  else
    let over := over_budget s in
    let bypass := over && negb (lastEvictEvicted_ s =? 0) in
    do now <- nowS;
    if rate_limited b bypass now (lastEvictCheckS_ s) then ret tt
    else
      do_ modS (set_lastCheck now);
      do lowDisk <- (if 0 <? minFreeBytes b then
                       do sp <- io (io_spaceInfo (Config.cacheDir cfg));
                       let '(r, avail, _) := sp in ret ((r =? 0) && (avail <? minFreeBytes b))
                     else ret false);
      if over || lowDisk then do _ <- evictNow; ret tt else ret tt.

Definition notePersisted (n : Z) (allowEvict : bool) : M Store unit :=
  do s <- get;
  if eviction_off (budget_ s) then ret tt
  else
    do_ when (0 <? maxBytes (budget_ s)) (modS (fun s => set_approx (approxUsage_ s +% n) s));
    when allowEvict maybeEvict.
Definition noteStoredBytes (n : Z) : M Store unit := notePersisted n true.

(** ** Opening *)
Definition reg_live (s : Store) (hash : bytes) : option Z :=
  match registry_ s !! hash with
  | Some id => match objs_ s !! id with Some _ => Some id | None => None end
  | None => None
  end.
(** The registered live entry; a dead slot is erased on the way. *)
Definition share : bytes -> M Store (option Z) := fun hash s =>
  match registry_ s !! hash with
  | None => (None, s)
  | Some id =>
      match objs_ s !! id with
      | Some _ => (Some id, s)
      | None => (None, set_registry (delete hash (registry_ s)) s)
      end
  end.

Definition bump_all (l : list Entry.ctr) : M Store unit := modS (fun s =>
  set_world (Entry.set_stats (fun c => Entry.stats_ (world_ s) c +% Z.of_nat (length (List.filter (fun c' => bool_decide (c' = c)) l)))
    (world_ s)) s).

(** The last handle goes: the entry's destructor, then the object. *)
Definition release (id : Z) : M Store unit :=
  do _ <- on_entry id (fun k => Entry.close cfg k clockS clockUs);
  modS (fun s => set_objs (delete id (objs_ s)) (nextObj_ s) s).

(** Null ([None]) with [declinedForSpace], or the entry's object. An entry that lost the
    race to register is destroyed. *)
Definition open (key : UrlKey.UrlKey) (originSize originMtime cksumKind originCksum : Z) : M Store (option Z * bool) :=
  do sh <- share (UrlKey.hashHex key);
  match sh with
  | Some id => do_ bump (o_opens id) 1; ret (Some id, false)
  | None =>
      let metaPath := UrlKey.metaPath key (Config.cacheDir cfg) in
      do st <- io (io_stat metaPath);
      do_ when (negb (fst st =? 0)) maybeEvict;
      do s <- get;
      do st2 <- (if admissionBlocked_ s then io (io_stat metaPath) else ret (0, stat0));
      if negb (fst st2 =? 0) then
        do_ bump admissionsBypassed 1;
        do_ modS (set_warned true);
        ret (None, true)
      else
        do now <- nowS;
        do r <- io (Entry.open cfg key now originSize originMtime cksumKind originCksum true);
        do_ bump_all (snd r);
        match fst r with
        | None => ret (None, false)
        | Some e =>
            do s <- get;
            let id := nextObj_ s in
            do_ modS (set_objs (<[id := mkObj key e (fun _ => 0)]> (objs_ s)) (id + 1));
            match reg_live s (UrlKey.hashHex key) with
            | Some other => do_ bump (o_opens other) 1; do_ release id; ret (Some other, false)
            | None =>
                do_ modS (fun s => set_registry (<[UrlKey.hashHex key := id]> (registry_ s)) s);
                do_ when (dumpStatsOnDtor_ s && negb (elem_str (UrlKey.hashHex key) (seenKeys_ s)))
                      (do_ modS (fun s => set_seen (UrlKey.hashHex key :: seenKeys_ s) s); bump filesOpened 1);
                do_ bump (o_opens id) 1;
                do_ maybeEvict;
                ret (Some id, false)
            end
        end
  end.

(** ** Invalidation, removal, pinning *)
Fixpoint unlink_all (l : list bytes) : M W unit :=
  match l with [] => ret tt | p :: l' => do_ io_unlink p; unlink_all l' end.
Definition entry_base (key : UrlKey.UrlKey) : bytes := slash (UrlKey.objectDir key (Config.cacheDir cfg)) (UrlKey.hashHex key).
Definition invalidate (key : UrlKey.UrlKey) : M Store unit :=
  do_ modS (fun s => set_registry (delete (UrlKey.hashHex key) (registry_ s)) s);
  io (unlink_all ([UrlKey.dataPath key (Config.cacheDir cfg); UrlKey.metaPath key (Config.cacheDir cfg)] ++
    ((fun suf => entry_base key ++ bs suf) <$> [".tdata"; ".tmeta"; ".tok"; ".val"; ".slots"]%string))).

(** [stat(a) == 0 || stat(b) == 0 || ...], left to right. *)
Fixpoint any_exists (l : list bytes) : M W bool :=
  match l with
  | [] => ret false
  | p :: l' => do st <- io_stat p; if fst st =? 0 then ret true else any_exists l'
  end.
Definition removeEntry (key : UrlKey.UrlKey) : M Store bool :=
  do existed <- io (any_exists [UrlKey.metaPath key (Config.cacheDir cfg); UrlKey.dataPath key (Config.cacheDir cfg);
                      entry_base key ++ bs ".tdata"; entry_base key ++ bs ".slots"]);
  do_ invalidate key;
  do_ when existed (do u <- usageBytes; modS (set_approx u));
  ret existed.

Definition set_pin (p : bool) (f : Z) : Z :=
  if p then Z.lor f Meta.kFlagPinned else Z.land f (Entry.not_flag Meta.kFlagPinned).
(** The flag of a closed entry, under the entry's lock. *)
Definition pin_closed (key : UrlKey.UrlKey) (pinned : bool) : M W bool :=
  do fd <- io_open (UrlKey.dataPath key (Config.cacheDir cfg)) O_RDWR;
  if fd <? 0 then ret false
  else
    do_ io_flock fd LOCK_EX;
    do st <- io_fstat fd;
    do ok <- (if (fst st =? 0) && (0 <? st_nlink (snd st)) then
                let mp := UrlKey.metaPath key (Config.cacheDir cfg) in
                do m <- Meta.load mp;
                match m with
                | None => ret false
                | Some m =>
                    do r <- Meta.store mp (Meta.set_flags (set_pin pinned (Meta.flags m)) m) (bool_decide (Config.fsync cfg = Config.FsAll));
                    ret (r =? 0)
                end
              else ret false);
    do_ io_flock fd LOCK_UN;
    do_ io_close fd;
    ret ok.
Definition setPinnedByKey (key : UrlKey.UrlKey) (pinned : bool) : M Store bool :=
  do s <- get;
  match reg_live s (UrlKey.hashHex key) with
  | Some id => do _ <- on_entry id (fun k => Entry.setPinned cfg k clockS pinned); ret true
  | None => io (pin_closed key pinned)
  end.

Definition verify (key : UrlKey.UrlKey) (originSize originMtime cksumKind originCksum : Z) : M Store (option (Z * Z)) :=
  do r <- open key originSize originMtime cksumKind originCksum;
  match fst r with
  | None => ret None
  | Some id => on_entry id (fun k => Entry.verifyAll cfg k clockS)
  end.

(** Every live entry's periodic commit; the counter line is left out. *)
Fixpoint checkpoint_live (l : list (bytes * Z)) : M Store unit :=
  match l with
  | [] => ret tt
  | (_, id) :: l' => do _ <- on_entry id (fun k => Entry.checkpoint cfg k clockS clockUs); checkpoint_live l'
  end.
Definition checkpoint : M Store unit := do s <- get; checkpoint_live (live s).

(** ** Cleanup *)
Inductive CleanupMode := KAll | KOlderThan | KNewerThan | KToSize.
Definition protectedEntry (hashes : list bytes) (keepPinned : bool) (s : MetaScan) : M W bool :=
  if elem_str (s_hashHex s) hashes then ret true
  else if keepPinned && s_pinned s then ret true
  else if keepPinned then
    do m <- Meta.load (s_metaPath s);
    ret (match m with Some m => negb (Z.land (Meta.flags m) Meta.kFlagPinned =? 0) | None => false end)
  else ret false.
Fixpoint select_to_size (hashes : list bytes) (keepPinned : bool) (arg total : Z) (l : list MetaScan) : M W (list MetaScan) :=
  match l with
  | [] => ret []
  | s :: l' =>
      if total <=? arg then ret []
      else
        do pr <- protectedEntry hashes keepPinned s;
        if (pr : bool) then select_to_size hashes keepPinned arg total l'
        else
          do v <- select_to_size hashes keepPinned arg (total -% Z.min total (s_cachedBytes s +% s_replicaBytes s)) l';
          ret (s :: v)
  end.
Definition in_mode (mode : CleanupMode) (cutoff : Z) (s : MetaScan) : bool :=
  match mode with
  | KOlderThan => s_atime s <? cutoff
  | KNewerThan => cutoff <=? s_atime s
  | _ => true
  end.
Fixpoint select_by_age (hashes : list bytes) (keepPinned : bool) (mode : CleanupMode) (cutoff : Z) (l : list MetaScan)
    : M W (list MetaScan) :=
  match l with
  | [] => ret []
  | s :: l' =>
      do pr <- protectedEntry hashes keepPinned s;
      do v <- select_by_age hashes keepPinned mode cutoff l';
      ret (if (pr : bool) then v else if in_mode mode cutoff s then s :: v else v)
  end.

(** The removal: the report's victims are the ones whose data went. *)
Fixpoint remove_victims (l : list MetaScan) : M Store (list MetaScan) :=
  match l with
  | [] => ret []
  | s :: l' =>
      do_ modS (fun st => set_registry (delete (s_hashHex s) (registry_ st)) st);
      do ok <- io (remove_scanned s);
      do_ when ok (do_ bump evictedEntries 1; bump evictedBytes (s_cachedBytes s +% s_replicaBytes s));
      do v <- remove_victims l';
      ret (if ok then s :: v else v)
  end.

Record CleanupReport := mkReport { r_locked : bool; r_bytes : Z; r_victims : list (bytes * Z * Z) }.
Definition report_of (l : list MetaScan) : CleanupReport :=
  mkReport true (scan_total l)
    ((fun s => (s_key s, s_cachedBytes s +% s_replicaBytes s, s_atime s)) <$> l).

Definition cleanup_locked (mode : CleanupMode) (arg : Z) (keepPinned dryRun : bool) : M Store CleanupReport :=
  do lv <- prune;
  do_ flush_live lv;
  do scans <- io (scanObjects false);
  let hashes := fst <$> lv in
  do victims <- (match mode with
    | KToSize => let sorted := merge_sort older scans in io (select_to_size hashes keepPinned arg (scan_total sorted) sorted)
    | _ =>
        do now <- nowS;
        do cutoff <- (if arg <? now then do now2 <- nowS; ret (now2 -% arg) else ret 0);
        io (select_by_age hashes keepPinned mode cutoff scans)
    end);
  if dryRun then ret (report_of victims)
  else
    do removed <- remove_victims victims;
    do_ sweepReplicaOrphans;
    do u <- usageBytes;
    do_ modS (set_approx u);
    ret (report_of removed).
Definition cleanup (mode : CleanupMode) (arg : Z) (keepPinned dryRun : bool) : M Store CleanupReport :=
  with_lock (mkReport false 0 []) (cleanup_locked mode arg keepPinned dryRun).
End store.
End Store.
