(* ===== verification/CacheFrame.v ===== *)
(** * Frames and laws for the cache root

    What POSIX documents of [listDir] and [spaceInfo], an in-memory instance, and
    the inversion and frame lemmas every proof about the store uses; and, Module
    CacheDemo, a cache of two entries for the witnesses. *)

From Stdlib Require Import SpecFloat.
From S2P Require Import Prelude IOBackend Crc32c Config MetaFile UrlKey FileEntry SlotStore CacheStore IOFrame.

(** A listing names every file of the directory; neither call changes anything. *)
Class DirLaws (W : Type) `{!IOBackend W, !IOLaws W, !IODirs W} := {
  law_listDir : forall p w r l w', io_listDir p w = (r, l, w') ->
    view w' = view w /\ (forall f, f ∈ l -> 47 ∉ f) /\
    (0 <= r -> forall f, 47 ∉ f -> is_Some (fs_names (view w) !! (p ++ bs "/" ++ f)) -> f ∈ l);
  law_spaceInfo : forall p w r a t w', io_spaceInfo p w = (r, a, t, w') -> view w' = view w /\ is_u64 a /\ is_u64 t
}.

(** ** The in-memory volume, of 1 MiB *)
Fixpoint upto_slash (f : bytes) : bytes :=
  match f with [] => [] | c :: f' => if c =? 47 then [] else c :: upto_slash f' end.
Definition component (p q : bytes) : list bytes :=
  let pre := p ++ bs "/" in
  if bytes_eqb (take (length pre) q) pre then [upto_slash (drop (length pre) q)] else [].
Definition mem_listDir (p : bytes) : M memw (Z * list bytes) := fun w =>
  ((0, remove_dups (concat (List.map (fun kv => component p (fst kv)) (map_to_list (fs_names (m_fs w)))))), w).
Definition mem_used (s : fs) : Z := map_fold (fun _ f n => zlen (i_data f) + n) 0 (fs_inodes s).
Definition mem_spaceInfo (p : bytes) : M memw (Z * Z * Z) := fun w =>
  ((0, Z.max 0 (1048576 - mem_used (m_fs w)), 1048576), w).

#[export] Instance MemDirs : IODirs memw := { io_listDir := mem_listDir; io_spaceInfo := mem_spaceInfo }.

Lemma upto_slash_id f : 47 ∉ f -> upto_slash f = f.
Proof.
  induction f as [|c f IH]; [done|]. rewrite not_elem_of_cons. intros [Hc Hf]. cbn.
  rewrite (proj2 (Z.eqb_neq c 47)) by congruence. by rewrite IH.
Qed.

Lemma upto_slash_none f : 47 ∉ upto_slash f.
Proof.
  induction f as [|c f IH]; cbn; [by intros ?%elem_of_nil|]. destruct (c =? 47) eqn:E; [by intros ?%elem_of_nil|]. b2p.
  rewrite elem_of_cons. intros [?|?]; [congruence|done].
Qed.

#[export] Instance MemDirs_laws : DirLaws memw.
Proof.
  split.
  - intros p w r l w' [= <- <- <-]. split; [done|]. split.
    { intros f Hf. rewrite elem_of_remove_dups in Hf. apply list_elem_of_In in Hf. apply in_concat in Hf as (x & Hx & Hf).
      apply in_map_iff in Hx as ([q ino] & <- & _). unfold component in Hf. destruct (bytes_eqb _ _); [|done].
      destruct Hf as [<-|[]]. apply upto_slash_none. }
    intros _ f Hf [ino Hn]. apply elem_of_remove_dups.
    apply list_elem_of_In, in_concat. exists [f]. split; [|by left]. apply in_map_iff. exists (p ++ bs "/" ++ f, ino). split.
    + unfold component. cbn [fst]. rewrite app_assoc, take_app_length. unfold bytes_eqb.
      rewrite bool_decide_eq_true_2 by done. rewrite drop_app_length. by rewrite upto_slash_id.
    + apply list_elem_of_In. by apply elem_of_map_to_list.
  - intros p w r a t w' [= <- <- <- <-]. split; [done|]. unfold is_u64.
    assert (0 <= mem_used (m_fs w)) as H.
    { unfold mem_used. apply (map_fold_weak_ind (fun r _ => 0 <= r)); [lia|].
      intros. pose proof (zlen_nonneg (i_data x)). lia. }
    cbn in *. lia.
Qed.

Section frame.
Context {W : Type} `{!IOBackend W, !IOLaws W, !IODirs W, !DirLaws W} `{CK : Checksum}.
Abbreviation St := (@Store.Store W).

Definition fsv (s : St) : fs := view (Entry.io_ (Store.world_ s)).

Lemma sio_inv {A} (m : M W A) (s : St) a s' : Store.io m s = (a, s') ->
  exists w, m (Entry.io_ (Store.world_ s)) = (a, w) /\ s' = Store.set_world (Entry.set_io w (Store.world_ s)) s.
Proof. unfold Store.io. destruct (m _) as [a' w]. intros [= <- <-]. eauto. Qed.

(** [moves R m]: every run of [m] relates the store before and after by [R]. *)
Definition moves {A} (R : relation St) (m : M St A) : Prop := forall s a s', m s = (a, s') -> R s s'.

Section moves.
Context (R : relation St) `{!PreOrder R}.
Lemma moves_ret {A} (a : A) : moves R (ret a).
Proof. by intros s x s' [= _ <-]. Qed.
Lemma moves_bind {A B} (m : M St A) (k : A -> M St B) : moves R m -> (forall a, moves R (k a)) -> moves R (do x <- m; k x).
Proof. intros Hm Hk s b s' (a & s1 & H1 & H2)%mbind_inv. etrans; [by eapply Hm|by eapply Hk]. Qed.
Lemma moves_if {A} (b : bool) (m1 m2 : M St A) : moves R m1 -> moves R m2 -> moves R (if b then m1 else m2).
Proof using. by destruct b. Qed.
Lemma moves_get : moves R Store.get.
Proof. by intros s a s' [= _ <-]. Qed.
Lemma moves_when (b : bool) m : moves R m -> moves R (Store.when b m).
Proof. intros. apply moves_if; [done|apply moves_ret]. Qed.
(** Updates of the store's own state. *)
Lemma moves_mod (f : St -> St) : (forall s, R s (f s)) -> moves R (Store.modS f).
Proof using. intros Hf s a s' [= _ <-]. apply Hf. Qed.
Lemma moves_io {A} (m : M W A) : (forall w s, R s (Store.set_world (Entry.set_io w (Store.world_ s)) s)) -> moves R (Store.io m).
Proof using. intros Hw s a s' (w & _ & ->)%sio_inv. apply Hw. Qed.
End moves.

Lemma keeps_listDir I p : keeps I (io_listDir p).
Proof. apply keeps_view. intros w [r l] w' H. apply (law_listDir _ _ _ _ _ H). Qed.
Lemma keeps_spaceInfo I p : keeps I (io_spaceInfo p).
Proof. apply keeps_view. intros w [[r a] t] w' H. apply (law_spaceInfo _ _ _ _ _ _ H). Qed.

End frame.

#[export] Hint Resolve keeps_listDir keeps_spaceInfo : keeps.
(** Walks through a body of the store, leaving the calls [auto] with the database cannot do. *)
Create HintDb moves.
Ltac moves := repeat first
  [ apply moves_ret; typeclasses eauto | apply moves_get; typeclasses eauto | solve [auto with moves] | apply moves_bind; [typeclasses eauto| |intros ?] | apply moves_if | apply moves_when; [typeclasses eauto|]
  | apply moves_mod; done | apply moves_io; done | progress cbv zeta | case_match ].

(** * A cache of two entries, for the witnesses

    On the in-memory volume: [a], last read at second 10000, and [b], last read at
    second 17000, both closed; the clock then reads 20000. *)
Module CacheDemo.
Import Store.

Definition cfg : Config.Config := Config.defaults (bs "/c").
Definition clk (t : nat) : Z := 1000 * Z.of_nat t.
Definition key_a : UrlKey.UrlKey := UrlKey.mkUrlKey (bs "a") (bs "aa11") (bs "root") (bs "h").
Definition key_b : UrlKey.UrlKey := UrlKey.mkUrlKey (bs "b") (bs "bb22") (bs "root") (bs "h").
Definition half : spec_float := S754_finite false 4503599627370496 (-53).

(** No eviction; and a floor the volume cannot meet, with a window of 5000 seconds. *)
Definition unlimited : Budget := mkBudget 0 0 false half half 10 5000.
Definition floored : Budget := mkBudget 0 1048000 false half half 10 5000.

Definition world0 : @Entry.World memw := Entry.mkWorld (mkMem (mkFs ∅ ∅ ∅) []) 0 0 0 (fun _ => 0) [] 10.
Definition empty_store : @Store memw := mkStore world0 unlimited ∅ 1 ∅ 0 0 1 false false [] true (fun _ => 0).

Definition wait (n : nat) : M (@Store memw) unit := modS (fun s => set_world (Nat.iter n Entry.tick (world_ s)) s).
Definition open_ (k : UrlKey.UrlKey) : M (@Store memw) (option Z * bool) := open cfg clk clk k 100 0 0 0.
Definition close_ (id : Z) : M (@Store memw) unit := release cfg clk clk id.

(** The disk once both were opened and closed. *)
Definition demo_disk : fs :=
  Eval vm_compute in
  fsv (snd ((do_ open_ key_a; do_ close_ 1; do_ wait 4; do_ open_ key_b; do_ close_ 2; wait 2) empty_store)).
Definition demo_world (faults : list fault) : @Entry.World memw :=
  Entry.mkWorld (mkMem demo_disk faults) 0 0 0 (fun _ => 0) [] 20.
Definition two_closed : @Store memw := mkStore (demo_world []) unlimited ∅ 3 ∅ 0 0 1 false false [] true (fun _ => 0).
(** The same under the floor. *)
Definition crowded : @Store memw := set_budget floored two_closed.

(** Decided on the finite maps. *)
Definition calm_b (s : fs) : bool :=
  let l := map_to_list (fs_names s) in
  forallb (fun p => match fs_inodes s !! snd p with Some _ => true | None => false end) l &&
  forallb (fun p => forallb (fun q => bytes_eqb (fst p) (fst q) || negb (snd p =? snd q)) l) l.
Lemma calm_b_ok s : calm_b s = true -> calm s.
Proof.
  intros [H1 H2]%andb_true_iff. rewrite forallb_forall in H1, H2. split.
  - intros q ino Hq. specialize (H1 (q, ino)). cbn in H1. destruct (fs_inodes s !! ino); [by eexists|].
    discriminate H1. apply list_elem_of_In. by apply elem_of_map_to_list.
  - intros a b ino Hab Ha Hb. specialize (H2 (a, ino)). rewrite forallb_forall in H2.
    specialize (H2 ltac:(apply list_elem_of_In; by apply elem_of_map_to_list) (b, ino) ltac:(apply list_elem_of_In; by apply elem_of_map_to_list)).
    cbn in H2. rewrite Z.eqb_refl, orb_false_r in H2. unfold bytes_eqb in H2. by apply bool_decide_eq_true in H2.
Qed.
Lemma demo_calm : calm demo_disk.
Proof. apply calm_b_ok. vm_compute. reflexivity. Qed.
Lemma two_closed_calm : calm (fsv two_closed).
Proof. change (fsv two_closed) with demo_disk. exact demo_calm. Qed.
Lemma crowded_ok : Meta.fs_ok (fsv crowded).
Proof. change (fsv crowded) with demo_disk. apply demo_calm. Qed.
Lemma two_closed_ok : Meta.fs_ok (fsv two_closed).
Proof. apply two_closed_calm. Qed.

(** [a]'s sidecar. *)
Definition sidecar_a : bytes := Eval vm_compute in default [] (Meta.data_of demo_disk (UrlKey.metaPath key_a (bs "/c"))).
Definition meta_a : Meta.MetaData := Eval vm_compute in default (Meta.fresh 0 [] 0 0) (Meta.deserialize sidecar_a).
Lemma sidecar_a_wf m : Meta.deserialize sidecar_a = Some m -> Meta.wf m.
Proof.
  assert (Meta.deserialize sidecar_a = Some meta_a) as -> by (vm_compute; reflexivity). intros [= <-].
  split; unfold is_u32, is_u64, is_byte; try (cbn; lia).
  - split; [reflexivity|cbn; lia].
  - split; [repeat constructor; cbn; lia|vm_compute; congruence].
  - split; [split; [cbn; lia|reflexivity|repeat constructor; cbn; lia|reflexivity]|reflexivity].
  - split; [reflexivity|]. repeat constructor; cbn; lia.
Qed.
End CacheDemo.
