(* ===== verification/CacheEvict.v ===== *)
(** * The eviction pass (src/core/CacheStore.cc, evictNow)

    The loop over the scanned entries against a step relation: which entries it
    takes, skips, protects, when it stops, and which files it removes. *)

From stdpp Require Import sorting.
From S2P Require Import Prelude IOBackend Crc32c Config MetaFile UrlKey FileEntry SlotStore CacheStore IOFrame CacheFrame.

Module Evict.
Import Store.

(** ** Which entries may go *)
Definition is_open (hashes : list bytes) (s : MetaScan) : bool := elem_str (s_hashHex s) hashes.
Definition in_window (cutoff : Z) (s : MetaScan) : bool := negb (cutoff =? 0) && (cutoff <=? s_atime s).
Definition eligible (hashes : list bytes) (cutoff : Z) (s : MetaScan) : Prop :=
  s_pinned s = false /\ is_open hashes s = false /\ in_window cutoff s = false.
Definition reclaimed (s : MetaScan) : Z := s_cachedBytes s +% s_replicaBytes s.
Definition credit (s : MetaScan) (p : Pass) : Pass :=
  mkPass (p_usage p -% Z.min (p_usage p) (reclaimed s)) (p_avail p +% reclaimed s) (p_sawProtected p) (p_evicted p + 1).
Definition mark (p : Pass) : Pass := mkPass (p_usage p) (p_avail p) true (p_evicted p).

(** The pass as a relation: [taken] are removed, in order. *)
Inductive passes (b : Budget) (hs : bool) (hashes : list bytes) (cutoff : Z) : list MetaScan -> Pass -> list MetaScan -> Pass -> Prop :=
| pass_end p : passes b hs hashes cutoff [] p [] p
| pass_enough l p : needEvict b hs p = false -> passes b hs hashes cutoff l p [] p
| pass_held s l p taken p' : needEvict b hs p = true -> s_pinned s = true \/ is_open hashes s = true ->
    passes b hs hashes cutoff l p taken p' -> passes b hs hashes cutoff (s :: l) p taken p'
| pass_window s l p taken p' : needEvict b hs p = true -> s_pinned s = false -> in_window cutoff s = true ->
    passes b hs hashes cutoff l (mark p) taken p' -> passes b hs hashes cutoff (s :: l) p taken p'
| pass_kept s l p taken p' : needEvict b hs p = true -> eligible hashes cutoff s ->
    passes b hs hashes cutoff l p taken p' -> passes b hs hashes cutoff (s :: l) p taken p'
| pass_take s l p taken p' : needEvict b hs p = true -> eligible hashes cutoff s ->
    passes b hs hashes cutoff l (credit s p) taken p' -> passes b hs hashes cutoff (s :: l) p (s :: taken) p'.

Section consequences.
Context (b : Budget) (hs : bool) (hashes : list bytes) (cutoff : Z).

Lemma passes_taken l p taken p' : passes b hs hashes cutoff l p taken p' ->
  taken `sublist_of` l /\ Forall (eligible hashes cutoff) taken.
Proof.
  induction 1 as [|l ? ?|? ? ? ? ? ? ? ? [? ?]|? ? ? ? ? ? ? ? ? [? ?]|? ? ? ? ? ? ? ? [? ?]|? ? ? ? ? ? ? ? [? ?]];
    (split; [|by try constructor]).
  - constructor.
  - apply sublist_nil_l.
  - by apply sublist_cons.
  - by apply sublist_cons.
  - by apply sublist_cons.
  - by apply sublist_skip.
Qed.

(** The accounts of the pass. *)
Lemma needEvict_mark p : needEvict b hs (mark p) = needEvict b hs p.
Proof. done. Qed.
Lemma passes_accounts l p taken p' : passes b hs hashes cutoff l p taken p' ->
  let q := foldl (fun p s => credit s p) p taken in
  p_usage p' = p_usage q /\ p_avail p' = p_avail q /\ p_evicted p' = p_evicted p + zlen taken.
Proof.
  assert (forall taken p p2, p_usage p = p_usage p2 -> p_avail p = p_avail p2 ->
    let f := foldl (fun p s => credit s p) in
    p_usage (f p taken) = p_usage (f p2 taken) /\ p_avail (f p taken) = p_avail (f p2 taken)) as G.
  { intros t. induction t as [|s t IH]; intros q q2 E1 E2; [done|]. cbn. apply IH; cbn; congruence. }
  induction 1 as [| | | |? ? ? ? ? ? ? ? IH|]; cbn zeta in *; cbn [foldl]; rewrite ?zlen_nil, ?zlen_cons; try (repeat split; cbn; lia); try done.
  - destruct (G taken (mark p) p) as [G1 G2]; [done..|]. cbn zeta in *. destruct IHpasses as (-> & -> & ->). by rewrite G1, G2.
  - destruct IHpasses as (-> & -> & ->). cbn [credit p_evicted]. repeat split. lia.
Qed.

(** Nothing is taken beyond the need, and the pass goes on until the need is met or no entry is left. *)
Lemma passes_needed l p taken p' : passes b hs hashes cutoff l p taken p' ->
  forall t1 s t2, taken = t1 ++ s :: t2 -> needEvict b hs (foldl (fun p s => credit s p) p t1) = true.
Proof.
  assert (forall t p p2, p_usage p = p_usage p2 -> p_avail p = p_avail p2 ->
    needEvict b hs (foldl (fun p s => credit s p) p t) = needEvict b hs (foldl (fun p s => credit s p) p2 t)) as G.
  { intros t. induction t as [|s t IH]; intros q q2 E1 E2; cbn; [unfold needEvict; by rewrite E1, E2|]. apply IH; cbn; congruence. }
  induction 1 as [p|l p H0|s l p taken p' H0 H1 H2 IH|s l p taken p' H0 H1 H2 H3 IH|s l p taken p' H0 H1 H2 IH|s l p taken p' H0 H1 H2 IH];
    intros t1 a t2 E.
  - by destruct t1.
  - by destruct t1.
  - by eapply IH.
  - rewrite (G t1 p (mark p)) by done. by eapply IH.
  - by eapply IH.
  - destruct t1 as [|x t1]; [done|]. injection E as <- E. by eapply IH.
Qed.

Lemma passes_until l p taken p' : passes b hs hashes cutoff l p taken p' ->
  needEvict b hs p' = true -> forall s, s ∈ l -> s ∈ taken \/ s_pinned s = true \/ is_open hashes s = true \/
    (in_window cutoff s = true /\ p_sawProtected p' = true) \/ eligible hashes cutoff s.
Proof.
  assert (forall l p taken p', passes b hs hashes cutoff l p taken p' -> p_sawProtected p = true -> p_sawProtected p' = true) as G.
  { clear. induction 1; auto. }
  induction 1 as [p|l p H0|s l p taken p' H0 H1 H2 IH|s l p taken p' H0 H1 H2 H3 IH|s l p taken p' H0 H1 H2 IH|s l p taken p' H0 H1 H2 IH];
    intros Hn x Hx.
  - by apply elem_of_nil in Hx.
  - by rewrite H0 in Hn.
  - apply elem_of_cons in Hx as [->|Hx]; [destruct H1; auto|by apply IH].
  - apply elem_of_cons in Hx as [->|Hx]; [|by apply IH]. do 3 right. left. split; [done|]. by eapply G.
  - apply elem_of_cons in Hx as [->|Hx]; [by do 4 right|by apply IH].
  - apply elem_of_cons in Hx as [->|Hx]; [left; by left|]. destruct (IH Hn x Hx) as [?|?]; [left; by right|by right].
Qed.
End consequences.

(** ** The files of one entry *)
Definition files_of (s : MetaScan) : list bytes :=
  s_dataPath s :: s_metaPath s :: ((fun x => chop (s_dataPath s) 5 ++ bs (fst x)) <$> suffixes).

(** Everything outside [l] is as in [s0], and files are removed at most. *)
Definition only (l : list bytes) (s0 s : fs) : Prop :=
  removes s0 s /\ forall q, q ∉ l -> Meta.data_of s q = Meta.data_of s0 q.
Lemma only_refl l s : only l s s.
Proof. split; [apply removes_refl|done]. Qed.
Lemma only_frozen l s0 s s' : frozen s s' -> only l s0 s -> only l s0 s'.
Proof. intros F [R O]. split; [by eapply removes_frozen|]. intros q Hq. rewrite (frozen_data _ _ _ F). by apply O. Qed.
Lemma only_trans l l1 l2 s0 s1 s2 : only l1 s0 s1 -> only l2 s1 s2 -> l1 ⊆ l -> l2 ⊆ l -> only l s0 s2.
Proof.
  intros [R1 O1] [R2 O2] H1 H2. split; [by eapply removes_trans|]. intros q Hq. rewrite O2, O1; [done| |]; intros Hx; apply Hq; [by apply H1|by apply H2].
Qed.

Section files.
Context {W : Type} `{!IOBackend W, !IOLaws W, !IODirs W, !DirLaws W} `{CK : Checksum}.

Lemma keeps_frozen_closed {A} (I : fs -> Prop) (m : M W A) :
  (forall s0, keeps (frozen s0) m) -> (forall s s', frozen s s' -> I s -> I s') -> keeps I m.
Proof. intros Hm HI w a w' Hw H. eapply HI; [|exact Hw]. eapply Hm; [apply frozen_refl|exact H]. Qed.

Lemma keeps_only_unlink l s0 p : p ∈ l -> keeps (W := W) (only l s0) (io_unlink p).
Proof.
  intros Hp w r w' [R O] H. split; [by eapply keeps_removes_unlink|]. intros q Hq.
  rewrite (unlink_others _ _ _ _ _ H); [by apply O|]. intros ->. done.
Qed.
Lemma keeps_load s0 p : keeps (W := W) (frozen s0) (Meta.load p).
Proof. unfold Meta.load. keeps. Qed.

Lemma keeps_artifacts l s0 base arts sufs : (forall x, x ∈ sufs -> base ++ bs (fst x) ∈ l) ->
  keeps (W := W) (only l s0) (unlink_artifacts base arts sufs).
Proof.
  induction sufs as [|[suf k] sufs IH]; intros Hl; cbn [unlink_artifacts]; [apply keeps_ret|].
  apply keeps_bind; [|intros _; apply IH; intros x Hx; apply Hl; by right].
  apply keeps_if; [|apply keeps_ret]. apply keeps_bind; [|intros ?; apply keeps_ret].
  apply keeps_only_unlink. apply (Hl (suf, k)). by left.
Qed.

Lemma remove_scanned_spec s (w : W) ok w' : remove_scanned s w = (ok, w') ->
  only (files_of s) (view w) (view w') /\ (ok = false -> view w' = view w) /\ (ok = true -> Meta.data_of (view w') (s_dataPath s) = None).
Proof.
  unfold remove_scanned. intros (r & w1 & H1 & H)%mbind_inv.
  pose proof (keeps_only_unlink (files_of s) (view w) (s_dataPath s) ltac:(by left) _ _ _ (only_refl _ _) H1) as O1.
  destruct (r =? 0) eqn:E; b2p; cbn [negb] in H.
  - apply mbind_inv in H as (r2 & w2 & H2 & H). apply mbind_inv in H as (u & w3 & H3 & [= <- <-]).
    assert (forall s0, only (files_of s) s0 (view w1) -> only (files_of s) s0 (view w3)) as K.
    { intros s0 O. eapply (keeps_artifacts (files_of s)); [|eapply keeps_only_unlink; [|exact O|exact H2]|exact H3].
      - intros x Hx. do 2 right. by apply (list_elem_of_fmap_2 (fun x => chop (s_dataPath s) 5 ++ bs (fst x))).
      - right. by left. }
    split; [by apply K|]. split; [done|]. intros _. destruct (K (view w1) (only_refl _ _)) as [R _].
    eapply removes_none; [exact R|]. by eapply unlinked_data.
  - injection H as <- <-. split; [done|]. split; [|done]. intros _.
    destruct (law_unlink _ _ _ _ H1) as [[_ ?]|(? & _)]; done.
Qed.

(** One entry of the pass: kept, the disk is as it was; taken, its files are gone. *)
Lemma evict_one_spec hashes cutoff s p (st : Store) p' st' :
  evict_one hashes cutoff s p st = (p', st') ->
  ((frozen (fsv st) (fsv st') /\
    (p' = p /\ (s_pinned s = true \/ is_open hashes s = true) \/
     p' = mark p /\ s_pinned s = false /\ in_window cutoff s = true \/
     p' = p /\ eligible hashes cutoff s)) \/
   (only (files_of s) (fsv st) (fsv st') /\ p' = credit s p /\ eligible hashes cutoff s /\
    Meta.data_of (fsv st') (s_dataPath s) = None)) /\
  budget_ st' = budget_ st /\ objs_ st' = objs_ st /\ registry_ st' = registry_ st.
Proof.
  unfold evict_one. intros H. fold (is_open hashes s) in H.
  destruct (s_pinned s || is_open hashes s) eqn:E1.
  { injection H as <- <-. apply orb_true_iff in E1. split; [|done]. left. split; [done|by left]. }
  apply orb_false_iff in E1 as [E1 E2]. fold (in_window cutoff s) in H. destruct (in_window cutoff s) eqn:E3.
  { injection H as <- <-. split; [|done]. left. split; [done|right; by left]. }
  assert (eligible hashes cutoff s) as He by done.
  apply mbind_inv in H as (m & s1 & H1 & H). apply sio_inv in H1 as (w1 & H1 & ->).
  pose proof (keeps_load (fsv st) _ _ _ _ (frozen_refl _) H1) as F1.
  destruct (match m with Some _ => _ | None => false end).
  { injection H as <- <-. split; [|done]. left. split; [exact F1|right; by right]. }
  apply mbind_inv in H as (ok & s2 & H2 & H). apply sio_inv in H2 as (w2 & H2 & ->). cbn in H2.
  destruct (remove_scanned_spec _ _ _ _ H2) as ([R2 O2] & V2 & D2).
  destruct ok; cbn [negb] in H.
  - unfold bump, modS, mbind_, mret_ in H. injection H as <- <-. split; [|done]. right. split; [|split; [done|split; [done|by apply D2]]].
    split; [eapply removes_trans; [|exact R2]; by eapply removes_frozen, removes_refl|].
    intros q Hq. unfold fsv at 1. cbn. rewrite O2 by done. by apply frozen_data.
  - injection H as <- <-. split; [|done]. left. split; [|right; by right]. unfold fsv at 2. cbn. by rewrite V2.
Qed.

(** The loop implements the relation, and removes exactly the files of what it takes. *)
Lemma evict_loop_spec b hs hashes cutoff l p (st : Store) p' st' :
  evict_loop b hs hashes cutoff l p st = (p', st') ->
  exists taken, passes b hs hashes cutoff l p taken p' /\
    only (concat (List.map files_of taken)) (fsv st) (fsv st') /\
    Forall (fun s => Meta.data_of (fsv st') (s_dataPath s) = None) taken /\
    budget_ st' = budget_ st /\ objs_ st' = objs_ st /\ registry_ st' = registry_ st.
Proof.
  revert p st. induction l as [|s l IH]; intros p st H; cbn [evict_loop] in H.
  { injection H as <- <-. exists []. split; [constructor|]. split; [apply only_refl|]. by split. }
  destruct (needEvict b hs p) eqn:En; cbn [negb] in H.
  2: { injection H as <- <-. exists []. split; [by constructor|]. split; [apply only_refl|]. by split. }
  apply mbind_inv in H as (p1 & s1 & H1 & H). destruct (evict_one_spec _ _ _ _ _ _ _ H1) as (Hc & B1 & J1 & R1).
  destruct (IH _ _ H) as (t & Hp & O2 & D2 & B2 & J2 & R2).
  assert (budget_ st' = budget_ st /\ objs_ st' = objs_ st /\ registry_ st' = registry_ st) as X by (repeat split; congruence).
  destruct Hc as [[F1 Hc]|(O1 & -> & He & Hd)].
  - exists t. split; [destruct Hc as [[-> ?]|[(-> & ? & ?)|[-> ?]]]; [by apply pass_held|by apply pass_window|by apply pass_kept]|].
    split; [|done]. destruct O2 as [R O2]. split; [eapply removes_trans; [by eapply removes_frozen, removes_refl|exact R]|].
    intros q Hq. rewrite O2 by done. by apply frozen_data.
  - exists (s :: t). split; [by apply pass_take|]. split.
    + eapply only_trans; [exact O1|exact O2|intros x Hx; apply elem_of_app; by left|intros x Hx; apply elem_of_app; by right].
    + split; [|done]. constructor; [|done]. eapply removes_none; [apply O2|exact Hd].
Qed.
End files.

(** ** The sweep *)

(** Files are removed at most, and what is left has its bytes and its time. *)
Definition thins (s0 s : fs) : Prop := forall q f, file_of s q = Some f ->
  exists f0, file_of s0 q = Some f0 /\ i_data f = i_data f0 /\ i_mtime f = i_mtime f0.
Lemma thins_refl s : thins s s.
Proof. intros q f Hf. by exists f. Qed.
Lemma thins_frozen s0 s s' : frozen s s' -> thins s0 s -> thins s0 s'.
Proof. intros [Hn Hi] H q f. unfold file_of. rewrite Hn, Hi. apply H. Qed.
Lemma thins_trans s0 s1 s2 : thins s0 s1 -> thins s1 s2 -> thins s0 s2.
Proof. intros H1 H2 q f Hf. destruct (H2 q f Hf) as (g & Hg & ? & ?). destruct (H1 q g Hg) as (h & ? & ? & ?). exists h. split; [done|]. split; congruence. Qed.
Lemma thins_removes s0 s : thins s0 s -> removes s0 s.
Proof.
  intros H q x Hq. unfold Meta.data_of in *. destruct (file_of s q) as [f|] eqn:E; [|done]. destruct (H q f E) as (g & Hg & Hd & _).
  rewrite Hg. cbn in *. congruence.
Qed.
Lemma thins_unlink s p : thins s (unlink_name s p).
Proof.
  intros q f. unfold unlink_name. destruct (fs_names s !! p) as [ip|] eqn:Ep; [|by exists f]. unfold file_of. cbn.
  destruct (decide (q = p)) as [->|Hne]; [by rewrite lookup_delete_eq|]. rewrite lookup_delete_ne by done.
  destruct (fs_names s !! q) as [iq|]; [|done]. cbn. destruct (decide (ip = iq)) as [->|].
  - rewrite lookup_alter_eq. destruct (fs_inodes s !! iq) as [g|]; [|done]. intros [= <-]. by exists g.
  - rewrite lookup_alter_ne by done. by exists f.
Qed.

(** A swept file: an artifact, an hour old at [now], whose entry has no sidecar left
    (or a creation file of a slot store). *)
Definition sweepable (now : Z) (s0 s : fs) (q : bytes) : Prop :=
  exists dir f hash debris f0, q = slash dir f /\ artifact_of f = Some (hash, debris) /\
    file_of s0 q = Some f0 /\ w64 (i_mtime f0) +% 3600 <= now /\
    (debris = true \/ Meta.data_of s (slash dir (hash ++ bs ".meta")) = None).
Definition swept (now : Z) (s0 s : fs) : Prop :=
  thins s0 s /\ forall q, Meta.data_of s q <> Meta.data_of s0 q -> sweepable now s0 s q.

Lemma swept_refl now s : swept now s s.
Proof. split; [apply thins_refl|done]. Qed.
Lemma swept_frozen now s0 s s' : frozen s s' -> swept now s0 s -> swept now s0 s'.
Proof.
  intros F [T S]. split; [by eapply thins_frozen|]. intros q Hq. rewrite (frozen_data _ _ _ F) in Hq.
  destruct (S q Hq) as (dir & f & hash & d & f0 & ? & ? & ? & ? & Hm). exists dir, f, hash, d, f0. do 4 (split; [done|]).
  by rewrite (frozen_data _ _ _ F).
Qed.

(** The stem of a suffixed name. *)
Lemma ends_with_chop f suf : ends_with f suf = true -> chop f (zlen suf) ++ suf = f.
Proof.
  unfold ends_with, chop. intros H. b2p. apply bool_decide_eq_true in H0. unfold zlen in *.
  etrans; [|apply (take_drop (Z.to_nat (Z.of_nat (length f) - Z.of_nat (length suf))))]. by rewrite H0.
Qed.
Lemma ends_with_app h suf : ends_with (h ++ suf) suf = true /\ chop (h ++ suf) (zlen suf) = h.
Proof.
  unfold ends_with, chop. rewrite zlen_app. replace (zlen h + zlen suf - zlen suf) with (zlen h) by lia.
  unfold zlen. rewrite Nat2Z.id, drop_app_length, take_app_length. split; [|done].
  rewrite (proj2 (Z.leb_le _ _)) by lia. unfold bytes_eqb. by rewrite bool_decide_eq_true_2.
Qed.
Lemma match_suffix_nonempty f l h : match_suffix f l = Some h -> 0 < zlen h /\ (forall c, c ∉ f -> c ∉ h).
Proof.
  induction l as [|suf l IH]; cbn [match_suffix]; [done|]. destruct (_ && _) eqn:E; [|done]. b2p. intros [= <-].
  apply ends_with_chop in H0 as E. split.
  - apply (f_equal zlen) in E. rewrite zlen_app in E. lia.
  - intros c Hc Hh. apply Hc. rewrite <- E. apply elem_of_app. by left.
Qed.
Lemma elem_str_false f l : elem_str f l = false -> f ∉ l.
Proof.
  unfold elem_str. intros H Hf. assert (existsb (bytes_eqb f) l = true) as E; [|congruence]. apply existsb_exists.
  exists f. split; [by apply list_elem_of_In|]. unfold bytes_eqb. by apply bool_decide_eq_true_2.
Qed.
Lemma metas_of_elem h files : 0 < zlen h -> h ++ bs ".meta" ∈ files -> h ∈ metas_of files.
Proof.
  intros Hh Hf. unfold metas_of. destruct (ends_with_app h (bs ".meta")) as [E1 E2]. change (zlen (bs ".meta")) with 5 in E2.
  apply list_elem_of_fmap. exists (h ++ bs ".meta"). split; [by rewrite E2|]. apply list_elem_of_In, filter_In. split; [by apply list_elem_of_In|].
  rewrite E1, zlen_app. change (zlen (bs ".meta")) with 5. by rewrite (proj2 (Z.ltb_lt _ _)) by lia.
Qed.

Lemma no_slash_meta : 47 ∉ bs ".meta".
Proof. apply (bool_decide_unpack (47 ∉ bs ".meta")). vm_compute. exact I. Qed.

Section sweep.
Context {W : Type} `{!IOBackend W, !IOLaws W, !IODirs W, !DirLaws W} `{CK : Checksum}.

(** What the listing of [dir] promised: a hash outside [metas] has no sidecar. *)
Definition listed (dir : bytes) (metas : list bytes) (s : fs) : Prop :=
  forall h, 0 < zlen h -> 47 ∉ h -> h ∉ metas -> Meta.data_of s (slash dir (h ++ bs ".meta")) = None.

Lemma sweep_file_spec dir metas now f s0 (st : Store) u st' : 47 ∉ f ->
  listed dir metas (fsv st) -> swept now s0 (fsv st) -> sweep_file dir metas now f st = (u, st') ->
  swept now s0 (fsv st') /\ removes (fsv st) (fsv st').
Proof.
  intros Hf Hls Hsw H. unfold sweep_file in H. destruct (artifact_of f) as [[hash debris]|] eqn:Ea; [|injection H as <- <-; split; [done|apply removes_refl]].
  destruct (elem_str hash metas && negb debris) eqn:Em; [injection H as <- <-; split; [done|apply removes_refl]|].
  apply mbind_inv in H as ([r s_] & s1 & H1 & H). apply sio_inv in H1 as (w1 & H1 & ->).
  destruct (law_stat _ _ _ _ _ H1) as (_ & V1 & Hst). cbn [fst snd] in H.
  destruct (negb (r =? 0) || (now <? _)) eqn:Eg; [injection H as <- <-; unfold fsv; cbn; rewrite V1; split; [done|apply removes_refl]|].
  apply orb_false_iff in Eg as [Eg1 Eg2]. b2p. destruct (Hst Eg1) as (ino & f1 & Hn & Hi & ->).
  apply mbind_inv in H as (r2 & s2 & H2 & H). apply sio_inv in H2 as (w2 & H2 & ->).
  assert (fsv st' = view w2) as ->.
  { unfold Store.when in H. destruct (r2 =? 0); injection H as _ <-; done. }
  cbn [Entry.io_ Store.world_] in H2. change (Entry.io_ (world_ (set_world (Entry.set_io w1 (world_ st)) st))) with w1 in H2.
  destruct (law_unlink _ _ _ _ H2) as [[_ ->]|(_ & _ & ->)]; rewrite V1; [split; [done|apply removes_refl]|].
  change (view (Entry.io_ (world_ st))) with (fsv st). pose proof (thins_unlink (fsv st) (slash dir f)) as TU.
  split; [|by apply thins_removes]. destruct Hsw as [T S]. split; [by eapply thins_trans|]. intros q Hq.
  destruct (decide (q = slash dir f)) as [->|Hne].
  - destruct (T (slash dir f) f1) as (f0 & Hf0 & _ & Hm).
    { unfold file_of. change (view (Entry.io_ (world_ st))) with (fsv st) in *. by rewrite Hn. }
    exists dir, f, hash, debris, f0. split; [done|]. split; [done|]. split; [done|]. split; [rewrite <- Hm; exact Eg2|].
    destruct debris; [by left|right]. rewrite andb_true_r in Em. apply elem_str_false in Em.
    eapply removes_none; [apply thins_removes, thins_unlink|]. unfold artifact_of in Ea.
    destruct (match_suffix f sweep_suffixes) as [h|] eqn:Es; [|by destruct (find_sub _ _)].
    injection Ea as ->. destruct (match_suffix_nonempty _ _ _ Es) as [Hl Hc]. apply Hls; [done|by apply Hc|done].
  - rewrite Meta.unlink_data in Hq by done. destruct (S q Hq) as (dir' & f' & h' & d' & f0' & -> & ? & ? & ? & Hm).
    exists dir', f', h', d', f0'. do 4 (split; [done|]). destruct Hm as [?|Hm]; [by left|right].
    eapply removes_none; [apply thins_removes, thins_unlink|done].
Qed.

Lemma sweep_files_spec dir metas now l s0 (st : Store) u st' : (forall f, f ∈ l -> 47 ∉ f) ->
  listed dir metas (fsv st) -> swept now s0 (fsv st) -> sweep_files dir metas now l st = (u, st') ->
  swept now s0 (fsv st').
Proof.
  revert st. induction l as [|f l IH]; intros st Hl Hls Hsw H; cbn [sweep_files] in H; [by injection H as <- <-|].
  apply mbind_inv in H as (u1 & s1 & H1 & H).
  destruct (sweep_file_spec _ _ _ _ _ _ _ _ (Hl f ltac:(by left)) Hls Hsw H1) as [Hs1 R1].
  eapply IH; [intros g Hg; apply Hl; by right| |exact Hs1|exact H].
  intros h Hh Hn Hm. eapply removes_none; [exact R1|by apply Hls].
Qed.

Lemma sweep_shards_spec cfg now l s0 (st : Store) u st' : swept now s0 (fsv st) ->
  sweep_shards cfg now l st = (u, st') -> swept now s0 (fsv st').
Proof.
  revert st. induction l as [|sh l IH]; intros st Hsw H; cbn [sweep_shards] in H; [by injection H as <- <-|].
  apply mbind_inv in H as ([r files] & s1 & H1 & H). apply sio_inv in H1 as (w1 & H1 & ->).
  destruct (law_listDir _ _ _ _ _ H1) as (V1 & Hns & Hls). cbn [fst snd] in H.
  apply mbind_inv in H as (u2 & s2 & H2 & H). apply (IH s2); [|exact H].
  destruct (r <? 0) eqn:E; b2p; [injection H2 as <- <-; unfold fsv; cbn; by rewrite V1|].
  eapply sweep_files_spec; [exact Hns| | |exact H2].
  - intros h Hh Hn Hm. unfold fsv. cbn [world_ set_world Entry.io_ Entry.set_io]. rewrite V1. unfold Meta.data_of, file_of.
    destruct (fs_names (view (Entry.io_ (world_ st))) !! slash (slash (objRoot cfg) sh) (h ++ bs ".meta")) as [ino|] eqn:En; [|done].
    exfalso. apply Hm. apply metas_of_elem; [done|]. apply (Hls E); [|by exists ino].
    intros Hx. apply elem_of_app in Hx as [Hx|Hx]; [by apply Hn|by apply no_slash_meta].
  - unfold fsv. cbn. by rewrite V1.
Qed.

Lemma sweep_spec cfg clockS (st : Store) u st' : sweepReplicaOrphans cfg clockS st = (u, st') ->
  swept (w64 (clockS (Entry.ticks_ (world_ st)))) (fsv st) (fsv st').
Proof.
  unfold sweepReplicaOrphans. intros H. apply mbind_inv in H as (now & s1 & [= <- <-] & H).
  apply mbind_inv in H as ([r l] & s2 & H2 & H). apply sio_inv in H2 as (w2 & H2 & ->).
  destruct (law_listDir _ _ _ _ _ H2) as (V2 & _). cbn [fst snd] in H.
  destruct (r <? 0); [injection H as <- <-; unfold fsv; cbn; rewrite V2; apply swept_refl|].
  eapply sweep_shards_spec; [|exact H]. unfold fsv. cbn. rewrite V2. apply swept_refl.
Qed.
End sweep.
End Evict.
