(* ===== verification/CacheOps.v ===== *)
(** * The store's operations (src/core/CacheStore.cc)

    What the eviction pass, admission, pinning and cleanup guarantee, over the
    loops and frames of the two files before. *)

From stdpp Require Import sorting.
From S2P Require Import Prelude IOBackend Crc32c Config MetaFile UrlKey FileEntry SlotStore CacheStore IOFrame CacheFrame CacheEvict.

Module Ops.
Import Store Evict.

Section scan.
Context {W : Type} `{!IOBackend W, !IOLaws W, !IODirs W, !DirLaws W} `{CK : Checksum}.
Context (cfg : Config.Config).

Lemma keeps_scan_file s0 dir names rep f : keeps (W := W) (frozen s0) (scan_file dir names rep f).
Proof. unfold scan_file, Meta.loadSummary, Slots.holdsRecords. keeps. Qed.
Lemma keeps_scan_files s0 dir names rep l out : keeps (W := W) (frozen s0) (scan_files dir names rep l out).
Proof.
  revert out. induction l as [|f l IH]; intros out; cbn [scan_files]; [apply keeps_ret|].
  apply keeps_bind; [apply keeps_scan_file|intros ?; apply IH].
Qed.
Lemma keeps_scanShard s0 sh rep : keeps (W := W) (frozen s0) (scanShard cfg sh rep).
Proof. unfold scanShard. pose proof keeps_scan_files. keeps. Qed.
Lemma keeps_scan_shards s0 l rep : keeps (W := W) (frozen s0) (scan_shards cfg l rep).
Proof.
  induction l as [|sh l IH]; cbn [scan_shards]; [apply keeps_ret|].
  apply keeps_bind; [apply keeps_scanShard|intros ?; apply keeps_bind; [done|intros ?; apply keeps_ret]].
Qed.
(** A scan changes nothing. *)
Lemma keeps_scanObjects s0 rep : keeps (W := W) (frozen s0) (scanObjects cfg rep).
Proof. unfold scanObjects. apply keeps_bind; [keeps|intros ?]. apply keeps_if; [keeps|apply keeps_scan_shards]. Qed.
End scan.

Lemma sorted_older l : merge_sort older l ≡ₚ l /\ StronglySorted older (merge_sort older l).
Proof.
  split; [apply merge_sort_Permutation|]. apply StronglySorted_merge_sort.
  - intros a b c. unfold older. lia.
  - intros a b. unfold older. lia.
Qed.

Section evict.
Context {W : Type} `{!IOBackend W, !IOLaws W, !IODirs W, !DirLaws W} `{CK : Checksum}.
Context (cfg : Config.Config) (clockS clockUs : nat -> Z).
Abbreviation St := (@Store W).

Lemma on_entry_inv {A} id (m : UrlKey.UrlKey -> M Entry.St A) (s : St) r s' : on_entry id m s = (r, s') ->
  budget_ s' = budget_ s /\ registry_ s' = registry_ s /\ nextObj_ s' = nextObj_ s /\ dom (objs_ s') = dom (objs_ s).
Proof using.
  unfold on_entry. destruct (objs_ s !! id) as [o|] eqn:E; [|by intros [= <- <-]].
  destruct (m _ _) as [a [e w]]. intros [= <- <-]. cbn. repeat split. rewrite dom_insert_L.
  assert (id ∈ dom (objs_ s)) by (apply elem_of_dom; by exists o).
  apply (leibniz_equiv (A := gset Z)). intros x. rewrite elem_of_union, elem_of_singleton. split; [intros [->|?]; done|by right].
Qed.
Lemma flush_live_inv l (s : St) u s' : flush_live cfg clockS clockUs l s = (u, s') ->
  budget_ s' = budget_ s /\ registry_ s' = registry_ s /\ dom (objs_ s') = dom (objs_ s).
Proof using.
  revert s. induction l as [|[h id] l IH]; intros s H; cbn [flush_live] in H; [by injection H as <- <-|].
  apply mbind_inv in H as (r & s1 & H1 & H). apply on_entry_inv in H1 as (B & R & _ & D).
  destruct (IH _ H) as (B' & R' & D'). repeat split; congruence.
Qed.

(** The accounts a pass starts from. *)
Definition start_of (scans : list MetaScan) (hs : bool) (avail : Z) : Pass := mkPass (scan_total scans) (if hs then avail else 0) false 0.

(** What a pass over [scans] that took [taken] has done, as the code promises it. *)
Record evicted_as (b : Budget) (hs : bool) (open_ : list bytes) (cutoff : Z) (p : Pass) (scans taken : list MetaScan) (p' : Pass) : Prop := {
  ev_order : taken `sublist_of` (merge_sort older scans);
  ev_safe : Forall (fun s => s_pinned s = false /\ (s_hashHex s ∉ open_) /\ (cutoff = 0 \/ s_atime s < cutoff)) taken;
  ev_needed : forall t1 s t2, taken = t1 ++ s :: t2 -> needEvict b hs (foldl (fun p s => credit s p) p t1) = true;
  ev_until : needEvict b hs p' = true -> forall s, s ∈ scans -> s ∈ taken \/ s_pinned s = true \/ s_hashHex s ∈ open_ \/
    (cutoff <= s_atime s /\ p_sawProtected p' = true) \/ eligible open_ cutoff s;
  ev_accounts : let q := foldl (fun p s => credit s p) p taken in
    p_usage p' = p_usage q /\ p_avail p' = p_avail q /\ p_evicted p' = zlen taken
}.

Lemma elem_str_true f l : elem_str f l = true -> f ∈ l.
Proof using.
  unfold elem_str. intros (x & Hx & E)%existsb_exists. apply list_elem_of_In.
  unfold bytes_eqb in E. apply bool_decide_eq_true in E. by subst.
Qed.

Lemma passes_evicted b hs open_ cutoff scans avail taken p' :
  passes b hs open_ cutoff (merge_sort older scans) (start_of scans hs avail) taken p' ->
  evicted_as b hs open_ cutoff (start_of scans hs avail) scans taken p'.
Proof using.
  intros H. destruct (passes_taken _ _ _ _ _ _ _ _ H) as [Ht He]. split; [done| |by eapply passes_needed| |].
  - eapply Forall_impl; [exact He|]. cbn. intros s (Hp & Ho & Hw). split; [done|]. split; [by apply elem_str_false|].
    unfold in_window in Hw. apply andb_false_iff in Hw as [Hw|Hw]; [left; destruct (cutoff =? 0) eqn:E; b2p; done|right; b2p; lia].
  - intros Hn s Hs. destruct (sorted_older scans) as [Hperm _].
    destruct (passes_until _ _ _ _ _ _ _ _ H Hn s) as [?|[?|[?|[[Hw ?]|?]]]]; [by rewrite Hperm|by left|by right; left| | |by do 4 right].
    + right; right; left. by apply elem_str_true.
    + do 3 right; left. split; [|done]. unfold in_window in Hw. apply andb_true_iff in Hw as [_ Hw]. b2p. done.
  - apply (passes_accounts _ _ _ _ _ _ _ _ H).
Qed.

(** What leaves the budget, the registry and the objects alone. *)
Definition aside (s s' : St) : Prop := budget_ s' = budget_ s /\ registry_ s' = registry_ s /\ objs_ s' = objs_ s /\ nextObj_ s' = nextObj_ s.
#[global] Instance aside_preorder : PreOrder aside.
Proof. split; [by intros s|]. intros a b c (? & ? & ? & ?) (? & ? & ? & ?). repeat split; congruence. Qed.

Lemma sweep_file_aside dir metas now f : moves aside (sweep_file dir metas now f).
Proof. unfold sweep_file, bump. moves. Qed.
Lemma sweep_files_aside dir metas now l : moves aside (sweep_files dir metas now l).
Proof. pose proof sweep_file_aside. induction l as [|f l IH]; cbn [sweep_files]; moves. Qed.
Lemma sweep_shards_aside now l : moves aside (sweep_shards cfg now l).
Proof. pose proof sweep_files_aside. induction l as [|sh l IH]; cbn [sweep_shards]; moves. Qed.
Lemma nowS_aside : moves aside (nowS clockS).
Proof. by intros s a s' [= _ <-]. Qed.
Lemma sweep_aside : moves aside (sweepReplicaOrphans cfg clockS).
Proof. unfold sweepReplicaOrphans. pose proof sweep_shards_aside. pose proof nowS_aside. moves. Qed.

(** ** Under the cache-wide lock *)

(** Only the lock file may have appeared. *)
Definition locked (s s' : St) : Prop :=
  (forall q, q <> lockPath cfg -> Meta.data_of (fsv s') q = Meta.data_of (fsv s) q) /\
  exists w, s' = set_world (Entry.set_io w (world_ s)) s.

Lemma open_lock_data p (w : W) r w' q : Meta.fs_ok (view w) -> io_open p O_RDWR_CREAT w = (r, w') -> q <> p ->
  Meta.data_of (view w') q = Meta.data_of (view w) q.
Proof.
  intros Hok H Hq. destruct (law_open _ _ _ _ _ H) as [[_ ->]|[_ [_ Ho]]]; [done|]. unfold Meta.data_of, file_of.
  destruct (fs_names (view w) !! p) as [ip|].
  - destruct Ho as (_ & n & _ & ->). done.
  - destruct Ho as (_ & ino & mt & mtn & Hi & ->). cbn. rewrite lookup_insert_ne by done.
    destruct (fs_names (view w) !! q) as [iq|] eqn:Eq; [|done]. cbn. rewrite lookup_insert_ne; [done|].
    intros ->. apply Hok in Eq. rewrite Hi in Eq. by destruct Eq.
Qed.

Lemma with_lock_spec {A} (no : A) m (s s' : St) a : Meta.fs_ok (fsv s) -> with_lock cfg no m s = (a, s') ->
  (a = no /\ locked s s') \/
  exists sl sr, locked s sl /\ m sl = (a, sr) /\ frozen (fsv sr) (fsv s') /\ exists w, s' = set_world (Entry.set_io w (world_ sr)) sr.
Proof.
  intros Hok H. unfold with_lock in H. apply mbind_inv in H as (fd & s1 & H1 & H). apply sio_inv in H1 as (w1 & H1 & ->).
  assert (locked s (set_world (Entry.set_io w1 (world_ s)) s)) as L1.
  { split; [intros q Hq; by eapply open_lock_data|by eexists]. }
  destruct (fd <? 0); [injection H as <- <-; by left|]. apply mbind_inv in H as (r & s2 & H2 & H).
  apply sio_inv in H2 as (w2 & H2 & ->). destruct (law_flock _ _ _ _ _ H2) as [_ V2]. cbn in V2.
  assert (forall w, (forall q, Meta.data_of (view w) q = Meta.data_of (view w1) q) -> locked s (set_world (Entry.set_io w (world_ s)) s)) as L.
  { intros w V. split; [|by eexists]. intros q Hq. unfold fsv at 1. cbn. rewrite V. by eapply open_lock_data. }
  destruct (r <? 0).
  - apply mbind_inv in H as (c & s3 & H3 & [= <- <-]). apply sio_inv in H3 as (w3 & H3 & ->). left. split; [done|].
    apply (L w3). intros q. destruct (law_close _ _ _ _ H3) as [_ ->]. cbn. by rewrite V2.
  - apply mbind_inv in H as (x & sr & Hm & H). apply mbind_inv in H as (r4 & s4 & H4 & H). apply sio_inv in H4 as (w4 & H4 & ->).
    apply mbind_inv in H as (r5 & s5 & H5 & [= <- <-]). apply sio_inv in H5 as (w5 & H5 & ->). right.
    exists (set_world (Entry.set_io w2 (world_ s)) s), sr. split; [apply L; intros q; by rewrite V2|]. split; [exact Hm|].
    destruct (law_flock _ _ _ _ _ H4) as [_ V4]. destruct (law_close _ _ _ _ H5) as [_ V5]. cbn in V4, V5.
    split; [|by eexists]. unfold fsv. cbn. rewrite V5, V4. done.
Qed.

(** ** The pass *)
Definition pruned (s : St) : St := set_registry (filter (fun kv => is_Some (objs_ s !! snd kv)) (registry_ s)) s.

(** From a store to what one pass leaves, its result [n]. *)
Definition pass_of (s s' : St) (n : Z) : Prop :=
  exists s1 scans w1 hs avail k k2 taken p' mid,
    let b := budget_ s in
    let hashes := fst <$> live s in
    flush_live cfg clockS clockUs (live s) (pruned s) = (tt, s1) /\
    scanObjects cfg false (Entry.io_ (world_ s1)) = (scans, w1) /\
    evicted_as b hs hashes (protectCutoff b (w64 (clockS k))) (start_of scans hs avail) scans taken p' /\
    (only (concat (List.map files_of taken)) (fsv s1) mid /\ Forall (fun s => Meta.data_of mid (s_dataPath s) = None) taken /\
     swept (w64 (clockS k2)) mid (fsv s')) /\
    (n = zlen taken /\ approxUsage_ s' = p_usage p' /\ lastEvictEvicted_ s' = n /\
     admissionBlocked_ s' = needEvict b hs p' && p_sawProtected p') /\
    registry_ s' = registry_ (pruned s) /\ budget_ s' = b.

Lemma evict_pass_spec (s s' : St) n : evict_pass cfg clockS clockUs s = (n, s') -> pass_of s s' n.
Proof.
  intros H. unfold evict_pass in H. apply mbind_inv in H as (lv & s0 & H0 & H). injection H0 as <- <-. fold (pruned s) in H.
  apply mbind_inv in H as ([] & s1 & H1 & H). apply mbind_inv in H as (scans & s2 & H2 & H).
  apply sio_inv in H2 as (w1 & H2 & ->). apply mbind_inv in H as (s3 & s4 & [= <- <-] & H).
  destruct (flush_live_inv _ _ _ _ H1) as (B1 & R1 & D1). change (budget_ (pruned s)) with (budget_ s) in B1.
  cbn [budget_ set_world] in H. rewrite B1 in H. apply mbind_inv in H as ([[r avail] tot] & s5 & H5 & H).
  pose proof (keeps_scanObjects cfg (fsv s1) false _ _ _ (frozen_refl _) H2) as F2.
  assert (frozen (fsv s1) (fsv s5) /\ budget_ s5 = budget_ s /\ registry_ s5 = registry_ (pruned s)) as (F5 & B5 & R5).
  { destruct (0 <? minFreeBytes (budget_ s)); [|by injection H5 as <- <- <- <-].
    apply sio_inv in H5 as (w5 & H5 & ->). split; [|done]. by apply (keeps_spaceInfo (frozen (fsv s1)) _ _ _ _ F2 H5). }
  apply mbind_inv in H as (now & s6 & [= <- <-] & H). apply mbind_inv in H as (p' & s7 & H7 & H).
  fold (start_of scans (r =? 0) avail) in H7.
  assert (exists taken, passes (budget_ s) (r =? 0) (fst <$> live s) (protectCutoff (budget_ s) (w64 (clockS (Entry.ticks_ (world_ s5)))))
      (merge_sort older scans) (start_of scans (r =? 0) avail) taken p' /\
    only (concat (List.map files_of taken)) (fsv s1) (fsv s7) /\ Forall (fun s => Meta.data_of (fsv s7) (s_dataPath s) = None) taken /\
    budget_ s7 = budget_ s /\ registry_ s7 = registry_ (pruned s)) as (taken & Hp & O7 & D7 & B7 & R7).
  { destruct (needEvict _ _ (start_of _ _ _)) eqn:En.
    - destruct (evict_loop_spec _ _ _ _ _ _ _ _ _ H7) as (taken & Hp & [R O] & D & B & J & Rg). exists taken. split; [done|].
      split; [|split; [done|split; [by rewrite B|by rewrite Rg]]].
      split; [eapply removes_trans; [|exact R]; by eapply removes_frozen, removes_refl|].
      intros q Hq. rewrite O by done. by apply frozen_data.
    - injection H7 as <- <-. exists []. split; [by constructor|]. split; [by eapply only_frozen, only_refl|]. by split. }
  apply mbind_inv in H as (u & s8 & H8 & H). pose proof (sweep_spec _ _ _ _ _ H8) as S8.
  assert (budget_ s8 = budget_ s /\ registry_ s8 = registry_ (pruned s)) as [B8 R8].
  { rewrite <- B7, <- R7. by destruct (sweep_aside _ _ _ H8) as (? & ? & _). }
  cbv beta iota delta [modS mbind_ mret_] in H. injection H as <- <-.
  pose proof (passes_evicted _ _ _ _ _ _ _ _ Hp) as Ev. destruct (ev_accounts _ _ _ _ _ _ _ _ Ev) as (_ & _ & Ec).
  exists s1, scans, w1, (r =? 0), avail, (Entry.ticks_ (world_ s5)), (Entry.ticks_ (world_ s7)), taken, p', (fsv s7).
  repeat split; try done; try apply O7; try apply S8; apply Ev.
Qed.

(** C6: [evictNow] without the lock returns -1 and changes nothing but the lock file. With it, a pass
    first drops dead registry slots and flushes the live entries, then scans; over the scan, oldest
    first, it takes only entries that are not pinned, not open in this process and not read inside
    the protection window, each only while the budget is still exceeded with what was taken before
    credited; it stops early only when the need is met, and what it leaves while the need is not
    met is pinned, open, protected, or could not be removed. On disk only the files of the taken
    entries go (their data is gone), then only orphaned artifacts older than an hour; the result is
    their number, and the estimate, the progress mark and the admission latch are the pass's accounts. *)
Theorem evictNow_correct (s s' : St) n : Meta.fs_ok (fsv s) -> evictNow cfg clockS clockUs s = (n, s') ->
  (n = -1 /\ locked s s') \/
  exists sl sr, locked s sl /\ pass_of sl sr n /\ frozen (fsv sr) (fsv s') /\ exists w, s' = set_world (Entry.set_io w (world_ sr)) sr.
Proof.
  intros Hok H. destruct (with_lock_spec _ _ _ _ _ Hok H) as [?|(sl & sr & L & Hm & F)]; [by left|right].
  exists sl, sr. split; [done|]. split; [by apply evict_pass_spec|done].
Qed.
End evict.

(** One of the two entries is old enough: it goes, the other is inside the window and blocks admission. *)
Definition demo_run : Z * @Store memw := evictNow CacheDemo.cfg CacheDemo.clk CacheDemo.clk CacheDemo.crowded.
Lemma evictNow_correct_witness :
  exists sl sr, locked CacheDemo.cfg CacheDemo.crowded sl /\ pass_of CacheDemo.cfg CacheDemo.clk CacheDemo.clk sl sr 1 /\
    admissionBlocked_ (snd demo_run) = true /\
    Meta.data_of (fsv (snd demo_run)) (UrlKey.metaPath CacheDemo.key_a (bs "/c")) = None /\
    Meta.data_of (fsv (snd demo_run)) (UrlKey.metaPath CacheDemo.key_b (bs "/c")) <> None.
Proof.
  assert (fst demo_run = 1) as E by (vm_compute; reflexivity).
  destruct (evictNow_correct CacheDemo.cfg CacheDemo.clk CacheDemo.clk CacheDemo.crowded (snd demo_run) (fst demo_run) CacheDemo.crowded_ok
    (surjective_pairing demo_run)) as [[H _]|(sl & sr & L & P & _)]; [rewrite E in H; discriminate H|]. rewrite E in P.
  exists sl, sr. split; [exact L|]. split; [exact P|]. split; [vm_compute; reflexivity|].
  split; [vm_compute; reflexivity|]. vm_compute. discriminate.
Defined.
End Ops.
