(* ===== verification/CacheOpen.v ===== *)
(** * Admission and the registry (src/core/CacheStore.cc, open)

    One entry per key: the registry's invariant, that every operation keeps it,
    and what [open] returns in each case. *)

From S2P Require Import Prelude IOBackend Crc32c Config MetaFile UrlKey FileEntry SlotStore CacheStore IOFrame CacheFrame CacheEvict CacheOps.

Module Admit.
Import Store.

Section opening.
Context {W : Type} `{!IOBackend W, !IOLaws W, !IODirs W, !DirLaws W} `{CK : Checksum}.
Context (cfg : Config.Config) (clockS clockUs : nat -> Z).
Abbreviation St := (@Store W).

(** Object ids are fresh, and a live slot holds the entry of its own hash. *)
Record store_ok (s : St) : Prop := {
  ok_fresh : forall id o, objs_ s !! id = Some o -> id < nextObj_ s;
  ok_slots : forall h id, registry_ s !! h = Some id -> id < nextObj_ s;
  ok_keys : forall h id o, registry_ s !! h = Some id -> objs_ s !! id = Some o -> UrlKey.hashHex (o_key o) = h
}.

(** Objects keep their key, slots are dropped at most, and every live slot stays. *)
Definition steady (s s' : St) : Prop :=
  nextObj_ s' = nextObj_ s /\ (forall id, o_key <$> objs_ s' !! id = o_key <$> objs_ s !! id) /\
  (forall h id, registry_ s' !! h = Some id -> registry_ s !! h = Some id) /\ (forall h, reg_live s' h = reg_live s h).
#[global] Instance steady_preorder : PreOrder steady.
Proof.
  split; [by intros s|]. intros a b c (N1 & K1 & S1 & L1) (N2 & K2 & S2 & L2).
  split; [by rewrite N2|]. split; [intros id; by rewrite K2|]. split; [intros; by apply S1, S2|intros h; by rewrite L2].
Qed.

Lemma steady_ok s s' : steady s s' -> store_ok s -> store_ok s'.
Proof.
  intros (N & K & S & L) [F G Y]. split.
  - intros id o Ho. rewrite N. specialize (K id). rewrite Ho in K. destruct (objs_ s !! id) as [o0|] eqn:E; [|done]. by apply (F id o0).
  - intros h id Hh. rewrite N. by apply (G h), S.
  - intros h id o Hh Ho. specialize (K id). rewrite Ho in K. destruct (objs_ s !! id) as [o0|] eqn:E; [|done].
    injection K as ->. by apply (Y h id o0); [apply S|].
Qed.
Lemma steady_live (s s' : St) id : steady s s' -> is_Some (objs_ s' !! id) <-> is_Some (objs_ s !! id).
Proof. intros (_ & K & _). specialize (K id). destruct (objs_ s' !! id), (objs_ s !! id); try done. Qed.
Lemma steady_same (s s' : St) : objs_ s' = objs_ s -> nextObj_ s' = nextObj_ s -> registry_ s' = registry_ s -> steady s s'.
Proof. intros O N R. unfold steady, reg_live. by rewrite O, N, R. Qed.
Lemma aside_steady (s s' : St) : Ops.aside s s' -> steady s s'.
Proof. intros (_ & R & O & N). by apply steady_same. Qed.

Lemma steady_io {A} (m : M W A) : moves steady (io m).
Proof. apply moves_io. intros. by apply steady_same. Qed.
Lemma steady_mod f : (forall s, steady s (f s)) -> moves steady (modS f).
Proof. apply moves_mod. Qed.
Lemma steady_nowS : moves steady (nowS clockS).
Proof. intros s a s' [= _ <-]. by apply steady_same. Qed.
Lemma steady_bump c n : moves steady (bump (W := W) c n).
Proof. apply steady_mod. intros s. by apply steady_same. Qed.

Lemma steady_prune : moves steady prune.
Proof.
  intros s a s' [= _ <-]. unfold steady, reg_live. cbn. repeat split.
  - intros h id. by intros [? _]%map_lookup_filter_Some.
  - intros h. destruct (registry_ s !! h) as [id|] eqn:E.
    + destruct (objs_ s !! id) as [o|] eqn:Eo.
      * rewrite (map_lookup_filter_Some_2 _ _ h id E); cbn; by rewrite Eo.
      * destruct (filter _ _ !! h) as [id'|] eqn:Ef; [|done]. apply map_lookup_filter_Some in Ef as [Ef [o Ho]].
        cbn in Ho. congruence.
    + rewrite map_lookup_filter, E. done.
Qed.

Lemma steady_on_entry {A} id (m : UrlKey.UrlKey -> M Entry.St A) : moves steady (on_entry id m).
Proof.
  intros s r s' H. unfold on_entry in H. destruct (objs_ s !! id) as [o|] eqn:E; [|by injection H as _ <-].
  destruct (m _ _) as [a [e w]]. injection H as _ <-. unfold steady, reg_live. cbn. repeat split.
  - intros i. destruct (decide (i = id)) as [->|]; [by rewrite lookup_insert_eq, E|by rewrite lookup_insert_ne].
  - done.
  - intros h. destruct (registry_ s !! h) as [i|]; [|done].
    destruct (decide (i = id)) as [->|]; [by rewrite lookup_insert_eq, E|by rewrite lookup_insert_ne].
Qed.
Lemma steady_flush_live l : moves steady (flush_live cfg clockS clockUs l).
Proof. induction l as [|[h id] l IH]; cbn [flush_live]; [apply moves_ret, _|]. apply moves_bind; [apply _|apply steady_on_entry|done]. Qed.

Lemma steady_evict_one hs c s p : moves steady (evict_one hs c s p).
Proof. unfold evict_one. pose proof @steady_io. pose proof steady_bump. moves. Qed.
Lemma steady_evict_loop b sp hs c l p : moves steady (evict_loop b sp hs c l p).
Proof. revert p. induction l as [|s l IH]; intros p; cbn [evict_loop]; pose proof steady_evict_one; moves. Qed.
Lemma steady_sweep : moves steady (sweepReplicaOrphans cfg clockS).
Proof. intros s a s' H. eapply aside_steady, Ops.sweep_aside, H. Qed.
Lemma steady_set_blocked v : moves steady (modS (set_blocked (W := W) v)).
Proof. apply steady_mod. intros s. by apply steady_same. Qed.
Lemma steady_set_approx v : moves steady (modS (set_approx (W := W) v)).
Proof. apply steady_mod. intros s. by apply steady_same. Qed.
Lemma steady_set_lastEvicted v : moves steady (modS (set_lastEvicted (W := W) v)).
Proof. apply steady_mod. intros s. by apply steady_same. Qed.
Lemma steady_set_lastCheck v : moves steady (modS (set_lastCheck (W := W) v)).
Proof. apply steady_mod. intros s. by apply steady_same. Qed.

#[local] Hint Resolve steady_io steady_nowS steady_bump steady_prune steady_flush_live steady_evict_loop steady_sweep
  steady_set_blocked steady_set_approx steady_set_lastEvicted steady_set_lastCheck steady_preorder : moves.
Lemma steady_evict_pass : moves steady (evict_pass cfg clockS clockUs).
Proof. unfold evict_pass. moves. Qed.
Lemma steady_with_lock {A} (no : A) m : moves steady m -> moves steady (with_lock cfg no m).
Proof. intros Hm. unfold with_lock. moves. Qed.
Lemma steady_evictNow : moves steady (evictNow cfg clockS clockUs).
Proof. apply steady_with_lock, steady_evict_pass. Qed.
#[local] Hint Resolve steady_evictNow : moves.
Lemma steady_maybeEvict : moves steady (maybeEvict cfg clockS clockUs).
Proof. unfold maybeEvict. moves. Qed.

Lemma reg_live_some (s : St) h id : reg_live s h = Some id <-> registry_ s !! h = Some id /\ is_Some (objs_ s !! id).
Proof.
  unfold reg_live. split.
  - destruct (registry_ s !! h) as [i|]; [|done]. destruct (objs_ s !! i) eqn:E; [|done]. intros [= <-]. by rewrite E.
  - intros [-> [o ->]]. done.
Qed.

(** Registering a new object under its hash. *)
Definition registered (key : UrlKey.UrlKey) (e : Entry.FileEntry) (s : St) : St :=
  let id := nextObj_ s in
  let s1 := set_objs (<[id := mkObj key e (fun _ => 0)]> (objs_ s)) (id + 1) s in
  set_registry (<[UrlKey.hashHex key := id]> (registry_ s1)) s1.
Lemma registered_ok key e s : store_ok s -> store_ok (registered key e s) /\
  reg_live (registered key e s) (UrlKey.hashHex key) = Some (nextObj_ s) /\
  (forall h, h <> UrlKey.hashHex key -> reg_live (registered key e s) h = reg_live s h).
Proof.
  intros [F G Y]. split; [split|split].
  - intros i o. cbn. intros [[<- _]|[_ ?%F]]%lookup_insert_Some; lia.
  - intros h i. cbn. intros [[_ <-]|[_ ?%G]]%lookup_insert_Some; lia.
  - intros h i o. cbn. intros [[<- <-]|[_ Hh]]%lookup_insert_Some; [rewrite lookup_insert_eq; by intros [= <-]|].
    pose proof (G h i Hh). rewrite lookup_insert_ne by lia. by apply Y.
  - apply reg_live_some. cbn. rewrite !lookup_insert_eq. by split.
  - intros h Hne. unfold reg_live. cbn. rewrite lookup_insert_ne by done. destruct (registry_ s !! h) as [i|] eqn:E; [|done].
    apply G in E. rewrite lookup_insert_ne by lia. done.
Qed.

Lemma share_spec h (s : St) r s' : share h s = (r, s') -> r = reg_live s h /\ steady s s' /\ world_ s' = world_ s /\
  (r <> None -> s' = s).
Proof.
  unfold share, reg_live. destruct (registry_ s !! h) as [id|] eqn:E; [|by intros [= <- <-]; repeat split].
  destruct (objs_ s !! id) as [o|] eqn:Eo; intros [= <- <-]; [by repeat split|].
  split; [done|]. split; [|done]. unfold steady, reg_live. cbn. repeat split.
  - intros h' i. by intros [_ ?]%lookup_delete_Some.
  - intros h'. destruct (decide (h' = h)) as [->|]; [by rewrite lookup_delete_eq, E, Eo|by rewrite lookup_delete_ne].
Qed.

(** What [open] may do about a key no live slot holds. *)
Inductive opened_as (key : UrlKey.UrlKey) (s s' : St) : option Z * bool -> Prop :=
| declined_for_space sm w st w' : steady s sm -> admissionBlocked_ sm = true ->
    (* the sidecar is not there: an entry on disk is never declined *)
    io_stat (UrlKey.metaPath key (Config.cacheDir cfg)) w = (st, w') -> fst st <> 0 -> view w = fsv sm ->
    fsv s' = fsv sm -> steady s s' -> opened_as key s s' (None, true)
| failed_open : steady s s' -> opened_as key s s' (None, false)
| new_entry : reg_live s' (UrlKey.hashHex key) = Some (nextObj_ s) -> nextObj_ s' = nextObj_ s + 1 ->
    o_key <$> objs_ s' !! nextObj_ s = Some key ->
    (forall h, h <> UrlKey.hashHex key -> reg_live s' h = reg_live s h) -> opened_as key s s' (Some (nextObj_ s), false).

(** The rest of [open] once the entry is there. *)
Lemma register_spec key e (s s8 s' : St) r : store_ok s -> reg_live s (UrlKey.hashHex key) = None -> steady s s8 ->
  (do s <- get;
   let id := nextObj_ s in
   do_ modS (set_objs (<[id := mkObj key e (fun _ => 0)]> (objs_ s)) (id + 1));
   match reg_live s (UrlKey.hashHex key) with
   | Some other => do_ bump (o_opens other) 1; do_ release cfg clockS clockUs id; ret (Some other, false)
   | None =>
       do_ modS (fun s => set_registry (<[UrlKey.hashHex key := id]> (registry_ s)) s);
       do_ when (dumpStatsOnDtor_ s && negb (elem_str (UrlKey.hashHex key) (seenKeys_ s)))
             (do_ modS (fun s => set_seen (UrlKey.hashHex key :: seenKeys_ s) s); bump filesOpened 1);
       do_ bump (o_opens id) 1;
       do_ maybeEvict cfg clockS clockUs;
       ret (Some id, false)
   end) s8 = (r, s') ->
  store_ok s' /\ opened_as key s s' r.
Proof.
  intros Hok El S08 H. pose proof S08 as (N8 & K8 & _ & L8). apply mbind_inv in H as (sg & s9 & [= <- <-] & H). rewrite L8, El in H.
  cbv zeta in H. apply mbind_inv in H as (u1 & s10 & [= _ <-] & H). apply mbind_inv in H as (u2 & s11 & [= _ <-] & H).
  fold (registered key e s8) in H. apply mbind_inv in H as (u3 & s12 & H3 & H). apply mbind_inv in H as (u4 & s13 & [= _ <-] & H).
  apply mbind_inv in H as (u5 & s14 & H5 & H). injection H as <- <-.
  destruct (registered_ok key e s8 (steady_ok _ _ S08 Hok)) as (Hok9 & L9 & O9).
  assert (steady (registered key e s8) s14) as S9.
  { etrans; [|eapply steady_maybeEvict, H5]. etrans; [|by apply steady_same].
    refine (moves_when steady _ _ _ _ _ _ H3). unfold bump. apply moves_bind; [apply _| |intros _]; apply steady_mod; intros; by apply steady_same. }
  split; [by eapply steady_ok|]. pose proof S9 as (N14 & K14 & _ & L14). rewrite N8. constructor.
  - by rewrite L14, L9, N8.
  - rewrite N14. cbn. lia.
  - rewrite K14. cbn. rewrite <- N8, lookup_insert_eq. done.
  - intros h Hne. by rewrite L14, O9, L8.
Qed.

(** C34: one entry per key: in a store whose slots hold the entries of their own hash, [open] of a key
    with a live entry returns that entry and touches neither the disk nor the registry; otherwise it
    declines for space only when the refreshed verdict is that admission is blocked and the key has
    no sidecar on disk (then nothing is created or written), or fails, or registers exactly one
    new entry for the key; every other key's live entry stays, and the invariant is kept. *)
Theorem open_one_entry_per_key key originSize originMtime ck oc (s s' : St) r : store_ok s ->
  open cfg clockS clockUs key originSize originMtime ck oc s = (r, s') ->
  store_ok s' /\
  match reg_live s (UrlKey.hashHex key) with
  | Some id => r = (Some id, false) /\ world_ s' = world_ s /\ objs_ s' = objs_ s /\ registry_ s' = registry_ s
  | None => opened_as key s s' r
  end.
Proof.
  intros Hok H. unfold open in H. apply mbind_inv in H as (sh & s1 & H1 & H). destruct (share_spec _ _ _ _ H1) as (-> & S1 & W1 & E1).
  destruct (reg_live s (UrlKey.hashHex key)) as [id|] eqn:El.
  { rewrite E1 in H by done. cbv beta iota delta [bump modS mbind_ mret_] in H. injection H as <- <-.
    split; [|done]. eapply steady_ok; [|exact Hok]. by apply steady_same. }
  apply mbind_inv in H as ([r1 st1] & s2 & H2 & H). pose proof (steady_io _ _ _ _ H2) as S2.
  apply mbind_inv in H as (u & s3 & H3 & H). assert (steady s2 s3) as S3.
  { refine (moves_when steady _ _ _ _ _ _ H3). apply steady_maybeEvict. }
  assert (steady s s3) as S03 by (etrans; [exact S1|]; etrans; [exact S2|exact S3]). clear H1 H2 H3 S1 S2 S3 E1 W1.
  apply mbind_inv in H as (sg & s4 & [= <- <-] & H). apply mbind_inv in H as ([r2 st2] & s5 & H5 & H). cbn [fst] in H.
  destruct (r2 =? 0) eqn:Er; b2p; cbn [negb] in H.
  - assert (steady s s5) as S05.
    { etrans; [exact S03|]. destruct (admissionBlocked_ s3); [by apply steady_io in H5|]. injection H5 as _ _ <-. by apply steady_same. }
    clear H5. apply mbind_inv in H as (now & s6 & H6 & H). apply steady_nowS in H6. apply mbind_inv in H as ([oe cs] & s7 & H7 & H).
    apply steady_io in H7. apply mbind_inv in H as (u8 & s8 & H8 & H). cbn [fst snd] in H, H8.
    assert (steady s s8) as S08.
    { etrans; [exact S05|]. etrans; [exact H6|]. etrans; [exact H7|]. injection H8 as _ <-. by apply steady_same. }
    clear H6 H7 H8 S05 S03. destruct oe as [e|]; [|injection H as <- <-; split; [by eapply steady_ok|by constructor]].
    eapply register_spec; eauto.
  - destruct (admissionBlocked_ s3) eqn:Eb; [|by injection H5 as <- <- <-]. apply sio_inv in H5 as (w5 & H5 & ->).
    cbv beta iota delta [bump modS mbind_ mret_] in H. injection H as <- <-.
    destruct (law_stat _ _ _ _ _ H5) as (_ & V5 & _).
    assert (forall x, objs_ x = objs_ s3 -> nextObj_ x = nextObj_ s3 -> registry_ x = registry_ s3 -> steady s x) as K.
    { intros x Hx1 Hx2 Hx3. etrans; [exact S03|]. by apply steady_same. }
    split; [eapply steady_ok; [by apply K|done]|].
    eapply (declined_for_space key s _ s3 _ (r2, st2)); [done|done|exact H5|done|done|exact V5|by apply K].
Qed.
End opening.

(** A key the blocked store does not hold is declined; one it holds is opened, and shared the second time. *)
Definition blocked : @Store memw := set_blocked true CacheDemo.two_closed.
Definition key_c : UrlKey.UrlKey := UrlKey.mkUrlKey (bs "c") (bs "cc33") (bs "root") (bs "h").
Lemma blocked_ok : store_ok blocked.
Proof. split; cbn; intros *; by rewrite lookup_empty. Qed.

Definition open_on (k : UrlKey.UrlKey) (s : @Store memw) : option Z * bool * @Store memw :=
  open CacheDemo.cfg CacheDemo.clk CacheDemo.clk k 100 0 0 0 s.
Lemma open_on_eq k s : open CacheDemo.cfg CacheDemo.clk CacheDemo.clk k 100 0 0 0 s = (fst (open_on k s), snd (open_on k s)).
Proof. apply surjective_pairing. Qed.

Lemma open_one_entry_per_key_witness :
  let declined := open_on key_c blocked in
  let first := open_on CacheDemo.key_a blocked in
  fst declined = (None, true) /\ opened_as CacheDemo.cfg key_c blocked (snd declined) (None, true) /\
  fst first = (Some 3, false) /\ store_ok (snd first) /\
  fst (open_on CacheDemo.key_a (snd first)) = (Some 3, false) /\ objs_ (snd (open_on CacheDemo.key_a (snd first))) = objs_ (snd first).
Proof.
  cbv zeta.
  destruct (open_one_entry_per_key CacheDemo.cfg CacheDemo.clk CacheDemo.clk key_c 100 0 0 0 _ _ _ blocked_ok (open_on_eq key_c blocked))
    as [_ Hd].
  destruct (open_one_entry_per_key CacheDemo.cfg CacheDemo.clk CacheDemo.clk CacheDemo.key_a 100 0 0 0 _ _ _ blocked_ok
    (open_on_eq CacheDemo.key_a blocked)) as [Hok Hf].
  assert (fst (open_on key_c blocked) = (None, true)) as Ed by (vm_compute; reflexivity).
  assert (fst (open_on CacheDemo.key_a blocked) = (Some 3, false)) as Ef by (vm_compute; reflexivity).
  assert (reg_live (snd (open_on CacheDemo.key_a blocked)) (UrlKey.hashHex CacheDemo.key_a) = Some 3) as El by (vm_compute; reflexivity).
  split; [exact Ed|]. split; [rewrite Ed in Hd; exact Hd|]. split; [exact Ef|]. split; [exact Hok|].
  destruct (open_one_entry_per_key CacheDemo.cfg CacheDemo.clk CacheDemo.clk CacheDemo.key_a 100 0 0 0 _ _ _ Hok
    (open_on_eq CacheDemo.key_a (snd (open_on CacheDemo.key_a blocked)))) as [_ Ha].
  rewrite El in Ha. destruct Ha as (Ha & _ & Ho & _). split; [exact Ha|exact Ho].
Defined.
End Admit.
