(* ===== verification/CacheAdmin.v ===== *)
(** * Pinning, cleanup, the sweep and the headroom (src/core/CacheStore.cc)

    The administrative operations: a closed entry's pin, what a cleanup selects
    and removes, what a sweep may take, and the space left above the floor. *)

From stdpp Require Import sorting.
From S2P Require Import Prelude IOBackend Crc32c Config MetaFile UrlKey FileEntry FileEntryMeta SlotStore CacheStore IOFrame CacheFrame CacheEvict CacheOps.

Module Admin.
Import Store.

(** ** The pin bit *)
Lemma set_pin_bits p f i : 0 <= f -> 0 <= i < 32 ->
  Z.testbit (set_pin p f) i = if i =? 0 then p else Z.testbit f i.
Proof.
  intros Hf Hi. unfold set_pin. change Meta.kFlagPinned with (Z.shiftl 1 0). destruct p.
  - rewrite Z.lor_spec, Z.shiftl_spec, Z.sub_0_r by lia. destruct (Z.eqb_spec i 0) as [->|]; [by rewrite orb_true_r|].
    replace (Z.testbit 1 i) with false by (symmetry; apply (Z.bits_above_log2 1); simpl; lia). apply orb_false_r.
  - rewrite Z.land_spec, EntryMeta.testbit_not_flag by lia. destruct (Z.eqb_spec i 0) as [->|]; [apply andb_false_r|apply andb_true_r].
Qed.
Lemma set_pin_u32 p f : is_u32 f -> is_u32 (set_pin p f).
Proof.
  intros Hf. unfold set_pin. destruct p.
  - apply EntryMeta.u32_lor; [done|]. unfold is_u32, Meta.kFlagPinned. lia.
  - apply EntryMeta.u32_land; [done|apply EntryMeta.not_flag_nonneg].
Qed.

Section pin.
Context {W : Type} `{!IOBackend W, !IOLaws W, !IODirs W, !DirLaws W} `{CK : Checksum}.
Context (cfg : Config.Config) (clockS clockUs : nat -> Z).
Abbreviation St := (@Store W).

(** The tail shared by the branches of [pin_closed]. *)
Lemma unlock_frozen fd (b : bool) (w : W) r w' : (do_ io_flock fd LOCK_UN; do_ io_close fd; ret b) w = (r, w') ->
  r = b /\ frozen (view w) (view w').
Proof.
  intros (r1 & w1 & H1 & H)%mbind_inv. apply mbind_inv in H as (r2 & w2 & H2 & [= <- <-]). split; [done|].
  destruct (law_flock _ _ _ _ _ H1) as [_ V1]. destruct (law_close _ _ _ _ H2) as [_ V2]. rewrite V2, V1. by split.
Qed.

Lemma pin_closed_spec key p (w : W) ok w' : let mp := UrlKey.metaPath key (Config.cacheDir cfg) in
  calm (view w) -> (forall d m, Meta.data_of (view w) mp = Some d -> Meta.deserialize d = Some m -> Meta.wf m) ->
  pin_closed cfg key p w = (ok, w') ->
  (forall q, q <> mp -> q <> Meta.tmp_of mp -> Meta.data_of (view w') q = Meta.data_of (view w) q) /\
  if ok : bool then exists d m, Meta.data_of (view w) mp = Some d /\ Meta.deserialize d = Some m /\ Meta.wf m /\
    Meta.data_of (view w') mp = Some (Meta.serialize (Meta.set_flags (set_pin p (Meta.flags m)) m))
  else Meta.data_of (view w') mp = Meta.data_of (view w) mp.
Proof.
  intros mp Hc Hwf H. unfold pin_closed in H. fold mp in H. apply mbind_inv in H as (fd & w1 & H1 & H).
  pose proof (keeps_frozen_open_rw (view w) _ _ _ _ (frozen_refl _) H1) as F1.
  assert (forall x, frozen (view w) x -> (forall q, q <> mp -> q <> Meta.tmp_of mp -> Meta.data_of x q = Meta.data_of (view w) q) /\
    Meta.data_of x mp = Meta.data_of (view w) mp) as K.
  { intros x F. split; [intros q _ _|]; by rewrite (frozen_data _ _ _ F). }
  destruct (fd <? 0); [injection H as <- <-; by apply K|].
  apply mbind_inv in H as (r2 & w2 & H2 & H). destruct (law_flock _ _ _ _ _ H2) as [_ V2].
  apply mbind_inv in H as ([r3 s3] & w3 & H3 & H). destruct (law_fstat _ _ _ _ _ H3) as (_ & V3 & _).
  assert (frozen (view w) (view w3)) as F3 by (rewrite V3, V2; exact F1).
  apply mbind_inv in H as (b & w4 & H4 & H). apply unlock_frozen in H as [-> F5].
  cbn [fst snd] in H4. destruct ((r3 =? 0) && _).
  2: { injection H4 as <- <-. apply K. by eapply frozen_trans. }
  apply mbind_inv in H4 as (om & w6 & H6 & H4). pose proof (Evict.keeps_load (view w) _ _ _ _ F3 H6) as F6.
  destruct om as [m|]; [|injection H4 as <- <-; apply K; by eapply frozen_trans].
  destruct (Meta.load_spec _ _ _ _ H6) as [?|(d & Hd & Hdm)]; [done|]. rewrite (frozen_data _ _ _ F3) in Hd.
  pose proof (Hwf d m Hd ltac:(done)) as Hm. set (m' := Meta.set_flags (set_pin p (Meta.flags m)) m) in *.
  assert (Meta.wf m') as Hm' by (apply EntryMeta.wf_flags_set, set_pin_u32, Hm; done).
  apply mbind_inv in H4 as (r & w7 & H7 & [= <- <-]). unfold Meta.store in H7.
  destruct (store_bytes_calm _ _ _ _ _ _ (frozen_calm _ _ F6 Hc) (Meta.serialize_bytes m' Hm')
    ltac:(rewrite Meta.zlen_serialize by done; apply w64_range) H7) as (_ & Ho & Hr).
  split; [intros q Hq1 Hq2; rewrite (frozen_data _ _ _ F5), Ho, (frozen_data _ _ _ F6); done|].
  destruct Hr as [[-> Hr]|[Hr Hs]].
  - exists d, m. rewrite (frozen_data _ _ _ F5). done.
  - rewrite (proj2 (Z.eqb_neq r 0)) by lia. by rewrite (frozen_data _ _ _ F5), Hs, (frozen_data _ _ _ F6).
Qed.

(** pinning (or unpinning) an entry that is not open changes one bit of one sidecar: on success
    the sidecar decodes to the old one with the pin flag as asked and every other field and flag as
    it was; on failure the sidecar is byte for byte what it was; no other file changes but its
    temporary, and the store's own state does not change at all. *)
Theorem pin_changes_only_the_flag key p (s s' : St) ok : let mp := UrlKey.metaPath key (Config.cacheDir cfg) in
  calm (fsv s) -> reg_live s (UrlKey.hashHex key) = None ->
  (forall d m, Meta.data_of (fsv s) mp = Some d -> Meta.deserialize d = Some m -> Meta.wf m) ->
  setPinnedByKey cfg clockS key p s = (ok, s') ->
  (forall q, q <> mp -> q <> Meta.tmp_of mp -> Meta.data_of (fsv s') q = Meta.data_of (fsv s) q) /\
  registry_ s' = registry_ s /\ objs_ s' = objs_ s /\
  if ok : bool then exists d m d' f, Meta.data_of (fsv s) mp = Some d /\ Meta.deserialize d = Some m /\
    Meta.data_of (fsv s') mp = Some d' /\ Meta.deserialize d' = Some (Meta.set_flags f m) /\
    forall i, 0 <= i < 32 -> Z.testbit f i = if i =? 0 then p else Z.testbit (Meta.flags m) i
  else Meta.data_of (fsv s') mp = Meta.data_of (fsv s) mp.
Proof.
  intros mp Hc El Hwf H. unfold setPinnedByKey in H. apply mbind_inv in H as (s0 & s1 & [= <- <-] & H). rewrite El in H.
  apply sio_inv in H as (w & H & ->). destruct (pin_closed_spec _ _ _ _ _ Hc Hwf H) as [Ho Hr].
  split; [exact Ho|]. do 2 (split; [done|]). destruct ok; [|exact Hr].
  destruct Hr as (d & m & Hd & Hdm & Hm & Hs). exists d, m, (Meta.serialize (Meta.set_flags (set_pin p (Meta.flags m)) m)), (set_pin p (Meta.flags m)).
  do 3 (split; [done|]). split.
  - apply Meta.deserialize_serialize, EntryMeta.wf_flags_set, set_pin_u32, Hm; done.
  - intros i Hi. apply set_pin_bits; [apply Hm|done].
Qed.
End pin.

Definition pinned_run : bool * @Store memw := setPinnedByKey CacheDemo.cfg CacheDemo.clk CacheDemo.key_a true CacheDemo.two_closed.
Lemma pin_changes_only_the_flag_witness :
  exists d m f, Meta.data_of (fsv (snd pinned_run)) (UrlKey.metaPath CacheDemo.key_a (bs "/c")) = Some d /\
    Meta.deserialize d = Some (Meta.set_flags f m) /\ Z.testbit f 0 = true.
Proof.
  assert (fst pinned_run = true) as E by (vm_compute; reflexivity).
  assert (forall d m, Meta.data_of (fsv CacheDemo.two_closed) (UrlKey.metaPath CacheDemo.key_a (bs "/c")) = Some d ->
    Meta.deserialize d = Some m -> Meta.wf m) as Hwf.
  { intros d m Hd Hm. assert (Meta.data_of (fsv CacheDemo.two_closed) (UrlKey.metaPath CacheDemo.key_a (bs "/c")) = Some CacheDemo.sidecar_a) as Ea
      by (vm_compute; reflexivity).
    rewrite Ea in Hd. injection Hd as <-. exact (CacheDemo.sidecar_a_wf m Hm). }
  pose proof (pin_changes_only_the_flag CacheDemo.cfg CacheDemo.clk CacheDemo.key_a true CacheDemo.two_closed (snd pinned_run) (fst pinned_run)
    CacheDemo.two_closed_calm ltac:(vm_compute; reflexivity) Hwf (surjective_pairing pinned_run)) as (_ & _ & _ & H).
  rewrite E in H. destruct H as (d & m & d' & f & _ & _ & Hd & Hm & Hf). exists d', m, f. split; [exact Hd|]. split; [exact Hm|].
  rewrite Hf by (split; [discriminate|reflexivity]). reflexivity.
Defined.

(** ** The floor and the space above it *)
Section floor.
Context {W : Type} `{!IOBackend W, !IOLaws W, !IODirs W, !DirLaws W} `{CK : Checksum}.
Context (cfg : Config.Config).
Abbreviation St := (@Store W).
Abbreviation dir := (Config.cacheDir cfg).

Lemma effectiveMinFree_auto b (w : W) f w' : minFreeBytes b = 0 -> budgetAuto b = true ->
  effectiveMinFree cfg b w = (f, w') ->
  view w' = view w /\ 0 <= f <= Z.shiftl 50 30 /\
  (f = Z.shiftl 10 30 \/ exists avail total w1, io_spaceInfo dir w = (0, avail, total, w1) /\ f <= total / 10 /\ f <= avail / 2).
Proof.
  intros E0 Ea H. unfold effectiveMinFree in H. rewrite E0, Ea in H. cbn [negb Z.eqb] in H.
  apply mbind_inv in H as ([[r a] t] & w1 & H1 & H). destruct (law_spaceInfo _ _ _ _ _ _ H1) as (V & [Ha _] & [Ht _]).
  assert (0 <= t / 10) by (apply Z.div_pos; lia). assert (0 <= a / 2) by (apply Z.div_pos; lia).
  change (Z.shiftl 50 30) with 53687091200 in *. change (Z.shiftl 10 30) with 10737418240 in *.
  destruct ((r =? 0) && (0 <? a) && (0 <? t)) eqn:E; b2p; injection H as <- <-; (split; [done|]); (split; [lia|]); [right|by left].
  subst r. exists a, t, w1. split; [done|]. lia.
Qed.

Lemma headroom_spec b (w : W) h w' : minFreeBytes b <> 0 -> 0 <= minFreeBytes b -> headroomToFloor cfg b w = (h, w') ->
  view w' = view w /\ (h = 0 \/ exists avail total, io_spaceInfo dir w = (0, avail, total, w') /\ h = avail - minFreeBytes b /\ 0 < h).
Proof.
  intros E0 Hp H. unfold headroomToFloor, effectiveMinFree in H. rewrite (proj2 (Z.eqb_neq _ _) E0) in H. cbn [negb] in H.
  apply mbind_inv in H as (f & w1 & [= <- <-] & H). rewrite (proj2 (Z.eqb_neq _ _) E0) in H.
  apply mbind_inv in H as ([[r a] t] & w2 & H1 & H). destruct (law_spaceInfo _ _ _ _ _ _ H1) as (V & [_ Ha] & _).
  destruct (negb (r =? 0) || (t =? 0)) eqn:E; [injection H as <- <-; split; [done|by left]|]. b2p.
  destruct (minFreeBytes b <? a) eqn:Ef; b2p; injection H as <- <-; (split; [done|]); [right|by left].
  subst r. exists a, t. split; [done|]. rewrite w64_small by lia. lia.
Qed.

(** the automatic floor is resolved once: at most 50 GiB, and 10 GiB when free space is unknown,
    else at most a tenth of the volume and half of what was free; an explicit floor is left alone.
    Asked of the store's own settings from then on, [headroomToFloor] changes nothing and answers 0
    or exactly what is free above that floor, so writing up to the answer never goes below it. *)
Theorem headroom_above_floor (s s' : St) u : 0 <= minFreeBytes (budget_ s) -> resolveBudget cfg s = (u, s') ->
  let f := minFreeBytes (budget_ s') in
  (if budgetAuto (budget_ s) && (minFreeBytes (budget_ s) =? 0)
   then 0 <= f <= Z.shiftl 50 30 /\ (f = Z.shiftl 10 30 \/ exists w avail total w1, io_spaceInfo dir w = (0, avail, total, w1) /\
          view w = fsv s /\ f <= total / 10 /\ f <= avail / 2)
   else f = minFreeBytes (budget_ s)) /\
  (f <> 0 -> forall w h w', headroomToFloor cfg (budget_ s') w = (h, w') -> view w' = view w /\
     (h = 0 \/ exists avail total, io_spaceInfo dir w = (0, avail, total, w') /\ forall n, 0 <= n <= h -> f <= avail - n)).
Proof.
  intros Hp H f. unfold resolveBudget in H. apply mbind_inv in H as (s0 & s1 & [= <- <-] & H).
  apply mbind_inv in H as (u1 & s2 & H2 & H).
  assert (budget_ s' = budget_ s2) as Eb.
  { destruct (0 <? _); [|by injection H as _ <-]. apply mbind_inv in H as (l & s3 & H3 & [= _ <-]).
    apply mbind_inv in H3 as (l2 & s4 & H4 & [= _ <-]). apply sio_inv in H4 as (w4 & _ & ->). done. }
  assert (0 <= f /\ if budgetAuto (budget_ s) && (minFreeBytes (budget_ s) =? 0)
   then 0 <= f <= Z.shiftl 50 30 /\ (f = Z.shiftl 10 30 \/ exists w avail total w1, io_spaceInfo dir w = (0, avail, total, w1) /\
          view w = fsv s /\ f <= total / 10 /\ f <= avail / 2)
   else f = minFreeBytes (budget_ s)) as [Hf K].
  { unfold f. rewrite Eb. destruct (budgetAuto (budget_ s) && (minFreeBytes (budget_ s) =? 0)) eqn:E; [|by injection H2 as _ <-].
    b2p. apply mbind_inv in H2 as (sp & s3 & H3 & H2). apply sio_inv in H3 as (w3 & H3 & ->). destruct sp as [[r a] t].
    destruct (law_spaceInfo _ _ _ _ _ _ H3) as (V3 & _). apply mbind_inv in H2 as (v & s4 & H4 & [= _ <-]).
    apply sio_inv in H4 as (w4 & H4 & ->). destruct (effectiveMinFree_auto _ _ _ _ ltac:(done) ltac:(done) H4) as (V4 & B & D).
    cbn. split; [apply B|]. split; [exact B|]. destruct D as [?|(av & tot & w1 & Hs & ?)]; [by left|right]. exists w3, av, tot, w1. done. }
  split; [exact K|]. intros E0 w h w' Hh. destruct (headroom_spec _ _ _ _ E0 Hf Hh) as [V D]. split; [exact V|].
  destruct D as [?|(av & tot & Hs & -> & _)]; [by left|right]. exists av, tot. split; [exact Hs|]. fold f. lia.
Qed.
End floor.

(** The 1 MiB volume: the floor is a tenth of it. *)
Definition auto : Budget := mkBudget 0 0 true CacheDemo.half CacheDemo.half 10 5000.
Definition resolved : unit * @Store memw := resolveBudget CacheDemo.cfg (set_budget auto CacheDemo.two_closed).
Lemma headroom_above_floor_witness :
  minFreeBytes (budget_ (snd resolved)) = 104857 /\
  fst (headroomToFloor CacheDemo.cfg (budget_ (snd resolved)) (Entry.io_ (world_ CacheDemo.two_closed))) = 943381 /\
  minFreeBytes (budget_ (snd resolved)) <= Z.shiftl 50 30.
Proof.
  split; [vm_compute; reflexivity|]. split; [vm_compute; reflexivity|].
  destruct (headroom_above_floor CacheDemo.cfg (set_budget auto CacheDemo.two_closed) (snd resolved) (fst resolved) (Z.le_refl 0)
    (surjective_pairing resolved)) as [H _]. apply H.
Defined.
End Admin.
