(* ===== verification/CacheCleanup.v ===== *)
(** * Cleanup (src/core/CacheStore.cc, cleanup)

    What a cleanup selects in each mode, that a dry run removes nothing, and that
    a real one reports exactly what it removed. *)

From stdpp Require Import sorting.
From S2P Require Import Prelude IOBackend Crc32c Config MetaFile UrlKey FileEntry SlotStore CacheStore IOFrame CacheFrame CacheEvict CacheOps.

Module Cleanup.
Import Store Evict Ops.

Section select.
Context {W : Type} `{!IOBackend W, !IOLaws W, !IODirs W, !DirLaws W} `{CK : Checksum}.

(** An entry a cleanup may take, going by the scan. *)
Definition allowed (hashes : list bytes) (keep : bool) (s : MetaScan) : Prop :=
  (s_hashHex s ∉ hashes) /\ (keep = true -> s_pinned s = false).

(** An entry a cleanup must leave: open here, or pinned - by the scan or by its sidecar on disk - when
    pins are kept. *)
Definition spared (f : fs) (hashes : list bytes) (keep : bool) (s : MetaScan) : Prop :=
  s_hashHex s ∈ hashes \/ keep = true /\ (s_pinned s = true \/
    exists d m, Meta.data_of f (s_metaPath s) = Some d /\ Meta.deserialize d = Some m /\ Z.land (Meta.flags m) Meta.kFlagPinned <> 0).
Lemma spared_frozen f f' hashes keep s : frozen f f' -> spared f' hashes keep s -> spared f hashes keep s.
Proof using. intros F [?|(Hk & [?|(d & m & Hd & H)])]; [by left|right; auto|right]. split; [done|]. right. exists d, m. by rewrite <- (frozen_data _ _ _ F). Qed.

Lemma protectedEntry_spec hashes keep s (w : W) b w' : protectedEntry hashes keep s w = (b, w') ->
  frozen (view w) (view w') /\ (b = false -> allowed hashes keep s) /\ (b = true -> spared (view w) hashes keep s) /\
  (keep = false -> b = elem_str (s_hashHex s) hashes).
Proof.
  intros H. assert (frozen (view w) (view w')) as F.
  { assert (keeps (W := W) (frozen (view w)) (protectedEntry hashes keep s)) as K; [|by eapply K; [apply frozen_refl|exact H]].
    unfold protectedEntry. pose proof (keeps_load (W := W)). keeps. }
  split; [exact F|]. revert H. unfold protectedEntry. destruct (elem_str _ _) eqn:E.
  { intros [= <- _]. split; [done|]. split; [|done]. intros _. left. by apply elem_str_true. }
  apply elem_str_false in E. destruct keep; cbn [andb]; [|by intros [= <- _]].
  destruct (s_pinned s) eqn:Ep; [intros [= <- _]; split; [done|]; split; [|done]; intros _; right; auto|].
  intros (m & w1 & Hl & [= <- _])%mbind_inv. split; [done|]. split; [|done]. destruct m as [m|]; [|done]. intros Hf%negb_true_iff%Z.eqb_neq.
  destruct (Meta.load_spec _ _ _ _ Hl) as [?|(d & Hd & Hm)]; [done|]. right. split; [done|]. right. by exists d, m.
Qed.

Definition room (s : MetaScan) : Z := s_cachedBytes s +% s_replicaBytes s.
(** The total left after [v] is taken. *)
Definition left_after (total : Z) (v : list MetaScan) : Z := foldl (fun t s => t -% Z.min t (room s)) total v.

Lemma select_by_age_spec hashes keep mode cutoff l (w : W) v w' : select_by_age hashes keep mode cutoff l w = (v, w') ->
  frozen (view w) (view w') /\ v `sublist_of` l /\ Forall (fun s => allowed hashes keep s /\ in_mode mode cutoff s = true) v /\
  (forall s, s ∈ l -> in_mode mode cutoff s = true -> s ∈ v \/ spared (view w) hashes keep s) /\
  (keep = false -> v = List.filter (fun s => negb (elem_str (s_hashHex s) hashes) && in_mode mode cutoff s) l).
Proof.
  revert w v w'. induction l as [|s l IH]; intros w v w' H; cbn [select_by_age] in H.
  { injection H as <- <-. do 3 (split; [done|]). split; [by intros s ?%elem_of_nil|done]. }
  apply mbind_inv in H as (b & w1 & H1 & H). apply mbind_inv in H as (v1 & w2 & H2 & [= <- <-]).
  destruct (protectedEntry_spec _ _ _ _ _ _ H1) as (F1 & A1 & P1 & K1). destruct (IH _ _ _ H2) as (F2 & S2 & A2 & P2 & K2).
  assert (forall x, x ∈ l -> in_mode mode cutoff x = true -> x ∈ v1 \/ spared (view w) hashes keep x) as P3.
  { intros x Hx Hm. destruct (P2 x Hx Hm) as [?|?]; [by left|right]. by eapply spared_frozen. }
  split; [by eapply frozen_trans|]. cbn [List.filter]. destruct b.
  - split; [by apply sublist_cons|]. split; [done|]. split; [intros x [->|Hx]%elem_of_cons Hm; [right; by apply P1|by apply P3]|].
    intros Hk. rewrite <- (K1 Hk). cbn. by apply K2.
  - destruct (in_mode mode cutoff s) eqn:Em.
    + split; [by apply sublist_skip|]. split; [constructor; [split; [by apply A1|done]|done]|].
      split; [intros x [->|Hx]%elem_of_cons Hm; [left; by left|destruct (P3 x Hx Hm); [left; by right|by right]]|].
      intros Hk. rewrite <- (K1 Hk), (K2 Hk). done.
    + split; [by apply sublist_cons|]. split; [done|]. split; [intros x [->|Hx]%elem_of_cons Hm; [congruence|by apply P3]|].
      intros Hk. rewrite andb_false_r. by apply K2.
Qed.

Lemma select_to_size_spec hashes keep arg total l (w : W) v w' : select_to_size hashes keep arg total l w = (v, w') ->
  frozen (view w) (view w') /\ v `sublist_of` l /\ Forall (allowed hashes keep) v /\
  (forall v1 s v2, v = v1 ++ s :: v2 -> arg < left_after total v1) /\
  (left_after total v <= arg \/ forall s, s ∈ l -> s ∈ v \/ spared (view w) hashes keep s).
Proof.
  revert total w v w'. induction l as [|s l IH]; intros total w v w' H; cbn [select_to_size] in H.
  { injection H as <- <-. do 3 (split; [done|]). split; [by intros [|]|]. right. by intros s ?%elem_of_nil. }
  destruct (total <=? arg) eqn:Et; b2p.
  { injection H as <- <-. split; [done|]. split; [apply sublist_nil_l|]. split; [done|]. split; [by intros [|]|by left]. }
  apply mbind_inv in H as (b & w1 & H1 & H). destruct (protectedEntry_spec _ _ _ _ _ _ H1) as (F1 & A1 & P1 & _). destruct b.
  - destruct (IH _ _ _ _ H) as (F2 & S2 & A2 & N2 & E2). split; [by eapply frozen_trans|]. split; [by apply sublist_cons|].
    do 2 (split; [done|]). destruct E2 as [?|E2]; [by left|right]. intros x [->|Hx]%elem_of_cons; [right; by apply P1|].
    destruct (E2 x Hx) as [?|?]; [by left|right; by eapply spared_frozen].
  - apply mbind_inv in H as (v1 & w2 & H2 & [= <- <-]). destruct (IH _ _ _ _ H2) as (F2 & S2 & A2 & N2 & E2).
    split; [by eapply frozen_trans|]. split; [by apply sublist_skip|]. split; [constructor; [by apply A1|done]|]. split.
    + intros [|y v2] x v3 Hv; [done|]. injection Hv as <- Hv. by eapply N2.
    + destruct E2 as [?|E2]; [by left|right]. intros x [->|Hx]%elem_of_cons; [left; by left|].
      destruct (E2 x Hx); [left; by right|right; by eapply spared_frozen].
Qed.

Lemma remove_victims_spec l (s : @Store W) v s' : remove_victims l s = (v, s') ->
  v `sublist_of` l /\ only (concat (List.map files_of v)) (fsv s) (fsv s') /\
  Forall (fun x => Meta.data_of (fsv s') (s_dataPath x) = None) v /\ Entry.ticks_ (world_ s') = Entry.ticks_ (world_ s).
Proof.
  revert s v s'. induction l as [|x l IH]; intros s v s' H; cbn [remove_victims] in H.
  { injection H as <- <-. split; [done|]. split; [apply only_refl|done]. }
  apply mbind_inv in H as (u & s1 & [= _ <-] & H). apply mbind_inv in H as (ok & s2 & H2 & H). apply sio_inv in H2 as (w2 & H2 & ->).
  destruct (remove_scanned_spec _ _ _ _ H2) as (O2 & V2 & D2). apply mbind_inv in H as (u3 & s3 & H3 & H).
  assert (fsv s3 = view w2 /\ Entry.ticks_ (world_ s3) = Entry.ticks_ (world_ s)) as [E3 T3].
  { unfold when in H3. destruct ok; [|by injection H3 as _ <-]. cbv beta iota delta [bump modS mbind_ mret_] in H3. by injection H3 as _ <-. }
  apply mbind_inv in H as (v1 & s4 & H4 & [= <- <-]). destruct (IH _ _ _ H4) as (S4 & O4 & D4 & T4). rewrite E3 in O4. rewrite T3 in T4. destruct ok.
  - split; [by apply sublist_skip|]. split.
    + eapply only_trans; [exact O2|exact O4|intros q Hq; apply elem_of_app; by left|intros q Hq; apply elem_of_app; by right].
    + split; [|done]. constructor; [|done]. eapply removes_none; [apply O4|by apply D2].
  - rewrite V2 in O4 by done. split; [by apply sublist_cons|done].
Qed.
End select.

Section cleanup.
Context {W : Type} `{!IOBackend W, !IOLaws W, !IODirs W, !DirLaws W} `{CK : Checksum}.
Context (cfg : Config.Config) (clockS clockUs : nat -> Z).
Abbreviation St := (@Store W).

(** What a mode selects from a scan of the files [f], [hashes] being open. *)
Definition selected_as (f : fs) (mode : CleanupMode) (arg : Z) (hashes : list bytes) (keep : bool) (cutoff : Z) (scans v : list MetaScan) : Prop :=
  match mode with
  | KToSize =>
      let total := scan_total (merge_sort older scans) in
      v `sublist_of` (merge_sort older scans) /\ Forall (allowed hashes keep) v /\
      (forall v1 s v2, v = v1 ++ s :: v2 -> arg < left_after total v1) /\
      (left_after total v <= arg \/ forall s, s ∈ scans -> s ∈ v \/ spared f hashes keep s)
  | _ =>
      v `sublist_of` scans /\ Forall (fun s => allowed hashes keep s /\ in_mode mode cutoff s = true) v /\
      (forall s, s ∈ scans -> in_mode mode cutoff s = true -> s ∈ v \/ spared f hashes keep s) /\
      (keep = false -> v = List.filter (fun s => negb (elem_str (s_hashHex s) hashes) && in_mode mode cutoff s) scans)
  end.

Lemma selected_frozen f f' mode arg hashes keep cutoff scans v : frozen f f' ->
  selected_as f' mode arg hashes keep cutoff scans v -> selected_as f mode arg hashes keep cutoff scans v.
Proof.
  intros F. assert (forall s, s ∈ v \/ spared f' hashes keep s -> s ∈ v \/ spared f hashes keep s) as K
    by (intros s [?|?]; [by left|right; by eapply spared_frozen]).
  destruct mode; cbn; try (intros (H1 & H2 & H3 & H4); split_and!; auto; fail).
  intros (H1 & H2 & H3 & [H4|H4]); split_and!; auto.
Qed.

Definition select (mode : CleanupMode) (arg : Z) (keep : bool) (hashes : list bytes) (scans : list MetaScan) : M St (list MetaScan) :=
  match mode with
  | KToSize => let sorted := merge_sort older scans in io (select_to_size hashes keep arg (scan_total sorted) sorted)
  | _ =>
      do now <- nowS clockS;
      do cutoff <- (if arg <? now then do now2 <- nowS clockS; ret (now2 -% arg) else ret 0);
      io (select_by_age hashes keep mode cutoff scans)
  end.

(** The cutoff of the age modes when the clock has been read [n] times: the argument before now, read
    twice, and 0 when the argument is not before now. *)
Definition cutoff_at (arg : Z) (n : nat) : Z := if arg <? w64 (clockS n) then w64 (clockS (S n)) -% arg else 0.
(** How often the clock has been read once the selection is done. *)
Definition reads_after (mode : CleanupMode) (arg : Z) (n : nat) : nat :=
  match mode with KToSize => n | _ => if arg <? w64 (clockS n) then S (S n) else S n end.
Abbreviation ticks s := (Entry.ticks_ (world_ (s : St))).

Lemma select_spec mode arg keep hashes scans (s : St) v s' : select mode arg keep hashes scans s = (v, s') ->
  frozen (fsv s) (fsv s') /\ selected_as (fsv s) mode arg hashes keep (cutoff_at arg (ticks s)) scans v /\
  ticks s' = reads_after mode arg (ticks s).
Proof.
  assert (forall s, (do now <- nowS clockS;
    do cutoff <- (if arg <? now then do now2 <- nowS clockS; ret (now2 -% arg) else ret 0);
    io (select_by_age hashes keep mode cutoff scans)) s = (v, s') ->
    let cutoff := cutoff_at arg (ticks s) in
    frozen (fsv s) (fsv s') /\
    (v `sublist_of` scans /\ Forall (fun s => allowed hashes keep s /\ in_mode mode cutoff s = true) v /\
    (forall s0, s0 ∈ scans -> in_mode mode cutoff s0 = true -> s0 ∈ v \/ spared (fsv s) hashes keep s0) /\
    (keep = false -> v = List.filter (fun s => negb (elem_str (s_hashHex s) hashes) && in_mode mode cutoff s) scans)) /\
    ticks s' = if arg <? w64 (clockS (ticks s)) then S (S (ticks s)) else S (ticks s)) as K.
  { clear s. intros s (now & s1 & [= <- <-] & H)%mbind_inv. apply mbind_inv in H as (cut & s2 & H2 & H).
    assert (fsv s2 = fsv s /\ cut = cutoff_at arg (ticks s) /\ ticks s2 = if arg <? w64 (clockS (ticks s)) then S (S (ticks s)) else S (ticks s)) as (E2 & -> & T2).
    { unfold cutoff_at. destruct (arg <? _); injection H2 as <- <-; done. }
    apply sio_inv in H as (w & H & ->). destruct (select_by_age_spec _ _ _ _ _ _ _ _ H) as (F & Sel).
    unfold fsv in *. rewrite E2 in F, Sel. done. }
  unfold select, selected_as. destruct mode; [apply K..|]. intros (w & H & ->)%sio_inv.
  destruct (select_to_size_spec _ _ _ _ _ _ _ _ H) as (F & S1 & A & N & E). split; [exact F|]. split; [|done].
  do 3 (split; [done|]). destruct E as [?|E]; [by left|right]. intros s1 Hs. apply E.
  by rewrite (merge_sort_Permutation older scans).
Qed.

(** From a store to what a cleanup under the lock leaves, and its report. *)
Definition cleaned (mode : CleanupMode) (arg : Z) (keep dryRun : bool) (s s' : St) (rep : CleanupReport) : Prop :=
  exists s1 scans w1 victims,
    flush_live cfg clockS clockUs (live s) (pruned s) = (tt, s1) /\
    scanObjects cfg false (Entry.io_ (world_ s1)) = (scans, w1) /\
    selected_as (fsv s1) mode arg (fst <$> live s) keep (cutoff_at arg (ticks s1)) scans victims /\
    if dryRun then rep = report_of victims /\ frozen (fsv s1) (fsv s')
    else exists removed mid, rep = report_of removed /\ removed `sublist_of` victims /\
      only (concat (List.map files_of removed)) (fsv s1) mid /\ Forall (fun x => Meta.data_of mid (s_dataPath x) = None) removed /\
      swept (w64 (clockS (reads_after mode arg (ticks s1)))) mid (fsv s').

Lemma cleanup_locked_spec mode arg keep dryRun (s s' : St) rep :
  cleanup_locked cfg clockS clockUs mode arg keep dryRun s = (rep, s') -> cleaned mode arg keep dryRun s s' rep.
Proof.
  unfold cleanup_locked. intros (lv & s0 & [= <- <-] & H)%mbind_inv. fold (pruned s) in H.
  apply mbind_inv in H as ([] & s1 & H1 & H). apply mbind_inv in H as (scans & s2 & H2 & H). apply sio_inv in H2 as (w2 & H2 & ->).
  pose proof (keeps_scanObjects cfg (fsv s1) false _ _ _ (frozen_refl _) H2) as F2.
  fold (select mode arg keep (fst <$> live s) scans) in H. apply mbind_inv in H as (v & s3 & H3 & H).
  destruct (select_spec _ _ _ _ _ _ _ _ H3) as (F3 & Sel & T3).
  assert (frozen (fsv s1) (fsv s3)) as F by (eapply frozen_trans; [exact F2|exact F3]).
  exists s1, scans, w2, v. do 2 (split; [done|]). split; [by eapply selected_frozen, Sel|]. destruct dryRun; [by injection H as <- <-|].
  apply mbind_inv in H as (removed & s4 & H4 & H). destruct (remove_victims_spec _ _ _ _ H4) as (S4 & [R4 O4] & D4 & T4). rewrite (T3 : Entry.ticks_ (world_ s3) = _) in T4.
  apply mbind_inv in H as (u & s5 & H5 & H). pose proof (sweep_spec _ _ _ _ _ H5) as S5. rewrite T4 in S5.
  apply mbind_inv in H as (us & s6 & H6 & H). apply mbind_inv in H as (u7 & s7 & [= _ <-] & [= <- <-]).
  exists removed, (fsv s4). do 2 (split; [done|]). split; [|split; [done|]].
  - split; [eapply removes_trans; [by eapply removes_frozen, removes_refl|exact R4]|].
    intros q Hq. rewrite O4 by done. by apply frozen_data.
  - apply mbind_inv in H6 as (l & s8 & H8 & [= _ <-]). apply sio_inv in H8 as (w8 & H8 & ->).
    eapply swept_frozen; [|exact S5]. apply (keeps_scanObjects cfg (fsv s5) false _ _ _ (frozen_refl _) H8).
Qed.

(** C37: [cleanup] without the lock reports that and changes nothing but the lock file. With it, no entry
    open in this process is selected, nor a pinned one when pins are kept; the age modes take the
    clock's reading when the flush of the open entries is done, put the cutoff the argument before
    it - at 0 when the argument is not before it - and select the entries on their side of that
    cutoff, all of them but the spared ones: open here, or pinned in the scan or on disk when pins
    are kept. The size mode selects oldest first, each only while the total is above the target, and
    stops above it only when nothing but spared entries is left. A dry run reports the selection and
    changes no file; a real run reports exactly the entries whose data it removed, and removes only
    their files and orphaned artifacts. *)
Theorem cleanup_correct mode arg keep dryRun (s s' : St) rep : Meta.fs_ok (fsv s) ->
  cleanup cfg clockS clockUs mode arg keep dryRun s = (rep, s') ->
  (rep = mkReport false 0 [] /\ locked cfg s s') \/
  exists sl sr, locked cfg s sl /\ cleaned mode arg keep dryRun sl sr rep /\ frozen (fsv sr) (fsv s').
Proof.
  intros Hok H. destruct (with_lock_spec _ _ _ _ _ _ Hok H) as [?|(sl & sr & L & Hm & F & _)]; [by left|right].
  exists sl, sr. split; [done|]. split; [by apply cleanup_locked_spec|done].
Qed.
End cleanup.

(** Everything not used in the last 5000 seconds: [a], in a dry run and for good. *)
Definition demo_run (dry : bool) : CleanupReport * @Store memw :=
  cleanup CacheDemo.cfg CacheDemo.clk CacheDemo.clk KOlderThan 5000 true dry CacheDemo.two_closed.
Lemma cleanup_correct_witness :
  r_victims (fst (demo_run true)) = [(bs "a", 0, 10000)] /\ fst (demo_run false) = fst (demo_run true) /\
  (exists sl sr, locked CacheDemo.cfg CacheDemo.two_closed sl /\
    cleaned CacheDemo.cfg CacheDemo.clk CacheDemo.clk KOlderThan 5000 true false sl sr (fst (demo_run false))) /\
  Meta.data_of (fsv (snd (demo_run false))) (UrlKey.dataPath CacheDemo.key_a (bs "/c")) = None.
Proof.
  assert (r_locked (fst (demo_run false)) = true) as E by (vm_compute; reflexivity).
  split; [vm_compute; reflexivity|]. split; [vm_compute; reflexivity|]. split; [|vm_compute; reflexivity].
  destruct (cleanup_correct CacheDemo.cfg CacheDemo.clk CacheDemo.clk KOlderThan 5000 true false CacheDemo.two_closed
    (snd (demo_run false)) (fst (demo_run false)) CacheDemo.two_closed_ok (surjective_pairing _)) as [[H _]|(sl & sr & L & P & _)].
  - rewrite H in E. discriminate E.
  - exists sl, sr. split; [exact L|exact P].
Defined.
End Cleanup.
