(* ===== verification/WireRead.v ===== *)
(** * The wire reads of a miss (src/plugin/ReadRounding.h, UCacheFile.cc, ReadRule.cc)

    What the plugin asks the origin for when a read misses the cache - the span
    rounded to pages, the vector read coalesced and cut into legal elements - and
    how the bytes that come back reach the caller's buffers. The origin's answer
    and the relayed operations are XrdCl's: a wire read is a function argument. *)

From stdpp Require Import sorting.
From S2P Require Import Prelude IOBackend Crc32c Config MetaFile UrlKey FileEntry.

Module Wire.

(** ** Rounding and cutting *)

(** The element ceiling of a vector read. *)
Definition kMaxReadvElem : Z := 2 * 1024 * 1024 - 16.

Definition roundSpan (pageSize fileSize off len : Z) : Z * Z :=
  let start := off / pageSize *% pageSize in
  let end_ := Z.min ((off +% len +% pageSize -% 1) / pageSize *% pageSize) fileSize in
  if end_ <=? start then (off, off +% len)
  else if p32 - 1 <? end_ -% start then (off, off +% len)
  else (start, end_).

Definition readvElemEnd (start end_ pageSize : Z) : Z :=
  if end_ -% start <=? kMaxReadvElem then end_
  else
    let cut := start +% kMaxReadvElem in
    let cut := cut -% cut mod pageSize in
    let cut := if cut <=? start then start +% pageSize else cut in
    Z.min cut end_.

(** ** The data of a file read directly *)

(** [std::upper_bound] of [(off, ~0)] in the ascending runs: what is before, what is there. *)
Fixpoint upper_bound (off : Z) (prev : option (Z * Z)) (runs : list (Z * Z)) : option (Z * Z) * option (Z * Z) :=
  match runs with
  | [] => (prev, None)
  | r :: runs' => if off <? fst r then (prev, Some r) else upper_bound off (Some r) runs'
  end.
Definition readsData (runs : list (Z * Z)) (off len : Z) : bool :=
  if len =? 0 then false
  else
    let end_ := off +% len in
    let '(prev, it) := upper_bound off None runs in
    if match prev with Some r => off <? snd r | None => false end then true
    else match it with Some r => fst r <? end_ | None => false end.
(** [None]: the file has no rule, or is cached. *)
Definition ruleReadsData (direct : option (list (Z * Z))) (off len : Z) : bool :=
  match direct with Some runs => readsData runs off len | None => false end.

(** ** The miss stage of a vector read *)
Record Chunk := mkChunk { c_offset : Z; c_length : Z }.
Record WireElem := mkElem { w_off : Z; w_len : Z; w_buf : bytes }.

Definition span_le (a b : Z * Z) : Prop := fst a < fst b \/ fst a = fst b /\ snd a <= snd b.
#[global] Instance span_le_dec a b : Decision (span_le a b).
Proof. unfold span_le. apply _. Defined.

Section vread.
Context (pageSize fileSize : Z) (direct : option (list (Z * Z))).

Definition roundChunk (c : Chunk) : Z * Z := roundSpan pageSize fileSize (c_offset c) (c_length c).
Definition ival (c : Chunk) : Z * Z :=
  if ruleReadsData direct (c_offset c) (c_length c) then (c_offset c, c_offset c +% c_length c) else roundChunk c.

(** Runs in reverse: an interval that touches the last one extends it. *)
Definition add_run (runs : list (Z * Z)) (iv : Z * Z) : list (Z * Z) :=
  let '(s, e) := iv in
  match runs with
  | (s0, e0) :: runs' => if s <=? e0 then (s0, Z.max e0 e) :: runs' else (s, e) :: runs
  | [] => [(s, e)]
  end.
Definition runs_of (ivals : list (Z * Z)) : list (Z * Z) := rev (foldl add_run [] (merge_sort span_le ivals)).

(** [for (at = s; at < e;)]: offset and length of each piece; [fuel] bounds the pieces. *)
Fixpoint cut_run (fuel : nat) (at_ e : Z) : option (list (Z * Z)) :=
  if negb (at_ <? e) then Some []
  else
    match fuel with
    | O => None
    | S fuel' =>
        let cut := readvElemEnd at_ e pageSize in
        match cut_run fuel' cut e with
        | Some l => Some ((at_, cut -% at_) :: l)
        | None => None
        end
    end.
Fixpoint cut_runs (runs : list (Z * Z)) : option (list (Z * Z)) :=
  match runs with
  | [] => Some []
  | (s, e) :: runs' =>
      match cut_run (Z.to_nat (e - s)) s e, cut_runs runs' with
      | Some l, Some l' => Some (l ++ l')
      | _, _ => None
      end
  end.
(** The elements asked for. *)
Definition wire_of (misses : list Chunk) : option (list (Z * Z)) := cut_runs (runs_of (ival <$> misses)).

(** *** The scatter *)

(** The last element at or before [at_], and those after it. *)
Fixpoint find_from (at_ : Z) (best l : list WireElem) : list WireElem :=
  match l with
  | [] => best
  | w :: l' => if w_off w <=? at_ then find_from at_ l l' else best
  end.
Definition findWire (at_ : Z) (wire : list WireElem) : list WireElem := find_from at_ wire wire.

(** The bytes copied, and how many are still missing. *)
Fixpoint copy_from (ws : list WireElem) (at_ want : Z) : bytes * Z :=
  match ws with
  | [] => ([], want)
  | w :: ws' =>
      if want =? 0 then ([], want)
      else if (at_ <? w_off w) || (w_off w +% w_len w <=? at_) then ([], want)
      else
        let n := Z.min want (w_off w +% w_len w -% at_) in
        let '(b, l) := copy_from ws' (at_ +% n) (want -% n) in
        (zsub (w_buf w) (at_ -% w_off w) n ++ b, l)
  end.
Definition scatter_chunk (wire : list WireElem) (c : Chunk) : bytes * Z :=
  copy_from (findWire (c_offset c) wire) (c_offset c) (c_length c).
(** [None]: [errInternal], a chunk the elements do not cover. *)
Fixpoint scatter (wire : list WireElem) (misses : list Chunk) : option (list bytes) :=
  match misses with
  | [] => Some []
  | c :: misses' =>
      let '(b, missing) := scatter_chunk wire c in
      if negb (missing =? 0) then None
      else match scatter wire misses' with Some bs => Some (b :: bs) | None => None end
  end.

(** *** What a file read directly keeps: whole pages of an element without data *)
Fixpoint keep_pages (fuel : nat) (w : WireElem) (p : Z) (keep : list (Z * Z)) : list (Z * Z) :=
  match fuel with
  | O => keep
  | S fuel' =>
      let we := w_off w +% w_len w in
      if negb (p <? we) then keep
      else
        let pe := Z.min (p +% pageSize) fileSize in
        let keep :=
          if (we <? pe) || ruleReadsData direct p (pe -% p) then keep
          else match keep with
               | (a, b) :: keep' => if b =? p then (a, pe) :: keep' else (p, pe) :: keep
               | [] => [(p, pe)]
               end in
        keep_pages fuel' w (p +% pageSize) keep
  end.
Definition kept_of (w : WireElem) : list (Z * Z) :=
  rev (keep_pages (Z.to_nat (w_len w)) w ((w_off w +% pageSize -% 1) / pageSize *% pageSize) []).
End vread.

(** ** The guards of the plain path *)

(** A chunk list relayed as it is: an empty chunk, or one past the end of the file. *)
Definition vread_relayed (fileSize : Z) (chunks : list Chunk) : bool :=
  existsb (fun c => (c_length c =? 0) || (fileSize <? c_offset c +% c_length c)) chunks.

(** [Read] without a view: what it does with a request. *)
Inductive Route :=
| RRelay                              (* the origin answers *)
| REmpty                              (* zero bytes *)
| RHit (size : Z)                     (* from the cache *)
| RDirect (size : Z)                  (* the origin answers; nothing is kept *)
| RFetch (size wireOff wireLen : Z).  (* a rounded wire read *)
Definition read_route (e : Entry.FileEntry) (direct : option (list (Z * Z))) (offset size : Z) : Route :=
  let fs := Meta.fileSize (Entry.meta_ e) in
  if offset +% size <? offset then RRelay
  else if (fs <=? offset) || (size =? 0) then REmpty
  else
    let size := if fs <? offset +% size then w32 (fs -% offset) else size in
    if Entry.hasRange e offset size then RHit size
    else if ruleReadsData direct offset size then RDirect size
    else
      let '(ws, we) := roundSpan (Meta.pageSize (Entry.meta_ e)) fs offset size in
      RFetch size ws (we -% ws).

(** The completion of a rounded wire read that returned [got] bytes of [buf]: the bytes for the
    user, or [None] when the answer does not cover the request (it is then relayed as asked). *)
Definition miss_response (wireOff got : Z) (buf : bytes) (userOff userLen : Z) : option bytes :=
  if (wireOff <=? userOff) && (userOff +% userLen <=? wireOff +% got)
  then Some (zsub buf (userOff -% wireOff) userLen) else None.

(** ** A plain vector read

    One request from classification to completion: hits from the cache, then what
    is missing - absent at first or failed on the way - in one wire read. *)
Inductive VOutcome :=
| VOk (bufs : list bytes)
| VParked                 (* waits for a fetch in flight, then enters again with [mayPark] false *)
| VFailOpen               (* the wire failed: the whole chunk list goes to the origin as it is *)
| VInternal               (* an element did not cover its chunk *)
| VStuck.                 (* the cut loop did not end *)

Section serve.
Context {W : Type} `{!IOBackend W} `{CK : Checksum}.
Context (clockS clockUs : nat -> Z) (join : bool) (wire_read : list (Z * Z) -> option (list bytes)).

(** The cached chunks, in order; [None] where the cache has none or demoted a page. *)
Fixpoint hit_stage (l : list (Chunk * bool)) : M Entry.St (list (option bytes)) :=
  match l with
  | [] => ret []
  | (c, missing) :: l' =>
      do b <- (if (missing : bool) then ret None
               else
                 do r <- Entry.readCached clockS clockUs (c_offset c) (c_length c) (zeros (c_length c)) true;
                 ret (if fst r then Some (snd r) else None));
      do bs <- hit_stage l';
      ret (b :: bs)
  end.

(** The buffers of the misses put back in their places. *)
Fixpoint fill_in (bufs : list (option bytes)) (fetched : list bytes) : list bytes :=
  match bufs, fetched with
  | [], _ => []
  | Some b :: bufs', _ => b :: fill_in bufs' fetched
  | None :: bufs', f :: fetched' => f :: fill_in bufs' fetched'
  | None :: bufs', [] => [] :: fill_in bufs' []
  end.
Fixpoint missing_of (chunks : list Chunk) (bufs : list (option bytes)) : list Chunk :=
  match chunks, bufs with
  | c :: chunks', None :: bufs' => c :: missing_of chunks' bufs'
  | _ :: chunks', Some _ :: bufs' => missing_of chunks' bufs'
  | _, _ => []
  end.

Definition elems_of (asked : list (Z * Z)) (bufs : list bytes) : list WireElem :=
  zip_with (fun a b => mkElem (fst a) (snd a) b) asked bufs.

(** [issueMissVRead] and its completion. *)
Definition miss_stage (m : Meta.MetaData) (direct : option (list (Z * Z))) (chunks : list Chunk) (bufs : list (option bytes)) : VOutcome :=
  let misses := missing_of chunks bufs in
  match wire_of (Meta.pageSize m) (Meta.fileSize m) direct misses with
  | None => VStuck
  | Some asked =>
      match wire_read asked with
      | None => VFailOpen
      | Some answers =>
          match scatter (elems_of asked answers) misses with
          | None => VInternal
          | Some fetched => VOk (fill_in bufs fetched)
          end
      end
  end.

Definition servePlainVectorRead (direct : option (list (Z * Z))) (chunks : list Chunk) (cb : Z) (mayPark : bool) : M Entry.St VOutcome :=
  do e <- Entry.getE;
  let flags := (fun c => negb (Entry.hasRange e (c_offset c) (c_length c))) <$> chunks in
  let tagged := zip chunks flags in
  let want := (fun p => (c_offset (fst p), c_length (fst p))) <$> List.filter snd tagged in
  let direct := if bool_decide (want = []) then None else direct in
  do parked <- (if mayPark && negb (bool_decide (want = [])) && join && bool_decide (direct = None)
                then Entry.waitForInFlight want cb else ret false);
  if (parked : bool) then ret VParked
  else if bool_decide (length want = length chunks) then ret (miss_stage (Entry.meta_ e) direct chunks ((fun _ => None) <$> chunks))
  else
    do bufs <- hit_stage tagged;
    if bool_decide (missing_of chunks bufs = []) then ret (VOk (fill_in bufs []))
    else ret (miss_stage (Entry.meta_ e) direct chunks bufs).
End serve.

(** ** Page checksums of a served [PgRead] *)
Fixpoint pg_pieces (fuel : nat) (pos end_ : Z) : list (Z * Z) :=
  match fuel with
  | O => []
  | S fuel' =>
      if negb (pos <? end_) then []
      else let pageEnd := Z.min ((pos / 4096 +% 1) *% 4096) end_ in (pos, pageEnd -% pos) :: pg_pieces fuel' pageEnd end_
  end.
Definition pg_checksums (crc32c : bytes -> Z) (off size : Z) (buf : bytes) : list Z :=
  (fun p => crc32c (zsub buf (fst p -% off) (snd p))) <$> pg_pieces (Z.to_nat size) off (off +% size).
End Wire.
