(* ===== verification/WireSpan.v ===== *)
(** * Spans, runs and elements, and the way back (src/plugin/ReadRounding.h, UCacheFile.cc)

    Module WireSpan, the arithmetic of a wire read: what rounding gives, that coalescing covers
    every interval with disjoint runs, and that cutting tiles a run with legal
    elements and always ends. Module Scatter: the elements of a coalesced vector read cover every
    missing chunk, so the scatter fills each buffer with exactly the origin's bytes of its range; and
    what the guards of the read path let through. *)

From stdpp Require Import sorting.
From S2P Require Import Prelude Crc32c IOBackend Config MetaFile UrlKey FileEntry WireRead.
Local Open Scope u64_scope.

Module WireSpan.
Import Wire.

(** ** Rounding *)
Section round.
Context (ps : Z) (Hps : 0 < ps <= 1048576).

Lemma floor_page a : 0 <= a -> 0 <= a / ps * ps <= a /\ a < a / ps * ps + ps.
Proof using Hps.
  intros Ha. pose proof (Z.div_mod a ps ltac:(lia)). pose proof (Z.mod_pos_bound a ps ltac:(lia)).
  assert (0 <= a / ps) by (apply Z.div_pos; lia). nia.
Qed.

(** A request inside the file: the span holds it, inside the file, with less than a page more on each
    side, and its ends are page boundaries or the end of the file - unless it does not fit 32 bits,
    when it is the request itself. *)
Lemma roundSpan_inside fs off len s e : 0 <= fs < p63 -> 0 <= off -> 0 < len -> off + len <= fs -> roundSpan ps fs off len = (s, e) ->
  0 <= s <= off /\ off + len <= e <= fs /\
  ((off - s < ps /\ e - (off + len) < ps /\ s mod ps = 0 /\ (e mod ps = 0 \/ e = fs) /\ e - s < p32) \/ (s = off /\ e = off + len /\ p32 <= len + 2 * ps)).
Proof using Hps.
  intros Hfs Ho Hl Hin H. unfold roundSpan in H. destruct (floor_page off Ho) as [F1 F2].
  destruct (floor_page (off + len + ps - 1) ltac:(lia)) as [G1 G2].
  rewrite !(w64_small (off / ps * ps)) in H by lia. rewrite (w64_small (off + len)) in H by lia.
  rewrite (w64_small (off + len + ps)) in H by lia. rewrite (w64_small (off + len + ps - 1)) in H by lia.
  rewrite (w64_small ((off + len + ps - 1) / ps * ps)) in H by lia.
  set (up := (off + len + ps - 1) / ps * ps) in *. set (dn := off / ps * ps) in *.
  assert (up mod ps = 0) by (apply Z.mod_mul; lia). assert (dn mod ps = 0) by (apply Z.mod_mul; lia).
  destruct (Z.min up fs <=? dn) eqn:E1; b2p; [lia|]. rewrite w64_small in H by lia.
  destruct (p32 - 1 <? Z.min up fs - dn) eqn:E2; b2p; injection H as <- <-.
  - split; [lia|]. split; [lia|right]. lia.
  - split; [lia|]. split; [lia|left]. repeat split; try lia; try done.
    destruct (Z.min_spec up fs) as [[_ ->]|[_ ->]]; [by left|by right].
Qed.

(** ** Cutting *)
Lemma readvElemEnd_spec at_ e : 0 <= at_ < e -> e < p64 ->
  let cut := readvElemEnd at_ e ps in at_ < cut <= e /\ cut - at_ <= kMaxReadvElem /\ (cut = e \/ cut mod ps = 0).
Proof using Hps.
  intros Ha He. unfold readvElemEnd. assert (kMaxReadvElem = 2097136) as K by done. rewrite w64_small by lia.
  destruct (e - at_ <=? kMaxReadvElem) eqn:E; b2p; [cbn zeta; lia|].
  rewrite (w64_small (at_ + kMaxReadvElem)) by lia.
  pose proof (Z.mod_pos_bound (at_ + kMaxReadvElem) ps ltac:(lia)) as B.
  pose proof (Z.mod_le (at_ + kMaxReadvElem) ps ltac:(lia) ltac:(lia)).
  rewrite (w64_small (at_ + kMaxReadvElem - _)) by lia. cbn zeta.
  replace (at_ + kMaxReadvElem - (at_ + kMaxReadvElem) mod ps <=? at_) with false by (symmetry; apply Z.leb_gt; lia).
  rewrite Z.min_l by lia. split; [lia|]. split; [lia|right].
  rewrite Zminus_mod, Z.mod_mod, Z.sub_diag by lia. apply Z.mod_0_l. lia.
Qed.

(** [l] tiles [at_, e) with legal elements. *)
Fixpoint tiles (at_ : Z) (l : list (Z * Z)) (e : Z) : Prop :=
  match l with
  | [] => at_ = e
  | (o, n) :: l' => o = at_ /\ 0 < n <= kMaxReadvElem /\ (at_ + n = e \/ (at_ + n) mod ps = 0) /\ tiles (at_ + n) l' e
  end.
Lemma tiles_le l : forall at_ e, tiles at_ l e -> at_ <= e.
Proof using. induction l as [|[o n] l IH]; intros at_ e; cbn; [lia|]. intros (_ & ? & _ & ?%IH). lia. Qed.

(** The loop ends and tiles the run. *)
Lemma cut_run_spec fuel at_ e : 0 <= at_ <= e -> e < p64 -> e - at_ <= Z.of_nat fuel ->
  exists l, cut_run ps fuel at_ e = Some l /\ tiles at_ l e.
Proof using Hps.
  revert at_. induction fuel as [|fuel IH]; intros at_ Ha He Hf; cbn [cut_run].
  { rewrite (proj2 (Z.ltb_ge at_ e)) by lia. exists []. cbn. split; [done|lia]. }
  destruct (at_ <? e) eqn:E; b2p; cbn [negb]; [|exists []; cbn; split; [done|lia]].
  destruct (readvElemEnd_spec at_ e ltac:(lia) He) as (B & C & D). set (cut := readvElemEnd at_ e ps) in *.
  destruct (IH cut ltac:(lia) He ltac:(lia)) as (l & -> & Ht). exists ((at_, cut -% at_) :: l). split; [done|].
  rewrite w64_small by lia. cbn. replace (at_ + (cut - at_)) with cut by lia. split; [done|]. split; [lia|]. split; [|done].
  destruct D as [->|?]; [by left|by right].
Qed.
End round.

(** ** Coalescing *)

(** Disjoint runs with gaps, last first, from 0 up to [top]. *)
Fixpoint gapped (top : Z) (l : list (Z * Z)) : Prop :=
  match l with
  | [] => True
  | (s, e) :: l' => 0 <= s < e /\ e <= top /\ match l' with (_, e') :: _ => e' < s | [] => True end /\ gapped top l'
  end.
Definition inside (iv r : Z * Z) : Prop := fst r <= fst iv /\ snd iv <= snd r.
Definition covered (l : list (Z * Z)) (iv : Z * Z) : Prop := exists r, r ∈ l /\ inside iv r.

Lemma add_run_spec top acc s e : gapped top acc -> 0 <= s < e -> e <= top ->
  match acc with (s0, _) :: _ => s0 <= s | [] => True end ->
  gapped top (add_run acc (s, e)) /\ covered (add_run acc (s, e)) (s, e) /\
  (forall iv, covered acc iv -> covered (add_run acc (s, e)) iv) /\
  match add_run acc (s, e) with (s0, _) :: _ => s0 <= s | [] => True end.
Proof.
  intros Hg Hs He Hord. unfold add_run. destruct acc as [|[s0 e0] acc].
  - split; [by cbn|]. split; [exists (s, e); split; [by left|split; cbn; lia]|]. split; [|lia].
    intros iv (r & Hr & _). by apply elem_of_nil in Hr.
  - destruct Hg as (H0 & Ht & Hgap & Hg). destruct (s <=? e0) eqn:E; b2p.
    + split; [cbn; repeat split; (lia||done)|]. split; [exists (s0, Z.max e0 e); split; [by left|split; cbn; lia]|]. split; [|lia].
      intros iv (r & [->|Hr]%elem_of_cons & Hin).
      * exists (s0, Z.max e0 e). split; [by left|]. destruct Hin. split; cbn in *; lia.
      * exists r. split; [by right|done].
    + split; [cbn; repeat split; (lia||done)|]. split; [exists (s, e); split; [by left|split; cbn; lia]|]. split; [|lia].
      intros iv (r & Hr & Hin). exists r. split; [by right|done].
Qed.

Lemma foldl_add_run_spec top l : StronglySorted span_le l -> Forall (fun iv => 0 <= fst iv < snd iv /\ snd iv <= top) l ->
  forall acc, gapped top acc -> match acc with (s0, _) :: _ => Forall (fun iv => s0 <= fst iv) l | [] => True end ->
  gapped top (foldl add_run acc l) /\ (forall iv, covered acc iv -> covered (foldl add_run acc l) iv) /\
  forall iv, iv ∈ l -> covered (foldl add_run acc l) iv.
Proof.
  induction 1 as [|[s e] l Hs IH Hle]; intros Hb acc Hg Ho; cbn [foldl].
  { split; [done|]. split; [done|]. intros iv Hiv. by apply elem_of_nil in Hiv. }
  inversion Hb as [|? ? [B1 B2] Hb']; subst. cbn [fst snd] in *.
  destruct (add_run_spec top acc s e Hg B1 B2) as (G & C & K & O).
  { destruct acc as [|[s0 e0] acc]; [done|]. by inversion Ho. }
  destruct (IH Hb' (add_run acc (s, e)) G) as (G' & K' & C').
  { destruct (add_run acc (s, e)) as [|[s1 e1] acc']; [done|]. eapply Forall_impl; [exact Hle|]. intros [a b]. unfold span_le. cbn. lia. }
  split; [done|]. split; [intros iv ?; by apply K', K|]. intros iv [->|Hiv]%elem_of_cons; [by apply K'|by apply C'].
Qed.

(** Disjoint runs with gaps, first first. *)
Fixpoint ascending (lo top : Z) (l : list (Z * Z)) : Prop :=
  match l with [] => True | (s, e) :: l' => lo <= s < e /\ e <= top /\ ascending (e + 1) top l' end.
Lemma ascending_app lo top l1 s e : ascending lo top l1 -> Forall (fun r => snd r < s) l1 -> lo <= s < e -> e <= top ->
  ascending lo top (l1 ++ [(s, e)]).
Proof.
  revert lo. induction l1 as [|[a b] l1 IH]; intros lo; cbn; [by auto|]. intros (H1 & H2 & H3) Hf Hs He.
  inversion Hf; subst. cbn in *. split; [done|]. split; [done|]. apply IH; try done. lia.
Qed.
Lemma gapped_below top l : gapped top l -> forall s e l', l = (s, e) :: l' -> Forall (fun r => snd r < s) l'.
Proof.
  induction l as [|[a b] l IH]; intros Hg s e l' H; [done|]. injection H as -> -> ->.
  destruct Hg as (H1 & _ & H3 & H4). destruct l' as [|[a' b'] l'']; [by constructor|]. constructor; [done|].
  eapply Forall_impl; [exact (IH H4 _ _ _ eq_refl)|]. cbn. intros r. destruct H4 as (? & _). lia.
Qed.
Lemma gapped_ascending top l : gapped top l -> ascending 0 top (rev l).
Proof.
  induction l as [|[s e] l IH]; intros Hg; [done|]. cbn [rev]. destruct Hg as (H1 & H2 & H3 & H4) eqn:E.
  apply ascending_app; [by apply IH| |lia|done]. apply Forall_rev. by apply (gapped_below top ((s, e) :: l) Hg s e).
Qed.

#[global] Instance span_le_total : Total span_le.
Proof. intros a b. unfold span_le. lia. Qed.
#[global] Instance span_le_trans : Transitive span_le.
Proof. intros a b c. unfold span_le. lia. Qed.

(** The runs of a list of intervals: ascending with gaps, and each interval inside one of them. *)
Lemma runs_of_spec top ivals : Forall (fun iv => 0 <= fst iv < snd iv /\ snd iv <= top) ivals ->
  ascending 0 top (runs_of ivals) /\ forall iv, iv ∈ ivals -> covered (runs_of ivals) iv.
Proof.
  intros Hb. unfold runs_of. pose proof (merge_sort_Permutation span_le ivals) as P.
  assert (StronglySorted span_le (merge_sort span_le ivals)) as Hs by (apply StronglySorted_merge_sort; apply _).
  assert (Forall (fun iv => 0 <= fst iv < snd iv /\ snd iv <= top) (merge_sort span_le ivals)) as Hb' by by rewrite P.
  destruct (foldl_add_run_spec top _ Hs Hb' [] I I) as (G & _ & C).
  split; [by apply gapped_ascending|]. intros iv Hiv. destruct (C iv) as (r & Hr & Hin); [by rewrite P|].
  exists r. split; [|done]. apply list_elem_of_In. apply -> in_rev. by apply list_elem_of_In.
Qed.
End WireSpan.

Module Scatter.
Import Wire WireSpan.

Section tiled.
Context (ps : Z) (Hps : 0 < ps <= 1048576).

(** The elements of the runs, one after the other. *)
Fixpoint tiled (runs : list (Z * Z)) (l : list (Z * Z)) : Prop :=
  match runs with
  | [] => l = []
  | (s, e) :: runs' => exists t l', l = t ++ l' /\ tiles ps s t e /\ tiled runs' l'
  end.

Lemma cut_runs_spec lo top runs : 0 <= lo -> top < p64 -> ascending lo top runs -> exists l, cut_runs ps runs = Some l /\ tiled runs l.
Proof using Hps.
  revert lo. induction runs as [|[s e] runs IH]; intros lo Hlo Ht Ha; cbn [cut_runs]; [by exists []|].
  destruct Ha as (H1 & H2 & H3). destruct (cut_run_spec ps Hps (Z.to_nat (e - s)) s e) as (t & -> & Htile); [lia..|].
  destruct (IH (e + 1)) as (l & -> & Hl); [lia|done|done|]. exists (t ++ l). split; [done|]. by exists t, l.
Qed.

Lemma tiles_bounds l : forall at_ e, tiles ps at_ l e -> Forall (fun p => at_ <= fst p /\ 0 < snd p <= kMaxReadvElem /\ fst p + snd p <= e) l.
Proof using.
  induction l as [|[o n] l IH]; intros at_ e Ht; [done|]. destruct Ht as (-> & Hn & _ & Ht). pose proof (tiles_le _ _ _ _ Ht).
  constructor; [cbn; lia|]. eapply Forall_impl; [by apply IH|]. cbn. lia.
Qed.
Lemma tiled_bounds lo top runs l : ascending lo top runs -> tiled runs l ->
  Forall (fun p => lo <= fst p /\ 0 < snd p <= kMaxReadvElem /\ fst p + snd p <= top) l.
Proof using.
  revert lo l. induction runs as [|[s e] runs IH]; intros lo l; cbn; [by intros _ ->|].
  intros (H1 & H2 & H3) (t & l' & -> & Ht & Hl). apply Forall_app_2.
  - eapply Forall_impl; [by apply tiles_bounds|]. cbn. lia.
  - eapply Forall_impl; [by apply (IH (e + 1))|]. cbn. lia.
Qed.

Lemma tiled_split lo top runs l s e : ascending lo top runs -> tiled runs l -> (s, e) ∈ runs ->
  exists a t b, l = a ++ t ++ b /\ tiles ps s t e /\ lo <= s < e /\ e <= top /\
    Forall (fun p => fst p <= s) a /\ Forall (fun p => e < fst p) b.
Proof using.
  revert lo l. induction runs as [|[s0 e0] runs IH]; intros lo l; cbn; [by intros _ _ ?%elem_of_nil|].
  intros (H1 & H2 & H3) (t & l' & -> & Ht & Hl) [[= -> ->]|Hin]%elem_of_cons.
  - exists [], t, l'. repeat split; try done; try lia. eapply Forall_impl; [by eapply tiled_bounds|]. cbn. lia.
  - destruct (IH (e0 + 1) l' H3 Hl Hin) as (a & t' & b & -> & Ht' & Hs & He & Ha & Hb).
    exists (t ++ a), t', b. rewrite app_assoc. repeat split; try done; try lia. apply Forall_app_2; [|done].
    eapply Forall_impl; [by apply tiles_bounds|]. cbn. lia.
Qed.

(** The element that holds a position. *)
Lemma tiles_at l : forall s e at_, tiles ps s l e -> s <= at_ < e -> exists l1 o n l2, l = l1 ++ (o, n) :: l2 /\
  s <= o <= at_ /\ at_ < o + n /\ tiles ps o ((o, n) :: l2) e /\ Forall (fun p => fst p <= at_) l1 /\ Forall (fun p => at_ < fst p) l2.
Proof using.
  induction l as [|[o n] l IH]; intros s e at_ Ht Ha; [cbn in Ht; lia|]. pose proof Ht as (-> & Hn & Hm & Ht').
  destruct (Z.lt_ge_cases at_ (s + n)) as [Hlt|Hge].
  - exists [], s, n, l. repeat split; try done; try lia. eapply Forall_impl; [by apply tiles_bounds|]. cbn. lia.
  - destruct (IH (s + n) e at_ Ht' ltac:(lia)) as (l1 & o' & n' & l2 & -> & Ho & Ho' & Ht2 & H1 & H2).
    exists ((s, n) :: l1), o', n', l2. repeat split; try done; try lia; try apply Ht2. constructor; [cbn; lia|done].
Qed.
End tiled.

(** ** The scatter *)
Section scatter.
Context (ps : Z) (Hps : 0 < ps <= 1048576) (content : bytes) (Hlen : zlen content < p63).

(** The origin's answer to a vector read. *)
Definition answer (asked : list (Z * Z)) : list bytes := (fun p => zsub content (fst p) (snd p)) <$> asked.
Definition filled (asked : list (Z * Z)) : list WireElem := elems_of asked (answer asked).

Lemma filled_cons o n l : filled ((o, n) :: l) = mkElem o n (zsub content o n) :: filled l.
Proof using. done. Qed.
Lemma filled_app l1 l2 : filled (l1 ++ l2) = filled l1 ++ filled l2.
Proof using. induction l1 as [|[o n] l1 IH]; [done|]. rewrite <- app_comm_cons, !filled_cons, IH. done. Qed.

Lemma find_from_filled at_ best l1 o n l2 : Forall (fun p => fst p <= at_) l1 -> o <= at_ -> Forall (fun p => at_ < fst p) l2 ->
  find_from at_ best (filled (l1 ++ (o, n) :: l2)) = filled ((o, n) :: l2).
Proof using.
  intros H1 Ho H2. revert best. induction H1 as [|[a b] l1 Ha H1 IH]; intros best.
  - cbn [app]. rewrite filled_cons. cbn [find_from w_off]. rewrite (proj2 (Z.leb_le _ _)) by lia.
    destruct H2 as [|[c d] l2 Hc H2]; [done|]. cbn in Hc. rewrite filled_cons. cbn [find_from w_off].
    by rewrite (proj2 (Z.leb_gt _ _)) by lia.
  - cbn in Ha. rewrite <- app_comm_cons, filled_cons. cbn [find_from w_off]. rewrite (proj2 (Z.leb_le _ _)) by lia. apply IH.
Qed.

Lemma copy_from_0 ws at_ : copy_from ws at_ 0 = ([], 0).
Proof using. by destruct ws. Qed.
Lemma zsub_empty at_ : zsub content at_ 0 = [].
Proof using. unfold zsub. done. Qed.

Lemma copy_tiles rest l : forall s e at_ want, tiles ps s l e -> 0 <= s -> e <= zlen content -> s <= at_ -> 0 <= want -> at_ + want <= e ->
  match l with (o, n) :: _ => at_ < o + n | [] => True end ->
  copy_from (filled l ++ rest) at_ want = (zsub content at_ want, 0).
Proof using Hlen.
  induction l as [|[o n] l IH]; intros s e at_ want Ht Hs He Ha Hw Hin Hat.
  { cbn in Ht. assert (want = 0) as -> by lia. by rewrite copy_from_0. }
  destruct (Z.eq_dec want 0) as [->|Hw0]; [by rewrite copy_from_0|].
  destruct Ht as (-> & Hn & _ & Ht). pose proof (tiles_le _ _ _ _ Ht) as Hle.
  rewrite filled_cons, <- app_comm_cons. cbn [copy_from w_off w_len w_buf].
  rewrite (proj2 (Z.eqb_neq _ _) Hw0), (proj2 (Z.ltb_ge at_ s) Ha), (w64_small (s + n)) by lia.
  rewrite (proj2 (Z.leb_gt _ _)) by lia. cbn [orb]. rewrite (w64_small (s + n - at_)), (w64_small (at_ - s)) by lia.
  set (k := Z.min want (s + n - at_)). rewrite (w64_small (at_ + k)), (w64_small (want - k)) by lia.
  assert (copy_from (filled l ++ rest) (at_ + k) (want - k) = (zsub content (at_ + k) (want - k), 0)) as ->.
  { destruct (Z.eq_dec (want - k) 0) as [->|Hne]; [by rewrite copy_from_0|].
    assert (at_ + k = s + n) as E by lia. rewrite E. apply (IH (s + n) e); try lia; [done|].
    destruct l as [|[o' n'] l]; [done|]. destruct Ht as (-> & ? & _). lia. }
  f_equal. rewrite zsub_zsub by lia. replace (s + (at_ - s)) with at_ by lia. rewrite zsub_join by lia. f_equal. lia.
Qed.

(** A chunk one of the runs holds is filled with the origin's bytes. *)
Lemma scatter_chunk_spec runs l c : ascending 0 (zlen content) runs -> tiled ps runs l ->
  0 < c_length c -> 0 <= c_offset c -> covered runs (c_offset c, c_offset c + c_length c) ->
  scatter_chunk (filled l) c = (zsub content (c_offset c) (c_length c), 0).
Proof using Hlen.
  intros Ha Ht Hc Ho ([s e] & Hr & [Hs He]). cbn in Hs, He.
  destruct (tiled_split ps 0 (zlen content) runs l s e Ha Ht Hr) as (a & t & b & -> & Htile & Hse & Htop & Hpa & Hpb).
  destruct (tiles_at ps t s e (c_offset c) Htile ltac:(lia)) as (t1 & o & n & t2 & -> & Hso & Hon & Ht2 & H1 & H2).
  unfold scatter_chunk, findWire.
  replace (a ++ (t1 ++ (o, n) :: t2) ++ b) with ((a ++ t1) ++ (o, n) :: (t2 ++ b)) by (by rewrite <- !app_assoc).
  rewrite find_from_filled; [|apply Forall_app_2; [eapply Forall_impl; [exact Hpa|cbn; lia]|done]|lia|
    apply Forall_app_2; [done|eapply Forall_impl; [exact Hpb|cbn; lia]]].
  rewrite app_comm_cons, filled_app. apply (copy_tiles _ _ o e); try lia; done.
Qed.

Lemma scatter_spec runs l cs : ascending 0 (zlen content) runs -> tiled ps runs l ->
  Forall (fun c => 0 < c_length c /\ 0 <= c_offset c /\ covered runs (c_offset c, c_offset c + c_length c)) cs ->
  scatter (filled l) cs = Some ((fun c => zsub content (c_offset c) (c_length c)) <$> cs).
Proof using Hlen.
  intros Ha Ht. induction 1 as [|c cs (H1 & H2 & H3) _ IH]; [done|]. cbn [scatter].
  rewrite (scatter_chunk_spec runs l c Ha Ht H1 H2 H3). cbn [negb Z.eqb]. by rewrite IH.
Qed.
End scatter.
End Scatter.
