(* ===== verification/WireServe.v ===== *)
(** * Reads through the plugin (src/plugin/UCacheFile.cc)

    A vector read and a single read from their guards to their completion: which
    bytes reach the caller, and what is asked of the origin. *)

From stdpp Require Import sorting.
From S2P Require Import Prelude IOBackend Crc32c Config MetaFile UrlKey FileEntry FileEntryInv FileEntryRead FileEntryFrame WireRead WireSpan.

Module Serve.
Import Wire WireSpan Scatter.

(** A chunk with bytes, inside a file of [fs]. *)
Definition in_file (fs : Z) (c : Chunk) : Prop := 0 < c_length c /\ 0 <= c_offset c /\ c_offset c + c_length c <= fs.

(** ** The ends of runs and elements *)
Lemma add_run_ends (P Q : Z -> Prop) acc s e : Forall (fun r => P (fst r) /\ Q (snd r)) acc -> P s -> Q e ->
  Forall (fun r => P (fst r) /\ Q (snd r)) (add_run acc (s, e)).
Proof.
  intros Ha Hs He. unfold add_run. destruct acc as [|[s0 e0] acc]; [by constructor|]. inversion Ha as [|? ? [H1 H2] H3]; subst.
  destruct (s <=? e0); [|by constructor]. constructor; [|done]. split; [done|]. cbn in *. destruct (Z.max_spec e0 e) as [[_ ->]|[_ ->]]; done.
Qed.
Lemma runs_of_ends (P Q : Z -> Prop) ivals : Forall (fun r => P (fst r) /\ Q (snd r)) ivals ->
  Forall (fun r => P (fst r) /\ Q (snd r)) (runs_of ivals).
Proof.
  intros H. unfold runs_of. apply Forall_rev. pose proof (merge_sort_Permutation span_le ivals) as E.
  assert (Forall (fun r => P (fst r) /\ Q (snd r)) (merge_sort span_le ivals)) as Hs by by rewrite E.
  assert (forall l acc, Forall (fun r => P (fst r) /\ Q (snd r)) l -> Forall (fun r => P (fst r) /\ Q (snd r)) acc ->
    Forall (fun r => P (fst r) /\ Q (snd r)) (foldl add_run acc l)) as G; [|by apply G].
  intros l. induction l as [|[s e] l IH]; intros acc Hl Ha; [done|]. inversion Hl as [|? ? [H1 H2] H3]; subst. cbn [foldl].
  apply IH; [done|]. by apply add_run_ends.
Qed.

(** An element whose ends are page boundaries, or the end of the file. *)
Definition whole_pages (ps fs : Z) (p : Z * Z) : Prop := fst p mod ps = 0 /\ ((fst p + snd p) mod ps = 0 \/ fst p + snd p = fs).
Lemma tiles_pages ps fs l : forall s e, tiles ps s l e -> s mod ps = 0 -> e mod ps = 0 \/ e = fs -> Forall (whole_pages ps fs) l.
Proof.
  induction l as [|[o n] l IH]; intros s e Ht Hs He; [done|]. destruct Ht as (-> & Hn & Hm & Ht).
  constructor; [split; [done|]; cbn; destruct Hm as [->|?]; [done|by left]|].
  destruct Hm as [Hm|Hm]; [|by eapply IH]. destruct l as [|[o' n'] l]; [done|].
  destruct Ht as (-> & ? & _ & Ht). pose proof (tiles_le _ _ _ _ Ht). lia.
Qed.
Lemma tiled_pages ps fs runs : forall l, tiled ps runs l ->
  Forall (fun r => fst r mod ps = 0 /\ (snd r mod ps = 0 \/ snd r = fs)) runs -> Forall (whole_pages ps fs) l.
Proof.
  induction runs as [|[s e] runs IH]; intros l; cbn; [by intros ->|]. intros (t & l' & -> & Ht & Hl) H.
  inversion H as [|? ? [H1 H2] H3]; subst. apply Forall_app_2; [by eapply tiles_pages|by apply IH].
Qed.

(** Ascending elements that do not overlap. *)
Fixpoint disjoint_from (lo : Z) (l : list (Z * Z)) : Prop :=
  match l with [] => True | (o, n) :: l' => lo <= o /\ disjoint_from (o + n) l' end.
Lemma disjoint_weaken lo lo' l : lo' <= lo -> disjoint_from lo l -> disjoint_from lo' l.
Proof. destruct l as [|[o n] l]; cbn; [done|]. intros ? [? ?]. split; [lia|done]. Qed.
Lemma tiles_disjoint ps l : forall s e rest, tiles ps s l e -> disjoint_from e rest -> disjoint_from s (l ++ rest).
Proof.
  induction l as [|[o n] l IH]; intros s e rest Ht Hr; cbn in *; [by subst|]. destruct Ht as (-> & Hn & _ & Ht). split; [lia|by eapply IH].
Qed.
Lemma tiled_disjoint ps runs : forall lo top l, ascending lo top runs -> tiled ps runs l -> disjoint_from lo l.
Proof.
  induction runs as [|[s e] runs IH]; intros lo top l; cbn; [by intros _ ->|]. intros (H1 & _ & H3) (t & l' & -> & Ht & Hl).
  eapply disjoint_weaken; [|eapply tiles_disjoint; [exact Ht|]]; [lia|]. eapply disjoint_weaken; [|by eapply IH]. lia.
Qed.

Section vread.
Context (ps fs : Z) (Hps : 0 < ps <= 1048576) (Hfs : 0 <= fs < p63) (direct : option (list (Z * Z))).

Lemma ival_spec c : in_file fs c -> let iv := ival ps fs direct c in
  0 <= fst iv < snd iv /\ snd iv <= fs /\ inside (c_offset c, c_offset c + c_length c) iv /\
  (direct = None -> c_length c + 2 * ps < p32 -> fst iv mod ps = 0 /\ (snd iv mod ps = 0 \/ snd iv = fs)).
Proof using Hps Hfs.
  intros (Hl & Ho & Hin) iv. unfold iv, ival. destruct (ruleReadsData direct _ _) eqn:Er.
  - cbn. rewrite w64_small by lia. split; [lia|]. split; [lia|]. split; [split; cbn; lia|]. intros ->. done.
  - unfold roundChunk. destruct (roundSpan ps fs (c_offset c) (c_length c)) as [s e] eqn:E. cbn [fst snd].
    destruct (roundSpan_inside ps Hps fs _ _ s e Hfs Ho Hl Hin E) as (H1 & H2 & H3). split; [lia|]. split; [lia|].
    split; [split; cbn; lia|]. intros _ Hsmall. destruct H3 as [(_ & _ & ? & ? & _)|(_ & _ & ?)]; [done|lia].
Qed.

(** The elements asked for: legal, ascending, disjoint, inside the file, whole pages when the file is
    cached; and the runs they tile hold every chunk. *)
Lemma wire_of_spec misses : Forall (in_file fs) misses ->
  exists asked, wire_of ps fs direct misses = Some asked /\
    Forall (fun p => 0 <= fst p /\ 0 < snd p <= kMaxReadvElem /\ fst p + snd p <= fs) asked /\ disjoint_from 0 asked /\
    (direct = None -> Forall (fun c => c_length c + 2 * ps < p32) misses -> Forall (whole_pages ps fs) asked) /\
    forall content, zlen content = fs ->
      scatter (filled content asked) misses = Some ((fun c => zsub content (c_offset c) (c_length c)) <$> misses).
Proof using Hps Hfs.
  intros Hm. set (ivals := ival ps fs direct <$> misses).
  assert (Forall (fun iv => 0 <= fst iv < snd iv /\ snd iv <= fs) ivals) as Hi.
  { apply Forall_fmap. eapply Forall_impl; [exact Hm|]. intros c Hc. cbn. destruct (ival_spec c Hc) as (? & ? & _). done. }
  destruct (runs_of_spec fs ivals Hi) as [Ha Hcov].
  destruct (cut_runs_spec ps Hps 0 fs (runs_of ivals) ltac:(lia) ltac:(lia) Ha) as (l & Hl & Htile).
  exists l. split; [exact Hl|]. split; [by eapply tiled_bounds|]. split; [by eapply tiled_disjoint|]. split.
  - intros Hd Hs. eapply tiled_pages; [exact Htile|]. apply (runs_of_ends (fun s => s mod ps = 0) (fun e => e mod ps = 0 \/ e = fs)). apply Forall_fmap.
    rewrite Forall_forall in Hm, Hs |- *. intros c Hc. cbn. by apply ival_spec; [apply Hm| |apply Hs].
  - intros content Hc. rewrite <- Hc in Ha. apply (scatter_spec ps content ltac:(lia) (runs_of ivals) l misses Ha Htile).
    rewrite Forall_forall in Hm |- *. intros c Hin. pose proof (Hm c Hin) as Hf. destruct Hf as (Hf1 & Hf2 & Hf3) eqn:Ef.
    split; [done|]. split; [done|]. destruct (Hcov (ival ps fs direct c)) as (r & Hr & [R1 R2]).
    { apply list_elem_of_fmap. by exists c. }
    exists r. split; [done|]. destruct (ival_spec c (Hm c Hin)) as (_ & _ & [I1 I2] & _). split; cbn in *; lia.
Qed.
End vread.

(** C8: the wire read of a vector miss: for any chunks inside the file, in any order and overlapping or
    not, with or without a direct-read rule, the cut loop ends and every element fits a frame, lies
    inside the file and overlaps no other; the elements of a cached file are whole pages; and when
    the origin answers them, the scatter fills every chunk with exactly the file's bytes of its range -
    the uncovered-chunk error cannot happen. *)
Theorem vread_miss_exact ps direct misses content :
  0 < ps <= 1048576 -> zlen content < p63 -> Forall (in_file (zlen content)) misses ->
  exists asked, wire_of ps (zlen content) direct misses = Some asked /\
    Forall (fun p => 0 <= fst p /\ 0 < snd p <= kMaxReadvElem /\ fst p + snd p <= zlen content) asked /\ disjoint_from 0 asked /\
    (direct = None -> Forall (fun c => c_length c + 2 * ps < p32) misses -> Forall (whole_pages ps (zlen content)) asked) /\
    scatter (elems_of asked (answer content asked)) misses = Some ((fun c => zsub content (c_offset c) (c_length c)) <$> misses).
Proof.
  intros Hps Hc Hm. pose proof (zlen_nonneg content).
  destruct (wire_of_spec ps (zlen content) Hps ltac:(lia) direct misses Hm) as (asked & H1 & H2 & H3 & H4 & H5).
  exists asked. do 4 (split; [done|]). by apply H5.
Qed.

(** ** One vector read *)
Section serve.
Context {W : Type} `{!IOBackend W, !IOLaws W} `{CK : Checksum}.
Context (clockS clockUs : nat -> Z) (join : bool) (wire_read : list (Z * Z) -> option (list bytes)) (content : bytes).
(** XrdCl's contract: a vector read answers every element in full, or fails. *)
Context (Hwire : forall asked bufs, wire_read asked = Some bufs -> bufs = answer content asked).
Abbreviation St := (@Entry.St W).

Context (P : Z) (HP : Config.validPageSize P = true) (Hfs : zlen content < p63).
Abbreviation Inv := (EntryInv.Inv P (zlen content)).
Abbreviation fsview s := (view (Entry.io_ (snd (s : St)))).

(** What the handle [s] may answer for a chunk: bytes of its own entry, each from the payload staged
    for its page or from the entry's data file through a page that matches the sidecar's checksum;
    or the origin's bytes of the chunk's range. *)
Definition from_cache (s : St) (c : Chunk) (b : bytes) : Prop :=
  EntryRead.served P (zlen content) (fsview s) (fst s) (c_offset c) (c_length c) b.
Definition from_origin (c : Chunk) (b : bytes) : Prop := b = zsub content (c_offset c) (c_length c).

(** The state [s] a request started from, and one on its way. *)
Definition along (s s1 : St) : Prop := Inv (fst s1) /\ EntryFrame.src_le P (zlen content) (fst s) (fst s1) /\ fsview s1 = fsview s.

Section request.
Context (s : St).
Abbreviation cached := (fun c ob => match ob with Some b => from_cache s c b | None => True end).

Lemma hit_stage_spec l : forall (s1 : St) bufs s', along s s1 -> Forall (fun p => in_file (zlen content) (fst p)) l ->
  hit_stage clockS clockUs l s1 = (bufs, s') ->
  along s s' /\ Forall2 (fun p ob => cached (fst p) ob) l bufs.
Proof using HP Hfs IOLaws0.
  pose proof (zlen_nonneg content).
  induction l as [|[c m] l IH]; intros s1 bufs s' Ha Hin H'; cbn [hit_stage] in H'; [by injection H' as <- <-|].
  apply Forall_cons in Hin as [(Hl & Ho & He) Hin]. cbn [fst] in *.
  apply mbind_inv in H' as (ob & s2 & H1 & H'). apply mbind_inv in H' as (bs & s3 & H2 & [= <- <-]).
  assert (along s s2 /\ cached c ob) as [Ha2 Hc]; [|destruct (IH _ _ _ Ha2 Hin H2); split; [done|by constructor]].
  destruct m; [by injection H1 as <- <-|]. apply mbind_inv in H1 as ([r b] & s4 & H3 & [= <- <-]).
  destruct Ha as (I & L & V). assert (zlen (zeros (c_length c)) = c_length c) as Hz by (apply zlen_zeros; lia).
  destruct (EntryFrame.readCached_kept clockS clockUs P (zlen content) HP ltac:(lia) (fst s) (c_offset c) (c_length c) _ true s1 _ _ I L
    ltac:(lia) ltac:(lia) Hz H3) as (I' & V' & L'). split; [split_and!; [done|done|congruence]|].
  destruct r; [|done]. cbn. unfold from_cache. rewrite <- V.
  eapply EntryFrame.served_src_le; [done|lia|exact L|lia|lia|]. eapply EntryRead.readCached_served; [done|lia|exact I|lia|lia|exact Hz|exact H3].
Qed.

Lemma fill_in_spec chunks bufs : Forall2 cached chunks bufs ->
  Forall2 (fun c b => from_cache s c b \/ from_origin c b) chunks
    (fill_in bufs ((fun c => zsub content (c_offset c) (c_length c)) <$> missing_of chunks bufs)).
Proof using.
  induction 1 as [|c ob chunks bufs H _ IH]; [done|]. destruct ob as [b|]; cbn; constructor; try done; [by left|by right].
Qed.
Lemma missing_of_sub chunks bufs : Forall (fun c => c ∈ chunks) (missing_of chunks bufs).
Proof using.
  revert bufs. induction chunks as [|c chunks IH]; intros [|[b|] bufs]; cbn; try done.
  - eapply Forall_impl; [apply IH|]. intros x. by right.
  - constructor; [by left|]. eapply Forall_impl; [apply IH|]. intros x. by right.
Qed.

Lemma miss_stage_spec m direct chunks bufs :
  0 < Meta.pageSize m <= 1048576 -> Meta.fileSize m = zlen content -> Forall (in_file (zlen content)) chunks ->
  Forall2 cached chunks bufs ->
  (miss_stage wire_read m direct chunks bufs = VFailOpen /\ exists asked, wire_read asked = None) \/
  exists out, miss_stage wire_read m direct chunks bufs = VOk out /\ Forall2 (fun c b => from_cache s c b \/ from_origin c b) chunks out.
Proof using Hwire Hfs.
  intros Hps Hf Hin H2. pose proof (zlen_nonneg content). unfold miss_stage. rewrite Hf.
  assert (Forall (in_file (zlen content)) (missing_of chunks bufs)) as Hm.
  { rewrite Forall_forall in Hin. eapply Forall_impl; [apply missing_of_sub|]. apply Hin. }
  destruct (wire_of_spec (Meta.pageSize m) (zlen content) Hps ltac:(lia) direct _ Hm)
    as (asked & -> & _ & _ & _ & Hs).
  destruct (wire_read asked) as [ans|] eqn:Ew; [|left; split; [done|by exists asked]]. apply Hwire in Ew as ->. right.
  fold (filled content asked). rewrite (Hs content eq_refl). eexists. split; [done|]. by apply fill_in_spec.
Qed.

Lemma all_missing (chunks : list Chunk) : Forall2 cached chunks ((fun _ => None) <$> chunks).
Proof using. induction chunks; by constructor. Qed.

Definition served_or_fetched (chunks : list Chunk) (bufs : list bytes) : Prop :=
  Forall2 (fun c b => from_cache s c b \/ from_origin c b) chunks bufs.
End request.

Lemma tagged_cached (R : Chunk -> option bytes -> Prop) (g : Chunk -> bool) chunks : forall bufs,
  Forall2 (fun p ob => R (fst p) ob) (zip chunks (g <$> chunks)) bufs -> Forall2 R chunks bufs.
Proof using. induction chunks as [|c l IH]; intros bufs H; cbn in H; inversion H; subst; constructor; [done|by apply IH]. Qed.
Lemma along_refl s : Inv (fst s) -> along s s.
Proof using. intros. split; [done|]. split; [apply EntryFrame.src_le_refl|done]. Qed.

Lemma wait_along s ranges cb (s' : St) b : Inv (fst s) -> Entry.waitForInFlight ranges cb s = (b, s') ->
  along s s' /\ (b = true -> Entry.flight_ (fst s) <> [] /\
    Entry.flightWaiters_ (fst s') = Entry.flightWaiters_ (fst s) ++ [cb]).
Proof using.
  intros He H. unfold Entry.waitForInFlight in H. apply mbind_inv in H as (b' & s1 & H1 & H2).
  unfold Entry.locked in H1. pose proof (EntryInv.wait_inv P (zlen content) ranges cb _ He) as I.
  destruct (Entry.waitForInFlight_locked ranges cb (fst s)) as [b1 e1] eqn:E. injection H1 as -> <-. cbn [snd] in I.
  assert (EntryFrame.src_le P (zlen content) (fst s) e1 /\ (b' = true -> Entry.flight_ (fst s) <> [] /\
    Entry.flightWaiters_ e1 = Entry.flightWaiters_ (fst s) ++ [cb])) as [L Hq].
  { unfold Entry.waitForInFlight_locked in E. destruct (Entry.flight_ (fst s)) as [|x fl] eqn:Ef.
    - injection E as <- <-. split; [apply EntryFrame.src_le_refl|done].
    - destruct (Entry.wait_ranges _ _ _) as [[]|]; injection E as <- <-; (split; [try apply EntryFrame.src_le_refl; by split|done]). }
  apply mbind_inv in H2 as (u & s2 & H2 & [= <- <-]). destruct b'; injection H2 as H2; subst s2; (split; [by split|exact Hq]).
Qed.

(** What a vector read may come to; [s] is the state it started from and [s'] the one it left. *)
Definition vread_result (direct : option (list (Z * Z))) (chunks : list Chunk) (cb : Z) (mayPark : bool) (s s' : St) (out : VOutcome) : Prop :=
  match out with
  | VOk bufs => served_or_fetched s chunks bufs
  | VParked => mayPark = true /\ join = true /\ direct = None /\ Entry.flight_ (fst s) <> [] /\
      Entry.flightWaiters_ (fst s') = Entry.flightWaiters_ (fst s) ++ [cb]
  | VFailOpen => exists asked, wire_read asked = None
  | VInternal | VStuck => False
  end.

(** C3: a plain vector read of an entry that satisfies its invariant, for chunks inside the file,
    completes, parks, or fails open. When it completes, every chunk's buffer is the chunk's range
    byte for byte: either out of this entry as it stood when the request came in - each page's part
    from the payload staged for that page, or from the entry's data file through a resident page
    whose checksum matches the sidecar's - or exactly the origin's bytes of that range. It parks only
    when the caller may wait, no read rule sends it past the cache and a fetch is in flight, and its callback is then queued to be told;
    it fails open only when the origin failed. It never reports an internal error and never hangs
    in the cut loop, whatever the cache loses to verification on the way or the file's read rule
    says; and the entry stays sound, with no source of bytes it had not before. *)
Theorem vread_served_exact direct chunks cb mayPark (s s' : St) out (Hs : Inv (fst s))
  (Hin : Forall (in_file (zlen content)) chunks)
  (H : servePlainVectorRead clockS clockUs join wire_read direct chunks cb mayPark s = (out, s')) :
  along s s' /\ vread_result direct chunks cb mayPark s s' out.
Proof using Hwire HP Hfs IOLaws0.
  pose proof (EntryInv.P_range P HP) as Hps. pose proof (EntryInv.i_meta _ _ _ Hs) as (Ep & Ef & _).
  unfold servePlainVectorRead in H. apply mbind_inv in H as (e & s1 & [= <- <-] & H). cbv zeta in H.
  apply mbind_inv in H as (parked & s2 & H2 & H).
  assert (along s s2 /\ (parked = true -> vread_result direct chunks cb mayPark s s2 VParked)) as [Ha Hp].
  { destruct (_ && _) eqn:Eg in H2; [|injection H2 as <- <-; split; [by apply along_refl|done]]. b2p.
    assert (direct = None) as Ed.
    { match goal with Hw : bool_decide _ = false, Hd : bool_decide _ = true |- _ => rewrite Hw in Hd; by apply bool_decide_eq_true in Hd end. }
    apply wait_along in H2 as [? Hq]; [|done]. split; [done|]. intros E. destruct (Hq E). by cbn. }
  destruct parked; [injection H as <- <-; split; [done|by apply Hp]|]. clear Hp.
  assert (forall d bufs o, Forall2 (fun c ob => match ob with Some b => from_cache s c b | None => True end) chunks bufs ->
    o = miss_stage wire_read (Entry.meta_ (fst s)) d chunks bufs -> forall s', vread_result direct chunks cb mayPark s s' o) as K.
  { intros d bufs o Hb -> s3. destruct (miss_stage_spec s _ d chunks bufs ltac:(rewrite Ep; lia) Ef Hin Hb) as [[-> Hw]|(o & -> & Ho)]; done. }
  destruct (bool_decide (length _ = length chunks)).
  { injection H as <- <-. split; [done|]. eapply K; [apply all_missing|done]. }
  apply mbind_inv in H as (bufs & s3 & H3 & H). apply (hit_stage_spec s) in H3 as [Ha3 H3]; [|done|].
  2: { apply Forall_forall. intros [c x] Hcx. apply elem_of_zip_l in Hcx. by eapply Forall_forall in Hin. }
  apply (tagged_cached (fun c ob => match ob with Some b => from_cache s c b | None => True end)) in H3.
  destruct (bool_decide (missing_of chunks bufs = [])) eqn:Em; [|injection H as <- <-; split; [done|by eapply K]].
  injection H as <- <-. split; [done|]. apply bool_decide_eq_true in Em. pose proof (fill_in_spec s chunks bufs H3) as F. by rewrite Em in F.
Qed.
End serve.

(** ** One read *)
Lemma miss_response_exact content ws wl off n got buf b : zlen content < p63 -> 0 <= ws <= off -> 0 <= n -> off + n <= ws + wl ->
  ws + wl <= zlen content -> 0 <= got <= wl -> zsub buf 0 got = zsub content ws got ->
  miss_response ws got buf off n = Some b -> b = zsub content off n.
Proof.
  intros Hc Hws Hn Hin Hw Hg Hb H. unfold miss_response in H. rewrite (w64_small (off + n)), (w64_small (ws + got)) in H by lia.
  destruct ((ws <=? off) && _) eqn:E; [|done]. b2p. injection H as <-. rewrite w64_small by lia.
  transitivity (zsub (zsub buf 0 got) (off - ws) n); [by rewrite zsub_zsub by lia|]. rewrite Hb, zsub_zsub by lia. f_equal. lia.
Qed.

(** a read that misses asks the origin for one span inside the file that holds the request clamped
    to the end of the file and fits the 32 bits of the wire; the whole answer always covers it and
    gives exactly the file's bytes; a shorter answer either still gives exactly them or is not used. *)
Theorem read_miss_exact (e : Entry.FileEntry) direct content off size n ws wl :
  0 < Meta.pageSize (Entry.meta_ e) <= 1048576 -> Meta.fileSize (Entry.meta_ e) = zlen content -> zlen content < p63 ->
  is_u64 off -> is_u32 size -> read_route e direct off size = RFetch n ws wl ->
  n = Z.min size (zlen content - off) /\ 0 < n /\ 0 <= ws <= off /\ off + n <= ws + wl <= zlen content /\ wl < p32 /\
  Entry.hasRange e off n = false /\ ruleReadsData direct off n = false /\
  miss_response ws wl (zsub content ws wl) off n = Some (zsub content off n) /\
  (forall got buf b, 0 <= got <= wl -> zsub buf 0 got = zsub content ws got -> miss_response ws got buf off n = Some b ->
     b = zsub content off n).
Proof.
  intros Hps Hf Hc Ho Hsz H. unfold read_route in H. cbv zeta in H. rewrite Hf in H. unfold is_u64, is_u32 in *.
  destruct (off +% size <? off) eqn:E1; [done|]. destruct ((zlen content <=? off) || (size =? 0)) eqn:E2; [done|]. b2p.
  rewrite (w64_small (off + size)) in * by lia. rewrite (w64_small (zlen content - off)) in H by lia.
  set (n0 := if zlen content <? off + size then w32 (zlen content - off) else size) in *.
  assert (n0 = Z.min size (zlen content - off)) as En.
  { unfold n0. destruct (zlen content <? off + size) eqn:E; b2p; [rewrite w32_small by lia|]; lia. }
  destruct (Entry.hasRange e off n0) eqn:E3; [done|]. destruct (ruleReadsData direct off n0) eqn:E4; [done|].
  destruct (roundSpan (Meta.pageSize (Entry.meta_ e)) (zlen content) off n0) as [s t] eqn:Er. injection H as -> <- <-.
  destruct (roundSpan_inside _ Hps (zlen content) off n s t ltac:(lia) ltac:(lia) ltac:(lia) ltac:(lia) Er) as (R1 & R2 & R3).
  rewrite (w64_small (t - s)) by lia. split; [done|]. split; [lia|]. split; [lia|]. split; [lia|]. split; [lia|].
  split; [done|]. split; [done|]. split.
  - unfold miss_response. rewrite (w64_small (off + n)), (w64_small (s + (t - s))), (w64_small (off - s)) by lia.
    rewrite (proj2 (Z.leb_le s off)), (proj2 (Z.leb_le (off + n) _)) by lia. cbn [andb]. f_equal.
    rewrite zsub_zsub by lia. f_equal. lia.
  - intros got buf b Hg Hb. apply (miss_response_exact content s (t - s)); try lia; done.
Qed.

(** ** A chunk whose end wraps *)

(** the plain vector read's guard adds offset and length modulo 2^64: the chunk of 4096 bytes that
    ends at 2^64 is let through for every file, and the wait for a fetch in flight then scans the
    page map from the chunk's page, far past the file's last one. *)
Theorem vread_guard_wraps (e : Entry.FileEntry) saw :
  let m := Entry.meta_ e in let c := mkChunk (p64 - 4096) 4096 in
  0 <= Meta.fileSize m < p63 -> 4096 <= Meta.pageSize m <= 1048576 ->
  vread_relayed (Meta.fileSize m) [c] = false /\
  exists first last, first = c_offset c / Meta.pageSize m /\ first <= last /\
    (Meta.fileSize m + Meta.pageSize m - 1) / Meta.pageSize m < first /\
    Entry.wait_ranges e [(c_offset c, c_length c)] saw = Entry.wait_scan (Z.to_nat (last + 2 - first)) e first last saw.
Proof.
  intros m c Hf Hp. unfold vread_relayed. cbn [existsb c c_offset c_length].
  replace (p64 - 4096 +% 4096) with 0 by (vm_compute; reflexivity). cbn [Z.eqb orb].
  rewrite (proj2 (Z.ltb_ge _ 0)) by lia. split; [done|].
  exists ((p64 - 4096) / Meta.pageSize m), ((p64 - 1) / Meta.pageSize m). split; [done|].
  split; [apply Z.div_le_mono; lia|]. split.
  - assert ((Meta.fileSize m + Meta.pageSize m - 1 + 1 * Meta.pageSize m) / Meta.pageSize m <= (p64 - 4096) / Meta.pageSize m) as H
      by (apply Z.div_le_mono; lia).
    rewrite Z.div_add in H by lia. lia.
  - unfold Entry.wait_ranges. cbn [Z.eqb orb]. replace (p64 - 4096 +% 4096) with 0 by (vm_compute; reflexivity).
    rewrite (proj2 (Z.ltb_ge _ 0)) by (unfold m in *; lia). cbn [orb]. replace (0 -% 1) with (p64 - 1) by (vm_compute; reflexivity).
    by destruct (Entry.wait_scan _ _ _ _ _).
Qed.

(** ** Instances: pages of 4 bytes, then the entry of [EntryInv] *)
Definition ten : bytes := [10; 11; 12; 13; 14; 15; 16; 17; 18; 19].
Lemma vread_miss_exact_witness :
  exists asked, wire_of 4 10 None [mkChunk 5 2; mkChunk 3 1; mkChunk 9 1] = Some asked /\
    scatter (elems_of asked (answer ten asked)) [mkChunk 5 2; mkChunk 3 1; mkChunk 9 1] = Some [[15; 16]; [13]; [19]].
Proof.
  destruct (vread_miss_exact 4 None [mkChunk 5 2; mkChunk 3 1; mkChunk 9 1] ten) as (asked & H1 & _ & _ & _ & H2); [lia|reflexivity| |].
  - change (zlen ten) with 10. unfold in_file. repeat (apply Forall_cons; split; [cbn; lia|]). apply Forall_nil; exact I.
  - exists asked. split; [exact H1|exact H2].
Defined.

Definition demo_content : bytes := zeros 10000.
Definition demo_wire (asked : list (Z * Z)) : option (list bytes) := Some (answer demo_content asked).
Definition demo_state : @Entry.St memw := (EntryInv.e4, EntryRead.demo_world []).
Definition demo_chunks : list Chunk := [mkChunk 4000 50; mkChunk 9000 100].
Definition demo_serve : VOutcome * @Entry.St memw :=
  servePlainVectorRead (fun _ => 0) (fun _ => 0) true demo_wire None demo_chunks 7 true demo_state.
Definition is_ok (o : VOutcome) : bool := match o with VOk _ => true | _ => false end.
Lemma demo_content_len : zlen demo_content = 10000.
Proof. unfold demo_content. apply zlen_zeros. lia. Qed.

Lemma demo_geometry : Meta.pageSize (Entry.meta_ (fst demo_state)) = 4096 /\ Meta.fileSize (Entry.meta_ (fst demo_state)) = 10000.
Proof. by vm_compute. Qed.
Lemma e4_geometry : Meta.pageSize (Entry.meta_ EntryInv.e4) = 4096 /\ Meta.fileSize (Entry.meta_ EntryInv.e4) = 10000.
Proof. by vm_compute. Qed.
Lemma demo_inside : Forall (in_file 10000) demo_chunks.
Proof. unfold in_file. repeat (apply Forall_cons; split; [cbn; lia|]). by apply Forall_nil. Qed.
Lemma demo_wire_exact asked bufs : demo_wire asked = Some bufs -> bufs = answer demo_content asked.
Proof. by intros [= <-]. Qed.
Lemma demo_serve_eq : servePlainVectorRead (fun _ => 0) (fun _ => 0) true demo_wire None demo_chunks 7 true demo_state
  = (fst demo_serve, snd demo_serve).
Proof. unfold demo_serve. apply surjective_pairing. Qed.

Lemma demo_state_inv : EntryInv.Inv 4096 (zlen demo_content) (fst demo_state).
Proof. rewrite demo_content_len. exact EntryInv.demo_inv. Qed.
Lemma demo_inside' : Forall (in_file (zlen demo_content)) demo_chunks.
Proof. rewrite demo_content_len. exact demo_inside. Qed.

Lemma vread_served_exact_witness :
  exists bufs, fst demo_serve = VOk bufs /\ served_or_fetched demo_content 4096 demo_state demo_chunks bufs.
Proof.
  assert (is_ok (fst demo_serve) = true) as E by (vm_compute; reflexivity).
  pose proof (vread_served_exact (fun _ => 0) (fun _ => 0) true demo_wire demo_content demo_wire_exact 4096 eq_refl
    ltac:(rewrite demo_content_len; lia) None demo_chunks 7 true demo_state (snd demo_serve) (fst demo_serve)
    demo_state_inv demo_inside' demo_serve_eq) as [_ H].
  destruct (fst demo_serve) as [bufs| | | |]; try discriminate E. exists bufs. split; [reflexivity|exact H].
Defined.

Lemma read_miss_exact_witness :
  read_route EntryInv.e4 None 9000 5000 = RFetch 1000 8192 1808 /\
  miss_response 8192 1808 (zsub demo_content 8192 1808) 9000 1000 = Some (zsub demo_content 9000 1000).
Proof.
  assert (read_route EntryInv.e4 None 9000 5000 = RFetch 1000 8192 1808) as E by (vm_compute; reflexivity). split; [exact E|].
  apply (read_miss_exact EntryInv.e4 None demo_content 9000 5000 1000 8192 1808); rewrite ?demo_content_len, ?(proj1 e4_geometry);
    try exact E; try exact (proj2 e4_geometry); unfold is_u64, is_u32; lia.
Defined.

Lemma vread_guard_wraps_witness : vread_relayed 10000 [mkChunk (p64 - 4096) 4096] = false.
Proof.
  destruct (vread_guard_wraps EntryInv.e4 false) as [H _]; rewrite ?(proj1 e4_geometry), ?(proj2 e4_geometry); try lia.
  rewrite (proj2 e4_geometry) in H. exact H.
Defined.
End Serve.
