(* ===== verification/Footprint.v ===== *)
(** * What a run read (src/core/ReadFootprint.h, ReadFootprint.cc)

    One bit per MiB of the original file that a request touched, and the signature
    of the set. Proved: the buckets are exactly those the accepted requests
    overlap, so count and signature depend on that set alone - not on how the
    requests were split, repeated or ordered. *)

From stdpp Require Import sorting.
From S2P Require Import Prelude Sha256.

Module Footprint.

Definition kBucket : Z := 1024 * 1024.
Definition kMaxBucket : Z := Z.shiftl 1 24.

(** [bits_]: 64-bit words. *)
Record ReadFootprint := mkFp { bits_ : list Z; poisoned_ : bool }.
Definition new_footprint : ReadFootprint := mkFp [] false.

Definition resized (l : list Z) (n : Z) : list Z := if zlen l <? n then l ++ zeros (n - zlen l) else l.
Definition set_bucket (l : list Z) (b : Z) : list Z := zset l (b / 64) (Z.lor (zget l (b / 64)) (Z.shiftl 1 (b mod 64))).

(** The buckets a request touches, first and last; [None] when it is refused. *)
Definition buckets_of (off len : Z) : option (Z * Z) :=
  if len =? 0 then None
  else
    let first := off / kBucket in
    let last := (off +% len -% 1) / kBucket in
    if (last <? first) || (kMaxBucket <? last) then None else Some (first, last).
Definition note (off len : Z) (s : ReadFootprint) : ReadFootprint :=
  match buckets_of off len with
  | None => s
  | Some (first, last) => mkFp (foldl set_bucket (resized (bits_ s) (last / 64 + 1)) (zrange first (last + 1))) (poisoned_ s)
  end.
Definition poison (s : ReadFootprint) : ReadFootprint := mkFp (bits_ s) true.
Definition empty (s : ReadFootprint) : bool := forallb (fun w => w =? 0) (bits_ s).

(** [__builtin_ctzll] and the loop over a word's set bits, lowest first. *)
Fixpoint ctz_pos (p : positive) : Z := match p with xO p' => 1 + ctz_pos p' | _ => 0 end.
Definition ctz (w : Z) : Z := match w with Zpos p => ctz_pos p | _ => 0 end.
Fixpoint word_bits (fuel : nat) (w : Z) : list Z :=
  match fuel with
  | O => []
  | S fuel' => if w =? 0 then [] else ctz w :: word_bits fuel' (Z.land w (w - 1))
  end.

Definition lastBucket (limitBytes : Z) : Z := if limitBytes =? 0 then p64 - 1 else (limitBytes - 1) / kBucket.
(** Every bucket set, ascending: what the three loops over [bits_] visit. *)
Fixpoint all_from (i : Z) (l : list Z) : list Z :=
  match l with [] => [] | w :: l' => ((fun k => i * 64 + k) <$> word_bits 64 w) ++ all_from (i + 1) l' end.
Definition visited (limitBytes : Z) (s : ReadFootprint) : list Z :=
  List.filter (fun b => b <=? lastBucket limitBytes) (all_from 0 (bits_ s)).
Definition buckets (limitBytes : Z) (s : ReadFootprint) : list Z := visited limitBytes s.
Definition countLocked (limitBytes : Z) (s : ReadFootprint) : Z := foldl (fun n _ => n + 1) 0 (visited limitBytes s).

(** FNV-1a over the eight bytes of each bucket; twelve hexadecimal digits. *)
Definition fnv_byte (h b : Z) : Z := Z.lxor h b *% 1099511628211.
Definition fnv_bucket (h b : Z) : Z := foldl (fun h s => fnv_byte h (Z.land (Z.shiftr b (8 * s)) 255)) h (zrange 0 8).
Definition hex12 (v : Z) : bytes := (fun k => Sha.hexdigit (Z.land (Z.shiftr v (4 * (11 - k))) 15)) <$> zrange 0 12.
Definition sigLocked (limitBytes : Z) (s : ReadFootprint) : bytes :=
  match visited limitBytes s with
  | [] => []
  | l => hex12 (Z.land (foldl fnv_bucket 1469598103934665603 l) (Z.ones 48))
  end.
Definition count (limitBytes : Z) (s : ReadFootprint) : Z := if poisoned_ s then 0 else countLocked limitBytes s.
Definition sig (limitBytes : Z) (s : ReadFootprint) : bytes := if poisoned_ s then [] else sigLocked limitBytes s.
Definition sigAndCount (limitBytes : Z) (s : ReadFootprint) : option (bytes * Z) :=
  if poisoned_ s then None
  else match sigLocked limitBytes s with [] => None | sg => Some (sg, countLocked limitBytes s) end.

(** ** The words *)
Lemma word_step p : let k := ctz_pos p in
  0 <= k /\ Z.testbit (Zpos p) k = true /\ (forall j, 0 <= j < k -> Z.testbit (Zpos p) j = false) /\
  forall j, 0 <= j -> Z.testbit (Z.land (Zpos p) (Zpos p - 1)) j = (Z.testbit (Zpos p) j && negb (j =? k)).
Proof.
  induction p as [p IH|p IH|]; cbn [ctz_pos].
  - split; [lia|]. split; [done|]. split; [lia|]. intros j Hj. replace (Zpos p~1 - 1) with (Zpos p~0) by lia.
    rewrite Z.land_spec. destruct (Z.eqb_spec j 0) as [->|Hne]; [done|].
    rewrite (Pos2Z.inj_xI p), (Pos2Z.inj_xO p).
    replace j with (Z.succ (j - 1)) by lia. rewrite Z.testbit_odd_succ, Z.testbit_even_succ by lia. cbn. by rewrite andb_diag, andb_true_r.
  - destruct IH as (H0 & H1 & H2 & H3). split; [lia|]. rewrite (Pos2Z.inj_xO p). split.
    { replace (1 + ctz_pos p) with (Z.succ (ctz_pos p)) by lia. by rewrite Z.testbit_even_succ by lia. }
    split.
    { intros j Hj. destruct (Z.eq_dec j 0) as [->|]; [apply Z.testbit_even_0|].
      replace j with (Z.succ (j - 1)) by lia. rewrite Z.testbit_even_succ by lia. apply H2. lia. }
    intros j Hj. replace (2 * Zpos p - 1) with (2 * (Zpos p - 1) + 1) by lia. rewrite Z.land_spec.
    destruct (Z.eq_dec j 0) as [->|Hne]; [by rewrite Z.testbit_even_0|].
    replace j with (Z.succ (j - 1)) by lia. rewrite Z.testbit_even_succ, Z.testbit_odd_succ by lia.
    rewrite <- Z.land_spec, H3 by lia. do 2 f_equal. destruct (Z.eqb_spec (j - 1) (ctz_pos p)), (Z.eqb_spec (Z.succ (j - 1)) (1 + ctz_pos p)); try done; lia.
  - split; [lia|]. split; [done|]. split; [lia|]. intros j Hj. cbn. rewrite Z.testbit_0_l.
    destruct (Z.eqb_spec j 0) as [->|]; [done|]. rewrite andb_true_r. symmetry. apply (Z.bits_above_log2 1); simpl; lia.
Qed.

Lemma testbit_high w j : 0 <= w < 2 ^ 64 -> 64 <= j -> Z.testbit w j = false.
Proof.
  intros Hw Hj. destruct (proj1 (bits_bound 64 w ltac:(lia)) Hw) as [_ E].
  replace j with ((j - 64) + 64) by lia. by rewrite <- Z.shiftr_spec, E, Z.bits_0 by lia.
Qed.
Lemma land_bound a b : 0 <= a < 2 ^ 64 -> 0 <= b -> 0 <= Z.land a b < 2 ^ 64.
Proof.
  intros Ha Hb. apply bits_bound; [lia|]. destruct (proj1 (bits_bound 64 a ltac:(lia)) Ha) as [_ E].
  split; [apply Z.land_nonneg; lia|]. by rewrite Z.shiftr_land, E, Z.land_0_l.
Qed.

(** The loop lists the set bits, each once, ascending. *)
Lemma word_bits_spec n : forall w lo, 0 <= w < 2 ^ 64 -> (forall j, 0 <= j < lo -> Z.testbit w j = false) -> 0 <= lo -> 64 - lo <= Z.of_nat n ->
  StronglySorted Z.lt (word_bits n w) /\ (forall k, k ∈ word_bits n w <-> 0 <= k /\ Z.testbit w k = true) /\
  Forall (fun k => lo <= k < 64) (word_bits n w).
Proof.
  induction n as [|n IH]; intros w lo Hw Hlo H0 Hn; cbn [word_bits].
  { assert (w = 0) as ->.
    { apply Z.bits_inj'. intros j Hj. rewrite Z.bits_0. destruct (Z.lt_ge_cases j lo); [by apply Hlo|apply testbit_high; lia]. }
    split; [constructor|]. split; [|done]. intros k. rewrite Z.bits_0, elem_of_nil. split; [done|by intros []]. }
  destruct (w =? 0) eqn:E; b2p.
  { subst w. split; [constructor|]. split; [|done]. intros k. rewrite Z.bits_0, elem_of_nil. split; [done|by intros []]. }
  destruct w as [|p|p]; [done| |lia]. destruct (word_step p) as (K0 & K1 & K2 & K3). cbn [ctz]. set (k := ctz_pos p) in *.
  assert (lo <= k < 64) as Hk.
  { split; [destruct (Z.lt_ge_cases k lo); [pose proof (Hlo k ltac:(lia)); congruence|done]|].
    destruct (Z.lt_ge_cases k 64); [done|]. pose proof (testbit_high _ k Hw ltac:(lia)). congruence. }
  destruct (IH (Z.land (Zpos p) (Zpos p - 1)) (k + 1) (land_bound (Zpos p) (Zpos p - 1) Hw ltac:(lia))) as (S1 & S2 & S3); [|lia|lia|].
  { intros j Hj. rewrite K3 by lia. destruct (Z.eqb_spec j k); [apply andb_false_r|]. rewrite K2 by lia. done. }
  split; [constructor; [done|]; eapply Forall_impl; [exact S3|cbn; lia]|]. split.
  - intros j. rewrite elem_of_cons, S2. split.
    + intros [->|[Hj Hj']]; [done|]. rewrite K3 in Hj' by lia. by apply andb_true_iff in Hj' as [? _].
    + intros [Hj Hj']. destruct (Z.eq_dec j k) as [->|Hne]; [by left|right]. split; [done|]. rewrite K3, Hj' by lia.
      by rewrite (proj2 (Z.eqb_neq _ _) Hne).
  - constructor; [done|]. eapply Forall_impl; [exact S3|cbn; lia].
Qed.

(** ** The bitmap as a set *)
Definition testb (l : list Z) (b : Z) : bool := Z.testbit (zget l (b / 64)) (b mod 64).
Definition words (l : list Z) : Prop := Forall (fun w => 0 <= w < 2 ^ 64) l.

Lemma zget_nil i : zget [] i = 0.
Proof. unfold zget. by destruct (Z.to_nat i). Qed.

Lemma testb_cons w l b : 0 <= b -> testb (w :: l) b = if b <? 64 then Z.testbit w b else testb l (b - 64).
Proof.
  intros Hb. unfold testb. destruct (Z.ltb_spec b 64) as [H|H].
  - by rewrite Z.div_small, Z.mod_small by lia.
  - replace b with ((b - 64) + 1 * 64) at 1 2 by lia. rewrite Z.div_add, Z.mod_add by lia.
    pose proof (Z.div_pos (b - 64) 64 ltac:(lia) ltac:(lia)). unfold zget. f_equal.
    by replace (Z.to_nat ((b - 64) / 64 + 1)) with (S (Z.to_nat ((b - 64) / 64))) by lia.
Qed.

Lemma all_from_spec l : forall i, 0 <= i -> words l ->
  StronglySorted Z.lt (all_from i l) /\
  (forall b, b ∈ all_from i l <-> i * 64 <= b /\ testb l (b - i * 64) = true).
Proof.
  induction l as [|w l IH]; intros i Hi Hl; cbn [all_from].
  { split; [constructor|]. intros b. rewrite elem_of_nil. split; [done|]. intros [Hb Ht]. exfalso.
    unfold testb in Ht. by rewrite zget_nil, Z.bits_0 in Ht. }
  apply Forall_cons in Hl as [Hw Hl]. destruct (IH (i + 1) ltac:(lia) Hl) as [S1 S2].
  destruct (word_bits_spec 64 w 0 Hw ltac:(lia) ltac:(lia) ltac:(lia)) as (W1 & W2 & W3).
  rewrite Forall_forall in W3.
  assert (forall b, b ∈ ((fun k => i * 64 + k) <$> word_bits 64 w) <-> (0 <= b - i * 64 < 64 /\ Z.testbit w (b - i * 64) = true)) as M.
  { intros b. rewrite list_elem_of_fmap. split.
    - intros (k & -> & Hk). replace (i * 64 + k - i * 64) with k by lia. pose proof (W3 k Hk). by apply W2 in Hk as [? ?].
    - intros [? ?]. exists (b - i * 64). split; [lia|]. apply W2. split; [lia|done]. }
  split.
  - apply StronglySorted_app_2; [| |done].
    + intros x y Hx Hy. apply M in Hx as [? _]. apply S2 in Hy as [? _]. lia.
    + clear -W1. induction W1 as [|k ks ? IH F]; [constructor|]. cbn. constructor; [done|]. apply Forall_fmap. eapply Forall_impl; [exact F|cbn; lia].
  - intros b. rewrite elem_of_app, M, S2. split.
    + intros [[? Ht]|[? Ht]]; (split; [lia|]); rewrite testb_cons by lia.
      * by rewrite (proj2 (Z.ltb_lt _ _)) by lia.
      * rewrite (proj2 (Z.ltb_ge _ _)) by lia. rewrite <- Ht. f_equal. lia.
    + intros [? Ht]. rewrite testb_cons in Ht by lia. destruct (Z.ltb_spec (b - i * 64) 64).
      * left. split; [lia|done].
      * right. split; [lia|]. rewrite <- Ht. f_equal. lia.
Qed.

Lemma zget_resized l n i : 0 <= i -> zget (resized l n) i = zget l i.
Proof.
  intros Hi. unfold resized. case_match; [|done]. unfold zget. destruct (Nat.lt_ge_cases (Z.to_nat i) (length l)).
  - by rewrite app_nth1.
  - rewrite app_nth2, (nth_overflow l) by lia. unfold zeros.
    destruct (nth_in_or_default (Z.to_nat i - length l) (replicate (Z.to_nat (n - zlen l)) 0) 0) as [Hin|]; [|done].
    by apply list_elem_of_In, elem_of_replicate in Hin as [-> _].
Qed.
Lemma zlen_resized l n : n <= zlen (resized l n) /\ zlen l <= zlen (resized l n).
Proof. unfold resized. case_match; b2p; rewrite ?zlen_app, ?zlen_zeros by lia; lia. Qed.
Lemma words_resized l n : words l -> words (resized l n).
Proof. intros H. unfold resized. case_match; [|done]. apply Forall_app. split; [done|]. apply Forall_replicate. lia. Qed.

Lemma set_bucket_spec l b : words l -> 0 <= b -> b / 64 < zlen l ->
  words (set_bucket l b) /\ zlen (set_bucket l b) = zlen l /\
  forall k, 0 <= k -> testb (set_bucket l b) k = (testb l k || (k =? b)).
Proof.
  intros Hl Hb Hlen. pose proof (Z.div_pos b 64 Hb ltac:(lia)) as Hq. pose proof (Z.mod_pos_bound b 64 ltac:(lia)) as Hm.
  assert (0 <= zget l (b / 64) < 2 ^ 64) as Hw.
  { unfold zget. destruct (nth_in_or_default (Z.to_nat (b / 64)) l 0) as [?| ->]; [|lia].
    unfold words in Hl. rewrite Forall_forall in Hl. by apply Hl, list_elem_of_In. }
  assert (0 <= Z.lor (zget l (b / 64)) (Z.shiftl 1 (b mod 64)) < 2 ^ 64) as Hn.
  { apply bits_bound; [lia|]. destruct (proj1 (bits_bound 64 _ ltac:(lia)) Hw) as [_ E].
    split; [apply Z.lor_nonneg; split; [lia|]; apply Z.shiftl_nonneg; lia|]. rewrite Z.shiftr_lor, E, Z.lor_0_l.
    rewrite Z.shiftl_1_l. apply (bits_bound 64); [lia|]. split; [apply Z.pow_nonneg; lia|]. apply Z.pow_lt_mono_r; lia. }
  split; [by apply Forall_insert|]. split; [apply zlen_zset|]. intros k Hk.
  pose proof (Z.div_pos k 64 Hk ltac:(lia)) as Hkq. pose proof (Z.mod_pos_bound k 64 ltac:(lia)) as Hkm.
  pose proof (Z.div_mod k 64 ltac:(lia)). pose proof (Z.div_mod b 64 ltac:(lia)).
  unfold testb, set_bucket. rewrite zget_zset by lia. case_decide as E.
  - rewrite <- E, Z.lor_spec. f_equal. rewrite Z.shiftl_1_l, Z.pow2_bits_eqb by lia.
    destruct (Z.eqb_spec (b mod 64) (k mod 64)), (Z.eqb_spec k b); try done; [lia|congruence].
  - destruct (Z.eqb_spec k b) as [->|]; [done|]. by rewrite orb_false_r.
Qed.

(** ** What a request adds *)
Definition touches (off len b : Z) : bool :=
  match buckets_of off len with Some (first, last) => (first <=? b) && (b <=? last) | None => false end.

Lemma set_buckets_spec (n : nat) : forall l first, words l -> 0 <= first -> (first + Z.of_nat n - 1) / 64 < zlen l ->
  let l' := foldl set_bucket l (zrange first (first + Z.of_nat n)) in
  words l' /\ forall k, 0 <= k -> testb l' k = (testb l k || ((first <=? k) && (k <? first + Z.of_nat n))).
Proof.
  induction n as [|n IH]; intros l first Hl Hf Hlen; cbn zeta.
  - replace (first + Z.of_nat 0) with first by lia. rewrite zrange_nil by lia. split; [done|]. intros k Hk. cbn.
    destruct (Z.leb_spec first k), (Z.ltb_spec k first); try lia; by rewrite orb_false_r.
  - rewrite zrange_cons by lia. cbn [foldl].
    destruct (set_bucket_spec l first Hl Hf) as (W & L & T).
    { eapply Z.le_lt_trans; [|exact Hlen]. apply Z.div_le_mono; lia. }
    destruct (IH (set_bucket l first) (first + 1) W ltac:(lia)) as [W' T'].
    { rewrite L. by replace (first + 1 + Z.of_nat n - 1) with (first + Z.of_nat (S n) - 1) by lia. }
    replace (first + Z.of_nat (S n)) with (first + 1 + Z.of_nat n) by lia. split; [done|]. intros k Hk.
    rewrite T', T by done. destruct (Z.eqb_spec k first), (Z.leb_spec first k), (Z.leb_spec (first + 1) k), (Z.ltb_spec k (first + 1 + Z.of_nat n)); try lia;
      by destruct (testb l k).
Qed.

Lemma buckets_of_range off len first last : 0 <= off -> buckets_of off len = Some (first, last) ->
  0 <= first <= last /\ last <= kMaxBucket /\ first = off / kBucket /\ last = (off +% len -% 1) / kBucket.
Proof.
  intros Ho. unfold buckets_of. destruct (len =? 0); [done|]. case_match eqn:E; [done|]. intros [= <- <-]. b2p.
  pose proof (Z.div_pos off kBucket Ho ltac:(unfold kBucket; lia)). lia.
Qed.

Lemma note_spec off len s : 0 <= off -> words (bits_ s) ->
  words (bits_ (note off len s)) /\ forall k, 0 <= k -> testb (bits_ (note off len s)) k = (testb (bits_ s) k || touches off len k).
Proof.
  intros Ho Hs. unfold note, touches. destruct (buckets_of off len) as [[first last]|] eqn:E; cbn.
  2: { split; [done|]. intros. by rewrite orb_false_r. }
  apply buckets_of_range in E as (? & ? & _ & _); [|done].
  destruct (set_buckets_spec (Z.to_nat (last + 1 - first)) (resized (bits_ s) (last / 64 + 1)) first) as [W T].
  { by apply words_resized. }
  { lia. }
  { pose proof (zlen_resized (bits_ s) (last / 64 + 1)). replace (first + Z.of_nat (Z.to_nat (last + 1 - first)) - 1) with last by lia. lia. }
  replace (first + Z.of_nat (Z.to_nat (last + 1 - first))) with (last + 1) in * by lia. split; [done|]. intros k Hk.
  rewrite T by done. unfold testb. rewrite zget_resized by (apply Z.div_pos; lia). f_equal. f_equal.
  destruct (Z.ltb_spec k (last + 1)), (Z.leb_spec k last); try done; lia.
Qed.

(** ** Histories *)
Inductive op := Note (off len : Z) | Poison.
Definition apply_op (s : ReadFootprint) (o : op) : ReadFootprint := match o with Note off len => note off len s | Poison => poison s end.
Definition run (h : list op) : ReadFootprint := foldl apply_op new_footprint h.
Definition op_ok (o : op) : Prop := match o with Note off len => 0 <= off < p64 /\ 0 <= len < p64 | Poison => True end.
(** What was read: the bucket overlaps some accepted request. *)
Definition touched (h : list op) (b : Z) : Prop := exists off len, Note off len ∈ h /\ touches off len b = true.

Lemma run_spec h : Forall op_ok h ->
  words (bits_ (run h)) /\ (forall k, 0 <= k -> testb (bits_ (run h)) k = true <-> touched h k) /\
  (poisoned_ (run h) = true <-> Poison ∈ h).
Proof.
  unfold run, touched. induction h as [|o h IH] using rev_ind; intros Hh.
  { split; [constructor|]. split; [|by rewrite elem_of_nil].
    intros k Hk. change (testb (bits_ (foldl apply_op new_footprint [])) k) with (testb [] k). unfold testb. rewrite zget_nil, Z.bits_0. split; [done|]. intros (? & ? & []%elem_of_nil & _). }
  apply Forall_app in Hh as [Hh [Ho _]%Forall_cons]. destruct (IH Hh) as (W & T & Q). rewrite foldl_app. cbn [foldl].
  destruct o as [off len|]; cbn [apply_op].
  - destruct Ho as [Ho _]. destruct (note_spec off len _ (proj1 Ho) W) as [W' T']. split; [done|]. split.
    + intros k Hk. rewrite T', orb_true_iff, T by done. setoid_rewrite elem_of_app. setoid_rewrite list_elem_of_singleton. split.
      * intros [(o' & l' & Hin & Ht)|Ht]; [exists o', l'; by split; [left|]|exists off, len; by split; [right|]].
      * intros (o' & l' & [Hin|Heq] & Ht); [left; by exists o', l'|]. injection Heq as -> ->. by right.
    + rewrite elem_of_app, list_elem_of_singleton, <- Q. assert (poisoned_ (note off len (foldl apply_op new_footprint h)) = poisoned_ (foldl apply_op new_footprint h)) as ->.
      { unfold note. by destruct (buckets_of off len) as [[]|]. }
      split; [by left|by intros [?|?]].
  - split; [done|]. split; [|rewrite elem_of_app, list_elem_of_singleton; split; [by right|done]].
    intros k Hk. cbn. rewrite T by done. split.
    + intros (off & len & Hin & Ht). exists off, len. split; [apply elem_of_app; by left|done].
    + intros (off & len & Hin & Ht). apply elem_of_app in Hin as [Hin|Hin%list_elem_of_singleton]; [by exists off, len|done].
Qed.

Lemma StronglySorted_filter (f : Z -> bool) l : StronglySorted Z.lt l -> StronglySorted Z.lt (List.filter f l).
Proof.
  induction 1 as [|x l ? IH F]; cbn; [constructor|]. case_match; [|done]. constructor; [done|].
  rewrite Forall_forall in *. intros y Hy. apply F. apply list_elem_of_In, List.filter_In in Hy as [? _]. by apply list_elem_of_In.
Qed.
(** Ascending lists with the same members are the same list. *)
Lemma ascending_unique l1 : forall l2, StronglySorted Z.lt l1 -> StronglySorted Z.lt l2 -> (forall x, x ∈ l1 <-> x ∈ l2) -> l1 = l2.
Proof.
  induction l1 as [|x l1 IH]; intros [|y l2] S1 S2 M; [done| | |].
  - exfalso. by apply (not_elem_of_nil y), M, list_elem_of_here.
  - exfalso. by apply (not_elem_of_nil x), M, list_elem_of_here.
  - inversion S1 as [|?? S1' F1]; inversion S2 as [|?? S2' F2]; subst. rewrite Forall_forall in F1, F2.
    assert (x = y) as ->.
    { assert (x ∈ y :: l2) as Hx by (apply M; left). assert (y ∈ x :: l1) as Hy by (apply M; left).
      apply elem_of_cons in Hx as [?|Hx], Hy as [?|Hy]; try done. apply F1 in Hy. apply F2 in Hx. lia. }
    f_equal. apply IH; [done..|]. intros z. specialize (M z). rewrite !elem_of_cons in M. split; intros Hz.
    + destruct (proj1 M (or_intror Hz)) as [->|]; [|done]. apply F1 in Hz. lia.
    + destruct (proj2 M (or_intror Hz)) as [->|]; [|done]. apply F2 in Hz. lia.
Qed.

Lemma visited_spec h limit : Forall op_ok h ->
  StronglySorted Z.lt (visited limit (run h)) /\
  forall b, b ∈ visited limit (run h) <-> 0 <= b <= lastBucket limit /\ touched h b.
Proof.
  intros Hh. destruct (run_spec h Hh) as (W & T & _). destruct (all_from_spec (bits_ (run h)) 0 ltac:(lia) W) as [S M].
  split; [by apply StronglySorted_filter|]. intros b. unfold visited. rewrite list_elem_of_In, List.filter_In, <- list_elem_of_In, M.
  rewrite Z.mul_0_l, Z.sub_0_r, Z.leb_le. split.
  - intros [[? Ht] ?]. split; [lia|]. by apply T in Ht.
  - intros [? Ht]. apply T in Ht; [|lia]. repeat split; try done; lia.
Qed.

Lemma countLocked_len limit s : countLocked limit s = zlen (visited limit s).
Proof.
  unfold countLocked. generalize (visited limit s). intros l.
  assert (forall n, foldl (fun n _ => n + 1) n l = n + zlen l) as H.
  { induction l as [|x l IH]; intros n; cbn [foldl]; [unfold zlen; cbn; lia|]. rewrite IH, zlen_cons. lia. }
  apply H.
Qed.

Lemma sigLocked_nil limit s : sigLocked limit s = [] <-> visited limit s = [].
Proof. unfold sigLocked. destruct (visited limit s) as [|b l] eqn:E; [done|]. split; [|done]. intros H. apply (f_equal zlen) in H. unfold hex12, zlen in H. rewrite length_fmap in H. done. Qed.

Lemma word_bits_S n w : word_bits (S n) w = if w =? 0 then [] else ctz w :: word_bits n (Z.land w (w - 1)).
Proof. done. Qed.
#[local] Opaque word_bits.

Lemma empty_visited s : words (bits_ s) -> empty s = true <-> all_from 0 (bits_ s) = [].
Proof.
  unfold empty. revert s. cut (forall l i, words l -> forallb (fun w => w =? 0) l = true <-> all_from i l = []); [intros G s; apply G|].
  induction l as [|w l IH]; intros i W; [done|]. apply Forall_cons in W as [Hw Wl]. cbn [forallb all_from].
  rewrite andb_true_iff, app_nil, (IH (i + 1) Wl), Z.eqb_eq.
  rewrite (word_bits_S 63).
  split; intros [H1 H2]; (split; [|done]); [by subst w|]. apply fmap_nil_inv in H1. by destruct (Z.eqb_spec w 0).
Qed.

(** Cutting a request in two adds the same buckets. *)
Lemma touches_split off a b k : 0 <= off -> 0 < a -> 0 < b -> off + a + b <= kMaxBucket * kBucket ->
  touches off (a + b) k = (touches off a k || touches (off + a) b k).
Proof.
  intros H0 Ha Hb Hm. change (kMaxBucket * kBucket) with 17592186044416 in Hm.
  assert (forall o n, 0 <= o -> 0 < n -> o + n <= 17592186044416 -> touches o n k = ((o / kBucket <=? k) && (k <=? (o + n - 1) / kBucket))) as E.
  { intros o n Ho Hn Hon. unfold touches, buckets_of. rewrite (proj2 (Z.eqb_neq n 0)) by lia. nowrap.
    assert (o / kBucket <= (o + n - 1) / kBucket) by (apply Z.div_le_mono; [done|lia]).
    assert ((o + n - 1) / kBucket <= kMaxBucket) by (change kMaxBucket with 16777216; apply Z.div_le_upper_bound; unfold kBucket; lia).
    rewrite (proj2 (Z.ltb_ge _ _)), (proj2 (Z.ltb_ge kMaxBucket _)) by lia. done. }
  rewrite !E by lia. replace (off + (a + b) - 1) with (off + a + b - 1) by lia.
  assert (off / kBucket <= (off + a - 1) / kBucket) by (apply Z.div_le_mono; [done|lia]).
  assert ((off + a - 1) / kBucket <= (off + a) / kBucket <= (off + a - 1) / kBucket + 1) as [? ?].
  { split; [apply Z.div_le_mono; [done|lia]|].
    replace ((off + a - 1) / kBucket + 1) with ((off + a - 1 + 1 * kBucket) / kBucket) by (apply Z.div_add; done).
    apply Z.div_le_mono; [done|unfold kBucket; lia]. }
  assert ((off + a) / kBucket <= (off + a + b - 1) / kBucket) by (apply Z.div_le_mono; [done|lia]).
  destruct (Z.leb_spec (off / kBucket) k), (Z.leb_spec k ((off + a + b - 1) / kBucket)), (Z.leb_spec k ((off + a - 1) / kBucket)),
    (Z.leb_spec ((off + a) / kBucket) k); try done; lia.
Qed.

(** the footprint of a run is the set of buckets its accepted requests
    overlap. The list a run reports is that set, ascending, up to the limit, and its
    count is the set's size. Two runs that touched the same buckets have the same count and
    the same signature, whatever the order, the repetition or the cutting of their
    requests; a poisoned run answers nothing, wherever the poison fell; and the pair
    taken under one lock is never a signature beside a zero count. *)
Theorem footprint_canonical h limit : Forall op_ok h ->
  let s := run h in
  StronglySorted Z.lt (buckets limit s) /\
  (forall b, b ∈ buckets limit s <-> 0 <= b <= lastBucket limit /\ touched h b) /\
  (Poison ∈ h -> count limit s = 0 /\ sig limit s = [] /\ sigAndCount limit s = None) /\
  ((Poison ∉ h) -> count limit s = zlen (buckets limit s) /\
     sigAndCount limit s = (if decide (buckets limit s = []) then None else Some (sig limit s, count limit s)) /\
     (buckets limit s <> [] -> 0 < count limit s /\ zlen (sig limit s) = 12)) /\
  (empty s = true <-> forall b, 0 <= b -> ~ touched h b) /\
  (forall h', Forall op_ok h' -> (Poison ∈ h <-> Poison ∈ h') -> (forall b, 0 <= b <= lastBucket limit -> touched h b <-> touched h' b) ->
     buckets limit (run h') = buckets limit s /\ count limit (run h') = count limit s /\
     sig limit (run h') = sig limit s /\ sigAndCount limit (run h') = sigAndCount limit s) /\
  (forall off a b k, 0 <= off -> 0 < a -> 0 < b -> off + a + b <= kMaxBucket * kBucket ->
     touches off (a + b) k = (touches off a k || touches (off + a) b k)).
Proof.
  intros Hh s. destruct (visited_spec h limit Hh) as [S M]. destruct (run_spec h Hh) as (W & T & P). fold s in S, M, W, T, P.
  split; [done|]. split; [done|]. split.
  { intros HP. apply P in HP. unfold count, sig, sigAndCount. by rewrite HP. }
  split.
  { intros HP. assert (poisoned_ s = false) as E by (destruct (poisoned_ s); [by destruct HP; apply P|done]).
    unfold count, sig, sigAndCount. rewrite E, countLocked_len. split; [done|]. unfold buckets. unfold sigLocked.
    destruct (visited limit s) as [|b l]; [done|]. rewrite decide_False by done.
    assert (zlen (hex12 (Z.land (foldl fnv_bucket 1469598103934665603 (b :: l)) (Z.ones 48))) = 12) as L12 by (unfold hex12, zlen; by rewrite length_fmap).
    split; [|intros _; split; [rewrite zlen_cons; pose proof (zlen_nonneg l); lia|done]].
    by destruct (hex12 _). }
  split.
  { rewrite empty_visited by done. destruct (all_from_spec (bits_ s) 0 ltac:(lia) W) as [_ A]. split.
    - intros E b Hb Ht. apply T in Ht; [|done]. apply (not_elem_of_nil b). rewrite <- E. apply A. by rewrite Z.mul_0_l, Z.sub_0_r.
    - intros E. destruct (all_from 0 (bits_ s)) as [|b l]; [done|]. destruct (proj1 (A b) (list_elem_of_here _ _)) as [Hb Ht].
      rewrite Z.mul_0_l, Z.sub_0_r in *. by destruct (E b Hb); apply T. }
  split; [|exact touches_split]. intros h' Hh' HP Ht. destruct (visited_spec h' limit Hh') as [S' M']. destruct (run_spec h' Hh') as (_ & _ & P').
  assert (visited limit (run h') = visited limit s) as E.
  { apply ascending_unique; [done..|]. intros b. rewrite M, M'. split; intros [? ?]; (split; [done|]); by apply Ht. }
  assert (poisoned_ (run h') = poisoned_ s) as Ep by (apply Bool.eq_true_iff_eq; rewrite P, P'; by symmetry).
  unfold buckets, count, sig, sigAndCount. unfold sigLocked. rewrite !countLocked_len, E, Ep. done.
Qed.

(** Two runs over one file, one in two requests, one in a single one with a repeat:
    buckets 0, 1 and 64. *)
Definition demo_a : list op := [Note 0 2000000; Note 67108864 10].
Definition demo_b : list op := [Note 67108870 5; Note 1048576 951424; Note 0 1048576; Note 67108864 1; Note 5 0; Note 18446744073709551615 9].
Lemma footprint_canonical_witness :
  Forall op_ok demo_a /\ buckets 0 (run demo_a) = [0; 1; 64] /\ sig 0 (run demo_b) = sig 0 (run demo_a) /\ count 0 (run demo_a) = 3.
Proof.
  assert (Forall op_ok demo_a) as Ha by (repeat constructor; cbn; lia).
  assert (Forall op_ok demo_b) as Hb by (repeat constructor; cbn; lia).
  split; [done|]. destruct (footprint_canonical demo_a 0 Ha) as (_ & M & _ & C & _ & U & _).
  split; [vm_compute; reflexivity|]. destruct (footprint_canonical demo_b 0 Hb) as (_ & M' & _).
  destruct (U demo_b Hb) as (_ & _ & ? & _).
  - split; intros Hp; exfalso; unfold demo_a, demo_b in Hp; repeat (apply elem_of_cons in Hp as [Hp|Hp]; [done|]); by apply elem_of_nil in Hp.
  - intros b Hb0. specialize (M b). specialize (M' b).
    assert (buckets 0 (run demo_b) = buckets 0 (run demo_a)) as E by (vm_compute; reflexivity). rewrite E in M'.
    split; intros Ht; [exact (proj2 (proj1 M' (proj2 M (conj Hb0 Ht))))|exact (proj2 (proj1 M (proj2 M' (conj Hb0 Ht))))].
  - split; [done|]. destruct C as [-> _]; [|vm_compute; reflexivity].
    intros Hp; unfold demo_a in Hp; repeat (apply elem_of_cons in Hp as [Hp|Hp]; [done|]); by apply elem_of_nil in Hp.
Defined.
End Footprint.
