(* ===== verification/RootFile.v ===== *)
(** * Keys and compressed frames of a ROOT file (src/transpose/TreeMeta.cc, Transposer.cc)

    Big-endian fields, the key header every record starts with, and the container
    of compressed frames a record's payload is. The four decompressors and the
    ZSTD compressor are libraries: the class [Codecs]. Proved: the frame walk ends,
    what one frame decodes to, and that what [encodeZstdFrames] writes decodes to its
    input as long as every frame's size fits the 24 bits its header has. *)

From S2P Require Import Prelude.

Module Root.

(** ** Big-endian integers *)
Definition beGet (n : nat) (p : bytes) (off : Z) : Z := foldl (fun v b => Z.lor (Z.shiftl v 8) b) 0 (zsub p off (Z.of_nat n)).
(** [beGet<intN_t>]. *)
Definition signed (n : nat) (v : Z) : Z := if v <? 2 ^ (8 * Z.of_nat n - 1) then v else v - 2 ^ (8 * Z.of_nat n).
Definition beGetS (n : nat) (p : bytes) (off : Z) : Z := signed n (beGet n p off).
Definition be_bytes (n : nat) (v : Z) : bytes := rev (le_bytes n v).
Definition bePut (n : nat) (p : bytes) (off v : Z) : bytes := zsplice p off (be_bytes n v).

(** ** Key headers *)
Record KeyInfo := mkKey {
  nbytes : Z; ver : Z; objlen : Z; keylen : Z; cycle : Z; seekkey : Z; cls : bytes; name : bytes; title : bytes }.

(** A counted string at [off + q], and the position after it. *)
Definition key_str (p : bytes) (off q : Z) : option (bytes * Z) :=
  if zlen p <=? off +% q then None
  else
    let len := zget p (off + q) in
    if zlen p <? off +% (q + 1) +% len then None else Some (zsub p (off + (q + 1)) len, q + 1 + len).

Definition parseKey (p : bytes) (off : Z) : option KeyInfo :=
  if zlen p <? off +% 34 then None
  else
    let v := beGet 2 p (off + 4) in
    let '(sk, q) := if 1000 <? v then (beGetS 8 p (off + 18), 34) else (beGetS 4 p (off + 18), 26) in
    match key_str p off q with
    | None => None
    | Some (c, q) =>
        match key_str p off q with
        | None => None
        | Some (nm, q) =>
            match key_str p off q with
            | None => None
            | Some (t, _) =>
                Some (mkKey (beGetS 4 p off) v (beGetS 4 p (off + 6)) (beGet 2 p (off + 14)) (beGet 2 p (off + 16)) sk c nm t)
            end
        end
    end.

(** ** Frames *)
Class Codecs := {
  lzma_stream_buffer_decode : bytes -> Z -> option bytes;
  uncompress : bytes -> Z -> option bytes;
  ZSTD_decompress : bytes -> Z -> option bytes;
  LZ4_decompress_safe : bytes -> Z -> option bytes;
  have_lz4 : bool;
  ZSTD_compress : bytes -> Z -> option bytes }.

Section ops.
Context `{CD : Codecs}.

(** A decoder must fill the frame's declared size. *)
Definition exactly (usize : Z) (r : option bytes) : option bytes :=
  match r with Some d => if zlen d =? usize then Some d else None | None => None end.
Definition decode_frame (m0 m1 : Z) (blob : bytes) (csize usize : Z) : option bytes :=
  if (m0 =? 88) && (m1 =? 90) then exactly usize (lzma_stream_buffer_decode blob usize)
  else if (m0 =? 90) && (m1 =? 76) then exactly usize (uncompress blob usize)
  else if (m0 =? 90) && (m1 =? 83) then exactly usize (ZSTD_decompress blob usize)
  else if (m0 =? 76) && (m1 =? 52) then
    if have_lz4 then (if csize <? 8 then None else exactly usize (LZ4_decompress_safe (zsub blob 8 (csize - 8)) usize)) else None
  else None.

Definition get24 (p : bytes) (at_ : Z) : Z :=
  Z.lor (Z.lor (zget p at_) (Z.shiftl (zget p (at_ + 1)) 8)) (Z.shiftl (zget p (at_ + 2)) 16).

(** The frame at [p]: its decoded bytes and the position after it. *)
Definition frame_at (payload : bytes) (p : Z) : option (bytes * Z) :=
  if zlen payload <? p + 9 then None
  else
    let csize := get24 payload (p + 3) in
    let usize := get24 payload (p + 6) in
    if zlen payload <? p + 9 + csize then None
    else
      match decode_frame (zget payload p) (zget payload (p + 1)) (zsub payload (p + 9) csize) csize usize with
      | None => None
      | Some d => Some (d, p + 9 + csize)
      end.
(** [None]: out of fuel; an empty vector is the source's failure. *)
Fixpoint frames (fuel : nat) (payload : bytes) (objlen p : Z) (out : bytes) : option bytes :=
  match fuel with
  | O => None
  | S fuel' =>
      if zlen out <? objlen then
        match frame_at payload p with
        | None => Some []
        | Some (d, p') => frames fuel' payload objlen p' (out ++ d)
        end
      else Some (if zlen out =? objlen then out else [])
  end.
Definition decompressFrames (payload : bytes) (objlen : Z) : bytes :=
  match frames (S (S (length payload))) payload objlen 0 [] with Some out => out | None => [] end.

Definition kMaxFrame : Z := 16777215.
Definition put24 (v : Z) : bytes := [Z.land v 255; Z.land (Z.shiftr v 8) 255; Z.land (Z.shiftr v 16) 255].
Definition frame_of (z : bytes) (chunk : Z) : bytes := [90; 83; 1] ++ put24 (zlen z) ++ put24 chunk ++ z.
Fixpoint encode_from (fuel : nat) (raw : bytes) (level i : Z) (out : bytes) : option bytes :=
  match fuel with
  | O => None
  | S fuel' =>
      if zlen raw <=? i then Some out
      else
        let chunk := Z.min kMaxFrame (zlen raw - i) in
        match ZSTD_compress (zsub raw i chunk) level with
        | None => Some []
        | Some z => encode_from fuel' raw level (i + kMaxFrame) (out ++ frame_of z chunk)
        end
  end.
Definition encodeZstdFrames (raw : bytes) (level : Z) : bytes :=
  match encode_from (S (S (Z.to_nat (zlen raw / kMaxFrame)))) raw level 0 [] with Some out => out | None => [] end.
End ops.

(** ** Big-endian fields *)
Lemma lor_byte v b : 0 <= v -> is_byte b -> Z.lor (Z.shiftl v 8) b = v * p8 + b.
Proof.
  intros Hv Hb. rewrite Z.shiftl_mul_pow2 by lia. change (2 ^ 8) with p8. symmetry. apply Z.add_nocarry_lor.
  apply Z.bits_inj'. intros k Hk. rewrite Z.land_spec, Z.bits_0. change p8 with (2 ^ 8).
  destruct (Z.lt_ge_cases k 8); [by rewrite Z.mul_pow2_bits_low|].
  destruct (proj1 (is_byte_bits b) Hb) as [_ E]. replace (Z.testbit b k) with false; [by rewrite andb_false_r|].
  replace k with ((k - 8) + 8) by lia. by rewrite <- Z.shiftr_spec, E, Z.bits_0 by lia.
Qed.
Lemma be_fold l : Forall is_byte l -> forall v, 0 <= v ->
  foldl (fun v b => Z.lor (Z.shiftl v 8) b) v l = v * p8 ^ zlen l + le_val (rev l).
Proof.
  induction 1 as [|b l Hb Hl IH]; intros v Hv; cbn [foldl rev].
  { unfold zlen. cbn. lia. }
  rewrite lor_byte by done. rewrite IH by (unfold is_byte in Hb; lia).
  assert (forall a x, le_val (a ++ [x]) = le_val a + p8 ^ zlen a * x) as E.
  { intros a x. induction a as [|y a IHa]; cbn [app le_val]; [unfold zlen; cbn; lia|]. rewrite IHa, zlen_cons, Z.pow_add_r by (pose proof (zlen_nonneg a); lia). lia. }
  rewrite E. unfold zlen at 3. rewrite length_rev. fold (zlen l). rewrite zlen_cons, Z.pow_add_r by (pose proof (zlen_nonneg l); lia). lia.
Qed.
Lemma beGet_eq n p off : Forall is_byte p -> beGet n p off = le_val (rev (zsub p off (Z.of_nat n))).
Proof. intros Hp. unfold beGet. rewrite be_fold; [lia|by apply Forall_zsub|lia]. Qed.
Lemma zlen_be n v : zlen (be_bytes n v) = Z.of_nat n.
Proof. unfold be_bytes, zlen. by rewrite length_rev, length_le_bytes. Qed.
Lemma be_is_byte n v : Forall is_byte (be_bytes n v).
Proof. unfold be_bytes. apply Forall_rev, le_bytes_is_byte. Qed.
#[local] Hint Resolve be_is_byte : bytes.
Lemma Forall_bePut n p off v : Forall is_byte p -> Forall is_byte (bePut n p off v).
Proof. intros. by apply Forall_zsplice, be_is_byte. Qed.
Lemma zlen_bePut n p off v : 0 <= off -> off + Z.of_nat n <= zlen p -> zlen (bePut n p off v) = zlen p.
Proof. intros. unfold bePut. apply zlen_zsplice; rewrite ?zlen_be; lia. Qed.
Lemma beGet_be n l off v : zsub l off (Z.of_nat n) = be_bytes n v -> 0 <= v < p8 ^ Z.of_nat n -> beGet n l off = v.
Proof.
  intros E Hv. unfold beGet. rewrite E, be_fold; [|apply be_is_byte|lia]. unfold be_bytes. rewrite rev_involutive, le_val_bytes by done. lia.
Qed.
Lemma be_bytes_mod n : forall v, be_bytes n (v mod p8 ^ Z.of_nat n) = be_bytes n v.
Proof.
  intros v. unfold be_bytes. f_equal. revert v. induction n as [|n IH]; intros v; [done|]. cbn [le_bytes].
  rewrite Nat2Z.inj_succ, Z.pow_succ_r by lia. pose proof (Z.pow_pos_nonneg p8 (Z.of_nat n) ltac:(lia) ltac:(lia)). f_equal.
  - by rewrite Z.mod_mod_divide by (exists (p8 ^ Z.of_nat n); lia).
  - rewrite <- (IH (v / p8)). f_equal. rewrite Z.rem_mul_r by lia. rewrite Z.mul_comm, Z.add_comm, Z.div_add_l by lia.
    rewrite (Z.div_small (v mod p8)) by (apply Z.mod_pos_bound; lia). lia.
Qed.
Lemma pow8 n : p8 ^ Z.of_nat n = 2 ^ (8 * Z.of_nat n).
Proof. change p8 with (2 ^ 8). by rewrite <- Z.pow_mul_r by lia. Qed.
(** A signed field reads back what was put. *)
Lemma beGetS_be n l off v : (0 < n)%nat -> zsub l off (Z.of_nat n) = be_bytes n v ->
  - 2 ^ (8 * Z.of_nat n - 1) <= v < 2 ^ (8 * Z.of_nat n - 1) -> beGetS n l off = v.
Proof.
  intros Hn E Hv. assert (2 ^ (8 * Z.of_nat n) = 2 * 2 ^ (8 * Z.of_nat n - 1)) as E2.
  { rewrite <- Z.pow_succ_r by lia. f_equal. lia. }
  assert (beGet n l off = v mod p8 ^ Z.of_nat n) as Eu.
  { apply beGet_be; [by rewrite be_bytes_mod|]. rewrite pow8. apply Z.mod_pos_bound. lia. }
  unfold beGetS, signed. rewrite Eu, pow8. destruct (Z.lt_ge_cases v 0).
  - replace (v mod 2 ^ (8 * Z.of_nat n)) with (v + 2 ^ (8 * Z.of_nat n)).
    + rewrite (proj2 (Z.ltb_ge _ _)) by lia. lia.
    + apply (Z.mod_unique _ _ (-1)); lia.
  - rewrite Z.mod_small by lia. by rewrite (proj2 (Z.ltb_lt _ _)) by lia.
Qed.
Lemma signed_range n v : (0 < n)%nat -> 0 <= v < 2 ^ (8 * Z.of_nat n) -> - 2 ^ (8 * Z.of_nat n - 1) <= signed n v < 2 ^ (8 * Z.of_nat n - 1).
Proof.
  intros Hn Hv. assert (2 ^ (8 * Z.of_nat n) = 2 * 2 ^ (8 * Z.of_nat n - 1)) as E2.
  { rewrite <- Z.pow_succ_r by lia. f_equal. lia. }
  unfold signed. case_match; b2p; lia.
Qed.

(** ** The frame walk *)
Lemma get24_bound p at_ : Forall is_byte p -> 0 <= get24 p at_ < 2 ^ 24.
Proof.
  intros Hp. assert (forall i, is_byte (zget p i)) as B by (intros i; apply Forall_zget; [done|unfold is_byte; lia]).
  assert (forall v k, is_byte v -> 0 <= k <= 16 -> 0 <= Z.shiftl v k < 2 ^ 24) as S.
  { intros v k Hv Hk. unfold is_byte in Hv. rewrite Z.shiftl_mul_pow2 by lia. pose proof (Z.pow_le_mono_r 2 k 16 ltac:(lia) ltac:(lia)).
    pose proof (Z.pow_pos_nonneg 2 k ltac:(lia) ltac:(lia)). change (2 ^ 24) with (256 * 2 ^ 16). nia. }
  assert (forall a b, 0 <= a < 2 ^ 24 -> 0 <= b < 2 ^ 24 -> 0 <= Z.lor a b < 2 ^ 24) as L.
  { intros a b Ha Hb. apply bits_bound; [lia|]. destruct (proj1 (bits_bound 24 a ltac:(lia)) Ha) as [? Ea], (proj1 (bits_bound 24 b ltac:(lia)) Hb) as [? Eb].
    split; [by apply Z.lor_nonneg|]. by rewrite Z.shiftr_lor, Ea, Eb. }
  unfold get24. apply L; [apply L|]; [|apply S; [done|lia]..]. specialize (B at_). unfold is_byte in B. lia.
Qed.
Lemma get24_put24 v pre post : 0 <= v < 2 ^ 24 -> get24 (pre ++ put24 v ++ post) (zlen pre) = v.
Proof.
  intros Hv. unfold get24. rewrite (zget_app_r pre _ (zlen pre)), (zget_app_r pre _ (zlen pre + 1)), (zget_app_r pre _ (zlen pre + 2)) by lia. replace (zlen pre - zlen pre) with 0 by lia.
  replace (zlen pre + 1 - zlen pre) with 1 by lia. replace (zlen pre + 2 - zlen pre) with 2 by lia.
  change (zget (put24 v ++ post) 0) with (Z.land v 255). change (zget (put24 v ++ post) 1) with (Z.land (Z.shiftr v 8) 255).
  change (zget (put24 v ++ post) 2) with (Z.land (Z.shiftr v 16) 255).
  apply Z.bits_inj'. intros k Hk. rewrite !Z.lor_spec, !Z.shiftl_spec by done. change 255 with (Z.ones 8). rewrite Z.land_spec.
  assert (forall j, Z.testbit (Z.ones 8) j = (0 <=? j) && (j <? 8)) as O by (intros j; apply Z.testbit_ones; lia).
  assert (forall m, 0 <= m -> Z.testbit (Z.land (Z.shiftr v m) (Z.ones 8)) (k - m) = (Z.testbit v k && ((m <=? k) && (k <? m + 8)))) as D.
  { intros m Hm. destruct (Z.lt_ge_cases k m).
    - rewrite Z.testbit_neg_r by lia. rewrite (proj2 (Z.leb_gt m k)) by lia. by rewrite andb_false_r.
    - rewrite Z.land_spec, Z.shiftr_spec, O by lia. replace (k - m + m) with k by lia. f_equal.
      destruct (Z.leb_spec 0 (k - m)), (Z.leb_spec m k), (Z.ltb_spec (k - m) 8), (Z.ltb_spec k (m + 8)); try done; lia. }
  rewrite !D, O by lia. destruct (Z.lt_ge_cases k 24).
  - destruct (Z.leb_spec 0 k), (Z.ltb_spec k 8), (Z.leb_spec 8 k), (Z.ltb_spec k (8 + 8)), (Z.leb_spec 16 k), (Z.ltb_spec k (16 + 8)); try lia;
      by destruct (Z.testbit v k).
  - destruct (proj1 (bits_bound 24 v ltac:(lia)) Hv) as [_ E]. replace (Z.testbit v k) with false; [done|].
    replace k with ((k - 24) + 24) by lia. by rewrite <- Z.shiftr_spec, E, Z.bits_0 by lia.
Qed.

Section walk.
Context `{CD : Codecs}.

Lemma frame_at_next payload p d p' : Forall is_byte payload -> frame_at payload p = Some (d, p') -> p + 9 <= p' <= zlen payload.
Proof.
  intros Hp. unfold frame_at. case_match eqn:E1; [done|]. case_match eqn:E2; [done|]. case_match; [|done]. intros [= <- <-]. b2p.
  pose proof (get24_bound payload (p + 3) Hp). lia.
Qed.

(** The walk ends: each frame moves on by nine bytes at least. *)
Lemma frames_total fuel : forall payload objlen p out, Forall is_byte payload ->
  0 <= p <= zlen payload -> zlen payload - p < Z.of_nat fuel -> exists r, frames fuel payload objlen p out = Some r.
Proof.
  induction fuel as [|fuel IH]; intros payload objlen p out Hb Hp Hf; [lia|]. cbn [frames].
  case_match; [|by eexists]. destruct (frame_at payload p) as [[d p']|] eqn:E; [|by eexists].
  apply frame_at_next in E; [|done]. apply IH; [done|lia|lia].
Qed.

(** ** What is written decodes *)
Definition ZstdLaw : Prop := forall c level z, ZSTD_compress c level = Some z -> ZSTD_decompress z (zlen c) = Some c.
(** Every chunk of [raw] compresses into the 24 bits of a frame header. *)
Definition frames_fit (raw : bytes) (level : Z) : Prop :=
  forall i z, 0 <= i < zlen raw -> i mod kMaxFrame = 0 -> ZSTD_compress (zsub raw i (Z.min kMaxFrame (zlen raw - i))) level = Some z -> zlen z <= kMaxFrame.

Lemma zlen_put24 v : zlen (put24 v) = 3.
Proof. done. Qed.
Lemma zlen_frame_of z c : zlen (frame_of z c) = 9 + zlen z.
Proof. unfold frame_of. rewrite !zlen_app, !zlen_put24. change (zlen [90; 83; 1]) with 3. lia. Qed.

Lemma frame_at_frame pre z c level post : ZstdLaw -> ZSTD_compress c level = Some z -> zlen z <= kMaxFrame -> zlen c <= kMaxFrame ->
  frame_at (pre ++ frame_of z (zlen c) ++ post) (zlen pre) = Some (c, zlen pre + 9 + zlen z).
Proof.
  intros Hlaw Hz Hl Hc. pose proof (zlen_nonneg z). pose proof (zlen_nonneg c). pose proof (zlen_nonneg post). unfold kMaxFrame in *.
  unfold frame_at. rewrite !zlen_app, zlen_frame_of.
  rewrite (proj2 (Z.ltb_ge _ _)) by lia.
  assert (pre ++ frame_of z (zlen c) ++ post = (pre ++ [90; 83; 1]) ++ put24 (zlen z) ++ (put24 (zlen c) ++ z ++ post)) as E1.
  { unfold frame_of. by rewrite <- !app_assoc. }
  assert (pre ++ frame_of z (zlen c) ++ post = ((pre ++ [90; 83; 1]) ++ put24 (zlen z)) ++ put24 (zlen c) ++ (z ++ post)) as E2.
  { unfold frame_of. by rewrite <- !app_assoc. }
  assert (get24 (pre ++ frame_of z (zlen c) ++ post) (zlen pre + 3) = zlen z) as G1.
  { rewrite E1. replace (zlen pre + 3) with (zlen (pre ++ [90; 83; 1])) by (rewrite zlen_app; done). apply get24_put24. lia. }
  assert (get24 (pre ++ frame_of z (zlen c) ++ post) (zlen pre + 6) = zlen c) as G2.
  { rewrite E2. replace (zlen pre + 6) with (zlen ((pre ++ [90; 83; 1]) ++ put24 (zlen z))) by (rewrite !zlen_app, ?zlen_put24; change (zlen [90; 83; 1]) with 3; lia). apply get24_put24. lia. }
  rewrite G1, G2, (proj2 (Z.ltb_ge _ _)) by lia.
  assert (zget (pre ++ frame_of z (zlen c) ++ post) (zlen pre) = 90) as ->.
  { rewrite zget_app_r by lia. by replace (zlen pre - zlen pre) with 0 by lia. }
  assert (zget (pre ++ frame_of z (zlen c) ++ post) (zlen pre + 1) = 83) as ->.
  { rewrite zget_app_r by lia. by replace (zlen pre + 1 - zlen pre) with 1 by lia. }
  assert (zsub (pre ++ frame_of z (zlen c) ++ post) (zlen pre + 9) (zlen z) = z) as ->.
  { replace (pre ++ frame_of z (zlen c) ++ post) with ((pre ++ [90; 83; 1] ++ put24 (zlen z) ++ put24 (zlen c)) ++ z ++ post)
      by (unfold frame_of; by rewrite <- !app_assoc).
    assert (zlen (pre ++ [90; 83; 1] ++ put24 (zlen z) ++ put24 (zlen c)) = zlen pre + 9) as L.
    { rewrite !zlen_app, !zlen_put24. change (zlen [90; 83; 1]) with 3. lia. }
    rewrite zsub_app_r, L by lia. replace (zlen pre + 9 - (zlen pre + 9)) with 0 by lia. by apply zsub_app. }
  unfold decode_frame. cbn [andb Z.eqb Pos.eqb]. rewrite (Hlaw _ _ _ Hz). unfold exactly. by rewrite Z.eqb_refl.
Qed.
Lemma encode_walk level raw fuel : ZstdLaw -> frames_fit raw level -> forall i out r, 0 <= i -> i mod kMaxFrame = 0 ->
  encode_from fuel raw level i out = Some r -> r <> [] ->
  exists tail, r = out ++ tail /\ forall fuel2, (length tail < fuel2)%nat ->
    frames fuel2 r (zlen raw) (zlen out) (zsub raw 0 (Z.min i (zlen raw))) = Some raw.
Proof.
  intros Hlaw Hfit. pose proof (zlen_nonneg raw) as Hn. induction fuel as [|fuel IH]; intros i out r Hi Hm; cbn [encode_from]; [done|].
  case_match eqn:E; b2p.
  - intros [= <-] _. exists []. split; [by rewrite app_nil_r|]. intros [|fuel2] Hf; [cbn in Hf; lia|]. cbn [frames].
    rewrite Z.min_r, zsub_all, Z.ltb_irrefl, Z.eqb_refl by lia. done.
  - set (n := Z.min kMaxFrame (zlen raw - i)). assert (0 < n <= kMaxFrame /\ i + n <= zlen raw) as Hc by (unfold n, kMaxFrame; lia).
    destruct (ZSTD_compress (zsub raw i n) level) as [z|] eqn:Ez; [|by intros [= <-]]. intros Er Hr.
    destruct (IH (i + kMaxFrame) (out ++ frame_of z n) r ltac:(unfold kMaxFrame; lia) ltac:(rewrite <- Zplus_mod_idemp_r, Z.mod_same, Z.add_0_r by done; exact Hm) Er Hr) as (tail & -> & Hw).
    exists (frame_of z n ++ tail). split; [by rewrite app_assoc|]. intros [|fuel2] Hf; [lia|]. cbn [frames].
    assert (zlen (zsub raw 0 (Z.min i (zlen raw))) = i) as La by (rewrite zlen_zsub by lia; lia).
    rewrite La, (proj2 (Z.ltb_lt _ _)) by lia. assert (zlen (zsub raw i n) = n) as Ln by (apply zlen_zsub; lia).
    assert (zlen z <= kMaxFrame) as Lz by (apply (Hfit i); [lia|done|exact Ez]).
    pose proof (frame_at_frame out z (zsub raw i n) level tail Hlaw Ez Lz ltac:(lia)) as F. rewrite Ln in F.
    rewrite <- app_assoc, F.
    replace (zlen out + 9 + zlen z) with (zlen (out ++ frame_of z n)) by (rewrite zlen_app, zlen_frame_of; lia).
    replace (zsub raw 0 (Z.min i (zlen raw)) ++ zsub raw i n) with (zsub raw 0 (Z.min (i + kMaxFrame) (zlen raw))).
    + rewrite app_assoc. apply Hw. rewrite length_app in Hf. pose proof (zlen_frame_of z n). unfold zlen in *. lia.
    + rewrite (Z.min_l i) by lia. replace (Z.min (i + kMaxFrame) (zlen raw)) with (i + n) by lia. symmetry. apply (zsub_join raw 0 i n); lia.
Qed.

Lemma encode_total level raw fuel : forall i out, 0 <= i -> (0 < fuel)%nat -> zlen raw - i <= kMaxFrame * (Z.of_nat fuel - 1) ->
  exists r, encode_from fuel raw level i out = Some r.
Proof.
  induction fuel as [|fuel IH]; intros i out Hi H0 Hf; [lia|]. cbn [encode_from].
  case_match; b2p; [by eexists|]. destruct (ZSTD_compress _ _); [|by eexists]. unfold kMaxFrame in *. apply IH; lia.
Qed.
Lemma encode_fuel raw level : exists r, encode_from (S (S (Z.to_nat (zlen raw / kMaxFrame)))) raw level 0 [] = Some r.
Proof.
  pose proof (zlen_nonneg raw). apply encode_total; [lia..|]. pose proof (Z.div_pos (zlen raw) kMaxFrame ltac:(lia) ltac:(done)).
  pose proof (Z.div_mod (zlen raw) kMaxFrame ltac:(done)). pose proof (Z.mod_pos_bound (zlen raw) kMaxFrame ltac:(done)). unfold kMaxFrame in *. lia.
Qed.

(** What is written decodes to its input. *)
Lemma frames_roundtrip raw level : ZstdLaw -> frames_fit raw level -> encodeZstdFrames raw level <> [] ->
  decompressFrames (encodeZstdFrames raw level) (zlen raw) = raw.
Proof.
  intros Hlaw Hfit Hne. unfold decompressFrames, encodeZstdFrames in *.
  destruct (encode_from _ raw level 0 []) as [r|] eqn:E; [|done].
  destruct (encode_walk level raw _ Hlaw Hfit 0 [] r ltac:(lia) eq_refl E Hne) as (tail & -> & Hw). cbn [app] in *.
  rewrite Z.min_l in Hw by (pose proof (zlen_nonneg raw); lia). change (zsub raw 0 0) with (@nil Z) in Hw. change (zlen []) with 0 in Hw. by rewrite Hw by lia.
Qed.

(** One frame that is smaller than its input always fits. *)
Lemma frames_fit_small raw level : zlen raw <= kMaxFrame -> zlen (encodeZstdFrames raw level) < zlen raw -> encodeZstdFrames raw level <> [] ->
  frames_fit raw level.
Proof.
  intros Hs Hl Hne i z Hi Hm. rewrite Z.mod_small in Hm by lia. subst i. rewrite Z.sub_0_r, Z.min_r by lia. intros Ez.
  unfold encodeZstdFrames in *. set (k := Z.to_nat (zlen raw / kMaxFrame)) in *.
  remember (S k) as k1 eqn:Ek. cbn [encode_from] in *. rewrite (proj2 (Z.leb_gt _ _)), Z.sub_0_r, Z.min_r, Ez in * by lia. subst k1.
  cbn [encode_from app] in *. rewrite (proj2 (Z.leb_le _ _)) in * by lia. rewrite zlen_frame_of in Hl. lia.
Qed.

(** The container, kept only where it is shorter than its input. *)
Lemma shrink_decodes raw level : ZstdLaw -> (kMaxFrame < zlen raw -> frames_fit raw level) ->
  let z := encodeZstdFrames raw level in
  let pay := if bytes_eqb z [] || (zlen raw <=? zlen z) then raw else z in
  pay = raw \/ (zlen pay < zlen raw /\ decompressFrames pay (zlen raw) = raw).
Proof.
  intros Hlaw Hfit. cbn zeta. destruct (_ || _)%bool eqn:E; [by left|]. b2p. right.
  match goal with H : bytes_eqb _ _ = false |- _ => apply bool_decide_eq_false in H end. split; [done|]. apply frames_roundtrip; [done| |done].
  destruct (Z.le_gt_cases (zlen raw) kMaxFrame); [by apply frames_fit_small|by apply Hfit].
Qed.
End walk.

(** ** A chunk that does not shrink

    A codec in the way of ZSTD: a run of zeros compresses to one byte, anything else
    is stored behind a one-byte header - so a chunk of the frame limit that does not compress
    takes 2^24 bytes, and the frame's 24-bit size field holds 0. *)
Definition stored : Codecs := {|
  lzma_stream_buffer_decode := fun _ _ => None; uncompress := fun _ _ => None; LZ4_decompress_safe := fun _ _ => None; have_lz4 := false;
  ZSTD_compress := fun c _ => Some (if bool_decide (c = zeros (zlen c)) then [0] else 1 :: c);
  ZSTD_decompress := fun z u => match z with 0 :: _ => Some (zeros u) | 1 :: c => Some c | _ => None end |}.
Definition ones (n : Z) : bytes := replicate (Z.to_nat n) 1.

Lemma stored_law : ZstdLaw (CD := stored).
Proof. intros c level z [= <-]. case_bool_decide as E; cbn; [by rewrite <- E|done]. Qed.
Lemma zlen_ones n : 0 <= n -> zlen (ones n) = n.
Proof. intros. unfold ones, zlen. rewrite length_replicate. lia. Qed.
Lemma ones_not_zeros n : 0 < n -> ones n <> zeros (zlen (ones n)).
Proof.
  intros Hn E. apply (f_equal (fun l => zget l 0)) in E. rewrite zget_zeros in E. unfold ones, zget in E.
  change (Z.to_nat 0) with 0%nat in E. destruct (Z.to_nat n) eqn:En; [lia|done].
Qed.

Lemma stored_encode k raw : k = kMaxFrame -> raw = ones k ++ zeros k ->
  encodeZstdFrames (CD := stored) raw 1 = frame_of (1 :: ones k) k ++ frame_of [0] k.
Proof.
  intros Hk ->. assert (0 < k) as H0 by (subst k; done). pose proof (zlen_ones k ltac:(lia)) as L1. pose proof (zlen_zeros k ltac:(lia)) as L0.
  assert (zlen (ones k ++ zeros k) = 2 * k) as L by (rewrite zlen_app; lia).
  unfold encodeZstdFrames. rewrite L, <- Hk. replace (2 * k / k) with 2 by (symmetry; apply Z.div_mul; lia).
  change (S (S (Z.to_nat 2))) with 4%nat.
  assert (forall f i out, encode_from (CD := stored) (S f) (ones k ++ zeros k) 1 i out =
    if 2 * k <=? i then Some out else
      match ZSTD_compress (Codecs := stored) (zsub (ones k ++ zeros k) i (Z.min k (2 * k - i))) 1 with
      | None => Some []
      | Some z => encode_from (CD := stored) f (ones k ++ zeros k) 1 (i + k) (out ++ frame_of z (Z.min k (2 * k - i)))
      end) as St.
  { intros. cbn [encode_from]. by rewrite L, <- Hk. }
  rewrite St, (proj2 (Z.leb_gt _ _)) by lia. rewrite Z.min_l by lia. rewrite zsub_app by lia.
  change (ZSTD_compress (Codecs := stored) (ones k) 1) with (Some (if bool_decide (ones k = zeros (zlen (ones k))) then [0] else 1 :: ones k)).
  rewrite bool_decide_false by (by apply ones_not_zeros).
  rewrite St, (proj2 (Z.leb_gt _ _)) by lia. replace (Z.min k (2 * k - (0 + k))) with k by lia.
  rewrite zsub_app_r by lia. replace (0 + k - zlen (ones k)) with 0 by lia. rewrite zsub_all by lia.
  change (ZSTD_compress (Codecs := stored) (zeros k) 1) with (Some (if bool_decide (zeros k = zeros (zlen (zeros k))) then [0] else 1 :: zeros k)).
  rewrite bool_decide_true by (by rewrite L0).
  rewrite St, (proj2 (Z.leb_le _ _)) by lia. done.
Qed.

Lemma stored_wraps k : k = kMaxFrame ->
  let raw := ones k ++ zeros k in
  encodeZstdFrames (CD := stored) raw 1 <> [] /\ zlen (encodeZstdFrames (CD := stored) raw 1) < zlen raw /\
  decompressFrames (CD := stored) (encodeZstdFrames (CD := stored) raw 1) (zlen raw) = [].
Proof.
  intros Hk raw. unfold raw. clear raw. assert (0 < k) as H0 by (subst k; done).
  rewrite (stored_encode k _ Hk eq_refl).
  pose proof (zlen_ones k ltac:(lia)) as L1. pose proof (zlen_zeros k ltac:(lia)) as L0.
  assert (zlen (1 :: ones k) = 2 ^ 24) as Lz by (rewrite zlen_cons, L1, Hk; done).
  split; [done|]. split.
  { rewrite !zlen_app, !zlen_frame_of, Lz, L1, L0, Hk. done. }
  unfold decompressFrames. rewrite (zlen_app (ones k)), L1, L0. cbn [frames]. change (zlen []) with 0. rewrite (proj2 (Z.ltb_lt _ _)) by lia.
  assert (exists w x, frame_of (1 :: ones k) k ++ frame_of [0] k = [90; 83; 1; 0; 0; 0] ++ w ++ x /\ zlen w = 3) as (w & x & E & Lw).
  { exists (put24 k), ((1 :: ones k) ++ frame_of [0] k). split; [|done]. unfold frame_of at 1. rewrite Lz. change (put24 (2 ^ 24)) with [0; 0; 0]. by rewrite <- !app_assoc. }
  assert (frame_at (CD := stored) (frame_of (1 :: ones k) k ++ frame_of [0] k) 0 = None) as ->; [|done].
  rewrite E. unfold frame_at. destruct (zlen _ <? 0 + 9); [done|].
  change (get24 ([90; 83; 1; 0; 0; 0] ++ w ++ x) (0 + 3)) with 0. destruct (zlen _ <? 0 + 9 + 0); [done|].
  change (zget ([90; 83; 1; 0; 0; 0] ++ w ++ x) 0) with 90. by change (zget ([90; 83; 1; 0; 0; 0] ++ w ++ x) (0 + 1)) with 83.
Qed.

(** a frame's size field has 24 bits, and nothing checks that the compressed
    chunk fits it. There are a codec that inverts itself and an input whose container is
    shorter than the input - so a caller that keeps it only when it shrinks keeps it - and
    yet does not decode: the first chunk, of the frame limit, did not compress. *)
Theorem frame_size_wraps : exists (CD : Codecs) (raw : bytes) (level : Z),
  ZstdLaw /\ encodeZstdFrames raw level <> [] /\ zlen (encodeZstdFrames raw level) < zlen raw /\
  decompressFrames (encodeZstdFrames raw level) (zlen raw) = [].
Proof. exists stored, (ones kMaxFrame ++ zeros kMaxFrame), 1. split; [exact stored_law|exact (stored_wraps kMaxFrame eq_refl)]. Qed.
End Root.
