(* ===== verification/TreeMeta.v ===== *)
(** * The structural parse of a TTree file (src/transpose/TreeMeta.h, TreeMeta.cc)

    From a file's header to its directory record, its keys list, the live tree key, and the
    streamed tree with the basket tables of its branches. The bytes come from the network: every
    read the code makes of a buffer goes through [peek] (the record) or [fld] (a buffer of
    the container), which tell apart a read inside from one outside. *)

From S2P Require Import Prelude UrlKey RootFile.

Module TreeData.
Import Root.

(** ** What is extracted *)
Record BranchInfo := mkBranch {
  b_name : bytes; writeBasket : Z; maxBaskets : Z; b_entries : Z; basketSeek : list Z; basketBytes : list Z; basketEntry : list Z;
  leafClass : bytes; leafTitle : bytes; leafCount : bytes; seekArrayOff : Z; bytesArrayOff : Z; compress : Z;
  b_zipBytes : Z; b_zipBytesOff : Z; externalFile : bool }.
Record FileMeta := mkFile {
  f_large : bool; fend : Z; keyslistSeek : Z; dirSeekKeysOff : Z; headerSeekWidth : Z; dirSeekWidth : Z; treeKey : KeyInfo; treeBlob : bytes;
  f_entries : Z; autoFlush : Z; autoFlushOff : Z; zipBytes : Z; zipBytesOff : Z; clusterRangeEnd : list Z; clusterSize : list Z;
  branches : list BranchInfo; f_error : bytes }.
Definition no_branch : BranchInfo := mkBranch [] 0 0 0 [] [] [] [] [] [] 0 0 0 0 0 false.
Definition branch_at (fm : FileMeta) (b : Z) : BranchInfo := nth (Z.to_nat b) (branches fm) no_branch.

End TreeData.

Module Tree.
Import Root TreeData.

Definition kByteCountMask : Z := 2 ^ 30.
Definition kNewClassTag : Z := p32 - 1.
Definition kClassMask : Z := p31.
Definition kIsReferenced : Z := Z.shiftl 1 4.

(** ** The cursor. [oob]: a byte outside the record was read; [stuck]: a loop ran out of fuel. *)
Record Cur := mkCur {
  at_ : Z; fail_ : bool; why : bytes; oob : bool; stuck : bool; classRefs : list (Z * bytes); leafRegistry : list (Z * bytes);
  cur_b : BranchInfo; out_branches : list BranchInfo }.
Definition new_cur : Cur := mkCur 0 false [] false false [] [] no_branch [].
Definition set_at (a : Z) (c : Cur) : Cur := mkCur a (fail_ c) (why c) (oob c) (stuck c) (classRefs c) (leafRegistry c) (cur_b c) (out_branches c).
Definition set_fail (w : bytes) (c : Cur) : Cur := mkCur (at_ c) true w (oob c) (stuck c) (classRefs c) (leafRegistry c) (cur_b c) (out_branches c).
Definition set_oob (c : Cur) : Cur := mkCur (at_ c) (fail_ c) (why c) true (stuck c) (classRefs c) (leafRegistry c) (cur_b c) (out_branches c).
Definition set_stuck (c : Cur) : Cur := mkCur (at_ c) (fail_ c) (why c) (oob c) true (classRefs c) (leafRegistry c) (cur_b c) (out_branches c).
Definition add_class (r : Z * bytes) (c : Cur) : Cur := mkCur (at_ c) (fail_ c) (why c) (oob c) (stuck c) (classRefs c ++ [r]) (leafRegistry c) (cur_b c) (out_branches c).
Definition add_leaf (r : Z * bytes) (c : Cur) : Cur := mkCur (at_ c) (fail_ c) (why c) (oob c) (stuck c) (classRefs c) (leafRegistry c ++ [r]) (cur_b c) (out_branches c).
Definition set_b (b : BranchInfo) (c : Cur) : Cur := mkCur (at_ c) (fail_ c) (why c) (oob c) (stuck c) (classRefs c) (leafRegistry c) b (out_branches c).
Definition push_branch (c : Cur) : Cur := mkCur (at_ c) (fail_ c) (why c) (oob c) (stuck c) (classRefs c) (leafRegistry c) (cur_b c) (out_branches c ++ [cur_b c]).

(** One entry of a streamed array. *)
Record AnyObj := mkAny { null : bool; ref : Z; o_cls : bytes; o_end : Z; tagPos : Z }.

Section cursor.
Context (p : bytes) (keylen : Z).
Open Scope io_scope.

Definition here : M Cur Z := fun c => (at_ c, c).
Definition failed : M Cur bool := fun c => (fail_ c, c).
Definition the_why : M Cur bytes := fun c => (why c, c).
Definition jump (a : Z) : M Cur unit := fun c => (tt, set_at a c).
Definition fail_with (w : bytes) : M Cur unit := fun c => (tt, set_fail w c).
Definition upd (f : Cur -> Cur) : M Cur unit := fun c => (tt, f c).
Definition peek (n : nat) (off : Z) : M Cur Z :=
  fun c => (beGet n p off, if (0 <=? off) && (off + Z.of_nat n <=? zlen p) then c else set_oob c).
Definition peekS (n : nat) (off : Z) : M Cur Z := do v <- peek n off; ret (signed n v).

Definition need (k : Z) : M Cur bool :=
  fun c => if fail_ c || (zlen p <? at_ c +% k)
           then (false, if fail_ c then c else set_fail (bs "truncated at " ++ UrlKey.to_string (at_ c)) c)
           else (true, c).
Definition get (n : nat) : M Cur Z :=
  do ok <- need (Z.of_nat n);
  if (ok : bool) then
    do a <- here;
    do v <- peek n a;
    do_ jump (a +% Z.of_nat n);
    ret v
  else ret 0.
Definition getS (n : nat) : M Cur Z := do v <- get n; ret (signed n v).
Definition skip (k : Z) : M Cur unit :=
  do ok <- need k;
  if (ok : bool) then do a <- here; jump (a +% k) else ret tt.
Definition tstring : M Cur bytes :=
  do len <- get 1;
  do len <- (if len =? 255 then get 4 else ret len);
  do ok <- need len;
  if (ok : bool) then
    do a <- here;
    do_ jump (a +% len);
    ret (zsub p a len)
  else ret [].
(** The end of the object and its version; both 0 when the byte count is missing. *)
Definition objHeader (what : bytes) : M Cur (Z * Z) :=
  do bc <- get 4;
  if Z.land bc kByteCountMask =? 0 then do_ fail_with (what ++ bs ": missing byte count"); ret (0, 0)
  else
    do a <- here;
    do v <- get 2;
    ret (a +% Z.land bc (p32 - 1 - kByteCountMask), v).
Definition skipObj (what : bytes) : M Cur unit :=
  do ev <- objHeader what;
  do f <- failed;
  if (f : bool) then ret tt
  else
    do a <- here;
    do ok <- need (fst ev -% a);
    if (ok : bool) then jump (fst ev) else ret tt.
Definition tobject : M Cur unit :=
  do_ get 2;
  do_ get 4;
  do bits <- get 4;
  if Z.land bits kIsReferenced =? 0 then ret tt else do_ get 2; ret tt.

(** The class name at the cursor, up to its NUL or the end of the record. *)
Fixpoint until_nul (l : bytes) : bytes :=
  match l with [] => [] | b :: l' => if b =? 0 then [] else b :: until_nul l' end.
Definition find_class (off : Z) (refs : list (Z * bytes)) : bytes :=
  match List.find (fun r : Z * bytes => fst r - 4 + keylen + 2 =? off) refs with Some (_, c) => c | None => [] end.
Definition readAny : M Cur AnyObj :=
  do tagPos <- here;
  do first <- get 4;
  if first =? 0 then ret (mkAny true 0 [] 0 tagPos)
  else if Z.land first kByteCountMask =? 0 then ret (mkAny false first [] 0 tagPos)
  else
    do a <- here;
    let end_ := a +% Z.land first (p32 - 1 - kByteCountMask) in
    do tag <- get 4;
    if tag =? kNewClassTag then
      do namePos <- here;
      do f <- failed;
      let cls := if (f : bool) then [] else until_nul (drop (Z.to_nat namePos) p) in
      do_ jump (namePos +% zlen cls);
      do_ skip 1;
      do_ upd (add_class (w32 namePos, cls));
      ret (mkAny false 0 cls end_ tagPos)
    else if negb (Z.land tag kClassMask =? 0) then
      do cls <- (fun c => (find_class (Z.land tag (p32 - 1 - kClassMask)) (classRefs c), c));
      ret (mkAny false 0 (match cls with [] => bs "?ref" | _ => cls end) end_ tagPos)
    else
      do_ fail_with (bs "object tag without class at " ++ UrlKey.to_string tagPos);
      ret (mkAny false 0 [] end_ tagPos).

(** [for (int32_t i = 0; i < size && !c.fail_; ++i)]: [false] when the element said so. *)
Fixpoint elements (fuel : nat) (element : AnyObj -> M Cur bool) (i size : Z) : M Cur bool :=
  match fuel with
  | O => do_ upd set_stuck; ret false
  | S fuel' =>
      do f <- failed;
      if negb (i <? size) || f then ret true
      else
        do o <- readAny;
        if null o || negb (ref o =? 0) then elements fuel' element (i + 1) size
        else
          do ok <- element o;
          if negb ok then ret false
          else
            do f <- failed;
            do_ (if (f : bool) then ret tt else jump (o_end o));
            elements fuel' element (i + 1) size
  end.
Definition objArray (what : bytes) (element : AnyObj -> M Cur bool) : M Cur bool :=
  do ev <- objHeader what;
  do f <- failed;
  if (f : bool) then ret false
  else if negb (snd ev =? 3) then
    do_ fail_with (what ++ bs ": TObjArray v" ++ UrlKey.to_string (snd ev) ++ bs " unsupported"); ret false
  else
    do_ tobject;
    do_ tstring;
    do size <- getS 4;
    do_ getS 4;
    do ok <- elements (S (S (length p))) element 0 size;
    if negb ok then ret false
    else
      do_ jump (fst ev);
      do f <- failed;
      ret (negb f).

(** ** Leaves, branches, the tree *)
Definition with_leafClass (cl : bytes) (b : BranchInfo) : BranchInfo := mkBranch (b_name b) (writeBasket b) (maxBaskets b) (b_entries b) (basketSeek b)
  (basketBytes b) (basketEntry b) cl (leafTitle b) (leafCount b) (seekArrayOff b) (bytesArrayOff b) (compress b) (b_zipBytes b) (b_zipBytesOff b) (externalFile b).
Definition with_leafTitle (t : bytes) (b : BranchInfo) : BranchInfo := mkBranch (b_name b) (writeBasket b) (maxBaskets b) (b_entries b) (basketSeek b)
  (basketBytes b) (basketEntry b) (leafClass b) t (leafCount b) (seekArrayOff b) (bytesArrayOff b) (compress b) (b_zipBytes b) (b_zipBytesOff b) (externalFile b).
Definition with_leafCount (n : bytes) (b : BranchInfo) : BranchInfo := mkBranch (b_name b) (writeBasket b) (maxBaskets b) (b_entries b) (basketSeek b)
  (basketBytes b) (basketEntry b) (leafClass b) (leafTitle b) n (seekArrayOff b) (bytesArrayOff b) (compress b) (b_zipBytes b) (b_zipBytesOff b) (externalFile b).
Definition with_head (name : bytes) (wb mb cp en zb zo : Z) (b : BranchInfo) : BranchInfo := mkBranch name wb mb en (basketSeek b)
  (basketBytes b) (basketEntry b) (leafClass b) (leafTitle b) (leafCount b) (seekArrayOff b) (bytesArrayOff b) cp zb zo (externalFile b).
Definition with_arrays (seeks lens ents : list Z) (so bo : Z) (ext : bool) (b : BranchInfo) : BranchInfo := mkBranch (b_name b) (writeBasket b) (maxBaskets b) (b_entries b) seeks
  lens ents (leafClass b) (leafTitle b) (leafCount b) so bo (compress b) (b_zipBytes b) (b_zipBytesOff b) ext.
Definition upd_b (f : BranchInfo -> BranchInfo) : M Cur unit := upd (fun c => set_b (f (cur_b c)) c).
Definition the_b : M Cur BranchInfo := fun c => (cur_b c, c).

Definition parseLeaf (o : AnyObj) : M Cur bool :=
  do_ upd_b (with_leafClass (o_cls o));
  do_ objHeader (bs "TLeafX");
  do ev <- objHeader (bs "TLeaf");
  do f <- failed;
  if (f : bool) then ret false
  else if negb (snd ev =? 2) then do_ fail_with (bs "TLeaf v" ++ UrlKey.to_string (snd ev) ++ bs " unsupported"); ret false
  else
    do_ objHeader (bs "TNamed");
    do_ tobject;
    do name <- tstring;
    do title <- tstring;
    do_ upd_b (with_leafTitle title);
    do_ upd (add_leaf (w32 (tagPos o), name));
    do_ skip (4 * 3 + 2);
    do cnt <- readAny;
    do_ (if negb (ref cnt =? 0) then
           fun c => match List.find (fun r : Z * bytes => fst r + keylen + 2 =? ref cnt) (leafRegistry c) with
                    | Some (_, nm) => upd_b (with_leafCount nm) c
                    | None => (tt, c)
                    end
         else do f <- failed; if negb (null cnt) && negb f then jump (o_end cnt) else ret tt);
    do f <- failed;
    ret (negb f).

(** [n] fields of a table, one after the other. *)
Fixpoint table (k : nat) (a : Z) (n : nat) : M Cur (list Z) :=
  match n with
  | O => ret []
  | S n' => do v <- peekS k a; do l <- table k (a + Z.of_nat k) n'; ret (v :: l)
  end.
Definition no_subbranch (o : AnyObj) : M Cur bool := do_ fail_with (bs "sub-branches unsupported (flat trees only)"); ret false.

(** What is read of a branch before its arrays of objects. *)
Definition branch_head : M Cur unit :=
  do_ objHeader (bs "TNamed");
  do_ tobject;
  do name <- tstring;
  do_ tstring;
  do_ skipObj (bs "TAttFill");
  do_ skip (4 * 4 + 8);
  do f <- failed;
  if (f : bool) then ret tt
  else
    do a <- here;
    do cp <- peekS 4 (a - 24);
    do wb <- peekS 4 (a - 12);
    do_ skipObj (bs "TIOFeatures");
    do_ skip 4;
    do mb <- get 4;
    do_ skip 4;
    do en <- getS 8;
    do_ skip (8 * 3);
    do f <- failed;
    if (f : bool) then ret tt
    else
      do a <- here;
      do zb <- peekS 8 (a - 8);
      upd_b (with_head name wb mb cp en zb (a - 8)).

(** The three tables, each sized fMaxBaskets, and whether a file name follows. *)
Definition branch_tables (end_ : Z) : M Cur bool :=
  do b <- the_b;
  let nb := Z.to_nat (writeBasket b) in
  do_ skip 1;
  do bo <- here;
  do ok <- need (4 * maxBaskets b);
  if negb ok then ret false
  else
    do lens <- table 4 bo nb;
    do_ skip (4 * maxBaskets b);
    do_ skip 1;
    do ok <- need (8 * maxBaskets b);
    if negb ok then ret false
    else
      do eo <- here;
      do ents <- table 8 eo (Z.to_nat (Z.min (writeBasket b + 1) (maxBaskets b)));
      let ents := ents ++ replicate (S nb - length ents) (b_entries b) in
      let ents := if (0 <? writeBasket b) && (zget ents (writeBasket b) <? zget ents (writeBasket b - 1))
                  then zset ents (writeBasket b) (b_entries b) else ents in
      do_ skip (8 * maxBaskets b);
      do_ skip 1;
      do so <- here;
      do ok <- need (8 * maxBaskets b);
      if negb ok then ret false
      else
        do seeks <- table 8 so nb;
        let fn := so +% 8 * maxBaskets b in
        do ext <- (if (fn <? end_) && (fn <? zlen p) then do v <- peek 1 fn; ret (negb (v =? 0)) else ret false);
        do_ upd_b (with_arrays seeks lens ents so bo ext);
        ret true.

Definition parseBranch (_ : AnyObj) : M Cur bool :=
  do ev <- objHeader (bs "TBranch");
  do f <- failed;
  if (f : bool) then ret false
  else if negb (snd ev =? 13) then do_ fail_with (bs "TBranch v" ++ UrlKey.to_string (snd ev) ++ bs " unsupported"); ret false
  else
    do_ upd_b (fun _ => no_branch);
    do_ branch_head;
    do f <- failed;
    if (f : bool) then ret false
    else
      do ok <- objArray (bs "fBranches(sub)") no_subbranch;
      if negb ok then ret false
      else
        do ok <- objArray (bs "fLeaves") parseLeaf;
        if negb ok then ret false
        else
          do_ skipObj (bs "fBaskets");
          do b <- the_b;
          do f <- failed;
          if (2 ^ 24 <? maxBaskets b) || f then
            do w <- the_why;
            do_ fail_with (match w with [] => bs "implausible fMaxBaskets" | _ => w end);
            ret false
          else if (writeBasket b <? 0) || (maxBaskets b <? w32 (writeBasket b)) then
            do_ fail_with (bs "implausible fWriteBasket"); ret false
          else
            do ok <- branch_tables (fst ev);
            if negb ok then ret false
            else
              do_ jump (fst ev);
              do_ upd push_branch;
              ret true.

(** The fields of the tree before its cluster arrays: entries, compressed bytes, auto-flush, with
    the offsets of the last two, and how many cluster ranges. *)
Record TreeHead := mkHead { h_entries : Z; h_zipBytes : Z; h_zipBytesOff : Z; h_nCluster : Z; h_autoFlush : Z; h_autoFlushOff : Z }.
Definition tree_head : M Cur TreeHead :=
  do en <- getS 8;
  do ok <- need 16;
  do a <- here;
  do zb <- (if (ok : bool) then peekS 8 (a + 8) else ret 0);
  let zo := if (ok : bool) then a + 8 else 0 in
  do_ skip (4 * 8 + 8 + 4 * 4);
  do nc <- get 4;
  do_ skip (4 * 8);
  do ao <- here;
  do af <- getS 8;
  do_ skip 8;
  ret (mkHead en zb zo nc af ao).
Definition cluster_array (n : Z) : M Cur (list Z) :=
  do_ skip 1;
  do ok <- need (8 * n);
  if negb ok then ret []
  else
    do a <- here;
    do l <- table 8 a (Z.to_nat n);
    do_ skip (8 * n);
    ret l.
Definition branch_element (o : AnyObj) : M Cur bool :=
  if bytes_eqb (o_cls o) (bs "TBranch") then parseBranch o
  else do_ fail_with (bs "branch class " ++ o_cls o ++ bs " unsupported"); ret false.

(** What the walk leaves: the reason the tree is refused ([None]: it is not), with the fields read up to there. *)
Record Walk := mkWalk { w_why : option bytes; w_head : TreeHead; w_ends : list Z; w_sizes : list Z }.
Definition no_head : TreeHead := mkHead 0 0 0 0 0 0.
Definition tree_walk : M Cur Walk :=
  do ev <- objHeader (bs "TTree");
  do f <- failed;
  do w <- the_why;
  if f || negb (snd ev =? 20)
  then ret (mkWalk (Some (if (f : bool) then w else bs "TTree v" ++ UrlKey.to_string (snd ev) ++ bs " unsupported")) no_head [] [])
  else
    do_ skipObj (bs "TNamed");
    do_ skipObj (bs "TAttLine");
    do_ skipObj (bs "TAttFill");
    do_ skipObj (bs "TAttMarker");
    do h <- tree_head;
    if 2 ^ 20 <? h_nCluster h then ret (mkWalk (Some (bs "implausible fNClusterRange")) h [] [])
    else
      do ends <- cluster_array (h_nCluster h);
      do sizes <- cluster_array (h_nCluster h);
      do f <- failed;
      do w <- the_why;
      if (f : bool) then ret (mkWalk (Some w) h ends sizes)
      else
        do_ skipObj (bs "TIOFeatures");
        do ok <- objArray (bs "fBranches") branch_element;
        do f <- failed;
        do w <- the_why;
        if negb ok then ret (mkWalk (Some (match w with [] => bs "branch walk failed" | _ => w end)) h ends sizes)
        else if (f : bool) then ret (mkWalk (Some w) h ends sizes)
        else ret (mkWalk None h ends sizes).
End cursor.

Definition with_walk (fm : FileMeta) (h : TreeHead) (ends sizes : list Z) (brs : list BranchInfo) (why : bytes) : FileMeta :=
  mkFile (f_large fm) (fend fm) (keyslistSeek fm) (dirSeekKeysOff fm) (headerSeekWidth fm) (dirSeekWidth fm) (treeKey fm) (treeBlob fm)
    (h_entries h) (h_autoFlush h) (h_autoFlushOff h) (h_zipBytes h) (h_zipBytesOff h) ends sizes brs why.
(** A refused file: the walk's fields are left at their defaults, no branch is kept. *)
Definition refused (fm : FileMeta) (why : bytes) : FileMeta := with_walk fm no_head [] [] [] why.
(** [fm] carries no walk yet, as its one caller passes it. *)
Definition parseTreeBlob (blob : bytes) (keylen : Z) (fm : FileMeta) : FileMeta * Cur :=
  let '(r, c) := tree_walk blob keylen new_cur in
  (with_walk fm (w_head r) (w_ends r) (w_sizes r) (match w_why r with None => out_branches c | Some _ => [] end) (default [] (w_why r)), c).

(** ** The container *)
Record ContainerMeta := mkContainer {
  c_large : bool; c_fend : Z; c_keyslistSeek : Z; c_dirSeekKeysOff : Z; c_headerSeekWidth : Z; c_dirSeekWidth : Z; fileSize : Z;
  keys : list KeyInfo; c_error : bytes }.
(** A field of a buffer; [Oob] is a read outside it. *)
Inductive Res (A : Type) := Bad (why : bytes) | Oob | Good (a : A).
Arguments Bad {A} why. Arguments Oob {A}. Arguments Good {A} a.
Definition fld {A} (n : nat) (buf : bytes) (off : Z) (k : Z -> Res A) : Res A :=
  if (0 <=? off) && (off + Z.of_nat n <=? zlen buf) then k (beGet n buf off) else Oob.

(** A string inline in the directory record: the position after it. *)
Definition pstr (head : bytes) (at_ : Z) : Res Z :=
  if zlen head <=? at_ then Bad (bs "directory record out of bounds")
  else
    fld 1 head at_ (fun len =>
      let fin (at_ len : Z) := if zlen head - at_ <? len then Bad (bs "directory record out of bounds") else Good (at_ + len) in
      if len =? 255 then
        if zlen head <? at_ + 1 + 4 then Bad (bs "directory record out of bounds")
        else fld 4 head (at_ + 1) (fun len => fin (at_ + 1 + 4) len)
      else fin (at_ + 1) len).
(** The keys list's offset, where that field is, and its width. *)
Definition dir_record (head : bytes) : Res (Z * Z * Z) :=
  match parseKey head 100 with
  | None => Bad (bs "no root directory key")
  | Some dk =>
      match pstr head (100 + keylen dk) with
      | Bad w => Bad w | Oob => Oob
      | Good q =>
          match pstr head q with
          | Bad w => Bad w | Oob => Oob
          | Good q =>
              if zlen head <? q + 2 then Bad (bs "directory record out of bounds")
              else
                fld 2 head q (fun dver =>
                  let w := if 1000 <? dver then 8 else 4 in
                  let q := q + (2 + 4 + 4 + 4 + 4) + w * 2 in
                  if zlen head <? q + w then Bad (bs "directory record out of bounds")
                  else fld (Z.to_nat w) head q (fun v => Good (signed (Z.to_nat w) v, q, w)))
          end
      end
  end.
(** The entries, until one does not parse or cannot be stepped over. *)
Fixpoint key_entries (fuel : nat) (buf : bytes) (i n at_ : Z) : option (list KeyInfo) :=
  match fuel with
  | O => None
  | S fuel' =>
      if i <? n then
        match parseKey buf at_ with
        | None => Some []
        | Some e => if keylen e <? 29 then Some [e] else (fun l => e :: l) <$> key_entries fuel' buf (i + 1) n (at_ + keylen e)
        end
      else Some []
  end.

Class Reader (W : Type) := { rd : Z -> Z -> M W (option bytes); size : Z }.
(** A byte source with presence semantics, and the reader over one. *)
Class Source (W : Type) := { has : Z -> Z -> M W bool; src_read : Z -> Z -> M W (option bytes) }.
Definition source_reader {W} `{!Source W} (sz : Z) : Reader W := {|
  rd n off := if off <? 0 then mret_ None else mbind_ (has off n) (fun ok => if (ok : bool) then src_read n off else mret_ None);
  size := sz |}.
Section reader.
Context {W : Type} `{!Reader W}.
Open Scope io_scope.

Definition refuse (c : ContainerMeta) (why : bytes) : ContainerMeta :=
  mkContainer (c_large c) (c_fend c) (c_keyslistSeek c) (c_dirSeekKeysOff c) (c_headerSeekWidth c) (c_dirSeekWidth c) (fileSize c) [] why.
Definition container_head (c : ContainerMeta) (head : bytes) : Res ContainerMeta :=
  fld 4 head 4 (fun v =>
    let large := 1000000 <? signed 4 v in
    let w := if large then 8 else 4 in
    fld (Z.to_nat w) head 12 (fun e => Good (mkContainer large (signed (Z.to_nat w) e) 0 0 w 8 (fileSize c) [] []))).
Definition keys_head (ks : Z) : M W (option KeyInfo) :=
  if (ks <? 0) || (size <=? ks) then ret None
  else
    let n := Z.min 4096 (size - ks) in
    if n <? 34 then ret None
    else
      do r <- rd n ks;
      ret (match r with None => None | Some buf => parseKey buf 0 end).
(** The keys of the list, with the reason they cannot be had. *)
Definition keys_list (ks : Z) : M W (Res (list KeyInfo)) :=
  do kl <- keys_head ks;
  match kl with
  | None => ret (Bad (bs "cannot read keys list"))
  | Some kl =>
      if (nbytes kl <=? 0) || (w32 (nbytes kl) <? keylen kl + 4) || (ks <? 0) || (size - ks <? nbytes kl)
      then ret (Bad (bs "keys-list key geometry implausible"))
      else
        do r <- rd (nbytes kl) ks;
        match r with
        | None => ret (Bad (bs "short keys list read"))
        | Some buf =>
            ret (fld 4 buf (keylen kl) (fun n =>
              match key_entries (S (length buf)) buf 0 (signed 4 n) (keylen kl + 4) with Some l => Good l | None => Oob end))
        end
  end.
Definition parseContainerFrom : M W (Res ContainerMeta) :=
  let c0 := mkContainer false 0 0 0 8 8 size [] [] in
  let n := Z.max 0 (Z.min size 512) in
  if n <? 20 then ret (Good (refuse c0 (bs "not a ROOT file")))
  else
    do r <- rd n 0;
    match r with
    | None => ret (Good (refuse c0 (bs "not a ROOT file")))
    | Some head =>
        if negb (bytes_eqb (zsub head 0 4) (bs "root")) then ret (Good (refuse c0 (bs "not a ROOT file")))
        else
          match container_head c0 head with
          | Bad w => ret (Good (refuse c0 w)) | Oob => ret Oob
          | Good c =>
              match dir_record head with
              | Bad w => ret (Good (refuse c w)) | Oob => ret Oob
              | Good (ks, off, w) =>
                  let c := mkContainer (c_large c) (c_fend c) ks off (c_headerSeekWidth c) w (fileSize c) [] [] in
                  do l <- keys_list ks;
                  match l with
                  | Bad w => ret (Good (refuse c w)) | Oob => ret Oob
                  | Good l => ret (Good (mkContainer (c_large c) (c_fend c) ks off (c_headerSeekWidth c) (c_dirSeekWidth c) (fileSize c) l []))
                  end
              end
          end
    end.

(** A key's payload; [true]: the source could not vouch for the bytes. *)
Definition readKeyPayloadFrom `{CD : Codecs} (k : KeyInfo) : M W (bytes * bool) :=
  if (nbytes k <=? 0) || (nbytes k <? keylen k) || (objlen k <? 0) || (seekkey k <? 0) then ret ([], false)
  else
    do r <- rd (nbytes k) (seekkey k);
    match r with
    | None => ret ([], true)
    | Some rec =>
        let pay := zsub rec (keylen k) (zlen rec - keylen k) in
        let out := if objlen k =? nbytes k - keylen k then pay else decompressFrames pay (objlen k) in
        ret (if zlen out =? objlen k then out else [], false)
    end.

Definition no_key : KeyInfo := mkKey 0 0 0 0 0 0 [] [] [].
(** The live key of the tree: the highest cycle, the later of equals. *)
Definition live_key (tree : bytes) (l : list KeyInfo) : KeyInfo :=
  foldl (fun best e => if bytes_eqb (cls e) (bs "TTree") && bytes_eqb (name e) tree && (cycle best <=? cycle e) then e else best) no_key l.
Definition parseTreeFrom `{CD : Codecs} (tree : bytes) : M W (Res FileMeta) :=
  do r <- parseContainerFrom;
  match r with
  | Bad w => ret (Bad w) | Oob => ret Oob
  | Good cm =>
      let fm := mkFile (c_large cm) (c_fend cm) (c_keyslistSeek cm) (c_dirSeekKeysOff cm) (c_headerSeekWidth cm) (c_dirSeekWidth cm)
                  no_key [] 0 0 0 0 0 [] [] [] [] in
      if negb (bytes_eqb (c_error cm) []) then ret (Good (refused fm (c_error cm)))
      else
        let k := live_key tree (keys cm) in
        let with_tree blob := mkFile (f_large fm) (fend fm) (keyslistSeek fm) (dirSeekKeysOff fm) (headerSeekWidth fm) (dirSeekWidth fm)
                                k blob 0 0 0 0 0 [] [] [] [] in
        if nbytes k =? 0 then ret (Good (refused (with_tree []) (bs "tree '" ++ tree ++ bs "' not found in keys list")))
        else if (nbytes k <? 0) || (nbytes k <? keylen k) || (objlen k <? 0) || (seekkey k <? 0) || (fileSize cm - seekkey k <? nbytes k)
        then ret (Good (refused (with_tree []) (bs "tree key geometry implausible")))
        else
          do ou <- readKeyPayloadFrom k;
          let '(blob, unreadable) := ou in
          if (unreadable : bool) then ret (Good (refused (with_tree blob) (bs "tree record not readable")))
          else if negb (zlen blob =? objlen k) then ret (Good (refused (with_tree blob) (bs "tree metadata decompression failed")))
          else
            let '(fm, c) := parseTreeBlob blob (keylen k) (with_tree blob) in
            ret (if oob c || stuck c then Oob else Good fm)
  end.

(** The tree a reader opens: "Events", or the first tree of the keys list (ReadMap.cc). *)
Fixpoint starts (w l : bytes) : bool :=
  match w, l with [], _ => true | a :: w', b :: l' => (a =? b) && starts w' l' | _ :: _, [] => false end.
Fixpoint found (w l : bytes) : bool := starts w l || match l with [] => false | _ :: l' => found w l' end.
Definition parseReaderTree `{CD : Codecs} : M W (Res FileMeta) :=
  do r <- parseTreeFrom (bs "Events");
  match r with
  | Good fm =>
      if negb (bytes_eqb (f_error fm) []) && found (bs "not found") (f_error fm) then
        do c <- parseContainerFrom;
        match c with
        | Bad w => ret (Bad w) | Oob => ret Oob
        | Good cm =>
            match List.find (fun k => bytes_eqb (cls k) (bs "TTree")) (keys cm) with
            | Some k => parseTreeFrom (name k)
            | None => ret (Good fm)
            end
        end
      else ret (Good fm)
  | r => ret r
  end.
End reader.
End Tree.
