(* ===== verification/TreeSafe.v ===== *)
(** * The parse of a TTree record is safe on any bytes (src/transpose/TreeMeta.cc)

    Whatever the record holds, no byte outside it is read, every loop ends, and the tables of an
    accepted branch lie inside the record and are what was read there. *)

From S2P Require Import Prelude UrlKey RootFile TreeMeta.

Module TreeSafe.
Import Root TreeData Tree.

Section safe.
Context (p : bytes) (keylen : Z).
Hypotheses (Hp : Forall is_byte p) (Hn : zlen p < p31).

(** ** What an accepted branch satisfies *)
Record head_ok (b : BranchInfo) : Prop := {
  hd_max : 0 <= maxBaskets b < p32;
  hd_write : - p31 <= writeBasket b < p31;
  hd_zip : 0 <= b_zipBytesOff b /\ b_zipBytesOff b + 8 <= zlen p /\ b_zipBytes b = beGetS 8 p (b_zipBytesOff b) }.
Record branch_ok (b : BranchInfo) : Prop := {
  br_head : head_ok b;
  br_write : 0 <= writeBasket b <= maxBaskets b;
  br_max : maxBaskets b <= 2 ^ 24;
  br_lens : 0 <= bytesArrayOff b /\ basketBytes b = (fun i => beGetS 4 p (bytesArrayOff b + 4 * i)) <$> zrange 0 (writeBasket b);
  br_seeks : bytesArrayOff b + 4 * maxBaskets b <= seekArrayOff b /\ seekArrayOff b + 8 * maxBaskets b <= zlen p /\
             basketSeek b = (fun i => beGetS 8 p (seekArrayOff b + 8 * i)) <$> zrange 0 (writeBasket b);
  br_entries : zlen (basketEntry b) = writeBasket b + 1 }.
Record inv (c : Cur) : Prop := {
  i_oob : oob c = false; i_stuck : stuck c = false; i_at : 0 <= at_ c < 2 ^ 33; i_out : Forall branch_ok (out_branches c);
  i_why : fail_ c = true -> why c <> [] }.

(** ** Reasoning about the cursor *)
Lemma app_ne_l {A} (a b : list A) : a <> [] -> a ++ b <> [].
Proof using. by destruct a. Qed.
Lemma app_ne_r {A} (a b : list A) : b <> [] -> a ++ b <> [].
Proof using. by destruct a. Qed.
Ltac nonempty := first [discriminate | apply app_ne_l; nonempty | apply app_ne_r; nonempty | done].
Definition wp {A} (c : Cur) (m : M Cur A) (Q : A -> Cur -> Prop) : Prop :=
  inv (snd (m c)) /\ (fail_ c = true -> fail_ (snd (m c)) = true) /\ Q (fst (m c)) (snd (m c)).
Lemma wp_bind {A B} c (m : M Cur A) (k : A -> M Cur B) (P : A -> Cur -> Prop) Q : wp c m P ->
  (forall a c', inv c' -> (fail_ c = true -> fail_ c' = true) -> P a c' -> wp c' (k a) Q) -> wp c (mbind_ m k) Q.
Proof.
  intros (I & F & H) K. unfold wp, mbind_. destruct (m c) as [a c'] eqn:E. cbn [fst snd] in *. destruct (K a c' I F H) as (I' & F' & H').
  split; [done|]. split; [|done]. intros Hc. by apply F', F.
Qed.
Lemma wp_ret {A} c (a : A) (Q : A -> Cur -> Prop) : inv c -> Q a c -> wp c (mret_ a) Q.
Proof. intros I H. by split. Qed.
Lemma wp_mono {A} c (m : M Cur A) (P Q : A -> Cur -> Prop) : wp c m P -> (forall a c', inv c' -> P a c' -> Q a c') -> wp c m Q.
Proof. intros (I & F & H) K. split; [done|]. split; [done|]. by apply K. Qed.

(** Reads and moves leave the branch being read alone. *)
Definition keep (c c' : Cur) : Prop := cur_b c' = cur_b c.
Lemma need_ok c k : inv c -> wp c (need p k) (fun ok c' => keep c c' /\ at_ c' = at_ c /\ (ok = true -> c' = c /\ fail_ c = false /\ at_ c +% k <= zlen p) /\ (ok = false -> fail_ c' = true)).
Proof.
  intros I. unfold need, wp, keep. destruct (fail_ c || (zlen p <? at_ c +% k)) eqn:E; cbn [fst snd].
  - destruct (fail_ c) eqn:F; cbn [fail_ set_fail at_ cur_b].
    + split; [done|]. split; [by rewrite F|]. split; [done|]. split; [done|]. split; [done|]. done.
    + destruct I. split; [split; cbn; done || nonempty|]. split; [done|]. split; [done|]. split; [done|]. by split.
  - apply orb_false_iff in E as [F E]. b2p. split; [done|]. split; [done|]. split; [done|]. split; [done|]. split; [|done]. intros _. by split.
Qed.
Lemma here_ok c (Q : Z -> Cur -> Prop) : inv c -> Q (at_ c) c -> wp c here Q.
Proof. intros I H. by split. Qed.
Lemma failed_ok c (Q : bool -> Cur -> Prop) : inv c -> Q (fail_ c) c -> wp c failed Q.
Proof. intros I H. by split. Qed.
Lemma the_why_ok c (Q : bytes -> Cur -> Prop) : inv c -> Q (why c) c -> wp c the_why Q.
Proof. intros I H. by split. Qed.
Lemma the_b_ok c (Q : BranchInfo -> Cur -> Prop) : inv c -> Q (cur_b c) c -> wp c the_b Q.
Proof. intros I H. by split. Qed.
Lemma jump_ok c a (Q : unit -> Cur -> Prop) : inv c -> 0 <= a < 2 ^ 33 -> Q tt (set_at a c) -> wp c (jump a) Q.
Proof. intros [] Ha H. split; [by split|by split]. Qed.
Lemma fail_with_ok c w (Q : unit -> Cur -> Prop) : inv c -> w <> [] -> Q tt (set_fail w c) -> wp c (fail_with w) Q.
Proof. intros [] H. split; [by split|by split]. Qed.
Lemma upd_b_ok c f (Q : unit -> Cur -> Prop) : inv c -> Q tt (set_b (f (cur_b c)) c) -> wp c (upd_b f) Q.
Proof. intros [] H. split; [by split|by split]. Qed.
Lemma peek_ok c n off (Q : Z -> Cur -> Prop) : inv c -> 0 <= off -> off + Z.of_nat n <= zlen p -> Q (beGet n p off) c -> wp c (peek p n off) Q.
Proof.
  intros I H0 H1 H. unfold peek, wp. rewrite (proj2 (Z.leb_le 0 off)), (proj2 (Z.leb_le (off + _) _)) by lia. by split.
Qed.
Lemma peekS_ok c n off (Q : Z -> Cur -> Prop) : inv c -> 0 <= off -> off + Z.of_nat n <= zlen p -> Q (beGetS n p off) c -> wp c (peekS p n off) Q.
Proof. intros I H0 H1 H. unfold peekS. eapply wp_bind; [apply (peek_ok c n off (fun v c' => v = beGet n p off /\ c' = c)); done|]. intros v c' _ _ [-> ->]. by apply wp_ret. Qed.

Lemma beGet_range n off : 0 <= beGet n p off < 2 ^ (8 * Z.of_nat n).
Proof using Hp.
  rewrite beGet_eq by done. assert (Forall is_byte (rev (zsub p off (Z.of_nat n)))) as Hr by (apply Forall_rev; by apply Forall_zsub).
  pose proof (le_val_range _ Hr) as [? Hu]. split; [done|]. eapply Z.lt_le_trans; [exact Hu|]. rewrite <- pow8.
  apply Z.pow_le_mono_r; [lia|]. unfold zlen. rewrite length_rev. apply (zlen_zsub_le p off (Z.of_nat n)). lia.
Qed.
(** What a read at the cursor gives: a value in range, and, unless it failed, the cursor past it. *)
Definition moved (c c' : Cur) (k : Z) : Prop := keep c c' /\ (fail_ c' = false -> fail_ c = false /\ at_ c' = at_ c + k /\ at_ c' <= zlen p).
Lemma get_ok c n : (n <= 8)%nat -> inv c -> wp c (get p n) (fun v c' => 0 <= v < 2 ^ (8 * Z.of_nat n) /\ moved c c' (Z.of_nat n) /\ (fail_ c' = true -> v = 0)).
Proof using Hp Hn.
  intros Hn8 I. pose proof (i_at c I) as A. unfold get. eapply wp_bind; [by apply need_ok|]. intros ok c' I' _ (K & Ea & T & Fa). destruct ok.
  - destruct (T eq_refl) as (-> & F & L). rewrite w64_small in L by lia. eapply wp_bind; [apply (here_ok c (fun a c' => a = at_ c /\ c' = c)); done|]. intros av c' _ _ [-> ->].
    eapply wp_bind; [apply (peek_ok c n (at_ c) (fun v c' => v = beGet n p (at_ c) /\ c' = c)); done || lia|]. intros v c' _ _ [-> ->].
    eapply wp_bind; [apply (jump_ok c _ (fun _ c' => c' = set_at (at_ c + Z.of_nat n) c)); [done| |]; rewrite w64_small by lia; [lia|done]|]. intros ? c' I2 _ ->.
    apply wp_ret; [done|]. split; [apply beGet_range|]. split; [|cbn; congruence]. split; [done|]. cbn. intros _. by split; [|lia].
  - apply wp_ret; [done|]. split; [pose proof (Z.pow_pos_nonneg 2 (8 * Z.of_nat n) ltac:(lia) ltac:(lia)); lia|]. split; [|done]. split; [done|]. intros F. rewrite Fa in F; done.
Qed.
Lemma getS_ok c n : (0 < n <= 8)%nat -> inv c -> wp c (getS p n) (fun v c' => - 2 ^ (8 * Z.of_nat n - 1) <= v < 2 ^ (8 * Z.of_nat n - 1) /\ moved c c' (Z.of_nat n)).
Proof using Hp Hn.
  intros Hn8 I. unfold getS. eapply wp_bind; [apply get_ok; [lia|done]|]. intros v c' I' _ (R & Mv & _). apply wp_ret; [done|]. split; [|done]. apply signed_range; [lia|done].
Qed.
Lemma skip_ok c k : 0 <= k < 2 ^ 35 -> inv c -> wp c (skip p k) (fun _ c' => moved c c' k).
Proof using Hn.
  intros Hk I. pose proof (i_at c I) as A. unfold skip. eapply wp_bind; [by apply need_ok|]. intros ok c' I' _ (K & Ea & T & Fa). destruct ok.
  - destruct (T eq_refl) as (-> & F & L). rewrite w64_small in L by lia. eapply wp_bind; [apply (here_ok c (fun a c' => a = at_ c /\ c' = c)); done|]. intros av c' _ _ [-> ->].
    apply jump_ok; [done| |]; rewrite w64_small by lia; [lia|]. split; [done|]. cbn. intros _. by split; [|lia].
  - apply wp_ret; [done|]. split; [done|]. intros F. rewrite Fa in F; done.
Qed.
Lemma moved_trans c c1 c2 a b : moved c c1 a -> moved c1 c2 b -> moved c c2 (a + b).
Proof using. intros [K1 M1] [K2 M2]. split; [unfold keep in *; congruence|]. intros F. destruct (M2 F) as (F1 & E2 & L2). destruct (M1 F1) as (F0 & E1 & L1). split; [done|]. lia. Qed.

(** The cursor went on by [k] at least, unless something failed. *)
Definition ahead (c c' : Cur) (k : Z) : Prop := keep c c' /\ (fail_ c' = false -> fail_ c = false /\ at_ c + k <= at_ c' <= zlen p).
Lemma moved_ahead c c' k : moved c c' k -> ahead c c' k.
Proof using. intros [K M]. split; [done|]. intros F. destruct (M F) as (? & ? & ?). split; [done|]. lia. Qed.
Lemma ahead_trans c c1 c2 a b k : ahead c c1 a -> ahead c1 c2 b -> k <= a + b -> ahead c c2 k.
Proof using. intros [K1 M1] [K2 M2] L. split; [unfold keep in *; congruence|]. intros F. destruct (M2 F) as (F1 & L2). destruct (M1 F1) as (F0 & L1). split; [done|]. lia. Qed.
Lemma ahead_refl c : inv c -> (fail_ c = false -> at_ c <= zlen p) -> ahead c c 0.
Proof using. intros I H. split; [done|]. intros F. split; [done|]. specialize (H F). lia. Qed.
Lemma land_bound32 a b : 0 <= a < p32 -> 0 <= b -> 0 <= Z.land a b < p32.
Proof using.
  intros Ha Hb. assert (0 <= Z.land a b) as H0 by (apply Z.land_nonneg; lia). split; [done|]. destruct (Z.le_gt_cases (Z.land a b) 0); [lia|].
  change p32 with (2 ^ 32) in *. apply Z.log2_lt_pow2; [done|]. pose proof (Z.log2_land a b ltac:(lia) Hb). destruct (decide (a = 0)) as [->|N]; [rewrite Z.land_0_l in *; lia|].
  assert (Z.log2 a < 32) by (apply Z.log2_lt_pow2; lia). lia.
Qed.

Lemma tstring_ok c : inv c -> wp c (tstring p) (fun _ c' => ahead c c' 1).
Proof using Hp Hn.
  intros I. unfold tstring. eapply wp_bind; [by apply get_ok; [lia|]|]. intros len c1 I1 _ (R1 & M1 & _). apply moved_ahead in M1.
  apply (wp_bind _ _ _ (fun len c' => 0 <= len < p32 /\ ahead c c' 1)).
  { destruct (len =? 255).
    - eapply wp_mono; [by apply get_ok; [lia|]|]. intros v c2 I2 (R2 & M2 & _). split; [done|]. eapply ahead_trans; [exact M1|by apply moved_ahead|lia].
    - apply wp_ret; [done|]. cbn in R1. split; [lia|done]. }
  intros len2 c2 I2 _ (R2 & A2). pose proof (i_at c2 I2) as B2. eapply wp_bind; [by apply need_ok|]. intros ok c3 I3 _ (K & Ea & T & Fa). destruct ok.
  - destruct (T eq_refl) as (-> & F & L). rewrite w64_small in L by lia. eapply wp_bind; [apply (here_ok c2 (fun a c' => a = at_ c2 /\ c' = c2)); done|]. intros av c' _ _ [-> ->].
    eapply wp_bind; [apply (jump_ok c2 _ (fun _ c' => c' = set_at (at_ c2 + len2) c2)); [done| |]; rewrite w64_small by lia; [lia|done]|]. intros ? c' I4 _ ->.
    apply wp_ret; [done|]. destruct A2 as [K2 A2]. split; [done|]. cbn. intros F'. destruct (A2 F'). split; [done|]. lia.
  - apply wp_ret; [done|]. destruct A2 as [K2 A2]. split; [unfold keep in *; congruence|]. intros F. rewrite Fa in F; done.
Qed.
Lemma objHeader_ok c what : inv c -> wp c (objHeader p what) (fun ev c' => 0 <= fst ev < 2 ^ 33 /\ moved c c' 6 /\ (fail_ c' = false -> at_ c + 4 <= fst ev)).
Proof using Hp Hn.
  intros I. unfold objHeader. eapply wp_bind; [by apply get_ok; [lia|]|]. intros bc c1 I1 F1 (R1 & M1 & Z1). destruct (Z.land bc kByteCountMask =? 0) eqn:E.
  { eapply wp_bind; [apply (fail_with_ok c1 _ (fun _ c' => c' = set_fail (what ++ bs ": missing byte count") c1)); [done|nonempty|done]|]. intros ? c2 I2 _ ->. apply wp_ret; [done|]. cbn. split; [lia|].
    split; [split; [apply M1|done]|done]. }
  assert (fail_ c1 = false) as F1' by (destruct (fail_ c1) eqn:Ef; [|done]; rewrite (Z1 eq_refl) in E; done). destruct M1 as [K1 M1]. destruct (M1 F1') as (F0 & E1 & L1).
  eapply wp_bind; [apply (here_ok c1 (fun a c' => a = at_ c1 /\ c' = c1)); done|]. intros av c' _ _ [-> ->]. eapply wp_bind; [by apply get_ok; [lia|]|]. intros v c2 I2 _ (R2 & [K2 M2] & _).
  pose proof (land_bound32 bc (p32 - 1 - kByteCountMask) R1 ltac:(unfold kByteCountMask; lia)) as LB. pose proof (i_at c1 I1). apply wp_ret; [done|]. cbn [fst]. rewrite w64_small by lia. split; [lia|]. split; [|lia].
  split; [unfold keep in *; congruence|]. intros F2. destruct (M2 F2) as (_ & E2 & L2). split; [done|]. lia.
Qed.
Lemma skipObj_ok c what : inv c -> wp c (skipObj p what) (fun _ c' => ahead c c' 4).
Proof using Hp Hn.
  intros I. unfold skipObj. eapply wp_bind; [by apply objHeader_ok|]. intros ev c1 I1 _ (R & [K M] & E). eapply wp_bind; [apply (failed_ok c1 (fun f c' => f = fail_ c1 /\ c' = c1)); done|].
  intros f c' _ _ [-> ->]. destruct (fail_ c1) eqn:F; [apply wp_ret; [done|]; split; [done|congruence]|]. destruct (M eq_refl) as (F0 & Ea & L). specialize (E eq_refl).
  eapply wp_bind; [apply (here_ok c1 (fun a c' => a = at_ c1 /\ c' = c1)); done|]. intros av c' _ _ [-> ->]. eapply wp_bind; [by apply need_ok|]. intros ok c2 I2 _ (K2 & _ & T & Fa). destruct ok.
  - destruct (T eq_refl) as (-> & _ & L2). assert (at_ c1 +% (fst ev -% at_ c1) = fst ev) as Ew.
    { unfold w64; rewrite Zplus_mod_idemp_r. replace (at_ c1 + (fst ev - at_ c1)) with (fst ev) by lia. apply Z.mod_small. lia. }
    rewrite Ew in L2. apply jump_ok; [done|done|]. split; [done|]. cbn. intros _. split; [done|]. lia.
  - apply wp_ret; [done|]. split; [unfold keep in *; congruence|]. intros F2. rewrite Fa in F2; done.
Qed.
Lemma tobject_ok c : inv c -> wp c (tobject p) (fun _ c' => ahead c c' 10).
Proof using Hp Hn.
  intros I. unfold tobject. eapply wp_bind; [by apply get_ok; [lia|]|]. intros v1 c1 I1 _ (_ & M1 & _). eapply wp_bind; [by apply get_ok; [lia|]|]. intros v2 c2 I2 _ (_ & M2 & _).
  eapply wp_bind; [by apply get_ok; [lia|]|]. intros v3 c3 I3 _ (_ & M3 & _). pose proof (moved_trans _ _ _ _ _ (moved_trans _ _ _ _ _ M1 M2) M3) as M.
  destruct (_ =? 0).
  - apply wp_ret; [done|]. by apply moved_ahead in M.
  - eapply wp_bind; [by apply get_ok; [lia|]|]. intros v4 c4 I4 _ (_ & M4 & _). apply wp_ret; [done|]. eapply ahead_trans; [by apply moved_ahead|by apply moved_ahead|cbn; lia].
Qed.

Lemma until_nul_len l : zlen (until_nul l) <= zlen l.
Proof using. induction l as [|b l IH]; cbn [until_nul]; [done|]. case_match; rewrite ?zlen_cons; pose proof (zlen_nonneg l); [change (zlen (@nil Z)) with 0|]; lia. Qed.
(** An entry of a streamed array starts with four bytes; an object ends after them. *)
Lemma readAny_ok c : inv c -> wp c (readAny p keylen) (fun o c' => keep c c' /\ 0 <= o_end o < 2 ^ 33 /\
  (fail_ c' = false -> fail_ c = false /\ at_ c + 4 <= zlen p /\ (if null o || negb (ref o =? 0) then at_ c' = at_ c + 4 else at_ c + 4 <= o_end o))).
Proof using Hp Hn.
  intros I. unfold readAny. eapply wp_bind; [apply (here_ok c (fun a c' => a = at_ c /\ c' = c)); done|]. intros tp c' _ _ [-> ->].
  eapply wp_bind; [by apply get_ok; [lia|]|]. intros first c1 I1 _ (R1 & [K1 M1] & Z1). destruct (first =? 0) eqn:E0; b2p.
  { apply wp_ret; [done|]. split; [done|]. cbn [o_end null orb]. split; [lia|]. intros F. destruct (M1 F) as (F0 & E & L). split; [done|]. split; lia. }
  assert (fail_ c1 = false) as F1 by (destruct (fail_ c1) eqn:Ef; [|done]; by rewrite (Z1 eq_refl) in E0). destruct (M1 F1) as (F0 & E1 & L1). pose proof (i_at c1 I1).
  destruct (Z.land first kByteCountMask =? 0) eqn:Em.
  { apply wp_ret; [done|]. split; [done|]. cbn [o_end null ref orb]. split; [lia|]. intros _. split; [done|]. split; [lia|]. rewrite (proj2 (Z.eqb_neq first 0)) by done. cbn [negb]. lia. }
  eapply wp_bind; [apply (here_ok c1 (fun a c' => a = at_ c1 /\ c' = c1)); done|]. intros av c' _ _ [-> ->].
  pose proof (land_bound32 first (p32 - 1 - kByteCountMask) R1 ltac:(unfold kByteCountMask; lia)) as LB. rewrite (w64_small (at_ c1 + _)) by lia. set (e := at_ c1 + Z.land first _) in *.
  eapply wp_bind; [by apply get_ok; [lia|]|]. intros tag c2 I2 _ (R2 & [K2 M2] & _). pose proof (i_at c2 I2) as A2.
  assert (forall c', keep c2 c' -> (fail_ c' = false -> fail_ c2 = false) -> forall cl, keep c c' /\ 0 <= o_end (mkAny false 0 cl e (at_ c)) < 2 ^ 33 /\
    (fail_ c' = false -> fail_ c = false /\ at_ c + 4 <= zlen p /\ (if null (mkAny false 0 cl e (at_ c)) || negb (ref (mkAny false 0 cl e (at_ c)) =? 0) then at_ c' = at_ c + 4 else at_ c + 4 <= o_end (mkAny false 0 cl e (at_ c))))) as Post.
  { intros c' K Ff cl. split; [unfold keep in *; congruence|]. cbn [o_end null ref orb]. split; [lia|]. intros F. split; [done|]. split; [lia|]. cbn. lia. }
  destruct (tag =? kNewClassTag).
  - eapply wp_bind; [apply (here_ok c2 (fun a c' => a = at_ c2 /\ c' = c2)); done|]. intros av c' _ _ [-> ->]. eapply wp_bind; [apply (failed_ok c2 (fun f c' => f = fail_ c2 /\ c' = c2)); done|].
    intros f c' _ _ [-> ->]. set (cl := if fail_ c2 then [] else _). assert (0 <= zlen cl <= zlen p) as Lc.
    { split; [apply zlen_nonneg|]. unfold cl. destruct (fail_ c2); [apply (zlen_nonneg p)|]. etransitivity; [apply until_nul_len|]. unfold zlen. rewrite length_drop. lia. }
    eapply wp_bind; [apply (jump_ok c2 _ (fun _ c' => c' = set_at (at_ c2 + zlen cl) c2)); [done| |]|].
    + rewrite w64_small by lia. destruct (fail_ c2) eqn:Ef; [subst cl; change (zlen (@nil Z)) with 0; lia|]. destruct (M2 eq_refl) as (_ & ? & ?). lia.
    + rewrite w64_small by lia. done.
    + intros ? c3 I3 _ ->. eapply wp_bind; [by apply skip_ok; [lia|]|]. intros ? c4 I4 F4 [K4 M4]. eapply wp_bind; [apply (wp_mono _ _ (fun _ c' => c' = add_class (w32 (at_ c2), cl) c4)); [destruct I4; split; [by split|]; by split|intros ? ? _ H'; exact H']|].
      intros ? c5 I5 _ ->. apply wp_ret; [done|]. apply Post; [done|]. cbn. intros F. destruct (M4 F) as (F' & _). exact F'.
  - destruct (negb _).
    + eapply wp_bind; [apply (wp_mono _ _ (fun _ c' => c' = c2)); [by split|intros ? ? _ H'; exact H']|]. intros cl c' _ _ ->. apply wp_ret; [done|]. by apply Post.
    + eapply wp_bind; [apply (fail_with_ok c2 _ (fun _ c' => c' = set_fail (bs "object tag without class at " ++ UrlKey.to_string (at_ c)) c2)); [done|nonempty|done]|]. intros ? c' I' _ ->.
      apply wp_ret; [done|]. apply Post; [done|]. done.
Qed.

(** ** Streamed arrays *)
Lemma elements_ok (J : BranchInfo -> Prop) element size : (forall o c, inv c -> J (cur_b c) -> 0 <= o_end o < 2 ^ 33 -> wp c (element o) (fun _ c' => J (cur_b c'))) ->
  forall fuel i c, inv c -> J (cur_b c) -> 1 <= Z.of_nat fuel -> (fail_ c = false -> Z.max 0 (zlen p - at_ c) + 2 <= Z.of_nat fuel) ->
  wp c (elements p keylen fuel element i size) (fun _ c' => J (cur_b c') /\ (fail_ c' = false -> fail_ c = false)).
Proof using Hp Hn.
  intros He. induction fuel as [|fuel IH]; intros i c I HJ H1 Hf; [lia|]. cbn [elements].
  eapply wp_bind; [apply (failed_ok c (fun f c' => f = fail_ c /\ c' = c)); done|]. intros f c' _ _ [-> ->]. destruct (negb (i <? size) || fail_ c) eqn:Eg; [by apply wp_ret|].
  apply orb_false_iff in Eg as [_ F0]. specialize (Hf F0). eapply wp_bind; [by apply readAny_ok|]. intros o c1 I1 _ (K1 & Ro & P1). unfold keep in K1.
  destruct (null o || negb (ref o =? 0)) eqn:Eo.
  { eapply wp_mono; [apply IH; [done|by rewrite K1|lia|]|]. 
    - intros F1. destruct (P1 F1) as (_ & L & E). lia.
    - intros ok c2 I2 [H2 _]. by split. }
  eapply wp_bind; [apply He; [done|by rewrite K1|done]|]. intros ok c2 I2 F2 J2. destruct ok; cbn [negb]; [|by apply wp_ret].
  eapply wp_bind; [apply (failed_ok c2 (fun f c' => f = fail_ c2 /\ c' = c2)); done|]. intros f c' _ _ [-> ->].
  apply (wp_bind _ _ _ (fun _ c' => cur_b c' = cur_b c2 /\ fail_ c' = fail_ c2 /\ (fail_ c2 = false -> at_ c' = o_end o))).
  { destruct (fail_ c2) eqn:F; [by apply wp_ret|]. by apply jump_ok. }
  intros ? c3 I3 _ (K3 & F3 & A3). eapply wp_mono; [apply IH; [done|by rewrite K3|lia|]|intros ok c4 I4 [H4 _]; by split].
  intros Ff. rewrite F3 in Ff. rewrite (A3 Ff). destruct (fail_ c1) eqn:F1; [by rewrite (F2 eq_refl) in Ff|]. destruct (P1 eq_refl) as (_ & L & E). lia.
Qed.
Lemma objArray_ok (J : BranchInfo -> Prop) what element : (forall o c, inv c -> J (cur_b c) -> 0 <= o_end o < 2 ^ 33 -> wp c (element o) (fun _ c' => J (cur_b c'))) ->
  forall c, inv c -> J (cur_b c) -> wp c (objArray p keylen what element) (fun _ c' => J (cur_b c')).
Proof using Hp Hn.
  intros He c I HJ. unfold objArray. eapply wp_bind; [by apply objHeader_ok|]. intros ev c1 I1 _ (R & [K1 M1] & _). unfold keep in K1.
  eapply wp_bind; [apply (failed_ok c1 (fun f c' => f = fail_ c1 /\ c' = c1)); done|]. intros f c' _ _ [-> ->]. destruct (fail_ c1) eqn:F1; [apply wp_ret; [done|by rewrite K1]|].
  destruct (negb (snd ev =? 3)).
  { eapply wp_bind; [apply (fail_with_ok c1 _ (fun _ c' => cur_b c' = cur_b c1)); [done|nonempty|done]|]. intros ? c2 I2 _ E. apply wp_ret; [done|]. by rewrite E, K1. }
  eapply wp_bind; [by apply tobject_ok|]. intros ? c2 I2 _ [K2 M2]. eapply wp_bind; [by apply tstring_ok|]. intros ? c3 I3 _ [K3 M3].
  eapply wp_bind; [by apply getS_ok; [lia|]|]. intros size c4 I4 _ (_ & K4 & M4). eapply wp_bind; [by apply getS_ok; [lia|]|]. intros low c5 I5 _ (_ & K5 & M5). unfold keep in *.
  eapply wp_bind; [apply (elements_ok J element size He); [done|by rewrite K5, K4, K3, K2, K1|lia|]|].
  { intros F. pose proof (i_at c5 I5). unfold zlen. lia. }
  intros ok c6 I6 _ [J6 _]. destruct ok; cbn [negb]; [|by apply wp_ret]. eapply wp_bind; [apply (jump_ok c6 _ (fun _ c' => cur_b c' = cur_b c6)); done|]. intros ? c7 I7 _ E7.
  eapply wp_bind; [apply (failed_ok c7 (fun f c' => c' = c7)); done|]. intros f c' _ _ ->. apply wp_ret; [done|]. by rewrite E7.
Qed.

(** ** A leaf *)
Lemma head_ok_ext b b' : maxBaskets b' = maxBaskets b -> writeBasket b' = writeBasket b -> b_zipBytesOff b' = b_zipBytesOff b -> b_zipBytes b' = b_zipBytes b -> head_ok b -> head_ok b'.
Proof using. intros E1 E2 E3 E4 []. split; rewrite ?E1, ?E2, ?E3, ?E4; done. Qed.
Lemma parseLeaf_ok o c : inv c -> head_ok (cur_b c) -> 0 <= o_end o < 2 ^ 33 -> wp c (parseLeaf p keylen o) (fun _ c' => head_ok (cur_b c')).
Proof using Hp Hn.
  intros I H _. unfold parseLeaf. eapply wp_bind; [apply (upd_b_ok c _ (fun _ c' => head_ok (cur_b c'))); [done|by apply (head_ok_ext (cur_b c))]|]. intros ? c1 I1 _ H1.
  eapply wp_bind; [by apply objHeader_ok|]. intros ev0 c2 I2 _ (_ & [K2 _] & _). eapply wp_bind; [by apply objHeader_ok|]. intros ev c3 I3 _ (_ & [K3 _] & _). unfold keep in *.
  eapply wp_bind; [apply (failed_ok c3 (fun f c' => c' = c3)); done|]. intros f c' _ _ ->. destruct f; [apply wp_ret; [done|by rewrite K3, K2]|].
  destruct (negb (snd ev =? 2)).
  { eapply wp_bind; [apply (fail_with_ok c3 _ (fun _ c' => cur_b c' = cur_b c3)); [done|nonempty|done]|]. intros ? c4 I4 _ E. apply wp_ret; [done|]. by rewrite E, K3, K2. }
  eapply wp_bind; [by apply objHeader_ok|]. intros ev1 c4 I4 _ (_ & [K4 _] & _). eapply wp_bind; [by apply tobject_ok|]. intros ? c5 I5 _ [K5 _].
  eapply wp_bind; [by apply tstring_ok|]. intros name c6 I6 _ [K6 _]. eapply wp_bind; [by apply tstring_ok|]. intros title c7 I7 _ [K7 _]. unfold keep in *.
  eapply wp_bind; [apply (upd_b_ok c7 _ (fun _ c' => head_ok (cur_b c'))); [done|]|].
  { cbn [cur_b set_b]. apply (head_ok_ext (cur_b c7)); [done..|]. by rewrite K7, K6, K5, K4, K3, K2. }
  intros ? c8 I8 _ H8. eapply wp_bind; [apply (wp_mono _ _ (fun _ c' => cur_b c' = cur_b c8)); [destruct I8; split; [by split|]; by split|intros ? ? _ H'; exact H']|].
  intros ? c9 I9 _ K9. eapply wp_bind; [by apply skip_ok; [lia|]|]. intros ? c10 I10 _ [K10 _]. eapply wp_bind; [by apply readAny_ok|]. intros cnt c11 I11 _ (K11 & Ro & _). unfold keep in *.
  assert (head_ok (cur_b c11)) as H11 by by rewrite K11, K10, K9.
  apply (wp_bind _ _ _ (fun _ c' => head_ok (cur_b c'))).
  { destruct (negb (ref cnt =? 0)).
    - unfold wp. destruct (List.find _ _) as [[pos nm]|]; [|by split]. destruct I11. cbn [fst snd upd_b upd]. split; [by split|]. split; [done|]. by apply (head_ok_ext (cur_b c11)).
    - eapply wp_bind; [apply (failed_ok c11 (fun f c' => c' = c11)); done|]. intros f c' _ _ ->. destruct (_ && _); [by apply jump_ok|by apply wp_ret]. }
  intros ? c12 I12 _ H12. eapply wp_bind; [apply (failed_ok c12 (fun f c' => c' = c12)); done|]. intros f c' _ _ ->. by apply wp_ret.
Qed.

(** ** Tables of fields *)
Lemma table_ok (k : nat) c : inv c -> (0 < k)%nat -> forall n a, 0 <= a -> a + Z.of_nat k * Z.of_nat n <= zlen p ->
  wp c (table p k a n) (fun l c' => c' = c /\ l = (fun i => beGetS k p (a + Z.of_nat k * i)) <$> zrange 0 (Z.of_nat n)).
Proof using.
  intros I Hk. induction n as [|n IH]; intros a Ha Hl; cbn [table].
  { apply wp_ret; [done|]. split; [done|]. by rewrite zrange_nil by lia. }
  eapply wp_bind; [apply (peekS_ok c k a (fun v c' => v = beGetS k p a /\ c' = c)); done || lia|]. intros v c' _ _ [-> ->].
  eapply wp_bind; [apply (IH (a + Z.of_nat k)); lia|]. intros l c' _ _ [-> ->]. apply wp_ret; [done|]. split; [done|].
  rewrite (zrange_cons 0 (Z.of_nat (S n))) by lia. cbn [fmap list_fmap]. rewrite Z.mul_0_r, Z.add_0_r. f_equal.
  replace (Z.of_nat (S n)) with (1 + Z.of_nat n) by lia. unfold zrange. replace (1 + Z.of_nat n - (0 + 1)) with (Z.of_nat n) by lia. rewrite Z.sub_0_r.
  replace (seqZ (0 + 1) (Z.of_nat n)) with (Z.add 1 <$> seqZ 0 (Z.of_nat n)) by (rewrite fmap_add_seqZ; f_equal; lia).
  rewrite <- list_fmap_compose. apply list_fmap_ext. intros j x _. cbn. f_equal. lia.
Qed.

(** ** A branch *)
Lemma branch_head_ok c : inv c -> wp c (branch_head p) (fun _ c' => fail_ c' = false -> head_ok (cur_b c')).
Proof using Hp Hn.
  intros I. unfold branch_head. eapply wp_bind; [by apply objHeader_ok|]. intros ? c1 I1 _ _. eapply wp_bind; [by apply tobject_ok|]. intros ? c2 I2 _ _.
  eapply wp_bind; [by apply tstring_ok|]. intros name c3 I3 _ _. eapply wp_bind; [by apply tstring_ok|]. intros ? c4 I4 _ _.
  eapply wp_bind; [by apply skipObj_ok|]. intros ? c5 I5 _ _. eapply wp_bind; [by apply skip_ok; [lia|]|]. intros ? c6 I6 _ [_ M6].
  eapply wp_bind; [apply (failed_ok c6 (fun f c' => f = fail_ c6 /\ c' = c6)); done|]. intros f c' _ _ [-> ->]. destruct (fail_ c6) eqn:F6; [apply wp_ret; [done|congruence]|].
  destruct (M6 eq_refl) as (F5 & E6 & L6). pose proof (i_at c5 I5). eapply wp_bind; [apply (here_ok c6 (fun a c' => a = at_ c6 /\ c' = c6)); done|]. intros ? c' _ _ [-> ->].
  eapply wp_bind; [apply (peekS_ok c6 4 (at_ c6 - 24) (fun v c' => c' = c6)); done || lia|]. intros cp c' _ _ ->.
  eapply wp_bind; [apply (peekS_ok c6 4 (at_ c6 - 12) (fun v c' => v = beGetS 4 p (at_ c6 - 12) /\ c' = c6)); done || lia|]. intros wb c' _ _ [-> ->].
  pose proof (signed_range 4 _ ltac:(lia) (beGet_range 4 (at_ c6 - 12))) as Rw. fold (beGetS 4 p (at_ c6 - 12)) in Rw. set (wb := beGetS 4 p (at_ c6 - 12)) in *.
  eapply wp_bind; [by apply skipObj_ok|]. intros ? c7 I7 _ _. eapply wp_bind; [by apply skip_ok; [lia|]|]. intros ? c8 I8 _ _. eapply wp_bind; [by apply get_ok; [lia|]|]. intros mb c9 I9 _ (Rm & _).
  eapply wp_bind; [by apply skip_ok; [lia|]|]. intros ? c10 I10 _ _. eapply wp_bind; [by apply getS_ok; [lia|]|]. intros en c11 I11 _ _. eapply wp_bind; [by apply skip_ok; [lia|]|]. intros ? c12 I12 _ [_ M12].
  eapply wp_bind; [apply (failed_ok c12 (fun f c' => f = fail_ c12 /\ c' = c12)); done|]. intros f c' _ _ [-> ->]. destruct (fail_ c12) eqn:F12; [apply wp_ret; [done|congruence]|].
  destruct (M12 eq_refl) as (F11 & E12 & L12). pose proof (i_at c11 I11). eapply wp_bind; [apply (here_ok c12 (fun a c' => a = at_ c12 /\ c' = c12)); done|]. intros ? c' _ _ [-> ->].
  eapply wp_bind; [apply (peekS_ok c12 8 (at_ c12 - 8) (fun v c' => v = beGetS 8 p (at_ c12 - 8) /\ c' = c12)); done || lia|]. intros zb c' _ _ [-> ->].
  apply upd_b_ok; [done|]. cbn [fail_ set_b cur_b]. intros _. split; cbn [maxBaskets writeBasket b_zipBytesOff b_zipBytes with_head]; [exact Rm|exact Rw|]. split; [lia|]. split; [lia|done].
Qed.
Lemma branch_tables_ok c end_ : inv c -> head_ok (cur_b c) -> 0 <= writeBasket (cur_b c) <= maxBaskets (cur_b c) -> maxBaskets (cur_b c) <= 2 ^ 24 ->
  wp c (branch_tables p end_) (fun ok c' => ok = true -> branch_ok (cur_b c')).
Proof using Hp Hn.
  intros I Hh Hw Hm. unfold branch_tables. eapply wp_bind; [apply (the_b_ok c (fun b c' => b = cur_b c /\ c' = c)); done|]. intros b c' _ _ [-> ->]. set (b := cur_b c) in *.
  eapply wp_bind; [by apply skip_ok; [lia|]|]. intros ? c1 I1 _ [K1 _]. eapply wp_bind; [apply (here_ok c1 (fun a c' => a = at_ c1 /\ c' = c1)); done|]. intros bo c' _ _ [-> ->]. pose proof (i_at c1 I1).
  eapply wp_bind; [by apply need_ok|]. intros ok c2 I2 _ (_ & _ & T & _). destruct ok; cbn [negb]; [|by apply wp_ret]. destruct (T eq_refl) as (-> & _ & L1). rewrite w64_small in L1 by lia.
  eapply wp_bind; [apply (table_ok 4 c1); [done|lia|lia|rewrite Z2Nat.id by lia; lia]|]. intros lens c' _ _ [-> Elens]. rewrite Z2Nat.id in Elens by lia.
  eapply wp_bind; [by apply skip_ok; [lia|]|]. intros ? c3 I3 _ M3. eapply wp_bind; [by apply skip_ok; [lia|]|]. intros ? c4 I4 _ M4.
  eapply wp_bind; [by apply need_ok|]. intros ok c5 I5 _ (_ & _ & T5 & _). destruct ok; cbn [negb]; [|by apply wp_ret]. destruct (T5 eq_refl) as (-> & F4 & L4). pose proof (i_at c4 I4). rewrite w64_small in L4 by lia.
  destruct (moved_trans _ _ _ _ _ M3 M4) as [K4 M4']. destruct (M4' F4) as (_ & E4 & _).
  eapply wp_bind; [apply (here_ok c4 (fun a c' => a = at_ c4 /\ c' = c4)); done|]. intros eo c' _ _ [-> ->].
  eapply wp_bind; [apply (table_ok 8 c4); [done|lia|lia|rewrite Z2Nat.id by lia; lia]|]. intros ents c' _ _ [-> Eents].
  assert (Z.of_nat (length ents) = Z.min (writeBasket b + 1) (maxBaskets b)) as Le.
  { rewrite Eents, length_fmap. pose proof (zlen_zrange 0 (Z.of_nat (Z.to_nat (Z.min (writeBasket b + 1) (maxBaskets b)))) ltac:(lia)) as Z. unfold zlen in Z. rewrite Z. lia. }
  set (ents1 := ents ++ _). assert (zlen ents1 = writeBasket b + 1) as Le1.
  { unfold ents1. rewrite zlen_app. unfold zlen. rewrite length_replicate. lia. }
  set (ents2 := if (0 <? writeBasket b) && (zget ents1 (writeBasket b) <? zget ents1 (writeBasket b - 1)) then zset ents1 (writeBasket b) (b_entries b) else ents1). assert (zlen ents2 = writeBasket b + 1) as Le2 by (unfold ents2; case_match; [by rewrite zlen_zset|done]).
  eapply wp_bind; [by apply skip_ok; [lia|]|]. intros ? c6 I6 _ M6. eapply wp_bind; [by apply skip_ok; [lia|]|]. intros ? c7 I7 _ M7.
  eapply wp_bind; [apply (here_ok c7 (fun a c' => a = at_ c7 /\ c' = c7)); done|]. intros so c' _ _ [-> ->]. pose proof (i_at c7 I7).
  eapply wp_bind; [by apply need_ok|]. intros ok c8 I8 _ (_ & _ & T8 & _). destruct ok; cbn [negb]; [|by apply wp_ret]. destruct (T8 eq_refl) as (-> & F7 & L7). rewrite w64_small in L7 by lia.
  destruct (moved_trans _ _ _ _ _ M6 M7) as [K7 M7']. destruct (M7' F7) as (_ & E7 & _).
  eapply wp_bind; [apply (table_ok 8 c7); [done|lia|lia|rewrite Z2Nat.id by lia; lia]|]. intros seeks c' _ _ [-> Eseeks]. rewrite Z2Nat.id in Eseeks by lia. rewrite (w64_small (at_ c7 + _)) by lia.
  apply (wp_bind _ _ _ (fun _ c' => c' = c7)).
  { destruct ((at_ c7 + 8 * maxBaskets b <? end_) && (at_ c7 + 8 * maxBaskets b <? zlen p)) eqn:E; [|by apply wp_ret]. b2p.
    eapply wp_bind; [apply (peek_ok c7 1 (at_ c7 + 8 * maxBaskets b) (fun v c' => c' = c7)); done || lia|]. intros v c' _ _ ->. by apply wp_ret. }
  intros ext c' _ _ ->. eapply wp_bind; [apply (upd_b_ok c7 _ (fun _ c' => cur_b c' = with_arrays seeks lens ents2 (at_ c7) (at_ c1) ext b)); [done|]|].
  { cbn [cur_b set_b]. unfold keep in *. by rewrite K7, K4, K1. }
  intros ? c9 I9 _ E9. apply wp_ret; [done|]. intros _. rewrite E9. split; cbn [writeBasket maxBaskets bytesArrayOff basketBytes seekArrayOff basketSeek basketEntry with_arrays].
  - by apply (head_ok_ext b).
  - done.
  - done.
  - split; [lia|done].
  - split; [lia|]. split; [lia|done].
  - done.
Qed.
Lemma parseBranch_ok o c : inv c -> wp c (parseBranch p keylen o) (fun _ _ => True).
Proof using Hp Hn.
  intros I. unfold parseBranch. eapply wp_bind; [by apply objHeader_ok|]. intros ev c1 I1 _ (Rev & _). eapply wp_bind; [apply (failed_ok c1 (fun f c' => c' = c1)); done|]. intros f c' _ _ ->.
  destruct f; [by apply wp_ret|]. destruct (negb (snd ev =? 13)); [eapply wp_bind; [apply (fail_with_ok c1 _ (fun _ _ => True)); [done|nonempty|done]|]; intros; by apply wp_ret|].
  eapply wp_bind; [by apply (upd_b_ok c1 _ (fun _ _ => True))|]. intros ? c2 I2 _ _. eapply wp_bind; [by apply branch_head_ok|]. intros ? c3 I3 _ H3.
  eapply wp_bind; [apply (failed_ok c3 (fun f c' => f = fail_ c3 /\ c' = c3)); done|]. intros f c' _ _ [-> ->]. destruct (fail_ c3) eqn:F3; [by apply wp_ret|]. specialize (H3 F3).
  eapply wp_bind; [apply (objArray_ok head_ok); [|done|done]|].
  { intros o' c0 I0 J0 _. unfold no_subbranch. eapply wp_bind; [apply (fail_with_ok c0 _ (fun _ c' => cur_b c' = cur_b c0)); [done|nonempty|done]|]. intros ? c' I' _ E. apply wp_ret; [done|]. by rewrite E. }
  intros ok c4 I4 _ H4. destruct ok; cbn [negb]; [|by apply wp_ret]. eapply wp_bind; [apply (objArray_ok head_ok); [|done|done]|].
  { intros o' c0 I0 J0 Ho. by apply parseLeaf_ok. }
  intros ok c5 I5 _ H5. destruct ok; cbn [negb]; [|by apply wp_ret]. eapply wp_bind; [by apply skipObj_ok|]. intros ? c6 I6 _ [K6 _]. unfold keep in K6.
  eapply wp_bind; [apply (the_b_ok c6 (fun b c' => b = cur_b c6 /\ c' = c6)); done|]. intros b c' _ _ [-> ->]. eapply wp_bind; [apply (failed_ok c6 (fun f c' => c' = c6)); done|]. intros f c' _ _ ->.
  destruct ((2 ^ 24 <? maxBaskets (cur_b c6)) || f) eqn:Em.
  { eapply wp_bind; [apply (the_why_ok c6 (fun _ c' => c' = c6)); done|]. intros w c' _ _ ->. eapply wp_bind; [apply (fail_with_ok c6 _ (fun _ _ => True)); [done|by destruct w|done]|]. intros. by apply wp_ret. }
  destruct ((writeBasket (cur_b c6) <? 0) || (maxBaskets (cur_b c6) <? w32 (writeBasket (cur_b c6)))) eqn:Ew.
  { eapply wp_bind; [apply (fail_with_ok c6 _ (fun _ _ => True)); [done|nonempty|done]|]. intros. by apply wp_ret. }
  b2p. rewrite <- K6 in H5. pose proof (hd_write _ H5). rewrite w32_small in * by lia.
  eapply wp_bind; [apply branch_tables_ok; [done|done|lia|lia]|]. intros ok c7 I7 _ H7. destruct ok; cbn [negb]; [|by apply wp_ret]. specialize (H7 eq_refl).
  eapply wp_bind; [apply (jump_ok c7 _ (fun _ c' => c' = set_at (fst ev) c7)); done|]. intros ? c8 I8 _ ->.
  apply (wp_bind _ _ _ (fun _ _ => True)); [|intros ? c9 I9 _ _; by apply (wp_ret c9 true (fun _ _ => True))]. destruct I8 as [O S A B Y]. cbn [oob stuck at_ out_branches set_at] in *.
  split; [|by split]. split; cbn; [done|done|done| |done]. apply Forall_app. split; [done|]. by constructor.
Qed.

(** ** The tree *)
Record walk_ok (h : TreeHead) (ends sizes : list Z) : Prop := {
  wk_zip : 0 <= h_zipBytesOff h /\ h_zipBytesOff h + 8 <= zlen p /\ h_zipBytes h = beGetS 8 p (h_zipBytesOff h);
  wk_flush : h_zipBytesOff h + 8 <= h_autoFlushOff h /\ h_autoFlushOff h + 8 <= zlen p;
  wk_clusters : 0 <= h_nCluster h <= 2 ^ 20 /\ zlen ends = h_nCluster h /\ zlen sizes = h_nCluster h }.
Lemma tree_head_ok c : inv c -> wp c (tree_head p) (fun h c' => 0 <= h_nCluster h /\ (fail_ c' = false ->
  (0 <= h_zipBytesOff h /\ h_zipBytesOff h + 8 <= zlen p /\ h_zipBytes h = beGetS 8 p (h_zipBytesOff h)) /\ h_zipBytesOff h + 8 <= h_autoFlushOff h /\ h_autoFlushOff h + 8 <= zlen p)).
Proof using Hp Hn.
  intros I. unfold tree_head. eapply wp_bind; [by apply getS_ok; [lia|]|]. intros en c1 I1 _ _. pose proof (i_at c1 I1) as A1. eapply wp_bind; [by apply need_ok|]. intros ok c2 I2 _ (_ & Ea & T & Fa).
  eapply wp_bind; [apply (here_ok c2 (fun a c' => a = at_ c2 /\ c' = c2)); done|]. intros av c' _ _ [-> ->].
  apply (wp_bind _ _ _ (fun zb c' => c' = c2 /\ (ok = true -> zb = beGetS 8 p (at_ c2 + 8)))).
  { destruct ok; [|by apply wp_ret]. destruct (T eq_refl) as (-> & _ & L). rewrite w64_small in L by lia. apply peekS_ok; done || lia. }
  intros zb c' _ _ [-> Ez]. eapply wp_bind; [by apply skip_ok; [lia|]|]. intros ? c3 I3 _ [_ M3]. eapply wp_bind; [by apply get_ok; [lia|]|]. intros nc c4 I4 _ (Rn & [_ M4] & _).
  eapply wp_bind; [by apply skip_ok; [lia|]|]. intros ? c5 I5 _ [_ M5]. eapply wp_bind; [apply (here_ok c5 (fun a c' => a = at_ c5 /\ c' = c5)); done|]. intros ao c' _ _ [-> ->].
  eapply wp_bind; [by apply getS_ok; [lia|]|]. intros af c6 I6 _ (_ & _ & M6). eapply wp_bind; [by apply skip_ok; [lia|]|]. intros ? c7 I7 _ [_ M7]. apply wp_ret; [done|].
  cbn [h_nCluster h_zipBytesOff h_zipBytes h_autoFlushOff]. split; [lia|]. intros F7. destruct (M7 F7) as (F6 & E7 & L7). destruct (M6 F6) as (F5 & E6 & L6). destruct (M5 F5) as (F4 & E5 & L5).
  destruct (M4 F4) as (F3 & E4 & L4). destruct (M3 F3) as (F2 & E3 & L3). pose proof (i_at c2 I2). destruct ok; [|rewrite (Fa eq_refl) in F2; done]. split; [|lia]. split; [lia|]. split; [lia|]. by apply Ez.
Qed.
Lemma cluster_array_ok c n : 0 <= n <= 2 ^ 20 -> inv c -> wp c (cluster_array p n) (fun l c' => (fail_ c' = false -> zlen l = n /\ fail_ c = false)).
Proof using Hp Hn.
  intros Hk I. unfold cluster_array. eapply wp_bind; [by apply skip_ok; [lia|]|]. intros ? c1 I1 _ [_ M1]. pose proof (i_at c1 I1). eapply wp_bind; [by apply need_ok|]. intros ok c2 I2 _ (_ & _ & T & Fa).
  destruct ok; cbn [negb]; [|apply wp_ret; [done|]; intros F; rewrite Fa in F; done]. destruct (T eq_refl) as (-> & F1 & L). rewrite w64_small in L by lia.
  eapply wp_bind; [apply (here_ok c1 (fun a c' => a = at_ c1 /\ c' = c1)); done|]. intros av c' _ _ [-> ->].
  eapply wp_bind; [apply (table_ok 8 c1); [done|lia|lia|rewrite Z2Nat.id by lia; lia]|]. intros l c' _ _ [-> El].
  eapply wp_bind; [by apply skip_ok; [lia|]|]. intros ? c3 I3 _ _. apply wp_ret; [done|]. intros _. destruct (M1 F1) as (F0 & _). split; [|done].
  rewrite El. unfold zlen. rewrite length_fmap. pose proof (zlen_zrange 0 (Z.of_nat (Z.to_nat n)) ltac:(lia)) as Z. unfold zlen in Z. rewrite Z. lia.
Qed.
Lemma tree_walk_ok c : inv c -> wp c (tree_walk p keylen) (fun r _ => match w_why r with None => walk_ok (w_head r) (w_ends r) (w_sizes r) | Some w => w <> [] end).
Proof using Hp Hn.
  intros I. unfold tree_walk. eapply wp_bind; [by apply objHeader_ok|]. intros ev c1 I1 _ _. eapply wp_bind; [apply (failed_ok c1 (fun f c' => f = fail_ c1 /\ c' = c1)); done|]. intros f c' _ _ [-> ->].
  eapply wp_bind; [apply (the_why_ok c1 (fun w c' => w = why c1 /\ c' = c1)); done|]. intros w c' _ _ [-> ->]. destruct (fail_ c1 || negb (snd ev =? 20)) eqn:E0.
  { apply wp_ret; [done|]. destruct (fail_ c1) eqn:F1; [by apply (i_why c1 I1)|nonempty]. }
  clear E0. eapply wp_bind; [by apply skipObj_ok|]. intros ? c2 I2 _ _. eapply wp_bind; [by apply skipObj_ok|]. intros ? c3 I3 _ _. eapply wp_bind; [by apply skipObj_ok|]. intros ? c4 I4 _ _.
  eapply wp_bind; [by apply skipObj_ok|]. intros ? c5 I5 _ _. eapply wp_bind; [by apply tree_head_ok|]. intros h c6 I6 _ (Rn & H6). destruct (2 ^ 20 <? h_nCluster h) eqn:En; [by apply wp_ret; [done|nonempty]|]. b2p.
  eapply wp_bind; [by apply cluster_array_ok|]. intros ends c7 I7 _ H7. eapply wp_bind; [by apply cluster_array_ok|]. intros sizes c8 I8 _ H8.
  eapply wp_bind; [apply (failed_ok c8 (fun f c' => f = fail_ c8 /\ c' = c8)); done|]. intros f' c' _ _ [-> ->]. eapply wp_bind; [apply (the_why_ok c8 (fun w c' => w = why c8 /\ c' = c8)); done|]. intros w' c' _ _ [-> ->].
  destruct (fail_ c8) eqn:F8; [apply wp_ret; [done|]; by apply (i_why c8 I8)|]. destruct (H8 F8) as [Z8 F7]. destruct (H7 F7) as [Z7 F6]. destruct (H6 F6) as [(Q1 & Q2 & Q3) [Q4 Q5]].
  eapply wp_bind; [by apply skipObj_ok|]. intros ? c9 I9 _ _. eapply wp_bind; [apply (objArray_ok (fun _ => True)); [|done|done]|].
  { intros o c0 I0 _ _. unfold branch_element. destruct (bytes_eqb _ _); [by apply parseBranch_ok|].
    eapply wp_bind; [apply (fail_with_ok c0 _ (fun _ _ => True)); [done|nonempty|done]|]. intros. by apply wp_ret. }
  intros ok c10 I10 _ _. eapply wp_bind; [apply (failed_ok c10 (fun f c' => f = fail_ c10 /\ c' = c10)); done|]. intros f2 c' _ _ [-> ->]. eapply wp_bind; [apply (the_why_ok c10 (fun w c' => w = why c10 /\ c' = c10)); done|]. intros w2 c' _ _ [-> ->].
  destruct ok; cbn [negb]; [destruct (fail_ c10) eqn:F10|]; (apply wp_ret; [done|]).
  - by apply (i_why c10 I10).
  - by split.
  - destruct (why c10); nonempty.
Qed.
Lemma new_cur_inv : inv new_cur.
Proof using. split; cbn; [done|done|lia|constructor|done]. Qed.

(** What a parse that is not refused says of the record. *)
Record tree_ok (fm : FileMeta) : Prop := {
  to_branches : Forall branch_ok (branches fm);
  to_zip : 0 <= zipBytesOff fm /\ zipBytesOff fm + 8 <= autoFlushOff fm /\ autoFlushOff fm + 8 <= zlen p /\ zipBytes fm = beGetS 8 p (zipBytesOff fm);
  to_clusters : zlen (clusterRangeEnd fm) = zlen (clusterSize fm) /\ zlen (clusterSize fm) <= 2 ^ 20 }.
Lemma parseTreeBlob_ok fm : let '(fm', c) := parseTreeBlob p keylen fm in
  oob c = false /\ stuck c = false /\ (f_error fm' = [] -> tree_ok fm') /\ (f_error fm' <> [] -> branches fm' = []).
Proof using Hp Hn.
  unfold parseTreeBlob. pose proof (tree_walk_ok new_cur new_cur_inv) as (I & _ & H). destruct (tree_walk p keylen new_cur) as [[[w|] h ends sizes] c]; cbn [w_why w_head w_ends w_sizes fst snd] in *; destruct I as [O S _ B _];
    cbn [branches with_walk f_error default]; (split; [done|]; split; [done|]); [by split|]. split; [|done].
  intros _. destruct H as [(Q1 & Q2 & Q3) [Q4 Q5] (Q6 & Q7 & Q8)]. split; cbn; [done|split; [lia|split; [lia|split; [lia|done]]]|lia].
Qed.
End safe.
End TreeSafe.
