(* ===== verification/TreeParse.v ===== *)
(** * From the file's header to its tree (src/transpose/TreeMeta.cc)

    The whole parse over a reader: never a byte outside a buffer, and what a parse that is
    not refused says of the file. *)

From S2P Require Import Prelude UrlKey RootFile TreeMeta TreeSafe.

Module TreeParse.
Import Root TreeData Tree TreeSafe.

(** ** Key headers of any bytes *)
Lemma key_str_room buf off q s q' : Forall is_byte buf -> zlen buf < p63 -> 0 <= off < p63 -> 0 <= q < p63 -> key_str buf off q = Some (s, q') -> off + q < zlen buf /\ q < q' <= q + 256 /\ off + q' <= zlen buf.
Proof.
  intros Hb Hl Ho Hq. unfold key_str. destruct (zlen buf <=? off +% q) eqn:E1; [done|]. rewrite w64_small in E1 by lia. b2p.
  assert (is_byte (zget buf (off + q))) as B by (apply Forall_zget; [done|unfold is_byte; lia]). unfold is_byte in B.
  destruct (zlen buf <? off +% (q + 1) +% zget buf (off + q)) eqn:E2; [done|]. rewrite (w64_small (off + (q + 1))) in E2 by lia. rewrite w64_small in E2 by lia. b2p.
  intros [= _ <-]. lia.
Qed.
Lemma parseKey_ranges buf off e : Forall is_byte buf -> zlen buf < p63 -> 0 <= off < p63 -> parseKey buf off = Some e ->
  off + 34 <= zlen buf /\ 0 <= keylen e < 65536 /\ - p31 <= nbytes e < p31 /\ - p31 <= objlen e < p31 /\ 0 <= cycle e < 65536.
Proof.
  intros Hb Hl Ho. unfold parseKey. destruct (zlen buf <? off +% 34) eqn:E; [done|]. rewrite w64_small in E by lia. b2p.
  pose proof (beGet_range buf Hb 2 (off + 14)) as R1. pose proof (beGet_range buf Hb 2 (off + 16)) as R2.
  pose proof (signed_range 4 _ ltac:(lia) (beGet_range buf Hb 4 off)) as R3. pose proof (signed_range 4 _ ltac:(lia) (beGet_range buf Hb 4 (off + 6))) as R4.
  fold (beGetS 4 buf off) in R3. fold (beGetS 4 buf (off + 6)) in R4. change (2 ^ (8 * Z.of_nat 2)) with 65536 in *. change (2 ^ (8 * Z.of_nat 4 - 1)) with p31 in *.
  destruct (1000 <? _); (destruct (key_str buf off _) as [[c q1]|]; [|done]); (destruct (key_str buf off q1) as [[nm q2]|]; [|done]);
    (destruct (key_str buf off q2) as [[t q3]|]; [|done]); intros [= <-]; cbn; lia.
Qed.

(** ** The directory record *)
Lemma fld_in {A} n buf off (k : Z -> Res A) : 0 <= off -> off + Z.of_nat n <= zlen buf -> fld n buf off k = k (beGet n buf off).
Proof. intros H0 H1. unfold fld. by rewrite (proj2 (Z.leb_le 0 off)), (proj2 (Z.leb_le (off + _) _)) by lia. Qed.
Lemma pstr_safe head a : Forall is_byte head -> 0 <= a -> match pstr head a with Oob => False | Bad w => w <> [] | Good q => a < q <= zlen head end.
Proof.
  intros Hb Ha. unfold pstr. destruct (zlen head <=? a) eqn:E; b2p; [done|]. rewrite fld_in by lia. pose proof (beGet_range head Hb 1 a) as R1.
  destruct (beGet 1 head a =? 255).
  - destruct (zlen head <? a + 1 + 4) eqn:E4; b2p; [done|]. rewrite fld_in by lia. pose proof (beGet_range head Hb 4 (a + 1)). destruct (_ <? _) eqn:E5; b2p; [done|lia].
  - destruct (_ <? _) eqn:E5; b2p; [done|lia].
Qed.
Lemma dir_record_safe head : Forall is_byte head -> zlen head < p31 -> match dir_record head with Oob => False | Bad w => w <> [] | Good (_, _, w) => w = 4 \/ w = 8 end.
Proof.
  intros Hb Hl. unfold dir_record. destruct (parseKey head 100) as [dk|] eqn:E; [|done]. destruct (parseKey_ranges head 100 dk Hb ltac:(lia) ltac:(lia) E) as (_ & K & _).
  pose proof (pstr_safe head (100 + keylen dk) Hb ltac:(lia)) as P1. destruct (pstr head (100 + keylen dk)) as [w| |q]; [done|done|].
  pose proof (pstr_safe head q Hb ltac:(lia)) as P2. destruct (pstr head q) as [w| |q2]; [done|done|]. destruct (zlen head <? q2 + 2) eqn:E2; b2p; [done|]. rewrite fld_in by lia.
  destruct (1000 <? beGet 2 head q2); cbv zeta; (destruct (_ <? _) eqn:E3; b2p; [done|]).
  - rewrite fld_in by (change (Z.of_nat (Z.to_nat 8)) with 8; lia). by right.
  - rewrite fld_in by (change (Z.of_nat (Z.to_nat 4)) with 4; lia). by left.
Qed.

(** The entries: each steps over 29 bytes at least, so the list's bytes are fuel enough. *)
Lemma key_entries_total buf n : Forall is_byte buf -> zlen buf < p31 -> forall fuel i a, 0 <= a < p32 -> zlen buf - a < Z.of_nat fuel -> 0 < Z.of_nat fuel -> is_Some (key_entries fuel buf i n a).
Proof.
  intros Hb Hl. induction fuel as [|fuel IH]; intros i a Ha Hf H1; [lia|]. cbn [key_entries]. destruct (i <? n); [|by eexists].
  destruct (parseKey buf a) as [e|] eqn:E; [|by eexists]. destruct (parseKey_ranges buf a e Hb ltac:(lia) ltac:(lia) E) as (R & K & _). destruct (keylen e <? 29) eqn:E29; b2p; [by eexists|].
  destruct (IH (i + 1) (a + keylen e)) as [l El]; [lia|lia|lia|]. rewrite El. by eexists.
Qed.
Lemma key_entries_ok buf n : Forall is_byte buf -> zlen buf < p31 -> forall fuel i a l, 0 <= a < p32 -> key_entries fuel buf i n a = Some l ->
  Forall (fun e => 0 <= keylen e < 65536 /\ - p31 <= nbytes e < p31 /\ - p31 <= objlen e < p31 /\ 0 <= cycle e) l.
Proof.
  intros Hb Hl. induction fuel as [|fuel IH]; intros i a l Ha; [done|]. cbn [key_entries]. destruct (i <? n); [|intros [= <-]; constructor].
  destruct (parseKey buf a) as [e|] eqn:E; [|intros [= <-]; constructor]. destruct (parseKey_ranges buf a e Hb ltac:(lia) ltac:(lia) E) as (R & K & N & O & C). destruct (keylen e <? 29).
  - intros [= <-]. constructor; [lia|constructor].
  - destruct (key_entries fuel buf (i + 1) n (a + keylen e)) as [l'|] eqn:E'; [|done]. intros [= <-]. constructor; [lia|]. apply (IH (i + 1) (a + keylen e) l'); [lia|done].
Qed.

(** ** The reader *)
Class ReaderLaws (W : Type) `{!Reader W} := {
  rd_bytes n off w d : fst (rd n off w) = Some d -> zlen d = n /\ Forall is_byte d;
  size_fits : - p63 <= size < p63 }.
(** Every decoder fills a byte buffer. *)
Definition CodecBytes `{CD : Codecs} : Prop := forall m0 m1 blob csize usize d, decode_frame m0 m1 blob csize usize = Some d -> Forall is_byte d.
Lemma decompress_bytes `{CD : Codecs} pay n : CodecBytes -> Forall is_byte (decompressFrames pay n).
Proof.
  intros Hc. assert (forall fuel q out r, Forall is_byte out -> frames fuel pay n q out = Some r -> Forall is_byte r) as F.
  { induction fuel as [|fuel IH]; intros q out r Ho; cbn [frames]; [done|]. destruct (zlen out <? n).
    - destruct (frame_at pay q) as [[d q']|] eqn:E; [|intros [= <-]; constructor]. apply IH. apply Forall_app. split; [done|]. unfold frame_at in E.
      destruct (_ <? q + 9); [done|]. destruct (_ <? _); [done|]. destruct (decode_frame _ _ _ _ _) as [d'|] eqn:Ed; [|done]. injection E as <- _. by apply Hc in Ed.
    - intros [= <-]. destruct (_ =? _); [done|constructor]. }
  unfold decompressFrames. destruct (frames _ _ _ _ _) as [r|] eqn:E; [|constructor]. by apply F in E.
Qed.

Section parse.
Context {W : Type} `{!Reader W, !ReaderLaws W} `{CD : Codecs}.
Definition mwp {A} (m : M W A) (Q : A -> Prop) : Prop := forall w, Q (fst (m w)).
Lemma mwp_bind {A B} (m : M W A) (k : A -> M W B) P Q : mwp m P -> (forall a, P a -> mwp (k a) Q) -> mwp (mbind_ m k) Q.
Proof. intros H K w. unfold mbind_. specialize (H w). destruct (m w) as [a w']. cbn in *. by apply K. Qed.
Lemma mwp_ret {A} (a : A) (Q : A -> Prop) : Q a -> mwp (mret_ a) Q.
Proof. by intros H w. Qed.
Lemma mwp_wand {A} (m : M W A) P Q : mwp m P -> (forall a, P a -> Q a) -> mwp m Q.
Proof. intros Hm H w. apply H, Hm. Qed.
Lemma mwp_rd n off : mwp (rd n off) (fun r => forall d, r = Some d -> zlen d = n /\ Forall is_byte d).
Proof. intros w d H. by apply rd_bytes in H. Qed.

Definition key_ok (e : KeyInfo) : Prop := 0 <= keylen e < 65536 /\ - p31 <= nbytes e < p31 /\ - p31 <= objlen e < p31 /\ 0 <= cycle e.
Record container_ok (c : ContainerMeta) : Prop := {
  co_size : fileSize c = size;
  co_keys : Forall key_ok (keys c);
  co_seek : c_error c = [] -> 0 <= c_keyslistSeek c < size;
  co_width : c_headerSeekWidth c = 4 \/ c_headerSeekWidth c = 8;
  co_dir : c_dirSeekWidth c = 4 \/ c_dirSeekWidth c = 8;
  co_fend : - p63 <= c_fend c < p63 }.
Lemma refuse_ok c w : container_ok c -> w <> [] -> container_ok (refuse c w).
Proof. intros [] H. split; cbn; try done. Qed.

Lemma keys_list_ok ks : mwp (keys_list ks) (fun r => match r with Oob => False | Bad w => w <> [] | Good l => Forall key_ok l /\ 0 <= ks < size end).
Proof.
  unfold keys_list. apply (mwp_bind _ _ (fun kl => forall k, kl = Some k -> 0 <= keylen k < 65536 /\ - p31 <= nbytes k < p31 /\ 0 <= ks < size)).
  { unfold keys_head. destruct (_ || _)%bool eqn:E; [by apply mwp_ret|]. b2p. destruct (Z.min 4096 (size - ks) <? 34) eqn:E34; [by apply mwp_ret|]. b2p. eapply mwp_bind; [apply mwp_rd|].
    intros r Hr. apply mwp_ret. intros k Hk. destruct r as [buf|]; [|done]. destruct (Hr buf eq_refl) as [Lb Bb]. destruct (parseKey_ranges buf 0 k Bb ltac:(lia) ltac:(lia) Hk) as (_ & K & N & _). lia. }
  intros [kl|] Hk; [|by apply mwp_ret]. destruct (Hk kl eq_refl) as (K & N & Ks). destruct (_ || _)%bool eqn:E; [by apply mwp_ret|]. b2p. rewrite w32_small in * by lia.
  eapply mwp_bind; [apply mwp_rd|]. intros [buf|] Hr; [|by apply mwp_ret]. destruct (Hr buf eq_refl) as [Lb Bb]. apply mwp_ret. rewrite fld_in by lia.
  destruct (key_entries_total buf (signed 4 (beGet 4 buf (keylen kl))) Bb ltac:(lia) (S (length buf)) 0 (keylen kl + 4)) as [l El]; [lia|unfold zlen; lia|lia|]. rewrite El.
  split; [|lia]. by apply (key_entries_ok buf (signed 4 (beGet 4 buf (keylen kl))) Bb ltac:(lia) _ 0 (keylen kl + 4)) in El; [|lia].
Qed.
Lemma container_ok_parse : mwp parseContainerFrom (fun r => match r with Good c => container_ok c | _ => False end).
Proof.
  pose proof size_fits as Sz. unfold parseContainerFrom. set (c0 := mkContainer false 0 0 0 8 8 size [] []).
  assert (container_ok (refuse c0 (bs "not a ROOT file"))) as R0 by (split; cbn; try done; [by right|by right]).
  destruct (Z.max 0 (Z.min size 512) <? 20) eqn:E20; [by apply mwp_ret|]. b2p. eapply mwp_bind; [apply mwp_rd|]. intros [head|] Hr; [|by apply mwp_ret]. destruct (Hr head eq_refl) as [Lh Bh].
  destruct (negb _); [by apply mwp_ret|]. unfold container_head. rewrite fld_in by lia. set (large := 1000000 <? signed 4 (beGet 4 head 4)).
  assert (exists e, fld (Z.to_nat (if large then 8 else 4)) head 12 (fun e => Good (mkContainer large (signed (Z.to_nat (if large then 8 else 4)) e) 0 0 (if large then 8 else 4) 8 (fileSize c0) [] [])) =
    Good (mkContainer large e 0 0 (if large then 8 else 4) 8 (fileSize c0) [] []) /\ - p63 <= e < p63) as (e & -> & Re).
  { destruct large; rewrite fld_in by lia; (eexists; split; [done|]).
    - pose proof (signed_range 8 _ ltac:(lia) (beGet_range head Bh 8 12)) as R. cbn in R. exact R.
    - pose proof (signed_range 4 _ ltac:(lia) (beGet_range head Bh 4 12)) as R. change (2 ^ (8 * Z.of_nat 4 - 1)) with p31 in R. change (Z.to_nat 4) with 4%nat. lia. }
  pose proof (dir_record_safe head Bh ltac:(lia)) as D. destruct (dir_record head) as [w| |[[ks off] w]]; [|done|].
  { apply mwp_ret. split; cbn; try done; destruct large; first [by left|by right]. }
  eapply mwp_bind; [apply keys_list_ok|]. intros [w'| |l] Hl; [|done|]; apply mwp_ret; (split; cbn; try done; try (destruct large; first [by left|by right])).
  - apply Hl.
  - intros _. apply Hl.
Qed.

Lemma live_key_ok tree l : Forall key_ok l -> key_ok (live_key tree l) /\ (nbytes (live_key tree l) <> 0 -> cls (live_key tree l) = bs "TTree" /\ name (live_key tree l) = tree).
Proof.
  intros Hl. unfold live_key. assert (forall k, key_ok k -> (nbytes k <> 0 -> cls k = bs "TTree" /\ name k = tree) ->
    let k' := foldl (fun best e => if bytes_eqb (cls e) (bs "TTree") && bytes_eqb (name e) tree && (cycle best <=? cycle e) then e else best) k l in
    key_ok k' /\ (nbytes k' <> 0 -> cls k' = bs "TTree" /\ name k' = tree)) as G.
  { induction Hl as [|e l He _ IH]; intros k Hk Hn; [done|]. cbn [foldl]. apply IH; destruct (_ && _) eqn:E; try done.
    intros _. apply andb_true_iff in E as [E _]. apply andb_true_iff in E as [E1 E2]. apply bool_decide_eq_true in E1, E2. done. }
  apply G; [split; cbn; lia|done].
Qed.

(** What a parse that is not refused says of the file. *)
Record file_ok (tree : bytes) (fm : FileMeta) : Prop := {
  fo_key : cls (treeKey fm) = bs "TTree" /\ name (treeKey fm) = tree /\ 0 <= keylen (treeKey fm) <= nbytes (treeKey fm) /\ 0 < nbytes (treeKey fm) < p31;
  fo_inside : 0 <= seekkey (treeKey fm) /\ seekkey (treeKey fm) + nbytes (treeKey fm) <= size;
  fo_blob : Forall is_byte (treeBlob fm) /\ zlen (treeBlob fm) = objlen (treeKey fm) /\ zlen (treeBlob fm) < p31;
  fo_tree : tree_ok (treeBlob fm) fm;
  fo_seek : 0 <= keyslistSeek fm < size;
  fo_widths : (headerSeekWidth fm = 4 \/ headerSeekWidth fm = 8) /\ (dirSeekWidth fm = 4 \/ dirSeekWidth fm = 8);
  fo_fend : - p63 <= fend fm < p63 }.
Lemma parse_ok tree : CodecBytes -> mwp (parseTreeFrom tree) (fun r => match r with Good fm => (f_error fm = [] -> file_ok tree fm) /\ (f_error fm <> [] -> branches fm = []) | _ => False end).
Proof.
  intros HC. unfold parseTreeFrom. eapply mwp_bind; [apply container_ok_parse|]. intros [|  |cm] Hc; [done|done|]. destruct Hc as [C1 C2 C3 C4 C5 C6].
  destruct (negb (bytes_eqb (c_error cm) [])) eqn:Ee.
  { apply mwp_ret. b2p. apply bool_decide_eq_false in Ee. cbn. by split. }
  b2p. apply bool_decide_eq_true in Ee. specialize (C3 Ee). destruct (live_key_ok tree (keys cm) C2) as [K1 K2]. set (k := live_key tree (keys cm)) in *.
  destruct (nbytes k =? 0) eqn:E0; [apply mwp_ret; by split|]. b2p. destruct (K2 E0) as [K3 K4].
  destruct (_ || _)%bool eqn:Eg; [apply mwp_ret; by split|]. b2p. eapply (mwp_bind _ _ (fun ou => Forall is_byte (fst ou))).
  { unfold readKeyPayloadFrom. destruct (_ || _)%bool; [apply mwp_ret; constructor|]. eapply mwp_bind; [apply mwp_rd|]. intros [rec|] Hr; [|apply mwp_ret; constructor]. destruct (Hr rec eq_refl) as [Lr Br].
    apply mwp_ret. cbn [fst]. destruct (_ =? objlen k); [|constructor]. destruct (objlen k =? _); [by apply Forall_zsub|by apply decompress_bytes]. }
  intros [blob un] Hb. cbn [fst] in Hb. destruct un; [apply mwp_ret; by split|]. destruct (negb (zlen blob =? objlen k)) eqn:El; [apply mwp_ret; by split|]. b2p.
  destruct K1 as (K5 & K6 & K7 & K8). set (fm0 := mkFile _ _ _ _ _ _ k blob _ _ _ _ _ _ _ _ _).
  pose proof (parseTreeBlob_ok blob (keylen k) Hb ltac:(lia) fm0) as P. destruct (parseTreeBlob blob (keylen k) fm0) as [fm c] eqn:EP. destruct P as (O & S & T & R).
  assert (treeKey fm = k /\ treeBlob fm = blob /\ keyslistSeek fm = c_keyslistSeek cm /\ headerSeekWidth fm = c_headerSeekWidth cm /\ dirSeekWidth fm = c_dirSeekWidth cm /\ fend fm = c_fend cm) as (F1 & F2 & F3 & F4 & F5 & F6).
  { unfold parseTreeBlob in EP. destruct (tree_walk blob (keylen k) new_cur) as [r c']; injection EP as <- _; done. }
  rewrite O, S. apply mwp_ret. split; [|exact R]. intros Hf. split; rewrite ?F1, ?F2, ?F3, ?F4, ?F5, ?F6; try done; try lia.
  - split; [done|]. split; [done|]. lia.
  - split; [done|]. lia.
  - by apply T.
Qed.
Lemma reader_parse_ok : CodecBytes -> mwp parseReaderTree (fun r => match r with
  | Good fm => (f_error fm = [] -> exists tree, file_ok tree fm) /\ (f_error fm <> [] -> branches fm = []) | _ => False end).
Proof.
  intros HC. unfold parseReaderTree. eapply mwp_bind; [by apply parse_ok|]. intros [| |fm] Hf; [done|done|]. destruct Hf as [H1 H2].
  destruct (_ && _); [|apply mwp_ret; split; [intros E; eexists; by apply H1|done]].
  eapply mwp_bind; [apply container_ok_parse|]. intros [| |cm] Hc; [done|done|]. destruct (List.find _ _) as [k|]; [|apply mwp_ret; split; [intros E; eexists; by apply H1|done]].
  eapply mwp_wand; [by apply parse_ok|]. intros [| |fm'] H; [done|done|]. destruct H as [G1 G2]. split; [intros E; eexists; by apply G1|done].
Qed.

End parse.
End TreeParse.
