(* ===== verification/FillLayout.v ===== *)
(** * The layout of a file while it is being recompressed (src/transpose/FillLayout.h, FillLayout.cc)

    A TTree file is shown to its reader with every relocatable basket in a slot past
    the file's end: the header's fEND, the keys list and the tree record are patched, and
    a basket's converted record is placed in its slot when it is first asked for. *)

From S2P Require Import Prelude UrlKey RootFile TreeMeta.

Module Fill.
Import Root TreeData.

Definition kFillMetaZstdLevel : Z := 1.
Definition kAlign : Z := 4096.
Definition INT32_MAX : Z := 2147483647.

(** ** Fields of a key *)
Definition putKeySeek (rec : bytes) (at_ ver seek : Z) : option bytes :=
  if 1000 <? ver then Some (bePut 8 rec (at_ + 18) seek)
  else if (seek <? 0) || (p31 <=? seek) then None
  else Some (bePut 4 rec (at_ + 18) seek).

Definition frameCodec (p : bytes) : bytes :=
  if zlen p <? 9 then []
  else if (zget p 0 =? 88) && (zget p 1 =? 90) then bs "lzma"
  else if (zget p 0 =? 90) && (zget p 1 =? 76) then bs "zlib"
  else if (zget p 0 =? 90) && (zget p 1 =? 83) then bs "zstd"
  else if (zget p 0 =? 76) && (zget p 1 =? 52) then bs "lz4"
  else [].
Definition listed (codecs : list bytes) (c : bytes) : bool :=
  negb (bytes_eqb c []) && existsb (bytes_eqb c) codecs.

(** ** The file header *)
Record Header := mkHeader {
  version : Z; begin : Z; h_end : Z; seekFree : Z; seekInfo : Z; nbytesFree : Z; nfree : Z; nbytesName : Z;
  h_compress : Z; nbytesInfo : Z; units : Z; uuid : bytes; large : bool }.
Definition parseHeader (h : bytes) : option Header :=
  if (zlen h <? 75) || negb (bytes_eqb (zsub h 0 4) (bs "root")) then None
  else
    let version := beGetS 4 h 4 in
    let begin := beGetS 4 h 8 in
    let out :=
      if 1000000 <=? version then
        mkHeader version begin (beGetS 8 h 12) (beGetS 8 h 20) (beGetS 8 h 45) (beGetS 4 h 28) (beGetS 4 h 32) (beGetS 4 h 36)
          (beGetS 4 h 41) (beGetS 4 h 53) (zget h 40) (zsub h 57 18) true
      else
        mkHeader version begin (beGetS 4 h 12) (beGetS 4 h 16) (beGetS 4 h 37) (beGetS 4 h 20) (beGetS 4 h 24) (beGetS 4 h 28)
          (beGetS 4 h 33) (beGetS 4 h 41) (zget h 32) (zsub h 45 18) false in
    if 75 <=? begin then Some out else None.

(** The header rewritten in the 64-bit layout: the source's [memcpy] and [bePut] calls in order. *)
Definition largeHeader (h : Header) (newEnd : Z) : bytes :=
  write_all [
    (0, bs "root"); (4, be_bytes 4 (if large h then version h else version h + 1000000)); (8, be_bytes 4 (begin h));
    (12, be_bytes 8 newEnd); (20, be_bytes 8 (seekFree h)); (28, be_bytes 4 (nbytesFree h)); (32, be_bytes 4 (nfree h));
    (36, be_bytes 4 (nbytesName h)); (40, [8]); (41, be_bytes 4 (h_compress h)); (45, be_bytes 8 (seekInfo h));
    (53, be_bytes 4 (nbytesInfo h)); (57, uuid h)] (zeros 75).

Definition headerWindowForEnd (header : bytes) (newEnd : Z) : option (Z * bytes) :=
  match parseHeader header with
  | None => None
  | Some h =>
      Some (if large h then (12, be_bytes 8 newEnd)
            else if newEnd <? p31 then (12, be_bytes 4 newEnd)
            else (0, largeHeader h newEnd))
  end.

Definition codecOfSetting (compress fileCompress : Z) : bytes :=
  let c := if compress <? 0 then fileCompress else compress in
  if (c <=? 0) || (Z.rem c 100 =? 0) then []
  else
    let q := Z.quot c 100 in
    if q =? 1 then bs "zlib" else if q =? 2 then bs "lzma" else if q =? 4 then bs "lz4" else if q =? 5 then bs "zstd" else [].

(** ** The layout *)
Record FillSlot := mkSlot { origSeek : Z; origLen : Z; vSeek : Z; vLen : Z; s_branch : Z; s_basket : Z }.
Record FillLayout := mkLayout {
  error : bytes; originSize : Z; virtualSize : Z; windows : list (Z * bytes); metaSeek : Z; metaRecord : bytes;
  slotsBegin : Z; slots : list FillSlot; relocated : list Z }.
Definition new_layout : FillLayout := mkLayout [] 0 0 [] 0 [] 0 [] [].
Definition decline (L : FillLayout) (why : bytes) : FillLayout :=
  mkLayout why (originSize L) (virtualSize L) [] (metaSeek L) [] (slotsBegin L) [] [].

Definition basket_inside (fm : FileMeta) (br : BranchInfo) (i : Z) : bool :=
  (0 <? zget (basketSeek br) i) && (0 <? zget (basketBytes br) i) &&
  (w64 (zget (basketSeek br) i) +% w64 (zget (basketBytes br) i) <=? w64 (fend fm)).
Definition relocatable (fm : FileMeta) (codecs : list bytes) (fileCompress : Z) (br : BranchInfo) : bool :=
  negb ((writeBasket br <=? 0) || externalFile br || (b_zipBytesOff br =? 0) ||
        negb (listed codecs (codecOfSetting (compress br) fileCompress))) &&
  forallb (basket_inside fm br) (zrange 0 (writeBasket br)).
Definition relocated_of (fm : FileMeta) (codecs : list bytes) (fileCompress : Z) : list Z :=
  List.filter (fun b => relocatable fm codecs fileCompress (branch_at fm b)) (zrange 0 (zlen (branches fm))).

(** The slot of one basket, and the two fields of the tree record that name it. *)
Definition slot_of (fm : FileMeta) (slotFactor100 b at_ i : Z) : FillSlot :=
  let br := branch_at fm b in
  let origLen := w32 (zget (basketBytes br) i) in
  let want := (origLen *% slotFactor100) / 100 in
  mkSlot (w64 (zget (basketSeek br) i)) origLen at_ (Z.min want INT32_MAX) b i.
Definition fill_basket (fm : FileMeta) (slotFactor100 b : Z) (st : Z * bytes * list FillSlot) (i : Z) : Z * bytes * list FillSlot :=
  let '(at_, blob, out) := st in
  let br := branch_at fm b in
  let s := slot_of fm slotFactor100 b at_ i in
  let blob := bePut 8 blob (seekArrayOff br + 8 * i) (vSeek s) in
  let blob := bePut 4 blob (bytesArrayOff br + 4 * i) (vLen s) in
  (at_ +% vLen s, blob, out ++ [s]).
Definition fill_branch (fm : FileMeta) (slotFactor100 : Z) (st : Z * bytes * list FillSlot) (b : Z) : Z * bytes * list FillSlot :=
  foldl (fill_basket fm slotFactor100 b) st (zrange 0 (writeBasket (branch_at fm b))).
Definition fill_slots (fm : FileMeta) (slotFactor100 : Z) (relocated : list Z) (slotsBegin : Z) : Z * bytes * list FillSlot :=
  foldl (fill_branch fm slotFactor100) (slotsBegin, treeBlob fm, []) relocated.

(** The entries of the keys list: the live tree's points at the relocated record. *)
Inductive KeysResult := KMalformed | KTooFar | KPatched (klist : bytes) (patched : bool).
Fixpoint patch_keys (n : nat) (tk : KeyInfo) (recLen metaSeek : Z) (klist : bytes) (pos : Z) (patched : bool) : KeysResult :=
  match n with
  | O => KPatched klist patched
  | S n' =>
      match parseKey klist pos with
      | None => KMalformed
      | Some e =>
          if bytes_eqb (cls e) (bs "TTree") && bytes_eqb (name e) (name tk) && (seekkey e =? seekkey tk) then
            match putKeySeek (bePut 4 klist pos recLen) pos (ver e) metaSeek with
            | None => KTooFar
            | Some klist => patch_keys n' tk recLen metaSeek klist (pos + keylen e) true
            end
          else patch_keys n' tk recLen metaSeek klist (pos + keylen e) patched
      end
  end.

Section ops.
Context `{CD : Codecs}.

(** The relocated key of the tree record: its header, then the patched record, compressed if that helps. *)
Definition meta_payload (blob : bytes) : bytes :=
  let z := encodeZstdFrames blob kFillMetaZstdLevel in
  if bytes_eqb z [] || (zlen blob <=? zlen z) then blob else z.

(** The keys list, checked and patched. *)
Definition keys_window (fm : FileMeta) (keysList : bytes) (L : FillLayout) : FillLayout + bytes :=
  match parseKey keysList 0 with
  | None => inl (decline L (bs "keys-list record malformed"))
  | Some kl =>
      if (nbytes kl <=? 0) || negb (nbytes kl =? zlen keysList) || (zlen keysList <? keylen kl + 4)
      then inl (decline L (bs "keys-list record malformed"))
      else if (keyslistSeek fm <? 100) || (originSize L <? w64 (keyslistSeek fm) +% zlen keysList)
      then inl (decline L (bs "keys-list record does not lie inside the original file"))
      else
        match patch_keys (Z.to_nat (beGetS 4 keysList (keylen kl))) (treeKey fm) (zlen (metaRecord L)) (metaSeek L) keysList (keylen kl + 4) false with
        | KMalformed => inl (decline L (bs "keys-list entry malformed"))
        | KTooFar => inl (decline L (bs "keys-list entry is 32-bit and the metadata key lies past 2 GiB"))
        | KPatched klist false => inl (decline L (bs "live tree entry not found in the keys list"))
        | KPatched klist true => inr klist
        end
  end.

(** The gates before anything is computed: the parsed header, or why the file is declined. *)
Definition fill_gates (fm : FileMeta) (header treeKeyHeader : bytes) (slotFactor100 : Z) : bytes + Header :=
  if negb (bytes_eqb (f_error fm) []) then inl (bs "parse: " ++ f_error fm)
  else if slotFactor100 <? 100 then inl (bs "slot factor must be at least 1")
  else
    match parseHeader header with
    | None => inl (bs "file header unreadable or fBEGIN below 75")
    | Some h =>
        if negb (h_end h =? fend fm) then inl (bs "file header disagrees with the parse on fEND")
        else if negb (zlen treeKeyHeader =? keylen (treeKey fm)) || (keylen (treeKey fm) <? 26) then inl (bs "tree key header missing")
        else if (zipBytesOff fm =? 0) || (autoFlushOff fm =? 0) || (zipBytes fm <=? 0) then inl (bs "tree record fields not located")
        else inr h
    end.

Definition layoutForFill (fm : FileMeta) (fileSize : Z) (header treeKeyHeader keysList : bytes)
    (codecs : list bytes) (slotFactor100 : Z) : FillLayout :=
  match fill_gates fm header treeKeyHeader slotFactor100 with
  | inl why => decline new_layout why
  | inr h =>
      let rel := relocated_of fm codecs (h_compress h) in
      if bool_decide (rel = []) then decline new_layout (bs "no relocatable branch")
      else if negb (fileSize =? w64 (fend fm)) then
        decline new_layout (bs "file size " ++ UrlKey.to_string fileSize ++ bs " differs from fEND " ++ UrlKey.to_string (fend fm))
      else
        let metaSeek := (fileSize +% kAlign -% 1) / kAlign *% kAlign in
        let reserve := keylen (treeKey fm) + zlen (treeBlob fm) in
        let slotsBegin := metaSeek +% reserve in
        let '(at_, blob, out) := fill_slots fm slotFactor100 rel slotsBegin in
        let rec := treeKeyHeader ++ meta_payload blob in
        let L := mkLayout [] fileSize at_ [] metaSeek rec slotsBegin out rel in
        if reserve <? zlen rec then decline L (bs "metadata key outgrew its reservation")
        else
          match putKeySeek (bePut 4 rec 0 (zlen rec)) 0 (ver (treeKey fm)) metaSeek with
          | None => decline L (bs "tree key is 32-bit and the extension starts past 2 GiB")
          | Some rec =>
              let L := mkLayout [] fileSize at_ [] metaSeek rec slotsBegin out rel in
              match keys_window fm keysList L with
              | inl L => L
              | inr klist =>
                  match headerWindowForEnd header at_ with
                  | None => decline L (bs "file header unreadable or fBEGIN below 75")
                  | Some w => mkLayout [] fileSize at_ [w; (w64 (keyslistSeek fm), klist)] metaSeek rec slotsBegin out rel
                  end
              end
          end
  end.

(** ** A basket and its slot *)
Inductive Kind := kZstd | kRaw | kOriginal.
Record ConvertedBasket := mkConv { kind : Kind; record : bytes; codec : bytes; c_error : bytes }.

Definition convertBasket (rec : bytes) (slotLen : Z) (codecs : list bytes) : ConvertedBasket :=
  let n := zlen rec in
  match parseKey rec 0 with
  | None => mkConv kOriginal [] [] (bs "not a basket record")
  | Some k =>
      if negb (bytes_eqb (cls k) (bs "TBasket")) || (nbytes k <=? 0) || negb (nbytes k =? n) || (n <? keylen k)
      then mkConv kOriginal [] [] (bs "not a basket record")
      else if slotLen <? n then mkConv kOriginal [] [] (bs "record longer than its slot")
      else
        let pay := zsub rec (keylen k) (n - keylen k) in
        if objlen k =? nbytes k - keylen k then mkConv kOriginal rec [] []
        else
          let c := frameCodec pay in
          if negb (listed codecs c) || (objlen k <=? 0) then mkConv kOriginal rec c []
          else
            let raw := decompressFrames pay (objlen k) in
            if bytes_eqb raw [] then mkConv kOriginal rec c []
            else
              let z := encodeZstdFrames raw 1 in
              let with_payload kd use :=
                let r := zsub rec 0 (keylen k) ++ use in mkConv kd (bePut 4 r 0 (zlen r)) c [] in
              if negb (bytes_eqb z []) && (zlen z <? zlen raw) then
                if keylen k + zlen z <=? slotLen then with_payload kZstd z else mkConv kOriginal rec c []
              else if keylen k + zlen raw <=? slotLen then with_payload kRaw raw
              else mkConv kOriginal rec c []
  end.

Definition patchKeySeek (rec : bytes) (seek : Z) : option bytes :=
  if (zlen rec <? 26) || (p63 - 1 <? seek) then None
  else
    let ver := beGet 2 rec 4 in
    if (1000 <? ver) && (zlen rec <? 34) then None else putKeySeek rec 0 ver seek.

(** The bytes of the slot, or why there are none. *)
Definition placeInSlot (c : ConvertedBasket) (slot : FillSlot) : bytes + bytes :=
  if negb (bytes_eqb (c_error c) []) || (zlen (record c) <? 26)
  then inl (if bytes_eqb (c_error c) [] then bs "empty record" else c_error c)
  else if vLen slot <? zlen (record c) then inl (bs "record longer than its slot")
  else
    match putKeySeek (record c) 0 (beGet 2 (record c) 4) (vSeek slot) with
    | None => inl (bs "32-bit basket key cannot address a slot past 2 GiB")
    | Some out => inr (out ++ zeros (vLen slot - zlen (record c)))
    end.
End ops.
End Fill.
