(* ===== verification/FillHeader.v ===== *)
(** * The header a reader of the layout is shown (src/transpose/FillLayout.cc)

    [headerWindowForEnd] against [parseHeader]: the header with the window applied is the
    file's header with another end, whichever of the two layouts it is in. *)

From S2P Require Import Prelude RootFile TreeMeta FillLayout.

Module FillHeader.
Import Root TreeData Fill.

(** What a field of a patched buffer reads. *)
Lemma beGetS_ext n a b off : zsub a off (Z.of_nat n) = zsub b off (Z.of_nat n) -> beGetS n a off = beGetS n b off.
Proof. unfold beGetS, beGet. by intros ->. Qed.
Lemma zget_zsub1 (l l' : bytes) i : 0 <= i < zlen l -> i < zlen l' -> zsub l i 1 = zsub l' i 1 -> zget l i = zget l' i.
Proof.
  intros H H' E. unfold zget. rewrite !nth_lookup. assert (forall q : bytes, 0 <= i -> q !! Z.to_nat i = head (zsub q i 1)) as Hd.
  { intros q Hq. unfold zsub. change (Z.to_nat 1) with 1%nat. rewrite <- (Nat.add_0_r (Z.to_nat i)), <- lookup_drop, Nat.add_0_r. by destruct (drop _ q). }
  by rewrite !Hd, E by lia.
Qed.

(** The fields that are the same in both. *)
Record same_fields (a b : Header) : Prop := {
  sf_begin : begin a = begin b; sf_free : seekFree a = seekFree b; sf_info : seekInfo a = seekInfo b;
  sf_nfree : nbytesFree a = nbytesFree b; sf_n : nfree a = nfree b; sf_name : nbytesName a = nbytesName b;
  sf_comp : h_compress a = h_compress b; sf_ninfo : nbytesInfo a = nbytesInfo b; sf_uuid : uuid a = uuid b }.

Lemma parseHeader_inv h H : parseHeader h = Some H ->
  75 <= zlen h /\ zsub h 0 4 = bs "root" /\ 75 <= begin H /\ large H = (1000000 <=? version H) /\ version H = beGetS 4 h 4 /\ begin H = beGetS 4 h 8.
Proof.
  unfold parseHeader. destruct (_ || _)%bool eqn:E; [done|]. b2p. apply bool_decide_eq_true in H1.
  destruct (75 <=? beGetS 4 h 8) eqn:Eb; [|done]. apply Z.leb_le in Eb.
  destruct (1000000 <=? beGetS 4 h 4) eqn:Ev; intros [= <-]; cbn; by rewrite Ev.
Qed.

(** A window over the end field alone. *)
Lemma window_at_12 h w H (n := if large H then 8%nat else 4%nat) newEnd : Forall is_byte h -> parseHeader h = Some H ->
  w = be_bytes n newEnd -> 0 <= newEnd < 2 ^ (8 * Z.of_nat n - 1) ->
  exists H', parseHeader (zsplice h 12 w) = Some H' /\ h_end H' = newEnd /\ same_fields H' H /\ large H' = large H /\ version H' = version H /\ units H' = units H.
Proof.
  intros Hb HP Hw He. destruct (parseHeader_inv h H HP) as (L & R & B & Hl & Hv & _).
  assert (zlen w = Z.of_nat n /\ zlen w <= 8) as [Lw Lw8] by (rewrite Hw, zlen_be; unfold n; destruct (large H); lia).
  assert (zlen (zsplice h 12 w) = zlen h) as L' by (apply zlen_zsplice; lia).
  assert (forall o m, 0 <= o -> 0 <= m -> o + m <= 12 -> zsub (zsplice h 12 w) o m = zsub h o m) as Bf by (intros; apply zsub_zsplice_before; lia).
  assert (forall o m, 12 + zlen w <= o -> zsub (zsplice h 12 w) o m = zsub h o m) as Af by (intros; apply zsub_zsplice_after; lia).
  assert (beGetS n (zsplice h 12 w) 12 = newEnd) as En.
  { apply beGetS_be; [unfold n; destruct (large H); lia| |lia]. rewrite <- Lw. rewrite zsub_zsplice_same; [done|lia..]. }
  unfold parseHeader in *. rewrite L', Bf, (beGetS_ext 4 (zsplice h 12 w) h 4), (beGetS_ext 4 (zsplice h 12 w) h 8) by (lia || (apply Bf; lia)).
  destruct (_ || _)%bool; [done|]. destruct (75 <=? beGetS 4 h 8); [|done]; destruct (1000000 <=? beGetS 4 h 4); injection HP as <-; cbn in *; subst n;
    (eexists; split; [reflexivity|]); cbn; (split; [exact En|]); (split; [|by repeat split; apply zget_zsub1; rewrite ?L'; try lia; apply Af; lia]);
    constructor; cbn; try done; try (apply beGetS_ext, Af; cbn in Lw; lia); apply Af; cbn in Lw; lia.
Qed.

(** Membership in a literal list of fields. *)
Ltac in_list := repeat (apply elem_of_cons; first [left; reflexivity | right]).

(** The whole header in the 64-bit layout. *)
Lemma parse_ranges h H : Forall is_byte h -> parseHeader h = Some H -> large H = false ->
  - 2 ^ 31 <= version H < 1000000 /\ - 2 ^ 31 <= begin H < 2 ^ 31 /\ - 2 ^ 31 <= seekFree H < 2 ^ 31 /\ - 2 ^ 31 <= seekInfo H < 2 ^ 31 /\
  - 2 ^ 31 <= nbytesFree H < 2 ^ 31 /\ - 2 ^ 31 <= nfree H < 2 ^ 31 /\ - 2 ^ 31 <= nbytesName H < 2 ^ 31 /\
  - 2 ^ 31 <= h_compress H < 2 ^ 31 /\ - 2 ^ 31 <= nbytesInfo H < 2 ^ 31 /\ zlen (uuid H) = 18.
Proof.
  intros Hb HP Hs. assert (forall off, - 2 ^ 31 <= beGetS 4 h off < 2 ^ 31) as R.
  { intros off. unfold beGetS. apply (signed_range 4); [lia|]. rewrite beGet_eq by done.
    assert (Forall is_byte (rev (zsub h off (Z.of_nat 4)))) as Hr by (apply Forall_rev; by apply Forall_zsub).
    pose proof (le_val_range _ Hr) as [? Hu]. split; [done|]. eapply Z.lt_le_trans; [exact Hu|]. change (2 ^ (8 * Z.of_nat 4)) with (p8 ^ 4).
    apply Z.pow_le_mono_r; [lia|]. unfold zlen. rewrite length_rev. apply (zlen_zsub_le h off 4). lia. }
  destruct (parseHeader_inv h H HP) as (L & _ & _ & Hl & Hv & _). rewrite Hs in Hl. symmetry in Hl. apply Z.leb_gt in Hl.
  unfold parseHeader in HP. destruct (_ || _)%bool; [done|]. destruct (75 <=? beGetS 4 h 8); [|done].
  destruct (1000000 <=? beGetS 4 h 4); injection HP as <-; [done|]. cbn in *. repeat split; try apply R; [lia|]. by rewrite zlen_zsub by lia.
Qed.

Lemma promoted h H newEnd : Forall is_byte h -> parseHeader h = Some H -> large H = false -> 0 <= version H -> 0 <= newEnd < p63 ->
  exists H', parseHeader (zsplice h 0 (largeHeader H newEnd)) = Some H' /\ h_end H' = newEnd /\ same_fields H' H /\
    large H' = true /\ version H' = version H + 1000000 /\ units H' = 8.
Proof.
  intros Hb HP Hs Hv0 He. destruct (parseHeader_inv h H HP) as (L & _ & B & _ & _ & _).
  destruct (parse_ranges h H Hb HP Hs) as (Rv & Rb & Rf & Ri & Rn & Rc & Rm & Rk & Rj & Ru).
  unfold largeHeader. rewrite Hs. set (fs := _ :: _). assert (fields_ok 0 75 fs) as Hf.
  { unfold fs. cbn [fields_ok]. rewrite !zlen_be, Ru. change (zlen (bs "root")) with 4. change (zlen [8]) with 1. lia. }
  set (w := write_all fs (zeros 75)). assert (zlen w = 75) as Lw by (unfold w; rewrite (write_all_len _ _ 0); rewrite ?zlen_zeros; lia || done).
  assert (zlen (zsplice h 0 w) = zlen h) as L' by (apply zlen_zsplice; lia).
  assert (forall o x n, (o, x) ∈ fs -> n = zlen x -> 0 <= o -> o + n <= 75 -> zsub (zsplice h 0 w) o n = x) as G.
  { intros o x n Hin -> Ho Hn. pose proof (zlen_nonneg x). rewrite zsub_zsplice_inner by lia. rewrite Z.sub_0_r.
    apply (write_all_get _ _ 0); [lia|by rewrite zlen_zeros by lia|done|done]. }
  assert (forall (n : nat) o v, (0 < n)%nat -> (o, be_bytes n v) ∈ fs -> 0 <= o -> o + Z.of_nat n <= 75 -> - 2 ^ (8 * Z.of_nat n - 1) <= v < 2 ^ (8 * Z.of_nat n - 1) ->
    beGetS n (zsplice h 0 w) o = v) as GS.
  { intros n o v Hn Hin Ho Hon Hv. apply beGetS_be; [done| |done]. apply G; [done|by rewrite zlen_be|done|done]. }
  assert (zget (zsplice h 0 w) 40 = 8) as G8.
  { assert (zsub (zsplice h 0 w) 40 1 = [8]) as E by (apply G; [unfold fs; in_list|done|lia..]).
    rewrite <- (Z.add_0_r 40), <- zget_drop by lia. unfold zsub in E. change (Z.to_nat 1) with 1%nat in E. destruct (drop (Z.to_nat 40) _); [done|]. by injection E as ->. }
  assert (zsub (zsplice h 0 w) 57 18 = uuid H) as Gu by (apply G; [unfold fs; in_list|by rewrite Ru|lia..]).
  unfold parseHeader. rewrite L', (G 0 (bs "root") 4) by (unfold fs; in_list || done || lia).
  rewrite (GS 4%nat 4 (version H + 1000000)) by (unfold fs; in_list || lia).
  rewrite (GS 4%nat 8 (begin H)) by (unfold fs; in_list || lia).
  rewrite (proj2 (Z.ltb_ge _ _)), (proj2 (Z.leb_le 1000000 _)), (proj2 (Z.leb_le 75 _)) by lia.
  eexists. split; [reflexivity|]. cbn [h_end large version units]. split; [|split; [|by rewrite G8]].
  - apply GS; [lia|unfold fs; in_list|lia..].
  - constructor; cbn [begin seekFree seekInfo nbytesFree nfree nbytesName h_compress nbytesInfo uuid]; try exact Gu; try done; apply GS; try lia; unfold fs; in_list.
Qed.

(** the header window. A reader that parses the file's header with the window applied
    finds the new end, at whichever width holds it, and every other field as the file has it: the
    window over a 64-bit header or a small end is the end field alone, and otherwise the header
    is rewritten in the 64-bit layout, with its version raised and its pointer width set. The
    window stays inside the 75 bytes no record can start before. *)
Theorem header_window_correct h H newEnd off w :
  Forall is_byte h -> parseHeader h = Some H -> 0 <= version H -> 0 <= newEnd < p63 ->
  headerWindowForEnd h newEnd = Some (off, w) ->
  0 <= off /\ off + zlen w <= 75 <= begin H /\
  exists H', parseHeader (zsplice h off w) = Some H' /\ h_end H' = newEnd /\ same_fields H' H /\
    large H' = (large H || (p31 <=? newEnd)) /\
    (if Bool.eqb (large H') (large H) then version H' = version H /\ units H' = units H
     else version H' = version H + 1000000 /\ units H' = 8).
Proof.
  intros Hb HP Hv He HW. destruct (parseHeader_inv h H HP) as (L & _ & B & _). unfold headerWindowForEnd in HW. rewrite HP in HW.
  destruct (large H) eqn:El; [|destruct (newEnd <? p31) eqn:En]; injection HW as <- <-; b2p.
  - rewrite zlen_be. split; [lia|]. split; [lia|]. destruct (window_at_12 h (be_bytes 8 newEnd) H newEnd) as (H' & P' & E' & S' & L' & V' & U');
      [done|done|by rewrite El|rewrite El; cbn; lia|]. exists H'. rewrite El in L'. by rewrite L'.
  - rewrite zlen_be. split; [lia|]. split; [lia|]. destruct (window_at_12 h (be_bytes 4 newEnd) H newEnd) as (H' & P' & E' & S' & L' & V' & U');
      [done|done|by rewrite El|rewrite El; cbn; lia|]. exists H'. rewrite El in L'. rewrite L', (proj2 (Z.leb_gt _ _)) by lia. done.
  - destruct (parse_ranges h H Hb HP El) as (_ & _ & _ & _ & _ & _ & _ & _ & _ & Ru).
    destruct (promoted h H newEnd Hb HP El Hv He) as (H' & P' & E' & S' & L' & V' & U'). split; [lia|]. split.
    + unfold largeHeader. rewrite (write_all_len _ _ 0); rewrite ?zlen_zeros; try lia. cbn [fields_ok].
      rewrite !zlen_be, Ru. change (zlen (bs "root")) with 4. change (zlen [8]) with 1. lia.
    + exists H'. rewrite L', (proj2 (Z.leb_le _ _)) by lia. done.
Qed.

(** A file of 1000 bytes whose layout ends past 2 GiB. *)
Definition demo_header : bytes :=
  bs "root" ++ be_bytes 4 62406 ++ be_bytes 4 100 ++ be_bytes 4 1000 ++ be_bytes 4 900 ++ be_bytes 4 50 ++ be_bytes 4 1 ++ be_bytes 4 60 ++
  [4] ++ be_bytes 4 101 ++ be_bytes 4 800 ++ be_bytes 4 70 ++ zeros 18 ++ zeros 37.
Lemma header_window_correct_witness :
  exists H', parseHeader (zsplice demo_header 0 (snd (default (0, []) (headerWindowForEnd demo_header 3000000000)))) = Some H' /\
    h_end H' = 3000000000 /\ large H' = true /\ seekFree H' = 900.
Proof.
  assert (Forall is_byte demo_header) as Hb by (apply Forall_forall; intros x Hx; assert (forallb (fun b => (0 <=? b) && (b <? 256)) demo_header = true) as F by reflexivity;
    rewrite List.forallb_forall in F; apply list_elem_of_In, F in Hx; b2p; unfold is_byte; lia).
  destruct (parseHeader demo_header) as [H|] eqn:E; [|discriminate E].
  assert (version H = 62406 /\ large H = false /\ seekFree H = 900) as (V & L & F) by (vm_compute in E; injection E as <-; done).
  destruct (headerWindowForEnd demo_header 3000000000) as [[off w]|] eqn:W; [|discriminate W].
  assert (off = 0) as -> by (unfold headerWindowForEnd in W; rewrite E, L in W; by injection W as <- _).
  destruct (header_window_correct demo_header H 3000000000 0 w Hb E ltac:(lia) ltac:(lia) W) as (_ & _ & H' & P & En & S & Lg & _).
  exists H'. split; [exact P|]. split; [exact En|]. split; [rewrite Lg; apply orb_true_r|]. rewrite (sf_free _ _ S). exact F.
Defined.
End FillHeader.
