(* ===== verification/FillBasket.v ===== *)
(** * A converted basket reads as the original (src/transpose/FillLayout.cc)

    [convertBasket] followed by [placeInSlot], seen by the reader: it parses the key at the
    slot's offset, takes [fNbytes] for the record and decodes its payload. *)

From S2P Require Import Prelude RootFile TreeMeta FillLayout FillHeader.

Module FillBasket.
Import Root TreeData Fill FillHeader.

(** ** Keys of patched records *)
Definition key_start (k : KeyInfo) : Z := if 1000 <? ver k then 34 else 26.
Definition key_end (k : KeyInfo) : Z := key_start k + 3 + zlen (cls k) + zlen (name k) + zlen (title k).
(** Two buffers agree on [[a, b)]. *)
Definition agree (p p' : bytes) (a b : Z) : Prop := zsub p a (b - a) = zsub p' a (b - a).

Lemma agree_sub p p' a b o n : agree p p' a b -> 0 <= a -> a <= o -> 0 <= n -> o + n <= b -> zsub p o n = zsub p' o n.
Proof.
  intros E H0 Ha Hn Hb. replace o with (a + (o - a)) by lia. rewrite <- (zsub_zsub p a (b - a)), <- (zsub_zsub p' a (b - a)) by lia. by rewrite E.
Qed.

Lemma key_str_inv p q s q' : Forall is_byte p -> zlen p < p63 -> 0 <= q < p63 -> key_str p 0 q = Some (s, q') ->
  q' = q + 1 + zlen s /\ zlen s = zget p q /\ s = zsub p (q + 1) (zlen s) /\ q' <= zlen p.
Proof.
  intros Hb Hl Hq. unfold key_str. assert (is_byte (zget p q)) as B by (apply Forall_zget; [done|unfold is_byte; lia]). unfold is_byte in B.
  rewrite !Z.add_0_l. nowrap. case_match; [done|]. case_match; [done|]. intros [= <- <-]. b2p.
  assert (zlen (zsub p (q + 1) (zget p q)) = zget p q) as E by (apply zlen_zsub; lia). rewrite !E. split; [lia|]. split; [done|]. split; [done|lia].
Qed.
Lemma key_str_ext p p' q s q' a e : Forall is_byte p -> zlen p < p63 -> zlen p' < p63 -> 0 <= a <= q -> q < p63 -> q' <= e -> e <= zlen p' ->
  agree p p' a e -> key_str p 0 q = Some (s, q') -> key_str p' 0 q = Some (s, q').
Proof.
  intros Hb Hl Hl' Ha Hq Hqe He Hag HK. destruct (key_str_inv p q s q' Hb Hl ltac:(lia) HK) as (E1 & E2 & E3 & E4).
  pose proof (zlen_nonneg s). assert (zget p' q = zlen s) as G.
  { rewrite E2. symmetry. apply zget_zsub1; [lia..|]. apply (agree_sub p p' a e); [done|lia..]. }
  assert (zlen s < p8) as L. { rewrite E2. pose proof (Forall_zget is_byte p q Hb). unfold is_byte in *. lia. }
  unfold key_str. rewrite !Z.add_0_l, G. nowrap. rewrite (proj2 (Z.leb_gt _ _)), (proj2 (Z.ltb_ge _ _)) by lia.
  rewrite <- (agree_sub p p' a e) by (done || lia). rewrite <- E3. do 2 f_equal. lia.
Qed.

Lemma parseKey_end p k : Forall is_byte p -> zlen p < p63 -> parseKey p 0 = Some k ->
  34 <= zlen p /\ key_end k <= zlen p /\ 36 <= key_end k + 7 /\
  exists q1 q2, key_str p 0 (key_start k) = Some (cls k, q1) /\ key_str p 0 q1 = Some (name k, q2) /\ key_str p 0 q2 = Some (title k, key_end k) /\
    key_start k < q1 < q2 /\ q2 < key_end k /\
  nbytes k = beGetS 4 p 0 /\ ver k = beGet 2 p 4 /\ objlen k = beGetS 4 p 6 /\ keylen k = beGet 2 p 14 /\ cycle k = beGet 2 p 16 /\
  seekkey k = (if 1000 <? ver k then beGetS 8 p 18 else beGetS 4 p 18).
Proof.
  intros Hb Hl. unfold parseKey. nowrap. rewrite !Z.add_0_l. case_match eqn:E0; [done|]. b2p.
  set (sq := if 1000 <? beGet 2 p 4 then _ else _). destruct sq as [sk q] eqn:Esq.
  assert (q = (if 1000 <? beGet 2 p 4 then 34 else 26) /\ sk = (if 1000 <? beGet 2 p 4 then beGetS 8 p 18 else beGetS 4 p 18)) as [-> ->]
    by (unfold sq in Esq; by destruct (1000 <? beGet 2 p 4); injection Esq as <- <-).
  destruct (key_str p 0 (if 1000 <? beGet 2 p 4 then 34 else 26)) as [[c q1]|] eqn:E1; [|done].
  destruct (key_str p 0 q1) as [[nm q2]|] eqn:E2; [|done]. destruct (key_str p 0 q2) as [[t q3]|] eqn:E3; [|done].
  intros [= <-]. unfold key_end, key_start. cbn [cls name title ver nbytes objlen keylen cycle seekkey].
  set (q0 := if 1000 <? beGet 2 p 4 then 34 else 26) in *. assert (26 <= q0 <= 34) by (unfold q0; case_match; lia).
  pose proof (zlen_nonneg c). pose proof (zlen_nonneg nm). pose proof (zlen_nonneg t).
  destruct (key_str_inv p q0 c q1 Hb Hl ltac:(lia) E1) as (Q1 & _ & _ & B1).
  destruct (key_str_inv p q1 nm q2 Hb Hl ltac:(lia) E2) as (Q2 & _ & _ & B2).
  destruct (key_str_inv p q2 t q3 Hb Hl ltac:(lia) E3) as (Q3 & _ & _ & B3).
  split; [lia|]. split; [lia|]. split; [lia|]. exists q1, q2.
  split; [done|]. split; [done|]. split; [rewrite E3; do 2 f_equal; lia|]. split; [lia|]. split; [lia|]. done.
Qed.

(** A record that agrees with the original outside [fNbytes] and [fSeekKey]. *)
Lemma parseKey_patch p p' k nb seek : Forall is_byte p -> zlen p < p63 -> zlen p' < p63 -> parseKey p 0 = Some k ->
  34 <= zlen p' -> key_end k <= zlen p' -> beGetS 4 p' 0 = nb -> agree p p' 4 18 ->
  (if 1000 <? ver k then beGetS 8 p' 18 else beGetS 4 p' 18) = seek -> agree p p' (key_start k) (key_end k) ->
  parseKey p' 0 = Some (mkKey nb (ver k) (objlen k) (keylen k) (cycle k) seek (cls k) (name k) (title k)).
Proof.
  intros Hb Hl Hl' HP H34 He Hn Ha4 Hs Hak. destruct (parseKey_end p k Hb Hl HP) as (_ & _ & _ & q1 & q2 & K1 & K2 & K3 & O1 & O2 & _ & V & O & Kl & Cy & _).
  assert (26 <= key_start k <= 34) by (unfold key_start; case_match; lia).
  assert (forall n o, 4 <= o -> o + Z.of_nat n <= 18 -> beGet n p' o = beGet n p o) as G.
  { intros n o ? ?. unfold beGet. by rewrite (agree_sub p p' 4 18) by (done || lia). }
  assert (beGetS 4 p' 6 = beGetS 4 p 6) as G6 by (unfold beGetS; by rewrite G by lia).
  unfold parseKey. nowrap. rewrite !Z.add_0_l. rewrite (proj2 (Z.ltb_ge _ _)) by lia.
  rewrite (G 2%nat 4), <- V by lia. 
  assert (forall A (x y : A) , (if 1000 <? ver k then (x, 34) else (y, 26)) = (if 1000 <? ver k then x else y, key_start k)) as -> by (intros; unfold key_start; by case_match).
  rewrite Hs.
  rewrite (key_str_ext p p' (key_start k) (cls k) q1 (key_start k) (key_end k)) by (done || lia).
  rewrite (key_str_ext p p' q1 (name k) q2 (key_start k) (key_end k)) by (done || lia).
  rewrite (key_str_ext p p' q2 (title k) (key_end k) (key_start k) (key_end k)) by (done || lia).
  rewrite G6, (G 2%nat 14), (G 2%nat 16), Hn, O, Kl, Cy by lia. done.
Qed.

(** ** What the reader decodes *)
Section reader.
Context `{CD : Codecs}.

(** The bytes of the object behind a record: its key says where the payload is, how long the
    record is and how long the object; a payload of that length is stored raw. *)
Definition content (rec : bytes) : option bytes :=
  match parseKey rec 0 with
  | None => None
  | Some k =>
      let pay := zsub rec (keylen k) (nbytes k - keylen k) in
      Some (if objlen k =? nbytes k - keylen k then pay else decompressFrames pay (objlen k))
  end.

Definition with_length (k : KeyInfo) (nb seek : Z) : KeyInfo :=
  mkKey nb (ver k) (objlen k) (keylen k) (cycle k) seek (cls k) (name k) (title k).

(** A record with the original's key and the payload [use], placed in the slot. *)
Lemma place_reads rec k b use kd cd slot : Forall is_byte rec -> zlen rec < p31 -> parseKey rec 0 = Some k -> key_end k <= keylen k <= zlen rec -> 34 <= keylen k ->
  zlen b = keylen k + zlen use -> zlen b <= vLen slot -> vLen slot < p31 -> 0 <= vSeek slot < p63 ->
  agree rec b 4 (keylen k) -> zsub b (keylen k) (zlen use) = use -> beGetS 4 b 0 = zlen b ->
  1000 < ver k \/ vSeek slot < p31 ->
  exists out, placeInSlot (mkConv kd b cd []) slot = inr out /\ zlen out = vLen slot /\
    parseKey out 0 = Some (with_length k (zlen b) (vSeek slot)) /\ zsub out (keylen k) (zlen use) = use /\
    zsub out (zlen b) (vLen slot - zlen b) = zeros (vLen slot - zlen b).
Proof.
  intros Hb Hl HP Hk H34 Lb Hfit Hv31 Hseek Hag Hu Hn Hw.
  destruct (parseKey_end rec k Hb ltac:(lia) HP) as (L34 & _ & _ & q1 & q2 & _ & _ & _ & O1 & O2 & _ & V & _).
  pose proof (zlen_nonneg use). assert (26 <= key_start k <= 34) by (unfold key_start; case_match; lia).
  assert (beGet 2 b 4 = ver k) as Vb by (rewrite V; unfold beGet; by rewrite (agree_sub rec b 4 (keylen k)) by (done || lia)).
  set (n := if 1000 <? ver k then 8%nat else 4%nat). assert (18 + Z.of_nat n = key_start k - (if 1000 <? ver k then 8 else 4)) as Ks by (unfold n, key_start; case_match; done).
  assert (putKeySeek b 0 (ver k) (vSeek slot) = Some (bePut n b 18 (vSeek slot))) as EP.
  { unfold putKeySeek, n. destruct (1000 <? ver k) eqn:E; [done|]. b2p. rewrite (proj2 (Z.ltb_ge (vSeek slot) 0)), (proj2 (Z.leb_gt p31 _)) by lia. done. }
  assert (18 + Z.of_nat n <= keylen k) as Ln by (rewrite Ks; case_match; lia).
  set (b' := bePut n b 18 (vSeek slot)) in *. assert (zlen b' = zlen b) as Lb' by (apply zlen_bePut; lia).
  set (out := b' ++ zeros (vLen slot - zlen b)). assert (zlen out = vLen slot) as Lo by (unfold out; rewrite zlen_app, zlen_zeros; lia).
  assert (forall o m, 0 <= o -> 0 <= m -> o + m <= 18 -> zsub out o m = zsub b o m) as Bf.
  { intros. unfold out. rewrite zsub_app_l by lia. unfold b', bePut. apply zsub_zsplice_before; lia. }
  assert (forall o m, 18 + Z.of_nat n <= o -> 0 <= m -> o + m <= zlen b -> zsub out o m = zsub b o m) as Af.
  { intros. unfold out. rewrite zsub_app_l by lia. unfold b', bePut. apply zsub_zsplice_after; rewrite ?zlen_be; lia. }
  exists out. split.
  { unfold placeInSlot. cbn [c_error record]. change (bytes_eqb [] []) with true. cbn [negb orb]. rewrite (proj2 (Z.ltb_ge (zlen b) 26)), (proj2 (Z.ltb_ge (vLen slot) _)), Vb, EP by lia. done. }
  split; [done|]. split; [|split].
  - apply (parseKey_patch rec); try done; try lia.
    + rewrite <- Hn. apply beGetS_ext, Bf; lia.
    + unfold agree. rewrite Bf by lia. apply (agree_sub rec b 4 (keylen k)); done || lia.
    + assert (beGetS n out 18 = vSeek slot) as Es.
      { apply beGetS_be; [unfold n; case_match; lia| |].
        - unfold out. rewrite zsub_app_l by lia. unfold b', bePut. apply zsub_zsplice_same; rewrite ?zlen_be; lia.
        - unfold n. destruct (1000 <? ver k) eqn:E; b2p; cbn; lia. }
      unfold n in Es. by destruct (1000 <? ver k).
    + unfold agree. rewrite Af by (rewrite ?Ks; destruct (1000 <? ver k); lia). apply (agree_sub rec b 4 (keylen k)); done || lia.
  - rewrite Af by lia. done.
  - unfold out. rewrite zsub_app_r, Lb', Z.sub_diag by lia. apply zsub_all. by rewrite zlen_zeros by lia.
Qed.

Lemma decompress_len pay n : decompressFrames pay n <> [] -> zlen (decompressFrames pay n) = n.
Proof.
  assert (forall fuel p out r, frames fuel pay n p out = Some r -> r <> [] -> zlen r = n) as F.
  { induction fuel as [|fuel IH]; intros p out r; cbn [frames]; [done|]. case_match; b2p.
    - destruct (frame_at pay p) as [[d p']|]; [by apply IH|by intros [= <-]].
    - case_match; b2p; intros [= <-]; done. }
  unfold decompressFrames. destruct (frames _ _ _ _ _) eqn:E; [|done]. eauto.
Qed.

(** The record of a conversion, from its payload. *)
Lemma rebuilt rec k use : 34 <= keylen k <= zlen rec -> keylen k + zlen use < p31 ->
  let b := bePut 4 (zsub rec 0 (keylen k) ++ use) 0 (zlen (zsub rec 0 (keylen k) ++ use)) in
  zlen b = keylen k + zlen use /\ agree rec b 4 (keylen k) /\ zsub b (keylen k) (zlen use) = use /\ beGetS 4 b 0 = zlen b.
Proof.
  intros Hk Hl. set (r := zsub rec 0 (keylen k) ++ use). pose proof (zlen_nonneg use).
  assert (zlen (zsub rec 0 (keylen k)) = keylen k) as L1 by (apply zlen_zsub; lia).
  assert (zlen r = keylen k + zlen use) as Lr by (unfold r; rewrite zlen_app; lia).
  cbn zeta. assert (zlen (bePut 4 r 0 (zlen r)) = zlen r) as Lb by (apply zlen_bePut; lia).
  split; [lia|].
  assert (forall o m, 4 <= o -> zsub (bePut 4 r 0 (zlen r)) o m = zsub r o m) as Af by (intros; apply zsub_zsplice_after; rewrite ?zlen_be; lia).
  split; [|split].
  - unfold agree. rewrite Af by lia. unfold r. rewrite zsub_app_l by lia. rewrite zsub_zsub by lia. done.
  - rewrite Af by lia. unfold r. rewrite zsub_app_r, L1, Z.sub_diag by lia. by apply zsub_all.
  - rewrite Lb. apply beGetS_be; [lia| |cbn; lia]. apply zsub_zsplice_same; rewrite ?zlen_be; lia.
Qed.

(** What a slot holds once [c] is placed in it. *)
Definition placed_ok (rec : bytes) (k : KeyInfo) (slot : FillSlot) (c : ConvertedBasket) : Prop :=
  exists out, placeInSlot c slot = inr out /\ zlen out = vLen slot /\
    parseKey out 0 = Some (with_length k (zlen (record c)) (vSeek slot)) /\ content out = content rec /\
    zsub out (zlen (record c)) (vLen slot - zlen (record c)) = zeros (vLen slot - zlen (record c)).

Section one.
Context (rec : bytes) (k : KeyInfo) (slot : FillSlot) (cd : bytes).
Hypotheses (Hb : Forall is_byte rec) (Hl : zlen rec < p31) (HP : parseKey rec 0 = Some k) (Hk : key_end k <= keylen k <= zlen rec)
  (H34 : 34 <= keylen k) (Hn : nbytes k = zlen rec) (Hv : vLen slot < p31) (Hs : 0 <= vSeek slot < p63)
  (Hw : 1000 < ver k \/ vSeek slot < p31) (Hfit : zlen rec <= vLen slot).

Lemma place_original : placed_ok rec k slot (mkConv kOriginal rec cd []).
Proof using Hb Hl HP Hk H34 Hn Hv Hs Hw Hfit.
  assert (zlen (zsub rec (keylen k) (zlen rec - keylen k)) = zlen rec - keylen k) as Lu by (apply zlen_zsub; lia).
  destruct (parseKey_end rec k Hb ltac:(lia) HP) as (_ & _ & _ & q1 & q2 & _ & _ & _ & _ & _ & Nb & _).
  destruct (place_reads rec k rec (zsub rec (keylen k) (zlen rec - keylen k)) kOriginal cd slot) as (out & E & Lo & Pk & Pu & Pz); try done; try lia.
  { by rewrite Lu. }
  exists out. split; [done|]. split; [done|]. split; [done|]. split; [|done]. unfold content. rewrite Pk, HP. cbn [keylen nbytes objlen with_length].
  rewrite Lu in Pu. by rewrite Hn, Pu.
Qed.

Lemma place_rebuilt kd use (b := bePut 4 (zsub rec 0 (keylen k) ++ use) 0 (zlen (zsub rec 0 (keylen k) ++ use))) : keylen k + zlen use <= vLen slot ->
  content rec = Some (if objlen k =? zlen use then use else decompressFrames use (objlen k)) ->
  placed_ok rec k slot (mkConv kd b cd []).
Proof using Hb Hl HP Hk H34 Hv Hs Hw.
  intros Hu Hc. destruct (rebuilt rec k use ltac:(lia) ltac:(lia)) as (Lb & Ag & Us & Nb). fold b in Lb, Ag, Us, Nb.
  destruct (place_reads rec k b use kd cd slot) as (out & E & Lo & Pk & Pu & Pz); try done; try lia.
  exists out. split; [done|]. split; [done|]. split; [done|]. split; [|done]. rewrite Hc. unfold content. rewrite Pk. cbn [keylen nbytes objlen with_length].
  replace (zlen b - keylen k) with (zlen use) by lia. by rewrite Pu.
Qed.
End one.

(** The record the conversion keeps decodes to the original's bytes; the codec's laws are used only
    where it writes a compressed payload. *)
Lemma convert_placed rec k slot codecs : Forall is_byte rec -> zlen rec < p31 -> parseKey rec 0 = Some k -> key_end k <= keylen k ->
  vLen slot < p31 -> 0 <= vSeek slot < p63 -> ZstdLaw ->
  (kMaxFrame < objlen k -> frames_fit (decompressFrames (zsub rec (keylen k) (zlen rec - keylen k)) (objlen k)) 1) ->
  1000 < ver k \/ vSeek slot < p31 -> c_error (convertBasket rec (vLen slot) codecs) = [] ->
  placed_ok rec k slot (convertBasket rec (vLen slot) codecs).
Proof.
  intros Hb Hl HP Hke Hv Hs Hlaw Hff Hw. unfold convertBasket. rewrite HP.
  destruct (_ || _)%bool eqn:E; [done|]. b2p. match goal with H : bytes_eqb (cls k) _ = true |- _ => apply bool_decide_eq_true in H as Hcls end.
  assert (nbytes k = zlen rec) as Hnb by done. destruct (vLen slot <? zlen rec) eqn:Ef; [done|]. b2p.
  assert (34 <= keylen k) as H34.
  { unfold key_end, key_start in Hke. rewrite Hcls in Hke. change (zlen (bs "TBasket")) with 7 in Hke. pose proof (zlen_nonneg (name k)). pose proof (zlen_nonneg (title k)). case_match; lia. }
  pose proof (fun cd => place_original rec k slot cd Hb Hl HP ltac:(lia) H34 ltac:(done) Hv Hs Hw ltac:(lia)) as PO.
  set (pay := zsub rec (keylen k) (zlen rec - keylen k)) in *.
  destruct (objlen k =? nbytes k - keylen k) eqn:Eraw; [intros _; apply PO|]. b2p.
  destruct (_ || _)%bool eqn:E2; [intros _; apply PO|]. b2p.
  destruct (bytes_eqb (decompressFrames pay (objlen k)) []) eqn:E3; [intros _; apply PO|]. apply bool_decide_eq_false in E3.
  pose proof (decompress_len pay (objlen k) E3) as Lraw. set (raw := decompressFrames pay (objlen k)) in *.
  assert (content rec = Some raw) as Hc.
  { unfold content. rewrite HP, Hnb. fold pay. rewrite (proj2 (Z.eqb_neq _ _)) by lia. done. }
  pose proof (fun kd use => place_rebuilt rec k slot (frameCodec pay) Hb Hl HP ltac:(lia) H34 Hv Hs Hw kd use) as PR.
  destruct (negb (bytes_eqb (encodeZstdFrames raw 1) []) && (zlen (encodeZstdFrames raw 1) <? zlen raw)) eqn:E4; b2p.
  - match goal with H : bytes_eqb (encodeZstdFrames raw 1) [] = false |- _ => apply bool_decide_eq_false in H end. destruct (keylen k + _ <=? vLen slot) eqn:E5; [|intros _; apply PO]. b2p. intros _. apply PR; [lia|].
    rewrite Hc, (proj2 (Z.eqb_neq _ _)) by lia. f_equal. rewrite <- Lraw. symmetry. apply frames_roundtrip; [done| |done].
    destruct (Z.le_gt_cases (objlen k) kMaxFrame); [by apply frames_fit_small; [lia|..]|by apply Hff].
  - destruct (keylen k + zlen raw <=? vLen slot) eqn:E5; [|intros _; apply PO]. b2p. intros _. apply PR; [lia|]. by rewrite Hc, Lraw, Z.eqb_refl.
Qed.
End reader.

Lemma parseKey_ver p k : parseKey p 0 = Some k -> beGet 2 p 4 = ver k.
Proof.
  unfold parseKey. destruct (zlen p <? 0 +% 34); [done|]. change (0 + 4) with 4.
  destruct (1000 <? beGet 2 p 4); (destruct (key_str p 0 _) as [[c q1]|]; [|done]); (destruct (key_str p 0 q1) as [[nm q2]|]; [|done]);
    (destruct (key_str p 0 q2) as [[t q3]|]; [|done]); by intros [= <-].
Qed.

(** What a successful placement says of the record. *)
Lemma placed_record `{CD : Codecs} rec k slot c : placed_ok rec k slot c -> 26 <= zlen (record c) <= vLen slot /\ beGet 2 (record c) 4 = ver k.
Proof.
  intros (out & E & Lo & Pk & _). unfold placeInSlot in E. destruct (_ || _)%bool eqn:E1; [done|]. destruct (vLen slot <? zlen (record c)) eqn:E2; [done|]. b2p.
  split; [lia|]. assert (beGet 2 out 4 = ver k) as <-.
  { by apply parseKey_ver in Pk. }
  destruct (putKeySeek _ _ _ _) as [r|] eqn:Ep; [|done]. injection E as <-.
  assert (zsub (r ++ zeros (vLen slot - zlen (record c))) 4 (Z.of_nat 2) = zsub (record c) 4 (Z.of_nat 2)) as Es; [|unfold beGet; by rewrite Es].
  unfold putKeySeek, bePut in Ep. case_match; [|case_match; [done|]]; injection Ep as <-;
    rewrite zsub_app_l by (rewrite ?zlen_zsplice; rewrite ?zlen_be; lia); apply zsub_zsplice_before; lia.
Qed.

(** C28: a reader cannot tell a converted basket from the original. For a record
    whose key header lies inside its declared length: it is refused exactly when it is
    not a whole basket record or is longer than its slot; otherwise the slot gets exactly its
    length, a key that says the record's new length and the slot's offset and is the original's in
    every other field, a payload that decodes to what the original's decodes to - also
    when that fails - and zeros to the end. Only a 32-bit key and a slot past 2 GiB are refused. Of an object
    over 16 MiB this asks that each of its chunks compresses into the 24 bits of a frame's length
    ([frames_fit]): [zstdFrames] does not check it. *)
Theorem basket_same_content `{CD : Codecs} rec k slot codecs :
  Forall is_byte rec -> zlen rec < p31 -> parseKey rec 0 = Some k -> key_end k <= keylen k ->
  vLen slot < p31 -> 0 <= vSeek slot < p63 -> ZstdLaw ->
  (kMaxFrame < objlen k -> frames_fit (decompressFrames (zsub rec (keylen k) (zlen rec - keylen k)) (objlen k)) 1) ->
  let c := convertBasket rec (vLen slot) codecs in
  (c_error c = [] <-> cls k = bs "TBasket" /\ nbytes k = zlen rec /\ keylen k <= zlen rec /\ zlen rec <= vLen slot) /\
  (c_error c = [] -> zlen (record c) <= vLen slot /\
     if (1000 <? ver k) || (vSeek slot <? p31) then
       exists out, placeInSlot c slot = inr out /\ zlen out = vLen slot /\
         parseKey out 0 = Some (mkKey (zlen (record c)) (ver k) (objlen k) (keylen k) (cycle k) (vSeek slot) (cls k) (name k) (title k)) /\
         content out = content rec /\ Forall (fun b => b = 0) (zsub out (zlen (record c)) (vLen slot - zlen (record c)))
     else exists why, placeInSlot c slot = inl why).
Proof.
  intros Hb Hl HP Hke Hv Hs Hlaw Hff c. pose proof (zlen_nonneg rec). destruct (parseKey_end rec k Hb ltac:(lia) HP) as (L34 & _).
  split.
  - unfold c, convertBasket. rewrite HP. destruct (_ || _)%bool eqn:E.
    + split; [done|]. intros (E1 & E2 & E3 & _). rewrite E1, E2, Z.eqb_refl in E. change (bytes_eqb (bs "TBasket") (bs "TBasket")) with true in E.
      cbn [negb orb] in E. b2p. apply orb_true_iff in E as [E|E]; [apply orb_true_iff in E as [E|E]|]; b2p; try done; lia.
    + b2p. match goal with H : bytes_eqb (cls k) _ = true |- _ => apply bool_decide_eq_true in H end. destruct (vLen slot <? zlen rec) eqn:Ef; b2p.
      * split; [done|]. intros (_ & _ & _ & ?). lia.
      * split; [done|]. intros _. repeat (case_match; try done).
  - intros Hc. pose (slot0 := mkSlot (origSeek slot) (origLen slot) 0 (vLen slot) (s_branch slot) (s_basket slot)).
    pose proof (convert_placed rec k slot0 codecs Hb Hl HP Hke Hv ltac:(cbn; lia) Hlaw Hff ltac:(right; cbn; lia) Hc) as P0.
    destruct (placed_record rec k slot0 c P0) as [Lr Vr]. cbn [vLen slot0] in Lr. split; [lia|]. destruct (_ || _)%bool eqn:Ew.
    + destruct (convert_placed rec k slot codecs Hb Hl HP Hke Hv Hs Hlaw Hff) as (out & E & Lo & Pk & Co & Z); [|done|].
      { apply orb_true_iff in Ew as [?|?]; b2p; [by left|by right]. }
      exists out. repeat (split; [done|]). fold c in Z. rewrite Z. unfold zeros. by apply Forall_replicate.
    + b2p. unfold placeInSlot. rewrite Hc. change (bytes_eqb [] []) with true. cbn [negb orb].
      rewrite (proj2 (Z.ltb_ge (zlen (record c)) 26)), (proj2 (Z.ltb_ge (vLen slot) _)), Vr by lia. unfold putKeySeek.
      rewrite (proj2 (Z.ltb_ge 1000 _)), (proj2 (Z.leb_le p31 _)), orb_true_r by lia. by eexists.
Qed.

(** A basket of a hundred zeros behind a one-byte ZLIB frame, and a slot past 4 GiB. *)
Definition demo_codecs : Codecs := {|
  lzma_stream_buffer_decode := fun _ _ => None; LZ4_decompress_safe := fun _ _ => None; have_lz4 := false;
  uncompress := fun z u => match z with [7] => Some (zeros u) | _ => None end;
  ZSTD_compress := @ZSTD_compress stored; ZSTD_decompress := @ZSTD_decompress stored |}.
Definition demo_rec : bytes :=
  be_bytes 4 56 ++ be_bytes 2 1004 ++ be_bytes 4 100 ++ zeros 4 ++ be_bytes 2 46 ++ be_bytes 2 1 ++ be_bytes 8 900 ++ be_bytes 8 100 ++
  [7] ++ bs "TBasket" ++ [1] ++ bs "x" ++ [1] ++ bs "t" ++ [90; 76; 1; 1; 0; 0; 100; 0; 0; 7].
Definition demo_slot : FillSlot := mkSlot 900 56 5000000000 168 0 0.
Definition demo_key : KeyInfo := mkKey 56 1004 100 46 1 900 (bs "TBasket") (bs "x") (bs "t").
Lemma basket_same_content_witness :
  exists out, placeInSlot (convertBasket (CD := demo_codecs) demo_rec 168 [bs "zlib"]) demo_slot = inr out /\ zlen out = 168 /\
    kind (convertBasket (CD := demo_codecs) demo_rec 168 [bs "zlib"]) = kZstd /\ content (CD := demo_codecs) out = Some (zeros 100).
Proof.
  assert (Forall is_byte demo_rec) as Hb by (apply Forall_forall; intros x Hx; assert (forallb (fun b => (0 <=? b) && (b <? 256)) demo_rec = true) as F by reflexivity;
    rewrite List.forallb_forall in F; apply list_elem_of_In, F in Hx; b2p; unfold is_byte; lia).
  assert (parseKey demo_rec 0 = Some demo_key) as HP by (vm_compute; reflexivity).
  destruct (basket_same_content (CD := demo_codecs) demo_rec demo_key demo_slot [bs "zlib"] Hb ltac:(vm_compute; reflexivity) HP
    ltac:(vm_compute; discriminate) ltac:(vm_compute; reflexivity) ltac:(cbn; lia)) as [H1 H2].
  - intros c level z Hz. exact (stored_law c level z Hz).
  - cbn. unfold kMaxFrame. lia.
  - destruct H2 as [_ (out & E & L & _ & C & _)]; [vm_compute; reflexivity|].
    exists out. split; [exact E|]. split; [exact L|]. split; [vm_compute; reflexivity|]. rewrite C. vm_compute. reflexivity.
Defined.
End FillBasket.
