(* ===== verification/TreeSound.v ===== *)
(** * The parse of a TTree file, on any file and on one (src/transpose/TreeMeta.cc)

    The safety of the whole parse, and a small file, byte by byte - one tree of one branch of two
    baskets, stored raw, in a 32-bit file - of which the parse reads what was written. *)

From S2P Require Import Prelude UrlKey RootFile FillBasket TreeMeta TreeSafe TreeParse.

Module TreeSound.
Import Root TreeData Tree TreeSafe TreeParse.

(** C22: the parse of a TTree file is safe on whatever the network delivers. For any reader
    that gives the bytes asked for or fails, at any moment, and any decoders that write bytes: no byte
    outside a buffer is read and every loop ends ([Oob] never comes out); a parse that is refused
    keeps no branch; one that is not has found a tree key of that name whose record lies
    inside the file, has its object whole, and for every branch tables of its baskets that lie inside
    the object, apart and in order, hold exactly the fields there, and number
    what the branch says, at most 2^24; so do the fields a layout patches. The same holds
    of the parse a reader's file gets, of the tree it picks. *)
Theorem tree_parse_safe {W : Type} `{!Reader W, !ReaderLaws W} `{CD : Codecs} (tree : bytes) (w : W) : CodecBytes ->
  (exists fm, fst (parseTreeFrom tree w) = Good fm /\ (f_error fm = [] -> file_ok tree fm) /\ (f_error fm <> [] -> branches fm = [])) /\
  (exists fm, fst (parseReaderTree w) = Good fm /\ (f_error fm = [] -> exists tree', file_ok tree' fm) /\ (f_error fm <> [] -> branches fm = [])).
Proof.
  intros HC. split.
  - pose proof (parse_ok tree HC w) as P. destruct (fst (parseTreeFrom tree w)) as [| |fm]; [done|done|]. by exists fm.
  - pose proof (reader_parse_ok HC w) as P. destruct (fst (parseReaderTree w)) as [| |fm]; [done|done|]. by exists fm.
Qed.
(** ** Streamed pieces *)
Definition str (s : bytes) : bytes := zlen s :: s.
Definition obj (v : Z) (body : bytes) : bytes := be_bytes 4 (2 ^ 30 + 2 + zlen body) ++ be_bytes 2 v ++ body.
Definition tobj : bytes := be_bytes 2 1 ++ be_bytes 4 0 ++ be_bytes 4 0.
Definition named (n t : bytes) : bytes := obj 1 (tobj ++ str n ++ str t).
Definition elem (cls body : bytes) : bytes := be_bytes 4 (2 ^ 30 + 5 + zlen cls + zlen body) ++ be_bytes 4 kNewClassTag ++ cls ++ [0] ++ body.
Definition arr (n : Z) (elems : bytes) : bytes := obj 3 (tobj ++ str [] ++ be_bytes 4 n ++ be_bytes 4 0 ++ elems).
Definition a_leaf : bytes := elem (bs "TLeafF") (obj 1 (obj 2 (named (bs "x") (bs "x/F") ++ zeros 14 ++ be_bytes 4 0))).
Definition a_branch : bytes := elem (bs "TBranch") (obj 13 (
  named (bs "x") (bs "x/F") ++ obj 2 [0] ++ be_bytes 4 101 ++ zeros 8 ++ be_bytes 4 2 ++ zeros 8 ++ obj 1 [0] ++ zeros 4 ++ be_bytes 4 3 ++ zeros 4 ++
  be_bytes 8 20 ++ zeros 16 ++ be_bytes 8 110 ++ arr 0 [] ++ arr 1 a_leaf ++ arr 0 [] ++
  [1] ++ be_bytes 4 50 ++ be_bytes 4 60 ++ zeros 4 ++ [1] ++ be_bytes 8 0 ++ be_bytes 8 10 ++ be_bytes 8 20 ++
  [1] ++ be_bytes 8 200 ++ be_bytes 8 260 ++ zeros 8 ++ str [])).
Definition a_tree : bytes := obj 20 (
  named (bs "Events") (bs "t") ++ obj 1 [0] ++ obj 1 [0] ++ obj 1 [0] ++ be_bytes 8 20 ++ zeros 8 ++ be_bytes 8 110 ++ zeros 40 ++
  be_bytes 4 0 ++ zeros 32 ++ be_bytes 8 1000 ++ zeros 8 ++ [0] ++ [0] ++ obj 1 [0] ++ arr 1 a_branch).

(** ** The file *)
Definition a_key (nb ol kl cy sk : Z) (c n t : bytes) : bytes :=
  be_bytes 4 nb ++ be_bytes 2 4 ++ be_bytes 4 ol ++ zeros 4 ++ be_bytes 2 kl ++ be_bytes 2 cy ++ be_bytes 4 sk ++ zeros 4 ++ str c ++ str n ++ str t.
Definition tkl : Z := 41.
Definition tree_key (sk : Z) : bytes := a_key (tkl + zlen a_tree) (zlen a_tree) tkl 1 sk (bs "TTree") (bs "Events") (bs "t").
Definition a_dir (ks : Z) : bytes := a_key 60 30 34 1 100 (bs "TFile") [] [] ++ str [] ++ str [] ++ be_bytes 2 5 ++ zeros 24 ++ be_bytes 4 ks.
Definition a_keys (sk : Z) : bytes := a_key (29 + 4 + tkl) (4 + tkl) 29 1 320 [] [] [] ++ be_bytes 4 1 ++ tree_key sk.
Definition klist_len : Z := 29 + 4 + tkl.
Definition tree_at : Z := 320 + klist_len.
Definition a_fend : Z := tree_at + tkl + zlen a_tree.
Definition a_file : bytes :=
  bs "root" ++ be_bytes 4 62400 ++ be_bytes 4 100 ++ be_bytes 4 a_fend ++ zeros 84 ++ a_dir 320 ++ zeros (320 - 100 - zlen (a_dir 320)) ++ a_keys tree_at ++ tree_key tree_at ++ a_tree.

#[export] Instance mem_reader (f : bytes) : Reader unit := {
  rd n off := fun w => (if (0 <=? off) && (0 <=? n) && (off + n <=? zlen f) then Some (zsub f off n) else None, w);
  size := zlen f }.
Lemma mem_laws f : Forall is_byte f -> zlen f < p63 -> ReaderLaws unit (Reader0 := mem_reader f).
Proof.
  intros Hb Hl. split; cbn.
  - intros n off w d. destruct (_ && _) eqn:E; [|done]. b2p. intros [= <-]. split; [apply zlen_zsub; lia|by apply Forall_zsub].
  - pose proof (zlen_nonneg f). lia.
Qed.
Definition no_codecs : Codecs := {|
  lzma_stream_buffer_decode := fun _ _ => None; uncompress := fun _ _ => None; LZ4_decompress_safe := fun _ _ => None; have_lz4 := false;
  ZSTD_compress := fun _ _ => None; ZSTD_decompress := fun _ _ => None |}.
Lemma no_codecs_bytes : CodecBytes (CD := no_codecs).
Proof. intros m0 m1 blob cs us d. unfold decode_frame. destruct (_ && _); [done|]. destruct (_ && _); [done|]. destruct (_ && _); [done|]. by destruct (_ && _). Qed.

Example demo_branches : (fun fm => (f_error fm, b_name <$> branches fm, basketSeek <$> branches fm, basketBytes <$> branches fm, basketEntry <$> branches fm, compress <$> branches fm)) <$>
    match fst (parseTreeFrom (CD := no_codecs) (Reader0 := mem_reader a_file) (bs "Events") tt) with Good fm => Some fm | _ => None end =
  Some ([], [bs "x"], [[200; 260]], [[50; 60]], [[0; 10; 20]], [101]).
Proof. vm_compute. reflexivity. Qed.
Lemma tree_parse_safe_witness :
  exists fm, fst (parseTreeFrom (CD := no_codecs) (Reader0 := mem_reader a_file) (bs "Events") tt) = Good fm /\
    f_error fm = [] /\ file_ok (Reader0 := mem_reader a_file) (bs "Events") fm /\ b_name <$> branches fm = [bs "x"].
Proof.
  assert (forallb (fun b => (0 <=? b) && (b <? 256)) a_file = true) as Hb by (vm_compute; reflexivity).
  assert (Forall is_byte a_file) as Hf.
  { apply Forall_forall. intros b Hin. apply list_elem_of_In in Hin. rewrite forallb_forall in Hb. specialize (Hb b Hin). b2p. unfold is_byte. lia. }
  pose proof (mem_laws a_file Hf ltac:(vm_compute; reflexivity)) as L.
  destruct (tree_parse_safe (Reader0 := mem_reader a_file) (CD := no_codecs) (bs "Events") tt no_codecs_bytes) as [(fm & E & T & _) _].
  exists fm. split; [exact E|]. pose proof demo_branches as D. rewrite E in D. cbn [fmap option_fmap option_map] in D. injection D as D1 D2 _ _ _ _.
  split; [exact D1|]. split; [exact (T D1)|exact D2].
Defined.
End TreeSound.
