(* ===== verification/FillGeometry.v ===== *)
(** * The geometry of a layout (src/transpose/FillLayout.cc, layoutForFill)

    Where the slots lie, that they name their baskets, and what the patched tree record says
    of them. *)

From S2P Require Import Prelude RootFile TreeMeta FillLayout FillHeader FillBasket.

Module FillGeometry.
Import Root TreeData Fill FillHeader FillBasket.

(** What the parser gives of a tree: integer ranges, arrays long enough and inside the record, apart
    from one another, and baskets few enough to be addressed. *)
Definition arrays_of (br : BranchInfo) : list (Z * Z) := [(seekArrayOff br, 8 * writeBasket br); (bytesArrayOff br, 4 * writeBasket br)].
Definition apart (a b : Z * Z) : Prop := fst a + snd a <= fst b \/ fst b + snd b <= fst a.
Definition count_of (fm : FileMeta) (l : list Z) : Z := foldr (fun b n => Z.max 0 (writeBasket (branch_at fm b)) + n) 0 l.
Definition total_baskets (fm : FileMeta) : Z := count_of fm (zrange 0 (zlen (branches fm))).
Record parsed (fm : FileMeta) : Prop := {
  p_fend : 0 <= fend fm < 2 ^ 61;
  p_blob : zlen (treeBlob fm) < p31 - 65536;
  p_key : 0 <= keylen (treeKey fm) < 65536;
  p_seeks : Forall (fun br => Forall (fun s => - p63 <= s < p63) (basketSeek br) /\ Forall (fun s => - p31 <= s < p31) (basketBytes br)) (branches fm);
  p_arrays : Forall (fun br => 0 < writeBasket br -> Forall (fun a => 0 <= fst a /\ fst a + snd a <= zlen (treeBlob fm)) (arrays_of br)) (branches fm);
  p_apart : forall i j m n a b bi bj, branches fm !! i = Some bi -> branches fm !! j = Some bj -> 0 < writeBasket bi -> 0 < writeBasket bj ->
    arrays_of bi !! m = Some a -> arrays_of bj !! n = Some b -> ~ (i = j /\ m = n) -> apart a b;
  p_total : total_baskets fm < 2 ^ 30 }.

(** ** Slots, one after the other *)
Fixpoint tiled (at_ : Z) (l : list FillSlot) (e : Z) : Prop :=
  match l with [] => at_ = e | s :: l' => vSeek s = at_ /\ 0 < vLen s /\ tiled (at_ + vLen s) l' e end.
(** The two writes of a slot into the tree record. *)
Definition writes_of (fm : FileMeta) (s : FillSlot) : list (Z * bytes) :=
  [(seekArrayOff (branch_at fm (s_branch s)) + 8 * s_basket s, be_bytes 8 (vSeek s));
   (bytesArrayOff (branch_at fm (s_branch s)) + 4 * s_basket s, be_bytes 4 (vLen s))].
Definition baskets_of (fm : FileMeta) (b : Z) : list (Z * Z) := (fun i => (b, i)) <$> zrange 0 (writeBasket (branch_at fm b)).
(** One basket of the file, as the slot names it. *)
Definition names_basket (fm : FileMeta) (s : FillSlot) : Prop :=
  let br := branch_at fm (s_branch s) in
  origSeek s = zget (basketSeek br) (s_basket s) /\ origLen s = zget (basketBytes br) (s_basket s) /\
  0 < origSeek s /\ 0 < origLen s <= vLen s /\ vLen s < p31 /\ origSeek s + origLen s <= fend fm.

Lemma tiled_app l1 : forall a l2 e, tiled a (l1 ++ l2) e <-> exists m, tiled a l1 m /\ tiled m l2 e.
Proof.
  induction l1 as [|s l1 IH]; intros a l2 e; cbn [app tiled].
  - split; [intros H; by exists a|by intros (m & -> & H)].
  - rewrite IH. split; [intros (H1 & H2 & m & H3 & H4); by exists m|intros (m & (H1 & H2 & H3) & H4); split; [done|]; split; [done|]; by exists m].
Qed.
Lemma tiled_le l : forall a e, tiled a l e -> a <= e.
Proof. induction l as [|s l IH]; intros a e; cbn [tiled]; [lia|]. intros (? & ? & H%IH). lia. Qed.
Lemma tiled_lookup l : forall a e i s, tiled a l e -> l !! i = Some s -> a <= vSeek s /\ vSeek s + vLen s <= e.
Proof.
  induction l as [|x l IH]; intros a e i s; cbn [tiled]; [done|]. intros (Hx & Hp & Ht). pose proof (tiled_le _ _ _ Ht).
  destruct i as [|i]; cbn; [intros [= ->]; lia|]. intros Hi. destruct (IH _ _ _ _ Ht Hi). lia.
Qed.

Section geometry.
Context (fm : FileMeta) (F : Z).
Hypotheses (Hp : parsed fm) (HF : 100 <= F < p32).

Lemma branch_at_Some b : 0 <= b < zlen (branches fm) -> branches fm !! Z.to_nat b = Some (branch_at fm b).
Proof using. intros Hb. unfold branch_at. destruct (lookup_lt_is_Some_2 (branches fm) (Z.to_nat b)) as [br E]; [unfold zlen in Hb; lia|].
  rewrite E. f_equal. symmetry. by apply nth_lookup_Some. Qed.

(** A slot made for a basket that lies inside the file names it and can hold it. *)
Lemma slot_ok codecs fc b at_ i : 0 <= b < zlen (branches fm) -> relocatable fm codecs fc (branch_at fm b) = true -> 0 <= i < writeBasket (branch_at fm b) ->
  names_basket fm (slot_of fm F b at_ i).
Proof using Hp HF.
  intros Hb Hr Hi. pose proof (branch_at_Some b Hb) as Eb. set (br := branch_at fm b) in *.
  unfold relocatable in Hr. b2p. rewrite List.forallb_forall in H0. assert (basket_inside fm br i = true) as Hin.
  { apply H0, list_elem_of_In, elem_of_zrange. lia. }
  pose proof (Forall_lookup_1 _ _ _ _ (p_seeks fm Hp) Eb) as [Hs Hy].
  pose proof (Forall_zget (fun s => - p63 <= s < p63) (basketSeek br) i Hs ltac:(cbn; lia)) as Rs.
  pose proof (Forall_zget (fun s => - p31 <= s < p31) (basketBytes br) i Hy ltac:(cbn; lia)) as Ry. cbn beta in Rs, Ry.
  destruct (p_fend fm Hp) as [? ?]. unfold basket_inside in Hin. b2p.
  rewrite (w64_small (zget (basketSeek br) i)), (w64_small (zget (basketBytes br) i)), (w64_small (fend fm)) in * by lia.
  rewrite w64_small in * by lia. unfold names_basket, slot_of. cbn [s_branch s_basket origSeek origLen vLen]. fold br.
  rewrite (w64_small (zget (basketSeek br) i)), (w32_small (zget (basketBytes br) i)) by lia.
  assert (zget (basketBytes br) i * F < p64) by nia. rewrite w64_small by nia. 
  assert (zget (basketBytes br) i <= zget (basketBytes br) i * F / 100) by (apply Z.div_le_lower_bound; nia).
  unfold INT32_MAX. lia.
Qed.

Lemma count_filter f l : 0 <= count_of fm (List.filter f l) <= count_of fm l.
Proof using. unfold count_of. induction l as [|b l IH]; cbn [List.filter foldr]; [lia|]. destruct (f b); cbn [foldr]; lia. Qed.

(** The slots of a list of baskets of one branch. *)
Lemma fill_baskets codecs fc b (Hb : 0 <= b < zlen (branches fm)) (Hr : relocatable fm codecs fc (branch_at fm b) = true) l : forall at_ blob out,
  0 <= at_ -> at_ + p31 * zlen l < p64 -> (forall i, i ∈ l -> 0 <= i < writeBasket (branch_at fm b)) ->
  exists ss e, foldl (fill_basket fm F b) (at_, blob, out) l = (e, write_all (concat (writes_of fm <$> ss)) blob, out ++ ss) /\
    tiled at_ ss e /\ e <= at_ + p31 * zlen l /\ (fun s => (s_branch s, s_basket s)) <$> ss = (fun i => (b, i)) <$> l /\ Forall (names_basket fm) ss.
Proof using Hp HF.
  induction l as [|i l IH]; intros at_ blob out H0 Hat Hl.
  { exists [], at_. rewrite app_nil_r. change (zlen []) with 0. repeat split; try done. lia. }
  rewrite zlen_cons in Hat |- *. pose proof (zlen_nonneg l).
  assert (0 <= i < writeBasket (branch_at fm b)) as Hi by (apply Hl; left). set (s := slot_of fm F b at_ i).
  pose proof (slot_ok codecs fc b at_ i Hb Hr Hi) as Hs. fold s in Hs. destruct Hs as (O1 & O2 & O3 & O4 & O5 & O6).
  cbn [foldl]. unfold fill_basket at 2. fold s. rewrite w64_small by lia.
  destruct (IH (at_ + vLen s) (bePut 4 (bePut 8 blob (seekArrayOff (branch_at fm b) + 8 * i) (vSeek s)) (bytesArrayOff (branch_at fm b) + 4 * i) (vLen s)) (out ++ [s]))
    as (ss & e & E & T & L & N & G); [lia|lia|by intros j Hj; apply Hl; right|].
  exists (s :: ss), e. split; [|split; [|split; [|split]]].
  - rewrite E, <- app_assoc. done.
  - cbn [tiled]. split; [done|]. split; [lia|done].
  - lia.
  - cbn. by rewrite N.
  - constructor; [done|exact G].
Qed.

(** The slots of all relocated branches. *)
Lemma fill_branches codecs fc l : forall at_ blob out,
  0 <= at_ -> at_ + p31 * count_of fm l < p64 -> (forall b, b ∈ l -> 0 <= b < zlen (branches fm) /\ relocatable fm codecs fc (branch_at fm b) = true) ->
  exists ss e, foldl (fill_branch fm F) (at_, blob, out) l = (e, write_all (concat (writes_of fm <$> ss)) blob, out ++ ss) /\
    tiled at_ ss e /\ e <= at_ + p31 * count_of fm l /\ (fun s => (s_branch s, s_basket s)) <$> ss = concat (baskets_of fm <$> l) /\ Forall (names_basket fm) ss.
Proof using Hp HF.
  induction l as [|b l IH]; intros at_ blob out H0 Hat Hl.
  { exists [], at_. rewrite app_nil_r. change (count_of fm []) with 0. repeat split; try done. lia. }
  cbn [count_of foldr] in Hat. fold (count_of fm l) in Hat. destruct (Hl b) as [Hb Hr]; [by left|].
  assert (0 <= count_of fm l) by (destruct (count_filter (fun _ => true) l); lia).
  assert (0 < writeBasket (branch_at fm b)) as Hw by (unfold relocatable in Hr; b2p; lia).
  cbn [foldl]. unfold fill_branch at 2.
  destruct (fill_baskets codecs fc b Hb Hr (zrange 0 (writeBasket (branch_at fm b))) at_ blob out) as (s1 & e1 & -> & T1 & L1 & N1 & G1);
    [done|rewrite zlen_zrange by lia; lia|intros i Hi; by apply elem_of_zrange in Hi|].
  rewrite zlen_zrange in L1 by lia. pose proof (tiled_le _ _ _ T1).
  destruct (IH e1 (write_all (concat (writes_of fm <$> s1)) blob) (out ++ s1)) as (s2 & e2 & -> & T2 & L2 & N2 & G2); [lia|lia|by intros; apply Hl; right|].
  exists (s1 ++ s2), e2. split; [|split; [|split; [|split]]].
  - rewrite fmap_app, concat_app. unfold write_all. rewrite foldl_app. by rewrite <- app_assoc.
  - apply tiled_app. by exists e1.
  - cbn [count_of foldr]. fold (count_of fm l). lia.
  - rewrite fmap_app, N1, N2. done.
  - by apply Forall_app.
Qed.

(** ** The two fields of every slot *)
Definition region (w : Z * bytes) : Z * Z := (fst w, zlen (snd w)).
Definition made (s : FillSlot) : Prop :=
  0 <= s_branch s < zlen (branches fm) /\ 0 <= s_basket s < writeBasket (branch_at fm (s_branch s)).
Definition key_of (s : FillSlot) : Z * Z := (s_branch s, s_basket s).

Lemma writes_inside s m w : made s -> writes_of fm s !! m = Some w ->
  exists a k, arrays_of (branch_at fm (s_branch s)) !! m = Some a /\ (k = 4 \/ k = 8) /\ zlen (snd w) = k /\ fst w = fst a + k * s_basket s /\
    snd a = k * writeBasket (branch_at fm (s_branch s)).
Proof using.
  intros [_ Hs]. unfold writes_of, arrays_of. destruct m as [|[|m]]; cbn [lookup list_lookup]; [| |done]; intros [= <-]; cbn [fst snd]; rewrite zlen_be.
  - exists (seekArrayOff (branch_at fm (s_branch s)), 8 * writeBasket (branch_at fm (s_branch s))), 8. cbn [fst snd]. split; [done|]. split; [by right|]. done.
  - exists (bytesArrayOff (branch_at fm (s_branch s)), 4 * writeBasket (branch_at fm (s_branch s))), 4. cbn [fst snd]. split; [done|]. split; [by left|]. done.
Qed.
Lemma writes_apart s s' m m' w w' : made s -> made s' -> writes_of fm s !! m = Some w -> writes_of fm s' !! m' = Some w' ->
  (key_of s, m) <> (key_of s', m') -> apart (region w) (region w').
Proof using Hp.
  intros Hs Hs' Hw Hw' Hne. destruct (writes_inside s m w Hs Hw) as (a & k & Ha & Hk & L & O & S).
  destruct (writes_inside s' m' w' Hs' Hw') as (a' & k' & Ha' & Hk' & L' & O' & S'). unfold apart, region. cbn [fst snd]. rewrite L, L', O, O'.
  destruct Hs as [Hb Hi], Hs' as [Hb' Hi'].
  destruct (decide (s_branch s = s_branch s' /\ m = m')) as [[Eb <-]|Nb].
  - rewrite Eb in *. assert (a' = a) as -> by congruence. assert (k' = k) as -> by lia. assert (s_basket s <> s_basket s') by (intros Es; apply Hne; unfold key_of; congruence). nia.
  - assert (apart a a') as Ap.
    { apply (p_apart fm Hp (Z.to_nat (s_branch s)) (Z.to_nat (s_branch s')) m m' a a' _ _ (branch_at_Some _ Hb) (branch_at_Some _ Hb')); try done; lia. }
    unfold apart in Ap. rewrite S, S' in Ap. nia.
Qed.

Lemma writes_bound s : made s -> Forall (fun w => 0 <= fst w /\ fst w + zlen (snd w) <= zlen (treeBlob fm)) (writes_of fm s).
Proof using Hp.
  intros Hs. apply Forall_lookup. intros m w Hw. destruct (writes_inside s m w Hs Hw) as (a & k & Ha & Hk & L & O & S). destruct Hs as [Hb Hi].
  pose proof (Forall_lookup_1 _ _ _ _ (p_arrays fm Hp) (branch_at_Some _ Hb)) as A. cbn beta in A.
  pose proof (Forall_lookup_1 _ _ _ _ (A ltac:(lia)) Ha) as [A1 A2]. rewrite L, O. nia.
Qed.

Lemma writes_pairs ss : Forall made ss -> NoDup (key_of <$> ss) -> ForallOrdPairs (fun w w' => apart (region w) (region w')) (concat (writes_of fm <$> ss)).
Proof using Hp.
  induction ss as [|s ss IH]; [constructor|]. intros [Hs Hss]%Forall_cons [Hn Hnd]%NoDup_cons. cbn [fmap list_fmap concat].
  assert (forall m w, writes_of fm s !! m = Some w -> Forall (fun w' => apart (region w) (region w')) (concat (writes_of fm <$> ss))) as X.
  { intros m w Hw. apply Forall_forall. intros w' Hin. apply list_elem_of_In, in_concat in Hin as (l & Hl & Hwl). apply list_elem_of_In, list_elem_of_fmap in Hl as (s' & -> & Hs').
    apply list_elem_of_In, list_elem_of_lookup in Hwl as [m' Hm']. rewrite Forall_forall in Hss.
    apply (writes_apart s s' m m'); auto. intros [= E1 E2 _]. apply Hn. apply list_elem_of_fmap. exists s'. split; [unfold key_of; congruence|done]. }
  change (writes_of fm s ++ concat (writes_of fm <$> ss)) with
    ((seekArrayOff (branch_at fm (s_branch s)) + 8 * s_basket s, be_bytes 8 (vSeek s)) :: (bytesArrayOff (branch_at fm (s_branch s)) + 4 * s_basket s, be_bytes 4 (vLen s)) :: concat (writes_of fm <$> ss)).
  constructor; [constructor|constructor].
  - apply (writes_apart s s 0 1); done.
  - by apply (X 0%nat).
  - by apply (X 1%nat).
  - by apply IH.
Qed.
End geometry.

(** Writes that keep apart: each reads back, and nothing else changed. *)
Lemma write_all_apart l : forall buf, Forall (fun w => 0 <= fst w /\ fst w + zlen (snd w) <= zlen buf) l ->
  zlen (write_all l buf) = zlen buf /\
  (forall o n, 0 <= o -> 0 <= n -> Forall (fun w => apart (o, n) (region w)) l -> zsub (write_all l buf) o n = zsub buf o n) /\
  (ForallOrdPairs (fun w w' => apart (region w) (region w')) l -> forall o x, (o, x) ∈ l -> zsub (write_all l buf) o (zlen x) = x).
Proof.
  induction l as [|[o x] l IH]; intros buf Hl.
  { split; [done|]. split; [done|]. intros _ o x Hin. by apply elem_of_nil in Hin. }
  apply Forall_cons in Hl as [[H0 H1] Hl]. cbn [fst snd] in H0, H1. pose proof (zlen_nonneg x).
  assert (zlen (zsplice buf o x) = zlen buf) as E by (apply zlen_zsplice; lia).
  change (write_all ((o, x) :: l) buf) with (write_all l (zsplice buf o x)).
  destruct (IH (zsplice buf o x)) as (L & Hole & Get); [by rewrite E|]. split; [by rewrite L|]. split.
  - intros o' n H0' Hn [Ha Hr]%Forall_cons. rewrite Hole by done. unfold apart, region in Ha. cbn [fst snd] in Ha.
    destruct Ha; [apply zsub_zsplice_before; lia|apply zsub_zsplice_after; lia].
  - intros Hp o' x' Hin. inversion Hp as [|? ? Ha Hp']; subst. apply elem_of_cons in Hin as [[= -> ->]|Hin]; [|by apply Get].
    rewrite Hole; [apply zsub_zsplice_same; lia|lia|lia|]. exact Ha.
Qed.

(** ** The keys list keeps its length *)
Lemma zlen_putKeySeek r at_ v s r' : 0 <= at_ -> at_ + 26 <= zlen r -> putKeySeek r at_ v s = Some r' -> zlen r' = zlen r.
Proof.
  intros H0 H1. unfold putKeySeek. case_match; [|case_match; [done|]]; intros [= <-]; apply zlen_bePut; lia.
Qed.
Lemma parseKey_room p off e : Forall is_byte p -> zlen p < p63 -> 0 <= off < p63 -> parseKey p off = Some e -> off + 34 <= zlen p /\ 0 <= keylen e < 65536.
Proof.
  intros Hb Hl Ho. unfold parseKey. destruct (zlen p <? off +% 34) eqn:E; [done|]. rewrite w64_small in E by lia. b2p.
  assert (0 <= beGet 2 p (off + 14) < 65536) as R.
  { rewrite beGet_eq by done. assert (Forall is_byte (rev (zsub p (off + 14) (Z.of_nat 2)))) as Hr by (apply Forall_rev; by apply Forall_zsub).
    pose proof (le_val_range _ Hr) as [? Hu]. split; [done|]. eapply Z.lt_le_trans; [exact Hu|]. change 65536 with (p8 ^ 2).
    apply Z.pow_le_mono_r; [lia|]. unfold zlen. rewrite length_rev. apply (zlen_zsub_le p (off + 14) 2). lia. }
  destruct (1000 <? _); (destruct (key_str p off _) as [[c q1]|]; [|done]); (destruct (key_str p off q1) as [[nm q2]|]; [|done]);
    (destruct (key_str p off q2) as [[t q3]|]; [|done]); intros [= <-]; cbn; (split; [lia|exact R]).
Qed.
Lemma patch_keys_len n tk rl ms : forall klist pos pt klist' pt', Forall is_byte klist -> zlen klist < p63 -> 0 <= pos -> pos + 65536 * Z.of_nat n < p63 ->
  patch_keys n tk rl ms klist pos pt = KPatched klist' pt' -> zlen klist' = zlen klist.
Proof.
  induction n as [|n IH]; intros klist pos pt klist' pt' Hb Hl H0 Hn; cbn [patch_keys]; [by intros [= <- _]|].
  destruct (parseKey klist pos) as [e|] eqn:E; [|done]. destruct (parseKey_room klist pos e Hb Hl ltac:(lia) E) as [R K].
  destruct (_ && _)%bool; [|by apply IH; [done|done|lia|lia]].
  destruct (putKeySeek _ _ _ _) as [k2|] eqn:Ek; [|done]. assert (zlen (bePut 4 klist pos rl) = zlen klist) as L1 by (apply zlen_bePut; lia).
  pose proof (zlen_putKeySeek (bePut 4 klist pos rl) pos (ver e) ms k2 H0 ltac:(lia) Ek) as L2. intros H. rewrite <- L1, <- L2. apply (IH k2 (pos + keylen e) true klist' pt'); [|lia|lia|lia|exact H].
  unfold putKeySeek in Ek. case_match; [|case_match; [done|]]; injection Ek as <-; by repeat apply Forall_bePut.
Qed.

(** ** The layout *)
Definition patched_tree (fm : FileMeta) (L : FillLayout) : bytes := write_all (concat (writes_of fm <$> slots L)) (treeBlob fm).
(** The tree record the reader finds in the relocated key, raw or compressed. *)
Definition holds_tree `{CD : Codecs} (fm : FileMeta) (L : FillLayout) (blob : bytes) : Prop :=
  let pay := zsub (metaRecord L) (keylen (treeKey fm)) (zlen (metaRecord L) - keylen (treeKey fm)) in
  pay = blob \/ (zlen pay < zlen blob /\ decompressFrames pay (zlen blob) = blob).
Definition seek_of (fm : FileMeta) (rec : bytes) : Z := if 1000 <? ver (treeKey fm) then beGetS 8 rec 18 else beGetS 4 rec 18.

Section layout.
Context `{CD : Codecs} (fm : FileMeta) (F : Z) (Hp : parsed fm) (HF : 100 <= F < p32).

Lemma patched_fields ss : Forall (made fm) ss -> NoDup (key_of <$> ss) -> Forall (fun s => 0 <= vSeek s < p63 /\ 0 <= vLen s < p31) ss ->
  let blob := write_all (concat (writes_of fm <$> ss)) (treeBlob fm) in
  zlen blob = zlen (treeBlob fm) /\
  Forall (fun s => beGetS 8 blob (seekArrayOff (branch_at fm (s_branch s)) + 8 * s_basket s) = vSeek s /\
                   beGetS 4 blob (bytesArrayOff (branch_at fm (s_branch s)) + 4 * s_basket s) = vLen s) ss /\
  (forall o n, 0 <= o -> 0 <= n -> Forall (fun s => Forall (fun w => apart (o, n) (region w)) (writes_of fm s)) ss -> zsub blob o n = zsub (treeBlob fm) o n).
Proof using Hp.
  intros Hm Hn Hr. assert (Forall (fun w => 0 <= fst w /\ fst w + zlen (snd w) <= zlen (treeBlob fm)) (concat (writes_of fm <$> ss))) as Hb.
  { apply Forall_concat, Forall_fmap. eapply Forall_impl; [exact Hm|]. intros s Hs. by apply writes_bound. }
  destruct (write_all_apart _ _ Hb) as (L & Hole & Get). specialize (Get (writes_pairs fm Hp ss Hm Hn)). split; [done|]. split.
  - apply Forall_forall. intros s Hs. rewrite Forall_forall in Hr. destruct (Hr s Hs) as [R1 R2].
    assert (forall w, w ∈ writes_of fm s -> w ∈ concat (writes_of fm <$> ss)) as In.
    { intros w Hw. apply list_elem_of_In, in_concat. exists (writes_of fm s). split; apply list_elem_of_In; [by apply list_elem_of_fmap_2|done]. }
    split; (apply beGetS_be; [lia| |cbn; lia]).
    + pose proof (Get _ _ (In _ (list_elem_of_here _ _))) as G. by rewrite zlen_be in G.
    + pose proof (Get _ _ (In _ (list_elem_of_further _ _ _ (list_elem_of_here _ _)))) as G. by rewrite zlen_be in G.
  - intros o n Ho Hn' Ha. apply Hole; [done|done|]. by apply Forall_concat, Forall_fmap.
Qed.

Lemma meta_payload_ok blob : ZstdLaw -> (kMaxFrame < zlen blob -> frames_fit blob kFillMetaZstdLevel) ->
  meta_payload blob = blob \/ (zlen (meta_payload blob) < zlen blob /\ decompressFrames (meta_payload blob) (zlen blob) = blob).
Proof using. intros. by apply (shrink_decodes blob kFillMetaZstdLevel). Qed.
End layout.

(** ** Inversion of the layout's gates *)
Section gates.
Context `{CD : Codecs} (fm : FileMeta) (fileSize : Z) (header tkh keysList : bytes) (codecs : list bytes) (F : Z).

Lemma gates_inv h : fill_gates fm header tkh F = inr h -> 100 <= F /\ parseHeader header = Some h /\ zlen tkh = keylen (treeKey fm) /\ 26 <= keylen (treeKey fm).
Proof.
  unfold fill_gates. destruct (negb _); [done|]. destruct (F <? 100) eqn:E1; [done|]. destruct (parseHeader header) as [h'|]; [|done].
  destruct (negb (h_end h' =? fend fm)); [done|].
  destruct (negb (zlen tkh =? keylen (treeKey fm)) || (keylen (treeKey fm) <? 26))%bool eqn:E2; [done|].
  destruct ((zipBytesOff fm =? 0) || (autoFlushOff fm =? 0) || (zipBytes fm <=? 0)); [done|]. intros E; injection E as ->. b2p. by repeat split.
Qed.

Lemma keys_inv L klist : keys_window fm keysList L = inr klist -> Forall is_byte keysList -> zlen keysList < p31 -> - p63 <= keyslistSeek fm < p63 -> 0 <= originSize L < p63 ->
  zlen klist = zlen keysList /\ 100 <= keyslistSeek fm /\ keyslistSeek fm + zlen klist <= originSize L.
Proof.
  intros HK Hb Hl Hs Ho. pose proof (zlen_nonneg keysList). unfold keys_window in HK. destruct (parseKey keysList 0) as [kl|] eqn:E; [|done].
  destruct (parseKey_room keysList 0 kl Hb ltac:(lia) ltac:(lia) E) as [_ Kl].
  destruct ((nbytes kl <=? 0) || negb (nbytes kl =? zlen keysList) || (zlen keysList <? keylen kl + 4))%bool eqn:E1; [done|].
  destruct ((keyslistSeek fm <? 100) || (originSize L <? w64 (keyslistSeek fm) +% zlen keysList))%bool eqn:E2; [done|]. b2p.
  destruct (patch_keys _ _ _ _ _ _ _) as [| |k2 [|]] eqn:EP; [done..| |done]. injection HK as <-.
  assert (beGetS 4 keysList (keylen kl) < p31) as Hn.
  { assert (0 <= beGet 4 keysList (keylen kl) < 2 ^ (8 * Z.of_nat 4)) as R.
    { rewrite beGet_eq by done. assert (Forall is_byte (rev (zsub keysList (keylen kl) (Z.of_nat 4)))) as Hr by (apply Forall_rev; by apply Forall_zsub).
      pose proof (le_val_range _ Hr) as [? Hu]. split; [done|]. eapply Z.lt_le_trans; [exact Hu|]. change (2 ^ (8 * Z.of_nat 4)) with (p8 ^ 4).
      apply Z.pow_le_mono_r; [lia|]. unfold zlen. rewrite length_rev. apply (zlen_zsub_le keysList (keylen kl) 4). lia. }
    pose proof (signed_range 4 _ ltac:(lia) R). unfold beGetS. cbn in *. lia. }
  assert (zlen k2 = zlen keysList) as ->.
  { eapply patch_keys_len; [exact Hb|lia| | |exact EP]; lia. }
  rewrite (w64_small (keyslistSeek fm)) in * by lia. rewrite w64_small in * by lia. lia.
Qed.

(** Every refusal has a reason. *)
Lemma gates_why why : fill_gates fm header tkh F = inl why -> why <> [].
Proof.
  unfold fill_gates. destruct (negb (bytes_eqb (f_error fm) [])); [by intros [= <-]|]. destruct (F <? 100); [by intros [= <-]|].
  destruct (parseHeader header) as [h'|]; [|by intros [= <-]]. destruct (negb (h_end h' =? fend fm)); [by intros [= <-]|].
  destruct (negb (zlen tkh =? keylen (treeKey fm)) || (keylen (treeKey fm) <? 26)); [by intros [= <-]|].
  destruct ((zipBytesOff fm =? 0) || (autoFlushOff fm =? 0) || (zipBytes fm <=? 0)); [by intros [= <-]|done].
Qed.
Lemma keys_why L L' : keys_window fm keysList L = inl L' -> error L' <> [].
Proof.
  unfold keys_window. destruct (parseKey keysList 0) as [kl|]; [|by intros [= <-]].
  destruct ((nbytes kl <=? 0) || negb (nbytes kl =? zlen keysList) || (zlen keysList <? keylen kl + 4)); [by intros [= <-]|].
  destruct ((keyslistSeek fm <? 100) || (originSize L <? w64 (keyslistSeek fm) +% zlen keysList)); [by intros [= <-]|].
  destruct (patch_keys _ _ _ _ _ _ _) as [| |k2 [|]]; by intros [= <-].
Qed.

(** What a layout that is not declined went through. *)
Lemma layout_inv : error (layoutForFill fm fileSize header tkh keysList codecs F) = [] ->
  exists h out at_ blob rec klist w,
  let rel := relocated_of fm codecs (h_compress h) in
  let ms := (fileSize +% kAlign -% 1) / kAlign *% kAlign in
  let sb := ms +% (keylen (treeKey fm) + zlen (treeBlob fm)) in
  let r := tkh ++ meta_payload blob in
  let L := mkLayout [] fileSize at_ [] ms rec sb out rel in
  fill_gates fm header tkh F = inr h /\ rel <> [] /\ fileSize = w64 (fend fm) /\ fill_slots fm F rel sb = (at_, blob, out) /\
  zlen r <= keylen (treeKey fm) + zlen (treeBlob fm) /\ putKeySeek (bePut 4 r 0 (zlen r)) 0 (ver (treeKey fm)) ms = Some rec /\
  keys_window fm keysList L = inr klist /\ headerWindowForEnd header at_ = Some w /\
  layoutForFill fm fileSize header tkh keysList codecs F = mkLayout [] fileSize at_ [w; (w64 (keyslistSeek fm), klist)] ms rec sb out rel.
Proof.
  unfold layoutForFill. destruct (fill_gates fm header tkh F) as [why|h] eqn:EG; [intros H; by apply gates_why in EG|].
  case_bool_decide as Er; [done|]. destruct (negb (fileSize =? w64 (fend fm))) eqn:Es; [done|]. b2p.
  destruct (fill_slots _ _ _ _) as [[at_ blob] out] eqn:EF.
  destruct (_ <? zlen (tkh ++ meta_payload blob)) eqn:El; [done|]. b2p. destruct (putKeySeek _ _ _ _) as [rec|] eqn:EP; [|done].
  destruct (keys_window _ _ _) as [L'|klist] eqn:EK; [intros H; by apply keys_why in EK|].
  destruct (headerWindowForEnd header at_) as [w|] eqn:EW; [|done]. intros _. exists h, out, at_, blob, rec, klist, w. cbn zeta. done.
Qed.
End gates.

(** The record of the relocated key: the header with its length and offset, then the payload. *)
Lemma meta_fields v tkh pay ms rec (kl := zlen tkh) (r := tkh ++ pay) : 26 <= kl -> zlen r < p31 -> 0 <= ms < p63 ->
  putKeySeek (bePut 4 r 0 (zlen r)) 0 v ms = Some rec ->
  zlen rec = zlen r /\ zsub rec kl (zlen rec - kl) = pay /\ beGetS 4 rec 0 = zlen rec /\
  (if 1000 <? v then beGetS 8 rec 18 else beGetS 4 rec 18) = ms /\ agree tkh rec 4 18.
Proof.
  intros Hk Hr Hm HP. assert (zlen r = kl + zlen pay) as Lr by (unfold r; apply zlen_app). pose proof (zlen_nonneg pay).
  set (r1 := bePut 4 r 0 (zlen r)) in *. assert (zlen r1 = zlen r) as L1 by (apply zlen_bePut; lia).
  set (n := if 1000 <? v then 8%nat else 4%nat).
  assert (rec = bePut n r1 18 ms /\ (n = 4%nat -> ms < p31)) as [-> Hms].
  { unfold putKeySeek, n in *. destruct (1000 <? v); [by injection HP as <-|]. destruct (_ || _)%bool eqn:E; [done|]. injection HP as <-. b2p. split; [done|lia]. }
  assert (n = 4%nat \/ n = 8%nat) as Hn by (unfold n; case_match; [by right|by left]).
  assert (zlen (bePut n r1 18 ms) = zlen r) as L2 by (rewrite zlen_bePut; lia).
  assert (forall o m, 26 <= o -> zsub (bePut n r1 18 ms) o m = zsub r o m) as Af.
  { intros o m Ho. unfold bePut. rewrite zsub_zsplice_after by (rewrite ?zlen_be; lia). unfold r1, bePut. apply zsub_zsplice_after; rewrite ?zlen_be; lia. }
  assert (forall o m, 0 <= o -> 0 <= m -> o + m <= 18 -> zsub (bePut n r1 18 ms) o m = zsub r1 o m) as Bf by (intros; apply zsub_zsplice_before; lia).
  split; [done|]. split; [|split; [|split]].
  - rewrite Af by lia. rewrite L2, Lr. unfold r. rewrite zsub_app_r by (fold kl; lia). fold kl. rewrite Z.sub_diag. apply zsub_all. lia.
  - rewrite L2. apply beGetS_be; [lia| |cbn; lia]. rewrite Bf by lia. apply zsub_zsplice_same; rewrite ?zlen_be; lia.
  - assert (beGetS n (bePut n r1 18 ms) 18 = ms) as G.
    { apply beGetS_be; [lia| |destruct Hn as [E|E]; rewrite E; cbn; [specialize (Hms E)|]; lia]. apply zsub_zsplice_same; rewrite ?zlen_be; lia. }
    unfold n in G |- *. by destruct (1000 <? v).
  - unfold agree. rewrite Bf by lia. unfold r1, bePut. rewrite zsub_zsplice_after by (rewrite ?zlen_be; lia). unfold r. by rewrite zsub_app_l by (fold kl; lia).
Qed.

Lemma elem_of_relocated fm codecs fc b : b ∈ relocated_of fm codecs fc -> 0 <= b < zlen (branches fm) /\ relocatable fm codecs fc (branch_at fm b) = true.
Proof. intros H. apply list_elem_of_In, List.filter_In in H as [H ?]. apply list_elem_of_In, elem_of_zrange in H. by split. Qed.

(** The slots' keys: each in range, no two alike. *)
Lemma keys_made fm codecs fc ss : key_of <$> ss = concat (baskets_of fm <$> relocated_of fm codecs fc) -> Forall (made fm) ss /\ NoDup (key_of <$> ss).
Proof.
  intros E. split.
  - apply Forall_forall. intros s Hs. apply (list_elem_of_fmap_2 key_of) in Hs. rewrite E in Hs. apply list_elem_of_In, in_concat in Hs as (l & Hl & Hk).
    apply list_elem_of_In, list_elem_of_fmap in Hl as (b & -> & Hb). apply elem_of_relocated in Hb as [Hb _].
    apply list_elem_of_In, list_elem_of_fmap in Hk as (i & Ek & Hi). apply elem_of_zrange in Hi. injection Ek as E1 E2. unfold made. rewrite E1, E2. by split.
  - rewrite E. assert (NoDup (relocated_of fm codecs fc)) as Hn by (apply NoDup_ListNoDup, List.NoDup_filter, NoDup_ListNoDup, NoDup_zrange).
    clear E. induction Hn as [|b l Hb Hn IH]; cbn [fmap list_fmap concat]; [constructor|]. apply NoDup_app. split; [|split; [|exact IH]].
    + apply (NoDup_fmap_2 _ _ (NoDup_zrange _ _)).
    + intros [b' i] H1 H2. apply list_elem_of_fmap in H1 as (j & [= -> ->] & _). apply list_elem_of_In, in_concat in H2 as (l2 & Hl2 & Hk).
      apply list_elem_of_In, list_elem_of_fmap in Hl2 as (b2 & -> & Hb2). apply list_elem_of_In, list_elem_of_fmap in Hk as (j' & [= -> ->] & _). done.
Qed.

(** C32: a layout that is not declined. The extension starts on a page past the
    origin's end; the relocated tree key fits its reservation and the slots follow it one after
    another, without gaps, up to the virtual size; there is one slot per basket of every
    relocatable branch, in order, and each can hold its original record. The windows lie in the
    original file, apart from each other and ascending. The tree record a reader finds, in
    the relocated key, has the original's length, names each slot's offset and length where it named the
    basket's, and is the original's elsewhere; the key says its record's length and offset. The metadata
    is as a parse gives it ([parsed]: fields of their width, tables inside the record and apart, fewer
    than 2^30 baskets and a file below 2^61 bytes); and of a tree record over 16 MiB each chunk
    compresses into the 24 bits of a frame's length ([frames_fit]), which [zstdFrames] does not check. *)
Theorem layout_correct `{CD : Codecs} fm fileSize header tkh keysList codecs F :
  parsed fm -> F < p32 -> ZstdLaw -> Forall is_byte header -> Forall is_byte keysList -> zlen keysList < p31 -> - p63 <= keyslistSeek fm < p63 ->
  let L := layoutForFill fm fileSize header tkh keysList codecs F in
  error L = [] -> (kMaxFrame < zlen (treeBlob fm) -> frames_fit (patched_tree fm L) kFillMetaZstdLevel) ->
  exists h, parseHeader header = Some h /\
  (originSize L = fend fm /\ fileSize = fend fm /\ metaSeek L mod kAlign = 0 /\ fend fm <= metaSeek L < fend fm + kAlign /\
   metaSeek L + zlen (metaRecord L) <= slotsBegin L) /\
  (tiled (slotsBegin L) (slots L) (virtualSize L) /\ virtualSize L < p63 /\
   key_of <$> slots L = concat (baskets_of fm <$> relocated L) /\ relocated L = relocated_of fm codecs (h_compress h) /\ relocated L <> [] /\
   Forall (names_basket fm) (slots L)) /\
  (exists w klist, windows L = [w; (keyslistSeek fm, klist)] /\ headerWindowForEnd header (virtualSize L) = Some w /\
     fst w + zlen (snd w) <= 75 /\ 100 <= keyslistSeek fm /\ zlen klist = zlen keysList /\ keyslistSeek fm + zlen klist <= fend fm) /\
  (let blob := patched_tree fm L in
   holds_tree fm L blob /\ zlen blob = zlen (treeBlob fm) /\
   Forall (fun s => beGetS 8 blob (seekArrayOff (branch_at fm (s_branch s)) + 8 * s_basket s) = vSeek s /\
                    beGetS 4 blob (bytesArrayOff (branch_at fm (s_branch s)) + 4 * s_basket s) = vLen s) (slots L) /\
   (forall o n, 0 <= o -> 0 <= n -> Forall (fun s => Forall (fun w => apart (o, n) (region w)) (writes_of fm s)) (slots L) ->
      zsub blob o n = zsub (treeBlob fm) o n)) /\
  beGetS 4 (metaRecord L) 0 = zlen (metaRecord L) /\ seek_of fm (metaRecord L) = metaSeek L /\ agree tkh (metaRecord L) 4 18.
Proof.
  intros Hp HF Hlaw Hbh Hbk Hlk Hks L HL Hfit. destruct (layout_inv fm fileSize header tkh keysList codecs F HL) as (h & out & at_ & blob & rec & klist & w & HI).
  cbn zeta in HI. destruct HI as (EG & Hrel & Es & EF & El & EP & EK & EW & EL). fold L in EL. exists h.
  destruct (gates_inv _ _ _ _ _ EG) as (HF1 & Eh & Lt & Lk). split; [done|]. destruct (p_fend fm Hp) as [He0 He1]. rewrite w64_small in Es by lia. subst fileSize.
  set (ms := (fend fm +% kAlign -% 1) / kAlign *% kAlign) in *.
  pose proof (Z.div_mod (fend fm + kAlign - 1) kAlign ltac:(done)) as Dm. pose proof (Z.mod_pos_bound (fend fm + kAlign - 1) kAlign ltac:(done)) as Mb.
  assert (ms = (fend fm + kAlign - 1) / kAlign * kAlign) as Ems by (unfold ms, kAlign in *; nowrap; done).
  assert (fend fm <= ms < fend fm + kAlign) as Hms by (unfold kAlign in *; lia). clearbody ms.
  pose proof (p_blob fm Hp). pose proof (p_key fm Hp). pose proof (zlen_nonneg (treeBlob fm)). pose proof (p_total fm Hp) as Ht.
  rewrite (w64_small (ms + (keylen (treeKey fm) + zlen (treeBlob fm)))) in EF, EK, EL by (unfold kAlign in *; lia). set (sb := ms + (keylen (treeKey fm) + zlen (treeBlob fm))) in *.
  set (rel := relocated_of fm codecs (h_compress h)) in *.
  assert (0 <= count_of fm rel < 2 ^ 30) as Hc.
  { pose proof (count_filter fm (fun b => relocatable fm codecs (h_compress h) (branch_at fm b)) (zrange 0 (zlen (branches fm)))) as Cf.
    change (List.filter _ _) with rel in Cf. unfold total_baskets in Ht. lia. }
  destruct (fill_branches fm F Hp (conj HF1 HF) codecs (h_compress h) rel sb (treeBlob fm) []) as (ss & e & EF2 & T & Le & N & G);
    [unfold sb; lia|unfold sb, kAlign in *; lia|by intros b Hb; apply elem_of_relocated|].
  unfold fill_slots in EF. rewrite EF2 in EF. injection EF as -> Eb Eo. cbn [app] in Eo. subst ss.
  destruct (keys_made fm codecs (h_compress h) out N) as [Hm Hnd]. pose proof (tiled_le _ _ _ T) as Hle.
  assert (blob = patched_tree fm L) as Ebl by (unfold patched_tree; rewrite EL; cbn [slots]; by symmetry).
  assert (0 <= sb /\ at_ < p63) as [Hsb Hat] by (unfold sb, kAlign in *; lia).
  assert (Forall (fun s => 0 <= vSeek s < p63 /\ 0 <= vLen s < p31) out) as Hr.
  { apply Forall_forall. intros s Hs. apply list_elem_of_lookup in Hs as [i Hi]. destruct (tiled_lookup _ _ _ _ _ T Hi).
    destruct (Forall_lookup_1 _ _ _ _ G Hi) as (_ & _ & ? & ? & ? & _). lia. }
  destruct (patched_fields fm Hp out Hm Hnd Hr) as (Lb & Fs & Ho).
  assert (patched_tree fm L = write_all (concat (writes_of fm <$> out)) (treeBlob fm)) as Ept by (unfold patched_tree; rewrite EL; done).
  rewrite <- Ept in Lb, Fs, Ho. rewrite Ebl in El, EP.
  rewrite zlen_app in El. destruct (meta_fields (ver (treeKey fm)) tkh (meta_payload (patched_tree fm L)) ms rec) as (Lr & Py & Nb & Sk & Ag);
    [lia|rewrite zlen_app; lia|unfold kAlign in *; lia|exact EP|].
  rewrite zlen_app in Lr. destruct (keys_inv fm keysList _ klist EK Hbk Hlk Hks) as (Lkl & K1 & K2); [cbn; lia|]. cbn [originSize] in K2.
  rewrite (w64_small (keyslistSeek fm)) in EL by lia.
  rewrite EL. cbn [originSize metaSeek metaRecord slotsBegin slots virtualSize relocated windows]. rewrite <- EL.
  split; [|split; [|split; [|split; [|split; [exact Nb|split; [exact Sk|exact Ag]]]]]].
  - split; [done|]. split; [done|]. split; [rewrite Ems; apply Z.mod_mul; done|]. split; [done|]. unfold sb. lia.
  - repeat split; done.
  - exists w, klist. split; [done|]. split; [done|]. split; [|done].
    unfold headerWindowForEnd in EW. rewrite Eh in EW. injection EW as <-. destruct (large h); [by cbn|]. destruct (at_ <? p31); [by cbn|]. cbn [fst snd].
    unfold largeHeader. assert (zlen (uuid h) = 18) as Lu.
    { unfold parseHeader in Eh. destruct (_ || _)%bool eqn:E in Eh; [done|]. b2p. destruct (75 <=? _); [|done].
      destruct (1000000 <=? _); injection Eh as <-; cbn [uuid]; apply zlen_zsub; lia. }
    rewrite (write_all_len _ _ 0); rewrite ?zlen_zeros; try lia. cbn [fields_ok]. rewrite !zlen_be, Lu. change (zlen (bs "root")) with 4. change (zlen [8]) with 1. lia.
  - split; [|by split].
    unfold holds_tree. rewrite EL. cbn [metaRecord]. rewrite <- EL. rewrite <- Lt, Py. apply meta_payload_ok; [done|]. by rewrite Lb.
Qed.

(** One branch of two baskets in a file of 1000 bytes. *)
Definition demo_branch : BranchInfo := mkBranch (bs "x") 2 2 0 [200; 300] [50; 60] [] [] [] [] 0 16 101 0 30 false.
Definition demo_tkey : KeyInfo := mkKey 80 1004 40 44 1 500 (bs "TTree") (bs "Ev") (bs "").
Definition demo_fm : FileMeta := mkFile false 1000 600 0 4 4 demo_tkey (zeros 40) 0 0 8 110 32 [] [] [demo_branch] [].
Definition demo_entry : bytes :=
  be_bytes 4 80 ++ be_bytes 2 1004 ++ be_bytes 4 40 ++ zeros 4 ++ be_bytes 2 44 ++ be_bytes 2 1 ++ be_bytes 8 500 ++ be_bytes 8 100 ++ [5] ++ bs "TTree" ++ [2] ++ bs "Ev" ++ [0].
Definition demo_keys : bytes :=
  be_bytes 4 96 ++ be_bytes 2 1004 ++ be_bytes 4 0 ++ zeros 4 ++ be_bytes 2 48 ++ be_bytes 2 1 ++ be_bytes 8 600 ++ be_bytes 8 100 ++ [5] ++ bs "TFile" ++ [2] ++ bs "f1" ++ [4] ++ bs "demo" ++
  be_bytes 4 1 ++ demo_entry.
Definition demo_layout : FillLayout := layoutForFill (CD := demo_codecs) demo_fm 1000 demo_header demo_entry demo_keys [bs "zlib"] 300.
Lemma demo_parsed : parsed demo_fm.
Proof.
  constructor; cbn [fend treeBlob treeKey keylen branches demo_fm demo_tkey]; try lia.
  - vm_compute. reflexivity.
  - repeat constructor; cbn; lia.
  - constructor; [|constructor]. intros _. change (zlen (zeros 40)) with 40. unfold arrays_of. cbn. repeat (apply Forall_cons; split; [cbn; lia|]). constructor.
  - intros i j m n a b bi bj Hi Hj _ _ Ha Hb Hne. destruct i as [|i], j as [|j]; cbn in Hi, Hj; try done. injection Hi as <-. injection Hj as <-.
    unfold apart. destruct m as [|[|m]], n as [|[|n]]; cbn in Ha, Hb; try done; injection Ha as <-; injection Hb as <-; cbn; try lia; by destruct Hne.
  - vm_compute. reflexivity.
Qed.
Lemma demo_is_byte l : forallb (fun b => (0 <=? b) && (b <? 256)) l = true -> Forall is_byte l.
Proof. intros F. rewrite List.forallb_forall in F. apply Forall_forall. intros x Hx. apply list_elem_of_In, F in Hx. b2p. unfold is_byte. lia. Qed.

Lemma layout_correct_witness :
  error demo_layout = [] /\ tiled (slotsBegin demo_layout) (slots demo_layout) (virtualSize demo_layout) /\
  key_of <$> slots demo_layout = [(0, 0); (0, 1)] /\ beGetS 8 (patched_tree demo_fm demo_layout) 8 = 4330.
Proof.
  assert (error demo_layout = []) as HL by (vm_compute; reflexivity). split; [exact HL|].
  destruct (layout_correct (CD := demo_codecs) demo_fm 1000 demo_header demo_entry demo_keys [bs "zlib"] 300 demo_parsed ltac:(lia)) as (h & Eh & _ & (T & _ & K & _) & _ & (_ & _ & Fs & _) & _).
  - intros c level z Hz. exact (stored_law c level z Hz).
  - apply demo_is_byte. vm_compute. reflexivity.
  - apply demo_is_byte. vm_compute. reflexivity.
  - vm_compute. reflexivity.
  - cbn. lia.
  - exact HL.
  - change (zlen (treeBlob demo_fm)) with 40. unfold kMaxFrame. lia.
  - split; [exact T|]. split; [vm_compute; reflexivity|]. assert (slots demo_layout !! 1%nat = Some (mkSlot 300 60 4330 180 0 1)) as Es by (vm_compute; reflexivity).
    exact (proj1 (Forall_lookup_1 _ _ _ _ Fs Es)).
Defined.
End FillGeometry.
