(* ===== verification/Transposer.v ===== *)
(** * The replica builder (src/transpose/Transposer.h, Transposer.cc)

    Re-encodes the baskets of a set of branches behind the end of the file, relocates the tree
    record after them, patches the keys list and the header, and describes the result as a
    replica overlay. [Fault]: the code touches bytes outside a vector. The time the decodes took
    ([decodeNs]) is left out. *)

From stdpp Require Import sorting.
From S2P Require Import Prelude UrlKey RootFile TreeMeta ReplicaFile.

Module Trans.
Import Root TreeData Tree.

Definition kMetaZstdLevel : Z := 9.

(** A big-endian field of a vector. *)
Definition wr (n : nat) (buf : bytes) (off v : Z) : option bytes :=
  if (0 <=? off) && (off + Z.of_nat n <=? zlen buf) then Some (bePut n buf off v) else None.

(** ** What comes out *)
Record Counts := mkCounts { decodeBytes : Z; baskets : Z; transcoded : Z; verbatim : Z; fallbackRaw : Z; oldBytes : Z; newBytes : Z }.
Record Overlay := mkOverlay {
  counts : Counts; tdata : bytes; o_meta : Replica.ReplicaMeta; metaRawBytes : Z; metaStoredBytes : Z; o_error : bytes; transient : bool }.
Definition no_counts : Counts := mkCounts 0 0 0 0 0 0 0.
Definition new_meta : Replica.ReplicaMeta := Replica.mkRep 0 Replica.kZstd1 0 0 0 0 0 0 0 [] [] [] [] [].
(** [fail] and [unavailable]: a verdict on the file, or something to try again. *)
Definition stopped (n : Counts) (why : bytes) (transient : bool) : Overlay := mkOverlay n [] new_meta 0 0 why transient.
Inductive Out (A : Type) := Going (a : A) | Stop (ov : Overlay) | Fault.
Arguments Going {A} a. Arguments Stop {A} ov. Arguments Fault {A}.

Inductive Patch := PDone (rec : bytes) | PTooFar | PFault.
Definition patchSeek (rec : bytes) (at_ ver seek : Z) : Patch :=
  if 1000 <? ver then match wr 8 rec (at_ + 18) seek with Some r => PDone r | None => PFault end
  else if seek <? p31 then match wr 4 rec (at_ + 18) seek with Some r => PDone r | None => PFault end
  else PTooFar.
Definition too_far : bytes := bs "32-bit key cannot point past 2 GiB".

(** ** The build so far: counts, the patched tree record, the extension, where its pieces came from *)
Record Build := mkBuild { counts_ : Counts; blob_ : bytes; ext_ : bytes; orig_ : list Replica.OrigRange; super_ : list Replica.Range }.
Definition start (fm : FileMeta) : Build := mkBuild no_counts (treeBlob fm) [] [] [].

(** ** The tail every build shares *)
Section finish.
Context `{CD : Codecs} (ZSTD_VERSION_NUMBER : Z).

Definition meta_payload (blob : bytes) : bytes :=
  let z := encodeZstdFrames blob kMetaZstdLevel in
  if bytes_eqb z [] || (zlen blob <=? zlen z) then blob else z.

(** The entries of the keys list; [inl]: the reason, or [None] for a fault. *)
Fixpoint repoint (n : nat) (tk : KeyInfo) (len newSeek : Z) (klist : bytes) (pos : Z) (patched : bool) : option bytes + bytes * bool :=
  match n with
  | O => inr (klist, patched)
  | S n' =>
      match parseKey klist pos with
      | None => inl (Some (bs "keys-list entry parse failed"))
      | Some e =>
          if bytes_eqb (cls e) (bs "TTree") && bytes_eqb (name e) (name tk) && (seekkey e =? seekkey tk) then
            match wr 4 klist pos len with
            | None => inl None
            | Some klist =>
                match patchSeek klist pos (ver e) newSeek with
                | PFault => inl None
                | PTooFar => inl (Some too_far)
                | PDone klist => repoint n' tk len newSeek klist (pos + keylen e) true
                end
            end
          else repoint n' tk len newSeek klist (pos + keylen e) patched
      end
  end.
Definition patched_keys (tk : KeyInfo) (len newSeek : Z) (klist : bytes) : option bytes + bytes :=
  match parseKey klist 0 with
  | None => inl (Some (bs "keys-list key geometry implausible"))
  | Some kl =>
      if (nbytes kl <=? 0) || negb (nbytes kl =? zlen klist) || (zlen klist <? keylen kl + 4)
      then inl (Some (bs "keys-list key geometry implausible"))
      else
        match repoint (Z.to_nat (beGetS 4 klist (keylen kl))) tk len newSeek klist (keylen kl + 4) false with
        | inl e => inl e
        | inr (_, false) => inl (Some (bs "live tree entry not found in keys list"))
        | inr (klist, true) => inr klist
        end
  end.

(** Few large ranges instead of many small ones. *)
Definition range_le (a b : Replica.Range) : Prop := Replica.roff a <= Replica.roff b.
#[global] Instance range_le_dec a b : Decision (range_le a b).
Proof. unfold range_le. apply _. Defined.
Definition orig_le (a b : Replica.OrigRange) : Prop := Replica.ovirt a <= Replica.ovirt b.
#[global] Instance orig_le_dec a b : Decision (orig_le a b).
Proof. unfold orig_le. apply _. Defined.
Definition add_range (merged : list Replica.Range) (r : Replica.Range) : list Replica.Range :=
  match merged with
  | back :: rest =>
      if Replica.roff r <=? Replica.roff back +% Replica.rlen back then
        let end_ := Z.max (Replica.roff back +% Replica.rlen back) (Replica.roff r +% Replica.rlen r) in
        Replica.mkRange (Replica.roff back) (end_ -% Replica.roff back) :: rest
      else r :: merged
  | [] => [r]
  end.
Definition merge_ranges (l : list Replica.Range) : list Replica.Range := rev (foldl add_range [] (merge_sort range_le l)).

Definition finishOverlay (fm : FileMeta) (b : Build) (mkey klist : bytes) : Out Overlay :=
  let extBase := fend fm in
  let payload := meta_payload (blob_ b) in
  let fail why := Stop (mkOverlay (counts_ b) [] new_meta (zlen (blob_ b)) (zlen payload) why false) in
  let newSeek := extBase + zlen (ext_ b) in
  let len := keylen (treeKey fm) + zlen payload in
  match wr 4 mkey 0 len with
  | None => Fault
  | Some mkey =>
      match patchSeek mkey 0 (ver (treeKey fm)) newSeek with
      | PFault => Fault
      | PTooFar => fail too_far
      | PDone mkey =>
          let ext := ext_ b ++ mkey ++ payload in
          let super := super_ b ++ [Replica.mkRange (w64 (seekkey (treeKey fm))) (w64 (nbytes (treeKey fm)))] in
          let orig := orig_ b ++ [Replica.mkOrig (w64 newSeek) (zlen mkey + zlen payload) (w64 (seekkey (treeKey fm))) (w64 (nbytes (treeKey fm)))] in
          match patched_keys (treeKey fm) len newSeek klist with
          | inl None => Fault
          | inl (Some why) => fail why
          | inr klist =>
              if (keyslistSeek fm <? 100) || (w64 extBase <? w64 (keyslistSeek fm) +% zlen klist)
              then fail (bs "keys-list record does not lie inside the original file")
              else
                let hw := headerSeekWidth fm in
                let newFend := extBase + zlen ext in
                if (hw =? 4) && (p31 <=? newFend) then fail (bs "small-layout file would grow past 2 GiB")
                else
                  let hdrWin := be_bytes (if hw =? 8 then 8 else 4) newFend in
                  let ks := w64 (keyslistSeek fm) in
                  let extents := [Replica.mkExtent 12 hw 0; Replica.mkExtent ks (zlen klist) hw;
                                  Replica.mkExtent (w64 extBase) (zlen ext) (hw + zlen klist)] in
                  let orig := orig ++ [Replica.mkOrig 12 hw 12 hw; Replica.mkOrig ks (zlen klist) ks (zlen klist)] in
                  Going (mkOverlay (counts_ b) (hdrWin ++ klist ++ ext)
                    (Replica.mkRep 0 Replica.kZstd1 ZSTD_VERSION_NUMBER (w64 (fend fm)) 0 0 0 (w64 newFend) 0 []
                       extents (merge_ranges super) (merge_sort orig_le orig) [])
                    (zlen (blob_ b)) (zlen payload) [] false)
          end
      end
  end.

(** ** One basket *)
Inductive How := Verbatim | FallbackRaw | Transcoded.
Inductive Conv := CRec (rec : bytes) (how : How) (decoded : Z) | CDecode | CEncode (decoded : Z) | CFault.
Definition convert (rec : bytes) (k : KeyInfo) : Conv :=
  if objlen k =? nbytes k - keylen k then CRec rec Verbatim 0
  else if (zlen rec <? keylen k) && negb (objlen k =? 0) then CFault
  else
    let raw := decompressFrames (zsub rec (keylen k) (zlen rec - keylen k)) (w64 (objlen k)) in
    if bytes_eqb raw [] then CDecode
    else
      let pay := encodeZstdFrames raw 1 in
      if bytes_eqb pay [] then CEncode (zlen raw)
      else
        let '(use, how) := if zlen raw <=? zlen pay then (raw, FallbackRaw) else (pay, Transcoded) in
        let r := zsub rec 0 (keylen k) ++ use in
        match wr 4 r 0 (zlen r) with Some r => CRec r how (zlen raw) | None => CFault end.
Definition count_conv (n : Counts) (how : How) (decoded : Z) : Counts :=
  mkCounts (decodeBytes n +% decoded) (baskets n)
    (transcoded n +% match how with Transcoded => 1 | _ => 0 end) (verbatim n +% match how with Verbatim => 1 | _ => 0 end)
    (fallbackRaw n +% match how with FallbackRaw => 1 | _ => 0 end) (oldBytes n) (newBytes n).
Definition counts_plus (n : Counts) (decoded : Z) : Counts :=
  mkCounts (decodeBytes n +% decoded) (baskets n) (transcoded n) (verbatim n) (fallbackRaw n) (oldBytes n) (newBytes n).
Definition count_placed (n : Counts) (nb len : Z) : Counts :=
  mkCounts (decodeBytes n) (baskets n +% 1) (transcoded n) (verbatim n) (fallbackRaw n) (oldBytes n +% nb) (newBytes n +% len).

(** The record's place, and every field that names it. *)
Definition place_basket (fm : FileMeta) (b : BranchInfo) (i off nb ver : Z) (rec : bytes) (s : Build) : Out Build :=
  let newSeek := fend fm + zlen (ext_ s) in
  match patchSeek rec 0 ver newSeek with
  | PFault => Fault
  | PTooFar => Stop (stopped (counts_ s) too_far false)
  | PDone rec =>
      match wr 8 (blob_ s) (seekArrayOff b + 8 * i) newSeek with
      | None => Fault
      | Some blob =>
          match wr 4 blob (bytesArrayOff b + 4 * i) (zlen rec) with
          | None => Fault
          | Some blob =>
              Going (mkBuild (count_placed (counts_ s) nb (zlen rec)) blob (ext_ s ++ rec)
                (orig_ s ++ [Replica.mkOrig (w64 newSeek) (zlen rec) off nb]) (super_ s ++ [Replica.mkRange off nb]))
          end
      end
  end.
End finish.

(** ** The build from the original's bytes *)
Section build.
Context {W : Type} `{!Source W} `{CD : Codecs} (ZSTD_VERSION_NUMBER : Z).
Open Scope io_scope.

Definition build_basket (fm : FileMeta) (name : bytes) (b : BranchInfo) (i : Z) (s : Build) : M W (Out Build) :=
  let off := w64 (zget (basketSeek b) i) in
  let nb := w64 (zget (basketBytes b) i) in
  let unavailable n why := Stop (stopped n (name ++ why) true) in
  do ok <- has off nb;
  if negb ok then ret (unavailable (counts_ s) (bs ": basket " ++ UrlKey.to_string i ++ bs " not available"))
  else
    do r <- src_read nb off;
    match r with
    | None => ret (unavailable (counts_ s) (bs ": basket " ++ UrlKey.to_string i ++ bs " no longer readable"))
    | Some rec =>
        ret (match parseKey rec 0 with
             | None => Stop (stopped (counts_ s) (name ++ bs ": unexpected basket key") false)
             | Some k =>
                 if negb (bytes_eqb (cls k) (bs "TBasket")) || negb (bytes_eqb (Root.name k) name)
                 then Stop (stopped (counts_ s) (name ++ bs ": unexpected basket key") false)
                 else
                   match convert rec k with
                   | CFault => Fault
                   | CDecode => Stop (stopped (counts_ s) (name ++ bs ": basket decompression failed") false)
                   | CEncode decoded => unavailable (counts_plus (counts_ s) decoded) (bs ": zstd encode failed")
                   | CRec rec how decoded =>
                       place_basket fm b i off nb (ver k) rec
                         (mkBuild (count_conv (counts_ s) how decoded) (blob_ s) (ext_ s) (orig_ s) (super_ s))
                   end
             end)
    end.
Fixpoint each {A} (f : A -> Build -> M W (Out Build)) (l : list A) (s : Build) : M W (Out Build) :=
  match l with
  | [] => ret (Going s)
  | a :: l' =>
      do r <- f a s;
      match r with Going s => each f l' s | Stop ov => ret (Stop ov) | Fault => ret Fault end
  end.
Definition find_branch (fm : FileMeta) (name : bytes) : option BranchInfo := List.find (fun b => bytes_eqb (b_name b) name) (branches fm).
Definition build_branch (fm : FileMeta) (name : bytes) (s : Build) : M W (Out Build) :=
  match find_branch fm name with
  | None => ret (Stop (stopped (counts_ s) (bs "hot branch not in tree: " ++ name) false))
  | Some b => each (build_basket fm name b) (zrange 0 (writeBasket b)) s
  end.

(** The tree key's header and the keys list, read here. *)
Definition read_key_header (fm : FileMeta) : M W (option bytes) :=
  do ok <- has (w64 (seekkey (treeKey fm))) (w64 (nbytes (treeKey fm)));
  if negb ok then ret None else src_read (keylen (treeKey fm)) (w64 (seekkey (treeKey fm))).
Definition read_keys_list (fm : FileMeta) (n : Counts) : M W (bytes + Overlay) :=
  let fail why tr := inr (stopped n why tr) in
  let probe := if keyslistSeek fm <? fend fm then Z.min 512 (w64 (fend fm - keyslistSeek fm)) else 0 in
  if probe =? 0 then ret (fail (bs "keys-list lies at or past the end of the file") false)
  else
    do r <- src_read probe (w64 (keyslistSeek fm));
    match r with
    | None => ret (fail (bs "keys-list header not readable") true)
    | Some h =>
        match parseKey h 0 with
        | None => ret (fail (bs "keys-list key parse failed") false)
        | Some kl =>
            if (nbytes kl <=? 0) || (w32 (nbytes kl) <? keylen kl + 4) then ret (fail (bs "keys-list key geometry implausible") false)
            else
              do ok <- has (w64 (keyslistSeek fm)) (nbytes kl);
              if negb ok then ret (fail (bs "keys-list not available") true)
              else
                do r <- src_read (nbytes kl) (w64 (keyslistSeek fm));
                ret (match r with None => fail (bs "keys-list not available") true | Some l => inl l end)
        end
    end.

(** [None]: a fault. *)
Definition result (r : Out Overlay) : option Overlay := match r with Going ov => Some ov | Stop ov => Some ov | Fault => None end.
Definition buildOverlay (fm : FileMeta) (hot : list bytes) : M W (option Overlay) :=
  match f_error fm with
  | (_ :: _) as e => ret (Some (stopped no_counts (bs "parse: " ++ e) false))
  | [] =>
      do r <- each (build_branch fm) hot (start fm);
      match r with
      | Fault => ret None
      | Stop ov => ret (Some ov)
      | Going s =>
          do h <- read_key_header fm;
          match h with
          | None => ret (Some (stopped (counts_ s) (bs "tree key header not available") true))
          | Some mkey =>
              do l <- read_keys_list fm (counts_ s);
              match l with
              | inr ov => ret (Some ov)
              | inl klist => ret (result (finishOverlay ZSTD_VERSION_NUMBER fm s mkey klist))
              end
          end
      end
  end.

(** ** Which branches *)
Definition basket_range (b : BranchInfo) (i : Z) : Z * Z := (w64 (zget (basketSeek b) i), w64 (zget (basketBytes b) i)).
Fixpoint all_has (l : list (Z * Z)) : M W bool :=
  match l with
  | [] => ret true
  | (off, n) :: l' => do ok <- has off n; if (ok : bool) then all_has l' else ret false
  end.
Definition fullyCached (b : BranchInfo) : M W bool :=
  if writeBasket b <=? 0 then ret false else all_has (basket_range b <$> zrange 0 (writeBasket b)).
Definition known (n : bytes) (l : list bytes) : bool := existsb (bytes_eqb n) l.
(** The first branch of the counter's name that is wholly there. *)
Fixpoint buildable (name : bytes) (l : list BranchInfo) : M W bool :=
  match l with
  | [] => ret false
  | c :: l' =>
      if bytes_eqb (b_name c) name then do ok <- fullyCached c; if (ok : bool) then ret true else buildable name l'
      else buildable name l'
  end.
(** [out] and [have] as one dependent branch after the other is looked at. *)
Fixpoint counters_of (fm : FileMeta) (n : bytes) (l : list BranchInfo) (out have : list bytes) : M W (list bytes * list bytes) :=
  match l with
  | [] => ret (out, have)
  | b :: l' =>
      if bytes_eqb (b_name b) n && negb (bytes_eqb (leafCount b) []) && negb (known (leafCount b) have) then
        do ok <- buildable (leafCount b) (branches fm);
        counters_of fm n l' (if (ok : bool) then out ++ [leafCount b] else out) (leafCount b :: have)
      else counters_of fm n l' out have
  end.
Fixpoint with_counters (fm : FileMeta) (names out have : list bytes) : M W (list bytes) :=
  match names with
  | [] => ret out
  | n :: names' => do oh <- counters_of fm n (branches fm) out have; with_counters fm names' (fst oh) (snd oh)
  end.
Definition withCounters (fm : FileMeta) (names : list bytes) : M W (list bytes) := with_counters fm names names names.

Definition branchCodec (b : BranchInfo) : M W bytes :=
  if writeBasket b <=? 0 then ret []
  else
    let '(off, nb) := basket_range b 0 in
    let want := Z.min nb 512 in
    do ok <- has off want;
    if negb ok then ret []
    else
      do r <- src_read want off;
      ret (match r with
           | None => []
           | Some head =>
               match parseKey head 0 with
               | None => []
               | Some k =>
                   if want <? keylen k + 2 then []
                   else if w64 (w64 (objlen k) + keylen k) =? w64 (nbytes k) then bs "none"
                   else
                     let m0 := zget head (keylen k) in
                     let m1 := zget head (keylen k + 1) in
                     if (m0 =? 88) && (m1 =? 90) then bs "lzma"
                     else if (m0 =? 90) && (m1 =? 76) then bs "zlib"
                     else if (m0 =? 90) && (m1 =? 83) then bs "zstd"
                     else if (m0 =? 76) && (m1 =? 52) then bs "lz4"
                     else []
               end
           end).
Fixpoint hot_of (codecs : list bytes) (l : list BranchInfo) : M W (list bytes) :=
  match l with
  | [] => ret []
  | b :: l' =>
      do ok <- fullyCached b;
      if negb ok then hot_of codecs l'
      else
        do listed <- (match codecs with [] => ret true | _ => do c <- branchCodec b; ret (known c codecs) end);
        do rest <- hot_of codecs l';
        ret (if (listed : bool) then b_name b :: rest else rest)
  end.
Definition deriveHotBranches (fm : FileMeta) (codecs : list bytes) : M W (list bytes) :=
  do hot <- hot_of codecs (branches fm);
  withCounters fm hot.

(** The uncompressed size the hot branches' keys declare. *)
Fixpoint hot_baskets (b : BranchInfo) (l : list Z) (total : Z) : M W Z :=
  match l with
  | [] => ret total
  | i :: l' =>
      let '(off, nb) := basket_range b i in
      let want := Z.min nb 64 in
      do ok <- has off want;
      if negb ok then hot_baskets b l' total
      else
        do r <- src_read want off;
        hot_baskets b l' (match r with
                          | None => total
                          | Some head => match parseKey head 0 with Some k => total +% w64 (objlen k) | None => total end
                          end)
  end.
Fixpoint hotUncompressedBytes (fm : FileMeta) (hot : list bytes) (total : Z) : M W Z :=
  match hot with
  | [] => ret total
  | name :: hot' =>
      match find_branch fm name with
      | None => hotUncompressedBytes fm hot' total
      | Some b => do total <- hot_baskets b (zrange 0 (writeBasket b)) total; hotUncompressedBytes fm hot' total
      end
  end.
End build.

(** ** The build from records converted elsewhere *)
Record RelocatedBasket := mkReloc { r_branch : Z; r_basket : Z }.
Section records.
Context {W : Type} `{CD : Codecs} (ZSTD_VERSION_NUMBER : Z) (record : Z -> M W (option bytes)).
Open Scope io_scope.

Definition place_record (fm : FileMeta) (jrb : Z * RelocatedBasket) (s : Build) : M W (Out Build) :=
  let '(j, rb) := jrb in
  if (zlen (branches fm) <=? r_branch rb) || (w32 (Z.max 0 (writeBasket (branch_at fm (r_branch rb)))) <=? r_basket rb)
  then ret (Stop (stopped (counts_ s) (bs "relocated basket out of range") false))
  else
    let b := branch_at fm (r_branch rb) in
    do r <- record j;
    ret (match r with
         | None => Stop (stopped (counts_ s) (b_name b ++ bs ": basket " ++ UrlKey.to_string (r_basket rb) ++ bs " record unavailable") true)
         | Some rec =>
             match parseKey rec 0 with
             | None => Stop (stopped (counts_ s) (b_name b ++ bs ": unexpected basket record") false)
             | Some k =>
                 if negb (bytes_eqb (cls k) (bs "TBasket")) || negb (bytes_eqb (name k) (b_name b)) || negb (w64 (nbytes k) =? zlen rec)
                 then Stop (stopped (counts_ s) (b_name b ++ bs ": unexpected basket record") false)
                 else
                   match place_basket fm b (r_basket rb) (w64 (zget (basketSeek b) (r_basket rb))) (w64 (zget (basketBytes b) (r_basket rb))) (ver k) rec s with
                   | Going s => Going (mkBuild (count_conv (counts_ s) Transcoded 0) (blob_ s) (ext_ s) (orig_ s) (super_ s))
                   | r => r
                   end
             end
         end).
Definition buildOverlayFromRecords (fm : FileMeta) (treeKeyHeader keysList : bytes) (bs_ : list RelocatedBasket) : M W (option Overlay) :=
  match f_error fm with
  | (_ :: _) as e => ret (Some (stopped no_counts (bs "parse: " ++ e) false))
  | [] =>
      if negb (zlen treeKeyHeader =? keylen (treeKey fm)) then ret (Some (stopped no_counts (bs "tree key header missing") false))
      else if zlen keysList <? 4 then ret (Some (stopped no_counts (bs "keys-list record missing") false))
      else
        do r <- each (place_record fm) (zip (zrange 0 (zlen bs_)) bs_) (start fm);
        match r with
        | Fault => ret None
        | Stop ov => ret (Some ov)
        | Going s => ret (result (finishOverlay ZSTD_VERSION_NUMBER fm s treeKeyHeader keysList))
        end
  end.
End records.
End Trans.
