(* ===== verification/TransposeBasket.v ===== *)
(** * The baskets of a replica build (src/transpose/Transposer.cc, buildOverlay)

    Every basket of the branches asked for is converted and placed behind the file's end. Proved:
    no step of it touches bytes outside a vector, and what it leaves - the patched tree record, the extension,
    the two lists of ranges - is told by the list of placed baskets. *)

From S2P Require Import Prelude UrlKey RootFile TreeMeta TreeParse ReplicaFile FillLayout FillHeader FillBasket FillGeometry Transposer.

Module TransBasket.
Import Root TreeData Tree TreeParse Fill Trans FillBasket FillGeometry.

(** ** Bounds of the vectors *)
Lemma wr_in n buf off v : 0 <= off -> off + Z.of_nat n <= zlen buf -> wr n buf off v = Some (bePut n buf off v).
Proof. intros H1 H2. unfold wr. by rewrite (proj2 (Z.leb_le 0 off)), (proj2 (Z.leb_le (off + _) _)) by lia. Qed.
(** With room for the field, [patchSeek] is [putKeySeek] of the layout. *)
Lemma patch_put rec at_ v seek : 0 <= at_ -> at_ + 26 <= zlen rec -> 0 <= seek ->
  match patchSeek rec at_ v seek with PDone r => Fill.putKeySeek rec at_ v seek = Some r | PTooFar => v <= 1000 /\ p31 <= seek | PFault => False end.
Proof.
  intros H0 Hr Hs. unfold patchSeek, Fill.putKeySeek. destruct (1000 <? v) eqn:E; [by rewrite wr_in by (cbn; lia)|]. b2p.
  destruct (seek <? p31) eqn:E2; b2p; [|done]. rewrite wr_in by (cbn; lia). by rewrite (proj2 (Z.ltb_ge seek 0)), (proj2 (Z.leb_gt p31 seek)) by lia.
Qed.

(** ** What is assumed of the file *)
(** A source gives the original's bytes or nothing. *)
Definition reads_of {W} `{!Source W} (orig : bytes) : Prop :=
  forall n off w d, fst (src_read n off w) = Some d -> 0 <= off /\ 0 <= n /\ off + n <= zlen orig /\ d = zsub orig off n.
(** A record whose key header lies inside its declared length, of a plausible size. *)
Definition good_record `{CD : Codecs} (rec : bytes) : Prop := forall k, parseKey rec 0 = Some k ->
  key_end k <= keylen k <= zlen rec /\ nbytes k = zlen rec /\ 0 <= objlen k /\ keylen k + objlen k < p31 /\
  (kMaxFrame < objlen k -> frames_fit (decompressFrames (zsub rec (keylen k) (zlen rec - keylen k)) (objlen k)) 1).

(** The branch of a name, as the code finds it, and where it stands. *)
Definition index_of (fm : FileMeta) (name : bytes) : option Z := (fun r : nat * BranchInfo => Z.of_nat (fst r)) <$> list_find (fun b => b_name b = name) (branches fm).
Lemma find_index fm name : find_branch fm name = branch_at fm <$> index_of fm name.
Proof.
  unfold find_branch, index_of, branch_at. induction (branches fm) as [|b l IH]; [done|]. cbn [List.find list_find]. unfold bytes_eqb. case_bool_decide as E.
  - rewrite decide_True by done. done.
  - rewrite decide_False by done. fold (bytes_eqb (b_name b) name) in IH. unfold bytes_eqb in IH. rewrite IH.
    destruct (list_find _ l) as [[i x]|]; [|done]. cbn. f_equal. replace (Z.to_nat (Z.of_nat (S i))) with (S i) by lia. by rewrite Nat2Z.id.
Qed.
Lemma index_inv fm name j : index_of fm name = Some j -> 0 <= j < zlen (branches fm) /\ b_name (branch_at fm j) = name.
Proof.
  unfold index_of. intros H. apply fmap_Some in H as ([i x] & Hf & ->). apply list_find_Some in Hf as (Hl & Hn & _). cbn [fst].
  pose proof (lookup_lt_Some _ _ _ Hl). split; [unfold zlen; lia|]. unfold branch_at. rewrite Nat2Z.id. by rewrite (nth_lookup_Some _ _ _ _ Hl).
Qed.

(** The baskets asked for, in order. *)
Definition wanted1 (fm : FileMeta) (name : bytes) : list (Z * Z) := match index_of fm name with Some j => baskets_of fm j | None => [] end.
Definition wanted (fm : FileMeta) (hot : list bytes) : list (Z * Z) := concat (wanted1 fm <$> hot).

Lemma wanted_inv fm hot j i : (j, i) ∈ wanted fm hot -> (exists name, name ∈ hot /\ index_of fm name = Some j) /\ 0 <= i < writeBasket (branch_at fm j).
Proof.
  intros H. apply list_elem_of_In, in_concat in H as (l & Hl & Hk). apply list_elem_of_In, list_elem_of_fmap in Hl as (name & -> & Hn). unfold wanted1 in Hk.
  destruct (index_of fm name) as [j'|] eqn:E; [|done]. apply list_elem_of_In, list_elem_of_fmap in Hk as (i' & [= -> ->] & Hi). apply elem_of_zrange in Hi.
  split; [by exists name|lia].
Qed.
Lemma wanted_nodup fm hot : NoDup hot -> NoDup (wanted fm hot).
Proof.
  induction 1 as [|name hot Hn Hh IH]; [constructor|]. unfold wanted. cbn [fmap list_fmap concat]. apply NoDup_app. split; [|split; [|exact IH]].
  - unfold wanted1. destruct (index_of fm name); [|constructor]. apply (NoDup_fmap_2 _ _ (NoDup_zrange _ _)).
  - intros [j i] H1 H2. apply wanted_inv in H2 as [(name' & Hn' & E') _]. unfold wanted1 in H1. destruct (index_of fm name) as [j'|] eqn:E; [|by apply elem_of_nil in H1].
    apply list_elem_of_fmap in H1 as (i' & [= -> ->] & _). apply index_inv in E as [_ E], E' as [_ E']. rewrite E in E'. by subst.
Qed.
(** They are some of the file's baskets. *)
Lemma wanted_few fm hot : NoDup hot -> zlen (wanted fm hot) <= total_baskets fm.
Proof.
  intros Hn. set (all := concat (baskets_of fm <$> zrange 0 (zlen (branches fm)))). assert (zlen all = total_baskets fm) as <-.
  { unfold all, total_baskets. induction (zrange 0 (zlen (branches fm))) as [|b l IH]; [done|]. cbn [fmap list_fmap concat]. rewrite zlen_app, IH. cbn [count_of foldr]. fold (count_of fm l).
    f_equal. unfold baskets_of, zlen. rewrite length_fmap. fold (zlen (zrange 0 (writeBasket (branch_at fm b)))).
    destruct (Z.le_gt_cases (writeBasket (branch_at fm b)) 0); [rewrite zrange_nil by lia; change (zlen []) with 0; lia|rewrite zlen_zrange by lia; lia]. }
  assert (wanted fm hot ⊆+ all) as Hs.
  { apply NoDup_submseteq; [by apply wanted_nodup|]. intros [j i] H. apply wanted_inv in H as [(name & _ & E) Hi]. apply index_inv in E as [E _].
    apply list_elem_of_In, in_concat. exists (baskets_of fm j). split; apply list_elem_of_In; apply list_elem_of_fmap; [exists j|exists i]; (split; [done|]; apply elem_of_zrange; lia). }
  apply submseteq_length in Hs. unfold zlen. lia.
Qed.

(** ** One basket *)
Section one.
Context `{CD : Codecs} (Hlaw : ZstdLaw).

Lemma convert_ok rec k : Forall is_byte rec -> zlen rec < p31 -> parseKey rec 0 = Some k -> cls k = bs "TBasket" -> good_record rec ->
  match convert rec k with
  | CFault => False
  | CRec rec' _ _ => 26 <= zlen rec' < p31 /\ forall s, vLen s = zlen rec' -> 0 <= vSeek s < p63 -> 1000 < ver k \/ vSeek s < p31 ->
      placed_ok rec k s (mkConv kOriginal rec' [] [])
  | _ => True
  end.
Proof using Hlaw.
  intros Hb Hl HP Hc Hg. destruct (Hg k HP) as (Hk & Hn & Ho & Hs & Hf). pose proof (zlen_nonneg (name k)). pose proof (zlen_nonneg (title k)).
  assert (34 <= keylen k) as H34 by (unfold key_end, key_start in Hk; rewrite Hc in Hk; change (zlen (bs "TBasket")) with 7 in Hk; case_match; lia).
  unfold convert. destruct (objlen k =? nbytes k - keylen k) eqn:Eraw.
  { split; [lia|]. intros s Hv Hsk Hw. apply place_original; first [done|lia]. }
  b2p. rewrite (proj2 (Z.ltb_ge (zlen rec) (keylen k))), w64_small by lia. cbn [andb]. set (pay := zsub rec (keylen k) (zlen rec - keylen k)) in *.
  destruct (bytes_eqb (decompressFrames pay (objlen k)) []) eqn:E3; [done|]. apply bool_decide_eq_false in E3.
  pose proof (decompress_len pay (objlen k) E3) as Lraw. set (raw := decompressFrames pay (objlen k)) in *.
  destruct (bytes_eqb (encodeZstdFrames raw 1) []) eqn:E4; [done|]. apply bool_decide_eq_false in E4.
  assert (content rec = Some raw) as Hco.
  { unfold content. rewrite HP, Hn. fold pay. rewrite (proj2 (Z.eqb_neq _ _)) by lia. done. }
  assert (exists use, (if zlen raw <=? zlen (encodeZstdFrames raw 1) then (raw, FallbackRaw) else (encodeZstdFrames raw 1, Transcoded)) =
    (use, if zlen raw <=? zlen (encodeZstdFrames raw 1) then FallbackRaw else Transcoded) /\ zlen use <= objlen k /\
    content rec = Some (if objlen k =? zlen use then use else decompressFrames use (objlen k))) as (use & -> & Lu & Cu).
  { destruct (zlen raw <=? _) eqn:E5; b2p; eexists; (split; [done|]).
    - split; [lia|]. by rewrite Hco, Lraw, Z.eqb_refl.
    - split; [lia|]. rewrite Hco, (proj2 (Z.eqb_neq _ _)) by lia. f_equal. rewrite <- Lraw. symmetry. apply frames_roundtrip; [done| |done].
      destruct (Z.le_gt_cases (objlen k) kMaxFrame); [by apply frames_fit_small; [lia|..]|by apply Hf]. }
  pose proof (zlen_nonneg use). assert (zlen (zsub rec 0 (keylen k)) = keylen k) as L0 by (apply zlen_zsub; lia).
  rewrite wr_in by (rewrite ?zlen_app; cbn; lia). destruct (rebuilt rec k use ltac:(lia) ltac:(lia)) as (Lb & _).
  rewrite Lb. split; [lia|]. intros s Hv Hsk Hw. apply place_rebuilt; first [done|lia].
Qed.

(** ** The state between two baskets, told by the baskets placed so far *)
Context (fm : FileMeta) (orig : bytes) (Hp : parsed fm) (Hb : Forall is_byte orig) (Hl : zlen orig < p63).

(** What a slot of the extension holds. *)
Definition same_basket (out : bytes) (s : Fill.FillSlot) : Prop :=
  let rec := zsub orig (origSeek s) (origLen s) in
  exists k, parseKey rec 0 = Some k /\ cls k = bs "TBasket" /\ name k = b_name (branch_at fm (s_branch s)) /\
    parseKey out 0 = Some (with_length k (vLen s) (vSeek s)) /\ content out = content rec.
Definition names (s : Fill.FillSlot) : Prop :=
  let br := branch_at fm (s_branch s) in
  origSeek s = zget (basketSeek br) (s_basket s) /\ origLen s = zget (basketBytes br) (s_basket s) /\
  0 <= origSeek s /\ 0 <= origLen s /\ origSeek s + origLen s <= zlen orig /\ 26 <= vLen s < p31.
Record built (s : Build) (ss : list Fill.FillSlot) : Prop := {
  bd_blob : blob_ s = write_all (concat (writes_of fm <$> ss)) (treeBlob fm);
  bd_tiled : tiled (fend fm) ss (fend fm + zlen (ext_ s));
  bd_made : Forall (made fm) ss;
  bd_names : Forall names ss;
  bd_same : Forall (fun x => same_basket (zsub (ext_ s) (vSeek x - fend fm) (vLen x)) x) ss;
  bd_super : super_ s = (fun x => Replica.mkRange (origSeek x) (origLen x)) <$> ss;
  bd_orig : orig_ s = (fun x => Replica.mkOrig (vSeek x) (vLen x) (origSeek x) (origLen x)) <$> ss }.

Lemma built_start : built (start fm) [].
Proof using. split; [done| |constructor..|done|done]. cbn [tiled start ext_]. change (zlen (@nil Z)) with 0. lia. Qed.
Lemma tiled_span ss : forall a e, Forall names ss -> tiled a ss e -> e <= a + p31 * zlen ss.
Proof using.
  induction ss as [|x ss IH]; intros a e; cbn [tiled]; [change (zlen (@nil Fill.FillSlot)) with 0; lia|]. intros [Hx Hs]%Forall_cons (_ & _ & Ht). rewrite zlen_cons.
  specialize (IH _ _ Hs Ht). destruct Hx as (_ & _ & _ & _ & _ & ?). lia.
Qed.

Lemma tiled_end ss : forall a e, tiled a ss e -> Forall (fun x => vSeek x + vLen x <= e) ss.
Proof using. intros a e H. apply Forall_lookup. intros i x Hx. by destruct (tiled_lookup _ _ _ _ _ H Hx). Qed.

(** Room for the two fields of a basket in the tree record. *)
Lemma fields_room s ss j i : built s ss -> 0 <= j < zlen (branches fm) -> 0 <= i < writeBasket (branch_at fm j) ->
  zlen (blob_ s) = zlen (treeBlob fm) /\
  0 <= seekArrayOff (branch_at fm j) + 8 * i /\ seekArrayOff (branch_at fm j) + 8 * i + 8 <= zlen (treeBlob fm) /\
  0 <= bytesArrayOff (branch_at fm j) + 4 * i /\ bytesArrayOff (branch_at fm j) + 4 * i + 4 <= zlen (treeBlob fm).
Proof using Hp.
  intros B Hj Hi. split.
  - rewrite (bd_blob _ _ B). apply write_all_apart. apply Forall_concat, Forall_fmap. eapply Forall_impl; [exact (bd_made _ _ B)|]. intros x Hx. by apply writes_bound.
  - pose proof (writes_bound fm Hp (mkSlot 0 0 0 0 j i) ltac:(by split)) as W. unfold writes_of in W. cbn [s_branch s_basket] in W.
    rewrite !Forall_cons in W. cbn [fst snd] in W. rewrite !zlen_be in W. lia.
Qed.

(** The record of a basket is placed behind the extension. *)
Lemma place_ok s ss j i k rec how d (off := zget (basketSeek (branch_at fm j)) i) (nb := zget (basketBytes (branch_at fm j)) i) :
  built s ss -> zlen ss < 2 ^ 30 -> 0 <= j < zlen (branches fm) -> 0 <= i < writeBasket (branch_at fm j) ->
  0 <= off -> 0 <= nb -> off + nb <= zlen orig -> parseKey (zsub orig off nb) 0 = Some k -> cls k = bs "TBasket" -> name k = b_name (branch_at fm j) -> good_record (zsub orig off nb) ->
  nb < p31 -> convert (zsub orig off nb) k = CRec rec how d ->
  match place_basket fm (branch_at fm j) i (w64 off) (w64 nb) (ver k) rec s with
  | Fault => False
  | Stop ov => o_error ov <> []
  | Going s' => exists x, key_of x = (j, i) /\ built s' (ss ++ [x])
  end.
Proof using Hlaw Hp Hb Hl.
  intros B Hss Hj Hi Ho Hn Hin HP Hc Hnm Hg Hnb Ec. set (rec0 := zsub orig off nb) in *. assert (zlen rec0 = nb) as L0 by (apply zlen_zsub; lia).
  pose proof (convert_ok rec0 k (Forall_zsub _ _ _ _ Hb) ltac:(lia) HP Hc Hg) as C. rewrite Ec in C. destruct C as [Lr PO].
  pose proof (zlen_nonneg (ext_ s)). pose proof (tiled_span ss _ _ (bd_names _ _ B) (bd_tiled _ _ B)). destruct (p_fend fm Hp) as [F0 F1].
  unfold place_basket. set (ns := fend fm + zlen (ext_ s)). pose proof (patch_put rec 0 (ver k) ns ltac:(lia) ltac:(lia) ltac:(lia)) as PP.
  assert (0 <= ns < p63) as Hns by lia.
  destruct (patchSeek rec 0 (ver k) ns) as [rec'| |] eqn:EP; [|done|done].
  destruct (fields_room s ss j i B Hj Hi) as (Lbl & A1 & A2 & A3 & A4).
  set (x := mkSlot off nb ns (zlen rec) j i). assert (1000 < ver k \/ ns < p31) as Hw.
  { unfold patchSeek in EP. destruct (1000 <? ver k) eqn:E1; b2p; [by left|]. destruct (ns <? p31) eqn:E2; [|done]. b2p. by right. }
  pose proof (PO x eq_refl Hns Hw) as P. destruct (placed_record _ _ _ _ P) as [_ Vr]. destruct P as (out & Eo & Lo & Pk & Co & _).
  assert (out = rec') as ->.
  { unfold placeInSlot in Eo. cbn [record c_error vLen vSeek x] in Eo. cbn [record] in Vr. rewrite Vr, PP, Z.sub_diag in Eo. destruct (_ || _)%bool; [done|]. destruct (_ <? _); [done|].
    change (zeros 0) with (@nil Z) in Eo. rewrite app_nil_r in Eo. by injection Eo as <-. }
  cbn [vLen vSeek x record] in *. rewrite wr_in by (cbn; lia). rewrite wr_in by (rewrite ?zlen_bePut; cbn; lia).
  exists x. split; [done|]. destruct B as [B1 B2 B3 B4 B5 B6 B7]. split; cbn [blob_ ext_ orig_ super_].
  - rewrite B1, fmap_app, concat_app. unfold write_all. rewrite foldl_app. cbn. rewrite Lo. done.
  - apply tiled_app. exists ns. split; [exact B2|]. cbn [tiled x vSeek vLen]. rewrite zlen_app, Lo. lia.
  - apply Forall_app. split; [done|]. apply Forall_cons; split; [by split|constructor].
  - apply Forall_app. split; [done|]. constructor; [|constructor]. split; [done|]. split; [done|]. cbn. lia.
  - apply Forall_app. split.
    + apply Forall_forall. intros y Hy. rewrite Forall_forall in B5. pose proof (B5 y Hy) as Sy. rewrite zsub_app_l; [exact Sy|..].
      * apply list_elem_of_lookup in Hy as [m Hm]. destruct (tiled_lookup _ _ _ _ _ B2 Hm). lia.
      * pose proof (Forall_forall (fun y => names y) ss) as [N _]. destruct (N B4 y Hy) as (_ & _ & _ & _ & _ & ?). lia.
      * pose proof (tiled_end _ _ _ B2) as T. rewrite Forall_forall in T. specialize (T y Hy). lia.
    + constructor; [|constructor]. cbn [vSeek vLen x]. unfold ns. rewrite zsub_app_r by lia. replace (fend fm + zlen (ext_ s) - fend fm - zlen (ext_ s)) with 0 by lia.
      rewrite zsub_all by lia. exists k. done.
  - rewrite fmap_app, B6. cbn. by rewrite (w64_small off), (w64_small nb) by lia.
  - rewrite fmap_app, B7. cbn. rewrite Lo. by rewrite (w64_small off), (w64_small nb), (w64_small ns) by lia.
Qed.
End one.

(** ** The loops *)
Definition out_ok {A} (P : A -> Prop) (r : Out A) : Prop := match r with Going a => P a | Stop ov => o_error ov <> [] | Fault => False end.
Lemma app_ne (a b : bytes) : b <> [] -> a ++ b <> [].
Proof. intros H E. by apply app_eq_nil in E as [_ E]. Qed.
Lemma signed_pos v : - p63 <= v < p63 -> w64 v < p63 -> 0 <= v.
Proof. intros Hv Hw. destruct (Z.lt_ge_cases v 0); [|done]. unfold w64 in Hw. rewrite <- (Z.mod_unique v p64 (-1) (v + p64)) in Hw by lia. lia. Qed.

Section loops.
Context {W : Type} `{!Source W} `{CD : Codecs} (Hlaw : ZstdLaw) (fm : FileMeta) (orig : bytes).
Context (Hp : parsed fm) (Hb : Forall is_byte orig) (Hl : zlen orig < p63) (Hr : reads_of orig).
Context (Hg : forall j i (off := zget (basketSeek (branch_at fm j)) i) (nb := zget (basketBytes (branch_at fm j)) i),
  0 <= j < zlen (branches fm) -> 0 <= i < writeBasket (branch_at fm j) -> 0 <= off -> 0 <= nb -> off + nb <= zlen orig -> good_record (zsub orig off nb)).

Lemma each_ok {A} (f : A -> Build -> M W (Out Build)) (I : list A -> Build -> Prop) l : forall pre s,
  (forall done a rest s, pre ++ l = done ++ a :: rest -> I done s -> mwp (f a s) (out_ok (I (done ++ [a])))) -> I pre s -> mwp (each f l s) (out_ok (I (pre ++ l))).
Proof using.
  induction l as [|a l IH]; intros pre s Hf H0; cbn [each]; [apply mwp_ret; by rewrite app_nil_r|].
  eapply mwp_bind; [by apply (Hf pre a l s)|]. intros [s'|ov|] Hs; [|by apply mwp_ret|done].
  replace (pre ++ a :: l) with ((pre ++ [a]) ++ l) by (by rewrite <- app_assoc). apply IH; [|exact Hs].
  intros d b rest s1 E. apply (Hf d b rest s1). by rewrite <- E, <- app_assoc.
Qed.

Definition placed_keys (keys : list (Z * Z)) (s : Build) : Prop := exists ss, key_of <$> ss = keys /\ built fm orig s ss.

Lemma basket_ok j i keys s : 0 <= j < zlen (branches fm) -> 0 <= i < writeBasket (branch_at fm j) -> zlen keys < 2 ^ 30 -> placed_keys keys s ->
  mwp (build_basket fm (b_name (branch_at fm j)) (branch_at fm j) i s) (out_ok (placed_keys (keys ++ [(j, i)]))).
Proof using Hlaw Hp Hb Hl Hr Hg.
  intros Hj Hi Hk (ss & Es & B). unfold build_basket. set (br := branch_at fm j) in *. set (off := zget (basketSeek br) i). set (nb := zget (basketBytes br) i).
  assert (forall a b, mwp (W := W) (mret_ (Stop (stopped a (b_name br ++ bs ": basket " ++ b) true))) (out_ok (placed_keys (keys ++ [(j, i)])) : Out Build -> Prop)) as Na by (intros; apply mwp_ret, app_ne; done).
  apply (mwp_bind _ _ (fun _ => True)); [by intros w|]. intros ok _. destruct ok; cbn [negb]; [|by apply Na].
  apply (mwp_bind _ _ (fun r => forall d, r = Some d -> 0 <= w64 off /\ 0 <= w64 nb /\ w64 off + w64 nb <= zlen orig /\ d = zsub orig (w64 off) (w64 nb))); [intros w d Hd; by apply (Hr (w64 nb) (w64 off) w d)|].
  intros [rec|] Hd; [|by apply Na]. destruct (Hd rec eq_refl) as (_ & _ & Hin & ->).
  pose proof (Forall_lookup_1 _ _ _ _ (p_seeks fm Hp) (branch_at_Some fm j Hj)) as [Ps Pb].
  pose proof (Forall_zget (fun v => - p63 <= v < p63) (basketSeek br) i Ps ltac:(cbn; lia)) as Ro.
  pose proof (Forall_zget (fun v => - p31 <= v < p31) (basketBytes br) i Pb ltac:(cbn; lia)) as Rn. cbn beta in Ro, Rn. fold off in Ro. fold nb in Rn.
  pose proof (w64_range off). pose proof (w64_range nb). assert (0 <= off) as Ho by (apply signed_pos; lia). assert (0 <= nb) as Hn by (apply signed_pos; lia).
  rewrite (w64_small off), (w64_small nb) in * by lia. apply mwp_ret.
  destruct (parseKey (zsub orig off nb) 0) as [k|] eqn:HP; [|by apply app_ne]. destruct (_ || _)%bool eqn:Ec; [by apply app_ne|]. b2p.
  repeat match goal with H : bytes_eqb _ _ = true |- _ => apply bool_decide_eq_true in H end.
  pose proof (Hg j i Hj Hi Ho Hn Hin) as G. fold br off nb in G.
  pose proof (convert_ok Hlaw (zsub orig off nb) k (Forall_zsub _ _ _ _ Hb) ltac:(rewrite zlen_zsub; lia) HP ltac:(done) G) as C.
  destruct (convert (zsub orig off nb) k) as [rec how d| | |] eqn:EC; [|by apply app_ne|by apply app_ne|done].
  set (s1 := mkBuild _ _ _ _ _). assert (built fm orig s1 ss) as B1 by (destruct B; by split).
  assert (zlen ss = zlen keys) as Lss by (rewrite <- Es; unfold zlen; by rewrite length_fmap).
  pose proof (place_ok Hlaw fm orig Hp Hb Hl s1 ss j i k rec how d B1 ltac:(lia) Hj Hi Ho Hn Hin HP ltac:(done) ltac:(done) G (proj2 Rn) EC) as P.
  fold br off nb in P. rewrite (w64_small off), (w64_small nb) in P by lia.
  destruct (place_basket _ _ _ _ _ _ _ _) as [s'|ov|]; cbn [out_ok]; [|done|done]. destruct P as (x & Ex & Bx). exists (ss ++ [x]). split; [|done]. by rewrite fmap_app, Es, <- Ex.
Qed.

Lemma branch_ok_build name keys s : zlen (keys ++ wanted1 fm name) < 2 ^ 30 -> placed_keys keys s ->
  mwp (build_branch fm name s) (out_ok (placed_keys (keys ++ wanted1 fm name))).
Proof using Hlaw Hp Hb Hl Hr Hg.
  intros Hk Hs. unfold build_branch, wanted1 in *. rewrite find_index. destruct (index_of fm name) as [j|] eqn:E; cbn [fmap option_fmap option_map]; [|by apply mwp_ret].
  apply index_inv in E as [Hj <-]. set (br := branch_at fm j) in *. fold (zlen (branches fm)) in *.
  apply (each_ok (build_basket fm (b_name br) br) (fun done => placed_keys (keys ++ ((fun i => (j, i)) <$> done))) _ []); [|by rewrite app_nil_r].
  intros done i rest s1 El Hd. cbn [app] in El. rewrite fmap_app, app_assoc. cbn [fmap list_fmap].
  assert (i ∈ zrange 0 (writeBasket br)) as Hi by (rewrite El; apply elem_of_app; right; left). apply elem_of_zrange in Hi.
  apply basket_ok; [done|exact Hi| |done]. unfold baskets_of in Hk. fold br in Hk. rewrite El, fmap_app in Hk. cbn [fmap list_fmap] in Hk. rewrite !zlen_app, zlen_cons in Hk. rewrite zlen_app.
  pose proof (zlen_nonneg ((fun i0 => (j, i0)) <$> rest)). lia.
Qed.

(** Every basket asked for is placed, or the build stops with a reason. *)
Lemma branches_ok hot : NoDup hot -> mwp (each (build_branch fm) hot (start fm)) (out_ok (placed_keys (wanted fm hot))).
Proof using Hlaw Hp Hb Hl Hr Hg.
  intros Hn. pose proof (wanted_few fm hot Hn). pose proof (p_total fm Hp).
  apply (each_ok (build_branch fm) (fun done => placed_keys (wanted fm done)) hot []); [|exists []; split; [done|apply built_start]].
  intros done name rest s El Hs. cbn [app] in El. assert (wanted fm (done ++ [name]) = wanted fm done ++ wanted1 fm name) as Ew by (unfold wanted; rewrite fmap_app, concat_app; cbn; by rewrite app_nil_r).
  rewrite Ew. apply branch_ok_build; [|done]. rewrite <- Ew. assert (wanted fm hot = wanted fm (done ++ [name]) ++ wanted fm rest) as Eh.
  { rewrite Ew. unfold wanted. rewrite El, fmap_app, concat_app, <- app_assoc. done. }
  rewrite Eh, zlen_app in *. pose proof (zlen_nonneg (wanted fm rest)). lia.
Qed.
End loops.
End TransBasket.
