(* ===== verification/TransposeFinish.v ===== *)
(** * The tail of a replica build (src/transpose/Transposer.cc, finishOverlay)

    Module TransRanges: the ranges of the original that the overlay replaces are sorted and merged; the pieces
    cover exactly the same bytes, in order, with a gap between any two. Module TransFinish: the relocated tree
    record, the keys list pointing at it, the header's end, and the overlay that
    describes them: what the keys list says afterwards, and what the tail gives. *)

From stdpp Require Import sorting.
From S2P Require Import Prelude UrlKey ReplicaFile ReplicaStore ReplicaView RootFile TreeMeta TreeSafe TreeParse FillLayout FillHeader FillBasket FillGeometry Transposer TransposeBasket.
Local Open Scope u64_scope.

Module TransRanges.
Import Replica Trans.

Definition rend (r : Range) : Z := roff r + rlen r.
Definition plain (r : Range) : Prop := 0 <= roff r /\ 0 < rlen r /\ rend r < p64.
Definition covers (l : list Range) (x : Z) : Prop := exists r, r ∈ l /\ roff r <= x < rend r.
Definition gap (a b : Range) : Prop := rend a < roff b.

#[export] Instance range_le_total : Total range_le.
Proof. intros a b. unfold range_le. lia. Qed.
#[export] Instance range_le_trans : Transitive range_le.
Proof. intros a b c. unfold range_le. lia. Qed.

Lemma covers_cons r l x : covers (r :: l) x <-> roff r <= x < rend r \/ covers l x.
Proof.
  split.
  - intros (r' & [->|Hr]%elem_of_cons & Hx); [by left|right; by exists r'].
  - intros [Hx|(r' & Hr & Hx)]; [exists r; split; [left|done]|exists r'; split; [by right|done]].
Qed.
Lemma covers_nil x : covers [] x <-> False.
Proof. split; [|done]. by intros (? & ?%elem_of_nil & _). Qed.
Lemma covers_perm l l' x : l ≡ₚ l' -> covers l x <-> covers l' x.
Proof. intros E. split; intros (r & Hr & Hx); exists r; (split; [|done]); [by rewrite <- E|by rewrite E]. Qed.

(** One more range, at or after the last piece's start. *)
Record merging (acc : list Range) : Prop := {
  mg_plain : Forall plain acc;
  mg_gaps : StronglySorted gap (rev acc) }.
Lemma add_range_ok acc r : merging acc -> plain r -> (forall a, head acc = Some a -> roff a <= roff r) ->
  merging (add_range acc r) /\ (forall x, covers (add_range acc r) x <-> covers acc x \/ roff r <= x < rend r) /\
  (forall a, head (add_range acc r) = Some a -> roff a <= roff r).
Proof.
  intros [P G] Hr Hh. unfold add_range. destruct acc as [|a rest].
  { split; [split; [apply Forall_cons; by split|repeat constructor]|]. split; [|by intros a [= <-]]. intros x. rewrite covers_cons, covers_nil. tauto. }
  apply Forall_cons in P as [Pa P]. specialize (Hh a eq_refl). cbn [rev] in G. unfold plain, rend in Pa, Hr. rewrite (w64_small (roff a + rlen a)) by lia.
  apply StronglySorted_app in G as (G1 & G2 & _). assert (forall x, x ∈ rev rest -> gap x a) as G3 by (intros x Hx; apply G1; [done|by apply list_elem_of_singleton]).
  destruct (roff r <=? roff a + rlen a) eqn:E; b2p.
  - rewrite (w64_small (roff r + rlen r)) by lia. rewrite w64_small by lia. set (e := Z.max _ _). split; [|split].
    + split; [apply Forall_cons; split; [unfold plain, rend, e; cbn; lia|done]|]. cbn [rev]. apply StronglySorted_app. split; [|split; [done|repeat constructor]].
      intros x y Hx ->%list_elem_of_singleton. exact (G3 x Hx).
    + intros x. rewrite !covers_cons. unfold rend, e. cbn [roff rlen]. destruct (Z.max_spec (roff a + rlen a) (roff r + rlen r)); intuition lia.
    + intros b [= <-]. done.
  - split; [|split].
    + split; [apply Forall_cons; split; [done|by apply Forall_cons]|]. cbn [rev]. rewrite <- app_assoc. cbn [app]. apply StronglySorted_app. split; [|split; [done|]].
      * intros x y Hx Hy. specialize (G3 x Hx). apply elem_of_cons in Hy as [->|Ey]; [done|]. apply list_elem_of_singleton in Ey as ->. unfold gap, rend in *. lia.
      * repeat constructor. unfold gap, rend. lia.
    + intros x. rewrite !covers_cons. tauto.
    + by intros b [= <-].
Qed.
Lemma fold_ranges l : forall acc, merging acc -> Forall plain l -> StronglySorted range_le l -> (forall a r, head acc = Some a -> r ∈ l -> roff a <= roff r) ->
  merging (foldl add_range acc l) /\ (forall x, covers (foldl add_range acc l) x <-> covers acc x \/ covers l x).
Proof.
  induction l as [|r l IH]; intros acc M Hp Hs Hh; [split; [done|]; intros x; cbn [foldl]; rewrite covers_nil; tauto|]. cbn [foldl].
  apply Forall_cons in Hp as [Hr Hp]. apply StronglySorted_inv in Hs as [Hs Hle]. rewrite Forall_forall in Hle.
  destruct (add_range_ok acc r M Hr) as (M' & C & H'); [intros a Ha; apply Hh; [done|left]|].
  destruct (IH (add_range acc r) M' Hp Hs) as [M2 C2].
  { intros a r' Ha Hr'. specialize (H' a Ha). specialize (Hle r' Hr'). unfold range_le in Hle. lia. }
  split; [done|]. intros x. rewrite C2, C, covers_cons. tauto.
Qed.
Lemma merge_ranges_ok l : Forall plain l ->
  Forall plain (merge_ranges l) /\ StronglySorted gap (merge_ranges l) /\ forall x, covers (merge_ranges l) x <-> covers l x.
Proof.
  intros Hp. unfold merge_ranges. pose proof (merge_sort_Permutation range_le l) as E.
  destruct (fold_ranges (merge_sort range_le l) []) as [[M1 M2] C]; [by split; constructor|by rewrite E|apply StronglySorted_merge_sort; apply _|done|].
  split; [by apply Forall_rev|]. split; [done|]. intros x. rewrite (covers_perm (rev _) (foldl add_range [] (merge_sort range_le l))) by (symmetry; apply Permutation_rev).
  rewrite C, covers_nil, (covers_perm _ _ x E). tauto.
Qed.

(** The ranges of the original a replica makes dispensable lose and gain no byte when they are merged: the pieces cover exactly the
    bytes of the ranges given, in ascending order, no two overlapping or touching. *)
Theorem merge_exact l (Hl : Forall plain l) :
  StronglySorted gap (merge_ranges l) /\ forall x, covers (merge_ranges l) x <-> covers l x.
Proof. destruct (merge_ranges_ok l Hl) as (_ & G & C). by split. Qed.
Lemma merge_exact_witness :
  merge_ranges [mkRange 50 10; mkRange 0 20; mkRange 15 10; mkRange 60 5] = [mkRange 0 25; mkRange 50 15] /\
  StronglySorted gap [mkRange 0 25; mkRange 50 15].
Proof.
  assert (Forall plain [mkRange 50 10; mkRange 0 20; mkRange 15 10; mkRange 60 5]) as H by (repeat apply Forall_cons_2; [unfold plain, rend; cbn; lia..|constructor]).
  split; [vm_compute; reflexivity|]. exact (proj1 (merge_exact _ H)).
Defined.
End TransRanges.

Module TransFinish.
Import Root TreeData Tree TreeParse Fill Trans FillBasket FillGeometry TransBasket.

Lemma zget_zsub l off n i : 0 <= off -> 0 <= i < n -> zget (zsub l off n) i = zget l (off + i).
Proof.
  intros Ho Hi. unfold zsub, zget. rewrite !nth_lookup, lookup_take_lt, lookup_drop by lia. do 2 f_equal. lia.
Qed.
(** ** A key anywhere is a key at the start of what follows *)
Lemma beGet_at n p off q m : 0 <= off -> 0 <= q -> q + Z.of_nat n <= m -> beGet n p (off + q) = beGet n (zsub p off m) q.
Proof. intros. unfold beGet. by rewrite zsub_zsub by lia. Qed.
Lemma key_str_at p off q : 0 <= off -> off <= zlen p -> zlen p < p63 -> 0 <= q < p32 -> Forall is_byte p ->
  key_str p off q = key_str (zsub p off (zlen p - off)) 0 q.
Proof.
  intros H0 Ho Hl Hq Hb. assert (zlen (zsub p off (zlen p - off)) = zlen p - off) as L by (apply zlen_zsub; lia).
  pose proof (Forall_zget is_byte p (off + q) Hb ltac:(unfold is_byte; lia)) as B. unfold is_byte in B.
  unfold key_str. rewrite L. nowrap. destruct (zlen p <=? off + q) eqn:E; [by rewrite (proj2 (Z.leb_le (zlen p - off) _)) by (b2p; lia)|]. b2p.
  rewrite (proj2 (Z.leb_gt (zlen p - off) _)) by lia. assert (zget (zsub p off (zlen p - off)) (0 + q) = zget p (off + q)) as G.
  { by rewrite zget_zsub by lia. }
  rewrite G. nowrap. destruct (zlen p <? off + (q + 1) + zget p (off + q)) eqn:E2; b2p.
  - by rewrite (proj2 (Z.ltb_lt (zlen p - off) _)) by lia.
  - rewrite (proj2 (Z.ltb_ge (zlen p - off) _)) by lia. rewrite zsub_zsub by lia. repeat f_equal; lia.
Qed.
Lemma key_str_next p off q s q' : Forall is_byte p -> key_str p off q = Some (s, q') -> 0 <= q -> q < q' <= q + 256.
Proof.
  intros Hb. unfold key_str. case_match; [done|]. case_match; [done|]. intros [= <- <-] ?. pose proof (Forall_zget is_byte p (off + q) Hb ltac:(unfold is_byte; lia)) as B. unfold is_byte in B. lia.
Qed.
Lemma parseKey_at p off : Forall is_byte p -> zlen p < p63 -> 0 <= off <= zlen p -> parseKey p off = parseKey (zsub p off (zlen p - off)) 0.
Proof.
  intros Hb Hl Ho. assert (zlen (zsub p off (zlen p - off)) = zlen p - off) as L by (apply zlen_zsub; lia).
  unfold parseKey. rewrite L. nowrap. destruct (zlen p <? off + 34) eqn:E; [by rewrite (proj2 (Z.ltb_lt (zlen p - off) _)) by (b2p; lia)|]. b2p.
  rewrite (proj2 (Z.ltb_ge (zlen p - off) _)) by lia. set (p' := zsub p off (zlen p - off)).
  assert (forall n q, 0 <= q -> q + Z.of_nat n <= 34 -> beGet n p (off + q) = beGet n p' (0 + q)) as G by (intros; apply beGet_at; lia).
  assert (beGet 4 p off = beGet 4 p' 0) as G0 by (rewrite <- (Z.add_0_r off); apply (G 4%nat 0); lia).
  unfold beGetS. rewrite G0, (G 2%nat 4), (G 8%nat 18), (G 4%nat 18), (G 4%nat 6), (G 2%nat 14), (G 2%nat 16) by (cbn; lia).
  assert (Forall is_byte p') as Hb' by (by apply Forall_zsub).
  assert (forall q, 0 <= q < p32 -> key_str p off q = key_str p' 0 q) as K by (intros; by apply key_str_at; lia || done).
  destruct (1000 <? beGet 2 p' (0 + 4)); rewrite K by lia.
  - destruct (key_str p' 0 34) as [[c q1]|] eqn:E1; [|done]. pose proof (key_str_next p' 0 34 c q1 Hb' E1 ltac:(lia)). rewrite K by lia.
    destruct (key_str p' 0 q1) as [[nm q2]|] eqn:E2; [|done]. pose proof (key_str_next p' 0 q1 nm q2 Hb' E2 ltac:(lia)). by rewrite K by lia.
  - destruct (key_str p' 0 26) as [[c q1]|] eqn:E1; [|done]. pose proof (key_str_next p' 0 26 c q1 Hb' E1 ltac:(lia)). rewrite K by lia.
    destruct (key_str p' 0 q1) as [[nm q2]|] eqn:E2; [|done]. pose proof (key_str_next p' 0 q1 nm q2 Hb' E2 ltac:(lia)). by rewrite K by lia.
Qed.

(** A key of which only the length and the offset may have changed. *)
Lemma parseKey_local p p' off k nb seek : Forall is_byte p -> Forall is_byte p' -> zlen p < p63 -> zlen p' = zlen p -> 0 <= off < p63 -> parseKey p off = Some k ->
  zsub p (off + 4) 14 = zsub p' (off + 4) 14 -> zsub p (off + key_start k) (key_end k - key_start k) = zsub p' (off + key_start k) (key_end k - key_start k) ->
  beGetS 4 p' off = nb -> (if 1000 <? ver k then beGetS 8 p' (off + 18) else beGetS 4 p' (off + 18)) = seek ->
  parseKey p' off = Some (with_length k nb seek).
Proof.
  intros Hb Hb' Hl HL H0 HP A1 A2 Hn Hs. destruct (parseKey_room p off k Hb Hl H0 HP) as [Hr _].
  rewrite parseKey_at in HP by (done || lia). rewrite parseKey_at by (done || lia). set (q := zsub p off (zlen p - off)) in *. set (q' := zsub p' off (zlen p' - off)).
  assert (zlen q = zlen p - off) as Lq by (apply zlen_zsub; lia). assert (zlen q' = zlen p - off) as Lq' by (unfold q'; rewrite zlen_zsub; lia).
  destruct (parseKey_end q k (Forall_zsub _ _ _ _ Hb) ltac:(lia) HP) as (_ & Ke & _). assert (26 <= key_start k <= 34) by (unfold key_start; case_match; lia).
  assert (key_start k <= key_end k) by (unfold key_end; pose proof (zlen_nonneg (cls k)); pose proof (zlen_nonneg (name k)); pose proof (zlen_nonneg (title k)); lia).
  apply (parseKey_patch q q' k nb seek); first [by apply Forall_zsub|lia|done|idtac].
  - rewrite <- Hn. unfold beGetS. f_equal. symmetry. rewrite <- (Z.add_0_r off) at 1. apply beGet_at; lia.
  - unfold agree, q, q'. rewrite !zsub_zsub by lia. exact A1.
  - rewrite <- Hs. unfold beGetS. case_match; f_equal; symmetry; apply beGet_at; lia.
  - unfold agree, q, q'. rewrite !zsub_zsub by lia. exact A2.
Qed.
Lemma with_same k : with_length k (nbytes k) (seekkey k) = k.
Proof. by destruct k. Qed.
(** A key whose bytes are all there. *)
Lemma parseKey_same p p' off k : Forall is_byte p -> Forall is_byte p' -> zlen p < p63 -> zlen p' = zlen p -> 0 <= off < p63 -> parseKey p off = Some k ->
  zsub p off (key_end k) = zsub p' off (key_end k) -> parseKey p' off = Some k.
Proof.
  intros Hb Hb' Hl HL H0 HP A. destruct (parseKey_room p off k Hb Hl H0 HP) as [Hr _].
  pose proof HP as HP'. rewrite parseKey_at in HP' by (done || lia). assert (zlen (zsub p off (zlen p - off)) = zlen p - off) as Lq by (apply zlen_zsub; lia).
  destruct (parseKey_end (zsub p off (zlen p - off)) k (Forall_zsub _ _ _ _ Hb) ltac:(lia) HP') as (_ & Ke & _ & _ & _ & _ & _ & _ & _ & _ & N & _ & _ & _ & _ & S).
  assert (forall o n, 0 <= o -> 0 <= n -> o + n <= key_end k -> zsub p' (off + o) n = zsub p (off + o) n) as E.
  { intros o n ? ? ?. rewrite <- (zsub_zsub p off (key_end k)), <- (zsub_zsub p' off (key_end k)) by lia. by rewrite A. }
  assert (36 <= key_end k + 7) by (unfold key_end, key_start; pose proof (zlen_nonneg (cls k)); pose proof (zlen_nonneg (name k)); pose proof (zlen_nonneg (title k)); case_match; lia).
  assert ((1000 <? ver k) = true -> 37 <= key_end k) by (unfold key_end, key_start; intros ->; pose proof (zlen_nonneg (cls k)); pose proof (zlen_nonneg (name k)); pose proof (zlen_nonneg (title k)); lia).
  assert (26 <= key_start k <= key_end k) by (unfold key_end, key_start; pose proof (zlen_nonneg (cls k)); pose proof (zlen_nonneg (name k)); pose proof (zlen_nonneg (title k)); case_match; lia).
  assert (forall n o, 0 <= o -> o + Z.of_nat n <= key_end k -> beGetS n p' (off + o) = beGetS n (zsub p off (zlen p - off)) o) as G.
  { intros n o ? ?. unfold beGetS. f_equal. rewrite <- beGet_at by lia. unfold beGet. by rewrite E by lia. }
  rewrite <- (with_same k). apply (parseKey_local p); try done.
  - symmetry. apply E; lia.
  - symmetry. apply E; lia.
  - rewrite N, <- G by lia. by rewrite Z.add_0_r.
  - rewrite S. destruct (1000 <? ver k) eqn:V; apply G; [lia|cbn; lia|lia|cbn; lia].
Qed.

(** ** The entries of a keys list *)
Fixpoint keys_at (n : nat) (p : bytes) (pos : Z) : option (list KeyInfo) :=
  match n with O => Some [] | S n' => match parseKey p pos with None => None | Some e => (fun l => e :: l) <$> keys_at n' p (pos + keylen e) end end.
Definition listed_keys (p : bytes) : option (list KeyInfo) :=
  match parseKey p 0 with None => None | Some kl => keys_at (Z.to_nat (beGetS 4 p (keylen kl))) p (keylen kl + 4) end.
(** The live entry names the new record; the others stay. *)
Definition repointed (tk : KeyInfo) (len seek : Z) (e : KeyInfo) : KeyInfo :=
  if bytes_eqb (cls e) (bs "TTree") && bytes_eqb (name e) (name tk) && (seekkey e =? seekkey tk) then with_length e len seek else e.

Lemma patched_at p off e len seek p' : Forall is_byte p -> zlen p < p63 -> 0 <= off < p63 -> parseKey p off = Some e -> - p31 <= len < p31 -> 0 <= seek < p63 ->
  putKeySeek (bePut 4 p off len) off (ver e) seek = Some p' ->
  zlen p' = zlen p /\ Forall is_byte p' /\ parseKey p' off = Some (with_length e len seek) /\
  (forall o n, 0 <= o -> 0 <= n -> o + n <= off -> zsub p' o n = zsub p o n) /\ (forall o n, off + key_start e <= o -> zsub p' o n = zsub p o n).
Proof.
  intros Hb Hl H0 HP Hlen Hs EP. destruct (parseKey_room p off e Hb Hl H0 HP) as [Hr _]. set (n := if 1000 <? ver e then 8%nat else 4%nat).
  assert (p' = bePut n (bePut 4 p off len) (off + 18) seek /\ (n = 4%nat -> seek < p31)) as [-> Hsk].
  { unfold putKeySeek, n in *. destruct (1000 <? ver e); [by injection EP as <-|]. destruct (_ || _)%bool eqn:E; [done|]. injection EP as <-. b2p. split; [done|lia]. }
  assert (18 + Z.of_nat n <= key_start e /\ (n = 4%nat \/ n = 8%nat)) as [Kn Hn] by (unfold n, key_start; case_match; cbn; lia).
  assert (key_start e <= 34) by (unfold key_start; case_match; lia).
  assert (zlen (bePut 4 p off len) = zlen p) as L1 by (apply zlen_bePut; cbn; lia).
  assert (zlen (bePut n (bePut 4 p off len) (off + 18) seek) = zlen p) as L2 by (rewrite zlen_bePut; lia).
  assert (forall o m, 0 <= o -> 0 <= m -> o + m <= off + 18 -> zsub (bePut n (bePut 4 p off len) (off + 18) seek) o m = zsub (bePut 4 p off len) o m) as Bf by (intros; apply zsub_zsplice_before; lia).
  assert (forall o m, off + key_start e <= o -> zsub (bePut n (bePut 4 p off len) (off + 18) seek) o m = zsub p o m) as Af.
  { intros o m Ho. unfold bePut. rewrite zsub_zsplice_after by (rewrite ?zlen_be; fold (bePut 4 p off len); lia). apply zsub_zsplice_after; rewrite ?zlen_be; lia. }
  split; [done|]. assert (Forall is_byte (bePut n (bePut 4 p off len) (off + 18) seek)) as Hb' by (by repeat apply Forall_bePut). split; [done|]. split; [|split; [|exact Af]].
  - apply (parseKey_local p); try done.
    + rewrite Bf by lia. unfold bePut. rewrite zsub_zsplice_after; rewrite ?zlen_be; done || lia.
    + by rewrite Af by lia.
    + apply beGetS_be; [lia| |cbn; lia]. rewrite Bf by lia. apply zsub_zsplice_same; rewrite ?zlen_be; lia.
    + assert (beGetS n (bePut n (bePut 4 p off len) (off + 18) seek) (off + 18) = seek) as G.
      { apply beGetS_be; [lia| |destruct Hn as [E|E]; rewrite E; cbn; [specialize (Hsk E)|]; lia]. apply zsub_zsplice_same; rewrite ?zlen_be; lia. }
      unfold n in G |- *. by destruct (1000 <? ver e).
  - intros o m ? ? ?. rewrite Bf by lia. apply zsub_zsplice_before; lia.
Qed.

Lemma key_end_start k : 26 <= key_start k <= 34 /\ key_start k + 3 <= key_end k.
Proof. unfold key_end, key_start. pose proof (zlen_nonneg (cls k)). pose proof (zlen_nonneg (name k)). pose proof (zlen_nonneg (title k)). case_match; lia. Qed.
(** The entries from [pos] on are those of the bytes from [pos] on. *)
Lemma keys_ext n : forall p p' pos, Forall is_byte p -> Forall is_byte p' -> zlen p < p63 -> zlen p' = zlen p -> 0 <= pos -> pos + 65536 * Z.of_nat n < p63 ->
  zsub p pos (zlen p - pos) = zsub p' pos (zlen p - pos) -> keys_at n p pos = keys_at n p' pos.
Proof.
  induction n as [|n IH]; intros p p' pos Hb Hb' Hl HL H0 Hn E; [done|]. cbn [keys_at]. destruct (Z.le_gt_cases pos (zlen p)) as [Hp|Hp].
  - assert (parseKey p pos = parseKey p' pos) as -> by (rewrite (parseKey_at p), (parseKey_at p') by (done || lia); by rewrite HL, E).
    destruct (parseKey p' pos) as [e|] eqn:EK; [|done]. destruct (parseKey_room p' pos e Hb' ltac:(lia) ltac:(lia) EK) as [_ K].
    f_equal. apply IH; try done; try lia. destruct (Z.le_gt_cases (pos + keylen e) (zlen p)).
    + rewrite <- (zsub_zsub p pos (zlen p - pos)), <- (zsub_zsub p' pos (zlen p - pos)) by lia. by rewrite E.
    + unfold zsub. rewrite !drop_ge by (unfold zlen in *; lia). done.
  - assert (forall q, zlen q = zlen p -> parseKey q pos = None) as X by (intros q Hq; unfold parseKey; rewrite w64_small by lia; by rewrite (proj2 (Z.ltb_lt _ _)) by lia).
    by rewrite !X.
Qed.
Lemma keys_bytes n tk len seek : forall klist pos pt klist' pt', Forall is_byte klist -> zlen klist < p63 -> 0 <= pos -> pos + 65536 * Z.of_nat n < p63 ->
  - p31 <= len < p31 -> 0 <= seek < p63 -> patch_keys n tk len seek klist pos pt = KPatched klist' pt' ->
  zlen klist' = zlen klist /\ Forall is_byte klist' /\ (forall o m, 0 <= o -> 0 <= m -> o + m <= pos -> zsub klist' o m = zsub klist o m).
Proof.
  induction n as [|n IH]; intros klist pos pt klist' pt' Hb Hl H0 Hn Hlen Hs; cbn [patch_keys]; [by intros [= <- _]|].
  destruct (parseKey klist pos) as [e|] eqn:E; [|done]. destruct (parseKey_room klist pos e Hb Hl ltac:(lia) E) as [R K].
  destruct (_ && _)%bool.
  - destruct (putKeySeek _ _ _ _) as [k2|] eqn:Ek; [|done]. destruct (patched_at klist pos e len seek k2 Hb Hl ltac:(lia) E Hlen Hs Ek) as (L & B & _ & Bf & _).
    intros H. destruct (IH k2 (pos + keylen e) true klist' pt' B ltac:(lia) ltac:(lia) ltac:(lia) Hlen Hs H) as (L' & B' & Bf'). split; [lia|]. split; [done|].
    intros o m ? ? ?. rewrite Bf' by lia. by apply Bf.
  - intros H. destruct (IH klist (pos + keylen e) pt klist' pt' Hb Hl ltac:(lia) ltac:(lia) Hlen Hs H) as (L' & B' & Bf'). split; [done|]. split; [done|]. intros. apply Bf'; lia.
Qed.
(** What the patched entries say. *)
Lemma keys_patched n tk len seek : forall klist pos pt klist' pt' es, Forall is_byte klist -> zlen klist < p63 -> 0 <= pos -> pos + 65536 * Z.of_nat n < p63 ->
  - p31 <= len < p31 -> 0 <= seek < p63 -> keys_at n klist pos = Some es -> Forall (fun e => key_end e <= keylen e) es ->
  patch_keys n tk len seek klist pos pt = KPatched klist' pt' -> keys_at n klist' pos = Some (repointed tk len seek <$> es).
Proof.
  induction n as [|n IH]; intros klist pos pt klist' pt' es Hb Hl H0 Hn Hlen Hs; cbn [patch_keys keys_at]; [by intros [= <-] _ [= <- _]|].
  destruct (parseKey klist pos) as [e|] eqn:E; [|done]. destruct (parseKey_room klist pos e Hb Hl ltac:(lia) E) as [R K].
  destruct (keys_at n klist (pos + keylen e)) as [es'|] eqn:EK; [|done]. intros [= <-] [He Hes]%Forall_cons. cbn [fmap list_fmap]. destruct (key_end_start e) as [S1 S2].
  unfold repointed at 1. destruct (_ && _)%bool.
  - destruct (putKeySeek _ _ _ _) as [k2|] eqn:Ek; [|done]. destruct (patched_at klist pos e len seek k2 Hb Hl ltac:(lia) E Hlen Hs Ek) as (L & B & P & Bf & Af).
    intros H. destruct (keys_bytes n tk len seek k2 (pos + keylen e) true klist' pt' B ltac:(lia) ltac:(lia) ltac:(lia) Hlen Hs H) as (L' & B' & Bf').
    rewrite (parseKey_same k2 klist' pos (with_length e len seek)); first [done|lia|idtac].
    + cbn [keylen with_length]. rewrite (IH k2 (pos + keylen e) true klist' pt' es'); first [done|lia|idtac].
      rewrite <- EK. apply keys_ext; first [done|lia|idtac]. apply Af. lia.
    + symmetry. apply Bf'; [lia| |]; change (key_end (with_length e len seek)) with (key_end e); lia.
  - intros H. destruct (keys_bytes n tk len seek klist (pos + keylen e) pt klist' pt' Hb Hl ltac:(lia) ltac:(lia) Hlen Hs H) as (L' & B' & Bf').
    rewrite (parseKey_same klist klist' pos e); first [done|lia|idtac]; [by rewrite (IH klist (pos + keylen e) pt klist' pt' es') by (done || lia)|].
    symmetry. apply Bf'; lia.
Qed.

(** ** The keys list of a build *)
Lemma repoint_put n tk len seek : forall klist pos pt, Forall is_byte klist -> zlen klist < p63 -> 0 <= pos -> pos + 65536 * Z.of_nat n < p63 -> 0 <= seek ->
  match repoint n tk len seek klist pos pt with
  | inr (klist', pt') => patch_keys n tk len seek klist pos pt = KPatched klist' pt'
  | inl (Some why) => why <> []
  | inl None => False
  end.
Proof.
  induction n as [|n IH]; intros klist pos pt Hb Hl H0 Hn Hs; cbn [repoint patch_keys]; [done|].
  destruct (parseKey klist pos) as [e|] eqn:E; [|done]. destruct (parseKey_room klist pos e Hb Hl ltac:(lia) E) as [R K].
  destruct (_ && _)%bool; [|apply IH; done || lia]. rewrite wr_in by (cbn; lia). assert (zlen (bePut 4 klist pos len) = zlen klist) as L1 by (apply zlen_bePut; cbn; lia).
  pose proof (patch_put (bePut 4 klist pos len) pos (ver e) seek H0 ltac:(lia) Hs) as P. destruct (patchSeek _ _ _ _) as [k2| |] eqn:EP; [|done|done]. rewrite P.
  pose proof (zlen_putKeySeek (bePut 4 klist pos len) pos (ver e) seek k2 H0 ltac:(lia) P). apply IH; first [lia|idtac]. unfold putKeySeek in P. case_match; [|case_match; [done|]]; injection P as <-; by repeat apply Forall_bePut.
Qed.
Definition well_listed (klist : bytes) (es : list KeyInfo) : Prop :=
  (exists kl, parseKey klist 0 = Some kl /\ key_end kl <= keylen kl) /\ listed_keys klist = Some es /\ Forall (fun e => key_end e <= keylen e) es.
Lemma patched_keys_ok tk len seek klist : Forall is_byte klist -> zlen klist < p31 -> - p31 <= len < p31 -> 0 <= seek < p63 ->
  match patched_keys tk len seek klist with
  | inl None => False
  | inl (Some why) => why <> []
  | inr klist' => (zlen klist' = zlen klist /\ 34 <= zlen klist /\ exists kl, parseKey klist 0 = Some kl /\ nbytes kl = zlen klist) /\ (forall es, well_listed klist es -> listed_keys klist' = Some (repointed tk len seek <$> es))
  end.
Proof.
  intros Hb Hl Hlen Hs. unfold patched_keys, well_listed, listed_keys. destruct (parseKey klist 0) as [kl|] eqn:EK; [|done]. destruct (_ || _)%bool eqn:Eg; [done|]. b2p.
  destruct (parseKey_room klist 0 kl Hb ltac:(lia) ltac:(lia) EK) as [R K]. set (n := Z.to_nat (beGetS 4 klist (keylen kl))).
  assert (Z.of_nat n < p31) as Hn.
  { unfold n, beGetS. pose proof (signed_range 4 (beGet 4 klist (keylen kl)) ltac:(lia) (TreeSafe.TreeSafe.beGet_range klist Hb 4 (keylen kl))) as Sr. cbn in Sr. lia. }
  pose proof (repoint_put n tk len seek klist (keylen kl + 4) false Hb ltac:(lia) ltac:(lia) ltac:(lia) ltac:(lia)) as P.
  destruct (repoint _ _ _ _ _ _ _) as [[why|]|[k2 [|]]]; [done|done| |done]. 
  destruct (keys_bytes n tk len seek klist (keylen kl + 4) false k2 true Hb ltac:(lia) ltac:(lia) ltac:(lia) Hlen Hs P) as (L & B & Bf). split; [split; [done|]; split; [lia|by exists kl]|].
  intros es ((kl' & [= <-] & He) & Hes & Hk). destruct (key_end_start kl).
  rewrite (parseKey_same klist k2 0 kl); first [done|lia|idtac]; [|symmetry; apply Bf; lia].
  assert (beGetS 4 k2 (keylen kl) = beGetS 4 klist (keylen kl)) as -> by (unfold beGetS, beGet; by rewrite Bf by (cbn; lia)). fold n in Hes |- *.
  eapply keys_patched; try exact Hes; try exact P; done || lia.
Qed.

(** ** The virtual file an overlay describes over the original's bytes *)
Definition vfile (orig : bytes) (ov : Overlay) : bytes :=
  (fun x => match RView.source (Replica.extents (o_meta ov)) x with Some t => zget (tdata ov) t | None => zget orig x end) <$> zrange 0 (Replica.virtualSize (o_meta ov)).

Lemma zsub_gets l a n : 0 <= a -> 0 <= n -> a + n <= zlen l -> zsub l a n = zget l <$> zrange a (a + n).
Proof.
  intros Ha Hn Hl. apply list_eq. intros i. unfold zsub. rewrite list_lookup_fmap. unfold zrange. replace (a + n - a) with n by lia.
  destruct (decide (i < Z.to_nat n)%nat) as [Hi|Hi].
  - rewrite lookup_take_lt, lookup_drop by lia. rewrite lookup_seqZ_lt by lia. cbn [fmap option_fmap option_map].
    destruct (lookup_lt_is_Some_2 l (Z.to_nat a + i)) as [v E]; [unfold zlen in Hl; lia|]. rewrite E. f_equal. unfold zget. symmetry. apply nth_lookup_Some. rewrite <- E. f_equal. lia.
  - rewrite lookup_take_ge by lia. rewrite lookup_seqZ_ge by lia. done.
Qed.
Lemma zsub_tab (f : Z -> Z) N o n : 0 <= o -> 0 <= n -> o + n <= N -> zsub (f <$> zrange 0 N) o n = f <$> zrange o (o + n).
Proof.
  intros Ho Hn HN. rewrite (zrange_app 0 o N), (zrange_app o (o + n) N), !fmap_app by lia.
  assert (forall a b, a <= b -> zlen (f <$> zrange a b) = b - a) as L by (intros; unfold zlen; rewrite length_fmap; fold (zlen (zrange a b)); by apply zlen_zrange).
  rewrite zsub_app_r by (rewrite L; lia). rewrite L by lia. replace (o - (o - 0)) with 0 by lia. apply zsub_app. rewrite L; lia.
Qed.
Lemma shift_tab (f : Z -> Z) o t n : (fun x => f (t + (x - o))) <$> zrange o (o + n) = f <$> zrange t (t + n).
Proof.
  change (List.map (fun x => f (t + (x - o))) (zrange o (o + n)) = List.map f (zrange t (t + n))).
  rewrite <- (RView.map_zrange_shift f t n), <- (RView.map_zrange_shift (fun x => f (t + (x - o))) o n). apply map_ext. intros k. f_equal. lia.
Qed.
Section vfile.
Context (orig : bytes) (ov : Overlay).
Let src := RView.source (Replica.extents (o_meta ov)).
Let vs := Replica.virtualSize (o_meta ov).
Lemma zlen_vfile : 0 <= vs -> zlen (vfile orig ov) = vs.
Proof using. intros. unfold vfile, zlen. rewrite length_fmap. fold (zlen (zrange 0 (Replica.virtualSize (o_meta ov)))). rewrite zlen_zrange by (unfold vs in *; lia). unfold vs. lia. Qed.
Lemma vfile_over o n t : 0 <= o -> 0 <= n -> o + n <= vs -> 0 <= t -> t + n <= zlen (tdata ov) -> (forall x, o <= x < o + n -> src x = Some (t + (x - o))) ->
  zsub (vfile orig ov) o n = zsub (tdata ov) t n.
Proof using.
  intros Ho Hn Hv Ht Htn Hs. unfold vfile. rewrite zsub_tab by done. rewrite zsub_gets by lia. rewrite <- (shift_tab _ o t n).
  apply list_fmap_ext. intros i x Hx. apply list_elem_of_lookup_2, elem_of_zrange in Hx. specialize (Hs x Hx). unfold src in Hs. by rewrite Hs.
Qed.
Lemma vfile_orig o n : 0 <= o -> 0 <= n -> o + n <= vs -> o + n <= zlen orig -> (forall x, o <= x < o + n -> src x = None) -> zsub (vfile orig ov) o n = zsub orig o n.
Proof using.
  intros Ho Hn Hv Hl Hs. unfold vfile. rewrite zsub_tab by done. rewrite zsub_gets by lia.
  apply list_fmap_ext. intros i x Hx. apply list_elem_of_lookup_2, elem_of_zrange in Hx. specialize (Hs x Hx). unfold src in Hs. by rewrite Hs.
Qed.
End vfile.

(** ** The tail *)
(** The tree record of the original is the one the parse is of. *)
Record good_tree (orig : bytes) (fm : FileMeta) (tk := treeKey fm) : Prop := {
  gt_key : parseKey (zsub orig (seekkey tk) (nbytes tk)) 0 = Some tk;
  gt_class : cls tk = bs "TTree";
  gt_inside : 0 <= seekkey tk /\ seekkey tk + nbytes tk <= zlen orig /\ nbytes tk < p31;
  gt_end : key_end tk <= keylen tk <= nbytes tk;
  gt_object : objlen tk = zlen (treeBlob fm);
  gt_size : zlen orig = fend fm;
  gt_width : headerSeekWidth fm = 4 \/ headerSeekWidth fm = 8;
  gt_keys : - p63 <= keyslistSeek fm < p63 }.

Lemma bePut_app n a b off v : 0 <= off -> off + Z.of_nat n <= zlen a -> bePut n (a ++ b) off v = bePut n a off v ++ b.
Proof.
  intros H0 H1. pose proof (zlen_be n v) as Lx. unfold bePut, zsplice. unfold zlen in *.
  rewrite take_app_le by lia. rewrite drop_app_le by lia. by rewrite <- !app_assoc.
Qed.
Section tail.
Context `{CD : Codecs} (zv : Z) (Hlaw : ZstdLaw) (orig : bytes) (fm : FileMeta) (tk := treeKey fm).
Context (Hp : parsed fm) (Hb : Forall is_byte orig) (Gt : good_tree orig fm).

(** The relocated record: the key's header with its new length and offset, then the patched tree. *)
Lemma tree_record blob ns key (pay := meta_payload blob) (len := keylen tk + zlen pay) : zlen blob = zlen (treeBlob fm) -> (kMaxFrame < zlen blob -> frames_fit blob kMetaZstdLevel) -> 0 <= ns < p63 ->
  putKeySeek (bePut 4 (zsub orig (seekkey tk) (keylen tk)) 0 len) 0 (ver tk) ns = Some key ->
  zlen key = keylen tk /\ len < p31 /\ parseKey (key ++ pay) 0 = Some (with_length tk len ns) /\ content (key ++ pay) = Some blob.
Proof using Hlaw Hp Hb Gt.
  intros Lbl Hfit Hns EP. destruct Gt as [G1 G2 G3 G4 G5 G6 _ _]. fold tk in G1, G2, G3, G4, G5. set (rec := zsub orig (seekkey tk) (nbytes tk)) in *.
  destruct (key_end_start tk) as [S1 S2]. assert (zlen rec = nbytes tk) as Lr by (apply zlen_zsub; lia).
  assert (34 <= keylen tk) as K34 by (unfold key_end, key_start in G4; rewrite G2 in G4; change (zlen (bs "TTree")) with 5 in G4; pose proof (zlen_nonneg (name tk)); pose proof (zlen_nonneg (title tk)); case_match; lia).
  pose proof (shrink_decodes blob kMetaZstdLevel Hlaw Hfit : pay = blob \/ (zlen pay < zlen blob /\ decompressFrames pay (zlen blob) = blob)) as Sh.
  assert (zlen pay <= zlen blob) as Lp by (destruct Sh as [->|[? _]]; lia). pose proof (zlen_nonneg pay). pose proof (p_blob fm Hp). pose proof (p_key fm Hp) as Hk. fold tk in Hk.
  assert (zsub orig (seekkey tk) (keylen tk) = zsub rec 0 (keylen tk)) as Em by (unfold rec; rewrite zsub_zsub by lia; f_equal; lia). rewrite Em in EP.
  assert (zlen (zsub rec 0 (keylen tk)) = keylen tk) as Lm by (apply zlen_zsub; lia).
  destruct (rebuilt rec tk pay ltac:(lia) ltac:(lia)) as (Lb & Ag & Us & Nb). rewrite zlen_app, Lm in Lb, Ag, Us, Nb. fold len in Lb, Ag, Us, Nb. set (b := bePut 4 (zsub rec 0 (keylen tk) ++ pay) 0 len) in *.
  set (n := if 1000 <? ver tk then 8%nat else 4%nat). assert (key = bePut n (bePut 4 (zsub rec 0 (keylen tk)) 0 len) 18 ns /\ (1000 < ver tk \/ ns < p31)) as [-> Hw].
  { unfold putKeySeek, n in *. destruct (1000 <? ver tk) eqn:E1; [injection EP as <-; b2p; split; [done|by left]|]. destruct (_ || _)%bool eqn:E; [done|]. injection EP as <-. b2p. split; [done|by right]. }
  assert (Z.of_nat n <= 8) as Hn by (unfold n; case_match; done). assert (zlen (bePut 4 (zsub rec 0 (keylen tk)) 0 len) = keylen tk) as L1 by (rewrite zlen_bePut; lia).
  assert (bePut n (bePut 4 (zsub rec 0 (keylen tk)) 0 len) 18 ns ++ pay = bePut n b 18 ns) as Eo by (unfold b; rewrite <- !bePut_app by lia; done).
  split; [rewrite zlen_bePut; lia|]. split; [lia|]. rewrite Eo.
  destruct (place_reads rec tk b pay kRaw [] (mkSlot 0 0 ns (zlen b) 0 0)) as (out & E & Lo & Pk & Pu & _); try (exact G1); try lia; try done; try (cbn; lia); try (by apply Forall_zsub).
  cbn [vLen vSeek] in *. assert (beGet 2 b 4 = ver tk) as Vb by (rewrite <- (parseKey_ver rec tk G1); unfold beGet; by rewrite (agree_sub rec b 4 (keylen tk)) by (done || lia)).
  assert (out = bePut n b 18 ns) as ->.
  { unfold placeInSlot in E. cbn [record c_error vLen vSeek] in E. rewrite Vb, Z.sub_diag in E. rewrite (proj2 (Z.ltb_ge (zlen b) 26)), Z.ltb_irrefl in E by lia. change (negb (bytes_eqb [] []) || false) with false in E. cbn iota in E.
    unfold putKeySeek in E. unfold n. destruct (1000 <? ver tk); [|destruct (_ || _)%bool; [done|]]; injection E as <-; by rewrite app_nil_r. }
  split; [by rewrite Pk, Lb|]. unfold content. rewrite Pk. cbn [keylen nbytes objlen with_length]. replace (zlen b - keylen tk) with (zlen pay) by lia. rewrite Pu, G5, <- Lbl.
  f_equal. destruct Sh as [->|[Hlt ->]]; [by rewrite Z.eqb_refl|]. by rewrite (proj2 (Z.eqb_neq _ _)) by lia.
Qed.

Definition new_seek (b : Build) : Z := fend fm + zlen (ext_ b).
Definition new_len (b : Build) : Z := keylen tk + zlen (meta_payload (blob_ b)).
(** What a finished overlay is made of: the relocated record and the patched keys list. *)
Record tail_of (b : Build) (klist : bytes) (ov : Overlay) (key klist' : bytes) (ext := ext_ b ++ key ++ meta_payload (blob_ b)) (hw := headerSeekWidth fm) : Prop := {
  tl_key : parseKey (key ++ meta_payload (blob_ b)) 0 = Some (with_length tk (new_len b) (new_seek b)) /\ content (key ++ meta_payload (blob_ b)) = Some (blob_ b);
  tl_room : zlen key = keylen tk /\ 0 < new_len b < p31;
  tl_keys : (zlen klist' = zlen klist /\ 34 <= zlen klist /\ exists kl, parseKey klist 0 = Some kl /\ nbytes kl = zlen klist) /\ forall es, well_listed klist es -> listed_keys klist' = Some (repointed tk (new_len b) (new_seek b) <$> es);
  tl_place : 100 <= keyslistSeek fm /\ keyslistSeek fm + zlen klist <= fend fm /\ fend fm + zlen ext < 2 ^ (8 * hw - 1);
  tl_data : tdata ov = be_bytes (Z.to_nat hw) (fend fm + zlen ext) ++ klist' ++ ext;
  tl_size : Replica.originSize (o_meta ov) = fend fm /\ Replica.virtualSize (o_meta ov) = fend fm + zlen ext;
  tl_extents : Replica.extents (o_meta ov) = [Replica.mkExtent 12 hw 0; Replica.mkExtent (keyslistSeek fm) (zlen klist) hw; Replica.mkExtent (fend fm) (zlen ext) (hw + zlen klist)];
  tl_super : Replica.superseded (o_meta ov) = merge_ranges (super_ b ++ [Replica.mkRange (seekkey tk) (nbytes tk)]);
  tl_done : o_error ov = [] }.

Lemma finish_shape b klist : zlen (blob_ b) = zlen (treeBlob fm) -> (kMaxFrame < zlen (blob_ b) -> frames_fit (blob_ b) kMetaZstdLevel) ->
  fend fm + zlen (ext_ b) < 2 ^ 62 -> Forall is_byte klist -> zlen klist < p31 ->
  match finishOverlay zv fm b (zsub orig (seekkey tk) (keylen tk)) klist with
  | Fault => False | Stop ov => o_error ov <> [] | Going ov => exists key klist', tail_of b klist ov key klist'
  end.
Proof using Hlaw Hp Hb Gt.
  intros Lbl Hfit He Hk Lk. destruct (p_fend fm Hp) as [F0 F1]. pose proof (gt_size _ _ Gt). pose proof (zlen_nonneg (ext_ b)). pose proof (zlen_nonneg (meta_payload (blob_ b))). pose proof (zlen_nonneg klist).
  destruct (gt_end _ _ Gt) as [E1 E2]. destruct (gt_inside _ _ Gt) as (I1 & I2 & I3). fold tk in E1, E2, I1, I2, I3. destruct (key_end_start tk) as [S1 S2].
  assert (zlen (zsub orig (seekkey tk) (keylen tk)) = keylen tk) as Lm by (apply zlen_zsub; lia).
  unfold finishOverlay. fold tk. fold (new_seek b) (new_len b). assert (0 <= new_seek b < p63) as Hns by (unfold new_seek; lia).
  rewrite wr_in by (cbn; lia). set (mk := bePut 4 (zsub orig (seekkey tk) (keylen tk)) 0 (new_len b)). assert (zlen mk = keylen tk) as L1 by (unfold mk; rewrite zlen_bePut; cbn; lia).
  pose proof (patch_put mk 0 (ver tk) (new_seek b) ltac:(lia) ltac:(lia) ltac:(lia)) as PP. destruct (patchSeek _ _ _ _) as [key| |] eqn:EP; [|done|done].
  destruct (tree_record (blob_ b) (new_seek b) key Lbl Hfit Hns PP) as (Lkey & Ll & Pk & Co). fold (new_len b) in Ll, Pk.
  assert (0 < new_len b) by (unfold new_len; lia). pose proof (patched_keys_ok tk (new_len b) (new_seek b) klist Hk Lk ltac:(lia) Hns) as PK.
  destruct (patched_keys _ _ _ _) as [[why|]|klist'] eqn:EK; [exact PK|done|]. destruct PK as [(L2 & L34 & Lkl) Es]. pose proof (gt_keys _ _ Gt) as Ks.
  set (ext := ext_ b ++ key ++ meta_payload (blob_ b)). assert (zlen ext = zlen (ext_ b) + new_len b) as Lx by (unfold ext, new_len; rewrite !zlen_app; lia).
  rewrite (w64_small (fend fm)) by lia. destruct (_ || _)%bool eqn:Eg; [done|]. b2p. rewrite (w64_small (keyslistSeek fm)) in * by lia. rewrite w64_small in * by lia.
  destruct (_ && _)%bool eqn:Ew; [done|]. nowrap. exists key, klist'.
  assert (fend fm + zlen ext < 2 ^ (8 * headerSeekWidth fm - 1) /\ (if headerSeekWidth fm =? 8 then 8%nat else 4%nat) = Z.to_nat (headerSeekWidth fm)) as [Hend Hw].
  { destruct (gt_width _ _ Gt) as [W|W]; rewrite W in *; cbn in *; [|unfold new_seek in *; lia]. apply Z.leb_gt in Ew. lia. }
  split; cbn [tdata o_meta o_error Replica.extents Replica.superseded Replica.originSize Replica.virtualSize]; try done; fold ext; rewrite ?L2; try done; try lia.
  by rewrite Hw.
Qed.
End tail.
End TransFinish.
