(* ===== verification/TransposeSound.v ===== *)
(** * A replica overlay reads as the original (src/transpose/Transposer.cc)

    The build as a whole, seen by the reader of the virtual file it describes: from the header to the keys
    list, the tree record and every basket. *)

From stdpp Require Import sorting.
From S2P Require Import Prelude UrlKey RootFile TreeMeta TreeParse ReplicaFile ReplicaStore ReplicaView FillLayout FillHeader FillBasket FillGeometry Transposer TransposeBasket TransposeFinish.

Module TransSound.
Import Root TreeData Tree TreeParse Fill Trans FillBasket FillGeometry TransBasket TransFinish TransRanges.

(** ** What a reader of the overlay finds *)
Record reads_as `{CD : Codecs} (orig : bytes) (fm : FileMeta) (hot : list bytes) (ov : Overlay) (nk seek len : Z) (blob : bytes) (slots : list FillSlot)
    (V := vfile orig ov) (tk := treeKey fm) (ks := keyslistSeek fm) (hw := headerSeekWidth fm) : Prop := {
  ra_gates : Replica.originSize (o_meta ov) = fend fm /\ Replica.virtualSize (o_meta ov) = zlen V /\ fend fm < zlen V < p63 /\
    Replica.extents_ok (zlen V) (zlen (tdata ov)) 0 (Replica.extents (o_meta ov)) = true /\
    Replica.superseded_ok (fend fm) (Replica.superseded (o_meta ov)) = true;
  ra_header : beGetS (Z.to_nat hw) V 12 = zlen V;
  ra_same : forall o n, 0 <= o -> 0 <= n -> o + n <= fend fm -> apart (o, n) (12, hw) -> apart (o, n) (ks, nk) -> zsub V o n = zsub orig o n;
  ra_list : exists kl, parseKey (zsub orig ks nk) 0 = Some kl /\ nbytes kl = nk;
  ra_keys : forall es, well_listed (zsub orig ks nk) es -> live_key (name tk) es = tk ->
    exists es', listed_keys (zsub V ks nk) = Some es' /\ es' = repointed tk len seek <$> es /\ live_key (name tk) es' = with_length tk len seek;
  ra_record : seek + len = zlen V /\ parseKey (zsub V seek len) 0 = Some (with_length tk len seek) /\ content (zsub V seek len) = Some blob;
  ra_tree : zlen blob = zlen (treeBlob fm) /\ key_of <$> slots = wanted fm hot /\
    Forall (fun s => beGetS 8 blob (seekArrayOff (branch_at fm (s_branch s)) + 8 * s_basket s) = vSeek s /\
                     beGetS 4 blob (bytesArrayOff (branch_at fm (s_branch s)) + 4 * s_basket s) = vLen s) slots /\
    (forall o n, 0 <= o -> 0 <= n -> Forall (fun s => Forall (fun w => apart (o, n) (region w)) (writes_of fm s)) slots -> zsub blob o n = zsub (treeBlob fm) o n);
  ra_baskets : tiled (fend fm) slots seek /\ Forall (names fm orig) slots /\ Forall (fun s => same_basket fm orig (zsub V (vSeek s) (vLen s)) s) slots;
  ra_freed : StronglySorted gap (Replica.superseded (o_meta ov)) /\ forall x, covers (Replica.superseded (o_meta ov)) x <->
    covers ((fun s => Replica.mkRange (origSeek s) (origLen s)) <$> slots) x \/ seekkey tk <= x < seekkey tk + nbytes tk }.

(** ** The pieces *)
Lemma live_repointed tk len seek es : cls tk = bs "TTree" -> live_key (name tk) es = tk -> live_key (name tk) (repointed tk len seek <$> es) = with_length tk len seek.
Proof.
  intros Hc Hl. set (r := repointed tk len seek). assert (forall e, cls (r e) = cls e /\ name (r e) = name e /\ cycle (r e) = cycle e) as R.
  { intros e. unfold r, repointed. by destruct (_ && _)%bool. }
  assert (forall l b, foldl (fun best e => if bytes_eqb (cls e) (bs "TTree") && bytes_eqb (name e) (name tk) && (cycle best <=? cycle e) then e else best) (r b) (r <$> l) =
    r (foldl (fun best e => if bytes_eqb (cls e) (bs "TTree") && bytes_eqb (name e) (name tk) && (cycle best <=? cycle e) then e else best) b l)) as F.
  { induction l as [|e l IH]; intros b; [done|]. cbn [fmap list_fmap foldl]. destruct (R e) as (-> & -> & ->). destruct (R b) as (_ & _ & ->). destruct (_ && _)%bool; apply IH. }
  unfold live_key in *. assert (r no_key = no_key) as Rn by done. rewrite <- Rn at 1. rewrite F, Hl. unfold r, repointed. rewrite Hc, Z.eqb_refl.
  change (bytes_eqb (bs "TTree") (bs "TTree")) with true. unfold bytes_eqb. by rewrite bool_decide_true by done.
Qed.

(** The three windows of an overlay. *)
Section windows.
Context (hw ks nk fe n : Z) (Hh : hw = 4 \/ hw = 8) (Hk : 100 <= ks) (Hn : 0 <= nk) (He : ks + nk <= fe) (Hx : 0 < n).
Let exts := [Replica.mkExtent 12 hw 0; Replica.mkExtent ks nk hw; Replica.mkExtent fe n (hw + nk)].
Lemma source_three x : RView.source exts x =
  if (12 <=? x) && (x <? 12 + hw) then Some (x - 12) else if (ks <=? x) && (x <? ks + nk) then Some (hw + (x - ks))
  else if (fe <=? x) && (x <? fe + n) then Some (hw + nk + (x - fe)) else None.
Proof using.
  unfold RView.source, exts. cbn [List.find]. unfold RView.inside, Replica.ext_end. cbn [Replica.virtOff Replica.elen Replica.tdataOff].
  destruct ((12 <=? x) && (x <? 12 + hw)); [cbn; f_equal; lia|]. destruct ((ks <=? x) && (x <? ks + nk)); [done|]. by destruct ((fe <=? x) && (x <? fe + n)).
Qed.
End windows.

Section sound.
Context `{CD : Codecs} (zv : Z) (Hlaw : ZstdLaw) (orig : bytes) (fm : FileMeta) (tk := treeKey fm).
Context (Hp : parsed fm) (Hb : Forall is_byte orig) (Gt : good_tree orig fm).

(** A finished overlay, whatever its baskets. *)
Section overlay.
Context (b : Build) (klist : bytes) (ov : Overlay) (key klist' : bytes) (T : tail_of fm b klist ov key klist') (He : fend fm + zlen (ext_ b) < 2 ^ 62).
Let ext := ext_ b ++ key ++ meta_payload (blob_ b).
Let hw := headerSeekWidth fm.
Let V := vfile orig ov.
Lemma overlay_sizes : (hw = 4 \/ hw = 8) /\ zlen orig = fend fm /\ 0 <= fend fm < 2 ^ 61 /\ 0 <= zlen (ext_ b) /\ zlen ext = zlen (ext_ b) + new_len fm b /\ 0 < new_len fm b < p31 /\
  34 <= zlen klist /\ 100 <= keyslistSeek fm /\ keyslistSeek fm + zlen klist <= fend fm /\ zlen V = fend fm + zlen ext /\ zlen (tdata ov) = hw + zlen klist + zlen ext.
Proof using Hp Gt T.
  destruct T as [_ [T1 T2] [(T3a & T3 & _) _] (T4 & T5 & T6) T7 [_ T8] _ _ _]. fold hw ext in T6, T7, T8. pose proof (gt_width _ _ Gt) as W. fold hw in W. pose proof (p_fend fm Hp).
  pose proof (zlen_nonneg (ext_ b)). assert (zlen ext = zlen (ext_ b) + new_len fm b) as Lx by (unfold ext, new_len; rewrite !zlen_app; unfold tk in *; lia).
  split; [done|]. split; [apply (gt_size _ _ Gt)|]. repeat (split; [done || lia|]). split; [unfold V; rewrite zlen_vfile; lia|]. rewrite T7, !zlen_app, zlen_be. lia.
Qed.
Lemma overlay_source x : RView.source (Replica.extents (o_meta ov)) x =
  if (12 <=? x) && (x <? 12 + hw) then Some (x - 12) else if (keyslistSeek fm <=? x) && (x <? keyslistSeek fm + zlen klist) then Some (hw + (x - keyslistSeek fm))
  else if (fend fm <=? x) && (x <? fend fm + zlen ext) then Some (hw + zlen klist + (x - fend fm)) else None.
Proof using T. rewrite (tl_extents _ _ _ _ _ _ T). apply source_three. Qed.

(** The windows, read through the overlay. *)
Lemma overlay_reads :
  zsub V 12 hw = be_bytes (Z.to_nat hw) (zlen V) /\ zsub V (keyslistSeek fm) (zlen klist) = klist' /\
  (forall o n, 0 <= o -> 0 <= n -> o + n <= zlen ext -> zsub V (fend fm + o) n = zsub ext o n) /\
  (forall o n, 0 <= o -> 0 <= n -> o + n <= fend fm -> apart (o, n) (12, hw) -> apart (o, n) (keyslistSeek fm, zlen klist) -> zsub V o n = zsub orig o n).
Proof using Hp Gt T.
  destruct overlay_sizes as (W & Lo & F & X1 & X2 & X3 & K1 & K2 & K3 & LV & Ld). pose proof (tl_data _ _ _ _ _ _ T) as D. fold hw ext in D. rewrite <- LV in D.
  destruct (tl_size _ _ _ _ _ _ T) as [_ S]. fold ext in S. destruct (tl_keys _ _ _ _ _ _ T) as [(Lk & _) _]. pose proof (zlen_be (Z.to_nat hw) (zlen V)) as Lh.
  split; [|split; [|split]].
  - unfold V. rewrite (vfile_over orig ov 12 hw 0); try lia.
    + fold V. rewrite D. apply zsub_app. rewrite Lh. lia.
    + intros x Hx. rewrite overlay_source. rewrite (proj2 (Z.leb_le 12 x)), (proj2 (Z.ltb_lt x _)) by lia. cbn. f_equal; lia.
  - unfold V. rewrite (vfile_over orig ov (keyslistSeek fm) (zlen klist) hw); try lia.
    + rewrite D, zsub_app_r by lia. replace (hw - zlen (be_bytes (Z.to_nat hw) (zlen V))) with 0 by lia. apply zsub_app. lia.
    + intros x Hx. rewrite overlay_source. rewrite (proj2 (Z.ltb_ge x (12 + hw))) by lia. rewrite andb_false_r. by rewrite (proj2 (Z.leb_le (keyslistSeek fm) x)), (proj2 (Z.ltb_lt x _)) by lia.
  - intros o n Ho Hn Hon. unfold V. rewrite (vfile_over orig ov (fend fm + o) n (hw + zlen klist + o)); try lia.
    + rewrite D, zsub_app_r by lia. rewrite zsub_app_r by lia. f_equal. lia.
    + intros x Hx. rewrite overlay_source. rewrite (proj2 (Z.ltb_ge x (12 + hw))), (proj2 (Z.ltb_ge x (keyslistSeek fm + _))), !andb_false_r by lia.
      rewrite (proj2 (Z.leb_le (fend fm) x)), (proj2 (Z.ltb_lt x _)) by lia. cbn. f_equal. lia.
  - intros o n Ho Hn Hon A1 A2. unfold V. apply vfile_orig; try lia. intros x Hx. rewrite overlay_source. unfold apart in A1, A2. cbn [fst snd] in A1, A2.
    assert ((12 <=? x) && (x <? 12 + hw) = false) as -> by (apply andb_false_iff; rewrite Z.leb_gt, Z.ltb_ge; lia).
    assert ((keyslistSeek fm <=? x) && (x <? keyslistSeek fm + zlen klist) = false) as -> by (apply andb_false_iff; rewrite Z.leb_gt, Z.ltb_ge; lia).
    by rewrite (proj2 (Z.leb_gt (fend fm) x)) by lia.
Qed.

(** With the baskets that were placed. *)
Context (ss : list FillSlot) (B : built fm orig b ss).
Lemma ranges_plain : Forall (fun r => plain r /\ rend r <= fend fm) (super_ b ++ [Replica.mkRange (seekkey tk) (nbytes tk)]).
Proof using Hb Hp Gt T B.
  destruct overlay_sizes as (_ & Lo & F & _). destruct (gt_inside _ _ Gt) as (I1 & I2 & I3). destruct (gt_end _ _ Gt) as [E1 E2]. fold tk in I1, I2, I3, E1, E2. destruct (key_end_start tk).
  rewrite (bd_super _ _ _ _ B). apply Forall_app. split.
  - apply Forall_fmap, Forall_forall. intros s Hs. pose proof (Forall_forall (names fm orig) ss) as [N _]. destruct (N (bd_names _ _ _ _ B) s Hs) as (_ & _ & N1 & N2 & N3 & _).
    pose proof (bd_same _ _ _ _ B) as S. rewrite Forall_forall in S. destruct (S s Hs) as (k & Pk & _). destruct (parseKey_end (zsub orig (origSeek s) (origLen s)) k (Forall_zsub _ _ _ _ Hb) ltac:(rewrite zlen_zsub by lia; lia) Pk) as (P34 & _).
    rewrite zlen_zsub in P34 by lia. unfold compose, plain, rend. cbn. lia.
  - apply Forall_cons. split; [|constructor]. unfold plain, rend. cbn. lia.
Qed.
Lemma overlay_gates :
  Replica.extents_ok (zlen V) (zlen (tdata ov)) 0 (Replica.extents (o_meta ov)) = true /\ Replica.superseded_ok (fend fm) (Replica.superseded (o_meta ov)) = true.
Proof using Hb Hp Gt T B He.
  destruct overlay_sizes as (W & Lo & F & X1 & X2 & X3 & K1 & K2 & K3 & LV & Ld). split.
  - rewrite (tl_extents _ _ _ _ _ _ T). fold hw ext. apply Replica.extents_ok_spec; try lia.
    + repeat (apply Forall_cons; split); [..|constructor]; unfold Replica.u64_extent, is_u64; cbn [Replica.virtOff Replica.elen Replica.tdataOff]; lia.
    + cbn [Replica.in_order Replica.virtOff Replica.elen Replica.tdataOff]. unfold Replica.ext_end. cbn [Replica.virtOff Replica.elen]. lia.
  - pose proof ranges_plain as P. destruct (merge_ranges_ok (super_ b ++ [Replica.mkRange (seekkey tk) (nbytes tk)])) as (M1 & _ & M3); [eapply Forall_impl; [exact P|]; by intros r []|].
    rewrite (tl_super _ _ _ _ _ _ T). fold tk. assert (Forall (fun r => plain r /\ rend r <= fend fm) (merge_ranges (super_ b ++ [Replica.mkRange (seekkey tk) (nbytes tk)]))) as M.
    { apply Forall_forall. intros r Hr. rewrite Forall_forall in M1. specialize (M1 r Hr). split; [done|]. destruct M1 as (Q1 & Q2 & Q3).
      destruct (proj1 (M3 (rend r - 1))) as (r' & Hr' & Hin); [exists r; split; [done|unfold rend in *; lia]|]. rewrite Forall_forall in P. destruct (P r' Hr') as [_ ?]. lia. }
    apply Replica.superseded_ok_spec; [|lia|].
    + eapply Forall_impl; [exact M|]. intros r [(Q1 & Q2 & Q3) Q4]. unfold Replica.u64_range, is_u64, rend in *. lia.
    + eapply Forall_impl; [exact M|]. intros r [(Q1 & Q2 & Q3) Q4]. unfold rend in *. lia.
Qed.
Lemma overlay_reads_as hot : NoDup hot -> klist = zsub orig (keyslistSeek fm) (zlen klist) -> key_of <$> ss = wanted fm hot ->
  reads_as orig fm hot ov (zlen klist) (new_seek fm b) (new_len fm b) (blob_ b) ss.
Proof using Hb Hp Gt T B He.
  intros Hn Ek Ew. destruct overlay_sizes as (W & Lo & F & X1 & X2 & X3 & K1 & K2 & K3 & LV & Ld). destruct overlay_reads as (R1 & R2 & R3 & R4). destruct overlay_gates as [Ge Gs].
  assert (zsub V (new_seek fm b) (new_len fm b) = key ++ meta_payload (blob_ b)) as Rk.
  { unfold new_seek. rewrite R3 by lia. unfold ext. rewrite zsub_app_r by lia. rewrite Z.sub_diag. apply zsub_all. rewrite zlen_app. destruct (tl_room _ _ _ _ _ _ T) as [-> _]. done. }
  pose proof (bd_tiled _ _ _ _ B) as Ti. fold V. split; fold V hw.
  - split; [apply (tl_size _ _ _ _ _ _ T)|]. split; [rewrite LV; apply (tl_size _ _ _ _ _ _ T)|]. split; [lia|]. by split.
  - apply beGetS_be; [lia| |].
    + rewrite Z2Nat.id by lia. exact R1.
    + rewrite Z2Nat.id by lia. destruct (tl_place _ _ _ _ _ _ T) as (_ & _ & P). fold hw ext in P. rewrite LV. lia.
  - exact R4.
  - rewrite <- Ek. apply (tl_keys _ _ _ _ _ _ T).
  - intros es Hes Hlive. rewrite <- Ek in Hes. destruct (tl_keys _ _ _ _ _ _ T) as [_ K]. exists (repointed (treeKey fm) (new_len fm b) (new_seek fm b) <$> es).
    rewrite R2. split; [by apply K|]. split; [done|]. apply live_repointed; [apply (gt_class _ _ Gt)|done].
  - rewrite Rk. split; [unfold new_seek; lia|]. apply (tl_key _ _ _ _ _ _ T).
  - destruct (patched_fields fm Hp ss (bd_made _ _ _ _ B)) as (L & Fs & Ho).
    + rewrite Ew. by apply wanted_nodup.
    + apply Forall_forall. intros s Hs. pose proof (bd_names _ _ _ _ B) as N. rewrite Forall_forall in N. destruct (N s Hs) as (_ & _ & _ & _ & _ & N6).
      apply list_elem_of_lookup in Hs as [i Hi]. destruct (tiled_lookup _ _ _ _ _ Ti Hi). lia.
    + rewrite <- (bd_blob _ _ _ _ B) in L, Fs, Ho. done.
  - split; [exact Ti|]. split; [apply (bd_names _ _ _ _ B)|]. pose proof (bd_same _ _ _ _ B) as S. apply Forall_forall. intros s Hs. rewrite Forall_forall in S. specialize (S s Hs).
    pose proof (bd_names _ _ _ _ B) as N. rewrite Forall_forall in N. destruct (N s Hs) as (_ & _ & _ & _ & _ & N6).
    apply list_elem_of_lookup in Hs as [i Hi]. destruct (tiled_lookup _ _ _ _ _ Ti Hi).
    replace (vSeek s) with (fend fm + (vSeek s - fend fm)) at 1 by lia. rewrite R3 by lia. unfold ext. by rewrite zsub_app_l by lia.
  - pose proof ranges_plain as P. destruct (merge_ranges_ok (super_ b ++ [Replica.mkRange (seekkey tk) (nbytes tk)])) as (_ & M2 & M3); [eapply Forall_impl; [exact P|]; by intros r []|].
    rewrite (tl_super _ _ _ _ _ _ T). fold tk. split; [done|]. intros x. rewrite M3, (bd_super _ _ _ _ B). clear. induction ss as [|s l IH]; cbn [fmap list_fmap app]; rewrite ?covers_cons, ?covers_nil; [unfold rend; cbn; tauto|].
    rewrite IH. tauto.
Qed.
End overlay.
End sound.

(** ** The build *)
(** The baskets of the file: each record that lies in it is a good one. *)
Definition good_baskets `{CD : Codecs} (orig : bytes) (fm : FileMeta) : Prop :=
  forall j i (off := zget (basketSeek (branch_at fm j)) i) (nb := zget (basketBytes (branch_at fm j)) i),
  0 <= j < zlen (branches fm) -> 0 <= i < writeBasket (branch_at fm j) -> 0 <= off -> 0 <= nb -> off + nb <= zlen orig -> good_record (zsub orig off nb).
Section build.
Context {W : Type} `{!Source W} `{CD : Codecs} (zv : Z) (orig : bytes) (fm : FileMeta) (tk := treeKey fm).
Context (Hlaw : ZstdLaw) (Hp : parsed fm) (Hb : Forall is_byte orig) (Gt : good_tree orig fm) (Hr : reads_of orig) (Hg : good_baskets orig fm) (Hf : zlen (treeBlob fm) <= kMaxFrame).

Lemma file_small : zlen orig < p63.
Proof using Hp Gt. rewrite (gt_size _ _ Gt). pose proof (p_fend fm Hp). lia. Qed.
Lemma read_some n off : mwp (src_read n off) (fun r => forall d, r = Some d -> 0 <= off /\ 0 <= n /\ off + n <= zlen orig /\ d = zsub orig off n).
Proof using Hr. intros w d Hd. by apply (Hr n off w d). Qed.

Lemma key_header_ok : mwp (read_key_header fm) (fun r => forall d, r = Some d -> d = zsub orig (seekkey tk) (keylen tk)).
Proof using Hr Hp Gt.
  pose proof file_small. destruct (gt_inside _ _ Gt) as (I1 & I2 & _). pose proof (gt_end _ _ Gt) as [E1 E2]. fold tk in I1, I2, E1, E2. destruct (key_end_start tk). unfold read_key_header. fold tk.
  apply (mwp_bind _ _ (fun _ => True)); [by intros w|]. intros ok _. destruct ok; cbn [negb]; [|by apply mwp_ret].
  eapply mwp_wand; [apply read_some|]. intros r Hd d Hrd. destruct (Hd d Hrd) as (_ & _ & _ & ->). by rewrite w64_small by lia.
Qed.
Lemma keys_list_read n : mwp (read_keys_list fm n) (fun r => match r with
  | inl klist => klist = zsub orig (keyslistSeek fm) (zlen klist) /\ Forall is_byte klist /\ zlen klist < p31 | inr ov => o_error ov <> [] end).
Proof using Hr Hp Gt Hb.
  pose proof file_small. pose proof (gt_keys _ _ Gt) as Ks. unfold read_keys_list. destruct (_ =? 0); [by apply mwp_ret|].
  eapply mwp_bind; [apply read_some|]. intros [h|] Hh; [|by apply mwp_ret]. destruct (Hh h eq_refl) as (H0 & H1 & H2 & ->). set (h := zsub orig _ _).
  destruct (parseKey h 0) as [kl|] eqn:EK; [|by apply mwp_ret]. assert (zlen h <= zlen orig) by (unfold h; rewrite zlen_zsub; lia).
  destruct (parseKey_ranges h 0 kl (Forall_zsub _ _ _ _ Hb) ltac:(lia) ltac:(lia) EK) as (_ & _ & N & _).
  destruct (_ || _)%bool eqn:Eg; [by apply mwp_ret|]. b2p. apply (mwp_bind _ _ (fun _ => True)); [by intros w|]. intros ok _. destruct ok; cbn [negb]; [|by apply mwp_ret].
  eapply mwp_bind; [apply read_some|]. intros [l|] Hd; apply mwp_ret; [|done]. destruct (Hd l eq_refl) as (D0 & D1 & D2 & ->).
  assert (0 <= keyslistSeek fm) as K0 by (apply signed_pos; lia). rewrite (w64_small (keyslistSeek fm)) in * by lia. rewrite zlen_zsub by lia. split; [done|]. split; [by apply Forall_zsub|lia].
Qed.

(** The build ends, touches no byte outside a vector, and what it builds reads as the original. *)
Lemma build_ok hot w : f_error fm = [] -> NoDup hot ->
  exists ov, fst (buildOverlay zv fm hot w) = Some ov /\ (o_error ov = [] -> exists nk seek len blob slots, reads_as orig fm hot ov nk seek len blob slots).
Proof using All.
  intros He Hn. assert (mwp (buildOverlay zv fm hot) (fun r => exists ov, r = Some ov /\ (o_error ov = [] -> exists nk seek len blob slots, reads_as orig fm hot ov nk seek len blob slots))) as M; [|exact (M w)].
  assert (forall ov, o_error ov <> [] -> exists ov', Some ov = Some ov' /\ (o_error ov' = [] -> exists nk seek len blob slots, reads_as orig fm hot ov' nk seek len blob slots)) as Stp by (intros ov Ho; by exists ov).
  unfold buildOverlay. rewrite He. eapply mwp_bind; [by apply (branches_ok Hlaw fm orig Hp Hb file_small Hr Hg hot)|]. intros [b|ov|] Hs; [|apply mwp_ret, Stp; exact Hs|done]. destruct Hs as (ss & Ek & B).
  eapply mwp_bind; [apply key_header_ok|]. intros [mkey|] Hm; [|by apply mwp_ret, Stp]. rewrite (Hm mkey eq_refl).
  eapply mwp_bind; [apply keys_list_read|]. intros [klist|ov] Hk; [|by apply mwp_ret, Stp]. destruct Hk as (E1 & E2 & E3). apply mwp_ret.
  assert (zlen (blob_ b) = zlen (treeBlob fm)) as Lbl.
  { rewrite (bd_blob _ _ _ _ B). apply write_all_apart. apply Forall_concat, Forall_fmap. eapply Forall_impl; [exact (bd_made _ _ _ _ B)|]. intros x Hx. by apply writes_bound. }
  assert (fend fm + zlen (ext_ b) < 2 ^ 62) as Hx.
  { pose proof (tiled_span fm orig ss _ _ (bd_names _ _ _ _ B) (bd_tiled _ _ _ _ B)) as Ts. pose proof (wanted_few fm hot Hn) as Wf. pose proof (p_total fm Hp). pose proof (p_fend fm Hp).
    assert (zlen ss = zlen (wanted fm hot)) as L by (rewrite <- Ek; unfold zlen; by rewrite length_fmap). lia. }
  pose proof (finish_shape zv Hlaw orig fm Hp Hb Gt b klist Lbl ltac:(lia) Hx E2 E3) as FS. destruct (finishOverlay _ _ _ _ _) as [ov|ov|]; cbn [result]; [|by apply Stp|done].
  destruct FS as (key & klist' & T). exists ov. split; [done|]. intros _. exists (zlen klist), (new_seek fm b), (new_len fm b), (blob_ b), ss. by eapply overlay_reads_as.
Qed.
End build.

(** C26: a replica overlay, laid over the original's bytes, reads as the original with its hot branches converted. For a file whose parse is
    [fm], whose tree record fits one frame and whose basket records are well formed, over a source that gives the file's bytes or fails at
    any moment: the build ends and touches no byte outside a vector, and the overlay of a build that does not report an error
    passes the sidecar's gates and is a file of the virtual size. The reader finds that size in the header; in the keys list, read in
    place, the live key names the relocated tree record and the others are the original's; that record decodes to the original tree with
    the offset and length of every basket of the hot branches replaced, and nothing else; at each of those offsets lies a
    record of the basket's key that decodes to what the original basket decodes to. Every byte
    outside the header's field and the keys list is the original's, and what is declared superseded are exactly the replaced records. *)
Theorem overlay_reads_as_original {W : Type} `{!Source W} `{CD : Codecs} (zv : Z) (orig : bytes) (fm : FileMeta) (hot : list bytes) (w : W) :
  ZstdLaw -> parsed fm -> Forall is_byte orig -> good_tree orig fm -> good_baskets orig fm -> reads_of orig -> zlen (treeBlob fm) <= kMaxFrame -> f_error fm = [] -> NoDup hot ->
  exists ov, fst (buildOverlay zv fm hot w) = Some ov /\ (o_error ov = [] -> exists nk seek len blob slots, reads_as orig fm hot ov nk seek len blob slots).
Proof. intros. by apply build_ok. Qed.

(** ** A file of two baskets, one raw and one in a ZLIB frame *)
Definition b_key (nb ol kl sk : Z) (t : bytes) : bytes :=
  be_bytes 4 nb ++ be_bytes 2 1004 ++ be_bytes 4 ol ++ zeros 4 ++ be_bytes 2 kl ++ be_bytes 2 1 ++ be_bytes 8 sk ++ be_bytes 8 100 ++ [7] ++ bs "TBasket" ++ [1] ++ bs "x" ++ [zlen t] ++ t.
Definition demo_orig : bytes :=
  zeros 200 ++ b_key 50 4 46 200 (bs "t") ++ [1; 2; 3; 4] ++ zeros 50 ++ b_key 60 100 50 300 (bs "title") ++ [90; 76; 1; 1; 0; 0; 100; 0; 0; 7] ++ zeros 140 ++
  demo_entry ++ zeros 56 ++ demo_keys ++ zeros (1000 - 600 - 96).
#[export] Instance mem_source (f : bytes) : Source unit := {
  has n off := mret_ true;
  src_read n off := fun w => (if (0 <=? off) && (0 <=? n) && (off + n <=? zlen f) then Some (zsub f off n) else None, w) }.
Definition demo_ov : option Overlay := fst (buildOverlay (CD := demo_codecs) (Source0 := mem_source demo_orig) 10505 demo_fm [bs "x"] tt).
Example demo_built : (fun ov => (o_error ov, zlen (tdata ov), transcoded (counts ov), verbatim (counts ov), Replica.superseded (o_meta ov))) <$> demo_ov =
  Some ([], 294, 1, 1, [Replica.mkRange 200 50; Replica.mkRange 300 60; Replica.mkRange 500 80]).
Proof. vm_compute. reflexivity. Qed.
Lemma demo_reads_of : reads_of (Source0 := mem_source demo_orig) demo_orig.
Proof. intros n off [] d. cbn. destruct (_ && _)%bool eqn:E; [|done]. b2p. by intros [= <-]. Qed.
Lemma demo_tree : good_tree demo_orig demo_fm.
Proof.
  split; [vm_compute; reflexivity|reflexivity| | |reflexivity|vm_compute; reflexivity|by left|cbn; lia].
  - assert (zlen demo_orig = 1000) as -> by (vm_compute; reflexivity). cbn. lia.
  - vm_compute. split; congruence.
Qed.
Lemma demo_baskets : good_baskets (CD := demo_codecs) demo_orig demo_fm.
Proof.
  intros j i off nb Hj Hi _ _ _. assert (j = 0) as -> by (unfold zlen in Hj; cbn in Hj; lia). cbn [branch_at] in Hi. change (writeBasket (branch_at demo_fm 0)) with 2 in Hi.
  intros k Hk. assert (objlen k <= 100 /\ key_end k <= keylen k <= zlen (zsub demo_orig off nb) /\ nbytes k = zlen (zsub demo_orig off nb) /\ 0 <= objlen k /\ keylen k <= 50) as (? & ? & ? & ? & ?).
  { assert (i = 0 \/ i = 1) as [-> | ->] by lia; vm_compute in Hk; injection Hk as <-; vm_compute; repeat split; congruence. }
  split; [done|]. split; [done|]. split; [done|]. split; [lia|]. unfold kMaxFrame. lia.
Qed.
Lemma overlay_reads_as_original_witness :
  exists ov nk seek len blob slots, fst (buildOverlay (CD := demo_codecs) (Source0 := mem_source demo_orig) 10505 demo_fm [bs "x"] tt) = Some ov /\ o_error ov = [] /\ reads_as (CD := demo_codecs) demo_orig demo_fm [bs "x"] ov nk seek len blob slots /\
    key_of <$> slots = [(0, 0); (0, 1)].
Proof.
  destruct (overlay_reads_as_original (CD := demo_codecs) (Source0 := mem_source demo_orig) 10505 demo_orig demo_fm [bs "x"] tt) as (ov & E & R).
  - intros c level z Hz. exact (stored_law c level z Hz).
  - exact demo_parsed.
  - apply demo_is_byte. vm_compute. reflexivity.
  - exact demo_tree.
  - exact demo_baskets.
  - exact demo_reads_of.
  - vm_compute. congruence.
  - reflexivity.
  - repeat constructor. apply not_elem_of_nil.
  - pose proof demo_built as D. assert (demo_ov = Some ov) as E' by exact E. rewrite E' in D. assert (o_error ov = []) as He by (by injection D).
    destruct (R He) as (nk & seek & len & blob & slots & RA). exists ov, nk, seek, len, blob, slots. split; [exact E|]. split; [exact He|]. split; [exact RA|].
    destruct (ra_tree _ _ _ _ _ _ _ _ _ RA) as (_ & K & _). rewrite K. vm_compute. reflexivity.
Defined.

(** ** Records that are not well formed

    A basket whose key claims a header longer than the record: the payload's length wraps around, and the decoder reads
    past the record. A tree key whose header is four bytes long: the new offset is written past its buffer. *)
Definition long_header : bytes := zsplice demo_orig 300 (b_key 60 100 1000 300 (bs "title")).
Definition short_key : FileMeta := mkFile false 1000 600 0 4 4 (mkKey 80 1004 40 4 1 500 (bs "TTree") (bs "Ev") (bs "")) (zeros 40) 0 0 8 110 32 [] [] [demo_branch] [].
Theorem hostile_records_fault :
  fst (buildOverlay (CD := demo_codecs) (Source0 := mem_source long_header) 10505 demo_fm [bs "x"] tt) = None /\
  fst (buildOverlay (CD := demo_codecs) (Source0 := mem_source demo_orig) 10505 short_key [] tt) = None.
Proof. split; vm_compute; reflexivity. Qed.
End TransSound.
