(* ===== verification/ReadMap.v ===== *)
(** * Which share of a file a reader asks for (src/transpose/ReadMap.h, ReadMap.cc)

    The units (baskets, pages) of a file with the branch or column each belongs to, the
    branches a request touches, the share they hold, and the step that accumulates
    requests until the file is read directly or cached. The three parallel vectors of the
    units are one list of records; a file's metadata is what the parsers return. *)

From stdpp Require Import sorting.
From S2P Require Import Prelude WireRead TreeMeta.

Module ReadMap.
Import Wire.

Definition kRNTupleHead : Z := 128 * 1024.

Record MapUnit := mkUnit { u_off : Z; u_len : Z; u_group : Z }.
Record ReadMap := mkMap { rnt_ : bool; headSkip_ : Z; units_ : list MapUnit; groupBytes_ : list Z; total_ : Z }.
Definition empty (m : ReadMap) : bool := match units_ m with [] => true | _ => false end.

Definition unit_le (a b : MapUnit) : Prop := u_off a <= u_off b.
#[global] Instance unit_le_dec a b : Decision (unit_le a b).
Proof. unfold unit_le. apply _. Defined.
(** [std::stable_sort] by offset. *)
Definition sortUnits (l : list MapUnit) : list MapUnit := merge_sort unit_le l.

(** The bytes each group holds, and all of them. *)
Definition count_unit (st : list Z * Z) (u : MapUnit) : list Z * Z :=
  (zset (fst st) (u_group u) (zget (fst st) (u_group u) +% u_len u), snd st +% u_len u).
Definition weighed (rnt : bool) (head : Z) (groups : Z) (us : list MapUnit) : ReadMap :=
  let '(gb, total) := foldl count_unit (zeros groups, 0) us in mkMap rnt head us gb total.

(** The baskets of one branch. *)
Definition branch_units (group : Z) (b : TreeData.BranchInfo) : list MapUnit :=
  if TreeData.externalFile b then []
  else
    let n := Z.min (zlen (TreeData.basketSeek b)) (zlen (TreeData.basketBytes b)) in
    omap (fun i => if (zget (TreeData.basketSeek b) i <=? 0) || (zget (TreeData.basketBytes b) i <=? 0) then None
                   else Some (mkUnit (w64 (zget (TreeData.basketSeek b) i)) (w32 (zget (TreeData.basketBytes b) i)) group)) (zrange 0 n).
Definition fromTree (fm : TreeData.FileMeta) : ReadMap :=
  let g := zlen (TreeData.branches fm) in
  let us := concat ((fun k => branch_units k (TreeData.branch_at fm k)) <$> zrange 0 g) in
  weighed false 0 g (sortUnits us).

(** The pages of an RNTuple: [PageInfo] and [ColumnRange] with the fields read here. *)
Record PageInfo := mkPage { p_offset : Z; p_nbytes : Z; p_hasChecksum : bool }.
Record ColumnRange := mkColumn { columnId : Z; pages : list PageInfo }.
Definition column_units (cr : ColumnRange) : list MapUnit :=
  omap (fun p => if p_nbytes p =? 0 then None
                 else Some (mkUnit (p_offset p) (w32 (p_nbytes p + if p_hasChecksum p then 8 else 0)) (columnId cr))) (pages cr).
(** A page two columns point at is one page: the first of each offset is kept. *)
Fixpoint dedup (last : option Z) (l : list MapUnit) : list MapUnit :=
  match l with
  | [] => []
  | u :: l' => if match last with Some o => u_off u =? o | None => false end then dedup last l' else u :: dedup (Some (u_off u)) l'
  end.
Definition fromRNTuple (ranges : list ColumnRange) : ReadMap :=
  let us := concat (column_units <$> ranges) in
  let maxColumn := foldl (fun m u => Z.max m (u_group u)) 0 us in
  let us := dedup None (sortUnits us) in
  weighed true kRNTupleHead (match us with [] => 0 | _ => w32 (maxColumn + 1) end) us.

(** ** The branches a request touches *)
Definition asked_ivals (m : ReadMap) (ranges : list (Z * Z)) : list (Z * Z) :=
  omap (fun r : Z * Z => let '(o, n) := r in
    if (n =? 0) || (o +% n <? o) then None
    else let a := Z.max o (headSkip_ m) in let b := o +% n in if a <? b then Some (a, b) else None) ranges.
Definition merged (m : ReadMap) (ranges : list (Z * Z)) : list (Z * Z) := runs_of (asked_ivals m ranges).

(** [std::upper_bound] over the sorted offsets: how many start at or before [a]. *)
Fixpoint upper_bound_off (a : Z) (us : list MapUnit) : Z :=
  match us with u :: us' => if u_off u <=? a then 1 + upper_bound_off a us' else 0 | [] => 0 end.
(** From unit [k] on, while units start before [b]. *)
Fixpoint covers_from (k a b : Z) (us : list MapUnit) : list (Z * Z) :=
  match us with
  | [] => []
  | u :: us' =>
      if u_off u <? b then
        let ue := u_off u +% u_len u in
        (if a <? ue then [(k, Z.min b ue -% Z.max a (u_off u))] else []) ++ covers_from (k + 1) a b us'
      else []
  end.
Definition first_unit (a : Z) (us : list MapUnit) : Z := let k := upper_bound_off a us in if 0 <? k then k - 1 else k.
Definition covers (us : list MapUnit) (r : Z * Z) : list (Z * Z) :=
  let k := first_unit (fst r) us in covers_from k (fst r) (snd r) (drop (Z.to_nat k) us).

(** The bytes covered of each unit, from the sorted list of (unit, bytes). *)
Fixpoint sum_runs (k n : Z) (l : list (Z * Z)) : list (Z * Z) :=
  match l with
  | [] => [(k, n)]
  | (k', n') :: l' => if k' =? k then sum_runs k (n +% n') l' else (k, n) :: sum_runs k' n' l'
  end.
Definition unit_sums (l : list (Z * Z)) : list (Z * Z) := match l with [] => [] | (k, n) :: l' => sum_runs k n l' end.
Definition no_unit : MapUnit := mkUnit 0 0 0.
Definition unit_at (us : list MapUnit) (k : Z) : MapUnit := nth (Z.to_nat k) us no_unit.
Definition half_covered (us : list MapUnit) (kn : Z * Z) : option Z :=
  let u := unit_at us (fst kn) in if u_len u <=? 2 *% snd kn then Some (u_group u) else None.
(** [std::unique] of a sorted vector. *)
Fixpoint unique (l : list Z) : list Z :=
  match l with
  | x :: ((y :: _) as l') => if x =? y then unique l' else x :: unique l'
  | l => l
  end.
Definition groupsOf (m : ReadMap) (ranges : list (Z * Z)) : list Z :=
  if empty m then []
  else
    let us := units_ m in
    let covered := merge_sort span_le (concat (covers us <$> merged m ranges)) in
    unique (merge_sort Z.le (omap (half_covered us) (unit_sums covered))).

(** ** The share, and the decision *)
Record Share := mkShare { asked : Z; total : Z; groups : Z }.
Definition weigh (m : ReadMap) (gs : list Z) : Share :=
  foldl (fun s g => if g <? zlen (groupBytes_ m) then mkShare (asked s +% zget (groupBytes_ m) g) (total s) (w32 (groups s + 1)) else s)
    (mkShare 0 (total_ m) 0) gs.
Definition exceeds (s : Share) (limitPercent : Z) : bool := negb (total s =? 0) && (limitPercent *% total s <? asked s *% 100).

(** [std::set_union] of two ascending vectors. *)
Fixpoint set_union (l1 : list Z) : list Z -> list Z :=
  match l1 with
  | [] => fun l2 => l2
  | x :: l1' =>
      fix aux (l2 : list Z) : list Z :=
        match l2 with
        | [] => x :: l1'
        | y :: l2' => if x <? y then x :: set_union l1' l2 else if y <? x then y :: aux l2' else x :: set_union l1' l2'
        end
  end.
(** 1, 0 or -1; the branches seen so far, and the share they hold. *)
Definition step (m : ReadMap) (seen : list Z) (ranges : list (Z * Z)) (limitPercent : Z) : Z * list Z * Share :=
  let now := groupsOf m ranges in
  match now with
  | [] => (-1, seen, weigh m seen)
  | _ =>
      let all := set_union seen now in
      let grew := zlen seen <? zlen all in
      let out := weigh m all in
      (if exceeds out limitPercent then 1 else if (2 <=? zlen now) && negb grew then 0 else -1, all, out)
  end.

(** ** Extents *)
Fixpoint touches_from (a b : Z) (us : list MapUnit) : bool :=
  match us with
  | [] => false
  | u :: us' => if u_off u <? b then (if a <? u_off u +% u_len u then true else touches_from a b us') else false
  end.
Definition touches (m : ReadMap) (off len : Z) : bool :=
  if empty m || (len =? 0) then false
  else
    let a := Z.max off (headSkip_ m) in
    let b := off +% len in
    if b <=? a then false
    else
      touches_from a b (drop (Z.to_nat (first_unit a (units_ m))) (units_ m)).
Definition dataRuns (m : ReadMap) : list (Z * Z) :=
  rev (foldl (fun runs u =>
    let a := Z.max (u_off u) (headSkip_ m) in
    let b := u_off u +% u_len u in
    if b <=? a then runs else add_run runs (a, b)) [] (units_ m)).
Definition memoryBytes (m : ReadMap) : Z := zlen (units_ m) *% 16 +% zlen (groupBytes_ m) *% 8.
End ReadMap.
