(* ===== verification/ReadShare.v ===== *)
(** * The branches of a request, exactly (src/transpose/ReadMap.cc)

    [groupsOf] sorts, merges, searches and sums; the reference counts, for every unit, its
    bytes that some range asks for. They agree. Then the step: the branches accumulate,
    and the decision comes. *)

From stdpp Require Import sorting.
From S2P Require Import Prelude WireRead WireSpan Footprint TreeMeta ReadMap.

Module ReadShare.
Import Wire WireSpan ReadMap.

(** ** The reference *)
Definition asked_at (m : ReadMap) (ranges : list (Z * Z)) (x : Z) : bool :=
  (headSkip_ m <=? x) && existsb (fun r : Z * Z => (fst r <=? x) && (x <? fst r + snd r) && (fst r + snd r <? p64)) ranges.
Definition covered_bytes (m : ReadMap) (ranges : list (Z * Z)) (u : MapUnit) : Z :=
  zlen (List.filter (asked_at m ranges) (zrange (u_off u) (u_off u + u_len u))).

Definition before (u v : MapUnit) : Prop := u_off u + u_len u <= u_off v.
Record map_ok (m : ReadMap) : Prop := {
  ok_sorted : StronglySorted before (units_ m);
  ok_units : Forall (fun u => 0 <= u_off u /\ 0 < u_len u < p32 /\ u_off u + u_len u < p63 /\ 0 <= u_group u < zlen (groupBytes_ m)) (units_ m);
  ok_head : 0 <= headSkip_ m < p63 }.
Definition ranges_ok (ranges : list (Z * Z)) : Prop := Forall (fun r => is_u64 (fst r) /\ is_u64 (snd r)) ranges.

(** ** Points of the merged intervals *)
Definition inb (x : Z) (r : Z * Z) : bool := (fst r <=? x) && (x <? snd r).
Lemma add_run_points acc s e x : existsb (inb x) (add_run acc (s, e)) = true -> existsb (inb x) acc = true \/ inb x (s, e) = true.
Proof.
  unfold add_run. destruct acc as [|[s0 e0] acc]; cbn [existsb]; [rewrite orb_false_r; by right|].
  destruct (s <=? e0) eqn:E; cbn [existsb]; rewrite ?orb_true_iff; unfold inb; cbn [fst snd]; b2p.
  - intros [H|H]; [|left; by right]. b2p. destruct (Z.lt_ge_cases x e0); [left; left; lia|].
    destruct (Z.le_gt_cases s x); [right; lia|lia].
  - intros [H|[H|H]]; [by right|left; by left|left; by right].
Qed.
Lemma add_runs_points x : forall l acc, existsb (inb x) (foldl add_run acc l) = true -> existsb (inb x) acc = true \/ existsb (inb x) l = true.
Proof.
  induction l as [|[s e] l IH]; intros acc; cbn [foldl existsb]; [by left|]. intros [H|H]%IH; [|right; by rewrite H, orb_true_r].
  apply add_run_points in H as [H|H]; [by left|right; by rewrite H].
Qed.
Lemma runs_points l x : existsb (inb x) (runs_of l) = true -> existsb (inb x) l = true.
Proof.
  unfold runs_of. rewrite existsb_exists. intros (r & Hr & Hx). apply in_rev in Hr.
  assert (existsb (inb x) (foldl add_run [] (merge_sort span_le l)) = true) as H by (apply existsb_exists; by exists r).
  apply add_runs_points in H as [H|H]; [done|]. apply existsb_exists in H as (r' & Hr' & Hx'). apply existsb_exists. exists r'. split; [|done].
  apply list_elem_of_In. apply list_elem_of_In in Hr'. by rewrite (merge_sort_Permutation span_le l) in Hr'.
Qed.

(** A branch is read when at least half of one of its units is asked for. *)
Definition half_asked (m : ReadMap) (ranges : list (Z * Z)) (g : Z) : Prop :=
  exists u, u ∈ units_ m /\ u_group u = g /\ u_len u <= 2 * covered_bytes m ranges u.

Section map.
Context (m : ReadMap) (ranges : list (Z * Z)).
Hypotheses (Hm : map_ok m) (Hr : ranges_ok ranges).

Lemma asked_ivals_ok : Forall (fun iv => 0 <= fst iv < snd iv /\ snd iv <= p64) (asked_ivals m ranges).
Proof using Hm Hr.
  apply Forall_forall. intros [a b] Hin. apply list_elem_of_omap in Hin as ([o n] & Hin & E). unfold ranges_ok in Hr. rewrite Forall_forall in Hr.
  destruct (Hr _ Hin) as [Ho Hn]. cbn [fst snd] in *. destruct (_ || _)%bool eqn:E1; [done|]. b2p. destruct (Z.max o (headSkip_ m) <? o +% n) eqn:E2; [|done].
  injection E as <- <-. b2p. pose proof (w64_range (o + n)). unfold is_u64 in *. lia.
Qed.
Lemma asked_ivals_points x : existsb (inb x) (asked_ivals m ranges) = asked_at m ranges x.
Proof using Hr.
  unfold asked_at. apply Bool.eq_true_iff_eq. rewrite andb_true_iff, !existsb_exists. unfold ranges_ok in Hr. rewrite Forall_forall in Hr. split.
  - intros ([a b] & Hin & Hx). apply list_elem_of_In, list_elem_of_omap in Hin as ([o n] & Hin & E). destruct (Hr _ Hin) as [Ho Hn]. unfold is_u64 in *. cbn [fst snd] in *.
    destruct (_ || _)%bool eqn:E1; [done|]. b2p. destruct (Z.max o (headSkip_ m) <? o +% n) eqn:E2; [|done]. injection E as <- <-. unfold inb in Hx. cbn [fst snd] in Hx. b2p.
    assert (o +% n = o + n) as En by (apply w64_add_no_wrap; lia). pose proof (w64_range (o + n)). rewrite En in *. split; [lia|]. exists (o, n). split; [by apply list_elem_of_In|]. cbn [fst snd].
    rewrite !andb_true_iff, Z.leb_le, !Z.ltb_lt. lia.
  - intros [Hh ([o n] & Hin & Hx)]. cbn [fst snd] in Hx. b2p. apply list_elem_of_In in Hin. destruct (Hr _ Hin) as [Ho Hn]. unfold is_u64 in *. cbn [fst snd] in *.
    exists (Z.max o (headSkip_ m), o + n). split; [|unfold inb; cbn [fst snd]; rewrite andb_true_iff, Z.leb_le, Z.ltb_lt; lia].
    apply list_elem_of_In, list_elem_of_omap. exists (o, n). split; [done|]. rewrite w64_small by lia.
    rewrite (proj2 (Z.eqb_neq n 0)), (proj2 (Z.ltb_ge (o + n) o)) by lia. cbn [orb]. by rewrite (proj2 (Z.ltb_lt _ _)) by lia.
Qed.
Lemma merged_points x : existsb (inb x) (merged m ranges) = asked_at m ranges x.
Proof using Hm Hr.
  rewrite <- asked_ivals_points. apply Bool.eq_true_iff_eq. split; [apply runs_points|]. intros H. apply existsb_exists in H as (r & Hin & Hx).
  destruct (runs_of_spec p64 _ asked_ivals_ok) as [_ C]. apply list_elem_of_In in Hin. destruct (C r Hin) as (r' & Hr' & [I1 I2]).
  apply existsb_exists. exists r'. split; [by apply list_elem_of_In|]. unfold inb in *. b2p. rewrite andb_true_iff, Z.leb_le, Z.ltb_lt. lia.
Qed.
Lemma merged_ascending : ascending 0 p64 (merged m ranges).
Proof using Hm Hr. apply runs_of_spec, asked_ivals_ok. Qed.
End map.

(** ** Counting points *)
Definition ov (u : MapUnit) (r : Z * Z) : Z := Z.min (snd r) (u_off u + u_len u) - Z.max (fst r) (u_off u).
Lemma count_interval a b lo (n : nat) : zlen (List.filter (fun x => (a <=? x) && (x <? b)) (zrange lo (lo + Z.of_nat n))) =
  Z.max 0 (Z.min b (lo + Z.of_nat n) - Z.max a lo).
Proof.
  induction n as [|n IH].
  - rewrite zrange_nil by lia. unfold zlen. cbn [List.filter length]. lia.
  - rewrite Nat2Z.inj_succ. unfold Z.succ. rewrite Z.add_assoc, zrange_snoc by lia. rewrite List.filter_app, zlen_app, IH. cbn [List.filter].
    destruct ((a <=? lo + Z.of_nat n) && (lo + Z.of_nat n <? b)) eqn:E; unfold zlen; cbn [length]; b2p; [lia|]. apply andb_false_iff in E as [E|E]; b2p; lia.
Qed.
Lemma ascending_above : forall l s top x, ascending s top l -> existsb (inb x) l = true -> s <= x.
Proof.
  induction l as [|[a b] l IH]; intros s top x Ha Hx; [done|]. destruct Ha as (H1 & _ & H3). cbn [existsb] in Hx. apply orb_true_iff in Hx as [Hx|Hx].
  - unfold inb in Hx. cbn [fst snd] in Hx. b2p. lia.
  - specialize (IH _ _ _ H3 Hx). lia.
Qed.
Lemma count_split (f g : Z -> bool) q : (forall x, f x = true -> g x = true -> False) ->
  zlen (List.filter (fun x => f x || g x) q) = zlen (List.filter f q) + zlen (List.filter g q).
Proof.
  intros D. induction q as [|x q IH]; [done|]. cbn [List.filter]. specialize (D x).
  destruct (f x), (g x); cbn [orb]; rewrite ?zlen_cons, ?IH; try lia.
Qed.
Definition over_runs (lo hi : Z) (l : list (Z * Z)) : Z := foldr (fun r n => Z.max 0 (Z.min (snd r) hi - Z.max (fst r) lo) + n) 0 l.
Lemma count_runs lo hi top : forall l s, ascending s top l -> lo <= hi ->
  zlen (List.filter (fun x => existsb (inb x) l) (zrange lo hi)) = over_runs lo hi l.
Proof.
  induction l as [|[a b] l IH]; intros s Ha Hlo; cbn [existsb over_runs foldr].
  { assert (forall q, List.filter (fun _ : Z => false) q = []) as ->; [|done]. intros q. by induction q. }
  destruct Ha as (H1 & H2 & H3). fold (over_runs lo hi l). rewrite <- (IH _ H3 Hlo). cbn [fst snd].
  pose proof (count_interval a b lo (Z.to_nat (hi - lo))) as C. replace (lo + Z.of_nat (Z.to_nat (hi - lo))) with hi in C by lia. rewrite <- C.
  apply (count_split (fun x => (a <=? x) && (x <? b)) (fun x => existsb (inb x) l)).
  intros x Hx Hl. pose proof (ascending_above _ _ _ _ H3 Hl). b2p. lia.
Qed.

(** ** Sums by key *)
Definition wsum (k : Z) (l : list (Z * Z)) : Z := foldr (fun e n => if fst e =? k then snd e + n else n) 0 l.
Lemma wsum_app k l1 l2 : wsum k (l1 ++ l2) = wsum k l1 + wsum k l2.
Proof. induction l1 as [|e l1 IH]; [done|]. cbn [app wsum foldr]. fold (wsum k (l1 ++ l2)) (wsum k l1). rewrite IH. case_match; lia. Qed.
Lemma wsum_perm k l1 l2 : l1 ≡ₚ l2 -> wsum k l1 = wsum k l2.
Proof. induction 1; cbn [wsum foldr] in *; unfold wsum in *; repeat case_match; lia. Qed.
Definition kv_ok (e : Z * Z) : Prop := 0 < snd e.
Lemma wsum_nonneg k l : Forall kv_ok l -> 0 <= wsum k l.
Proof. induction 1 as [|e l He _ IH]; [done|]. unfold kv_ok in He. cbn [wsum foldr]. fold (wsum k l). case_match; lia. Qed.
Lemma wsum_key k l : Forall kv_ok l -> 0 < wsum k l <-> k ∈ fst <$> l.
Proof.
  induction 1 as [|e l He Hl IH]; [split; [done|by intros ?%elem_of_nil]|]. pose proof (wsum_nonneg k l Hl) as G. unfold kv_ok in He.
  change (fst <$> e :: l) with (fst e :: (fst <$> l)). rewrite elem_of_cons, <- IH. cbn [wsum foldr]. fold (wsum k l). destruct (fst e =? k) eqn:E; b2p; [|intuition lia].
  split; [by left|lia].
Qed.
Lemma wsum_above k l : Forall (fun e => k < fst e) l -> wsum k l = 0.
Proof. induction 1 as [|e l He _ IH]; [done|]. cbn [wsum foldr]. fold (wsum k l). rewrite (proj2 (Z.eqb_neq _ _)) by lia. done. Qed.

(** The loop over the sorted pairs yields every key once, with its sum. *)
Lemma sum_runs_spec : forall l k n, StronglySorted span_le l -> Forall kv_ok l -> Forall (fun e => k <= fst e) l -> 0 <= n ->
  (forall j, (if j =? k then n else 0) + wsum j l < p64) ->
  forall j v, (j, v) ∈ sum_runs k n l <-> (j = k \/ j ∈ fst <$> l) /\ v = (if j =? k then n else 0) + wsum j l.
Proof.
  induction l as [|[k' n'] l IH]; intros k n Hs Hp Hk Hn Hw j v; cbn [sum_runs].
  { rewrite list_elem_of_singleton. cbn [wsum foldr fmap list_fmap]. split; [intros [= -> ->]; rewrite Z.eqb_refl; split; [by left|lia]|].
    intros [[->|[]%elem_of_nil] ->]. by rewrite Z.eqb_refl, Z.add_0_r. }
  apply StronglySorted_inv in Hs as [Hs Hle]. inversion Hp as [|? ? Hn' Hp']; subst. inversion Hk as [|? ? Hk' Hk'']; subst. unfold kv_ok in Hn'. cbn [fst snd] in *.
  assert (Forall (fun e => k' <= fst e) l) as Hge by (eapply Forall_impl; [exact Hle|]; intros [a b]; unfold span_le; cbn [fst snd]; lia).
  change (fst <$> (k', n') :: l) with (k' :: (fst <$> l)). rewrite elem_of_cons.
  assert (forall j, wsum j ((k', n') :: l) = (if j =? k' then n' else 0) + wsum j l) as W.
  { intros q. cbn [wsum foldr fst snd]. fold (wsum q l). rewrite (Z.eqb_sym k' q). by case_match. }
  setoid_rewrite W in Hw. rewrite W. destruct (k' =? k) eqn:E; b2p.
  - subst k'. pose proof (Hw k) as Hwk. rewrite Z.eqb_refl in Hwk. pose proof (wsum_nonneg k l Hp') as G. rewrite w64_small by lia.
    rewrite IH by (done || lia || (intros q; specialize (Hw q); destruct (q =? k); lia)). destruct (j =? k); intuition lia.
  - rewrite elem_of_cons, IH by (done || lia || (intros q; specialize (Hw q); destruct (q =? k); destruct (q =? k'); lia)).
    assert (wsum k l = 0) as Wk by (apply wsum_above; eapply Forall_impl; [exact Hge|]; cbn; lia).
    split.
    + intros [[= -> ->]|[[->|H] ->]].
      * rewrite Z.eqb_refl, (proj2 (Z.eqb_neq k k')), Wk by lia. split; [by left|lia].
      * rewrite (proj2 (Z.eqb_neq k' k)) by lia. split; [right; by left|lia].
      * assert (j <> k) as Hj by (intros ->; apply list_elem_of_fmap in H as (e & -> & He); rewrite Forall_forall in Hge; specialize (Hge _ He); lia).
        rewrite (proj2 (Z.eqb_neq j k)) by done. split; [right; by right|lia].
    + intros [[->|[->|H]] ->].
      * left. rewrite Z.eqb_refl, (proj2 (Z.eqb_neq k k')), Wk by lia. f_equal. lia.
      * right. rewrite (proj2 (Z.eqb_neq k' k)) by lia. split; [by left|lia].
      * right. assert (j <> k) as Hj by (intros ->; apply list_elem_of_fmap in H as (e & -> & He); rewrite Forall_forall in Hge; specialize (Hge _ He); lia).
        rewrite (proj2 (Z.eqb_neq j k)) by done. split; [by right|lia].
Qed.
Lemma unit_sums_spec l : StronglySorted span_le l -> Forall kv_ok l -> (forall j, wsum j l < p64) ->
  forall j v, (j, v) ∈ unit_sums l <-> v = wsum j l /\ 0 < v.
Proof.
  intros Hs Hp Hw j v. destruct l as [|[k n] l]; cbn [unit_sums].
  { cbn [wsum foldr]. split; [by intros ?%elem_of_nil|lia]. }
  pose proof (wsum_key j _ Hp) as K. apply StronglySorted_inv in Hs as [Hs Hle]. inversion Hp as [|? ? Hn Hp']; subst. unfold kv_ok in Hn. cbn [fst snd] in *.
  assert (forall q, wsum q ((k, n) :: l) = (if q =? k then n else 0) + wsum q l) as W.
  { intros q. cbn [wsum foldr fst snd]. fold (wsum q l). rewrite (Z.eqb_sym k q). by case_match. }
  rewrite sum_runs_spec; [|done|done| |lia|].
  - rewrite <- W. change (fst <$> (k, n) :: l) with (k :: (fst <$> l)) in K. rewrite elem_of_cons in K. rewrite <- K. intuition lia.
  - eapply Forall_impl; [exact Hle|]. intros [a b]. unfold span_le. cbn [fst snd]. lia.
  - intros q. by rewrite <- W.
Qed.

(** ** The units one run covers *)
Definition unit_ok (u : MapUnit) : Prop := 0 <= u_off u /\ 0 < u_len u < p32 /\ u_off u + u_len u < p63.
Definition piece (us : list MapUnit) (r : Z * Z) (j : Z) : Z := if (0 <=? j) && (j <? zlen us) then Z.max 0 (ov (unit_at us j) r) else 0.
Lemma unit_at_cons u us j : 0 < j -> unit_at (u :: us) j = unit_at us (j - 1).
Proof. intros H. unfold unit_at. replace (Z.to_nat j) with (S (Z.to_nat (j - 1))) by lia. done. Qed.
Lemma piece_cons u us r j : piece (u :: us) r j = (if j =? 0 then Z.max 0 (ov u r) else piece us r (j - 1)).
Proof.
  unfold piece. rewrite zlen_cons. pose proof (zlen_nonneg us). destruct (j =? 0) eqn:E; b2p; [subst j; by rewrite (proj2 (Z.ltb_lt 0 _)) by lia|].
  destruct ((0 <=? j - 1) && (j - 1 <? zlen us)) eqn:E'.
  - b2p. rewrite (proj2 (Z.leb_le 0 j)), (proj2 (Z.ltb_lt j _)), unit_at_cons by lia. done.
  - destruct ((0 <=? j) && (j <? 1 + zlen us)) eqn:E''; [|done]. b2p. apply andb_false_iff in E'. rewrite Z.leb_gt, Z.ltb_ge in E'. lia.
Qed.
Lemma piece_late us r j : Forall (fun v => snd r <= u_off v) us -> piece us r j = 0.
Proof.
  intros H. unfold piece. destruct (_ && _) eqn:E; [|done]. b2p. rewrite Forall_forall in H.
  assert (snd r <= u_off (unit_at us j)) as G by (apply H, list_elem_of_In, nth_In; unfold zlen in *; lia). unfold ov. lia.
Qed.
Lemma covers_from_spec a b : 0 <= a < b -> b <= p64 -> forall us k, StronglySorted before us -> Forall unit_ok us ->
  Forall kv_ok (covers_from k a b us) /\ forall j, wsum j (covers_from k a b us) = piece us (a, b) (j - k).
Proof.
  intros Ha Hb. induction us as [|u us IH]; intros k Hs Hu; cbn [covers_from].
  { split; [by constructor|]. intros j. unfold piece. cbn [wsum foldr]. change (zlen (@nil MapUnit)) with 0. destruct (_ && _) eqn:E; [|done]. b2p. lia. }
  apply StronglySorted_inv in Hs as [Hs Hlt]. inversion Hu as [|? ? (U1 & U2 & U3) Hu']; subst. destruct (u_off u <? b) eqn:Eb; b2p.
  - destruct (IH (k + 1) Hs Hu') as [P W]. rewrite (w64_small (u_off u + u_len u)) by lia. destruct (a <? u_off u + u_len u) eqn:Ea; b2p; cbn [app].
    + rewrite w64_small by lia. split; [constructor; [unfold kv_ok; cbn [snd]; lia|done]|]. intros j. rewrite piece_cons. cbn [wsum foldr fst snd]. fold (wsum j (covers_from (k + 1) a b us)).
      rewrite W. destruct (k =? j) eqn:E; b2p.
      * subst j. rewrite Z.sub_diag, Z.eqb_refl. unfold ov. cbn [fst snd]. unfold piece at 1. rewrite (proj2 (Z.leb_gt 0 _)) by lia. cbn [andb]. lia.
      * rewrite (proj2 (Z.eqb_neq _ _)) by lia. f_equal. lia.
    + split; [done|]. intros j. rewrite piece_cons, W. destruct (j - k =? 0) eqn:E; b2p; [|f_equal; lia].
      unfold ov. cbn [fst snd]. unfold piece. rewrite (proj2 (Z.leb_gt 0 _)) by lia. cbn [andb]. lia.
  - split; [by constructor|]. intros j. rewrite piece_late; [done|]. constructor; [done|]. cbn [snd]. eapply Forall_impl; [exact Hlt|]. unfold before. intros v. lia.
Qed.

(** The search starts at the last unit that begins at or before the run. *)
Lemma first_unit_spec a : forall us, StronglySorted before us -> Forall unit_ok us ->
  0 <= first_unit a us <= zlen us /\ Forall (fun v => u_off v + u_len v <= a) (take (Z.to_nat (first_unit a us)) us).
Proof.
  assert (forall us, StronglySorted before us -> 0 <= upper_bound_off a us <= zlen us /\ Forall (fun v => u_off v <= a) (take (Z.to_nat (upper_bound_off a us)) us)) as U.
  { induction us as [|u us IH]; intros Hs; cbn [upper_bound_off]; [done|]. apply StronglySorted_inv in Hs as [Hs Hlt]. rewrite zlen_cons. destruct (IH Hs) as [B F].
    destruct (u_off u <=? a) eqn:E; b2p; [|split; [lia|by constructor]]. split; [lia|]. rewrite Z2Nat.inj_add by lia. change (Z.to_nat 1) with 1%nat. cbn [Nat.add take]. by constructor. }
  intros us Hs Hu. destruct (U us Hs) as [B F]. unfold first_unit. destruct (0 <? upper_bound_off a us) eqn:E; b2p.
  - split; [lia|]. set (n := Z.to_nat (upper_bound_off a us - 1)). replace (Z.to_nat (upper_bound_off a us)) with (S n) in F by lia.
    destruct (lookup_lt_is_Some_2 us n) as [v Hv]; [unfold zlen in *; lia|]. rewrite (take_S_r _ _ _ Hv), Forall_app, Forall_singleton in F. destruct F as [_ Fv].
    pose proof Hs as Hs'. rewrite <- (take_drop n us), (drop_S _ _ _ Hv) in Hs'. apply Forall_forall. intros w Hw.
    apply StronglySorted_app_1_elem_of with (x1 := w) (x2 := v) in Hs'; [unfold before in Hs'; lia|done|apply list_elem_of_here].
  - split; [lia|]. replace (upper_bound_off a us) with 0 by lia. by constructor.
Qed.
Lemma piece_drop us r n j : 0 <= n <= zlen us -> Forall (fun v => u_off v + u_len v <= fst r) (take (Z.to_nat n) us) -> piece (drop (Z.to_nat n) us) r (j - n) = piece us r j.
Proof.
  intros Hn Hf. unfold piece. rewrite zlen_drop by done. destruct (decide (n <= j)) as [L|L].
  - rewrite (proj2 (Z.leb_le 0 (j - n))), (proj2 (Z.leb_le 0 j)) by lia. cbn [andb]. assert ((j - n <? zlen us - n) = (j <? zlen us)) as -> by (apply Bool.eq_true_iff_eq; rewrite !Z.ltb_lt; lia).
    unfold unit_at. rewrite !nth_lookup, lookup_drop. by replace (Z.to_nat n + Z.to_nat (j - n))%nat with (Z.to_nat j) by lia.
  - rewrite (proj2 (Z.leb_gt 0 (j - n))) by lia. cbn [andb]. destruct (_ && _) eqn:E; [|done]. b2p. rewrite Forall_forall in Hf.
    assert (unit_at us j ∈ take (Z.to_nat n) us) as Hin.
    { unfold unit_at. rewrite nth_lookup. destruct (lookup_lt_is_Some_2 us (Z.to_nat j)) as [v Hv]; [unfold zlen in *; lia|]. rewrite Hv. cbn [default from_option id].
      apply list_elem_of_lookup. exists (Z.to_nat j). rewrite lookup_take_lt; [done|lia]. }
    specialize (Hf _ Hin). unfold ov. lia.
Qed.
Lemma covers_spec us a b : 0 <= a < b -> b <= p64 -> StronglySorted before us -> Forall unit_ok us ->
  Forall kv_ok (covers us (a, b)) /\ forall j, wsum j (covers us (a, b)) = piece us (a, b) j.
Proof.
  intros Ha Hb Hs Hu. unfold covers. cbn [fst snd]. destruct (first_unit_spec a us Hs Hu) as [B F]. set (n := first_unit a us) in *.
  destruct (covers_from_spec a b Ha Hb (drop (Z.to_nat n) us) n) as [P W].
  { rewrite <- (take_drop (Z.to_nat n) us) in Hs. by eapply StronglySorted_app_1_r. }
  { by apply Forall_drop. }
  split; [done|]. intros j. rewrite W. by apply (piece_drop us (a, b)).
Qed.

(** ** The branches *)
Lemma unique_spec : forall l, StronglySorted Z.le l -> StronglySorted Z.lt (unique l) /\ forall x, x ∈ unique l <-> x ∈ l.
Proof.
  induction l as [|x l IH]; intros Hs; [split; [constructor|done]|]. apply StronglySorted_inv in Hs as [Hs Hle]. destruct (IH Hs) as [S M].
  destruct l as [|y l]; [split; [by repeat constructor|done]|]. change (unique (x :: y :: l)) with (if x =? y then unique (y :: l) else x :: unique (y :: l)).
  destruct (x =? y) eqn:E; b2p.
  - subst y. split; [done|]. intros z. rewrite M, !elem_of_cons. intuition.
  - split; [|intros z; rewrite !(elem_of_cons _ z x), M; done]. constructor; [done|]. apply Forall_forall. intros z Hz. apply M in Hz.
    rewrite Forall_forall in Hle. pose proof (Hle y ltac:(apply list_elem_of_here)). specialize (Hle z Hz).
    apply elem_of_cons in Hz as [->|Hz]; [lia|]. apply StronglySorted_inv in Hs as [_ Hy]. rewrite Forall_forall in Hy. specialize (Hy z Hz). lia.
Qed.
Lemma concat_covers us rs : StronglySorted before us -> Forall unit_ok us -> forall s, 0 <= s -> ascending s p64 rs ->
  Forall kv_ok (concat (covers us <$> rs)) /\
  forall j, wsum j (concat (covers us <$> rs)) = if (0 <=? j) && (j <? zlen us) then over_runs (u_off (unit_at us j)) (u_off (unit_at us j) + u_len (unit_at us j)) rs else 0.
Proof.
  intros Hs Hu. induction rs as [|[a b] rs IH]; intros s Hp Ha.
  { split; [by constructor|]. intros j. cbn. by case_match. }
  destruct Ha as (H1 & H2 & H3). destruct (IH (b + 1) ltac:(lia) H3) as [P W]. destruct (covers_spec us a b ltac:(lia) H2 Hs Hu) as [P' W'].
  change (concat (covers us <$> (a, b) :: rs)) with (covers us (a, b) ++ concat (covers us <$> rs)). split; [by apply Forall_app|].
  intros j. rewrite wsum_app, W, W'. unfold piece. destruct (_ && _); [|done]. done.
Qed.
Lemma filter_le {A} (f : A -> bool) l : zlen (List.filter f l) <= zlen l.
Proof. induction l as [|x l IH]; [done|]. cbn [List.filter]. rewrite zlen_cons. case_match; rewrite ?zlen_cons; lia. Qed.

Section exact.
Context (m : ReadMap) (ranges : list (Z * Z)).
Hypotheses (Hm : map_ok m) (Hr : ranges_ok ranges).
Lemma units_fit : Forall unit_ok (units_ m).
Proof using Hm. eapply Forall_impl; [apply (ok_units m Hm)|]. unfold unit_ok. cbn. intros u. lia. Qed.
Lemma unit_in j : 0 <= j < zlen (units_ m) -> unit_at (units_ m) j ∈ units_ m.
Proof using. intros H. apply list_elem_of_In, nth_In. unfold zlen in *. lia. Qed.
Lemma covered_le u : u ∈ units_ m -> 0 <= covered_bytes m ranges u <= u_len u.
Proof using Hm.
  intros Hu. pose proof units_fit as F. rewrite Forall_forall in F. destruct (F u Hu) as (U1 & U2 & U3). unfold covered_bytes. split; [apply zlen_nonneg|].
  etransitivity; [apply filter_le|]. rewrite zlen_zrange by lia. lia.
Qed.
Lemma wsum_covered j : wsum j (concat (covers (units_ m) <$> merged m ranges)) =
  if (0 <=? j) && (j <? zlen (units_ m)) then covered_bytes m ranges (unit_at (units_ m) j) else 0.
Proof using Hm Hr.
  pose proof (merged_ascending m ranges Hm Hr) as A. destruct (concat_covers (units_ m) (merged m ranges) (ok_sorted m Hm) units_fit 0 ltac:(lia) A) as [_ W].
  rewrite W. destruct (_ && _) eqn:E; [|done]. b2p. pose proof units_fit as F. rewrite Forall_forall in F. destruct (F _ (unit_in j ltac:(lia))) as (U1 & U2 & U3).
  unfold covered_bytes. rewrite <- (count_runs _ _ p64 _ 0) by (done || lia). f_equal. apply filter_ext. intros x. apply (merged_points m ranges Hm Hr).
Qed.
Lemma sums_covered j v : (j, v) ∈ unit_sums (merge_sort span_le (concat (covers (units_ m) <$> merged m ranges))) <->
  0 <= j < zlen (units_ m) /\ v = covered_bytes m ranges (unit_at (units_ m) j) /\ 0 < v.
Proof using Hm Hr.
  pose proof (merged_ascending m ranges Hm Hr) as A. destruct (concat_covers (units_ m) (merged m ranges) (ok_sorted m Hm) units_fit 0 ltac:(lia) A) as [P _].
  set (l := concat _) in *. pose proof (merge_sort_Permutation span_le l) as Pm. assert (forall q, wsum q (merge_sort span_le l) = wsum q l) as W by (intros q; by apply wsum_perm).
  rewrite unit_sums_spec; [|apply StronglySorted_merge_sort; apply _|by rewrite Pm|].
  - rewrite W. subst l. rewrite wsum_covered. destruct (_ && _) eqn:E; b2p; [intuition lia|]. apply andb_false_iff in E. rewrite Z.leb_gt, Z.ltb_ge in E. intuition lia.
  - intros q. rewrite W. subst l. rewrite wsum_covered. destruct (_ && _) eqn:E; b2p; [|lia].
    pose proof (covered_le _ (unit_in q ltac:(lia))). pose proof units_fit as F. rewrite Forall_forall in F. destruct (F _ (unit_in q ltac:(lia))) as (U1 & U2 & U3). lia.
Qed.

Lemma groups_spec : StronglySorted Z.lt (groupsOf m ranges) /\ forall g, g ∈ groupsOf m ranges <-> half_asked m ranges g.
Proof using Hm Hr.
  unfold groupsOf. destruct (empty m) eqn:Ee.
  { unfold empty in Ee. destruct (units_ m) eqn:Eu; [|done]. split; [constructor|]. intros g. split; [by intros ?%elem_of_nil|intros (u & Hu & _); rewrite Eu in Hu; by apply elem_of_nil in Hu]. }
  destruct (unique_spec _ (StronglySorted_merge_sort Z.le (omap (half_covered (units_ m)) (unit_sums (merge_sort span_le (concat (covers (units_ m) <$> merged m ranges))))))) as [S M].
  split; [done|]. intros g. rewrite M, (merge_sort_Permutation Z.le), list_elem_of_omap. pose proof units_fit as F. rewrite Forall_forall in F.
  assert (forall j, 0 <= j < zlen (units_ m) -> 2 *% covered_bytes m ranges (unit_at (units_ m) j) = 2 * covered_bytes m ranges (unit_at (units_ m) j)) as NW.
  { intros j Hj. pose proof (covered_le _ (unit_in j Hj)). destruct (F _ (unit_in j Hj)) as (U1 & U2 & U3). apply w64_small. lia. }
  split.
  - intros ([j v] & Hin & Hh). apply sums_covered in Hin as (Hj & -> & Hv). unfold half_covered in Hh. cbn [fst snd] in Hh. rewrite (NW j Hj) in Hh.
    destruct (_ <=? _) eqn:E; [|done]. b2p. injection Hh as <-. exists (unit_at (units_ m) j). split; [by apply unit_in|]. split; [done|lia].
  - intros (u & Hu & <- & Hc). destruct (list_elem_of_lookup_1 _ _ Hu) as [i Hi]. pose proof (lookup_lt_Some _ _ _ Hi) as Li. exists (Z.of_nat i, covered_bytes m ranges u).
    assert (unit_at (units_ m) (Z.of_nat i) = u) as Eu by (unfold unit_at; by rewrite Nat2Z.id, nth_lookup, Hi). destruct (F u Hu) as (U1 & U2 & U3).
    assert (0 <= Z.of_nat i < zlen (units_ m)) as Hj by (unfold zlen; lia). split.
    + apply sums_covered. rewrite Eu. split; [done|]. split; [done|lia].
    + unfold half_covered. cbn [fst snd]. pose proof (NW _ Hj) as N. rewrite Eu in *. rewrite N. by rewrite (proj2 (Z.leb_le _ _)) by lia.
Qed.
Lemma groups_in_range : Forall (fun g => 0 <= g < zlen (groupBytes_ m)) (groupsOf m ranges).
Proof using Hm Hr.
  apply Forall_forall. intros g Hg. destruct groups_spec as [_ M]. apply M in Hg as (u & Hu & <- & _).
  pose proof (ok_units m Hm) as F. rewrite Forall_forall in F. apply (F u Hu).
Qed.
(** the branches of a request are those a byte count finds. Whatever the ranges are
    (unordered, overlapping, repeated, split, empty, past the end of the numbers),
    [groupsOf] lists, ascending and each once, exactly the branches with a unit at least
    half of whose bytes some range asks for, not counting an RNTuple's first 128 KiB. *)
Theorem groups_exact : StronglySorted Z.lt (groupsOf m ranges) /\
  forall g, g ∈ groupsOf m ranges <-> exists u, u ∈ units_ m /\ u_group u = g /\ u_len u <= 2 * covered_bytes m ranges u.
Proof using Hm Hr. apply groups_spec. Qed.
End exact.

(** A file of two branches whose second basket was asked for in two pieces, out of order,
    the second time twice; the first basket by less than half. *)
Definition demo_map : ReadMap := mkMap false 0 [mkUnit 100 50 0; mkUnit 150 60 1; mkUnit 300 10 0] [60; 60] 120.
Definition demo_ranges : list (Z * Z) := [(180, 10); (120, 40); (180, 10); (5, 0)].
Lemma demo_map_ok : map_ok demo_map.
Proof. split; [repeat constructor; unfold before; cbn; lia|repeat constructor; cbn; lia|cbn; lia]. Qed.
Lemma demo_ranges_ok : ranges_ok demo_ranges.
Proof. unfold ranges_ok, demo_ranges. repeat constructor; cbn; unfold is_u64; lia. Qed.
Lemma groups_exact_witness : groupsOf demo_map demo_ranges = [0] /\
  (forall g, g ∈ groupsOf demo_map demo_ranges <-> exists u, u ∈ units_ demo_map /\ u_group u = g /\ u_len u <= 2 * covered_bytes demo_map demo_ranges u) .
Proof. split; [vm_compute; reflexivity|]. apply (groups_exact demo_map demo_ranges demo_map_ok demo_ranges_ok). Defined.
End ReadShare.
