(* ===== verification/ReadStep.v ===== *)
(** * The share a reader asks for, and the decision (src/transpose/ReadMap.cc)

    What [weigh] sums, what one [step] does on every branch, and that the maps built from a
    file's metadata are well formed. *)

From stdpp Require Import sorting.
From S2P Require Import Prelude WireRead WireSpan Footprint TreeMeta ReadMap ReadShare.

Module ReadStep.
Import Wire WireSpan ReadMap ReadShare.

(** ** The reference: bytes of the units whose branch [f] selects *)
Definition bytes_in (f : Z -> bool) (us : list MapUnit) : Z := foldr (fun u n => if f (u_group u) then u_len u + n else n) 0 us.
Definition among (gs : list Z) (g : Z) : bool := existsb (Z.eqb g) gs.
Record share_ok (m : ReadMap) : Prop := {
  sh_groups : forall g, 0 <= g < zlen (groupBytes_ m) -> zget (groupBytes_ m) g = bytes_in (Z.eqb g) (units_ m);
  sh_total : total_ m = bytes_in (fun _ => true) (units_ m);
  sh_fits : 100 * bytes_in (fun _ => true) (units_ m) < p64;
  sh_count : zlen (groupBytes_ m) < p32 }.
Definition seen_ok (m : ReadMap) (seen : list Z) : Prop := StronglySorted Z.lt seen /\ Forall (fun g => 0 <= g < zlen (groupBytes_ m)) seen.

Lemma among_in gs g : among gs g = true <-> g ∈ gs.
Proof. unfold among. rewrite existsb_exists, list_elem_of_In. split; [intros (x & H & ->%Z.eqb_eq); done|intros H; exists g; split; [done|apply Z.eqb_refl]]. Qed.
Lemma bytes_in_ext f g us : (forall x, f x = g x) -> bytes_in f us = bytes_in g us.
Proof. intros E. induction us as [|u us IH]; [done|]. cbn [bytes_in foldr]. fold (bytes_in f us) (bytes_in g us). by rewrite E, IH. Qed.
Lemma bytes_in_or f g us : (forall x, f x = true -> g x = true -> False) -> bytes_in (fun x => f x || g x) us = bytes_in f us + bytes_in g us.
Proof.
  intros D. induction us as [|u us IH]; [done|]. cbn [bytes_in foldr]. fold (bytes_in (fun x => f x || g x) us) (bytes_in f us) (bytes_in g us). rewrite IH.
  specialize (D (u_group u)). destruct (f _), (g _); cbn [orb]; lia.
Qed.
Lemma bytes_in_nonneg f us : Forall (fun u => 0 <= u_len u) us -> 0 <= bytes_in f us.
Proof. induction 1 as [|u us Hu _ IH]; [done|]. cbn [bytes_in foldr]. fold (bytes_in f us). case_match; lia. Qed.
Lemma bytes_in_le f us : Forall (fun u => 0 <= u_len u) us -> bytes_in f us <= bytes_in (fun _ => true) us.
Proof. induction 1 as [|u us Hu _ IH]; [done|]. cbn [bytes_in foldr]. fold (bytes_in f us) (bytes_in (fun _ => true) us). case_match; lia. Qed.
Lemma bytes_in_perm f us vs : us ≡ₚ vs -> bytes_in f us = bytes_in f vs.
Proof. induction 1; unfold bytes_in in *; cbn [foldr] in *; repeat case_match; lia. Qed.

(** ** The union of two ascending vectors *)
Lemma set_union_cons x l1 y l2 : set_union (x :: l1) (y :: l2) =
  if x <? y then x :: set_union l1 (y :: l2) else if y <? x then y :: set_union (x :: l1) l2 else x :: set_union l1 l2.
Proof. done. Qed.
Lemma set_union_nil_r l : set_union l [] = l.
Proof. by destruct l. Qed.
Lemma set_union_in : forall l1 l2 x, x ∈ set_union l1 l2 <-> x ∈ l1 \/ x ∈ l2.
Proof.
  induction l1 as [|a l1 IH1]; [intros l2 x; cbn [set_union]; rewrite elem_of_nil; tauto|].
  induction l2 as [|b l2 IH2]; intros x; [rewrite set_union_nil_r, elem_of_nil; tauto|]. rewrite set_union_cons.
  destruct (a <? b) eqn:E1; [rewrite elem_of_cons, IH1, !elem_of_cons; tauto|].
  destruct (b <? a) eqn:E2; [rewrite elem_of_cons, IH2, !elem_of_cons; tauto|]. b2p. assert (a = b) as -> by lia. rewrite elem_of_cons, IH1, !elem_of_cons. tauto.
Qed.
Lemma above_all x l : StronglySorted Z.lt l -> (forall y, y ∈ l -> x < y) -> StronglySorted Z.lt (x :: l).
Proof. intros Hs H. constructor; [done|]. by apply Forall_forall. Qed.
Lemma set_union_sorted : forall l1 l2, StronglySorted Z.lt l1 -> StronglySorted Z.lt l2 -> StronglySorted Z.lt (set_union l1 l2).
Proof.
  induction l1 as [|a l1 IH1]; [done|]. induction l2 as [|b l2 IH2]; intros H1 H2; [by rewrite set_union_nil_r|]. rewrite set_union_cons.
  pose proof H1 as H1'. pose proof H2 as H2'. apply StronglySorted_inv in H1' as [S1 F1]. apply StronglySorted_inv in H2' as [S2 F2]. rewrite Forall_forall in F1, F2.
  destruct (a <? b) eqn:E1; b2p; [|destruct (b <? a) eqn:E2; b2p]; apply above_all; auto; intros y [Hy|Hy]%set_union_in.
  - by apply F1.
  - apply elem_of_cons in Hy as [->|Hy%F2]; lia.
  - apply elem_of_cons in Hy as [->|Hy%F1]; lia.
  - by apply F2.
  - by apply F1.
  - apply F2 in Hy. lia.
Qed.
Lemma sorted_lt_NoDup l : StronglySorted Z.lt l -> NoDup l.
Proof. induction 1 as [|x l _ IH F]; constructor; [|done]. intros Hx. rewrite Forall_forall in F. specialize (F x Hx). lia. Qed.

(** [seen] grows exactly when the request names a branch it did not hold. *)
Lemma grew_iff seen now : StronglySorted Z.lt seen -> StronglySorted Z.lt now ->
  (zlen seen <? zlen (set_union seen now)) = false <-> now ⊆ seen.
Proof.
  intros H1 H2. pose proof (set_union_sorted _ _ H1 H2) as H3. rewrite Z.ltb_ge. unfold zlen. rewrite <- Nat2Z.inj_le. split.
  - intros Hle x Hx. pose proof (submseteq_length_Permutation seen (set_union seen now)) as P.
    assert (seen ⊆+ set_union seen now) as Sub by (apply NoDup_submseteq; [by apply sorted_lt_NoDup|intros y Hy; apply set_union_in; by left]).
    rewrite (P Sub Hle). apply set_union_in. by right.
  - intros Hsub. apply submseteq_length. apply NoDup_submseteq; [by apply sorted_lt_NoDup|]. intros y [Hy|Hy]%set_union_in; [done|by apply Hsub].
Qed.

Lemma two_members l : StronglySorted Z.lt l -> (exists g h, g < h /\ g ∈ l /\ h ∈ l) <-> 2 <= zlen l.
Proof.
  intros Hs. split.
  - intros (g & h & Hlt & Hg & Hh). destruct l as [|a [|b l]]; [by apply elem_of_nil in Hg| |rewrite !zlen_cons; pose proof (zlen_nonneg l); lia].
    apply list_elem_of_singleton in Hg, Hh. lia.
  - destruct l as [|a [|b l]]; [done|done|]. intros _. exists a, b. apply StronglySorted_inv in Hs as [_ F]. apply Forall_inv in F.
    split; [done|]. split; [apply list_elem_of_here|]. apply elem_of_cons. right. apply list_elem_of_here.
Qed.

(** ** Weighing *)
Section weigh.
Context (m : ReadMap).
Hypotheses (Hm : map_ok m) (Hs : share_ok m).
Lemma lens_nonneg : Forall (fun u => 0 <= u_len u) (units_ m).
Proof using Hm. eapply Forall_impl; [apply (ok_units m Hm)|]. cbn. intros u. lia. Qed.
Lemma weigh_fold : forall gs s, seen_ok m gs -> 0 <= asked s -> asked s + bytes_in (among gs) (units_ m) < p64 -> 0 <= groups s -> groups s + zlen gs < p32 ->
  foldl (fun s g => if g <? zlen (groupBytes_ m) then mkShare (asked s +% zget (groupBytes_ m) g) (total s) (w32 (groups s + 1)) else s) s gs =
  mkShare (asked s + bytes_in (among gs) (units_ m)) (total s) (groups s + zlen gs).
Proof using Hm Hs.
  pose proof lens_nonneg as L. induction gs as [|g gs IH]; intros s [Hso Hg] Ha Hb Hc Hd; cbn [foldl].
  { assert (bytes_in (among []) (units_ m) = 0) as -> by (generalize (units_ m); intros us; induction us as [|u us IHu]; [done|exact IHu]). change (zlen (@nil Z)) with 0. rewrite !Z.add_0_r. by destruct s. }
  apply StronglySorted_inv in Hso as [Hso Hlt]. inversion Hg as [|? ? Hg0 Hg']; subst. rewrite (proj2 (Z.ltb_lt _ _)) by lia.
  assert (bytes_in (among (g :: gs)) (units_ m) = bytes_in (Z.eqb g) (units_ m) + bytes_in (among gs) (units_ m)) as E.
  { rewrite <- bytes_in_or; [apply bytes_in_ext; intros x; cbn [among existsb]; by rewrite (Z.eqb_sym x g)|].
    intros x ->%Z.eqb_eq Hx%among_in. rewrite Forall_forall in Hlt. specialize (Hlt x Hx). lia. }
  rewrite zlen_cons in *. rewrite E in *. pose proof (bytes_in_nonneg (Z.eqb g) _ L) as N1. pose proof (bytes_in_nonneg (among gs) _ L) as N2. pose proof (zlen_nonneg gs).
  rewrite (sh_groups m Hs g Hg0), w64_small, w32_small by lia. rewrite IH; cbn [asked total groups]; [f_equal; lia|by split|lia..].
Qed.
Lemma seen_count gs : seen_ok m gs -> zlen gs <= zlen (groupBytes_ m).
Proof using.
  intros [Hso Hg]. apply sorted_lt_NoDup in Hso. assert (gs ⊆+ zrange 0 (zlen (groupBytes_ m))) as Sub.
  { apply NoDup_submseteq; [done|]. intros x Hx. rewrite Forall_forall in Hg. apply elem_of_zrange. by apply Hg. }
  apply submseteq_length in Sub. pose proof (zlen_zrange 0 (zlen (groupBytes_ m)) (zlen_nonneg _)) as Z. unfold zlen in *. lia.
Qed.
(** The share of a set of branches is the bytes their units hold. *)
Lemma weigh_exact gs : seen_ok m gs -> weigh m gs = mkShare (bytes_in (among gs) (units_ m)) (bytes_in (fun _ => true) (units_ m)) (zlen gs).
Proof using Hm Hs.
  intros Hg. unfold weigh. pose proof (seen_count gs Hg) as C. pose proof (sh_count m Hs). pose proof (sh_fits m Hs). pose proof (bytes_in_le (among gs) _ lens_nonneg). pose proof (bytes_in_nonneg (among gs) _ lens_nonneg).
  rewrite weigh_fold; cbn [asked total groups]; [|done|lia..]. by rewrite (sh_total m Hs).
Qed.
Lemma exceeds_exact gs limit : seen_ok m gs -> 0 <= limit < 100 ->
  exceeds (weigh m gs) limit = true <-> limit * bytes_in (fun _ => true) (units_ m) < 100 * bytes_in (among gs) (units_ m).
Proof using Hm Hs.
  intros Hg Hl. rewrite (weigh_exact gs Hg). unfold exceeds. cbn [asked total]. pose proof (sh_fits m Hs) as F. pose proof (bytes_in_le (among gs) _ lens_nonneg). pose proof (bytes_in_nonneg (among gs) _ lens_nonneg).
  set (t := bytes_in (fun _ => true) (units_ m)) in *. set (a := bytes_in (among gs) (units_ m)) in *.
  rewrite (w64_small (limit * t)) by nia. rewrite (w64_small (a * 100)) by lia. rewrite andb_true_iff, negb_true_iff, Z.eqb_neq, Z.ltb_lt. nia.
Qed.
End weigh.

(** ** One step *)
Section step.
Context (m : ReadMap) (seen : list Z) (ranges : list (Z * Z)) (limit : Z).
Hypotheses (Hm : map_ok m) (Hs : share_ok m) (Hseen : seen_ok m seen) (Hr : ranges_ok ranges) (Hl : 0 <= limit < 100).

Lemma union_seen : seen_ok m (set_union seen (groupsOf m ranges)).
Proof using Hm Hseen Hr.
  destruct Hseen as [S F]. destruct (groups_spec m ranges Hm Hr) as [S' _]. split; [by apply set_union_sorted|].
  pose proof (groups_in_range m ranges Hm Hr) as F'. rewrite Forall_forall in *. intros g [Hg|Hg]%set_union_in; [by apply F|by apply F'].
Qed.
(** What the step decides, by the branches it names. *)
Definition decision (m : ReadMap) (limit : Z) (seen now : list Z) : Z :=
  if bool_decide (now = []) then -1
  else if limit * bytes_in (fun _ => true) (units_ m) <? 100 * bytes_in (among (set_union seen now)) (units_ m) then 1
  else if (2 <=? zlen now) && bool_decide (now ⊆ seen) then 0 else -1.
Lemma step_spec : step m seen ranges limit =
  let all := set_union seen (groupsOf m ranges) in
  (decision m limit seen (groupsOf m ranges), all, mkShare (bytes_in (among all) (units_ m)) (bytes_in (fun _ => true) (units_ m)) (zlen all)).
Proof using Hm Hs Hseen Hr Hl.
  unfold step, decision. pose proof union_seen as U. destruct (groups_spec m ranges Hm Hr) as [S' _]. destruct (groupsOf m ranges) as [|g now] eqn:E.
  - cbn zeta. rewrite bool_decide_eq_true_2, set_union_nil_r by done. by rewrite (weigh_exact m Hm Hs).
  - rewrite bool_decide_eq_false_2 by done. rewrite (weigh_exact m Hm Hs _ U) at 2. cbn zeta. f_equal. f_equal.
    pose proof (exceeds_exact m Hm Hs _ limit U Hl) as X. rewrite <- Z.ltb_lt in X. apply Bool.eq_true_iff_eq in X. rewrite X.
    pose proof (grew_iff seen (g :: now) (proj1 Hseen) S') as G. destruct (_ <? 100 * _); [done|].
    destruct (2 <=? _); cbn [andb]; [|done]. destruct (zlen seen <? _); cbn [negb].
    + rewrite bool_decide_eq_false_2; [done|]. intros H%G. done.
    + rewrite bool_decide_eq_true_2; [done|]. by apply G.
Qed.
End step.

(** C36: one request, on every path. The branches seen become the union, ascending and each once,
    with those the request asks half a unit of; the share reported is exactly the bytes those branches'
    units hold, over the bytes of every unit. The file is read directly (1) when the request
    names a branch and the share exceeds the limit; it is cached (0) when it does not, and
    the request names two branches or more, none of them new; otherwise nothing is decided. *)
Theorem step_exact (m : ReadMap) (seen : list Z) (ranges : list (Z * Z)) (limit : Z) :
  map_ok m -> share_ok m -> seen_ok m seen -> ranges_ok ranges -> 0 <= limit < 100 ->
  exists d seen' sh, step m seen ranges limit = (d, seen', sh) /\
    StronglySorted Z.lt seen' /\ (forall g, g ∈ seen' <-> g ∈ seen \/ half_asked m ranges g) /\
    asked sh = bytes_in (among seen') (units_ m) /\ total sh = bytes_in (fun _ => true) (units_ m) /\ groups sh = zlen seen' /\
    (d = 1 <-> (exists g, half_asked m ranges g) /\ limit * total sh < 100 * asked sh) /\
    (d = 0 <-> 100 * asked sh <= limit * total sh /\ (exists g h, g < h /\ half_asked m ranges g /\ half_asked m ranges h) /\
               forall g, half_asked m ranges g -> g ∈ seen) /\
    (d = 1 \/ d = 0 \/ d = -1).
Proof.
  intros Hm Hs Hseen Hr Hl. rewrite (step_spec m seen ranges limit Hm Hs Hseen Hr Hl). cbn zeta. eexists _, _, _. split; [done|].
  destruct (groups_spec m ranges Hm Hr) as [S M]. pose proof (union_seen m seen ranges Hm Hseen Hr) as [U _]. cbn [asked total groups].
  split; [done|]. split; [intros g; rewrite set_union_in, M; done|]. do 3 (split; [done|]). setoid_rewrite <- M. clear M U. unfold decision.
  set (t := bytes_in _ (units_ m)). set (a := bytes_in _ (units_ m)). set (now := groupsOf m ranges) in *.
  assert ((exists g, g ∈ now) <-> now <> []) as N.
  { destruct now as [|g l]; [split; [by intros (g & ?%elem_of_nil)|done]|]. split; [done|]. intros _. exists g. apply list_elem_of_here. }
  assert ((exists g h, g < h /\ g ∈ now /\ h ∈ now) <-> 2 <= zlen now) as T by by apply two_members.
  rewrite N, T. clear N T. destruct (bool_decide (now = [])) eqn:E1.
  { apply bool_decide_eq_true in E1. rewrite E1. change (zlen (@nil Z)) with 0. split; [split; [done|intros [? _]; done]|]. split; [split; [done|lia]|by right; right]. }
  apply bool_decide_eq_false in E1. destruct (limit * t <? 100 * a) eqn:E2; b2p; [split; [done|split; [split; [done|lia]|by left]]|].
  split; [split; [by destruct ((_ <=? _) && _)|lia]|]. destruct (2 <=? zlen now) eqn:E3; b2p; cbn [andb]; [|split; [split; [done|lia]|by right; right]].
  destruct (bool_decide (now ⊆ seen)) eqn:E4; [apply bool_decide_eq_true in E4|apply bool_decide_eq_false in E4].
  - split; [|by right; left]. split; [|done]. intros _. split; [done|]. split; [done|]. intros g Hg. by apply E4.
  - split; [|by right; right]. split; [done|]. intros (_ & _ & H). destruct E4. intros g Hg. by apply H.
Qed.

Lemma demo_share_ok : share_ok demo_map.
Proof. split; [intros g Hg; change (zlen (groupBytes_ demo_map)) with 2 in Hg; assert (g = 0 \/ g = 1) as [-> | ->] by lia; reflexivity|reflexivity|vm_compute; reflexivity|vm_compute; reflexivity]. Qed.
(** The second request of a reader that has read branch 0 before: it asks for both. *)
Lemma step_exact_witness : seen_ok demo_map [0] /\
  step demo_map [0] [(100, 50); (150, 60)] 40 = (1, [0; 1], mkShare 120 120 2) /\
  exists d seen' sh, step demo_map [0] [(100, 50); (150, 60)] 40 = (d, seen', sh) /\ StronglySorted Z.lt seen' /\ (d = 1 \/ d = 0 \/ d = -1).
Proof.
  assert (seen_ok demo_map [0]) as Hseen by (split; [repeat constructor|repeat constructor; cbn; unfold zlen; cbn; lia]). split; [exact Hseen|]. split; [vm_compute; reflexivity|].
  destruct (step_exact demo_map [0] [(100, 50); (150, 60)] 40 demo_map_ok demo_share_ok Hseen) as (d & seen' & sh & E & S & _ & _ & _ & _ & _ & _ & D).
  - unfold ranges_ok. repeat constructor; cbn; unfold is_u64; lia.
  - lia.
  - exists d, seen', sh. split; [exact E|]. split; [exact S|exact D].
Defined.
End ReadStep.
