(* ===== verification/ReadRuns.v ===== *)
(** * The maps a file's metadata gives, and which reads are of its data (src/transpose/ReadMap.cc, src/plugin/ReadRule.cc)

    Module ReadBuild: when no two baskets (pages) of the file overlap, the map is well formed: its units are
    apart and ascending, and the bytes of each branch are those of its units. Module ReadRuns: three answers
    to one question - the runs a direct decision keeps, the search of the full map, and a count of
    bytes - agree. *)

From stdpp Require Import sorting.
From S2P Require Import Prelude WireRead WireSpan TreeMeta ReadMap ReadShare ReadStep.
Local Open Scope u64_scope.

Module ReadBuild.
Import Wire ReadMap ReadShare ReadStep.

Definition apart (u v : MapUnit) : Prop := u_off u = u_off v \/ before u v \/ before v u.
Definition all_apart (l : list MapUnit) : Prop := forall u v, u ∈ l -> v ∈ l -> apart u v.
Definition in_file (u : MapUnit) : Prop := 0 <= u_off u /\ 0 < u_len u < p32 /\ u_off u + u_len u < p63.

#[global] Instance unit_le_total : Total unit_le.
Proof. intros a b. unfold unit_le. lia. Qed.
#[global] Instance unit_le_trans : Transitive unit_le.
Proof. intros a b c. unfold unit_le. lia. Qed.

Lemma apart_sorted l : StronglySorted unit_le l -> NoDup (u_off <$> l) -> all_apart l -> Forall in_file l -> StronglySorted before l.
Proof.
  intros Hs Hn Ha Hf. induction Hs as [|u l Hs IH Hle]; [constructor|]. cbn [fmap list_fmap] in Hn. apply NoDup_cons in Hn as [Hu Hn]. inversion Hf as [|? ? _ Hf']; subst.
  constructor; [apply IH; [done| |done]; intros a b A B; apply Ha; apply elem_of_cons; by right|]. apply Forall_forall. intros v Hv. rewrite Forall_forall in Hle, Hf'.
  specialize (Hle v Hv). destruct (Hf' v Hv) as (_ & L & _). unfold unit_le in Hle.
  destruct (Ha u v ltac:(apply list_elem_of_here) ltac:(apply elem_of_cons; by right)) as [E|[B|B]]; [|done|unfold before in *; lia].
  destruct Hu. rewrite E. by apply list_elem_of_fmap_2.
Qed.

(** The loop that counts the bytes of each branch. *)
Lemma count_units n : forall us gb t, zlen gb = n -> Forall (fun u => 0 <= u_len u /\ 0 <= u_group u < n) us -> 0 <= t ->
  (forall g, 0 <= g < n -> 0 <= zget gb g <= t) -> t + bytes_in (fun _ => true) us < p64 ->
  exists gb', foldl count_unit (gb, t) us = (gb', t + bytes_in (fun _ => true) us) /\ zlen gb' = n /\
    forall g, 0 <= g < n -> zget gb' g = zget gb g + bytes_in (Z.eqb g) us.
Proof.
  induction us as [|u us IH]; intros gb t Hn Hu Ht Hg Hb; cbn [foldl].
  { exists gb. cbn [bytes_in foldr] in *. split; [f_equal; lia|]. split; [done|]. intros g _. lia. }
  inversion Hu as [|? ? [L G] Hu']; subst. cbn [bytes_in foldr] in *. fold (bytes_in (fun _ => true) us) in *.
  assert (0 <= bytes_in (fun _ => true) us) as N by (apply bytes_in_nonneg; eapply Forall_impl; [exact Hu'|]; cbn; intros v; lia).
  unfold count_unit at 2. cbn [fst snd]. pose proof (Hg _ G) as Hgu. rewrite !w64_small by lia.
  destruct (IH (zset gb (u_group u) (zget gb (u_group u) + u_len u)) (t + u_len u)) as (gb' & E & Z & S).
  - by rewrite zlen_zset.
  - done.
  - lia.
  - intros g Hr. rewrite zget_zset by lia. specialize (Hg g Hr). case_decide; lia.
  - lia.
  - exists gb'. rewrite E. split; [f_equal; lia|]. split; [done|]. intros g Hgr. rewrite (S g Hgr), zget_zset by lia. fold (bytes_in (Z.eqb g) us).
    destruct (g =? u_group u) eqn:E1; b2p.
    + subst g. rewrite decide_True by lia. lia.
    + rewrite decide_False by lia. done.
Qed.

Lemma weighed_ok rnt head n us : StronglySorted before us -> Forall in_file us -> Forall (fun u => 0 <= u_group u < n) us -> 0 <= head < p63 -> 0 <= n < p32 ->
  100 * bytes_in (fun _ => true) us < p64 ->
  map_ok (weighed rnt head n us) /\ share_ok (weighed rnt head n us) /\ units_ (weighed rnt head n us) = us /\ headSkip_ (weighed rnt head n us) = head /\ zlen (groupBytes_ (weighed rnt head n us)) = n.
Proof.
  intros Hs Hf Hg Hh Hn Hb. assert (Forall (fun u => 0 <= u_len u) us) as L by (eapply Forall_impl; [exact Hf|]; unfold in_file; intros u; lia).
  pose proof (bytes_in_nonneg (fun _ => true) us L) as N. destruct (count_units n us (zeros n) 0) as (gb & E & Z & S).
  - apply zlen_zeros. lia.
  - rewrite Forall_forall in *. intros u Hu. specialize (Hf u Hu). specialize (Hg u Hu). unfold in_file in Hf. lia.
  - lia.
  - intros g _. rewrite zget_zeros. lia.
  - lia.
  - unfold weighed. rewrite E. cbn [units_ headSkip_ groupBytes_ total_]. split; [split; cbn [units_ headSkip_ groupBytes_]; [done| |done]|split; [split; cbn [units_ groupBytes_ total_]; [|lia|done|lia]|done]].
    + rewrite Forall_forall in *. intros u Hu. specialize (Hf u Hu). specialize (Hg u Hu). unfold in_file in Hf. lia.
    + intros g Hgr. rewrite S by lia. rewrite zget_zeros. lia.
Qed.

(** ** A tree *)
Definition tree_units (fm : TreeData.FileMeta) : list MapUnit :=
  concat ((fun k => branch_units k (TreeData.branch_at fm k)) <$> zrange 0 (zlen (TreeData.branches fm))).
Lemma branch_units_group k b : Forall (fun u => u_group u = k) (branch_units k b).
Proof.
  unfold branch_units. destruct (TreeData.externalFile b); [by constructor|]. apply Forall_forall. intros u Hu. apply list_elem_of_omap in Hu as (i & _ & E).
  destruct (_ || _)%bool; [done|]. by injection E as <-.
Qed.
Lemma tree_groups fm : Forall (fun u => 0 <= u_group u < zlen (TreeData.branches fm)) (tree_units fm).
Proof.
  apply Forall_forall. intros u Hu. apply list_elem_of_In, in_concat in Hu as (l & Hl & Hu). apply list_elem_of_In, list_elem_of_fmap in Hl as (k & -> & Hk).
  apply elem_of_zrange in Hk. pose proof (branch_units_group k (TreeData.branch_at fm k)) as F. rewrite Forall_forall in F. apply list_elem_of_In in Hu. rewrite (F u Hu). done.
Qed.
Lemma fromTree_ok fm : Forall in_file (tree_units fm) -> NoDup (u_off <$> tree_units fm) -> all_apart (tree_units fm) ->
  100 * bytes_in (fun _ => true) (tree_units fm) < p64 -> zlen (TreeData.branches fm) < p32 ->
  map_ok (fromTree fm) /\ share_ok (fromTree fm) /\ units_ (fromTree fm) ≡ₚ tree_units fm /\ zlen (groupBytes_ (fromTree fm)) = zlen (TreeData.branches fm).
Proof.
  intros Hf Hn Ha Hb Hc. pose proof (merge_sort_Permutation unit_le (tree_units fm)) as P. pose proof (tree_groups fm) as G.
  destruct (weighed_ok false 0 (zlen (TreeData.branches fm)) (sortUnits (tree_units fm))) as (M & S & U & _ & Z); unfold sortUnits.
  - apply apart_sorted; [apply StronglySorted_merge_sort; apply _|by rewrite P|intros a b A B; apply Ha; [rewrite <- P; done|rewrite <- P; done]|by rewrite P].
  - by rewrite P.
  - by rewrite P.
  - lia.
  - pose proof (zlen_nonneg (TreeData.branches fm)). lia.
  - by rewrite (bytes_in_perm _ _ _ P).
  - unfold fromTree. fold (tree_units fm). split; [done|]. split; [done|]. split; [|done]. rewrite U. exact P.
Qed.

(** ** An RNTuple: one page of each offset *)
Definition page_units (ranges : list ColumnRange) : list MapUnit := concat (column_units <$> ranges).
Lemma dedup_spec : forall l last, StronglySorted unit_le l -> (forall o, last = Some o -> Forall (fun u => o <= u_off u) l) ->
  dedup last l ⊆ l /\ StronglySorted unit_le (dedup last l) /\ NoDup (u_off <$> dedup last l) /\ (forall o, last = Some o -> o ∉ u_off <$> dedup last l) /\
  forall x, x ∈ u_off <$> l -> last = Some x \/ x ∈ u_off <$> dedup last l.
Proof.
  induction l as [|u l IH]; intros last Hs Hl; cbn [dedup].
  { repeat (split; [first [done|constructor|intros o _; apply not_elem_of_nil]|]). intros x Hx. by apply elem_of_nil in Hx. }
  apply StronglySorted_inv in Hs as [Hs Hle]. destruct (match last with Some o => u_off u =? o | None => false end) eqn:E.
  - destruct last as [o|]; [|done]. b2p. destruct (IH (Some o) Hs) as (A & B & C & D & F).
    { intros o' [= <-]. by apply (Forall_cons_1 _ _ _ (Hl o eq_refl)). }
    split; [intros v Hv; apply elem_of_cons; right; by apply A|]. split; [done|]. split; [done|]. split; [done|].
    intros x Hx. cbn [fmap list_fmap] in Hx. apply elem_of_cons in Hx as [->|Hx]; [left; by f_equal|by apply F].
  - destruct (IH (Some (u_off u)) Hs) as (A & B & C & D & F).
    { intros o' [= <-]. exact Hle. }
    split; [intros v [->|Hv]%elem_of_cons; [apply list_elem_of_here|apply elem_of_cons; right; by apply A]|].
    split; [constructor; [done|]; rewrite Forall_forall in *; intros v Hv; apply Hle; by apply A|]. cbn [fmap list_fmap].
    split; [apply NoDup_cons; split; [by apply D|done]|]. split.
    + intros o ->. b2p. rewrite not_elem_of_cons. split; [done|]. intros Hin. apply list_elem_of_fmap in Hin as (v & -> & Hv). pose proof (Hl _ eq_refl) as Hf. apply Forall_cons in Hf as [H1 H2].
      rewrite Forall_forall in Hle. specialize (Hle v (A v Hv)). unfold unit_le in Hle. lia.
    + intros x Hx. right. apply elem_of_cons in Hx as [->|Hx]; [apply list_elem_of_here|]. apply elem_of_cons. destruct (F x Hx) as [[= ->]|H]; [by left|by right].
Qed.
Lemma max_column us : forall m, m <= foldl (fun m u => Z.max m (u_group u)) m us /\ Forall (fun u => u_group u <= foldl (fun m u => Z.max m (u_group u)) m us) us.
Proof.
  induction us as [|u us IH]; intros m; cbn [foldl]; [split; [lia|constructor]|]. destruct (IH (Z.max m (u_group u))) as [L F]. split; [lia|]. constructor; [lia|done].
Qed.
Lemma max_column_lt us k : forall m, m < k -> Forall (fun u => u_group u < k) us -> foldl (fun m u => Z.max m (u_group u)) m us < k.
Proof. induction us as [|u us IH]; intros m Hm Hf; cbn [foldl]; [done|]. inversion Hf; subst. apply IH; [lia|done]. Qed.
Lemma fromRNTuple_ok ranges : Forall in_file (page_units ranges) -> all_apart (page_units ranges) -> Forall (fun u => 0 <= u_group u < p32 - 1) (page_units ranges) ->
  100 * bytes_in (fun _ => true) (dedup None (sortUnits (page_units ranges))) < p64 ->
  map_ok (fromRNTuple ranges) /\ share_ok (fromRNTuple ranges) /\ headSkip_ (fromRNTuple ranges) = kRNTupleHead /\
  units_ (fromRNTuple ranges) ⊆ page_units ranges /\ NoDup (u_off <$> units_ (fromRNTuple ranges)) /\
  forall x, x ∈ u_off <$> page_units ranges <-> x ∈ u_off <$> units_ (fromRNTuple ranges).
Proof.
  intros Hf Ha Hg Hb. pose proof (merge_sort_Permutation unit_le (page_units ranges)) as P.
  destruct (dedup_spec (sortUnits (page_units ranges)) None) as (Sub & Srt & Nd & _ & All); [unfold sortUnits; apply StronglySorted_merge_sort; apply _|done|].
  unfold fromRNTuple. fold (page_units ranges). set (mx := foldl _ 0 _). set (us := dedup None (sortUnits (page_units ranges))) in *.
  assert (us ⊆ page_units ranges) as Sub' by (intros u Hu; rewrite <- P; by apply Sub).
  assert (Forall in_file us) as Hf' by (rewrite Forall_forall in *; intros u Hu; by apply Hf, Sub').
  destruct (max_column (page_units ranges) 0) as [M0 Mx]. fold mx in M0, Mx.
  assert (mx < p32 - 1) as Mb by (apply max_column_lt; [lia|]; eapply Forall_impl; [exact Hg|]; cbn; lia).
  assert (Forall (fun u => 0 <= u_group u < match us with [] => 0 | _ => w32 (mx + 1) end) us) as Hg'.
  { rewrite Forall_forall in *. intros u Hu. pose proof (Hg u (Sub' u Hu)) as G1. pose proof (Mx u (Sub' u Hu)) as G2. cbn in G1, G2. rewrite w32_small by lia. destruct us; [by apply elem_of_nil in Hu|lia]. }
  destruct (weighed_ok true kRNTupleHead (match us with [] => 0 | _ => w32 (mx + 1) end) us) as (M & S & U & Hd & _).
  - apply apart_sorted; [done|done| |done]. intros a b A B. apply Ha; by apply Sub'.
  - done.
  - done.
  - unfold kRNTupleHead. lia.
  - rewrite w32_small by lia. destruct us; lia.
  - done.
  - split; [done|]. split; [done|]. split; [done|]. rewrite U. split; [done|]. split; [done|]. intros x. rewrite <- P. split.
    + intros Hx. destruct (All x Hx) as [?|?]; [done|]. done.
    + intros Hx. apply list_elem_of_fmap in Hx as (u & -> & Hu). apply list_elem_of_fmap_2. by apply Sub.
Qed.
End ReadBuild.

Module ReadRuns.
Import Wire WireSpan ReadMap ReadShare.

(** Some byte of the read is a byte of a unit, past the head that never counts. *)
Definition of_data (m : ReadMap) (off len : Z) : Prop :=
  exists x u, off <= x < off + len /\ headSkip_ m <= x /\ u ∈ units_ m /\ u_off u <= x < u_off u + u_len u.

(** ** The binary search of the runs *)
Definition before_it (off : Z) (p : option (Z * Z)) : bool := match p with Some r => off <? snd r | None => false end.
Definition at_it (e : Z) (p : option (Z * Z)) : bool := match p with Some r => fst r <? e | None => false end.
Definition overlaps (off e : Z) (r : Z * Z) : bool := (off <? snd r) && (fst r <? e).
Lemma ascending_late e : forall runs s top, ascending s top runs -> e <= s -> forall off, existsb (overlaps off e) runs = false.
Proof.
  induction runs as [|[a b] runs IH]; intros s top Ha He off; [done|]. destruct Ha as (H1 & _ & H3). cbn [existsb]. rewrite (IH _ _ H3) by lia.
  unfold overlaps. cbn [fst snd]. rewrite (proj2 (Z.ltb_ge a e)) by lia. by rewrite andb_false_r.
Qed.
Lemma upper_bound_spec off e top : off < e -> forall runs s prev, ascending s top runs -> (forall p, prev = Some p -> fst p <= off /\ snd p < s) ->
  let '(p, it) := upper_bound off prev runs in (before_it off p || at_it e it) = (before_it off prev || existsb (overlaps off e) runs).
Proof.
  intros Hoe. induction runs as [|[a b] runs IH]; intros s prev Ha Hp; cbn [upper_bound existsb]; [done|]. destruct Ha as (H1 & H2 & H3). cbn [fst]. destruct (off <? a) eqn:E; b2p.
  - f_equal. unfold overlaps at 1. cbn [at_it fst snd]. rewrite (proj2 (Z.ltb_lt off b)) by lia. cbn [andb]. destruct (a <? e) eqn:E2; b2p; [done|].
    by rewrite (ascending_late e runs (b + 1) top H3) by lia.
  - specialize (IH (b + 1) (Some (a, b)) H3). destruct (upper_bound off (Some (a, b)) runs) as [p it]. rewrite IH; [|intros q [= <-]; cbn; lia].
    assert (before_it off prev = false) as ->. { destruct prev as [q|]; [|done]. destruct (Hp q eq_refl). cbn. rewrite Z.ltb_ge. lia. }
    unfold overlaps at 2. cbn [before_it fst snd orb]. by rewrite (proj2 (Z.ltb_lt a e)), andb_true_r by lia.
Qed.
Lemma readsData_spec runs top off len : ascending 0 top runs -> 0 <= off -> 0 <= len -> off + len < p64 ->
  readsData runs off len = true <-> exists x, off <= x < off + len /\ existsb (inb x) runs = true.
Proof.
  intros Ha Ho Hl Hw. unfold readsData. destruct (len =? 0) eqn:E; b2p; [split; [done|intros (x & Hx & _); lia]|]. rewrite w64_small by lia.
  pose proof (upper_bound_spec off (off + len) top ltac:(lia) runs 0 None Ha ltac:(done)) as U. destruct (upper_bound off None runs) as [p it]. cbn [before_it orb] in U.
  assert ((if match p with Some r => off <? snd r | None => false end then true else match it with Some r => fst r <? off + len | None => false end) = existsb (overlaps off (off + len)) runs) as ->.
  { rewrite <- U. by destruct p as [[p1 p2]|], it as [[i1 i2]|]. }
  rewrite existsb_exists. split.
  - intros ([a b] & Hin & Hx). unfold overlaps in Hx. cbn [fst snd] in Hx. b2p. assert (a < b) as Hab.
    { clear - Ha Hin. revert Ha Hin. generalize 0 as s. induction runs as [|[c d] runs IH]; intros s Ha Hin; [done|]. destruct Ha as (H1 & H2 & H3). destruct Hin as [[= -> ->]|Hin]; [lia|by apply (IH _ H3)]. }
    exists (Z.max off a). split; [lia|]. apply existsb_exists. exists (a, b). split; [done|]. unfold inb. cbn [fst snd]. rewrite andb_true_iff, Z.leb_le, Z.ltb_lt. lia.
  - intros (x & Hx & Hin). apply existsb_exists in Hin as ([a b] & Hin & Hi). exists (a, b). split; [done|]. unfold inb in Hi. unfold overlaps. cbn [fst snd] in *. b2p. rewrite andb_true_iff, !Z.ltb_lt. lia.
Qed.

(** ** The runs kept *)
Section runs.
Context (m : ReadMap).
Hypothesis Hm : map_ok m.
Definition clip (u : MapUnit) : option (Z * Z) := let a := Z.max (u_off u) (headSkip_ m) in let b := u_off u +% u_len u in if b <=? a then None else Some (a, b).
Lemma dataRuns_fold : dataRuns m = rev (foldl add_run [] (omap clip (units_ m))).
Proof using.
  unfold dataRuns. f_equal. generalize (@nil (Z * Z)) as acc. induction (units_ m) as [|u us IH]; intros acc; [done|]. cbn [foldl omap list_omap]. unfold clip at 1. cbn zeta.
  destruct (_ <=? _); [apply IH|]. cbn [foldl]. apply IH.
Qed.
Lemma clip_some u : u ∈ units_ m -> clip u = if u_off u + u_len u <=? Z.max (u_off u) (headSkip_ m) then None else Some (Z.max (u_off u) (headSkip_ m), u_off u + u_len u).
Proof using Hm. intros Hu. pose proof (ok_units m Hm) as F. rewrite Forall_forall in F. destruct (F u Hu) as (U1 & U2 & U3 & _). unfold clip. by rewrite w64_small by lia. Qed.
Lemma clips_ok : StronglySorted span_le (omap clip (units_ m)) /\ Forall (fun iv => 0 <= fst iv < snd iv /\ snd iv <= p64) (omap clip (units_ m)).
Proof using Hm.
  pose proof (ok_units m Hm) as F. pose proof (ok_head m Hm) as H0. assert (forall u iv, u ∈ units_ m -> clip u = Some iv -> 0 <= fst iv < snd iv /\ snd iv <= p64 /\ fst iv = Z.max (u_off u) (headSkip_ m) /\ snd iv = u_off u + u_len u) as C.
  { intros u iv Hu E. rewrite (clip_some u Hu) in E. rewrite Forall_forall in F. destruct (F u Hu) as (U1 & U2 & U3 & _). destruct (_ <=? _) eqn:E2; [done|]. b2p. injection E as <-. cbn [fst snd]. lia. }
  split; [|apply Forall_forall; intros iv Hiv; apply list_elem_of_omap in Hiv as (u & Hu & E); destruct (C u iv Hu E) as (? & ? & _); lia].
  pose proof (ok_sorted m Hm) as Hs. revert F C Hs. clear H0. induction (units_ m) as [|u us IH]; intros F C Hs; [constructor|]. apply StronglySorted_inv in Hs as [Hs Hle]. inversion F; subst.
  cbn [omap list_omap]. assert (StronglySorted span_le (omap clip us)) as T by (apply IH; [done| |done]; intros v iv Hv; apply C; apply elem_of_cons; by right).
  destruct (clip u) as [iv|] eqn:E; [|done]. constructor; [done|]. apply Forall_forall. intros iv' Hiv'. apply list_elem_of_omap in Hiv' as (v & Hv & E').
  destruct (C u iv ltac:(apply list_elem_of_here) E) as (? & ? & Ea & Eb). destruct (C v iv' ltac:(apply elem_of_cons; by right) E') as (? & ? & Ea' & Eb').
  rewrite Forall_forall in Hle. specialize (Hle v Hv). unfold before in Hle. unfold span_le. lia.
Qed.
Lemma dataRuns_ok : ascending 0 p64 (dataRuns m) /\ forall x, existsb (inb x) (dataRuns m) = true <-> headSkip_ m <= x /\ exists u, u ∈ units_ m /\ u_off u <= x < u_off u + u_len u.
Proof using Hm.
  destruct clips_ok as [S B]. rewrite dataRuns_fold. destruct (foldl_add_run_spec p64 _ S B [] I I) as (G & _ & C). split; [by apply gapped_ascending|]. intros x.
  assert (forall l, existsb (inb x) (rev l) = existsb (inb x) l) as R.
  { intros l. apply Bool.eq_true_iff_eq. rewrite !existsb_exists. split; intros (r & Hin & Hx); exists r; (split; [|done]); [by apply in_rev|by apply -> in_rev]. }
  rewrite R. split.
  - intros H. apply add_runs_points in H. destruct H as [H|H]; [done|]. apply existsb_exists in H as ([a b] & Hin & Hx). apply list_elem_of_In, list_elem_of_omap in Hin as (u & Hu & E).
    rewrite (clip_some u Hu) in E. destruct (_ <=? _) eqn:E2; [done|]. injection E as <- <-. unfold inb in Hx. cbn [fst snd] in Hx. b2p. split; [lia|]. exists u. split; [done|lia].
  - intros (H0 & u & Hu & Hx). destruct (C (Z.max (u_off u) (headSkip_ m), u_off u + u_len u)) as (r & Hr & [I1 I2]).
    { apply list_elem_of_omap. exists u. split; [done|]. rewrite (clip_some u Hu). by rewrite (proj2 (Z.leb_gt _ _)) by lia. }
    apply existsb_exists. exists r. split; [by apply list_elem_of_In|]. unfold inb. cbn [fst snd] in *. rewrite andb_true_iff, Z.leb_le, Z.ltb_lt. lia.
Qed.
End runs.

(** ** The search of the map *)
Lemma touches_covers a b : forall us k, touches_from a b us = negb (bool_decide (covers_from k a b us = [])).
Proof.
  induction us as [|u us IH]; intros k; cbn [touches_from covers_from]; [done|]. destruct (u_off u <? b); [|done]. destruct (a <? _); [done|]. apply IH.
Qed.
Lemma touches_spec m off len : map_ok m -> 0 <= off -> 0 <= len -> off + len < p64 -> touches m off len = true <-> of_data m off len.
Proof.
  intros Hm Ho Hl Hw. unfold touches, of_data. destruct (empty m) eqn:Ee.
  { cbn [orb]. unfold empty in Ee. destruct (units_ m) eqn:Eu; [|done]. split; [done|]. intros (x & u & _ & _ & Hu & _). by apply elem_of_nil in Hu. }
  destruct (len =? 0) eqn:E0; b2p; cbn [orb]; [split; [done|]; intros (x & _ & Hx & _); lia|]. rewrite (w64_small (off + len)) by lia.
  pose proof (ok_head m Hm) as H0. destruct (off + len <=? Z.max off (headSkip_ m)) eqn:E1; b2p; [split; [done|]; intros (x & u & Hx & Hh & _); lia|].
  set (a := Z.max off (headSkip_ m)) in *. set (b := off + len) in *. rewrite (touches_covers a b _ (first_unit a (units_ m))).
  pose proof (units_fit m Hm) as F. destruct (covers_spec (units_ m) a b ltac:(lia) ltac:(lia) (ok_sorted m Hm) F) as [P W]. unfold covers in P, W. cbn [fst snd] in P, W.
  set (l := covers_from _ a b _) in *. rewrite negb_true_iff, bool_decide_eq_false. rewrite Forall_forall in F. split.
  - intros Hne. destruct l as [|[j v] l']; [done|]. assert (0 < wsum j ((j, v) :: l')) as Hj by (apply wsum_key; [done|]; apply list_elem_of_here).
    rewrite W in Hj. unfold piece in Hj. destruct (_ && _) eqn:Er; [|lia]. b2p. unfold ov in Hj. cbn [fst snd] in Hj. set (u := unit_at (units_ m) j) in *.
    exists (Z.max a (u_off u)), u. assert (u ∈ units_ m) as Hu by (apply unit_in; lia). destruct (F u Hu) as (U1 & U2 & U3). split; [lia|]. split; [lia|]. split; [done|]. lia.
  - intros (x & u & Hx & Hh & Hu & Hux) El. destruct (list_elem_of_lookup_1 _ _ Hu) as [i Hi]. pose proof (lookup_lt_Some _ _ _ Hi) as Li. specialize (W (Z.of_nat i)). rewrite El in W. cbn [wsum foldr] in W.
    unfold piece in W. rewrite (proj2 (Z.leb_le 0 _)), (proj2 (Z.ltb_lt _ (zlen _))) in W by (unfold zlen; lia). cbn [andb] in W. unfold unit_at in W. rewrite Nat2Z.id, nth_lookup, Hi in W. cbn [default from_option id] in W. unfold ov in W. cbn [fst snd] in W. lia.
Qed.

(** the runs kept in place of the map answer the same question. For every read inside the
    numbers, [readsData] over [dataRuns] says exactly whether some byte of the read belongs to
    a basket or page past the head, and so does the search of the full map. *)
Theorem reads_data_exact m off len : map_ok m -> 0 <= off -> 0 <= len -> off + len < p64 ->
  (readsData (dataRuns m) off len = true <-> of_data m off len) /\ touches m off len = readsData (dataRuns m) off len.
Proof.
  intros Hm Ho Hl Hw. destruct (dataRuns_ok m Hm) as [A D]. assert (readsData (dataRuns m) off len = true <-> of_data m off len) as R.
  { rewrite (readsData_spec _ p64 off len A Ho Hl Hw). unfold of_data. setoid_rewrite D. split.
    - intros (x & Hx & Hh & u & Hu & Hux). by exists x, u.
    - intros (x & u & Hx & Hh & Hu & Hux). exists x. split; [done|]. split; [done|]. by exists u. }
  split; [done|]. apply Bool.eq_true_iff_eq. by rewrite R, touches_spec.
Qed.
Lemma reads_data_exact_witness : map_ok demo_map /\ dataRuns demo_map = [(100, 210); (300, 310)] /\
  (readsData (dataRuns demo_map) 205 100 = true <-> of_data demo_map 205 100) /\ touches demo_map 210 90 = readsData (dataRuns demo_map) 210 90.
Proof.
  split; [exact demo_map_ok|]. split; [vm_compute; reflexivity|]. split; [apply reads_data_exact; [exact demo_map_ok|lia..]|].
  apply reads_data_exact; [exact demo_map_ok|lia..].
Defined.
End ReadRuns.
