(* ===== verification/ReadRule.v ===== *)
(** * The max_read_fraction rule (src/plugin/ReadRule.h, ReadRule.cc)

    One rule per file and process, undecided until the share of the file's data its reader
    asks for is known. The rules are objects shared by reference ([rules]); the registry and
    the queue of held maps refer to them. What a weak reference and a try-lock give, and what
    the parsers return, are arguments. Every call that holds [mu_] is one step. *)

From stdpp Require Import gmap.
From S2P Require Import Prelude CacheStore WireRead TreeMeta ReadMap.

Module Rule.
Import ReadMap.

Inductive State := kUndecided | kCache | kDirect | kNoRule.
#[global] Instance State_eq : EqDecision State.
Proof. solve_decision. Defined.
Definition kMinBytes : Z := Z.shiftl 64 20.
Definition kMaxRules : Z := 200000.
Definition kMaxMaps : Z := 64.

Record ReadRule := mkRule {
  key_ : bytes; size_ : Z; limit_ : Z; state_ : State; parsed_ : bool; map_ : option ReadMap; seen_ : list Z; runs_ : list (Z * Z) }.
Definition new_rule (key : bytes) (size limit : Z) : ReadRule := mkRule key size limit kUndecided false None [] [].
Definition direct (r : ReadRule) : bool := bool_decide (state_ r = kDirect).

(** The process: the rule objects, who refers to them, and the counter of direct files. *)
Record World := mkWorld {
  rules : gmap Z ReadRule; next : Z; registry : gmap bytes Z; maps : list Z; directReadFiles : Z }.
Definition init : World := mkWorld ∅ 0 ∅ [] 0.
Definition set_rule (w : World) (id : Z) (r : ReadRule) : World := mkWorld (<[id:=r]> (rules w)) (next w) (registry w) (maps w) (directReadFiles w).
Definition set_maps (w : World) (d : list Z) : World := mkWorld (rules w) (next w) (registry w) d (directReadFiles w).
Definition count_direct (w : World) : World := mkWorld (rules w) (next w) (registry w) (maps w) (directReadFiles w +% 1).

Definition set_state (r : ReadRule) (s : State) : ReadRule := mkRule (key_ r) (size_ r) (limit_ r) s (parsed_ r) (map_ r) (seen_ r) (runs_ r).
Definition set_map (r : ReadRule) (m : option ReadMap) : ReadRule := mkRule (key_ r) (size_ r) (limit_ r) (state_ r) true m (seen_ r) (runs_ r).
Definition set_seen (r : ReadRule) (l : list Z) : ReadRule := mkRule (key_ r) (size_ r) (limit_ r) (state_ r) (parsed_ r) (map_ r) l (runs_ r).
Definition set_runs (r : ReadRule) (l : list (Z * Z)) : ReadRule := mkRule (key_ r) (size_ r) (limit_ r) (state_ r) (parsed_ r) (map_ r) (seen_ r) l.

(** [dropMap] once its lock was got. *)
Definition dropMap (r : ReadRule) : ReadRule :=
  let r := if bool_decide (is_Some (map_ r)) && bool_decide (state_ r = kUndecided) then set_state r kCache else r in
  mkRule (key_ r) (size_ r) (limit_ r) (state_ r) (parsed_ r) None [] (runs_ r).
Definition drop_at (w : World) (id : Z) : World := match rules w !! id with Some r => set_rule w id (dropMap r) | None => w end.

(** [live]: the weak reference still gives the rule; [free]: its lock was not held. *)
Definition holdMap (w : World) (id : Z) (live free : bool) : World :=
  let d := maps w ++ [id] in
  if kMaxMaps <? zlen d then
    match d with
    | oldest :: d' => let w := set_maps w d' in if live && negb (oldest =? id) && free then drop_at w oldest else w
    | [] => w
    end
  else set_maps w d.

Definition forFile (w : World) (maxReadFraction : Z) (key : bytes) (originSize : Z) : World * option Z :=
  if (100 <=? maxReadFraction) || (originSize <? kMinBytes) then (w, None)
  else
    let fresh := (mkWorld (<[next w := new_rule key originSize maxReadFraction]> (rules w)) (next w + 1) (<[key := next w]> (registry w)) (maps w) (directReadFiles w), Some (next w)) in
    match registry w !! key with
    | Some id => if match rules w !! id with Some r => size_ r =? originSize | None => false end then (w, Some id) else fresh
    | None => if kMaxRules <=? Z.of_nat (size (registry w)) then (w, None) else fresh
    end.

Definition readRuleDirect (w : World) (key : bytes) : bool :=
  match registry w !! key with Some id => match rules w !! id with Some r => direct r | None => false end | None => false end.

(** What the parsers found: a tree, else an RNTuple when there is no tree. *)
Record Parsed := mkParsed { fm : TreeData.FileMeta; head : bool; rm_error : bytes; rm_ranges : list ColumnRange }.
Definition map_of (p : Parsed) : option ReadMap :=
  match TreeData.f_error (fm p) with
  | [] => Some (fromTree (fm p))
  | e => if match Store.find_sub (bs "not found") e with Some _ => true | None => false end && head p
         then match rm_error p with [] => Some (fromRNTuple (rm_ranges p)) | _ => None end
         else None
  end.

(** The step on a rule with a map; the counter moves when the file's cache has a store. *)
Definition take_in (w : World) (id : Z) (r : ReadRule) (m : ReadMap) (ranges : list (Z * Z)) (store : bool) : World * State :=
  let '(d, seen, sh) := step m (seen_ r) ranges (limit_ r) in
  if d <? 0 then (set_rule w id (set_seen r seen), kUndecided)
  else
    let r := set_seen r [] in
    if d =? 0 then (set_rule w id (set_state (set_map r None) kCache), kCache)
    else
      let r := set_runs r (dataRuns m) in
      let w := set_rule w id (set_state (set_map r None) kDirect) in
      (if store then count_direct w else w, kDirect).
Definition observe (w : World) (id : Z) (ranges : list (Z * Z)) (src : Parsed) (live free store : bool) : option (World * State) :=
  match rules w !! id with
  | None => None
  | Some r =>
      match state_ r with
      | kUndecided =>
          if parsed_ r then match map_ r with Some m => Some (take_in w id r m ranges store) | None => None end
          else
            match map_of src with
            | Some m =>
                if empty m then Some (set_rule w id (set_state (set_map r None) kNoRule), kNoRule)
                else
                  let r := set_map r (Some m) in
                  Some (take_in (holdMap (set_rule w id r) id live free) id r m ranges store)
            | None => Some (set_rule w id (set_state (set_map r None) kNoRule), kNoRule)
            end
      | s => Some (w, s)
      end
  end.
(** After a direct decision. *)
Definition rule_readsData (r : ReadRule) (off len : Z) : bool := if direct r then Wire.readsData (runs_ r) off len else false.

(** ** What the process does, call by call *)
Inductive Event :=
| EForFile (maxReadFraction : Z) (key : bytes) (originSize : Z)
| EObserve (id : Z) (ranges : list (Z * Z)) (src : Parsed) (live free store : bool).
Definition next_world (w : World) (e : Event) : World :=
  match e with
  | EForFile mx key sz => fst (forFile w mx key sz)
  | EObserve id ranges src live free store => match observe w id ranges src live free store with Some (w', _) => w' | None => w end
  end.
Definition run (w : World) (evs : list Event) : World := foldl next_world w evs.
End Rule.
