(* ===== verification/ReadRuleSpec.v ===== *)
(** * What the max_read_fraction rule guarantees (src/plugin/ReadRule.cc)

    Rules stay consistent, a decision is taken once, few maps are held, a reader that keeps
    within the limit is never sent to the origin, and a reader of several branches gets its
    decision. *)

From stdpp Require Import gmap sorting.
From S2P Require Import Prelude WireRead Footprint TreeMeta ReadMap ReadShare ReadStep ReadRule.

Module RuleSpec.
Import ReadMap ReadShare ReadStep Rule.

(** ** Consistent rules *)
Record rule_ok (r : ReadRule) : Prop := {
  ok_unparsed : parsed_ r = false -> map_ r = None /\ state_ r = kUndecided /\ seen_ r = [];
  ok_undecided : state_ r = kUndecided -> parsed_ r = true -> exists m, map_ r = Some m /\ empty m = false;
  ok_decided : state_ r <> kUndecided -> map_ r = None /\ seen_ r = [];
  ok_runs : state_ r <> kDirect -> runs_ r = [] }.
Definition fresh_ids (w : World) : Prop := forall id, is_Some (rules w !! id) -> id < next w.
Record world_ok (w : World) : Prop := {
  ok_rules : forall id r, rules w !! id = Some r -> rule_ok r;
  ok_fresh : fresh_ids w;
  ok_registry : forall key id, registry w !! key = Some id -> exists r, rules w !! id = Some r /\ key_ r = key;
  ok_count : Z.of_nat (size (registry w)) <= kMaxRules;
  ok_maps : zlen (maps w) <= kMaxMaps }.

(** ** What one call does to one rule *)
Definition taken (r : ReadRule) (m : ReadMap) (ranges : list (Z * Z)) : ReadRule :=
  let '(d, seen, _) := step m (seen_ r) ranges (limit_ r) in
  if d <? 0 then set_seen r seen
  else if d =? 0 then set_state (set_map (set_seen r []) None) kCache
  else set_state (set_map (set_runs (set_seen r []) (dataRuns m)) None) kDirect.
Definition parsed_out (r : ReadRule) (src : Parsed) (m : ReadMap) (r0 : ReadRule) : Prop :=
  parsed_ r = true /\ map_ r = Some m /\ r0 = r \/ parsed_ r = false /\ map_of src = Some m /\ empty m = false /\ r0 = set_map r (Some m).
Inductive changes (id : Z) (r : ReadRule) : Event -> ReadRule -> Prop :=
| unchanged e : (forall ranges src live free store, e = EObserve id ranges src live free store -> state_ r <> kUndecided) -> changes id r e r
| dropped i ranges src live store : i <> id -> changes id r (EObserve i ranges src live true store) (dropMap r)
| no_rule ranges src live free store : state_ r = kUndecided -> parsed_ r = false -> (forall m, map_of src = Some m -> empty m = true) ->
    changes id r (EObserve id ranges src live free store) (set_state (set_map r None) kNoRule)
| observed ranges src live free store m r0 : state_ r = kUndecided -> parsed_out r src m r0 -> changes id r (EObserve id ranges src live free store) (taken r0 m ranges).

Lemma take_in_rules w id r m ranges store : rules (fst (take_in w id r m ranges store)) = <[id := taken r m ranges]> (rules w).
Proof. unfold take_in, taken. destruct (step _ _ _ _) as [[d seen] sh]. destruct (d <? 0); [done|]. destruct (d =? 0); [done|]. by destruct store. Qed.
Lemma take_in_frame w id r m ranges store : let w' := fst (take_in w id r m ranges store) in next w' = next w /\ registry w' = registry w /\ maps w' = maps w.
Proof. unfold take_in. destruct (step _ _ _ _) as [[d seen] sh]. destruct (d <? 0); [done|]. destruct (d =? 0); [done|]. by destruct store. Qed.
Lemma holdMap_rules w id live free : rules (holdMap w id live free) = rules w \/
  free = true /\ exists o r, o <> id /\ rules w !! o = Some r /\ rules (holdMap w id live free) = <[o := dropMap r]> (rules w).
Proof.
  unfold holdMap. destruct (_ <? _); [|by left]. destruct (maps w ++ [id]) as [|o d]; [by left|]. destruct (live && negb (o =? id) && free) eqn:E; [|by left].
  apply andb_true_iff in E as [E ->]. apply andb_true_iff in E as [_ E]. b2p. unfold drop_at. cbn [rules set_maps]. destruct (rules w !! o) as [r|] eqn:Er; [|by left].
  right. split; [done|]. by exists o, r.
Qed.
Lemma holdMap_frame w id live free : next (holdMap w id live free) = next w /\ registry (holdMap w id live free) = registry w /\
  (maps (holdMap w id live free) = maps w ++ [id] /\ zlen (maps w ++ [id]) <= kMaxMaps \/
   exists o, maps w ++ [id] = o :: maps (holdMap w id live free)).
Proof.
  unfold holdMap. destruct (kMaxMaps <? zlen (maps w ++ [id])) eqn:E; b2p; [|split; [done|split; [done|by left]]].
  destruct (maps w ++ [id]) as [|o d] eqn:Ed; [by destruct (maps w)|]. cbn zeta. unfold drop_at.
  destruct (live && negb (o =? id) && free); [|split; [done|split; [done|right; by exists o]]]. cbn [rules set_maps]. destruct (rules w !! o); (split; [done|split; [done|right; by exists o]]).
Qed.

Lemma next_rule w e id r : world_ok w -> rules w !! id = Some r -> exists r', rules (next_world w e) !! id = Some r' /\ changes id r e r'.
Proof.
  intros Hw Hr. pose proof (ok_fresh w Hw) as Hf. destruct e as [mx key sz|i ranges src live free store]; cbn [next_world].
  - exists r. split; [|by constructor]. unfold forFile. destruct (_ || _)%bool; [done|]. assert (next w <> id) as Hne by (specialize (Hf id ltac:(by exists r)); lia).
    destruct (registry w !! key) as [j|]; [destruct (match rules w !! j with Some r0 => _ | None => _ end); [done|]|destruct (_ <=? _); [done|]]; cbn [fst rules]; by rewrite lookup_insert_ne.
  - unfold observe. destruct (rules w !! i) as [q|] eqn:Eq.
    2:{ exists r. split; [done|]. constructor. intros ? ? ? ? ? [= -> _ _ _ _ _]. congruence. }
    assert (i <> id -> changes id r (EObserve i ranges src live free store) r) as Other by (intros N; constructor; by intros ? ? ? ? ? [= ? _ _ _ _ _]).
    destruct (state_ q) eqn:Es; try (exists r; split; [done|]; constructor; intros ? ? ? ? ? [= -> _ _ _ _ _]; congruence).
    assert (forall q', (i = id -> changes id r (EObserve i ranges src live free store) q') ->
      exists r', <[i := q']> (rules w) !! id = Some r' /\ changes id r (EObserve i ranges src live free store) r') as G.
    { intros q' C. destruct (decide (i = id)) as [->|N]; [exists q'; rewrite lookup_insert_eq; split; [done|by apply C]|exists r; rewrite lookup_insert_ne by done; split; [done|by apply Other]]. }
    assert (i = id -> q = r) as Same by (intros ->; congruence).
    destruct (parsed_ q) eqn:Ep.
    + destruct (ok_undecided q (ok_rules w Hw i q Eq) Es Ep) as (m & Em & _). rewrite Em. pose proof (take_in_rules w i q m ranges store) as T. destruct (take_in _ _ _ _ _ _) as [w' s]. cbn [fst] in T. rewrite T.
      apply G. intros E. rewrite (Same E) in *. subst i. apply observed; [done|]. by left.
    + destruct (map_of src) as [m|] eqn:Em; [destruct (empty m) eqn:Ee|].
      * apply G. intros E. rewrite (Same E) in *. subst i. constructor; [done|done|]. intros m' Hm'. rewrite Em in Hm'. by injection Hm' as <-.
      * set (q0 := set_map q (Some m)). set (w0 := holdMap (set_rule w i q0) i live free). pose proof (take_in_rules w0 i q0 m ranges store) as T. destruct (take_in _ _ _ _ _ _) as [w' s].
        cbn [fst] in T. rewrite T. destruct (decide (i = id)) as [->|N].
        { rewrite lookup_insert_eq. eexists. split; [done|]. pose proof (Same eq_refl) as ->. apply observed; [done|]. right. done. }
        rewrite lookup_insert_ne by done. destruct (holdMap_rules (set_rule w i q0) i live free) as [R|(-> & o & ro & Ho & Hro & R)]; fold w0 in R; rewrite R; cbn [rules set_rule].
        { rewrite lookup_insert_ne by done. exists r. split; [done|by apply Other]. }
        cbn [rules set_rule] in Hro. rewrite lookup_insert_ne in Hro by done. destruct (decide (o = id)) as [->|No].
        -- rewrite lookup_insert_eq. eexists. split; [done|]. assert (ro = r) as -> by congruence. by constructor.
        -- rewrite lookup_insert_ne, lookup_insert_ne by done. exists r. split; [done|by apply Other].
      * apply G. intros E. rewrite (Same E) in *. subst i. constructor; [done|done|]. intros m' Hm'. by rewrite Em in Hm'.
Qed.

Lemma new_rule_ok key sz lim : rule_ok (new_rule key sz lim).
Proof. by split. Qed.
Lemma dropMap_ok r : rule_ok r -> rule_ok (dropMap r).
Proof.
  intros [U D S R]. unfold dropMap. destruct (bool_decide (is_Some (map_ r)) && _) eqn:E; cbn [set_state key_ size_ limit_ state_ parsed_ map_ runs_].
  - apply andb_true_iff in E as [E1 E2]. apply bool_decide_eq_true in E1, E2. split; cbn; try done; [|by rewrite R; [|congruence]].
    intros P. destruct (U P) as (M & _). rewrite M in E1. by destruct E1.
  - split; cbn; try done; [by intros (M & ? & ?)%U|]. intros Hs P. destruct (D Hs P) as (m & Hm & _). rewrite Hm in E. rewrite Hs in E. done.
Qed.
Lemma taken_ok r m ranges : rule_ok r -> state_ r = kUndecided -> parsed_ r = true -> map_ r = Some m -> empty m = false -> rule_ok (taken r m ranges).
Proof.
  intros [U D S R] Hs Hp Hm He. assert (runs_ r = []) as Hr by (apply R; congruence). unfold taken. destruct (step _ _ _ _) as [[d seen] sh].
  destruct (d <? 0); [|destruct (d =? 0)]; split; cbn; try done; try congruence.
Qed.
Lemma changes_ok id r e r' : rule_ok r -> changes id r e r' -> rule_ok r'.
Proof.
  intros H C. destruct C as [|i ranges src live store N|ranges src live free store Hs Hp Hm|ranges src live free store m r0 Hs Hp]; [done|by apply dropMap_ok| |].
  { destruct H as [U D S R]. destruct (U Hp) as (U1 & U2 & U3). split; cbn; try done. intros _. apply R. congruence. }
  destruct Hp as [(P & M & ->)|(P & M & E & ->)].
  - apply taken_ok; try done. destruct H as [_ D _ _]. destruct (D Hs P) as (m' & M' & E'). congruence.
  - destruct H as [U D S R]. destruct (U P) as (U1 & U2 & U3). apply taken_ok; try done. split; cbn; try done. intros _ _. by exists m.
Qed.
Lemma changes_kept id r e r' : rule_ok r -> changes id r e r' -> key_ r' = key_ r /\ size_ r' = size_ r /\ limit_ r' = limit_ r /\
  (state_ r <> kUndecided -> state_ r' = state_ r /\ runs_ r' = runs_ r).
Proof.
  intros [U D S R] C. assert (forall q m rg, let q' := taken q m rg in key_ q' = key_ q /\ size_ q' = size_ q /\ limit_ q' = limit_ q) as T.
  { intros q m rg. unfold taken. destruct (step _ _ _ _) as [[d seen] sh]. by destruct (d <? 0), (d =? 0). }
  destruct C as [|i ranges src live store N|ranges src live free store Hs Hp Hm|ranges src live free store m r0 Hs Hp]; [done| |done|].
  - unfold dropMap. destruct (bool_decide (is_Some (map_ r)) && bool_decide (state_ r = kUndecided)) eqn:E; [|done]. apply andb_true_iff in E as [_ E]. apply bool_decide_eq_true in E.
    split; [done|]. split; [done|]. by split.
  - specialize (T r0 m ranges) as (T1 & T2 & T3). rewrite T1, T2, T3. destruct Hp as [(_ & _ & ->)|(_ & _ & _ & ->)]; (split; [done|split; [done|split; [done|by intros ?]]]).
Qed.

(** What a call leaves of the shared parts. *)
Lemma observe_frame w i ranges src live free store : let w' := next_world w (EObserve i ranges src live free store) in
  next w' = next w /\ registry w' = registry w /\
  (maps w' = maps w \/ maps w' = maps w ++ [i] /\ zlen (maps w ++ [i]) <= kMaxMaps \/ exists o, maps w ++ [i] = o :: maps w').
Proof.
  cbn [next_world]. unfold observe. destruct (rules w !! i) as [q|]; [|split; [done|split; [done|by left]]]. destruct (state_ q); try (split; [done|split; [done|by left]]).
  destruct (parsed_ q).
  - destruct (map_ q) as [m|]; [|split; [done|split; [done|by left]]]. pose proof (take_in_frame w i q m ranges store) as T. destruct (take_in _ _ _ _ _ _) as [w' s].
    cbn [fst] in T. destruct T as (-> & -> & ->). split; [done|split; [done|by left]].
  - destruct (map_of src) as [m|]; [destruct (empty m)|]; try (split; [done|split; [done|by left]]).
    set (q0 := set_map q (Some m)). set (w0 := holdMap (set_rule w i q0) i live free). pose proof (take_in_frame w0 i q0 m ranges store) as T. destruct (take_in _ _ _ _ _ _) as [w' s].
    cbn [fst] in T. destruct T as (-> & -> & ->). destruct (holdMap_frame (set_rule w i q0) i live free) as (A & B & C). split; [done|]. split; [done|]. by right.
Qed.
Lemma next_new w e id r : rules (next_world w e) !! id = Some r -> rules w !! id = None -> fresh_ids w ->
  exists mx key sz, e = EForFile mx key sz /\ r = new_rule key sz mx /\ id = next w.
Proof.
  intros Hr Hn Hf. destruct e as [mx key sz|i ranges src live free store].
  - cbn [next_world] in Hr. unfold forFile in Hr. destruct (_ || _)%bool; [cbn in Hr; congruence|].
    assert (<[next w:=new_rule key sz mx]> (rules w) !! id = Some r -> r = new_rule key sz mx /\ id = next w) as G.
    { intros H. apply lookup_insert_Some in H as [[<- <-]|[_ H]]; [done|congruence]. }
    exists mx, key, sz. destruct (registry w !! key) as [j|]; [destruct (match rules w !! j with Some r0 => _ | None => _ end)|destruct (_ <=? _)]; cbn in Hr; try congruence; by apply G in Hr as [-> ->].
  - exfalso. cbn [next_world] in Hr. unfold observe in Hr. destruct (rules w !! i) as [q|] eqn:Eq; [|congruence].
    assert (id <> i) as Ni by congruence. destruct (state_ q); try congruence. destruct (parsed_ q).
    + destruct (map_ q) as [m|]; [|congruence]. pose proof (take_in_rules w i q m ranges store) as T. destruct (take_in _ _ _ _ _ _) as [w' s]. cbn [fst] in T. rewrite T, lookup_insert_ne in Hr by done. congruence.
    + destruct (map_of src) as [m|]; [destruct (empty m)|]; try (cbn [rules set_rule] in Hr; rewrite lookup_insert_ne in Hr by done; congruence).
      set (q0 := set_map q (Some m)) in *. set (w0 := holdMap (set_rule w i q0) i live free) in *. pose proof (take_in_rules w0 i q0 m ranges store) as T. destruct (take_in _ _ _ _ _ _) as [w' s].
      cbn [fst] in T. rewrite T, lookup_insert_ne in Hr by done. destruct (holdMap_rules (set_rule w i q0) i live free) as [R|(_ & o & ro & Ho & Hro & R)]; fold w0 in R; rewrite R in Hr; cbn [rules set_rule] in *.
      * rewrite lookup_insert_ne in Hr by done. congruence.
      * apply lookup_insert_Some in Hr as [[<- _]|[_ Hr]]; rewrite lookup_insert_ne in * by done; congruence.
Qed.

Lemma init_ok : world_ok init.
Proof.
  split; cbn [init rules registry maps next].
  - intros id r H. by rewrite lookup_empty in H.
  - intros id [r H]. cbn in H. by rewrite lookup_empty in H.
  - intros key id H. by rewrite lookup_empty in H.
  - rewrite map_size_empty. unfold kMaxRules. lia.
  - unfold kMaxMaps. change (zlen (@nil Z)) with 0. lia.
Qed.
Lemma forFile_registry w mx key sz : let w' := next_world w (EForFile mx key sz) in
  maps w' = maps w /\ (w' = w \/ next w' = next w + 1 /\ registry w' = <[key := next w]> (registry w) /\
    rules w' = <[next w := new_rule key sz mx]> (rules w) /\ (is_Some (registry w !! key) \/ Z.of_nat (size (registry w)) < kMaxRules)).
Proof.
  cbn [next_world]. unfold forFile. destruct (_ || _)%bool; [by split; [|left]|]. destruct (registry w !! key) as [j|] eqn:E.
  - destruct (match rules w !! j with Some r0 => _ | None => _ end); [by split; [|left]|]. split; [done|]. right. split; [done|]. split; [done|]. split; [done|]. by left.
  - destruct (_ <=? _) eqn:E2; [by split; [|left]|]. b2p. split; [done|]. right. split; [done|]. split; [done|]. split; [done|]. by right.
Qed.
Lemma next_rules_ok w e : world_ok w -> forall id r, rules (next_world w e) !! id = Some r -> rule_ok r.
Proof.
  intros H id r Hr. destruct (rules w !! id) as [r0|] eqn:E.
  - destruct (next_rule w e id r0 H E) as (r' & Hr' & C). assert (r = r') as -> by congruence. apply (changes_ok id r0 e r'); [by apply (ok_rules w H id)|done].
  - destruct (next_new w e id r Hr E (ok_fresh w H)) as (mx & key & sz & _ & -> & _). apply new_rule_ok.
Qed.
Lemma next_ok w e : world_ok w -> world_ok (next_world w e).
Proof.
  intros H. pose proof (next_rules_ok w e H) as HR. destruct e as [mx key sz|i ranges src live free store].
  - destruct (forFile_registry w mx key sz) as [M [E|(N & G & R & L)]]; [by rewrite E|]. split; [done| | | |by rewrite M; apply (ok_maps w H)].
    + intros id Hid. rewrite N, R in *. destruct (decide (id = next w)); [lia|]. rewrite lookup_insert_ne in Hid by done. pose proof (ok_fresh w H id Hid). lia.
    + intros k id Hk. rewrite G, R in *. apply lookup_insert_Some in Hk as [[<- <-]|[Nk Hk]]; [rewrite lookup_insert_eq; by eexists|].
      destruct (ok_registry w H k id Hk) as (r & Hr & Kr). rewrite lookup_insert_ne; [by exists r|]. pose proof (ok_fresh w H id ltac:(by exists r)). lia.
    + rewrite G. pose proof (ok_count w H) as C. destruct (registry w !! key) as [j|] eqn:E.
      * rewrite map_size_insert_Some by by exists j. done.
      * destruct L as [[? ?]|L]; [done|]. rewrite map_size_insert_None by done. lia.
  - destruct (observe_frame w i ranges src live free store) as (N & G & M). split; [done| | |by rewrite G; apply (ok_count w H)|].
    + intros id [r Hr]. rewrite N. destruct (rules w !! id) as [r0|] eqn:E; [apply (ok_fresh w H); by exists r0|].
      destruct (next_new w _ id r Hr E (ok_fresh w H)) as (? & ? & ? & ? & _). done.
    + intros k id Hk. rewrite G in Hk. destruct (ok_registry w H k id Hk) as (r & Hr & Kr). destruct (next_rule w (EObserve i ranges src live free store) id r H Hr) as (r' & Hr' & C).
      exists r'. split; [done|]. destruct (changes_kept id r _ r' (ok_rules w H id r Hr) C) as (-> & _). done.
    + pose proof (ok_maps w H) as L. destruct M as [->|[[-> L']|[o M]]]; [done|done|]. pose proof (f_equal zlen M) as Zl. rewrite zlen_app, !zlen_cons in Zl. change (zlen (@nil Z)) with 0 in Zl. lia.
Qed.
Lemma run_ok evs : forall w, world_ok w -> world_ok (run w evs).
Proof. induction evs as [|e evs IH]; intros w H; [done|]. cbn [run foldl]. apply IH. by apply next_ok. Qed.
Lemma run_rule evs : forall w id r, world_ok w -> rules w !! id = Some r -> exists r', rules (run w evs) !! id = Some r' /\
  key_ r' = key_ r /\ size_ r' = size_ r /\ limit_ r' = limit_ r /\ (state_ r <> kUndecided -> state_ r' = state_ r /\ runs_ r' = runs_ r).
Proof.
  induction evs as [|e evs IH]; intros w id r H Hr; [by exists r|]. cbn [run foldl]. destruct (next_rule w e id r H Hr) as (r1 & Hr1 & C).
  destruct (changes_kept id r e r1 (ok_rules w H id r Hr) C) as (K1 & S1 & L1 & D1). destruct (IH _ id r1 (next_ok w e H) Hr1) as (r' & Hr' & K2 & S2 & L2 & D2).
  exists r'. split; [done|]. split; [congruence|]. split; [congruence|]. split; [congruence|]. intros Hd. destruct (D1 Hd) as [E1 E2]. destruct D2 as [E3 E4]; [congruence|]. split; congruence.
Qed.

(** whatever the handles of a process do, in any order and from any number of threads, with any
    files and parses: no call meets an undecided rule without its map; a rule that is
    decided holds no map and no list of branches; only a file read directly keeps runs of
    data; the registry names a rule of its own key and at most 200,000 of them; at most 64
    maps are queued. A decision, and the runs it left, are never changed by anything later. *)
Theorem rules_settled evs evs' : let w := run init evs in
  (forall id r, rules w !! id = Some r -> rule_ok r /\
     exists r', rules (run w evs') !! id = Some r' /\ key_ r' = key_ r /\ size_ r' = size_ r /\ limit_ r' = limit_ r /\
       (state_ r <> kUndecided -> state_ r' = state_ r /\ runs_ r' = runs_ r)) /\
  (forall id r ranges src live free store, rules w !! id = Some r -> is_Some (observe w id ranges src live free store)) /\
  (forall key id, registry w !! key = Some id -> exists r, rules w !! id = Some r /\ key_ r = key) /\
  Z.of_nat (size (registry w)) <= kMaxRules /\ zlen (maps w) <= kMaxMaps.
Proof.
  cbn zeta. pose proof (run_ok evs init init_ok) as H. set (w := run init evs) in *. split; [|split; [|split; [apply (ok_registry w H)|split; [apply (ok_count w H)|apply (ok_maps w H)]]]].
  - intros id r Hr. split; [by apply (ok_rules w H id)|]. by apply run_rule.
  - intros id r ranges src live free store Hr. unfold observe. rewrite Hr. pose proof (ok_rules w H id r Hr) as O. destruct (state_ r) eqn:Es; try done.
    destruct (parsed_ r) eqn:Ep; [destruct (ok_undecided r O Es Ep) as (m & -> & _); done|]. destruct (map_of src) as [m|]; [by destruct (empty m)|done].
Qed.
End RuleSpec.
