(* ===== verification/ReadRuleLive.v ===== *)
(** * The decision of the max_read_fraction rule (src/plugin/ReadRule.cc)

    One rule's life, with everything the other handles of the process do in between: a reader
    of several branches gets its decision after at most as many requests as the file has
    branches; a reader within the limit is never sent to the origin; few maps are held. *)

From stdpp Require Import gmap sorting.
From S2P Require Import Prelude WireRead WireSpan Footprint RootFile TreeMeta ReadMap ReadShare ReadStep ReadRule ReadRuleSpec.

Module RuleLive.
Import ReadMap ReadShare ReadStep Rule RuleSpec.

Lemma union_longer l1 l2 : StronglySorted Z.lt l1 -> StronglySorted Z.lt l2 -> zlen l1 <= zlen (set_union l1 l2) /\ zlen l2 <= zlen (set_union l1 l2).
Proof.
  intros H1 H2. unfold zlen. split; apply Nat2Z.inj_le, submseteq_length, NoDup_submseteq; try by apply sorted_lt_NoDup.
  all: intros x Hx; apply set_union_in; tauto.
Qed.
Lemma among_sub l1 l2 : l1 ⊆ l2 -> forall g, among l1 g = true -> among l2 g = true.
Proof. intros H g Hg%among_in. by apply among_in, H. Qed.
Lemma bytes_in_mono f g us : Forall (fun u => 0 <= u_len u) us -> (forall x, f x = true -> g x = true) -> bytes_in f us <= bytes_in g us.
Proof.
  intros L H. induction L as [|u us Hu _ IH]; [done|]. cbn [bytes_in foldr]. fold (bytes_in f us) (bytes_in g us). specialize (H (u_group u)).
  destruct (f _); [rewrite H by done; lia|]. case_match; lia.
Qed.

(** ** One rule *)
Section life.
Context (m : ReadMap) (id limit : Z) (G : list Z).
Hypotheses (Hm : map_ok m) (Hs : share_ok m) (Hl : 0 <= limit < 100) (He : empty m = false).

(** What an observation of this rule parses and asks. *)
Definition reads_map (e : Event) : Prop :=
  match e with EObserve i ranges src _ _ _ => i = id -> map_of src = Some m /\ ranges_ok ranges | _ => True end.
Definition asks (e : Event) : bool :=
  match e with EObserve i ranges _ _ _ _ => (i =? id) && (2 <=? zlen (groupsOf m ranges)) | _ => false end.
Definition within (e : Event) : Prop :=
  match e with EObserve i ranges _ _ _ _ => i = id -> forall g, half_asked m ranges g -> g ∈ G | _ => True end.

(** The rule after [k] requests of several branches. *)
Definition at_work (k : Z) (r : ReadRule) : Prop :=
  limit_ r = limit /\ state_ r <> kNoRule /\
  (state_ r = kUndecided -> (parsed_ r = true -> map_ r = Some m) /\ seen_ok m (seen_ r) /\ (k = 0 \/ k + 1 <= zlen (seen_ r))).

Lemma taken_cases r ranges : limit_ r = limit -> state_ r = kUndecided -> seen_ok m (seen_ r) -> ranges_ok ranges ->
  let now := groupsOf m ranges in let all := set_union (seen_ r) now in let r' := taken r m ranges in
  seen_ok m all /\ limit_ r' = limit /\
  (state_ r' = kDirect /\ limit * bytes_in (fun _ => true) (units_ m) < 100 * bytes_in (among all) (units_ m) \/ state_ r' = kCache \/
   state_ r' = kUndecided /\ map_ r' = map_ r /\ seen_ r' = all /\ ~ (2 <= zlen now /\ now ⊆ seen_ r)).
Proof using Hm Hs Hl.
  intros HL Hu Hseen Hr. cbn zeta. split; [by apply union_seen|]. unfold taken. rewrite HL, (step_spec m (seen_ r) ranges limit Hm Hs Hseen Hr Hl). cbn zeta.
  unfold decision. set (now := groupsOf m ranges). destruct (bool_decide (now = [])) eqn:E1.
  { apply bool_decide_eq_true in E1. rewrite E1. cbn. split; [done|]. right. right. split; [done|]. split; [done|]. split; [done|]. change (zlen (@nil Z)) with 0. lia. }
  destruct (_ <? 100 * _) eqn:E2; b2p; [cbn; split; [done|]; by left|]. destruct (2 <=? zlen now) eqn:E3; b2p; cbn [andb].
  - destruct (bool_decide (now ⊆ seen_ r)) eqn:E4; cbn; (split; [done|]); right; [by left|]. apply bool_decide_eq_false in E4. right. split; [done|]. split; [done|]. split; [done|]. by intros [_ ?].
  - cbn. split; [done|]. right. right. split; [done|]. split; [done|]. split; [done|]. lia.
Qed.
Lemma parsed_out_seen r src r0 m' : rule_ok r -> parsed_out r src m' r0 -> limit_ r0 = limit_ r /\ seen_ r0 = seen_ r /\ state_ r0 = state_ r /\ map_ r0 = Some m' /\ parsed_ r0 = true.
Proof using. intros _ [(P & M & ->)|(P & M & _ & ->)]; done. Qed.

(** Everything a call can do to the rule, by what it observes. *)
Lemma at_work_step k r e r' : rule_ok r -> changes id r e r' -> reads_map e -> 0 <= k -> at_work k r ->
  at_work (if asks e then k + 1 else k) r' /\
  (within e -> state_ r <> kDirect -> (state_ r = kUndecided -> seen_ r ⊆ G) ->
   100 * bytes_in (among G) (units_ m) <= limit * bytes_in (fun _ => true) (units_ m) ->
   state_ r' <> kDirect /\ (state_ r' = kUndecided -> seen_ r' ⊆ G)).
Proof using Hm Hs Hl He.
  intros Ho C Hread Hk (HL & HN & HU). destruct C as [e Hq|i ranges src live store N|ranges src live free store Hu Hp Hmm|ranges src live free store m' r0 Hu Hp].
  - split; [|by intros]. split; [done|]. split; [done|]. intros Hu. destruct (HU Hu) as (H1 & H2 & H3). split; [done|]. split; [done|]. destruct (asks e) eqn:Ea; [|done].
    exfalso. destruct e as [|i ranges src live free store]; [done|]. cbn in Ea. b2p. subst i. by apply (Hq ranges src live free store).
  - assert (asks (EObserve i ranges src live true store) = false) as -> by (cbn; by rewrite (proj2 (Z.eqb_neq _ _))).
    unfold dropMap. destruct (bool_decide (is_Some (map_ r)) && bool_decide (state_ r = kUndecided)) eqn:E.
    + split; [split; [done|split; done]|]. intros _ _ _ _. by split.
    + split; [split; [done|split; [done|]]; cbn [state_]|intros _ ? ? _; split; [done|]; cbn [seen_]; intros _ x Hx; by apply elem_of_nil in Hx].
      intros Hu. destruct (HU Hu) as (H1 & H2 & H3). rewrite Hu in E. assert (map_ r = None) as Hn by (destruct (map_ r); done). cbn [parsed_ map_ seen_].
      assert (parsed_ r = false) as Hp by (destruct (parsed_ r) eqn:Ep; [rewrite (H1 eq_refl) in Hn; done|done]). destruct (ok_unparsed r Ho Hp) as (_ & _ & Hz). rewrite Hz in H3.
      split; [congruence|]. split; [by repeat constructor|]. change (zlen (@nil Z)) with 0 in H3. left. lia.
  - exfalso. destruct (Hread eq_refl) as [M _]. by rewrite (Hmm m M) in He.
  - destruct (Hread eq_refl) as [M Hr]. destruct (HU Hu) as (H1 & H2 & H3). destruct (parsed_out_seen r src r0 m' Ho Hp) as (E1 & E2 & E3 & E4 & E5).
    assert (m' = m) as -> by (destruct Hp as [(P & M' & _)|(P & M' & _)]; [rewrite (H1 P) in M'|rewrite M in M']; congruence).
    destruct (taken_cases r0 ranges ltac:(congruence) ltac:(congruence) ltac:(congruence) Hr) as (A & B & C). rewrite E2 in A, C. destruct (groups_spec m ranges Hm Hr) as [GS GM].
    split.
    + split; [done|]. split; [by destruct C as [[-> _]|[->|[-> _]]]|]. intros Hu'. destruct C as [[C _]|[C|(_ & C1 & C2 & C3)]]; [congruence|congruence|].
      split; [congruence|]. rewrite C2. split; [done|]. pose proof (grew_iff (seen_ r) (groupsOf m ranges) (proj1 H2) GS) as Gr.
      assert (zlen (seen_ r) <= zlen (set_union (seen_ r) (groupsOf m ranges))) as Le by by apply union_longer; [apply H2|].
      cbn [asks]. rewrite Z.eqb_refl. cbn [andb]. destruct (2 <=? zlen (groupsOf m ranges)) eqn:E; b2p; [|destruct H3; [by left|right; lia]]. right.
      assert (zlen (groupsOf m ranges) <= zlen (set_union (seen_ r) (groupsOf m ranges))) as Le2 by by apply union_longer; [apply H2|].
      destruct H3 as [->|H3]; [lia|]. destruct (zlen (seen_ r) <? zlen (set_union (seen_ r) (groupsOf m ranges))) eqn:Lt; b2p; [lia|]. destruct C3. split; [done|]. by apply Gr.
    + intros Hin Hd Hsub Hb. specialize (Hin eq_refl). specialize (Hsub Hu).
      assert (set_union (seen_ r) (groupsOf m ranges) ⊆ G) as Sub by (intros g [Hg|Hg]%set_union_in; [by apply Hsub|apply Hin; by apply GM]).
      destruct C as [[_ C]|[->|(-> & _ & -> & _)]]; [|done|by split]. exfalso. pose proof (bytes_in_mono _ _ (units_ m) (lens_nonneg m Hm) (among_sub _ _ Sub)). lia.
Qed.

Lemma life evs : forall w r k, world_ok w -> rules w !! id = Some r -> Forall reads_map evs -> 0 <= k -> at_work k r ->
  exists r', rules (run w evs) !! id = Some r' /\ at_work (k + zlen (List.filter asks evs)) r' /\
    (Forall within evs -> state_ r <> kDirect -> (state_ r = kUndecided -> seen_ r ⊆ G) ->
     100 * bytes_in (among G) (units_ m) <= limit * bytes_in (fun _ => true) (units_ m) -> state_ r' <> kDirect).
Proof using Hm Hs Hl He.
  induction evs as [|e evs IH]; intros w r k Hw Hr Hf Hk Ha.
  { exists r. split; [done|]. cbn [List.filter]. change (zlen (@nil Event)) with 0. rewrite Z.add_0_r. split; [done|]. by intros _ ? _ _. }
  inversion Hf as [|? ? He1 Hf']; subst. destruct (next_rule w e id r Hw Hr) as (r1 & Hr1 & C). pose proof (ok_rules w Hw id r Hr) as Ho.
  destruct (at_work_step k r e r1 Ho C He1 Hk Ha) as [A1 W1]. cbn [run foldl List.filter].
  destruct (IH (next_world w e) r1 (if asks e then k + 1 else k) (next_ok w e Hw) Hr1 Hf') as (r' & Hr' & A2 & W2); [by case_match; lia|done|].
  exists r'. split; [done|]. split.
  - destruct (asks e); [rewrite zlen_cons, Z.add_assoc|]; done.
  - intros Hin Hd Hsub Hb. inversion Hin as [|? ? Hi1 Hi2]; subst. destruct (W1 Hi1 Hd Hsub Hb) as [D1 S1]. by apply W2.
Qed.
Lemma at_work_done k r : at_work k r -> 0 < k -> zlen (groupBytes_ m) <= k -> state_ r = kCache \/ state_ r = kDirect.
Proof using.
  intros (_ & HN & HU) Hk HG. destruct (state_ r) eqn:E; [|by left|by right|done]. destruct (HU eq_refl) as (_ & H2 & H3).
  pose proof (seen_count m (seen_ r) H2). lia.
Qed.
End life.

Lemma asks_nonempty m id e : asks m id e = true -> empty m = false.
Proof. destruct e as [|i ranges src live free store]; [done|]. cbn. intros H. b2p. unfold groupsOf in *. destruct (empty m); [|done]. change (zlen (@nil Z)) with 0 in *. lia. Qed.
Lemma at_work_fresh m limit r : rule_ok r -> parsed_ r = false -> limit_ r = limit -> at_work m limit 0 r.
Proof.
  intros Ho Hp HL. destruct (ok_unparsed r Ho Hp) as (_ & Hu & Hz). split; [done|]. split; [congruence|]. intros _. split; [congruence|]. rewrite Hz. split; [by repeat constructor|by left].
Qed.

(** C13: a reader of several branches is decided about. Take a file with a rule that has not
    been asked yet, and let the process go on in any way, this file's metadata being what it
    is: once as many of the requests for this file name two branches or more as the file has
    branches, the file is either cached for good or read directly -- whatever else those
    requests, and every other handle, do in between. *)
Theorem decision_comes (m : ReadMap) (id : Z) (evs0 evs : list Event) (r : ReadRule) :
  map_ok m -> share_ok m -> rules (run init evs0) !! id = Some r -> parsed_ r = false -> 0 <= limit_ r < 100 ->
  Forall (reads_map m id) evs ->
  0 < zlen (List.filter (asks m id) evs) -> zlen (groupBytes_ m) <= zlen (List.filter (asks m id) evs) ->
  exists r', rules (run init (evs0 ++ evs)) !! id = Some r' /\ (state_ r' = kCache \/ state_ r' = kDirect).
Proof.
  intros Hm Hs Hr Hp Hl Hf H0 HG. pose proof (run_ok evs0 init init_ok) as Hw. pose proof (ok_rules _ Hw id r Hr) as Ho.
  assert (empty m = false) as He.
  { destruct (List.filter (asks m id) evs) as [|e l] eqn:E; [by change (zlen (@nil Event)) with 0 in H0|]. apply (asks_nonempty m id e).
    apply (filter_In (asks m id) e evs). rewrite E. by left. }
  destruct (life m id (limit_ r) [] Hm Hs Hl He evs (run init evs0) r 0 Hw Hr Hf ltac:(lia) (at_work_fresh m _ r Ho Hp eq_refl)) as (r' & Hr' & A & _).
  exists r'. unfold run in *. rewrite foldl_app. split; [done|]. by apply (at_work_done m (limit_ r) _ r' A).
Qed.

(** C12: a reader within the limit is never sent to the origin. If every branch any request for
    the file asks half a unit of is among [G], and the units of [G] hold at most the limit's
    share of the file's data, the file is never read directly -- whatever the order, the number
    and the overlaps of the requests, and whatever the other handles do. *)
Theorem never_direct_within (m : ReadMap) (id : Z) (G : list Z) (evs0 evs : list Event) (r : ReadRule) :
  map_ok m -> share_ok m -> empty m = false -> rules (run init evs0) !! id = Some r -> parsed_ r = false -> 0 <= limit_ r < 100 ->
  Forall (reads_map m id) evs -> Forall (within m id G) evs ->
  100 * bytes_in (among G) (units_ m) <= limit_ r * bytes_in (fun _ => true) (units_ m) ->
  exists r', rules (run init (evs0 ++ evs)) !! id = Some r' /\ state_ r' <> kDirect /\ forall off len, rule_readsData r' off len = false.
Proof.
  intros Hm Hs He Hr Hp Hl Hf Hin Hb. pose proof (run_ok evs0 init init_ok) as Hw. pose proof (ok_rules _ Hw id r Hr) as Ho. destruct (ok_unparsed r Ho Hp) as (_ & Hu & Hz).
  destruct (life m id (limit_ r) G Hm Hs Hl He evs (run init evs0) r 0 Hw Hr Hf ltac:(lia) (at_work_fresh m _ r Ho Hp eq_refl)) as (r' & Hr' & _ & W).
  exists r'. unfold run in *. rewrite foldl_app. split; [done|]. assert (state_ r' <> kDirect) as Hd.
  { apply W; [done|congruence| |done]. intros _ x Hx. rewrite Hz in Hx. by apply elem_of_nil in Hx. }
  split; [done|]. intros off len. unfold rule_readsData, direct. by rewrite bool_decide_eq_false_2.
Qed.

(** ** How many maps are held *)
Definition calm (e : Event) : Prop := match e with EObserve _ _ _ live free _ => live = true /\ free = true | _ => True end.
Definition queued (w : World) : Prop := forall id r, rules w !! id = Some r -> is_Some (map_ r) -> id ∈ maps w.
Lemma hold_queued w i r : queued w -> queued (holdMap (set_rule w i r) i true true).
Proof.
  intros Q. assert (forall j q, j <> i -> rules (set_rule w i r) !! j = Some q -> is_Some (map_ q) -> j ∈ maps w) as Q'.
  { intros j q N Hq. cbn [rules set_rule] in Hq. rewrite lookup_insert_ne in Hq by done. by apply Q. }
  assert (forall j q, rules (set_rule w i r) !! j = Some q -> is_Some (map_ q) -> j = i \/ j ∈ maps w) as Q2.
  { intros j q Hq M. destruct (decide (j = i)) as [->|N]; [by left|right]. by apply (Q' j q N Hq). }
  unfold holdMap. destruct (kMaxMaps <? zlen (maps (set_rule w i r) ++ [i])) eqn:E; b2p; cbn [maps set_rule] in *.
  2:{ intros j q Hq M. cbn [maps set_maps rules] in *. apply elem_of_app. destruct (Q2 j q Hq M) as [->|H]; [right; apply list_elem_of_here|by left]. }
  destruct (maps w) as [|o l] eqn:El; [change (zlen ([] ++ [i])) with 1 in E; unfold kMaxMaps in E; lia|]. cbn [app andb]. rewrite andb_true_r.
  assert (forall j, j = i \/ j ∈ o :: l -> j <> o \/ o = i -> j ∈ l ++ [i]) as L.
  { intros j [->|[->|H]%elem_of_cons] Ho; apply elem_of_app; [right; apply list_elem_of_here| |by left]. destruct Ho as [?| ->]; [done|right; apply list_elem_of_here]. }
  destruct (o =? i) eqn:Eo; b2p; cbn [negb].
  - intros j q Hq M. cbn [rules set_maps maps] in *. apply L; [by apply (Q2 j q)|by right].
  - unfold drop_at. cbn [rules set_maps]. destruct (rules (set_rule w i r) !! o) as [ro|] eqn:Er; intros j q Hq M; cbn [rules set_maps set_rule maps] in *.
    + apply lookup_insert_Some in Hq as [[<- <-]|[Nj Hq]]; [|apply L; [by apply (Q2 j q)|left; congruence]].
      exfalso. unfold dropMap in M. cbn [map_] in M. by destruct M.
    + apply L; [by apply (Q2 j q)|left; intros ->; congruence].
Qed.
Lemma queued_step w e : world_ok w -> queued w -> calm e -> queued (next_world w e).
Proof.
  intros Hw Q Hc. destruct e as [mx key sz|i ranges src live free store].
  - destruct (forFile_registry w mx key sz) as [M [E|(_ & _ & R & _)]]; [by rewrite E|]. intros j q Hq Hm. rewrite M. rewrite R in Hq.
    apply lookup_insert_Some in Hq as [[_ <-]|[_ Hq]]; [by destruct Hm|by apply (Q j q)].
  - destruct Hc as [-> ->]. cbn [next_world]. unfold observe. destruct (rules w !! i) as [q|] eqn:Eq; [|done]. destruct (state_ q) eqn:Es; try done.
    assert (forall w0 r m, queued w0 -> i ∈ maps w0 -> queued (fst (take_in w0 i r m ranges store))) as T.
    { intros w0 r m Q0 Hi j q' Hq' Hm'. pose proof (take_in_frame w0 i r m ranges store) as (_ & _ & ->). rewrite take_in_rules in Hq'.
      apply lookup_insert_Some in Hq' as [[<- _]|[_ Hq']]; [done|by apply (Q0 j q')]. }
    assert (forall r, map_ r = None -> queued (set_rule w i r)) as N.
    { intros r Hr j q' Hq' Hm'. cbn [rules set_rule maps] in *. apply lookup_insert_Some in Hq' as [[_ <-]|[_ Hq']]; [rewrite Hr in Hm'; by destruct Hm'|by apply (Q j q')]. }
    destruct (parsed_ q) eqn:Ep.
    + destruct (ok_undecided q (ok_rules w Hw i q Eq) Es Ep) as (m & Em & _). rewrite Em. pose proof (T w q m Q) as T'. destruct (take_in _ _ _ _ _ _) as [w' s]. apply T', (Q i q Eq). by exists m.
    + destruct (map_of src) as [m|]; [destruct (empty m)|]; try by apply N.
      set (q0 := set_map q (Some m)). pose proof (hold_queued w i q0 Q) as Q0. set (w0 := holdMap (set_rule w i q0) i true true) in *.
      assert (i ∈ maps w0) as Hi.
      { destruct (holdMap_rules (set_rule w i q0) i true true) as [R|(_ & o & ro & No & _ & R)]; fold w0 in R; apply (Q0 i q0); try (by exists m); rewrite R; cbn [rules set_rule]; [by rewrite lookup_insert_eq|].
        rewrite lookup_insert_ne by congruence. by rewrite lookup_insert_eq. }
      pose proof (T w0 q0 m Q0) as T'. destruct (take_in _ _ _ _ _ _) as [w' s]. by apply T'.
Qed.
Lemma queued_run evs : forall w, world_ok w -> queued w -> Forall calm evs -> queued (run w evs).
Proof. induction evs as [|e evs IH]; intros w Hw Q Hc; [done|]. inversion Hc; subst. cbn [run foldl]. apply IH; [by apply next_ok|by apply queued_step|done]. Qed.

(** A process never holds more than 64 parsed maps, as long as no rule is busy when it is the
    oldest one queued: the files whose map is held are then among those queued. *)
Theorem maps_bounded evs : Forall calm evs ->
  (size (filter (fun p : Z * ReadRule => is_Some (map_ (snd p))) (rules (run init evs))) <= 64)%nat.
Proof.
  intros Hc. pose proof (run_ok evs init init_ok) as Hw. assert (queued (run init evs)) as Q by (apply queued_run; [apply init_ok|intros id r H; cbn in H; by rewrite lookup_empty in H|done]).
  set (w := run init evs) in *. pose proof (ok_maps w Hw) as L. set (h := filter _ _).
  assert (elements (dom h) ⊆+ maps w) as Sub.
  { apply NoDup_submseteq; [apply NoDup_elements|]. intros id Hid. apply elem_of_elements, elem_of_dom in Hid as [r Hr]. apply map_lookup_filter_Some in Hr as [Hr Hm]. by apply (Q id r). }
  apply submseteq_length in Sub. rewrite <- size_dom. unfold size, set_size. cbn [compose]. unfold kMaxMaps, zlen in L. lia.
Qed.

(** ** A process that opens one file *)
Definition demo_tree : TreeData.FileMeta := TreeData.mkFile false 400 0 0 4 4 (Root.mkKey 0 0 0 0 0 0 [] [] []) [] 0 0 0 0 0 [] []
  [TreeData.mkBranch [] 2 2 0 [100; 300] [50; 10] [] [] [] [] 0 0 0 0 0 false; TreeData.mkBranch [] 1 1 0 [150] [60] [] [] [] [] 0 0 0 0 0 false] [].
Definition demo_parse : Parsed := mkParsed demo_tree false [] [].
Definition demo_open (limit : Z) : list Event := [EForFile limit (bs "k") kMinBytes].
Definition demo_read (ranges : list (Z * Z)) : Event := EObserve 0 ranges demo_parse true true true.
Lemma demo_reads ranges : Forall (fun r => is_u64 (fst r) /\ is_u64 (snd r)) ranges -> reads_map demo_map 0 (demo_read ranges).
Proof. intros H _. split; [vm_compute; reflexivity|exact H]. Qed.

Lemma decision_comes_witness : let evs := [demo_read [(0, 10)]; demo_read [(100, 110)]; demo_read [(100, 110)]] in
  state_ <$> (rules (run init (demo_open 50 ++ evs)) !! 0) = Some kDirect /\
  exists r', rules (run init (demo_open 50 ++ evs)) !! 0 = Some r' /\ (state_ r' = kCache \/ state_ r' = kDirect).
Proof.
  split; [vm_compute; reflexivity|]. apply (decision_comes demo_map 0 (demo_open 50) _ (new_rule (bs "k") kMinBytes 50)).
  - exact demo_map_ok.
  - exact demo_share_ok.
  - vm_compute. reflexivity.
  - reflexivity.
  - cbn. lia.
  - repeat (apply Forall_cons_2; [apply demo_reads; repeat constructor; cbn; unfold is_u64; lia|]). apply Forall_nil_2.
  - vm_compute. reflexivity.
  - vm_compute. discriminate.
Defined.
Lemma never_direct_within_witness : 
  exists r', rules (run init (demo_open 60 ++ [demo_read [(100, 50); (300, 10)]])) !! 0 = Some r' /\ state_ r' <> kDirect /\ forall off len, rule_readsData r' off len = false.
Proof.
  apply (never_direct_within demo_map 0 [0] (demo_open 60) _ (new_rule (bs "k") kMinBytes 60)).
  - exact demo_map_ok.
  - exact demo_share_ok.
  - reflexivity.
  - vm_compute. reflexivity.
  - reflexivity.
  - cbn. lia.
  - repeat (apply Forall_cons_2; [apply demo_reads; repeat constructor; cbn; unfold is_u64; lia|]). apply Forall_nil_2.
  - apply Forall_cons_2; [|apply Forall_nil_2]. intros _ g (u & Hu & <- & Hc). cbn [units_ demo_map] in Hu. rewrite !elem_of_cons in Hu. destruct Hu as [-> | [-> | [-> | Hu]]].
    + apply list_elem_of_here.
    + exfalso. vm_compute in Hc. by apply Hc.
    + apply list_elem_of_here.
    + by apply elem_of_nil in Hu.
  - vm_compute. discriminate.
Defined.
Definition demo_calm : list Event := demo_open 60 ++ [demo_read [(100, 50)]].
Lemma maps_bounded_witness : Forall calm demo_calm /\ (size (filter (fun p : Z * ReadRule => is_Some (map_ (snd p))) (rules (run init demo_calm))) <= 64)%nat.
Proof. assert (Forall calm demo_calm) as H by (repeat constructor). split; [exact H|]. apply (maps_bounded _ H). Defined.
End RuleLive.
