(* ===== verification/Executor.v ===== *)
(** * The thread pool (src/plugin/Executor.h, Executor.cc)

    A work queue drained by the workers and a queue of timers drained by one thread. Each
    locked section is one step; [std::priority_queue] gives an element with the least
    deadline (the standard does not say which among equal ones: the model takes the oldest). *)

From S2P Require Import Prelude.
Local Open Scope u64_scope.

Module Executor.

(** ** State and operations *)

Section Exec.
Context {T : Type}.

Record Timed := mkTimed { deadlineNs : Z; task : T }.
Record Executor := mkExec { queue_ : list T; timers_ : list Timed }.
Definition init : Executor := mkExec [] [].

Definition post (t : T) (e : Executor) : Executor := mkExec (queue_ e ++ [t]) (timers_ e).

Definition postAfter (nowNs delayMs : Z) (t : T) (e : Executor) : Executor :=
  if delayMs =? 0 then post t e
  else mkExec (queue_ e) (timers_ e ++ [mkTimed (nowNs +% delayMs *% 1000000) t]).

(** The locked section of one turn of [loop]: the next task; [None] while the worker waits. *)
Definition loop (e : Executor) : option (T * Executor) :=
  match queue_ e with
  | [] => None
  | t :: q => Some (t, mkExec q (timers_ e))
  end.

(** [timers_.top()] with what [timers_.pop()] leaves. *)
Fixpoint top_pop (l : list Timed) : option (Timed * list Timed) :=
  match l with
  | [] => None
  | t :: l' =>
      match top_pop l' with
      | None => Some (t, [])
      | Some (m, r) => if deadlineNs t <=? deadlineNs m then Some (t, l') else Some (m, t :: r)
      end
  end.

(** One turn of [timerLoop] at the clock reading [nowNs]: a due timer is handed to [post];
    otherwise it waits. *)
Definition timerLoop (nowNs : Z) (e : Executor) : Executor :=
  match top_pop (timers_ e) with
  | None => e
  | Some (t, rest) =>
      if deadlineNs t <=? nowNs then post (task t) (mkExec (queue_ e) rest) else e
  end.

(** ** Runs: the locked sections of any number of threads, in any order *)

Inductive Ev :=
  | Post (t : T)
  | PostAfter (nowNs delayMs : Z) (t : T)
  | Take
  | Timer (nowNs : Z).

(** The pool with the tasks its workers have taken, in order. *)
Definition step (ev : Ev) (s : list T * Executor) : list T * Executor :=
  let '(ran, e) := s in
  match ev with
  | Post t => (ran, post t e)
  | PostAfter now d t => (ran, postAfter now d t e)
  | Take => match loop e with Some (t, e) => (ran ++ [t], e) | None => (ran, e) end
  | Timer now => (ran, timerLoop now e)
  end.
Definition run (evs : list Ev) (s : list T * Executor) : list T * Executor :=
  foldl (fun s ev => step ev s) s evs.

Definition posted_by (ev : Ev) : list T :=
  match ev with Post t => [t] | PostAfter _ _ t => [t] | _ => [] end.
Definition posted (evs : list Ev) : list T := concat (map posted_by evs).
Definition pending (e : Executor) : list T := queue_ e ++ map task (timers_ e).

(** Every timer due, then a worker for every task: what the two loops do when no one posts. *)
Definition drain_evs (nowNs : Z) (e : Executor) : list Ev :=
  replicate (length (timers_ e)) (Timer nowNs) ++ replicate (length (pending e)) Take.

End Exec.
Arguments Timed : clear implicits.
Arguments Executor : clear implicits.
Arguments Ev : clear implicits.

(** ** Facts *)

Section Facts.
Context {T : Type}.
Implicit Types (e : Executor T) (l : list (Timed T)) (ev : Ev T) (evs : list (Ev T)) (s : list T * Executor T) (ran : list T).

Lemma top_pop_None l : top_pop l = None -> l = [].
Proof. destruct l as [|t l]; [done|]. cbn. destruct (top_pop l) as [[m r]|]; [case_match|]; done. Qed.

(** The pop takes one element, and it has the least deadline. *)
Lemma top_pop_Some l t r :
  top_pop l = Some (t, r) ->
  l ≡ₚ t :: r /\ Forall (fun u => deadlineNs t <= deadlineNs u) l.
Proof.
  revert t r; induction l as [|u l IH]; intros t r E; [discriminate|].
  cbn in E. destruct (top_pop l) as [[m r']|] eqn:El.
  - destruct (IH _ _ eq_refl) as [P F]. case_match; b2p; simplify_eq.
    + split; [done|]. constructor; [lia|]. eapply Forall_impl; [exact F|]. cbn; intros; lia.
    + split; [rewrite P; apply perm_swap|]. constructor; [lia|done].
  - apply top_pop_None in El; simplify_eq. split; [done|]. repeat constructor. lia.
Qed.

Lemma timerLoop_pending now e : pending (timerLoop now e) ≡ₚ pending e.
Proof.
  unfold timerLoop. destruct (top_pop (timers_ e)) as [[t r]|] eqn:E; [|done].
  apply top_pop_Some in E as [P _]. case_match; [|done].
  unfold pending, post; cbn. rewrite P. cbn. by rewrite <- app_assoc.
Qed.

Lemma postAfter_pending now d (t : T) e : pending (postAfter now d t e) ≡ₚ pending e ++ [t].
Proof.
  unfold postAfter, pending, post. case_match; cbn.
  - rewrite <- !app_assoc. f_equiv. apply Permutation_app_comm.
  - by rewrite map_app, app_assoc.
Qed.

Lemma step_pending ev s :
  fst (step ev s) ++ pending (snd (step ev s)) ≡ₚ fst s ++ pending (snd s) ++ posted_by ev.
Proof.
  destruct s as [ran e], ev as [t|now d t| |now]; cbn.
  - unfold pending, post; cbn. rewrite <- !app_assoc. do 2 f_equiv. apply Permutation_app_comm.
  - by rewrite postAfter_pending.
  - unfold loop. destruct e as [[|t q] tm]; cbn; rewrite app_nil_r; [done|].
    unfold pending; cbn. by rewrite <- app_assoc.
  - by rewrite timerLoop_pending, app_nil_r.
Qed.

Lemma run_cons ev evs s : run (ev :: evs) s = run evs (step ev s).
Proof. done. Qed.

(** Nothing is lost, invented or run twice. *)
Lemma run_pending evs s :
  fst (run evs s) ++ pending (snd (run evs s)) ≡ₚ fst s ++ pending (snd s) ++ posted evs.
Proof.
  revert s; induction evs as [|ev evs IH]; intros s.
  - unfold posted; cbn. by rewrite app_nil_r.
  - rewrite run_cons, IH. unfold posted; cbn. by rewrite app_assoc, step_pending, <- !app_assoc.
Qed.

(** A timer that is not due stays. *)
Lemma timerLoop_early now e t :
  t ∈ timers_ e -> now < deadlineNs t -> t ∈ timers_ (timerLoop now e).
Proof.
  intros Ht Hd. unfold timerLoop. destruct (top_pop (timers_ e)) as [[m r]|] eqn:E; [|done].
  apply top_pop_Some in E as [P _]. case_match; [|done]. b2p. cbn.
  rewrite P in Ht. apply elem_of_cons in Ht as [->|]; [lia|done].
Qed.

Lemma step_early ev s t :
  t ∈ timers_ (snd s) -> (forall now, ev = Timer now -> now < deadlineNs t) ->
  t ∈ timers_ (snd (step ev s)).
Proof.
  destruct s as [ran e], ev as [x|now d x| |now]; cbn; intros Ht Hn; [done| | |].
  - unfold postAfter. case_match; cbn; [done|]. apply elem_of_app; by left.
  - unfold loop. destruct e as [[|y q] tm]; done.
  - apply timerLoop_early; auto.
Qed.

Lemma run_early evs s t :
  t ∈ timers_ (snd s) -> Forall (fun ev => forall now, ev = Timer now -> now < deadlineNs t) evs ->
  t ∈ timers_ (snd (run evs s)).
Proof.
  revert s; induction evs as [|ev evs IH]; intros s Ht F; [done|].
  apply Forall_cons in F as [Hev F]. rewrite run_cons. apply IH; [|done]. by apply step_early.
Qed.

Lemma run_app evs evs' s : run (evs ++ evs') s = run evs' (run evs s).
Proof. unfold run. by rewrite foldl_app. Qed.

Lemma run_takes n ran e :
  (n <= length (queue_ e))%nat ->
  run (replicate n Take) (ran, e) = (ran ++ take n (queue_ e), mkExec (drop n (queue_ e)) (timers_ e)).
Proof.
  revert ran e; induction n as [|n IH]; intros ran [[|t q] tm] L; cbn in L; try lia.
  - cbn. by rewrite app_nil_r.
  - cbn. by rewrite app_nil_r.
  - cbn [replicate]. rewrite run_cons. cbn [step loop queue_ timers_]. rewrite IH by (cbn; lia). cbn. by rewrite <- app_assoc.
Qed.

(** When every timer is due, the timer thread empties its queue. *)
Lemma run_timers now n ran e :
  n = length (timers_ e) -> Forall (fun t => deadlineNs t <= now) (timers_ e) ->
  exists q, run (replicate n (Timer now)) (ran, e) = (ran, mkExec (queue_ e ++ q) []) /\
    q ≡ₚ map task (timers_ e).
Proof.
  revert e; induction n as [|n IH]; intros [qu tm] L F; cbn in L.
  - destruct tm; [|done]. exists []. cbn. by rewrite app_nil_r.
  - cbn [replicate]. rewrite run_cons. cbn [step]. unfold timerLoop. cbn [timers_ queue_]. destruct (top_pop tm) as [[t r]|] eqn:E.
    + pose proof E as E'. apply top_pop_Some in E' as [P _].
      assert (Forall (fun t => deadlineNs t <= now) (t :: r)) as [Ht Fr]%Forall_cons by (by rewrite <- P).
      rewrite (proj2 (Z.leb_le _ _) Ht).
      destruct (IH (post (task t) (mkExec qu r))) as (q & Er & Pq); cbn in *.
      * rewrite P in L. cbn in L. lia.
      * done.
      * exists (task t :: q). rewrite Er. cbn. rewrite <- app_assoc. split; [done|].
        rewrite P. cbn. by f_equiv.
    + apply top_pop_None in E as ->. done.
Qed.

Lemma pending_length e : length (pending e) = (length (queue_ e) + length (timers_ e))%nat.
Proof. unfold pending. by rewrite length_app, length_map. Qed.

(** What the two loops do once every timer is due and no one posts: every task runs. *)
Lemma run_drain now ran e :
  Forall (fun t => deadlineNs t <= now) (timers_ e) ->
  exists q, run (drain_evs now e) (ran, e) = (ran ++ queue_ e ++ q, init) /\ q ≡ₚ map task (timers_ e).
Proof.
  intros F. destruct (run_timers now _ ran e eq_refl F) as (q & E & P).
  exists q. split; [|done]. unfold drain_evs. rewrite run_app, E.
  assert (length q = length (timers_ e)) as Lq by (rewrite P; apply length_map).
  rewrite run_takes; cbn [queue_ timers_]; rewrite pending_length, ?length_app; [|lia].
  rewrite take_ge, drop_ge by (rewrite length_app; lia). done.
Qed.

(** A posted task waits for the tasks before it only: the workers take in the order of entry. *)
Lemma step_fifo ev s :
  exists q, fst (step ev s) ++ queue_ (snd (step ev s)) = fst s ++ queue_ (snd s) ++ q.
Proof.
  destruct s as [ran e], ev as [t|now d t| |now]; cbn.
  - eexists; unfold post; cbn; done.
  - unfold postAfter, post. case_match; cbn; [by eexists|]. exists []. by rewrite app_nil_r.
  - unfold loop. destruct e as [[|t q] tm]; cbn; exists []; rewrite app_nil_r; [done|]. by rewrite <- app_assoc.
  - unfold timerLoop, post. destruct (top_pop _) as [[t r]|]; [case_match; cbn; [by eexists|]|];
      exists []; by rewrite app_nil_r.
Qed.
Lemma run_fifo evs s :
  exists q, fst (run evs s) ++ queue_ (snd (run evs s)) = fst s ++ queue_ (snd s) ++ q.
Proof.
  revert s; induction evs as [|ev evs IH]; intros s.
  - exists []. by rewrite app_nil_r.
  - rewrite run_cons. destruct (IH (step ev s)) as [q E]. destruct (step_fifo ev s) as [q' E'].
    exists (q' ++ q). rewrite E, !app_assoc, E', !app_assoc. done.
Qed.

End Facts.

(** ** What the pool promises *)

(** Whatever the threads' sections interleave to, the pool neither loses, invents nor repeats a task; the queue is served in order; a delayed task does not leave the timers while every clock reading is before its deadline; and once the clocks are past the deadlines and no one posts, as many turns of the two loops as there are tasks run them all. *)
Theorem executor_exact {T} (evs : list (Ev T)) :
  let '(ran, e) := run evs ([], init) in
  ran ++ pending e ≡ₚ posted evs /\
  (forall more, exists q, fst (run more (ran, e)) ++ queue_ (snd (run more (ran, e))) = ran ++ queue_ e ++ q) /\
  (forall t more, t ∈ timers_ e ->
     Forall (fun ev => forall now, ev = Timer now -> now < deadlineNs t) more ->
     t ∈ timers_ (snd (run more (ran, e)))) /\
  (forall now, Forall (fun t => deadlineNs t <= now) (timers_ e) ->
     exists all, run (drain_evs now e) (ran, e) = (all, init) /\ all ≡ₚ posted evs).
Proof.
  pose proof (run_pending evs ([], init)) as P. destruct (run evs ([], init)) as [ran e]. cbn in P.
  split_and!; [done| | |].
  - intros more. apply (run_fifo more (ran, e)).
  - intros t more Ht F. by apply (run_early more (ran, e)).
  - intros now F. destruct (run_drain now ran e F) as (q & E & Pq).
    exists (ran ++ queue_ e ++ q). split; [done|]. rewrite Pq. exact P.
Qed.

End Executor.
