(* ===== verification/OpenRetry.v ===== *)
(** * Opening the origin (src/plugin/OpenRetry.h, OpenRetry.cc, UCacheFile.cc)

    The policy of a failed open (Module Policy), the inner file a handle owns, uses and
    replaces, with the lazy open of a trusted handle (Module Inner), and the handler that
    retries a client's open off the callback thread (Module Handler). [XrdCl::File] is a
    parameter: an object is a number, each [Open] is one action of the trace and its answer
    is an argument. *)

From S2P Require Import Prelude UrlKey Executor.
Local Open Scope u64_scope.

(** ** The policy (OpenRetry.cc) *)

Module Policy.

Definition kErrSocketError := 102.
Definition kErrSocketTimeout := 103.
Definition kErrConnectionError := 108.
Definition kErrOperationExpired := 206.
Definition kErrThresholdExceeded := 208.
Definition kErrErrorResponse := 400.
Definition kXR_FileLocked := 3003.
Definition kXR_FSError := 3005.
Definition kXR_IOError := 3007.
Definition kXR_ServerError := 3012.
Definition kXR_noserver := 3014.
Definition kXR_Cancelled := 3017.
Definition kXR_ItExists := 3018.
Definition kXR_Overloaded := 3024.

Definition is_one_of (x : Z) (l : list Z) : bool := existsb (Z.eqb x) l.

Definition isRetryableOpen (statusCode errNo : Z) : bool :=
  if is_one_of statusCode [kErrConnectionError; kErrSocketError; kErrSocketTimeout; kErrOperationExpired; kErrThresholdExceeded] then true
  else if statusCode =? kErrErrorResponse then
    is_one_of errNo [kXR_ItExists; kXR_ServerError; kXR_FSError; kXR_IOError; kXR_noserver; kXR_Cancelled; kXR_FileLocked; kXR_Overloaded]
  else false.

(** The settings of the retries (Config.h); each an [int]. *)
Record Config := mkConfig { openRetries : Z; openRetryBaseMs : Z; openRetryMaxMs : Z }.

Fixpoint doubled (n : nat) (bound cap : Z) : Z :=
  match n with
  | O => bound
  | S n => if cap <=? bound then bound else doubled n (w64 (Z.shiftl bound 1)) cap
  end.
Definition backoffBoundMs (attempt : Z) (cfg : Config) : Z :=
  let base := if 0 <? openRetryBaseMs cfg then openRetryBaseMs cfg else 0 in
  let cap := if 0 <? openRetryMaxMs cfg then openRetryMaxMs cfg else 0 in
  let attempt := if attempt <? 1 then 1 else attempt in
  Z.min (doubled (Z.to_nat (attempt - 1)) base cap) cap.

(** [dist] is [uniform_int_distribution(0, bound)] over the thread's generator. *)
Definition backoffMs (dist : Z -> Z) (attempt : Z) (cfg : Config) : Z :=
  let bound := backoffBoundMs attempt cfg in
  if bound =? 0 then 0 else dist bound.

(** An [XRootDStatus], and the one built from [stError] alone. *)
Record XRootDStatus := mkStatus { isOK : bool; code : Z; errNo : Z }.
Definition stOK : XRootDStatus := mkStatus true 0 0.
Definition stError : XRootDStatus := mkStatus false 0 0.

(** The condition under which both retry loops go on after the [attempt]-th open. *)
Definition try_again (cfg : Config) (attempt : Z) (s : XRootDStatus) : bool :=
  (attempt <=? openRetries cfg) && isRetryableOpen (code s) (errNo s).

(** *** The fault hook that rewrites the port (UCacheFile.cc) *)

Definition rewritePortTo1 (url : bytes) : bytes :=
  match UrlKey.find_css url with
  | None => url
  | Some sch =>
      let authStart := (sch + 3)%nat in
      let rest := drop authStart url in
      let authEnd := match UrlKey.find UrlKey.c_slash rest with Some k => (authStart + k)%nat | None => length url end in
      let auth := take (authEnd - authStart) rest in
      let newAuth := match UrlKey.rfind UrlKey.c_colon auth with Some k => take k auth ++ bs ":1" | None => auth ++ bs ":1" end in
      take authStart url ++ newAuth ++ drop authEnd url
  end.
Definition faultOpenUrl (openFaultFirstN : Z) (url : bytes) (attempt : Z) : bytes :=
  if (0 <? openFaultFirstN) && (attempt <=? openFaultFirstN) then rewritePortTo1 url else url.

End Policy.

(** ** The handle's inner file (HandleState of UCacheFile.cc) *)

Module Inner.
Import Policy.

(** [File]s are numbered as they are created. The trace keeps what the origin and the clock
    are asked, the numbers of the destroyed files which objects no longer exist. *)
Inductive Act := AOpen (f : Z) (url : bytes) | ASleep (ms : Z).

Record Files := mkFiles {
  inner : option Z; innerOwned : option Z; innerValid : bool; innerOps : Z;
  nextFile : Z; destroyed : list Z }.
Record LazyOpen := mkLazy {
  cacheOnly : bool; innerOpened : bool; innerOpenOk : bool;
  lazyOpenError : XRootDStatus; lazyOpenFailUs : Z; lazyOpenAttempt : Z }.
Record Stats := mkStats { openRetriesCount : Z; openRetriesExhausted : Z }.
Record HandleState := mkHandle {
  store : bool; url : bytes; files : Files; lz : LazyOpen; stats : Stats; trace : list Act }.

Definition set_files (h : HandleState) (f : Files) : HandleState := mkHandle (store h) (url h) f (lz h) (stats h) (trace h).
Definition set_lazy (h : HandleState) (l : LazyOpen) : HandleState := mkHandle (store h) (url h) (files h) l (stats h) (trace h).
Definition set_stats (h : HandleState) (s : Stats) : HandleState := mkHandle (store h) (url h) (files h) (lz h) s (trace h).
Definition act (h : HandleState) (a : Act) : HandleState := mkHandle (store h) (url h) (files h) (lz h) (stats h) (trace h ++ [a]).

(** The plug-in's constructor, and [Open]'s note of the URL and of a trusted entry. *)
Definition created (store : bool) (url : bytes) (cacheOnly : bool) : HandleState :=
  mkHandle store url (mkFiles (Some 0) (Some 0) true 0 1 []) (mkLazy cacheOnly false false stOK 0 0) (mkStats 0 0) [].

Definition count_retry (h : HandleState) : HandleState :=
  if store h then set_stats h (mkStats (openRetriesCount (stats h) +% 1) (openRetriesExhausted (stats h))) else h.
Definition count_exhausted (h : HandleState) : HandleState :=
  if store h then set_stats h (mkStats (openRetriesCount (stats h)) (openRetriesExhausted (stats h) +% 1)) else h.

(** A unique pointer that is moved from or overwritten destroys its file. *)
Definition dead_of (o : option Z) : list Z := match o with Some f => [f] | None => [] end.

Definition resetInner (h : HandleState) : Z * HandleState :=
  let f := files h in
  let fresh := nextFile f in
  (fresh, set_files h (mkFiles (Some fresh) (Some fresh) (innerValid f) (innerOps f) (nextFile f + 1) (destroyed f ++ dead_of (innerOwned f)))).

(** [shutdownInner]: before its wait, and once the wait saw no operation left. *)
Definition shutdown_begin (h : HandleState) : HandleState :=
  let f := files h in
  set_files h (mkFiles (inner f) (innerOwned f) false (innerOps f) (nextFile f) (destroyed f)).
Definition shutdown_end (h : HandleState) : HandleState :=
  let f := files h in
  set_files h (mkFiles None None (innerValid f) (innerOps f) (nextFile f) (destroyed f ++ dead_of (innerOwned f))).

Definition set_ops (h : HandleState) (n : Z) : HandleState :=
  let f := files h in
  set_files h (mkFiles (inner f) (innerOwned f) (innerValid f) n (nextFile f) (destroyed f)).
Definition acquire_locked (h : HandleState) : option Z * HandleState :=
  if innerValid (files h) then (inner (files h), set_ops h (innerOps (files h) + 1)) else (None, h).
(** [isOpen] is [inner->IsOpen()]. *)
Definition acquireInnerIfOpen (isOpen : bool) (h : HandleState) : option Z * HandleState :=
  if cacheOnly (lz h) && negb (innerOpened (lz h)) then (None, h)
  else if negb (innerValid (files h)) || negb isOpen then (None, h)
  else (inner (files h), set_ops h (innerOps (files h) + 1)).
Definition releaseInner (h : HandleState) : HandleState := set_ops h (innerOps (files h) - 1).

(** *** The lazy open, cut where it waits for the origin or sleeps *)

Definition kLazyOpenRetryCooldownUs : Z := 1000000.

Section Lazy.
Context (cfg : Config) (openFaultFirstN : Z) (dist : Z -> Z).

(** What the thread in [ensureInnerOpen] waits for, or the value it returned; [LFault] is the
    dereference of a null [inner]. *)
Inductive Lazy := LWait (f retry : Z) | LSleep (retry : Z) | LDone (ok : bool) | LFault.

Definition fillUrl (h : HandleState) : bytes := UrlKey.stripCgiParams (url h) [bs "tried"; bs "triedrc"].
Definition issue_lazy (f : Z) (h : HandleState) : HandleState :=
  let l := lz h in
  let n := lazyOpenAttempt l + 1 in
  act (set_lazy h (mkLazy (cacheOnly l) (innerOpened l) (innerOpenOk l) (lazyOpenError l) (lazyOpenFailUs l) n))
      (AOpen f (faultOpenUrl openFaultFirstN (fillUrl h) n)).

Definition lazy_enter (nowUs : Z) (h : HandleState) : Lazy * HandleState :=
  let l := lz h in
  if innerOpened l then (LDone (innerOpenOk l), h)
  else if negb (lazyOpenFailUs l =? 0) && (nowUs -% lazyOpenFailUs l <? kLazyOpenRetryCooldownUs) then (LDone false, h)
  else match inner (files h) with
       | None => (LFault, h)
       | Some f => (LWait f 1, issue_lazy f h)
       end.

(** The origin answered [s] while [retry] was the loop's counter. *)
Definition lazy_settle (nowUs : Z) (s : XRootDStatus) (retry : Z) (h : HandleState) : HandleState :=
  let h := if negb (isOK s) && (1 <? retry) then count_exhausted h else h in
  let l := lz h in
  if isOK s then set_lazy h (mkLazy (cacheOnly l) true true (lazyOpenError l) 0 (lazyOpenAttempt l))
  else
    let h := set_lazy h (mkLazy (cacheOnly l) (innerOpened l) false s nowUs (lazyOpenAttempt l)) in
    if innerOps (files h) =? 0 then snd (resetInner h) else h.
Definition lazy_answer (nowUs : Z) (s : XRootDStatus) (retry : Z) (h : HandleState) : Lazy * HandleState :=
  if negb (isOK s) && try_again cfg retry s then
    (LSleep retry, act (count_retry h) (ASleep (backoffMs dist retry cfg)))
  else (LDone (isOK s), lazy_settle nowUs s retry h).
Definition lazy_wake (retry : Z) (h : HandleState) : Lazy * HandleState :=
  let '(fresh, h) := resetInner h in (LWait fresh (retry + 1), issue_lazy fresh h).

(** The loop, with no other thread in between: [answer n] is the origin's answer to the
    handle's [n]-th lazy open. *)
Fixpoint lazy_loop (fuel : nat) (answer : Z -> XRootDStatus) (nowUs : Z) (p : Lazy * HandleState) : Lazy * HandleState :=
  match fuel, p with
  | S fuel, (LWait f retry, h) => lazy_loop fuel answer nowUs (lazy_answer nowUs (answer (lazyOpenAttempt (lz h))) retry h)
  | S fuel, (LSleep retry, h) => lazy_loop fuel answer nowUs (lazy_wake retry h)
  | _, _ => p
  end.
(** An open and a sleep for each retry allowed, and the last open. *)
Definition lazy_fuel : nat := 2 * Z.to_nat (openRetries cfg) + 1.
(** [now1] and [now2] are the clock's two readings. *)
Definition ensureInnerOpen (answer : Z -> XRootDStatus) (now1 now2 : Z) (h : HandleState) : Lazy * HandleState :=
  lazy_loop lazy_fuel answer now2 (lazy_enter now1 h).

(** [invalidOp] is the status of [stError] with [errInvalidOp]. *)
Definition missError (invalidOp : XRootDStatus) (h : HandleState) : XRootDStatus :=
  if negb (lazyOpenFailUs (lz h) =? 0) && negb (isOK (lazyOpenError (lz h))) then lazyOpenError (lz h) else invalidOp.

(** [None] is a crash. *)
Definition acquireInner (answer : Z -> XRootDStatus) (now1 now2 : Z) (h : HandleState) : option (option Z * HandleState) :=
  if cacheOnly (lz h) && negb (innerOpened (lz h)) then
    match ensureInnerOpen answer now1 now2 h with
    | (LDone true, h) => Some (acquire_locked h)
    | (LDone false, h) => Some (None, h)
    | _ => None
    end
  else Some (acquire_locked h).

End Lazy.

(** *** The cache errors of a handle, and its pages being persisted *)

Record Errors := mkErrors { errors : Z; tripped : bool; failopenEvents : Z; disabledHandles : Z }.
Definition noteCacheError (store : bool) (maxErrors : Z) (e : Errors) : Errors :=
  let fo := if store then failopenEvents e +% 1 else failopenEvents e in
  let n := errors e + 1 in
  if (maxErrors <=? n) && negb (tripped e) then
    mkErrors n true fo (if store then disabledHandles e +% 1 else disabledHandles e)
  else mkErrors n (tripped e) fo (disabledHandles e).
Definition noteCacheOk (e : Errors) : Errors := mkErrors 0 (tripped e) (failopenEvents e) (disabledHandles e).

Definition beginPersist (pendingPersists : Z) : Z := pendingPersists + 1.
(** The new count, and whether [drainPersists] is woken. *)
Definition endPersist (pendingPersists : Z) : Z * bool := (pendingPersists - 1, pendingPersists - 1 =? 0).

End Inner.

(** ** The retrying handler of a client's open (UCacheFile.cc) *)

Module Handler.
Import Policy Inner.
Import Executor (Executor, post, postAfter, loop, timerLoop).

(** The tasks of the pool: the handler's retry, and what others post. *)
Inductive Task := TRetry | TOther (n : Z).

(** The client's completion: the status, response and hosts of a success as they came, or the
    last failure with an empty host list. *)
Inductive Completion := Success (s : XRootDStatus) | Failure (s : XRootDStatus).

(** What the handler waits for: nothing yet, the answer to an open, its task, the second half
    of [doRetry]; or it has completed and deleted itself. *)
Inductive Phase := Idle | Waiting (f : Z) | Posted | Checked | Done.

Record World := mkWorld {
  hs : HandleState; attempt_ : Z; lastStatus_ : XRootDStatus; phase : Phase;
  pool : Executor Task; completions : list Completion }.

Definition set_hs (w : World) (h : HandleState) : World := mkWorld h (attempt_ w) (lastStatus_ w) (phase w) (pool w) (completions w).
Definition set_phase (w : World) (p : Phase) : World := mkWorld (hs w) (attempt_ w) (lastStatus_ w) p (pool w) (completions w).
Definition set_last (w : World) (s : XRootDStatus) : World := mkWorld (hs w) (attempt_ w) s (phase w) (pool w) (completions w).
Definition set_pool (w : World) (e : Executor Task) : World := mkWorld (hs w) (attempt_ w) (lastStatus_ w) (phase w) e (completions w).
Definition complete (w : World) (c : Completion) : World := mkWorld (hs w) (attempt_ w) (lastStatus_ w) Done (pool w) (completions w ++ [c]).

(** A handler made by [Open]. *)
Definition created (store : bool) (url : bytes) : World := mkWorld (Inner.created store url false) 0 stOK Idle Executor.init [].

Section Run.
Context (cfg : Config) (openFaultFirstN : Z) (dist : Z -> Z).

(** [f->Open] was issued; what it returned is the caller's. *)
Definition issueOn (f : Z) (w : World) : World :=
  let n := attempt_ w + 1 in
  mkWorld (act (hs w) (AOpen f (faultOpenUrl openFaultFirstN (url (hs w)) n))) n (lastStatus_ w) (Waiting f) (pool w) (completions w).

Definition forwardFailure (w : World) : World := complete w (Failure (lastStatus_ w)).

Definition decideRetryOrForward (nowNs : Z) (w : World) : World :=
  if try_again cfg (attempt_ w) (lastStatus_ w) then
    let w := set_hs w (count_retry (hs w)) in
    set_phase (set_pool w (postAfter nowNs (backoffMs dist (attempt_ w) cfg) TRetry (pool w))) Posted
  else
    forwardFailure (if 1 <? attempt_ w then set_hs w (count_exhausted (hs w)) else w).

(** An open issued on [f] that returned [s]. *)
Definition issue_and_check (nowNs : Z) (f : Z) (s : XRootDStatus) (w : World) : World :=
  let w := issueOn f w in
  if isOK s then w else decideRetryOrForward nowNs (set_last w s).

(** [None]: [st_->inner] is null. *)
Definition start (nowNs : Z) (s : XRootDStatus) (w : World) : option World :=
  match inner (files (hs w)) with
  | Some f => Some (issue_and_check nowNs f s w)
  | None => None
  end.

Definition HandleResponseWithHosts (nowNs : Z) (status : option XRootDStatus) (w : World) : World :=
  match status with
  | Some s => if isOK s then complete w (Success s) else decideRetryOrForward nowNs (set_last w s)
  | None => decideRetryOrForward nowNs (set_last w stError)
  end.

(** [doRetry], cut between its two sections under the lock. *)
Definition doRetry_check (w : World) : World :=
  if innerValid (files (hs w)) then set_phase w Checked else forwardFailure w.
Definition doRetry_issue (nowNs : Z) (s : XRootDStatus) (w : World) : World :=
  let '(fresh, h) := resetInner (hs w) in issue_and_check nowNs fresh s (set_hs w h).

(** ** Runs: the handler, the pool, other users of the pool and the handle's end *)

Inductive Ev :=
  | Start (nowNs : Z) (s : XRootDStatus)
  | Response (nowNs : Z) (s : option XRootDStatus)
  | Issue (nowNs : Z) (s : XRootDStatus)
  | PoolTake
  | PoolTimer (nowNs : Z)
  | OtherPost (n nowNs delayMs : Z)
  | ShutBegin
  | ShutEnd.

(** [None]: the event cannot happen in [w]. *)
Definition step (ev : Ev) (w : World) : option World :=
  match ev, phase w with
  | Start now s, Idle => start now s w
  | Response now s, Waiting _ => Some (HandleResponseWithHosts now s w)
  | Issue now s, Checked => Some (doRetry_issue now s w)
  | PoolTake, p =>
      match loop (pool w), p with
      | Some (TRetry, e), Posted => Some (doRetry_check (set_pool w e))
      | Some (TOther _, e), _ => Some (set_pool w e)
      | _, _ => None
      end
  | PoolTimer now, _ => Some (set_pool w (timerLoop now (pool w)))
  | OtherPost n now d, _ => Some (set_pool w (postAfter now d (TOther n) (pool w)))
  | ShutBegin, _ => Some (set_hs w (shutdown_begin (hs w)))
  | ShutEnd, _ => if negb (innerValid (files (hs w))) && (innerOps (files (hs w)) =? 0) then Some (set_hs w (shutdown_end (hs w))) else None
  | _, _ => None
  end.
Fixpoint run (evs : list Ev) (w : World) : option World :=
  match evs with
  | [] => Some w
  | ev :: evs => match step ev w with Some w => run evs w | None => None end
  end.

End Run.
End Handler.

(** ** The users of the inner file: the locked sections of every thread of a handle *)

Module Users.
Import Policy Inner.

(** The thread in [ensureInnerOpen] ([innerOpenMu] lets in one), the files acquired and not yet
    released, whether [ensureEntry] degraded the handle and has yet to open it, and whether the
    handle is being destroyed. *)
Record Sys := mkSys { hd : HandleState; th : Lazy; held : list Z; degraded : bool; ending : bool }.

(** A handle whose plug-in object is alive, relayed or trusted. *)
Definition opened (store : bool) (url : bytes) (cacheOnly : bool) : Sys := mkSys (created store url cacheOnly) (LDone false) [] false false.

Inductive Ev :=
  | Acquire
  | AcquireIfOpen (isOpen : bool)
  | Release (f : Z)
  | Enter (nowUs : Z)
  | Answer (nowUs : Z) (s : XRootDStatus)
  | Wake
  | Degrade
  | EnterDegraded (nowUs : Z)
  | ShutBegin
  | ShutEnd.

(** The first [f] of the files held. *)
Fixpoint drop_one (f : Z) (l : list Z) : list Z :=
  match l with [] => [] | x :: l => if x =? f then l else x :: drop_one f l end.

Definition took (s : Sys) (r : option Z * HandleState) : Sys :=
  mkSys (snd r) (th s) (match fst r with Some f => f :: held s | None => held s end) (degraded s) (ending s).
Definition went (s : Sys) (r : Lazy * HandleState) : Sys := mkSys (snd r) (fst r) (held s) (degraded s) (ending s).
Definition degrade (h : HandleState) : HandleState :=
  let l := lz h in
  set_lazy h (mkLazy false (innerOpened l) (innerOpenOk l) (lazyOpenError l) (lazyOpenFailUs l) (lazyOpenAttempt l)).

Section Run.
Context (cfg : Config) (openFaultFirstN : Z) (dist : Z -> Z).

(** [None]: the event cannot happen. [Acquire] is [acquireInner] past its test of the lazy
    open, which [Enter] begins; [Degrade] and [EnterDegraded] are [ensureEntry]'s when a
    trusted entry is gone. The destructor starts when no thread of the handle opens. *)
Definition step (ev : Ev) (s : Sys) : option Sys :=
  let h := hd s in
  let lazy_due := cacheOnly (lz h) && negb (innerOpened (lz h)) in
  match ev, th s with
  | Acquire, _ => if lazy_due then None else Some (took s (acquire_locked h))
  | AcquireIfOpen o, _ => Some (took s (acquireInnerIfOpen o h))
  | Release f, _ => if existsb (Z.eqb f) (held s) then Some (mkSys (releaseInner h) (th s) (drop_one f (held s)) (degraded s) (ending s)) else None
  | Enter now, LDone _ => if ending s || negb lazy_due then None else Some (went s (lazy_enter openFaultFirstN now h))
  | EnterDegraded now, LDone _ => if ending s || negb (degraded s) then None else Some (went (mkSys h (th s) (held s) false (ending s)) (lazy_enter openFaultFirstN now h))
  | Answer now r, LWait _ retry => Some (went s (lazy_answer cfg dist now r retry h))
  | Wake, LSleep retry => Some (went s (lazy_wake openFaultFirstN retry h))
  | Degrade, _ => if cacheOnly (lz h) then Some (mkSys (degrade h) (th s) (held s) true (ending s)) else None
  | ShutBegin, LDone _ => Some (mkSys (shutdown_begin h) (th s) (held s) (degraded s) true)
  | ShutEnd, _ => if ending s && (innerOps (files h) =? 0) then Some (mkSys (shutdown_end h) (th s) (held s) (degraded s) true) else None
  | _, _ => None
  end.
Fixpoint run (evs : list Ev) (s : Sys) : option Sys :=
  match evs with
  | [] => Some s
  | ev :: evs => match step ev s with Some s => run evs s | None => None end
  end.

End Run.
End Users.
