(* ===== verification/OpenLazy.v ===== *)
(** * The retry policy, and the lazy open of a trusted handle

    The back-off's closed form; the sequence of answers after which both retry loops stop;
    and [ensureInnerOpen] on every branch: what it asks, counts, returns and leaves. *)

From S2P Require Import Prelude UrlKey Executor OpenRetry.
Local Open Scope u64_scope.

Module OpenLazy.
Import Policy Inner.

(** ** Back-off *)

Lemma doubled_spec n b cap :
  0 <= b -> cap < 2 ^ 62 -> Z.min (doubled n b cap) cap = Z.min (b * 2 ^ Z.of_nat n) cap.
Proof.
  revert b; induction n as [|n IH]; intros b Hb Hc; cbn [doubled].
  - by rewrite Z.mul_1_r.
  - destruct (Z.leb_spec cap b).
    + assert (1 <= 2 ^ Z.of_nat (S n)) by (apply (Z.pow_le_mono_r 2 0); lia). nia.
    + rewrite Z.shiftl_mul_pow2, Z.pow_1_r, w64_small by lia.
      rewrite IH by lia. rewrite Nat2Z.inj_succ, Z.pow_succ_r by lia. f_equal. ring.
Qed.

(** The settings are [int]s. *)
Definition int_cfg (cfg : Config) : Prop := openRetries cfg < p31 /\ openRetryBaseMs cfg < p31 /\ openRetryMaxMs cfg < p31.

Lemma backoffBoundMs_eq attempt cfg :
  int_cfg cfg ->
  backoffBoundMs attempt cfg = Z.min (Z.max 0 (openRetryBaseMs cfg) * 2 ^ (Z.max 1 attempt - 1)) (Z.max 0 (openRetryMaxMs cfg)).
Proof.
  intros (_ & Hb & Hm). unfold backoffBoundMs.
  replace (if 0 <? openRetryBaseMs cfg then openRetryBaseMs cfg else 0) with (Z.max 0 (openRetryBaseMs cfg))
    by (destruct (Z.ltb_spec 0 (openRetryBaseMs cfg)); lia).
  replace (if 0 <? openRetryMaxMs cfg then openRetryMaxMs cfg else 0) with (Z.max 0 (openRetryMaxMs cfg))
    by (destruct (Z.ltb_spec 0 (openRetryMaxMs cfg)); lia).
  replace (if attempt <? 1 then 1 else attempt) with (Z.max 1 attempt)
    by (destruct (Z.ltb_spec attempt 1); lia).
  rewrite doubled_spec by lia. by rewrite Z2Nat.id by lia.
Qed.

(** The back-off's ceiling is the smaller of the cap and the base doubled at each attempt, without wrapping for any settings; it never decreases from one attempt to the next, and the drawn back-off is within it. *)
Theorem backoff_exact cfg dist attempt (Hc : int_cfg cfg)
    (Hd : forall b, 0 < b -> 0 <= dist b <= b) :
  let bound a := Z.min (Z.max 0 (openRetryBaseMs cfg) * 2 ^ (Z.max 1 a - 1)) (Z.max 0 (openRetryMaxMs cfg)) in
  backoffBoundMs attempt cfg = bound attempt /\
  0 <= backoffMs dist attempt cfg <= bound attempt /\
  (forall more, attempt <= more -> backoffBoundMs attempt cfg <= backoffBoundMs more cfg).
Proof.
  cbn zeta. pose proof (backoffBoundMs_eq attempt cfg Hc) as E.
  assert (0 < 2 ^ (Z.max 1 attempt - 1)) by (apply Z.pow_pos_nonneg; lia).
  split; [done|]. split.
  - unfold backoffMs. rewrite E. case_match eqn:E0; b2p; [nia|]. apply Hd. nia.
  - intros more Hm. rewrite E, backoffBoundMs_eq by done.
    assert (2 ^ (Z.max 1 attempt - 1) <= 2 ^ (Z.max 1 more - 1)) by (apply Z.pow_le_mono_r; lia). nia.
Qed.

Lemma backoff_exact_witness :
  backoffBoundMs 4 (mkConfig 9 200 5000) = 1600 /\ backoffBoundMs 40 (mkConfig 9 200 5000) = 5000 /\
  0 <= backoffMs (fun b => b / 2) 4 (mkConfig 9 200 5000) <= 1600.
Proof.
  split; [reflexivity|]. split; [reflexivity|].
  refine (proj1 (proj2 (backoff_exact (mkConfig 9 200 5000) (fun b => b / 2) 4 _ _))).
  - unfold int_cfg; cbn; lia.
  - intros b Hb. split; [apply Z.div_pos; lia|]. apply Z.lt_le_incl, Z.div_lt; lia.
Defined.

(** ** When the opens stop *)

(** [ans k] is the answer to the [k]-th open: the first that is not tried again. *)
Definition goes_on (cfg : Config) (ans : Z -> XRootDStatus) (k : Z) : bool := negb (isOK (ans k)) && try_again cfg k (ans k).
Fixpoint settle (cfg : Config) (ans : Z -> XRootDStatus) (fuel : nat) (k : Z) : Z :=
  match fuel with
  | S fuel => if goes_on cfg ans k then settle cfg ans fuel (k + 1) else k
  | O => k
  end.
Definition settled (cfg : Config) (ans : Z -> XRootDStatus) : Z := settle cfg ans (Z.to_nat (openRetries cfg)) 1.

Lemma goes_on_le cfg ans k : goes_on cfg ans k = true -> k <= openRetries cfg.
Proof. unfold goes_on, try_again. intros H. by b2p. Qed.

Lemma settle_unique cfg ans fuel k n :
  k <= n -> openRetries cfg < k + Z.of_nat fuel ->
  (forall j, k <= j < n -> goes_on cfg ans j = true) -> goes_on cfg ans n = false ->
  settle cfg ans fuel k = n.
Proof.
  revert k; induction fuel as [|fuel IH]; intros k Hk Hf Hb Hn; cbn.
  - destruct (Z.eq_dec k n); [done|]. pose proof (goes_on_le _ _ _ (Hb k ltac:(lia))). lia.
  - destruct (Z.eq_dec k n) as [->|]; [by rewrite Hn|]. rewrite Hb by lia.
    apply IH; [lia|lia| |done]. intros j Hj. apply Hb. lia.
Qed.

(** The first answer that is not tried again is the only one with these bounds. *)
Lemma settled_unique cfg ans n :
  1 <= n -> (forall j, 1 <= j < n -> goes_on cfg ans j = true) -> goes_on cfg ans n = false ->
  settled cfg ans = n.
Proof. intros. apply settle_unique; [done|lia|done|done]. Qed.

Lemma settle_spec cfg ans fuel k :
  openRetries cfg < k + Z.of_nat fuel ->
  k <= settle cfg ans fuel k /\
  (forall j, k <= j < settle cfg ans fuel k -> goes_on cfg ans j = true) /\
  goes_on cfg ans (settle cfg ans fuel k) = false.
Proof.
  revert k; induction fuel as [|fuel IH]; intros k Hf; cbn.
  - split_and!; [lia|lia|]. apply not_true_iff_false. intros H%goes_on_le. lia.
  - destruct (goes_on cfg ans k) eqn:E; [|split_and!; [lia|lia|done]].
    destruct (IH (k + 1) ltac:(lia)) as (H1 & H2 & H3). split_and!; [lia| |done].
    intros j Hj. destruct (Z.eq_dec j k) as [->|]; [done|]. apply H2. lia.
Qed.
Lemma settled_spec cfg ans :
  1 <= settled cfg ans <= Z.max 0 (openRetries cfg) + 1 /\
  (forall j, 1 <= j < settled cfg ans -> goes_on cfg ans j = true) /\
  goes_on cfg ans (settled cfg ans) = false.
Proof.
  unfold settled. destruct (settle_spec cfg ans (Z.to_nat (openRetries cfg)) 1 ltac:(lia)) as (H1 & H2 & H3).
  split_and!; [done| |done|done].
  destruct (Z.le_gt_cases (settle cfg ans (Z.to_nat (openRetries cfg)) 1) 1); [lia|].
  pose proof (goes_on_le _ _ _ (H2 (settle cfg ans (Z.to_nat (openRetries cfg)) 1 - 1) ltac:(lia))). lia.
Qed.


(** ** The lazy open *)

Section Lazy.
Context (cfg : Config) (nfault : Z) (dist : Z -> Z).

(** The [k]-th open of one call of [ensureInnerOpen] on a handle whose file is [f]. *)
Definition open_act (h : HandleState) (f k : Z) : Act :=
  AOpen (f + k - 1) (faultOpenUrl nfault (fillUrl h) (lazyOpenAttempt (lz h) + k)).
(** The opens before the [k]-th, each with the sleep after it. *)
Definition acts_before (h : HandleState) (f k : Z) : list Act :=
  concat (map (fun j => [open_act h f j; ASleep (backoffMs dist j cfg)]) (zrange 1 k)).
Definition retries_counted (h : HandleState) (n : Z) : Z :=
  if store h then openRetriesCount (stats h) +% n else openRetriesCount (stats h).

(** The handle while the [k]-th open is out, in one expression. *)
Definition waiting_at (h : HandleState) (f k : Z) : HandleState :=
  let l := lz h in
  mkHandle (store h) (url h)
    (mkFiles (Some (f + k - 1)) (Some (f + k - 1)) (innerValid (files h)) (innerOps (files h)) (f + k) (destroyed (files h) ++ zrange f (f + k - 1)))
    (mkLazy (cacheOnly l) (innerOpened l) (innerOpenOk l) (lazyOpenError l) (lazyOpenFailUs l) (lazyOpenAttempt l + k))
    (mkStats (retries_counted h (k - 1)) (openRetriesExhausted (stats h)))
    (trace h ++ acts_before h f k ++ [open_act h f k]).

(** A handle that has the file [f], not in use, and that no open succeeded on. *)
Record fresh_file (h : HandleState) (f : Z) : Prop := mkFresh {
  ff_inner : inner (files h) = Some f;
  ff_owned : innerOwned (files h) = Some f;
  ff_next : nextFile (files h) = f + 1;
  ff_idle : innerOps (files h) = 0;
  ff_unopened : innerOpened (lz h) = false;
  ff_count : is_u64 (openRetriesCount (stats h))
}.

(** The operations on a handle written out. *)
Lemma act_eq st u f l s t a : act (mkHandle st u f l s t) a = mkHandle st u f l s (t ++ [a]).
Proof. done. Qed.
Lemma count_retry_eq st u f l a b t :
  count_retry (mkHandle st u f l (mkStats a b) t) = mkHandle st u f l (mkStats (if st then a +% 1 else a) b) t.
Proof. by destruct st. Qed.
Lemma count_exhausted_eq st u f l a b t :
  count_exhausted (mkHandle st u f l (mkStats a b) t) = mkHandle st u f l (mkStats a (if st then b +% 1 else b)) t.
Proof. by destruct st. Qed.
Lemma resetInner_eq st u i o v n nx d l s t :
  resetInner (mkHandle st u (mkFiles i o v n nx d) l s t) =
  (nx, mkHandle st u (mkFiles (Some nx) (Some nx) v n (nx + 1) (d ++ dead_of o)) l s t).
Proof. done. Qed.
Lemma issue_lazy_eq k st u f c op okk e fu n s t :
  issue_lazy nfault k (mkHandle st u f (mkLazy c op okk e fu n) s t) =
  mkHandle st u f (mkLazy c op okk e fu (n + 1)) s
    (t ++ [AOpen k (faultOpenUrl nfault (UrlKey.stripCgiParams u [bs "tried"; bs "triedrc"]) (n + 1))]).
Proof. done. Qed.

Lemma acts_before_1 h f : acts_before h f 1 = [].
Proof. done. Qed.
Lemma acts_before_S h f k :
  1 <= k -> acts_before h f (k + 1) = acts_before h f k ++ [open_act h f k; ASleep (backoffMs dist k cfg)].
Proof. intros Hk. unfold acts_before. rewrite zrange_snoc by lia. by rewrite map_app, concat_app. Qed.

Lemma retries_counted_S h n :
  0 <= n -> is_u64 (openRetriesCount (stats h)) ->
  (if store h then retries_counted h n +% 1 else retries_counted h n) = retries_counted h (n + 1).
Proof.
  intros Hn Hu. unfold retries_counted. case_match; [|done]. unfold w64.
  rewrite Zplus_mod_idemp_l. f_equal. lia.
Qed.

Lemma waiting_first h f : fresh_file h f -> issue_lazy nfault f h = waiting_at h f 1.
Proof.
  intros [H1 H2 H3 H4 H5 H6]. destruct h as [st u [i o v ops nx d] [c op okk e fu at_] [rc re] tr]; cbn in *; subst.
  unfold issue_lazy, waiting_at, act, set_lazy, retries_counted, open_act; cbn -[fillUrl].
  replace (f + 1 - 1) with f by lia. rewrite zrange_nil, app_nil_r, Z.add_0_r by lia.
  repeat f_equal. destruct st; [|done]. symmetry. by apply w64_small.
Qed.

(** One retry of the loop: the answer, the sleep, the fresh file and the next open. *)
Lemma waiting_next h f k s now :
  is_u64 (openRetriesCount (stats h)) -> 1 <= k -> negb (isOK s) && try_again cfg k s = true ->
  exists h1, lazy_answer cfg dist now s k (waiting_at h f k) = (LSleep k, h1) /\
    lazy_wake nfault k h1 = (LWait (f + (k + 1) - 1) (k + 1), waiting_at h f (k + 1)).
Proof.
  intros Hu Hk Hg. unfold lazy_answer. rewrite Hg. eexists; split; [done|].
  assert (zrange f (f + (k + 1) - 1) = zrange f (f + k - 1) ++ [f + k - 1]) as Hz.
  { replace (f + (k + 1) - 1) with (f + k - 1 + 1) by lia. by rewrite zrange_snoc by lia. }
  assert (f + (k + 1) - 1 = f + k) as Hf by lia.
  assert (open_act h f (k + 1) = AOpen (f + k) (faultOpenUrl nfault (fillUrl h) (lazyOpenAttempt (lz h) + k + 1))) as Ha
    by (unfold open_act; by rewrite Hf, Z.add_assoc).
  unfold waiting_at at 1. rewrite count_retry_eq, act_eq. unfold lazy_wake. rewrite resetInner_eq, issue_lazy_eq.
  unfold waiting_at. rewrite Hz, Hf, acts_before_S, Ha by lia.
  replace (k + 1 - 1) with (k - 1 + 1) by lia.
  rewrite retries_counted_S, (Z.add_assoc f k 1), (Z.add_assoc _ k 1), <- !app_assoc by (done || lia). done.
Qed.
(** The whole loop, from the [k]-th open to the one that settles it. *)
Lemma lazy_loop_settles answer now h f fuel k n :
  is_u64 (openRetriesCount (stats h)) -> 1 <= k <= n -> 2 * (n - k) + 1 <= Z.of_nat fuel ->
  let A j := answer (lazyOpenAttempt (lz h) + j) in
  (forall j, k <= j < n -> goes_on cfg A j = true) -> goes_on cfg A n = false ->
  lazy_loop cfg nfault dist fuel answer now (LWait (f + k - 1) k, waiting_at h f k) =
  (LDone (isOK (A n)), lazy_settle now (A n) n (waiting_at h f n)).
Proof.
  intros Hu Hk Hf A Hb Hn. remember (Z.to_nat (n - k)) as d eqn:Hd.
  revert k fuel Hk Hf Hb Hd; induction d as [|d IH]; intros k fuel Hk Hf Hb Hd;
    (destruct fuel as [|fuel]; [lia|]); cbn [lazy_loop].
  - assert (k = n) as -> by lia. unfold lazy_answer. cbn [lz waiting_at lazyOpenAttempt].
    change (answer (lazyOpenAttempt (lz h) + n)) with (A n). unfold goes_on in Hn. rewrite Hn. by destruct fuel.
  - cbn [lz waiting_at lazyOpenAttempt].
    destruct (waiting_next h f k (A k) now Hu ltac:(lia) (Hb k ltac:(lia))) as (h1 & E1 & E2).
    unfold waiting_at in E1 |- *. unfold A in E1. rewrite E1. destruct fuel as [|fuel]; [lia|]. cbn [lazy_loop].
    rewrite E2. apply IH; [lia|lia| |lia]. intros j Hj. apply Hb. lia.
Qed.

(** The handle after an open that failed for good. *)
Lemma settle_failed now s n h f :
  innerOps (files h) = 0 -> isOK s = false ->
  lazy_settle now s n (waiting_at h f n) =
  mkHandle (store h) (url h)
    (mkFiles (Some (f + n)) (Some (f + n)) (innerValid (files h)) 0 (f + n + 1) ((destroyed (files h) ++ zrange f (f + n - 1)) ++ [f + n - 1]))
    (mkLazy (cacheOnly (lz h)) (innerOpened (lz h)) false s now (lazyOpenAttempt (lz h) + n))
    (mkStats (retries_counted h (n - 1)) (if (1 <? n) && store h then openRetriesExhausted (stats h) +% 1 else openRetriesExhausted (stats h)))
    (trace h ++ acts_before h f n ++ [open_act h f n]).
Proof.
  intros H0 Hs. unfold lazy_settle, waiting_at. rewrite Hs, H0. cbn [negb andb].
  destruct (1 <? n); rewrite ?count_exhausted_eq; cbn -[acts_before resetInner];
    unfold set_lazy; cbn -[acts_before resetInner]; rewrite resetInner_eq; cbn -[acts_before]; by destruct (store h).
Qed.
Lemma settle_ok now s n h f :
  isOK s = true ->
  lazy_settle now s n (waiting_at h f n) =
  set_lazy (waiting_at h f n) (mkLazy (cacheOnly (lz h)) true true (lazyOpenError (lz h)) 0 (lazyOpenAttempt (lz h) + n)).
Proof. intros Hs. unfold lazy_settle. rewrite Hs. done. Qed.

Definition cooling (now : Z) (h : HandleState) : bool :=
  negb (lazyOpenFailUs (lz h) =? 0) && (now -% lazyOpenFailUs (lz h) <? kLazyOpenRetryCooldownUs).

Lemma ensure_settles answer now1 now2 h f :
  fresh_file h f -> cooling now1 h = false ->
  let A j := answer (lazyOpenAttempt (lz h) + j) in
  ensureInnerOpen cfg nfault dist answer now1 now2 h =
  (LDone (isOK (A (settled cfg A))), lazy_settle now2 (A (settled cfg A)) (settled cfg A) (waiting_at h f (settled cfg A))).
Proof.
  intros F Hc A. destruct (settled_spec cfg A) as ((H1 & H2) & H3 & H4).
  unfold ensureInnerOpen, lazy_enter. rewrite (ff_unopened _ _ F), (ff_inner _ _ F).
  unfold cooling in Hc. rewrite Hc, (waiting_first _ _ F). replace (LWait f 1) with (LWait (f + 1 - 1) 1) by (f_equal; lia).
  apply lazy_loop_settles; [apply F|lia| |done|done]. unfold lazy_fuel. lia.
Qed.

(** After a call that opened, the handle is latched on the file of the last open. *)
Lemma opened_latched answer now1 now2 now s n h f :
  isOK s = true ->
  let h' := lazy_settle now s n (waiting_at h f n) in
  ensureInnerOpen cfg nfault dist answer now1 now2 h' = (LDone true, h').
Proof. intros Hs h'. unfold h'. rewrite settle_ok by done. unfold ensureInnerOpen, lazy_enter. by destruct (lazy_fuel cfg). Qed.

Lemma failed_fresh now s n h f :
  fresh_file h f -> isOK s = false -> fresh_file (lazy_settle now s n (waiting_at h f n)) (f + n).
Proof.
  intros [H1 H2 H3 H4 H5 H6] Hs. rewrite settle_failed by done. constructor; cbn; try done.
  unfold retries_counted. case_match; [apply w64_range|done].
Qed.

(** C35: a call of [ensureInnerOpen] on a handle whose open has not succeeded. Within the cool-down it asks nothing and changes nothing. Otherwise it ends; it opens the handle's file, and a fresh one after each failure that is tried again, up to the first answer that is a success, not retryable or past the allowed retries, sleeping the back-off in between and counting the retries; a success latches (later calls ask nothing) and gives users the file of that last open; a failure leaves a fresh, never opened file for the next attempt and the origin's own status as the error of a miss. *)
Theorem lazy_open_exact answer now1 now2 invalidOp h f (F : fresh_file h f) (Hnow : now2 <> 0) :
  let A j := answer (lazyOpenAttempt (lz h) + j) in
  let n := settled cfg A in
  let '(r, h') := ensureInnerOpen cfg nfault dist answer now1 now2 h in
  if cooling now1 h then r = LDone false /\ h' = h
  else
    (1 <= n <= Z.max 0 (openRetries cfg) + 1 /\ (forall j, 1 <= j < n -> goes_on cfg A j = true) /\ goes_on cfg A n = false) /\
    r = LDone (isOK (A n)) /\
    trace h' = trace h ++ acts_before h f n ++ [open_act h f n] /\
    openRetriesCount (stats h') = retries_counted h (n - 1) /\
    openRetriesExhausted (stats h') = (if (negb (isOK (A n)) && (1 <? n)) && store h then openRetriesExhausted (stats h) +% 1 else openRetriesExhausted (stats h)) /\
    (if isOK (A n) then
       inner (files h') = Some (f + n - 1) /\ innerOpened (lz h') = true /\
       forall answer' t1 t2, ensureInnerOpen cfg nfault dist answer' t1 t2 h' = (LDone true, h')
     else fresh_file h' (f + n) /\ missError invalidOp h' = A n /\ lazyOpenFailUs (lz h') = now2).
Proof.
  cbn zeta. destruct (ensureInnerOpen cfg nfault dist answer now1 now2 h) as [r h'] eqn:E.
  destruct (cooling now1 h) eqn:Ec.
  - unfold ensureInnerOpen, lazy_enter in E. rewrite (ff_unopened _ _ F) in E. unfold cooling in Ec. rewrite Ec in E.
    destruct (lazy_fuel cfg); cbn in E; by simplify_eq.
  - rewrite (ensure_settles answer now1 now2 h f F Ec) in E. simplify_eq.
    pose proof (settled_spec cfg (fun j => answer (lazyOpenAttempt (lz h) + j))) as Hs.
    remember (settled cfg (fun j => answer (lazyOpenAttempt (lz h) + j))) as n eqn:Hn. clear Hn.
    split; [done|]. split; [done|]. destruct (isOK (answer (lazyOpenAttempt (lz h) + n))) eqn:Eok.
    + split_and!; [| | | | |intros; by apply opened_latched]; rewrite settle_ok by done; done.
    + pose proof (failed_fresh now2 _ n h f F Eok) as Ff.
      rewrite settle_failed in * by (done || apply F). cbn [negb andb].
      split_and!; [done|done|done|done| |done].
      unfold missError. cbn. rewrite Eok. apply Z.eqb_neq in Hnow. by rewrite Hnow.
Qed.

End Lazy.

(** Two retries allowed; the origin is overloaded twice, then answers. *)
Definition answers3 (k : Z) : XRootDStatus := if k <? 3 then mkStatus false kErrErrorResponse kXR_Overloaded else stOK.
Definition trusted3 : HandleState := created true (bs "root://o/f?tried=a") true.
Lemma trusted3_fresh : fresh_file trusted3 0.
Proof. by constructor. Qed.
Lemma lazy_open_exact_witness :
  let r := ensureInnerOpen (mkConfig 2 200 5000) 0 (fun b => b) answers3 5 9 trusted3 in
  fst r = LDone true /\ inner (files (snd r)) = Some 2 /\ openRetriesCount (stats (snd r)) = 2 /\
  trace (snd r) = [AOpen 0 (bs "root://o/f"); ASleep 200; AOpen 1 (bs "root://o/f"); ASleep 400; AOpen 2 (bs "root://o/f")].
Proof.
  assert (9 <> 0) as N by lia.
  generalize (lazy_open_exact (mkConfig 2 200 5000) 0 (fun b => b) answers3 5 9 stError trusted3 0 trusted3_fresh N).
  vm_compute. intros (_ & Hr & Ht & Hc & _ & Hi & _).
  split; [exact Hr|]. split; [exact Hi|]. split; [exact Hc|exact Ht].
Defined.

End OpenLazy.
