(* ===== verification/OpenRun.v ===== *)
(** * The retrying handler: one completion, for every interleaving

    The invariant of the handler, the pool that runs its retries, the other users of the pool
    and the end of the handle; what a completion says; and that one can always come. *)

From S2P Require Import Prelude UrlKey Executor OpenRetry OpenLazy.
Local Open Scope u64_scope.

Module OpenRun.
Import Policy Inner Handler OpenLazy.

#[global] Instance XRootDStatus_eq : EqDecision XRootDStatus.
Proof. solve_decision. Defined.
#[global] Instance Ev_eq : EqDecision Ev.
Proof. solve_decision. Defined.

(** The answers to the opens, in order: what an open that could not be issued returned, or the
    status of its response. *)
Definition answer_of (ev : Ev) : list XRootDStatus :=
  match ev with
  | Start _ s | Issue _ s => if isOK s then [] else [s]
  | Response _ (Some s) => [s]
  | Response _ None => [stError]
  | _ => []
  end.
Definition answers (evs : list Ev) : list XRootDStatus := concat (map answer_of evs).

(** The opens and the responses: what the handler does apart from waiting. *)
Definition is_handler_ev (ev : Ev) : bool := match ev with Start _ _ | Response _ _ | Issue _ _ => true | _ => false end.
Definition handler_evs (evs : list Ev) : Z := zlen (filter (fun ev => is_handler_ev ev = true) evs).

Definition is_retry (t : Task) : bool := match t with TRetry => true | TOther _ => false end.
Definition retries (l : list Task) : nat := length (filter (fun t => is_retry t = true) l).
Definition retries_pending (e : Executor.Executor Task) : nat := retries (Executor.pending e).

Section Inv.
Context (cfg : Config) (nfault : Z) (dist : Z -> Z) (st : bool) (u : bytes).

Definition again (k : Z) (s : XRootDStatus) : Prop := isOK s = false /\ try_again cfg k s = true.
(** The [k]-th open goes to the [k]-th file. *)
Definition opens (n : Z) : list Act := map (fun k => AOpen (k - 1) (faultOpenUrl nfault u k)) (zrange 1 (n + 1)).

(** What every phase keeps, with [n] retries counted. *)
Record base (l : list XRootDStatus) (n : Z) (w : World) : Prop := mkBase {
  b_store : store (hs w) = st;
  b_url : url (hs w) = u;
  b_trace : trace (hs w) = opens (attempt_ w);
  b_next : nextFile (files (hs w)) = Z.max 1 (attempt_ w);
  b_prev : forall (i : nat) s, l !! i = Some s -> Z.of_nat i + 1 < attempt_ w -> again (Z.of_nat i + 1) s;
  b_count : openRetriesCount (stats (hs w)) = if st then n else 0
}.

Definition exhausted (n : Z) (w : World) : Prop := openRetriesExhausted (stats (hs w)) = if st then n else 0.
Definition pending_is (n : nat) (w : World) : Prop := retries_pending (pool w) = n.
Definition b2z (b : bool) : Z := if b then 1 else 0.

(** The invariant. *)
Definition ok (l : list XRootDStatus) (w : World) : Prop :=
  match phase w with
  | Idle => base l 0 w /\ exhausted 0 w /\ pending_is 0 w /\ attempt_ w = 0 /\ l = [] /\ completions w = []
      /\ (forall f, inner (files (hs w)) = Some f -> f = 0)
  | Waiting f => base l (attempt_ w - 1) w /\ exhausted 0 w /\ pending_is 0 w /\ zlen l = attempt_ w - 1 /\ f = attempt_ w - 1 /\ completions w = []
  | Posted => base l (attempt_ w) w /\ exhausted 0 w /\ pending_is 1 w /\ zlen l = attempt_ w /\ completions w = []
      /\ last l = Some (lastStatus_ w) /\ again (attempt_ w) (lastStatus_ w)
  | Checked => base l (attempt_ w) w /\ exhausted 0 w /\ pending_is 0 w /\ zlen l = attempt_ w /\ completions w = []
      /\ last l = Some (lastStatus_ w) /\ again (attempt_ w) (lastStatus_ w)
  | Done => exists s,
      let cut := negb (isOK s) && try_again cfg (attempt_ w) s in
      base l (attempt_ w - 1 + b2z cut) w /\
      exhausted (b2z (negb (isOK s) && negb cut && (1 <? attempt_ w))) w /\ pending_is 0 w /\ zlen l = attempt_ w /\
      last l = Some s /\ completions w = [if isOK s then Success s else Failure s] /\
      (cut = true -> innerValid (files (hs w)) = false)
  end.

(** *** The pool *)

Lemma retries_perm l l' : l ≡ₚ l' -> retries l = retries l'.
Proof. intros P. unfold retries. by rewrite P. Qed.
Lemma retries_app l l' : retries (l ++ l') = (retries l + retries l')%nat.
Proof. unfold retries. by rewrite filter_app, length_app. Qed.

Lemma postAfter_retries now d t e :
  retries_pending (Executor.postAfter now d t e) = (retries_pending e + if is_retry t then 1 else 0)%nat.
Proof.
  unfold retries_pending. rewrite (retries_perm _ _ (Executor.postAfter_pending now d t e)), retries_app.
  f_equal. by destruct t.
Qed.
Lemma timer_retries now e : retries_pending (Executor.timerLoop now e) = retries_pending e.
Proof. apply retries_perm, Executor.timerLoop_pending. Qed.
Lemma take_retries t e e' :
  Executor.loop e = Some (t, e') -> retries_pending e = ((if is_retry t then 1 else 0) + retries_pending e')%nat.
Proof.
  unfold Executor.loop, retries_pending, Executor.pending. destruct (Executor.queue_ e) as [|x q] eqn:E; [done|].
  intros H; simplify_eq. cbn [Executor.queue_ Executor.timers_].
  change ((t :: q) ++ map Executor.task (Executor.timers_ e)) with ([t] ++ (q ++ map Executor.task (Executor.timers_ e))).
  rewrite (retries_app [t]). f_equal. by destruct t.
Qed.

(** *** The pieces of the handler *)

Lemma opens_S n : 0 <= n -> opens (n + 1) = opens n ++ [AOpen n (faultOpenUrl nfault u (n + 1))].
Proof.
  intros Hn. unfold opens. rewrite zrange_snoc by lia. rewrite map_app. cbn. by replace (n + 1 - 1) with n by lia.
Qed.

(** One more answer, to the open that was out. *)
Lemma base_answer l n w s :
  base l n w -> zlen l = attempt_ w - 1 -> base (l ++ [s]) n (set_last w s).
Proof.
  intros [H1 H2 H3 H4 H5 H6] Hl. constructor; try done.
  intros i x Hi Hlt. change (attempt_ (set_last w s)) with (attempt_ w) in Hlt. apply lookup_app_Some in Hi as [Hi|[Hge Hi]].
  - by apply H5.
  - unfold zlen in Hl. lia.
Qed.

(** The next open goes out on a file with the handle [h]: its answer [s] is not in, or it is a
    failure to issue. *)
Lemma base_issue l w h :
  base l (attempt_ w) w -> zlen l = attempt_ w ->
  store h = store (hs w) -> url h = url (hs w) -> trace h = trace (hs w) -> stats h = stats (hs w) ->
  nextFile (files h) = attempt_ w + 1 ->
  (forall s, last l = Some s -> again (attempt_ w) s) ->
  base l (attempt_ w) (issueOn nfault (attempt_ w) (set_hs w h)).
Proof.
  intros [H1 H2 H3 H4 H5 H6] Hl E1 E2 E3 E4 Hn Hlast. pose proof (zlen_nonneg l).
  constructor; cbn; rewrite ?E1, ?E2, ?E3, ?E4; try done.
  - rewrite H3, opens_S, H2 by lia. done.
  - lia.
  - intros i s Hi Hlt. destruct (decide (Z.of_nat i + 1 < attempt_ w)); [by apply H5|].
    replace (Z.of_nat i + 1) with (attempt_ w) by lia. apply Hlast. rewrite last_lookup.
    replace (pred (length l)) with i; [done|]. unfold zlen in Hl. lia.
Qed.

(** The failure [s] of the last open is in: the decision. *)
Lemma decide_ok now l w :
  openRetries cfg < p31 -> base l (attempt_ w - 1) w -> exhausted 0 w -> pending_is 0 w -> zlen l = attempt_ w ->
  last l = Some (lastStatus_ w) -> isOK (lastStatus_ w) = false -> completions w = [] -> 1 <= attempt_ w ->
  ok l (decideRetryOrForward cfg dist now w).
Proof.
  intros Hr B X P Hl La Hf Hc H1. unfold decideRetryOrForward. destruct (try_again cfg (attempt_ w) (lastStatus_ w)) eqn:T.
  - assert (attempt_ w <= openRetries cfg) by (unfold try_again in T; by b2p).
    destruct B as [B1 B2 B3 B4 B5 B6]. unfold ok; cbn [phase set_phase].
    split_and!; cbn; try done.
    + constructor; cbn; unfold count_retry; rewrite ?B1; try (by case_match).
      rewrite B6. destruct st; cbn; [|done]. rewrite w64_small by lia. lia.
    + unfold exhausted, count_retry. cbn. rewrite B1. destruct st eqn:Es; cbn; unfold exhausted in X; by rewrite Es in X.
    + unfold pending_is. cbn. rewrite postAfter_retries. unfold pending_is in P. cbn. rewrite P. done.
  - unfold ok, forwardFailure, complete. cbn [phase].
    exists (lastStatus_ w). rewrite Hf. cbn [negb andb].
    assert (forall b : bool, let w' := if b then set_hs w (count_exhausted (hs w)) else w in
      attempt_ w' = attempt_ w /\ lastStatus_ w' = lastStatus_ w /\ pool w' = pool w /\ completions w' = completions w) as Hsame
      by (by intros []).
    destruct (Hsame (1 <? attempt_ w)) as (S1 & S2 & S3 & S4). cbn in S1, S2, S3, S4.
    cbn. rewrite S1, S2, S4, Hc, T. cbn. split_and!; try done.
    + destruct B as [B1 B2 B3 B4 B5 B6]. rewrite Z.add_0_r.
      destruct (1 <? attempt_ w); constructor; cbn; unfold count_exhausted; rewrite ?B1; try done; try (by case_match).
    + unfold exhausted in *. cbn. destruct (1 <? attempt_ w); [|done]. cbn. unfold count_exhausted.
      rewrite (b_store _ _ _ B). destruct st; [|done]. cbn. by rewrite X.
    + unfold pending_is in *. cbn. by rewrite S3.
Qed.

Lemma issue_ok now s l w h :
  openRetries cfg < p31 -> base l (attempt_ w) w -> exhausted 0 w -> pending_is 0 w -> zlen l = attempt_ w ->
  store h = store (hs w) -> url h = url (hs w) -> trace h = trace (hs w) -> stats h = stats (hs w) ->
  nextFile (files h) = attempt_ w + 1 -> (forall s, last l = Some s -> again (attempt_ w) s) -> completions w = [] ->
  ok (l ++ if isOK s then [] else [s]) (issue_and_check cfg nfault dist now (attempt_ w) s (set_hs w h)).
Proof.
  intros Hr B X P Hl E1 E2 E3 E4 Hn Hlast Hc.
  pose proof (base_issue l w h B Hl E1 E2 E3 E4 Hn Hlast) as Bi. pose proof (zlen_nonneg l).
  unfold issue_and_check. destruct (isOK s) eqn:Es.
  - rewrite app_nil_r. unfold ok; cbn [phase issueOn]. replace (attempt_ (issueOn nfault (attempt_ w) (set_hs w h)) - 1) with (attempt_ w) by (cbn; lia).
    split_and!; try done. unfold exhausted in *; cbn. by rewrite E4.
  - apply decide_ok; try done.
    + replace (attempt_ (set_last _ s) - 1) with (attempt_ w) by (cbn; lia).
      apply base_answer; [done|]. cbn. lia.
    + unfold exhausted in *; cbn. by rewrite E4.
    + rewrite zlen_app. cbn. rewrite Hl. done.
    + by rewrite last_snoc.
    + cbn. lia.
Qed.

Lemma created_ok : ok [] (created st u).
Proof.
  unfold ok; cbn. split_and!; try done.
  - constructor; cbn; try done. by case_match.
  - unfold exhausted; cbn. by case_match.
  - by intros f [=].
Qed.

(** The events that are not the handler's own leave what the invariant speaks of. *)
Lemma frame_ok l w h e :
  ok l w -> store h = store (hs w) -> url h = url (hs w) -> trace h = trace (hs w) -> stats h = stats (hs w) ->
  nextFile (files h) = nextFile (files (hs w)) ->
  (forall f, inner (files h) = Some f -> inner (files (hs w)) = Some f) ->
  (innerValid (files (hs w)) = false -> innerValid (files h) = false) ->
  retries_pending e = retries_pending (pool w) ->
  ok l (set_hs (set_pool w e) h).
Proof.
  intros H E1 E2 E3 E4 E5 E6 E7 E8.
  assert (forall n, base l n w -> base l n (set_hs (set_pool w e) h)) as Fb.
  { intros n [H1 H2 H3 H4 H5 H6]. constructor; cbn; rewrite ?E1, ?E2, ?E3, ?E4, ?E5; done. }
  assert (forall n, exhausted n w -> exhausted n (set_hs (set_pool w e) h)) as Fx
    by (unfold exhausted; cbn; by rewrite E4).
  assert (forall n, pending_is n w -> pending_is n (set_hs (set_pool w e) h)) as Fp
    by (unfold pending_is; cbn; by rewrite E8).
  unfold ok in *. cbn [phase set_hs set_pool]. destruct (phase w); cbn; [intuition auto..|].
  destruct H as (s & Hs). exists s. cbn in *. intuition auto.
Qed.

Lemma handler_step_ok ev l w w' :
  openRetries cfg < p31 -> ok l w -> step cfg nfault dist ev w = Some w' -> ok (l ++ answer_of ev) w'.
Proof.
  intros Hr H E. destruct ev as [now s|now o|now s| |now|n now d| |]; cbn in E.
  - destruct (phase w) eqn:Ep; try done. unfold ok in H. rewrite Ep in H.
    destruct H as (B & X & P & A0 & -> & C & I). unfold start in E.
    destruct (inner (files (hs w))) as [f|] eqn:Ei; [|done]. simplify_eq. rewrite (I f eq_refl). cbn [answer_of].
    assert (issue_and_check cfg nfault dist now 0 s w = issue_and_check cfg nfault dist now (attempt_ w) s (set_hs w (hs w))) as ->
      by (rewrite A0; by destruct w).
    pose proof (b_next _ _ _ B) as Hn. rewrite A0 in Hn.
    apply issue_ok; rewrite ?A0; try done.
  - destruct (phase w) as [|f| | |] eqn:Ep; try done. unfold ok in H. rewrite Ep in H.
    destruct H as (B & X & P & L & -> & C). simplify_eq.
    assert (1 <= attempt_ w) by (pose proof (zlen_nonneg l); lia).
    assert (forall s, base (l ++ [s]) (attempt_ w - 1) w) as Bs.
    { intros s. pose proof (base_answer _ _ _ s B L) as [? ? ? ? ? ?]. by constructor. }
    assert (forall s, isOK s = false -> ok (l ++ [s]) (decideRetryOrForward cfg dist now (set_last w s))) as Hfail.
    { intros s Hs. apply decide_ok; try done; [by apply base_answer| |by rewrite last_snoc].
      rewrite zlen_app, L, zlen_cons, zlen_nil. cbn. lia. }
    destruct o as [s|]; cbn; [|by apply Hfail]. destruct (isOK s) eqn:Es; [|by apply Hfail].
    unfold ok; cbn [phase complete]. exists s. rewrite Es. cbn. rewrite Z.add_0_r, last_snoc, C.
    split_and!; try done; [by destruct (Bs s); constructor|]. rewrite zlen_app, L, zlen_cons, zlen_nil. lia.
  - destruct (phase w) eqn:Ep; try done. unfold ok in H. rewrite Ep in H.
    destruct H as (B & X & P & L & C & La & Ag). simplify_eq. unfold doRetry_issue. cbn [resetInner answer_of].
    pose proof (b_next _ _ _ B) as Hn.
    assert (1 <= attempt_ w). { pose proof (zlen_nonneg l). destruct l; [done|]. rewrite zlen_cons in L. pose proof (zlen_nonneg l). lia. }
    rewrite Hn. replace (Z.max 1 (attempt_ w)) with (attempt_ w) by lia.
    apply issue_ok; try done. intros s' Hs'. congruence.
  - cbn [answer_of]. rewrite app_nil_r. destruct (Executor.loop (pool w)) as [[[|n] e]|] eqn:El; try done.
    + destruct (phase w) eqn:Ep; try done. unfold ok in H. rewrite Ep in H.
      destruct H as (B & X & P & L & C & La & Ag). simplify_eq.
      assert (retries_pending e = 0%nat) as Pe.
      { apply take_retries in El. unfold pending_is in P. cbn in El. lia. }
      assert (1 <= attempt_ w). { pose proof (zlen_nonneg l). destruct l; [done|]. rewrite zlen_cons in L. pose proof (zlen_nonneg l). lia. }
      destruct B as [B1 B2 B3 B4 B5 B6].
      unfold doRetry_check. cbn [hs set_pool]. destruct (innerValid (files (hs w))) eqn:V.
      * unfold ok; cbn. split_and!; try done.
      * unfold ok; cbn. exists (lastStatus_ w). destruct Ag as [Ag1 Ag2]. rewrite Ag1, Ag2, C. cbn.
        rewrite Z.sub_add. split_and!; try done.
    + apply take_retries in El. cbn in El.
      simplify_eq. change (ok l (set_hs (set_pool w e) (hs w))).
      apply frame_ok; try done.
  - simplify_eq. cbn [answer_of]. rewrite app_nil_r.
    change (ok l (set_hs (set_pool w (Executor.timerLoop now (pool w))) (hs w))).
    apply frame_ok; try done. apply timer_retries.
  - simplify_eq. cbn [answer_of]. rewrite app_nil_r.
    change (ok l (set_hs (set_pool w (Executor.postAfter now d (TOther n) (pool w))) (hs w))).
    apply frame_ok; try done. rewrite postAfter_retries. cbn. lia.
  - simplify_eq. cbn [answer_of]. rewrite app_nil_r.
    replace (set_hs w (shutdown_begin (hs w))) with (set_hs (set_pool w (pool w)) (shutdown_begin (hs w))) by (by destruct w).
    by apply frame_ok.
  - case_match eqn:G; [|done]. simplify_eq. cbn [answer_of]. rewrite app_nil_r.
    replace (set_hs w (shutdown_end (hs w))) with (set_hs (set_pool w (pool w)) (shutdown_end (hs w))) by (by destruct w).
    by apply frame_ok.
Qed.

Lemma answers_cons ev evs : answers (ev :: evs) = answer_of ev ++ answers evs.
Proof. done. Qed.
Lemma answers_app a b : answers (a ++ b) = answers a ++ answers b.
Proof. unfold answers. by rewrite map_app, concat_app. Qed.
Lemma handler_run_app a b w w1 : run cfg nfault dist a w = Some w1 -> run cfg nfault dist (a ++ b) w = run cfg nfault dist b w1.
Proof.
  revert w; induction a as [|ev a IH]; intros w E; cbn in *; [by simplify_eq|].
  destruct (step cfg nfault dist ev w); [|done]. by apply IH.
Qed.

Lemma handler_run_ok evs l w w' :
  openRetries cfg < p31 -> ok l w -> run cfg nfault dist evs w = Some w' -> ok (l ++ answers evs) w'.
Proof.
  intros Hr. revert l w; induction evs as [|ev evs IH]; intros l w H E; cbn [run] in E.
  - simplify_eq. by rewrite app_nil_r.
  - destruct (step cfg nfault dist ev w) as [w1|] eqn:E1; [|done].
    rewrite answers_cons, app_assoc. eapply IH; [|done]. by eapply handler_step_ok.
Qed.
Lemma reach_ok evs w :
  openRetries cfg < p31 -> run cfg nfault dist evs (created st u) = Some w -> ok (answers evs) w.
Proof. intros Hr E. by apply (handler_run_ok evs [] _ w Hr created_ok). Qed.

(** *** How many opens and responses there can be *)

Lemma decide_attempt now w : attempt_ (decideRetryOrForward cfg dist now w) = attempt_ w.
Proof. unfold decideRetryOrForward. case_match; [done|]. by destruct (1 <? attempt_ w). Qed.
Lemma issue_attempt now f s w : attempt_ (issue_and_check cfg nfault dist now f s w) = attempt_ w + 1.
Proof. unfold issue_and_check. case_match; [done|]. by rewrite decide_attempt. Qed.

Lemma step_attempt ev w w' :
  step cfg nfault dist ev w = Some w' ->
  attempt_ w' = attempt_ w + b2z (match ev with Start _ _ | Issue _ _ => true | _ => false end).
Proof.
  intros E. destruct ev as [now s|now o|now s| |now|n now d| |]; cbn in E |- *.
  - destruct (phase w); try done. unfold start in E. case_match; [|done]. simplify_eq. apply issue_attempt.
  - destruct (phase w); try done. simplify_eq. unfold HandleResponseWithHosts.
    repeat case_match; rewrite ?decide_attempt; cbn; lia.
  - destruct (phase w); try done. simplify_eq. unfold doRetry_issue, resetInner. by rewrite issue_attempt.
  - destruct (Executor.loop (pool w)) as [[[|n] e]|]; try done; [destruct (phase w); try done|]; simplify_eq;
      unfold doRetry_check; try case_match; cbn; lia.
  - simplify_eq. cbn. lia.
  - simplify_eq. cbn. lia.
  - simplify_eq. cbn. lia.
  - case_match; simplify_eq. cbn. lia.
Qed.

Lemma handler_evs_cons ev evs : handler_evs (ev :: evs) = b2z (is_handler_ev ev) + handler_evs evs.
Proof.
  unfold handler_evs. destruct (is_handler_ev ev) eqn:E.
  - rewrite filter_cons_True, zlen_cons by done. done.
  - rewrite filter_cons_False by congruence. done.
Qed.
Lemma run_handler_evs evs w w' :
  run cfg nfault dist evs w = Some w' -> handler_evs evs <= attempt_ w' - attempt_ w + zlen (answers evs).
Proof.
  revert w; induction evs as [|ev evs IH]; intros w E; cbn [run] in E.
  - simplify_eq. rewrite Z.sub_diag. done.
  - destruct (step cfg nfault dist ev w) as [w1|] eqn:E1; [|done].
    specialize (IH _ E). apply step_attempt in E1. rewrite handler_evs_cons, answers_cons, zlen_app.
    pose proof (zlen_nonneg (answer_of ev)).
    destruct ev as [now s|now [s|]|now s| |now|n now d| |]; cbn [is_handler_ev b2z answer_of] in *; rewrite ?zlen_cons, ?zlen_nil in *; lia.
Qed.

(** A handler cannot be past its last retry. *)
Lemma attempt_bound l w : ok l w -> 0 <= attempt_ w <= Z.max 0 (openRetries cfg) + 1 /\ zlen l <= attempt_ w.
Proof.
  intros H. pose proof (zlen_nonneg l) as Hl.
  assert (forall n, base l n w -> attempt_ w - 1 <= zlen l -> attempt_ w <= Z.max 0 (openRetries cfg) + 1) as Hb.
  { intros n B L. destruct (Z.le_gt_cases (attempt_ w) 1); [lia|].
    destruct (lookup_lt_is_Some_2 l (Z.to_nat (attempt_ w - 2))) as [s Hs]; [unfold zlen in *; lia|].
    destruct (b_prev _ _ _ B _ _ Hs ltac:(lia)) as [_ T]. unfold try_again in T. b2p. lia. }
  unfold ok in H. destruct (phase w).
  - destruct H as (B & _ & _ & E & -> & _). rewrite E. change (zlen []) with 0. lia.
  - destruct H as (B & _ & _ & L & _). pose proof (Hb _ B). lia.
  - destruct H as (B & _ & _ & L & _). pose proof (Hb _ B). lia.
  - destruct H as (B & _ & _ & L & _). pose proof (Hb _ B). lia.
  - destruct H as (s & B & _ & _ & L & _). pose proof (Hb _ B). lia.
Qed.

(** The handle is invalid only if its end began. *)
Lemma decide_valid now w : innerValid (files (hs (decideRetryOrForward cfg dist now w))) = innerValid (files (hs w)).
Proof.
  unfold decideRetryOrForward. case_match; cbn; [unfold count_retry; by case_match|].
  destruct (1 <? attempt_ w); [|done]. cbn. unfold count_exhausted. by case_match.
Qed.
Lemma issue_valid now f s w : innerValid (files (hs (issue_and_check cfg nfault dist now f s w))) = innerValid (files (hs w)).
Proof. unfold issue_and_check. case_match; [done|]. by rewrite decide_valid. Qed.
Lemma step_valid ev w w' :
  step cfg nfault dist ev w = Some w' -> ev <> ShutBegin -> innerValid (files (hs w')) = innerValid (files (hs w)).
Proof.
  intros E Hn. destruct ev as [now s|now o|now s| |now|n now d| |]; cbn in E; try done.
  - destruct (phase w); try done. unfold start in E. case_match; [|done]. simplify_eq. apply issue_valid.
  - destruct (phase w); try done. simplify_eq. unfold HandleResponseWithHosts.
    repeat case_match; rewrite ?decide_valid; done.
  - destruct (phase w); try done. simplify_eq. unfold doRetry_issue, resetInner. by rewrite issue_valid.
  - destruct (Executor.loop (pool w)) as [[[|n] e]|]; try done; [destruct (phase w); try done|]; simplify_eq;
      unfold doRetry_check; try case_match; done.
  - by simplify_eq.
  - by simplify_eq.
  - case_match; by simplify_eq.
Qed.
Lemma run_valid evs w w' :
  run cfg nfault dist evs w = Some w' -> ShutBegin ∉ evs -> innerValid (files (hs w')) = innerValid (files (hs w)).
Proof.
  revert w; induction evs as [|ev evs IH]; intros w E Hn; cbn [run] in E; [by simplify_eq|].
  destruct (step cfg nfault dist ev w) as [w1|] eqn:E1; [|done]. rewrite not_elem_of_cons in Hn. destruct Hn as [H1 H2].
  rewrite (IH _ E H2). eapply step_valid; [done|congruence].
Qed.

Lemma again_goes_on ans k s : ans k = s -> again k s <-> goes_on cfg ans k = true.
Proof. intros <-. unfold again, goes_on. rewrite andb_true_iff, negb_true_iff. done. Qed.

(** Without an end of the handle, the handler stops where the policy does. *)
Lemma done_settled l w ans :
  ok l w -> phase w = Done -> innerValid (files (hs w)) = true ->
  (forall (i : nat) x, l !! i = Some x -> ans (Z.of_nat i + 1) = x) -> settled cfg ans = attempt_ w.
Proof.
  intros H Ep V Ha. unfold ok in H. rewrite Ep in H. destruct H as (s & B & _ & _ & L & La & _ & Hcut).
  rewrite last_lookup in La.
  assert (1 <= attempt_ w) by (destruct l; [done|]; rewrite zlen_cons in L; pose proof (zlen_nonneg l); lia).
  apply settled_unique; [done| |].
  - intros j Hj. destruct (lookup_lt_is_Some_2 l (Z.to_nat (j - 1))) as [x Hx]; [unfold zlen in L; lia|].
    pose proof (Ha _ _ Hx) as Ej. pose proof (b_prev _ _ _ B _ _ Hx ltac:(lia)) as Ag.
    replace (Z.of_nat (Z.to_nat (j - 1)) + 1) with j in * by lia. by apply (again_goes_on ans j x).
  - apply not_true_iff_false. intros G. pose proof (Ha _ _ La) as En.
    replace (Z.of_nat (pred (length l)) + 1) with (attempt_ w) in En by (unfold zlen in L; lia).
    apply (again_goes_on ans _ s En) in G. destruct G as [G1 G2]. rewrite G1, G2 in Hcut. specialize (Hcut eq_refl). congruence.
Qed.

(** *** One completion can always come *)

(** The next answers of the origin are [ans]'s, [n] of them already in. *)
Definition follows (ans : Z -> XRootDStatus) (n : Z) (more : list Ev) : Prop :=
  forall (i : nat) s, answers more !! i = Some s -> s = ans (n + Z.of_nat i + 1).

Lemma follows_nil ans n more : answers more = [] -> follows ans n more.
Proof. intros E i s Hi. by rewrite E in Hi. Qed.
Lemma follows_one ans n more : answers more = [ans (n + 1)] -> follows ans n more.
Proof.
  intros E [|i] s Hi; rewrite E in Hi; cbn in Hi; [|done]. simplify_eq. f_equal. cbn. lia.
Qed.
Lemma follows_app ans n a b : follows ans n a -> follows ans (n + zlen (answers a)) b -> follows ans n (a ++ b).
Proof.
  intros Ha Hb i s Hi. rewrite answers_app in Hi. apply lookup_app_Some in Hi as [Hi|[Hge Hi]]; [by apply Ha|].
  rewrite (Hb _ _ Hi). f_equal. unfold zlen. lia.
Qed.

Definition quiet (more : list Ev) : Prop := (ShutBegin ∉ more) /\ (ShutEnd ∉ more).
Lemma quiet_app a b : quiet a -> quiet b -> quiet (a ++ b).
Proof. unfold quiet. rewrite !not_elem_of_app. tauto. Qed.

(** From [w], whose opens gave [l], a run by which the handler completes. *)
Definition can_complete (ans : Z -> XRootDStatus) (l : list XRootDStatus) (w : World) : Prop :=
  exists more w', run cfg nfault dist more w = Some w' /\ phase w' = Done /\ follows ans (zlen l) more /\ quiet more.

Lemma can_complete_after ans l w more w1 :
  run cfg nfault dist more w = Some w1 -> follows ans (zlen l) more -> quiet more ->
  can_complete ans (l ++ answers more) w1 -> can_complete ans l w.
Proof.
  intros E F Q (more' & w' & E' & D & F' & Q'). exists (more ++ more'), w'. split_and!; [|done| |by apply quiet_app].
  - by rewrite (handler_run_app _ _ _ _ E).
  - apply follows_app; [done|]. by rewrite <- zlen_app.
Qed.

(** The pool's own steps, as steps of the world. *)
Lemma run_pool_timers now n w :
  run cfg nfault dist (replicate n (PoolTimer now)) w = Some (set_pool w (snd (Executor.run (replicate n (Executor.Timer now)) ([], pool w)))).
Proof.
  revert w; induction n as [|n IH]; intros w; cbn [replicate run]; [by destruct w|].
  cbn [step]. rewrite IH. done.
Qed.

Lemma run_pool_takes w :
  phase w = Posted -> Executor.timers_ (pool w) = [] -> retries_pending (pool w) = 1%nat ->
  exists n e, run cfg nfault dist (replicate n PoolTake) w = Some (doRetry_check (set_pool w e)).
Proof.
  intros Ep. destruct w as [h a ls p [q tm] c]; cbn in *. subst. intros ->.
  induction q as [|[|k] q IH]; intros R; [done| |].
  - by exists 1%nat, (Executor.mkExec q []).
  - destruct IH as (n & e & E); [done|]. exists (S n), e. cbn [replicate run step Executor.loop pool Executor.queue_].
    exact E.
Qed.

Lemma answers_replicate n ev : answer_of ev = [] -> answers (replicate n ev) = [].
Proof. intros E. induction n; [done|]. cbn [replicate]. by rewrite answers_cons, E. Qed.
Lemma quiet_replicate n ev : ev <> ShutBegin -> ev <> ShutEnd -> quiet (replicate n ev).
Proof. intros H1 H2. split; intros [H _]%elem_of_replicate; congruence. Qed.

(** A posted retry is run, whatever else is in the pool. *)
Lemma posted_runs w :
  phase w = Posted -> retries_pending (pool w) = 1%nat ->
  exists more e, run cfg nfault dist more w = Some (doRetry_check (set_pool w e)) /\ answers more = [] /\ quiet more.
Proof.
  intros Ep R.
  assert (exists now, Forall (fun t => Executor.deadlineNs t <= now) (Executor.timers_ (pool w))) as [now F].
  { generalize (Executor.timers_ (pool w)). induction l as [|t l [m IH]]; [by exists 0|].
    exists (Z.max m (Executor.deadlineNs t)). constructor; [lia|]. eapply Forall_impl; [exact IH|]. cbn; intros; lia. }
  destruct (Executor.run_timers now _ [] (pool w) eq_refl F) as (q & Eq & Pq).
  pose proof (run_pool_timers now (length (Executor.timers_ (pool w))) w) as E1. rewrite Eq in E1. cbn [snd] in E1.
  assert (retries_pending (Executor.mkExec (Executor.queue_ (pool w) ++ q) []) = 1%nat) as R'.
  { rewrite <- R. apply retries_perm. unfold Executor.pending. cbn. by rewrite app_nil_r, Pq. }
  destruct (run_pool_takes (set_pool w (Executor.mkExec (Executor.queue_ (pool w) ++ q) [])) Ep eq_refl R') as (n & e & E2).
  eexists (_ ++ replicate n PoolTake), e. split_and!.
  - by rewrite (handler_run_app _ _ _ _ E1).
  - by rewrite answers_app, !answers_replicate.
  - apply quiet_app; by apply quiet_replicate.
Qed.

(** After each answer the handler is done or its retry is posted. *)
Lemma decide_phase now w : phase (decideRetryOrForward cfg dist now w) = Done \/ phase (decideRetryOrForward cfg dist now w) = Posted.
Proof. unfold decideRetryOrForward. case_match; [by right|by left]. Qed.

Lemma checked_answers ans l w :
  ok l w -> phase w = Checked ->
  exists more w1, run cfg nfault dist more w = Some w1 /\ answers more = [ans (zlen l + 1)] /\ quiet more /\
    (phase w1 = Done \/ phase w1 = Posted).
Proof.
  intros H Ep. destruct (isOK (ans (zlen l + 1))) eqn:Es.
  - exists [Issue 0 (ans (zlen l + 1)); Response 0 (Some (ans (zlen l + 1)))]. eexists. cbn [run step]. rewrite Ep.
    unfold doRetry_issue, resetInner, issue_and_check. rewrite Es. cbn [phase issueOn HandleResponseWithHosts]. rewrite Es.
    split; [done|]. split; [cbn; by rewrite Es|]. split; [|by left]. unfold quiet. rewrite !not_elem_of_cons. split_and!; try done; apply not_elem_of_nil.
  - exists [Issue 0 (ans (zlen l + 1))]. eexists. cbn [run step]. rewrite Ep.
    unfold doRetry_issue, resetInner, issue_and_check. rewrite Es.
    split; [done|]. split; [cbn; by rewrite Es|]. split; [|apply decide_phase]. unfold quiet. rewrite !not_elem_of_cons. split_and!; try done; apply not_elem_of_nil.
Qed.

Lemma posted_completes ans l w :
  openRetries cfg < p31 -> ok l w -> phase w = Posted -> can_complete ans l w.
Proof.
  intros Hr. remember (Z.to_nat (openRetries cfg - attempt_ w)) as d eqn:Hd.
  revert l w Hd; induction (lt_wf d) as [d _ IH]; intros l w Hd H Ep.
  pose proof H as H'. unfold ok in H'. rewrite Ep in H'. destruct H' as (B & X & P & L & C & La & [_ T]).
  unfold try_again in T. apply andb_true_iff in T as [T%Z.leb_le _].
  destruct (posted_runs w Ep P) as (more & e & E & An & Q).
  eapply (can_complete_after ans l w more _ E); [by apply follows_nil|done|]. rewrite An, app_nil_r.
  pose proof (handler_run_ok _ _ _ _ Hr H E) as Hok. rewrite An, app_nil_r in Hok.
  unfold doRetry_check in *. destruct (innerValid _) eqn:V.
  2:{ exists [], (forwardFailure (set_pool w e)). split_and!; [done|done|by apply follows_nil|]. split; apply not_elem_of_nil. }
  destruct (checked_answers ans _ _ Hok eq_refl) as (more' & w1 & E' & An' & Q' & Ph).
  eapply (can_complete_after ans l _ more' w1 E'); [by apply follows_one|done|].
  pose proof (handler_run_ok _ _ _ _ Hr Hok E') as Hok'. rewrite An' in *.
  destruct Ph as [Ph|Ph].
  - exists [], w1. split_and!; [done|done|by apply follows_nil|]. split; apply not_elem_of_nil.
  - pose proof Hok' as H1. unfold ok in H1. rewrite Ph in H1. destruct H1 as (_ & _ & _ & L1 & _ & _ & [_ T1]).
    rewrite zlen_app, zlen_cons in L1. unfold try_again in T1. apply andb_true_iff in T1 as [T1%Z.leb_le _].
    pose proof (zlen_nonneg (A:=XRootDStatus) []).
    eapply (IH _ _ _ _ eq_refl Hok' Ph). Unshelve. lia.
Qed.

Lemma started_completes ans l w :
  openRetries cfg < p31 -> ok l w -> phase w <> Idle -> can_complete ans l w.
Proof.
  intros Hr H Hp. destruct (phase w) as [|f| | |] eqn:Ep; [done| | | |].
  - set (ev := Response 0 (Some (ans (zlen l + 1)))).
    assert (exists w1, run cfg nfault dist [ev] w = Some w1 /\ (phase w1 = Done \/ phase w1 = Posted)) as (w1 & E & Ph).
    { eexists. cbn. rewrite Ep. split; [done|]. case_match; [by left|apply decide_phase]. }
    eapply (can_complete_after ans l w [ev] w1 E); [by apply follows_one| |].
    { unfold quiet. rewrite !not_elem_of_cons. split_and!; try done; apply not_elem_of_nil. }
    destruct Ph as [Ph|Ph].
    + exists [], w1. split_and!; [done|done|by apply follows_nil|]. split; apply not_elem_of_nil.
    + apply posted_completes; [done| |done]. by eapply handler_run_ok.
  - by apply posted_completes.
  - destruct (checked_answers ans l w H Ep) as (more & w1 & E & An & Q & Ph).
    eapply (can_complete_after ans l w more w1 E); [by apply follows_one|done|].
    destruct Ph as [Ph|Ph].
    + exists [], w1. split_and!; [done|done|by apply follows_nil|]. split; apply not_elem_of_nil.
    + apply posted_completes; [done| |done]. by eapply handler_run_ok.
  - exists [], w. split_and!; [done|done|by apply follows_nil|]. split; apply not_elem_of_nil.
Qed.

End Inv.

(** ** What a client of the handler sees *)

(** C16: a retried open, over every interleaving of the origin's answers, the pool with other tasks in it and the end of the handle: each open goes to a file of its own, at most one more than the allowed retries are made, and what the handler does ends; the client gets nothing before the last answer and then exactly one completion, that answer's; every earlier answer was a failure worth retrying and the last was not, or the handle was being destroyed; the counters are exact; and the number of opens is the retry policy's, the same as the lazy open's. *)
Theorem open_completes_once cfg nfault dist st u evs w (Hr : openRetries cfg < p31)
    (Hrun : run cfg nfault dist evs (created st u) = Some w) :
  let l := answers evs in let n := attempt_ w in
  (trace (hs w) = opens nfault u n /\ n <= Z.max 0 (openRetries cfg) + 1 /\ handler_evs evs <= 2 * (Z.max 0 (openRetries cfg) + 1)) /\
  (phase w <> Done -> completions w = []) /\
  (phase w = Done -> exists s,
     let cut := negb (isOK s) && try_again cfg n s in
     last l = Some s /\ zlen l = n /\ completions w = [if isOK s then Success s else Failure s] /\
     (forall (i : nat) x, l !! i = Some x -> Z.of_nat i + 1 < n -> again cfg (Z.of_nat i + 1) x) /\
     (cut = true -> ShutBegin ∈ evs) /\
     (st = true -> openRetriesCount (stats (hs w)) = n - 1 + b2z cut /\
        openRetriesExhausted (stats (hs w)) = b2z (negb (isOK s) && negb cut && (1 <? n)))) /\
  (forall ans, phase w = Done -> ShutBegin ∉ evs -> (forall (i : nat) x, l !! i = Some x -> ans (Z.of_nat i + 1) = x) ->
     n = settled cfg ans).
Proof.
  cbn zeta. pose proof (reach_ok cfg nfault dist st u evs w Hr Hrun) as H.
  destruct (attempt_bound _ _ _ _ _ _ H) as (Hb & Hl).
  pose proof (run_handler_evs _ _ _ _ _ _ Hrun) as He. cbn [attempt_ created] in He.
  split_and!.
  - unfold ok in H. destruct (phase w); [destruct H as (B & _)..|destruct H as (s & B & _)]; apply B.
  - lia.
  - lia.
  - intros Hp. unfold ok in H. destruct (phase w); [tauto..|done].
  - intros Ep. unfold ok in H. rewrite Ep in H. destruct H as (s & B & X & _ & L & La & C & V). exists s. split_and!; try done.
    + intros i x Hi Hlt. by apply (b_prev _ _ _ _ _ _ _ B).
    + intros Hcut%V. destruct (decide (ShutBegin ∈ evs)) as [|Hn]; [done|].
      rewrite (run_valid _ _ _ _ _ _ Hrun Hn) in Hcut. done.
    + intros ->. pose proof (b_count _ _ _ _ _ _ _ B). done.
  - intros ans Ep Hn Ha. symmetry. eapply done_settled; [done|done| |done].
    by rewrite (run_valid _ _ _ _ _ _ Hrun Hn).
Qed.

Definition cfg2 : Config := mkConfig 2 200 5000.
Definition overloaded : XRootDStatus := mkStatus false kErrErrorResponse kXR_Overloaded.
Definition run2 : list Ev :=
  [OtherPost 7 1 0; Start 1 stOK; Response 2 (Some overloaded); PoolTake; PoolTimer 200000002; PoolTake; Issue 3 stOK; Response 4 (Some stOK)].
Definition end2 : World := match run cfg2 0 (fun b => b) run2 (created true (bs "root://o/f")) with Some w => w | None => created true [] end.
Lemma run2_ends : run cfg2 0 (fun b => b) run2 (created true (bs "root://o/f")) = Some end2.
Proof. vm_compute. reflexivity. Qed.
Lemma open_completes_once_witness :
  completions end2 = [Success stOK] /\ openRetriesCount (stats (hs end2)) = 1 /\
  trace (hs end2) = [AOpen 0 (bs "root://o/f"); AOpen 1 (bs "root://o/f")] /\
  trace (hs end2) = opens 0 (bs "root://o/f") (attempt_ end2).
Proof.
  assert (openRetries cfg2 < p31) as Hr by (cbn; lia).
  pose proof (open_completes_once cfg2 0 (fun b => b) true (bs "root://o/f") run2 end2 Hr run2_ends) as [(T & _) _].
  split; [vm_compute; reflexivity|]. split; [vm_compute; reflexivity|]. split; [vm_compute; reflexivity|exact T].
Defined.

(** C17: a started open is never stuck: from every reachable state, whatever the origin answers to the opens still to come and whatever other tasks the pool holds, the pool's turns and the answers lead to the client's completion. *)
Theorem open_always_completes cfg nfault dist st u evs w ans (Hr : openRetries cfg < p31)
    (Hrun : run cfg nfault dist evs (created st u) = Some w) (Hstart : phase w <> Idle) :
  exists more w', run cfg nfault dist (evs ++ more) (created st u) = Some w' /\ quiet more /\
    follows ans (zlen (answers evs)) more /\ phase w' = Done /\ (exists c, completions w' = [c]).
Proof.
  pose proof (reach_ok cfg nfault dist st u evs w Hr Hrun) as H.
  destruct (started_completes cfg nfault dist st u ans _ w Hr H Hstart) as (more & w' & E & D & F & Q).
  exists more, w'. assert (run cfg nfault dist (evs ++ more) (created st u) = Some w') as E' by (by rewrite (handler_run_app _ _ _ _ _ _ _ Hrun)).
  split_and!; try done. pose proof (reach_ok _ _ _ _ _ _ _ Hr E') as H'. unfold ok in H'. rewrite D in H'.
  destruct H' as (s & _ & _ & _ & _ & _ & C & _). by eexists.
Qed.

Definition posted2 : World :=
  match run cfg2 0 (fun b => b) (take 3 run2) (created true (bs "root://o/f")) with Some w => w | None => created true [] end.
Lemma posted2_reached : run cfg2 0 (fun b => b) (take 3 run2) (created true (bs "root://o/f")) = Some posted2.
Proof. vm_compute. reflexivity. Qed.
Lemma open_always_completes_witness :
  phase posted2 = Posted /\
  exists more w', run cfg2 0 (fun b => b) (take 3 run2 ++ more) (created true (bs "root://o/f")) = Some w' /\ quiet more /\
    follows (fun _ => overloaded) (zlen (answers (take 3 run2))) more /\ phase w' = Done /\ (exists c, completions w' = [c]).
Proof.
  assert (openRetries cfg2 < p31) as Hr by (cbn; lia).
  assert (phase posted2 <> Idle) as Hp by (vm_compute; discriminate).
  split; [vm_compute; reflexivity|].
  exact (open_always_completes cfg2 0 (fun b => b) true (bs "root://o/f") (take 3 run2) posted2 (fun _ => overloaded) Hr posted2_reached Hp).
Defined.

(** *** The end of a handle between the two halves of a retry *)

(** The retry saw a valid handle; the handle ended; the retry makes a file for it all the same. *)
Definition revive_evs : list Ev :=
  [Start 1 stOK; Response 2 (Some overloaded); PoolTimer 200000002; PoolTake; ShutBegin; ShutEnd; Issue 3 stOK].
Lemma retry_revives :
  exists w, run cfg2 0 (fun b => b) revive_evs (created true []) = Some w /\
    innerValid (files (hs w)) = false /\ innerOwned (files (hs w)) = Some 1 /\ phase w = Waiting 1.
Proof. eexists. split; [vm_compute; reflexivity|]. done. Qed.

End OpenRun.
