(* ===== verification/OpenUsers.v ===== *)
(** * Who uses the inner file, and when it is destroyed

    The invariant of every interleaving of a handle's threads, and the one section that
    breaks it: a trusted handle that is degraded while its lazy open is retried. *)

From S2P Require Import Prelude UrlKey Executor OpenRetry.

Module OpenUsers.
Import Policy Inner Users.





(** *** The operations keep the order of the files *)




Section Steps.
Context (cfg : Config) (nfault : Z) (dist : Z -> Z).








End Steps.

(** *** What the invariant says of files *)


(** *** The section that breaks it *)

Definition cfg1 : Config := mkConfig 1 200 5000.
Definition overloaded : XRootDStatus := mkStatus false kErrErrorResponse kXR_Overloaded.
Definition degrade_evs : list Ev := [Degrade; EnterDegraded 5; Acquire; Answer 6 overloaded; Wake].

(** A trusted handle whose entry is gone opens the origin in [ensureEntry]; another thread then
    acquires the file without waiting for that open, and its retry destroys the file in use. *)
Lemma degrade_race :
  exists s, run cfg1 0 (fun b => b) degrade_evs (opened true [] true) = Some s /\
    exists f : Z, f ∈ held s /\ f ∈ destroyed (files (hd s)) /\ innerOps (files (hd s)) = 1.
Proof.
  eexists. split; [vm_compute; reflexivity|]. exists 0. cbn. split_and!; [set_solver|set_solver|done].
Qed.



End OpenUsers.
