(* ===== verification/Stitch.v ===== *)
(** * Serving a replica view (src/plugin/UCacheFile.cc)

    A handle with a view shows a file the origin does not have: overlay bytes come verified
    from the replica, original bytes from the byte cache, and what neither has from one wire
    read. The guards of Read, PgRead and VectorRead on such a handle, and the whole service.
    The origin's answers are arguments. *)

From S2P Require Import Prelude IOBackend Crc32c Config MetaFile UrlKey FileEntry ReplicaFile ReplicaStore WireRead OpenRetry.
Local Open Scope u64_scope.

Module Stitch.
Import Wire.
Abbreviation Seg := RStore.Seg.

Section stitch.
Context {W : Type} `{!IOBackend W} `{CK : Checksum}.
Context (clockS clockUs : nat -> Z).

(** The handle while it serves: the entry with the process's world, the view with its
    counters, the one-time latch of a faulted replica and the drops posted to the pool, the
    two byte counters and the handle's cache errors. *)
Record Handle := mkHandle {
  es : @Entry.St W; vw : RStore.ReplicaView; rstats : RStore.rctr -> Z;
  replicaDropped : bool; dropsPosted : Z; servedBytes : Z; replicaBytesServed : Z; errs : Inner.Errors }.

Definition set_es (s : Handle) (e : Entry.St) : Handle := mkHandle e (vw s) (rstats s) (replicaDropped s) (dropsPosted s) (servedBytes s) (replicaBytesServed s) (errs s).
Definition set_errs (s : Handle) (e : Inner.Errors) : Handle := mkHandle (es s) (vw s) (rstats s) (replicaDropped s) (dropsPosted s) (servedBytes s) (replicaBytesServed s) e.

(** A method of the entry. *)
Definition on_entry {A} (m : M Entry.St A) : M Handle A := fun s => let '(a, e) := m (es s) in (a, set_es s e).
(** [view->read]; [None]: out of fuel. *)
Definition view_read (off len : Z) (buf : bytes) : M Handle (option (bool * bytes)) := fun s =>
  let '(o, rw) := RStore.read (vw s) off len buf (RStore.mkWorld (Entry.io_ (snd (es s))) (rstats s)) in
  let v := match o with Some (_, v) => v | None => vw s end in
  (match o with Some (ok, b, _) => Some (ok, b) | None => None end,
   mkHandle (fst (es s), Entry.set_io (RStore.io_ rw) (snd (es s))) v (RStore.stats_ rw)
     (replicaDropped s) (dropsPosted s) (servedBytes s) (replicaBytesServed s) (errs s)).

Definition replicaFault : M Handle unit := fun s =>
  (tt, if replicaDropped s then s
       else mkHandle (es s) (vw s) (rstats s) true (dropsPosted s + 1) (servedBytes s) (replicaBytesServed s) (errs s)).
Definition count_local (localBytes overlayBytes : Z) : M Handle unit := fun s =>
  (tt, mkHandle (es s) (vw s) (rstats s) (replicaDropped s) (dropsPosted s) (servedBytes s +% localBytes) (replicaBytesServed s +% overlayBytes) (errs s)).

(** A residual sub-range, with the user's buffer and the place in it it belongs to. *)
Record Resid := mkResid { r_chunk : Chunk; r_buf : nat; r_at : Z }.

(** What one chunk came to: its buffer, the residuals so far and the bytes counted. *)
Inductive Stitched :=
| Placed (buf : bytes) (resid : list Resid) (localBytes overlayBytes : Z)
| Fault
| NoFuel.

(** [stitchChunk]: the [k]-th buffer of the request, whose chunk begins at [off]. A cached read
    that fails leaves the buffer to the residual's bytes, which replace all it wrote. *)
Fixpoint stitch_segs (k : nat) (off : Z) (l : list Seg) (buf : bytes) (resid : list Resid) (localBytes overlayBytes : Z)
    : M Handle Stitched :=
  match l with
  | [] => ret (Placed buf resid localBytes overlayBytes)
  | seg :: l' =>
      let at_ := RStore.soff seg -% off in
      let n := RStore.slen seg in
      if RStore.overlay seg then
        do o <- view_read (RStore.stdata seg) n (zsub buf at_ n);
        match o with
        | None => ret NoFuel
        | Some (ok, b) =>
            if (ok : bool) then stitch_segs k off l' (zsplice buf at_ b) resid (localBytes +% n) (overlayBytes +% n)
            else do_ replicaFault; ret Fault
        end
      else
        do e <- on_entry Entry.getE;
        if Meta.fileSize (Entry.meta_ e) <? RStore.soff seg +% n then do_ replicaFault; ret Fault
        else
          do hit <- (if Entry.hasRange e (RStore.soff seg) n then on_entry (Entry.readCached clockS clockUs (RStore.soff seg) n (zsub buf at_ n) true)
                     else ret (false, []));
          if fst hit then stitch_segs k off l' (zsplice buf at_ (snd hit)) resid (localBytes +% n) overlayBytes
          else stitch_segs k off l' buf (resid ++ [mkResid (mkChunk (RStore.soff seg) (w32 n)) k at_]) localBytes overlayBytes
  end.
Definition stitchChunk (k : nat) (c : Chunk) (buf : bytes) (resid : list Resid) (localBytes overlayBytes : Z) : M Handle Stitched :=
  fun s => stitch_segs k (c_offset c) (RStore.map (RStore.meta_ (vw s)) (c_offset c) (c_length c)) buf resid localBytes overlayBytes s.

(** The chunks in order; the buffers done. *)
Inductive Local :=
| LPlaced (bufs : list bytes) (resid : list Resid) (localBytes overlayBytes : Z)
| LFault
| LNoFuel.
Fixpoint stitch_all (k : nat) (chunks : list (Chunk * bytes)) (done : list bytes) (resid : list Resid) (localBytes overlayBytes : Z) : M Handle Local :=
  match chunks with
  | [] => ret (LPlaced done resid localBytes overlayBytes)
  | (c, buf) :: chunks' =>
      do r <- stitchChunk k c buf resid localBytes overlayBytes;
      match r with
      | Placed b resid lb ob => stitch_all (S k) chunks' (done ++ [b]) resid lb ob
      | Fault => ret LFault
      | NoFuel => ret LNoFuel
      end
  end.

(** What becomes of a wire read: it is not issued (no inner file, or XrdCl refused it), it
    fails, or it answers. *)
Inductive Wire := NotIssued | Failed | Answered (bufs : list bytes).
Context (wire_read : list (Z * Z) -> Wire) (relay_read : list (Z * Z) -> option (list bytes)) (maxErrors : Z).

(** The completion of a request. *)
Inductive Served :=
| SOk (bufs : list bytes)
| SDataError     (* the replica faulted *)
| SOriginError   (* the origin's own error *)
| SInternal      (* an element did not cover its chunk *)
| SStuck.

(** The fetched residuals in their places. *)
Definition place (bufs : list bytes) (rb : Resid * bytes) : list bytes :=
  alter (fun buf => zsplice buf (r_at (fst rb)) (snd rb)) (r_buf (fst rb)) bufs.
Definition place_all (bufs : list bytes) (resid : list Resid) (fetched : list bytes) : list bytes :=
  foldl place bufs (zip resid fetched).

Definition range_of (r : Resid) : Z * Z := (c_offset (r_chunk r), c_length (r_chunk r)).

(** [issueMissVRead] for the residuals, its completion, and its fail-open. *)
Definition fetch_resid (m : Meta.MetaData) (bufs : list bytes) (resid : list Resid) : M Handle Served :=
  match wire_of (Meta.pageSize m) (Meta.fileSize m) None (r_chunk <$> resid) with
  | None => ret SStuck
  | Some asked =>
      match wire_read asked with
      | NotIssued => ret SOriginError
      | Failed =>
          do_ (fun s => (tt, set_errs s (Inner.noteCacheError true maxErrors (errs s))));
          match relay_read (range_of <$> resid) with
          | Some answers => ret (SOk (place_all bufs resid answers))
          | None => ret SOriginError
          end
      | Answered answers =>
          match scatter (elems_of asked answers) (r_chunk <$> resid) with
          | None => ret SInternal
          | Some fetched =>
              do_ (fun s => (tt, set_errs s (Inner.noteCacheOk (errs s))));
              ret (SOk (place_all bufs resid fetched))
          end
      end
  end.

Definition stitchedServe (chunks : list (Chunk * bytes)) : M Handle Served :=
  do r <- stitch_all 0 chunks [] [] 0 0;
  match r with
  | LFault => ret SDataError
  | LNoFuel => ret SStuck
  | LPlaced bufs resid lb ob =>
      do_ count_local lb ob;
      do_ on_entry (Entry.when (negb (ob =? 0)) (Entry.noteActivity clockUs));
      match resid with
      | [] =>
          do_ (fun s => (tt, set_errs s (Inner.noteCacheOk (errs s))));
          ret (SOk bufs)
      | _ =>
          do e <- on_entry Entry.getE;
          fetch_resid (Entry.meta_ e) bufs resid
      end
  end.

(** ** The three reads of a handle with a view *)

Inductive Reply :=
| RRelayed                    (* the origin answers what it was asked *)
| REmptyAnswer                (* zero bytes *)
| RInvalidArgs
| RServed (r : Served)
| RPages (r : Served) (checksums : list Z).

(** [buf]: the caller's buffer, [size] bytes. *)
Definition Read_view (offset size : Z) (buf : bytes) : M Handle Reply := fun s =>
  (if offset +% size <? offset then ret RRelayed
   else
     let vsize := Replica.virtualSize (RStore.meta_ (vw s)) in
     let served := if vsize <=? offset then 0 else w32 (Z.min size (vsize -% offset)) in
     if served =? 0 then ret REmptyAnswer
     else do r <- stitchedServe [(mkChunk offset served, take (Z.to_nat served) buf)]; ret (RServed r)) s.

Definition PgRead_view (crc32c : bytes -> Z) (offset size : Z) (buf : bytes) : M Handle Reply := fun s =>
  (if offset +% size <? offset then ret RRelayed
   else
     let vsize := Replica.virtualSize (RStore.meta_ (vw s)) in
     if (vsize <=? offset) || (size =? 0) then ret REmptyAnswer
     else
       let size := if vsize <? offset +% size then w32 (vsize -% offset) else size in
       do r <- stitchedServe [(mkChunk offset size, take (Z.to_nat size) buf)];
       ret (RPages r (match r with SOk [b] => pg_checksums crc32c offset size b | _ => [] end))) s.

Definition VectorRead_view (chunks : list (Chunk * bytes)) : M Handle Reply := fun s =>
  (if existsb (fun cb => let c := fst cb in (c_offset c +% c_length c <? c_offset c) || (Replica.virtualSize (RStore.meta_ (vw s)) <? c_offset c +% c_length c)) chunks
   then ret RInvalidArgs
   else do r <- stitchedServe chunks; ret (RServed r)) s.

End stitch.
Arguments Handle : clear implicits.
End Stitch.
