(* ===== verification/StitchServe.v ===== *)
(** * What a handle with a replica view serves

    Every byte of a completed request comes from where the view's map says: an overlay byte
    of a verified page, a verified byte of the cache, or the origin's byte. *)

From S2P Require Import Prelude IOBackend Crc32c PageBitmap Config MetaFile UrlKey FileEntry FileEntryInv FileEntryRead FileEntryFrame ReplicaFile ReplicaStore ReplicaView WireRead WireSpan WireServe OpenRetry Stitch.

Module StitchServe.
Import Wire Stitch Scatter Serve.
Import RStore (overlay, soff, slen, stdata, mkSeg, mkView, ReplicaView).
Import RView (stitched, seg_bytes, seg_ok, page_good).

(** ** Segments in a row *)

Fixpoint chain (a : Z) (l : list Seg) (e : Z) : Prop :=
  match l with
  | [] => a = e
  | s :: l' => soff s = a /\ 0 < slen s /\ chain (a + slen s) l' e
  end.

Lemma chain_le l a e : chain a l e -> a <= e.
Proof. revert a; induction l as [|s l IH]; intros a; cbn; [lia|]. intros (_ & H & Hc). apply IH in Hc. lia. Qed.

Lemma seg_bytes_len s : 0 <= slen s -> length (seg_bytes s) = Z.to_nat (slen s).
Proof. intros. unfold seg_bytes. rewrite List.length_map. pose proof (zlen_zrange 0 (slen s) ltac:(lia)). unfold zlen in *. lia. Qed.
Lemma stitched_len x a e : a <= e -> length (stitched x a e) = Z.to_nat (e - a).
Proof. intros. unfold stitched. rewrite List.length_map. pose proof (zlen_zrange a e ltac:(lia)). unfold zlen in *. lia. Qed.

(** A map that gives the bytes of a range in order gives its segments in a row. *)
Lemma chain_of x l a e : a <= e -> Forall (fun s => 0 < slen s) l ->
  concat (List.map seg_bytes l) = stitched x a e -> chain a l e.
Proof.
  intros Hae Hl. revert a Hae. induction Hl as [|s l Hs _ IH]; intros a Hae H; cbn in H |- *.
  - pose proof (stitched_len x a e Hae) as L. rewrite <- H in L. cbn in L. lia.
  - assert (a < e) as Hlt.
    { destruct (Z.eq_dec a e) as [->|]; [|lia]. apply (f_equal length) in H.
      rewrite length_app, seg_bytes_len, stitched_len in H by lia. lia. }
    assert (soff s = a) as Ho.
    { unfold seg_bytes in H at 1. rewrite zrange_cons in H by lia. unfold stitched in H. rewrite (zrange_cons a e) in H by lia.
      cbn in H. injection H as H _ _. lia. }
    assert (slen s <= e - a) as Hle.
    { apply (f_equal length) in H. rewrite length_app, seg_bytes_len, stitched_len in H by lia. lia. }
    split; [done|]. split; [done|]. apply IH; [lia|].
    rewrite (RView.stitched_app x a (a + slen s) e) in H by lia.
    apply app_inj_1 in H as [_ H]; [done|]. rewrite seg_bytes_len, stitched_len by lia. lia.
Qed.

Lemma chain_bounds l a e s : chain a l e -> s ∈ l -> a <= soff s /\ 0 < slen s /\ soff s + slen s <= e.
Proof.
  revert a; induction l as [|x l IH]; intros a; [by intros _ ?%elem_of_nil|]. cbn. intros (Hx & H0 & Hc).
  rewrite elem_of_cons. intros [->|Hin]; [apply chain_le in Hc; lia|]. destruct (IH _ Hc Hin). lia.
Qed.
(** Two segments are the same or apart. *)
Lemma chain_apart l a e s t : chain a l e -> s ∈ l -> t ∈ l -> s = t \/ soff s + slen s <= soff t \/ soff t + slen t <= soff s.
Proof.
  revert a; induction l as [|x l IH]; intros a; [by intros _ ?%elem_of_nil|]. cbn. intros (Hx & H0 & Hc).
  rewrite !elem_of_cons. intros [->|Hs] [->|Ht]; [by left| | |by eapply IH].
  - pose proof (chain_bounds _ _ _ _ Hc Ht). lia.
  - pose proof (chain_bounds _ _ _ _ Hc Hs). lia.
Qed.

(** The part of a buffer a segment of the chunk at [off] fills; a buffer is its parts. *)
Definition part (off : Z) (buf : bytes) (s : Seg) : bytes := zsub buf (soff s - off) (slen s).
Lemma chain_parts l off a e buf : chain a l e -> off <= a -> e - off <= zlen buf ->
  concat (List.map (part off buf) l) = zsub buf (a - off) (e - a).
Proof.
  revert a; induction l as [|s l IH]; intros a; cbn.
  - intros -> _ _. by rewrite Z.sub_diag, zsub_0.
  - intros (Hs & H0 & Hc) Ho Hl. pose proof (chain_le _ _ _ Hc). rewrite (IH (a + slen s)) by (done || lia).
    unfold part. rewrite Hs. replace (a + slen s - off) with (a - off + slen s) by lia.
    rewrite zsub_join by lia. f_equal. lia.
Qed.

(** ** One request *)

Section serve.
Context {W : Type} `{!IOBackend W, !IOLaws W} `{CK : Checksum}.
Context (clockS clockUs : nat -> Z).
Context (P fs : Z) (HP : Config.validPageSize P = true) (Hfs : 0 <= fs < p63).
Abbreviation Handle := (Handle W).
Abbreviation fsview s := (view (Entry.io_ (snd (es (s : Handle))))).

(** The view, its overlay file and the file system: none of them changes while it serves. [e0] is
    the cache entry as the request found it. *)
Context (m : ReplicaFile.Replica.ReplicaMeta) (fd : Z) (f : inode) (s0 : IOBackend.fs) (content : bytes) (e0 : Entry.FileEntry).
Context (Hm : ReplicaFile.Replica.sound m) (Htd : 0 <= ReplicaFile.Replica.tdataBytes m < p63).
Context (Hopen : open_file s0 fd = Some f) (Hcontent : zlen content = fs).
Abbreviation vsize := (ReplicaFile.Replica.virtualSize m).

Record serving (s : Handle) : Prop := {
  sv_inv : EntryInv.Inv P fs (fst (es s));
  sv_src : EntryFrame.src_le P fs e0 (fst (es s));
  sv_fs : fsview s = s0;
  sv_meta : RStore.meta_ (vw s) = m;
  sv_fd : RStore.fd_ (vw s) = fd
}.

(** Where the bytes of a segment may come from: good pages of the overlay; the handle's own entry, a
    staged payload or a page of its data file that matches the sidecar's checksum; the origin. *)
Definition from_overlay (seg : Seg) (b : bytes) : Prop :=
  b = zsub (i_data f) (stdata seg) (slen seg) /\ stdata seg + slen seg <= ReplicaFile.Replica.tdataBytes m /\
  forall j, stdata seg / 65536 <= j <= (stdata seg + slen seg - 1) / 65536 -> page_good m (i_data f) j.
Definition from_cache (seg : Seg) (b : bytes) : Prop :=
  EntryRead.served P fs s0 e0 (soff seg) (slen seg) b.
Definition from_origin (seg : Seg) (b : bytes) : Prop :=
  soff seg + slen seg <= fs /\ b = zsub content (soff seg) (slen seg).
Definition piece (seg : Seg) (b : bytes) : Prop :=
  zlen b = slen seg /\ if overlay seg then from_overlay seg b else from_cache seg b \/ from_origin seg b.

(** What a segment needs not to fault: good overlay pages and a disk that reads, or a place
    inside the original. *)
Definition intact (seg : Seg) : Prop :=
  if overlay seg then (forall j, stdata seg / 65536 <= j <= (stdata seg + slen seg - 1) / 65536 -> page_good m (i_data f) j) /\
    (forall n o (w : W), 0 <= fst (fst (preadFull fd n o w)))
  else soff seg + slen seg <= fs.
(** A fault on one of the segments [l]: the replica is dropped, if it was not yet. *)
Definition faulted (l : list Seg) (s s' : Handle) : Prop :=
  (exists seg, seg ∈ l /\ ~ intact seg) /\ replicaDropped s' = true /\ dropsPosted s' = dropsPosted s + if replicaDropped s then 0 else 1.

(** *** The two local reads *)

Lemma view_read_spec off len buf (s s' : Handle) o :
  serving s -> 0 <= off -> 0 < len -> off + len <= ReplicaFile.Replica.tdataBytes m -> zlen buf = len ->
  view_read off len buf s = (o, s') ->
  serving s' /\ replicaDropped s' = replicaDropped s /\ dropsPosted s' = dropsPosted s /\
  exists ok b, o = Some (ok, b) /\ (ok = true -> zlen b = len /\ from_overlay (mkSeg true 0 len off) b) /\
    (ok = false -> ~ intact (mkSeg true 0 len off)).
Proof using Hm Htd Hopen.
  intros [I L V M F] Ho Hl Ht Hb H. unfold view_read in H.
  destruct (RStore.read (vw s) off len buf (RStore.mkWorld (Entry.io_ (snd (es s))) (rstats s))) as [o0 rw] eqn:E.
  assert (open_file (view (RStore.io_ (RStore.mkWorld (Entry.io_ (snd (es s))) (rstats s)))) (RStore.fd_ (vw s)) = Some f) as Hf
    by (cbn [RStore.io_]; by rewrite V, F).
  destruct (RView.replica_read_verified_lemma (vw s) f off len buf _ _ _ ltac:(by rewrite M) ltac:(unfold is_u64; lia)
    ltac:(unfold is_u64; lia) Hb Hf E) as (ok & b & v' & -> & Hv & Hz & Hok & Hbad & Hconv).
  injection H as <- <-. cbn [RStore.io_] in Hv. assert (RStore.meta_ v' = m /\ RStore.fd_ v' = fd) as [M' F'].
  { destruct ok; [destruct (Hok eq_refl) as [-> _]; done|]. by rewrite (Hbad eq_refl). }
  split; [constructor; cbn; try done; by rewrite Hv, V|]. split; [done|]. split; [done|].
  exists ok, b. split; [done|]. split; intros ->; [|intros [G1 G2]; rewrite M, F in Hconv; by specialize (Hconv Ht G1 G2)]. destruct (Hok eq_refl) as (_ & Hd & Hp). split; [done|].
  destruct (Hp Hl) as [Hp1 Hp2]. rewrite M in Hp1, Hp2. split; [done|]. split; [done|exact Hp2].
Qed.

Lemma cached_read_spec off len buf (s s' : Handle) r :
  serving s -> 0 <= off < p64 -> 0 < len < p64 -> zlen buf = len ->
  on_entry (Entry.readCached clockS clockUs off len buf true) s = (r, s') ->
  serving s' /\ replicaDropped s' = replicaDropped s /\ dropsPosted s' = dropsPosted s /\
  (fst r = true -> zlen (snd r) = len /\ EntryRead.served P fs s0 e0 off len (snd r)).
Proof using HP Hfs.
  intros [I L V M F] Ho Hl Hb H. unfold on_entry in H.
  destruct (Entry.readCached clockS clockUs off len buf true (es s)) as [r0 e'] eqn:E. injection H as -> <-.
  destruct (EntryFrame.readCached_kept clockS clockUs P fs HP Hfs e0 off len buf true _ _ _ I L Ho ltac:(lia) Hb E) as (I' & V' & L').
  split; [constructor; cbn; try done; by rewrite V', V|]. split; [done|]. split; [done|].
  destruct r as [[] b]; [|done]. intros _. cbn.
  pose proof (EntryRead.readCached_served clockS clockUs P fs HP Hfs off len buf true _ _ _ I Ho Hl Hb E) as S.
  rewrite V in S. split; [apply S|]. eapply EntryFrame.served_src_le; [done|done|exact L|lia|lia|exact S].
Qed.

Lemma fault_spec (s s' : Handle) u : serving s -> replicaFault s = (u, s') ->
  serving s' /\ replicaDropped s' = true /\ dropsPosted s' = dropsPosted s + if replicaDropped s then 0 else 1.
Proof using.
  intros [? ? ? ? ?] [= _ <-]. destruct (replicaDropped s) eqn:E.
  - split; [done|]. split; [done|lia].
  - split; [done|]. by cbn.
Qed.

(** *** One chunk *)

Definition resid_of (k : nat) (off : Z) (seg : Seg) : Resid := mkResid (mkChunk (soff seg) (slen seg)) k (soff seg - off).
(** A segment is in its place in [buf], or waits for its residual. *)
Definition done_or (k : nat) (off : Z) (buf : bytes) (resid : list Resid) (seg : Seg) : Prop :=
  piece seg (part off buf seg) \/ resid_of k off seg ∈ resid.
(** A residual is a segment of the chunk that reads the original inside the file. *)
Definition resid_ok (k : nat) (off : Z) (l : list Seg) (r : Resid) : Prop :=
  exists seg, seg ∈ l /\ overlay seg = false /\ soff seg + slen seg <= fs /\ r = resid_of k off seg.

Lemma faulted_cons seg l s s1 s' : replicaDropped s1 = replicaDropped s -> dropsPosted s1 = dropsPosted s ->
  faulted l s1 s' -> faulted (seg :: l) s s'.
Proof using. intros D1 D2 [(t & Ht & Hn) R]. rewrite D1, D2 in R. split; [exists t; split; [by right|done]|done]. Qed.
Lemma faulted_head seg l s s1 s' u : replicaDropped s1 = replicaDropped s -> dropsPosted s1 = dropsPosted s ->
  serving s1 -> replicaFault s1 = (u, s') -> ~ intact seg -> serving s' /\ faulted (seg :: l) s s'.
Proof using.
  intros D1 D2 Hs H Hn. destruct (fault_spec s1 s' u Hs H) as [Hs' R]. rewrite D2, D1 in R.
  split; [done|]. split; [exists seg; split; [by left|done]|done].
Qed.

Lemma done_or_mono k off buf r1 r2 seg : (forall x, x ∈ r1 -> x ∈ r2) -> done_or k off buf r1 seg -> done_or k off buf r2 seg.
Proof using. intros H [?|?]; [by left|right; by apply H]. Qed.

Lemma part_splice_same off buf seg b : off <= soff seg -> zlen b = slen seg -> soff seg + slen seg - off <= zlen buf ->
  part off (zsplice buf (soff seg - off) b) seg = b.
Proof using. intros Ho Hb Hl. unfold part. by apply zsub_zsplice_same; [lia|lia|done]. Qed.
Lemma part_splice_other off buf seg t b : off <= soff seg -> off <= soff t -> zlen b = slen seg -> 0 <= slen t ->
  soff seg + slen seg - off <= zlen buf ->
  soff seg + slen seg <= soff t \/ soff t + slen t <= soff seg -> part off (zsplice buf (soff seg - off) b) t = part off buf t.
Proof using.
  pose proof (zlen_nonneg b). intros H1 H2 H3 H4 H5 [H6|H6]; unfold part; [apply zsub_zsplice_after|apply zsub_zsplice_before]; lia.
Qed.

(** The segments [l] from [a] on were stitched into [buf]. *)
Definition seg_result (k : nat) (off a : Z) (buf : bytes) (resid : list Resid) (l : list Seg) (s s' : Handle) (r : Stitched) : Prop :=
  match r with
  | Placed buf' resid' _ _ =>
      zlen buf' = zlen buf /\ zsub buf' 0 (a - off) = zsub buf 0 (a - off) /\
      (exists new, resid' = resid ++ new /\ Forall (resid_ok k off l) new) /\
      Forall (done_or k off buf' resid') l /\
      replicaDropped s' = replicaDropped s /\ dropsPosted s' = dropsPosted s
  | Fault => faulted l s s'
  | NoFuel => False
  end.

(** Segments in a row [l] from [a] on, inside a chunk at [off] whose buffer is [buf]: what came
    before is kept, each segment is in its place or left to a residual. *)
Lemma stitch_segs_spec k off l a e buf resid lb ob (s s' : Handle) r :
  serving s -> chain a l e -> Forall (seg_ok (ReplicaFile.Replica.tdataBytes m)) l ->
  0 <= off <= a -> e <= vsize -> e - off < p32 -> e - off <= zlen buf ->
  stitch_segs clockS clockUs k off l buf resid lb ob s = (r, s') ->
  serving s' /\ seg_result k off a buf resid l s s' r.
Proof using HP Hfs Hm Htd Hopen.
  pose proof (proj1 (proj2 (ReplicaFile.Replica.sd_widths _ Hm))) as Hvs. unfold is_u64 in Hvs.
  revert a buf resid lb ob s; induction l as [|seg l IH]; intros a buf resid lb ob s Hs Hc Hok Ho He Hsm Hb H.
  - injection H as <- <-. split; [done|]. split_and!; try done. exists []. by rewrite app_nil_r.
  - destruct Hc as (Hso & Hsl & Hc). pose proof (chain_le _ _ _ Hc). apply Forall_cons in Hok as [[_ Hov] Hok].
    cbn [stitch_segs] in H. rewrite (w64_small (soff seg - off)) in H by lia.
    assert (zlen (zsub buf (soff seg - off) (slen seg)) = slen seg) as Hz by (apply zlen_zsub; lia).
    (* the bytes [b] of this segment are in *)
    assert (forall b lb ob s1, serving s1 -> replicaDropped s1 = replicaDropped s -> dropsPosted s1 = dropsPosted s ->
      zlen b = slen seg -> piece seg b -> stitch_segs clockS clockUs k off l (zsplice buf (soff seg - off) b) resid lb ob s1 = (r, s') ->
      serving s' /\ seg_result k off a buf resid (seg :: l) s s' r) as Hin.
    { intros b lb1 ob1 s1 Hs1 D1 D2 Hbl Hp H1.
      assert (zlen (zsplice buf (soff seg - off) b) = zlen buf) as Hzs by (apply zlen_zsplice; lia).
      destruct (IH (a + slen seg) (zsplice buf (soff seg - off) b) resid lb1 ob1 s1 Hs1 Hc Hok ltac:(lia) He Hsm ltac:(lia) H1) as [S' R]. split; [done|].
      destruct r as [buf' resid' lb' ob'| |]; [|by eapply faulted_cons|done]. cbn in R |- *. rewrite D1, D2 in R.
      destruct R as (R1 & R2 & (new & -> & R3) & R4 & R5 & R6). split_and!; [lia| | | |done|done].
      - transitivity (zsub (zsub buf' 0 (a + slen seg - off)) 0 (a - off)); [by rewrite zsub_zsub by lia|].
        rewrite R2, zsub_zsub by lia. rewrite Z.add_0_l. apply zsub_zsplice_before; lia.
      - exists new. split; [done|]. eapply Forall_impl; [exact R3|]. intros x (t & Ht & Hr). exists t. split; [by right|done].
      - constructor; [|done]. left.
        assert (part off buf' seg = b) as ->; [|done]. unfold part.
        transitivity (zsub (zsub buf' 0 (a + slen seg - off)) (soff seg - off) (slen seg)); [by rewrite zsub_zsub by lia|].
        rewrite R2, zsub_zsub by lia. rewrite Z.add_0_l. by apply part_splice_same; lia. }
    (* this segment waits *)
    assert (forall lb ob s1, serving s1 -> replicaDropped s1 = replicaDropped s -> dropsPosted s1 = dropsPosted s ->
      overlay seg = false -> soff seg + slen seg <= fs ->
      stitch_segs clockS clockUs k off l buf (resid ++ [mkResid (mkChunk (soff seg) (w32 (slen seg))) k (soff seg - off)]) lb ob s1 = (r, s') ->
      serving s' /\ seg_result k off a buf resid (seg :: l) s s' r) as Hout.
    { intros lb1 ob1 s1 Hs1 D1 D2 Hov' Hfit H1. rewrite w32_small in H1 by lia. fold (resid_of k off seg) in H1.
      destruct (IH (a + slen seg) buf (resid ++ [resid_of k off seg]) lb1 ob1 s1 Hs1 Hc Hok ltac:(lia) He Hsm ltac:(lia) H1) as [S' R]. split; [done|].
      destruct r as [buf' resid' lb' ob'| |]; [|by eapply faulted_cons|done]. cbn in R |- *. rewrite D1, D2 in R.
      destruct R as (R1 & R2 & (new & -> & R3) & R4 & R5 & R6). split_and!; [lia| | | |done|done].
      - transitivity (zsub (zsub buf' 0 (a + slen seg - off)) 0 (a - off)); [by rewrite zsub_zsub by lia|].
        rewrite R2, zsub_zsub by lia. done.
      - exists (resid_of k off seg :: new). split; [by rewrite <- app_assoc|]. constructor.
        + exists seg. split; [by left|done].
        + eapply Forall_impl; [exact R3|]. intros x (t & Ht & Hr). exists t. split; [by right|done].
      - constructor; [|done]. right. apply elem_of_app; left. apply elem_of_app; right. by left. }
    destruct (overlay seg) eqn:Eov.
    + destruct (Hov eq_refl) as [T1 T2]. apply mbind_inv in H as (o & s1 & H1 & H).
      destruct (view_read_spec _ _ _ _ _ _ Hs T1 Hsl T2 Hz H1) as (Hs1 & D1 & D2 & ok & b & -> & Hb1 & Hb2).
      destruct ok.
      * destruct (Hb1 eq_refl) as [Hbl Hf]. eapply Hin; try done. split; [done|]. by rewrite Eov.
      * apply mbind_inv in H as (u & s2 & H2 & H). injection H as <- <-.
        eapply faulted_head; try done. unfold intact. rewrite Eov. by apply Hb2.
    + apply mbind_inv in H as (en & s1 & H1 & H). injection H1 as <- <-.
      assert (serving (set_es s (es s))) as Hs0 by (by destruct Hs).
      pose proof (EntryInv.i_meta _ _ _ (sv_inv _ Hs)) as (_ & Ef & _). rewrite Ef, (w64_small (soff seg + slen seg)) in H by lia.
      destruct (fs <? soff seg + slen seg) eqn:Eg; b2p.
      * apply mbind_inv in H as (u & s2 & H2 & H). injection H as <- <-.
        apply (faulted_head seg l s (set_es s (es s)) s2 u eq_refl eq_refl Hs0 H2). unfold intact. rewrite Eov. lia.
      * apply mbind_inv in H as (hit & s2 & H2 & H).
        assert (serving s2 /\ replicaDropped s2 = replicaDropped s /\ dropsPosted s2 = dropsPosted s /\
          (fst hit = true -> zlen (snd hit) = slen seg /\ EntryRead.served P fs s0 e0 (soff seg) (slen seg) (snd hit)))
          as (Hs2 & D1 & D2 & Hh).
        { destruct (Entry.hasRange _ _ _).
          - destruct (cached_read_spec (soff seg) (slen seg) (zsub buf (soff seg - off) (slen seg)) _ _ _ Hs0 ltac:(lia) ltac:(lia) Hz H2) as (? & ? & ? & ?). done.
          - injection H2 as <- <-. done. }
        destruct (fst hit).
        -- destruct (Hh eq_refl) as [Hbl Hf]. eapply Hin; try done. split; [done|]. rewrite Eov. by left.
        -- eapply Hout; done.
Qed.

(** *** The chunks of a request *)

Definition segs (c : Chunk) : list Seg := RStore.map m (c_offset c) (c_length c).
(** A chunk inside the view. *)
Definition in_view (c : Chunk) : Prop := 0 <= c_offset c /\ 0 <= c_length c < p32 /\ c_offset c + c_length c <= vsize.

Lemma segs_chain c : in_view c ->
  chain (c_offset c) (segs c) (c_offset c + c_length c) /\ Forall (seg_ok (ReplicaFile.Replica.tdataBytes m)) (segs c).
Proof using Hm.
  intros (Ho & Hl & Hv). pose proof (proj1 (proj2 (ReplicaFile.Replica.sd_widths _ Hm))) as Hvs. unfold is_u64 in Hvs.
  destruct (RView.replica_map_bytewise m (c_offset c) (c_length c) Hm ltac:(unfold is_u64; lia)) as [H1 H2].
  split; [|exact H2]. rewrite w64_small, Z.min_l in H1 by lia.
  eapply chain_of; [lia| |exact H1]. eapply Forall_impl; [exact H2|]. by intros ? [? _].
Qed.

(** Each buffer holds its chunk's segments, but for those that wait for a residual. *)
Definition placed (cs : list Chunk) (bufs : list bytes) (resid : list Resid) : Prop :=
  length bufs = length cs /\
  forall i c b, cs !! i = Some c -> bufs !! i = Some b -> zlen b = c_length c /\ Forall (done_or i (c_offset c) b resid) (segs c).
(** A residual belongs to a chunk of the request. *)
Definition belongs (cs : list Chunk) (r : Resid) : Prop :=
  exists i c, cs !! i = Some c /\ resid_ok i (c_offset c) (segs c) r.

Lemma belongs_app cs cs' r : belongs cs r -> belongs (cs ++ cs') r.
Proof using. intros (i & c & H & Hr). exists i, c. split; [by apply lookup_app_l_Some|done]. Qed.
Lemma placed_snoc cs bufs resid c b new : placed cs bufs resid -> zlen b = c_length c ->
  Forall (done_or (length cs) (c_offset c) b (resid ++ new)) (segs c) -> placed (cs ++ [c]) (bufs ++ [b]) (resid ++ new).
Proof using.
  intros [Hl H] Hb Hd. split; [by rewrite !length_app, Hl|]. intros i c' b'.
  rewrite !lookup_app. destruct (cs !! i) eqn:Ec.
  - intros [= ->]. destruct (bufs !! i) eqn:Eb.
    + intros [= ->]. destruct (H i c' b' Ec Eb) as [H1 H2]. split; [done|]. eapply Forall_impl; [exact H2|].
      intros t. apply done_or_mono. intros x Hx. apply elem_of_app. by left.
    + apply lookup_lt_Some in Ec. apply lookup_ge_None in Eb. lia.
  - pose proof Ec as Hge%lookup_ge_None. rewrite (lookup_ge_None_2 bufs) by lia.
    intros Hc. pose proof (lookup_lt_Some _ _ _ Hc) as Hlt. cbn in Hlt. assert (i = length cs) as -> by lia.
    rewrite Hl in *. rewrite Nat.sub_diag in *. cbn in *. injection Hc as <-. by intros [= <-].
Qed.

Lemma stitch_all_spec chunks : forall cs done resid lb ob (s s' : Handle) r,
  serving s -> Forall (fun cb => in_view (fst cb) /\ c_length (fst cb) = zlen (snd cb)) chunks ->
  placed cs done resid -> Forall (belongs cs) resid ->
  stitch_all clockS clockUs (length cs) chunks done resid lb ob s = (r, s') ->
  serving s' /\
  match r with
  | LPlaced bufs resid' _ _ => placed (cs ++ (fst <$> chunks)) bufs resid' /\ Forall (belongs (cs ++ (fst <$> chunks))) resid' /\
      replicaDropped s' = replicaDropped s /\ dropsPosted s' = dropsPosted s
  | LFault => exists c, c ∈ (fst <$> chunks) /\ faulted (segs c) s s'
  | LNoFuel => False
  end.
Proof using HP Hfs Hm Htd Hopen.
  induction chunks as [|[c buf] chunks IH]; intros cs dn resid lb ob s s' r Hs Hch Hp Hb H.
  - injection H as <- <-. cbn. by rewrite app_nil_r.
  - apply Forall_cons in Hch as [[Hc Hl] Hch]. cbn [fst snd] in *. cbn [stitch_all] in H. apply mbind_inv in H as (r1 & s1 & H1 & H).
    unfold stitchChunk in H1. rewrite (sv_meta _ Hs) in H1. fold (segs c) in H1. destruct (segs_chain c Hc) as [C1 C2]. destruct Hc as (Hc1 & Hc2 & Hc3).
    destruct (stitch_segs_spec _ _ _ _ (c_offset c + c_length c) buf _ _ _ _ _ _ Hs C1 C2 (conj Hc1 (Z.le_refl _)) ltac:(lia) ltac:(lia) ltac:(lia) H1) as [Hs1 R].
    destruct r1 as [b resid1 lb1 ob1| |]; [|injection H as <- <-; split; [done|]; exists c; split; [by left|exact R]|done].
    destruct R as (R1 & _ & (new & -> & R3) & R4 & D1 & D2).
    assert (placed (cs ++ [c]) (dn ++ [b]) (resid ++ new)) as Hp1 by (apply placed_snoc; [done|lia|done]).
    assert (Forall (belongs (cs ++ [c])) (resid ++ new)) as Hb1.
    { apply Forall_app. split; [eapply Forall_impl; [exact Hb|]; intros x; apply belongs_app|].
      eapply Forall_impl; [exact R3|]. intros x Hx. exists (length cs), c. split; [by rewrite list_lookup_middle|done]. }
    destruct (IH (cs ++ [c]) (dn ++ [b]) (resid ++ new) lb1 ob1 s1 s' r Hs1 Hch Hp1 Hb1) as [Hs' R].
    { rewrite length_app, Nat.add_1_r. exact H. }
    split; [done|]. destruct r; [|destruct R as (c1 & Hc1' & R); exists c1; split; [by right|]; unfold faulted in *; by rewrite D1, D2 in R|done].
    rewrite D1, D2, <- app_assoc in R. exact R.
Qed.

(** *** The residuals *)

(** One residual's bytes, spliced into its buffer: its segment is in, the others as they were. *)
Lemma place_one_spec cs bufs r resid : Forall in_view cs -> placed cs bufs (r :: resid) -> belongs cs r ->
  placed cs (place bufs (r, zsub content (c_offset (r_chunk r)) (c_length (r_chunk r)))) resid.
Proof using Hm Hcontent.
  intros Hcs [Hl H] (k & c0 & Hk & seg & Hseg & Hov & Hin & ->). unfold place. cbn [fst snd resid_of r_buf r_at r_chunk c_offset c_length].
  split; [by rewrite length_alter|]. intros i c b Hi Hb. destruct (decide (i = k)) as [->|Hne].
  - assert (c0 = c) as -> by congruence. rewrite list_lookup_alter_eq in Hb. apply fmap_Some in Hb as (b0 & Hb0 & ->).
    destruct (H k c b0 Hk Hb0) as [Hz Hd]. pose proof (proj1 (Forall_forall _ _) Hcs c ltac:(by eapply list_elem_of_lookup_2)) as Hc.
    destruct (segs_chain c Hc) as [C1 _]. destruct Hc as (Hc & _). destruct (chain_bounds _ _ _ _ C1 Hseg) as (B1 & B2 & B3).
    assert (zlen (zsub content (soff seg) (slen seg)) = slen seg) as Hzc by (apply zlen_zsub; lia).
    split; [by rewrite zlen_zsplice by lia|]. rewrite Forall_forall in Hd |- *. intros t Ht.
    destruct (chain_bounds _ _ _ _ C1 Ht) as (T1 & T2 & T3).
    destruct (chain_apart _ _ _ _ _ C1 Hseg Ht) as [<-|Hap].
    + left. rewrite part_splice_same by lia. split; [done|]. rewrite Hov. by right.
    + destruct (Hd t Ht) as [Hp|[Hr|Hr]%elem_of_cons]; [|injection Hr as ? ? ?; lia|by right].
      left. rewrite part_splice_other by lia. exact Hp.
  - rewrite list_lookup_alter_ne in Hb by done. destruct (H i c b Hi Hb) as [Hz Hd]. split; [done|].
    eapply Forall_impl; [exact Hd|]. intros t [Hp|[Hr|Hr]%elem_of_cons]; [by left|by injection Hr as ? ?|by right].
Qed.

Definition fetched_of (resid : list Resid) : list bytes := (fun r => zsub content (c_offset (r_chunk r)) (c_length (r_chunk r))) <$> resid.

Lemma place_all_spec cs resid : forall bufs, Forall in_view cs -> placed cs bufs resid -> Forall (belongs cs) resid ->
  placed cs (place_all bufs resid (fetched_of resid)) [].
Proof using Hm Hcontent.
  induction resid as [|r resid IH]; intros bufs Hcs Hp Hb; [done|]. apply Forall_cons in Hb as [Hr Hb].
  change (placed cs (place_all (place bufs (r, zsub content (c_offset (r_chunk r)) (c_length (r_chunk r)))) resid (fetched_of resid)) []).
  apply IH; [done| |done]. by apply place_one_spec.
Qed.

(** The wire answers every element in full, or fails; so does the relay. *)
Context (wire_read : list (Z * Z) -> Wire) (relay_read : list (Z * Z) -> option (list bytes)) (maxErrors : Z).
Context (Hwire : forall asked bufs, wire_read asked = Answered bufs -> bufs = answer content asked).
Context (Hrelay : forall asked bufs, relay_read asked = Some bufs -> bufs = answer content asked).

Lemma belongs_in_file cs resid : Forall in_view cs -> Forall (belongs cs) resid -> Forall (in_file fs) (r_chunk <$> resid).
Proof using Hm.
  intros Hcs Hb. apply Forall_fmap. eapply Forall_impl; [exact Hb|]. intros r (i & c & Hi & seg & Hs & _ & Hin & ->).
  pose proof (proj1 (Forall_forall _ _) Hcs c ltac:(by eapply list_elem_of_lookup_2)) as Hc.
  destruct (segs_chain c Hc) as [C1 _]. destruct Hc as (Hc & _). destruct (chain_bounds _ _ _ _ C1 Hs) as (B1 & B2 & B3). cbn. unfold in_file; cbn. lia.
Qed.

(** The origin refused a read, or failed it and the relayed one too. *)
Definition origin_failed : Prop :=
  exists asked, wire_read asked = NotIssued \/ wire_read asked = Failed /\ exists ranges, relay_read ranges = None.

Lemma fetch_resid_spec md cs bufs resid (s s' : Handle) r :
  serving s -> Meta.pageSize md = P -> Meta.fileSize md = fs -> Forall in_view cs -> placed cs bufs resid -> Forall (belongs cs) resid ->
  fetch_resid wire_read relay_read maxErrors md bufs resid s = (r, s') ->
  serving s' /\ replicaDropped s' = replicaDropped s /\ dropsPosted s' = dropsPosted s /\
  match r with SOk bufs' => placed cs bufs' [] | SOriginError => origin_failed | _ => False end.
Proof using HP Hfs Hm Hcontent Hwire Hrelay.
  intros Hs Hps Hf Hcs Hp Hb H. unfold fetch_resid in H. rewrite Hps, Hf in H.
  destruct (wire_of_spec P fs ltac:(pose proof (EntryInv.P_range P HP); lia) Hfs None (r_chunk <$> resid)) as (asked & Ea & _ & _ & _ & Hsc);
    [by eapply belongs_in_file|]. rewrite Ea in H. clear Ea.
  destruct (wire_read asked) as [| |answers] eqn:Ew.
  - injection H as <- <-. do 3 (split; [done|]). exists asked. by left.
  - apply mbind_inv in H as (u & s1 & [= <- <-] & H). destruct (relay_read _) as [answers|] eqn:Er.
    + injection H as <- <-. split; [by destruct Hs|]. split; [done|]. split; [done|].
      rewrite (Hrelay _ _ Er). unfold answer. rewrite <- list_fmap_compose. by apply place_all_spec.
    + injection H as <- <-. split; [by destruct Hs|]. do 2 (split; [done|]). exists asked. right. split; [done|]. by eexists.
  - rewrite (Hwire _ _ Ew) in H. pose proof (Hsc content Hcontent) as Hsc1. unfold filled in Hsc1. rewrite Hsc1 in H.
    apply mbind_inv in H as (u & s1 & [= <- <-] & H). injection H as <- <-.
    split; [by destruct Hs|]. split; [done|]. split; [done|]. rewrite <- list_fmap_compose. by apply place_all_spec.
Qed.

(** ** The whole service *)

(** [b] holds the chunk's bytes: cut along the map, every piece comes from where it must. *)
Definition exact_chunk (c : Chunk) (b : bytes) : Prop :=
  zlen b = c_length c /\ exists l, Forall2 piece (segs c) l /\ b = concat l.

Lemma placed_exact cs bufs : Forall in_view cs -> placed cs bufs [] -> Forall2 exact_chunk cs bufs.
Proof using Hm.
  intros Hcs [Hl H]. apply Forall2_same_length_lookup_2; [by symmetry|]. intros i c b Hc Hb.
  destruct (H i c b Hc Hb) as [Hz Hd]. split; [done|].
  pose proof (proj1 (Forall_forall _ _) Hcs c ltac:(by eapply list_elem_of_lookup_2)) as Hv. destruct (segs_chain c Hv) as [C1 _].
  exists (List.map (part (c_offset c) b) (segs c)). split.
  - apply Forall2_fmap_r, Forall_Forall2_diag. eapply Forall_impl; [exact Hd|]. by intros t [?|?%elem_of_nil].
  - rewrite (chain_parts _ _ _ _ b C1) by lia. rewrite Z.sub_diag. symmetry. apply zsub_all. lia.
Qed.

Lemma when_activity (b : bool) (s s' : Handle) u : serving s -> on_entry (Entry.when b (Entry.noteActivity clockUs)) s = (u, s') ->
  serving s' /\ replicaDropped s' = replicaDropped s /\ dropsPosted s' = dropsPosted s.
Proof using.
  intros [I L V M F] H. destruct b; [|by injection H as <- <-]. unfold on_entry in H. cbn [Entry.when] in H.
  destruct (Entry.noteActivity clockUs (es s)) as [x e'] eqn:E. injection H as <- <-.
  apply EntryRead.noteActivity_world in E as [E1 E2]. split; [|done]. constructor; cbn; [by rewrite E1|by rewrite E1|by rewrite E2|done|done].
Qed.

Lemma stitched_serve_lemma chunks (s s' : Handle) r :
  serving s -> Forall (fun cb => in_view (fst cb) /\ c_length (fst cb) = zlen (snd cb)) chunks ->
  stitchedServe clockS clockUs wire_read relay_read maxErrors chunks s = (r, s') ->
  serving s' /\
  match r with
  | SOk bufs => Forall2 exact_chunk (fst <$> chunks) bufs /\ replicaDropped s' = replicaDropped s /\ dropsPosted s' = dropsPosted s
  | SDataError => exists c, c ∈ (fst <$> chunks) /\ faulted (segs c) s s'
  | SOriginError => origin_failed /\ replicaDropped s' = replicaDropped s /\ dropsPosted s' = dropsPosted s
  | SInternal | SStuck => False
  end.
Proof using HP Hfs Hm Htd Hopen Hcontent Hwire Hrelay.
  intros Hs Hch H. unfold stitchedServe in H. apply mbind_inv in H as (r1 & s1 & H1 & H).
  destruct (stitch_all_spec chunks [] [] [] 0 0 s s1 r1 Hs Hch) as [Hs1 R]; [split; [done|by intros i c b Hi; rewrite lookup_nil in Hi]|done|exact H1|].
  assert (Forall in_view (fst <$> chunks)) as Hcs by (apply Forall_fmap; eapply Forall_impl; [exact Hch|]; by intros ? [? _]).
  destruct r1 as [bufs resid lb ob| |]; [|by injection H as <- <-|done].
  destruct R as (Hp & Hb & D1 & D2). cbn [app] in Hp, Hb. apply mbind_inv in H as (u & s2 & [= <- <-] & H).
  apply mbind_inv in H as (u & s2 & H2 & H).
  assert (serving s2 /\ replicaDropped s2 = replicaDropped s1 /\ dropsPosted s2 = dropsPosted s1) as (Hs2 & E1 & E2).
  { apply when_activity in H2; [exact H2|by destruct Hs1]. }
  rewrite D1 in E1. rewrite D2 in E2.
  destruct resid as [|x resid].
  - apply mbind_inv in H as (u1 & s3 & [= <- <-] & H). injection H as <- <-. split; [by destruct Hs2|].
    split; [by apply placed_exact|done].
  - apply mbind_inv in H as (e & s3 & [= <- <-] & H).
    destruct (EntryInv.i_meta _ _ _ (sv_inv _ Hs2)) as (G1 & G2 & _).
    eapply fetch_resid_spec in H; [|by destruct Hs2|exact G1|exact G2|exact Hcs|exact Hp|exact Hb].
    destruct H as (Hs' & D3 & D4 & Hr). split; [done|]. cbn in D3, D4. rewrite D3, D4, E1, E2.
    destruct r; try done. split; [by apply placed_exact|done].
Qed.

End serve.
End StitchServe.
