(* ===== verification/StitchReads.v ===== *)
(** * The reads of a handle with a replica view

    Read, PgRead and VectorRead, from their guards to their answers: a read past the virtual
    end is short, a vector that leaves the view is refused, and what is served is exact. *)

From S2P Require Import Prelude IOBackend Crc32c PageBitmap Config MetaFile UrlKey FileEntry FileEntryInv FileEntryRead FileEntryFrame ReplicaFile ReplicaStore ReplicaView WireRead WireSpan WireServe OpenRetry Stitch StitchServe.

Module StitchReads.
Import Wire Stitch Scatter Serve StitchServe.

(** ** The pages of a checksummed read *)

(** The bytes from [off] on, cut at the 4096-byte boundaries of the file. *)
Fixpoint paged (off : Z) (l : list bytes) : Prop :=
  match l with
  | [] => True
  | p :: l' => 0 < zlen p <= 4096 - off mod 4096 /\ (l' <> [] -> zlen p = 4096 - off mod 4096) /\ paged (off + zlen p) l'
  end.

Lemma next_page pos e : 0 <= pos < e -> e + 4096 <= p64 ->
  Z.min ((pos / 4096 +% 1) *% 4096) e = Z.min (pos + (4096 - pos mod 4096)) e.
Proof.
  intros. pose proof (Z.div_mod pos 4096). pose proof (Z.mod_pos_bound pos 4096).
  rewrite (w64_small (pos / 4096 + 1)) by lia. rewrite w64_small by lia. f_equal. lia.
Qed.

Lemma pg_pieces_cut n b : forall fuel pos, 0 <= n <= pos -> pos <= n + zlen b -> n + zlen b + 4096 <= p64 -> n + zlen b - pos <= Z.of_nat fuel ->
  let l := (fun p => zsub b (fst p -% n) (snd p)) <$> pg_pieces fuel pos (n + zlen b) in
  paged pos l /\ concat l = zsub b (pos - n) (n + zlen b - pos).
Proof.
  induction fuel as [|fuel IH]; intros pos Hn Hp Hb Hf; cbn [pg_pieces].
  - replace pos with (n + zlen b) by lia. cbn. split; [done|]. by rewrite Z.sub_diag, zsub_0.
  - destruct (negb (pos <? n + zlen b)) eqn:E; b2p.
    { replace pos with (n + zlen b) by lia. cbn. split; [done|]. by rewrite Z.sub_diag, zsub_0. }
    rewrite next_page by lia. pose proof (Z.mod_pos_bound pos 4096 ltac:(lia)). set (pe := Z.min _ _).
    assert (pos < pe <= n + zlen b) as Hpe by (subst pe; lia). destruct (IH pe ltac:(lia) ltac:(lia) Hb ltac:(lia)) as [IH1 IH2].
    cbn [fmap list_fmap]. change (list_fmap _ _ ?f) with (fmap (M := list) f) in *. cbn [fst snd]. rewrite (w64_small (pe - pos)), (w64_small (pos - n)) by lia.
    assert (zlen (zsub b (pos - n) (pe - pos)) = pe - pos) as Hz by (apply zlen_zsub; lia). split.
    + cbn [paged]. rewrite Hz. replace (pos + (pe - pos)) with pe by lia. split; [subst pe; lia|]. split; [|exact IH1].
      intros Hne. destruct (Z.eq_dec pe (n + zlen b)) as [Eq|]; [|subst pe; lia]. exfalso. apply Hne.
      rewrite Eq. destruct fuel as [|fuel']; [done|]. cbn. by rewrite Z.ltb_irrefl.
    + cbn [concat]. rewrite IH2. replace (pe - n) with (pos - n + (pe - pos)) by lia. rewrite zsub_join by lia. f_equal. lia.
Qed.

(** The checksums of a read are those of its pages, in order. *)
Lemma pg_checksums_pages crc32c off b : 0 <= off -> off + zlen b + 4096 <= p64 ->
  exists pages, pg_checksums crc32c off (zlen b) b = crc32c <$> pages /\ paged off pages /\ concat pages = b.
Proof.
  intros Ho Hb. pose proof (zlen_nonneg b). unfold pg_checksums. rewrite w64_small by lia.
  destruct (pg_pieces_cut off b (Z.to_nat (zlen b)) off ltac:(lia) ltac:(lia) Hb ltac:(lia)) as [H1 H2].
  eexists. split; [|split; [exact H1|]]; [by rewrite <- list_fmap_compose|]. rewrite H2, Z.sub_diag. apply zsub_all. lia.
Qed.

(** ** The requests *)

Section reads.
Context {W : Type} `{!IOBackend W, !IOLaws W} `{CK : Checksum}.
Context (clockS clockUs : nat -> Z) (wire_read : list (Z * Z) -> Wire) (relay_read : list (Z * Z) -> option (list bytes)) (maxErrors : Z).

(** The fixed environment of a handle: its replica [m] over the overlay inode [f], the file
    system, and an origin file [content] that the wire and the relay answer from. *)
Record environment (P fs : Z) (m : ReplicaFile.Replica.ReplicaMeta) (fd : Z) (f : inode) (s0 : IOBackend.fs) (content : bytes) : Prop := {
  en_page : Config.validPageSize P = true;
  en_size : 0 <= fs < p63;
  en_sound : ReplicaFile.Replica.sound m;
  en_tdata : 0 <= ReplicaFile.Replica.tdataBytes m < p63;
  en_open : open_file s0 fd = Some f;
  en_content : zlen content = fs;
  en_wire : forall asked bufs, wire_read asked = Answered bufs -> bufs = answer content asked;
  en_relay : forall asked bufs, relay_read asked = Some bufs -> bufs = answer content asked
}.

Context (P fs : Z) (m : ReplicaFile.Replica.ReplicaMeta) (fd : Z) (f : inode) (s0 : IOBackend.fs) (content : bytes).
Abbreviation vsize := (ReplicaFile.Replica.virtualSize m).
(** A handle that serves; and one that serves on, its cache entry with no source that [s]'s had not. *)
Definition ok_handle (s : Handle W) : Prop := serving P fs m fd s0 (fst (es s)) s.
Definition serves_on (s s' : Handle W) : Prop := serving P fs m fd s0 (fst (es s)) s'.
Lemma serves_on_ok s s' : serves_on s s' -> ok_handle s'.
Proof using. intros []. constructor; try done; apply EntryFrame.src_le_refl. Qed.
(** A chunk's bytes, as the handle [s] has them when the request comes in. *)
Abbreviation exact s := (exact_chunk P fs m f s0 content (fst (es (s : Handle W)))).

(** What a served request promises: [good] of its buffers, or an error and why: a segment of the
    request faults, which drops the replica, once; or the origin fails. *)
Definition answered (cs : list Chunk) (s s' : Handle W) (r : Served) (good : list bytes -> Prop) : Prop :=
  match r with
  | SOk bufs => good bufs
  | SDataError => exists c, c ∈ cs /\ faulted fs m fd f (segs m c) s s'
  | SOriginError => origin_failed wire_read relay_read /\ replicaDropped s' = replicaDropped s
  | SInternal | SStuck => False
  end.

Lemma served_answered chunks (s s' : Handle W) r :
  environment P fs m fd f s0 content -> ok_handle s ->
  Forall (fun cb => in_view m (fst cb) /\ c_length (fst cb) = zlen (snd cb)) chunks ->
  stitchedServe clockS clockUs wire_read relay_read maxErrors chunks s = (r, s') ->
  serves_on s s' /\ answered (fst <$> chunks) s s' r (fun bufs => Forall2 (exact s) (fst <$> chunks) bufs).
Proof using IOLaws0.
  intros [] Hs Hch H. destruct (stitched_serve_lemma clockS clockUs P fs en_page0 en_size0 m fd f s0 content (fst (es s)) en_sound0 en_tdata0
    en_open0 en_content0 wire_read relay_read maxErrors en_wire0 en_relay0 chunks s s' r Hs Hch H) as [Hs' R].
  split; [done|]. destruct r; cbn; tauto.
Qed.

Lemma one_answered off n buf (s s' : Handle W) r : environment P fs m fd f s0 content -> ok_handle s ->
  0 <= off -> 0 <= n < p32 -> off + n <= vsize -> n <= zlen buf ->
  stitchedServe clockS clockUs wire_read relay_read maxErrors [(mkChunk off n, take (Z.to_nat n) buf)] s = (r, s') ->
  serves_on s s' /\ answered [mkChunk off n] s s' r (fun bufs => exists b, bufs = [b] /\ exact s (mkChunk off n) b).
Proof using IOLaws0.
  intros He Hs Ho Hn Hv Hb H. apply served_answered in H as [Hs' R]; [|done|done|].
  2: { apply Forall_cons. split; [|by apply Forall_nil]. unfold in_view, zlen in *. cbn. rewrite length_take. lia. }
  split; [done|].
  destruct r; try exact R. cbn in R |- *. apply Forall2_cons_inv_l in R as (b & l & Hx & ->%Forall2_nil_inv_l & ->). by exists b.
Qed.

(** What is served of [size] bytes at [offset]: up to the virtual end. *)
Definition shown (offset size : Z) : Z := Z.min size (vsize - offset).

Lemma Read_view_lemma offset size buf (s s' : Handle W) a :
  environment P fs m fd f s0 content -> ok_handle s -> is_u64 offset -> is_u32 size -> zlen buf = size ->
  Read_view clockS clockUs wire_read relay_read maxErrors offset size buf s = (a, s') ->
  serves_on s s' /\
  match a with
  | RRelayed => s' = s /\ p64 <= offset + size
  | REmptyAnswer => s' = s /\ (vsize <= offset \/ size = 0)
  | RServed r => 0 < shown offset size /\ answered [mkChunk offset (shown offset size)] s s' r (fun bufs => exists b, bufs = [b] /\ exact s (mkChunk offset (shown offset size)) b)
  | _ => False
  end.
Proof using IOLaws0.
  intros He Hs Ho Hn Hb H. unfold is_u64, is_u32 in *. pose proof (proj1 (proj2 (ReplicaFile.Replica.sd_widths _ (en_sound _ _ _ _ _ _ _ He)))) as Hvs. unfold is_u64 in Hvs.
  unfold Read_view in H. rewrite (sv_meta _ _ _ _ _ _ _ Hs) in H. destruct (offset +% size <? offset) eqn:E0; b2p.
  { injection H as <- <-. split; [done|]. split; [done|]. destruct (Z_lt_le_dec (offset + size) p64); [rewrite w64_small in E0 by lia; lia|done]. }
  destruct (vsize <=? offset) eqn:E1; b2p.
  { injection H as <- <-. split; [done|]. split; [done|by left]. }
  rewrite (w64_small (vsize - offset)), w32_small in H by lia. fold (shown offset size) in H.
  destruct (shown offset size =? 0) eqn:E2; b2p.
  { injection H as <- <-. unfold shown in E2. split; [done|]. split; [done|]. right. lia. }
  apply mbind_inv in H as (r & s1 & H & [= <- <-]). unfold shown in *.
  apply one_answered in H as [Hs' R]; [|done|done|lia|lia|lia|lia]. split; [done|]. split; [lia|done].
Qed.

Lemma PgRead_view_lemma crc32c offset size buf (s s' : Handle W) a :
  environment P fs m fd f s0 content -> ok_handle s -> is_u64 offset -> is_u32 size -> zlen buf = size ->
  PgRead_view clockS clockUs wire_read relay_read maxErrors crc32c offset size buf s = (a, s') ->
  serves_on s s' /\
  match a with
  | RRelayed => s' = s /\ p64 <= offset + size
  | REmptyAnswer => s' = s /\ (vsize <= offset \/ size = 0)
  | RPages r cks => 0 < shown offset size /\ answered [mkChunk offset (shown offset size)] s s' r (fun bufs => exists b, bufs = [b] /\ exact s (mkChunk offset (shown offset size)) b /\
      (vsize + 4096 <= p64 -> exists pages, cks = crc32c <$> pages /\ paged offset pages /\ concat pages = b))
  | _ => False
  end.
Proof using IOLaws0.
  intros He Hs Ho Hn Hb H. unfold is_u64, is_u32 in *. pose proof (proj1 (proj2 (ReplicaFile.Replica.sd_widths _ (en_sound _ _ _ _ _ _ _ He)))) as Hvs. unfold is_u64 in Hvs.
  unfold PgRead_view in H. rewrite (sv_meta _ _ _ _ _ _ _ Hs) in H. destruct (offset +% size <? offset) eqn:E0; b2p.
  { injection H as <- <-. split; [done|]. split; [done|]. destruct (Z_lt_le_dec (offset + size) p64); [rewrite w64_small in E0 by lia; lia|done]. }
  assert (offset + size < p64) as Hsum by (apply Z.nle_gt; intros ?; unfold w64 in E0; rewrite <- (Z_mod_plus_full _ (-1)), Z.mod_small in E0; lia).
  destruct ((vsize <=? offset) || (size =? 0)) eqn:E1; [|b2p].
  { injection H as <- <-. split; [done|]. split; [done|]. apply orb_true_iff in E1 as [?|?]; b2p; [by left|by right]. }
  assert ((if vsize <? offset +% size then w32 (vsize -% offset) else size) = shown offset size) as En.
  { unfold shown. rewrite (w64_small (offset + size)) by lia. destruct (vsize <? offset + size) eqn:E; b2p; [|lia].
    rewrite w64_small, w32_small by lia. lia. }
  rewrite En in H. apply mbind_inv in H as (r & s1 & H & [= <- <-]). unfold shown in *.
  apply one_answered in H as [Hs' R]; [|done|done|lia|lia|lia|lia]. split; [done|]. split; [lia|].
  destruct r as [bufs| | | |]; try exact R. destruct R as (b & -> & Hx). exists b. split; [done|]. split; [done|]. intros Hv.
  destruct Hx as [Hz _]. cbn [c_length] in Hz. rewrite <- Hz. apply pg_checksums_pages; lia.
Qed.

Lemma VectorRead_view_lemma chunks (s s' : Handle W) a :
  environment P fs m fd f s0 content -> ok_handle s ->
  Forall (fun cb => is_u64 (c_offset (fst cb)) /\ is_u32 (c_length (fst cb)) /\ c_length (fst cb) = zlen (snd cb)) chunks ->
  VectorRead_view clockS clockUs wire_read relay_read maxErrors chunks s = (a, s') ->
  serves_on s s' /\
  match a with
  | RInvalidArgs => s' = s /\ Exists (fun cb => vsize < c_offset (fst cb) + c_length (fst cb)) chunks
  | RServed r => Forall (in_view m) (fst <$> chunks) /\ answered (fst <$> chunks) s s' r (fun bufs => Forall2 (exact s) (fst <$> chunks) bufs)
  | _ => False
  end.
Proof using IOLaws0.
  intros He Hs Hch H. pose proof (proj1 (proj2 (ReplicaFile.Replica.sd_widths _ (en_sound _ _ _ _ _ _ _ He)))) as Hvs. unfold is_u64 in Hvs.
  unfold VectorRead_view in H. rewrite (sv_meta _ _ _ _ _ _ _ Hs) in H. rewrite Forall_forall in Hch. destruct (existsb _ chunks) eqn:E.
  - injection H as <- <-. split; [done|]. split; [done|]. apply List.existsb_exists in E as (cb & Hin%list_elem_of_In & Hb).
    apply Exists_exists. exists cb. split; [done|]. destruct (Hch cb Hin) as (U1 & U2 & _). unfold is_u64, is_u32 in *.
    destruct (Z_lt_le_dec (c_offset (fst cb) + c_length (fst cb)) p64); [rewrite w64_small in Hb by lia; b2p; lia|lia].
  - assert (Forall (fun cb => in_view m (fst cb) /\ c_length (fst cb) = zlen (snd cb)) chunks) as Hv.
    { apply Forall_forall. intros cb Hin. destruct (Hch cb Hin) as (U1 & U2 & U3). split; [|done]. unfold is_u64, is_u32 in *.
      assert (existsb (fun cb => let c := fst cb in (c_offset c +% c_length c <? c_offset c) || (vsize <? c_offset c +% c_length c)) [cb] = false) as E1.
      { apply not_true_iff_false. intros Ht. apply not_true_iff_false in E. apply E. apply List.existsb_exists in Ht as (x & [<-|[]] & Hx).
        apply List.existsb_exists. exists cb. split; [by apply list_elem_of_In|done]. }
      cbn in E1. rewrite orb_false_r in E1. unfold in_view. destruct (Z_lt_le_dec (c_offset (fst cb) + c_length (fst cb)) p64).
      - rewrite w64_small in E1 by lia. b2p. lia.
      - unfold w64 in E1. rewrite <- (Z_mod_plus_full _ (-1)), Z.mod_small in E1 by lia. b2p. lia. }
    apply mbind_inv in H as (r & s1 & H & [= <- <-]). apply served_answered in H as [Hs' R]; [|done|done|done].
    split; [done|]. split; [|done]. apply Forall_fmap. eapply Forall_impl; [exact Hv|]. by intros ? [? _].
Qed.

(** C7: Read and PgRead of a handle with a replica view, whatever the cache and the wire do: an
    offset whose end wraps is relayed, a read at or past the virtual end is empty, any other is
    cut at the virtual end and answered - each byte an overlay byte of verified pages, a
    verified byte of the cache or the origin's byte, wherever the map puts it; PgRead's checksums are
    those of the answer's file pages. Otherwise the answer is an error: a fault, only when a
    segment of the request is not intact (a bad or unreadable overlay page, a map that leaves the
    original), which posts the drop of the replica once for the handle; or the origin's own, only
    when it refused the read or failed it twice. An internal error cannot happen, and the handle serves on.
    The cache's bytes are those of this handle's own entry as the request found it: a payload staged
    for the page, or a resident page of its data file whose checksum matches the sidecar's. *)
Theorem view_read_exact offset size buf (s : Handle W) (He : environment P fs m fd f s0 content) (Hs : ok_handle s)
    (Ho : is_u64 offset) (Hsz : is_u32 size) (Hb : zlen buf = size) :
  (forall a s', Read_view clockS clockUs wire_read relay_read maxErrors offset size buf s = (a, s') ->
    serves_on s s' /\
    match a with
    | RRelayed => s' = s /\ p64 <= offset + size
    | REmptyAnswer => s' = s /\ (vsize <= offset \/ size = 0)
    | RServed r => 0 < shown offset size /\ answered [mkChunk offset (shown offset size)] s s' r (fun bufs => exists b, bufs = [b] /\ exact s (mkChunk offset (shown offset size)) b)
    | _ => False
    end) /\
  (forall crc32c a s', PgRead_view clockS clockUs wire_read relay_read maxErrors crc32c offset size buf s = (a, s') ->
    serves_on s s' /\
    match a with
    | RRelayed => s' = s /\ p64 <= offset + size
    | REmptyAnswer => s' = s /\ (vsize <= offset \/ size = 0)
    | RPages r cks => 0 < shown offset size /\ answered [mkChunk offset (shown offset size)] s s' r (fun bufs => exists b, bufs = [b] /\ exact s (mkChunk offset (shown offset size)) b /\
        (vsize + 4096 <= p64 -> exists pages, cks = crc32c <$> pages /\ paged offset pages /\ concat pages = b))
    | _ => False
    end).
Proof using IOLaws0.
  split; [intros a s' H; by eapply Read_view_lemma|intros crc32c a s' H; by eapply PgRead_view_lemma].
Qed.

(** C9: VectorRead of a handle with a replica view: refused as a whole when some chunk ends past
    the virtual end, and the origin is then not asked; otherwise every chunk, empty and
    overlapping ones included, is answered exactly as a read of it would be - overlay bytes of
    verified pages, verified bytes of this handle's own entry, or the origin's - or the vector
    fails as a whole with a replica fault or the origin's own error. *)
Theorem view_vread_exact chunks (s s' : Handle W) a
    (He : environment P fs m fd f s0 content) (Hs : ok_handle s)
    (Hch : Forall (fun cb => is_u64 (c_offset (fst cb)) /\ is_u32 (c_length (fst cb)) /\ c_length (fst cb) = zlen (snd cb)) chunks)
    (H : VectorRead_view clockS clockUs wire_read relay_read maxErrors chunks s = (a, s')) :
  serves_on s s' /\
  match a with
  | RInvalidArgs => s' = s /\ Exists (fun cb => vsize < c_offset (fst cb) + c_length (fst cb)) chunks
  | RServed r => Forall (in_view m) (fst <$> chunks) /\ answered (fst <$> chunks) s s' r (fun bufs => Forall2 (exact s) (fst <$> chunks) bufs)
  | _ => False
  end.
Proof using IOLaws0. by eapply VectorRead_view_lemma. Qed.
End reads.

(** ** A handle over a small replica

    A file of 10000 bytes whose bytes 4000 to 4020 were replaced and which grew by 100: the
    overlay keeps the 120 new bytes. Page 0 of the file is in the cache, page 1 is staged. *)
Definition overlay_bytes : bytes := zrange 0 120.
Definition overlay_inode : inode := mkInode overlay_bytes 1 0 0.
Definition demo_meta : ReplicaFile.Replica.ReplicaMeta :=
  ReplicaFile.Replica.mkRep 0 ReplicaFile.Replica.kZstd1 0 10000 0 0 0 10100 120 []
    [ReplicaFile.Replica.mkExtent 4000 20 0; ReplicaFile.Replica.mkExtent 10000 100 20] [] [] [crc 0 overlay_bytes].
Definition demo_disk : memw :=
  mkMem (mkFs {[ bs "d" := 1 ]} {[ 1 := mkInode (zeros 10000) 1 0 0; 2 := overlay_inode ]} {[ 3 := 1; 5 := 2 ]}) [].
Definition demo_handle : Handle memw :=
  mkHandle (EntryInv.e4, Entry.mkWorld demo_disk 0 4096 0 (fun _ => 0) [] 0) (RStore.mkView demo_meta 5 false) (fun _ => 0)
    false 0 0 0 (Inner.mkErrors 0 false 0 0).
Definition demo_wire (asked : list (Z * Z)) : Wire := Answered (answer demo_content asked).
Definition demo_relay (asked : list (Z * Z)) : option (list bytes) := None.


Lemma demo_environment : environment demo_wire demo_relay 4096 10000 demo_meta 5 overlay_inode (view demo_disk) demo_content.
Proof.
  constructor; [done|lia| |cbn; lia|done|exact demo_content_len|by intros ? ? [= <-]|done].
  split; [cbn; lia|cbn; unfold ReplicaFile.Replica.ext_end; cbn; lia|apply Forall_nil_2|repeat split; vm_compute; congruence| |].
  - split; [vm_compute; reflexivity|]. apply Forall_cons. split; [vm_compute; split; congruence|by apply Forall_nil].
  - unfold ReplicaFile.Replica.u64_extent, is_u64. repeat (split; [cbn; lia|]). split; [|split; apply Forall_nil_2].
    repeat (apply Forall_cons; split; [cbn; lia|]). by apply Forall_nil.
Qed.
Lemma demo_serving : ok_handle 4096 10000 demo_meta 5 (view demo_disk) demo_handle.
Proof. constructor; [exact EntryInv.demo_inv|apply EntryFrame.src_le_refl|reflexivity|reflexivity|reflexivity]. Qed.

(** One read over all of it: it ends past the virtual end; it holds cached, overlay and
    origin bytes. *)
Definition demo_read : Reply * Handle memw :=
  Read_view (fun _ => 0) (fun _ => 0) demo_wire demo_relay 3 3990 8000 (zeros 8000) demo_handle.
Lemma demo_read_eq : Read_view (fun _ => 0) (fun _ => 0) demo_wire demo_relay 3 3990 8000 (zeros 8000) demo_handle = (fst demo_read, snd demo_read).
Proof. unfold demo_read. apply surjective_pairing. Qed.
Definition shows (r : Reply) : option bytes := match r with RServed (SOk [b]) => Some (zsub b 0 40 ++ zsub b 6000 20) | _ => None end.

Lemma view_read_exact_witness :
  shows (fst demo_read) = Some (zeros 10 ++ zrange 0 20 ++ zeros 10 ++ zeros 10 ++ zrange 20 30) /\
  exists b, fst demo_read = RServed (SOk [b]) /\
    exact_chunk 4096 10000 demo_meta overlay_inode (view demo_disk) demo_content EntryInv.e4 (mkChunk 3990 6110) b.
Proof.
  assert (shows (fst demo_read) = Some (zeros 10 ++ zrange 0 20 ++ zeros 10 ++ zeros 10 ++ zrange 20 30)) as E by (vm_compute; reflexivity).
  split; [exact E|].
  destruct (view_read_exact (fun _ => 0) (fun _ => 0) demo_wire demo_relay 3 4096 10000 demo_meta 5 overlay_inode (view demo_disk) demo_content
    3990 8000 (zeros 8000) demo_handle demo_environment demo_serving ltac:(unfold is_u64; lia) ltac:(unfold is_u32; lia)
    ltac:(by apply zlen_zeros)) as [H _].
  destruct (H (fst demo_read) (snd demo_read) demo_read_eq) as [_ H1]. clear H.
  destruct (fst demo_read) as [| | |r|r cks]; try discriminate E. destruct r as [bufs| | | |]; try discriminate E.
  destruct H1 as (_ & b & -> & Hx). exists b. split; [reflexivity|exact Hx].
Defined.

(** A vector of an overlapping pair, an empty chunk and the last bytes. *)
Definition demo_vector : list (Chunk * bytes) :=
  [(mkChunk 3995 10, zeros 10); (mkChunk 4000 30, zeros 30); (mkChunk 10100 0, []); (mkChunk 9990 20, zeros 20)].
Definition demo_vread : Reply * Handle memw :=
  VectorRead_view (fun _ => 0) (fun _ => 0) demo_wire demo_relay 3 demo_vector demo_handle.
Lemma demo_vread_eq : VectorRead_view (fun _ => 0) (fun _ => 0) demo_wire demo_relay 3 demo_vector demo_handle = (fst demo_vread, snd demo_vread).
Proof. unfold demo_vread. apply surjective_pairing. Qed.
Definition vector_of (r : Reply) : option (list bytes) := match r with RServed (SOk bufs) => Some bufs | _ => None end.

Lemma view_vread_exact_witness :
  vector_of (fst demo_vread) = Some [zeros 5 ++ zrange 0 5; zrange 0 20 ++ zeros 10; []; zeros 10 ++ zrange 20 30] /\
  exists bufs, vector_of (fst demo_vread) = Some bufs /\
    Forall2 (exact_chunk 4096 10000 demo_meta overlay_inode (view demo_disk) demo_content EntryInv.e4) (fst <$> demo_vector) bufs.
Proof.
  assert (vector_of (fst demo_vread) = Some [zeros 5 ++ zrange 0 5; zrange 0 20 ++ zeros 10; []; zeros 10 ++ zrange 20 30]) as E by (vm_compute; reflexivity).
  split; [exact E|].
  destruct (view_vread_exact (fun _ => 0) (fun _ => 0) demo_wire demo_relay 3 4096 10000 demo_meta 5 overlay_inode (view demo_disk) demo_content
    demo_vector demo_handle (snd demo_vread) (fst demo_vread) demo_environment demo_serving) as [_ H1].
  - repeat (apply Forall_cons; split; [unfold is_u64, is_u32; cbn; split; [lia|split; [lia|reflexivity]]|]). by apply Forall_nil.
  - exact demo_vread_eq.
  - destruct (fst demo_vread) as [| | |r|r cks]; try discriminate E. destruct r as [bufs| | | |]; try discriminate E.
    exists bufs. split; [reflexivity|exact (proj2 H1)].
Defined.
End StitchReads.
