(* ===== verification/Xxh3.v ===== *)
(** * XXH3-64 (src/core/vendor/xxh3.cc)

    The hash of ROOT's RNTuple envelopes and pages, and of a cold run's keys. A load outside the data or the
    secret is [None]; the two multiplications the source has, one for compilers with a
    128-bit type and one without, are parameters of one algorithm. Proved: every load is inside for every
    length, the digest is a 64-bit word, and both multiplications are the same function. *)

From S2P Require Import Prelude.
Local Open Scope u64_scope.

Module Xxh.

Definition kPrime32_1 : Z := 0x9E3779B1.
Definition kPrime32_2 : Z := 0x85EBCA77.
Definition kPrime32_3 : Z := 0xC2B2AE3D.
Definition kPrime64_1 : Z := 0x9E3779B185EBCA87.
Definition kPrime64_2 : Z := 0xC2B2AE3D27D4EB4F.
Definition kPrime64_3 : Z := 0x165667B19E3779F9.
Definition kPrime64_4 : Z := 0x85EBCA77C2B2AE63.
Definition kPrime64_5 : Z := 0x27D4EB2F165667C5.
Definition kPrimeMx1 : Z := 0x165667919E3779F9.
Definition kPrimeMx2 : Z := 0x9FB21C651E98DF25.

Definition kSecretSize : Z := 192.
Definition kStripeLen : Z := 64.
Definition kSecretConsumeRate : Z := 8.
Definition kAccNb : Z := 8.
Definition kSecretMergeAccsStart : Z := 11.
Definition kSecretLastAccStart : Z := 7.
Definition kMidsizeStartOffset : Z := 3.
Definition kMidsizeLastOffset : Z := 17.
Definition kSecretSizeMin : Z := 136.

Definition kSecret : bytes :=
  [ 184; 254; 108; 57; 35; 164; 75; 190; 124; 1; 129; 44; 247; 33; 173; 28; 222; 212; 109; 233; 131; 144; 151; 219;
    114; 64; 164; 164; 183; 179; 103; 31; 203; 121; 230; 78; 204; 192; 229; 120; 130; 90; 208; 125; 204; 255; 114; 33;
    184; 8; 70; 116; 247; 67; 36; 142; 224; 53; 144; 230; 129; 58; 38; 76; 60; 40; 82; 187; 145; 195; 0; 203;
    136; 208; 101; 139; 27; 83; 46; 163; 113; 100; 72; 151; 162; 13; 249; 78; 56; 25; 239; 70; 169; 222; 172; 216;
    168; 250; 118; 63; 227; 156; 52; 63; 249; 220; 187; 199; 199; 11; 79; 29; 138; 81; 224; 75; 205; 180; 89; 49;
    200; 159; 126; 201; 217; 120; 115; 100; 234; 197; 172; 131; 52; 211; 235; 195; 197; 129; 160; 255; 250; 19; 99; 235;
    23; 13; 221; 81; 183; 240; 218; 73; 211; 22; 85; 38; 41; 212; 104; 158; 43; 22; 190; 88; 125; 71; 161; 252;
    143; 248; 184; 209; 122; 208; 49; 206; 69; 203; 58; 143; 149; 22; 4; 40; 175; 215; 251; 202; 187; 75; 64; 126 ].

(** ** Words *)

(** A little-endian load of [n] bytes; [None]: outside the buffer. *)
Definition rd (n : nat) (p : bytes) (off : Z) : option Z :=
  if (0 <=? off) && (off + Z.of_nat n <=? zlen p) then Some (getLE n p off) else None.
Definition rd32 : bytes -> Z -> option Z := rd 4.
Definition rd64 : bytes -> Z -> option Z := rd 8.
(** [__builtin_bswap64]. *)
Definition swap64 (v : Z) : Z := le_val (rev (le_bytes 8 v)).
Definition rotl64 (v r : Z) : Z := Z.lor (w64 (Z.shiftl v r)) (Z.shiftr v (64 - r)).
Definition xorshift64 (v shift : Z) : Z := Z.lxor v (Z.shiftr v shift).

(** [mul128Fold64] with a 128-bit product, and from four 32-bit ones. *)
Definition mulFold_wide (a b : Z) : Z := Z.lxor (w64 (a * b)) (w64 (Z.shiftr (a * b) 64)).
Definition mulFold_parts (a b : Z) : Z :=
  let lo v := Z.land v 0xFFFFFFFF in
  let hi v := Z.shiftr v 32 in
  let lo_lo := lo a *% lo b in
  let hi_lo := hi a *% lo b in
  let lo_hi := lo a *% hi b in
  let hi_hi := hi a *% hi b in
  let cross := hi lo_lo +% lo hi_lo +% lo_hi in
  let upper := hi hi_lo +% hi cross +% hi_hi in
  let lower := Z.lor (w64 (Z.shiftl cross 32)) (lo lo_lo) in
  Z.lxor lower upper.

Definition avalanche (h : Z) : Z := xorshift64 (xorshift64 h 37 *% kPrimeMx1) 32.
Definition avalanche64 (h : Z) : Z :=
  let h := xorshift64 h 33 *% kPrime64_2 in
  let h := xorshift64 h 29 *% kPrime64_3 in
  xorshift64 h 32.
Definition rrmxmx (h len : Z) : Z :=
  let h := Z.lxor h (Z.lxor (rotl64 h 49) (rotl64 h 24)) in
  let h := h *% kPrimeMx2 in
  let h := Z.lxor h (Z.shiftr h 35 +% len) in
  xorshift64 (h *% kPrimeMx2) 28.

(** ** The algorithm *)
Section hash.
Context (mul128Fold64 : Z -> Z -> Z).

Definition mix16B (p : bytes) (i s : Z) : option Z :=
  a ← rd64 p i; b ← rd64 kSecret s; c ← rd64 p (i + 8); d ← rd64 kSecret (s + 8);
  Some (mul128Fold64 (Z.lxor a b) (Z.lxor c d)).

Definition len0to16 (p : bytes) : option Z :=
  let len := zlen p in
  if 8 <? len then
    a ← rd64 p 0; s1 ← rd64 kSecret 24; s2 ← rd64 kSecret 32;
    b ← rd64 p (len - 8); s3 ← rd64 kSecret 40; s4 ← rd64 kSecret 48;
    let lo := Z.lxor a (Z.lxor s1 s2) in
    let hi := Z.lxor b (Z.lxor s3 s4) in
    Some (avalanche (len +% swap64 lo +% hi +% mul128Fold64 lo hi))
  else if 4 <=? len then
    in1 ← rd32 p 0; in2 ← rd32 p (len - 4);
    s1 ← rd64 kSecret 8; s2 ← rd64 kSecret 16;
    Some (rrmxmx (Z.lxor (in2 +% w64 (Z.shiftl in1 32)) (Z.lxor s1 s2)) len)
  else if negb (len =? 0) then
    a ← rd 1 p 0; b ← rd 1 p (Z.shiftr len 1); c ← rd 1 p (len - 1);
    s1 ← rd32 kSecret 0; s2 ← rd32 kSecret 4;
    let combined := Z.lor (Z.lor (Z.lor (w32 (Z.shiftl a 16)) (w32 (Z.shiftl b 24))) c) (w32 (Z.shiftl len 8)) in
    Some (avalanche64 (Z.lxor combined (Z.lxor s1 s2)))
  else
    s1 ← rd64 kSecret 56; s2 ← rd64 kSecret 64;
    Some (avalanche64 (Z.lxor s1 s2)).

(** [acc += mix16B(in + i, kSecret + s)], for each pair. *)
Fixpoint mixes (p : bytes) (l : list (Z * Z)) (acc : Z) : option Z :=
  match l with
  | [] => Some acc
  | (i, s) :: l' => x ← mix16B p i s; mixes p l' (acc +% x)
  end.

Definition len17to128 (p : bytes) : option Z :=
  let len := zlen p in
  acc ← mixes p
    ((if 32 <? len then
        (if 64 <? len then
           (if 96 <? len then [(48, 96); (len - 64, 112)] else []) ++ [(32, 64); (len - 48, 80)]
         else []) ++ [(16, 32); (len - 32, 48)]
      else []) ++ [(0, 0); (len - 16, 16)])
    (len *% kPrime64_1);
  Some (avalanche acc).

Definition len129to240 (p : bytes) : option Z :=
  let len := zlen p in
  acc ← mixes p ((fun i => (16 * i, 16 * i)) <$> zrange 0 8) (len *% kPrime64_1);
  acc ← mixes p (((fun i => (16 * i, 16 * (i - 8) + kMidsizeStartOffset)) <$> zrange 8 (len / 16)) ++
                 [(len - 16, kSecretSizeMin - kMidsizeLastOffset)]) (avalanche acc);
  Some (avalanche acc).

(** The lanes of the accumulator. *)
Definition lane (acc : list Z) (p : bytes) (i s : Z) (k : Z) : option (list Z) :=
  data ← rd64 p (i + 8 * k); sec ← rd64 kSecret (s + 8 * k);
  let key := Z.lxor data sec in
  let acc := zset acc (Z.lxor k 1) (zget acc (Z.lxor k 1) +% data) in
  Some (zset acc k (zget acc k +% Z.land key 0xFFFFFFFF *% Z.shiftr key 32)).
Definition accumulate512 (acc : list Z) (p : bytes) (i s : Z) : option (list Z) :=
  foldl (fun acc k => a ← acc; lane a p i s k) (Some acc) (zrange 0 kAccNb).
Definition scramble (acc : list Z) (s : Z) : option (list Z) :=
  foldl (fun acc k => a ← acc; sec ← rd64 kSecret (s + 8 * k);
    Some (zset a k (Z.lxor (xorshift64 (zget a k) 47) sec *% kPrime32_1))) (Some acc) (zrange 0 kAccNb).
Definition merge_step (acc : list Z) (s result i : Z) : option Z :=
  a ← rd64 kSecret (s + 16 * i); b ← rd64 kSecret (s + 16 * i + 8);
  Some (result +% mul128Fold64 (Z.lxor (zget acc (2 * i)) a) (Z.lxor (zget acc (2 * i + 1)) b)).
Definition mergeAccs (acc : list Z) (s start : Z) : option Z :=
  r ← foldl (fun result i => r ← result; merge_step acc s r i) (Some start) (zrange 0 4);
  Some (avalanche r).

Definition stripesPerBlock : Z := (kSecretSize - kStripeLen) / kSecretConsumeRate.
Definition blockLen : Z := kStripeLen * stripesPerBlock.
(** The first [n] stripes of the block at [base]. *)
Definition stripes_of (p : bytes) (base n : Z) (acc : list Z) : option (list Z) :=
  foldl (fun acc s => a ← acc; accumulate512 a p (base + s * kStripeLen) (s * kSecretConsumeRate)) (Some acc) (zrange 0 n).
(** A whole block and the scramble after it. *)
Definition block (p : bytes) (acc : list Z) (n : Z) : option (list Z) :=
  a ← stripes_of p (n * blockLen) stripesPerBlock acc; scramble a (kSecretSize - kStripeLen).
Definition acc0 : list Z := [kPrime32_3; kPrime64_1; kPrime64_2; kPrime64_3; kPrime64_4; kPrime32_2; kPrime64_5; kPrime32_1].
Definition hashLong (p : bytes) : option Z :=
  let len := zlen p in
  let blocks := (len - 1) / blockLen in
  acc ← foldl (fun acc n => a ← acc; block p a n) (Some acc0) (zrange 0 blocks);
  acc ← stripes_of p (blocks * blockLen) ((len - 1 - blockLen * blocks) / kStripeLen) acc;
  acc ← accumulate512 acc p (len - kStripeLen) (kSecretSize - kStripeLen - kSecretLastAccStart);
  mergeAccs acc kSecretMergeAccsStart (len *% kPrime64_1).

Definition digest (p : bytes) : option Z :=
  if zlen p <=? 16 then len0to16 p
  else if zlen p <=? 128 then len17to128 p
  else if zlen p <=? 240 then len129to240 p
  else hashLong p.
End hash.

(** [xxh3_64]; by [digest_total] there is always a digest. *)
Definition xxh3_64 (p : bytes) : Z := default 0 (digest mulFold_wide p).

(** The digests of the bytes 0, 1, .., 255, 0, .. of these lengths. *)
Definition vectors : list (Z * Z) :=
  [ (0, 0x2d06800538d394c2); (1, 0xc44bdff4074eecdb); (2, 0xd6645fc3051a9457); (3, 0x5f4299fc161c9cbb); 
    (4, 0x60dab036a58211f2); (5, 0xb075753a84ca0fbe); (8, 0x3a1c2d7c85af88f8); (9, 0xe9612598145bb9dc); 
    (12, 0x5ace6a511c10894b); (16, 0x8355e3a6f61770db); (17, 0x9ef341a99de37328); (31, 0x4f36db8e4df378fd); 
    (32, 0x3523581fe96e4c05); (33, 0xe68c56ba88991e58); (64, 0x6187eb9089b0ed55); (65, 0x6928c76ce90422d0); 
    (96, 0x278a3e12ea046dfb); (97, 0xe7220282dc4e14f4); (128, 0x85c6174c7ff4c46b); (129, 0xec7642b431ba3e5a); 
    (160, 0x5bea9075ec9401b8); (240, 0x375a384d957fe865); (241, 0x02e8cd95421c6d02); (256, 0x9408a4433b952d71); 
    (1023, 0x26a0a01d1c925c06); (1024, 0xa870f92984398d22); (1025, 0x78c86e91ee939852); (2048, 0xdd420471ff96bd00); 
    (4096, 0xeb4b7c3707879151); (5000, 0x1b74bda2c82a8c7a) ].
Definition counting (n : Z) : bytes := (fun i => Z.land i 255) <$> zrange 0 n.
Example xxh3_vectors : (fun v => digest mulFold_wide (counting (fst v))) <$> vectors = (fun v => Some (snd v)) <$> vectors.
Proof. vm_compute. reflexivity. Qed.

(** ** Every load is inside *)
Lemma rd_some n p off : 0 <= off -> off + Z.of_nat n <= zlen p -> rd n p off = Some (getLE n p off).
Proof. intros H1 H2. unfold rd. by rewrite (proj2 (Z.leb_le _ _) H1), (proj2 (Z.leb_le _ _) H2). Qed.
Lemma secret_len : zlen kSecret = 192.
Proof. reflexivity. Qed.

(** [loads] removes every load that is visibly inside. *)
Ltac loads := repeat (first
  [ rewrite (rd_some 8 _ _) by (rewrite ?secret_len; lia) | rewrite (rd_some 4 _ _) by (rewrite ?secret_len; lia)
  | rewrite (rd_some 1 _ _) by (rewrite ?secret_len; lia) ]; cbn [mbind option_bind]).

(** A loop whose body never fails, with an invariant. *)
Lemma foldl_total {A B} (P : A -> Prop) (f : A -> B -> option A) l : forall a, P a ->
  (forall a x, x ∈ l -> P a -> exists a', f a x = Some a' /\ P a') ->
  exists a', foldl (fun acc x => a ← acc; f a x) (Some a) l = Some a' /\ P a'.
Proof.
  induction l as [|x l IH]; intros a Ha Hf; cbn; [by exists a|].
  destruct (Hf a x ltac:(by left) Ha) as (a' & E & Ha'). rewrite E. apply IH; [done|]. intros a0 x0 Hx. apply Hf. by right.
Qed.
Lemma zrange_elem k a b : k ∈ zrange a b -> a <= k < b.
Proof. unfold zrange. rewrite elem_of_seqZ. lia. Qed.

Section total.
Context (mul : Z -> Z -> Z).

Lemma mix16B_total p i s : 0 <= i -> i + 16 <= zlen p -> 0 <= s -> s + 16 <= 192 -> exists v, mix16B mul p i s = Some v.
Proof. intros. unfold mix16B, rd64. loads. by eexists. Qed.
Lemma mixes_total p l : Forall (fun x => 0 <= fst x /\ fst x + 16 <= zlen p /\ 0 <= snd x /\ snd x + 16 <= 192) l ->
  forall acc, exists v, mixes mul p l acc = Some v.
Proof.
  induction 1 as [|[i s] l (H1 & H2 & H3 & H4) _ IH]; intros acc; cbn; [by eexists|].
  destruct (mix16B_total p i s) as [v ->]; [done..|]. apply IH.
Qed.

Definition lanes_ok (a : list Z) : Prop := Forall is_u64 a.
Lemma w64_u64 z : is_u64 (w64 z).
Proof. unfold is_u64. apply w64_range. Qed.
Lemma zset_u64 a k z : lanes_ok a -> lanes_ok (zset a k (w64 z)).
Proof. intros H. unfold zset. apply Forall_insert; [done|apply w64_u64]. Qed.

Lemma accumulate_total acc p i s : lanes_ok acc -> 0 <= i -> i + 64 <= zlen p -> 0 <= s -> s + 64 <= 192 ->
  exists acc', accumulate512 acc p i s = Some acc' /\ lanes_ok acc'.
Proof.
  intros Ha Hi Hp Hs1 Hs2. apply foldl_total; [done|]. intros a k Hk%zrange_elem La. unfold kAccNb in Hk.
  unfold lane, rd64. loads. eexists. split; [done|]. by apply zset_u64, zset_u64.
Qed.
Lemma scramble_total acc s : lanes_ok acc -> 0 <= s -> s + 64 <= 192 -> exists acc', scramble acc s = Some acc' /\ lanes_ok acc'.
Proof.
  intros Ha Hs1 Hs2. apply foldl_total; [done|]. intros a k Hk%zrange_elem La. unfold kAccNb in Hk.
  unfold rd64. loads. eexists. split; [done|]. by apply zset_u64.
Qed.
Lemma stripes_total p base n acc : lanes_ok acc -> 0 <= base -> n <= 16 -> base + 64 * n <= zlen p ->
  exists acc', stripes_of p base n acc = Some acc' /\ lanes_ok acc'.
Proof.
  intros Ha Hb Hn Hp. apply foldl_total; [done|]. intros a k Hk%zrange_elem La.
  unfold kStripeLen, kSecretConsumeRate. apply accumulate_total; [done|lia..].
Qed.
Lemma merge_total acc s start : 0 <= s -> s + 64 <= 192 -> exists v, mergeAccs mul acc s start = Some (avalanche v).
Proof.
  intros H1 H2. unfold mergeAccs. destruct (foldl_total (fun _ : Z => True) (merge_step mul acc s) (zrange 0 4) start I) as (r & -> & _); [|by eexists].
  intros a k Hk%zrange_elem _. unfold merge_step, rd64. loads. by eexists.
Qed.
Lemma acc0_ok : lanes_ok acc0.
Proof. unfold acc0, lanes_ok. repeat (apply Forall_cons; split; [vm_compute; split; congruence|]). by apply Forall_nil. Qed.

(** The whole blocks and what is left of them. *)
Lemma blocks_split len : 240 < len -> let blocks := (len - 1) / blockLen in
  0 <= blocks /\ blocks * blockLen <= len - 1 /\ 0 <= (len - 1 - blockLen * blocks) / kStripeLen <= 15 /\
  blocks * blockLen + 64 * ((len - 1 - blockLen * blocks) / kStripeLen) <= len - 1.
Proof.
  intros H blocks. change blockLen with 1024 in *. unfold kStripeLen. subst blocks.
  pose proof (Z.div_mod (len - 1) 1024). pose proof (Z.mod_pos_bound (len - 1) 1024).
  set (r := len - 1 - 1024 * ((len - 1) / 1024)). pose proof (Z.div_mod r 64). pose proof (Z.mod_pos_bound r 64).
  assert (0 <= (len - 1) / 1024) by (apply Z.div_pos; lia). lia.
Qed.
Lemma blocks_total p n : 0 <= n -> n * blockLen <= zlen p ->
  exists acc, foldl (fun acc n => a ← acc; block p a n) (Some acc0) (zrange 0 n) = Some acc /\ lanes_ok acc.
Proof.
  intros Hn Hp. apply foldl_total; [exact acc0_ok|]. intros a k Hk%zrange_elem La. unfold block. change blockLen with 1024 in *. change stripesPerBlock with 16.
  destruct (stripes_total p (k * 1024) 16 a La ltac:(lia) ltac:(lia) ltac:(lia)) as (a1 & -> & L1). cbn.
  apply scramble_total; [done|unfold kSecretSize, kStripeLen; lia..].
Qed.
Lemma long_lanes p : 240 < zlen p -> exists acc,
  lanes_ok acc /\ forall mul', hashLong mul' p = mergeAccs mul' acc kSecretMergeAccsStart (zlen p *% kPrime64_1).
Proof.
  intros Hp. destruct (blocks_split (zlen p) Hp) as (B1 & B2 & B3 & B4). set (blocks := (zlen p - 1) / blockLen) in *.
  destruct (blocks_total p blocks B1 ltac:(lia)) as (a1 & E1 & L1).
  destruct (stripes_total p (blocks * blockLen) ((zlen p - 1 - blockLen * blocks) / kStripeLen) a1 L1) as (a2 & E2 & L2);
    [change blockLen with 1024 in *; lia|lia|lia|].
  destruct (accumulate_total a2 p (zlen p - kStripeLen) (kSecretSize - kStripeLen - kSecretLastAccStart) L2) as (a3 & E3 & L3);
    [unfold kSecretSize, kStripeLen, kSecretLastAccStart; lia..|].
  exists a3. split; [done|]. intros mul'. unfold hashLong. fold blocks. rewrite E1. cbn [mbind option_bind]. rewrite E2. cbn [mbind option_bind]. rewrite E3. done.
Qed.

Lemma xorshift_u64 v k : is_u64 v -> 0 <= k -> is_u64 (xorshift64 v k).
Proof.
  unfold is_u64, xorshift64. intros Hv Hk. apply (bits_bound 64) in Hv as [H1 H2]; [|lia]. apply (bits_bound 64); [lia|]. split.
  - apply Z.lxor_nonneg. split; intros _; [by apply Z.shiftr_nonneg|done].
  - rewrite Z.shiftr_lxor, H2, Z.shiftr_shiftr, Z.add_comm, <- Z.shiftr_shiftr, H2, Z.shiftr_0_l by lia. done.
Qed.
Lemma avalanche_u64 h : is_u64 (avalanche h).
Proof. apply xorshift_u64; [apply w64_u64|lia]. Qed.

(** Whatever the length, the digest is computed, and it is a 64-bit word. *)
Lemma digest_total p : exists v, digest mul p = Some v /\ is_u64 v.
Proof.
  pose proof (zlen_nonneg p). unfold digest. destruct (zlen p <=? 16) eqn:E16; b2p.
  { unfold len0to16, rd64, rd32. destruct (8 <? zlen p) eqn:E8; b2p; [loads; eexists; split; [done|apply avalanche_u64]|].
    destruct (4 <=? zlen p) eqn:E4; b2p; [loads; eexists; split; [done|apply xorshift_u64; [apply w64_u64|lia]]|].
    destruct (negb (zlen p =? 0)) eqn:E0; b2p.
    - pose proof (Z.div_mod (zlen p) 2). pose proof (Z.mod_pos_bound (zlen p) 2). rewrite Z.shiftr_div_pow2 by lia. change (2 ^ 1) with 2. loads.
      eexists. split; [done|apply xorshift_u64; [apply w64_u64|lia]].
    - loads. eexists. split; [done|apply xorshift_u64; [apply w64_u64|lia]]. }
  destruct (zlen p <=? 128) eqn:E128; b2p.
  { unfold len17to128. edestruct (mixes_total p) as [v ->]; [|eexists; split; [done|apply avalanche_u64]].
    destruct (32 <? zlen p) eqn:E32; b2p; [destruct (64 <? zlen p) eqn:E64; b2p; [destruct (96 <? zlen p) eqn:E96; b2p|]|];
      cbn [app]; repeat (apply Forall_cons; split; [cbn; lia|]); by apply Forall_nil. }
  destruct (zlen p <=? 240) eqn:E240; b2p.
  { unfold len129to240. edestruct (mixes_total p) as [v ->].
    - apply Forall_fmap, Forall_forall. intros k Hk%zrange_elem. cbn. lia.
    - cbn [mbind option_bind]. edestruct (mixes_total p) as [v' ->]; [|eexists; split; [done|apply avalanche_u64]].
      unfold kMidsizeStartOffset, kSecretSizeMin, kMidsizeLastOffset. apply Forall_app. split.
      + apply Forall_fmap, Forall_forall. intros k Hk%zrange_elem. cbn. pose proof (Z.div_mod (zlen p) 16). pose proof (Z.mod_pos_bound (zlen p) 16). lia.
      + apply Forall_cons. split; [cbn; lia|by apply Forall_nil]. }
  destruct (long_lanes p E240) as (acc & _ & ->). destruct (merge_total acc kSecretMergeAccsStart (zlen p *% kPrime64_1)) as [v ->]; [unfold kSecretMergeAccsStart; lia..|].
  eexists. split; [done|apply avalanche_u64].
Qed.
End total.

(** ** The two multiplications *)
Lemma land_mask v : 0 <= v -> Z.land v 0xFFFFFFFF = v mod p32.
Proof. intros _. change 0xFFFFFFFF with (Z.ones 32). rewrite Z.land_ones by lia. done. Qed.
Lemma shiftr_32 v : Z.shiftr v 32 = v / p32.
Proof. rewrite Z.shiftr_div_pow2 by lia. done. Qed.
Lemma lor_halves h l : 0 <= l < p32 -> Z.lor (h * p32) l = h * p32 + l.
Proof.
  intros Hl. symmetry. apply Z.add_nocarry_lor. apply Z.bits_inj'. intros k Hk. rewrite Z.land_spec, Z.bits_0. change p32 with (2 ^ 32) in *.
  destruct (Z.lt_ge_cases k 32); [by rewrite Z.mul_pow2_bits_low|].
  destruct (proj1 (bits_bound 32 l ltac:(lia)) Hl) as [_ E]. replace (Z.testbit l k) with false; [by rewrite andb_false_r|].
  replace k with ((k - 32) + 32) by lia. by rewrite <- Z.shiftr_spec, E, Z.bits_0 by lia.
Qed.

(** The product of two words from those of their halves. *)
Lemma mul_halves ah al bh bl : 0 <= ah < p32 -> 0 <= al < p32 -> 0 <= bh < p32 -> 0 <= bl < p32 ->
  let cross := al * bl / p32 + (ah * bl) mod p32 + al * bh in
  let upper := ah * bl / p32 + cross / p32 + ah * bh in
  let lower := cross mod p32 * p32 + (al * bl) mod p32 in
  0 <= cross < p64 /\ 0 <= upper < p64 /\ 0 <= lower < p64 /\ (ah * p32 + al) * (bh * p32 + bl) = upper * p64 + lower.
Proof.
  intros Ha Hb Hc Hd cross upper lower.
  assert (0 <= al * bl <= (p32 - 1) * (p32 - 1) /\ 0 <= ah * bl <= (p32 - 1) * (p32 - 1) /\ 0 <= al * bh <= (p32 - 1) * (p32 - 1) /\ 0 <= ah * bh <= (p32 - 1) * (p32 - 1)) as (B1 & B2 & B3 & B4) by nia.
  assert ((ah * p32 + al) * (bh * p32 + bl) = ah * bh * p64 + (ah * bl + al * bh) * p32 + al * bl) as -> by (change p64 with (p32 * p32); ring).
  set (x := al * bl) in *. set (y := ah * bl) in *. set (z := al * bh) in *. set (t := ah * bh) in *.
  pose proof (Z.div_mod x p32). pose proof (Z.mod_pos_bound x p32). pose proof (Z.div_mod y p32). pose proof (Z.mod_pos_bound y p32).
  assert (0 <= cross < p64) as C by (unfold cross; lia).
  pose proof (Z.div_mod cross p32). pose proof (Z.mod_pos_bound cross p32).
  assert (cross = x / p32 + y mod p32 + z) as Ec by done. clearbody cross. unfold upper, lower. lia.
Qed.

Lemma mulFold_same a b : is_u64 a -> is_u64 b -> mulFold_parts a b = mulFold_wide a b.
Proof.
  unfold is_u64. intros Ha Hb. unfold mulFold_parts, mulFold_wide. rewrite !shiftr_32.
  pose proof (Z.div_mod a p32). pose proof (Z.mod_pos_bound a p32). pose proof (Z.div_mod b p32). pose proof (Z.mod_pos_bound b p32).
  assert (0 <= a / p32 < p32) as A by (split; [apply Z.div_pos; lia|apply Z.div_lt_upper_bound; lia]).
  assert (0 <= b / p32 < p32) as B by (split; [apply Z.div_pos; lia|apply Z.div_lt_upper_bound; lia]).
  destruct (mul_halves (a / p32) (a mod p32) (b / p32) (b mod p32) A ltac:(lia) B ltac:(lia)) as (C & U & L & E).
  rewrite !(land_mask a), !(land_mask b) by lia.
  set (ah := a / p32) in *. set (al := a mod p32) in *. set (bh := b / p32) in *. set (bl := b mod p32) in *.
  assert (0 <= al * bl < p64 /\ 0 <= ah * bl < p64 /\ 0 <= al * bh < p64 /\ 0 <= ah * bh < p64) as (B1 & B2 & B3 & B4) by nia.
  rewrite (w64_small (al * bl)), (w64_small (ah * bl)), (w64_small (al * bh)), (w64_small (ah * bh)) by done.
  rewrite (land_mask (ah * bl)), (land_mask (al * bl)) by lia.
  pose proof (Z.mod_pos_bound (ah * bl) p32). pose proof (Z.div_pos (al * bl) p32). pose proof (Z.div_pos (ah * bl) p32).
  rewrite (w64_small (al * bl / p32 + _)) by lia. rewrite (w64_small (al * bl / p32 + (ah * bl) mod p32 + al * bh)) by lia.
  set (cross := al * bl / p32 + (ah * bl) mod p32 + al * bh) in *.
  pose proof (Z.div_pos cross p32). rewrite (w64_small (ah * bl / p32 + cross / p32)) by lia.
  rewrite (w64_small (ah * bl / p32 + cross / p32 + ah * bh)) by lia.
  assert (w64 (Z.shiftl cross 32) = cross mod p32 * p32) as ->.
  { rewrite Z.shiftl_mul_pow2 by lia. unfold w64. change (2 ^ 32) with p32. change p64 with (p32 * p32). rewrite Z.mul_mod_distr_r by lia. done. }
  rewrite lor_halves by (apply Z.mod_pos_bound; lia).
  assert (a * b = (ah * bl / p32 + cross / p32 + ah * bh) * p64 + (cross mod p32 * p32 + (al * bl) mod p32)) as Eab.
  { rewrite <- E. f_equal; lia. }
  rewrite Eab. f_equal.
  - unfold w64. rewrite (Z.add_comm (_ * p64)), Z_mod_plus_full. by rewrite (Z.mod_small _ p64) by exact L.
  - rewrite Z.shiftr_div_pow2 by lia. change (2 ^ 64) with p64. rewrite Z.div_add_l by lia. rewrite (Z.div_small _ p64) by exact L. by rewrite Z.add_0_r, w64_small by exact U.
Qed.

(** ** One digest, whichever multiplication the compiler has *)
Lemma rd_u64 p off v : Forall is_byte p -> rd 8 p off = Some v -> is_u64 v.
Proof. intros Hp. unfold rd. destruct (_ && _); [|done]. intros [= <-]. pose proof (getLE_range 8 p off Hp). unfold is_u64. exact H. Qed.
Lemma secret_bytes : Forall is_byte kSecret.
Proof.
  apply Forall_forall. intros b Hb. assert (forallb (fun b => (0 <=? b) && (b <? 256)) kSecret = true) as H by (vm_compute; reflexivity).
  apply list_elem_of_In in Hb. rewrite forallb_forall in H. specialize (H b Hb). b2p. unfold is_byte. lia.
Qed.
Lemma lxor_u64 a b : is_u64 a -> is_u64 b -> is_u64 (Z.lxor a b).
Proof.
  unfold is_u64. intros Ha Hb. apply (bits_bound 64) in Ha as [H1 H2]; [|lia]. apply (bits_bound 64) in Hb as [H3 H4]; [|lia].
  apply (bits_bound 64); [lia|]. split; [apply Z.lxor_nonneg; by split|]. by rewrite Z.shiftr_lxor, H2, H4.
Qed.
Lemma swap64_u64 v : is_u64 (swap64 v).
Proof.
  unfold swap64, is_u64. pose proof (le_val_range (rev (le_bytes 8 v))) as H.
  unfold zlen in H. rewrite length_rev, length_le_bytes in H. apply H. apply Forall_rev, le_bytes_is_byte.
Qed.
Lemma lanes_get a k : lanes_ok a -> is_u64 (zget a k).
Proof. intros H. apply (Forall_zget is_u64); [exact H|unfold is_u64; lia]. Qed.

Lemma mix16B_same p i s : Forall is_byte p -> mix16B mulFold_parts p i s = mix16B mulFold_wide p i s.
Proof.
  intros Hp. unfold mix16B. destruct (rd64 p i) as [a|] eqn:Ea; [|done]. destruct (rd64 kSecret s) as [b|] eqn:Eb; [|done].
  destruct (rd64 p (i + 8)) as [c|] eqn:Ec; [|done]. destruct (rd64 kSecret (s + 8)) as [d|] eqn:Ed; [|done]. cbn.
  apply rd_u64 in Ea, Ec; [|done..]. apply rd_u64 in Eb, Ed; [|exact secret_bytes..].
  rewrite mulFold_same; [done|by apply lxor_u64..].
Qed.
Lemma mixes_same p l : Forall is_byte p -> forall acc, mixes mulFold_parts p l acc = mixes mulFold_wide p l acc.
Proof.
  intros Hp. induction l as [|[i s] l IH]; intros acc; cbn; [done|]. rewrite mix16B_same by done. destruct (mix16B mulFold_wide p i s); [|done]. apply IH.
Qed.
Lemma merge_same acc s start : lanes_ok acc -> mergeAccs mulFold_parts acc s start = mergeAccs mulFold_wide acc s start.
Proof.
  intros Ha. unfold mergeAccs. f_equal. generalize (Some start) as o. induction (zrange 0 4) as [|k l IH]; intros o; cbn [foldl]; [done|].
  assert ((r ← o; merge_step mulFold_parts acc s r k) = (r ← o; merge_step mulFold_wide acc s r k)) as ->; [|apply IH].
  destruct o as [r|]; [|done]. cbn. unfold merge_step. destruct (rd64 kSecret (s + 16 * k)) as [a|] eqn:Ea; [|done].
  destruct (rd64 kSecret (s + 16 * k + 8)) as [b|] eqn:Eb; [|done]. cbn. apply rd_u64 in Ea, Eb; [|exact secret_bytes..].
  rewrite mulFold_same; [done|apply lxor_u64; [by apply lanes_get|done]..].
Qed.

Lemma digest_same p : Forall is_byte p -> digest mulFold_parts p = digest mulFold_wide p.
Proof.
  intros Hp. unfold digest. destruct (zlen p <=? 16).
  { unfold len0to16. destruct (8 <? zlen p); [|done]. destruct (rd64 p 0) as [a|] eqn:Ea; [|done].
    destruct (rd64 kSecret 24) as [s1|] eqn:E1; [|done]. destruct (rd64 kSecret 32) as [s2|] eqn:E2; [|done].
    destruct (rd64 p (zlen p - 8)) as [b|] eqn:Eb; [|done]. destruct (rd64 kSecret 40) as [s3|] eqn:E3; [|done].
    destruct (rd64 kSecret 48) as [s4|] eqn:E4; [|done]. cbn.
    apply rd_u64 in Ea, Eb; [|done..]. apply rd_u64 in E1, E2, E3, E4; [|exact secret_bytes..].
    rewrite mulFold_same; [done|apply lxor_u64; [done|by apply lxor_u64]..]. }
  destruct (zlen p <=? 128). { unfold len17to128. by rewrite mixes_same. }
  destruct (zlen p <=? 240) eqn:E240; b2p.
  { unfold len129to240. rewrite mixes_same by done. destruct (mixes _ _ _ _); [|done]. cbn. by rewrite mixes_same. }
  destruct (long_lanes p E240) as (acc & La & E). rewrite !E. by apply merge_same.
Qed.

Lemma xxh3_64_u64 p : is_u64 (xxh3_64 p).
Proof. unfold xxh3_64. destruct (digest_total mulFold_wide p) as (v & -> & H). exact H. Qed.

(** The hash is one function: for data of any length every load of the input and of the secret is inside,
    with either multiplication the result is the same, and it is a 64-bit word. *)
Theorem xxh3_any_path p : Forall is_byte p ->
  digest mulFold_parts p = Some (xxh3_64 p) /\ digest mulFold_wide p = Some (xxh3_64 p) /\ is_u64 (xxh3_64 p).
Proof.
  intros Hp. rewrite (digest_same p Hp). split; [|split; [|apply xxh3_64_u64]]; unfold xxh3_64; destruct (digest_total mulFold_wide p) as (v & -> & _); done.
Qed.
End Xxh.
