(* ===== verification/RNTupleMeta.v ===== *)
(** * The structural parse of an RNTuple file (src/transpose/RNTupleMeta.h, RNTupleMeta.cc)

    From the container's keys list to the anchor, the header, footer and page-list envelopes, and
    the pages of every column in every cluster. The envelopes are little-endian, come from the
    network and are read through a cursor that remembers a failure ([bad]); a byte
    read outside the buffer, or a loop that does not end, would set [oob] or [stuck]. *)

From S2P Require Import Prelude UrlKey RootFile TreeMeta Xxh3.
Local Open Scope u64_scope.

Module NTupleData.

(** ** What is extracted *)
Record RNTupleAnchor := mkAnchor {
  versionEpoch : Z; versionMajor : Z; versionMinor : Z; versionPatch : Z;
  seekHeader : Z; nbytesHeader : Z; lenHeader : Z; seekFooter : Z; nbytesFooter : Z; lenFooter : Z; maxKeySize : Z;
  payloadOffset : Z; payloadLength : Z }.
Record ColumnInfo := mkColumn { ctype : Z; bitsOnStorage : Z; fieldId : Z; fieldName : bytes }.
Record PageInfo := mkPage { pg_offset : Z; pg_nbytes : Z; nElements : Z; hasChecksum : bool; uncompressedBytes : Z; recordOffset : Z }.
Record ColumnRange := mkRange { clusterId : Z; columnId : Z; compressionSettings : Z; compressionOffset : Z; pages : list PageInfo }.
Record RNTupleMeta := mkMeta {
  m_fileSize : Z; m_fend : Z; m_headerSeekWidth : Z; ntupleName : bytes; writer : bytes; anchor : RNTupleAnchor;
  columns : list ColumnInfo; ranges : list ColumnRange; nEntries : Z; nClusters : Z;
  header : bytes; footer : bytes; pageList : bytes; pageListLocatorOffset : Z; pageListOffset : Z; pageListNbytes : Z }.
End NTupleData.

Module NTuple.
Import Root Tree NTupleData.

Definition kEnvelopeHeader : Z := 1.
Definition kEnvelopeFooter : Z := 2.
Definition kEnvelopePageList : Z := 3.

(** ** The cursor *)
Record LE := mkLE { le_at : Z; bad : bool; le_oob : bool; le_stuck : bool }.
Definition le_start (a : Z) : LE := mkLE a false false false.

Section cursor.
Context (p : bytes).

Definition here : M LE Z := fun c => (le_at c, c).
Definition is_bad : M LE bool := fun c => (bad c, c).
Definition jump (a : Z) : M LE unit := fun c => (tt, mkLE a (bad c) (le_oob c) (le_stuck c)).
Definition set_bad : M LE unit := fun c => (tt, mkLE (le_at c) true (le_oob c) (le_stuck c)).
Definition bad_if (b : bool) : M LE unit := if b then set_bad else ret tt.
Definition stuck : M LE unit := fun c => (tt, mkLE (le_at c) (bad c) (le_oob c) true).
(** The bytes at the cursor, which [need] has vouched for. *)
Definition look (n : Z) : M LE bytes := fun c =>
  (zsub p (le_at c) n, if (0 <=? le_at c) && (le_at c + n <=? zlen p) then c else mkLE (le_at c) (bad c) true (le_stuck c)).

Definition need (k : Z) : M LE bool := fun c =>
  if bad c || (zlen p <? k) || (zlen p -% k <? le_at c) then (false, mkLE (le_at c) true (le_oob c) (le_stuck c)) else (true, c).
Definition get (n : nat) : M LE Z :=
  do ok <- need (Z.of_nat n);
  if (ok : bool) then
    do b <- look (Z.of_nat n);
    do a <- here;
    do_ jump (a +% Z.of_nat n);
    ret (le_val b)
  else ret 0.
Definition u16 : M LE Z := get 2.
Definition u32 : M LE Z := get 4.
Definition u64 : M LE Z := get 8.
Definition i32 : M LE Z := do v <- u32; ret (signed 4 v).
Definition i64 : M LE Z := do v <- u64; ret (signed 8 v).
Definition str : M LE bytes :=
  do len <- u32;
  do ok <- need len;
  if (ok : bool) then
    do b <- look len;
    do a <- here;
    do_ jump (a +% len);
    ret b
  else ret [].
Definition skip (k : Z) : M LE unit := fun c =>
  if (zlen p <? k) || (zlen p -% k <? le_at c) then (tt, mkLE (le_at c) true (le_oob c) (le_stuck c))
  else (tt, mkLE (le_at c +% k) (bad c) (le_oob c) (le_stuck c)).

(** A record frame, or a list frame with its number of items. The size of a frame counts from its start. *)
Record Frame := mkFrame { isList : bool; fsize : Z; items : Z }.
Definition readFrame : M LE Frame :=
  do start <- here;
  do sz <- i64;
  do f <- (if sz <? 0 then do n <- u32; ret (mkFrame true (w64 (- sz)) n) else ret (mkFrame false sz 1));
  do_ bad_if ((fsize f =? 0) || (zlen p <? start +% fsize f));
  ret f.
(** The end of the record frame that began at [start]. *)
Definition leave (start : Z) (f : Frame) : M LE unit :=
  do_ jump (start +% fsize f);
  do a <- here;
  bad_if (zlen p <? a).

(** [for (uint32_t i = 0; i < n && !c.bad; ++i)] over items that add to [acc]. *)
Fixpoint items_loop {A} (fuel : nat) (item : Z -> A -> M LE A) (i n : Z) (acc : A) : M LE A :=
  match fuel with
  | O => do_ stuck; ret acc
  | S fuel' =>
      do b <- is_bad;
      if negb (i <? n) || b then ret acc
      else
        do acc <- item i acc;
        items_loop fuel' item (i + 1) n acc
  end.
Definition list_loop {A} (item : Z -> A -> M LE A) (n : Z) (acc : A) : M LE A := items_loop (S (S (length p))) item 0 n acc.
Definition list_frame : M LE Z := do f <- readFrame; do_ bad_if (negb (isList f)); ret (items f).

(** *** The header: name, writer, and the columns *)
Definition field_item (_ : Z) (names : list bytes) : M LE (list bytes) :=
  do start <- here;
  do r <- readFrame;
  do_ skip (4 + 4 + 4 + 2 + 2);
  do nm <- str;
  do_ leave start r;
  ret (names ++ [nm]).
Definition column_item (names : list bytes) (_ : Z) (cols : list ColumnInfo) : M LE (list ColumnInfo) :=
  do start <- here;
  do r <- readFrame;
  do ty <- u16;
  do bits <- u16;
  do id <- u32;
  do_ leave start r;
  ret (cols ++ [mkColumn ty bits id (nth (Z.to_nat id) names [])]).
Definition header_walk : M LE (bytes * bytes * list ColumnInfo) :=
  do name <- str;
  do_ str;
  do wr <- str;
  do nf <- list_frame;
  do names <- list_loop field_item nf [];
  do nc <- list_frame;
  do cols <- list_loop (column_item names) nc [];
  ret (name, wr, cols).

(** *** The footer: the links to the page lists *)
Record Link := mkLink { lk_len : Z; lk_at : Z; lk_nbytes : Z; lk_off : Z }.
(** [None]: a locator this parser does not read. *)
Definition group_item (_ : Z) (acc : option (list Link)) : M LE (option (list Link)) :=
  match acc with
  | None => ret None
  | Some l =>
      do start <- here;
      do r <- readFrame;
      do_ skip (8 + 8 + 4);
      do len <- u64;
      do at_ <- here;
      do nb <- i32;
      do off <- u64;
      if nb <? 0 then do_ set_bad; ret None
      else do_ leave start r; ret (Some (l ++ [mkLink len at_ nb off]))
  end.
Definition footer_walk : M LE (option (list Link)) :=
  do_ skip 8;
  do start <- here;
  do ext <- readFrame;
  do_ leave start ext;
  do ng <- list_frame;
  list_loop group_item ng (Some []).

(** *** The page list *)
Definition summary_item (_ : Z) (n : Z) : M LE Z :=
  do start <- here;
  do r <- readFrame;
  do_ skip 8;
  do k <- u64;
  do_ leave start r;
  ret (n +% k).
Definition page_item (bits : Z) (_ : Z) (acc : list PageInfo) : M LE (list PageInfo) :=
  do at_ <- here;
  do nElem <- i32;
  do size <- i32;
  if size <? 0 then do_ set_bad; ret acc
  else
    do off <- u64;
    let n := w32 (if nElem <? 0 then - nElem else nElem) in
    ret (acc ++ [mkPage off size n (nElem <? 0) (if bits =? 0 then 0 else (n *% bits +% 7) / 8) (w32 at_)]).
Definition bits_of (cols : list ColumnInfo) (col : Z) : Z :=
  match cols !! Z.to_nat col with Some ci => bitsOnStorage ci | None => 0 end.
Definition column_pages (cols : list ColumnInfo) (cluster col : Z) (acc : list ColumnRange) : M LE (list ColumnRange) :=
  do np <- list_frame;
  do l <- list_loop (page_item (bits_of cols col)) np [];
  do_ skip 8;
  do a <- here;
  do cs <- i32;
  ret (acc ++ [mkRange cluster col cs (w32 a) l]).
Definition cluster_item (cols : list ColumnInfo) (cluster : Z) (acc : list ColumnRange) : M LE (list ColumnRange) :=
  do nc <- list_frame;
  list_loop (column_pages cols cluster) nc acc.
Definition pagelist_walk (cols : list ColumnInfo) : M LE (Z * Z * list ColumnRange) :=
  do ns <- list_frame;
  do entries <- list_loop summary_item ns 0;
  do no <- list_frame;
  do rs <- list_loop (cluster_item cols) no [];
  ret (ns, entries, rs).
End cursor.

(** A walk of an envelope: past its first word and the eight bytes after it. *)
Definition walk {A} (m : M LE A) : Res (A * bool) :=
  let '(a, c) := m (le_start 16) in if le_oob c || le_stuck c then Oob else Good (a, bad c).

(** ** Envelopes *)

(** [verifyEnvelope]: [None] when it is good, else why it is not. *)
Definition verifyEnvelope (p : bytes) (expectType : Z) : option bytes :=
  if zlen p <? 16 then Some (bs "envelope too short")
  else
    let word := getLE 8 p 0 in
    let type := Z.land word 0xFFFF in
    let len := Z.shiftr word 16 in
    if negb (type =? expectType) then Some (bs "envelope type 0x" ++ UrlKey.to_string type ++ bs ", expected 0x" ++ UrlKey.to_string expectType)
    else if negb (len =? zlen p) then Some (bs "envelope length " ++ UrlKey.to_string len ++ bs " != " ++ UrlKey.to_string (zlen p))
    else if negb (Xxh.xxh3_64 (zsub p 0 (zlen p - 8)) =? getLE 8 p (zlen p - 8)) then Some (bs "envelope checksum mismatch")
    else None.
Definition sealEnvelope (p : bytes) : bytes :=
  if zlen p <? 16 then p else putLE 8 p (zlen p - 8) (Xxh.xxh3_64 (zsub p 0 (zlen p - 8))).

(** ** The file *)
Section file.
Context {W : Type} `{!Source W} `{CD : Codecs}.

Definition preadRange (off len fileSize : Z) : M W bytes :=
  if (len =? 0) || (fileSize <? off) || (fileSize -% off <? len) then ret []
  else
    do ok <- has off len;
    if negb ok then ret []
    else do r <- src_read len off; ret (default [] r).
Definition readEnvelope (off nbytes len fileSize : Z) : M W bytes :=
  do raw <- preadRange off nbytes fileSize;
  if bytes_eqb raw [] then ret []
  else if nbytes =? len then ret raw
  else
    let out := decompressFrames raw len in
    ret (if zlen out =? len then out else []).

Definition anchor_key (ntuple : bytes) (l : list KeyInfo) : KeyInfo :=
  foldl (fun best e => if bytes_eqb (cls e) (bs "ROOT::RNTuple") && (bytes_eqb ntuple [] || bytes_eqb (name e) ntuple) && (cycle best <=? cycle e) then e else best)
    no_key l.
(** The anchor's big-endian fields. *)
Definition read_anchor (ap : bytes) (k : KeyInfo) : RNTupleAnchor :=
  mkAnchor (beGet 2 ap 6) (beGet 2 ap 8) (beGet 2 ap 10) (beGet 2 ap 12)
    (beGet 8 ap 14) (beGet 8 ap 22) (beGet 8 ap 30) (beGet 8 ap 38) (beGet 8 ap 46) (beGet 8 ap 54) (beGet 8 ap 62)
    (if objlen k =? nbytes k - keylen k then w64 (seekkey k) +% keylen k else 0) (w32 (zlen ap)).

(** The last stage, from the three envelopes. *)
Definition with_pagelist (m : RNTupleMeta) (pl : bytes) : Res RNTupleMeta :=
  if bytes_eqb pl [] then Bad (bs "cannot read page-list envelope")
  else
    match verifyEnvelope pl kEnvelopePageList with
    | Some why => Bad (bs "page list " ++ why)
    | None =>
        match walk (pagelist_walk pl (columns m)) with
        | Bad w => Bad w | Oob => Oob
        | Good (_, true) => Bad (bs "page-list walk out of bounds")
        | Good ((ns, entries, rs), false) =>
            Good (mkMeta (m_fileSize m) (m_fend m) (m_headerSeekWidth m) (ntupleName m) (writer m) (anchor m) (columns m) rs entries ns
                    (header m) (footer m) pl (pageListLocatorOffset m) (pageListOffset m) (pageListNbytes m))
        end
    end.
Definition envelopes (m : RNTupleMeta) (hdr ftr : bytes) : Res (RNTupleMeta * Link) :=
  if bytes_eqb hdr [] || bytes_eqb ftr [] then Bad (bs "cannot read header/footer envelope")
  else
    match verifyEnvelope hdr kEnvelopeHeader with
    | Some why => Bad (bs "header " ++ why)
    | None =>
        match verifyEnvelope ftr kEnvelopeFooter with
        | Some why => Bad (bs "footer " ++ why)
        | None =>
            match walk (header_walk hdr) with
            | Bad w => Bad w | Oob => Oob
            | Good (_, true) => Bad (bs "header schema walk out of bounds")
            | Good ((nm, wr, cols), false) =>
                match walk (footer_walk ftr) with
                | Bad w => Bad w | Oob => Oob
                | Good (None, _) => Bad (bs "extended page-list locator unsupported")
                | Good (Some _, true) | Good (Some [], _) => Bad (bs "footer cluster-group walk out of bounds")
                | Good (Some [lk], false) =>
                    Good (mkMeta (m_fileSize m) (m_fend m) (m_headerSeekWidth m) nm wr (anchor m) cols [] 0 0 hdr ftr []
                            (w32 (lk_at lk)) (lk_off lk) (w32 (lk_nbytes lk)), lk)
                | Good (Some _, false) => Bad (bs "multiple cluster groups unsupported")
                end
            end
        end
    end.

Definition parseRNTupleFrom (cm : ContainerMeta) (ntuple : bytes) : M W (Res RNTupleMeta) :=
  if negb (bytes_eqb (c_error cm) []) then ret (Bad (c_error cm))
  else
    let fsz := w64 (fileSize cm) in
    let k := anchor_key ntuple (keys cm) in
    if nbytes k =? 0 then ret (Bad (bs "RNTuple '" ++ ntuple ++ bs "' not found in keys list"))
    else
      do ap <- @readKeyPayloadFrom W (source_reader 0) CD k;
      let ap := fst ap in
      if zlen ap <? 78 then ret (Bad (bs "anchor payload too short"))
      else
        let a := read_anchor ap k in
        if negb (Xxh.xxh3_64 (zsub ap 6 64) =? beGet 8 ap 70) then ret (Bad (bs "anchor checksum mismatch"))
        else
          do hdr <- readEnvelope (seekHeader a) (nbytesHeader a) (lenHeader a) fsz;
          do ftr <- readEnvelope (seekFooter a) (nbytesFooter a) (lenFooter a) fsz;
          match envelopes (mkMeta fsz (c_fend cm) (c_headerSeekWidth cm) [] [] a [] [] 0 0 [] [] [] 0 0 0) hdr ftr with
          | Bad w => ret (Bad w) | Oob => ret Oob
          | Good (m, lk) =>
              do pl <- readEnvelope (lk_off lk) (w32 (lk_nbytes lk)) (lk_len lk) fsz;
              ret (with_pagelist m pl)
          end.

Definition parseRNTuple (fileSize : Z) (ntuple : bytes) : M W (Res RNTupleMeta) :=
  do cm <- @parseContainerFrom W (source_reader fileSize);
  match cm with
  | Bad w => ret (Bad w) | Oob => ret Oob
  | Good cm => parseRNTupleFrom cm ntuple
  end.
End file.
End NTuple.
