(* ===== verification/RNTupleSafe.v ===== *)
(** * The walks of RNTuple envelopes (src/transpose/RNTupleMeta.cc)

    On any bytes a walk reads nothing outside its buffer and ends; what an accepted walk gives is
    what lies at the places its layout names. *)

From S2P Require Import Prelude UrlKey RootFile TreeMeta Xxh3 RNTupleMeta.
Local Open Scope u64_scope.

Module NTupleSafe.
Import Root Tree NTupleData NTuple.

(** ** The layout of a page list *)
Section layout.
Context (p : bytes).

(** A list frame of [n] items at [a]. *)
Definition list_at (a n : Z) : Prop :=
  a + 12 <= zlen p /\ n = getLE 4 p (a + 8) /\ exists sz, 0 < sz /\ signed 8 (getLE 8 p a) = - sz /\ a + sz <= zlen p.
(** The page record at [a]. *)
Definition page_of (bits a : Z) : PageInfo :=
  let nElem := signed 4 (getLE 4 p a) in
  let n := w32 (if nElem <? 0 then - nElem else nElem) in
  mkPage (getLE 8 p (a + 8)) (signed 4 (getLE 4 p (a + 4))) n (nElem <? 0) (if bits =? 0 then 0 else (n *% bits +% 7) / 8) (w32 a).
Fixpoint pages_at (bits a : Z) (l : list PageInfo) : Prop :=
  match l with
  | [] => True
  | pg :: l' => a + 16 <= zlen p /\ pg = page_of bits a /\ 0 <= pg_nbytes pg /\ pages_at bits (a + 16) l'
  end.
(** The pages of a column in a cluster: a list frame, the records, a first element, the setting. *)
Definition col_end (a : Z) (r : ColumnRange) : Z := a + 24 + 16 * zlen (pages r).
Definition col_at (bits cluster col a : Z) (r : ColumnRange) : Prop :=
  list_at a (zlen (pages r)) /\ pages_at bits (a + 12) (pages r) /\ col_end a r <= zlen p /\
  r = mkRange cluster col (signed 4 (getLE 4 p (col_end a r - 4))) (w32 (col_end a r - 4)) (pages r).
Fixpoint cols_at (cols : list ColumnInfo) (cluster col a : Z) (l : list ColumnRange) (e : Z) : Prop :=
  match l with
  | [] => a = e
  | r :: l' => col_at (bits_of cols col) cluster col a r /\ cols_at cols cluster (col + 1) (col_end a r) l' e
  end.
Fixpoint clusters_at (cols : list ColumnInfo) (cluster a : Z) (ls : list (list ColumnRange)) (e : Z) : Prop :=
  match ls with
  | [] => a = e
  | l :: ls' => list_at a (zlen l) /\ exists e', cols_at cols cluster 0 (a + 12) l e' /\ clusters_at cols (cluster + 1) e' ls' e
  end.
(** A frame of [sz] bytes at [a], whose header takes [h]. *)
Definition frame_at (a sz h : Z) : Prop :=
  0 < sz /\ a + sz <= zlen p /\ a + h <= zlen p /\
  ((signed 8 (getLE 8 p a) = sz /\ h = 8) \/ (signed 8 (getLE 8 p a) = - sz /\ h = 12)).
(** [k] cluster summaries from [a] on, whose entries add up from [n] to [n']; nothing is read from [lim] on. *)
Fixpoint summaries_at (lim : Z) (k : nat) (a n n' e : Z) : Prop :=
  match k with
  | O => a = e /\ n' = n
  | S k' => exists sz h, frame_at a sz h /\ a + h + 16 <= lim /\
      summaries_at lim k' (a + sz) (n +% getLE 8 p (a + h + 8)) n' e
  end.
(** A footer whose only group's locator is at [la]. *)
Definition footer_at (la : Z) : Prop :=
  exists sz h sz' h', frame_at 24 sz h /\ list_at (24 + sz) 1 /\ frame_at (36 + sz) sz' h' /\
    la = 36 + sz + h' + 28 /\ la + 12 <= zlen p /\ 0 <= signed 4 (getLE 4 p la).
(** A page list: the summaries up to [a], the clusters from there to [e]. *)
Definition pagelist_at (cols : list ColumnInfo) (lim ns entries a : Z) (ls : list (list ColumnRange)) (e : Z) : Prop :=
  list_at 16 ns /\ summaries_at lim (Z.to_nat ns) 28 0 entries a /\ list_at a (zlen ls) /\ clusters_at cols 0 (a + 12) ls e.
End layout.

(** ** Reasoning about the cursor *)
Section safe.
Context (p : bytes) (Hp : Forall is_byte p) (Hn : zlen p < 2 ^ 62).

Record inv (c : LE) : Prop := {
  i_oob : le_oob c = false; i_stuck : le_stuck c = false; i_at : 0 <= le_at c < p64; i_in : bad c = false -> le_at c <= zlen p }.
(** [Q] of what comes out, unless the cursor has failed by then. *)
Definition wp {A} (c : LE) (m : M LE A) (Q : A -> LE -> Prop) : Prop :=
  inv (snd (m c)) /\ (bad c = true -> bad (snd (m c)) = true) /\ (bad (snd (m c)) = false -> Q (fst (m c)) (snd (m c))).

Lemma le_bind {A B} c (m : M LE A) (k : A -> M LE B) (P : A -> LE -> Prop) Q : wp c m P ->
  (forall a c', inv c' -> (bad c' = false -> bad c = false /\ P a c') -> wp c' (k a) Q) -> wp c (mbind_ m k) Q.
Proof using.
  intros (I & F & H) K. unfold wp, mbind_. destruct (m c) as [a c'] eqn:E. cbn [fst snd] in *.
  destruct (K a c' I) as (I' & F' & H').
  { intros Hb. split; [|by apply H]. destruct (bad c); [by rewrite F in Hb|done]. }
  split; [done|]. split; [|done]. intros Hc. by apply F', F.
Qed.
Lemma le_ret {A} c (a : A) (Q : A -> LE -> Prop) : inv c -> (bad c = false -> Q a c) -> wp c (mret_ a) Q.
Proof using. intros I H. by split. Qed.
Lemma le_mono {A} c (m : M LE A) (P Q : A -> LE -> Prop) : wp c m P -> (forall a c', inv c' -> bad c' = false -> bad c = false /\ P a c' -> Q a c') -> wp c m Q.
Proof using.
  intros (I & F & H) K. split; [done|]. split; [done|]. intros Hb. apply K; [done|done|]. split; [|by apply H].
  destruct (bad c); [by rewrite F in Hb|done].
Qed.
(** The bind rule for a step whose result only matters to the rest. *)
Lemma le_here_ok c : inv c -> wp c here (fun a c' => a = le_at c /\ c' = c).
Proof using. intros I. by split. Qed.

Lemma set_bad_ok c (Q : unit -> LE -> Prop) : inv c -> wp c set_bad Q.
Proof using. intros []. split; [by split|by split]. Qed.
Lemma bad_if_ok c b : inv c -> wp c (bad_if b) (fun _ c' => b = false /\ c' = c).
Proof using. intros I. destruct b; [by apply set_bad_ok|by apply le_ret]. Qed.
Lemma le_jump_ok c a : inv c -> 0 <= a < p64 -> (bad c = false -> a <= zlen p) -> wp c (jump a) (fun _ c' => le_at c' = a).
Proof using. intros [] Ha Hi. split; [by split|by split]. Qed.

Lemma need_spec c k : inv c -> 0 <= k -> let '(ok, c') := need p k c in
  inv c' /\ (bad c = true -> bad c' = true) /\ (ok = true -> c' = c /\ bad c = false /\ le_at c + k <= zlen p) /\ (ok = false -> bad c' = true).
Proof using Hn.
  intros I Hk. pose proof (zlen_nonneg p). unfold need. destruct (bad c || _ || _) eqn:E.
  - destruct I. split; [by split|]. done.
  - b2p. split; [done|]. split; [done|]. split; [|done]. intros _. rewrite w64_small in * by lia. split; [done|]. split; [done|]. lia.
Qed.

(** The integer at the cursor. *)
Lemma le_get_ok c n : (n <= 8)%nat -> inv c -> wp c (get p n) (fun v c' => le_at c + Z.of_nat n <= zlen p /\ le_at c' = le_at c + Z.of_nat n /\ v = getLE n p (le_at c)).
Proof using Hn.
  intros Hn8 I. pose proof (need_spec c (Z.of_nat n) I ltac:(lia)) as N. unfold get, mbind_, wp. destruct (need p (Z.of_nat n) c) as [ok c'].
  destruct N as (I' & F & T & Fa). destruct ok.
  - destruct (T eq_refl) as (-> & Hb & L). pose proof (i_at c I) as A. cbn [look fst snd here jump mret_]. rewrite (proj2 (Z.leb_le 0 _)), (proj2 (Z.leb_le _ _)) by lia.
    cbn [andb fst snd le_at bad le_oob le_stuck]. rewrite w64_small by lia. destruct I. split; [split; cbn; done || lia|]. split; [done|]. intros _. by split.
  - cbn [mret_ fst snd]. split; [done|]. split; [done|]. by rewrite Fa.
Qed.
Lemma u16_ok c : inv c -> wp c (u16 p) (fun v c' => le_at c + 2 <= zlen p /\ le_at c' = le_at c + 2 /\ v = getLE 2 p (le_at c)).
Proof using Hn. apply (le_get_ok c 2). lia. Qed.
Lemma u32_ok c : inv c -> wp c (u32 p) (fun v c' => le_at c + 4 <= zlen p /\ le_at c' = le_at c + 4 /\ v = getLE 4 p (le_at c)).
Proof using Hn. apply (le_get_ok c 4). lia. Qed.
Lemma u64_ok c : inv c -> wp c (u64 p) (fun v c' => le_at c + 8 <= zlen p /\ le_at c' = le_at c + 8 /\ v = getLE 8 p (le_at c)).
Proof using Hn. apply (le_get_ok c 8). lia. Qed.
Lemma i32_ok c : inv c -> wp c (i32 p) (fun v c' => le_at c + 4 <= zlen p /\ le_at c' = le_at c + 4 /\ v = signed 4 (getLE 4 p (le_at c))).
Proof using Hn. intros I. eapply le_bind; [by apply u32_ok|]. intros v c' I' H. apply le_ret; [done|]. intros Hb. destruct (H Hb) as (_ & ? & ? & ->). done. Qed.
Lemma i64_ok c : inv c -> wp c (i64 p) (fun v c' => le_at c + 8 <= zlen p /\ le_at c' = le_at c + 8 /\ v = signed 8 (getLE 8 p (le_at c))).
Proof using Hn. intros I. eapply le_bind; [by apply u64_ok|]. intros v c' I' H. apply le_ret; [done|]. intros Hb. destruct (H Hb) as (_ & ? & ? & ->). done. Qed.
Lemma le_skip_ok c k : 0 <= k -> inv c -> wp c (skip p k) (fun _ c' => le_at c + k <= zlen p /\ le_at c' = le_at c + k).
Proof using Hn.
  intros Hk I. pose proof (zlen_nonneg p). unfold skip, wp. destruct (_ || _) eqn:E; cbn [fst snd bad le_at].
  - destruct I. split; [by split|]. done.
  - b2p. pose proof (i_at c I). rewrite (w64_small (zlen p - k)) in * by lia. rewrite (w64_small (le_at c + k)) by lia.
    destruct I. split; [split; cbn; done || lia|]. split; [done|]. intros _. lia.
Qed.
Lemma str_ok c : inv c -> wp c (str p) (fun _ c' => le_at c + 4 <= le_at c').
Proof using Hp Hn.
  intros I. eapply le_bind; [by apply u32_ok|]. intros len c1 I1 H1.
  assert (bad c1 = false -> 0 <= len) as Hlen.
  { intros Hb. destruct (H1 Hb) as (_ & _ & _ & ->). by apply (getLE_range 4). }
  destruct (bad c1) eqn:Eb.
  - unfold mbind_, wp, need. rewrite Eb. cbn. destruct I1. split; [by split|]. done.
  - destruct (H1 eq_refl) as (_ & L1 & A1 & _). pose proof (need_spec c1 len I1 (Hlen eq_refl)) as N.
    unfold mbind_, wp. destruct (need p len c1) as [ok c2]. destruct N as (I2 & F & T & Fa). destruct ok.
    + destruct (T eq_refl) as (-> & Hb & L). pose proof (i_at c1 I1) as A. specialize (Hlen eq_refl).
      cbn [look fst snd here jump mret_]. rewrite (proj2 (Z.leb_le 0 _)), (proj2 (Z.leb_le _ _)) by lia.
      cbn [andb fst snd le_at bad le_oob le_stuck]. rewrite w64_small by lia. destruct I1. split; [split; cbn; done || lia|]. split; [congruence|]. intros _. lia.
    + cbn [mret_ fst snd]. split; [done|]. split; [by rewrite Eb|]. by rewrite Fa.
Qed.

(** ** Frames *)
Definition frame_spec (a : Z) (f : Frame) (e : Z) : Prop :=
  frame_at p a (fsize f) (e - a) /\ (isList f = true -> e = a + 12 /\ items f = getLE 4 p (a + 8) /\ signed 8 (getLE 8 p a) = - fsize f).
Lemma get8_signed a : - p63 <= signed 8 (getLE 8 p a) < p63.
Proof using Hp. apply (signed_range 8); [lia|]. apply (getLE_range 8). done. Qed.

Lemma wp_here {B} c (k : Z -> M LE B) Q : wp c (k (le_at c)) Q -> wp c (mbind_ here k) Q.
Proof using. done. Qed.
Lemma wp_is_bad {B} c (k : bool -> M LE B) Q : wp c (k (bad c)) Q -> wp c (mbind_ is_bad k) Q.
Proof using. done. Qed.

Lemma readFrame_ok c : inv c -> wp c (readFrame p) (fun f c' => frame_spec (le_at c) f (le_at c')).
Proof using Hp Hn.
  intros I. pose proof (i_at c I) as A. unfold readFrame. apply wp_here.
  eapply le_bind; [by apply i64_ok|]. intros sz c1 I1 H1.
  eapply (le_bind _ _ _ (fun f c' => fsize f = Z.abs sz /\ ((isList f = false /\ 0 <= sz /\ c' = c1) \/
    (isList f = true /\ sz < 0 /\ items f = getLE 4 p (le_at c1) /\ le_at c' = le_at c1 + 4 /\ le_at c1 + 4 <= zlen p)))).
  - destruct (sz <? 0) eqn:E; b2p.
    + eapply le_bind; [by apply u32_ok|]. intros n c2 I2 H2. apply le_ret; [done|]. intros Hb. destruct (H2 Hb) as (Hb1 & L & Ea & ->).
      destruct (H1 Hb1) as (_ & _ & _ & Es). pose proof (get8_signed (le_at c)). cbn. rewrite w64_small by lia. split; [lia|]. right. done.
    + apply le_ret; [done|]. intros _. cbn. split; [lia|]. by left.
  - intros f c2 I2 H2. eapply le_bind; [by apply bad_if_ok|]. intros u c3 I3 H3. apply le_ret; [done|]. intros Hb.
    destruct (H3 Hb) as (Hb2 & E & ->). destruct (H2 Hb2) as (Hb1 & Ef & Hc). destruct (H1 Hb1) as (Hb0 & L1 & A1 & ->). b2p.
    pose proof (get8_signed (le_at c)). assert (le_at c <= zlen p) by (by apply (i_in c I)).
    rewrite w64_small in * by lia. unfold frame_spec, frame_at. destruct Hc as [(K & Hs & ->)|(K & Hs & Ei & Ea & El)].
    + rewrite K. split; [|done]. split; [lia|]. split; [lia|]. split; [lia|]. left. lia.
    + split; [|intros _; rewrite Ei, A1; split; [lia|split; [f_equal; lia|lia]]]. split; [lia|]. split; [lia|]. split; [lia|]. right. lia.
Qed.
Lemma leave_ok c start f : inv c -> 0 <= start -> (bad c = false -> start + fsize f <= zlen p /\ 0 <= fsize f) ->
  wp c (leave p start f) (fun _ c' => le_at c' = start + fsize f).
Proof using Hn.
  intros I Hs Hf. unfold leave. eapply le_bind; [apply (le_jump_ok c); [done|apply w64_range|]|].
  { intros Hb. destruct (Hf Hb). by rewrite w64_small by lia. }
  intros u c1 I1 H1. apply wp_here. eapply le_mono; [by apply bad_if_ok|]. intros u2 c2 I2 Hb (Hb1 & E & ->).
  destruct (H1 Hb1) as [Hb0 ->]. destruct (Hf Hb0). by rewrite w64_small by lia.
Qed.
Lemma list_frame_ok c : inv c -> wp c (list_frame p) (fun n c' => list_at p (le_at c) n /\ le_at c' = le_at c + 12).
Proof using Hp Hn.
  intros I. unfold list_frame. eapply le_bind; [by apply readFrame_ok|]. intros f c1 I1 H1. eapply le_bind; [by apply bad_if_ok|]. intros u c2 I2 H2.
  apply le_ret; [done|]. intros Hb. destruct (H2 Hb) as (Hb1 & E & ->). b2p. destruct (H1 Hb1) as (_ & (F1 & F2 & F3 & _) & K). destruct (K E) as (Ea & Ei & Es).
  split; [|done]. split; [lia|]. split; [done|]. exists (fsize f). done.
Qed.

(** ** Loops: every item moves on, so the bytes left are fuel enough *)
Lemma items_ok {A} (item : Z -> A -> M LE A) (J : Z -> A -> Z -> Prop) n fuel : forall i acc c,
  inv c -> i <= n \/ bad c = true -> (bad c = false -> J i acc (le_at c)) ->
  (forall i acc c, inv c -> i < n -> bad c = false -> J i acc (le_at c) -> wp c (item i acc) (fun acc' c' => le_at c < le_at c' /\ J (i + 1) acc' (le_at c'))) ->
  (0 < fuel)%nat -> (bad c = false -> zlen p - le_at c + 2 <= Z.of_nat fuel) ->
  wp c (items_loop fuel item i n acc) (fun acc' c' => J n acc' (le_at c')).
Proof using Hn.
  induction fuel as [|fuel IH]; intros i acc c I Hi HJ Hitem H0 Hf; [lia|]. cbn [items_loop]. apply wp_is_bad.
  destruct (negb (i <? n)) eqn:E; b2p.
  { cbn [orb]. apply le_ret; [done|]. intros Hb. destruct Hi as [Hi|Hi]; [|congruence]. assert (i = n) as -> by lia. by apply HJ. }
  destruct (bad c) eqn:Eb; cbn [orb]; [apply le_ret; [done|congruence]|].
  eapply le_bind; [by apply Hitem; [| |done|apply HJ]|]. intros acc1 c1 I1 H1.
  pose proof (i_in c I Eb). specialize (Hf eq_refl).
  apply IH; [done|left; lia|intros Hb; by apply H1|done| |].
  - lia.
  - intros Hb. destruct (H1 Hb) as (_ & ? & _). lia.
Qed.
Lemma list_loop_ok {A} (item : Z -> A -> M LE A) (J : Z -> A -> Z -> Prop) n acc c :
  inv c -> 0 <= n \/ bad c = true -> (bad c = false -> J 0 acc (le_at c)) ->
  (forall i acc c, inv c -> i < n -> bad c = false -> J i acc (le_at c) -> wp c (item i acc) (fun acc' c' => le_at c < le_at c' /\ J (i + 1) acc' (le_at c'))) ->
  wp c (list_loop p item n acc) (fun acc' c' => J n acc' (le_at c')).
Proof using Hn.
  intros I Hnn HJ Hitem. unfold list_loop. apply items_ok; [done|done|done|done|lia|]. intros _. pose proof (i_at c I). unfold zlen. lia.
Qed.

(** ** The header and the footer *)
Lemma field_item_ok i names c : inv c -> wp c (field_item p i names) (fun _ c' => le_at c < le_at c').
Proof using Hp Hn.
  intros I. pose proof (i_at c I) as A. unfold field_item. apply wp_here. eapply le_bind; [by apply readFrame_ok|]. intros f c1 I1 H1.
  eapply le_bind; [apply le_skip_ok; [lia|done]|]. intros u c2 I2 H2. eapply le_bind; [by apply str_ok|]. intros nm c3 I3 H3.
  assert (bad c3 = false -> frame_spec (le_at c) f (le_at c1)) as K.
  { intros Hb. destruct (H3 Hb) as (Hb2 & _). destruct (H2 Hb2) as (Hb1 & _). by apply H1. }
  eapply le_bind; [apply leave_ok; [done|lia|intros Hb; destruct (K Hb) as [(? & ? & _) _]; lia]|]. intros u2 c4 I4 H4.
  apply le_ret; [done|]. intros Hb. destruct (H4 Hb) as (Hb3 & ->). destruct (K Hb3) as [(? & _) _]. lia.
Qed.
Lemma column_item_ok names i cols c : inv c -> wp c (column_item p names i cols) (fun _ c' => le_at c < le_at c').
Proof using Hp Hn.
  intros I. pose proof (i_at c I) as A. unfold column_item. apply wp_here. eapply le_bind; [by apply readFrame_ok|]. intros f c1 I1 H1.
  eapply le_bind; [by apply u16_ok|]. intros ty c2 I2 H2. eapply le_bind; [by apply u16_ok|]. intros bits c3 I3 H3. eapply le_bind; [by apply u32_ok|]. intros id c4 I4 H4.
  assert (bad c4 = false -> frame_spec (le_at c) f (le_at c1)) as K.
  { intros Hb. destruct (H4 Hb) as (Hb3 & _). destruct (H3 Hb3) as (Hb2 & _). destruct (H2 Hb2) as (Hb1 & _). by apply H1. }
  eapply le_bind; [apply leave_ok; [done|lia|intros Hb; destruct (K Hb) as [(? & ? & _) _]; lia]|]. intros u2 c5 I5 H5.
  apply le_ret; [done|]. intros Hb. destruct (H5 Hb) as (Hb4 & ->). destruct (K Hb4) as [(? & _) _]. lia.
Qed.
Lemma count_nonneg c c1 n : (bad c1 = false -> bad c = false /\ list_at p (le_at c) n /\ le_at c1 = le_at c + 12) -> 0 <= n \/ bad c1 = true.
Proof using Hp. intros H. destruct (bad c1); [by right|]. left. destruct (H eq_refl) as (_ & (_ & -> & _) & _). by apply (getLE_range 4). Qed.

Lemma header_walk_ok c : inv c -> wp c (header_walk p) (fun _ _ => True).
Proof using Hp Hn.
  intros I0. unfold header_walk. eapply le_bind; [by apply str_ok|]. intros name cA IA _. eapply le_bind; [by apply str_ok|]. intros ds cB IB _.
  eapply le_bind; [by apply str_ok|]. intros wr c0 I _. eapply le_bind; [by apply list_frame_ok|]. intros nf c1 I1 H1.
  eapply le_bind; [apply (list_loop_ok _ (fun _ _ _ => True)); [done|exact (count_nonneg _ _ _ H1)|done|]|].
  { intros. eapply le_mono; [by apply field_item_ok|]. by intros ???? [_ ?]. }
  intros names c2 I2 _. eapply le_bind; [by apply list_frame_ok|]. intros nc c3 I3 H3.
  eapply le_bind; [apply (list_loop_ok _ (fun _ _ _ => True)); [done|exact (count_nonneg _ _ _ H3)|done|]|].
  { intros. eapply le_mono; [by apply column_item_ok|]. by intros ???? [_ ?]. }
  intros cols c4 I4 _. by apply le_ret.
Qed.

(** The locators found lie in the footer. *)
Definition link_ok (lk : Link) : Prop :=
  8 <= lk_at lk /\ lk_at lk + 12 <= zlen p /\ lk_len lk = getLE 8 p (lk_at lk - 8) /\ lk_nbytes lk = signed 4 (getLE 4 p (lk_at lk)) /\
  0 <= lk_nbytes lk /\ lk_off lk = getLE 8 p (lk_at lk + 4).
Definition links_ok (a0 i : Z) (acc : option (list Link)) (a : Z) : Prop :=
  exists l, acc = Some l /\ zlen l = i /\ Forall link_ok l /\
    match l with
    | [] => a = a0
    | lk :: _ => exists sz h, frame_at p a0 sz h /\ lk_at lk = a0 + h + 28
    end.
Lemma group_item_ok a0 i acc c : inv c -> 0 <= a0 -> (bad c = false -> links_ok a0 i acc (le_at c)) -> bad c = false ->
  wp c (group_item p i acc) (fun acc' c' => le_at c < le_at c' /\ links_ok a0 (i + 1) acc' (le_at c')).
Proof using Hp Hn.
  intros I Ha0 HJ Hb0. pose proof (i_at c I) as A. destruct (HJ Hb0) as (l & -> & Hl & Hlk & Hfst). unfold group_item. apply wp_here.
  eapply le_bind; [by apply readFrame_ok|]. intros f c1 I1 H1. eapply le_bind; [apply le_skip_ok; [lia|done]|]. intros u c2 I2 H2.
  eapply le_bind; [by apply u64_ok|]. intros len c3 I3 H3. apply wp_here. eapply le_bind; [by apply i32_ok|]. intros nb c4 I4 H4.
  eapply le_bind; [by apply u64_ok|]. intros off c5 I5 H5. destruct (nb <? 0) eqn:E; b2p.
  { unfold wp. cbn. destruct I5. split; [by split|]. done. }
  assert (bad c5 = false -> frame_spec (le_at c) f (le_at c1) /\ le_at c3 = le_at c1 + 28 /\ link_ok (mkLink len (le_at c3) nb off)) as K.
  { intros Hb. destruct (H5 Hb) as (Hb4 & L5 & A5 & ->). destruct (H4 Hb4) as (Hb3 & L4 & A4 & ->). destruct (H3 Hb3) as (Hb2 & L3 & A3 & ->).
    destruct (H2 Hb2) as (Hb1 & L2 & A2). destruct (H1 Hb1) as (_ & F). split; [done|]. split; [lia|]. unfold link_ok. cbn [lk_at lk_len lk_nbytes lk_off].
    destruct F as [(_ & _ & F) _]. pose proof (i_at c1 I1). split; [lia|]. split; [lia|]. split; [f_equal; lia|]. split; [done|]. split; [done|]. f_equal. lia. }
  eapply le_bind; [apply leave_ok; [done|lia|intros Hb; destruct (K Hb) as [[(? & ? & _) _] _]; lia]|]. intros u2 c6 I6 H6.
  apply le_ret; [done|]. intros Hb. destruct (H6 Hb) as (Hb5 & ->). destruct (K Hb5) as ([F _] & E3 & Lk). split; [destruct F; lia|].
  exists (l ++ [mkLink len (le_at c3) nb off]). split; [done|]. split; [rewrite zlen_app; change (zlen [_]) with 1; lia|]. split; [by apply Forall_app; split; [|apply Forall_singleton]|].
  destruct l as [|lk l]; [|exact Hfst]. cbn [app lk_at]. subst. exists (fsize f), (le_at c1 - le_at c). split; [done|]. lia.
Qed.
Lemma start_inv : 16 <= zlen p -> inv (le_start 16).
Proof using. intros. split; cbn; done || lia. Qed.
Lemma footer_walk_ok : 16 <= zlen p -> wp (le_start 16) (footer_walk p) (fun r _ => exists l, r = Some l /\ Forall link_ok l /\
  forall lk, l = [lk] -> footer_at p (lk_at lk)).
Proof using Hp Hn.
  intros H16. pose proof (start_inv H16) as I0. unfold footer_walk. eapply le_bind; [apply le_skip_ok; [lia|done]|]. intros u c1 I1 H1. apply wp_here.
  pose proof (i_at c1 I1) as A. eapply le_bind; [by apply readFrame_ok|]. intros f c2 I2 H2.
  eapply le_bind; [apply leave_ok; [done|lia|intros Hb; destruct (H2 Hb) as (_ & (? & ? & _) & _); lia]|]. intros u2 c3 I3 H3.
  eapply le_bind; [by apply list_frame_ok|]. intros n c4 I4 H4. destruct (i_at c4 I4) as [A4 _].
  eapply le_mono; [apply (list_loop_ok _ (links_ok (le_at c4)))|].
  - done.
  - exact (count_nonneg _ _ _ H4).
  - intros _. by exists [].
  - intros i acc c I Hi Hb HJ. by apply group_item_ok.
  - intros r c5 I5 Hb5 (Hb4 & l & -> & Hl & Hlk & Hfst). exists l. split; [done|]. split; [done|]. intros lk ->.
    destruct Hfst as (sz' & h' & F' & Ea). destruct (H4 Hb4) as (Hb3 & Lf & E4). destruct (H3 Hb3) as (Hb2 & E3). destruct (H2 Hb2) as (Hb1 & F & _).
    destruct (H1 Hb1) as (_ & _ & E1). cbn [le_at le_start] in E1. change (zlen [lk]) with 1 in Hl. subst n.
    apply Forall_singleton in Hlk as (_ & L1 & _ & L2 & L3 & _). rewrite E4, E3, E1 in *. change (16 + 8) with 24 in *. replace (24 + fsize f + 12) with (36 + fsize f) in * by lia.
    exists (fsize f), (le_at c2 - 24), sz', h'. split; [done|]. split; [done|]. split; [done|]. split; [done|]. split; [done|]. by rewrite <- L2.
Qed.

(** ** The page list *)
Lemma pages_at_snoc bits l pg : forall a, pages_at p bits a l -> a + 16 * zlen l + 16 <= zlen p -> pg = page_of p bits (a + 16 * zlen l) -> 0 <= pg_nbytes pg ->
  pages_at p bits a (l ++ [pg]).
Proof using.
  induction l as [|x l IH]; intros a; cbn [app pages_at].
  - change (zlen []) with 0. rewrite Z.mul_0_r, !Z.add_0_r. done.
  - rewrite !zlen_cons. intros (H1 & H2 & H3 & H4) H5 H6 H7. split; [done|]. split; [done|]. split; [done|].
    apply IH; [done|lia| |done]. rewrite H6. f_equal. lia.
Qed.
Lemma page_item_ok bits a0 i acc c : inv c -> 0 <= a0 -> pages_at p bits a0 acc -> zlen acc = i -> le_at c = a0 + 16 * i ->
  wp c (page_item p bits i acc) (fun acc' c' => le_at c < le_at c' /\ pages_at p bits a0 acc' /\ zlen acc' = i + 1 /\ le_at c' = a0 + 16 * (i + 1)).
Proof using Hp Hn.
  intros I Ha0 Hacc Hl Hat. unfold page_item. apply wp_here. eapply le_bind; [by apply i32_ok|]. intros nElem c1 I1 H1.
  eapply le_bind; [by apply i32_ok|]. intros size c2 I2 H2. destruct (size <? 0) eqn:E; b2p.
  { unfold wp. cbn. destruct I2. split; [by split|]. done. }
  eapply le_bind; [by apply u64_ok|]. intros off c3 I3 H3. apply le_ret; [done|]. intros Hb.
  destruct (H3 Hb) as (Hb2 & L3 & A3 & ->). destruct (H2 Hb2) as (Hb1 & L2 & A2 & ->). destruct (H1 Hb1) as (Hb0 & L1 & A1 & ->).
  pose proof (zlen_nonneg acc). split; [lia|]. split; [|split; [rewrite zlen_app; change (zlen [_]) with 1; lia|lia]].
  apply pages_at_snoc; [done|lia| |done]. rewrite Hl, <- Hat. unfold page_of. rewrite A2, A1. by replace (le_at c + 4 + 4) with (le_at c + 8) by lia.
Qed.
Lemma cols_at_snoc cols cl l r e : forall col a, cols_at p cols cl col a l e -> col_at p (bits_of cols (col + zlen l)) cl (col + zlen l) e r ->
  cols_at p cols cl col a (l ++ [r]) (col_end e r).
Proof using.
  induction l as [|x l IH]; intros col a; cbn [app cols_at].
  - change (zlen []) with 0. rewrite Z.add_0_r. intros -> H. done.
  - rewrite zlen_cons. intros [H1 H2] H3. split; [done|]. apply IH; [done|]. by replace (col + 1 + zlen l) with (col + (1 + zlen l)) by lia.
Qed.
Definition cols_ok (cols : list ColumnInfo) (cl a0 : Z) (acc0 : list ColumnRange) (i : Z) (acc : list ColumnRange) (a : Z) : Prop :=
  exists l, acc = acc0 ++ l /\ zlen l = i /\ cols_at p cols cl 0 a0 l a.
Lemma column_pages_ok cols cl a0 acc0 i acc c : inv c -> bad c = false -> cols_ok cols cl a0 acc0 i acc (le_at c) ->
  wp c (column_pages p cols cl i acc) (fun acc' c' => le_at c < le_at c' /\ cols_ok cols cl a0 acc0 (i + 1) acc' (le_at c')).
Proof using Hp Hn.
  intros I Hb0 (l & -> & Hl & Hc). pose proof (i_at c I) as A. unfold column_pages. eapply le_bind; [by apply list_frame_ok|]. intros np c1 I1 H1.
  eapply le_bind; [apply (list_loop_ok _ (fun k pgs a => pages_at p (bits_of cols i) (le_at c + 12) pgs /\ zlen pgs = k /\ a = le_at c + 12 + 16 * k)); [done|exact (count_nonneg _ _ _ H1)| |]|].
  - intros Hb. destruct (H1 Hb) as (_ & _ & ->). cbn. split; [done|]. split; [done|]. lia.
  - intros k pgs c2 I2 Hk Hb (P1 & P2 & P3). eapply le_mono; [apply (page_item_ok (bits_of cols i) (le_at c + 12)); [done|lia|done..]|]. intros pgs' c3 _ _ (_ & ? & ? & ? & ?). done.
  - intros pgs c2 I2 H2. eapply le_bind; [apply le_skip_ok; [lia|done]|]. intros u c3 I3 H3. apply wp_here. eapply le_bind; [by apply i32_ok|]. intros cs c4 I4 H4.
    apply le_ret; [done|]. intros Hb. destruct (H4 Hb) as (Hb3 & L4 & A4 & ->). destruct (H3 Hb3) as (Hb2 & L3 & A3). destruct (H2 Hb2) as (Hb1 & P1 & P2 & P3).
    destruct (H1 Hb1) as (_ & Lf & _). pose proof (zlen_nonneg pgs). set (r := mkRange cl i (signed 4 (getLE 4 p (le_at c3))) (w32 (le_at c3)) pgs).
    assert (le_at c4 = col_end (le_at c) r) as E4 by (unfold col_end, r; cbn [pages]; lia). assert (le_at c3 = col_end (le_at c) r - 4) as E3 by lia.
    split; [unfold col_end, r in E4; cbn [pages] in E4; lia|]. exists (l ++ [r]). split; [by rewrite app_assoc|]. split; [rewrite zlen_app; change (zlen [_]) with 1; lia|].
    rewrite E4. apply cols_at_snoc; [done|]. rewrite Z.add_0_l, Hl. split; [unfold r; cbn [pages]; by rewrite P2|]. split; [exact P1|]. split; [lia|]. unfold r at 1. by rewrite E3.
Qed.
Lemma clusters_at_snoc cols ls l e e' : forall cl a, clusters_at p cols cl a ls e -> list_at p e (zlen l) -> cols_at p cols (cl + zlen ls) 0 (e + 12) l e' ->
  clusters_at p cols cl a (ls ++ [l]) e'.
Proof using.
  induction ls as [|x ls IH]; intros cl a; cbn [app clusters_at].
  - change (zlen []) with 0. rewrite Z.add_0_r. intros -> H1 H2. split; [done|]. by exists e'.
  - rewrite zlen_cons. intros (H1 & e1 & H2 & H3) H4 H5. split; [done|]. exists e1. split; [done|]. apply IH; [done|done|]. by replace (cl + 1 + zlen ls) with (cl + (1 + zlen ls)) by lia.
Qed.
Definition clusters_ok (cols : list ColumnInfo) (a0 i : Z) (acc : list ColumnRange) (a : Z) : Prop :=
  exists ls, acc = concat ls /\ zlen ls = i /\ clusters_at p cols 0 a0 ls a.
Lemma cluster_item_ok cols a0 i acc c : inv c -> bad c = false -> clusters_ok cols a0 i acc (le_at c) ->
  wp c (cluster_item p cols i acc) (fun acc' c' => le_at c < le_at c' /\ clusters_ok cols a0 (i + 1) acc' (le_at c')).
Proof using Hp Hn.
  intros I Hb0 (ls & -> & Hl & Hc). unfold cluster_item. eapply le_bind; [by apply list_frame_ok|]. intros nc c1 I1 H1.
  eapply le_mono; [apply (list_loop_ok _ (fun k acc a => le_at c < a /\ cols_ok cols i (le_at c + 12) (concat ls) k acc a)); [done|exact (count_nonneg _ _ _ H1)| |]|].
  - intros Hb. destruct (H1 Hb) as (_ & _ & ->). split; [lia|]. exists []. by rewrite app_nil_r.
  - intros k acc c2 I2 Hk Hb (Hlt & HJ). eapply le_mono; [by apply column_pages_ok|]. intros acc' c3 _ _ (_ & ? & ?). split; [done|]. split; [lia|done].
  - intros acc c2 I2 Hb (Hb1 & Hlt & l & -> & Hll & Hcs). destruct (H1 Hb1) as (_ & Lf & _). split; [done|].
    exists (ls ++ [l]). split; [by rewrite concat_app; cbn; rewrite app_nil_r|]. split; [rewrite zlen_app; change (zlen [_]) with 1; lia|].
    eapply clusters_at_snoc; [done|by rewrite Hll|]. by rewrite Z.add_0_l, Hl.
Qed.
Lemma summaries_snoc lim k : forall a n n' e sz h, summaries_at p lim k a n n' e -> frame_at p e sz h -> e + h + 16 <= lim ->
  summaries_at p lim (S k) a n (n' +% getLE 8 p (e + h + 8)) (e + sz).
Proof using.
  induction k as [|k IH]; intros a n n' e sz h; cbn [summaries_at].
  - intros [-> ->] F L. by exists sz, h.
  - intros (sz1 & h1 & F1 & L1 & S1) F L. exists sz1, h1. split; [done|]. split; [done|]. by apply IH.
Qed.
Lemma summary_item_ok i n c : inv c -> 0 <= i -> bad c = false -> summaries_at p (zlen p) (Z.to_nat i) 28 0 n (le_at c) ->
  wp c (summary_item p i n) (fun n' c' => le_at c < le_at c' /\ summaries_at p (zlen p) (Z.to_nat (i + 1)) 28 0 n' (le_at c')).
Proof using Hp Hn.
  intros I Hi Hb0 HJ. pose proof (i_at c I) as A. unfold summary_item. apply wp_here. eapply le_bind; [by apply readFrame_ok|]. intros f c1 I1 H1.
  eapply le_bind; [apply le_skip_ok; [lia|done]|]. intros u c2 I2 H2. eapply le_bind; [by apply u64_ok|]. intros k c3 I3 H3.
  assert (bad c3 = false -> frame_spec (le_at c) f (le_at c1) /\ le_at c1 + 16 <= zlen p /\ k = getLE 8 p (le_at c1 + 8)) as K.
  { intros Hb. destruct (H3 Hb) as (Hb2 & L3 & A3 & ->). destruct (H2 Hb2) as (Hb1 & L2 & A2). destruct (H1 Hb1) as (_ & F). split; [done|]. split; [lia|]. f_equal. lia. }
  eapply le_bind; [apply leave_ok; [done|lia|intros Hb; destruct (K Hb) as [[(? & ? & _) _] _]; lia]|]. intros u2 c4 I4 H4.
  apply le_ret; [done|]. intros Hb. destruct (H4 Hb) as (Hb3 & ->). destruct (K Hb3) as ([F _] & L & ->). split; [destruct F; lia|].
  rewrite Z2Nat.inj_add by lia. rewrite Nat.add_1_r. replace (le_at c1 + 8) with (le_at c + (le_at c1 - le_at c) + 8) by lia.
  apply summaries_snoc; [done|done|lia].
Qed.
Lemma pagelist_walk_ok cols : 16 <= zlen p -> wp (le_start 16) (pagelist_walk p cols) (fun r c' =>
  exists a ls, snd r = concat ls /\ pagelist_at p cols (zlen p) (fst (fst r)) (snd (fst r)) a ls (le_at c')).
Proof using Hp Hn.
  intros H16. pose proof (start_inv H16) as I0. unfold pagelist_walk. eapply le_bind; [by apply list_frame_ok|]. intros ns c1 I1 H1.
  eapply le_bind; [apply (list_loop_ok _ (fun i n a => 0 <= i /\ summaries_at p (zlen p) (Z.to_nat i) 28 0 n a)); [done|exact (count_nonneg _ _ _ H1)| |]|].
  - intros Hb. destruct (H1 Hb) as (_ & _ & ->). done.
  - intros i n c I Hi Hb (Hi0 & HJ). eapply le_mono; [by apply summary_item_ok|]. intros n' c' _ _ (_ & ? & ?). split; [done|]. split; [lia|done].
  - intros entries c2 I2 H2. eapply le_bind; [by apply list_frame_ok|]. intros no c3 I3 H3.
    eapply le_bind; [apply (list_loop_ok _ (clusters_ok cols (le_at c2 + 12))); [done|exact (count_nonneg _ _ _ H3)| |]|].
    + intros Hb. destruct (H3 Hb) as (_ & _ & ->). by exists [].
    + intros i acc c I Hi Hb HJ. by apply cluster_item_ok.
    + intros rs c4 I4 H4. apply le_ret; [done|]. intros Hb. destruct (H4 Hb) as (Hb3 & ls & -> & Hl & Hc). destruct (H3 Hb3) as (Hb2 & L3 & _).
      destruct (H2 Hb2) as (Hb1 & _ & S). destruct (H1 Hb1) as (_ & L1 & _). exists (le_at c2), ls. split; [done|]. cbn [fst snd]. split; [done|]. split; [done|]. split; [by rewrite Hl|done].
Qed.
End safe.
End NTupleSafe.
