(* ===== verification/RNTupleSound.v ===== *)
(** * The parse of an RNTuple file, on any file and on one (src/transpose/RNTupleMeta.cc)

    Module NTupleParse: the stages of the parse, on any bytes. Module NTupleSound: the safety of the whole parse, and a
    small file, byte by byte - two columns in two clusters, a page compressed and shared, a page stored raw, one
    without a checksum - of which the parse reads what was written. *)

From S2P Require Import Prelude UrlKey RootFile TreeMeta TreeSafe TreeParse FillBasket TreeSound FillGeometry TransposeSound Xxh3 RNTupleMeta RNTupleSafe.
Local Open Scope u64_scope.

Module NTupleParse.
Import Root Tree TreeParse NTupleData NTuple NTupleSafe.

(** ** Sources *)
Class SourceLaws (W : Type) `{!Source W} := { src_bytes n off w d : fst (src_read n off w) = Some d -> zlen d = n /\ Forall is_byte d }.
Lemma source_laws {W} `{!Source W, !SourceLaws W} sz : - p63 <= sz < p63 -> @ReaderLaws W (source_reader sz).
Proof.
  intros Hs. split; [|done]. intros n off w d. cbn. destruct (off <? 0); [done|]. unfold mbind_. destruct (has off n w) as [[] w']; [|done]. apply src_bytes.
Qed.

(** A walk that accepts. *)
Lemma walk_wp {A} p (m : M LE A) Q : 16 <= zlen p -> wp p (le_start 16) m Q ->
  exists a b, walk m = Good (a, b) /\ (b = false -> exists c, Q a c /\ inv p c /\ bad c = false).
Proof.
  intros H16 (I & _ & H). unfold walk. destruct (m (le_start 16)) as [a c]. cbn [fst snd] in *. rewrite (i_oob p c I), (i_stuck p c I). cbn [orb].
  exists a, (bad c). split; [done|]. intros Hb. exists c. split; [by apply H|done].
Qed.

Lemma decode_len `{CD : Codecs} m0 m1 blob csize usize d : decode_frame m0 m1 blob csize usize = Some d -> zlen d = usize.
Proof.
  assert (forall r, exactly usize r = Some d -> zlen d = usize) as X.
  { intros [x|]; cbn; [|done]. destruct (zlen x =? usize) eqn:E; b2p; [by intros [= <-]|done]. }
  unfold decode_frame. destruct (_ && _); [apply X|]. destruct (_ && _); [apply X|]. destruct (_ && _); [apply X|]. destruct (_ && _); [|done].
  destruct have_lz4; [|done]. destruct (csize <? 8); [done|apply X].
Qed.
(** What decompression yields is at most what its payload can hold. *)
Lemma decompress_bound `{CD : Codecs} pay n : Forall is_byte pay -> 9 * zlen (decompressFrames pay n) <= 2 ^ 24 * zlen pay.
Proof.
  intros Hp. pose proof (zlen_nonneg pay). unfold decompressFrames.
  assert (forall fuel q out r, 0 <= q <= zlen pay -> 9 * zlen out <= 2 ^ 24 * q -> frames fuel pay n q out = Some r -> 9 * zlen r <= 2 ^ 24 * zlen pay) as F.
  { induction fuel as [|fuel IH]; intros q out r Hq Ho; cbn [frames]; [done|]. destruct (zlen out <? n).
    - destruct (Root.frame_at pay q) as [[d q']|] eqn:E; [|intros [= <-]; change (zlen []) with 0; lia]. pose proof (frame_at_next _ _ _ _ Hp E) as Hq'.
      intros Hr. apply (IH q' (out ++ d) r); [lia| |exact Hr]. rewrite zlen_app.
      assert (zlen d < 2 ^ 24) as Hd; [|lia]. unfold Root.frame_at in E. destruct (_ <? q + 9); [done|]. destruct (_ <? _); [done|].
      pose proof (get24_bound pay (q + 6) Hp) as B. destruct (decode_frame _ _ _ _ _) as [d'|] eqn:Ed; [|done]. injection E as <- _.
      apply decode_len in Ed. lia.
    - intros [= <-]. destruct (_ =? _); [lia|change (zlen []) with 0; lia]. }
  destruct (frames _ _ _ _ _) as [r|] eqn:E; [|change (zlen []) with 0; lia]. apply F in E; [done|lia|change (zlen []) with 0; lia].
Qed.

(** ** What an accepted file satisfies *)
Record env_ok (p : bytes) (ty : Z) : Prop := {
  ev_good : verifyEnvelope p ty = None; ev_bytes : Forall is_byte p; ev_len : zlen p < 2 ^ 62 }.
Lemma env_min p ty : verifyEnvelope p ty = None -> 16 <= zlen p.
Proof. unfold verifyEnvelope. destruct (zlen p <? 16) eqn:E; b2p; [done|lia]. Qed.

Record anchor_ok (a : RNTupleAnchor) : Prop := {
  an_key : exists ap k, a = read_anchor ap k /\ Forall is_byte ap /\ 78 <= zlen ap < p31 /\ Xxh.xxh3_64 (zsub ap 6 64) = beGet 8 ap 70 /\
    cls k = bs "ROOT::RNTuple" /\ 0 <= seekkey k /\ 0 <= keylen k <= nbytes k /\ nbytes k < p31 }.
Record meta_ok (m : RNTupleMeta) : Prop := {
  mo_anchor : anchor_ok (anchor m);
  mo_header : env_ok (header m) kEnvelopeHeader;
  mo_footer : env_ok (footer m) kEnvelopeFooter;
  mo_pageList : env_ok (pageList m) kEnvelopePageList;
  mo_link : exists la, footer_at (footer m) la /\ pageListLocatorOffset m = w32 la /\ pageListNbytes m = getLE 4 (footer m) la /\
    pageListOffset m = getLE 8 (footer m) (la + 4) /\ zlen (pageList m) = getLE 8 (footer m) (la - 8);
  mo_walk : exists a ls e, ranges m = concat ls /\ pagelist_at (pageList m) (columns m) (zlen (pageList m)) (nClusters m) (nEntries m) a ls e /\ e <= zlen (pageList m) }.

Section parse.
Context {W : Type} `{!Source W, !SourceLaws W} `{CD : Codecs} (HC : CodecBytes).

Lemma preadRange_ok off len fsz : 0 <= off -> fsz < p63 -> mwp (preadRange off len fsz) (fun r => Forall is_byte r /\ (r <> [] -> zlen r = len /\ off + len <= fsz)).
Proof using SourceLaws0.
  intros Ho Hf. unfold preadRange. destruct (_ || _) eqn:E; [by apply mwp_ret|]. b2p. rewrite w64_small in * by lia. apply (mwp_bind _ _ (fun _ => True)); [by intros w|]. intros ok _. destruct ok; cbn [negb]; [|by apply mwp_ret].
  apply (mwp_bind _ _ (fun r => forall d, r = Some d -> zlen d = len /\ Forall is_byte d)); [intros w d Hd; by apply src_bytes in Hd|].
  intros [d|] Hd; apply mwp_ret; cbn [default from_option id]; [|done]. destruct (Hd d eq_refl). split; [done|]. intros _. split; [done|lia].
Qed.
Lemma readEnvelope_ok off nb len fsz : 0 <= off -> fsz < 2 ^ 40 -> mwp (readEnvelope off nb len fsz) (fun r => Forall is_byte r /\ (r <> [] -> zlen r = len) /\ zlen r < 2 ^ 62).
Proof using SourceLaws0 HC.
  intros Ho Hf. unfold readEnvelope. eapply mwp_bind; [apply preadRange_ok; lia|]. intros raw [Hb Hr]. destruct (bytes_eqb raw []) eqn:E; [by apply mwp_ret|].
  apply bool_decide_eq_false in E. destruct (Hr E) as [Lr Le]. destruct (nb =? len) eqn:En; b2p; apply mwp_ret.
  - split; [done|]. split; [lia|lia].
  - destruct (_ =? len) eqn:El; b2p; [|done]. split; [by apply decompress_bytes|]. split; [done|]. pose proof (decompress_bound raw len Hb). lia.
Qed.

Lemma verify_env p ty : verifyEnvelope p ty = None -> Forall is_byte p -> zlen p < 2 ^ 62 -> env_ok p ty.
Proof using. by split. Qed.

(** The header and the footer. *)
Lemma envelopes_ok m0 hdr ftr : Forall is_byte hdr -> zlen hdr < 2 ^ 62 -> Forall is_byte ftr -> zlen ftr < 2 ^ 62 ->
  match envelopes m0 hdr ftr with
  | Oob => False | Bad _ => True
  | Good (m, lk) => env_ok hdr kEnvelopeHeader /\ env_ok ftr kEnvelopeFooter /\ footer_at ftr (lk_at lk) /\ link_ok ftr lk /\ exists nm wr cols,
      m = mkMeta (m_fileSize m0) (m_fend m0) (m_headerSeekWidth m0) nm wr (anchor m0) cols [] 0 0 hdr ftr [] (w32 (lk_at lk)) (lk_off lk) (w32 (lk_nbytes lk))
  end.
Proof using.
  intros Bh Lh Bf Lf. unfold envelopes. destruct (_ || _); [done|]. destruct (verifyEnvelope hdr _) as [w|] eqn:Eh; [done|]. destruct (verifyEnvelope ftr _) as [w|] eqn:Ef; [done|].
  pose proof (env_min _ _ Eh) as Mh. pose proof (env_min _ _ Ef) as Mf.
  destruct (walk_wp hdr (header_walk hdr) (fun _ _ => True) Mh (header_walk_ok hdr Bh Lh _ (start_inv hdr Mh))) as ([[nm wr] cols] & b & -> & _). destruct b; [done|].
  destruct (walk_wp ftr (footer_walk ftr) _ Mf (footer_walk_ok ftr Bf Lf Mf)) as (r & b & -> & H).
  destruct r as [[|lk [|lk2 l]]|]; [by destruct b| |by destruct b|by destruct b]. destruct b; [done|]. destruct (H eq_refl) as (c & (l & [= <-] & Hl & Hf) & _).
  split; [by split|]. split; [by split|]. split; [by apply Hf|]. split; [by inversion Hl|]. by exists nm, wr, cols.
Qed.
Lemma with_pagelist_ok m pl : Forall is_byte pl -> zlen pl < 2 ^ 62 ->
  match with_pagelist m pl with
  | Oob => False | Bad _ => True
  | Good m' => env_ok pl kEnvelopePageList /\ exists ns en rs a ls e, rs = concat ls /\ pagelist_at pl (columns m) (zlen pl) ns en a ls e /\ e <= zlen pl /\
      m' = mkMeta (m_fileSize m) (m_fend m) (m_headerSeekWidth m) (ntupleName m) (writer m) (anchor m) (columns m) rs en ns
                    (header m) (footer m) pl (pageListLocatorOffset m) (pageListOffset m) (pageListNbytes m)
  end.
Proof using.
  intros Bp Lp. unfold with_pagelist. destruct (bytes_eqb pl []); [done|]. destruct (verifyEnvelope pl _) as [w|] eqn:E; [done|]. pose proof (env_min _ _ E) as Mp.
  destruct (walk_wp pl (pagelist_walk pl (columns m)) _ Mp (pagelist_walk_ok pl Bp Lp (columns m) Mp)) as ([[ns en] rs] & b & -> & H). destruct b; [done|].
  destruct (H eq_refl) as (c & (a & ls & E1 & Hl) & I & Hb). cbn [fst snd] in *. split; [by split|]. exists ns, en, rs, a, ls, (le_at c).
  split; [done|]. split; [done|]. split; [by apply (i_in pl c I)|done].
Qed.

Lemma anchor_key_ok nt l : Forall key_ok l -> key_ok (anchor_key nt l) /\ (nbytes (anchor_key nt l) <> 0 -> cls (anchor_key nt l) = bs "ROOT::RNTuple").
Proof using.
  intros Hl. unfold anchor_key. set (step := fun best e => _). assert (forall k, key_ok k -> (nbytes k <> 0 -> cls k = bs "ROOT::RNTuple") ->
    key_ok (foldl step k l) /\ (nbytes (foldl step k l) <> 0 -> cls (foldl step k l) = bs "ROOT::RNTuple")) as G.
  { induction Hl as [|e l He _ IH]; intros k Hk Hn; [done|]. cbn [foldl]. apply IH; unfold step; destruct (_ && _) eqn:E; try done.
    intros _. apply andb_true_iff in E as [E _]. apply andb_true_iff in E as [E1 _]. by apply bool_decide_eq_true in E1. }
  apply G; [split; cbn; lia|done].
Qed.

Lemma parse_from_ok cm nt : Forall key_ok (keys cm) -> fileSize cm < 2 ^ 40 -> 0 <= fileSize cm ->
  mwp (parseRNTupleFrom cm nt) (fun r => match r with Good m => meta_ok m /\ m_fileSize m = fileSize cm | Bad _ => True | Oob => False end).
Proof using SourceLaws0 HC.
  intros Hk Hs H0. unfold parseRNTupleFrom. destruct (negb _); [by apply mwp_ret|]. destruct (anchor_key_ok nt (keys cm) Hk) as [K1 K2]. set (k := anchor_key nt (keys cm)) in *.
  destruct (nbytes k =? 0) eqn:E0; [by apply mwp_ret|]. b2p. specialize (K2 E0). destruct K1 as (K3 & K4 & K5 & K6). rewrite (w64_small (fileSize cm)) by lia.
  apply (mwp_bind _ _ (fun ou => Forall is_byte (fst ou) /\ (zlen (fst ou) < p31) /\ (fst ou <> [] -> 0 <= seekkey k /\ keylen k <= nbytes k))).
  { pose proof (source_laws (W := W) 0 ltac:(lia)) as SL. unfold readKeyPayloadFrom. destruct (_ || _)%bool eqn:Eg; [by apply mwp_ret|]. b2p.
    eapply mwp_bind; [apply (@mwp_rd W (source_reader 0) SL)|]. intros [rec|] Hr; [|by apply mwp_ret]. destruct (Hr rec eq_refl) as [Lr Br].
    apply mwp_ret. cbn [fst]. destruct (_ =? objlen k) eqn:El; [|by split; [|split]]. b2p. split; [destruct (objlen k =? _); [by apply Forall_zsub|by apply decompress_bytes]|]. split; [lia|]. intros _. lia. }
  intros [ap un] (Ba & La & Ka). cbn [fst] in *. destruct (zlen ap <? 78) eqn:E78; [by apply mwp_ret|]. b2p. destruct (negb (_ =? beGet 8 ap 70)) eqn:Eh; [by apply mwp_ret|]. b2p.
  assert (anchor_ok (read_anchor ap k)) as HA.
  { split. exists ap, k. destruct Ka as [? ?]; [intros ->; rewrite zlen_nil in E78; lia|]. split; [done|]. split; [done|]. split; [lia|]. split; [done|]. split; [done|]. split; [done|]. split; [lia|lia]. }
  pose proof (TreeSafe.beGet_range ap Ba 8 14) as R1. pose proof (TreeSafe.beGet_range ap Ba 8 38) as R2.
  eapply mwp_bind; [apply readEnvelope_ok; [cbn; lia|lia]|]. intros hdr (Bh & _ & Lh). eapply mwp_bind; [apply readEnvelope_ok; [cbn; lia|lia]|]. intros ftr (Bf & _ & Lf).
  match goal with |- context [envelopes ?m0 hdr ftr] => set (m00 := m0); pose proof (envelopes_ok m00 hdr ftr Bh Lh Bf Lf) as P end.
  destruct (envelopes m00 hdr ftr) as [w| |[m lk]]; [by apply mwp_ret|done|]. destruct P as (V1 & V2 & V3 & (L1 & L2 & L3 & L4 & L5 & L6) & nm & wr & cols & ->).
  pose proof (getLE_range 8 ftr (lk_at lk + 4) Bf). eapply mwp_bind; [apply readEnvelope_ok; [lia|lia]|]. intros pl (Bp & Ep & Lp). apply mwp_ret.
  match goal with |- context [with_pagelist ?m0 pl] => set (m01 := m0); pose proof (with_pagelist_ok m01 pl Bp Lp) as P end.
  destruct (with_pagelist m01 pl) as [w| |m'] eqn:EP; [done|done|]. destruct P as (V4 & ns & en & rs & a & ls & e & E1 & Pl & Le & ->). split; [|done].
  split; cbn [anchor header footer pageList pageListLocatorOffset pageListOffset pageListNbytes ranges columns nClusters nEntries m01 m00]; try done.
  - exists (lk_at lk). split; [done|]. split; [done|]. split; [|split; [done|]].
    + rewrite L4 in *. pose proof (getLE_range 4 ftr (lk_at lk) Bf) as R4. unfold signed in *. change (2 ^ (8 * Z.of_nat 4 - 1)) with p31 in *. change (2 ^ (8 * Z.of_nat 4)) with p32 in *.
      change (p8 ^ Z.of_nat 4) with p32 in *. destruct (_ <? p31) eqn:E31; b2p; [|lia]. by rewrite w32_small by lia.
    + rewrite <- L3. apply Ep. intros ->. unfold with_pagelist in EP. done.
  - by exists a, ls, e.
Qed.
End parse.
End NTupleParse.

Module NTupleSound.
Import Root Tree TreeSafe TreeParse NTupleData NTuple NTupleSafe NTupleParse.

Lemma rntuple_parse_ok {W : Type} `{!Source W, !SourceLaws W} `{CD : Codecs} (fileSize : Z) (nt : bytes) :
  0 <= fileSize < 2 ^ 40 -> CodecBytes -> mwp (parseRNTuple fileSize nt) (fun r => match r with Good m => meta_ok m /\ m_fileSize m = fileSize | Bad _ => True | Oob => False end).
Proof.
  intros Hs HC. unfold parseRNTuple. pose proof (source_laws (W := W) fileSize ltac:(lia)) as SL.
  eapply mwp_bind; [apply (container_ok_parse (Reader0 := source_reader fileSize))|]. intros [w| |cm] Hc; [done|done|]. destruct Hc as [C1 C2 _ _ _ _]. cbn in C1. eapply mwp_wand; [apply parse_from_ok; [done|done|lia|lia]|].
  intros [w| |m]; [done|done|]. intros [Hm ->]. split; [done|]. lia.
Qed.

(** C23: the parse of an RNTuple file is safe on whatever the network delivers. For any source that
    gives the bytes asked for or fails, at any moment, any decoders that write bytes and a file below
    2^40 bytes: no byte outside a buffer is read and every walk ends ([Oob] never comes out). A parse
    that is not refused has found an anchor of class ROOT::RNTuple whose 64 checksummed bytes match their
    XXH3, header, footer and page-list envelopes of the right type, length and checksum, and one page-list
    locator, in the footer, that is what is written there; its ranges are exactly the records of the page list: every page and
    every setting has its field at the offset kept for it, inside the page list. *)
Theorem rntuple_parse_safe {W : Type} `{!Source W, !SourceLaws W} `{CD : Codecs} (fileSize : Z) (nt : bytes) (w : W) :
  0 <= fileSize < 2 ^ 40 -> CodecBytes ->
  match fst (parseRNTuple fileSize nt w) with Good m => meta_ok m /\ m_fileSize m = fileSize | Bad _ => True | Oob => False end.
Proof. intros Hs HC. by apply rntuple_parse_ok. Qed.

(** ** A file *)
Definition env (ty : Z) (body : bytes) : bytes := sealEnvelope (le_bytes 8 ((24 + zlen body) * 65536 + ty) ++ zeros 8 ++ body ++ zeros 8).
Definition lstr (s : bytes) : bytes := le_bytes 4 (zlen s) ++ s.
Definition rec (body : bytes) : bytes := le_bytes 8 (8 + zlen body) ++ body.
Definition lst (l : list bytes) : bytes := le_bytes 8 (- (12 + zlen (concat l))) ++ le_bytes 4 (zlen l) ++ concat l.
Definition checked (page : bytes) : bytes := page ++ le_bytes 8 (Xxh.xxh3_64 page).
Definition page_rec (n size off : Z) : bytes := le_bytes 4 n ++ le_bytes 4 size ++ le_bytes 8 off.
(** The setting and the first element lie inside the list's frame, after its items. *)
Definition col_rec (l : list bytes) (setting : Z) : bytes :=
  le_bytes 8 (- (24 + zlen (concat l))) ++ le_bytes 4 (zlen l) ++ concat l ++ le_bytes 8 0 ++ le_bytes 4 setting.

Definition d_header : bytes := env 1 (lstr (bs "n") ++ lstr [] ++ lstr (bs "w") ++
  lst [rec (zeros 16 ++ lstr (bs "x")); rec (zeros 16 ++ lstr (bs "y"))] ++ lst [rec (le_bytes 2 9 ++ le_bytes 2 32 ++ le_bytes 4 0); rec (le_bytes 2 1 ++ le_bytes 2 8 ++ le_bytes 4 1)]).
Definition d_keys_at : Z := 320.
Definition d_kl : Z := 45.
Definition d_anchor_at : Z := d_keys_at + 29 + 4 + d_kl.
Definition d_header_at : Z := d_anchor_at + d_kl + 78.
Definition d_pages_at : Z := d_header_at + zlen d_header.
(** A hundred zeros in a ZLIB frame, four bytes raw, two bytes raw without a checksum. *)
Definition d_pages : bytes := checked [90; 76; 1; 1; 0; 0; 100; 0; 0; 7] ++ checked [1; 2; 3; 4] ++ [5; 6].
Definition d_list_at : Z := d_pages_at + zlen d_pages.
Definition d_list : bytes := env 3 (lst [rec (zeros 8 ++ le_bytes 8 26); rec (zeros 8 ++ le_bytes 8 2)] ++
  lst [lst [col_rec [page_rec (-25) 10 d_pages_at; page_rec (-1) 4 (d_pages_at + 18)] 101; col_rec [page_rec (-100) 10 d_pages_at] 101];
       lst [col_rec [] 0; col_rec [page_rec 2 2 (d_pages_at + 30)] 207]]).
Definition d_footer_at : Z := d_list_at + zlen d_list.
Definition d_footer : bytes := env 2 (zeros 8 ++ rec [] ++
  lst [rec (zeros 20 ++ le_bytes 8 (zlen d_list) ++ le_bytes 4 (zlen d_list) ++ le_bytes 8 d_list_at)]).
Definition d_fend : Z := d_footer_at + zlen d_footer.
Definition d_window : bytes := be_bytes 2 1 ++ zeros 6 ++ be_bytes 8 d_header_at ++ be_bytes 8 (zlen d_header) ++ be_bytes 8 (zlen d_header) ++
  be_bytes 8 d_footer_at ++ be_bytes 8 (zlen d_footer) ++ be_bytes 8 (zlen d_footer) ++ be_bytes 8 1000.
Definition d_anchor : bytes := zeros 6 ++ d_window ++ be_bytes 8 (Xxh.xxh3_64 d_window).
Definition d_key : bytes := TreeSound.a_key (d_kl + 78) 78 d_kl 1 d_anchor_at (bs "ROOT::RNTuple") (bs "nt") (bs "t").
Definition d_keys : bytes := TreeSound.a_key (29 + 4 + d_kl) (4 + d_kl) 29 1 d_keys_at [] [] [] ++ be_bytes 4 1 ++ d_key.
Definition d_file : bytes :=
  bs "root" ++ be_bytes 4 62400 ++ be_bytes 4 100 ++ be_bytes 4 d_fend ++ zeros 84 ++ TreeSound.a_dir d_keys_at ++ zeros (320 - 100 - zlen (TreeSound.a_dir d_keys_at)) ++
  d_keys ++ d_key ++ d_anchor ++ d_header ++ d_pages ++ d_list ++ d_footer.

#[export] Instance mem_source_laws f : Forall is_byte f -> SourceLaws unit (Source0 := TransSound.mem_source f).
Proof.
  intros Hf. split. intros n off w d. cbn. destruct (_ && _)%bool eqn:E; [|done]. b2p. intros [= <-]. split; [apply zlen_zsub; lia|by apply Forall_zsub].
Qed.
Lemma d_file_bytes : Forall is_byte d_file.
Proof. apply FillGeometry.demo_is_byte. vm_compute. reflexivity. Qed.
Definition d_meta : RNTupleMeta := Eval vm_compute in
  match fst (parseRNTuple (CD := TreeSound.no_codecs) (Source0 := TransSound.mem_source d_file) (zlen d_file) (bs "nt") tt) with Good m => m | _ => mkMeta 0 0 0 [] [] (read_anchor [] no_key) [] [] 0 0 [] [] [] 0 0 0 end.
Lemma d_parse : fst (parseRNTuple (CD := TreeSound.no_codecs) (Source0 := TransSound.mem_source d_file) (zlen d_file) (bs "nt") tt) = Good d_meta.
Proof. vm_compute. reflexivity. Qed.
Lemma rntuple_parse_safe_witness :
  exists m, fst (parseRNTuple (CD := TreeSound.no_codecs) (Source0 := TransSound.mem_source d_file) (zlen d_file) (bs "nt") tt) = Good m /\
    meta_ok m /\ m_fileSize m = 1085 /\ pg_offset <$> concat (pages <$> ranges m) = [673; 691; 673; 703] /\ fieldName <$> columns m = [bs "x"; bs "y"].
Proof.
  pose proof (rntuple_parse_safe (Source0 := TransSound.mem_source d_file) (SourceLaws0 := mem_source_laws d_file d_file_bytes) (CD := TreeSound.no_codecs)
    (zlen d_file) (bs "nt") tt ltac:(vm_compute; split; congruence) TreeSound.no_codecs_bytes) as P.
  rewrite d_parse in P. destruct P as [P1 P2]. exists d_meta. split; [exact d_parse|]. split; [exact P1|]. split; [exact P2|]. split; vm_compute; reflexivity.
Defined.
End NTupleSound.
