(* ===== verification/RNTuplePatch.v ===== *)
(** * Page lists and footers that hold a layout, and a page list with fields patched (src/transpose/RNTupleMeta.cc, RNTupleRewrite.cc)

    Module NForward is the converse of RNTupleSafe.v: where a footer or a page list has its layout, the walk accepts it and
    gives what lies there. Module NPatch: where the records and settings of a page list lie, and that a page list that
    differs from another in them only has the same layout, with the pages and settings that are there now. *)

From S2P Require Import Prelude UrlKey RootFile TreeMeta Xxh3 RNTupleMeta RNTupleSafe.
Local Open Scope u64_scope.

Module NForward.
Import Root Tree NTupleData NTuple NTupleSafe.

Lemma w64_mod_add a b : (w64 a) +% b = a +% b.
Proof. unfold w64. apply Zplus_mod_idemp_l. Qed.

Section forward.
Context (p : bytes) (Hp : Forall is_byte p) (Hn : zlen p < 2 ^ 62).

Lemma get_fwd n a : (n <= 8)%nat -> 0 <= a -> a + Z.of_nat n <= zlen p -> get p n (le_start a) = (getLE n p a, le_start (a + Z.of_nat n)).
Proof using Hn.
  intros H8 Ha Hl. unfold get, mbind_, need. cbn [bad le_start orb le_at]. rewrite (proj2 (Z.ltb_ge _ _)), w64_small, (proj2 (Z.ltb_ge _ _)) by lia.
  cbn [orb look fst snd here jump mret_ le_at le_start]. rewrite (proj2 (Z.leb_le 0 _)), (proj2 (Z.leb_le _ _)) by lia. cbn. by rewrite w64_small by lia.
Qed.
Lemma u32_fwd a : 0 <= a -> a + 4 <= zlen p -> u32 p (le_start a) = (getLE 4 p a, le_start (a + 4)).
Proof using Hn. apply (get_fwd 4). lia. Qed.
Lemma u64_fwd a : 0 <= a -> a + 8 <= zlen p -> u64 p (le_start a) = (getLE 8 p a, le_start (a + 8)).
Proof using Hn. apply (get_fwd 8). lia. Qed.
Lemma i32_fwd a : 0 <= a -> a + 4 <= zlen p -> i32 p (le_start a) = (signed 4 (getLE 4 p a), le_start (a + 4)).
Proof using Hn. intros. unfold i32, mbind_. by rewrite u32_fwd. Qed.
Lemma i64_fwd a : 0 <= a -> a + 8 <= zlen p -> i64 p (le_start a) = (signed 8 (getLE 8 p a), le_start (a + 8)).
Proof using Hn. intros. unfold i64, mbind_. by rewrite u64_fwd. Qed.
Lemma skip_fwd a k : 0 <= a -> 0 <= k -> a + k <= zlen p -> skip p k (le_start a) = (tt, le_start (a + k)).
Proof using Hn.
  intros. unfold skip. cbn [le_at le_start]. rewrite (proj2 (Z.ltb_ge _ _)), w64_small, (proj2 (Z.ltb_ge _ _)), w64_small by lia. done.
Qed.

Lemma readFrame_fwd a sz h : 0 <= a -> frame_at p a sz h ->
  readFrame p (le_start a) = (mkFrame (h =? 12) sz (if h =? 12 then getLE 4 p (a + 8) else 1), le_start (a + h)).
Proof using Hp Hn.
  intros Ha (H1 & H2 & H3 & H4). unfold readFrame, mbind_. cbn [here le_at le_start].
  destruct H4 as [[Es ->]|[Es ->]]; rewrite i64_fwd, Es by lia.
  - rewrite (proj2 (Z.ltb_ge _ _)) by lia. cbn. rewrite w64_small by lia. rewrite (proj2 (Z.eqb_neq _ _)), (proj2 (Z.ltb_ge _ _)) by lia. done.
  - rewrite (proj2 (Z.ltb_lt _ _)) by lia. rewrite u32_fwd by lia. cbn [fsize mret_]. rewrite (w64_small (- - sz)) by lia. replace (- - sz) with sz by lia.
    rewrite (proj2 (Z.eqb_neq _ _)), w64_small, (proj2 (Z.ltb_ge _ _)) by lia. cbn. by replace (a + 8 + 4) with (a + 12) by lia.
Qed.
Lemma list_frame_fwd a n : 0 <= a -> list_at p a n -> list_frame p (le_start a) = (n, le_start (a + 12)).
Proof using Hp Hn.
  intros Ha (H1 & -> & sz & H2 & H3 & H4). unfold list_frame, mbind_. rewrite (readFrame_fwd a sz 12) by (done || (split; [lia|]; split; [lia|]; split; [lia|by right])). done.
Qed.
Lemma leave_fwd start f a : 0 <= start -> 0 <= fsize f -> start + fsize f <= zlen p -> leave p start f (le_start a) = (tt, le_start (start + fsize f)).
Proof using Hn. intros. unfold leave, mbind_. cbn. rewrite w64_small by lia. rewrite (proj2 (Z.ltb_ge _ _)) by lia. done. Qed.

(** ** The page list *)
Lemma page_item_fwd bits i acc a : 0 <= a -> a + 16 <= zlen p -> 0 <= pg_nbytes (page_of p bits a) ->
  page_item p bits i acc (le_start a) = (acc ++ [page_of p bits a], le_start (a + 16)).
Proof using Hn.
  intros Ha Hl H0. cbn in H0. unfold page_item, mbind_. cbn [here le_at le_start]. rewrite i32_fwd, i32_fwd by lia. rewrite (proj2 (Z.ltb_ge _ _)) by lia.
  rewrite u64_fwd by lia. cbn [mret_]. replace (a + 4 + 4) with (a + 8) by lia. by replace (a + 8 + 8) with (a + 16) by lia.
Qed.
Lemma pages_fwd bits l : forall fuel a i acc, 0 <= a -> pages_at p bits a l -> zlen l < Z.of_nat fuel ->
  items_loop fuel (page_item p bits) i (i + zlen l) acc (le_start a) = (acc ++ l, le_start (a + 16 * zlen l)).
Proof using Hn.
  induction l as [|pg l IH]; intros fuel a i acc Ha Hl Hf; (destruct fuel as [|fuel]; [unfold zlen in Hf; lia|]); cbn [items_loop]; unfold mbind_ at 1; cbn [is_bad bad le_start].
  - change (zlen []) with 0. rewrite Z.add_0_r, (Z.ltb_irrefl i), app_nil_r. cbn. do 2 f_equal. lia.
  - destruct Hl as (H1 & H2 & H3 & H4). rewrite zlen_cons in *. pose proof (zlen_nonneg l). rewrite (proj2 (Z.ltb_lt _ _)) by lia. cbn [negb orb]. unfold mbind_.
    rewrite page_item_fwd by (done || by rewrite <- H2). replace (i + (1 + zlen l)) with ((i + 1) + zlen l) by lia. rewrite IH by (done || lia).
    rewrite <- H2, <- app_assoc. cbn [app]. do 2 f_equal. lia.
Qed.
Lemma column_fwd cols cl col acc a r : 0 <= a -> col_at p (bits_of cols col) cl col a r ->
  column_pages p cols cl col acc (le_start a) = (acc ++ [r], le_start (col_end a r)).
Proof using Hp Hn.
  intros Ha (H1 & H2 & H3 & H4). destruct r as [c0 c1 cs co pgs]. unfold col_end in *. cbn [pages] in *. injection H4 as -> -> -> ->. pose proof (zlen_nonneg pgs).
  unfold column_pages, mbind_. rewrite (list_frame_fwd a (zlen pgs)) by done.
  unfold list_loop. rewrite <- (Z.add_0_l (zlen pgs)) at 1. rewrite pages_fwd; [|lia|done|unfold zlen in *; lia].
  rewrite skip_fwd by lia. cbn [here le_at le_start]. rewrite i32_fwd by lia. cbn [mret_ app].
  replace (a + 12 + 16 * zlen pgs + 8) with (a + 24 + 16 * zlen pgs - 4) by lia. by replace (a + 24 + 16 * zlen pgs - 4 + 4) with (a + 24 + 16 * zlen pgs) by lia.
Qed.
Lemma col_end_ge a r : a + 24 <= col_end a r.
Proof using. pose proof (zlen_nonneg (pages r)). unfold col_end. lia. Qed.
Lemma cols_fwd cols cl l : forall fuel a col acc e, 0 <= a -> cols_at p cols cl col a l e -> zlen l < Z.of_nat fuel ->
  items_loop fuel (column_pages p cols cl) col (col + zlen l) acc (le_start a) = (acc ++ l, le_start e).
Proof using Hp Hn.
  induction l as [|r l IH]; intros fuel a col acc e Ha Hl Hf; (destruct fuel as [|fuel]; [unfold zlen in Hf; lia|]); cbn [items_loop]; unfold mbind_ at 1; cbn [is_bad bad le_start].
  - cbn in Hl. subst e. change (zlen []) with 0. rewrite Z.add_0_r, (Z.ltb_irrefl col), app_nil_r. done.
  - destruct Hl as (H1 & H2). rewrite zlen_cons in *. pose proof (zlen_nonneg l). rewrite (proj2 (Z.ltb_lt _ _)) by lia. cbn [negb orb]. unfold mbind_.
    rewrite (column_fwd _ _ _ _ _ r) by done. pose proof (col_end_ge a r). replace (col + (1 + zlen l)) with ((col + 1) + zlen l) by lia. rewrite (IH _ _ _ _ e) by (done || lia).
    by rewrite <- app_assoc.
Qed.
Lemma cols_len cols cl l : forall col a e, cols_at p cols cl col a l e -> a + 24 * zlen l <= e /\ (a <= zlen p -> e <= zlen p).
Proof using.
  induction l as [|r l IH]; intros col a e H; [cbn in H; subst e; change (zlen []) with 0; lia|]. destruct H as [(_ & _ & Hr & _) H]. apply IH in H as [H1 H2]. pose proof (col_end_ge a r). rewrite zlen_cons. split; [lia|]. intros _. by apply H2.
Qed.
Lemma clusters_len cols ls : forall cl a e, clusters_at p cols cl a ls e -> a + 12 * zlen ls <= e /\ (a <= zlen p -> e <= zlen p).
Proof using.
  induction ls as [|l ls IH]; intros cl a e H; [cbn in H; subst e; change (zlen []) with 0; lia|]. destruct H as ((Ha & _) & e' & Hc & H). apply IH in H. apply cols_len in Hc. rewrite zlen_cons.
  pose proof (zlen_nonneg l). split; [lia|]. intros _. apply H, Hc. lia.
Qed.
Lemma clusters_fwd cols ls : forall fuel a cl acc e, 0 <= a -> clusters_at p cols cl a ls e -> zlen ls < Z.of_nat fuel ->
  items_loop fuel (cluster_item p cols) cl (cl + zlen ls) acc (le_start a) = (acc ++ concat ls, le_start e).
Proof using Hp Hn.
  induction ls as [|l ls IH]; intros fuel a cl acc e Ha Hl Hf; (destruct fuel as [|fuel]; [unfold zlen in Hf; lia|]); cbn [items_loop]; unfold mbind_ at 1; cbn [is_bad bad le_start].
  - cbn in Hl. subst e. change (zlen []) with 0. rewrite Z.add_0_r, (Z.ltb_irrefl cl). cbn. by rewrite app_nil_r.
  - destruct Hl as (H1 & e' & H2 & H3). rewrite zlen_cons in *. pose proof (zlen_nonneg ls). rewrite (proj2 (Z.ltb_lt _ _)) by lia. cbn [negb orb]. unfold mbind_.
    pose proof (cols_len _ _ _ _ _ _ H2) as [L1 L2]. pose proof (zlen_nonneg l).
    assert (cluster_item p cols cl acc (le_start a) = (acc ++ l, le_start e')) as ->.
    { unfold cluster_item, mbind_. rewrite (list_frame_fwd a (zlen l)) by done. unfold list_loop. rewrite <- (Z.add_0_l (zlen l)) at 1. destruct H1 as (H1 & _).
      apply cols_fwd; [lia|done|]. specialize (L2 ltac:(lia)). unfold zlen in *. lia. }
    replace (cl + (1 + zlen ls)) with ((cl + 1) + zlen ls) by lia. rewrite (IH _ _ _ _ e) by (done || lia). cbn [concat]. by rewrite app_assoc.
Qed.
Lemma summaries_len lim k : forall a n n' e, summaries_at p lim k a n n' e -> a + Z.of_nat k <= e /\ (a <= zlen p -> e <= zlen p).
Proof using.
  induction k as [|k IH]; intros a n n' e; cbn [summaries_at]; [intros [-> _]; lia|]. intros (sz & h & (F1 & F2 & _) & _ & H). apply IH in H as [H1 H2]. split; [lia|]. intros _. by apply H2.
Qed.
Lemma summaries_fwd lim k : forall fuel a i n n' e, 0 <= a -> lim <= zlen p -> summaries_at p lim k a n n' e -> (k < fuel)%nat ->
  items_loop fuel (summary_item p) i (i + Z.of_nat k) n (le_start a) = (n', le_start e).
Proof using Hp Hn.
  induction k as [|k IH]; intros fuel a i n n' e Ha Hlim Hl Hf; (destruct fuel as [|fuel]; [lia|]); cbn [items_loop]; unfold mbind_ at 1; cbn [is_bad bad le_start].
  - destruct Hl as [-> ->]. rewrite Z.add_0_r, (Z.ltb_irrefl i). done.
  - destruct Hl as (sz & h & F & L & S). rewrite (proj2 (Z.ltb_lt _ _)) by lia. cbn [negb orb]. unfold mbind_. pose proof F as (F1 & F2 & F3 & F4).
    assert (0 <= h) as Hh by (destruct F4 as [[_ ->]|[_ ->]]; lia).
    assert (summary_item p i n (le_start a) = (n +% getLE 8 p (a + h + 8), le_start (a + sz))) as ->.
    { unfold summary_item, mbind_. cbn [here le_at le_start]. rewrite (readFrame_fwd a sz h) by done. rewrite skip_fwd, u64_fwd by lia. rewrite leave_fwd by (cbn; lia). done. }
    replace (i + Z.of_nat (Datatypes.S k)) with ((i + 1) + Z.of_nat k) by lia. apply IH; [lia|done|done|lia].
Qed.
(** The walk of a page list with its layout. *)
Lemma pagelist_fwd cols lim ns entries a ls e : lim <= zlen p -> pagelist_at p cols lim ns entries a ls e ->
  walk (pagelist_walk p cols) = Good (ns, entries, concat ls, false).
Proof using Hp Hn.
  intros Hlim (H1 & H2 & H3 & H4). pose proof H1 as (L1 & Ens & _). pose proof (getLE_range 4 p (16 + 8) Hp) as R. rewrite <- Ens in R. destruct H3 as (L3 & H3).
  pose proof (summaries_len _ _ _ _ _ _ H2) as [S1 S2]. specialize (S2 ltac:(lia)). pose proof (clusters_len _ _ _ _ _ H4) as [C1 C2]. specialize (C2 L3).
  unfold walk, pagelist_walk, mbind_. rewrite (list_frame_fwd 16 ns) by (done || lia). change (16 + 12) with 28.
  unfold list_loop. assert (items_loop (S (S (length p))) (summary_item p) 0 ns 0 (le_start 28) = (entries, le_start a)) as ->.
  { replace ns with (0 + Z.of_nat (Z.to_nat ns)) at 1 by lia. eapply summaries_fwd; [lia|exact Hlim|done|unfold zlen in *; lia]. }
  rewrite (list_frame_fwd a (zlen ls)) by (done || lia).
  assert (items_loop (S (S (length p))) (cluster_item p cols) 0 (zlen ls) [] (le_start (a + 12)) = ([] ++ concat ls, le_start e)) as ->; [|done].
  rewrite <- (Z.add_0_l (zlen ls)) at 1. apply clusters_fwd; [lia|done|unfold zlen in *; lia].
Qed.

(** ** The footer *)
Lemma footer_fwd la : footer_at p la -> walk (footer_walk p) = Good (Some [mkLink (getLE 8 p (la - 8)) la (signed 4 (getLE 4 p la)) (getLE 8 p (la + 4))], false).
Proof using Hp Hn.
  intros (sz & h & sz' & h' & F & L & F' & -> & Hl & H0). pose proof F as (F1 & F2 & F3 & F4). pose proof F' as (G1 & G2 & G3 & G4). pose proof L as (L1 & _).
  assert (0 <= h' <= 12) as Hh by (destruct G4 as [[_ ->]|[_ ->]]; lia).
  unfold walk, footer_walk, mbind_. rewrite skip_fwd by lia. cbn [here le_at le_start]. change (16 + 8) with 24. rewrite (readFrame_fwd 24 sz h) by (done || lia). rewrite leave_fwd by (cbn; lia). cbn [fsize].
  rewrite (list_frame_fwd (24 + sz) 1) by (done || lia). replace (24 + sz + 12) with (36 + sz) by lia.
  unfold list_loop. cbn [items_loop]. unfold mbind_ at 1. cbn [is_bad bad le_start]. change (negb (0 <? 1) || false) with false. cbv iota.
  assert (group_item p 0 (Some []) (le_start (36 + sz)) = (Some [mkLink (getLE 8 p (36 + sz + h' + 28 - 8)) (36 + sz + h' + 28) (signed 4 (getLE 4 p (36 + sz + h' + 28))) (getLE 8 p (36 + sz + h' + 28 + 4))], le_start (36 + sz + sz'))) as E.
  { unfold group_item, mbind_. cbn [here le_at le_start]. rewrite (readFrame_fwd (36 + sz) sz' h') by (done || lia). rewrite skip_fwd, u64_fwd by lia. cbn [here le_at le_start].
    replace (36 + sz + h' + (8 + 8 + 4) + 8) with (36 + sz + h' + 28) by lia. replace (36 + sz + h' + (8 + 8 + 4)) with (36 + sz + h' + 28 - 8) by lia. rewrite i32_fwd, u64_fwd by lia. rewrite (proj2 (Z.ltb_ge _ _)) by lia. rewrite leave_fwd by (cbn; lia). done. }
  unfold mbind_. rewrite E. done.
Qed.
End forward.
End NForward.

Module NPatch.
Import Root Tree NTupleData NTuple NTupleSafe NForward.

(** The bytes [o, o + n) hold no field of the range. *)
Definition spares (o n : Z) (r : ColumnRange) : Prop :=
  Forall (fun pg => o + n <= recordOffset pg \/ recordOffset pg + 16 <= o) (pages r) /\ (o + n <= compressionOffset r \/ compressionOffset r + 4 <= o).
(** The range's fields lie in [a, e). *)
Definition within (a e : Z) (r : ColumnRange) : Prop :=
  Forall (fun pg => a <= recordOffset pg /\ recordOffset pg + 16 <= e) (pages r) /\ a <= compressionOffset r /\ compressionOffset r + 4 <= e.
Lemma within_wider a e a' e' r : a' <= a -> e <= e' -> within a e r -> within a' e' r.
Proof. intros Ha He (H1 & H2 & H3). split; [|lia]. eapply Forall_impl; [exact H1|]. cbn. lia. Qed.
Lemma within_spares a e o n r : within a e r -> o + n <= a \/ e <= o -> spares o n r.
Proof. intros (H1 & H2 & H3) H. split; [|lia]. eapply Forall_impl; [exact H1|]. cbn. lia. Qed.
Lemma all_wider a e a' e' rs : a' <= a -> e <= e' -> Forall (within a e) rs -> Forall (within a' e') rs.
Proof. intros Ha He H. eapply Forall_impl; [exact H|]. intros r. by apply within_wider. Qed.
Lemma all_spares a e o n rs : Forall (within a e) rs -> o + n <= a \/ e <= o -> Forall (spares o n) rs.
Proof. intros H Ho. eapply Forall_impl; [exact H|]. intros r Hr. by eapply within_spares. Qed.

(** The fields in the order of the file: the records of a range one after the other, then its setting. *)
Fixpoint chain (a : Z) (rs : list ColumnRange) (e : Z) : Prop :=
  match rs with
  | [] => a <= e
  | r :: rs' => exists a', a <= a' /\ (forall i pg, pages r !! i = Some pg -> recordOffset pg = a' + 16 * Z.of_nat i) /\
      a' + 16 * zlen (pages r) <= compressionOffset r /\ chain (compressionOffset r + 4) rs' e
  end.
Lemma chain_bound rs : forall a e, chain a rs e -> a <= e /\ Forall (within a e) rs.
Proof.
  induction rs as [|r rs IH]; intros a e; cbn [chain]; [by intros|]. intros (a' & H1 & H2 & H3 & H4). apply IH in H4 as [H5 H6]. pose proof (zlen_nonneg (pages r)).
  split; [lia|]. apply Forall_cons. split; [|eapply all_wider; [| |exact H6]; lia]. split; [|lia].
  apply Forall_lookup. intros i pg Hi. pose proof (H2 i pg Hi). apply lookup_lt_Some in Hi. unfold zlen in *. lia.
Qed.
Lemma chain_earlier rs a a' e : a' <= a -> chain a rs e -> chain a' rs e.
Proof. destruct rs as [|r rs]; cbn; [lia|]. intros Ha (b & H1 & H2). exists b. split; [lia|done]. Qed.
Lemma chain_app l : forall a e rs e', chain a l e -> chain e rs e' -> chain a (l ++ rs) e'.
Proof.
  induction l as [|r l IH]; intros a e rs e'; cbn [chain app]; [intros; by eapply chain_earlier|]. intros (b & H1 & H2 & H3 & H4) H5. exists b. split; [done|]. split; [done|]. split; [done|]. by eapply IH.
Qed.

Section layout.
Context (p : bytes) (Hn : zlen p < p32) (cols : list ColumnInfo).

Lemma pages_places bits l : forall a, 0 <= a -> pages_at p bits a l -> forall i pg, l !! i = Some pg -> recordOffset pg = a + 16 * Z.of_nat i.
Proof using Hn.
  induction l as [|x l IH]; intros a Ha H i pg Hi; [done|]. destruct H as (H1 & H2 & H3 & H4). destruct i as [|i].
  - injection Hi as <-. rewrite H2. cbn. rewrite w32_small by lia. lia.
  - rewrite (IH (a + 16) ltac:(lia) H4 i pg Hi). lia.
Qed.
Lemma col_chain cl col a r : 0 <= a -> col_at p (bits_of cols col) cl col a r ->
  (forall i pg, pages r !! i = Some pg -> recordOffset pg = a + 12 + 16 * Z.of_nat i) /\ compressionOffset r = col_end a r - 4 /\ columnId r = col /\ clusterId r = cl.
Proof using Hn.
  intros Ha (H1 & H2 & H3 & H4). pose proof (zlen_nonneg (pages r)). split; [by eapply pages_places; [|exact H2]; lia|]. rewrite H4 at 1 3 4. cbn. unfold col_end in *. by rewrite w32_small by lia.
Qed.
Lemma cols_chain cl l : forall col a e, 0 <= a -> cols_at p cols cl col a l e -> chain a l e.
Proof using Hn.
  induction l as [|r l IH]; intros col a e Ha H; cbn in H; [cbn; lia|]. destruct H as [H1 H2]. destruct (col_chain cl col a r Ha H1) as (C1 & C2 & _). pose proof (col_end_ge a r).
  exists (a + 12). split; [lia|]. split; [done|]. rewrite C2. split; [unfold col_end; lia|]. replace (col_end a r - 4 + 4) with (col_end a r) by lia. eapply IH; [lia|done].
Qed.
Lemma clusters_chain ls : forall cl a e, 0 <= a -> clusters_at p cols cl a ls e -> chain a (concat ls) e.
Proof using Hn.
  induction ls as [|l ls IH]; intros cl a e Ha H; cbn in H; [cbn; lia|]. destruct H as (H1 & e' & H2 & H3). cbn [concat]. pose proof (cols_len p cols cl l _ _ _ H2) as [L _]. pose proof (zlen_nonneg l).
  apply (chain_app _ _ e'); [|eapply IH; [lia|done]]. eapply chain_earlier; [|eapply cols_chain; [|done]]; lia.
Qed.
Lemma columns_of cl l : forall col a e i r, 0 <= a -> cols_at p cols cl col a l e -> l !! i = Some r -> columnId r = col + Z.of_nat i /\ clusterId r = cl.
Proof using Hn.
  induction l as [|x l IH]; intros col a e i r Ha H Hi; [done|]. destruct H as [H1 H2]. destruct (col_chain cl col a x Ha H1) as (_ & _ & C1 & C2). pose proof (col_end_ge a x). destruct i as [|i].
  - injection Hi as <-. split; [lia|done].
  - destruct (IH (col + 1) (col_end a x) e i r ltac:(lia) H2 Hi) as [-> ->]. split; [lia|done].
Qed.

(** Every range is what lies at its own places. *)
Definition as_written (r : ColumnRange) : Prop :=
  Forall (fun pg => pg = page_of p (bits_of cols (columnId r)) (recordOffset pg) /\ 0 <= pg_nbytes pg) (pages r) /\
  compressionSettings r = signed 4 (getLE 4 p (compressionOffset r)).
Lemma pages_written bits l : forall a, 0 <= a -> pages_at p bits a l -> Forall (fun pg => pg = page_of p bits (recordOffset pg) /\ 0 <= pg_nbytes pg) l.
Proof using Hn.
  induction l as [|x l IH]; intros a Ha H; [constructor|]. destruct H as (H1 & H2 & H3 & H4). apply Forall_cons. split; [|eapply IH; [|exact H4]; lia]. split; [|done].
  rewrite H2 at 1. f_equal. rewrite H2. cbn. by rewrite w32_small by lia.
Qed.
Lemma cols_written cl l : forall col a e, 0 <= a -> cols_at p cols cl col a l e -> Forall as_written l.
Proof using Hn.
  induction l as [|r l IH]; intros col a e Ha H; [constructor|]. destruct H as [H1 H2]. destruct (col_chain cl col a r Ha H1) as (_ & C2 & C3 & _). pose proof (col_end_ge a r).
  apply Forall_cons. split; [|eapply IH; [|exact H2]; lia]. destruct H1 as (D1 & D2 & D3 & D4). split; [rewrite C3; eapply pages_written; [|exact D2]; lia|]. rewrite C2, D4 at 1. done.
Qed.
Lemma clusters_written ls : forall cl a e, 0 <= a -> clusters_at p cols cl a ls e -> Forall as_written (concat ls).
Proof using Hn.
  induction ls as [|l ls IH]; intros cl a e Ha H; [constructor|]. destruct H as (H1 & e' & H2 & H3). pose proof (cols_len p cols cl l _ _ _ H2) as [L _]. pose proof (zlen_nonneg l).
  cbn [concat]. apply Forall_app. split; [eapply cols_written; [|exact H2]; lia|eapply IH; [|exact H3]; lia].
Qed.

(** ** The same layout *)
Context (p' : bytes) (Hl : zlen p' = zlen p).
Definition reread (r : ColumnRange) : ColumnRange :=
  mkRange (clusterId r) (columnId r) (signed 4 (getLE 4 p' (compressionOffset r))) (compressionOffset r)
    ((fun pg => page_of p' (bits_of cols (columnId r)) (recordOffset pg)) <$> pages r).
Definition rereads (l : list ColumnRange) : list ColumnRange := reread <$> l.
Lemma rereads_concat ls : concat (rereads <$> ls) = reread <$> concat ls.
Proof using. induction ls as [|l ls IH]; [done|]. cbn [fmap list_fmap concat]. by rewrite fmap_app, <- IH. Qed.
Definition sized (r : ColumnRange) : Prop := Forall (fun pg => 0 <= pg_nbytes (page_of p' (bits_of cols (columnId r)) (recordOffset pg))) (pages r).

Lemma same_field n q o m : zsub p' o m = zsub p o m -> 0 <= o -> o <= q -> q + Z.of_nat n <= o + m -> getLE n p' q = getLE n p q.
Proof using. intros E Ho H1 H2. unfold getLE. replace q with (o + (q - o)) by lia. rewrite <- !(zsub_zsub _ o m) by lia. by rewrite E. Qed.
Lemma same_list a n : 0 <= a -> zsub p' a 12 = zsub p a 12 -> list_at p a n -> list_at p' a n.
Proof using Hl.
  intros Ha E (H1 & H2 & sz & H3 & H4 & H5). split; [by rewrite Hl|]. split; [by rewrite (same_field 4 _ a 12) by (done || lia)|]. exists sz. split; [done|]. rewrite Hl. split; [|done]. by rewrite (same_field 8 _ a 12) by (done || lia).
Qed.
Lemma same_frame a sz h : 0 <= a -> zsub p' a h = zsub p a h -> frame_at p a sz h -> frame_at p' a sz h.
Proof using Hl.
  intros Ha E (H1 & H2 & H3 & H4). split; [done|]. rewrite Hl. split; [done|]. split; [done|]. by destruct H4 as [[H4 ->]|[H4 ->]]; rewrite (same_field 8 _ _ _ E) by lia; [left|right].
Qed.
Lemma same_pages bits l : forall a, 0 <= a -> pages_at p bits a l -> Forall (fun pg => 0 <= pg_nbytes (page_of p' bits (recordOffset pg))) l ->
  pages_at p' bits a ((fun pg => page_of p' bits (recordOffset pg)) <$> l).
Proof using Hl Hn.
  induction l as [|pg l IH]; intros a Ha H Hs; [done|]. destruct H as (H1 & H2 & H3 & H4). apply Forall_cons in Hs as [S1 S2]. cbn [fmap list_fmap pages_at]. rewrite Hl. split; [done|].
  split; [|split; [done|]]; [|by apply IH; [lia| |]]. f_equal. rewrite H2. cbn. rewrite w32_small by lia. done.
Qed.
(** Nothing but fields of [rs] differs from [a] to [e]. *)
Definition same_between (a e : Z) (rs : list ColumnRange) : Prop :=
  forall o n, a <= o -> 0 <= n -> o + n <= e -> Forall (spares o n) rs -> zsub p' o n = zsub p o n.
Lemma same_cols cl l : forall col a e, 0 <= a -> cols_at p cols cl col a l e -> same_between a e l -> Forall sized l -> cols_at p' cols cl col a (reread <$> l) e.
Proof using Hl Hn.
  induction l as [|r l IH]; intros col a e Ha H Hs Hz; [done|]. destruct H as [H1 H2]. destruct (col_chain cl col a r Ha H1) as (C1 & C2 & C3 & C4). apply Forall_cons in Hz as [Z1 Z2].
  pose proof (col_end_ge a r) as Ge. pose proof (cols_len p cols cl l _ _ _ H2) as [L _]. pose proof (zlen_nonneg l).
  pose proof (chain_bound _ _ _ (cols_chain cl l (col + 1) (col_end a r) e ltac:(lia) H2)) as [_ B2]. destruct H1 as (D1 & D2 & D3 & D4).
  assert (within (a + 12) (col_end a r) r) as B1.
  { split; [|lia]. apply Forall_lookup. intros i pg Hi. pose proof (C1 i pg Hi). apply lookup_lt_Some in Hi. unfold col_end, zlen. lia. }
  assert (col_end a (reread r) = col_end a r) as Er by (unfold col_end, reread; cbn [pages]; unfold zlen; by rewrite length_fmap).
  cbn [fmap list_fmap cols_at]. rewrite Er. split.
  - unfold col_at. rewrite Er, Hl. cbn [reread pages]. assert (forall A B (f : A -> B) l, zlen (f <$> l) = zlen l) as ZL by (intros; unfold zlen; by rewrite length_fmap). rewrite ZL.
    split; [|split; [|split; [done|]]].
    + apply same_list; [done| |done]. apply Hs; [lia|lia|lia|]. apply Forall_cons. split; [by eapply within_spares; [exact B1|]; lia|by eapply all_spares; [exact B2|]; lia].
    + rewrite C3. apply same_pages; [lia|done|]. unfold sized in Z1. by rewrite C3 in Z1.
    + unfold reread. rewrite C2, C3, C4, w32_small by lia. done.
  - apply IH; [lia|done| |done]. intros o n H3 H4 H5 H6. apply Hs; [lia|done|done|]. apply Forall_cons. split; [|done]. eapply within_spares; [exact B1|]. lia.
Qed.
Lemma same_clusters ls : forall cl a e, 0 <= a -> clusters_at p cols cl a ls e -> same_between a e (concat ls) -> Forall sized (concat ls) ->
  clusters_at p' cols cl a (rereads <$> ls) e.
Proof using Hl Hn.
  induction ls as [|l ls IH]; intros cl a e Ha H Hs Hz; [done|]. destruct H as (H1 & e' & H2 & H3). cbn [concat] in Hs, Hz. apply Forall_app in Hz as [Z1 Z2].
  pose proof (cols_len p cols cl l _ _ _ H2) as [L _]. pose proof (zlen_nonneg l). pose proof (clusters_len p cols ls _ _ _ H3) as [L' _]. pose proof (zlen_nonneg ls).
  pose proof (chain_bound _ _ _ (cols_chain cl l 0 (a + 12) e' ltac:(lia) H2)) as [_ B1]. pose proof (chain_bound _ _ _ (clusters_chain ls (cl + 1) e' e ltac:(lia) H3)) as [_ B2].
  cbn [fmap list_fmap clusters_at]. assert (zlen (rereads l) = zlen l) as -> by (unfold rereads, zlen; by rewrite length_fmap). split.
  - apply same_list; [done| |done]. apply Hs; [lia|lia|lia|]. apply Forall_app. split; by eapply all_spares; [eassumption|]; lia.
  - exists e'. split.
    + apply same_cols; [lia|done| |done]. intros o n H4 H5 H6 H7. apply Hs; [lia|done|lia|]. apply Forall_app. split; [done|]. eapply all_spares; [exact B2|]. lia.
    + apply IH; [lia|done| |done]. intros o n H4 H5 H6 H7. apply Hs; [lia|done|lia|]. apply Forall_app. split; [|done]. eapply all_spares; [exact B1|]. lia.
Qed.
Lemma same_summaries lim k : forall a n n' e, 0 <= a -> summaries_at p lim k a n n' e -> zsub p' 0 lim = zsub p 0 lim -> summaries_at p' lim k a n n' e.
Proof using Hl.
  induction k as [|k IH]; intros a n n' e Ha H Hs; [done|]. destruct H as (sz & h & F & L & S). pose proof F as (F1 & _ & _ & F4). assert (8 <= h) as Hh by (destruct F4 as [[_ ->]|[_ ->]]; lia).
  exists sz, h. split; [|split; [done|]].
  - apply same_frame; [done| |done]. replace a with (0 + a) by lia. rewrite <- !(zsub_zsub _ 0 lim) by lia. by rewrite Hs.
  - rewrite (same_field 8 _ _ _ Hs) by lia. apply IH; [lia|done|done].
Qed.
Lemma same_pagelist ns entries a ls e : pagelist_at p cols a ns entries a ls e -> same_between 0 e (concat ls) -> Forall sized (concat ls) ->
  pagelist_at p' cols a ns entries a (rereads <$> ls) e.
Proof using Hl Hn.
  intros (H1 & H2 & H3 & H4) Hs Hz. pose proof (summaries_len p a _ _ _ _ _ H2) as [S1 _]. pose proof (clusters_len p cols ls _ _ _ H4) as [L _]. pose proof (zlen_nonneg ls).
  pose proof (chain_bound _ _ _ (clusters_chain ls 0 (a + 12) e ltac:(lia) H4)) as [_ B].
  assert (forall o n, 0 <= o -> 0 <= n -> o + n <= a + 12 -> zsub p' o n = zsub p o n) as Low by (intros o n ???; apply Hs; [lia|lia|lia|]; eapply all_spares; [exact B|lia]).
  split; [apply same_list; [lia|by apply Low; lia|done]|]. split; [apply same_summaries; [lia|done|apply Low; lia]|].
  assert (zlen (rereads <$> ls) = zlen ls) as -> by (unfold zlen; by rewrite length_fmap).
  split; [apply same_list; [lia|apply Low; lia|done]|]. apply same_clusters; [lia|done| |done]. intros o n H5 H6 H7 H8. apply Hs; [lia|done|done|done].
Qed.
End layout.
End NPatch.
