(* ===== verification/RNTupleRewrite.v ===== *)
(** * The recompression of an RNTuple file (src/transpose/RNTupleRewrite.h, RNTupleRewrite.cc)

    Pages are re-encoded behind the end of the file, the page list and the footer are
    appended after them and the anchor is patched where it lies. [Fault]: the code writes outside a
    vector. The time the decodes took ([decodeNs]) is left out, and so is
    [writeRewrittenRNTuple], which copies the result to a file. *)

From stdpp Require Import sorting.
From S2P Require Import Prelude UrlKey RootFile TreeMeta ReplicaFile FillLayout Transposer Xxh3 RNTupleMeta.
Local Open Scope u64_scope.

Module NRewrite.
Import Root Tree NTupleData NTuple Fill Trans.

(** ** What comes out *)
Record Tally := mkTally {
  t_pages : Z; storedRaw : Z; sharedPages : Z; rangesRelocated : Z; rangesUncached : Z; rangesDeclined : Z; declinedCodec : bytes;
  oldPageBytes : Z; newPageBytes : Z; t_decodeBytes : Z }.
Definition no_tally : Tally := mkTally 0 0 0 0 0 0 [] 0 0 0.
Record RNTupleRewrite := mkRewrite {
  tally : Tally; extBase : Z; extension : bytes; patches : list (Z * bytes);
  rw_superseded : list Replica.Range; rw_origMap : list Replica.OrigRange; rw_error : bytes; rw_transient : bool }.
Inductive Out (A : Type) := Going (a : A) | Stop (rw : RNTupleRewrite) | Fault.
Arguments Going {A} a. Arguments Stop {A} rw. Arguments Fault {A}.
Definition count_declined (n : Tally) (codec : bytes) : Tally :=
  mkTally (t_pages n) (storedRaw n) (sharedPages n) (rangesRelocated n) (rangesUncached n) (rangesDeclined n +% 1)
    (if bytes_eqb (declinedCodec n) [] && negb (bytes_eqb codec []) then codec else declinedCodec n) (oldPageBytes n) (newPageBytes n) (t_decodeBytes n).
Definition count_uncached (n : Tally) : Tally :=
  mkTally (t_pages n) (storedRaw n) (sharedPages n) (rangesRelocated n) (rangesUncached n +% 1) (rangesDeclined n) (declinedCodec n) (oldPageBytes n) (newPageBytes n) (t_decodeBytes n).
Definition count_relocated (n : Tally) : Tally :=
  mkTally (t_pages n) (storedRaw n) (sharedPages n) (rangesRelocated n +% 1) (rangesUncached n) (rangesDeclined n) (declinedCodec n) (oldPageBytes n) (newPageBytes n) (t_decodeBytes n).
Definition count_shared (n : Tally) : Tally :=
  mkTally (t_pages n +% 1) (storedRaw n) (sharedPages n +% 1) (rangesRelocated n) (rangesUncached n) (rangesDeclined n) (declinedCodec n) (oldPageBytes n) (newPageBytes n) (t_decodeBytes n).
Definition count_block (n : Tally) (raw : bool) (decoded : Z) : Tally :=
  mkTally (t_pages n) (if raw then storedRaw n +% 1 else storedRaw n) (sharedPages n) (rangesRelocated n) (rangesUncached n) (rangesDeclined n) (declinedCodec n)
    (oldPageBytes n) (newPageBytes n) (t_decodeBytes n +% decoded).
Definition count_page (n : Tally) (old new : Z) : Tally :=
  mkTally (t_pages n +% 1) (storedRaw n) (sharedPages n) (rangesRelocated n) (rangesUncached n) (rangesDeclined n) (declinedCodec n) (oldPageBytes n +% old) (newPageBytes n +% new) (t_decodeBytes n).

(** ** Pieces of the file *)

(** A little-endian field of a vector. *)
Definition wrLE (n : nat) (buf : bytes) (off v : Z) : option bytes :=
  if (0 <=? off) && (off + Z.of_nat n <=? zlen buf) then Some (putLE n buf off v) else None.

Definition kRBlobKeyVersion : Z := 1004.
Definition kRBlobKeyLen : Z := 42.
Definition rblob_key (seek payloadBytes objlen : Z) : bytes :=
  be_bytes 4 (kRBlobKeyLen + payloadBytes) ++ be_bytes 2 kRBlobKeyVersion ++ be_bytes 4 objlen ++ be_bytes 4 0 ++ be_bytes 2 kRBlobKeyLen ++ be_bytes 2 1 ++
  be_bytes 8 seek ++ be_bytes 8 100 ++ [5] ++ bs "RBlob" ++ [0] ++ [0].
(** The grown extension, and where the payload lies. *)
Definition appendBlob (ext : bytes) (extBase : Z) (payload : bytes) (objlen : Z) : bytes * Z :=
  let seek := extBase +% zlen ext in
  let ext := ext ++ rblob_key seek (zlen payload) objlen in
  (ext ++ payload, extBase +% zlen ext).

Definition rnTupleCodecName (compressionSettings : Z) : bytes :=
  let q := Z.quot compressionSettings 100 in
  if q =? 0 then bs "none" else if q =? 1 then bs "zlib" else if q =? 2 then bs "lzma" else if q =? 4 then bs "lz4" else if q =? 5 then bs "zstd" else [].

Section codecs.
Context `{CD : Codecs}.

Definition storeEnvelope (env : bytes) (level : Z) : bytes :=
  let out := encodeZstdFrames env level in
  if bytes_eqb out [] || (zlen env <=? zlen out) then env else out.

(** The bound is a 32-bit sum. *)
Inductive Patched := LFault | LFalse | LTrue (ftr : bytes).
Definition patchFooterLink (m : RNTupleMeta) (ftr : bytes) (plLen plStored plAt : Z) : Patched :=
  let lo := pageListLocatorOffset m in
  if (lo <? 8) || (zlen ftr <? w32 (lo + 12)) then LFalse
  else
    match wrLE 8 ftr (lo - 8) plLen with
    | None => LFault
    | Some ftr =>
        match wrLE 4 ftr lo plStored with
        | None => LFault
        | Some ftr => match wrLE 8 ftr (lo + 4) plAt with None => LFault | Some ftr => LTrue ftr end
        end
    end.

(** The anchor's checksummed bytes with a new footer, and the window that is patched. *)
Definition anchor_window (a : RNTupleAnchor) (ftrAt ftrStored ftrLen : Z) : bytes :=
  be_bytes 2 (versionEpoch a) ++ be_bytes 2 (versionMajor a) ++ be_bytes 2 (versionMinor a) ++ be_bytes 2 (versionPatch a) ++
  be_bytes 8 (seekHeader a) ++ be_bytes 8 (nbytesHeader a) ++ be_bytes 8 (lenHeader a) ++
  be_bytes 8 ftrAt ++ be_bytes 8 ftrStored ++ be_bytes 8 ftrLen ++ be_bytes 8 (maxKeySize a).
Definition anchorPatch (m : RNTupleMeta) (ftrAt ftrStored ftrLen : Z) : Z * bytes :=
  let a := anchor m in
  (payloadOffset a +% 38,
   be_bytes 8 ftrAt ++ be_bytes 8 ftrStored ++ be_bytes 8 ftrLen ++ be_bytes 8 (maxKeySize a) ++
   be_bytes 8 (Xxh.xxh3_64 (anchor_window a ftrAt ftrStored ftrLen))).

Definition on_disk (pg : PageInfo) : Z := pg_nbytes pg + (if hasChecksum pg then 8 else 0).

(** ** The build *)
Inductive Elig := Relocate | Declined (codec : bytes) | Uncached.
(** A page's new block without its checksum - stored raw or not, and how much was decoded for it - or why there is none. *)
Inductive Block := BGot (enc : bytes) (raw : bool) (decoded : Z) | BFail (err : bytes) (transient : bool) (decoded : Z).

Record Build := mkBuild {
  b_tally : Tally; b_pl : bytes; b_ext : bytes; b_orig : list Replica.OrigRange; seen : gmap (Z * Z) (Z * Z); live : gset Z; candidates : list Replica.Range }.
Definition start (m : RNTupleMeta) : Build := mkBuild no_tally (pageList m) [] [] ∅ ∅ [].
Definition failed (n : Tally) (base : Z) (sup : list Replica.Range) (om : list Replica.OrigRange) (why : bytes) (transient : bool) : RNTupleRewrite :=
  mkRewrite n base [] [] sup om why transient.

(** The locator of a page record. *)
Definition put_locator (pl : bytes) (rec size off : Z) : option bytes :=
  match wrLE 4 pl (rec + 4) size with None => None | Some pl => wrLE 8 pl (rec + 8) off end.
Definition stored_block (pg : PageInfo) (enc : bytes) : bytes := if hasChecksum pg then enc ++ le_bytes 8 (Xxh.xxh3_64 enc) else enc.
Definition place_page (base : Z) (pg : PageInfo) (enc : bytes) (s : Build) : Out Build :=
  let stored := stored_block pg enc in
  let '(ext, at_) := appendBlob (b_ext s) base stored (uncompressedBytes pg) in
  match put_locator (b_pl s) (recordOffset pg) (zlen enc) at_ with
  | None => Fault
  | Some pl =>
      Going (mkBuild (count_page (b_tally s) (on_disk pg) (zlen stored)) pl ext
        (b_orig s ++ [Replica.mkOrig at_ (zlen stored) (pg_offset pg) (on_disk pg)])
        (<[(pg_offset pg, pg_nbytes pg) := (at_, w32 (zlen enc))]> (seen s)) (live s) (candidates s ++ [Replica.mkRange (pg_offset pg) (on_disk pg)]))
  end.
Definition share_page (pg : PageInfo) (at_ size : Z) (s : Build) : Out Build :=
  match put_locator (b_pl s) (recordOffset pg) size at_ with
  | None => Fault
  | Some pl => Going (mkBuild (count_shared (b_tally s)) pl (b_ext s) (b_orig s) (seen s) (live s) (candidates s))
  end.
Definition with_tally (s : Build) (n : Tally) : Build := mkBuild n (b_pl s) (b_ext s) (b_orig s) (seen s) (live s) (candidates s).
Definition keep_range (r : ColumnRange) (n : Tally) (s : Build) : Build :=
  mkBuild n (b_pl s) (b_ext s) (b_orig s) (seen s) (live s ∪ list_to_set (pg_offset <$> pages r)) (candidates s).

Section build.
Context {W : Type} (eligible : Z -> ColumnRange -> M W Elig) (block : Z -> Z -> PageInfo -> M W Block).
Open Scope io_scope.

Definition do_page (base ri pi : Z) (pg : PageInfo) (s : Build) : M W (Out Build) :=
  match seen s !! (pg_offset pg, pg_nbytes pg) with
  | Some (at_, size) => ret (share_page pg at_ size s)
  | None =>
      do b <- block ri pi pg;
      ret (match b with
           | BFail err transient decoded => Stop (failed (count_block (b_tally s) false decoded) base [] (b_orig s) err transient)
           | BGot enc raw decoded => place_page base pg enc (with_tally s (count_block (b_tally s) raw decoded))
           end)
  end.
Fixpoint do_pages (base ri pi : Z) (l : list PageInfo) (s : Build) : M W (Out Build) :=
  match l with
  | [] => ret (Going s)
  | pg :: l' =>
      do o <- do_page base ri pi pg s;
      match o with Going s => do_pages base ri (pi + 1) l' s | Stop rw => ret (Stop rw) | Fault => ret Fault end
  end.
Definition do_range (base level ri : Z) (r : ColumnRange) (s : Build) : M W (Out Build) :=
  do e <- eligible ri r;
  match e with
  | Declined codec => ret (Going (keep_range r (count_declined (b_tally s) codec) s))
  | Uncached => ret (Going (keep_range r (count_uncached (b_tally s)) s))
  | Relocate =>
      do o <- do_pages base ri 0 (pages r) (with_tally s (count_relocated (b_tally s)));
      ret (match o with
           | Going s =>
               match wrLE 4 (b_pl s) (compressionOffset r) (500 + level) with
               | None => Fault
               | Some pl => Going (mkBuild (b_tally s) pl (b_ext s) (b_orig s) (seen s) (live s) (candidates s))
               end
           | Stop rw => Stop rw
           | Fault => Fault
           end)
  end.
Fixpoint do_ranges (base level ri : Z) (l : list ColumnRange) (s : Build) : M W (Out Build) :=
  match l with
  | [] => ret (Going s)
  | r :: l' =>
      do o <- do_range base level ri r s;
      match o with Going s => do_ranges base level (ri + 1) l' s | Stop rw => ret (Stop rw) | Fault => ret Fault end
  end.

(** The metadata after the pages: [None] for a fault. *)
Definition finish (m : RNTupleMeta) (base level : Z) (s : Build) : option RNTupleRewrite :=
  let n := b_tally s in
  if rangesRelocated n =? 0 then
    Some (failed n base [] (b_orig s) (bs "no eligible column ranges") ((0 <? rangesUncached n) && (rangesDeclined n =? 0)))
  else
    let sup := List.filter (fun r => negb (bool_decide (Replica.roff r ∈ live s))) (candidates s) in
    let pl := sealEnvelope (b_pl s) in
    let plStored := storeEnvelope pl level in
    let '(ext, plAt) := appendBlob (b_ext s) base plStored (zlen pl) in
    let om := b_orig s ++ (if pageListNbytes m =? 0 then [] else [Replica.mkOrig plAt (zlen plStored) (pageListOffset m) (pageListNbytes m)]) in
    match patchFooterLink m (footer m) (zlen pl) (zlen plStored) plAt with
    | LFault => None
    | LFalse => Some (failed n base sup om (bs "footer page-list locator out of bounds") false)
    | LTrue ftr =>
        let ftr := sealEnvelope ftr in
        let ftrStored := storeEnvelope ftr level in
        let '(ext, ftrAt) := appendBlob ext base ftrStored (zlen ftr) in
        let om := om ++ (if nbytesFooter (anchor m) =? 0 then [] else [Replica.mkOrig ftrAt (zlen ftrStored) (seekFooter (anchor m)) (nbytesFooter (anchor m))]) in
        if payloadOffset (anchor m) =? 0 then Some (failed n base sup om (bs "compressed anchor cannot be patched in place") false)
        else if payloadLength (anchor m) <? 78 then Some (failed n base sup om (bs "anchor payload too short to patch") false)
        else
          let newEnd := base +% zlen ext in
          let hw := m_headerSeekWidth m in
          if (hw =? 4) && (0x7FFFFFFF <? newEnd) then Some (failed n base sup om (bs "rewrite would push fEND past 2 GB under a 32-bit header") false)
          else
            Some (mkRewrite n base ext [anchorPatch m ftrAt (zlen ftrStored) (zlen ftr); (12, be_bytes (Z.to_nat hw) newEnd)] sup om [] false)
    end.

Definition buildImpl (m : RNTupleMeta) (fileSize level : Z) : M W (option RNTupleRewrite) :=
  if bytes_eqb (pageList m) [] || bytes_eqb (footer m) [] then ret (Some (failed no_tally fileSize [] [] (bs "no page list to rewrite") false))
  else
    do o <- do_ranges fileSize level 0 (ranges m) (start m);
    ret (match o with
         | Going s => finish m fileSize level s
         | Stop rw => Some rw
         | Fault => None
         end).
End build.
Open Scope io_scope.

(** *** From the original's bytes *)
Section source.
Context {W : Type} `{!Source W}.

Fixpoint all_pages (l : list PageInfo) : M W bool :=
  match l with
  | [] => ret true
  | pg :: l' => do ok <- has (pg_offset pg) (on_disk pg); if (ok : bool) then all_pages l' else ret false
  end.
Definition source_eligible (codecs : list bytes) (_ : Z) (r : ColumnRange) : M W Elig :=
  let codec := rnTupleCodecName (compressionSettings r) in
  if negb (bool_decide (codecs = [])) && negb (existsb (bytes_eqb codec) codecs) then ret (Declined codec)
  else do ok <- all_pages (pages r); ret (if (ok : bool) then Relocate else Uncached).
(** What is made of the page's bytes once they are there and match their checksum. *)
Definition recode (pg : PageInfo) (level : Z) (raw : bytes) : Block :=
  let want := uncompressedBytes pg in
  if want =? 0 then BFail (bs "page of unknown width (column not in schema)") false 0
  else
    let buf := if pg_nbytes pg =? want then raw else decompressFrames raw want in
    if negb (zlen buf =? want) then BFail (bs "page decompression failed") false 0
    else
      let enc := encodeZstdFrames buf level in
      if bytes_eqb enc [] && negb (bytes_eqb buf []) then BFail (bs "zstd encode failed") false want
      else if zlen buf <=? zlen enc then BGot buf true want
      else BGot enc false want.
Definition read_page (pg : PageInfo) : M W (option bytes) :=
  if pg_nbytes pg =? 0 then ret (Some []) else src_read (pg_nbytes pg) (pg_offset pg).
Definition source_block (level : Z) (_ _ : Z) (pg : PageInfo) : M W Block :=
  do ok <- has (pg_offset pg) (on_disk pg);
  if negb ok then ret (BFail (bs "page bytes not available") true 0)
  else
    do r <- read_page pg;
    match r with
    | None => ret (BFail (bs "page read failed") true 0)
    | Some raw =>
        if hasChecksum pg then
          do c <- src_read 8 (pg_offset pg +% pg_nbytes pg);
          match c with
          | None => ret (BFail (bs "page checksum read failed") true 0)
          | Some ck =>
              if negb (Xxh.xxh3_64 raw =? le_val ck)
              then ret (BFail (bs "page checksum mismatch — source bytes are damaged (run `ucache verify`)") false 0)
              else ret (recode pg level raw)
          end
        else ret (recode pg level raw)
    end.
Definition buildRNTupleRewrite (m : RNTupleMeta) (fileSize level : Z) (codecs : list bytes) : M W (option RNTupleRewrite) :=
  buildImpl (source_eligible codecs) (source_block level) m fileSize level.
End source.

(** *** From pages converted elsewhere *)
Section from_pages.
Context {W : Type} (has_page : Z -> Z -> M W bool) (page : Z -> Z -> M W (option bytes)).

Fixpoint all_converted (ri pi : Z) (l : list PageInfo) : M W bool :=
  match l with
  | [] => ret true
  | _ :: l' => do ok <- has_page ri pi; if (ok : bool) then all_converted ri (pi + 1) l' else ret false
  end.
Definition pages_eligible (ri : Z) (r : ColumnRange) : M W Elig := do ok <- all_converted ri 0 (pages r); ret (if (ok : bool) then Relocate else Uncached).
Definition pages_block (ri pi : Z) (pg : PageInfo) : M W Block :=
  do r <- page ri pi;
  ret (match r with
       | None => BFail (bs "converted page unavailable") true 0
       | Some enc =>
           if uncompressedBytes pg <? zlen enc then BFail (bs "converted page larger than the page") false 0
           else BGot enc (zlen enc =? uncompressedBytes pg) (uncompressedBytes pg)
       end).
Definition buildRNTupleRewriteFromPages (m : RNTupleMeta) (fileSize level : Z) : M W (option RNTupleRewrite) :=
  buildImpl pages_eligible pages_block m fileSize level.
End from_pages.

(** ** One page of a cold run *)
Definition kSlotChecksumBytes : Z := 8.
Definition sealDecodedPage (page : bytes) : bytes := le_bytes 8 (Xxh.xxh3_64 page).
Record ConvertedPage := mkPageConv { pc_raw : bytes; pc_enc : bytes; pc_error : bytes }.
Definition convertPage (onDisk : bytes) (nbytes : Z) (hasChecksum : bool) (uncompressed : Z) : ConvertedPage :=
  if negb (zlen onDisk =? w32 (nbytes + (if hasChecksum then 8 else 0))) || (uncompressed =? 0) then mkPageConv [] [] (bs "page geometry")
  else if hasChecksum && negb (Xxh.xxh3_64 (zsub onDisk 0 nbytes) =? getLE 8 onDisk nbytes) then mkPageConv [] [] (bs "page checksum mismatch")
  else
    let raw := if nbytes =? uncompressed then zsub onDisk 0 nbytes else decompressFrames (zsub onDisk 0 nbytes) uncompressed in
    if negb (zlen raw =? uncompressed) then mkPageConv [] [] (bs "page decompression failed")
    else
      let enc := encodeZstdFrames raw 1 in
      mkPageConv raw (if bytes_eqb enc [] || (zlen raw <=? zlen enc) then raw else enc) [].

(** ** The layout of a file while it is being recompressed *)
Definition fillable (fileSize : Z) (pg : PageInfo) : bool :=
  (0 <? uncompressedBytes pg) && (uncompressedBytes pg <=? 0x7FFFFFFF) &&
  (pg_offset pg +% pg_nbytes pg +% (if hasChecksum pg then 8 else 0) <=? fileSize) && (100 <=? pg_offset pg).
Definition fill_range (fileSize : Z) (codecs : list bytes) (r : ColumnRange) : bool :=
  negb (bool_decide (pages r = [])) && existsb (bytes_eqb (rnTupleCodecName (compressionSettings r))) codecs && forallb (fillable fileSize) (pages r).
Record FillState := mkFillState { f_at : Z; f_pl : bytes; f_seen : gmap Z Z; f_slots : list FillSlot }.
Definition page_slot (at_ ri pi : Z) (pg : PageInfo) : FillSlot :=
  mkSlot (pg_offset pg) (w32 (pg_nbytes pg + (if hasChecksum pg then 8 else 0))) at_ (w32 (uncompressedBytes pg +% kSlotChecksumBytes)) ri pi.
Definition fill_page (ri pi : Z) (pg : PageInfo) (s : FillState) : option FillState :=
  let '(v, s) :=
    match f_seen s !! pg_offset pg with
    | Some v => (v, s)
    | None =>
        let sl := page_slot (f_at s) ri pi pg in
        (f_at s, mkFillState (f_at s +% vLen sl) (f_pl s) (<[pg_offset pg := f_at s]> (f_seen s)) (f_slots s ++ [sl]))
    end in
  match wrLE 4 (f_pl s) (recordOffset pg) (- nElements pg) with
  | None => None
  | Some pl => match put_locator pl (recordOffset pg) (uncompressedBytes pg) v with None => None | Some pl => Some (mkFillState (f_at s) pl (f_seen s) (f_slots s)) end
  end.
Fixpoint fill_pages (ri pi : Z) (l : list PageInfo) (s : FillState) : option FillState :=
  match l with
  | [] => Some s
  | pg :: l' => match fill_page ri pi pg s with None => None | Some s => fill_pages ri (pi + 1) l' s end
  end.
Definition fill_one (ri : Z) (r : ColumnRange) (s : FillState) : option FillState :=
  match fill_pages ri 0 (pages r) s with
  | None => None
  | Some s => match wrLE 4 (f_pl s) (compressionOffset r) 0 with None => None | Some pl => Some (mkFillState (f_at s) pl (f_seen s) (f_slots s)) end
  end.
Fixpoint fill_ranges (l : list (Z * ColumnRange)) (s : FillState) : option FillState :=
  match l with
  | [] => Some s
  | (ri, r) :: l' => match fill_one ri r s with None => None | Some s => fill_ranges l' s end
  end.
Definition to_fill (m : RNTupleMeta) (fileSize : Z) (codecs : list bytes) : list (Z * ColumnRange) :=
  List.filter (fun x => fill_range fileSize codecs (snd x)) (zip (zrange 0 (zlen (ranges m))) (ranges m)).
Definition declined (why : bytes) : FillLayout := mkLayout why 0 0 [] 0 [] 0 [] [].

(** The gates before anything is computed. *)
Definition rntuple_gates (m : RNTupleMeta) (fileSize : Z) : option bytes :=
  if bytes_eqb (pageList m) [] || bytes_eqb (footer m) [] then Some (bs "no page list")
  else if negb (fileSize =? w64 (m_fend m)) || negb (fileSize =? m_fileSize m) then Some (bs "file size differs from fEND")
  else if payloadOffset (anchor m) =? 0 then Some (bs "compressed anchor cannot be patched in place")
  else if payloadLength (anchor m) <? 78 then Some (bs "anchor payload too short to patch")
  else if fileSize <? payloadOffset (anchor m) +% 78 then Some (bs "anchor outside the file")
  else None.
(** The metadata appended at [metaSeek], and the footer's place, size and length. *)
Definition fill_meta (m : RNTupleMeta) (metaSeek : Z) (pl : bytes) : Out (bytes * (Z * Z * Z)) :=
  let pl := sealEnvelope pl in
  let plStored := storeEnvelope pl 1 in
  let '(blobs, plAt) := appendBlob [] metaSeek plStored (zlen pl) in
  match patchFooterLink m (footer m) (zlen pl) (zlen plStored) plAt with
  | LFault => Fault
  | LFalse => Stop (failed no_tally 0 [] [] (bs "footer page-list locator out of bounds") false)
  | LTrue ftr =>
      let ftr := sealEnvelope ftr in
      let ftrStored := storeEnvelope ftr 1 in
      let '(blobs, ftrAt) := appendBlob blobs metaSeek ftrStored (zlen ftr) in
      Going (blobs, (ftrAt, zlen ftrStored, zlen ftr))
  end.
(** [None]: a fault. *)
Definition layoutForRNTupleFill (pm : Res RNTupleMeta) (fileSize : Z) (header : bytes) (codecs : list bytes) : option FillLayout :=
  match pm with
  | Oob => None
  | Bad w => Some (declined (bs "parse: " ++ w))
  | Good m =>
      match rntuple_gates m fileSize with
      | Some why => Some (declined why)
      | None =>
          let rel := to_fill m fileSize codecs in
          if bool_decide (rel = []) then Some (declined (bs "no convertible column range"))
          else
            let metaSeek := (fileSize +% 4095) / 4096 *% 4096 in
            let reserve := 2 * kRBlobKeyLen + zlen (pageList m) + zlen (footer m) in
            let slotsBegin := metaSeek +% reserve in
            match fill_ranges rel (mkFillState slotsBegin (pageList m) ∅ []) with
            | None => None
            | Some s =>
                match fill_meta m metaSeek (f_pl s) with
                | Fault => None
                | Stop rw => Some (declined (rw_error rw))
                | Going (blobs, (ftrAt, ftrStored, ftrLen)) =>
                    if reserve <? zlen blobs then Some (declined (bs "metadata outgrew its reservation"))
                    else
                      match headerWindowForEnd header (f_at s) with
                      | None => Some (declined (bs "file header unreadable or fBEGIN below 75"))
                      | Some hw =>
                          let ap := anchorPatch m ftrAt ftrStored ftrLen in
                          let '(w0, w1) := if fst ap <? fst hw then (ap, hw) else (hw, ap) in
                          if fst w1 <? fst w0 +% zlen (snd w0) then Some (declined (bs "anchor overlaps the file header"))
                          else Some (mkLayout [] fileSize (f_at s) [w0; w1] metaSeek blobs slotsBegin (f_slots s) (fst <$> rel))
                      end
                end
            end
      end
  end.
End codecs.

(** ** The overlay *)
Definition kHeadReserve : Z := 128 * 1024.
Definition piece_le (a b : Z * bytes) : Prop := fst a <= fst b.
#[global] Instance piece_le_dec a b : Decision (piece_le a b).
Proof. unfold piece_le. apply _. Defined.
Definition by_offset (l : list (Z * bytes)) : list (Z * bytes) := merge_sort piece_le l.
Fixpoint pieces_apart (l : list (Z * bytes)) : bool :=
  match l with
  | a :: (b :: _) as l' => negb (fst b <? fst a +% zlen (snd a)) && pieces_apart l'
  | _ => true
  end.
Fixpoint piece_extents (l : list (Z * bytes)) (tdataAt : Z) : list Replica.Extent :=
  match l with
  | [] => []
  | p :: l' => Replica.mkExtent (fst p) (zlen (snd p)) tdataAt :: piece_extents l' (tdataAt +% zlen (snd p))
  end.
Definition past_head (r : Replica.Range) : Replica.Range :=
  if Replica.roff r <? kHeadReserve then
    let end_ := Replica.roff r +% Replica.rlen r in
    Replica.mkRange kHeadReserve (if kHeadReserve <? end_ then end_ - kHeadReserve else 0)
  else r.
Definition superseded_of (m : RNTupleMeta) (rw : RNTupleRewrite) : list Replica.Range :=
  let sup := rw_superseded rw ++ (if pageListNbytes m =? 0 then [] else [Replica.mkRange (pageListOffset m) (pageListNbytes m)]) ++
    (if nbytesFooter (anchor m) =? 0 then [] else [Replica.mkRange (seekFooter (anchor m)) (nbytesFooter (anchor m))]) in
  merge_ranges (List.filter (fun r => negb (Replica.rlen r =? 0)) (past_head <$> sup)).
Definition rnTupleOverlay (m : RNTupleMeta) (rw : RNTupleRewrite) : Overlay :=
  if negb (bytes_eqb (rw_error rw) []) then stopped no_counts (rw_error rw) (rw_transient rw)
  else
    let pieces := by_offset (patches rw) in
    if negb (pieces_apart pieces) then stopped no_counts (bs "overlapping patch windows") false
    else
      let n := tally rw in
      let data := concat (snd <$> pieces) in
      let om := rw_origMap rw ++ ((fun p => Replica.mkOrig (fst p) (zlen (snd p)) (fst p) (zlen (snd p))) <$> pieces) in
      mkOverlay (mkCounts (t_decodeBytes n) (t_pages n) (t_pages n -% storedRaw n) 0 (storedRaw n) (oldPageBytes n) (newPageBytes n))
        (data ++ extension rw)
        (Replica.mkRep 0 Replica.kZstd1 0 (m_fileSize m) 0 0 0 (extBase rw +% zlen (extension rw)) 0 []
           (piece_extents pieces 0 ++ [Replica.mkExtent (extBase rw) (zlen (extension rw)) (zlen data)])
           (superseded_of m rw) (merge_sort orig_le om) [])
        0 0 [] false.
End NRewrite.
