(* ===== verification/RNTupleBuild.v ===== *)
(** * The loops that recompress the pages (src/transpose/RNTupleRewrite.cc, buildImpl)

    For any way of deciding a range and of making a page's new block: a range whose setting was
    changed has every locator on a block of the extension made for its page, with its
    checksum; every other byte of the page list is as it was. *)

From S2P Require Import Prelude UrlKey RootFile TreeMeta ReplicaFile Transposer Xxh3 RNTupleMeta RNTupleSafe RNTuplePatch RNTupleRewrite.
Local Open Scope u64_scope.

Module NBuild.
Import Root Tree NTupleData NTuple NPatch NRewrite.

(** ** Fields written *)
Lemma wrLE_some n buf off v buf' : wrLE n buf off v = Some buf' ->
  0 <= off /\ off + Z.of_nat n <= zlen buf /\ zlen buf' = zlen buf /\ zsub buf' off (Z.of_nat n) = le_bytes n v /\
  forall o m, 0 <= o -> 0 <= m -> o + m <= off \/ off + Z.of_nat n <= o -> zsub buf' o m = zsub buf o m.
Proof.
  unfold wrLE. destruct (_ && _) eqn:E; [|done]. b2p. intros [= <-]. split; [done|]. split; [done|]. split; [by apply zlen_putLE|]. split.
  - unfold putLE. apply zsub_zsplice_same; rewrite ?zlen_le_bytes; lia.
  - intros o m Ho Hm [G|G]; [apply zsub_putLE_before; lia|apply zsub_putLE_after; lia].
Qed.
Lemma getLE_bytes n buf off v : zsub buf off (Z.of_nat n) = le_bytes n v -> 0 <= v < p8 ^ Z.of_nat n -> getLE n buf off = v.
Proof. intros E Hv. unfold getLE. rewrite E. by apply le_val_bytes. Qed.
Lemma put_locator_some pl rec size off pl' : put_locator pl rec size off = Some pl' ->
  zlen pl' = zlen pl /\ zsub pl' (rec + 4) 4 = le_bytes 4 size /\ zsub pl' (rec + 8) 8 = le_bytes 8 off /\
  forall o m, 0 <= o -> 0 <= m -> o + m <= rec + 4 \/ rec + 16 <= o -> zsub pl' o m = zsub pl o m.
Proof.
  unfold put_locator. destruct (wrLE 4 pl (rec + 4) size) as [pl1|] eqn:E1; [|done]. apply wrLE_some in E1 as (A1 & A2 & A3 & A4 & A5). intros E2. apply wrLE_some in E2 as (B1 & B2 & B3 & B4 & B5).
  change (Z.of_nat 4) with 4 in *. change (Z.of_nat 8) with 8 in *. split; [congruence|]. split; [by rewrite B5 by lia|]. split; [done|]. intros o m Ho Hm H. rewrite B5 by lia. apply A5; lia.
Qed.

Section build.
Context `{CD : Codecs} {W : Type} (eligible : Z -> ColumnRange -> M W Elig) (block : Z -> Z -> PageInfo -> M W Block).
(** What a range that is moved satisfies, and one that is not, the pages considered, and what a new block is to its page. *)
Context (E K : ColumnRange -> Prop) (C : PageInfo -> Prop) (P : PageInfo -> bytes -> Prop) (bound base level : Z).
Context (HE : forall ri r w, fst (eligible ri r w) = Relocate -> E r) (HK : forall ri r w, fst (eligible ri r w) <> Relocate -> K r).
Context (HP : forall ri pi pg w enc raw dec, C pg -> fst (block ri pi pg w) = BGot enc raw dec -> P pg enc).
Context (HB : forall pg enc, P pg enc -> zlen enc < p31) (H0 : 0 <= base) (Hb : bound < 2 ^ 62).

(** A block in the extension, for a page of that place and size. *)
Definition placed (ext : bytes) (off nb at_ : Z) (q : PageInfo) (enc : bytes) : Prop :=
  pg_offset q = off /\ pg_nbytes q = nb /\ P q enc /\ base <= at_ /\ at_ - base + zlen (stored_block q enc) <= zlen ext /\
  zsub ext (at_ - base) (zlen (stored_block q enc)) = stored_block q enc.
Definition seen_ok (s : Build) : Prop := forall off nb at_ size, seen s !! (off, nb) = Some (at_, size) ->
  exists q enc, size = zlen enc /\ placed (b_ext s) off nb at_ q enc.
Definition page_done (pl ext : bytes) (pg : PageInfo) : Prop :=
  exists q enc at_, placed ext (pg_offset pg) (pg_nbytes pg) at_ q enc /\ getLE 4 pl (recordOffset pg + 4) = zlen enc /\ getLE 8 pl (recordOffset pg + 8) = at_.
(** The extension, the offsets in use and the ranges to free only grow; what is to be freed is a page's place. *)
Definition page_range (pg : PageInfo) : Replica.Range := Replica.mkRange (pg_offset pg) (on_disk pg).
Definition a_page (c : Replica.Range) : Prop := exists pg, C pg /\ c = page_range pg.
Definition grown (s s' : Build) : Prop :=
  (exists x, b_ext s' = b_ext s ++ x) /\ live s ⊆ live s' /\ (exists y, candidates s' = candidates s ++ y /\ Forall a_page y).
#[local] Instance grown_pre : PreOrder grown.
Proof using.
  split.
  - intros s. split; [exists []; by rewrite app_nil_r|]. split; [done|]. exists []. by rewrite app_nil_r.
  - intros a b c ([x Hx] & Ha & y & Hy & Fy) ([x' Hx'] & Hb' & y' & Hy' & Fy'). split; [exists (x ++ x'); by rewrite Hx', Hx, app_assoc|]. split; [by etrans|].
    exists (y ++ y'). split; [by rewrite Hy', Hy, app_assoc|]. by apply Forall_app.
Qed.
Lemma grown_same s s' : b_ext s' = b_ext s -> live s ⊆ live s' -> candidates s' = candidates s -> grown s s'.
Proof using. intros E1 Hl E2. split; [exists []; by rewrite app_nil_r|]. split; [done|]. exists []. by rewrite app_nil_r. Qed.
Lemma grown_len s s' : grown s s' -> zlen (b_ext s) <= zlen (b_ext s').
Proof using. intros [[x ->] _]. rewrite zlen_app. pose proof (zlen_nonneg x). lia. Qed.
Lemma placed_grown s s' off nb at_ q enc : grown s s' -> placed (b_ext s) off nb at_ q enc -> placed (b_ext s') off nb at_ q enc.
Proof using.
  intros [[x ->] _] (H1 & H2 & H3 & H4 & H5 & H6). pose proof (zlen_nonneg x). pose proof (zlen_nonneg (stored_block q enc)). split; [done|]. split; [done|]. split; [done|]. split; [done|]. split; [rewrite zlen_app; lia|].
  by rewrite zsub_app_l by lia.
Qed.
Lemma zlen_rblob seek n o : zlen (rblob_key seek n o) = 42.
Proof using. unfold rblob_key. rewrite !zlen_app, !zlen_be. done. Qed.
Lemma appendBlob_eq ext payload objlen : base + zlen ext + 42 < p64 ->
  appendBlob ext base payload objlen = (ext ++ rblob_key (base + zlen ext) (zlen payload) objlen ++ payload, base + zlen ext + 42).
Proof using H0.
  intros H. pose proof (zlen_nonneg ext). unfold appendBlob. rewrite (w64_small (base + zlen ext)) by lia. rewrite zlen_app, zlen_rblob. rewrite w64_small by lia. rewrite <- app_assoc. f_equal. lia.
Qed.

(** A step on the page list: what it may change, and that the extension grows to at most the bound. *)
Record step_ok (pgs : list PageInfo) (s s' : Build) : Prop := {
  so_grown : grown s s'; so_seen : seen_ok s'; so_len : zlen (b_pl s') = zlen (b_pl s);
  so_same : forall o n, 0 <= o -> 0 <= n -> Forall (fun pg => o + n <= recordOffset pg + 4 \/ recordOffset pg + 16 <= o) pgs -> zsub (b_pl s') o n = zsub (b_pl s) o n;
  so_done : Forall (page_done (b_pl s') (b_ext s')) pgs }.

Lemma getLE_locator pl' rec size off : zsub pl' (rec + 4) 4 = le_bytes 4 size -> zsub pl' (rec + 8) 8 = le_bytes 8 off -> 0 <= size < p32 -> 0 <= off < p64 ->
  getLE 4 pl' (rec + 4) = size /\ getLE 8 pl' (rec + 8) = off.
Proof using. intros. split; by apply getLE_bytes. Qed.
Lemma share_ok pg at_ size s s' : seen_ok s -> base + zlen (b_ext s) < bound -> seen s !! (pg_offset pg, pg_nbytes pg) = Some (at_, size) -> share_page pg at_ size s = Going s' -> step_ok [pg] s s'.
Proof using HB H0 Hb.
  intros Hs Hl E1. unfold share_page. destruct (put_locator _ _ _ _) as [pl|] eqn:E2; [|done]. intros [= <-]. destruct (Hs _ _ _ _ E1) as (q & enc & -> & Hq). pose proof (zlen_nonneg enc).
  apply put_locator_some in E2 as (A1 & A2 & A3 & A4). pose proof Hq as (B1 & B2 & B3 & B4 & B5 & B6). pose proof (HB _ _ B3). pose proof (zlen_nonneg (stored_block q enc)).
  destruct (getLE_locator _ _ _ _ A2 A3) as [G1 G2]; [lia|lia|]. split; cbn [b_ext b_pl seen]; [by apply grown_same|exact Hs|done| |].
  - intros o n Ho Hn Hf. apply Forall_cons in Hf as [Hf _]. apply A4; [done|done|exact Hf].
  - apply Forall_cons. split; [|constructor]. by exists q, enc, at_.
Qed.
Lemma place_page_ok pg enc s s' : C pg -> seen_ok s -> P pg enc -> base + zlen (b_ext s') < bound -> place_page base pg enc s = Going s' -> step_ok [pg] s s'.
Proof using HB H0 Hb.
  intros HC Hs HPe Hl. pose proof (HB _ _ HPe). pose proof (zlen_nonneg enc). pose proof (zlen_nonneg (b_ext s)). unfold place_page. destruct (appendBlob _ _ _ _) as [ext at_] eqn:EA. destruct (put_locator _ _ _ _) as [pl|] eqn:E2; [|done]. intros [= <-]. cbn [b_ext b_pl] in *.
  assert (zlen (b_ext s) <= zlen ext) as Lx.
  { unfold appendBlob in EA. apply pair_equal_spec in EA as [<- _]. rewrite !zlen_app. pose proof (zlen_nonneg (stored_block pg enc)). rewrite zlen_rblob. lia. }
  rewrite appendBlob_eq in EA by lia. apply pair_equal_spec in EA as [<- <-]. rewrite !zlen_app, zlen_rblob in Hl. pose proof (zlen_nonneg (stored_block pg enc)).
  apply put_locator_some in E2 as (A1 & A2 & A3 & A4). destruct (getLE_locator _ _ _ _ A2 A3) as [G1 G2]; [lia|lia|].
  set (s' := mkBuild _ _ _ _ _ _ _). assert (grown s s') as Gr.
  { split; [by eexists|]. split; [done|]. exists [page_range pg]. split; [done|]. apply Forall_cons. split; [by exists pg|constructor]. }
  assert (placed (b_ext s') (pg_offset pg) (pg_nbytes pg) (base + zlen (b_ext s) + 42) pg enc) as Pl.
  { split; [done|]. split; [done|]. split; [done|]. split; [lia|]. cbn [s' b_ext]. rewrite !zlen_app, zlen_rblob. split; [lia|].
    replace (base + zlen (b_ext s) + 42 - base) with (zlen (b_ext s) + 42) by lia. rewrite zsub_app_r by lia. rewrite zsub_app_r by (rewrite zlen_rblob; lia). rewrite zlen_rblob.
    replace (zlen (b_ext s) + 42 - zlen (b_ext s) - 42) with 0 by lia. by apply zsub_all. }
  split; [done| |done| |].
  - intros off nb a size. cbn [s' seen]. intros Hlk. destruct (decide ((pg_offset pg, pg_nbytes pg) = (off, nb))) as [[= <- <-]|N].
    + rewrite lookup_insert_eq in Hlk. injection Hlk as <- <-. exists pg, enc. split; [by rewrite w32_small by lia|done].
    + rewrite lookup_insert_ne in Hlk by done. destruct (Hs _ _ _ _ Hlk) as (q & e' & -> & Hq). exists q, e'. split; [done|]. by apply (placed_grown s).
  - intros o n Ho Hn Hf. apply Forall_cons in Hf as [Hf _]. apply A4; [done|done|exact Hf].
  - apply Forall_cons. split; [|constructor]. exists pg, enc, (base + zlen (b_ext s) + 42). done.
Qed.
Lemma with_tally_grown s n s' : grown (with_tally s n) s' <-> grown s s'.
Proof using. done. Qed.
Lemma do_page_grown ri pi pg s w s' : C pg -> fst (do_page block base ri pi pg s w) = Going s' -> grown s s'.
Proof using.
  intros HC. unfold do_page. destruct (seen s !! _) as [[at_ size]|]; cbn [fst mret_].
  - unfold share_page. destruct (put_locator _ _ _ _); [|done]. intros [= <-]. by apply grown_same.
  - unfold mbind_. destruct (block ri pi pg w) as [[enc raw dec|] w']; cbn [fst mret_]; [|done]. unfold place_page. cbv zeta. destruct (appendBlob _ _ _ _) as [ext at_] eqn:EA. destruct (put_locator _ _ _ _); [|done]. intros [= <-].
    unfold appendBlob in EA. apply pair_equal_spec in EA as [<- _]. cbn [with_tally b_ext]. rewrite <- app_assoc. split; [by eexists|]. split; [done|]. exists [page_range pg]. split; [done|]. apply Forall_cons. split; [by exists pg|constructor].
Qed.
Lemma do_page_ok ri pi pg s w s' : C pg -> seen_ok s -> base + zlen (b_ext s') < bound -> fst (do_page block base ri pi pg s w) = Going s' -> step_ok [pg] s s'.
Proof using HP HB H0 Hb.
  intros Hc Hs Hl Hd. pose proof (grown_len _ _ (do_page_grown _ _ _ _ _ _ Hc Hd)) as Gl. unfold do_page in Hd. destruct (seen s !! _) as [[at_ size]|] eqn:Es; cbn [fst mret_] in Hd.
  - eapply share_ok; [done|lia|exact Es|done].
  - unfold mbind_ in Hd. destruct (block ri pi pg w) as [[enc raw dec|] w'] eqn:Eb; cbn [fst mret_] in Hd; [|done].
    assert (P pg enc) as HPe by (apply (HP ri pi pg w enc raw dec); [done|by rewrite Eb]). destruct (place_page_ok pg enc (with_tally s (count_block (b_tally s) raw dec)) s' Hc Hs HPe Hl Hd) as [S1 S2 S3 S4 S5]. by split.
Qed.

(** ** The pages of a range *)
Lemma done_kept pl pl' ext ext' pg : page_done pl ext pg -> (forall off nb at_ q enc, placed ext off nb at_ q enc -> placed ext' off nb at_ q enc) ->
  0 <= recordOffset pg -> zsub pl' (recordOffset pg + 4) 12 = zsub pl (recordOffset pg + 4) 12 -> page_done pl' ext' pg.
Proof using.
  intros (q & enc & at_ & Hq & G1 & G2) Hx H1 H2. exists q, enc, at_. split; [by apply Hx|].
  split; [by rewrite (same_field pl pl' 4 _ _ _ H2) by lia|by rewrite (same_field pl pl' 8 _ _ _ H2) by lia].
Qed.
Lemma step_cons pg l s s1 s2 : 0 <= recordOffset pg -> Forall (fun q => recordOffset pg + 16 <= recordOffset q) l -> step_ok [pg] s s1 -> step_ok l s1 s2 -> step_ok (pg :: l) s s2.
Proof using.
  intros H1 H2 [A1 A2 A3 A4 A5] [B1 B2 B3 B4 B5]. split; [by transitivity s1|done|congruence| |].
  - intros o n Ho Hn Hf. apply Forall_cons in Hf as [F1 F2]. rewrite B4 by done. apply A4; [done|done|]. by apply Forall_cons.
  - apply Forall_cons in A5 as [A5 _]. apply Forall_cons. split; [|done]. eapply done_kept; [exact A5| |done|].
    + intros off nb at_ q enc. by apply placed_grown.
    + apply B4; [lia|lia|]. eapply Forall_impl; [exact H2|]. cbn. lia.
Qed.
Lemma do_pages_grown ri l : Forall C l -> forall pi s w s', fst (do_pages block base ri pi l s w) = Going s' -> grown s s'.
Proof using.
  induction 1 as [|pg l Hc Hcs IH]; intros pi s w s'; cbn [do_pages]; [cbn; intros [= <-]; reflexivity|]. unfold mbind_. destruct (do_page block base ri pi pg s w) as [o w1] eqn:E1. destruct o as [s1| |]; cbn; [|done|done].
  intros H. transitivity s1; [|by eapply IH]. eapply do_page_grown; [exact Hc|by rewrite E1].
Qed.
Lemma do_pages_ok ri l : Forall C l -> forall pi a s w s', 0 <= a -> (forall i pg, l !! i = Some pg -> recordOffset pg = a + 16 * Z.of_nat i) ->
  seen_ok s -> base + zlen (b_ext s') < bound -> fst (do_pages block base ri pi l s w) = Going s' -> step_ok l s s'.
Proof using HP HB H0 Hb.
  induction 1 as [|pg l Hc Hcs IH]; intros pi a s w s' Ha Hrec Hs Hl; cbn [do_pages].
  - cbn. intros [= <-]. split; [reflexivity|done|done|done|constructor].
  - unfold mbind_. destruct (do_page block base ri pi pg s w) as [o w1] eqn:E1. destruct o as [s1| |]; cbn [fst mret_]; [|done|done]. intros H.
    pose proof (grown_len _ _ (do_pages_grown ri l Hcs _ _ _ _ H)) as G. pose proof (Hrec 0%nat pg eq_refl) as R0. assert (forall i q, l !! i = Some q -> recordOffset q = a + 16 + 16 * Z.of_nat i) as Hrec'.
    { intros i q Hi. rewrite (Hrec (S i) q Hi). lia. }
    assert (step_ok [pg] s s1) as S1 by (eapply (do_page_ok ri pi pg s w); [done|done|lia|by rewrite E1]). pose proof (so_seen _ _ _ S1) as Hs1.
    eapply step_cons; [lia| |exact S1|]; [|by eapply (IH (pi + 1) (a + 16)); [lia| | | |exact H]].
    apply Forall_lookup. intros i q Hi. rewrite (Hrec' i q Hi). lia.
Qed.

(** ** Ranges *)
Definition moved (pl ext : bytes) (r : ColumnRange) : Prop := signed 4 (getLE 4 pl (compressionOffset r)) = 500 + level /\ Forall (page_done pl ext) (pages r).
(** The range, over the page list it was: moved, or as it was. *)
Definition settled (pl0 pl ext : bytes) (lv : gset Z) (r : ColumnRange) : Prop :=
  (E r /\ moved pl ext r /\ Forall (fun pg => zsub pl (recordOffset pg) 4 = zsub pl0 (recordOffset pg) 4) (pages r)) \/
  (K r /\ Forall (fun pg => pg_offset pg ∈ lv) (pages r) /\ Forall (fun pg => zsub pl (recordOffset pg) 16 = zsub pl0 (recordOffset pg) 16) (pages r) /\ zsub pl (compressionOffset r) 4 = zsub pl0 (compressionOffset r) 4).
Record built (rs : list ColumnRange) (s s' : Build) : Prop := {
  bt_grown : grown s s'; bt_seen : seen_ok s'; bt_len : zlen (b_pl s') = zlen (b_pl s);
  bt_same : forall o n, 0 <= o -> 0 <= n -> Forall (spares o n) rs -> zsub (b_pl s') o n = zsub (b_pl s) o n;
  bt_each : Forall (settled (b_pl s) (b_pl s') (b_ext s') (live s')) rs }.
Lemma keep_ok r n s : K r -> seen_ok s -> built [r] s (keep_range r n s).
Proof using.
  intros Hk Hs. split; [apply grown_same; [done|apply union_subseteq_l|done]|exact Hs|done|done|]. apply Forall_cons. split; [|constructor]. right. split; [done|]. split; [|split; [by apply Forall_true|done]]. apply Forall_forall. intros pg Hpg. unfold keep_range. cbn [live]. apply elem_of_union_r, elem_of_list_to_set, list_elem_of_fmap. by exists pg.
Qed.
Context (Hlv : 0 <= 500 + level < p31).
Lemma do_range_grown ri r s w s' : Forall C (pages r) -> fst (do_range eligible block base level ri r s w) = Going s' -> grown s s'.
Proof using.
  intros Hcs. unfold do_range, mbind_. destruct (eligible ri r w) as [[| |] w1]; cbn [fst mret_]; [|intros [= <-]; apply grown_same; [done|apply union_subseteq_l|done]..].
  destruct (do_pages _ _ _ _ _ _ _) as [o w2] eqn:E1. destruct o as [s1| |]; cbn [fst mret_]; [|done|done]. destruct (wrLE _ _ _ _) as [pl|]; [|done]. intros [= <-].
  assert (fst (do_pages block base ri 0 (pages r) (with_tally s (count_relocated (b_tally s))) w1) = Going s1) as E2 by (by rewrite E1). by apply do_pages_grown in E2.
Qed.
Lemma do_range_ok ri r a s w s' : Forall C (pages r) -> 0 <= a -> (forall i pg, pages r !! i = Some pg -> recordOffset pg = a + 16 * Z.of_nat i) -> a + 16 * zlen (pages r) <= compressionOffset r ->
  seen_ok s -> base + zlen (b_ext s') < bound -> fst (do_range eligible block base level ri r s w) = Going s' -> built [r] s s'.
Proof using HE HK HP HB H0 Hb Hlv.
  intros Hcs Ha Hrec Hc Hs Hl. unfold do_range, mbind_. destruct (eligible ri r w) as [e w1] eqn:Ee. destruct e as [|codec|]; cbn [fst mret_]; [|intros [= <-]; apply keep_ok; [|done]; apply (HK ri r w); by rewrite Ee..].
  assert (E r) as Er by (apply (HE ri r w); by rewrite Ee). destruct (do_pages _ _ _ _ _ _ _) as [o w2] eqn:E1. destruct o as [s1| |]; cbn [fst mret_]; [|done|done].
  destruct (wrLE _ _ _ _) as [pl|] eqn:E2; [|done]. intros [= <-]. cbn [b_ext] in Hl. apply wrLE_some in E2 as (A1 & A2 & A3 & A4 & A5). change (Z.of_nat 4) with 4 in *.
  assert (step_ok (pages r) (with_tally s (count_relocated (b_tally s))) s1) as [B1 B2 B3 B4 B5] by (eapply (do_pages_ok ri (pages r) Hcs 0 a); [done|done| |exact Hl|by rewrite E1]; exact Hs).
  assert (Forall (fun pg => a <= recordOffset pg /\ recordOffset pg + 16 <= compressionOffset r) (pages r)) as Rec.
  { apply Forall_lookup. intros i pg Hi. pose proof (Hrec i pg Hi). apply lookup_lt_Some in Hi. unfold zlen in Hc. lia. }
  split; cbn [b_ext b_pl seen]; [exact B1|exact B2|cbn in B3; congruence| |].
  - intros o n Ho Hn Hf. apply Forall_cons in Hf as [[F1 F2] _]. rewrite A5 by done. apply B4; [done|done|]. eapply Forall_impl; [exact F1|]. cbn. lia.
  - apply Forall_cons. split; [|constructor]. left. split; [done|]. split; [split|].
    + rewrite (getLE_bytes 4 _ _ _ A4) by (change (p8 ^ Z.of_nat 4) with p32; lia). unfold signed. change (2 ^ (8 * Z.of_nat 4 - 1)) with p31. by rewrite (proj2 (Z.ltb_lt _ _)) by lia.
    + apply Forall_lookup. intros i pg Hi. pose proof (proj1 (Forall_lookup _ _) Rec i pg Hi) as R. pose proof (proj1 (Forall_lookup _ _) B5 i pg Hi) as D. cbn in R. eapply done_kept; [exact D|done|lia|]. apply A5; lia.
    + apply Forall_lookup. intros i pg Hi. pose proof (proj1 (Forall_lookup _ _) Rec i pg Hi) as R. cbn in R. rewrite A5 by lia. apply B4; [lia|lia|].
      apply Forall_lookup. intros j q Hj. rewrite (Hrec i pg Hi), (Hrec j q Hj). lia.
Qed.
Lemma settled_kept pl0 pl1 pl2 ext1 ext2 lv1 lv2 r lo hi : lv1 ⊆ lv2 -> within lo hi r -> 0 <= lo -> (forall off nb at_ q enc, placed ext1 off nb at_ q enc -> placed ext2 off nb at_ q enc) ->
  (forall o n, lo <= o -> 0 <= n -> o + n <= hi -> zsub pl2 o n = zsub pl1 o n) -> settled pl0 pl1 ext1 lv1 r -> settled pl0 pl2 ext2 lv2 r.
Proof using.
  intros Hlv' (H1 & H2 & H3) Hlo Hx Hs [(A1 & (A2 & A3) & A4)|(A0 & A0' & A1 & A2)].
  - left. split; [done|]. rewrite Forall_forall in H1, A3, A4. split; [split|].
    + rewrite <- A2. by rewrite (same_field pl1 pl2 4 _ (compressionOffset r) 4) by (lia || (apply Hs; lia)).
    + apply Forall_forall. intros pg Hpg. specialize (H1 pg Hpg). eapply done_kept; [by apply A3|exact Hx|lia|]. apply Hs; lia.
    + apply Forall_forall. intros pg Hpg. specialize (H1 pg Hpg). rewrite Hs by lia. by apply A4.
  - right. split; [done|]. split; [eapply Forall_impl; [exact A0'|]; intros pg; apply Hlv'|]. rewrite Forall_forall in H1, A1. split; [|rewrite Hs by lia; exact A2]. apply Forall_forall. intros pg Hpg. specialize (H1 pg Hpg). rewrite Hs by lia. by apply A1.
Qed.
Lemma settled_from pl0 pl1 pl ext lv r lo hi : within lo hi r -> 0 <= lo -> (forall o n, lo <= o -> 0 <= n -> o + n <= hi -> zsub pl1 o n = zsub pl0 o n) -> settled pl1 pl ext lv r -> settled pl0 pl ext lv r.
Proof using.
  intros (H1 & H2 & H3) Hlo Hs [(A1 & A2 & A4)|(A0 & A0' & A1 & A2)]; rewrite Forall_forall in H1.
  - left. split; [done|]. split; [done|]. rewrite Forall_forall in A4. apply Forall_forall. intros pg Hpg. specialize (H1 pg Hpg). rewrite A4 by done. apply Hs; lia.
  - right. split; [done|]. split; [done|]. rewrite Forall_forall in A1. split; [|rewrite A2; apply Hs; lia]. apply Forall_forall. intros pg Hpg. specialize (H1 pg Hpg). rewrite A1 by done. apply Hs; lia.
Qed.
Lemma do_ranges_grown l : Forall (fun r => Forall C (pages r)) l -> forall ri s w s', fst (do_ranges eligible block base level ri l s w) = Going s' -> grown s s'.
Proof using.
  induction 1 as [|r l Hcr Hcs IH]; intros ri s w s'; cbn [do_ranges]; [cbn; intros [= <-]; reflexivity|]. unfold mbind_. destruct (do_range _ _ _ _ _ _ _ _) as [o w1] eqn:E1. destruct o as [s1| |]; cbn [fst mret_]; [|done|done].
  intros H. transitivity s1; [|by eapply IH]. eapply do_range_grown; [exact Hcr|by rewrite E1].
Qed.
Lemma do_ranges_ok l : Forall (fun r => Forall C (pages r)) l -> forall ri a e s w s', 0 <= a -> chain a l e -> seen_ok s -> base + zlen (b_ext s') < bound ->
  fst (do_ranges eligible block base level ri l s w) = Going s' -> built l s s'.
Proof using HE HK HP HB H0 Hb Hlv.
  induction 1 as [|r l Hcr Hcs IH]; intros ri a e s w s' Ha Hc Hs Hl; cbn [do_ranges].
  - cbn. intros [= <-]. split; [reflexivity|done|done|done|constructor].
  - unfold mbind_. destruct (do_range _ _ _ _ _ _ _ _) as [o w1] eqn:E1. destruct o as [s1| |]; cbn [fst mret_]; [|done|done]. intros H.
    pose proof (chain_bound _ _ _ Hc) as [_ Bc]. apply Forall_cons in Bc as [Br _]. destruct Hc as (a' & C1 & C2 & C3 & C4). pose proof (chain_bound _ _ _ C4) as [_ Bl]. pose proof (zlen_nonneg (pages r)).
    pose proof (grown_len _ _ (do_ranges_grown l Hcs _ _ _ _ H)) as G.
    assert (built [r] s s1) as [A1 A2 A3 A4 A5] by (eapply (do_range_ok ri r a'); [done|lia|exact C2|exact C3|exact Hs|lia|by rewrite E1]).
    destruct (IH (ri + 1) (compressionOffset r + 4) e s1 w1 s' ltac:(lia) C4 A2 Hl H) as [B1 B2 B3 B4 B5].
    split; [by transitivity s1|done|congruence| |].
    + intros o n Ho Hn Hf. apply Forall_cons in Hf as [F1 F2]. rewrite B4 by done. apply A4; [done|done|]. by apply Forall_cons.
    + apply Forall_cons in A5 as [A5 _]. assert (within a (compressionOffset r + 4) r) as Br'.
      { split; [|lia]. apply Forall_lookup. intros i pg Hi. pose proof (C2 i pg Hi). apply lookup_lt_Some in Hi. unfold zlen in *. lia. }
      apply Forall_cons. split.
      * eapply settled_kept; [apply B1|exact Br'|lia|intros off nb at_ q enc; by apply placed_grown| |exact A5]. intros o n Ho Hn Hon. apply B4; [lia|lia|]. eapply all_spares; [exact Bl|]. lia.
      * rewrite Forall_forall in Bl, B5. apply Forall_forall. intros x Hx. eapply settled_from; [by apply Bl|lia| |by apply B5]. intros o n Ho Hn Hon. apply A4; [lia|lia|].
        apply Forall_cons. split; [|constructor]. eapply within_spares; [exact Br'|]. lia.
Qed.
End build.

(** ** No write outside the page list *)
Section fault.
Context `{CD : Codecs} {W : Type} (eligible : Z -> ColumnRange -> M W Elig) (block : Z -> Z -> PageInfo -> M W Block) (base level : Z).
Definition fine (n : Z) (o : Out Build) : Prop := match o with Going s => zlen (b_pl s) = n /\ Forall is_byte (b_pl s) | Stop rw => rw_error rw <> [] | Fault => False end.
Context (HF : forall ri pi pg w err tr dec, fst (block ri pi pg w) = BFail err tr dec -> err <> []).
Lemma wrLE_in n buf off v : 0 <= off -> off + Z.of_nat n <= zlen buf -> wrLE n buf off v = Some (putLE n buf off v).
Proof using. intros. unfold wrLE. by rewrite !(proj2 (Z.leb_le _ _)) by lia. Qed.
Lemma put_locator_in pl rec size off : 0 <= rec -> rec + 16 <= zlen pl -> Forall is_byte pl -> exists pl', put_locator pl rec size off = Some pl' /\ zlen pl' = zlen pl /\ Forall is_byte pl'.
Proof using.
  intros H1 H2 H3. unfold put_locator. rewrite wrLE_in by lia. rewrite wrLE_in by (rewrite ?zlen_putLE; lia). eexists. split; [done|]. split; [rewrite !zlen_putLE; rewrite ?zlen_putLE; lia|by repeat apply Forall_putLE].
Qed.
Lemma do_page_fine ri pi pg s w n : 0 <= recordOffset pg -> recordOffset pg + 16 <= n -> fine n (Going s) -> fine n (fst (do_page block base ri pi pg s w)).
Proof using HF.
  intros H1 H2 [H3 H4]. unfold do_page. destruct (seen s !! _) as [[at_ size]|]; cbn [fst mret_].
  - unfold share_page. destruct (put_locator_in (b_pl s) (recordOffset pg) size at_ H1 ltac:(lia) H4) as (pl & -> & L & B). split; [by rewrite <- H3|done].
  - unfold mbind_. destruct (block ri pi pg w) as [[enc raw dec|err tr dec] w'] eqn:Eb; cbn [fst mret_]; [|by apply (HF ri pi pg w err tr dec); rewrite Eb]. unfold place_page. destruct (appendBlob _ _ _ _) as [ext at_].
    destruct (put_locator_in (b_pl s) (recordOffset pg) (zlen enc) at_ H1 ltac:(lia) H4) as (pl & E & L & B). cbn [with_tally b_pl]. rewrite E. split; [by rewrite <- H3|done].
Qed.
Lemma do_pages_fine ri l n : Forall (fun pg => 0 <= recordOffset pg /\ recordOffset pg + 16 <= n) l -> forall pi s w, fine n (Going s) -> fine n (fst (do_pages block base ri pi l s w)).
Proof using HF.
  induction 1 as [|pg l [H1 H2] Hl IH]; intros pi s w Hs; cbn [do_pages]; [done|]. unfold mbind_. pose proof (do_page_fine ri pi pg s w n H1 H2 Hs) as P. destruct (do_page _ _ _ _ _ _ _) as [[s1|rw|] w1]; [by apply IH|done|done].
Qed.
Lemma do_range_fine ri r n s w : within 0 n r -> fine n (Going s) -> fine n (fst (do_range eligible block base level ri r s w)).
Proof using HF.
  intros (H1 & H2 & H3) Hs. unfold do_range, mbind_. destruct (eligible ri r w) as [[| |] w1]; cbn [fst mret_]; [|exact Hs|exact Hs].
  pose proof (do_pages_fine ri (pages r) n H1 0 (with_tally s (count_relocated (b_tally s))) w1 Hs) as P. destruct (do_pages _ _ _ _ _ _ _) as [[s1|rw|] w2]; [|done|done]. destruct P as [P1 P2]. cbn [fst mret_].
  rewrite wrLE_in by lia. split; cbn [b_pl]; [by rewrite zlen_putLE by lia|by apply Forall_putLE].
Qed.
Lemma do_ranges_fine l n : Forall (within 0 n) l -> forall ri s w, fine n (Going s) -> fine n (fst (do_ranges eligible block base level ri l s w)).
Proof using HF.
  induction 1 as [|r l Hr Hl IH]; intros ri s w Hs; cbn [do_ranges]; [done|]. unfold mbind_. pose proof (do_range_fine ri r n s w Hr Hs) as P. destruct (do_range _ _ _ _ _ _ _ _) as [[s1|rw|] w1]; [by apply IH|done|done].
Qed.
End fault.
End NBuild.
