(* ===== verification/RNTupleReads.v ===== *)
(** * A recompressed RNTuple, read again (src/transpose/RNTupleMeta.cc, RNTupleRewrite.cc)

    Module NEnvelope: a resealed envelope verifies, a stored one reads back, a patched footer links to the new page
    list, and the patched anchor's checksum is that of its bytes. Module NReads: what an accepted parse has read, and what the
    reader of a virtual file finds where a piece of the overlay lies. *)

From stdpp Require Import sorting.
From S2P Require Import Prelude UrlKey ReplicaFile ReplicaStore ReplicaView RootFile TreeMeta TreeSafe TreeParse FillGeometry Transposer TransposeBasket TransposeFinish TransposeSound Xxh3 RNTupleMeta RNTupleSafe RNTupleSound RNTuplePatch RNTupleRewrite RNTupleBuild.
Local Open Scope u64_scope.

Module NEnvelope.
Import Root Tree NTupleData NTuple NTupleSafe NForward NPatch NRewrite NBuild.

(** ** Sealing *)
Lemma seal_bytes p : Forall is_byte p -> Forall is_byte (sealEnvelope p).
Proof. intros. unfold sealEnvelope. destruct (_ <? 16); [done|by apply Forall_putLE]. Qed.
Lemma seal_spec p : 16 <= zlen p -> zlen (sealEnvelope p) = zlen p /\ (forall o n, 0 <= o -> 0 <= n -> o + n <= zlen p - 8 -> zsub (sealEnvelope p) o n = zsub p o n) /\
  getLE 8 (sealEnvelope p) (zlen p - 8) = Xxh.xxh3_64 (zsub p 0 (zlen p - 8)).
Proof.
  intros H. unfold sealEnvelope. rewrite (proj2 (Z.ltb_ge _ _)) by lia. split; [apply zlen_putLE; lia|]. split; [intros; apply zsub_putLE_before; lia|].
  apply getLE_putLE_same; [lia|lia|]. apply Xxh.xxh3_64_u64.
Qed.
(** An envelope changed past its first word and before its checksum, and sealed, verifies. *)
Lemma seal_verifies p p' ty : verifyEnvelope p ty = None -> zlen p' = zlen p -> zsub p' 0 8 = zsub p 0 8 -> verifyEnvelope (sealEnvelope p') ty = None.
Proof.
  intros Hv Hl Hw. assert (16 <= zlen p) as H16 by (unfold verifyEnvelope in Hv; destruct (zlen p <? 16) eqn:E; b2p; [done|lia]).
  destruct (seal_spec p' ltac:(lia)) as (S1 & S2 & S3). unfold verifyEnvelope in *. rewrite S1, Hl in *. destruct (zlen p <? 16); [done|].
  replace (getLE 8 (sealEnvelope p') 0) with (getLE 8 p 0) by (unfold getLE; rewrite S2 by lia; change (Z.of_nat 8) with 8; by rewrite Hw).
  destruct (negb (_ =? ty)); [done|]. destruct (negb (_ =? zlen p)); [done|]. rewrite S3, S2, Z.eqb_refl by lia. done.
Qed.

(** ** Stored and read back *)
Section codecs.
Context `{CD : Codecs}.
(** The envelope of [len] bytes stored in [nb] bytes at [off] of a file. *)
Definition envelope_at (f : bytes) (off nb len : Z) : bytes :=
  let raw := zsub f off nb in if nb =? len then raw else let out := decompressFrames raw len in if zlen out =? len then out else [].
Lemma read_memory f off nb len : 0 <= off -> 0 < nb -> off + nb <= zlen f -> zlen f < 2 ^ 62 ->
  fst (readEnvelope (Source0 := TransSound.mem_source f) off nb len (zlen f) tt) = envelope_at f off nb len.
Proof.
  intros Ho Hn Hf Hs. unfold readEnvelope, preadRange, mbind_. rewrite (proj2 (Z.eqb_neq nb 0)), (proj2 (Z.ltb_ge _ _)), w64_small, (proj2 (Z.ltb_ge _ _)) by lia.
  cbn [orb has src_read TransSound.mem_source mret_ negb]. unfold mbind_. rewrite !(proj2 (Z.leb_le _ _)) by lia. cbn [andb default from_option id fst mret_].
  unfold bytes_eqb. rewrite bool_decide_false by (intros E; apply (f_equal zlen) in E; rewrite zlen_zsub in E by lia; rewrite zlen_nil in E; lia).
  unfold envelope_at. by destruct (nb =? len).
Qed.
Lemma read_source {W} `{!Source W} orig off nb len fsz w : TransBasket.reads_of orig -> 0 <= nb -> fst (readEnvelope off nb len fsz w) <> [] ->
  fst (readEnvelope off nb len fsz w) = envelope_at orig off nb len /\ 0 <= off /\ 0 < nb /\ off + nb <= zlen orig.
Proof.
  intros Hr Hn. unfold readEnvelope, preadRange, mbind_. destruct (_ || _) eqn:E; [done|]. b2p. destruct (has off nb w) as [[] w1]; cbn [negb]; [|done]. unfold mbind_.
  destruct (src_read nb off w1) as [r w2] eqn:Er. cbn [mret_]. destruct r as [d|]; cbn [default from_option id]; [|done]. destruct (Hr nb off w1 d) as (R1 & R2 & R3 & ->); [by rewrite Er|].
  destruct (bytes_eqb (zsub orig off nb) []) eqn:Eb; [done|]. unfold envelope_at. destruct (nb =? len); cbn [fst mret_]; intros; (split; [done|lia]).
Qed.
Lemma envelope_same f f' off nb len : zsub f' off nb = zsub f off nb -> envelope_at f' off nb len = envelope_at f off nb len.
Proof. unfold envelope_at. by intros ->. Qed.
Lemma store_len env level : zlen (storeEnvelope env level) <= zlen env.
Proof. unfold storeEnvelope. destruct (_ || _) eqn:E; [lia|]. b2p. lia. Qed.
Lemma store_nonempty env level : env <> [] -> 0 < zlen (storeEnvelope env level).
Proof.
  intros He. assert (storeEnvelope env level <> []) as H.
  { unfold storeEnvelope. destruct (_ || _) eqn:E; [done|]. b2p. by apply bool_decide_eq_false in H. }
  pose proof (zlen_nonneg (storeEnvelope env level)). destruct (decide (zlen (storeEnvelope env level) = 0)) as [Z|]; [by apply zlen_0_nil in Z|lia].
Qed.
(** What is stored reads back, wherever it is put. *)
Lemma store_reads env level f off : ZstdLaw -> zlen env <= kMaxFrame -> zsub f off (zlen (storeEnvelope env level)) = storeEnvelope env level ->
  envelope_at f off (zlen (storeEnvelope env level)) (zlen env) = env.
Proof.
  intros HL Hm E. unfold envelope_at. rewrite E. unfold storeEnvelope. destruct (bytes_eqb (encodeZstdFrames env level) [] || (zlen env <=? zlen (encodeZstdFrames env level))) eqn:B.
  - by rewrite Z.eqb_refl.
  - b2p. rewrite (proj2 (Z.eqb_neq _ _)) by lia. apply bool_decide_eq_false in H.
    assert (decompressFrames (encodeZstdFrames env level) (zlen env) = env) as ->; [|by rewrite Z.eqb_refl].
    apply frames_roundtrip; [done|by apply frames_fit_small|done].
Qed.
End codecs.

(** ** The footer *)
Lemma footer_patched m ftr la plLen plStored plAt : zlen ftr < p32 -> footer_at ftr la -> la + 12 <= zlen ftr - 8 -> pageListLocatorOffset m = la ->
  0 <= plLen < p64 -> 0 <= plStored < p31 -> 0 <= plAt < p64 ->
  exists ftr', patchFooterLink m ftr plLen plStored plAt = LTrue ftr' /\ zlen ftr' = zlen ftr /\ zsub ftr' 0 8 = zsub ftr 0 8 /\ (Forall is_byte ftr -> Forall is_byte ftr') /\
    footer_at (sealEnvelope ftr') la /\ getLE 8 (sealEnvelope ftr') (la - 8) = plLen /\ signed 4 (getLE 4 (sealEnvelope ftr') la) = plStored /\ getLE 8 (sealEnvelope ftr') (la + 4) = plAt.
Proof.
  intros H32 (sz & h & sz' & h' & F & L & F' & Ela & Hl & H0) H8 Em R1 R2 R3. pose proof F as (F1 & F2 & F3 & F4). pose proof F' as (G1 & G2 & G3 & G4). pose proof L as (L1 & _).
  assert (8 <= h <= 12 /\ 8 <= h' <= 12) as [Hh Hh'] by (destruct F4 as [[_ ->]|[_ ->]], G4 as [[_ ->]|[_ ->]]; lia).
  unfold patchFooterLink. rewrite Em. rewrite (proj2 (Z.ltb_ge la 8)), w32_small, (proj2 (Z.ltb_ge _ _)) by lia. cbn [orb].
  assert (forall n buf off v, 0 <= off -> off + Z.of_nat n <= zlen buf -> wrLE n buf off v = Some (putLE n buf off v)) as W.
  { intros n buf off v Ho Hn. unfold wrLE. by rewrite !(proj2 (Z.leb_le _ _)) by lia. }
  rewrite W by lia. set (f1 := putLE 8 ftr (la - 8) plLen). assert (zlen f1 = zlen ftr) as Z1 by (apply zlen_putLE; lia).
  rewrite W by lia. set (f2 := putLE 4 f1 la plStored). assert (zlen f2 = zlen ftr) as Z2 by (unfold f2; rewrite zlen_putLE by lia; done).
  rewrite W by lia. set (f3 := putLE 8 f2 (la + 4) plAt). assert (zlen f3 = zlen ftr) as Z3 by (unfold f3; rewrite zlen_putLE by lia; done).
  assert (forall o n, 0 <= o -> 0 <= n -> o + n <= la - 8 -> zsub f3 o n = zsub ftr o n) as Low.
  { intros o n Ho Hn Hon. transitivity (zsub f2 o n); [apply zsub_putLE_before; lia|]. transitivity (zsub f1 o n); apply zsub_putLE_before; lia. }
  destruct (seal_spec f3 ltac:(lia)) as (S1 & S2 & _).
  assert (forall o n, 0 <= o -> 0 <= n -> o + n <= la - 8 -> zsub (sealEnvelope f3) o n = zsub ftr o n) as Low'.
  { intros o n Ho Hn Hon. rewrite S2 by lia. by apply Low. }
  assert (getLE 8 (sealEnvelope f3) (la - 8) = plLen /\ getLE 4 (sealEnvelope f3) la = plStored /\ getLE 8 (sealEnvelope f3) (la + 4) = plAt) as (E1 & E2 & E3).
  { unfold getLE. change (Z.of_nat 8) with 8. change (Z.of_nat 4) with 4. rewrite !S2 by lia. split; [|split].
    - assert (zsub f3 (la - 8) 8 = zsub f1 (la - 8) 8) as -> by (transitivity (zsub f2 (la - 8) 8); apply zsub_putLE_before; lia). apply (getLE_putLE_same 8); lia.
    - assert (zsub f3 la 4 = zsub f2 la 4) as -> by (apply zsub_putLE_before; lia). apply (getLE_putLE_same 4); lia.
    - apply (getLE_putLE_same 8); lia. }
  exists f3. split; [done|]. split; [done|]. split; [apply Low; lia|]. split; [intros Hb; by repeat apply Forall_putLE|]. split; [|split; [done|]; split; [|done]].
  - exists sz, h, sz', h'. assert (zlen (sealEnvelope f3) = zlen ftr) as ZS by lia.
    split; [by apply (same_frame ftr); [exact ZS|lia|apply Low'; lia|]|]. split; [by apply (same_list ftr); [exact ZS|lia|apply Low'; lia|]|]. split; [by apply (same_frame ftr); [exact ZS|lia|apply Low'; lia|]|].
    split; [done|]. split; [lia|]. rewrite E2. unfold signed. change (2 ^ (8 * Z.of_nat 4 - 1)) with p31. rewrite (proj2 (Z.ltb_lt _ _)) by lia. lia.
  - rewrite E2. unfold signed. change (2 ^ (8 * Z.of_nat 4 - 1)) with p31. by rewrite (proj2 (Z.ltb_lt _ _)) by lia.
Qed.

(** ** The anchor *)
Lemma be_get n l off : Forall is_byte l -> 0 <= off -> off + Z.of_nat n <= zlen l -> be_bytes n (beGet n l off) = zsub l off (Z.of_nat n).
Proof.
  intros Hb Ho Hn. rewrite beGet_eq by done. unfold be_bytes. pose proof (zlen_zsub l off (Z.of_nat n) Ho ltac:(lia) Hn) as L.
  assert (le_bytes n (le_val (rev (zsub l off (Z.of_nat n)))) = rev (zsub l off (Z.of_nat n))) as ->; [|by rewrite rev_involutive].
  rewrite <- (le_bytes_val (rev (zsub l off (Z.of_nat n)))) at 2 by (by apply Forall_rev, Forall_zsub). f_equal. rewrite length_rev. unfold zlen in L. lia.
Qed.
Lemma beGet_same n p p' off : zsub p' off (Z.of_nat n) = zsub p off (Z.of_nat n) -> beGet n p' off = beGet n p off.
Proof. unfold beGet. by intros ->. Qed.
Definition with_footer (a : RNTupleAnchor) (sf nf lf : Z) : RNTupleAnchor :=
  mkAnchor (versionEpoch a) (versionMajor a) (versionMinor a) (versionPatch a) (seekHeader a) (nbytesHeader a) (lenHeader a) sf nf lf (maxKeySize a) (payloadOffset a) (payloadLength a).
(** The anchor's payload with the patched window. *)
Lemma anchor_patched m ap ap' k sf nf lf : Forall is_byte ap -> 78 <= zlen ap -> zlen ap' = zlen ap -> anchor m = read_anchor ap k ->
  0 <= sf < p64 -> 0 <= nf < p64 -> 0 <= lf < p64 ->
  zsub ap' 0 38 = zsub ap 0 38 -> zsub ap' 38 40 = snd (anchorPatch m sf nf lf) ->
  read_anchor ap' k = with_footer (anchor m) sf nf lf /\ Xxh.xxh3_64 (zsub ap' 6 64) = beGet 8 ap' 70.
Proof.
  intros Hb H78 Hl Ha R1 R2 R3 Lo Wi. set (win := anchor_window (anchor m) sf nf lf). unfold anchorPatch in Wi. cbn [snd] in Wi. fold win in Wi.
  assert (forall o n, 0 <= o -> 0 <= n -> o + n <= 38 -> zsub ap' o n = zsub ap o n) as Low.
  { intros o n Ho Hn Hon. replace o with (0 + o) by lia. rewrite <- !(zsub_zsub _ 0 38) by lia. by rewrite Lo. }
  assert (forall n i v, 0 <= i -> i + Z.of_nat n <= 40 -> 0 <= v < p8 ^ Z.of_nat n -> zsub (zsub ap' 38 40) i (Z.of_nat n) = be_bytes n v -> beGet n ap' (38 + i) = v) as Win.
  { intros n i v Hi Hn Hv E. apply beGet_be; [|done]. rewrite <- E. symmetry. apply zsub_zsub; lia. }
  assert (forall i v t, zsub (be_bytes 8 v ++ t) (8 * Z.of_nat (S i)) 8 = zsub t (8 * Z.of_nat i) 8) as Nx.
  { intros i v t. rewrite zsub_app_r by (rewrite zlen_be; lia). rewrite zlen_be. f_equal. lia. }
  assert (forall v t, zsub (be_bytes 8 v ++ t) (8 * Z.of_nat 0) 8 = be_bytes 8 v) as Fs by (intros v t; apply zsub_app; by rewrite zlen_be).
  pose proof (TreeSafe.beGet_range ap Hb 8 62) as RK. change (2 ^ (8 * Z.of_nat 8)) with p64 in RK.
  assert (beGet 8 ap' 38 = sf /\ beGet 8 ap' 46 = nf /\ beGet 8 ap' 54 = lf /\ beGet 8 ap' 62 = maxKeySize (anchor m) /\ beGet 8 ap' 70 = Xxh.xxh3_64 win) as (G1 & G2 & G3 & G4 & G5).
  { change (p8 ^ Z.of_nat 8) with p64 in *. rewrite Wi in Win. pose proof (Xxh.xxh3_64_u64 win) as Xw. unfold is_u64 in Xw.
    split; [|split; [|split; [|split]]].
    - apply (Win 8%nat (8 * Z.of_nat 0)); [lia|lia|done|apply Fs].
    - apply (Win 8%nat (8 * Z.of_nat 1)); [lia|lia|done|]. rewrite Nx. apply Fs.
    - apply (Win 8%nat (8 * Z.of_nat 2)); [lia|lia|done|]. rewrite !Nx. apply Fs.
    - apply (Win 8%nat (8 * Z.of_nat 3)); [lia|lia|rewrite Ha; exact RK|]. rewrite !Nx. apply Fs.
    - apply (Win 8%nat (8 * Z.of_nat 4)); [lia|lia|done|]. rewrite !Nx. rewrite <- (app_nil_r (be_bytes 8 (Xxh.xxh3_64 win))). apply Fs. }
  assert (forall n o, 0 <= o -> o + Z.of_nat n <= 38 -> beGet n ap' o = beGet n ap o) as Gl by (intros n o Ho Hn; apply beGet_same, Low; lia).
  split.
  - unfold read_anchor at 1. rewrite G1, G2, G3, G4, Hl, !Gl by lia. rewrite Ha. done.
  - rewrite G5. f_equal. unfold win, anchor_window. rewrite Ha. cbn [read_anchor versionEpoch versionMajor versionMinor versionPatch seekHeader nbytesHeader lenHeader maxKeySize].
    rewrite !be_get by (done || lia). change (Z.of_nat 2) with 2. change (Z.of_nat 8) with 8.
    replace (zsub ap' 6 64) with (zsub ap' 6 32 ++ zsub ap' 38 32) by (apply (zsub_join ap' 6 32 32); lia). replace (zsub ap' 38 32) with (be_bytes 8 sf ++ be_bytes 8 nf ++ be_bytes 8 lf ++ be_bytes 8 (maxKeySize (anchor m))).
    + rewrite Low by lia. replace (zsub ap 6 32) with (zsub ap 6 2 ++ zsub ap 8 2 ++ zsub ap 10 2 ++ zsub ap 12 2 ++ zsub ap 14 8 ++ zsub ap 22 8 ++ zsub ap 30 8).
      * rewrite <- !app_assoc. rewrite Ha. cbn [read_anchor maxKeySize]. by rewrite be_get by (done || lia).
      * assert (forall o n q u r, 0 <= o -> 0 <= n -> 0 <= u -> q = o + n -> r = n + u -> zsub ap o n ++ zsub ap q u = zsub ap o r) as J by (intros o n q u r ??? -> ->; by apply zsub_join).
        by rewrite (J 22 8 30 8 16), (J 14 8 22 16 24), (J 12 2 14 24 26), (J 10 2 12 26 28), (J 8 2 10 28 30), (J 6 2 8 30 32) by lia.
    + change (zsub ap' 38 32) with (zsub ap' (38 + 0) 32). rewrite <- (zsub_zsub ap' 38 40 0 32) by lia. rewrite Wi. rewrite !app_assoc. symmetry. apply zsub_app. rewrite !zlen_app, !zlen_be. done.
Qed.
End NEnvelope.

Module NReads.
Import Root Tree TreeParse FillGeometry Trans TransFinish NTupleData NTuple NTupleSafe NTupleParse NForward NPatch NRewrite NBuild NEnvelope.

(** ** What an accepted parse has read *)
Section parsed.
Context `{CD : Codecs}.
Record parsed (orig : bytes) (cm : ContainerMeta) (nt : bytes) (m : RNTupleMeta) (k := anchor_key nt (keys cm)) (a := anchor m) : Prop := {
  pd_key : 0 < nbytes k /\ keylen k <= nbytes k /\ 0 <= objlen k /\ 0 <= seekkey k /\ seekkey k + nbytes k <= zlen orig;
  pd_anchor : exists ap, a = read_anchor ap k /\ 78 <= zlen ap /\ zlen ap = objlen k /\ Forall is_byte ap /\ Xxh.xxh3_64 (zsub ap 6 64) = beGet 8 ap 70 /\
    objlen k = nbytes k - keylen k /\ ap = zsub orig (seekkey k + keylen k) (nbytes k - keylen k);
  pd_header : header m = envelope_at orig (seekHeader a) (nbytesHeader a) (lenHeader a) /\ 0 <= seekHeader a /\ 0 < nbytesHeader a /\ seekHeader a + nbytesHeader a <= zlen orig;
  pd_verified : verifyEnvelope (header m) kEnvelopeHeader = None /\ verifyEnvelope (footer m) kEnvelopeFooter = None /\ verifyEnvelope (pageList m) kEnvelopePageList = None;
  pd_nonempty : header m <> [] /\ footer m <> [] /\ pageList m <> [];
  pd_schema : walk (header_walk (header m)) = Good ((ntupleName m, writer m, columns m), false);
  pd_width : m_headerSeekWidth m = c_headerSeekWidth cm /\ m_fileSize m = w64 (fileSize cm) }.

Lemma key_payload {W} `{!Source W} orig k w ap un : TransBasket.reads_of orig -> Forall is_byte orig -> objlen k = nbytes k - keylen k -> 0 <= keylen k -> @readKeyPayloadFrom W (source_reader 0) CD k w = (ap, un) -> 78 <= zlen (fst ap) ->
  0 < nbytes k /\ keylen k <= nbytes k /\ 0 <= objlen k /\ 0 <= seekkey k /\ seekkey k + nbytes k <= zlen orig /\ zlen (fst ap) = objlen k /\ fst ap = zsub orig (seekkey k + keylen k) (nbytes k - keylen k).
Proof.
  intros Hr Hb Eo Hk. unfold readKeyPayloadFrom. destruct (_ || _)%bool eqn:E; [intros [= <- _] H78; unfold zlen in H78; cbn in H78; lia|]. b2p. unfold mbind_, rd, source_reader. rewrite (proj2 (Z.ltb_ge (seekkey k) 0)) by lia.
  unfold mbind_. destruct (has _ _ w) as [[] w1]; [|intros [= <- _] H78; unfold zlen in H78; cbn in H78; lia]. destruct (src_read _ _ w1) as [r w2] eqn:Er. destruct r as [rec|]; [|intros [= <- _] H78; unfold zlen in H78; cbn in H78; lia].
  destruct (Hr (nbytes k) (seekkey k) w1 rec) as (R1 & R2 & R3 & ->); [by rewrite Er|]. intros [= <- _]. cbn [fst].
  destruct (zlen _ =? objlen k) eqn:El; [|intros H78; unfold zlen in H78; cbn in H78; lia]. b2p. intros H78. split; [lia|]. split; [lia|]. split; [lia|]. split; [lia|]. split; [lia|]. split; [done|].
  rewrite Eo, Z.eqb_refl. rewrite zlen_zsub by lia. apply zsub_zsub; lia.
Qed.
Lemma parsed_of {W} `{!Source W} orig cm nt m w : TransBasket.reads_of orig -> Forall is_byte orig -> fileSize cm = zlen orig -> zlen orig < 2 ^ 40 ->
  Forall key_ok (keys cm) -> payloadOffset (anchor m) <> 0 -> fst (parseRNTupleFrom cm nt w) = Good m -> parsed orig cm nt m.
Proof.
  intros Hr Hb Hf H40 Hk Hpo. pose proof (zlen_nonneg orig). unfold parseRNTupleFrom. destruct (negb (bytes_eqb _ _)) eqn:Ee; [done|]. rewrite Hf, (w64_small (zlen orig)) by lia.
  destruct (anchor_key_ok nt (keys cm) Hk) as [(K1 & _) _].
  destruct (nbytes (anchor_key nt (keys cm)) =? 0) eqn:E0; [done|]. set (k := anchor_key nt (keys cm)) in *. unfold mbind_ at 1. destruct (readKeyPayloadFrom k w) as [ap w1] eqn:Ek.
  destruct (zlen (fst ap) <? 78) eqn:E78; [done|]. b2p. 
  destruct (negb (Xxh.xxh3_64 _ =? _)) eqn:Eh; [done|]. set (a := read_anchor (fst ap) k) in *.
  unfold mbind_ at 1. destruct (readEnvelope (seekHeader a) _ _ _ w1) as [hdr w2] eqn:E1. unfold mbind_ at 1. destruct (readEnvelope (seekFooter a) _ _ _ w2) as [ftr w3] eqn:E2.
  unfold envelopes at 1. destruct (bytes_eqb hdr [] || bytes_eqb ftr []) eqn:Ene; [done|]. b2p. repeat match goal with H : bytes_eqb _ [] = false |- _ => apply bool_decide_eq_false in H end.
  destruct (verifyEnvelope hdr _) eqn:V1; [done|]. destruct (verifyEnvelope ftr _) eqn:V2; [done|]. destruct (walk (header_walk hdr)) as [| |[[[nm wr] cols] []]] eqn:Wh; [done|done|done|].
  destruct (walk (footer_walk ftr)) as [| |[[[|lk [|]]|] []]]; try done. unfold mbind_ at 1. destruct (readEnvelope (lk_off lk) _ _ _ w3) as [pl w4] eqn:E3.
  unfold with_pagelist. destruct (bytes_eqb pl []) eqn:Epl; [done|]. apply bool_decide_eq_false in Epl. destruct (verifyEnvelope pl _) eqn:V3; [done|]. destruct (walk (pagelist_walk pl _)) as [| |[[[ns en] rs] []]]; [done|done|done|].
  cbn [fst mret_]. intros [= <-]. cbn [anchor] in Hpo. assert (objlen k = nbytes k - keylen k) as Eo.
  { unfold a, read_anchor in Hpo. cbn [payloadOffset] in Hpo. destruct (objlen k =? nbytes k - keylen k) eqn:Eo; b2p; [done|by destruct Hpo]. }
  destruct (key_payload orig k w ap w1 Hr Hb Eo ltac:(lia) Ek E78) as (P1 & P2 & P3 & P4 & P5 & P6 & P7).
  assert (Forall is_byte (fst ap)) as Bap by (rewrite P7; by apply Forall_zsub). pose proof (TreeSafe.beGet_range (fst ap) Bap 8 22) as R.
  split; cbn [anchor header footer pageList ntupleName writer columns m_headerSeekWidth m_fileSize]; try done.
  - exists (fst ap). split; [done|]. split; [lia|]. split; [done|]. split; [by b2p|]. done.
  - destruct (read_source orig (seekHeader a) (nbytesHeader a) (lenHeader a) (zlen orig) w1 Hr) as (E & E' & E''); [cbn; lia|by rewrite E1|]. rewrite E1 in E. by split.
  - split; [done|]. by rewrite Hf, w64_small by lia.
Qed.
End parsed.

(** ** A finished build *)
Section finished.
Context `{CD : Codecs}.
Record finished (m : RNTupleMeta) (base level : Z) (s : Build) (rw : RNTupleRewrite) (ftr : bytes)
    (pl := sealEnvelope (b_pl s)) (plS := storeEnvelope pl level) (plAt := base + zlen (b_ext s) + 42)
    (fl := sealEnvelope ftr) (fS := storeEnvelope fl level) (fAt := plAt + zlen plS + 42) : Prop := {
  fi_footer : patchFooterLink m (footer m) (zlen pl) (zlen plS) plAt = LTrue ftr;
  fi_ext : exists k1 k2, extension rw = b_ext s ++ k1 ++ plS ++ k2 ++ fS /\ zlen k1 = 42 /\ zlen k2 = 42;
  fi_anchor : payloadOffset (anchor m) <> 0 /\ 78 <= payloadLength (anchor m);
  fi_patches : patches rw = [anchorPatch m fAt (zlen fS) (zlen fl); (12, be_bytes (Z.to_nat (m_headerSeekWidth m)) (base + zlen (extension rw)))];
  fi_width : m_headerSeekWidth m = 4 -> base + zlen (extension rw) < p31;
  fi_base : extBase rw = base;
  fi_superseded : rw_superseded rw = List.filter (fun r => negb (bool_decide (Replica.roff r ∈ live s))) (candidates s) }.
Lemma finish_inv m base level s rw : 0 <= base -> finish m base level s = Some rw -> rw_error rw = [] -> base + zlen (extension rw) < 2 ^ 62 ->
  exists ftr, finished m base level s rw ftr.
Proof.
  intros H0 Hf He Hs. unfold finish in Hf. destruct (rangesRelocated _ =? 0); [by injection Hf as <-|]. cbv zeta in Hf.
  set (pl := sealEnvelope (b_pl s)) in *. set (plS := storeEnvelope pl level) in *. destruct (appendBlob (b_ext s) base plS (zlen pl)) as [ext plAt] eqn:E1.
  destruct (patchFooterLink m (footer m) (zlen pl) (zlen plS) plAt) as [| |ftr] eqn:E2; [done|by injection Hf as <-|]. set (fS := storeEnvelope (sealEnvelope ftr) level) in *.
  destruct (appendBlob ext base fS (zlen (sealEnvelope ftr))) as [ext2 ftrAt] eqn:E3. destruct (payloadOffset (anchor m) =? 0) eqn:E4; [by injection Hf as <-|].
  destruct (payloadLength (anchor m) <? 78) eqn:E5; [by injection Hf as <-|]. b2p.
  pose proof (zlen_nonneg plS). pose proof (zlen_nonneg fS). pose proof (zlen_nonneg (b_ext s)).
  assert (zlen ext = zlen (b_ext s) + 42 + zlen plS) as L1.
  { unfold appendBlob in E1. apply pair_equal_spec in E1 as [<- _]. rewrite !zlen_app, zlen_rblob. lia. }
  assert (zlen ext2 = zlen ext + 42 + zlen fS) as L2.
  { unfold appendBlob in E3. apply pair_equal_spec in E3 as [<- _]. rewrite !zlen_app, zlen_rblob. lia. }
  destruct (_ && _) eqn:E6; [by injection Hf as <-|]. injection Hf as <-. cbn [extension patches extBase] in *.
  rewrite (appendBlob_eq base H0) in E1 by lia. rewrite (appendBlob_eq base H0) in E3 by lia. apply pair_equal_spec in E1 as [X1 A1]. apply pair_equal_spec in E3 as [X2 A2].
  rewrite (w64_small (base + zlen ext2)) in * by lia.
  assert (ftrAt = base + zlen (b_ext s) + 42 + zlen plS + 42) as A3 by lia. exists ftr. split; cbn [extension patches extBase]; fold pl plS fS.
  - by rewrite A1.
  - exists (rblob_key (base + zlen (b_ext s)) (zlen plS) (zlen pl)), (rblob_key (base + zlen ext) (zlen fS) (zlen (sealEnvelope ftr))). split; [|by rewrite !zlen_rblob].
    rewrite <- X2, <- X1. by rewrite <- !app_assoc.
  - done.
  - by rewrite A3.
  - intros Ew. rewrite Ew in E6. apply andb_false_iff in E6 as [E6|E6]; [done|]. b2p. lia.
  - done.
  - done.
Qed.
End finished.

(** ** The file the overlay describes *)
Lemma two_pieces a b : fst b < fst a -> by_offset [a; b] = [b; a].
Proof. intros H. unfold by_offset, merge_sort. cbn. rewrite decide_False by (unfold piece_le; lia). done. Qed.
Section view.
Context (orig : bytes) (ov : Overlay) (hw po base : Z) (hd win ext : bytes).
Context (Hw : hw = 4 \/ hw = 8) (Hpo : 12 + hw <= po) (Hb : base = zlen orig) (Hin : po + 40 <= base) (Hx : 0 < zlen ext) (Lh : zlen hd = hw) (Lw : zlen win = 40).
Context (Ed : tdata ov = (hd ++ win) ++ ext) (Ev : Replica.virtualSize (o_meta ov) = base + zlen ext).
Context (Ee : Replica.extents (o_meta ov) = [Replica.mkExtent 12 hw 0; Replica.mkExtent po 40 hw; Replica.mkExtent base (zlen ext) (hw + 40)]).
Let V := vfile orig ov.
Lemma view_len : zlen V = base + zlen ext.
Proof using Hw Hpo Hin Hx Hb Ev. unfold V. rewrite zlen_vfile; [done|]. pose proof (zlen_nonneg ext). pose proof (zlen_nonneg orig). lia. Qed.
Lemma view_source x : RView.source (Replica.extents (o_meta ov)) x =
  if (12 <=? x) && (x <? 12 + hw) then Some (x - 12) else if (po <=? x) && (x <? po + 40) then Some (hw + (x - po))
  else if (base <=? x) && (x <? base + zlen ext) then Some (hw + 40 + (x - base)) else None.
Proof using Ee. rewrite Ee. apply TransSound.source_three. Qed.
Lemma view_header : zsub V 12 hw = hd.
Proof using Hw Hpo Hb Hin Lh Lw Ed Ev Ee Hx.
  unfold V. rewrite (vfile_over orig ov 12 hw 0).
  - rewrite Ed, <- app_assoc. apply zsub_app. lia.
  - lia.
  - lia.
  - rewrite Ev. lia.
  - lia.
  - rewrite Ed, !zlen_app. lia.
  - intros x Hxx. rewrite view_source, (proj2 (Z.leb_le 12 x)), (proj2 (Z.ltb_lt x _)) by lia. cbn. f_equal; lia.
Qed.
Lemma view_window : zsub V po 40 = win.
Proof using Hw Hpo Hb Hin Lh Lw Ed Ev Ee Hx.
  unfold V. rewrite (vfile_over orig ov po 40 hw).
  - rewrite Ed, <- app_assoc, zsub_app_r by lia. rewrite Lh, Z.sub_diag. by apply zsub_app.
  - lia.
  - lia.
  - rewrite Ev. lia.
  - lia.
  - rewrite Ed, !zlen_app. lia.
  - intros x Hxx. rewrite view_source. rewrite (proj2 (Z.ltb_ge x (12 + hw))), andb_false_r by lia. by rewrite (proj2 (Z.leb_le po x)), (proj2 (Z.ltb_lt x _)) by lia.
Qed.
Lemma view_ext o n : 0 <= o -> 0 <= n -> o + n <= zlen ext -> zsub V (base + o) n = zsub ext o n.
Proof using Hw Hpo Hb Hin Lh Lw Ed Ev Ee Hx.
  intros Ho Hn Hon. unfold V. rewrite (vfile_over orig ov (base + o) n (hw + 40 + o)).
  - rewrite Ed, zsub_app_r by (rewrite zlen_app; lia). f_equal. rewrite zlen_app. lia.
  - pose proof (zlen_nonneg orig). lia.
  - lia.
  - rewrite Ev. lia.
  - lia.
  - rewrite Ed, !zlen_app. lia.
  - intros x Hxx. rewrite view_source. rewrite (proj2 (Z.ltb_ge x (12 + hw))), (proj2 (Z.ltb_ge x (po + 40))), !andb_false_r by lia.
    rewrite (proj2 (Z.leb_le base x)), (proj2 (Z.ltb_lt x _)) by lia. cbn. f_equal. lia.
Qed.
Lemma view_orig o n : 0 <= o -> 0 <= n -> o + n <= zlen orig -> apart (o, n) (12, hw) -> apart (o, n) (po, 40) -> zsub V o n = zsub orig o n.
Proof using Hw Hpo Hb Hin Ev Ee Hx.
  intros Ho Hn Hon A1 A2. unfold V. apply vfile_orig; try lia. intros x Hxx. rewrite view_source. unfold apart in A1, A2. cbn [fst snd] in A1, A2.
  assert ((12 <=? x) && (x <? 12 + hw) = false) as -> by (apply andb_false_iff; rewrite Z.leb_gt, Z.ltb_ge; lia).
  assert ((po <=? x) && (x <? po + 40) = false) as -> by (apply andb_false_iff; rewrite Z.leb_gt, Z.ltb_ge; lia).
  by rewrite (proj2 (Z.leb_gt base x)) by lia.
Qed.
End view.
End NReads.
