(* ===== verification/RNTupleSame.v ===== *)
(** * The pages of a recompressed RNTuple (src/transpose/RNTupleRewrite.cc)

    What a reader makes of a page, that a page's new block gives the same, and that the page list of a
    finished build has the original's layout with every moved page on its new block. *)

From S2P Require Import Prelude UrlKey RootFile TreeMeta TransposeBasket Xxh3 RNTupleMeta RNTupleSafe RNTuplePatch RNTupleRewrite RNTupleBuild RNTupleReads.
Local Open Scope u64_scope.

Module NSame.
Import Root Tree NTupleData NTuple NTupleSafe NForward NPatch NRewrite NBuild NEnvelope.

Section codecs.
Context `{CD : Codecs}.

(** ** A page and its content *)

(** What a reader of a file makes of a page record: the block, checked against the checksum after it if it has one,
    is the page when it is as long, and holds its frames otherwise. *)
Definition page_content (f : bytes) (pg : PageInfo) : option bytes :=
  if zlen f <? pg_offset pg + on_disk pg then None
  else
    let raw := zsub f (pg_offset pg) (pg_nbytes pg) in
    if hasChecksum pg && negb (Xxh.xxh3_64 raw =? getLE 8 f (pg_offset pg + pg_nbytes pg)) then None
    else
      let buf := if pg_nbytes pg =? uncompressedBytes pg then raw else decompressFrames raw (uncompressedBytes pg) in
      if zlen buf =? uncompressedBytes pg then Some buf else None.
Lemma content_same f f' pg : pg_offset pg + on_disk pg <= zlen f -> zlen f <= zlen f' -> 0 <= pg_offset pg -> 0 <= pg_nbytes pg ->
  zsub f' (pg_offset pg) (on_disk pg) = zsub f (pg_offset pg) (on_disk pg) -> page_content f' pg = page_content f pg.
Proof.
  intros H1 H2 H3 H4 E. assert (pg_nbytes pg <= on_disk pg) as Hd by (unfold on_disk; destruct (hasChecksum pg); lia).
  assert (zsub f' (pg_offset pg) (pg_nbytes pg) = zsub f (pg_offset pg) (pg_nbytes pg)) as E1.
  { replace (pg_offset pg) with (pg_offset pg + 0) by lia. rewrite <- !(zsub_zsub _ (pg_offset pg) (on_disk pg)) by lia. by rewrite E. }
  unfold page_content. rewrite !(proj2 (Z.ltb_ge _ _)) by lia. rewrite E1. destruct (hasChecksum pg) eqn:Ec; [|done].
  assert (getLE 8 f' (pg_offset pg + pg_nbytes pg) = getLE 8 f (pg_offset pg + pg_nbytes pg)) as ->; [|done].
  apply (same_field f f' 8 _ _ _ E); unfold on_disk; rewrite ?Ec; lia.
Qed.
Lemma content_len f pg buf : page_content f pg = Some buf -> zlen buf = uncompressedBytes pg.
Proof. unfold page_content. destruct (_ <? _); [done|]. destruct (_ && _); [done|]. destruct (_ =? uncompressedBytes pg) eqn:E; [|done]. b2p. by intros [= <-]. Qed.

(** A block that holds a page: the page itself, or shorter frames of it. *)
Definition holds (enc buf : bytes) : Prop := enc = buf \/ (zlen enc < zlen buf /\ decompressFrames enc (zlen buf) = buf).
Definition block_of (orig : bytes) (pg : PageInfo) (enc : bytes) : Prop :=
  exists buf, page_content orig pg = Some buf /\ zlen buf <= kMaxFrame /\ holds enc buf.
Lemma block_len orig pg enc : block_of orig pg enc -> zlen enc < p31.
Proof. intros (buf & _ & H & [->|[H1 _]]); unfold kMaxFrame in *; lia. Qed.
(** The page as it is read from its new place. *)
Lemma moved_content orig f q enc pg : block_of orig q enc -> pg_nbytes pg = zlen enc -> hasChecksum pg = hasChecksum q -> uncompressedBytes pg = uncompressedBytes q ->
  0 <= pg_offset pg -> pg_offset pg + zlen (stored_block q enc) <= zlen f -> zsub f (pg_offset pg) (zlen (stored_block q enc)) = stored_block q enc ->
  page_content f pg = page_content orig q.
Proof.
  intros (buf & Ho & _ & Hh) Hn Hc Hu H0 Hf E. rewrite Ho. pose proof (content_len _ _ _ Ho) as Lb. pose proof (zlen_nonneg enc).
  assert (on_disk pg = zlen (stored_block q enc)) as Ed.
  { unfold on_disk, stored_block. rewrite Hn, Hc. destruct (hasChecksum q); [rewrite zlen_app, zlen_le_bytes|]; lia. }
  assert (zsub f (pg_offset pg) (pg_nbytes pg) = enc) as Er.
  { rewrite Hn. replace (pg_offset pg) with (pg_offset pg + 0) by lia. rewrite <- (zsub_zsub f (pg_offset pg) (zlen (stored_block q enc))) by (unfold stored_block; destruct (hasChecksum q); rewrite ?zlen_app, ?zlen_le_bytes; lia).
    rewrite E. unfold stored_block. destruct (hasChecksum q); [by apply zsub_app|by apply zsub_all]. }
  unfold page_content. rewrite Ed, (proj2 (Z.ltb_ge _ _)), Er by lia.
  assert (hasChecksum pg && negb (Xxh.xxh3_64 enc =? getLE 8 f (pg_offset pg + pg_nbytes pg)) = false) as ->.
  { rewrite Hc. destruct (hasChecksum q) eqn:Eq; [|done]. cbn [andb]. apply negb_false_iff, Z.eqb_eq. unfold stored_block in E. rewrite Eq in E. symmetry. apply getLE_bytes; [|apply Xxh.xxh3_64_u64].
    rewrite Hn. rewrite zlen_app, zlen_le_bytes in E. change (Z.of_nat 8) with 8 in *.
    rewrite <- (zsub_zsub f (pg_offset pg) (zlen enc + 8)) by lia. rewrite E, zsub_app_r by lia. rewrite Z.sub_diag. apply zsub_all. by rewrite zlen_le_bytes. }
  rewrite Hn, Hu, <- Lb. destruct Hh as [->|[H1 H2]]; [by rewrite !Z.eqb_refl|]. rewrite (proj2 (Z.eqb_neq (zlen enc) _)), H2, Z.eqb_refl by lia. done.
Qed.

(** ** The block made of the original's bytes *)
Lemma decompress_nil n : 0 < n -> zlen (decompressFrames [] n) <> n.
Proof.
  intros Hn E. assert (decompressFrames [] n = []) as X; [|rewrite X, zlen_nil in E; lia].
  unfold decompressFrames. cbn [length frames]. change (zlen []) with 0. rewrite (proj2 (Z.ltb_lt 0 n)) by lia. unfold frame_at. by change (zlen [] <? 0 + 9) with true.
Qed.
Lemma recode_ok pg level raw enc fl dec : ZstdLaw -> uncompressedBytes pg <= kMaxFrame -> 0 <= uncompressedBytes pg -> recode pg level raw = BGot enc fl dec ->
  let buf := if pg_nbytes pg =? uncompressedBytes pg then raw else decompressFrames raw (uncompressedBytes pg) in
  0 < uncompressedBytes pg /\ zlen buf = uncompressedBytes pg /\ holds enc buf.
Proof.
  intros HL Hm H0. unfold recode. cbn zeta. destruct (uncompressedBytes pg =? 0) eqn:E0; [done|]. b2p. set (buf := if pg_nbytes pg =? _ then raw else _).
  destruct (negb (zlen buf =? _)) eqn:El; [done|]. b2p. destruct (_ && _) eqn:Ee; [done|]. destruct (zlen buf <=? zlen _) eqn:Es; intros [= <- _ _]; (split; [lia|]; split; [done|]); [by left|].
  b2p. right. split; [done|]. assert (encodeZstdFrames buf level <> []) as Hne.
  { apply andb_false_iff in Ee as [Ee|Ee]; [by apply bool_decide_eq_false in Ee|]. apply negb_false_iff, bool_decide_eq_true in Ee. rewrite Ee, zlen_nil in El. lia. }
  apply frames_roundtrip; [done|apply frames_fit_small; [lia|done|done]|done].
Qed.
Definition page_fits (pg : PageInfo) : Prop := 0 <= pg_offset pg < p64 /\ 0 <= pg_nbytes pg < p31 /\ 0 <= uncompressedBytes pg <= kMaxFrame.
Lemma source_block_ok {W} `{!Source W} orig level ri pi pg w enc fl dec : ZstdLaw -> TransBasket.reads_of orig -> zlen orig < 2 ^ 62 -> page_fits pg ->
  fst (source_block level ri pi pg w) = BGot enc fl dec -> block_of orig pg enc.
Proof.
  intros HL Hr Hz (F1 & F2 & F3). unfold source_block, mbind_. destruct (has _ _ w) as [[] w1]; cbn [negb]; [|done]. destruct (read_page pg w1) as [r w2] eqn:Er. destruct r as [raw|]; [|done].
  assert (forall b, recode pg level raw = BGot enc fl dec -> (b = true -> pg_nbytes pg <> 0 -> hasChecksum pg = true -> Xxh.xxh3_64 raw = getLE 8 orig (pg_offset pg + pg_nbytes pg) /\ pg_offset pg + pg_nbytes pg + 8 <= zlen orig) ->
    b = hasChecksum pg -> block_of orig pg enc) as Key.
  { intros b Hb Hck Eb. destruct (recode_ok pg level raw enc fl dec HL ltac:(lia) ltac:(lia) Hb) as (R1 & R2 & R3). cbn zeta in *. unfold read_page in Er. destruct (pg_nbytes pg =? 0) eqn:E0; b2p.
    { injection Er as <- _. rewrite E0, (proj2 (Z.eqb_neq 0 _)) in R2 by lia. by apply decompress_nil in R2. }
    destruct (Hr (pg_nbytes pg) (pg_offset pg) w1 raw) as (_ & _ & Hin & Ew); [by rewrite Er|]. rewrite Ew in R2, R3.
    exists (if pg_nbytes pg =? uncompressedBytes pg then zsub orig (pg_offset pg) (pg_nbytes pg) else decompressFrames (zsub orig (pg_offset pg) (pg_nbytes pg)) (uncompressedBytes pg)).
    split; [|split; [lia|done]]. unfold page_content. assert (pg_offset pg + on_disk pg <= zlen orig) as Hod.
    { unfold on_disk. destruct (hasChecksum pg); [|lia]. destruct (Hck Eb E0 eq_refl). lia. }
    rewrite (proj2 (Z.ltb_ge _ _)) by lia. rewrite R2, Z.eqb_refl. destruct (hasChecksum pg); cbn [andb]; [|done]. destruct (Hck Eb E0 eq_refl) as [<- _]. by rewrite Ew, Z.eqb_refl. }
  destruct (hasChecksum pg) eqn:Ec; [|by intros Hb; apply (Key false)].
  unfold mbind_. destruct (src_read 8 _ w2) as [c w3] eqn:Eck. destruct c as [ck|]; [|done]. destruct (negb (Xxh.xxh3_64 raw =? le_val ck)) eqn:Ex; [done|]. b2p.
  intros Hb. apply (Key true); [done| |done]. intros _ Hn0 _. unfold read_page in Er. rewrite (proj2 (Z.eqb_neq _ _)) in Er by done. destruct (Hr (pg_nbytes pg) (pg_offset pg) w1 raw) as (_ & _ & Hin & _); [by rewrite Er|].
  rewrite w64_small in Eck by lia. destruct (Hr 8 (pg_offset pg + pg_nbytes pg) w2 ck) as (_ & _ & Hin2 & ->); [by rewrite Eck|]. done.
Qed.

(** ** Ranges, before and after *)
Record same_page (orig f : bytes) (pg pg' : PageInfo) : Prop := {
  sp_elements : nElements pg' = nElements pg; sp_checksum : hasChecksum pg' = hasChecksum pg; sp_bytes : uncompressedBytes pg' = uncompressedBytes pg;
  sp_record : recordOffset pg' = recordOffset pg; sp_content : page_content f pg' = page_content orig pg }.
(** Moved behind the original's end in the new setting, or as it was. *)
Record reads_range (E K : ColumnRange -> Prop) (level : Z) (orig f : bytes) (r r' : ColumnRange) : Prop := {
  rr_ids : clusterId r' = clusterId r /\ columnId r' = columnId r /\ compressionOffset r' = compressionOffset r;
  rr_pages : Forall2 (same_page orig f) (pages r) (pages r');
  rr_kind : (E r /\ compressionSettings r' = 500 + level /\ Forall (fun pg => zlen orig <= pg_offset pg) (pages r') /\ Forall (fun pg => is_Some (page_content orig pg)) (pages r)) \/
            (K r /\ r' = r) }.
Definition page_in (m : RNTupleMeta) (pg : PageInfo) : Prop := exists r, r ∈ ranges m /\ pg ∈ pages r.
(** Records of one block agree on what it is. *)
Definition shares_agree (m : RNTupleMeta) : Prop := forall p q, page_in m p -> page_in m q -> pg_offset p = pg_offset q -> pg_nbytes p = pg_nbytes q ->
  hasChecksum p = hasChecksum q /\ uncompressedBytes p = uncompressedBytes q.
Definition pages_kept (orig f : bytes) (m : RNTupleMeta) : Prop := forall pg, page_in m pg ->
  pg_offset pg + on_disk pg <= zlen orig /\ zsub f (pg_offset pg) (on_disk pg) = zsub orig (pg_offset pg) (on_disk pg).

Section relist.
Context (orig f : bytes) (m : RNTupleMeta) (level : Z) (E K : ColumnRange -> Prop) (s : Build) (a e ns en : Z) (ls : list (list ColumnRange)).
Let p := pageList m.
Let cols := columns m.
Let C (pg : PageInfo) := page_fits pg /\ page_in m pg.
Let P (pg : PageInfo) (enc : bytes) := block_of orig pg enc /\ C pg.
Context (Hp : Forall is_byte p) (Hs32 : zlen p <= kMaxFrame) (Hv : verifyEnvelope p kEnvelopePageList = None).
Context (Hr : ranges m = concat ls) (Hlay : pagelist_at p cols a ns en a ls e) (He : e <= zlen p - 8).
Context (Hb : built E K C P (zlen orig) level (ranges m) (start m) s) (Hlv : 0 <= 500 + level < p31).
Context (Hagree : shares_agree m) (Hkept : pages_kept orig f m) (Hlen : zlen orig <= zlen f).
Context (Hext : forall o n, 0 <= o -> 0 <= n -> o + n <= zlen (b_ext s) -> zlen orig + o + n <= zlen f /\ zsub f (zlen orig + o) n = zsub (b_ext s) o n).
Let p' := sealEnvelope (b_pl s).

Lemma list_facts : zlen p < p32 /\ 16 <= zlen p /\ zlen (b_pl s) = zlen p /\ zlen p' = zlen p /\ (forall o n, 0 <= o -> 0 <= n -> o + n <= zlen p - 8 -> zsub p' o n = zsub (b_pl s) o n) /\
  Forall (within 28 e) (ranges m) /\ Forall (as_written p cols) (ranges m).
Proof using Hs32 Hlay He Hb Hr.
  unfold kMaxFrame in *. assert (zlen p < p32) as H32 by lia. pose proof Hlay as (L1 & L2 & L3 & L4). destruct L1 as (L1 & _). destruct L3 as (L3 & _).
  pose proof (summaries_len p a _ _ _ _ _ L2) as [S _]. pose proof (bt_len _ _ _ _ _ _ _ _ _ Hb) as Bl. cbn [start b_pl] in Bl. fold p in Bl.
  destruct (seal_spec (b_pl s) ltac:(lia)) as (S1 & S2 & _). rewrite Bl in S1, S2. split; [done|]. split; [lia|]. split; [done|]. split; [done|]. split; [done|].
  pose proof (clusters_chain p H32 cols ls 0 (a + 12) e ltac:(lia) L4) as Ch. pose proof (chain_bound _ _ _ Ch) as [_ B]. rewrite Hr. split; [eapply all_wider; [| |exact B]; lia|].
  eapply clusters_written; [done| |exact L4]. lia.
Qed.
Lemma page_record_in r pg : r ∈ ranges m -> pg ∈ pages r -> 28 <= recordOffset pg /\ recordOffset pg + 16 <= zlen p - 8.
Proof using Hs32 Hlay He Hb Hr.
  intros H1 H2. destruct list_facts as (_ & _ & _ & _ & _ & W & _). rewrite Forall_forall in W. destruct (W r H1) as (W1 & _). rewrite Forall_forall in W1. specialize (W1 pg H2). cbn in W1. lia.
Qed.
(** One record of a moved range. *)
Lemma page_moved r pg : r ∈ ranges m -> pg ∈ pages r -> page_done P (zlen orig) (b_pl s) (b_ext s) pg -> zsub (b_pl s) (recordOffset pg) 4 = zsub p (recordOffset pg) 4 ->
  let pg' := page_of p' (bits_of cols (columnId r)) (recordOffset pg) in
  same_page orig f pg pg' /\ 0 <= pg_nbytes pg' /\ zlen orig <= pg_offset pg' /\ is_Some (page_content orig pg).
Proof using All.
  intros H1 H2 (q & enc & at_ & (Q1 & Q2 & (Q3 & Q3') & Q4 & Q5 & Q6) & G1 & G2) Hn4. destruct list_facts as (H32 & _ & L1 & L2 & Same & _ & Wr). pose proof (page_record_in r pg H1 H2) as PE.
  rewrite Forall_forall in Wr. destruct (Wr r H1) as [Wp _]. rewrite Forall_forall in Wp. destruct (Wp pg H2) as [Wpg Wnn].
  assert (forall k q0, recordOffset pg <= q0 -> q0 + Z.of_nat k <= recordOffset pg + 16 -> getLE k p' q0 = getLE k (b_pl s) q0) as Sk.
  { intros k q0 Hq1 Hq2. apply (same_field (b_pl s) p' k q0 (recordOffset pg) 16); [|lia|lia|lia]. apply Same; lia. }
  assert (getLE 4 p' (recordOffset pg) = getLE 4 p (recordOffset pg)) as E4.
  { rewrite Sk by lia. by apply (same_field p (b_pl s) 4 _ _ 4 Hn4); lia. }
  assert (page_in m pg) as Hin by (exists r; done). destruct (Hagree q pg (proj2 Q3') Hin Q1 Q2) as [A1 A2].
  pose proof (block_len _ _ _ Q3). pose proof (zlen_nonneg enc). pose proof (zlen_nonneg orig). pose proof (zlen_nonneg (stored_block q enc)).
  cbn zeta. set (pg' := page_of p' _ _). assert (nElements pg' = nElements pg /\ hasChecksum pg' = hasChecksum pg /\ uncompressedBytes pg' = uncompressedBytes pg) as (E1 & E2 & E3).
  { rewrite (f_equal nElements Wpg), (f_equal hasChecksum Wpg), (f_equal uncompressedBytes Wpg). unfold pg', page_of. cbn. by rewrite E4. }
  assert (pg_nbytes pg' = zlen enc) as En. { cbn. rewrite Sk, G1 by lia. unfold signed. change (2 ^ (8 * Z.of_nat 4 - 1)) with p31. by rewrite (proj2 (Z.ltb_lt _ _)) by lia. }
  assert (pg_offset pg' = at_) as Eo by (cbn; rewrite Sk by lia; exact G2).
  destruct (Hext (at_ - zlen orig) (zlen (stored_block q enc)) ltac:(lia) ltac:(lia) ltac:(lia)) as [X1 X2]. replace (zlen orig + (at_ - zlen orig)) with at_ in * by lia.
  assert (page_content orig pg = page_content orig q) as Epq by (unfold page_content, on_disk; by rewrite Q1, Q2, A1, A2).
  split; [|split; [lia|]; split; [lia|]].
  - split; [done|done|done|cbn; by rewrite w32_small by lia|]. rewrite Epq. apply (moved_content orig f q enc pg'); [done|done|congruence|congruence|lia|lia|]. rewrite Eo. rewrite X2. exact Q6.
  - rewrite Epq. destruct Q3 as (buf & -> & _). by eexists.
Qed.
Lemma range_reads r : r ∈ ranges m -> settled E K P (zlen orig) level p (b_pl s) (b_ext s) (live s) r -> sized cols p' r /\ reads_range E K level orig f r (reread cols p' r).
Proof using All.
  intros H1 Hset. destruct list_facts as (H32 & _ & L1 & L2 & Same & W & Wr). rewrite Forall_forall in W, Wr. destruct (W r H1) as (W1 & W2 & W3). destruct (Wr r H1) as [Wp Wc].
  assert (getLE 4 p' (compressionOffset r) = getLE 4 (b_pl s) (compressionOffset r)) as Ec.
  { apply (same_field (b_pl s) p' 4 _ (compressionOffset r) 4); [|lia|lia|lia]. apply Same; lia. }
  destruct Hset as [(S1 & (S2 & S3) & S4)|(S1 & _ & S2 & S3)].
  - rewrite Forall_forall in S3, S4. assert (forall pg, pg ∈ pages r -> _) as PM by (intros pg Hpg; exact (page_moved r pg H1 Hpg (S3 pg Hpg) (S4 pg Hpg))).
    split; [apply Forall_forall; intros pg Hpg; apply (PM pg Hpg)|]. split; [done| |].
    + cbn [reread pages]. apply Forall2_fmap_r. apply Forall_Forall2_diag. apply Forall_forall. intros pg Hpg. apply (PM pg Hpg).
    + left. split; [done|]. cbn [reread compressionSettings pages]. split; [by rewrite Ec|]. split; [apply Forall_fmap|]; apply Forall_forall; intros pg Hpg; apply (PM pg Hpg).
  - rewrite Forall_forall in S2, Wp. assert (forall pg, pg ∈ pages r -> page_of p' (bits_of cols (columnId r)) (recordOffset pg) = pg) as PK.
    { intros pg Hpg. destruct (Wp pg Hpg) as [Wpg _]. rewrite Wpg at 2. pose proof (page_record_in r pg H1 Hpg) as PE. assert (zsub p' (recordOffset pg) 16 = zsub p (recordOffset pg) 16) as E16 by (rewrite Same by lia; by apply S2).
      unfold page_of. rewrite !(same_field p p' 4 _ _ _ E16), !(same_field p p' 8 _ _ _ E16) by lia. done. }
    assert (reread cols p' r = r) as Err.
    { unfold reread. rewrite Ec. rewrite (same_field p (b_pl s) 4 _ _ _ S3) by lia. rewrite <- Wc. transitivity (mkRange (clusterId r) (columnId r) (compressionSettings r) (compressionOffset r) (pages r)); [|by destruct r]. f_equal.
      rewrite <- (list_fmap_id (pages r)) at 2. apply list_fmap_ext. intros i pg Hi. apply PK. by apply list_elem_of_lookup_2 in Hi. }
    split; [apply Forall_forall; intros pg Hpg; rewrite PK by done; by apply Wp|]. rewrite Err. split; [done| |by right]. apply Forall_Forall2_diag, Forall_forall. intros pg Hpg.
    split; [done..|]. destruct (Hkept pg ltac:(by exists r)) as [B1 B2]. destruct (Wp pg Hpg) as [Wpg Wnn]. apply content_same; [done|done| |done|done]. rewrite (f_equal pg_offset Wpg). cbn. pose proof (getLE_range 8 p (recordOffset pg + 8) Hp). lia.
Qed.
(** A page that is read from the original is one that was left, and is in use. *)
Lemma page_live r pg : r ∈ ranges m -> pg ∈ pages (reread cols p' r) -> pg_offset pg < zlen orig -> pg ∈ pages r /\ pg_offset pg ∈ live s.
Proof using All.
  intros H1 H2 H3. pose proof (bt_each _ _ _ _ _ _ _ _ _ Hb) as Ba. rewrite Forall_forall in Ba. specialize (Ba r H1). destruct (range_reads r H1 Ba) as [_ [_ _ [(_ & _ & Far & _)|(_ & Er)]]].
  - rewrite Forall_forall in Far. specialize (Far pg H2). cbn in Far. lia.
  - rewrite Er in H2. split; [done|]. destruct Ba as [(S1 & (S2 & S3) & S4)|(_ & Sl & _)]; [|rewrite Forall_forall in Sl; by apply Sl].
    rewrite Forall_forall in S3, S4. destruct (page_moved r pg H1 H2 (S3 pg H2) (S4 pg H2)) as ([_ _ _ _ _] & _ & Far & _).
    assert (page_of p' (bits_of cols (columnId r)) (recordOffset pg) = pg) as Ep.
    { apply (f_equal pages) in Er. cbn [reread pages] in Er. apply list_elem_of_lookup in H2 as [i Hi]. apply (f_equal (fun l => l !! i)) in Er. rewrite list_lookup_fmap, Hi in Er. by injection Er. }
    rewrite Ep in Far. lia.
Qed.
(** The page list of the build: verified, walked, and range by range the original's. *)
Lemma relisted : verifyEnvelope p' kEnvelopePageList = None /\ zlen p' = zlen p /\ Forall2 (reads_range E K level orig f) (ranges m) (reread cols p' <$> ranges m) /\
  (Forall is_byte p' -> walk (pagelist_walk p' cols) = Good (ns, en, reread cols p' <$> ranges m, false)).
Proof using All.
  destruct list_facts as (H32 & H16 & L1 & L2 & Same & W & Wr). pose proof (bt_same _ _ _ _ _ _ _ _ _ Hb) as Bs. cbn [start b_pl] in Bs. fold p in Bs.
  assert (forall o n, 0 <= o -> 0 <= n -> o + n <= zlen p - 8 -> Forall (spares o n) (ranges m) -> zsub p' o n = zsub p o n) as SB by (intros; rewrite Same by done; by apply Bs).
  pose proof (bt_each _ _ _ _ _ _ _ _ _ Hb) as Ba. cbn [start b_pl] in Ba. fold p in Ba. rewrite Forall_forall in Ba.
  assert (forall r, r ∈ ranges m -> sized cols p' r /\ reads_range E K level orig f r (reread cols p' r)) as RR by (intros r Hin; apply range_reads; [done|by apply Ba]).
  pose proof Hlay as (Y1 & Y2 & _ & Y4). pose proof (summaries_len p a _ _ _ _ _ Y2) as [S _]. pose proof (clusters_len p cols ls _ _ _ Y4) as [CL _]. pose proof (zlen_nonneg ls).
  split; [|split; [done|]; split].
  - apply (seal_verifies p); [done|done|]. apply Bs; [lia|lia|]. eapply all_spares; [exact W|]. lia.
  - apply Forall2_fmap_r, Forall_Forall2_diag, Forall_forall. intros r Hin. by apply RR.
  - intros Hpb. rewrite Hr, <- rereads_concat. eapply (pagelist_fwd p' Hpb ltac:(lia) cols a); [|apply (same_pagelist p H32 cols p' L2)].
    + lia.
    + exact Hlay.
    + rewrite <- Hr. intros o n Ho Hn Hon Hsp. apply SB; [lia|lia|lia|done].
    + rewrite <- Hr. apply Forall_forall. intros r Hin. by apply RR.
Qed.
End relist.
End codecs.
End NSame.
