(* ===== verification/RNTupleReplica.v ===== *)
(** * A replica of an RNTuple file reads as the original (src/transpose/RNTupleRewrite.cc)

    Module NOverlay, the recompression as a whole: never a write outside a vector, and when it succeeds, the parse of
    the virtual file its overlay describes. Module NReplica: the theorem, and the small file of RNTupleSound.v with
    two of its four column ranges recompressed. *)

From stdpp Require Import sorting.
From S2P Require Import Prelude UrlKey ReplicaFile ReplicaStore ReplicaView RootFile TreeMeta TreeSafe TreeParse FillBasket FillGeometry Transposer TransposeBasket TransposeFinish TransposeSound Xxh3 RNTupleMeta RNTupleSafe RNTupleSound RNTuplePatch RNTupleRewrite RNTupleBuild RNTupleReads RNTupleSame.
Local Open Scope u64_scope.

Module NOverlay.
Import Root Tree TreeParse FillGeometry Trans TransFinish TransRanges NTupleData NTuple NTupleSafe NTupleParse NForward NPatch NRewrite NBuild NEnvelope NReads NSame.

(** ** A file of the ordinary kind *)
Definition header_window (m : RNTupleMeta) : Z * Z := (12, m_headerSeekWidth m).
Definition anchor_window_at (m : RNTupleMeta) : Z * Z := (payloadOffset (anchor m) + 38, 40).
Definition untouched (m : RNTupleMeta) (x : Z * Z) : Prop := apart x (header_window m) /\ apart x (anchor_window_at m).
(** The records a replica has no use for, pages apart. *)
Definition dead (m : RNTupleMeta) : list (Z * Z) := [(pageListOffset m, pageListNbytes m); (seekFooter (anchor m), nbytesFooter (anchor m))].
Record ordinary (orig : bytes) (m : RNTupleMeta) : Prop := {
  or_bytes : Forall is_byte (pageList m) /\ Forall is_byte (footer m);
  or_list : exists a ls e, ranges m = concat ls /\ pagelist_at (pageList m) (columns m) a (nClusters m) (nEntries m) a ls e /\ e <= zlen (pageList m) - 8;
  or_footer : footer_at (footer m) (pageListLocatorOffset m) /\ pageListLocatorOffset m + 12 <= zlen (footer m) - 8;
  or_small : zlen (pageList m) <= kMaxFrame /\ zlen (footer m) <= kMaxFrame /\ forall pg, page_in m pg -> page_fits pg;
  or_agree : shares_agree m;
  or_width : m_headerSeekWidth m = 4 \/ m_headerSeekWidth m = 8;
  or_anchor : 20 <= payloadOffset (anchor m);
  or_header : untouched m (seekHeader (anchor m), nbytesHeader (anchor m));
  or_pages : forall pg, page_in m pg -> pg_offset pg + on_disk pg <= zlen orig /\ untouched m (pg_offset pg, on_disk pg);
  or_blocks : forall p q, page_in m p -> page_in m q -> pg_offset p = pg_offset q \/ apart (pg_offset p, on_disk p) (pg_offset q, on_disk q);
  or_dead : Forall (fun d => 0 <= fst d /\ 0 <= snd d /\ fst d + snd d <= zlen orig /\ apart d (seekHeader (anchor m), nbytesHeader (anchor m)) /\
    forall pg, page_in m pg -> apart d (pg_offset pg, on_disk pg)) (dead m);
  or_header_pages : forall pg, page_in m pg -> apart (pg_offset pg, on_disk pg) (seekHeader (anchor m), nbytesHeader (anchor m)) }.

(** ** What its reader finds *)
Definition listed (codecs : list bytes) (r : ColumnRange) : Prop := codecs = [] \/ rnTupleCodecName (compressionSettings r) ∈ codecs.
Definition stays {W} `{!Source W} (codecs : list bytes) (r : ColumnRange) : Prop :=
  ~ listed codecs r \/ exists pg w, pg ∈ pages r /\ fst (has (pg_offset pg) (on_disk pg) w) = false.
Record reads_as {W} `{!Source W} `{CD : Codecs} (orig : bytes) (m : RNTupleMeta) (nt : bytes) (level : Z) (codecs : list bytes) (ov : Overlay) (cm' : ContainerMeta)
    (V := vfile orig ov) : Prop := {
  ra_size : Replica.originSize (o_meta ov) = zlen orig /\ Replica.virtualSize (o_meta ov) = zlen V /\ zlen orig < zlen V;
  ra_header : zsub V 12 (m_headerSeekWidth m) = be_bytes (Z.to_nat (m_headerSeekWidth m)) (zlen V) /\ (m_headerSeekWidth m = 4 -> zlen V < p31);
  ra_same : forall o n, 0 <= o -> 0 <= n -> o + n <= zlen orig -> untouched m (o, n) -> zsub V o n = zsub orig o n;
  ra_parse : exists m', fst (parseRNTupleFrom (Source0 := TransSound.mem_source V) cm' nt tt) = Good m' /\
    (ntupleName m', writer m', columns m', header m', nEntries m', nClusters m') = (ntupleName m, writer m, columns m, header m, nEntries m, nClusters m) /\
    Forall2 (reads_range (listed codecs) (stays codecs) level orig V) (ranges m) (ranges m') /\
    forall x, covers (Replica.superseded (o_meta ov)) x -> kHeadReserve <= x < zlen orig /\ ~ (seekHeader (anchor m') <= x < seekHeader (anchor m') + nbytesHeader (anchor m')) /\
      forall pg, page_in m' pg -> ~ (pg_offset pg <= x < pg_offset pg + on_disk pg) }.

Section parts.
Context `{CD : Codecs}.
Lemma footer_no_fault m ftr a b c : footer_at ftr (pageListLocatorOffset m) -> zlen ftr < p32 -> patchFooterLink m ftr a b c <> LFault.
Proof.
  intros (sz & h & sz' & h' & F & L & F' & Ela & Hl & _) H32. destruct F as (F1 & _), F' as (_ & _ & _ & G4). assert (8 <= h') by (destruct G4 as [[_ ->]|[_ ->]]; lia).
  set (la := pageListLocatorOffset m) in *. unfold patchFooterLink. fold la. destruct (_ || _); [done|]. rewrite wrLE_in by lia. rewrite wrLE_in by (rewrite ?zlen_putLE; lia). rewrite wrLE_in by (rewrite ?zlen_putLE; rewrite ?zlen_putLE; lia). done.
Qed.
Lemma finish_some m base level s : footer_at (footer m) (pageListLocatorOffset m) -> zlen (footer m) < p32 -> exists rw, finish m base level s = Some rw.
Proof.
  intros Hf H32. unfold finish. destruct (rangesRelocated _ =? 0); [by eexists|]. cbv zeta. destruct (appendBlob (b_ext s) _ _ _) as [ext at_].
  pose proof (footer_no_fault m (footer m) (zlen (sealEnvelope (b_pl s))) (zlen (storeEnvelope (sealEnvelope (b_pl s)) level)) at_ Hf H32) as N. destruct (patchFooterLink _ _ _ _ _) as [| |ftr]; [done|by eexists|].
  destruct (appendBlob ext _ _ _) as [ext2 at2]. destruct (_ =? 0); [by eexists|]. destruct (_ <? 78); [by eexists|]. destruct (_ && _); by eexists.
Qed.
Lemma all_pages_eligible {W} `{!Source W} l : forall w, fst (all_pages l w) = false -> exists pg w', pg ∈ l /\ fst (has (pg_offset pg) (on_disk pg) w') = false.
Proof.
  induction l as [|pg l IH]; intros w; cbn [all_pages]; [done|]. unfold mbind_. destruct (has (pg_offset pg) (on_disk pg) w) as [[] w1] eqn:E.
  - intros H. destruct (IH w1 H) as (q & w' & Hq & Hw). exists q, w'. split; [by right|done].
  - intros _. exists pg, w. split; [by left|by rewrite E].
Qed.
Lemma eligible_listed {W} `{!Source W} codecs ri r w :
  (fst (source_eligible codecs ri r w) = Relocate -> listed codecs r) /\ (fst (source_eligible codecs ri r w) <> Relocate -> stays codecs r).
Proof.
  unfold source_eligible, listed, stays. destruct (negb (bool_decide (codecs = [])) && negb (existsb _ codecs)) eqn:E; cbn [fst mret_].
  - split; [done|]. intros _. left. b2p. apply bool_decide_eq_false in H. intros [?|Hin]; [done|]. enough (existsb (bytes_eqb (rnTupleCodecName (compressionSettings r))) codecs = true) by congruence.
    apply existsb_exists. exists (rnTupleCodecName (compressionSettings r)). split; [by apply list_elem_of_In|]. unfold bytes_eqb. by apply bool_decide_eq_true.
  - split.
    + intros _. apply andb_false_iff in E as [E|E]; apply negb_false_iff in E; [left; by apply bool_decide_eq_true in E|]. right. apply existsb_exists in E as (c & Hc & Eq). unfold bytes_eqb in Eq. apply bool_decide_eq_true in Eq. subst c. by apply list_elem_of_In.
    + unfold mbind_. destruct (all_pages (pages r) w) as [[] w1] eqn:Ea; cbn [fst mret_]; [done|]. intros _. right. apply (all_pages_eligible _ w). by rewrite Ea.
Qed.
Lemma block_error {W} `{!Source W} level ri pi pg w err tr dec : fst (source_block level ri pi pg w) = BFail err tr dec -> err <> [].
Proof.
  assert (forall raw, recode pg level raw = BFail err tr dec -> err <> []) as R.
  { intros raw. unfold recode. cbv zeta. destruct (_ =? 0); [by intros [= <-]|]. destruct (negb _); [by intros [= <-]|]. destruct (_ && _); [by intros [= <-]|]. by destruct (_ <=? _). }
  unfold source_block, mbind_. destruct (has _ _ w) as [[] w1]; cbn [negb fst mret_]; [|by intros [= <-]]. destruct (read_page pg w1) as [[raw|] w2]; [|by intros [= <-]].
  destruct (hasChecksum pg); [|by apply R]. unfold mbind_. destruct (src_read _ _ w2) as [[ck|] w3]; [|by intros [= <-]]. destruct (negb _); [by intros [= <-]|by apply R].
Qed.
(** The key's payload, read from memory. *)
Lemma payload_memory f k : 0 < nbytes k -> keylen k <= nbytes k -> 0 <= keylen k -> 0 <= objlen k -> 0 <= seekkey k -> seekkey k + nbytes k <= zlen f -> objlen k = nbytes k - keylen k ->
  @readKeyPayloadFrom unit (@source_reader unit (TransSound.mem_source f) 0) CD k tt = ((zsub f (seekkey k + keylen k) (nbytes k - keylen k), false), tt).
Proof.
  intros H1 H2 H3 H4 H5 H6 Eo. unfold readKeyPayloadFrom. rewrite (proj2 (Z.leb_gt _ _)), !(proj2 (Z.ltb_ge _ _)) by lia. cbn [orb]. unfold mbind_, rd, source_reader. rewrite (proj2 (Z.ltb_ge _ _)) by lia.
  unfold has, src_read, TransSound.mem_source, mret_, mbind_. cbv beta iota zeta. rewrite !(proj2 (Z.leb_le _ _)) by lia. cbn [andb]. cbv beta iota zeta.
  rewrite Eo, Z.eqb_refl. rewrite (zlen_zsub f) by lia. rewrite zsub_zsub by lia. rewrite zlen_zsub, Z.eqb_refl by lia. done.
Qed.
End parts.

(** ** The recompression *)
Section sound.
Context {W : Type} `{!Source W} `{CD : Codecs} (HL : ZstdLaw) (orig : bytes) (cm : ContainerMeta) (nt : bytes) (m : RNTupleMeta) (level : Z) (codecs : list bytes).
Context (Hr : TransBasket.reads_of orig) (Hob : Forall is_byte orig) (H40 : zlen orig < 2 ^ 40) (Hk : Forall key_ok (keys cm)) (Pd : parsed orig cm nt m) (Od : ordinary orig m) (Hlv : 0 <= 500 + level < p31).
Context (Hfs : fileSize cm = zlen orig).
Let base := zlen orig.
Let po := payloadOffset (anchor m).
Let hw := m_headerSeekWidth m.
Let k := anchor_key nt (keys cm).
Let C (pg : PageInfo) := page_fits pg /\ page_in m pg.
Let P (pg : PageInfo) (enc : bytes) := block_of orig pg enc /\ C pg.
Let built_ := built (listed codecs) (stays codecs) C P base level (ranges m) (start m).

Lemma list_chain : exists a e, 0 <= a /\ chain a (ranges m) e /\ e <= zlen (pageList m) - 8 /\ Forall (within 0 (zlen (pageList m))) (ranges m).
Proof using Od.
  destruct (or_list _ _ Od) as (a & ls & e & -> & L & He). destruct (or_small _ _ Od) as (S & _). unfold kMaxFrame in S. destruct L as (_ & L2 & _ & L4). pose proof (summaries_len (pageList m) a _ _ _ _ _ L2) as [S1 _].
  pose proof (clusters_chain (pageList m) ltac:(lia) (columns m) ls 0 (a + 12) e ltac:(lia) L4) as Ch. pose proof (chain_bound _ _ _ Ch) as [_ B]. exists (a + 12), e. split; [lia|]. split; [done|]. split; [done|]. eapply all_wider; [| |exact B]; lia.
Qed.
(** The build comes to a result, and one without an error is a finished one. *)
Lemma build_result w : exists rw, fst (buildRNTupleRewrite m base level codecs w) = Some rw /\
  (rw_error rw = [] -> base + zlen (extension rw) < 2 ^ 61 -> exists s ftr, built_ s /\ finished m base level s rw ftr /\ Forall is_byte (b_pl s)).
Proof using Od Hlv HL Hr H40 Pd.
  pose proof (zlen_nonneg orig) as B0. destruct list_chain as (a & e & Ha & Ch & He & Wi). destruct (or_bytes _ _ Od) as [Bp Bf]. destruct (or_small _ _ Od) as (S1 & S2 & S3). destruct (or_footer _ _ Od) as [F1 F2]. unfold kMaxFrame in *.
  destruct (pd_nonempty _ _ _ _ Pd) as (N1 & N2 & N3). unfold buildRNTupleRewrite, buildImpl, bytes_eqb. rewrite !bool_decide_false by done. cbn [orb]. unfold mbind_.
  pose proof (do_ranges_fine (source_eligible codecs) (source_block level) base level (block_error level) (ranges m) _ Wi 0 (start m) w (conj eq_refl Bp)) as Fn.
  destruct (do_ranges _ _ _ _ _ _ _ _) as [[s|rw|] w1] eqn:Ed; cbn [fst mret_] in *; [|by exists rw|done].
  destruct (finish_some m base level s F1 ltac:(lia)) as [rw Ef]. exists rw. split; [done|]. intros Er Hs. destruct (finish_inv m base level s rw B0 Ef Er ltac:(lia)) as [ftr Fi]. exists s, ftr. split; [|split; [done|apply Fn]].
  assert (zlen (b_ext s) <= zlen (extension rw)) as Lx.
  { destruct (fi_ext _ _ _ _ _ _ Fi) as (k1 & k2 & -> & _). rewrite zlen_app. pose proof (zlen_nonneg (k1 ++ storeEnvelope (sealEnvelope (b_pl s)) level ++ k2 ++ storeEnvelope (sealEnvelope ftr) level)). lia. }
  unfold built_. eapply (do_ranges_ok (source_eligible codecs) (source_block level) (listed codecs) (stays codecs) C P (2 ^ 61) base level) with (ri := 0) (a := a) (e := e) (w := w).
  - intros ri r w'. apply eligible_listed.
  - intros ri r w'. apply eligible_listed.
  - intros ri pi pg w' enc raw dec HC Hb. split; [|done]. destruct HC as [HC _]. eapply source_block_ok; [done|done|lia|done|exact Hb].
  - intros pg enc [Hb _]. by eapply block_len.
  - done.
  - lia.
  - exact Hlv.
  - apply Forall_forall. intros r Hin. apply Forall_forall. intros pg Hpg. split; [apply S3|]; by exists r.
  - done.
  - done.
  - intros off nb at_ size Hx. cbn [start seen] in Hx. by rewrite lookup_empty in Hx.
  - lia.
  - by rewrite Ed.
Qed.

(** *** A finished build, laid over the original *)
Section overlay.
Context (s : Build) (rw : RNTupleRewrite) (ftr : bytes) (Bt : built_ s) (Fi : finished m base level s rw ftr) (Bpl : Forall is_byte (b_pl s)).
Let ov := rnTupleOverlay m rw.
Context (Eo : o_error ov = []) (Er : rw_error rw = []) (Hsz : base + zlen (extension rw) < 2 ^ 61).
Let V := vfile orig ov.
Let pl := sealEnvelope (b_pl s).
Let plS := storeEnvelope pl level.
Let plAt := base + zlen (b_ext s) + 42.
Let fl := sealEnvelope ftr.
Let fS := storeEnvelope fl level.
Let fAt := plAt + zlen plS + 42.

Lemma anchor_place : po = seekkey k + keylen k /\ objlen k = nbytes k - keylen k /\ 0 <= keylen k /\ 78 <= nbytes k - keylen k /\ po + (nbytes k - keylen k) <= base /\
  exists ap, anchor m = read_anchor ap k /\ 78 <= zlen ap /\ Forall is_byte ap /\ ap = zsub orig po (nbytes k - keylen k) /\ zlen ap = nbytes k - keylen k.
Proof using All.
  destruct (pd_key _ _ _ _ Pd) as (K1 & K2 & K3 & K4 & K5). fold k in K1, K2, K3, K4, K5. destruct (pd_anchor _ _ _ _ Pd) as (ap & A1 & A2 & A3 & A4 & A5 & A6 & A7). fold k in A1, A3, A6, A7.
  destruct (anchor_key_ok nt (keys cm) Hk) as [(K6 & _) _]. fold k in K6.
  assert (po = seekkey k + keylen k) as E.
  { unfold po. rewrite A1. unfold read_anchor. cbn [payloadOffset]. rewrite A6, Z.eqb_refl. rewrite (w64_small (seekkey k)), w64_small by lia. done. }
  split; [done|]. split; [done|]. split; [lia|]. split; [lia|]. split; [unfold base; lia|]. exists ap. split; [done|]. split; [done|]. split; [done|]. rewrite E. split; [done|lia].
Qed.
Lemma overlay_shape : 12 + hw <= po + 38 /\
  tdata ov = (be_bytes (Z.to_nat hw) (base + zlen (extension rw)) ++ snd (anchorPatch m fAt (zlen fS) (zlen fl))) ++ extension rw /\
  Replica.virtualSize (o_meta ov) = base + zlen (extension rw) /\ Replica.originSize (o_meta ov) = base /\
  Replica.extents (o_meta ov) = [Replica.mkExtent 12 hw 0; Replica.mkExtent (po + 38) 40 hw; Replica.mkExtent base (zlen (extension rw)) (hw + 40)].
Proof using All.
  destruct anchor_place as (P1 & P2 & P3 & P4 & P5 & _). pose proof (zlen_nonneg orig) as B0. pose proof (zlen_nonneg (extension rw)) as X0. pose proof (or_anchor _ _ Od) as A20. fold po in A20.
  pose proof (or_width _ _ Od) as Wd. fold hw in Wd. unfold base in *. assert (forall x y z, zlen (snd (anchorPatch m x y z)) = 40) as L40 by (intros; unfold anchorPatch; cbn [snd]; rewrite !zlen_app, !zlen_be; done).
  assert (zlen (be_bytes (Z.to_nat hw) (zlen orig + zlen (extension rw))) = hw) as Lh by (rewrite zlen_be; lia).
  assert (fst (anchorPatch m fAt (zlen fS) (zlen fl)) = po + 38) as Ef by (unfold anchorPatch; cbn [fst]; fold po; by rewrite w64_small by lia).
  assert (by_offset (patches rw) = [(12, be_bytes (Z.to_nat hw) (zlen orig + zlen (extension rw))); anchorPatch m fAt (zlen fS) (zlen fl)]) as Eb.
  { rewrite (fi_patches _ _ _ _ _ _ Fi). apply two_pieces. fold pl plS plAt fl fS fAt base. rewrite Ef. cbn [fst]. lia. }
  pose proof (fi_base _ _ _ _ _ _ Fi) as Ebase. unfold base in Ebase.
  assert (m_fileSize m = zlen orig) as Efs by (destruct (pd_width _ _ _ _ Pd) as [_ ->]; rewrite Hfs, w64_small by lia; done).
  revert Eo. unfold ov, rnTupleOverlay. rewrite Er, Eb. change (bytes_eqb [] []) with true. cbn [negb]. cbn [pieces_apart fst snd]. rewrite Ef, Lh, (w64_small (12 + hw)) by lia.
  destruct (po + 38 <? 12 + hw) eqn:Ep; cbn [negb andb]; [done|]. intros _. b2p. split; [done|]. cbn [tdata o_meta Replica.virtualSize Replica.originSize Replica.extents piece_extents fmap list_fmap concat app snd fst].
  rewrite Ebase, Ef, Lh, L40, app_nil_r, Z.add_0_l, (w64_small hw) by lia. rewrite zlen_app, Lh, L40. rewrite w64_small by lia. by rewrite Efs.
Qed.
Let win := snd (anchorPatch m fAt (zlen fS) (zlen fl)).
Lemma appended_reads : zlen V = base + zlen (extension rw) /\ 0 < zlen (extension rw) /\ zsub V 12 hw = be_bytes (Z.to_nat hw) (zlen V) /\ zsub V (po + 38) 40 = win /\
  (forall o n, 0 <= o -> 0 <= n -> o + n <= zlen (extension rw) -> zsub V (base + o) n = zsub (extension rw) o n) /\
  (forall o n, 0 <= o -> 0 <= n -> o + n <= base -> untouched m (o, n) -> zsub V o n = zsub orig o n).
Proof using All.
  destruct overlay_shape as (S1 & S2 & S3 & _ & S4). destruct anchor_place as (P1 & P2 & P3 & P4 & P5 & _). pose proof (or_width _ _ Od) as Wd. fold hw in Wd.
  assert (zlen (be_bytes (Z.to_nat hw) (base + zlen (extension rw))) = hw) as Lh by (rewrite zlen_be; lia).
  assert (zlen win = 40) as Lw by (unfold win, anchorPatch; cbn [snd]; rewrite !zlen_app, !zlen_be; done). fold win in S2.
  assert (0 < zlen (extension rw)) as X0.
  { destruct (fi_ext _ _ _ _ _ _ Fi) as (k1 & k2 & -> & Z1 & _). rewrite !zlen_app. pose proof (zlen_nonneg (b_ext s)). pose proof (zlen_nonneg k2). fold pl plS fl fS. pose proof (zlen_nonneg plS). pose proof (zlen_nonneg fS). lia. }
  assert (po + 38 + 40 <= base) as Hin by lia. set (hd := be_bytes _ _) in *.
  pose proof (view_len orig ov hw (po + 38) base (extension rw) Wd S1 eq_refl Hin X0 S3) as VL. fold V in VL.
  split; [done|]. split; [done|]. split; [|split; [|split]].
  - rewrite VL. fold hd. exact (view_header orig ov hw (po + 38) base hd win (extension rw) Wd S1 eq_refl Hin X0 Lh Lw S2 S3 S4).
  - exact (view_window orig ov hw (po + 38) base hd win (extension rw) Wd S1 eq_refl Hin X0 Lh Lw S2 S3 S4).
  - exact (view_ext orig ov hw (po + 38) base hd win (extension rw) Wd S1 eq_refl Hin X0 Lh Lw S2 S3 S4).
  - intros o n Ho Hn Hon [U1 U2]. exact (view_orig orig ov hw (po + 38) base (extension rw) Wd S1 eq_refl Hin X0 S3 S4 o n Ho Hn Hon U1 U2).
Qed.
(** The pieces of the extension, read through the overlay. *)
Lemma overlay_pieces : (forall o n, 0 <= o -> 0 <= n -> o + n <= zlen (b_ext s) -> base + o + n <= zlen V /\ zsub V (base + o) n = zsub (b_ext s) o n) /\
  zsub V plAt (zlen plS) = plS /\ zsub V fAt (zlen fS) = fS /\ base <= plAt /\ plAt + zlen plS <= fAt /\ fAt + zlen fS = zlen V.
Proof using All.
  destruct appended_reads as (VL & _ & _ & _ & VE & _). destruct (fi_ext _ _ _ _ _ _ Fi) as (k1 & k2 & Ex & Z1 & Z2). fold pl plS fl fS in Ex.
  pose proof (zlen_nonneg (b_ext s)). pose proof (zlen_nonneg plS). pose proof (zlen_nonneg fS). rewrite VL. unfold plAt, fAt. rewrite Ex in VE |- *. rewrite !zlen_app in *. split; [|split; [|split]].
  - intros o n Ho Hn Hon. split; [lia|]. rewrite VE by lia. by apply zsub_app_l.
  - replace (base + zlen (b_ext s) + 42) with (base + (zlen (b_ext s) + 42)) by lia. rewrite VE by lia. rewrite zsub_app_r, zsub_app_r by lia. replace (zlen (b_ext s) + 42 - zlen (b_ext s) - zlen k1) with 0 by lia. by apply zsub_app.
  - unfold plAt. replace (base + zlen (b_ext s) + 42 + zlen plS + 42) with (base + (zlen (b_ext s) + 42 + zlen plS + 42)) by lia. rewrite VE by lia. do 4 (rewrite zsub_app_r by lia).
    replace (zlen (b_ext s) + 42 + zlen plS + 42 - zlen (b_ext s) - zlen k1 - zlen plS - zlen k2) with 0 by lia. by apply zsub_all.
  - unfold plAt. lia.
Qed.

Context (cm' : ContainerMeta) (Hkeys : keys cm' = keys cm) (Herr : c_error cm' = []) (Hsize : fileSize cm' = zlen V).
Let m' := mkMeta (zlen V) (c_fend cm') (c_headerSeekWidth cm') (ntupleName m) (writer m) (with_footer (anchor m) fAt (zlen fS) (zlen fl)) (columns m)
  (reread (columns m) pl <$> ranges m) (nEntries m) (nClusters m) (header m) fl pl (pageListLocatorOffset m) plAt (zlen plS).
(** The page list, and its pages. *)
Lemma overlay_list : verifyEnvelope pl kEnvelopePageList = None /\ zlen pl = zlen (pageList m) /\
  Forall2 (reads_range (listed codecs) (stays codecs) level orig V) (ranges m) (reread (columns m) pl <$> ranges m) /\
  walk (pagelist_walk pl (columns m)) = Good (nClusters m, nEntries m, reread (columns m) pl <$> ranges m, false).
Proof using All.
  destruct (or_list _ _ Od) as (a & ls & e & Hrl & Lay & He). destruct (or_small _ _ Od) as (Sm & _). destruct (or_bytes _ _ Od) as [Bp _]. destruct (pd_verified _ _ _ _ Pd) as (_ & _ & Vp).
  destruct appended_reads as (VL & X0 & _ & _ & _ & VO). destruct overlay_pieces as (VE & _).
  destruct (relisted orig V m level (listed codecs) (stays codecs) s a e (nClusters m) (nEntries m) ls Bp Sm Vp Hrl Lay He Bt Hlv (or_agree _ _ Od)) as (R1 & R2 & R3 & R4).
  - intros pg Hpg. destruct (or_pages _ _ Od pg Hpg) as [O1 O2]. split; [done|]. destruct (or_small _ _ Od) as (_ & _ & S3). destruct (S3 pg Hpg) as (F1 & F2 & _). apply VO; [lia| |exact O1|exact O2]. unfold on_disk. destruct (hasChecksum pg); lia.
  - fold V. unfold base in VL. lia.
  - intros o n Ho Hn Hon. fold base. destruct (VE o n Ho Hn Hon) as [V1 V2]. done.
  - fold pl in R1, R2, R3, R4. split; [done|]. split; [done|]. split; [exact R3|]. apply R4. by apply seal_bytes.
Qed.
Lemma overlay_footer : verifyEnvelope fl kEnvelopeFooter = None /\ zlen fl = zlen (footer m) /\ walk (footer_walk fl) = Good (Some [mkLink (zlen pl) (pageListLocatorOffset m) (zlen plS) plAt], false).
Proof using All.
  destruct (or_footer _ _ Od) as [F1 F2]. destruct (or_small _ _ Od) as (Sp & Sf & _). destruct (or_bytes _ _ Od) as [_ Bf]. destruct (pd_verified _ _ _ _ Pd) as (_ & Vf & _). unfold kMaxFrame in *.
  destruct overlay_list as (_ & Lp & _). destruct appended_reads as (VL & _). destruct overlay_pieces as (_ & _ & _ & Q1 & Q2 & Q3). pose proof (zlen_nonneg pl). pose proof (zlen_nonneg plS). pose proof (zlen_nonneg fS). pose proof (zlen_nonneg orig).
  pose proof (store_len pl level) as Sl. fold plS in Sl.
  destruct (footer_patched m (footer m) (pageListLocatorOffset m) (zlen pl) (zlen plS) plAt ltac:(lia) F1 F2 eq_refl ltac:(lia) ltac:(lia) ltac:(unfold base in *; lia)) as (ftr' & T1 & T2 & T3 & T4 & T5 & T6 & T7 & T8).
  pose proof (fi_footer _ _ _ _ _ _ Fi) as T0. fold pl plS plAt in T0. rewrite T1 in T0. injection T0 as ->. fold fl in T5, T6, T7, T8.
  assert (16 <= zlen (footer m)) as H16 by (apply (env_min _ kEnvelopeFooter Vf)). destruct (seal_spec ftr ltac:(lia)) as (L1 & _). fold fl in L1.
  split; [by apply (seal_verifies (footer m))|]. split; [lia|]. rewrite (footer_fwd fl (seal_bytes _ (T4 Bf)) ltac:(lia) _ T5). by rewrite T6, T7, T8.
Qed.
Lemma overlay_parse : fst (parseRNTupleFrom (Source0 := TransSound.mem_source V) cm' nt tt) = Good m'.
Proof using All.
  destruct anchor_place as (P1 & P2 & P3 & P4 & P5 & ap & A1 & A2 & A3 & A4 & A5). destruct appended_reads as (VL & X0 & _ & VW & _ & VO). destruct overlay_pieces as (_ & E1 & E2 & Q1 & Q2 & Q3).
  destruct overlay_list as (Vp & Lp & _ & Wp). destruct overlay_footer as (Vf & Lf & Wf). destruct (pd_key _ _ _ _ Pd) as (K1 & K2 & K3 & K4 & K5). fold k in K1, K2, K3, K4, K5. destruct (pd_verified _ _ _ _ Pd) as (Vh & Vf0 & Vp0).
  destruct (or_small _ _ Od) as (Sp & Sf & _). unfold kMaxFrame in Sp, Sf. pose proof (zlen_nonneg orig) as B0. pose proof (or_anchor _ _ Od) as A20. fold po in A20. pose proof (or_width _ _ Od) as Wd. fold hw in Wd. destruct overlay_shape as (S1 & _).
  pose proof (zlen_nonneg plS) as NN1. pose proof (zlen_nonneg fS) as NN2. pose proof (zlen_nonneg fl) as NN3. pose proof (zlen_nonneg pl) as NN4.
  assert (forall o n, 0 <= o -> 0 <= n -> po <= o -> o + n <= po + 38 -> zsub V o n = zsub orig o n) as Low.
  { intros o n Ho Hn H1 H2. apply VO; [lia|lia|lia|]. unfold untouched, apart, header_window, anchor_window_at. fold hw po. cbn [fst snd]. lia. }
  set (ap' := zsub V po (nbytes k - keylen k)). assert (zlen ap' = zlen ap) as La by (unfold ap'; rewrite zlen_zsub by lia; lia).
  destruct (anchor_patched m ap ap' k fAt (zlen fS) (zlen fl) A3 A2 La A1) as [R1 R2].
  { unfold base in *. lia. } { unfold base in *. lia. } { lia. }
  { unfold ap'. rewrite A4. rewrite !zsub_zsub by lia. apply Low; lia. } { unfold ap'. rewrite zsub_zsub by lia. exact VW. }
  unfold parseRNTupleFrom. rewrite Herr, Hkeys, Hsize. change (negb (bytes_eqb [] [])) with false. cbv iota. fold k. rewrite (w64_small (zlen V)) by (unfold base in *; lia). rewrite (proj2 (Z.eqb_neq (nbytes k) 0)) by lia.
  unfold mbind_ at 1. rewrite (payload_memory V k) by lia. rewrite <- P1. fold ap'. cbn [fst]. rewrite La, (proj2 (Z.ltb_ge (zlen ap) 78)) by lia. rewrite R2, Z.eqb_refl. cbn [negb]. rewrite R1.
  cbn [with_footer seekHeader nbytesHeader lenHeader seekFooter nbytesFooter lenFooter].
  destruct (pd_header _ _ _ _ Pd) as (Eh & H0 & H1 & H2). destruct (or_header _ _ Od) as [U1 U2].
  pose proof (read_memory V (seekHeader (anchor m)) (nbytesHeader (anchor m)) (lenHeader (anchor m)) H0 H1 ltac:(unfold base in *; lia) ltac:(unfold base in *; lia)) as Rh.
  rewrite (envelope_same orig V) in Rh by (apply VO; [lia|lia|unfold base; lia|by split]). rewrite <- Eh in Rh.
  assert (pl <> [] /\ fl <> []) as [Np Nf].
  { pose proof (env_min _ _ Vp0). pose proof (env_min _ _ Vf0). split; intros Z; [rewrite Z in Lp|rewrite Z in Lf]; rewrite zlen_nil in *; lia. }
  pose proof (store_nonempty pl level Np) as Sp0. fold plS in Sp0. pose proof (store_nonempty fl level Nf) as Sf0. fold fS in Sf0.
  pose proof (read_memory V fAt (zlen fS) (zlen fl) ltac:(unfold base in *; lia) Sf0 ltac:(lia) ltac:(unfold base in *; lia)) as Rf. pose proof (store_reads fl level V fAt HL ltac:(unfold kMaxFrame; lia) E2) as SR. fold fS in SR. rewrite SR in Rf.
  pose proof (read_memory V plAt (zlen plS) (zlen pl) ltac:(unfold base in *; lia) Sp0 ltac:(lia) ltac:(unfold base in *; lia)) as Rp. pose proof (store_reads pl level V plAt HL ltac:(unfold kMaxFrame; lia) E1) as SP. fold plS in SP. rewrite SP in Rp.
  unfold mbind_ at 1. destruct (readEnvelope (seekHeader (anchor m)) _ _ _ tt) as [hdr []]. cbn [fst] in Rh. subst hdr. unfold mbind_ at 1. destruct (readEnvelope fAt _ _ _ tt) as [f2 []]. cbn [fst] in Rf. subst f2.
  destruct (pd_nonempty _ _ _ _ Pd) as (N1 & _ & _). unfold envelopes, bytes_eqb. rewrite !bool_decide_false by done. cbn [orb]. rewrite Vh, Vf, (pd_schema _ _ _ _ Pd), Wf. cbn [lk_off lk_nbytes lk_len lk_at].
  pose proof (store_len pl level) as Sl. fold plS in Sl. rewrite (w32_small (zlen plS)) by lia. unfold mbind_ at 1. destruct (readEnvelope plAt _ _ _ tt) as [p2 []]. cbn [fst] in Rp. subst p2.
  unfold with_pagelist, bytes_eqb. rewrite bool_decide_false by done. cbn [columns]. rewrite Vp, Wp. cbn [fst mret_]. destruct (or_footer _ _ Od) as [_ F2]. destruct (or_footer _ _ Od) as [(sz & h & sz' & h' & (G1 & _) & _ & (G2 & _ & _ & G3) & G4 & _) _].
  unfold m'. cbn [m_fileSize m_fend m_headerSeekWidth ntupleName writer anchor columns header footer pageListLocatorOffset pageListOffset pageListNbytes]. rewrite w32_small; [done|]. destruct G3 as [[_ ->]|[_ ->]]; lia.
Qed.
(** What the overlay sets free is no byte its reader still finds in the original. *)
Lemma past_head_covers r x : 0 <= Replica.roff r -> 0 <= Replica.rlen r -> Replica.roff r + Replica.rlen r <= base -> negb (Replica.rlen (past_head r) =? 0) = true ->
  plain (past_head r) /\ (Replica.roff (past_head r) <= x < rend (past_head r) -> kHeadReserve <= x /\ Replica.roff r <= x < Replica.roff r + Replica.rlen r).
Proof using All.
  intros H0 H1 H2 Hz. b2p. unfold past_head, plain, rend, kHeadReserve in *. unfold base in *. rewrite (w64_small (Replica.roff r + Replica.rlen r)) in * by lia.
  destruct (Replica.roff r <? 128 * 1024) eqn:E; b2p; cbn [Replica.roff Replica.rlen] in *; [|lia]. destruct (128 * 1024 <? Replica.roff r + Replica.rlen r) eqn:E2; b2p; lia.
Qed.
Lemma freed_from x : covers (Replica.superseded (o_meta ov)) x -> kHeadReserve <= x < base /\
  ((exists pg, page_in m pg /\ (pg_offset pg ∉ live s) /\ pg_offset pg <= x < pg_offset pg + on_disk pg) \/ exists d, d ∈ dead m /\ fst d <= x < fst d + snd d).
Proof using All.
  set (sup := rw_superseded rw ++ (if pageListNbytes m =? 0 then [] else [Replica.mkRange (pageListOffset m) (pageListNbytes m)]) ++
    (if nbytesFooter (anchor m) =? 0 then [] else [Replica.mkRange (seekFooter (anchor m)) (nbytesFooter (anchor m))])).
  assert (Replica.superseded (o_meta ov) = merge_ranges (List.filter (fun r => negb (Replica.rlen r =? 0)) (past_head <$> sup))) as ->.
  { revert Eo. unfold ov, rnTupleOverlay. rewrite Er. change (negb (bytes_eqb [] [])) with false. cbv iota. destruct (negb (pieces_apart _)); [done|]. intros _. done. }
  assert (Forall (fun r => 0 <= Replica.roff r /\ 0 <= Replica.rlen r /\ Replica.roff r + Replica.rlen r <= base /\
    ((exists pg, page_in m pg /\ (pg_offset pg ∉ live s) /\ r = page_range pg) \/ exists d, d ∈ dead m /\ r = Replica.mkRange (fst d) (snd d))) sup) as Sup.
  { pose proof (or_dead _ _ Od) as D. rewrite Forall_forall in D. unfold sup. clear sup. apply Forall_app. split; [|apply Forall_app; split].
    - rewrite (fi_superseded _ _ _ _ _ _ Fi). destruct (bt_grown _ _ _ _ _ _ _ _ _ Bt) as (_ & _ & y & Ey & Fy). cbn [start candidates app] in Ey. rewrite Ey. apply Forall_forall. intros r Hin.
      apply list_elem_of_In, filter_In in Hin as [Hin Hl]. apply list_elem_of_In in Hin. rewrite Forall_forall in Fy. destruct (Fy r Hin) as (pg & (Fp & Ip) & ->). b2p. apply bool_decide_eq_false in Hl.
      destruct (or_pages _ _ Od pg Ip) as [O1 _]. destruct Fp as (F1 & F2 & _). cbn [page_range Replica.roff Replica.rlen] in *. split; [lia|]. split; [unfold on_disk; destruct (hasChecksum pg); lia|]. split; [exact O1|]. left. by exists pg.
    - destruct (pageListNbytes m =? 0); [constructor|]. apply Forall_cons. split; [|constructor]. destruct (D (pageListOffset m, pageListNbytes m) ltac:(by left)) as (D1 & D2 & D3 & _). cbn in D1, D2, D3. split; [done|]. split; [done|]. split; [done|]. right. eexists. split; [by left|done].
    - destruct (nbytesFooter (anchor m) =? 0); [constructor|]. apply Forall_cons. split; [|constructor]. destruct (D (seekFooter (anchor m), nbytesFooter (anchor m)) ltac:(right; by left)) as (D1 & D2 & D3 & _). cbn in D1, D2, D3. split; [done|]. split; [done|]. split; [done|]. right. eexists. split; [right; by left|done]. }
  rewrite Forall_forall in Sup. intros Hc. destruct (merge_ranges_ok (List.filter (fun r => negb (Replica.rlen r =? 0)) (past_head <$> sup))) as (_ & _ & Cov).
  { apply Forall_forall. intros r' Hin. apply list_elem_of_In, filter_In in Hin as [Hin Hz]. apply list_elem_of_In, list_elem_of_fmap in Hin as (r & -> & Hr'). destruct (Sup r Hr') as (S1 & S2 & S3 & _). by apply (past_head_covers r 0). }
  apply Cov in Hc as (r' & Hin & Hx). apply list_elem_of_In, filter_In in Hin as [Hin Hz]. apply list_elem_of_In, list_elem_of_fmap in Hin as (r & -> & Hr'). destruct (Sup r Hr') as (S1 & S2 & S3 & S4).
  destruct (past_head_covers r x S1 S2 S3 Hz) as [_ P2]. destruct (P2 Hx) as [P3 P4]. split; [lia|]. destruct S4 as [(pg & Q1 & Q2 & ->)|(d & Q1 & ->)]; [left; by exists pg|right; by exists d].
Qed.
Lemma overlay_frees x : covers (Replica.superseded (o_meta ov)) x -> kHeadReserve <= x < zlen orig /\ ~ (seekHeader (anchor m) <= x < seekHeader (anchor m) + nbytesHeader (anchor m)) /\
  forall pg, page_in m' pg -> ~ (pg_offset pg <= x < pg_offset pg + on_disk pg).
Proof using All.
  intros Hc. destruct (freed_from x Hc) as [R Src]. split; [exact R|]. pose proof (or_dead _ _ Od) as D. rewrite Forall_forall in D. split.
  - intros Hx. destruct Src as [(q & Iq & _ & Hq)|(d & Hd & Hdx)].
    + pose proof (or_header_pages _ _ Od q Iq) as A. unfold apart in A. cbn [fst snd] in A. lia.
    + destruct (D d Hd) as (_ & _ & _ & A & _). unfold apart in A. cbn [fst snd] in A. lia.
  - intros pg' (r' & Hr' & Hp') Hx. cbn [m' ranges] in Hr'. apply list_elem_of_fmap in Hr' as (r & -> & Hin).
    destruct (or_list _ _ Od) as (a & ls & e & Hrl & Lay & He). destruct (or_small _ _ Od) as (Sm & _ & S3). destruct (or_bytes _ _ Od) as [Bp _]. destruct (pd_verified _ _ _ _ Pd) as (_ & _ & Vp).
    destruct appended_reads as (VL & X0 & _ & _ & _ & VO). destruct overlay_pieces as (VE & _).
    destruct (page_live orig V m level (listed codecs) (stays codecs) s a e (nClusters m) (nEntries m) ls Bp Sm Vp Hrl Lay He Bt Hlv (or_agree _ _ Od)) with (r := r) (pg := pg') as [Pin Liv].
    + intros pg Hpg. destruct (or_pages _ _ Od pg Hpg) as [O1 O2]. split; [done|]. destruct (S3 pg Hpg) as (F1 & F2 & _). apply VO; [lia| |exact O1|exact O2]. unfold on_disk. destruct (hasChecksum pg); lia.
    + fold V. unfold base in VL. lia.
    + intros o n Ho Hn Hon. fold base. exact (VE o n Ho Hn Hon).
    + done.
    + exact Hp'.
    + unfold base in R. lia.
    + assert (page_in m pg') as Ip by (by exists r). destruct Src as [(q & Iq & Nq & Hq)|(d & Hd & Hdx)].
      * destruct (or_blocks _ _ Od pg' q Ip Iq) as [Eo'|A]; [by rewrite Eo' in Liv|]. unfold apart in A. cbn [fst snd] in A. lia.
      * destruct (D d Hd) as (_ & _ & _ & _ & A). specialize (A pg' Ip). unfold apart in A. cbn [fst snd] in A. lia.
Qed.
Lemma overlay_same : reads_as orig m nt level codecs ov cm'.
Proof using All.
  destruct appended_reads as (VL & X0 & VH & _ & _ & VO). destruct overlay_shape as (_ & _ & Z1 & Z2 & _). destruct overlay_list as (_ & _ & RL & _). split; fold V.
  - split; [done|]. split; [by rewrite VL|]. unfold base in VL. lia.
  - split; [exact VH|]. intros E4. rewrite VL. by apply (fi_width _ _ _ _ _ _ Fi).
  - exact VO.
  - exists m'. split; [exact overlay_parse|]. split; [done|]. split; [exact RL|]. exact overlay_frees.
Qed.
End overlay.
End sound.
End NOverlay.

Module NReplica.
Import Root Tree TreeParse FillGeometry Trans TransFinish NTupleData NTuple NTupleSafe NTupleParse NRewrite NBuild NReads NSame NOverlay NTupleSound.

(** C27: a replica of an RNTuple file reads as the original. Take a file below 2^40 bytes behind any
    source that gives the bytes asked for or fails, at any moment; a parse of it that was not refused; and an ordinary
    layout: two records share a block, and then agree in its checksum flag and its sizes, or lie apart - the build shares
    blocks by place alone, and one that they do not agree on is lost - and no page, header or dead record overlaps a
    window that is patched; the page list, the footer and each page fit one frame.
    Then the recompression comes to a result for any codec filter and level, and writes nowhere outside its vectors.
    When its overlay is built without an error, the virtual file - patched windows and appended blocks over the
    original - is what a reader takes for the same ntuple: the header names its new size (below 2^31 where the field
    has four bytes); every byte of the original outside the two patched windows is unchanged; and the same parser reads
    from it the same schema, entries and clusters, and the same ranges of pages: each page with the same elements and the
    same content once decompressed and checked, each range either moved as a whole behind the original's end under the
    Zstd setting asked for - only if its codec is one of those asked for - or left byte for byte as it was - only if it
    is not, or a page of it was not there. What the sidecar calls superseded lies past the reserved head, inside
    the original, and outside everything that the new metadata names: the header and every page. *)
Theorem rntuple_reads_as_original {W : Type} `{!Source W} `{CD : Codecs} (orig : bytes) (cm : ContainerMeta) (nt : bytes) (m : RNTupleMeta) (level : Z) (codecs : list bytes) (w0 w : W) :
  ZstdLaw -> TransBasket.reads_of orig -> Forall is_byte orig -> zlen orig < 2 ^ 40 -> fileSize cm = zlen orig -> Forall key_ok (keys cm) ->
  fst (parseRNTupleFrom cm nt w0) = Good m -> ordinary orig m -> 0 <= 500 + level < p31 ->
  exists rw, fst (buildRNTupleRewrite m (m_fileSize m) level codecs w) = Some rw /\
    (o_error (rnTupleOverlay m rw) = [] -> zlen orig + zlen (extension rw) < 2 ^ 61 -> forall cm', keys cm' = keys cm -> c_error cm' = [] -> fileSize cm' = zlen (vfile orig (rnTupleOverlay m rw)) ->
      reads_as orig m nt level codecs (rnTupleOverlay m rw) cm').
Proof.
  intros HL Hr Hb H40 Hf Hk Hp Od Hlv. pose proof (or_anchor _ _ Od) as A20. assert (parsed orig cm nt m) as Pd by (eapply parsed_of; [done..| |done]; lia).
  assert (m_fileSize m = zlen orig) as -> by (destruct (pd_width _ _ _ _ Pd) as [_ ->]; pose proof (zlen_nonneg orig); rewrite Hf, w64_small by lia; done).
  destruct (build_result HL orig cm nt m level codecs Hr H40 Pd Od Hlv w) as (rw & E & R). exists rw. split; [done|]. intros Eo Hs cm' K1 K2 K3.
  assert (rw_error rw = []) as Er.
  { revert Eo. unfold rnTupleOverlay. destruct (negb (bytes_eqb (rw_error rw) [])) eqn:Ee; [done|]. intros _. b2p. by apply bool_decide_eq_true in Ee. }
  destruct (R Er Hs) as (s & ftr & Bt & Fi & Bp).
  by apply (overlay_same HL orig cm nt m level codecs Hr Hb H40 Hk Pd Od Hlv Hf s rw ftr).
Qed.

(** ** The layout predicates, decided *)
Section checks.
Context (p : bytes).
Definition list_b (a n : Z) : bool := (a + 12 <=? zlen p) && (n =? getLE 4 p (a + 8)) && (signed 8 (getLE 8 p a) <? 0) && (a - signed 8 (getLE 8 p a) <=? zlen p).
Lemma list_check a n : list_b a n = true -> list_at p a n.
Proof using. unfold list_b. intros H. b2p. split; [done|]. split; [done|]. exists (- signed 8 (getLE 8 p a)). lia. Qed.
Definition record_b (a sz : Z) : bool := (signed 8 (getLE 8 p a) =? sz) && (0 <? sz) && (a + sz <=? zlen p) && (a + 8 <=? zlen p).
Lemma record_check a sz : record_b a sz = true -> frame_at p a sz 8.
Proof using. unfold record_b. intros H. b2p. split; [done|]. split; [done|]. split; [done|]. by left. Qed.
End checks.

(** ** The file of RNTupleSound.v *)
#[local] Existing Instance TransSound.mem_source.
Definition d_container : ContainerMeta := Eval vm_compute in
  match fst (@parseContainerFrom unit (@source_reader unit (TransSound.mem_source d_file) (zlen d_file)) tt) with Good c => c | _ => mkContainer false 0 0 0 0 0 0 [] [] end.
Lemma d_parsed : fst (parseRNTupleFrom (CD := FillBasket.demo_codecs) (Source0 := TransSound.mem_source d_file) d_container (bs "nt") tt) = Good d_meta.
Proof. vm_compute. reflexivity. Qed.
Definition d_build : RNTupleRewrite := Eval vm_compute in
  match fst (buildRNTupleRewrite (CD := FillBasket.demo_codecs) (Source0 := TransSound.mem_source d_file) d_meta (m_fileSize d_meta) 1 [bs "zlib"] tt) with
  | Some rw => rw | None => failed no_tally 0 [] [] [] false end.
Lemma d_built : fst (buildRNTupleRewrite (CD := FillBasket.demo_codecs) (Source0 := TransSound.mem_source d_file) d_meta (m_fileSize d_meta) 1 [bs "zlib"] tt) = Some d_build.
Proof. vm_compute. reflexivity. Qed.
Definition d_pages_of : list PageInfo := Eval vm_compute in concat (pages <$> ranges d_meta).
Lemma d_page_in pg : page_in d_meta pg -> pg ∈ d_pages_of.
Proof.
  intros (r & Hr & Hp). change d_pages_of with (concat (pages <$> ranges d_meta)). apply list_elem_of_In, in_concat. exists (pages r). split; [|by apply list_elem_of_In].
  apply list_elem_of_In, list_elem_of_fmap. by exists r.
Qed.
Lemma d_each (P : PageInfo -> Prop) : Forall P d_pages_of -> forall pg, page_in d_meta pg -> P pg.
Proof. intros HF pg Hp. rewrite Forall_forall in HF. by apply HF, d_page_in. Qed.
Ltac list_laid := refine (list_check _ _ _ _); vm_compute; reflexivity.
Ltac record_laid := refine (record_check _ _ _ _); vm_compute; reflexivity.
Ltac pages_laid := cbn [pages_at]; repeat (split; [vm_compute; first [discriminate|reflexivity]|]); exact I.
Ltac column_laid := split; [list_laid|]; split; [cbn [pages]; pages_laid|]; split; [vm_compute; discriminate|vm_compute; reflexivity].
Definition d_ls : list (list ColumnRange) := Eval vm_compute in [take 2 (ranges d_meta); drop 2 (ranges d_meta)].
Lemma d_list_laid : pagelist_at (pageList d_meta) (columns d_meta) 76 (nClusters d_meta) (nEntries d_meta) 76 d_ls 272.
Proof.
  split; [list_laid|]. split; [|split; [list_laid|]].
  - exists 24, 8. split; [record_laid|]. split; [lia|]. exists 24, 8. split; [record_laid|]. split; [lia|]. split; vm_compute; reflexivity.
  - split; [list_laid|]. exists 196. split; [split; [column_laid|]; split; [column_laid|reflexivity]|].
    split; [list_laid|]. exists 272. split; [split; [column_laid|]; split; [column_laid|reflexivity]|reflexivity].
Qed.
Lemma d_footer_laid : footer_at (footer d_meta) (pageListLocatorOffset d_meta).
Proof.
  exists 8, 8, 48, 8. split; [record_laid|]. split; [list_laid|]. split; [record_laid|].
  split; [reflexivity|]. split; vm_compute; discriminate.
Qed.
Lemma d_facts : payloadOffset (anchor d_meta) = 443 /\ m_headerSeekWidth d_meta = 4 /\ seekHeader (anchor d_meta) = 521 /\ nbytesHeader (anchor d_meta) = 152 /\ zlen d_file = 1085 /\
  dead d_meta = [(705, 280); (985, 100)].
Proof. repeat split; vm_compute; reflexivity. Qed.
Lemma d_piece pg : page_in d_meta pg -> (pg_offset pg = 673 /\ on_disk pg = 18) \/ (pg_offset pg = 691 /\ on_disk pg = 12) \/ (pg_offset pg = 703 /\ on_disk pg = 2).
Proof. revert pg. apply d_each. repeat (apply Forall_cons; split; [vm_compute; tauto|]). by apply Forall_nil. Qed.
Lemma d_agree : shares_agree d_meta.
Proof.
  intros p q Hp. revert q. pattern p. revert p Hp. apply d_each. repeat (apply Forall_cons; split; [intros q Hq; pattern q; revert q Hq; apply d_each; repeat (apply Forall_cons; split; [by vm_compute|]); by apply Forall_nil|]). by apply Forall_nil.
Qed.
Lemma d_ordinary : ordinary d_file d_meta.
Proof.
  destruct d_facts as (F1 & F2 & F3 & F4 & F5 & F6).
  split; unfold untouched, header_window, anchor_window_at, apart; rewrite ?F1, ?F2, ?F3, ?F4, ?F5, ?F6; cbn [fst snd].
  - split; apply FillGeometry.demo_is_byte; vm_compute; reflexivity.
  - exists 76, d_ls, 272. split; [vm_compute; reflexivity|]. split; [exact d_list_laid|]. vm_compute. discriminate.
  - split; [exact d_footer_laid|vm_compute; discriminate].
  - split; [vm_compute; discriminate|]. split; [vm_compute; discriminate|]. apply d_each. repeat (apply Forall_cons; split; [vm_compute; repeat split; discriminate|]). by apply Forall_nil.
  - exact d_agree.
  - by left.
  - lia.
  - lia.
  - intros pg Hp. pose proof (d_piece pg Hp). lia.
  - intros p q Hp Hq. pose proof (d_piece p Hp). pose proof (d_piece q Hq). lia.
  - repeat (apply Forall_cons; split; [cbn [fst snd]; split; [lia|]; split; [lia|]; split; [lia|]; split; [lia|]; intros pg Hp; pose proof (d_piece pg Hp); lia|]). by apply Forall_nil.
  - intros pg Hp. pose proof (d_piece pg Hp). lia.
Qed.
Lemma mem_reads_of f : TransBasket.reads_of (Source0 := TransSound.mem_source f) f.
Proof. intros n off [] d. cbn. destruct (_ && _)%bool eqn:E; [|done]. b2p. by intros [= <-]. Qed.
Lemma d_keys_ok : Forall key_ok (keys d_container).
Proof. repeat constructor; vm_compute; congruence. Qed.
Lemma rntuple_reads_as_original_witness :
  exists rw ov cm', fst (buildRNTupleRewrite (CD := FillBasket.demo_codecs) (Source0 := TransSound.mem_source d_file) d_meta (m_fileSize d_meta) 1 [bs "zlib"] tt) = Some rw /\
    ov = rnTupleOverlay d_meta rw /\ o_error ov = [] /\ rangesRelocated (tally rw) = 2 /\
    reads_as (CD := FillBasket.demo_codecs) (Source0 := TransSound.mem_source d_file) d_file d_meta (bs "nt") 1 [bs "zlib"] ov cm'.
Proof.
  destruct (rntuple_reads_as_original (CD := FillBasket.demo_codecs) (Source0 := TransSound.mem_source d_file) d_file d_container (bs "nt") d_meta 1 [bs "zlib"] tt tt) as (rw & B & R).
  - intros c level z Hz. exact (stored_law c level z Hz).
  - exact (mem_reads_of d_file).
  - exact d_file_bytes.
  - vm_compute. reflexivity.
  - vm_compute. reflexivity.
  - exact d_keys_ok.
  - exact d_parsed.
  - exact d_ordinary.
  - vm_compute. split; congruence.
  - rewrite d_built in B. injection B as <-. set (ov := rnTupleOverlay d_meta d_build) in *.
    assert (o_error ov = []) as He by (vm_compute; reflexivity).
    set (c := d_container). exists d_build, ov, (mkContainer (c_large c) (c_fend c) (c_keyslistSeek c) (c_dirSeekKeysOff c) (c_headerSeekWidth c) (c_dirSeekWidth c) (zlen (vfile d_file ov)) (keys c) []).
    split; [exact d_built|]. split; [reflexivity|]. split; [exact He|]. split; [vm_compute; reflexivity|].
    apply R; [exact He|vm_compute; reflexivity|reflexivity|reflexivity|reflexivity].
Defined.
End NReplica.
