(* ===== verification/Prefetch.v ===== *)
(** * Read-ahead (src/plugin/Prefetch.h, Prefetch.cc)

    The prediction of a reader's next fill from the basket map of its file, and the wire requests that fetch it
    early. One shard of the process: its queue of jobs, its handles, what it shares with the other shards, the
    entries it stages into and the requests it has on the wire. The origin's answers, the
    destruction of handles and the address of an object are arguments. Log and trace lines are left out,
    and so is the exception that switches read-ahead off. *)

From stdpp Require Import sorting.
From Stdlib Require Import SpecFloat.
From S2P Require Import Prelude IOBackend Crc32c Config MetaFile UrlKey FileEntry WireRead RootFile TreeMeta ReadMap OpenRetry.
Local Open Scope u64_scope.

Module Prefetch.
Import Root TreeData Tree Wire.

(** ** Settings (Config.h) and constants *)
Record Settings := mkSettings {
  prefetch : bool; prefetchWindowMb : Z; prefetchRamMb : Z; prefetchDepth : Z; prefetchBridgeKb : Z; prefetchThreads : Z; prefetchMapCacheMb : Z }.
Definition kGateMinIssued : Z := Z.shiftl 64 20.
Definition kTableCache : Z := 64.
Definition kMaxReadvElems : Z := 1024.
Definition kParseTries : Z := 3.
Definition kBarrenFills : Z := 4.
Definition kNoTableMemo : nat := 64.

(** *** Doubles *)
Definition double (v : Z) : spec_float := binary_normalize 53 1024 v 0 false.
(** The literals [0.90] and [0.25]. *)
Definition kConfirmCoverage : spec_float := S754_finite false 8106479329266893 (-53).
Definition kGateNeverUsed : spec_float := S754_finite false 4503599627370496 (-54).
Definition mul (a b : spec_float) : spec_float := SFmul 53 1024 a b.
Definition confirms (hit fillBytes : Z) : bool :=
  match SFcompare (mul kConfirmCoverage (double fillBytes)) (double hit) with Some Lt | Some Eq => true | _ => false end.
Definition over_gate (never issued : Z) : bool :=
  match SFcompare (mul kGateNeverUsed (double issued)) (double never) with Some Lt => true | _ => false end.

(** ** The basket map of a file *)
Record BasketTable := mkTable {
  names : list bytes; nb : list Z; boff : list Z; seek : list Z; bsize : list Z; es : list Z; sortedSeek : list Z; sortedIdx : list Z; t_fileSize : Z }.
Definition table_bytes (t : BasketTable) : Z :=
  8 *% (zlen (seek t) +% zlen (bsize t) +% zlen (es t) +% zlen (sortedSeek t)) +% 4 *% (zlen (sortedIdx t) +% zlen (nb t) +% zlen (boff t)) +% zlen (names t) *% (32 + 24).

(** [std::upper_bound]: how many elements come before the first above [g]. *)
Fixpoint above (g : Z) (l : list Z) : Z :=
  match l with [] => 0 | x :: l' => if g <? x then 0 else 1 + above g l' end.
Definition branchOf (t : BasketTable) (g : Z) : Z := w32 (above g (boff t) - 1).
Definition size_of (t : BasketTable) (g : Z) : Z := zget (bsize t) g.

(** One branch's arrays, after [total] baskets. *)
Definition add_branch (t : BasketTable) (total : Z) (b : BranchInfo) : BasketTable * Z :=
  let n := w32 (zlen (basketSeek b)) in
  let at_ l i := zget l i in
  (mkTable (names t ++ [b_name b]) (nb t ++ [n]) (boff t ++ [w32 total])
     (seek t ++ (at_ (basketSeek b) <$> zrange 0 n)) (bsize t ++ (at_ (basketBytes b) <$> zrange 0 n))
     (es t ++ ((fun i => if i <? zlen (basketEntry b) then at_ (basketEntry b) i else 0) <$> zrange 0 n)) [] [] (t_fileSize t),
   total +% n).
Definition seek_le (t : BasketTable) (a b : Z) : Prop := zget (seek t) a <= zget (seek t) b.
#[global] Instance seek_le_dec t a b : Decision (seek_le t a b).
Proof. unfold seek_le. apply _. Defined.
Definition build (fm : FileMeta) (fileSize : Z) : BasketTable :=
  let '(t, total) := foldl (fun st b => add_branch (fst st) (snd st) b) (mkTable [] [] [] [] [] [] [] [] fileSize, 0) (branches fm) in
  let idx := merge_sort (seek_le t) (zrange 0 total) in
  mkTable (names t) (nb t) (boff t) (seek t) (bsize t) (es t) (zget (seek t) <$> idx) idx fileSize.

(** The baskets of a chunk: [true] when it is a run of them. *)
Fixpoint lower_bound (v : Z) (l : list (Z * Z)) : list (Z * Z) :=
  match l with [] => [] | x :: l' => if fst x <? v then lower_bound v l' else l end.
Fixpoint run_from (t : BasketTable) (l : list (Z * Z)) (cur end_ : Z) (out : list Z) : Z * list Z :=
  match l with
  | (sk, g) :: l' => if (cur <? end_) && (w64 sk =? cur) then run_from t l' (cur +% w64 (size_of t g)) end_ (out ++ [g]) else (cur, out)
  | [] => (cur, out)
  end.
Definition decompose (t : BasketTable) (off len : Z) (out : list Z) : bool * list Z :=
  match lower_bound (signed 8 off) (zip (sortedSeek t) (sortedIdx t)) with
  | [] => (false, out)
  | (sk, g) :: l =>
      if negb (w64 sk =? off) then (false, out)
      else
        let '(cur, out') := run_from t ((sk, g) :: l) off (off +% len) out in
        if cur <? off +% len then (false, out) else (true, out')
  end.

(** ** A handle *)
Record Issued := mkIssued { i_g : Z; i_off : Z; i_len : Z }.
Record PrefetchHandle := mkPH {
  owner : Z; h_entry : option Z; table : option BasketTable; parseTries : Z; noTable : bool; frontier : list Z; share : list Z;
  fills : Z; barren : Z; shadow : list Z; issued : list Issued; closed : bool }.
Definition new_handle (st : Z) : PrefetchHandle := mkPH st None None 0 false [] [] 0 0 [] [] false.
Definition set_table (h : PrefetchHandle) (t : option BasketTable) (tries : Z) (no : bool) (fr sh : list Z) (bar : Z) : PrefetchHandle :=
  mkPH (owner h) (h_entry h) t tries no fr sh (fills h) bar (shadow h) (issued h) (closed h).
Definition set_shadow (h : PrefetchHandle) (l : list Z) : PrefetchHandle :=
  mkPH (owner h) (h_entry h) (table h) (parseTries h) (noTable h) (frontier h) (share h) (fills h) (barren h) l (issued h) (closed h).
Definition set_issued (h : PrefetchHandle) (l : list Issued) : PrefetchHandle :=
  mkPH (owner h) (h_entry h) (table h) (parseTries h) (noTable h) (frontier h) (share h) (fills h) (barren h) (shadow h) l (closed h).
Definition on_fill (h : PrefetchHandle) (entry : Z) : PrefetchHandle :=
  mkPH (owner h) (Some entry) (table h) (parseTries h) (noTable h) (frontier h) (share h) (fills h +% 1) (barren h) (shadow h) (issued h) (closed h).
(** What [handleClose] leaves. *)
Definition tombstone (h : PrefetchHandle) : PrefetchHandle :=
  mkPH (owner h) (h_entry h) None (parseTries h) (noTable h) [] [] (fills h) (barren h) [] [] true.

(** ** The prediction *)

(** Frontiers, and the bytes of the fill by branch, with one more basket. *)
Definition note_basket (t : BasketTable) (fp : list Z * list Z) (g : Z) : list Z * list Z :=
  let b := branchOf t g in
  let idx := w32 (g - zget (boff t) b) in
  (zset (fst fp) b (Z.max (zget (fst fp) b) idx), zset (snd fp) b (zget (snd fp) b +% w64 (size_of t g))).
(** [while (k < l.size() && cum < budget) cum += size]. *)
Fixpoint take_budget (t : BasketTable) (l : list Z) (cum budget : Z) : list Z :=
  match l with
  | [] => []
  | g :: l' => if cum <? budget then g :: take_budget t l' (cum +% w64 (size_of t g)) budget else []
  end.
(** The next baskets of branch [b], a budget's worth. *)
Definition branch_cands (t : BasketTable) (h : PrefetchHandle) (shareOf : bytes -> Z) (depth b : Z) : list Z :=
  let budget := Z.max (zget (share h) b) (shareOf (nth (Z.to_nat b) (names t) [])) in
  if budget =? 0 then []
  else take_budget t ((fun i => w32 (zget (boff t) b + i)) <$> zrange (zget (frontier h) b + 1) (zget (nb t) b)) 0 (budget *% depth).
Definition cand_le (t : BasketTable) (a b : Z) : Prop := zget (es t) a < zget (es t) b \/ zget (es t) a = zget (es t) b /\ zget (seek t) a <= zget (seek t) b.
#[global] Instance cand_le_dec t a b : Decision (cand_le t a b).
Proof. unfold cand_le. apply _. Defined.
Definition candidates (t : BasketTable) (h : PrefetchHandle) (shareOf : bytes -> Z) (depth : Z) : list Z :=
  merge_sort (cand_le t) (concat (branch_cands t h shareOf depth <$> zrange 0 (zlen (nb t)))).
Definition window_of (cfg : Settings) (depth held : Z) : Z :=
  let window := w64 (Z.shiftl (Z.max 1 (prefetchWindowMb cfg)) 20) *% depth in
  let ramCap := w64 (Z.shiftl (Z.max 1 (prefetchRamMb cfg)) 20) in
  Z.min window (if held <? ramCap then ramCap - held else 0).
Definition predict (cfg : Settings) (t : BasketTable) (h : PrefetchHandle) (shareOf : bytes -> Z) (held : Z) : list Z :=
  let depth := Z.max 1 (prefetchDepth cfg) in
  take_budget t (candidates t h shareOf depth) 0 (window_of cfg depth held).

(** ** The wire requests of a prediction *)
Record Elem := mkElem { e_off : Z; e_len : Z; stage : list (Z * Z) }.
Definition stageBytes (el : Elem) : Z := foldl (fun n r => n +% snd r) 0 (stage el).

(** Absent ranges joined across gaps up to [bridge]: the end, what is kept, the rest. *)
Fixpoint bridge_from (bridge start end_ : Z) (keep : list (Z * Z)) (l : list (Z * Z)) : Z * list (Z * Z) * list (Z * Z) :=
  match l with
  | (o, n) :: l' =>
      if (end_ <=? o) && (o -% end_ <=? bridge) && (o +% n -% start <=? kMaxReadvElem) then bridge_from bridge start (o +% n) (keep ++ [(o, n)]) l'
      else (end_, keep, l)
  | [] => (end_, keep, [])
  end.
(** What of [keep] lies in the element, and the elements that stage something. *)
Definition stage_in (keep : list (Z * Z)) (at_ len : Z) : list (Z * Z) :=
  omap (fun r => let s0 := Z.max (fst r) at_ in let e0 := Z.min (fst r +% snd r) (at_ +% len) in if s0 <? e0 then Some (s0, e0 -% s0) else None) keep.
Definition elems_in (keep : list (Z * Z)) (cuts : list (Z * Z)) : list Elem :=
  List.filter (fun el => negb (bool_decide (stage el = []))) ((fun c => mkElem (fst c) (snd c) (stage_in keep (fst c) (snd c))) <$> cuts).
(** [None]: a cut that does not advance. *)
Fixpoint elems_from (fuel : nat) (pageSize bridge : Z) (absent : list (Z * Z)) : option (list Elem) :=
  match fuel, absent with
  | _, [] => Some []
  | O, _ => None
  | S fuel', (o, n) :: l =>
      let '(end_, keep, rest) := bridge_from bridge o (o +% n) [(o, n)] l in
      match cut_run pageSize (Z.to_nat (end_ - o)) o end_, elems_from fuel' pageSize bridge rest with
      | Some cuts, Some els => Some (elems_in keep cuts ++ els)
      | _, _ => None
      end
  end.
(** The absent stretches of the predicted baskets' pages. *)
Definition absent_of (e : Entry.FileEntry) (t : BasketTable) (cand : list Z) : list (Z * Z) :=
  let m := Entry.meta_ e in
  let ivals := (fun g => roundSpan (Meta.pageSize m) (Meta.fileSize m) (w64 (zget (seek t) g)) (w64 (size_of t g))) <$> cand in
  concat ((fun r => Entry.absentRuns e (fst r) (snd r -% fst r) true) <$> runs_of ivals).
Definition elems_for (cfg : Settings) (e : Entry.FileEntry) (t : BasketTable) (cand : list Z) : option (list Elem) :=
  let absent := absent_of e t cand in
  elems_from (length absent) (Meta.pageSize (Entry.meta_ e)) (w64 (Z.shiftl (Z.max 0 (prefetchBridgeKb cfg)) 10)) absent.

(** ** The process *)
Inductive pctr := prefetchParses | prefetchFetchErrors | prefetchLateBytes | originBytes | originReadvs | prefetchIssuedBytes | prefetchBridgeBytes | o_prefetchIssued | prefetchDisabled.
#[global] Instance pctr_eq : EqDecision pctr.
Proof. solve_decision. Defined.

(** What the shards share. *)
Record Shared := mkShared {
  confirmed : bool; disabled : bool; s_issued : Z; s_inflight : Z; shareByName : gmap bytes Z; tables : list (bytes * BasketTable); noTables : list bytes }.
Definition no_shared : Shared := mkShared false false 0 0 ∅ [] [].
Definition set_switches (s : Shared) (c d : bool) : Shared := mkShared c d (s_issued s) (s_inflight s) (shareByName s) (tables s) (noTables s).
Definition set_bytes (s : Shared) (i f : Z) : Shared := mkShared (confirmed s) (disabled s) i f (shareByName s) (tables s) (noTables s).
Definition set_lists (s : Shared) (t : list (bytes * BasketTable)) (n : list bytes) : Shared :=
  mkShared (confirmed s) (disabled s) (s_issued s) (s_inflight s) (shareByName s) t n.

Fixpoint find_table (key : bytes) (l : list (bytes * BasketTable)) : option (BasketTable * list (bytes * BasketTable)) :=
  match l with
  | [] => None
  | (k, t) :: l' =>
      if bytes_eqb k key then Some (t, l')
      else match find_table key l' with Some (t', r) => Some (t', (k, t) :: r) | None => None end
  end.
(** A hit moves to the front. *)
Definition lookupTable (key : bytes) (s : Shared) : option BasketTable * Shared :=
  match find_table key (tables s) with
  | Some (t, r) => (Some t, set_lists s ((key, t) :: r) (noTables s))
  | None => (None, s)
  end.
(** The trim after an insertion: [n] tables in the list, [held] bytes of those passed. *)
Fixpoint trim_tables (capBytes : Z) (first : bool) (n held : Z) (l : list (bytes * BasketTable)) : list (bytes * BasketTable) :=
  match l with
  | [] => []
  | kt :: l' =>
      let held := held +% table_bytes (snd kt) in
      if negb first && ((kTableCache <? n) || (capBytes <? held)) then trim_tables capBytes false (n - 1) (held -% table_bytes (snd kt)) l'
      else kt :: trim_tables capBytes false n held l'
  end.
Definition insertTable (cfg : Settings) (key : bytes) (t : BasketTable) (s : Shared) : Shared :=
  let capBytes := w64 (Z.shiftl (Z.max 16 (prefetchMapCacheMb cfg)) 20) in
  if existsb (fun kt => bytes_eqb (fst kt) key) (tables s) then s
  else let l := (key, t) :: tables s in set_lists s (trim_tables capBytes true (zlen l) 0 l) (noTables s).
Definition isNoTable (key : bytes) (s : Shared) : bool := existsb (bytes_eqb key) (noTables s).
Definition rememberNoTable (key : bytes) (s : Shared) : Shared := set_lists s (tables s) (take kNoTableMemo (key :: noTables s)).
Definition shareOf (s : Shared) (name : bytes) : Z := default 0 (shareByName s !! name).
Definition noteShare (name : bytes) (n : Z) (s : Shared) : Shared :=
  mkShared (confirmed s) (disabled s) (s_issued s) (s_inflight s) (<[name := Z.max (shareOf s name) n]> (shareByName s)) (tables s) (noTables s).

(** A request on the wire: what its handler holds. *)
Record WireReq := mkWire { w_st : Z; w_entry : Z; w_h : Z; w_elems : list Elem; w_bytes : Z }.
Definition staged_ranges (els : list Elem) : list (Z * Z) := concat (stage <$> els).
Definition wire_bytes (els : list Elem) : Z := foldl (fun n el => n +% e_len el) 0 els.

Section process.
Context {W : Type} `{!IOBackend W} `{CK : Checksum} `{CD : Codecs}.
Context (clockS clockUs : nat -> Z) (cfg : Config.Config) (pcfg : Settings).
(** The address of a handle's object, and the key of an entry. *)
Context (addr : Z -> Z) (key_of : Z -> bytes).

(** Handles, entries and [PrefetchHandle]s are numbered as they are created; [handles] is the
    shard's table by address. [fault]: a loop that does not end, or a byte read outside a buffer. *)
Record World := mkWorld {
  entries : gmap Z Entry.FileEntry; ew : @Entry.World W; hstates : gmap Z Inner.HandleState; seen : gset Z; shared : Shared;
  phs : gmap Z PrefetchHandle; nextPh : Z; handles : gmap Z Z; jobs : Z; wires : gmap Z WireReq; nextWire : Z; counters : pctr -> Z; fault : bool }.
Definition set_entry (i : Z) (e : Entry.FileEntry) (v : @Entry.World W) (w : World) : World :=
  mkWorld (<[i := e]> (entries w)) v (hstates w) (seen w) (shared w) (phs w) (nextPh w) (handles w) (jobs w) (wires w) (nextWire w) (counters w) (fault w).
Definition set_hstate (i : Z) (h : Inner.HandleState) (w : World) : World :=
  mkWorld (entries w) (ew w) (<[i := h]> (hstates w)) (seen w) (shared w) (phs w) (nextPh w) (handles w) (jobs w) (wires w) (nextWire w) (counters w) (fault w).
Definition see (i : Z) (w : World) : World :=
  mkWorld (entries w) (ew w) (hstates w) ({[i]} ∪ seen w) (shared w) (phs w) (nextPh w) (handles w) (jobs w) (wires w) (nextWire w) (counters w) (fault w).
Definition set_shared (s : Shared) (w : World) : World :=
  mkWorld (entries w) (ew w) (hstates w) (seen w) s (phs w) (nextPh w) (handles w) (jobs w) (wires w) (nextWire w) (counters w) (fault w).
Definition set_ph (i : Z) (h : PrefetchHandle) (w : World) : World :=
  mkWorld (entries w) (ew w) (hstates w) (seen w) (shared w) (<[i := h]> (phs w)) (nextPh w) (handles w) (jobs w) (wires w) (nextWire w) (counters w) (fault w).
Definition set_handles (p : gmap Z PrefetchHandle) (n : Z) (m : gmap Z Z) (j : Z) (w : World) : World :=
  mkWorld (entries w) (ew w) (hstates w) (seen w) (shared w) p n m j (wires w) (nextWire w) (counters w) (fault w).
Definition set_wires (m : gmap Z WireReq) (n : Z) (w : World) : World :=
  mkWorld (entries w) (ew w) (hstates w) (seen w) (shared w) (phs w) (nextPh w) (handles w) (jobs w) m n (counters w) (fault w).
Definition bump (c : pctr) (n : Z) (w : World) : World :=
  mkWorld (entries w) (ew w) (hstates w) (seen w) (shared w) (phs w) (nextPh w) (handles w) (jobs w) (wires w) (nextWire w)
    (fun c' => if decide (c' = c) then counters w c' +% n else counters w c') (fault w).
Definition set_fault (w : World) : World :=
  mkWorld (entries w) (ew w) (hstates w) (seen w) (shared w) (phs w) (nextPh w) (handles w) (jobs w) (wires w) (nextWire w) (counters w) true.

Definition getW : M World World := fun w => (w, w).
Definition modW (f : World -> World) : M World unit := fun w => (tt, f w).
Definition mod_shared (f : Shared -> Shared) : M World unit := modW (fun w => set_shared (f (shared w)) w).
Definition when (b : bool) (m : M World unit) : M World unit := if b then m else ret tt.
(** A method of an entry; [d] when it is gone. *)
Definition on_entry {A} (i : Z) (d : A) (m : M Entry.St A) : M World A := fun w =>
  match entries w !! i with
  | None => (d, w)
  | Some e => let '(a, (e', v)) := m (e, ew w) in (a, set_entry i e' v w)
  end.
(** [stats(job)]: the handle's store counts, if it has one. *)
Definition count (st : Z) (c : pctr) (n : Z) : M World unit := modW (fun w => match hstates w !! st with Some h => if Inner.store h then bump c n w else w | None => w end).
Definition switchOff (st : Z) : M World unit :=
  do_ mod_shared (fun s => set_switches s (confirmed s) true);
  modW (fun w => match hstates w !! st with
                 | Some h => if Inner.store h then bump prefetchDisabled (1 - counters w prefetchDisabled) w else w
                 | None => w end).

(** The bytes of a live entry, without touching the serve counters. *)
#[export] Instance EntrySource : Source (@Entry.St W) := {|
  has off n := do e <- Entry.getE; ret (Entry.hasRange e off n);
  src_read n off := do r <- Entry.readCached clockS clockUs off n (zeros n) false; ret (if fst r then Some (snd r) else None) |}.
Definition parseTree (fileSize : Z) : M (@Entry.St W) (Res FileMeta) := @parseReaderTree (@Entry.St W) (source_reader fileSize) CD.

Record Job := mkJob { j_st : Z; j_entry : Z; j_chunks : list (Z * Z); j_close : bool; j_sync : option Z }.
Definition size_of_entry (i : Z) : M World Z := on_entry i 0 (do e <- Entry.getE; ret (Meta.fileSize (Entry.meta_ e))).

Definition tableFor (j : Job) : M World (option BasketTable) :=
  let key := key_of (j_entry j) in
  do w <- getW;
  match lookupTable key (shared w) with
  | (Some t, s) => do_ modW (set_shared s); ret (Some t)
  | (None, _) =>
      if isNoTable key (shared w) then ret None
      else
        do sz <- size_of_entry (j_entry j);
        do r <- on_entry (j_entry j) (Bad []) (parseTree (signed 8 sz));
        match r with
        | Oob => do_ modW set_fault; ret None
        | Bad _ => ret None
        | Good fm =>
            if negb (bytes_eqb (f_error fm) []) || bool_decide (branches fm = []) then ret None
            else
              do_ count (j_st j) prefetchParses 1;
              let t := build fm (signed 8 sz) in
              do_ mod_shared (insertTable pcfg key t);
              ret (Some t)
        end
  end.

(** *** The table of handles *)
Fixpoint drop_issued (entry : Z) (l : list Issued) : M World unit :=
  match l with
  | [] => ret tt
  | i :: l' => do_ on_entry entry 0 (Entry.dropSpeculative (i_off i) (i_len i)); drop_issued entry l'
  end.
(** One handle of the sweep: [dead] are the handles no one holds any more. *)
Definition sweep_one (dead : Z -> bool) (ap : Z * Z) : M World unit :=
  do w <- getW;
  match phs w !! snd ap with
  | None => ret tt
  | Some h =>
      if negb (dead (owner h)) then ret tt
      else
        do_ match h_entry h with Some e => drop_issued e (issued h) | None => ret tt end;
        modW (fun w => set_handles (phs w) (nextPh w) (delete (fst ap) (handles w)) (jobs w) w)
  end.
Fixpoint sweep (dead : Z -> bool) (l : list (Z * Z)) : M World unit :=
  match l with [] => ret tt | ap :: l' => do_ sweep_one dead ap; sweep dead l' end.
Definition sweepDeadHandles (dead : Z -> bool) : M World unit := do w <- getW; sweep dead (map_to_list (handles w)).

(** The state of a live handle: what the table has at its address, if that is its own. *)
Definition existing (st : Z) (w : World) : option Z :=
  match handles w !! addr st with
  | Some p => match phs w !! p with Some h => if owner h =? st then Some p else None | None => None end
  | None => None
  end.
Definition handle (dead : Z -> bool) (st : Z) : M World Z :=
  do_ modW (fun w => set_handles (phs w) (nextPh w) (handles w) (jobs w +% 1) w);
  do w <- getW;
  do_ when (jobs w mod 64 =? 0) (sweepDeadHandles dead);
  do w <- getW;
  match existing st w with
  | Some p => ret p
  | None =>
      let p := nextPh w in
      do_ modW (fun w => see st (set_handles (<[p := new_handle st]> (phs w)) (p + 1) (<[addr st := p]> (handles w)) (jobs w) w));
      ret p
  end.

Definition handleClose (j : Job) : M World unit :=
  do w <- getW;
  match existing (j_st j) w with
  | None => ret tt
  | Some p =>
      match phs w !! p with
      | None => ret tt
      | Some h =>
          do_ modW (set_ph p (mkPH (owner h) (h_entry h) (table h) (parseTries h) (noTable h) (frontier h) (share h) (fills h) (barren h) (shadow h) (issued h) true));
          do_ drop_issued (j_entry j) (issued h);
          modW (set_ph p (tombstone h))
      end
  end.

(** *** The wire *)

(** The handler's destructor. *)
Definition destroy_wire (id : Z) : M World unit :=
  do w <- getW;
  match wires w !! id with
  | None => ret tt
  | Some r =>
      do_ modW (set_wires (delete id (wires w)) (nextWire w));
      do_ mod_shared (fun s => set_bytes s (s_issued s) (s_inflight s -% w_bytes r));
      on_entry (w_entry r) tt
        (do cbs <- Entry.locked (fun e => let '(e', l) := Entry.clearFetchInFlights (staged_ranges (w_elems r)) e in (l, e'));
         Entry.fire (Entry.Fire <$> cbs))
  end.
Definition on_hstate (st : Z) (f : Inner.HandleState -> Inner.HandleState) : M World unit :=
  modW (fun w => match hstates w !! st with Some h => set_hstate st (f h) w | None => w end).

(** The pieces of one element that arrived in [buf]: bytes that were late, bytes dropped. *)
Fixpoint stage_pieces (w_h entry off : Z) (buf : bytes) (l : list (Z * Z)) (late dropped : Z) : M World (Z * Z) :=
  match l with
  | [] => ret (late, dropped)
  | r :: l' =>
      do w <- getW;
      if match phs w !! w_h with Some h => closed h | None => true end then stage_pieces w_h entry off buf l' late (dropped +% snd r)
      else
        do got <- on_entry entry 0 (Entry.stageSpeculative cfg (fst r) (snd r) (zsub buf (fst r -% off) (snd r)));
        stage_pieces w_h entry off buf l' (late +% (snd r -% got)) dropped
  end.
Fixpoint stage_elems (w_h entry : Z) (els : list Elem) (bufs : list bytes) (late dropped : Z) : M World (Z * Z) :=
  match els with
  | [] => ret (late, dropped)
  | el :: els' =>
      do ld <- stage_pieces w_h entry (e_off el) (hd [] bufs) (stage el) late dropped;
      stage_elems w_h entry els' (tl bufs) (fst ld) (snd ld)
  end.
(** [HandleResponseWithHosts]: [None] for a failure, or the bytes of every element. *)
Definition HandleResponse (id : Z) (answer : option (list bytes)) : M World unit :=
  do w <- getW;
  match wires w !! id with
  | None => ret tt
  | Some r =>
      do_ on_hstate (w_st r) Inner.releaseInner;
      match answer with
      | None => do_ count (w_st r) prefetchFetchErrors 1; destroy_wire id
      | Some bufs =>
          do ld <- stage_elems (w_h r) (w_entry r) (w_elems r) bufs 0 0;
          let '(late, dropped) := ld in
          do_ count (w_st r) originBytes (wire_bytes (w_elems r));
          do_ count (w_st r) originReadvs 1;
          do_ when (negb (late =? 0)) (count (w_st r) prefetchLateBytes late);
          do_ when (negb (dropped =? 0)) (on_entry (w_entry r) tt (Entry.noteSpeculativeDropped dropped));
          destroy_wire id
      end
  end.

Fixpoint note_flights (entry : Z) (l : list (Z * Z)) : M World unit :=
  match l with
  | [] => ret tt
  | r :: l' => do_ on_entry entry tt (Entry.modE (Entry.noteFetchInFlight (fst r) (snd r))); note_flights entry l'
  end.
(** One vector read: [isOpen] of the inner file, and whether XrdCl took the request. [None]: stop. *)
Definition issue_part (j : Job) (p : Z) (els : list Elem) (isOpen ok : bool) : M World (option (Z * Z)) :=
  do w <- getW;
  match hstates w !! j_st j with
  | None => ret None
  | Some h =>
      match Inner.acquireInnerIfOpen isOpen h with
      | (None, _) => ret None
      | (Some _, h') =>
          let partBytes := wire_bytes els in
          let partStage := foldl (fun n el => n +% stageBytes el) 0 els in
          do_ modW (set_hstate (j_st j) h');
          do_ mod_shared (fun s => set_bytes s (s_issued s) (s_inflight s +% partBytes));
          do_ note_flights (j_entry j) (staged_ranges els);
          let id := nextWire w in
          do_ modW (fun w => set_wires (<[id := mkWire (j_st j) (j_entry j) p els partBytes]> (wires w)) (id + 1) w);
          if ok then ret (Some (partStage, partBytes))
          else
            do_ destroy_wire id;
            do_ on_hstate (j_st j) Inner.releaseInner;
            do_ count (j_st j) prefetchFetchErrors 1;
            ret None
      end
  end.
(** The requests of [kMaxReadvElems] elements, from the [k]-th on: bytes to stage, bytes asked for. *)
Fixpoint issue_parts (fuel : nat) (j : Job) (p : Z) (origin : nat -> bool * bool) (k : nat) (els : list Elem) (sent wireSent : Z) : M World (Z * Z) :=
  match fuel, els with
  | _, [] | O, _ => ret (sent, wireSent)
  | S fuel', _ =>
      do r <- issue_part j p (take (Z.to_nat kMaxReadvElems) els) (fst (origin k)) (snd (origin k));
      match r with
      | None => ret (sent, wireSent)
      | Some (a, b) => issue_parts fuel' j p origin (S k) (drop (Z.to_nat kMaxReadvElems) els) (sent +% a) (wireSent +% b)
      end
  end.
Definition issued_le (a b : Issued) : Prop := i_g a <= i_g b.
#[global] Instance issued_le_dec a b : Decision (issued_le a b).
Proof. unfold issued_le. apply _. Defined.
(** One entry per basket. *)
Fixpoint unique_from (prev : Z) (l : list Issued) : list Issued :=
  match l with
  | [] => []
  | x :: l' => if i_g x =? prev then unique_from prev l' else x :: unique_from (i_g x) l'
  end.
Definition unique_issued (l : list Issued) : list Issued := match l with [] => [] | x :: l' => x :: unique_from (i_g x) l' end.
Definition issue (j : Job) (p : Z) (t : BasketTable) (cand : list Z) (origin : nat -> bool * bool) : M World unit :=
  do w <- getW;
  match entries w !! j_entry j with
  | None => ret tt
  | Some e =>
      match elems_for pcfg e t cand with
      | None => modW set_fault
      | Some els =>
          do sw <- issue_parts (length els) j p origin O els 0 0;
          let '(sent, wireSent) := sw in
          if sent =? 0 then ret tt
          else
            do_ modW (fun w => match phs w !! p with
                               | None => w
                               | Some h => set_ph p (set_issued h (unique_issued (merge_sort issued_le
                                   (issued h ++ ((fun g => mkIssued g (w64 (zget (seek t) g)) (w64 (size_of t g))) <$> cand))))) w
                               end);
            do_ mod_shared (fun s => set_bytes s (s_issued s +% sent) (s_inflight s));
            do_ count (j_st j) prefetchIssuedBytes sent;
            do_ when (sent <? wireSent) (count (j_st j) prefetchBridgeBytes (wireSent - sent));
            modW (bump o_prefetchIssued sent)
      end
  end.
Definition predictAndIssue (j : Job) (p : Z) (h : PrefetchHandle) (t : BasketTable) (origin : nat -> bool * bool) : M World unit :=
  do w <- getW;
  let held := Entry.g_specTotal_ (ew w) +% s_inflight (shared w) in
  let cand := predict pcfg t h (shareOf (shared w)) held in
  do_ modW (set_ph p (set_shadow h (merge_sort Z.le cand)));
  if bool_decide (cand = []) || negb (confirmed (shared w)) then ret tt
  else issue j p t cand origin.

(** *** A fill *)

(** The handle's basket map, parsed at its second fill or once predictions are trusted. *)
Definition table_of (j : Job) (p : Z) (h : PrefetchHandle) : M World (option (PrefetchHandle * BasketTable)) :=
  match table h with
  | Some t => ret (Some (h, t))
  | None =>
      if noTable h then ret None
      else
        do w <- getW;
        if negb (confirmed (shared w)) && (fills h <? 2) then ret None
        else
          do here <- on_entry (j_entry j) false (do e <- Entry.getE; ret (Entry.hasRange e 0 512));
          if negb here then ret None
          else
            do t <- tableFor j;
            match t with
            | None =>
                let tries := parseTries h + 1 in
                do_ modW (set_ph p (set_table h None tries (noTable h || (kParseTries <=? tries)) (frontier h) (share h) (barren h)));
                do_ when (kParseTries <=? tries) (mod_shared (rememberNoTable (key_of (j_entry j))));
                ret None
            | Some t =>
                let h := set_table h (Some t) (parseTries h) (noTable h) (replicate (length (nb t)) (-1)) (replicate (length (nb t)) 0) (barren h) in
                do_ modW (set_ph p h);
                ret (Some (h, t))
            end
  end.
(** The baskets asked for, and the bytes of the fill. *)
Definition fill_baskets (t : BasketTable) (chunks : list (Z * Z)) : list Z * Z :=
  foldl (fun st c => (snd (decompose t (fst c) (snd c) (fst st)), snd st +% snd c)) ([], 0) chunks.
Definition note_shares (t : BasketTable) (per : list Z) (s : Shared) : Shared :=
  foldl (fun s b => if zget per b =? 0 then s else noteShare (nth (Z.to_nat b) (names t) []) (zget per b) s) s (zrange 0 (zlen per)).
Definition max_shares (share per : list Z) : list Z :=
  (fun b => if zget per b =? 0 then zget share b else Z.max (zget share b) (zget per b)) <$> zrange 0 (zlen share).
(** A basket that the frontier of the earlier fills has passed. *)
Definition passed (t : BasketTable) (prev : list Z) (i : Issued) : bool :=
  let b := branchOf t (i_g i) in w32 (i_g i - zget (boff t) b) <=? zget prev b.
(** The handle after a fill of the baskets [gs], and what each branch drew. *)
Definition advance (t : BasketTable) (h : PrefetchHandle) (gs : list Z) : PrefetchHandle * list Z :=
  let '(fr, per) := foldl (note_basket t) (frontier h, replicate (length (nb t)) 0) gs in
  (set_table h (table h) (parseTries h) (noTable h) fr (max_shares (share h) per) 0, per).
Definition hit_bytes (t : BasketTable) (gs shadow : list Z) : Z :=
  foldl (fun n g => n +% w64 (size_of t g)) 0 (List.filter (fun g => bool_decide (g ∈ shadow)) gs).
Definition follow (j : Job) (p : Z) (h : PrefetchHandle) (t : BasketTable) (origin : nat -> bool * bool) : M World unit :=
  let '(gs, fillBytes) := fill_baskets t (j_chunks j) in
  if bool_decide (gs = []) then
    let bar := w32 (barren h + 1) in
    modW (set_ph p (if kBarrenFills <=? bar then set_table h None (parseTries h) true (frontier h) (share h) bar
                    else set_table h (table h) (parseTries h) (noTable h) (frontier h) (share h) bar))
  else
    let gs := ReadMap.unique (merge_sort Z.le gs) in
    let '(h', per) := advance t h gs in
    do_ mod_shared (note_shares t per);
    do w <- getW;
    do_ when (negb (bool_decide (shadow h = [])) && negb (fillBytes =? 0) && negb (confirmed (shared w)) && confirms (hit_bytes t gs (shadow h)) fillBytes)
             (mod_shared (fun s => set_switches s true (disabled s)));
    do_ drop_issued (j_entry j) (List.filter (passed t (frontier h)) (issued h));
    let h := set_issued h' (List.filter (fun i => negb (passed t (frontier h) i)) (issued h)) in
    do_ modW (set_ph p h);
    do w <- getW;
    if (kGateMinIssued <=? s_issued (shared w)) && over_gate (Entry.g_specDropped_ (ew w)) (s_issued (shared w)) then
      do_ switchOff (j_st j);
      do_ drop_issued (j_entry j) (issued h);
      modW (set_ph p (set_issued h []))
    else predictAndIssue j p h t origin.
Definition handleFill (dead : Z -> bool) (origin : nat -> bool * bool) (j : Job) : M World unit :=
  do w <- getW;
  if negb (prefetch pcfg) || disabled (shared w) then ret tt
  else if Config.fillBufferMb cfg <=? 0 then ret tt
  else
    do p <- handle dead (j_st j);
    do w <- getW;
    match phs w !! p with
    | None => ret tt
    | Some h =>
        if closed h then ret tt
        else
          let h := on_fill h (j_entry j) in
          do_ modW (set_ph p h);
          do r <- table_of j p h;
          match r with None => ret tt | Some (h, t) => follow j p h t origin end
    end.
Definition run_job (dead : Z -> bool) (origin : nat -> bool * bool) (j : Job) : M World unit :=
  if j_close j then handleClose j else handleFill dead origin j.

(** *** The queue of a shard *)

(** One pending job per handle; [woken] are the waiting closes that were told. A pending job holds its handle. *)
Record Queue := mkQueue { order_ : list Z; pending_ : gmap Z Job; woken : gset Z }.
Definition no_queue : Queue := mkQueue [] ∅ ∅.
Fixpoint erase_one (k : Z) (l : list Z) : list Z :=
  match l with [] => [] | x :: l' => if x =? k then l' else x :: erase_one k l' end.
Definition wake (s : option Z) (m : gset Z) : gset Z := match s with Some x => {[x]} ∪ m | None => m end.
Definition post (j : Job) (q : Queue) : Queue :=
  let k := j_st j in
  match pending_ q !! k with
  | None => mkQueue (if j_close j then k :: order_ q else order_ q ++ [k]) (<[k := j]> (pending_ q)) (woken q)
  | Some old =>
      if j_close j then mkQueue (k :: erase_one k (order_ q)) (<[k := j]> (pending_ q)) (wake (j_sync old) (woken q))
      else if negb (j_close old) then mkQueue (order_ q) (<[k := j]> (pending_ q)) (woken q)
      else q
  end.
(** The worker takes a job; [finished] is what it does once the job is done and destroyed. *)
Definition take_job (q : Queue) : option (Job * Queue) :=
  match order_ q with
  | [] => None
  | k :: l => match pending_ q !! k with Some j => Some (j, mkQueue l (delete k (pending_ q)) (woken q)) | None => None end
  end.
Definition finished (j : Job) (q : Queue) : Queue := mkQueue (order_ q) (pending_ q) (wake (j_sync j) (woken q)).
(** [Shard::loop], once. *)
Definition turn (dead : Z -> bool) (origin : nat -> bool * bool) (s : Queue * World) : Queue * World :=
  match take_job (fst s) with
  | None => s
  | Some (j, q) => let '(_, w) := run_job dead origin j (snd s) in (finished j q, w)
  end.

(** *** The calls of the plug-in *)
Definition onFill (st entry : Z) (chunks : list (Z * Z)) (anyMiss : bool) (s : Queue * World) : Queue * World :=
  let '(q, w) := s in
  if bool_decide (chunks = []) then s
  else if negb (prefetch pcfg) || disabled (shared w) then s
  else if negb anyMiss && negb (bool_decide (st ∈ seen w)) then s
  else (post (mkJob st entry chunks false None) q, see st w).
(** The thread then waits for [sync], unless there is nothing to wait for. *)
Definition onClose (st entry sync : Z) (s : Queue * World) : Queue * World :=
  let '(q, w) := s in
  if negb (bool_decide (st ∈ seen w)) then s else (post (mkJob st entry [] true (Some sync)) q, w).
End process.
End Prefetch.
