(* ===== verification/PrefetchWire.v ===== *)
(** * What read-ahead predicts and asks for (src/plugin/Prefetch.cc)

    Module PrefetchPredict, the baskets of a prediction: which of each branch's, in what order, and how many bytes of them.
    Module PrefetchWire, the requests that fetch them: which pages of the predicted baskets, as which elements, and what of
    each element is kept. *)

From stdpp Require Import sorting.
From S2P Require Import Prelude Crc32c IOBackend Config MetaFile UrlKey FileEntry FileEntryInv FileEntryRead WireRead WireSpan WireServe ReadShare Prefetch.
Local Open Scope u64_scope.

Module PrefetchPredict.
Import Prefetch.

Section predict.
Context (t : BasketTable).
(** Bytes of some baskets. *)
Definition bytes_of (l : list Z) : Z := foldr (fun g n => size_of t g + n) 0 l.
Definition sizes_ok : Prop := forall g, 0 <= size_of t g < p32.

Lemma bytes_of_app l1 l2 : bytes_of (l1 ++ l2) = bytes_of l1 + bytes_of l2.
Proof. unfold bytes_of. induction l1 as [|g l1 IH]; cbn [app foldr]; [done|]. rewrite IH. lia. Qed.
Lemma bytes_of_nonneg l : sizes_ok -> 0 <= bytes_of l.
Proof. intros Hs. unfold bytes_of. induction l as [|g l IH]; cbn [foldr]; [lia|]. specialize (Hs g). lia. Qed.

(** The loops that take baskets up to a budget: a prefix, all of it unless the budget is spent, and the budget is
    not spent before the last one. *)
Lemma take_budget_spec l : sizes_ok -> forall cum budget, 0 <= cum -> cum < p63 + p32 -> budget < p63 ->
  let got := take_budget t l cum budget in
  exists rest, l = got ++ rest /\ (rest = [] \/ budget <= cum + bytes_of got) /\
    forall l1 g l2, got = l1 ++ g :: l2 -> cum + bytes_of l1 < budget.
Proof.
  intros Hs. induction l as [|g l IH]; intros cum budget Hc Hc2 Hb; cbn [take_budget].
  { exists []. split; [done|]. split; [by left|]. intros l1 g l2 H. by destruct l1. }
  destruct (cum <? budget) eqn:E; b2p.
  - pose proof (Hs g). rewrite (w64_small (size_of t g)), w64_small by lia.
    destruct (IH (cum + size_of t g) budget ltac:(lia) ltac:(lia) Hb) as (rest & H1 & H2 & H3). exists rest. cbn [app].
    split; [by f_equal|]. split; [destruct H2 as [?|H2]; [by left|right]; unfold bytes_of in *; cbn [foldr]; lia|].
    intros l1 g' l2 Hl. destruct l1 as [|g1 l1]; [unfold bytes_of; cbn [foldr]; lia|]. injection Hl as <- Hl. apply H3 in Hl. unfold bytes_of in *. cbn [foldr]. lia.
  - exists (g :: l). split; [done|]. split; [right; unfold bytes_of; cbn [foldr]; lia|]. intros l1 g' l2 H. by destruct l1.
Qed.

(** ** One branch *)
Context (h : PrefetchHandle) (share : bytes -> Z) (depth : Z).
Definition budget_of (b : Z) : Z := Z.max (zget (Prefetch.share h) b) (share (nth (Z.to_nat b) (names t) [])).
Definition nth_basket (b i : Z) : Z := zget (boff t) b + i.
(** The baskets of branch [b] after the frontier and before its [i]-th. *)
Definition between (b i : Z) : list Z := nth_basket b <$> zrange (zget (frontier h) b + 1) i.
(** The [i]-th basket of branch [b] is one of the next, and the branch's budget reaches it. *)
Definition due (b i : Z) : Prop :=
  0 <= b < zlen (nb t) /\ zget (frontier h) b < i < zget (nb t) b /\ bytes_of (between b i) < budget_of b * depth.
Record predict_ok : Prop := {
  po_sizes : sizes_ok;
  po_depth : 0 < depth;
  po_off : forall b, 0 <= b < zlen (nb t) -> 0 <= zget (boff t) b /\ zget (boff t) b + zget (nb t) b < p32;
  po_front : forall b, 0 <= b < zlen (nb t) -> -1 <= zget (frontier h) b;
  po_budget : forall b, 0 <= b < zlen (nb t) -> 0 <= budget_of b /\ budget_of b * depth < p63 }.

Lemma prefix_of_map (f : Z -> Z) got rest : forall a b, f <$> zrange a b = got ++ rest -> a <= b -> exists c, a <= c <= b /\ got = f <$> zrange a c /\ (rest = [] -> c = b).
Proof.
  induction got as [|x got IH]; intros a b H Hab.
  - exists a. split; [lia|]. split; [by rewrite zrange_nil by lia|]. intros ->. destruct (Z.lt_ge_cases a b); [|lia]. rewrite zrange_cons in H by lia. done.
  - destruct (Z.lt_ge_cases a b); [|rewrite zrange_nil in H by lia; done]. rewrite zrange_cons in H by lia. cbn in H. injection H as <- H.
    destruct (IH _ _ H ltac:(lia)) as (c & Hc & -> & Hr). exists c. split; [lia|]. split; [by rewrite (zrange_cons a c) by lia|done].
Qed.

Lemma branch_cands_spec b g : predict_ok -> 0 <= b < zlen (nb t) -> g ∈ branch_cands t h share depth b <-> exists i, due b i /\ g = nth_basket b i.
Proof.
  intros Hok Hb. destruct (po_off Hok b Hb) as [Ho1 Ho2], (po_budget Hok b Hb) as [Hb1 Hb2]. pose proof (po_front Hok b Hb) as Hf. pose proof (po_depth Hok) as Hd.
  unfold branch_cands, due. fold (budget_of b). destruct (budget_of b =? 0) eqn:E0; b2p.
  { rewrite elem_of_nil, E0. split; [done|]. intros (i & (_ & _ & Hi) & _). pose proof (bytes_of_nonneg (between b i) (po_sizes Hok)). lia. }
  rewrite (w64_small (budget_of b * depth)) by lia. set (a := zget (frontier h) b + 1) in *.
  destruct (Z.lt_ge_cases a (zget (nb t) b)) as [Hlt|Hge].
  2:{ rewrite zrange_nil by lia. cbn. rewrite elem_of_nil. split; [done|]. intros (i & (_ & ? & _) & _). lia. }
  assert ((fun i => w32 (zget (boff t) b + i)) <$> zrange a (zget (nb t) b) = nth_basket b <$> zrange a (zget (nb t) b)) as ->.
  { apply list_fmap_ext. intros n i Hi%list_elem_of_lookup_2%elem_of_zrange. unfold nth_basket. rewrite w32_small by lia. done. }
  destruct (take_budget_spec (nth_basket b <$> zrange a (zget (nb t) b)) (po_sizes Hok) 0 (budget_of b * depth) ltac:(lia) ltac:(lia) Hb2) as (rest & H1 & H2 & H3).
  set (got := take_budget _ _ _ _) in *. destruct (prefix_of_map _ _ _ _ _ H1 ltac:(lia)) as (c & Hc & Hgot & Hr). 
  assert (forall i, a <= i < zget (nb t) b -> bytes_of (between b i) < budget_of b * depth <-> i < c) as Hin.
  { intros i Hi. unfold between. fold a. split.
    - intros Hs. destruct (Z.lt_ge_cases i c) as [|Hge]; [done|]. destruct H2 as [Hr2|H2]; [specialize (Hr Hr2); lia|].
      rewrite (zrange_app a c i), fmap_app, bytes_of_app in Hs by lia. rewrite Hgot in H2. pose proof (bytes_of_nonneg (nth_basket b <$> zrange c i) (po_sizes Hok)). lia.
    - intros Hi'. assert (got = (nth_basket b <$> zrange a i) ++ nth_basket b i :: (nth_basket b <$> zrange (i + 1) c)) as E.
      { rewrite Hgot, (zrange_app a i c), fmap_app by lia. by rewrite (zrange_cons i c) by lia. }
      apply H3 in E. lia. }
  rewrite Hgot, list_elem_of_fmap. split.
  - intros (i & -> & Hi%elem_of_zrange). exists i. split; [|done]. split; [done|]. split; [lia|]. apply Hin; lia.
  - intros (i & (_ & Hi & Hs) & ->). exists i. split; [done|]. apply elem_of_zrange. split; [lia|]. apply Hin; [lia|done].
Qed.

Lemma candidates_spec g : predict_ok -> g ∈ candidates t h share depth <-> exists b i, due b i /\ g = nth_basket b i.
Proof.
  intros Hok. unfold candidates. rewrite (merge_sort_Permutation (cand_le t)). rewrite list_elem_of_In, in_concat. setoid_rewrite <- list_elem_of_In. setoid_rewrite list_elem_of_fmap. split.
  - intros (l & (b & -> & Hb%elem_of_zrange) & Hg). exists b. by apply branch_cands_spec.
  - intros (b & i & Hd & ->). exists (branch_cands t h share depth b). pose proof (proj1 Hd) as Hb. split; [exists b; split; [done|by apply elem_of_zrange]|].
    apply branch_cands_spec; [done..|]. by exists i.
Qed.
End predict.

#[global] Instance cand_le_total t : Total (cand_le t).
Proof. intros a b. unfold cand_le. lia. Qed.
#[global] Instance cand_le_trans t : Transitive (cand_le t).
Proof. intros a b c. unfold cand_le. lia. Qed.

Definition ram_cap (cfg : Settings) : Z := Z.shiftl (Z.max 1 (prefetchRamMb cfg)) 20.

(** C30: A prediction, whatever the handle has seen: in entry order and then by place in the file; each basket is
    one its branch has not reached, and the branch's bytes before it stay under what the branch drew in its largest
    fill, times the depth; the bytes before its last basket stay under the window, and under what the memory cap
    leaves, with nothing predicted once the cap is reached; and a basket that meets this but is not there comes
    after those that are, which fill the window. *)
Theorem prediction_bounded cfg t h share held :
  let depth := Z.max 1 (prefetchDepth cfg) in
  predict_ok t h share depth -> prefetchRamMb cfg < 2 ^ 40 -> 0 <= held ->
  let gs := predict cfg t h share held in
  let window := window_of cfg depth held in
  window <= Z.max 0 (ram_cap cfg - held) /\ StronglySorted (cand_le t) gs /\
  (forall g, g ∈ gs -> exists b i, due t h share depth b i /\ g = nth_basket t b i) /\
  (forall l g, gs = l ++ [g] -> bytes_of t l < window) /\
  forall b i, due t h share depth b i -> nth_basket t b i ∈ gs \/ (window <= bytes_of t gs /\ Forall (fun g => cand_le t g (nth_basket t b i)) gs).
Proof.
  intros depth Hok Hram Hheld gs window.
  assert (window <= Z.max 0 (ram_cap cfg - held) /\ window < p63) as [Hw Hw2].
  { unfold window, window_of, ram_cap. rewrite !Z.shiftl_mul_pow2 by lia. change (2 ^ 20) with 1048576. change (2 ^ 40) with 1099511627776 in Hram.
    rewrite (w64_small (Z.max 1 (prefetchRamMb cfg) * 1048576)) by lia. destruct (held <? _) eqn:E; b2p; lia. }
  split; [done|]. assert (StronglySorted (cand_le t) (candidates t h share depth)) as Hs by (apply StronglySorted_merge_sort; apply _).
  destruct (take_budget_spec t (candidates t h share depth) (po_sizes _ _ _ _ Hok) 0 window ltac:(lia) ltac:(lia) Hw2) as (rest & H1 & H2 & H3).
  change (take_budget t (candidates t h share depth) 0 window) with gs in *. rewrite H1 in Hs.
  split; [by apply StronglySorted_app_1_l in Hs|]. split; [intros g Hg; apply candidates_spec; [done|]; rewrite H1; set_solver|].
  split; [intros l g Hl; apply H3 in Hl; lia|]. intros b i Hd.
  assert (nth_basket t b i ∈ gs ++ rest) as [?|Hin]%elem_of_app; [rewrite <- H1; apply candidates_spec; [done|by exists b, i]|by left|right].
  split; [destruct H2 as [->|?]; [by apply elem_of_nil in Hin|lia]|]. apply Forall_forall. intros g Hg. by eapply StronglySorted_app_1_elem_of.
Qed.

(** ** An example: two branches of three baskets, the first read up to its first basket *)
Definition demo_table : BasketTable :=
  mkTable [[97]; [98]] [3; 3] [0; 3] [100; 500; 900; 300; 700; 1100] [200; 200; 200; 200; 200; 200] [0; 10; 20; 0; 10; 20] [] [] 10000.
Definition demo_handle : PrefetchHandle := mkPH 1 None (Some demo_table) 0 false [0; -1] [200; 200] 1 0 [] [] false.
Definition demo_cfg : Settings := mkSettings true 1 1 2 0 1 16.
Lemma demo_predict_ok : predict_ok demo_table demo_handle (fun _ => 0) 2.
Proof.
  assert (forall b, 0 <= b < zlen (nb demo_table) -> b = 0 \/ b = 1) as Hb by (intros b; change (zlen (nb demo_table)) with 2; lia).
  split; [|lia|intros b [-> | ->]%Hb; vm_compute; intuition congruence..]. intros g. unfold size_of, zget.
  cbn [bsize demo_table]. generalize (Z.to_nat g). intros n. do 6 (destruct n as [|n]; [cbn; lia|]). destruct n; cbn; lia.
Qed.
Lemma prediction_bounded_witness :
  predict_ok demo_table demo_handle (fun _ => 0) 2 /\ predict demo_cfg demo_table demo_handle (fun _ => 0) 0 = [3; 1; 4; 2] /\
  forall l g, predict demo_cfg demo_table demo_handle (fun _ => 0) 0 = l ++ [g] -> bytes_of demo_table l < window_of demo_cfg 2 0.
Proof.
  split; [exact demo_predict_ok|]. split; [vm_compute; reflexivity|].
  exact (proj1 (proj2 (proj2 (proj2 (prediction_bounded demo_cfg demo_table demo_handle (fun _ => 0) 0 demo_predict_ok ltac:(reflexivity) ltac:(lia)))))).
Defined.
End PrefetchPredict.

Module PrefetchWire.
Import Wire WireSpan Scatter Serve ReadShare Prefetch.

(** ** Ranges, first first, none empty, none meeting another, from [lo] up to [hi] *)
Fixpoint chain (lo : Z) (l : list (Z * Z)) (hi : Z) : Prop :=
  match l with [] => lo <= hi | (o, n) :: l' => lo <= o /\ 0 < n /\ chain (o + n) l' hi end.
Definition covers (l : list (Z * Z)) (x : Z) : Prop := exists r, r ∈ l /\ fst r <= x < fst r + snd r.

Lemma ranges_le l : forall lo hi, chain lo l hi -> lo <= hi.
Proof. induction l as [|[o n] l IH]; intros lo hi; cbn; [done|]. intros (? & ? & ?%IH). lia. Qed.
Lemma ranges_app l1 l2 : forall lo hi, chain lo (l1 ++ l2) hi <-> exists mid, chain lo l1 mid /\ chain mid l2 hi.
Proof.
  induction l1 as [|[o n] l1 IH]; intros lo hi; cbn.
  - split; [intros H; exists lo; split; [lia|done]|]. intros (mid & Hm & H). destruct l2 as [|[o n] l2]; cbn in *; [lia|]. split; [lia|apply H].
  - rewrite IH. naive_solver.
Qed.
Lemma chain_weaken l lo lo' hi hi' : lo' <= lo -> hi <= hi' -> chain lo l hi -> chain lo' l hi'.
Proof. revert lo lo'. induction l as [|[o n] l IH]; intros lo lo' Hl Hh; cbn; [lia|]. intros (? & ? & H). split; [lia|]. split; [lia|]. eapply IH, H; lia. Qed.
Lemma chain_inside l : forall lo hi, chain lo l hi -> Forall (fun r => lo <= fst r /\ 0 < snd r /\ fst r + snd r <= hi) l.
Proof.
  induction l as [|[o n] l IH]; intros lo hi; [constructor|]. intros (Ho & Hn & H). pose proof (ranges_le _ _ _ H). constructor; [cbn; lia|].
  eapply Forall_impl; [apply (IH _ _ H)|]. cbn. lia.
Qed.
Lemma covers_none x : ~ covers [] x.
Proof. intros (r & Hr & _). by apply elem_of_nil in Hr. Qed.
Lemma covers_first r l x : covers (r :: l) x <-> fst r <= x < fst r + snd r \/ covers l x.
Proof.
  unfold covers. split.
  - intros (r' & [->|Hr]%elem_of_cons & H); [by left|]. right. by exists r'.
  - intros [H|(r' & Hr & H)]; [exists r; split; [by left|done]|]. exists r'. split; [by right|done].
Qed.
Lemma covers_app l1 l2 x : covers (l1 ++ l2) x <-> covers l1 x \/ covers l2 x.
Proof. unfold covers. setoid_rewrite elem_of_app. naive_solver. Qed.
Lemma covers_chain l lo hi x : chain lo l hi -> covers l x -> lo <= x < hi.
Proof. intros H%chain_inside (r & Hr & Hx). rewrite Forall_forall in H. specialize (H r Hr). cbn in H. lia. Qed.

(** Ends at page boundaries, or at the end of the file. *)
Definition page_end (ps fs x : Z) : Prop := x mod ps = 0 \/ x = fs.

Section wire.
Context `{CK : Checksum}.
Context (P fs : Z) (HP : Config.validPageSize P = true) (Hfs : 0 <= fs < p63).
Let whole := Forall (whole_pages P fs).

(** ** Absent pages *)
Definition wanted (e : Entry.FileEntry) (i : Z) : Prop := Entry.pageHere e i = false /\ Entry.pageInFlight e i = false.

Lemma last_split (l : list (Z * Z)) : match last l with Some r => l = removelast l ++ [r] | None => l = [] end.
Proof. destruct (last l) as [r|] eqn:E; [|by apply last_None]. apply last_Some in E as [l' ->]. by rewrite removelast_last. Qed.

Lemma absent_step_spec e lo runs i : EntryInv.Inv P fs e -> 0 <= lo -> 0 <= i < EntryInv.np P fs -> chain lo runs (i * P) -> whole runs ->
  let runs' := Entry.absent_step e true runs i in
  chain lo runs' (Z.min (i * P + P) fs) /\ whole runs' /\
  forall x, covers runs' x <-> covers runs x \/ (i * P <= x < Z.min (i * P + P) fs /\ wanted e i).
Proof using HP Hfs.
  intros He Hlo Hi Hc Hw. destruct (EntryInv.pb_plain P fs HP Hfs i Hi) as (E1 & Hlt & E2 & Hpb). pose proof (EntryInv.P_range P HP) as HPr.
  pose proof (chain_inside _ _ _ Hc) as Hin. unfold Entry.absent_step, wanted.
  destruct (Entry.pageHere e i); [split; [by eapply chain_weaken, Hc; lia|split; [done|]]; naive_solver|].
  destruct (Entry.pageInFlight e i); cbn [andb]; [split; [by eapply chain_weaken, Hc; lia|split; [done|]]; naive_solver|].
  rewrite (EntryInv.meta_ok_pb P fs _ i (EntryInv.i_meta _ _ _ He)). destruct (EntryInv.i_meta _ _ _ He) as (-> & _). rewrite E1.
  set (b := EntryInv.pb P fs i) in *. replace (Z.min (i * P + P) fs) with (i * P + b) by lia.
  assert (whole_pages P fs (i * P, b)) as Hnew.
  { split; cbn [fst snd]; [apply Z.mod_mul; lia|]. destruct (Z.min_spec P (fs - i * P)) as [[? E]|[? E]]; [|right; lia].
    left. replace (i * P + b) with ((i + 1) * P) by lia. apply Z.mod_mul. lia. }
  assert (chain lo (runs ++ [(i * P, b)]) (i * P + b) /\ whole (runs ++ [(i * P, b)]) /\
    forall x, covers (runs ++ [(i * P, b)]) x <-> covers runs x \/ (i * P <= x < i * P + b /\ false = false /\ false = false)) as Happ.
  { split; [apply ranges_app; exists (i * P); cbn; repeat split; (done||lia)|]. split; [apply Forall_app_2; [done|by constructor]|].
    intros x. rewrite covers_app, covers_first. cbn [fst snd]. pose proof (covers_none x). naive_solver. }
  pose proof (last_split runs) as L. destruct (last runs) as [[o l]|]; [|by subst].
  destruct (o +% l =? i * P) eqn:E; b2p; [|done]. remember (removelast runs) as init eqn:Einit. clear Einit. subst runs.
  apply Forall_app in Hin as [_ Hin]. inversion Hin as [|? ? Hol _]; subst. cbn in Hol.
  apply Forall_app in Hw as [Hw1 Hw2]. inversion Hw2 as [|? ? [Hw3 _] _]; subst. apply ranges_app in Hc as (mid & Hc1 & Hc2 & Hl & _). 
  rewrite w64_small in E by lia. rewrite w64_small by lia. destruct Hnew as [_ Hne]. cbn [fst snd] in *.
  split; [apply ranges_app; exists mid; cbn; repeat split; (done||lia)|]. split.
  - apply Forall_app_2; [done|]. constructor; [|done]. split; [done|]. cbn [fst snd]. by replace (o + (l + b)) with (i * P + b) by lia.
  - intros x. rewrite !covers_app, !covers_first. cbn [fst snd]. pose proof (covers_none x).
    assert (o <= x < o + (l + b) <-> o <= x < o + l \/ i * P <= x < i * P + b) as -> by lia. naive_solver.
Qed.

Lemma page_of x i : i * P <= x < i * P + P <-> x / P = i.
Proof using HP Hfs.
  pose proof (EntryInv.P_range P HP). pose proof (Z.div_mod x P ltac:(lia)). pose proof (Z.mod_pos_bound x P ltac:(lia)).
  split; [intros ?|intros <-; lia]. symmetry. apply (Z.div_unique x P i (x - i * P)); lia.
Qed.

Lemma page_le a x : a * P <= x <-> a <= x / P.
Proof using HP Hfs.
  pose proof (EntryInv.P_range P HP). split; intros H0; [apply Z.div_le_lower_bound; lia|].
  pose proof (Z.mul_div_le x P ltac:(lia)). pose proof (Z.mul_le_mono_nonneg_r a (x / P) P ltac:(lia) H0). lia.
Qed.

Lemma absentRuns_spec e s n : EntryInv.Inv P fs e -> 0 <= s -> 0 < n -> s + n <= fs -> s mod P = 0 -> page_end P fs (s + n) ->
  let l := Entry.absentRuns e s n true in
  chain s l (s + n) /\ whole l /\ forall x, covers l x <-> s <= x < s + n /\ wanted e (x / P).
Proof using HP Hfs.
  intros He Hs Hn Hin Hm Hend. pose proof (EntryInv.P_range P HP) as HPr. destruct (EntryInv.np_bound P fs HP Hfs) as (Hnp & Hnp1 & Hnp2).
  unfold Entry.absentRuns. rewrite (w64_small (s + n)) by lia.
  replace (n =? 0) with false by (symmetry; apply Z.eqb_neq; lia). replace (s + n <? s) with false by (symmetry; apply Z.ltb_ge; lia). cbn [orb].
  destruct (EntryInv.i_meta _ _ _ He) as (EP & EF & _). rewrite EP, EF. rewrite Z.min_l by lia.
  replace (s + n <=? s) with false by (symmetry; apply Z.leb_gt; lia). rewrite w64_small by lia. cbn zeta.
  set (f := s / P). set (g := (s + n - 1) / P).
  assert (f * P = s) as Ef by (pose proof (Z.div_mod s P ltac:(lia)); lia).
  assert (0 <= f) by (apply Z.div_pos; lia). assert (f <= g) by (apply Z.div_le_mono; lia).
  pose proof (proj2 (page_of (s + n - 1) g) eq_refl) as Hg.
  assert (Z.min (g * P + P) fs = s + n) as Et.
  { destruct Hend as [E|E]; [|lia]. apply Z.mod_divide in E as [k Ek]; [|lia]. assert (k = g + 1) by nia. subst k. lia. }
  assert (g < EntryInv.np P fs) by nia.
  pose (Q := fun i runs => chain s runs (Z.min (i * P) fs) /\ whole runs /\ forall x, covers runs x <-> s <= x < Z.min (i * P) fs /\ wanted e (x / P)).
  assert (Q (g + 1) (foldl (Entry.absent_step e true) [] (zrange f (g + 1)))) as (Q1 & Q2 & Q3).
  { apply (foldl_zrange_ind _ Q); [lia| |].
    - unfold Q. cbn [chain]. split; [lia|]. split; [constructor|]. intros x. pose proof (covers_none x). split; [done|]. lia.
    - intros i runs Hi (Q1 & Q2 & Q3). assert (0 <= i < EntryInv.np P fs) as Hi' by lia.
      destruct (EntryInv.pb_plain P fs HP Hfs i Hi') as (_ & Hlt & _). rewrite Z.min_l in Q1, Q3 by lia.
      destruct (absent_step_spec e s runs i He Hs Hi' Q1 Q2) as (R1 & R2 & R3). unfold Q. replace ((i + 1) * P) with (i * P + P) by lia.
      split; [done|]. split; [done|]. intros x. rewrite R3, Q3. assert (f * P <= i * P) by (apply Z.mul_le_mono_nonneg_r; lia).
      split; [intros [[? ?]|[? Hw]]; [split; [lia|done]|]; split; [lia|]; by replace (x / P) with i by (symmetry; apply page_of; lia)|].
      intros [? Hw]. destruct (Z.lt_ge_cases x (i * P)); [left; split; [lia|done]|right]. split; [lia|].
      by replace i with (x / P) by (apply page_of; lia). }
  replace ((g + 1) * P) with (g * P + P) in * by lia. rewrite Et in *. done.
Qed.

(** ** The baskets' pages *)
Definition basket_ok (t : BasketTable) (g : Z) : Prop :=
  0 <= zget (seek t) g /\ 0 < size_of t g /\ zget (seek t) g + size_of t g <= fs /\ size_of t g + 2 * P < p32.
Definition page_of_basket (t : BasketTable) (g i : Z) : Prop := zget (seek t) g / P <= i <= (zget (seek t) g + size_of t g - 1) / P.

Lemma roundSpan_pages off len : 0 <= off -> 0 < len -> off + len <= fs -> len + 2 * P < p32 ->
  let '(s, e) := roundSpan P fs off len in
  0 <= s < e /\ e <= fs /\ s mod P = 0 /\ page_end P fs e /\ forall x, s <= x < e <-> x < fs /\ off / P <= x / P <= (off + len - 1) / P.
Proof using HP Hfs.
  intros Ho Hl Hin Hsmall. pose proof (EntryInv.P_range P HP) as HPr. destruct (roundSpan P fs off len) as [s e] eqn:E.
  destruct (roundSpan_inside P ltac:(lia) fs off len s e Hfs Ho Hl Hin E) as (H1 & H2 & [(H3 & H4 & H5 & H6 & _)|(_ & _ & ?)]); [|lia].
  split; [lia|]. split; [lia|]. split; [done|]. split; [done|]. pose proof (proj2 (page_of off (off / P)) eq_refl) as Ha.
  set (k := (off + len - 1) / P). pose proof (proj2 (page_of (off + len - 1) k) eq_refl) as Hk.
  apply Z.mod_divide in H5 as [a Ea]; [|lia]. assert (a = off / P) as Eo by (symmetry; apply page_of; lia).
  assert (e = Z.min (k * P + P) fs) as Ee.
  { unfold roundSpan in E. rewrite (w64_small (off + len)), (w64_small (off + len + P)), (w64_small (off + len + P - 1)) in E by lia.
    assert ((off + len + P - 1) / P = k + 1) as Ek by (replace (off + len + P - 1) with (off + len - 1 + 1 * P) by lia; rewrite Z.div_add by lia; done).
    rewrite Ek in E. rewrite (w64_small (off / P * P)) in E by lia. rewrite (w64_small ((k + 1) * P)) in E by lia. replace ((k + 1) * P) with (k * P + P) in E by lia.
    rewrite <- Eo, <- Ea in E. destruct (_ <=? s) eqn:E1 in E; b2p; [lia|]. destruct (_ <? _) eqn:E2 in E; [|by injection E as <-].
    injection E as <- <-. b2p. rewrite w64_small in E2 by lia. lia. }
  intros x. rewrite <- Eo. pose proof (page_le a x) as L1. pose proof (page_le (k + 1) x) as L2. lia.
Qed.

Definition run_ok (r : Z * Z) : Prop := fst r mod P = 0 /\ page_end P fs (snd r).
Lemma concat_absent e runs : EntryInv.Inv P fs e -> forall lo, 0 <= lo <= fs -> ascending lo fs runs -> Forall run_ok runs ->
  let l := concat ((fun r => Entry.absentRuns e (fst r) (snd r -% fst r) true) <$> runs) in
  chain lo l fs /\ whole l /\ forall x, covers l x <-> existsb (inb x) runs = true /\ wanted e (x / P).
Proof using HP Hfs.
  intros He. induction runs as [|[s t] runs IH]; intros lo Hlo Ha Hr; cbn [fmap list_fmap concat existsb].
  - split; [cbn; lia|]. split; [constructor|]. intros x. pose proof (covers_none x). split; [done|]. by intros [? ?].
  - destruct Ha as (H1 & H2 & H3). inversion Hr as [|? ? [R1 R2] R3]; subst. cbn [fst snd] in *. rewrite (w64_small (t - s)) by lia.
    destruct (absentRuns_spec e s (t - s) He) as (C1 & C2 & C3); [lia|lia|lia|done|by replace (s + (t - s)) with t by lia|].
    replace (s + (t - s)) with t in * by lia.
    assert (chain t (concat ((fun r => Entry.absentRuns e (fst r) (snd r -% fst r) true) <$> runs)) fs /\
      whole (concat ((fun r => Entry.absentRuns e (fst r) (snd r -% fst r) true) <$> runs)) /\
      forall x, covers (concat ((fun r => Entry.absentRuns e (fst r) (snd r -% fst r) true) <$> runs)) x <-> existsb (inb x) runs = true /\ wanted e (x / P)) as (D1 & D2 & D3).
    { apply IH; [lia| |done]. destruct runs as [|[a b] runs]; [done|]. cbn [ascending] in *. split; [lia|apply H3]. }
    split; [apply ranges_app; exists t; split; [eapply chain_weaken, C1; lia|done]|]. split; [by apply Forall_app_2|].
    intros x. rewrite covers_app, C3, D3, orb_true_iff. unfold inb at 2. cbn [fst snd]. rewrite andb_true_iff, Z.leb_le, Z.ltb_lt. naive_solver.
Qed.

Lemma runs_of_points ivals x : Forall (fun iv => 0 <= fst iv < snd iv /\ snd iv <= fs) ivals -> existsb (inb x) (runs_of ivals) = true <-> existsb (inb x) ivals = true.
Proof using.
  intros Hb. split; [apply runs_points|]. rewrite !existsb_exists. intros (iv & Hiv & Hx). destruct (runs_of_spec fs ivals Hb) as [_ Hc].
  destruct (Hc iv ltac:(by apply list_elem_of_In)) as (r & Hr & [? ?]). exists r. split; [by apply list_elem_of_In|]. unfold inb in *. b2p. apply andb_true_iff. split; [apply Z.leb_le|apply Z.ltb_lt]; lia.
Qed.

Lemma absent_of_spec e t cand : EntryInv.Inv P fs e -> Forall (basket_ok t) cand ->
  let l := absent_of e t cand in
  chain 0 l fs /\ whole l /\ forall x, covers l x <-> 0 <= x < fs /\ (exists g, g ∈ cand /\ page_of_basket t g (x / P)) /\ wanted e (x / P).
Proof using HP Hfs.
  intros He Hb. destruct (EntryInv.i_meta _ _ _ He) as (EP & EF & _). pose proof (EntryInv.P_range P HP) as HPr. unfold absent_of. rewrite EP, EF.
  set (iv := fun g => roundSpan P fs (w64 (zget (seek t) g)) (w64 (size_of t g))).
  assert (forall g, g ∈ cand -> 0 <= fst (iv g) < snd (iv g) /\ snd (iv g) <= fs /\ run_ok (iv g) /\ forall x, fst (iv g) <= x < snd (iv g) <-> x < fs /\ page_of_basket t g (x / P)) as Hiv.
  { intros g Hg. rewrite Forall_forall in Hb. destruct (Hb g Hg) as (B1 & B2 & B3 & B4). unfold iv, page_of_basket, run_ok. rewrite !w64_small by lia.
    pose proof (roundSpan_pages _ _ B1 B2 B3 B4) as H. destruct (roundSpan _ _ _ _) as [a b]. cbn [fst snd]. naive_solver. }
  assert (Forall (fun r => 0 <= fst r < snd r /\ snd r <= fs) (iv <$> cand)) as Hf.
  { apply Forall_fmap, Forall_forall. intros g Hg. cbn. destruct (Hiv g Hg) as (? & ? & _). lia. }
  destruct (runs_of_spec fs _ Hf) as [Ha _].
  destruct (concat_absent e (runs_of (iv <$> cand)) He 0 ltac:(lia) Ha) as (C1 & C2 & C3).
  { apply (runs_of_ends (fun a => a mod P = 0) (page_end P fs)), Forall_fmap, Forall_forall. intros g Hg. cbn. by destruct (Hiv g Hg) as (_ & _ & ? & _). }
  split; [done|]. split; [done|]. intros x. rewrite C3, runs_of_points by done. rewrite existsb_exists. split.
  - intros [(r & Hr & Hx) Hw]. apply list_elem_of_In, list_elem_of_fmap in Hr as (g & -> & Hg). unfold inb in Hx. b2p.
    destruct (Hiv g Hg) as (? & ? & _ & Hp). destruct (proj1 (Hp x) ltac:(lia)) as [? ?]. split; [lia|]. split; [by exists g|done].
  - intros (Hx & (g & Hg & Hp) & Hw). split; [|done]. destruct (Hiv g Hg) as (_ & _ & _ & Hq). destruct (proj2 (Hq x) ltac:(split; [lia|done])) as [? ?].
    exists (iv g). split; [apply list_elem_of_In, list_elem_of_fmap; by exists g|]. unfold inb. apply andb_true_iff. split; [by apply Z.leb_le|by apply Z.ltb_lt].
Qed.

(** ** Bridging *)
Lemma bridge_from_spec bridge l : 0 <= bridge -> forall start end_ keep hi,
  0 <= start -> hi <= fs -> chain start keep end_ -> chain end_ l hi -> page_end P fs end_ -> whole l ->
  let '(end', keep', rest) := bridge_from bridge start end_ keep l in
  chain start keep' end' /\ chain end' rest hi /\ keep' ++ rest = keep ++ l /\ page_end P fs end' /\ (length rest <= length l)%nat /\
  (bridge = 0 -> (forall x, start <= x < end_ -> covers keep x) -> forall x, start <= x < end' -> covers keep' x).
Proof using HP Hfs.
  intros Hbr. induction l as [|[o n] l IH]; intros start end_ keep hi Hs Hh Hk Hl Hp Hw; cbn [bridge_from].
  { repeat split; try done. }
  destruct Hl as (L1 & L2 & L3). inversion Hw as [|? ? [W1 W2] W3]; subst. cbn [fst snd] in *. pose proof (ranges_le _ _ _ L3). pose proof (ranges_le _ _ _ Hk).
  rewrite (w64_small (o + n)) by lia. destruct (_ && _) eqn:E.
  - b2p. rewrite w64_small in * by lia. assert (chain start (keep ++ [(o, n)]) (o + n)) as Hk'.
    { apply ranges_app. exists end_. split; [done|]. cbn. lia. }
    specialize (IH start (o + n) (keep ++ [(o, n)]) hi Hs Hh Hk' L3 W2 W3). destruct (bridge_from _ _ _ _ _) as [[end' keep'] rest].
    destruct IH as (A1 & A2 & A3 & A4 & A5 & A6). split; [done|]. split; [done|]. split; [by rewrite A3, <- app_assoc|]. split; [done|]. split; [cbn; lia|].
    intros Hb Hc x Hx. apply A6; [done| |done]. intros y Hy. rewrite covers_app, covers_first. cbn [fst snd].
    destruct (Z.lt_ge_cases y end_); [left; apply Hc; lia|right; left; lia].
  - repeat split; try done.
Qed.

(** ** What of an element is kept *)
Lemma page_end_min a b : page_end P fs a -> page_end P fs b -> page_end P fs (Z.min a b).
Proof using. intros Ha Hb. by destruct (Z.min_spec a b) as [[_ ->]|[_ ->]]. Qed.
Lemma stage_in_spec at_ len : 0 <= at_ -> 0 < len -> at_ + len <= fs -> whole_pages P fs (at_, len) -> forall keep lo hi, chain lo keep hi -> 0 <= lo -> hi <= fs -> whole keep ->
  let l := stage_in keep at_ len in
  (forall lo', lo' <= Z.max lo at_ -> lo' <= at_ + len -> chain lo' l (at_ + len)) /\ whole l /\ forall x, covers l x <-> covers keep x /\ at_ <= x < at_ + len.
Proof using HP Hfs.
  intros Ha Hl Hin [W1 W2] keep. cbn [fst snd] in *. induction keep as [|[o n] keep IH]; intros lo hi Hc Hlo Hhi Hw; unfold stage_in; cbn [omap list_omap].
  { split; [cbn; lia|]. split; [constructor|]. intros x. pose proof (covers_none x). naive_solver. }
  destruct Hc as (C1 & C2 & C3). inversion Hw as [|? ? [K1 K2] K3]; subst. cbn [fst snd] in *. pose proof (ranges_le _ _ _ C3).
  destruct (IH _ _ C3 ltac:(lia) Hhi K3) as (I1 & I2 & I3). fold (stage_in keep at_ len). rewrite (w64_small (o + n)), (w64_small (at_ + len)) by lia.
  destruct (_ <? _) eqn:E; b2p.
  - rewrite w64_small by lia. split.
    + intros lo' Hlo1 Hlo2. cbn [chain]. split; [lia|]. split; [lia|]. apply I1; lia.
    + split.
      * constructor; [|done]. split; cbn [fst snd]; [by destruct (Z.max_spec o at_) as [[_ ->]|[_ ->]]|].
        replace (Z.max o at_ + (Z.min (o + n) (at_ + len) - Z.max o at_)) with (Z.min (o + n) (at_ + len)) by lia. by apply page_end_min.
      * intros x. rewrite !covers_first, I3. cbn [fst snd]. split; [intros [?|[? ?]]; [split; [left|]; lia|split; [by right|done]]|]. intros [[?|?] ?]; [left; lia|by right].
  - split; [intros lo' Hlo1 Hlo2; apply I1; lia|]. split; [done|]. intros x. rewrite covers_first, I3. cbn [fst snd]. split; [naive_solver|]. intros [[?|?] ?]; [lia|done].
Qed.

(** ** The elements *)
Record elem_ok (el : Elem) : Prop := {
  eo_len : 0 < e_len el <= kMaxReadvElem;
  eo_pages : whole_pages P fs (e_off el, e_len el);
  eo_some : stage el <> [];
  eo_stage : chain (e_off el) (stage el) (e_off el + e_len el);
  eo_whole : whole (stage el) }.
Definition span (el : Elem) : Z * Z := (e_off el, e_len el).
Definition all_kept (el : Elem) : Prop := forall x, e_off el <= x < e_off el + e_len el -> covers (stage el) x.

Lemma staged_cons el els x : covers (staged_ranges (el :: els)) x <-> covers (stage el) x \/ covers (staged_ranges els) x.
Proof using. unfold staged_ranges. cbn [fmap list_fmap concat]. apply covers_app. Qed.
Lemma staged_app l1 l2 x : covers (staged_ranges (l1 ++ l2)) x <-> covers (staged_ranges l1) x \/ covers (staged_ranges l2) x.
Proof using. unfold staged_ranges. rewrite fmap_app, concat_app. apply covers_app. Qed.

Lemma elems_in_spec keep lo hi : chain lo keep hi -> 0 <= lo -> hi <= fs -> whole keep ->
  forall cuts at_ e, tiles P at_ cuts e -> 0 <= at_ -> e <= fs -> at_ mod P = 0 -> page_end P fs e ->
  let els := elems_in keep cuts in
  chain at_ (span <$> els) e /\ Forall elem_ok els /\ (forall x, covers (staged_ranges els) x <-> covers keep x /\ at_ <= x < e) /\
  ((forall x, at_ <= x < e -> covers keep x) -> Forall all_kept els).
Proof using HP Hfs.
  intros Hk Hlo Hhi Hw. induction cuts as [|[o n] cuts IH]; intros at_ e Ht Ha He Hm Hp; cbn in Ht.
  { subst. split; [cbn; lia|]. split; [constructor|]. split; [|constructor]. intros x. pose proof (covers_none x). split; [done|]. lia. }
  destruct Ht as (-> & Hn & Hend & Ht). pose proof (tiles_le _ _ _ _ Ht) as Hle.
  assert (whole_pages P fs (at_, n)) as Hwp.
  { split; [done|]. cbn [fst snd]. destruct Hend as [->|?]; [done|by left]. }
  destruct (stage_in_spec at_ n Ha ltac:(lia) ltac:(lia) Hwp keep lo hi Hk Hlo Hhi Hw) as (S1 & S2 & S3). specialize (S1 at_ ltac:(lia) ltac:(lia)).
  assert (chain (at_ + n) (span <$> elems_in keep cuts) e /\ Forall elem_ok (elems_in keep cuts) /\
    (forall x, covers (staged_ranges (elems_in keep cuts)) x <-> covers keep x /\ at_ + n <= x < e) /\
    ((forall x, at_ + n <= x < e -> covers keep x) -> Forall all_kept (elems_in keep cuts))) as (I1 & I2 & I3 & I4).
  { destruct Hend as [E|E]; [|by apply IH; try done; lia]. destruct cuts as [|[o' n'] cuts].
    - split; [cbn; lia|]. split; [constructor|]. split; [|constructor]. intros x. pose proof (covers_none x). split; [done|]. lia.
    - destruct Ht as (-> & ? & _ & Ht). apply tiles_le in Ht. lia. }
  unfold elems_in in *. cbn [fmap list_fmap List.filter stage fst snd]. set (st := stage_in keep at_ n) in *. case_bool_decide as Es; cbn [negb].
  - rewrite Es in S3. split; [eapply chain_weaken, I1; lia|]. split; [done|]. split; [|intros H; apply I4; intros; apply H; lia].
    intros x. rewrite I3. pose proof (covers_none x). specialize (S3 x). split; [intros [? ?]; split; [done|lia]|]. intros [? ?]. split; [done|].
    destruct (Z.lt_ge_cases x (at_ + n)); [|lia]. destruct (proj2 S3) as (? & ?%elem_of_nil & _); [|done]. split; [done|lia].
  - split; [cbn; repeat split; (lia||done)|]. split; [constructor; [by split|done]|]. split.
    + intros x. rewrite staged_cons, I3. cbn [stage]. rewrite S3. split; [intros [[? ?]|[? ?]]; (split; [done|lia])|]. intros [? ?]. destruct (Z.lt_ge_cases x (at_ + n)); [left|right]; (split; [done|lia]).
    + intros H. constructor; [|apply I4; intros; apply H; lia]. intros x Hx. cbn [stage e_off e_len] in *. apply S3. split; [apply H; lia|done].
Qed.

Lemma elems_from_spec bridge : 0 <= bridge -> forall fuel absent lo, (length absent <= fuel)%nat -> 0 <= lo -> chain lo absent fs -> whole absent ->
  exists els, elems_from fuel P bridge absent = Some els /\ chain lo (span <$> els) fs /\ Forall elem_ok els /\
  (forall x, covers (staged_ranges els) x <-> covers absent x) /\ (bridge = 0 -> Forall all_kept els).
Proof using HP Hfs.
  intros Hb. pose proof (EntryInv.P_range P HP) as HPr. assert (forall lo, 0 <= lo -> chain lo [] fs -> forall fuel, exists els, elems_from fuel P bridge [] = Some els /\ chain lo (span <$> els) fs /\ Forall elem_ok els /\
    (forall x, covers (staged_ranges els) x <-> covers [] x) /\ (bridge = 0 -> Forall all_kept els)) as Hnil.
  { intros lo Hlo Hc fuel. exists []. split; [by destruct fuel|]. split; [done|]. split; [constructor|]. split; [|constructor]. done. }
  induction fuel as [|fuel IH]; intros absent lo Hf Hlo Hc Hw; [destruct absent; [by apply (Hnil lo)|cbn in Hf; lia]|].
  destruct absent as [|[o n] l]; [by apply (Hnil lo)|]. destruct Hc as (C1 & C2 & C3). inversion Hw as [|? ? [W1 W2] W3]; subst. cbn [fst snd] in *.
  pose proof (ranges_le _ _ _ C3). cbn [elems_from]. rewrite (w64_small (o + n)) by lia.
  pose proof (bridge_from_spec bridge l Hb o (o + n) [(o, n)] fs ltac:(lia) ltac:(lia)) as B.
  specialize (B ltac:(cbn; lia) C3 W2 W3). destruct (bridge_from _ _ _ _ _) as [[end_ keep] rest]. destruct B as (B1 & B2 & B3 & B4 & B5 & B6).
  pose proof (ranges_le _ _ _ B1). pose proof (ranges_le _ _ _ B2).
  assert (whole (keep ++ rest)) as Hall by (rewrite B3; by constructor). apply Forall_app in Hall as [Hk Hr].
  destruct (cut_run_spec P ltac:(lia) (Z.to_nat (end_ - o)) o end_) as (cuts & -> & Ht); [lia..|].
  cbn in Hf. destruct (IH rest end_ ltac:(lia) ltac:(lia) B2 Hr) as (els & -> & I1 & I2 & I3 & I4).
  destruct (elems_in_spec keep o end_ B1 ltac:(lia) ltac:(lia) Hk cuts o end_ Ht ltac:(lia) ltac:(lia) W1 B4) as (E1 & E2 & E3 & E4).
  exists (elems_in keep cuts ++ els). split; [done|]. split; [rewrite fmap_app; apply ranges_app; exists end_; split; [eapply chain_weaken, E1; lia|done]|].
  split; [by apply Forall_app_2|]. split.
  - intros x. rewrite staged_app, E3, I3. change ((o, n) :: l) with ([(o, n)] ++ l). rewrite <- B3, covers_app. split; [naive_solver|].
    intros [Hx|Hx]; [left|by right]. split; [done|]. exact (covers_chain _ _ _ _ B1 Hx).
  - intros ->. apply Forall_app_2; [|by apply I4]. apply E4. apply B6; [done|]. intros x Hx. apply covers_first. by left.
Qed.

Lemma bridge_range kb : is_u64 (w64 (Z.shiftl (Z.max 0 kb) 10)) /\ (kb <= 0 -> w64 (Z.shiftl (Z.max 0 kb) 10) = 0).
Proof using. split; [apply w64_range|]. intros H. by rewrite Z.max_l. Qed.

(** C29: What read-ahead asks the origin for, for any predicted baskets inside the file: the loops that cut it
    end, every element is legal, whole pages of the file, after the one before it and carries something; what of
    it is staged is whole pages inside it; and a byte is staged exactly when it is in a page of a predicted
    basket that is neither cached, nor staged, nor on the wire. With no bridge, every byte asked for is one of those. *)
Theorem wire_asks_absent_pages cfg e t cand :
  EntryInv.Inv P fs e -> Forall (basket_ok t) cand ->
  exists els, elems_for cfg e t cand = Some els /\ chain 0 (span <$> els) fs /\ Forall elem_ok els /\
    (forall x, covers (staged_ranges els) x <-> 0 <= x < fs /\ (exists g, g ∈ cand /\ page_of_basket t g (x / P)) /\ wanted e (x / P)) /\
    (prefetchBridgeKb cfg <= 0 -> Forall all_kept els).
Proof using HP Hfs.
  intros He Hb. destruct (absent_of_spec e t cand He Hb) as (A1 & A2 & A3). destruct (bridge_range (prefetchBridgeKb cfg)) as [Hr H0].
  unfold elems_for. destruct (EntryInv.i_meta _ _ _ He) as (-> & _).
  destruct (elems_from_spec _ (proj1 Hr) (length (absent_of e t cand)) (absent_of e t cand) 0 ltac:(lia) ltac:(lia) A1 A2) as (els & -> & E1 & E2 & E3 & E4).
  exists els. split; [done|]. split; [done|]. split; [done|]. split; [intros x; by rewrite E3, A3|]. intros Hk. by apply E4, H0.
Qed.
End wire.

(** ** An example: three baskets of a file of which a page is cached *)
Definition demo_table : BasketTable := mkTable [[97]] [3] [0] [100; 3000; 8500] [500; 1500; 1000] [0; 10; 20] [100; 3000; 8500] [0; 1; 2] 10000.
Definition demo_cfg : Settings := mkSettings true 64 512 1 0 2 64.
Lemma wire_asks_absent_pages_witness :
  EntryInv.Inv 4096 10000 EntryInv.e4 /\ Forall (basket_ok 4096 10000 demo_table) [0; 1; 2] /\
  exists els, elems_for demo_cfg EntryInv.e4 demo_table [0; 1; 2] = Some els /\ Forall (elem_ok 4096 10000) els.
Proof.
  assert (Forall (basket_ok 4096 10000 demo_table) [0; 1; 2]) as Hb by (repeat constructor; vm_compute; congruence).
  split; [exact EntryInv.demo_inv|]. split; [exact Hb|].
  destruct (wire_asks_absent_pages 4096 10000 eq_refl ltac:(lia) demo_cfg EntryInv.e4 demo_table [0; 1; 2] EntryInv.demo_inv Hb) as (els & E & _ & H & _).
  exists els. exact (conj E H).
Defined.
End PrefetchWire.
