(* ===== verification/PrefetchGate.v ===== *)
(** * The queue of a prediction thread, and when it may ask the origin (src/plugin/Prefetch.cc)

    Module PrefetchQueue: posts from any threads and the turns of the worker, in any order: no close is forgotten, none
    waits behind a fill, and what a close superseded never runs. Module PrefetchGate: the switches that keep a process
    silent, and the accounts of the requests on the wire: their bytes and the handles they keep open. *)

From stdpp Require Import sorting.
From S2P Require Import Prelude Crc32c IOBackend Config MetaFile UrlKey FileEntry FileEntryInv FileEntryRead WireRead RootFile TreeMeta ReadMap OpenRetry Prefetch PrefetchWire.
Local Open Scope u64_scope.

Module PrefetchQueue.
Import Prefetch.

(** What happened, in order. *)
Inductive Act := APost (j : Job) | ARun (j : Job).
Record Sys := mkSys { queue : Queue; running : option Job; log : list Act }.
Definition init : Sys := mkSys no_queue None [].
Inductive Ev := Post (j : Job) | Take | Finish.
(** [None]: not possible now. *)
Definition step (e : Ev) (s : Sys) : option Sys :=
  match e with
  | Post j => Some (mkSys (post j (queue s)) (running s) (log s ++ [APost j]))
  | Take =>
      match running s, take_job (queue s) with
      | None, Some (j, q) => Some (mkSys q (Some j) (log s ++ [ARun j]))
      | _, _ => None
      end
  | Finish => match running s with Some j => Some (mkSys (finished j (queue s)) None (log s)) | None => None end
  end.
Fixpoint run (l : list Ev) (s : Sys) : option Sys :=
  match l with [] => Some s | e :: l' => match step e s with Some s' => run l' s' | None => None end end.

(** ** The invariant *)
Definition closing (q : Queue) (k : Z) : Prop := exists j, pending_ q !! k = Some j /\ j_close j = true.
Definition filling (q : Queue) (k : Z) : Prop := exists j, pending_ q !! k = Some j /\ j_close j = false.
Definition ran_of (k : Z) (a : Act) : Prop := match a with ARun j => j_st j = k | APost _ => False end.
Definition awaits (s : Sys) (x : Z) : Prop :=
  (exists j, running s = Some j /\ j_close j = true /\ j_sync j = Some x) \/ exists k j, pending_ (queue s) !! k = Some j /\ j_close j = true /\ j_sync j = Some x.
(** [x] was told because its job had been run, or because a later close of the same handle took its place. *)
Definition told (l : list Act) (x : Z) : Prop :=
  exists j, j_sync j = Some x /\ (ARun j ∈ l \/ exists l1 l2 j', l = l1 ++ APost j :: l2 /\ APost j' ∈ l2 /\ j_close j' = true /\ j_st j' = j_st j).
(** Every pending job was posted after the last job of its handle ran. *)
Definition since (l : list Act) (j : Job) : Prop := exists l1 l2, l = l1 ++ APost j :: l2 /\ Forall (fun a => ~ ran_of (j_st j) a) l2.
Definition in_turn (l : list Act) : Prop :=
  forall l1 c l2 f l3, l = l1 ++ ARun c :: l2 ++ ARun f :: l3 -> j_st c = j_st f -> APost f ∈ l2.
Record Inv (s : Sys) : Prop := {
  qi_once : NoDup (order_ (queue s));
  qi_dom : forall k, k ∈ order_ (queue s) <-> is_Some (pending_ (queue s) !! k);
  qi_key : forall k j, pending_ (queue s) !! k = Some j -> j_st j = k;
  qi_order : exists cl fl, order_ (queue s) = cl ++ fl /\ Forall (closing (queue s)) cl /\ Forall (filling (queue s)) fl;
  qi_wait : forall j x, APost j ∈ log s -> j_close j = true -> j_sync j = Some x -> x ∈ woken (queue s) \/ awaits s x;
  qi_told : forall x, x ∈ woken (queue s) -> told (log s) x;
  qi_since : forall k j, pending_ (queue s) !! k = Some j -> since (log s) j;
  qi_running : forall j, running s = Some j -> ARun j ∈ log s;
  qi_turn : in_turn (log s) }.

Lemma erase_one_spec k l : NoDup l -> NoDup (erase_one k l) /\ forall x, x ∈ erase_one k l <-> x ∈ l /\ x <> k.
Proof.
  induction l as [|y l IH]; intros Hn; cbn [erase_one]; [split; [done|]; intros x; rewrite elem_of_nil; naive_solver|]. inversion Hn as [|? ? Hy Hn']; subst. destruct (IH Hn') as [I1 I2]. destruct (y =? k) eqn:E; b2p.
  - subst. split; [done|]. intros x. rewrite elem_of_cons. split; [intros Hx; split; [by right|by intros ->]|naive_solver].
  - split; [constructor; [rewrite I2; naive_solver|done]|]. intros x. rewrite !elem_of_cons, I2. naive_solver.
Qed.
Lemma elem_of_wake s x m : x ∈ wake s m <-> s = Some x \/ x ∈ m.
Proof. destruct s; cbn; [rewrite elem_of_union, elem_of_singleton; naive_solver|naive_solver]. Qed.
Lemma since_snoc l j a : since l j -> ~ ran_of (j_st j) a -> since (l ++ [a]) j.
Proof. intros (l1 & l2 & -> & H) Ha. exists l1, (l2 ++ [a]). split; [by rewrite <- app_assoc|]. apply Forall_app. split; [done|]. by constructor. Qed.
Lemma since_now l j : since (l ++ [APost j]) j.
Proof. exists l, []. by split. Qed.
Lemma told_snoc l x a : told l x -> told (l ++ [a]) x.
Proof.
  intros (j & Hj & [H|(l1 & l2 & j' & -> & H & Hc)]); exists j; (split; [done|]); [left; set_solver|]. right. exists l1, (l2 ++ [a]), j'. split; [by rewrite <- app_assoc|]. split; [set_solver|done].
Qed.
Lemma in_turn_post l j : in_turn l -> in_turn (l ++ [APost j]).
Proof.
  intros H l1 c l2 f l3 E Es. destruct (exists_last (l := ARun f :: l3)) as (l3' & z & Ez); [done|].
  assert (l1 ++ ARun c :: l2 ++ ARun f :: l3 = (l1 ++ ARun c :: l2 ++ l3') ++ [z]) as E2 by (rewrite Ez; rewrite <- !app_assoc; cbn; by rewrite <- !app_assoc). rewrite E2 in E. apply app_inj_tail in E as [E Hz].
  destruct l3' as [|y l3']; [injection Ez as ? ?; congruence|]. injection Ez as <- _. by eapply (H l1 c l2 f l3').
Qed.
(** Where a later element lies, given an earlier one that does not come again. *)
Lemma later_in {A} (l1 l2 a b : list A) (x y : A) : l1 ++ y :: l2 = a ++ x :: b -> y <> x -> y ∉ b -> x ∈ l2.
Proof.
  revert a. induction l1 as [|z l1 IH]; intros [|w a]; cbn [app]; intros [= E1 E2] Hne Hy; subst; try done; [set_solver| |by eapply IH].
  exfalso. apply Hy. set_solver.
Qed.
Lemma in_turn_run l j : in_turn l -> since l j -> in_turn (l ++ [ARun j]).
Proof.
  intros H (a & b & Eb & Hb) l1 c l2 f l3 E Es. destruct l3 as [|z l3].
  - assert (l1 ++ ARun c :: l2 ++ [ARun f] = (l1 ++ ARun c :: l2) ++ [ARun f]) as E2 by (by rewrite <- app_assoc). rewrite E2 in E. apply app_inj_tail in E as [E [= ->]]. subst l.
    eapply (later_in l1 l2 a b (APost f) (ARun c)); [done|done|]. intros Hin. rewrite Forall_forall in Hb. by apply (Hb _ Hin).
  - destruct (exists_last (l := z :: l3)) as (l3' & w & Ez); [done|]. rewrite Ez in E. eapply (H l1 c l2 f l3'); [|done].
    assert (l1 ++ ARun c :: l2 ++ ARun f :: l3' ++ [w] = (l1 ++ ARun c :: l2 ++ ARun f :: l3') ++ [w]) as E2 by (by rewrite <- !app_assoc; cbn; rewrite <- !app_assoc). rewrite E2 in E. by apply app_inj_tail in E as [-> _].
Qed.

(** ** Each step keeps it *)
Lemma init_inv : Inv init.
Proof.
  split; cbn.
  - constructor.
  - intros k. rewrite elem_of_nil, lookup_empty. split; [done|by intros []].
  - done.
  - exists [], []. by repeat constructor.
  - intros j x H. by apply elem_of_nil in H.
  - set_solver.
  - done.
  - done.
  - intros l1 c l2 f l3 E. by destruct l1.
Qed.
Lemma closing_other q q' k' : pending_ q' !! k' = pending_ q !! k' -> (closing q k' -> closing q' k') /\ (filling q k' -> filling q' k').
Proof. intros E. split; intros (j & H1 & H2); exists j; by rewrite E. Qed.
Lemma Forall_others (P Q : Z -> Prop) k l : Forall P l -> k ∉ l -> (forall k', k' <> k -> P k' -> Q k') -> Forall Q l.
Proof. rewrite !Forall_forall. intros H1 H2 H3 x Hx. apply H3; [|by apply H1]. by intros ->. Qed.
Lemma erase_none k l : k ∉ l -> erase_one k l = l.
Proof. induction l as [|x l IH]; intros H; [done|]. cbn [erase_one]. rewrite (proj2 (Z.eqb_neq x k)) by (intros ->; apply H; by left). rewrite IH; [done|]. intros ?. apply H. by right. Qed.
Lemma erase_one_app k l1 l2 : NoDup (l1 ++ l2) -> erase_one k (l1 ++ l2) = erase_one k l1 ++ erase_one k l2.
Proof.
  induction l1 as [|x l1 IH]; intros Hn; [done|]. inversion Hn as [|? ? Hx Hn']; subst. cbn [app erase_one]. rewrite IH by done. destruct (x =? k) eqn:E; b2p; [|done]. subst.
  rewrite (erase_none k l2); [done|]. intros ?. apply Hx, elem_of_app. by right.
Qed.
(** A job of a handle that has none, or in place of one: the pending job of [k] is [j]. *)
Definition placed (q q' : Queue) (j : Job) (w : gset Z) : Prop := pending_ q' = <[j_st j := j]> (pending_ q) /\ woken q' = w.
Definition split_order (q : Queue) : Prop := exists cl fl, order_ q = cl ++ fl /\ Forall (closing q) cl /\ Forall (filling q) fl.
Lemma placed_other q q' j w k' : placed q q' j w -> k' <> j_st j -> (closing q k' -> closing q' k') /\ (filling q k' -> filling q' k').
Proof. intros [Hp _] Hk. apply closing_other. rewrite Hp. by apply lookup_insert_ne. Qed.
Lemma placed_inv s j q' w (q := queue s) : Inv s -> placed q q' j w -> NoDup (order_ q') -> (forall k, k ∈ order_ q' <-> k = j_st j \/ k ∈ order_ q) -> split_order q' ->
  (forall x, x ∈ w <-> x ∈ woken q \/ exists old, pending_ q !! j_st j = Some old /\ j_close j = true /\ j_sync old = Some x) ->
  (forall old, pending_ q !! j_st j = Some old -> j_close j = true \/ j_close old = false) -> Inv (mkSys q' (running s) (log s ++ [APost j])).
Proof.
  intros [I1 I2 I3 I4 I5 I6 I7 I8 I9] [Hp Hw] Hn Ho Hs Hwk Hold. subst q. split; cbn [queue running log].
  - done.
  - intros k. rewrite Ho, Hp, lookup_insert_is_Some, I2. destruct (decide (k = j_st j)) as [->|]; [naive_solver|]. split; [intros [?|?]; [done|by right]|intros [?|[? ?]]; [congruence|by right]].
  - intros k j'. rewrite Hp. intros [[<- <-]|[_ H]]%lookup_insert_Some; [done|by eapply I3].
  - done.
  - intros j' x Hj' Hc Hx. rewrite Hw. unfold awaits. cbn [queue running]. rewrite Hp. apply elem_of_app in Hj' as [Hj'|[= ->]%list_elem_of_singleton].
    + destruct (I5 j' x Hj' Hc Hx) as [H|[H|(k & j1 & H1 & H2 & H3)]]; [left; rewrite Hwk; by left|by right; left|]. destruct (decide (k = j_st j)) as [->|Hk]; [|right; right; exists k, j1; by rewrite lookup_insert_ne].
      destruct (Hold _ H1) as [H|H]; [|congruence]. left. rewrite Hwk. right. by exists j1.
    + right. right. exists (j_st j), j. by rewrite lookup_insert_eq.
  - intros x. rewrite Hw, Hwk. intros [H|(old & H1 & H2 & H3)]; [by apply told_snoc, I6|]. destruct (I7 _ _ H1) as (l1 & l2 & E & _). exists old. split; [done|]. right. exists l1, (l2 ++ [APost j]), j.
    split; [by rewrite E, <- app_assoc|]. split; [set_solver|]. split; [done|]. symmetry. by eapply I3.
  - intros k j'. rewrite Hp. intros [[<- <-]|[_ H]]%lookup_insert_Some; [apply since_now|]. apply since_snoc; [by eapply I7|cbn; tauto].
  - intros j' H. apply elem_of_app. left. by apply I8.
  - by apply in_turn_post.
Qed.
Lemma post_inv j s : Inv s -> Inv (mkSys (post j (queue s)) (running s) (log s ++ [APost j])).
Proof.
  intros I. pose proof I as [I1 I2 I3 (cl & fl & I4 & Ic & If) I5 I6 I7 I8 I9]. unfold post. set (q := queue s) in *. set (k := j_st j) in *. destruct (pending_ q !! k) as [old|] eqn:E.
  - destruct (erase_one_spec k (order_ q) I1) as [E1 E2]. assert (k ∈ order_ q) as Hk by (apply I2; by rewrite E). destruct (j_close j) eqn:Hc.
    + (* a close takes the place and goes first *)
      assert (forall l P Q, Forall P l -> (forall k', k' <> k -> P k' -> Q k') -> NoDup l -> Forall Q (erase_one k l)) as FE.
      { intros l P Q HP HQ Hl. destruct (erase_one_spec k l Hl) as [_ E3]. rewrite Forall_forall in HP |- *. intros x [Hx Hne]%E3. by apply HQ, HP. }
      pose proof I1 as HN. rewrite I4 in HN. apply NoDup_app in HN as (N1 & _ & N2).
      eapply (placed_inv s j); [done|by split|cbn; constructor; [rewrite E2; naive_solver|done]|intros x; cbn; rewrite elem_of_cons, E2; destruct (decide (x = k)); naive_solver| | |by intros; left].
      * exists (k :: erase_one k cl), (erase_one k fl). split; [cbn; rewrite I4; rewrite erase_one_app by (by rewrite <- I4); done|]. split.
        -- constructor; [exists j; cbn; by rewrite lookup_insert_eq|]. apply (FE cl _ _ Ic); [|done]. intros k' Hk'. apply (placed_other q _ j (wake (j_sync old) (woken q))); [by split|done].
        -- apply (FE fl _ _ If); [|done]. intros k' Hk'. apply (placed_other q _ j (wake (j_sync old) (woken q))); [by split|done].
      * intros x. change (x ∈ wake (j_sync old) (woken q) <-> x ∈ woken q \/ exists old0, pending_ q !! k = Some old0 /\ j_close j = true /\ j_sync old0 = Some x).
        rewrite elem_of_wake, E. naive_solver.
    + destruct (j_close old) eqn:Ho; cbn [negb].
      * (* dropped: a close is pending *)
        destruct s as [sq sr sl]. cbn [queue running log] in *. subst q. split; cbn [queue running log].
        -- done.
        -- done.
        -- done.
        -- by exists cl, fl.
        -- intros j' x Hj' Hc' Hx. apply elem_of_app in Hj' as [Hj'|[= ->]%list_elem_of_singleton]; [|congruence]. exact (I5 j' x Hj' Hc' Hx).
        -- intros x Hx. by apply told_snoc, I6.
        -- intros k' j' Hj'. apply since_snoc; [by eapply I7|cbn; tauto].
        -- intros j' Hj'. apply elem_of_app. left. by apply I8.
        -- by apply in_turn_post.
      * (* a newer fill *)
        eapply (placed_inv s j); [done|by split|done|intros x; cbn; destruct (decide (x = k)); naive_solver| |cbn; intros x; split; [by left|intros [?|(? & _ & ? & _)]; [done|congruence]]|intros old' H; right; subst q k; congruence].
        exists cl, fl. split; [done|]. split; [|].
        -- apply (Forall_others _ _ k _ Ic).
           ++ intros Hin. rewrite Forall_forall in Ic. destruct (Ic k Hin) as (j' & H1 & H2). congruence.
           ++ intros k' Hk'. apply (placed_other q _ j (woken q)); [by split|done].
        -- rewrite Forall_forall in If |- *. intros k' Hin. destruct (decide (k' = k)) as [->|Hk']; [exists j; cbn; by rewrite lookup_insert_eq|]. apply (placed_other q _ j (woken q)); [by split|done|]. by apply If.
  - assert (k ∉ order_ q) as Hk by (rewrite I2, E; by intros []). destruct (j_close j) eqn:Hc.
    + eapply (placed_inv s j); [done|by split|cbn; by constructor|intros x; cbn; by rewrite elem_of_cons| |cbn; intros x; split; [by left|intros [?|(? & ? & _)]; [done|subst q k; congruence]]|intros old' H; subst q k; congruence].
      exists (k :: cl), fl. split; [cbn; by rewrite I4|]. rewrite I4 in Hk. split.
      * constructor; [exists j; cbn; by rewrite lookup_insert_eq|]. apply (Forall_others _ _ k _ Ic); [set_solver|]. intros k' Hk'. apply (placed_other q _ j (woken q)); [by split|done].
      * apply (Forall_others _ _ k _ If); [set_solver|]. intros k' Hk'. apply (placed_other q _ j (woken q)); [by split|done].
    + eapply (placed_inv s j); [done|by split|cbn; apply NoDup_app; split; [done|]; split; [intros x ? ->%list_elem_of_singleton; done|by apply NoDup_singleton]|intros x; cbn; rewrite elem_of_app, list_elem_of_singleton; naive_solver| |cbn; intros x; split; [by left|intros [?|(? & ? & _)]; [done|subst q k; congruence]]|intros old' H; subst q k; congruence].
      exists cl, (fl ++ [k]). split; [cbn; by rewrite I4, app_assoc|]. rewrite I4 in Hk. split.
      * apply (Forall_others _ _ k _ Ic); [set_solver|]. intros k' Hk'. apply (placed_other q _ j (woken q)); [by split|done].
      * apply Forall_app. split; [|constructor; [exists j; cbn; by rewrite lookup_insert_eq|constructor]]. apply (Forall_others _ _ k _ If); [set_solver|]. intros k' Hk'. apply (placed_other q _ j (woken q)); [by split|done].
Qed.
Lemma Forall_tl {A} (P : A -> Prop) x l : Forall P (x :: l) -> Forall P l.
Proof. by inversion 1. Qed.
Lemma take_inv j q s : Inv s -> running s = None -> take_job (queue s) = Some (j, q) -> Inv (mkSys q (Some j) (log s ++ [ARun j])).
Proof.
  intros [I1 I2 I3 (cl & fl & I4 & Ic & If) I5 I6 I7 I8 I9] Hr Ht. unfold take_job in Ht. destruct (order_ (queue s)) as [|k l] eqn:Eo; [done|]. destruct (pending_ (queue s) !! k) as [j0|] eqn:Ek; [|done]. injection Ht as -> <-.
  pose proof (I3 _ _ Ek) as Hk. inversion I1 as [|? ? Hkl Hl]; subst.
  assert (forall k', k' <> j_st j -> (closing (queue s) k' -> closing (mkQueue l (delete (j_st j) (pending_ (queue s))) (woken (queue s))) k') /\ (filling (queue s) k' -> filling (mkQueue l (delete (j_st j) (pending_ (queue s))) (woken (queue s))) k')) as OT.
  { intros k' Hne. apply closing_other. cbn. by rewrite lookup_delete_ne. }
  split; cbn [queue running log order_ pending_ woken].
  - done.
  - intros k. rewrite lookup_delete_is_Some, <- I2, elem_of_cons. destruct (decide (k = j_st j)) as [->|]; [naive_solver|]. split; [intros ?; split; [done|by right]|intros [_ [?|?]]; done].
  - intros k j'. rewrite lookup_delete_Some. intros [_ H]. by eapply I3.
  - destruct cl as [|k' cl].
    + exists [], l. split; [done|]. split; [constructor|]. destruct fl as [|f fl]; [done|]. injection I4 as <- <-. apply (Forall_others _ _ (j_st j) _ (Forall_tl _ _ _ If) Hkl). intros k' Hk' H. by apply OT.
    + injection I4 as <- ->. exists cl, fl. split; [done|]. split; [apply (Forall_others _ _ (j_st j) _ (Forall_tl _ _ _ Ic)); [set_solver|intros; by apply OT]|apply (Forall_others _ _ (j_st j) _ If); [set_solver|intros; by apply OT]].
  - intros j' x Hj' Hc Hx. apply elem_of_app in Hj' as [Hj'|Hj']; [|by apply list_elem_of_singleton in Hj']. destruct (I5 j' x Hj' Hc Hx) as [H|[(j1 & H & _)|(k & j1 & H1 & H2 & H3)]]; [by left|congruence|].
    right. destruct (decide (k = j_st j)) as [->|Hne]; [left; exists j; split; [done|]; rewrite Ek in H1; by injection H1 as <-|]. right. exists k, j1. cbn. by rewrite lookup_delete_ne.
  - intros x Hx. by apply told_snoc, I6.
  - intros k j'. rewrite lookup_delete_Some. intros [Hne H]. apply since_snoc; [by eapply I7|]. cbn. rewrite (I3 _ _ H). done.
  - intros j' [= <-]. apply elem_of_app. right. by left.
  - apply in_turn_run; [done|by eapply I7].
Qed.
Lemma finished_inv j s : Inv s -> running s = Some j -> Inv (mkSys (finished j (queue s)) None (log s)).
Proof.
  intros [I1 I2 I3 I4 I5 I6 I7 I8 I9] Hr. split; cbn [queue running log]; unfold finished; cbn [order_ pending_ woken]; [done|done|done|done| | |done|done|done].
  - intros j' x Hj' Hc Hx. rewrite elem_of_wake. destruct (I5 j' x Hj' Hc Hx) as [H|[(j1 & H1 & H2 & H3)|H]]; [left; by right| |right; by right]. left. left. congruence.
  - intros x [Hx|Hx]%elem_of_wake; [|by apply I6]. exists j. split; [done|]. left. by apply I8.
Qed.
Lemma queue_step_inv e s s' : Inv s -> step e s = Some s' -> Inv s'.
Proof.
  intros I. destruct e as [j| |]; cbn [step].
  - intros [= <-]. by apply post_inv.
  - destruct (running s) eqn:Er; [done|]. destruct (take_job (queue s)) as [[j q]|] eqn:Et; [|done]. intros [= <-]. by apply take_inv.
  - destruct (running s) eqn:Er; [|done]. intros [= <-]. by apply finished_inv.
Qed.
Lemma run_inv l : forall s s', Inv s -> run l s = Some s' -> Inv s'.
Proof. induction l as [|e l IH]; intros s s' I; cbn [run]; [by intros [= <-]|]. destruct (step e s) as [s1|] eqn:E; [|done]. apply IH. by eapply queue_step_inv. Qed.

(** ** The wait of a close *)

(** A whole turn of the worker when it is idle. *)
Definition turns (n : nat) : list Ev := concat (replicate n [Take; Finish]).
Lemma take_some q k l : order_ q = k :: l -> (forall k, k ∈ order_ q <-> is_Some (pending_ q !! k)) -> exists j, pending_ q !! k = Some j /\ take_job q = Some (j, mkQueue l (delete k (pending_ q)) (woken q)).
Proof. intros E H. destruct (proj1 (H k) ltac:(rewrite E; by left)) as [j Hj]. exists j. split; [done|]. unfold take_job. by rewrite E, Hj. Qed.
Lemma idle_wait x k j : forall i s, Inv s -> running s = None -> order_ (queue s) !! i = Some k -> pending_ (queue s) !! k = Some j -> j_sync j = Some x ->
  exists s', run (turns (S i)) s = Some s' /\ x ∈ woken (queue s') /\ running s' = None.
Proof.
  induction i as [|i IH]; intros s I Hr Ho Hp Hx; destruct (order_ (queue s)) as [|k0 l] eqn:Eo; try done; destruct (take_some _ _ _ Eo (qi_dom s I)) as (j0 & Hj0 & Ht); cbn [turns replicate concat app run step]; rewrite Hr, Ht; cbn [run step queue running log].
  - injection Ho as ->. rewrite Hp in Hj0. injection Hj0 as <-. eexists. split; [done|]. split; [|done]. cbn. rewrite elem_of_wake. by left.
  - assert (k0 <> k) as Hne. { intros ->. pose proof (qi_once s I) as Hn. rewrite Eo in Hn. inversion Hn as [|? ? Hni _]; subst. apply Hni. exact (list_elem_of_lookup_2 l i _ Ho). }
    pose proof (take_inv _ _ s I Hr Ht) as I1. pose proof (finished_inv j0 _ I1 eq_refl) as I2. cbn [queue running log] in I2. destruct (IH _ I2) as (s' & R & H1 & H2); cbn [queue running log finished order_ pending_ woken]; [done|done|by rewrite lookup_delete_ne|done|].
    exists s'. by split.
Qed.
Lemma closing_index q k : split_order q -> NoDup (order_ q) -> closing q k -> k ∈ order_ q -> exists i, order_ q !! i = Some k /\ forall i' k', (i' <= i)%nat -> order_ q !! i' = Some k' -> closing q k'.
Proof.
  intros (cl & fl & E & Hc & Hf) Hn (j & Hj & Hcl) Hin. rewrite E in *. apply elem_of_app in Hin as [Hin|Hin].
  - apply list_elem_of_lookup in Hin as [i Hi]. exists i. split; [by apply lookup_app_l_Some|]. intros i' k' Hle H. apply lookup_lt_Some in Hi. rewrite lookup_app_l in H by lia. rewrite Forall_forall in Hc. apply Hc. by apply list_elem_of_lookup_2 in H.
  - rewrite Forall_forall in Hf. destruct (Hf k Hin) as (j' & H1 & H2). congruence.
Qed.
Definition is_closing (q : Queue) (k : Z) : bool := match pending_ q !! k with Some j => j_close j | None => false end.
Definition closes (q : Queue) : nat := length (List.filter (is_closing q) (order_ q)).
Lemma filter_all {A} (f : A -> bool) l : Forall (fun x => f x = true) l -> List.filter f l = l.
Proof. induction 1 as [|x l Hx _ IH]; [done|]. cbn. by rewrite Hx, IH. Qed.
Lemma closes_ge q i : (i < length (order_ q))%nat -> (forall i' k', (i' <= i)%nat -> order_ q !! i' = Some k' -> closing q k') -> (S i <= closes q)%nat.
Proof.
  intros Hi H. unfold closes. rewrite <- (take_drop (S i) (order_ q)), List.filter_app, length_app, (filter_all _ (take (S i) _)); [rewrite length_take; lia|].
  apply Forall_forall. intros k' (i' & Hk')%list_elem_of_lookup. apply lookup_take_Some in Hk' as [Hk' Hl]. destruct (H i' k' ltac:(lia) Hk') as (j & Hj & Hc). unfold is_closing. by rewrite Hj.
Qed.
Definition first_finish (s : Sys) : list Ev := match running s with Some _ => [Finish] | None => [] end.
Lemma run_both l1 l2 : forall s, run (l1 ++ l2) s = match run l1 s with Some s' => run l2 s' | None => None end.
Proof. induction l1 as [|e l1 IH]; intros s; cbn [run app]; [done|]. destruct (step e s); [apply IH|done]. Qed.
Lemma awaits_wakes s x : Inv s -> awaits s x -> exists n s', (n <= closes (queue s))%nat /\ run (first_finish s ++ turns n) s = Some s' /\ x ∈ woken (queue s').
Proof.
  intros I [(j & Hr & Hc & Hx)|(k & j & Hp & Hc & Hx)].
  - exists O. eexists. split; [lia|]. unfold first_finish. rewrite Hr. cbn. rewrite Hr. split; [done|]. cbn. rewrite elem_of_wake. by left.
  - destruct (closing_index (queue s) k) as (i & Hi & Hcl); [apply (qi_order s I)|apply (qi_once s I)|by exists j|apply (qi_dom s I); by rewrite Hp|].
    assert (exists s1, run (first_finish s) s = Some s1 /\ Inv s1 /\ running s1 = None /\ order_ (queue s1) = order_ (queue s) /\ pending_ (queue s1) = pending_ (queue s)) as (s1 & R1 & J1 & J2 & J3 & J4).
    { unfold first_finish. destruct (running s) as [j0|] eqn:Er; [|by exists s]. eexists. cbn [run step]. rewrite Er. split; [done|]. split; [by apply finished_inv|done]. }
    destruct (idle_wait x k j i s1) as (s' & R2 & H1 & _); [done|done|by rewrite J3|by rewrite J4|done|]. exists (S i), s'. split; [apply closes_ge; [by apply lookup_lt_Some in Hi|done]|]. split; [|done].
    by rewrite run_both, R1.
Qed.

(** C19: the queue of a prediction thread. For any interleaving of posts - fills and closes of any handles, from any
    threads - with the turns of the worker: a handle has at most one pending job, the
    queue lists exactly the handles that have one, once each, and every close comes before every fill. A close that was
    posted is never forgotten: its waiter has been told, or its job is the one in progress or pending; and a waiter is told
    only when its job was run or a later close of the same handle took its place. Between two jobs
    of one handle that run, the second was posted: a fill that a close superseded, or that was
    posted while a close was pending, never runs. Whenever a close waits, it is told once the job in progress
    is done and at most as many jobs as closes are pending have run. *)
Theorem closes_come_through (evs : list Ev) (s : Sys) : run evs init = Some s ->
  (NoDup (order_ (queue s)) /\ (forall k, k ∈ order_ (queue s) <-> is_Some (pending_ (queue s) !! k)) /\ (forall k j, pending_ (queue s) !! k = Some j -> j_st j = k) /\ split_order (queue s)) /\
  (forall j x, APost j ∈ log s -> j_close j = true -> j_sync j = Some x -> x ∈ woken (queue s) \/ awaits s x) /\
  (forall x, x ∈ woken (queue s) -> told (log s) x) /\
  in_turn (log s) /\
  (forall x, awaits s x -> exists n s', (n <= closes (queue s))%nat /\ run (first_finish s ++ turns n) s = Some s' /\ x ∈ woken (queue s')).
Proof.
  intros R. pose proof (run_inv evs init s init_inv R) as I. split; [split; [apply I|split; [apply I|split; [apply I|apply I]]]|]. split; [apply I|]. split; [apply I|]. split; [apply I|]. intros x. by apply awaits_wakes.
Qed.
(** A fill in progress, a fill of another handle, the closes of both, a fill after its close. *)
Definition f1 : Job := mkJob 1 0 [(0, 10)] false None.
Definition f2 : Job := mkJob 2 0 [(0, 10)] false None.
Definition c1 : Job := mkJob 1 0 [] true (Some 8).
Definition c2 : Job := mkJob 2 0 [] true (Some 7).
Definition q_demo : list Ev := [Post f1; Take; Post f2; Post c2; Post f2; Post c1].
Definition q_state : Sys := Eval vm_compute in default init (run q_demo init).
Lemma closes_come_through_witness :
  run q_demo init = Some q_state /\ order_ (queue q_state) = [1; 2] /\ awaits q_state 7 /\
  (exists n s', (n <= 2)%nat /\ run ([Finish] ++ turns n) q_state = Some s' /\ 7 ∈ woken (queue s')).
Proof.
  assert (run q_demo init = Some q_state) as R by (vm_compute; reflexivity). destruct (closes_come_through q_demo q_state R) as (_ & _ & _ & _ & P).
  assert (awaits q_state 7) as Hw by (right; exists 2, c2; split; [vm_compute; reflexivity|split; reflexivity]).
  split; [exact R|]. split; [reflexivity|]. split; [exact Hw|]. exact (P 7 Hw).
Defined.
End PrefetchQueue.

Module PrefetchGate.
Import Root TreeData Tree Wire Prefetch.

Create HintDb keeps.

(** ** What a step leaves alone *)
Section keeps.
Context {W V : Type} (f : @World W -> V).
Definition keeps {A} (m : M (@World W) A) : Prop := forall w, f (snd (m w)) = f w.

Lemma keep_ret {A} (a : A) : keeps (ret a).
Proof. done. Qed.
Lemma keep_bind {A B} (m : M World A) (k : A -> M World B) : keeps m -> (forall a, keeps (k a)) -> keeps (mbind_ m k).
Proof. intros Hm Hk w. unfold mbind_. specialize (Hm w). destruct (m w) as [a w']. cbn in Hm. rewrite <- Hm. apply Hk. Qed.
Lemma keeps_getW : keeps getW.
Proof. done. Qed.
Lemma keeps_modW g : (forall w, f (g w) = f w) -> keeps (modW g).
Proof. intros H w. apply H. Qed.
Lemma keeps_when b m : keeps m -> keeps (when b m).
Proof. by destruct b. Qed.
Lemma keeps_on_entry {A} i (d : A) m : (forall i e v w, f (set_entry i e v w) = f w) -> keeps (on_entry i d m).
Proof. intros H w. unfold on_entry. destruct (entries w !! i) as [e|]; [|done]. destruct (m (e, ew w)) as [a [e' v]]. apply H. Qed.
Lemma keeps_count st c n : (forall w, f (bump c n w) = f w) -> keeps (count st c n).
Proof. intros H w. unfold count. cbn. destruct (hstates w !! st) as [h|]; [|done]. by destruct (Inner.store h). Qed.
Lemma keeps_drop_issued e l : (forall i e v w, f (set_entry i e v w) = f w) -> keeps (drop_issued e l).
Proof. intros H. induction l as [|i l IH]; cbn [drop_issued]; [done|]. apply keep_bind; [by apply keeps_on_entry|done]. Qed.
End keeps.
#[export] Hint Resolve keep_ret keeps_getW : keeps.
#[export] Hint Extern 0 (keeps _ (on_entry _ _ _)) => apply keeps_on_entry; done : keeps.
#[export] Hint Extern 0 (keeps _ (count _ _ _)) => apply keeps_count; done : keeps.
#[export] Hint Extern 0 (keeps _ (drop_issued _ _)) => apply keeps_drop_issued; done : keeps.
(** One operation after another, each by its own lemma. *)
Ltac keeps :=
  repeat (auto with keeps; match goal with
    | |- keeps _ (mbind_ _ _) => apply keep_bind; [|intros ?]
    | |- keeps _ (when _ _) => apply keeps_when
    | |- keeps _ (modW _) => apply keeps_modW; intros ?; try done; repeat case_match; done
    | |- keeps _ (mod_shared _) => apply keeps_modW; intros ?; try done
    | |- keeps _ (let _ := _ in _) => cbv zeta
    | |- keeps _ (match ?x with _ => _ end) => destruct x eqn:?
    end).

Section gate.
Context {W : Type} `{!IOBackend W} `{CK : Checksum} `{CD : Codecs}.
Context (clockS clockUs : nat -> Z) (cfg : Config.Config) (pcfg : Settings) (addr : Z -> Z) (key_of : Z -> bytes).

(** The handles open at the origin, the requests on the wire, their bytes, and whether predictions are trusted. *)
Definition core (w : @World W) := (hstates w, wires w, nextWire w, confirmed (shared w), s_issued (shared w), s_inflight (shared w)).
Definition sure (w : @World W) : bool := confirmed (shared w).
Lemma core_sure w w' : core w' = core w -> sure w' = sure w.
Proof. unfold core, sure. congruence. Qed.

(** ** The operations that ask nothing *)
Lemma core_shared f (w : @World W) : (forall s, confirmed (f s) = confirmed s /\ s_issued (f s) = s_issued s /\ s_inflight (f s) = s_inflight s) -> core (set_shared (f (shared w)) w) = core w.
Proof. intros H. destruct (H (shared w)) as (E1 & E2 & E3). unfold core. cbn. by rewrite E1, E2, E3. Qed.
Lemma keeps_sweep dead l : keeps core (sweep (W := W) dead l).
Proof. induction l as [|ap l IH]; cbn [sweep]; [done|]. apply keep_bind; [|done]. unfold sweep_one. keeps. Qed.
Lemma keeps_handle dead st : keeps core (handle (W := W) addr dead st).
Proof. unfold handle, sweepDeadHandles. keeps. apply keeps_sweep. Qed.
Lemma keeps_handleClose j : keeps core (handleClose (W := W) addr j).
Proof. unfold handleClose. keeps. Qed.
Lemma keeps_tableFor j : keeps core (tableFor clockS clockUs pcfg key_of j).
Proof.
  unfold tableFor, size_of_entry. intros w. unfold mbind_ at 1, getW. destruct (lookupTable (key_of (j_entry j)) (shared w)) as [[t|] s] eqn:E.
  - cbn. unfold lookupTable in E. destruct (find_table _ _) as [[t' r]|]; [|done]. injection E as <- <-. done.
  - match goal with |- core (snd (?m w)) = _ => assert (keeps core m) as H; [|apply H] end.
    keeps. apply core_shared. intros s'. unfold insertTable. by destruct (existsb _ _).
Qed.
Lemma keeps_table_of j p h : keeps core (table_of clockS clockUs pcfg key_of j p h).
Proof. pose proof (keeps_tableFor j). unfold table_of. keeps. Qed.
Lemma note_shares_same t per s : confirmed (note_shares t per s) = confirmed s /\ s_issued (note_shares t per s) = s_issued s /\ s_inflight (note_shares t per s) = s_inflight s.
Proof.
  unfold note_shares. generalize (zrange 0 (zlen per)). intros l. revert s. induction l as [|b l IH]; intros s; cbn [foldl]; [done|].
  destruct (IH (if zget per b =? 0 then s else noteShare (nth (Z.to_nat b) (names t) []) (zget per b) s)) as (-> & -> & ->). by destruct (_ =? 0).
Qed.
Lemma keeps_switchOff st : keeps core (switchOff (W := W) st).
Proof. unfold switchOff. keeps. Qed.

(** ** The requests leave the switch as it is *)
Lemma sure_destroy id : keeps sure (destroy_wire (W := W) id).
Proof. unfold destroy_wire. keeps. Qed.
Lemma sure_flights e l : keeps sure (note_flights (W := W) e l).
Proof. induction l as [|r l IH]; cbn [note_flights]; keeps. Qed.
Lemma sure_issue_part j p els o k : keeps sure (issue_part (W := W) j p els o k).
Proof. pose proof sure_destroy. pose proof sure_flights. unfold issue_part, on_hstate. keeps. Qed.
Lemma sure_issue_parts j p origin fuel : forall k els a b, keeps sure (issue_parts (W := W) fuel j p origin k els a b).
Proof. induction fuel as [|fuel IH]; intros k els a b; cbn [issue_parts]; [by destruct els|]. pose proof sure_issue_part. keeps. Qed.
Lemma sure_predict j p h t origin : keeps sure (predictAndIssue (W := W) pcfg j p h t origin).
Proof. pose proof sure_issue_parts. unfold predictAndIssue, issue. keeps. Qed.

(** ** A fill *)
Lemma predict_unsure j p h t origin (w : @World W) : sure w = false -> core (snd (predictAndIssue pcfg j p h t origin w)) = core w.
Proof. unfold sure, predictAndIssue. intros H. cbn. unfold mbind_, getW, modW. cbn. rewrite H, orb_true_r. done. Qed.

(** A fill of [chunks] of which the handle's last prediction held enough. *)
Definition foretold (h : PrefetchHandle) (t : BasketTable) (chunks : list (Z * Z)) : Prop :=
  let '(gs, n) := fill_baskets t chunks in
  shadow h <> [] /\ n <> 0 /\ confirms (hit_bytes t (ReadMap.unique (merge_sort Z.le gs)) (shadow h)) n = true.

(** The last part of [follow]. *)
Definition settle (j : Job) (p : Z) (h h' : PrefetchHandle) (t : BasketTable) (origin : nat -> bool * bool) : M (@World W) unit :=
  do_ drop_issued (j_entry j) (List.filter (passed t (frontier h)) (issued h));
  let h := set_issued h' (List.filter (fun i => negb (passed t (frontier h) i)) (issued h)) in
  do_ modW (set_ph p h);
  do w <- getW;
  if (kGateMinIssued <=? s_issued (shared w)) && over_gate (Entry.g_specDropped_ (ew w)) (s_issued (shared w)) then
    do_ switchOff (j_st j); do_ drop_issued (j_entry j) (issued h); modW (set_ph p (set_issued h []))
  else predictAndIssue pcfg j p h t origin.
Lemma settle_sure j p h h' t origin : keeps sure (settle j p h h' t origin).
Proof. pose proof sure_predict. unfold settle, switchOff. keeps. Qed.
Lemma core_bind {A B} (m : M (@World W) A) (k : A -> M World B) (w : @World W) :
  keeps core m -> (forall a w1, sure w1 = sure w -> core (snd (k a w1)) = core w1) -> core (snd (mbind_ m k w)) = core w.
Proof. intros Hm Hk. unfold mbind_. specialize (Hm w). destruct (m w) as [a w1]. cbn in *. rewrite <- Hm. apply Hk. by apply core_sure. Qed.
Lemma settle_core j p h h' t origin (w : @World W) : sure w = false -> core (snd (settle j p h h' t origin w)) = core w.
Proof.
  intros Hw. unfold settle. apply core_bind; [auto with keeps|]. intros _ w1 H1. cbv zeta. apply core_bind; [by apply keeps_modW|]. intros _ w2 H2.
  apply core_bind; [done|]. intros w3 w4 H4. destruct (_ && _).
  - match goal with |- core (snd (?m w4)) = _ => assert (keeps core m) as Hk; [|apply Hk] end. pose proof keeps_switchOff. keeps.
  - apply predict_unsure. congruence.
Qed.

Lemma follow_gate j p h t origin (w : @World W) : let w' := snd (follow pcfg j p h t origin w) in
  core w' = core w \/ (sure w' = true /\ (sure w = true \/ foretold h t (j_chunks j))).
Proof.
  unfold follow, foretold. destruct (fill_baskets t (j_chunks j)) as [gs n]. case_bool_decide; [by left|].
  set (us := ReadMap.unique (merge_sort Z.le gs)). destruct (advance t h us) as [h' per].
  fold (settle j p h h' t origin). unfold mod_shared, modW, mbind_, getW. set (w1 := set_shared (note_shares t per (shared w)) w).
  assert (core w1 = core w) as H1 by (apply core_shared, note_shares_same). destruct (_ && _) eqn:E; cbn [when].
  - right. split; [by rewrite settle_sure|]. right. apply andb_true_iff in E as [[[E1 E2]%andb_true_iff _]%andb_true_iff E4].
    apply negb_true_iff in E1, E2. apply bool_decide_eq_false in E1. apply Z.eqb_neq in E2. done.
  - cbn. destruct (sure w) eqn:Ew; [right; split; [|by left]; by rewrite settle_sure, (core_sure _ _ H1)|left].
    rewrite <- H1. apply settle_core. by rewrite (core_sure _ _ H1).
Qed.

Lemma handle_finds dead st (w : @World W) : let '(p, w1) := handle addr dead st w in
  forall h, phs w1 !! p = Some h -> (phs w !! p = Some h /\ owner h = st) \/ shadow h = [].
Proof.
  unfold handle. unfold mbind_ at 1, modW at 1. set (w0 := set_handles _ _ _ _ w). unfold mbind_ at 1, getW at 1. unfold mbind_ at 1.
  assert (keeps phs (when (jobs w0 mod 64 =? 0) (sweepDeadHandles (W := W) dead))) as Hk.
  { apply keeps_when. unfold sweepDeadHandles. apply keep_bind; [done|]. intros w'. generalize (map_to_list (handles w')). intros l.
    induction l as [|ap l IH]; cbn [sweep]; [done|]. apply keep_bind; [|done]. unfold sweep_one. keeps. }
  specialize (Hk w0). destruct (when _ _ w0) as [[] w2]. cbn in Hk. unfold mbind_ at 1, getW at 1.
  destruct (existing addr st w2) as [p|] eqn:E; cbn.
  - intros h Hh. left. unfold existing in E. destruct (handles w2 !! addr st) as [p'|]; [|done]. destruct (phs w2 !! p') as [h'|] eqn:Eh; [|done].
    destruct (owner h' =? st) eqn:Eo; [|done]. injection E as ->. b2p. rewrite Hk in *. rewrite Hh in Eh. injection Eh as ->. done.
  - intros h. rewrite lookup_insert_eq. intros [= <-]. by right.
Qed.
Lemma table_of_shadow j p h (w : @World W) h' t : fst (table_of clockS clockUs pcfg key_of j p h w) = Some (h', t) -> shadow h' = shadow h.
Proof.
  unfold table_of. destruct (table h) as [t0|]; [by intros [= <- _]|]. destruct (noTable h); [done|]. unfold mbind_ at 1, getW. destruct (_ && _); [done|].
  unfold mbind_ at 1. destruct (on_entry _ _ _ w) as [[] w1]; [|done]. cbn [negb]. unfold mbind_ at 1.
  destruct (tableFor _ _ _ _ j w1) as [[t0|] w2]; [by intros [= <- _]|]. cbn. by destruct (kParseTries <=? _).
Qed.

(** ** The basket map of a handle that has predicted *)

(** A handle that holds a prediction holds the basket map it was made with, or has given maps up. *)
Definition mapped (h : PrefetchHandle) : Prop := shadow h <> [] -> noTable h = false -> is_Some (table h).
Definition all_mapped (w : @World W) : Prop := forall p h, phs w !! p = Some h -> mapped h.
Definition stays {A} (m : M (@World W) A) : Prop := forall w, all_mapped w -> all_mapped (snd (m w)).

Lemma keeps_stays {A} (m : M World A) : keeps phs m -> stays m.
Proof. intros H w Hw. unfold all_mapped. by rewrite (H w). Qed.
Lemma stays_bind {A B} (m : M World A) (k : A -> M World B) : stays m -> (forall a, stays (k a)) -> stays (mbind_ m k).
Proof. intros Hm Hk w Hw. unfold mbind_. specialize (Hm w Hw). destruct (m w) as [a w']. by apply Hk. Qed.
Lemma stays_set_ph p h : mapped h -> stays (modW (set_ph p h)).
Proof. intros Hh w Hw q h'. cbn. intros [[_ <-]|[_ H]]%lookup_insert_Some; [done|by eapply Hw]. Qed.
Lemma mapped_known h t : table h = Some t -> mapped h.
Proof. intros H _ _. by rewrite H. Qed.

Lemma phs_sweep dead l : keeps phs (sweep (W := W) dead l).
Proof. induction l as [|ap l IH]; cbn [sweep]; [done|]. apply keep_bind; [|done]. unfold sweep_one. keeps. Qed.
Lemma stays_handle dead st : stays (handle (W := W) addr dead st).
Proof.
  unfold handle. apply stays_bind; [by apply keeps_stays|]. intros _. apply stays_bind; [by apply keeps_stays|]. intros w0.
  apply stays_bind; [apply keeps_stays, keeps_when; unfold sweepDeadHandles; apply keep_bind; [done|]; intros; apply phs_sweep|]. intros _.
  apply stays_bind; [by apply keeps_stays|]. intros w1. destruct (existing addr st w1); [by apply keeps_stays|].
  apply stays_bind; [|intros; by apply keeps_stays]. intros w Hw q h. cbn. intros [[_ <-]|[_ H]]%lookup_insert_Some; [by intros Hs|by eapply Hw].
Qed.
Lemma stays_handleClose j : stays (handleClose (W := W) addr j).
Proof.
  intros w Hw. unfold handleClose. unfold mbind_ at 1, getW. destruct (existing addr (j_st j) w) as [p|]; [|done].
  destruct (phs w !! p) as [h|] eqn:E; [|done]. revert w Hw E. intros w Hw E.
  match goal with |- all_mapped (snd (?m w)) => assert (stays m) as H; [|by apply H] end.
  apply stays_bind; [apply stays_set_ph; exact (Hw _ _ E)|]. intros _. apply stays_bind; [apply keeps_stays; auto with keeps|]. intros _.
  apply stays_set_ph. by intros Hs.
Qed.
Lemma phs_tableFor j : keeps phs (tableFor clockS clockUs pcfg key_of j).
Proof. unfold tableFor, size_of_entry. keeps. Qed.

(** The map [table_of] gives is the handle's own, when it has one. *)
Lemma table_of_own j p h (w : @World W) : mapped h -> all_mapped w -> let '(r, w') := table_of clockS clockUs pcfg key_of j p h w in
  all_mapped w' /\ forall h' t, r = Some (h', t) -> shadow h' = shadow h /\ table h' = Some t /\ (shadow h <> [] -> table h = Some t).
Proof.
  intros Hh Hw. unfold table_of. destruct (table h) as [t0|] eqn:Et.
  { split; [done|]. by intros h' t [= <- <-]. }
  destruct (noTable h) eqn:En; [by split|]. assert (shadow h = []) as Hs.
  { destruct (shadow h) eqn:Es; [done|]. destruct (Hh ltac:(by rewrite Es) En) as [? ?]. congruence. }
  unfold mbind_ at 1, getW. destruct (_ && _); [by split|].
  unfold mbind_ at 1. assert (keeps (W := W) phs (on_entry (j_entry j) false (do e <- Entry.getE; ret (Entry.hasRange e 0 512)))) as K1 by auto with keeps.
  pose proof (keeps_stays _ K1 w Hw) as H1. destruct (on_entry _ _ _ w) as [[] w1]; cbn [snd] in H1; cbn [negb]; [|by split].
  unfold mbind_ at 1. pose proof (keeps_stays _ (phs_tableFor j) w1 H1) as H2. destruct (tableFor _ _ _ _ j w1) as [[t0|] w2]; cbn [snd] in H2.
  - match goal with |- context [set_table h (Some t0) ?a ?b ?c ?d ?e] => set (hn := set_table h (Some t0) a b c d e) end.
    split; [|by intros h' t [= <- <-]]. refine (stays_set_ph p hn _ w2 H2). by apply (mapped_known _ t0).
  - match goal with |- context [modW (set_ph p ?x)] => set (hn := x) end.
    assert (stays (do_ modW (set_ph p hn); do_ when (kParseTries <=? parseTries h + 1) (mod_shared (rememberNoTable (key_of (j_entry j)))); ret (None (A := PrefetchHandle * BasketTable)))) as K.
    { apply stays_bind; [apply stays_set_ph; by intros Hx|]. intros _. apply keeps_stays. keeps. }
    specialize (K w2 H2). destruct (mbind_ _ _ w2) as [x w3] eqn:E. split; [exact K|]. cbn in E. unfold when, mod_shared in E.
    destruct (_ <=? _) in E; by injection E as <- _.
Qed.
Lemma stays_predict j p h t origin : table h = Some t -> stays (predictAndIssue (W := W) pcfg j p h t origin).
Proof.
  intros Ht. unfold predictAndIssue. apply stays_bind; [by apply keeps_stays|]. intros w0. cbv zeta.
  apply stays_bind; [apply stays_set_ph; by apply (mapped_known _ t)|]. intros _. destruct (_ || _); [by apply keeps_stays|].
  assert (forall fuel k els a b, keeps (W := W) phs (issue_parts fuel j p origin k els a b)) as Hp.
  { induction fuel as [|fuel IH]; intros k els a b; cbn [issue_parts]; [by destruct els|].
    assert (forall e l, keeps (W := W) phs (note_flights e l)) by (intros e l; induction l as [|x l IHl]; cbn [note_flights]; keeps).
    assert (forall els o k, keeps (W := W) phs (issue_part j p els o k)) by (intros; unfold issue_part, on_hstate, destroy_wire; keeps). keeps. }
  unfold issue. apply stays_bind; [by apply keeps_stays|]. intros w1. destruct (entries w1 !! j_entry j); [|by apply keeps_stays].
  destruct (elems_for _ _ _ _) as [els|]; [|by apply keeps_stays]. apply stays_bind; [by apply keeps_stays|]. intros [sent wire].
  destruct (sent =? 0); [by apply keeps_stays|]. apply stays_bind.
  - intros w Hw. cbn. destruct (phs w !! p) as [h1|] eqn:E; [|done]. refine (stays_set_ph p _ _ w Hw). exact (Hw _ _ E).
  - intros _. apply keeps_stays. keeps.
Qed.
Lemma stays_follow j p h t origin : table h = Some t -> stays (follow pcfg j p h t origin).
Proof.
  intros Ht. unfold follow. destruct (fill_baskets t (j_chunks j)) as [gs n]. case_bool_decide.
  { apply stays_set_ph. destruct (_ <=? _); [by intros _|]. by apply (mapped_known _ t). }
  destruct (advance t h _) as [h' per] eqn:Ea. assert (table h' = Some t) as Ht'.
  { unfold advance in Ea. destruct (foldl _ _ _) as [fr pe]. by injection Ea as <- _. }
  apply stays_bind; [by apply keeps_stays|]. intros _. apply stays_bind; [by apply keeps_stays|]. intros w0.
  apply stays_bind; [apply keeps_stays; keeps|]. intros _. apply stays_bind; [apply keeps_stays; auto with keeps|]. intros _. cbv zeta.
  apply stays_bind; [apply stays_set_ph; by apply (mapped_known _ t)|]. intros _. apply stays_bind; [by apply keeps_stays|]. intros w1.
  destruct (_ && _); [|by apply stays_predict]. apply stays_bind; [apply keeps_stays; unfold switchOff; keeps|]. intros _.
  apply stays_bind; [apply keeps_stays; auto with keeps|]. intros _. apply stays_set_ph. by apply (mapped_known _ t).
Qed.
Lemma stays_response id answer : stays (HandleResponse (W := W) cfg id answer).
Proof.
  apply keeps_stays.
  assert (forall w_h e off buf l late dropped, keeps (W := W) phs (stage_pieces cfg w_h e off buf l late dropped)) as Hp
    by (intros w_h e off buf l; induction l as [|x l IH]; intros late dropped; cbn [stage_pieces]; keeps).
  assert (forall w_h e els bufs late dropped, keeps (W := W) phs (stage_elems cfg w_h e els bufs late dropped)) as He
    by (intros w_h e els; induction els as [|x els IH]; intros bufs late dropped; cbn [stage_elems]; keeps).
  unfold HandleResponse, on_hstate, destroy_wire. keeps.
Qed.

(** The fill that proved predictions: what its handle predicted before, found again in the handle's own map. *)
Definition proved_by (w : @World W) (j : Job) : Prop :=
  exists p h t, phs w !! p = Some h /\ owner h = j_st j /\ (all_mapped w -> table h = Some t) /\ foretold h t (j_chunks j).

Lemma handleFill_gate dead origin j (w w' : @World W) : w' = snd (handleFill clockS clockUs cfg pcfg addr key_of dead origin j w) ->
  core w' = core w \/ (sure w' = true /\ prefetch pcfg = true /\ disabled (shared w) = false /\ (sure w = true \/ proved_by w j)).
Proof.
  unfold handleFill, mbind_ at 1, getW at 1. destruct (negb (prefetch pcfg) || disabled (shared w)) eqn:E; [by intros ->; left|].
  apply orb_false_iff in E as [E1%negb_false_iff E2]. destruct (_ <=? 0); [by intros ->; left|]. unfold mbind_ at 1.
  pose proof (handle_finds dead (j_st j) w) as Hh. pose proof (keeps_handle dead (j_st j) w) as Hk. pose proof (stays_handle dead (j_st j) w) as Hm.
  destruct (handle _ _ _ w) as [p w1]. cbn [snd] in Hk, Hm.
  unfold mbind_ at 1, getW at 1. destruct (phs w1 !! p) as [h|] eqn:Eh; [|by intros ->; left]. destruct (closed h); [by intros ->; left|]. cbv zeta. unfold mbind_ at 1, modW at 1.
  set (w2 := set_ph p (on_fill h (j_entry j)) w1). assert (core w2 = core w) as H2 by exact Hk.
  assert (all_mapped w -> mapped (on_fill h (j_entry j)) /\ all_mapped w2) as Hm2.
  { intros Hw. specialize (Hm Hw). assert (mapped (on_fill h (j_entry j))) as Hf by exact (Hm _ _ Eh). split; [done|]. by apply (stays_set_ph p _ Hf). }
  unfold mbind_ at 1. pose proof (keeps_table_of j p (on_fill h (j_entry j)) w2) as H3. pose proof (table_of_shadow j p (on_fill h (j_entry j)) w2) as H4.
  pose proof (table_of_own j p (on_fill h (j_entry j)) w2) as H7.
  destruct (table_of _ _ _ _ _ _ _ w2) as [[[h' t]|] w3]; cbn [snd fst] in H3, H4; [intros ->|intros ->; left; cbn; congruence].
  destruct (follow_gate j p h' t origin w3) as [H5|(H5 & H6)]; [left; congruence|right]. specialize (H4 _ _ eq_refl). cbn in H4.
  split; [done|]. split; [done|]. split; [done|]. rewrite (core_sure w w3) in H6 by congruence. destruct H6 as [?|H6]; [by left|right].
  assert (shadow h <> []) as Hs. { unfold foretold in H6. destruct (fill_baskets _ _). destruct H6 as [H6 _]. congruence. }
  destruct (Hh h eq_refl) as [[Hp Ho]|?]; [|done]. exists p, h, t. split; [done|]. split; [done|]. split.
  - intros Hw. destruct (Hm2 Hw) as [M1 M2]. destruct (H7 M1 M2) as [_ H8]. by apply (H8 h' t eq_refl).
  - unfold foretold in *. by rewrite H4 in H6.
Qed.

Lemma job_gate dead origin j (w : @World W) : let w' := snd (run_job clockS clockUs cfg pcfg addr key_of dead origin j w) in
  core w' = core w \/ (sure w' = true /\ j_close j = false /\ prefetch pcfg = true /\ disabled (shared w) = false /\ (sure w = true \/ proved_by w j)).
Proof.
  unfold run_job. destruct (j_close j); [left; apply keeps_handleClose|]. destruct (handleFill_gate dead origin j w _ eq_refl) as [?|(? & ? & ? & ?)]; [by left|right]. done.
Qed.
Lemma stays_job dead origin j : stays (run_job clockS clockUs cfg pcfg addr key_of dead origin j).
Proof.
  unfold run_job. destruct (j_close j); [apply stays_handleClose|]. unfold handleFill. apply stays_bind; [by apply keeps_stays|]. intros w0.
  destruct (_ || _); [by apply keeps_stays|]. destruct (_ <=? 0); [by apply keeps_stays|]. apply stays_bind; [apply stays_handle|]. intros p w Hw.
  unfold mbind_ at 1, getW. destruct (phs w !! p) as [h|] eqn:Eh; [|done]. destruct (closed h); [done|]. cbv zeta.
  assert (mapped (on_fill h (j_entry j))) as Hf by exact (Hw _ _ Eh). unfold mbind_ at 1, modW at 1.
  pose proof (stays_set_ph p _ Hf w Hw) as H1. cbn [snd] in H1. set (w1 := set_ph p _ w) in *. unfold mbind_ at 1.
  pose proof (table_of_own j p (on_fill h (j_entry j)) w1 Hf H1) as H2. destruct (table_of _ _ _ _ _ _ _ w1) as [[[h' t]|] w2]; [|apply H2].
  destruct H2 as [H2 H3]. apply (stays_follow j p h' t origin); [by apply (H3 h' t)|done].
Qed.

(** C18: Read-ahead asks the origin nothing unless it has earned it: a close, a fill with the setting off or after the
    process stopped, and a fill that leaves predictions untrusted, leave the handles at the origin, the requests
    on the wire and their bytes as they were; and predictions become trusted only by a fill of which the baskets that its
    handle had predicted before cover the share that is asked for - found in the basket map that the handle holds and
    predicted with: over any jobs and answers a handle with a prediction holds its map. *)
Theorem silent_until_proven dead origin j (w : @World W) :
  let w' := snd (run_job clockS clockUs cfg pcfg addr key_of dead origin j w) in
  (j_close j = true \/ prefetch pcfg = false \/ disabled (shared w) = true \/ confirmed (shared w') = false -> core w' = core w) /\
  (confirmed (shared w) = true -> confirmed (shared w') = true) /\
  (all_mapped w -> confirmed (shared w) = false -> confirmed (shared w') = true -> j_close j = false /\
    exists p h t, phs w !! p = Some h /\ owner h = j_st j /\ table h = Some t /\ foretold h t (j_chunks j)) /\
  (phs w = ∅ -> all_mapped w) /\ (all_mapped w -> all_mapped w') /\
  (forall id answer, all_mapped w -> all_mapped (snd (HandleResponse cfg id answer w))).
Proof.
  intros w'. pose proof (job_gate dead origin j w) as H. fold w' in H. change (confirmed (shared w)) with (sure w). change (confirmed (shared w')) with (sure w').
  split_and!; [| | |intros E p h; by rewrite E|apply stays_job|intros id answer; apply stays_response].
  - destruct H as [H|(? & ? & ? & ? & _)]; [done|]. intros [?|[?|[?|?]]]; congruence.
  - destruct H as [H|(? & _)]; [by rewrite (core_sure _ _ H)|done].
  - intros Hw Hs Ht. destruct H as [H|(_ & H2 & _ & _ & [?|(p & h & t & P1 & P2 & P3 & P4)])]; [rewrite (core_sure _ _ H) in Ht; congruence|congruence|].
    split; [done|]. exists p, h, t. auto.
Qed.
End gate.

(** ** What is owed for the requests on the wire *)
Section account.
Context {W : Type} `{!IOBackend W} `{CK : Checksum} `{CD : Codecs}.
Context (clockS clockUs : nat -> Z) (cfg : Config.Config) (pcfg : Settings) (addr : Z -> Z) (key_of : Z -> bytes).

Definition wsum (f : WireReq -> Z) (m : gmap Z WireReq) : Z := map_fold (fun _ r n => f r + n) 0 m.
Lemma wsum_insert f m i r : m !! i = None -> wsum f (<[i := r]> m) = f r + wsum f m.
Proof. intros. unfold wsum. rewrite map_fold_insert_L; [done|intros; lia|done]. Qed.
Lemma wsum_delete f m i r : m !! i = Some r -> wsum f (delete i m) = wsum f m - f r.
Proof. intros H. rewrite <- (insert_delete_id m i r H) at 2. rewrite wsum_insert by apply lookup_delete_eq. lia. Qed.

(** The requests of a handle. *)
Definition of_handle (st : Z) (r : WireReq) : Z := if w_st r =? st then 1 else 0.
(** The bytes in flight are those of the requests, and every handle is held open as often as [base] says and once
    for each of its requests. *)
Record Acct (base : Z -> Z) (w : @World W) : Prop := {
  ac_fresh : forall id, is_Some (wires w !! id) -> id < nextWire w;
  ac_bytes : s_inflight (shared w) = w64 (wsum w_bytes (wires w));
  ac_ops : forall st h, hstates w !! st = Some h -> Inner.innerOps (Inner.files h) = base st + wsum (of_handle st) (wires w) }.
Definition acc (w : @World W) := (hstates w, wires w, nextWire w, s_inflight (shared w)).
Lemma acct_acc base w w' : acc w' = acc w -> Acct base w -> Acct base w'.
Proof. intros [= E1 E2 E3 E4] [A B C]. split; rewrite ?E1, ?E2, ?E3, ?E4; done. Qed.
Lemma core_acc {A} (m : M World A) : keeps core m -> keeps acc m.
Proof. intros H w. specialize (H w). unfold core, acc in *. congruence. Qed.
Definition shift (base : Z -> Z) (st d : Z) : Z -> Z := fun x => if st =? x then base x + d else base x.
Lemma acct_ext base base' w : (forall x, base x = base' x) -> Acct base w -> Acct base' w.
Proof. intros H [A B C]. split; [done..|]. intros st h Hs. rewrite <- H. by apply C. Qed.
Lemma shift_back base st d x : shift (shift base st d) st (- d) x = base x.
Proof. unfold shift. destruct (st =? x); lia. Qed.

Lemma release_acct base st w : Acct base w -> Acct (shift base st (-1)) (snd (on_hstate st Inner.releaseInner w)).
Proof.
  intros [A B C]. unfold on_hstate, modW. cbn. destruct (hstates w !! st) as [h|] eqn:E.
  - split; [done..|]. intros x h'. cbn. unfold shift. destruct (decide (st = x)) as [<-|Hne].
    + rewrite lookup_insert_eq. intros [= <-]. cbn. rewrite (C _ _ E), Z.eqb_refl. lia.
    + rewrite lookup_insert_ne by done. intros Hx. rewrite (proj2 (Z.eqb_neq _ _) Hne). by apply C.
  - split; [done..|]. intros x h' Hx. unfold shift. destruct (st =? x) eqn:Ex; [b2p; congruence|by apply C].
Qed.
Lemma destroy_acct base id r w : wires w !! id = Some r -> Acct base w -> Acct (shift base (w_st r) 1) (snd (destroy_wire id w)).
Proof.
  intros Hr [A B C]. unfold destroy_wire. unfold mbind_ at 1, getW. rewrite Hr. unfold mod_shared, modW. unfold mbind_ at 1. unfold mbind_ at 1. cbv beta.
  match goal with |- Acct _ (snd (?m ?w2)) => assert (keeps acc m) as Hk by (apply keeps_on_entry; done); apply (acct_acc _ w2); [apply Hk|] end.
  split; cbn [wires nextWire hstates shared set_wires set_shared s_inflight set_bytes].
  - intros i [r' Hi]. apply A. apply lookup_delete_Some in Hi as [_ ?]. by exists r'.
  - rewrite (wsum_delete _ _ _ _ Hr), B. unfold w64. apply Zminus_mod_idemp_l.
  - intros st h Hst. rewrite (wsum_delete _ _ _ _ Hr), (C _ _ Hst). unfold shift, of_handle. destruct (w_st r =? st); lia.
Qed.

Lemma keeps_flights e l : keeps acc (note_flights (W := W) e l).
Proof. induction l as [|r l IH]; cbn [note_flights]; keeps. Qed.
Lemma issue_part_acct base j p els o k w : Acct base w -> Acct base (snd (issue_part j p els o k w)).
Proof.
  intros Ha. unfold issue_part. unfold mbind_ at 1, getW. destruct (hstates w !! j_st j) as [h|] eqn:Eh; [|done].
  destruct (Inner.acquireInnerIfOpen o h) as [[f|] h'] eqn:Eq; [|done].
  assert (Inner.innerOps (Inner.files h') = Inner.innerOps (Inner.files h) + 1) as Ho.
  { unfold Inner.acquireInnerIfOpen in Eq. destruct (_ && _); [done|]. destruct (_ || _); [done|]. by injection Eq as _ <-. }
  cbv zeta. unfold mbind_ at 1, modW at 1, mbind_ at 1, mod_shared, modW at 1. set (w2 := set_shared _ _).
  unfold mbind_ at 1. pose proof (keeps_flights (j_entry j) (staged_ranges els) w2) as Hk. destruct (note_flights _ _ w2) as [[] w3]. cbn [snd] in Hk.
  unfold mbind_ at 1, modW at 1. set (r := mkWire _ _ _ _ _). set (w4 := set_wires _ _ w3). destruct Ha as [A B C].
  injection Hk as K1 K2 K3 K4. cbn in K1, K2, K3, K4.
  assert (wires w !! nextWire w = None) as Hn. { destruct (wires w !! nextWire w) eqn:E; [|done]. specialize (A (nextWire w) ltac:(by eexists)). lia. }
  assert (Acct base w4) as H4.
  { split; cbn; rewrite ?K1, ?K2, ?K4.
    - intros i. destruct (decide (i = nextWire w)) as [->|Hne]; [lia|]. rewrite lookup_insert_ne by done. intros Hi. apply A in Hi. lia.
    - rewrite wsum_insert, B by done. unfold w64. cbn. rewrite Zplus_mod_idemp_l. f_equal. lia.
    - intros st h0 Hst. rewrite wsum_insert by done. unfold of_handle at 1. cbn [w_st r]. destruct (decide (j_st j = st)) as [<-|Hne].
      + rewrite lookup_insert_eq in Hst. injection Hst as <-. rewrite Ho, (C _ _ Eh), Z.eqb_refl. lia.
      + rewrite lookup_insert_ne in Hst by done. rewrite (C _ _ Hst), (proj2 (Z.eqb_neq _ _) Hne). lia. }
  destruct k; [done|]. unfold mbind_ at 1. pose proof (destroy_acct base (nextWire w) r w4) as H5. specialize (H5 ltac:(cbn; rewrite K2; apply lookup_insert_eq) H4).
  destruct (destroy_wire (nextWire w) w4) as [[] w5]. cbn [snd] in H5. unfold mbind_ at 1. apply (release_acct _ (j_st j)) in H5. destruct (on_hstate _ _ w5) as [[] w6]. cbn [snd] in H5.
  match goal with |- Acct _ (snd (?m w6)) => assert (keeps acc m) as Hk; [keeps|apply (acct_acc _ w6); [apply Hk|]] end.
  eapply acct_ext, H5. intros x. apply (shift_back base (j_st j) 1).
Qed.

(** *** The operations, one after another *)
Definition holds {A} (base : Z -> Z) (m : M (@World W) A) : Prop := forall w, Acct base w -> Acct base (snd (m w)).
Lemma keeps_holds {A} base (m : M World A) : keeps acc m -> holds base m.
Proof. intros H w. apply acct_acc, H. Qed.
Lemma holds_bind {A B} base (m : M World A) (k : A -> M World B) : holds base m -> (forall a, holds base (k a)) -> holds base (mbind_ m k).
Proof. intros Hm Hk w Hw. unfold mbind_. specialize (Hm w Hw). destruct (m w) as [a w']. by apply Hk. Qed.

Lemma issue_parts_acct base j p origin fuel : forall k els a b, holds base (issue_parts fuel j p origin k els a b).
Proof.
  induction fuel as [|fuel IH]; intros k els a b; cbn [issue_parts]; [destruct els; by apply keeps_holds|]. destruct els; [by apply keeps_holds|].
  apply holds_bind; [intros w; apply issue_part_acct|]. intros [[x y]|]; [apply IH|by apply keeps_holds].
Qed.
Lemma issue_acct base j p t cand origin : holds base (issue pcfg j p t cand origin).
Proof.
  unfold issue. apply holds_bind; [by apply keeps_holds|]. intros w0. destruct (entries w0 !! j_entry j); [|by apply keeps_holds].
  destruct (elems_for _ _ _ _) as [els|]; [|by apply keeps_holds]. apply holds_bind; [apply issue_parts_acct|]. intros [sent wire]. apply keeps_holds. keeps.
Qed.
Lemma predict_acct base j p h t origin : holds base (predictAndIssue pcfg j p h t origin).
Proof.
  unfold predictAndIssue. apply holds_bind; [by apply keeps_holds|]. intros w0. apply holds_bind; [by apply keeps_holds|]. intros _. destruct (_ || _); [by apply keeps_holds|apply issue_acct].
Qed.
Lemma settle_acct base j p h h' t origin : holds base (settle pcfg j p h h' t origin).
Proof.
  unfold settle. apply holds_bind; [apply keeps_holds; auto with keeps|]. intros _. apply holds_bind; [by apply keeps_holds|]. intros _.
  apply holds_bind; [by apply keeps_holds|]. intros w0. destruct (_ && _); [|apply predict_acct]. apply keeps_holds. unfold switchOff. keeps.
Qed.
Lemma follow_acct base j p h t origin : holds base (follow pcfg j p h t origin).
Proof.
  unfold follow. destruct (fill_baskets t (j_chunks j)) as [gs n]. case_bool_decide; [by apply keeps_holds|].
  destruct (advance t h _) as [h' per]. fold (settle (W := W) pcfg j p h h' t origin).
  apply holds_bind; [apply keeps_holds, core_acc, keeps_modW; intros w; apply core_shared, note_shares_same|]. intros _. apply holds_bind; [by apply keeps_holds|]. intros w0.
  apply holds_bind; [apply keeps_holds; keeps|]. intros _. apply settle_acct.
Qed.
Lemma job_acct base dead origin j : holds base (run_job clockS clockUs cfg pcfg addr key_of dead origin j).
Proof.
  unfold run_job. destruct (j_close j); [apply keeps_holds, core_acc, keeps_handleClose|]. unfold handleFill. apply holds_bind; [by apply keeps_holds|]. intros w0.
  destruct (_ || _); [by apply keeps_holds|]. destruct (_ <=? 0); [by apply keeps_holds|]. apply holds_bind; [apply keeps_holds, core_acc, keeps_handle|]. intros p.
  apply holds_bind; [by apply keeps_holds|]. intros w1. destruct (phs w1 !! p) as [h|]; [|by apply keeps_holds]. destruct (closed h); [by apply keeps_holds|]. cbv zeta.
  apply holds_bind; [by apply keeps_holds|]. intros _. apply holds_bind; [apply keeps_holds, core_acc, keeps_table_of|]. intros [[h' t]|]; [apply follow_acct|by apply keeps_holds].
Qed.

(** *** An answer *)
Lemma keeps_pieces w_h e off buf l : forall late dropped, keeps acc (stage_pieces (W := W) cfg w_h e off buf l late dropped).
Proof. induction l as [|r l IH]; intros late dropped; cbn [stage_pieces]; keeps. Qed.
Lemma keeps_elems w_h e els : forall bufs late dropped, keeps acc (stage_elems (W := W) cfg w_h e els bufs late dropped).
Proof. pose proof keeps_pieces. induction els as [|el els IH]; intros bufs late dropped; cbn [stage_elems]; keeps. Qed.
Lemma response_acct base id answer : holds base (HandleResponse cfg id answer).
Proof.
  intros w Ha. unfold HandleResponse. unfold mbind_ at 1, getW. destruct (wires w !! id) as [r|] eqn:Er; [|done].
  unfold mbind_ at 1. pose proof (release_acct base (w_st r) w Ha) as H1.
  assert (wires (snd (on_hstate (w_st r) Inner.releaseInner w)) = wires w) as E1 by (unfold on_hstate; cbn; by destruct (hstates w !! w_st r)).
  destruct (on_hstate _ _ w) as [[] w1]. cbn [snd] in *.
  assert (forall A (m : M World A), keeps acc m -> Acct base (snd (mbind_ m (fun _ => destroy_wire id) w1))) as Hend.
  { intros A m Hm. unfold mbind_. specialize (Hm w1). destruct (m w1) as [a w2]. cbn [snd] in Hm. assert (wires w2 = wires w) as E2 by (injection Hm as _ E _ _; congruence).
    apply (acct_ext (shift (shift base (w_st r) (-1)) (w_st r) 1)); [intros x; apply (shift_back base (w_st r) (-1))|].
    apply (destroy_acct _ id r); [by rewrite E2|by apply (acct_acc _ w1)]. }
  destruct answer as [bufs|]; [|apply Hend; keeps].
  match goal with |- Acct base (snd (?m w1)) => assert (exists A (m' : M World A), keeps acc m' /\ snd (m w1) = snd (mbind_ m' (fun _ => destroy_wire id) w1)) as (A & m' & Hk & ->); [|by apply Hend] end.
  exists unit, (do ld <- stage_elems cfg (w_h r) (w_entry r) (w_elems r) bufs 0 0;
    let '(late, dropped) := ld in
    do_ count (w_st r) originBytes (wire_bytes (w_elems r));
    do_ count (w_st r) originReadvs 1;
    do_ when (negb (late =? 0)) (count (w_st r) prefetchLateBytes late);
    when (negb (dropped =? 0)) (on_entry (w_entry r) tt (Entry.noteSpeculativeDropped dropped))).
  split; [pose proof keeps_elems; keeps|]. unfold mbind_. destruct (stage_elems _ _ _ _ _ _ _ w1) as [[late dropped] w2].
  repeat (match goal with |- context [match ?x with (_, _) => _ end] => destruct x end). done.
Qed.

(** *** A run: jobs and answers in any order *)
Inductive Step := Job_ (dead : Z -> bool) (origin : nat -> bool * bool) (j : Job) | Answer_ (id : Z) (answer : option (list bytes)).
Definition do_step (s : Step) : M (@World W) unit :=
  match s with
  | Job_ dead origin j => run_job clockS clockUs cfg pcfg addr key_of dead origin j
  | Answer_ id answer => HandleResponse cfg id answer
  end.
Definition do_steps (l : list Step) (w : @World W) : @World W := foldl (fun w s => snd (do_step s w)) w l.
Definition ops_of (w : @World W) (st : Z) : Z := match hstates w !! st with Some h => Inner.innerOps (Inner.files h) | None => 0 end.

(** C33: After any jobs and answers, whatever the origin and the readers do, the bytes counted in flight are those of
    the requests on the wire, and a handle is held open at the origin once for each of its requests and not once
    more; so when nothing is on the wire no bytes are in flight and every handle is free to close as before. *)
Theorem wire_accounts l (w : @World W) :
  wires w = ∅ -> s_inflight (shared w) = 0 ->
  let w' := do_steps l w in
  s_inflight (shared w') = w64 (wsum w_bytes (wires w')) /\
  (forall st h, hstates w' !! st = Some h -> Inner.innerOps (Inner.files h) = ops_of w st + wsum (of_handle st) (wires w')) /\
  (wires w' = ∅ -> s_inflight (shared w') = 0 /\ forall st h, hstates w' !! st = Some h -> Inner.innerOps (Inner.files h) = ops_of w st).
Proof.
  intros H1 H2 w'. assert (Acct (ops_of w) w) as H0.
  { split; rewrite ?H1; [intros id [? Hid]; by rewrite lookup_empty in Hid|done|]. intros st h Hst. unfold ops_of, wsum. rewrite Hst, map_fold_empty. lia. }
  assert (Acct (ops_of w) w') as [_ B C].
  { unfold w', do_steps. clear w' H1 H2. revert H0. generalize (ops_of w). intros base. revert w. induction l as [|s l IH]; intros w Hw; cbn [foldl]; [done|]. apply IH.
    destruct s; [by apply job_acct|by apply response_acct]. }
  split; [done|]. split; [done|]. intros E. rewrite E in *. split; [done|]. intros st h Hst. rewrite (C _ _ Hst). unfold wsum. rewrite map_fold_empty. lia.
Qed.
End account.

(** ** An example: a trusted process, a reader's first fill, and its answer *)
Definition demo_key (i : Z) : bytes := [107].
Definition demo_shared : Shared := mkShared true false 0 0 ∅ [([107], PrefetchWire.demo_table)] [].
Definition demo_world : @World memw :=
  mkWorld {[1 := EntryInv.e4]} (EntryRead.demo_world []) {[7 := Inner.created true [] false]} ∅ demo_shared ∅ 0 ∅ 0 ∅ 0 (fun _ => 0) false.
Definition demo_clock (n : nat) : Z := 0.
Definition demo_fill : Step := Job_ (fun _ => false) (fun _ => (true, true)) (mkJob 7 1 [(3000, 1500)] false None).
Definition demo_answer : Step := Answer_ 0 (Some [zeros 1808]).
Definition demo_steps (l : list Step) : @World memw :=
  do_steps (CD := stored) demo_clock demo_clock EntryInv.demo_cfg PrefetchWire.demo_cfg (fun st => st) demo_key l demo_world.

Lemma wire_accounts_witness :
  s_inflight (shared (demo_steps [demo_fill])) = 1808 /\ s_inflight (shared (demo_steps [demo_fill; demo_answer])) = 0 /\
  s_inflight (shared (demo_steps [demo_fill])) = w64 (wsum w_bytes (wires (demo_steps [demo_fill]))).
Proof.
  split; [vm_compute; reflexivity|]. split; [vm_compute; reflexivity|].
  exact (proj1 (wire_accounts (CD := stored) demo_clock demo_clock EntryInv.demo_cfg PrefetchWire.demo_cfg (fun st => st) demo_key [demo_fill] demo_world eq_refl eq_refl)).
Defined.

(** A second handle's first fill stays unseen while the process is not trusted. *)
Definition demo_shy : @World memw := set_shared (set_switches demo_shared false false) demo_world.
Lemma silent_until_proven_witness :
  let w' := snd (run_job (CD := stored) demo_clock demo_clock EntryInv.demo_cfg PrefetchWire.demo_cfg (fun st => st) demo_key
    (fun _ => false) (fun _ => (true, true)) (mkJob 7 1 [(3000, 1500)] false None) demo_shy) in
  confirmed (shared w') = false /\ core w' = core demo_shy.
Proof.
  intros w'. assert (confirmed (shared w') = false) as H by (vm_compute; reflexivity). split; [exact H|].
  exact (proj1 (silent_until_proven (CD := stored) demo_clock demo_clock EntryInv.demo_cfg PrefetchWire.demo_cfg (fun st => st) demo_key
    (fun _ => false) (fun _ => (true, true)) (mkJob 7 1 [(3000, 1500)] false None) demo_shy) (or_intror (or_intror (or_intror H)))).
Defined.
End PrefetchGate.
