(* ===== verification/ColdRun.v ===== *)
(** * The slot run of a file (src/plugin/ColdRun.h, ColdRun.cc)

    A file shown in its slot layout: the layout as the store keeps it, the state of every slot, the records that wait
    to be committed, what a commit releases, and how a request is cut along the layout. *)

From stdpp Require Import sorting gmap.
From S2P Require Import Prelude IOBackend Crc32c Config MetaFile UrlKey FileEntry WireRead RootFile TreeMeta FillLayout RNTupleMeta RNTupleRewrite Xxh3 SlotStore.
Local Open Scope u64_scope.

Module Cold.
Import Root TreeData Fill.

Definition kSlotFactor100 : Z := 300.
Definition kLayoutVersion : Z := 3.

(** ** The stored layout *)
Record Page := mkPage { pg_nbytes : Z; pg_hasChecksum : bool }.
(** The members of a [ColdFill] that the store keeps. *)
Record Stored := mkStored { rnt : bool; L : FillLayout; pages : list Page; metaOrigin : list (Z * Z) }.

(** *** The hash of a layout *)
Definition put64 (v : Z) : bytes := le_bytes 8 (w64 v).
Definition layout_bytes (l : FillLayout) (r : bool) : bytes :=
  put64 (if r then 1 else 0) ++ put64 (originSize l) ++ put64 (virtualSize l) ++ put64 (metaSeek l) ++ put64 (slotsBegin l) ++
  put64 (zlen (windows l)) ++ concat ((fun w => put64 (fst w) ++ put64 (zlen (snd w)) ++ snd w) <$> windows l) ++
  put64 (zlen (metaRecord l)) ++ metaRecord l ++ put64 (zlen (slots l)) ++
  concat ((fun s => put64 (origSeek s) ++ put64 (vSeek s) ++ put64 (Z.lor (w64 (Z.shiftl (origLen s) 32)) (vLen s))) <$> slots l).
Definition layoutHash (l : FillLayout) (r : bool) : Z := Xxh.xxh3_64 (layout_bytes l r).

(** *** Codec lists *)
Definition comma : Z := 44.
Definition joinCodecs (v : list bytes) : bytes := foldl (fun s c => s ++ (if bytes_eqb s [] then [] else [comma]) ++ c) [] v.
Fixpoint split_from (s cur : bytes) (v : list bytes) : list bytes :=
  match s with
  | [] => v
  | c :: s' => if c =? comma then split_from s' [] (if bytes_eqb cur [] then v else v ++ [cur]) else split_from s' (cur ++ [c]) v
  end.
Definition splitCodecs (s : bytes) : list bytes := split_from (s ++ [comma]) [] [].

(** *** The writer *)
Fixpoint put_varint (fuel : nat) (v : Z) : bytes :=
  match fuel with
  | O => []
  | S fuel' => if 128 <=? v then Z.land (Z.lor v 128) 255 :: put_varint fuel' (Z.shiftr v 7) else [Z.land v 255]
  end.
Definition varint_of (v : Z) : bytes := put_varint 10 v.
Definition svarint_of (v : Z) : bytes := varint_of (Z.lxor (w64 (Z.shiftl v 1)) (w64 (Z.shiftr v 63))).
Definition bytes_of (v : bytes) : bytes := le_bytes 8 (zlen v) ++ v.
Definition plainSlotLen (origLen k100 : Z) : Z :=
  let v := origLen * k100 / 100 in if INT32_MAX <? v then INT32_MAX else v.

Definition kLayoutMagic : bytes := bs "UCLAYT02".
(** What the slot before implies: the end of its original, where it ends in the layout, its branch and basket. *)
Record Prev := mkPrev { p_orig : Z; p_next : Z; p_branch : Z; p_basket : Z }.
Definition after (s : FillSlot) : Prev := mkPrev (origSeek s) (vSeek s +% vLen s) (s_branch s) (s_basket s).
Definition first_prev (l : FillLayout) : Prev := mkPrev 0 (slotsBegin l) 0 0.
Definition slot_bytes (r : bool) (k100 : Z) (p : Prev) (s : FillSlot) : bytes :=
  svarint_of (s_branch s - p_branch p) ++ svarint_of (s_basket s - p_basket p - 1) ++ svarint_of (signed 8 (origSeek s -% p_orig p)) ++
  varint_of (origLen s) ++ varint_of (if negb r && (vLen s =? plainSlotLen (origLen s) k100) then 0 else vLen s +% 1) ++
  svarint_of (signed 8 (vSeek s -% p_next p)).
Fixpoint slots_bytes (r : bool) (k100 : Z) (p : Prev) (l : list FillSlot) : bytes :=
  match l with [] => [] | s :: l' => slot_bytes r k100 p s ++ slots_bytes r k100 (after s) l' end.
Definition page_bytes (p : Page) : bytes := le_bytes 4 (pg_nbytes p) ++ [if pg_hasChecksum p then 1 else 0].
Definition raw_layout (k100 : Z) (cf : Stored) : bytes :=
  let l := L cf in
  kLayoutMagic ++ [if rnt cf then 1 else 0] ++ le_bytes 8 (originSize l) ++ le_bytes 8 (virtualSize l) ++ le_bytes 8 (metaSeek l) ++
  le_bytes 8 (slotsBegin l) ++ le_bytes 4 (w32 (zlen (windows l))) ++ concat ((fun w => le_bytes 8 (fst w) ++ bytes_of (snd w)) <$> windows l) ++
  bytes_of (metaRecord l) ++ le_bytes 4 (w32 (zlen (metaOrigin cf))) ++ concat ((fun r => le_bytes 8 (fst r) ++ le_bytes 8 (snd r)) <$> metaOrigin cf) ++
  le_bytes 4 (w32 (zlen (relocated l))) ++ concat ((fun r => le_bytes 4 r) <$> relocated l) ++
  le_bytes 4 (w32 (zlen (slots l))) ++ slots_bytes (rnt cf) k100 (first_prev l) (slots l) ++
  (if rnt cf then concat (page_bytes <$> pages cf) else []).

(** *** The reader *)
Record RS := mkR { r_at : Z; r_ok : bool }.
Section reader.
Context (b : bytes).
Definition no (r : RS) : RS := mkR (r_at r) false.
Definition get (k : nat) : M RS Z := fun r =>
  if zlen b <? r_at r +% Z.of_nat k then (0, no r) else (getLE k b (r_at r), mkR (r_at r +% Z.of_nat k) (r_ok r)).
Definition get_bytes : M RS bytes :=
  do len <- get 8;
  fun r => if negb (r_ok r) || (zlen b -% r_at r <? len) then ([], no r) else (zsub b (r_at r) len, mkR (r_at r +% len) (r_ok r)).
Fixpoint varint_from (n : nat) (shift v : Z) : M RS Z :=
  match n with
  | O => fun r => (0, no r)
  | S n' => fun r =>
      if zlen b <=? r_at r then (0, no r)
      else
        let c := zget b (r_at r) in
        let v := Z.lor v (w64 (Z.shiftl (Z.land c 127) shift)) in
        let r := mkR (r_at r +% 1) (r_ok r) in
        if Z.land c 128 =? 0 then (v, r) else varint_from n' (shift + 7) v r
  end.
Definition varint : M RS Z := varint_from 10 0 0.
Definition svarint : M RS Z := do u <- varint; ret (Z.lxor (Z.shiftr u 1) (- Z.land u 1)).
(** [for (i = 0; r.ok && i < n; ++i)]. *)
Fixpoint times {A S : Type} (n : nat) (s : S) (step : S -> M RS (A * S)) : M RS (list A) :=
  match n with
  | O => ret []
  | S n' => fun r => if r_ok r then (do xs <- step s; do l <- times n' (snd xs) step; ret (fst xs :: l)) r else ([], r)
  end.
Definition get_window (_ : unit) : M RS (Z * bytes * unit) := do off <- get 8; do v <- get_bytes; ret (off, v, tt).
Definition get_pair (_ : unit) : M RS (Z * Z * unit) := do o <- get 8; do n <- get 8; ret (o, n, tt).
Definition get_relocated (_ : unit) : M RS (Z * unit) := do r <- get 4; ret (r, tt).
Definition get_page (_ : unit) : M RS (Page * unit) := do n <- get 4; do c <- get 1; ret (mkPage n (negb (c =? 0)), tt).
Definition get_slot (k100 : Z) (p : Prev) : M RS (FillSlot * Prev) :=
  do db <- svarint; do dk <- svarint; do ds <- svarint; do ol <- varint; do vl <- varint; do dv <- svarint;
  let origLen := w32 ol in
  let vLen := if vl =? 0 then plainSlotLen origLen k100 else w32 (vl - 1) in
  let s := mkSlot (p_orig p +% w64 ds) origLen (p_next p +% w64 dv) vLen (w32 (p_branch p + db)) (w32 (w32 (p_basket p + 1) + dk)) in
  ret (s, after s).
End reader.

(** *** The checks *)
Fixpoint slots_ok (r : bool) (l : FillLayout) (prev : Z) (ss : list FillSlot) : bool :=
  match ss with
  | [] => true
  | s :: ss' =>
      if (vSeek s <? prev) || (virtualSize l <? vSeek s +% vLen s) || (negb r && (vLen s <? origLen s)) || (originSize l <? origSeek s +% origLen s) then false
      else slots_ok r l (vSeek s +% vLen s) ss'
  end.
Definition windows_ok (l : FillLayout) : bool := forallb (fun w => negb (originSize l <? fst w +% zlen (snd w))) (windows l).

(** The fields in order; [None] where the source gives up. *)
Definition parse_layout (b : bytes) (k100 : Z) : option Stored :=
  let '(head, r) := (
    do rn <- get b 1; do os <- get b 8; do vs <- get b 8; do ms <- get b 8; do sb <- get b 8; do nw <- get b 4;
    do ws <- times (Z.to_nat nw) tt (get_window b); do mr <- get_bytes b; do nm <- get b 4;
    do mo <- times (Z.to_nat nm) tt (get_pair b); do nr <- get b 4; ret (negb (rn =? 0), os, vs, ms, sb, ws, mr, mo, nr)) (mkR 8 true) in
  let '(rn, os, vs, ms, sb, ws, mr, mo, nr) := head in
  if negb (r_ok r) || (zlen b <? nr) then None
  else
    let '((rl, ns), r) := (do rl <- times (Z.to_nat nr) tt (get_relocated b); do ns <- get b 4; ret (rl, ns)) r in
    if negb (r_ok r) || (zlen b <? ns *% 6) then None
    else
      let '((ss, pgs), r) := (
        do ss <- times (Z.to_nat ns) (mkPrev 0 sb 0 0) (get_slot b k100);
        do pgs <- (if rn then times (Z.to_nat ns) tt (get_page b) else ret []); ret (ss, pgs)) r in
      let l := mkLayout [] os vs ws ms mr sb ss rl in
      if negb (r_ok r) || negb (r_at r =? zlen b) || (vs <? sb) || (sb <? ms) then None
      else if slots_ok rn l sb ss && windows_ok l then Some (mkStored rn l pgs mo) else None.

Section codec.
Context `{CD : Codecs}.
Definition encodeLayout (k100 : Z) (cf : Stored) : bytes :=
  let b := raw_layout k100 cf in
  let z := encodeZstdFrames b 3 in
  le_bytes 8 (zlen b) ++ (if bytes_eqb z [] then b else z).
Definition decodeLayout (blob : bytes) (k100 : Z) : option Stored :=
  if zlen blob <? 8 then None
  else
    let raw := getLE 8 blob 0 in
    let b := if zlen blob - 8 =? raw then zsub blob 8 raw else decompressFrames (zsub blob 8 (zlen blob - 8)) raw in
    if negb (zlen b =? raw) || (raw <? 8) || negb (bytes_eqb (zsub b 0 8) kLayoutMagic) then None
    else parse_layout b k100.
End codec.
End Cold.

(** * The slots of a file in use

    Every method that holds [mu] is one step. Who waits is known by a number, and a call of a waiter is a triple of
    it, whether the slot is ready, and the record handed over. What the process holds for its other files is in
    the two totals; what the byte cache holds is an argument. *)
Module ColdFill.
Import Root TreeData Fill Cold.

Definition kCommitBytes : Z := Z.shiftl 8 20.
Definition kPendingCap : Z := Z.shiftl 512 20.
Definition kTransientBytes : Z := Z.shiftl 16 20.
Definition kTransientCap : Z := Z.shiftl 256 20.
Definition kKeepHead : Z := 128 * 1024.

Inductive SState := kAbsent | kFetching | kReady.
#[export] Instance SState_eq : EqDecision SState.
Proof. solve_decision. Defined.
#[export] Instance Kind_eq : EqDecision Kind.
Proof. solve_decision. Defined.
Definition entryKind (k : Kind) : Z := match k with kZstd => Slots.kZstd | kRaw => Slots.kRaw | kOriginal => Slots.kKept end.
Definition basketKind (k : Z) : Kind := if k =? Slots.kZstd then kZstd else if k =? Slots.kRaw then kRaw else kOriginal.

Record Info := mkInfo {
  i_kind : Kind; inStore : bool; persist : bool; fromCache : bool; is_transient : bool; i_e : Slots.SlotEntry; mem : option bytes }.
Definition new_info : Info := mkInfo kZstd false false false false (Slots.mkSlot 0 0 0 0 0) None.
(** A slot without an entry in [state] was never touched: [kAbsent]. *)
Record CF := mkCF {
  state : gmap Z SState; info : gmap Z Info; waiters : gmap Z (list Z); pending : list Z; pendingBytes : Z;
  transient : list Z; transientBytes : Z; storeGone : bool; handles : Z; g_pendingTotal : Z; g_transientTotal : Z }.
Definition Told : Type := Z * bool * option bytes.

Definition set_state (c : CF) (i : Z) (s : SState) : CF :=
  mkCF (<[i:=s]> (state c)) (info c) (waiters c) (pending c) (pendingBytes c) (transient c) (transientBytes c) (storeGone c) (handles c) (g_pendingTotal c) (g_transientTotal c).
Definition set_info (c : CF) (m : gmap Z Info) : CF :=
  mkCF (state c) m (waiters c) (pending c) (pendingBytes c) (transient c) (transientBytes c) (storeGone c) (handles c) (g_pendingTotal c) (g_transientTotal c).
Definition put_info (c : CF) (i : Z) (s : Info) : CF := set_info c (<[i:=s]> (info c)).
Definition set_waiters (c : CF) (m : gmap Z (list Z)) : CF :=
  mkCF (state c) (info c) m (pending c) (pendingBytes c) (transient c) (transientBytes c) (storeGone c) (handles c) (g_pendingTotal c) (g_transientTotal c).
Definition set_pending (c : CF) (l : list Z) (n g : Z) : CF :=
  mkCF (state c) (info c) (waiters c) l n (transient c) (transientBytes c) (storeGone c) (handles c) g (g_transientTotal c).
Definition set_budget (c : CF) (n g : Z) : CF :=
  mkCF (state c) (info c) (waiters c) (pending c) (pendingBytes c) (transient c) n (storeGone c) (handles c) (g_pendingTotal c) g.
Definition set_transient (c : CF) (l : list Z) : CF :=
  mkCF (state c) (info c) (waiters c) (pending c) (pendingBytes c) l (transientBytes c) (storeGone c) (handles c) (g_pendingTotal c) (g_transientTotal c).
Definition state_of (c : CF) (i : Z) : SState := default kAbsent (state c !! i).

(** ** What both sides use *)
Definition with_mem (s : Info) (t : bool) (m : option bytes) : Info := mkInfo (i_kind s) (inStore s) (persist s) (fromCache s) t (i_e s) m.
Definition with_persist (s : Info) (p : bool) : Info := mkInfo (i_kind s) (inStore s) p (fromCache s) (is_transient s) (i_e s) (mem s).
Definition releaseMemLocked (c : CF) (s : Info) : CF * Info :=
  (match mem s with
   | Some m =>
       if is_transient s then
         let b := Z.min (transientBytes c) (zlen m) in
         set_budget c (transientBytes c -% b) (g_transientTotal c -% Z.min b (g_transientTotal c))
       else c
   | None => c
   end, with_mem s false None).
(** [out] is swapped with the slot's list, and what it held goes with the slot's entry. *)
Definition takeWaitersLocked (c : CF) (i : Z) (out : list Z) : CF * list Z :=
  match waiters c !! i with Some l => (set_waiters c (delete i (waiters c)), l) | None => (c, out) end.
Definition forgetLocked (c : CF) (i : Z) : CF :=
  let c := if decide (state_of c i = kReady) then set_state c i kAbsent else c in
  match info c !! i with
  | Some s => let '(c, _) := releaseMemLocked c s in set_info c (delete i (info c))
  | None => c
  end.
Definition told (ws : list Z) (ok : bool) (rec : option bytes) : list Told := (fun w => (w, ok, rec)) <$> ws.

(** ** Requests *)
Record Where := mkWhere { w_kind : Kind; w_inStore : bool; w_e : Slots.SlotEntry; w_mem : option bytes }.
Definition where_ (c : CF) (i : Z) : option Where :=
  if decide (state_of c i = kReady) then (fun s => mkWhere (i_kind s) (inStore s) (i_e s) (mem s)) <$> info c !! i else None.
(** The two compare-and-swaps with nothing between them: claimed, found ready, or waiting. *)
Inductive Claim := Claimed | Ready | Waits.
Definition claimOrWait (c : CF) (i : Z) (cb : Z) : CF * Claim :=
  match state_of c i with
  | kAbsent => (set_state c i kFetching, Claimed)
  | kReady => (c, Ready)
  | kFetching => (set_waiters c (<[i := default [] (waiters c !! i) ++ [cb]]> (waiters c)), Waits)
  end.
Definition abandon (c : CF) (i : Z) : CF * list Told :=
  let c := if decide (state_of c i = kFetching) then set_state c i kAbsent else c in
  let '(c, ws) := takeWaitersLocked c i [] in (c, told ws false None).

Section file.
Context (L : FillLayout) (rnt : bool) (hasRange : Z -> Z -> bool).
Definition slot_at (i : Z) : FillSlot := default (mkSlot 0 0 0 0 0 0) (slots L !! Z.to_nat i).

Definition keptOriginalGone (c : CF) (i : Z) : CF * bool :=
  if rnt || negb (bool_decide (state_of c i = kReady)) then (c, false)
  else
    match info c !! i with
    | None => (c, false)
    | Some s =>
        if negb (bool_decide (i_kind s = kOriginal)) || bool_decide (is_Some (mem s)) then (c, false)
        else if hasRange (origSeek (slot_at i)) (origLen (slot_at i)) then (c, false)
        else (forgetLocked c i, true)
    end.

(** ** Entries committed by anyone *)
Definition apply_one (cw : CF * list Z) (e : Slots.SlotEntry) : CF * list Z :=
  let '(c, wake) := cw in
  let i := Slots.slot e in
  if zlen (slots L) <=? i then (c, wake)
  else
    let s := default new_info (info c !! i) in
    let s := mkInfo (basketKind (Slots.kind e)) true (persist s) (fromCache s) (is_transient s) e (mem s) in
    let '(c, s) := releaseMemLocked c s in
    let c := put_info c i (with_persist s false) in
    if decide (state_of c i = kReady) then (c, wake) else takeWaitersLocked (set_state c i kReady) i wake.
Definition apply (c : CF) (es : list Slots.SlotEntry) : CF * list Told :=
  let '(c, wake) := foldl apply_one (c, []) es in (c, told wake true None).

(** ** A converted record *)
Definition over (c : CF) (b : Z) : bool := (kTransientBytes <? transientBytes c +% b) || (kTransientCap <? g_transientTotal c +% b).
(** Oldest first, never [i]; the records dropped are counted. *)
Fixpoint make_room (i b : Z) (dq : list Z) (c : CF) (lost : Z) : list Z * CF * Z :=
  match dq with
  | [] => ([], c, lost)
  | j :: dq' =>
      if negb (over c b) then (dq, c, lost)
      else if j =? i then make_room i b dq' c lost
      else
        match info c !! j with
        | Some s => if is_transient s && negb (inStore s) then make_room i b dq' (forgetLocked c j) (lost + 1) else make_room i b dq' c lost
        | None => make_room i b dq' c lost
        end
  end.
(** A record to keep if there is room: what is known of the slot, whether the record is kept, how many were lost, whether
    a commit is due. *)
Definition stage_kept (c : CF) (i : Z) (s : Info) (k : Kind) (rec : bytes) (cached : bool) : CF * Info * bool * Z * bool :=
  let fs := slot_at i in
  let inCache := negb rnt && bool_decide (k = kOriginal) && hasRange (origSeek fs) (origLen fs) in
  let b := if inCache then 0 else zlen rec in
  let p := negb (storeGone c) && (g_pendingTotal c +% b <=? kPendingCap) in
  let s := mkInfo k (inStore s) p cached (is_transient s) (i_e s) (mem s) in
  if p then
    let c := set_pending c (pending c ++ [i]) (pendingBytes c +% b) (g_pendingTotal c +% b) in
    (c, with_mem s (is_transient s) (if inCache then None else Some rec), true, 0, (kCommitBytes <=? pendingBytes c) || (handles c =? 0))
  else if inCache then (c, s, true, 0, false)
  else
    let '(dq, c, lost) := make_room i b (transient c) c 0 in
    let c := set_transient c dq in
    let kick := negb (storeGone c) in
    if over c b then (c, s, false, lost + 1, kick)
    else (set_budget (set_transient c (dq ++ [i])) (transientBytes c +% b) (g_transientTotal c +% b), with_mem s true (Some rec), true, lost, kick).
Definition stage (c : CF) (i : Z) (k : Kind) (rec : bytes) (cached keepIt : bool) : CF * list Told * Z * bool :=
  let s := default new_info (info c !! i) in
  let '(c, s, keep, lost, kick) :=
    if inStore s then (put_info c i s, s, true, 0, false)
    else
      let '(c, s) := releaseMemLocked c s in
      if keepIt then stage_kept (put_info c i s) i s k rec cached else (put_info c i s, s, false, 0, false) in
  let '(c, ws) := takeWaitersLocked c i [] in
  let c := if keep then set_state (put_info c i s) i kReady else set_state (set_info c (delete i (info c))) i kAbsent in
  (c, told ws true (Some rec), lost, kick).

(** ** A commit *)
(** What waits: every record once, in order. *)
Definition collect_one (cr : CF * list Slots.SlotRecord) (i : Z) : CF * list Slots.SlotRecord :=
  let '(c, recs) := cr in
  match info c !! i with
  | None => (c, recs)
  | Some s =>
      if inStore s then let '(c, s) := releaseMemLocked c (with_persist s false) in (put_info c i s, recs)
      else if negb (persist s) || negb (bool_decide (state_of c i = kReady)) || (negb (bool_decide (is_Some (mem s))) && negb (bool_decide (i_kind s = kOriginal)))
      then (c, recs)
      else
        let k := entryKind (i_kind s) in
        (put_info c i (with_persist s false), recs ++ [Slots.mkRec i k (if k =? Slots.kKept then [] else default [] (mem s))])
  end.
Definition collect_transient (cr : CF * list Slots.SlotRecord) (j : Z) : CF * list Slots.SlotRecord :=
  let '(c, recs) := cr in
  match info c !! j with
  | None => (c, recs)
  | Some s =>
      match mem s with
      | Some m =>
          if negb (is_transient s) || inStore s then (c, recs)
          else
            let '(c, s') := releaseMemLocked c s in
            (put_info c j (with_mem s' false (Some m)), recs ++ [Slots.mkRec j (entryKind (i_kind s)) m])
      | None => (c, recs)
      end
  end.
Definition collect (c : CF) : CF * list Slots.SlotRecord :=
  let '(c, recs) := foldl collect_one (c, []) (pending c) in
  let c := set_pending c [] 0 (g_pendingTotal c -% pendingBytes c) in
  if storeGone c then (c, recs)
  else let '(c, recs) := foldl collect_transient (c, recs) (transient c) in (set_transient c [], recs).
Definition releaseCollected (c : CF) (recs : list Slots.SlotRecord) : CF :=
  foldl (fun c r => match info c !! Slots.rslot r with
                    | Some s => if negb (inStore s) && negb (persist s) then forgetLocked c (Slots.rslot r) else c
                    | None => c end) c recs.

(** What the store committed: the ranges of originals it replaces, and the entries of slots forgotten meanwhile. *)
Definition land_one (keepOriginals : bool) (x : CF * list (Z * Z) * list Slots.SlotEntry) (e : Slots.SlotEntry) : CF * list (Z * Z) * list Slots.SlotEntry :=
  let '(c, punch, forgotten) := x in
  let i := Slots.slot e in
  match info c !! i with
  | None => (c, punch, forgotten ++ [e])
  | Some s =>
      let punch := if fromCache s && negb keepOriginals && negb (Slots.kind e =? Slots.kKept)
                   then punch ++ [(origSeek (slot_at i), origSeek (slot_at i) +% origLen (slot_at i))] else punch in
      let '(c, s) := releaseMemLocked c (mkInfo (basketKind (Slots.kind e)) true false false (is_transient s) e (mem s)) in
      (put_info c i s, punch, forgotten)
  end.
Definition skip_one (c : CF) (r : Slots.SlotRecord) : CF :=
  match info c !! Slots.rslot r with
  | Some s => if inStore s then let '(c, s) := releaseMemLocked c (with_persist s false) in put_info c (Slots.rslot r) s else c
  | None => c
  end.
Definition land (keepOriginals : bool) (c : CF) (committed : list Slots.SlotEntry) (recs : list Slots.SlotRecord) : CF * list (Z * Z) * list Told :=
  let '(c, punch, forgotten) := foldl (land_one keepOriginals) (c, [], []) committed in
  let c := foldl skip_one c recs in
  let '(c, ts) := if decide (forgotten = []) then (c, []) else apply c forgotten in (c, punch, ts).

(** ** What a commit frees of the byte cache *)
Definition seek_le (x y : Z) : Prop := origSeek (slot_at x) <= origSeek (slot_at y).
#[local] Instance seek_le_dec x y : Decision (seek_le x y) := decide (_ <= _).
Definition origOrder : list Z := merge_sort seek_le (zrange 0 (zlen (slots L))).
Definition slot_end (i : Z) : Z := origSeek (slot_at i) +% origLen (slot_at i).
(** [std::lower_bound] on a list in which the slots that end before [v] come first. *)
Fixpoint from_end (v : Z) (l : list Z) : list Z :=
  match l with k :: l' => if slot_end k <=? v then from_end v l' else l | [] => [] end.
Definition released (c : CF) (i : Z) : bool :=
  match info c !! i with Some s => inStore s && negb (bool_decide (i_kind s = kOriginal)) | None => false end.
Fixpoint cover (c : CF) (b covered : Z) (l : list Z) : bool :=
  match l with
  | [] => b <=? covered
  | k :: l' =>
      if b <=? covered then true
      else if covered <? origSeek (slot_at k) then false
      else if negb (released c k) then false
      else cover c b (Z.max covered (slot_end k)) l'
  end.
Definition pageDeadLocked (c : CF) (pg ps : Z) : bool :=
  let a := pg *% ps in
  let b := Z.min (a +% ps) (originSize L) in
  if (a <? kKeepHead) || (b <=? a) then false else cover c b a (from_end a origOrder).

Definition range_le (x y : Z * Z) : Prop := fst x < fst y \/ (fst x = fst y /\ snd x <= snd y).
#[local] Instance range_le_dec x y : Decision (range_le x y) := decide (_ \/ _).
(** Sorted, and joined where they touch; the last joined first. *)
Definition join_one (runs : list (Z * Z)) (r : Z * Z) : list (Z * Z) :=
  match runs with
  | (a, b) :: runs' => if fst r <=? b then (a, Z.max b (snd r)) :: runs' else r :: runs
  | [] => [r]
  end.
Definition join_runs (l : list (Z * Z)) : list (Z * Z) := rev (foldl join_one [] (merge_sort range_le l)).
(** A run grown to the page edges the dead pages allow. *)
Definition grow (c : CF) (ps : Z) (r : Z * Z) : Z * Z :=
  let '(a, b) := r in
  (if negb (a mod ps =? 0) && pageDeadLocked c (a / ps) ps then a -% a mod ps else a,
   if negb (b mod ps =? 0) && (b <? originSize L) && pageDeadLocked c (b / ps) ps then Z.min (b +% (ps -% b mod ps)) (originSize L) else b).
Definition past_head (r : Z * Z) : option (Z * Z) :=
  let a := Z.max (fst r) kKeepHead in if a <? snd r then Some (a, snd r -% a) else None.
Definition punched (c : CF) (ps : Z) (punch : list (Z * Z)) : list (Z * Z) := omap past_head (grow c ps <$> join_runs punch).

(** ** The pages worth keeping of original bytes read *)
Definition relocatedOrig : list (Z * Z) := join_runs ((fun s => (origSeek s, origSeek s +% origLen s)) <$> slots L).
(** The last range that starts at or before [p] ends at [pe] or after. *)
Definition inside (p pe : Z) : bool :=
  match last (List.filter (fun r => fst r <=? p) relocatedOrig) with Some r => pe <=? snd r | None => false end.
Fixpoint storable_from (fuel : nat) (p re ps : Z) (out : list (Z * Z)) : list (Z * Z) :=
  match fuel with
  | O => out
  | S fuel' =>
      if p <? re then
        let pe := Z.min re (p +% ps) in
        let out :=
          if (kKeepHead <=? p) && inside p pe then out
          else match out with (a, b) :: out' => if b =? p then (a, pe) :: out' else (p, pe) :: out | [] => [(p, pe)] end in
        storable_from fuel' (p +% ps) re ps out
      else out
  end.
Definition storableRuns (rs re ps : Z) : list (Z * Z) := rev (storable_from (Z.to_nat ((re - rs) / ps + 1)) rs re ps []).

(** ** A commit, whole *)
(** One thread runs it at a time; [room] says whether the records fit above the free-space floor, after an eviction if one was due. The result: what
    the process knows, the ranges to punch, and who was told. *)
Definition set_gone (c : CF) : CF :=
  mkCF (state c) (info c) (waiters c) (pending c) (pendingBytes c) (transient c) (transientBytes c) true (handles c) (g_pendingTotal c) (g_transientTotal c).
Section commit.
Context {W : Type} `{!IOBackend W} `{CK : Checksum}.
Definition onOthers (x : CF * list Told) (es : list Slots.SlotEntry) : CF * list Told :=
  let '(c, ts) := apply (fst x) es in (c, snd x ++ ts).
Definition taken (x : CF * list Told) (i : Z) : bool := match info (fst x) !! i with Some s => inStore s | None => false end.
Definition commit (keepOriginals hasStore room fsync : bool) (ps : Z) (c : CF) : M Slots.St (option (CF * list (Z * Z) * list Told)) :=
  let '(c, recs) := collect c in
  match recs with
  | [] => ret (Some (c, [], []))
  | _ =>
      if negb hasStore || storeGone c || negb room then ret (Some (releaseCollected c recs, [], []))
      else
        do r <- Slots.commit onOthers taken recs fsync (c, []);
        match r with
        | None => ret None
        | Some (n, committed, (c, ts)) =>
            if n =? - ESTALE then ret (Some (releaseCollected (set_gone c) recs, [], ts))
            else if n <? 0 then ret (Some (releaseCollected c recs, [], ts))
            else
              let '(c, punch, ts') := land keepOriginals c committed recs in
              ret (Some (c, punched c ps punch, ts ++ ts'))
        end
  end.
End commit.
End file.
End ColdFill.

(** * A request on a file in slots

    A chunk is cut along the layout: bytes known now, original bytes to be had from the origin, pieces of slots. [cachedRead] is what
    the byte cache gives for a range it holds. *)
Module ColdServe.
Import Root TreeData Fill Cold ColdFill.

Inductive Src := SBytes (b : bytes) | SOrig (off len : Z) | SSlot (slot from len : Z).
Record Piece := mkPiece { p_dest : Z; p_src : Src }.

Section file.
Context (L : FillLayout) (rnt : bool) (hasRange : Z -> Z -> bool) (cachedRead : Z -> Z -> option bytes).

(** A window that covers [pos], or where the next one starts. *)
Fixpoint find_window (ws : list (Z * bytes)) (pos next : Z) : (Z * bytes) + Z :=
  match ws with
  | [] => inr next
  | w :: ws' =>
      if (fst w <=? pos) && (pos <? fst w +% zlen (snd w)) then inl w
      else find_window ws' pos (if pos <? fst w then Z.min next (fst w) else next)
  end.
Definition metaEnd : Z := metaSeek L +% zlen (metaRecord L).
(** [std::upper_bound] by the slots' places, less one. *)
Fixpoint upper (v : Z) (l : list FillSlot) : Z := match l with [] => 0 | s :: l' => if v <? vSeek s then 0 else 1 + upper v l' end.
Definition slot_of (pos : Z) : Z := w32 (upper pos (slots L) - 1).
(** What the bytes at [pos] are, up to [end_] at most, and how many. *)
Definition cut_at (pos end_ : Z) : Src * Z :=
  if pos <? originSize L then
    let segEnd := Z.min end_ (originSize L) in
    match find_window (windows L) pos segEnd with
    | inl w => let n := Z.min segEnd (fst w +% zlen (snd w)) -% pos in (SBytes (zsub (snd w) (pos -% fst w) n), n)
    | inr next =>
        let n := next -% pos in
        (match (if hasRange pos n then cachedRead pos n else None) with Some b => SBytes b | None => SOrig pos n end, n)
    end
  else if pos <? metaSeek L then let n := Z.min end_ (metaSeek L) -% pos in (SBytes (zeros n), n)
  else if pos <? metaEnd then let n := Z.min end_ metaEnd -% pos in (SBytes (zsub (metaRecord L) (pos -% metaSeek L) n), n)
  else if pos <? slotsBegin L then let n := Z.min end_ (slotsBegin L) -% pos in (SBytes (zeros n), n)
  else
    let i := slot_of pos in
    let s := slot_at L i in
    let n := Z.min end_ (vSeek s +% vLen s) -% pos in (SSlot i (pos -% vSeek s) n, n).
(** The pieces of a chunk in order, the slots it needs fetched, and the slots after it; [None] out of fuel. *)
Fixpoint classify_from (fuel : nat) (off pos end_ : Z) (c : CF) (need : list Z) : option (list Piece * list Z * CF) :=
  if pos <? end_ then
    match fuel with
    | O => None
    | S fuel' =>
        let '(src, n) := cut_at pos end_ in
        let '(c, need) :=
          match src with
          | SSlot i _ _ =>
              if decide (state_of c i = kReady) then let '(c, gone) := keptOriginalGone L rnt hasRange c i in (c, if gone then need ++ [i] else need)
              else (c, need ++ [i])
          | _ => (c, need)
          end in
        match classify_from fuel' off (pos +% n) end_ c need with
        | Some (l, need, c) => Some (mkPiece (pos -% off) src :: l, need, c)
        | None => None
        end
    end
  else Some ([], need, c).
Definition classify_chunk (off len : Z) (c : CF) (need : list Z) : option (list Piece * list Z * CF) :=
  classify_from (Z.to_nat len) off off (off +% len) c need.

(** The part [from, from + len) of slot [i], and [None] where the slot is forgotten: [w] is what the request holds of it, [readStore] a
    record of the store that passed its check. *)
Context `{CD : Codecs}.
Definition slot_record (readStore : Slots.SlotEntry -> option bytes) (w : Where) (i : Z) : option bytes :=
  let fs := slot_at L i in
  match w_mem w with
  | Some m => Some m
  | None =>
      if bool_decide (w_kind w = kOriginal) && negb rnt then
        match (if hasRange (origSeek fs) (origLen fs) then cachedRead (origSeek fs) (origLen fs) else None) with
        | Some b => patchKeySeek b (vSeek fs)
        | None => None
        end
      else if w_inStore w then readStore (w_e w) else None
  end.
Definition copySlot (readStore : Slots.SlotEntry -> option bytes) (w : Where) (i from len : Z) : option bytes :=
  let fs := slot_at L i in
  if vLen fs <? from +% len then None
  else
    match slot_record readStore w i with
    | None => None
    | Some rec =>
        if rnt then
          let pageLen := w32 (vLen fs - NRewrite.kSlotChecksumBytes) in
          let page := if zlen rec =? pageLen then rec else decompressFrames rec pageLen in
          if negb (zlen page =? pageLen) then None
          else
            let sum := NRewrite.sealDecodedPage page in
            let n := if from <? pageLen then Z.min len (pageLen -% from) else 0 in
            Some (zsub page from n ++ map (fun p => zget sum (p -% pageLen)) (zrange (Z.max from pageLen) (from +% len)))
        else
          let n := if from <? zlen rec then Z.min len (zlen rec -% from) else 0 in
          Some (zsub rec from n ++ zeros (len - n))
    end.
End file.
End ColdServe.
