(* ===== verification/ColdLayout.v ===== *)
(** * The stored layout, written and read (src/plugin/ColdRun.cc, encodeLayout and decodeLayout)

    Module ColdLayout: what is written for a layout is read back as that layout. Module ColdView: the file a reader of the
    slot layout sees, and what a request is cut into. *)

From S2P Require Import Prelude RootFile TreeMeta FillLayout RNTupleRewrite SlotStore ColdRun.
Local Open Scope u64_scope.

Module ColdLayout.
Import Root TreeData Fill Cold.

(** [m] at the start of [w] reads all of it, and gives [a]. *)
Definition gives {A} (m : bytes -> M RS A) (w : bytes) (a : A) : Prop :=
  forall pre post, zlen (pre ++ w ++ post) < p63 -> m (pre ++ w ++ post) (mkR (zlen pre) true) = (a, mkR (zlen pre + zlen w) true).

Lemma gives_ret {A} (a : A) : gives (fun _ => ret a) [] a.
Proof. intros pre post _. cbn. by rewrite Z.add_0_r. Qed.
Lemma gives_bind {A B} (m : bytes -> M RS A) (k : bytes -> A -> M RS B) w1 w2 a c : gives m w1 a -> gives (fun b => k b a) w2 c ->
  gives (fun b => do x <- m b; k b x) (w1 ++ w2) c.
Proof.
  intros H1 H2 pre post Hl. rewrite <- app_assoc in *. unfold mbind_. rewrite (H1 pre (w2 ++ post) Hl).
  specialize (H2 (pre ++ w1) post). rewrite <- !app_assoc in H2. specialize (H2 Hl). rewrite !zlen_app in *. rewrite H2. by rewrite Z.add_assoc.
Qed.
Lemma gives_app {A} (m : bytes -> M RS A) w w' a : gives m w a -> w' = w -> gives m w' a.
Proof. by intros H ->. Qed.

Lemma zsub_here (pre w post : bytes) : zsub (pre ++ w ++ post) (zlen pre) (zlen w) = w.
Proof. rewrite zsub_app_r, Z.sub_diag by lia. by apply zsub_app. Qed.
Lemma gives_get k v : 0 <= v < p8 ^ Z.of_nat k -> Z.of_nat k < p63 -> gives (fun b => get b k) (le_bytes k v) v.
Proof.
  intros Hv Hk pre post Hl. unfold get. cbn [r_at r_ok]. pose proof (zlen_nonneg pre). pose proof (zlen_nonneg post). rewrite !zlen_app, zlen_le_bytes in *.
  rewrite (w64_small (zlen pre + _)) by lia. rewrite (proj2 (Z.ltb_ge _ _)) by lia. f_equal.
  unfold getLE. rewrite <- (zlen_le_bytes k v), zsub_here. by apply le_val_bytes.
Qed.

(** ** Variable-length integers *)
Lemma lor_shift a m k : 0 <= k -> 0 <= a < 2 ^ k -> 0 <= m -> Z.lor a (Z.shiftl m k) = a + m * 2 ^ k.
Proof.
  intros Hk Ha Hm. rewrite <- Z.shiftl_mul_pow2 by done. symmetry. apply Z.add_nocarry_lor. apply Z.bits_inj'. intros i Hi. rewrite Z.land_spec, Z.bits_0, Z.shiftl_spec by done.
  destruct (Z.lt_ge_cases i k); [rewrite (Z.testbit_neg_r m) by lia; apply andb_false_r|].
  replace (Z.testbit a i) with false; [done|]. symmetry. destruct (decide (a = 0)) as [->|]; [apply Z.bits_0|]. apply Z.bits_above_log2; [lia|].
  assert (Z.log2 a < k) by (apply Z.log2_lt_pow2; lia). lia.
Qed.
Lemma low_byte x : 0 <= x -> Z.land (Z.land (Z.lor x 128) 255) 127 = x mod 128 /\ Z.land (Z.land (Z.lor x 128) 255) 128 <> 0.
Proof.
  intros Hx. rewrite <- !Z.land_assoc. change (Z.land 255 127) with (Z.ones 7). change (Z.land 255 128) with 128. rewrite !Z.land_lor_distr_l.
  change (Z.land 128 (Z.ones 7)) with 0. change (Z.land 128 128) with 128. rewrite Z.lor_0_r, Z.land_ones by lia. split; [done|]. intros H%Z.lor_eq_0_iff. by destruct H.
Qed.
Lemma last_byte x : 0 <= x < 128 -> Z.land (Z.land x 255) 127 = x /\ Z.land (Z.land x 255) 128 = 0.
Proof.
  intros Hx. rewrite <- !Z.land_assoc. change (Z.land 255 127) with (Z.ones 7). change (Z.land 255 128) with (2 ^ 7). rewrite Z.land_ones, Z.mod_small by lia. split; [done|].
  apply Z.bits_inj'. intros i Hi. rewrite Z.land_spec, Z.bits_0, Z.pow2_bits_eqb by lia. destruct (7 =? i) eqn:E; [|apply andb_false_r]. b2p. subst i.
  replace (Z.testbit x 7) with false; [done|]. symmetry. destruct (decide (x = 0)) as [->|]; [done|]. apply Z.bits_above_log2; [lia|]. apply Z.log2_lt_pow2; lia.
Qed.
Lemma gives_byte {A} (m : bytes -> Z -> M RS A) c w a d : gives (fun b => m b c) w a -> gives (fun b r => if zlen b <=? r_at r then (d, no r) else m b (zget b (r_at r)) (mkR (r_at r +% 1) (r_ok r))) (c :: w) a.
Proof.
  intros Hm pre post Hl. cbn [r_at r_ok]. specialize (Hm (pre ++ [c]) post). rewrite <- !app_assoc in Hm. cbn [app] in *. specialize (Hm Hl).
  rewrite !zlen_app, !zlen_cons, ?zlen_app in *. change (zlen [c]) with 1 in *. pose proof (zlen_nonneg pre). pose proof (zlen_nonneg w). pose proof (zlen_nonneg post).
  rewrite (proj2 (Z.leb_gt _ _)) by lia. rewrite w64_small by lia.
  assert (zget (pre ++ c :: w ++ post) (zlen pre) = c) as -> by (unfold zget, zlen; rewrite Nat2Z.id, app_nth2, Nat.sub_diag by lia; done).
  change (1 + zlen []) with 1 in Hm. rewrite Hm. f_equal. f_equal. lia.
Qed.
(** One more byte. *)
Definition vstep (n : nat) (sh acc : Z) (b : bytes) (c : Z) : M RS Z := fun r =>
  if Z.land c 128 =? 0 then (Z.lor acc (w64 (Z.shiftl (Z.land c 127) sh)), r) else varint_from b n (sh + 7) (Z.lor acc (w64 (Z.shiftl (Z.land c 127) sh))) r.
Lemma gives_vstep n sh acc c w a : gives (fun b => vstep n sh acc b c) w a -> gives (fun b => varint_from b (S n) sh acc) (c :: w) a.
Proof. apply (gives_byte (vstep n sh acc) c w a 0). Qed.
Lemma gives_varint_from n : forall x sh acc, 0 <= sh -> 0 <= acc < 2 ^ sh -> 0 <= x < 2 ^ (7 * Z.of_nat n) -> x * 2 ^ sh < p64 -> (0 < n)%nat ->
  gives (fun b => varint_from b n sh acc) (put_varint n x) (acc + x * 2 ^ sh).
Proof.
  induction n as [|n IH]; intros x sh acc Hs Ha Hx Hm Hn; [lia|]. cbn [put_varint varint_from].
  assert (0 < 2 ^ sh) as Hp by (apply Z.pow_pos_nonneg; lia).
  destruct (128 <=? x) eqn:E; b2p.
  - destruct (low_byte x ltac:(lia)) as [L1 L2]. set (c := Z.land (Z.lor x 128) 255) in *.
    assert (0 < n)%nat as Hn'. { destruct n; [|lia]. change (7 * Z.of_nat 1) with 7 in Hx. change (2 ^ 7) with 128 in Hx. lia. }
    apply gives_vstep. unfold vstep. { rewrite L1. rewrite (proj2 (Z.eqb_neq _ _) L2). pose proof (Z.mod_pos_bound x 128 ltac:(lia)). pose proof (Z.div_mod x 128 ltac:(lia)).
      rewrite Z.shiftr_div_pow2 by lia. change (2 ^ 7) with 128. rewrite Z.shiftl_mul_pow2 by lia. rewrite w64_small by nia. rewrite <- Z.shiftl_mul_pow2, lor_shift by lia.
      replace (acc + x * 2 ^ sh) with (acc + x mod 128 * 2 ^ sh + x / 128 * 2 ^ (sh + 7)) by (rewrite Z.pow_add_r by lia; change (2 ^ 7) with 128; nia).
      apply IH; [lia| | | |done].
      - rewrite Z.pow_add_r by lia. change (2 ^ 7) with 128. nia.
      - split; [apply Z.div_pos; lia|]. apply Z.div_lt_upper_bound; [lia|]. change 128 with (2 ^ 7). rewrite <- Z.pow_add_r by lia. replace (7 + 7 * Z.of_nat n) with (7 * Z.of_nat (S n)) by lia. lia.
      - rewrite Z.pow_add_r by lia. change (2 ^ 7) with 128. nia. }
  - destruct (last_byte x ltac:(lia)) as [L1 L2]. set (c := Z.land x 255) in *.
    apply gives_vstep. unfold vstep. { rewrite L1, L2. cbn [Z.eqb]. rewrite Z.shiftl_mul_pow2 by lia. rewrite w64_small by nia. rewrite <- Z.shiftl_mul_pow2, lor_shift by lia. rewrite ?Z.shiftl_mul_pow2 by lia. apply gives_ret. }
Qed.
Lemma gives_varint v : 0 <= v < p64 -> gives varint (varint_of v) v.
Proof.
  intros Hv. unfold varint, varint_of. assert (gives (fun b => varint_from b 10 0 0) (put_varint 10 v) (0 + v * 2 ^ 0)) as H by (apply gives_varint_from; cbn; lia).
  by rewrite Z.mul_1_r, Z.add_0_l in H.
Qed.

Lemma zigzag v : - p63 <= v < p63 -> Z.lxor (w64 (Z.shiftl v 1)) (w64 (Z.shiftr v 63)) = if v <? 0 then - 2 * v - 1 else 2 * v.
Proof.
  intros Hv. rewrite Z.shiftl_mul_pow2, Z.shiftr_div_pow2 by lia. change (2 ^ 1) with 2. change (2 ^ 63) with p63. destruct (v <? 0) eqn:E; b2p.
  - assert (v / p63 = -1) as -> by (symmetry; apply (Z.div_unique v p63 (-1) (v + p63)); lia).
    transitivity (w64 (Z.lnot (v * 2))); [|unfold Z.lnot; rewrite w64_small; lia]. unfold w64. change p64 with (2 ^ 64). rewrite <- !Z.land_ones by lia.
    apply Z.bits_inj'. intros i Hi. rewrite Z.lxor_spec, !Z.land_spec, Z.lnot_spec by done. replace (Z.testbit (-1) i) with true by (symmetry; by apply Z.bits_m1). destruct (Z.testbit (Z.ones 64) i), (Z.testbit (v * 2) i); done.
  - rewrite (Z.div_small v p63) by lia. rewrite (w64_small 0), Z.lxor_0_r, w64_small by lia. lia.
Qed.
Lemma gives_svarint v : - p63 <= v < p63 -> gives svarint (svarint_of v) v.
Proof.
  intros Hv. unfold svarint, svarint_of. rewrite (zigzag v Hv). set (u := if v <? 0 then - 2 * v - 1 else 2 * v).
  assert (0 <= u < p64) as Hu by (unfold u; destruct (v <? 0) eqn:E; b2p; lia).
  assert (Z.lxor (Z.shiftr u 1) (- Z.land u 1) = v) as Ev.
  { rewrite Z.shiftr_div_pow2 by lia. change (Z.land u 1) with (Z.land u (Z.ones 1)). rewrite Z.land_ones by lia. change (2 ^ 1) with 2. unfold u. destruct (v <? 0) eqn:E; b2p.
    - assert ((- 2 * v - 1) / 2 = - v - 1) as -> by (symmetry; apply (Z.div_unique _ 2 _ 1); lia). assert ((- 2 * v - 1) mod 2 = 1) as -> by (symmetry; apply (Z.mod_unique _ 2 (- v - 1)); lia).
      change (- (1)) with (-1). rewrite Z.lxor_m1_r. unfold Z.lnot. lia.
    - rewrite (Z.mul_comm 2 v), Z.div_mul, Z.mod_mul by lia. apply Z.lxor_0_r. }
  apply (gives_app _ (varint_of u ++ [])); [|by rewrite app_nil_r].
  apply (gives_bind varint (fun _ x => ret (Z.lxor (Z.shiftr x 1) (- Z.land x 1))) _ _ u); [by apply gives_varint|]. rewrite Ev. apply gives_ret.
Qed.

(** ** Blocks and loops *)
Lemma gives_bytes v : zlen v < p63 -> gives get_bytes (bytes_of v) v.
Proof.
  intros Hv. unfold get_bytes, bytes_of. pose proof (zlen_nonneg v).
  apply (gives_bind (fun b => get b 8) (fun b len r => if negb (r_ok r) || (zlen b -% r_at r <? len) then ([], no r) else (zsub b (r_at r) len, mkR (r_at r +% len) (r_ok r))) _ _ (zlen v)); [apply gives_get; [change (p8 ^ Z.of_nat 8) with p64; lia|lia]|].
  intros pre post Hl. cbn [r_at r_ok negb orb]. pose proof (zlen_nonneg pre). pose proof (zlen_nonneg post). rewrite zsub_here. rewrite !zlen_app in *. rewrite !w64_small by lia.
  by rewrite (proj2 (Z.ltb_ge _ _)) by lia.
Qed.
Section loop.
Context {A X S : Type} (step : bytes -> S -> M RS (A * S)) (w : S -> X -> bytes) (next : S -> X -> S) (val : S -> X -> A) (P : X -> Prop) (Q : S -> Prop).
Fixpoint written (s : S) (l : list X) : bytes := match l with [] => [] | x :: l' => w s x ++ written (next s x) l' end.
Fixpoint values (s : S) (l : list X) : list A := match l with [] => [] | x :: l' => val s x :: values (next s x) l' end.
Lemma gives_times l : (forall s x, Q s -> P x -> gives (fun b => step b s) (w s x) (val s x, next s x) /\ Q (next s x)) ->
  Forall P l -> forall s, Q s -> gives (fun b => times (length l) s (step b)) (written s l) (values s l).
Proof.
  intros Hstep. induction 1 as [|x l Hx Hl IH]; intros s Hs; cbn [times length written values]; [apply gives_ret|]. destruct (Hstep s x Hs Hx) as [H1 H2].
  specialize (IH _ H2). intros pre post Hlen. cbn [r_ok].
  refine (gives_bind (fun b => step b s) (fun b xs => do l0 <- times (length l) (snd xs) (step b); ret (fst xs :: l0)) _ _ (val s x, next s x) _ H1 _ pre post Hlen).
  cbn [fst snd]. apply (gives_app _ (written (next s x) l ++ [])); [|by rewrite app_nil_r].
  refine (gives_bind (fun b => times (length l) (next s x) (step b)) (fun _ l0 => ret (val s x :: l0)) _ _ _ _ IH _). apply gives_ret.
Qed.
End loop.

(** ** A slot *)
Record slot_fits (s : FillSlot) : Prop := {
  sf_orig : is_u64 (origSeek s); sf_olen : is_u32 (origLen s); sf_v : is_u64 (vSeek s); sf_vlen : is_u32 (vLen s); sf_branch : is_u32 (s_branch s); sf_basket : is_u32 (s_basket s) }.
Definition prev_fits (p : Prev) : Prop := is_u64 (p_orig p) /\ is_u64 (p_next p) /\ is_u32 (p_branch p) /\ is_u32 (p_basket p).
Lemma after_fits s : slot_fits s -> prev_fits (after s).
Proof. intros []. unfold prev_fits, after. cbn. split; [done|]. split; [apply w64_range|done]. Qed.
Lemma signed_back x : is_u64 x -> - p63 <= signed 8 x < p63 /\ w64 (signed 8 x) = x.
Proof.
  intros Hx. unfold is_u64, signed in *. change (2 ^ (8 * Z.of_nat 8 - 1)) with p63. change (2 ^ (8 * Z.of_nat 8)) with p64.
  destruct (x <? p63) eqn:E; b2p; [rewrite w64_small by lia; lia|]. split; [lia|]. unfold w64. replace (x - p64) with (x + -1 * p64) by lia. rewrite Z.mod_add by lia. apply Z.mod_small. lia.
Qed.
Lemma add_back a x : is_u64 a -> is_u64 x -> a +% (x -% a) = x.
Proof. intros Ha Hx. unfold w64, is_u64 in *. rewrite Z.add_mod_idemp_r by lia. rewrite Z.mod_small; lia. Qed.
Lemma gives_slot r k100 p s : prev_fits p -> slot_fits s -> gives (fun b => get_slot b k100 p) (slot_bytes r k100 p s) (s, after s).
Proof.
  intros (P1 & P2 & P3 & P4) [S1 S2 S3 S4 S5 S6]. unfold is_u32 in *. unfold get_slot, slot_bytes.
  destruct (signed_back (origSeek s -% p_orig p) (w64_range _)) as [A1 A2]. destruct (signed_back (vSeek s -% p_next p) (w64_range _)) as [B1 B2].
  eapply gives_bind; [apply gives_svarint; lia|]. eapply gives_bind; [apply gives_svarint; lia|]. eapply gives_bind; [by apply gives_svarint|].
  eapply gives_bind; [apply gives_varint; lia|]. set (code := if negb r && (vLen s =? plainSlotLen (origLen s) k100) then 0 else vLen s +% 1).
  assert (0 <= code < p64 /\ (if code =? 0 then plainSlotLen (origLen s) k100 else w32 (code - 1)) = vLen s) as [C1 C2].
  { unfold code. destruct (negb r && _) eqn:E; [b2p; done|]. rewrite w64_small by lia. rewrite (proj2 (Z.eqb_neq _ _)) by lia. rewrite w32_small by lia. lia. }
  eapply gives_bind; [by apply gives_varint|]. apply (gives_app _ (svarint_of (signed 8 (vSeek s -% p_next p)) ++ [])); [|by rewrite app_nil_r].
  eapply gives_bind; [by apply gives_svarint|]. rewrite A2, B2, !add_back by done. rewrite (w32_small (origLen s)), C2 by lia.
  assert (w32 (p_branch p + (s_branch s - p_branch p)) = s_branch s) as -> by (rewrite w32_small; lia).
  assert (w32 (w32 (p_basket p + 1) + (s_basket s - p_basket p - 1)) = s_basket s) as ->.
  { unfold w32. rewrite Z.add_mod_idemp_l by lia. rewrite Z.mod_small; lia. }
  replace (mkSlot (origSeek s) (origLen s) (vSeek s) (vLen s) (s_branch s) (s_basket s)) with s by (by destruct s). apply gives_ret.
Qed.

(** ** The whole layout *)
(** What the store's creator writes: the fields fit their types, there are as many pages as slots, and the reader's
    checks hold of it. *)
Record layout_fits (cf : Stored) : Prop := {
  lf_u64 : is_u64 (originSize (L cf)) /\ is_u64 (virtualSize (L cf)) /\ is_u64 (metaSeek (L cf)) /\ is_u64 (slotsBegin (L cf));
  lf_windows : Forall (fun w => is_u64 (fst w) /\ zlen (snd w) < p63) (windows (L cf)) /\ zlen (windows (L cf)) < p32;
  lf_meta : zlen (metaRecord (L cf)) < p63;
  lf_origin : Forall (fun r => is_u64 (fst r) /\ is_u64 (snd r)) (metaOrigin cf) /\ zlen (metaOrigin cf) < p32;
  lf_relocated : Forall is_u32 (relocated (L cf)) /\ zlen (relocated (L cf)) < p32;
  lf_slots : Forall slot_fits (slots (L cf)) /\ zlen (slots (L cf)) < p32;
  lf_pages : if rnt cf then length (pages cf) = length (slots (L cf)) /\ Forall (fun p => is_u32 (pg_nbytes p)) (pages cf) else pages cf = [];
  lf_error : error (L cf) = [];
  lf_order : slotsBegin (L cf) <= virtualSize (L cf) /\ metaSeek (L cf) <= slotsBegin (L cf);
  lf_checks : slots_ok (rnt cf) (L cf) (slotsBegin (L cf)) (slots (L cf)) = true /\ windows_ok (L cf) = true }.

(** A loop whose steps do not depend on one another. *)
Lemma gives_each {A X} (step : bytes -> unit -> M RS (A * unit)) (w : X -> bytes) (val : X -> A) (P : X -> Prop) l :
  (forall x, P x -> gives (fun b => step b tt) (w x) (val x, tt)) -> Forall P l -> gives (fun b => times (length l) tt (step b)) (concat (w <$> l)) (val <$> l).
Proof.
  intros Hstep Hl. pose proof (gives_times step (fun _ => w) (fun _ _ => tt) (fun _ => val) P (fun _ => True) l) as H.
  specialize (H ltac:(intros [] x _ Hx; split; [by apply Hstep|done]) Hl tt I). revert H. clear.
  assert (written (fun _ : unit => w) (fun _ _ => tt) tt l = concat (w <$> l)) as -> by (induction l as [|x l IH]; cbn; [done|by rewrite IH]).
  assert (values (fun _ _ => tt) (fun _ : unit => val) tt l = val <$> l) as -> by (induction l as [|x l IH]; cbn; [done|by rewrite IH]). done.
Qed.
Lemma gives_slots r k100 l : Forall slot_fits l -> forall p, prev_fits p -> gives (fun b => times (length l) p (get_slot b k100)) (slots_bytes r k100 p l) l.
Proof.
  intros Hl p Hp. pose proof (gives_times (fun b => get_slot b k100) (slot_bytes r k100) (fun _ => after) (fun _ s => s) slot_fits prev_fits l) as H.
  specialize (H ltac:(intros q s Hq Hs; split; [by apply gives_slot|by apply after_fits]) Hl p Hp). revert H. clear.
  assert (forall p, written (slot_bytes r k100) (fun _ => after) p l = slots_bytes r k100 p l) as -> by (induction l as [|x l IH]; intros p'; cbn [slots_bytes written]; [done|by rewrite IH]).
  assert (forall p : Prev, values (fun _ => after) (fun _ s => s) p l = l) as -> by (induction l as [|x l IH]; intros p'; cbn [values]; [done|by rewrite IH]). done.
Qed.

Lemma gives_flag (c : bool) : gives (fun b => get b 1) [if c then 1 else 0] (if c then 1 else 0).
Proof. apply (gives_app _ (le_bytes 1 (if c then 1 else 0))); [|by destruct c]. apply gives_get; [change (p8 ^ Z.of_nat 1) with 256; destruct c; lia|lia]. Qed.
Lemma gives_8 v : is_u64 v -> gives (fun b => get b 8) (le_bytes 8 v) v.
Proof. intros H. apply gives_get; [exact H|lia]. Qed.
Lemma gives_4 v : is_u32 v -> gives (fun b => get b 4) (le_bytes 4 v) v.
Proof. intros H. apply gives_get; [exact H|lia]. Qed.
Lemma gives_last {A B} (m : bytes -> M RS A) (k : bytes -> A -> M RS B) w a c : gives m w a -> gives (fun b => k b a) [] c -> gives (fun b => do x <- m b; k b x) w c.
Proof. intros H1 H2. apply (gives_app _ (w ++ [])); [|by rewrite app_nil_r]. by apply (gives_bind m k w [] a c). Qed.
Lemma gives_count {A} (step : bytes -> unit -> M RS (A * unit)) w (l : list A) : zlen l < p32 -> gives (fun b => times (length l) tt (step b)) w l ->
  gives (fun b => times (Z.to_nat (w32 (zlen l))) tt (step b)) w l.
Proof. intros Hl H. rewrite w32_small by (pose proof (zlen_nonneg l); lia). unfold zlen. by rewrite Nat2Z.id. Qed.

Lemma zlen_varint v : 1 <= zlen (varint_of v).
Proof. unfold varint_of. generalize 9%nat. intros n. cbn [put_varint]. pose proof (zlen_nonneg (put_varint n (Z.shiftr v 7))). destruct (128 <=? v); rewrite zlen_cons; [lia|]. change (zlen []) with 0. lia. Qed.
Lemma zlen_slots r k100 l : forall p, 6 * zlen l <= zlen (slots_bytes r k100 p l).
Proof.
  induction l as [|s l IH]; intros p; cbn [slots_bytes]; [done|]. unfold slot_bytes. rewrite zlen_cons, !zlen_app. specialize (IH (after s)). unfold svarint_of.
  set (v1 := Z.lxor _ _). set (v2 := Z.lxor _ _) at 1. set (v3 := Z.lxor _ _) at 1. set (v4 := origLen s). set (v5 := if negb r && _ then _ else _). set (v6 := Z.lxor _ _) at 1.
  pose proof (zlen_varint v1). pose proof (zlen_varint v2). pose proof (zlen_varint v3). pose proof (zlen_varint v4). pose proof (zlen_varint v5). pose proof (zlen_varint v6). lia.
Qed.

Lemma stored_eta (x : Stored) : mkStored (rnt x) (L x) (pages x) (metaOrigin x) = x.
Proof. by destruct x. Qed.
Section whole.
Context (k100 : Z) (cf : Stored) (Hf : layout_fits cf).
Let l := L cf.
Definition head_bytes : bytes :=
  [if rnt cf then 1 else 0] ++ le_bytes 8 (originSize l) ++ le_bytes 8 (virtualSize l) ++ le_bytes 8 (metaSeek l) ++
  le_bytes 8 (slotsBegin l) ++ le_bytes 4 (w32 (zlen (windows l))) ++ concat ((fun w => le_bytes 8 (fst w) ++ bytes_of (snd w)) <$> windows l) ++
  bytes_of (metaRecord l) ++ le_bytes 4 (w32 (zlen (metaOrigin cf))) ++ concat ((fun r => le_bytes 8 (fst r) ++ le_bytes 8 (snd r)) <$> metaOrigin cf) ++
  le_bytes 4 (w32 (zlen (relocated l))).
Definition mid_bytes : bytes := concat ((fun r => le_bytes 4 r) <$> relocated l) ++ le_bytes 4 (w32 (zlen (slots l))).
Definition tail_bytes : bytes := slots_bytes (rnt cf) k100 (first_prev l) (slots l) ++ (if rnt cf then concat (page_bytes <$> pages cf) else []).
Lemma raw_split : raw_layout k100 cf = kLayoutMagic ++ head_bytes ++ mid_bytes ++ tail_bytes.
Proof. unfold raw_layout, head_bytes, mid_bytes, tail_bytes. fold l. by rewrite <- !app_assoc. Qed.

Lemma head_reads : gives (fun b =>
    do rn <- get b 1; do os <- get b 8; do vs <- get b 8; do ms <- get b 8; do sb <- get b 8; do nw <- get b 4;
    do ws <- times (Z.to_nat nw) tt (get_window b); do mr <- get_bytes b; do nm <- get b 4;
    do mo <- times (Z.to_nat nm) tt (get_pair b); do nr <- get b 4; ret (negb (rn =? 0), os, vs, ms, sb, ws, mr, mo, nr)) head_bytes
  (rnt cf, originSize l, virtualSize l, metaSeek l, slotsBegin l, windows l, metaRecord l, metaOrigin cf, zlen (relocated l)).
Proof.
  destruct (lf_u64 _ Hf) as (U1 & U2 & U3 & U4). destruct (lf_windows _ Hf) as [W1 W2]. destruct (lf_origin _ Hf) as [O1 O2]. destruct (lf_relocated _ Hf) as [R1 R2].
  unfold head_bytes. eapply gives_bind; [apply gives_flag|]. eapply gives_bind; [by apply gives_8|]. eapply gives_bind; [by apply gives_8|].
  eapply gives_bind; [by apply gives_8|]. eapply gives_bind; [by apply gives_8|]. eapply gives_bind; [apply gives_4, w32_range|].
  eapply gives_bind.
  { apply gives_count; [done|]. pose proof (gives_each get_window (fun w => le_bytes 8 (fst w) ++ bytes_of (snd w)) id (fun w => is_u64 (fst w) /\ zlen (snd w) < p63) (windows l)) as H.
    rewrite list_fmap_id in H. apply H; [|done]. intros [o v] [Ho Hv]. unfold get_window. eapply gives_bind; [by apply gives_8|]. eapply gives_last; [by apply gives_bytes|]. apply gives_ret. }
  eapply gives_bind; [apply gives_bytes, (lf_meta _ Hf)|]. eapply gives_bind; [apply gives_4, w32_range|]. eapply gives_bind.
  { apply gives_count; [done|]. pose proof (gives_each get_pair (fun r => le_bytes 8 (fst r) ++ le_bytes 8 (snd r)) id (fun r => is_u64 (fst r) /\ is_u64 (snd r)) (metaOrigin cf)) as H.
    rewrite list_fmap_id in H. apply H; [|done]. intros [o v] [Ho Hv]. unfold get_pair. eapply gives_bind; [by apply gives_8|]. eapply gives_last; [by apply gives_8|]. apply gives_ret. }
  eapply gives_last; [apply gives_4, w32_range|]. rewrite w32_small by (pose proof (zlen_nonneg (relocated l)); unfold l in *; lia).
  assert (negb ((if rnt cf then 1 else 0) =? 0) = rnt cf) as -> by by destruct (rnt cf). apply gives_ret.
Qed.
Lemma mid_reads : gives (fun b => do rl <- times (Z.to_nat (zlen (relocated l))) tt (get_relocated b); do ns <- get b 4; ret (rl, ns)) mid_bytes (relocated l, zlen (slots l)).
Proof.
  destruct (lf_relocated _ Hf) as [R1 R2]. destruct (lf_slots _ Hf) as [S1 S2]. unfold mid_bytes. eapply gives_bind.
  { unfold zlen. rewrite Nat2Z.id. pose proof (gives_each get_relocated (fun r => le_bytes 4 r) id is_u32 (relocated l)) as H. rewrite list_fmap_id in H.
    apply H; [|done]. intros r Hr. unfold get_relocated. eapply gives_last; [by apply gives_4|]. apply gives_ret. }
  eapply gives_last; [apply gives_4, w32_range|]. rewrite w32_small by (pose proof (zlen_nonneg (slots l)); unfold l in *; lia). apply gives_ret.
Qed.
Lemma tail_reads : gives (fun b =>
    do ss <- times (Z.to_nat (zlen (slots l))) (mkPrev 0 (slotsBegin l) 0 0) (get_slot b k100);
    do pgs <- (if rnt cf then times (Z.to_nat (zlen (slots l))) tt (get_page b) else ret []); ret (ss, pgs)) tail_bytes (slots l, pages cf).
Proof.
  destruct (lf_slots _ Hf) as [S1 S2]. destruct (lf_u64 _ Hf) as (_ & _ & _ & U4). pose proof (lf_pages _ Hf) as Hp. unfold tail_bytes. unfold zlen. rewrite Nat2Z.id. eapply gives_bind.
  { apply (gives_slots (rnt cf) k100 (slots l) S1 (first_prev l)). unfold prev_fits, first_prev. cbn. unfold is_u64, is_u32. split; [lia|]. split; [done|]. lia. }
  destruct (rnt cf).
  - destruct Hp as [Hp1 Hp2]. eapply gives_last.
    { fold l in Hp1. rewrite <- Hp1. pose proof (gives_each get_page page_bytes id (fun p => is_u32 (pg_nbytes p)) (pages cf)) as H. rewrite list_fmap_id in H.
      apply H; [|done]. intros [n c] Hn. unfold get_page, page_bytes. cbn [pg_nbytes pg_hasChecksum] in *. eapply gives_bind; [by apply gives_4|]. eapply gives_last; [apply gives_flag|].
      assert (negb ((if c then 1 else 0) =? 0) = c) as -> by by destruct c. apply gives_ret. }
    apply gives_ret.
  - rewrite Hp. eapply gives_last; [apply gives_ret|]. apply gives_ret.
Qed.

Lemma parse_written : zlen (raw_layout k100 cf) < p63 -> parse_layout (raw_layout k100 cf) k100 = Some cf.
Proof.
  intros Hlen. destruct (lf_order _ Hf) as [Or1 Or2]. destruct (lf_checks _ Hf) as [Ck1 Ck2]. unfold parse_layout. set (raw := raw_layout k100 cf) in *.
  assert (raw = kLayoutMagic ++ head_bytes ++ mid_bytes ++ tail_bytes) as E by apply raw_split.
  pose proof (head_reads kLayoutMagic (mid_bytes ++ tail_bytes)) as H1. rewrite <- E in H1. specialize (H1 Hlen). change (zlen kLayoutMagic) with 8 in H1.
  match goal with |- (let '(_, _) := ?m in _) = _ => replace m with
    ((rnt cf, originSize l, virtualSize l, metaSeek l, slotsBegin l, windows l, metaRecord l, metaOrigin cf, zlen (relocated l)), mkR (8 + zlen head_bytes) true) by (symmetry; exact H1) end.
  cbn [r_ok negb orb]. clear H1.
  pose proof (mid_reads (kLayoutMagic ++ head_bytes) tail_bytes) as H2. rewrite <- !app_assoc, <- E in H2. specialize (H2 Hlen). rewrite zlen_app in H2. change (zlen kLayoutMagic) with 8 in H2.
  pose proof (tail_reads (kLayoutMagic ++ head_bytes ++ mid_bytes) []) as H3. rewrite app_nil_r, <- !app_assoc, <- E in H3. specialize (H3 Hlen). rewrite !zlen_app in H3. change (zlen kLayoutMagic) with 8 in H3.
  assert (zlen raw = 8 + (zlen head_bytes + (zlen mid_bytes + zlen tail_bytes))) as Hl by (rewrite E, !zlen_app; done).
  pose proof (zlen_nonneg head_bytes). pose proof (zlen_nonneg tail_bytes). pose proof (zlen_nonneg mid_bytes).
  assert (zlen (relocated l) <= zlen mid_bytes) as Hr.
  { unfold mid_bytes. rewrite zlen_app, zlen_le_bytes. assert (forall r : list Z, zlen r <= zlen (concat ((fun r => le_bytes 4 r) <$> r))) as G; [|specialize (G (relocated l)); lia].
    induction r as [|x r IH]; [done|]. rewrite fmap_cons. cbn [concat]. rewrite zlen_app, zlen_le_bytes, zlen_cons. lia. }
  assert (6 * zlen (slots l) <= zlen tail_bytes) as Hs.
  { unfold tail_bytes. rewrite zlen_app. pose proof (zlen_slots (rnt cf) k100 (slots l) (first_prev l)). pose proof (zlen_nonneg (if rnt cf then concat (page_bytes <$> pages cf) else [])). lia. }
  pose proof (zlen_nonneg (slots l)). rewrite (proj2 (Z.ltb_ge (zlen raw) (zlen (relocated l)))) by lia. rewrite H2. cbn [r_ok negb orb].
  rewrite (w64_small (zlen (slots l) * 6)) by lia. rewrite (proj2 (Z.ltb_ge (zlen raw) _)) by lia.
  replace (8 + zlen head_bytes + zlen mid_bytes) with (8 + (zlen head_bytes + zlen mid_bytes)) by lia. rewrite H3. cbn [r_ok r_at negb orb].
  rewrite (proj2 (Z.eqb_eq _ _)) by lia. fold l in Or1, Or2. rewrite (proj2 (Z.ltb_ge _ _)), (proj2 (Z.ltb_ge _ _)) by lia. cbn [negb orb].
  assert (mkLayout [] (originSize l) (virtualSize l) (windows l) (metaSeek l) (metaRecord l) (slotsBegin l) (slots l) (relocated l) = L cf) as ->.
  { pose proof (lf_error _ Hf) as He. fold l in He |- *. revert He. clearbody l. clear. intros He. destruct l. cbn in *. by rewrite He. }
  fold l. unfold l. rewrite Ck1, Ck2. cbn [andb]. by rewrite stored_eta.
Qed.
End whole.

(** C40: The layout a store is made with is the layout everyone after serves: what [encodeLayout] writes,
    [decodeLayout] reads back - the windows, the relocated metadata, the table of slots in its deltas and
    variable-length integers, the pages of an RNTuple - compressed or not, for every layout whose fields fit
    their types and that passes the reader's checks, unless its compressed form happens to be as long as itself or a
    frame of it does not fit. *)
Theorem layout_roundtrip `{CD : Codecs} k100 cf :
  ZstdLaw -> layout_fits cf -> zlen (raw_layout k100 cf) < p63 -> frames_fit (raw_layout k100 cf) 3 ->
  zlen (encodeZstdFrames (raw_layout k100 cf) 3) <> zlen (raw_layout k100 cf) ->
  decodeLayout (encodeLayout k100 cf) k100 = Some cf.
Proof.
  intros HL Hf Hlen Hfit Hne. unfold decodeLayout, encodeLayout. set (raw := raw_layout k100 cf) in *. set (z := encodeZstdFrames raw 3) in *.
  set (body := if bytes_eqb z [] then raw else z). pose proof (zlen_nonneg raw). pose proof (zlen_nonneg body). rewrite zlen_app, zlen_le_bytes. change (Z.of_nat 8) with 8.
  rewrite (proj2 (Z.ltb_ge _ _)) by lia.
  assert (getLE 8 (le_bytes 8 (zlen raw) ++ body) 0 = zlen raw) as ->.
  { unfold getLE. change (Z.of_nat 8) with 8. rewrite zsub_app by (by rewrite zlen_le_bytes). apply le_val_bytes. change (p8 ^ Z.of_nat 8) with p64. lia. }
  replace (8 + zlen body - 8) with (zlen body) by lia.
  assert (zsub (le_bytes 8 (zlen raw) ++ body) 8 (zlen body) = body) as Eb.
  { rewrite zsub_app_r by (rewrite zlen_le_bytes; done). rewrite zlen_le_bytes. by apply zsub_all. }
  assert ((if zlen body =? zlen raw then zsub (le_bytes 8 (zlen raw) ++ body) 8 (zlen raw) else decompressFrames (zsub (le_bytes 8 (zlen raw) ++ body) 8 (zlen body)) (zlen raw)) = raw) as ->.
  { rewrite Eb. unfold body in *. destruct (bytes_eqb z []) eqn:Ez.
    - by rewrite Z.eqb_refl, Eb.
    - rewrite (proj2 (Z.eqb_neq _ _)) by done. apply frames_roundtrip; [done|done|]. intros E. fold z in E. rewrite E in Ez. done. }
  rewrite Z.eqb_refl. assert (raw = kLayoutMagic ++ head_bytes cf ++ mid_bytes cf ++ tail_bytes k100 cf) as Er by apply raw_split.
  assert (zlen raw >= 8) by (rewrite Er, zlen_app; change (zlen kLayoutMagic) with 8; pose proof (zlen_nonneg (head_bytes cf ++ mid_bytes cf ++ tail_bytes k100 cf)); lia).
  rewrite (proj2 (Z.ltb_ge _ _)) by lia. assert (zsub raw 0 8 = kLayoutMagic) as -> by (rewrite Er; by apply zsub_app).
  cbn [negb orb]. replace (bytes_eqb kLayoutMagic kLayoutMagic) with true by (symmetry; by apply bool_decide_eq_true). by apply parse_written.
Qed.

(** ** An example: a file of two baskets *)
Definition demo_slots : list FillSlot := [mkSlot 100 50 8192 150 0 0; mkSlot 200 60 8342 180 0 1].
Definition demo_stored : Stored :=
  mkStored false (mkLayout [] 1000 9192 [(0, [1; 2; 3]); (600, [9])] 4096 [7; 7] 8192 demo_slots [0]) [] [(500, 80)].
Lemma demo_fits : layout_fits demo_stored.
Proof. split; cbn; unfold is_u64, is_u32; repeat first [apply Forall_nil; exact I | apply Forall_cons; split | split]; cbn; unfold is_u64, is_u32; first [lia | reflexivity]. Qed.
Lemma demo_len : zlen (raw_layout 300 demo_stored) < kMaxFrame.
Proof. vm_compute. reflexivity. Qed.
Lemma demo_frames : frames_fit (CD := stored) (raw_layout 300 demo_stored) 3.
Proof.
  intros i z Hi Hm. pose proof demo_len. rewrite Z.mod_small in Hm by lia. subst i. intros Hz. vm_compute in Hz. injection Hz as <-. vm_compute. congruence.
Qed.
Lemma layout_roundtrip_witness :
  layout_fits demo_stored /\ decodeLayout (CD := stored) (encodeLayout (CD := stored) 300 demo_stored) 300 = Some demo_stored.
Proof.
  split; [exact demo_fits|]. apply (layout_roundtrip (CD := stored) 300 demo_stored stored_law demo_fits).
  - vm_compute. reflexivity.
  - exact demo_frames.
  - vm_compute. congruence.
Defined.
End ColdLayout.

(** * The file a reader of the slot layout sees *)
Module ColdView.
Import Root TreeData Fill Cold ColdFill ColdServe.

(** The slots lie one after another from [a] to [e]. *)
Fixpoint chained (a : Z) (l : list FillSlot) (e : Z) : Prop :=
  match l with [] => a = e | s :: l' => vSeek s = a /\ 0 < vLen s /\ chained (a + vLen s) l' e end.
Definition window_ends (w : Z * bytes) : Z := fst w + zlen (snd w).
(** What [layoutForFill] gives and [decodeLayout] checks but for the gaps. *)
Record laid (L : FillLayout) : Prop := {
  la_windows : Forall (fun w => 0 <= fst w /\ window_ends w <= originSize L) (windows L);
  la_apart : forall w1 w2 x, w1 ∈ windows L -> w2 ∈ windows L -> fst w1 <= x < window_ends w1 -> fst w2 <= x < window_ends w2 -> w1 = w2;
  la_meta : 0 <= originSize L <= metaSeek L /\ metaSeek L + zlen (metaRecord L) <= slotsBegin L;
  la_slots : chained (slotsBegin L) (slots L) (virtualSize L) /\ zlen (slots L) < p32;
  la_size : virtualSize L < p63 }.

Lemma chained_le l : forall a e, chained a l e -> a <= e.
Proof. induction l as [|s l IH]; intros a e; cbn; [lia|]. intros (_ & H & C). specialize (IH _ _ C). lia. Qed.
(** The slot that holds [v], found from any other place in it. *)
Lemma chained_upper l : forall a e v, chained a l e -> a <= v < e ->
  exists s, l !! Z.to_nat (upper v l - 1) = Some s /\ 1 <= upper v l <= zlen l /\ vSeek s <= v < vSeek s + vLen s /\ a <= vSeek s /\ vSeek s + vLen s <= e /\
    forall v', vSeek s <= v' < vSeek s + vLen s -> upper v' l = upper v l.
Proof.
  induction l as [|s l IH]; intros a e v C Hv; cbn in C; [lia|]. destruct C as (E & H & C). pose proof (chained_le _ _ _ C). pose proof (zlen_nonneg l). cbn [upper]. rewrite zlen_cons.
  rewrite (proj2 (Z.ltb_ge v (vSeek s))) by lia. destruct (Z.lt_ge_cases v (a + vLen s)).
  - assert (forall x, x < a + vLen s -> upper x l = 0) as Hu.
    { intros x Hx. destruct l as [|s' l']; [done|]. cbn in *. destruct C as (E' & _). by rewrite (proj2 (Z.ltb_lt x (vSeek s'))) by lia. }
    exists s. rewrite (Hu v) by lia. split_and!; try lia; [done|]. intros v' Hv'. rewrite (proj2 (Z.ltb_ge v' (vSeek s))), Hu by lia. done.
  - destruct (IH _ _ v C ltac:(lia)) as (s' & L1 & L2 & L3 & L4 & L5 & L6). exists s'. split_and!; try lia.
    + replace (Z.to_nat (1 + upper v l - 1)) with (S (Z.to_nat (upper v l - 1))) by lia. done.
    + intros v' Hv'. rewrite (proj2 (Z.ltb_ge v' (vSeek s))) by lia. by rewrite L6.
Qed.

Section view.
Context (L : FillLayout) (HL : laid L) (orig : bytes) (content : Z -> bytes).
Context (Horig : zlen orig = originSize L) (Hcontent : forall i s, slots L !! Z.to_nat i = Some s -> zlen (content i) = vLen s).

(** The byte at [v]: a window's, the original's, a zero, the relocated record's, or its slot's. *)
Definition vbyte (v : Z) : Z :=
  if v <? originSize L then match List.find (fun w => (fst w <=? v) && (v <? window_ends w)) (windows L) with Some w => zget (snd w) (v - fst w) | None => zget orig v end
  else if v <? metaSeek L then 0
  else if v <? metaSeek L + zlen (metaRecord L) then zget (metaRecord L) (v - metaSeek L)
  else if v <? slotsBegin L then 0
  else let i := upper v (slots L) - 1 in zget (content i) (v - vSeek (slot_at L i)).
Definition view (v n : Z) : bytes := vbyte <$> zrange v (v + n).
Definition shown (p : Src) : bytes :=
  match p with SBytes b => b | SOrig o n => zsub orig o n | SSlot i from n => zsub (content i) from n end.

Lemma view_zsub v n b o : 0 <= n -> 0 <= o -> o + n <= zlen b -> (forall k, 0 <= k < n -> vbyte (v + k) = zget b (o + k)) -> view v n = zsub b o n.
Proof.
  intros Hn Ho Hb H. apply list_eq. intros k. unfold view. rewrite list_lookup_fmap. unfold zsub. destruct (decide (Z.of_nat k < n)) as [Hk|Hk].
  - rewrite lookup_take_lt by lia. rewrite lookup_drop.
    assert (zrange v (v + n) !! k = Some (v + Z.of_nat k)) as ->.
    { unfold zrange. by rewrite lookup_seqZ_lt by lia. }
    cbn. rewrite (H (Z.of_nat k)) by lia. unfold zget. replace (Z.to_nat (o + Z.of_nat k)) with (Z.to_nat o + k)%nat by lia.
    destruct (b !! (Z.to_nat o + k)%nat) as [x|] eqn:E; [by rewrite (nth_lookup_Some _ _ _ _ E)|]. apply lookup_ge_None_1 in E. unfold zlen in *. lia.
  - rewrite lookup_take_ge by lia. rewrite (lookup_ge_None_2 (zrange _ _)); [done|]. pose proof (zlen_zrange v (v + n) ltac:(lia)). unfold zlen in *. lia.
Qed.
Lemma zlen_view v n : 0 <= n -> zlen (view v n) = n.
Proof. intros Hn. unfold view, zlen. rewrite length_fmap. pose proof (zlen_zrange v (v + n) ltac:(lia)). unfold zlen in *. lia. Qed.
Lemma view_nil v : view v 0 = [].
Proof. unfold view. by rewrite Z.add_0_r, zrange_nil. Qed.
Lemma view_app v n m : 0 <= n -> 0 <= m -> view v n ++ view (v + n) m = view v (n + m).
Proof. intros Hn Hm. unfold view. rewrite <- fmap_app, Z.add_assoc. f_equal. symmetry. apply zrange_app. lia. Qed.

Lemma find_window_spec ws pos next : Forall (fun w => 0 <= fst w /\ window_ends w <= originSize L) ws -> pos < next ->
  match find_window ws pos next with
  | inl w => w ∈ ws /\ fst w <= pos < window_ends w
  | inr nx => pos < nx <= next /\ forall w v, w ∈ ws -> pos <= v < nx -> ~ (fst w <= v < window_ends w)
  end.
Proof.
  pose proof (la_size _ HL). pose proof (la_meta _ HL). destruct (la_slots _ HL) as [C _]. apply chained_le in C. pose proof (zlen_nonneg (metaRecord L)).
  revert next. induction ws as [|w ws IH]; intros next Hw Hn; cbn [find_window]; [split; [lia|]; intros w v []%elem_of_nil|].
  apply Forall_cons in Hw as [[W1 W2] Hw]. unfold window_ends in W2. pose proof (zlen_nonneg (snd w)). rewrite w64_small by lia.
  destruct ((fst w <=? pos) && (pos <? fst w + zlen (snd w))) eqn:E; [split; [left|unfold window_ends; b2p; lia]|].
  assert (~ fst w <= pos \/ ~ pos < window_ends w) as Hno by (unfold window_ends; apply andb_false_iff in E as [E|E]; b2p; lia).
  set (nx := if pos <? fst w then Z.min next (fst w) else next). assert (pos < nx <= next /\ (pos < fst w -> nx <= fst w)) as [N1 N2] by (unfold nx; destruct (pos <? fst w) eqn:E2; b2p; lia).
  specialize (IH nx Hw ltac:(lia)). destruct (find_window ws pos nx) as [w'|nx']; [destruct IH; split; [by right|done]|].
  destruct IH as [I1 I2]. split; [lia|]. intros w' v [-> |Hin]%elem_of_cons Hv; [lia|by apply I2].
Qed.
Context (hasRange : Z -> Z -> bool) (cachedRead : Z -> Z -> option bytes) (Hcached : forall pos n b, cachedRead pos n = Some b -> b = zsub orig pos n).
Definition src_ok (p : Src) : Prop :=
  match p with SSlot i from n => 0 <= i /\ 0 <= from /\ 0 < n /\ exists s, slots L !! Z.to_nat i = Some s /\ from + n <= vLen s | _ => True end.
Lemma cut_spec pos end_ : 0 <= pos < end_ -> end_ <= virtualSize L ->
  let '(src, n) := cut_at L hasRange cachedRead pos end_ in 0 < n <= end_ - pos /\ shown src = view pos n /\ src_ok src.
Proof.
  intros Hp He. pose proof (la_size _ HL). pose proof (la_meta _ HL) as [M1 M2]. destruct (la_slots _ HL) as [C Hns]. pose proof (chained_le _ _ _ C). pose proof (zlen_nonneg (metaRecord L)).
  pose proof (la_windows _ HL) as Hw. unfold cut_at, metaEnd. rewrite (w64_small (metaSeek L + _)) by lia.
  destruct (pos <? originSize L) eqn:E1; b2p.
  { pose proof (find_window_spec (windows L) pos (Z.min end_ (originSize L)) Hw ltac:(lia)) as F. destruct (find_window _ _ _) as [w|nx].
    - destruct F as [Fw Fc]. rewrite Forall_forall in Hw. destruct (Hw w Fw) as [W1 W2]. unfold window_ends in *. rewrite !w64_small by (rewrite ?w64_small by lia; lia).
      set (n := Z.min (Z.min end_ (originSize L)) (fst w + zlen (snd w)) - pos). split; [lia|]. split; [|done]. cbn [shown]. symmetry. apply view_zsub; try lia.
      intros k Hk. unfold vbyte. rewrite (proj2 (Z.ltb_lt _ _)) by lia.
      destruct (List.find _ (windows L)) as [w'|] eqn:Ef.
      + apply find_some in Ef as [Fin Fcov]. apply list_elem_of_In in Fin. assert (w' = w) as -> by (apply (la_apart _ HL w' w (pos + k)); [done|done|unfold window_ends in *; b2p; lia|unfold window_ends; lia]).
        f_equal. lia.
      + pose proof (find_none _ _ Ef w (proj1 (list_elem_of_In _ _) Fw)) as Fn. unfold window_ends in Fn. apply andb_false_iff in Fn as [Fn|Fn]; b2p; lia.
    - destruct F as [F1 F2]. rewrite w64_small by lia.
      assert (view pos (nx - pos) = zsub orig pos (nx - pos)) as Ev.
      { apply view_zsub; try lia. intros k Hk. unfold vbyte. rewrite (proj2 (Z.ltb_lt _ _)) by lia. destruct (List.find _ (windows L)) as [w'|] eqn:Ef; [|done].
        apply find_some in Ef as [Fin Fcov]. apply list_elem_of_In in Fin. destruct (F2 w' (pos + k) Fin ltac:(lia)). unfold window_ends in *. b2p. lia. }
      split; [lia|]. split; [|by destruct (if hasRange pos (nx - pos) then _ else _)]. rewrite Ev.
      destruct (hasRange pos (nx - pos)); [|done]. destruct (cachedRead pos (nx - pos)) eqn:Ec; [|done]. by apply Hcached. }
  assert (forall n, 0 <= n -> (forall k, 0 <= k < n -> vbyte (pos + k) = 0) -> view pos n = zeros n) as Hz.
  { intros n Hn Hk. rewrite <- (zsub_all (zeros n) n) by (by rewrite zlen_zeros). apply view_zsub; [lia|lia|by rewrite zlen_zeros|]. intros k Hk'. rewrite Hk by lia. by rewrite zget_zeros. }
  destruct (pos <? metaSeek L) eqn:E2; b2p.
  { rewrite w64_small by lia. split; [lia|]. split; [|done]. symmetry. apply Hz; [lia|]. intros k Hk. unfold vbyte. rewrite (proj2 (Z.ltb_ge _ _)), (proj2 (Z.ltb_lt _ (metaSeek L))) by lia. done. }
  destruct (pos <? metaSeek L + zlen (metaRecord L)) eqn:E3; b2p.
  { rewrite !w64_small by lia. split; [lia|]. split; [|done]. symmetry. apply view_zsub; try lia. intros k Hk. unfold vbyte.
    rewrite (proj2 (Z.ltb_ge _ (originSize L))), (proj2 (Z.ltb_ge _ (metaSeek L))), (proj2 (Z.ltb_lt _ _)) by lia. f_equal. lia. }
  destruct (pos <? slotsBegin L) eqn:E4; b2p.
  { rewrite w64_small by lia. split; [lia|]. split; [|done]. symmetry. apply Hz; [lia|]. intros k Hk. unfold vbyte.
    rewrite (proj2 (Z.ltb_ge _ (originSize L))), (proj2 (Z.ltb_ge _ (metaSeek L))), (proj2 (Z.ltb_ge _ (metaSeek L + _))), (proj2 (Z.ltb_lt _ _)) by lia. done. }
  destruct (chained_upper _ _ _ pos C ltac:(lia)) as (s & S1 & S2 & S3 & S4 & S5 & S6). unfold slot_of. rewrite w32_small by lia.
  assert (slot_at L (upper pos (slots L) - 1) = s) as -> by (unfold slot_at; by rewrite S1). rewrite !w64_small by (rewrite ?w64_small by lia; lia).
  split; [lia|]. cbn [shown src_ok]. split; [|split_and!; [lia..|]; exists s; split; [done|lia]]. symmetry. apply view_zsub; [lia|lia|rewrite (Hcontent _ _ S1); lia|]. intros k Hk. unfold vbyte.
  rewrite (proj2 (Z.ltb_ge _ (originSize L))), (proj2 (Z.ltb_ge _ (metaSeek L))), (proj2 (Z.ltb_ge _ (metaSeek L + _))), (proj2 (Z.ltb_ge _ (slotsBegin L))) by lia.
  rewrite S6 by lia. unfold slot_at. rewrite S1. cbn. f_equal. lia.
Qed.

(** Where the pieces go: one after another from [d]. *)
Fixpoint tiled (d : Z) (l : list Piece) : Prop := match l with [] => True | p :: l' => p_dest p = d /\ tiled (d + zlen (shown (p_src p))) l' end.
Definition had (c : CF) (need : list Z) (i : Z) : Prop := i ∈ need \/ state_of c i = kReady.
Lemma gone_spec rnt c i c' b : keptOriginalGone L rnt hasRange c i = (c', b) -> if b then forall k, k <> i -> state_of c' k = state_of c k else c' = c.
Proof.
  unfold keptOriginalGone. destruct (rnt || _); [by intros [= <- <-]|]. destruct (info c !! i) as [s|] eqn:Es; [|by intros [= <- <-]]. destruct (negb _ || _); [by intros [= <- <-]|].
  destruct (hasRange _ _); intros [= <- <-]; [done|]. intros k Hk. unfold forgetLocked. set (c0 := if decide _ then _ else c).
  assert (state_of c0 k = state_of c k) as <- by (unfold c0; destruct (decide _); [|done]; unfold state_of; cbn; by rewrite lookup_insert_ne).
  destruct (info c0 !! i); [|done]. unfold releaseMemLocked. destruct (mem _); [destruct (is_transient _)|]; done.
Qed.
Lemma classify_spec rnt fuel : forall off pos end_ c need, 0 <= off <= pos -> pos <= end_ <= virtualSize L -> end_ - pos <= Z.of_nat fuel ->
  exists l need' c', classify_from L rnt hasRange cachedRead fuel off pos end_ c need = Some (l, need', c') /\
    tiled (pos - off) l /\ concat ((fun p => shown (p_src p)) <$> l) = view pos (end_ - pos) /\ Forall (fun p => src_ok (p_src p)) l /\
    (forall i, had c need i -> had c' need' i) /\ (forall p i from n, p ∈ l -> p_src p = SSlot i from n -> had c' need' i).
Proof.
  pose proof (la_size _ HL). induction fuel as [|fuel IH]; intros off pos end_ c need Ho Hp Hf; cbn [classify_from].
  { rewrite (proj2 (Z.ltb_ge _ _)) by lia. exists [], need, c. replace (end_ - pos) with 0 by lia. rewrite view_nil. do 3 (split; [done|]). split; [constructor|]. split; [done|]. by intros p i from n []%elem_of_nil. }
  destruct (pos <? end_) eqn:E; b2p.
  2: { exists [], need, c. replace (end_ - pos) with 0 by lia. rewrite view_nil. do 3 (split; [done|]). split; [constructor|]. split; [done|]. by intros p i from n []%elem_of_nil. }
  pose proof (cut_spec pos end_ ltac:(lia) ltac:(lia)) as C. destruct (cut_at L hasRange cachedRead pos end_) as [src n]. destruct C as (C1 & C2 & C3).
  set (cn := match src with SSlot _ _ _ => _ | _ => (c, need) end).
  assert ((forall i, had c need i -> had (fst cn) (snd cn) i) /\ forall i from m, src = SSlot i from m -> had (fst cn) (snd cn) i) as [K1 K2].
  { unfold cn, had. destruct src as [b|o m|i from m]; [split; [done|by intros]..|]. destruct (decide (state_of c i = kReady)) as [Hr|Hr].
    - destruct (keptOriginalGone L rnt hasRange c i) as [c1 gone] eqn:Eg. pose proof (gone_spec _ _ _ _ _ Eg) as G. cbn [fst snd]. destruct gone.
      + split; [|intros ? ? ? [= <- <- <-]; left; apply elem_of_app; right; left]. intros k [Hk|Hk]; [left; apply elem_of_app; by left|].
        destruct (decide (k = i)) as [->|Hn]; [left; apply elem_of_app; right; left|right; by rewrite G].
      + subst c1. split; [done|]. intros ? ? ? [= <- <- <-]. by right.
    - cbn [fst snd]. split; [|intros ? ? ? [= <- <- <-]; left; apply elem_of_app; right; left]. intros k [Hk|Hk]; [left; apply elem_of_app; by left|by right]. }
  destruct cn as [c1 need1]. cbn [fst snd] in *. rewrite !w64_small by lia. destruct (IH off (pos + n) end_ c1 need1 ltac:(lia) ltac:(lia) ltac:(lia)) as (l & need' & c' & -> & T & V & Ok & N1 & N2).
  eexists _, _, _. split; [reflexivity|]. split; [|split; [|split; [|split]]].
  - cbn. split; [done|]. rewrite C2, zlen_view by lia. by replace (pos - off + n) with (pos + n - off) by lia.
  - rewrite fmap_cons. cbn [concat p_src]. rewrite V, C2, view_app by lia. f_equal. lia.
  - by apply Forall_cons.
  - intros i Hi. by apply N1, K1.
  - intros p i from m [-> |Hin]%elem_of_cons Hs; [cbn in Hs; eapply N1, K2, Hs|by eapply N2].
Qed.

(** ** A slot's bytes *)
Context (rnt : bool) `{CD : Codecs}.
(** What a reader finds in slot [i] of a record: the record and zeros, or the page decoded and its checksum. *)
Definition image (i : Z) (rec : bytes) : option bytes :=
  let len := vLen (slot_at L i) in
  if rnt then
    let page := if zlen rec =? len - NRewrite.kSlotChecksumBytes then rec else decompressFrames rec (len - NRewrite.kSlotChecksumBytes) in
    if zlen page =? len - NRewrite.kSlotChecksumBytes then Some (page ++ NRewrite.sealDecodedPage page) else None
  else if zlen rec <=? len then Some (rec ++ zeros (len - zlen rec)) else None.
Lemma zsub_cut (a b : bytes) from n : 0 <= from -> 0 <= n -> let k := if from <? zlen a then Z.min n (zlen a - from) else 0 in
  zsub (a ++ b) from n = zsub a from k ++ zsub b (Z.max from (zlen a) - zlen a) (n - k).
Proof.
  intros Hf Hn k. pose proof (zlen_nonneg a). unfold k. destruct (from <? zlen a) eqn:E; b2p.
  - set (m := Z.min n (zlen a - from)). replace n with (m + (n - m)) at 1 by lia. rewrite <- zsub_join by lia. f_equal; [apply zsub_app_l; lia|].
    destruct (decide (n - m = 0)) as [->|]; [by rewrite !zsub_0|]. rewrite zsub_app_r by lia. f_equal. lia.
  - rewrite zsub_app_r by lia. rewrite zsub_0. cbn [app]. f_equal; lia.
Qed.
Lemma map_zget (b : bytes) o lo hi : o <= lo -> hi - o <= zlen b -> map (fun p => zget b (p - o)) (zrange lo hi) = zsub b (lo - o) (hi - lo).
Proof.
  intros Ho Hh. destruct (Z.le_gt_cases hi lo).
  - rewrite zrange_nil by lia. unfold zsub. by replace (Z.to_nat (hi - lo)) with O by lia.
  - apply list_eq. intros k. change (map ?f ?l) with (f <$> l). rewrite list_lookup_fmap. unfold zsub, zrange. destruct (decide (Z.of_nat k < hi - lo)) as [Hk|Hk].
    + rewrite lookup_seqZ_lt, lookup_take_lt, lookup_drop by lia. cbn. unfold zget. replace (Z.to_nat (lo + Z.of_nat k - o)) with (Z.to_nat (lo - o) + k)%nat by lia.
      destruct (b !! (Z.to_nat (lo - o) + k)%nat) as [x|] eqn:E; [by rewrite (nth_lookup_Some _ _ _ _ E)|]. apply lookup_ge_None_1 in E. unfold zlen in *. lia.
    + rewrite lookup_seqZ_ge, lookup_take_ge by lia. done.
Qed.
Lemma copySlot_spec readStore w i s from n rec im : slots L !! Z.to_nat i = Some s -> 0 <= from -> 0 < n -> from + n <= vLen s -> (rnt = true -> NRewrite.kSlotChecksumBytes <= vLen s) -> vLen s < p32 ->
  slot_record L rnt hasRange cachedRead readStore w i = Some rec -> image i rec = Some im ->
  copySlot L rnt hasRange cachedRead readStore w i from n = Some (zsub im from n).
Proof.
  intros Hs Hf Hn Hl Hc Hv Hr Him. unfold copySlot. assert (slot_at L i = s) as Es by (unfold slot_at; by rewrite Hs). rewrite Es, Hr. unfold image in Him. rewrite Es in Him.
  rewrite w64_small by lia. rewrite (proj2 (Z.ltb_ge _ _)) by lia. destruct rnt.
  - specialize (Hc eq_refl). unfold NRewrite.kSlotChecksumBytes in *. rewrite w32_small by lia. set (page := if zlen rec =? vLen s - 8 then _ else _) in *.
    destruct (zlen page =? vLen s - 8) eqn:Ep; [|done]. b2p. injection Him as <-. cbn [negb]. f_equal. rewrite zsub_cut, Ep by lia.
    assert ((if from <? vLen s - 8 then Z.min n ((vLen s - 8) -% from) else 0) = if from <? vLen s - 8 then Z.min n (vLen s - 8 - from) else 0) as ->.
    { destruct (from <? vLen s - 8) eqn:E; [|done]. b2p. by rewrite w64_small by lia. }
    set (k := if from <? vLen s - 8 then _ else 0). f_equal.
    assert (zlen (NRewrite.sealDecodedPage page) = 8) as E8 by (unfold NRewrite.sealDecodedPage; by rewrite zlen_le_bytes).
    rewrite (map_ext_in _ (fun p => zget (NRewrite.sealDecodedPage page) (p - (vLen s - 8)))).
    + destruct (Z.le_gt_cases (from + n) (vLen s - 8)).
      * rewrite zrange_nil by lia. replace (n - k) with 0 by (unfold k; destruct (from <? vLen s - 8) eqn:E; b2p; lia). by rewrite zsub_0.
      * rewrite map_zget by lia. f_equal. unfold k. destruct (from <? vLen s - 8) eqn:E; b2p; lia.
    + intros p Hp%list_elem_of_In%elem_of_zrange. by rewrite w64_small by lia.
  - destruct (zlen rec <=? vLen s) eqn:Ep; [|done]. b2p. injection Him as <-. f_equal. rewrite zsub_cut by lia. pose proof (zlen_nonneg rec).
    assert ((if from <? zlen rec then Z.min n (zlen rec -% from) else 0) = if from <? zlen rec then Z.min n (zlen rec - from) else 0) as ->.
    { destruct (from <? zlen rec) eqn:E; [|done]. b2p. by rewrite w64_small by lia. }
    set (k := if from <? zlen rec then _ else 0). f_equal. symmetry. apply zsub_zeros; unfold k; destruct (from <? zlen rec) eqn:E; b2p; lia.
Qed.
Lemma image_len i rec im : (rnt = true -> NRewrite.kSlotChecksumBytes <= vLen (slot_at L i)) -> image i rec = Some im -> zlen im = vLen (slot_at L i).
Proof.
  unfold image. intros H. destruct rnt.
  - set (page := if _ =? _ then rec else _). destruct (zlen page =? _) eqn:E; [|done]. intros [= <-]. b2p. unfold NRewrite.sealDecodedPage, NRewrite.kSlotChecksumBytes in *. rewrite zlen_app, zlen_le_bytes. lia.
  - destruct (_ <=? _) eqn:E; [|done]. intros [= <-]. b2p. rewrite zlen_app, zlen_zeros by lia. lia.
Qed.
End view.

(** C31: A reader of a file in slots reads one file: of a request inside the shown size, the pieces lie one after another
    over its buffer and are, byte for byte, what the layout shows there - the windows, the original outside them, zeros up to
    the relocated record and after it, and each slot's record and padding, or its page decoded and its checksum - whatever
    of it the byte cache holds; each slot named is ready or is asked for; and from what the request holds of a slot, in memory, in the
    store or as the original kept, the bytes copied are those. *)
Theorem cold_request_exact `{CD : Codecs} L rnt hasRange cachedRead readStore (held : Z -> Where) orig content c off len :
  laid L -> zlen orig = originSize L -> (forall pos n b, cachedRead pos n = Some b -> b = zsub orig pos n) ->
  (forall i s, slots L !! Z.to_nat i = Some s -> vLen s < p32 /\ (rnt = true -> NRewrite.kSlotChecksumBytes <= vLen s) /\
     exists rec, slot_record L rnt hasRange cachedRead readStore (held i) i = Some rec /\ image L rnt i rec = Some (content i)) ->
  0 <= off -> 0 <= len -> off + len <= virtualSize L ->
  exists pieces need c', classify_chunk L rnt hasRange cachedRead off len c [] = Some (pieces, need, c') /\
    tiled orig content 0 pieces /\ concat ((fun p => shown orig content (p_src p)) <$> pieces) = view L orig content off len /\
    forall p i from n, p ∈ pieces -> p_src p = SSlot i from n ->
      (i ∈ need \/ state_of c' i = kReady) /\ copySlot L rnt hasRange cachedRead readStore (held i) i from n = Some (shown orig content (p_src p)).
Proof.
  intros HL Ho Hc Hs H0 H1 H2. pose proof (la_size _ HL).
  assert (forall i s, slots L !! Z.to_nat i = Some s -> zlen (content i) = vLen s) as Hl.
  { intros i s Hi. destruct (Hs i s Hi) as (_ & K & rec & _ & Im). assert (slot_at L i = s) as E by (unfold slot_at; by rewrite Hi). rewrite <- E in *. by apply (image_len L rnt i rec). }
  unfold classify_chunk. rewrite w64_small by lia. destruct (classify_spec L HL orig content Ho Hl hasRange cachedRead Hc rnt (Z.to_nat len) off off (off + len) c [] ltac:(lia) ltac:(lia) ltac:(lia))
    as (l & need & c' & E & T & V & Ok & _ & N). exists l, need, c'. rewrite Z.sub_diag in T. replace (off + len - off) with len in V by lia.
  split; [done|]. split; [done|]. split; [done|]. intros p i from n Hp Hsrc. split; [by eapply N|].
  rewrite Forall_forall in Ok. specialize (Ok p Hp). rewrite Hsrc in *. destruct Ok as (O1 & O2 & O3 & s & O4 & O5). destruct (Hs i s O4) as (S1 & S2 & rec & S3 & S4).
  by eapply copySlot_spec.
Qed.

(** ** An example: two windows' worth of a small file *)
Definition demo_L : FillLayout := mkLayout [] 10 29 [(0, [1; 2; 3]); (6, [9])] 16 [7; 8] 20 [mkSlot 4 3 20 5 0 0; mkSlot 7 3 25 4 0 1] [0].
Definition demo_orig : bytes := [10; 11; 12; 13; 14; 15; 16; 17; 18; 19].
Definition demo_held (i : Z) : Where := mkWhere kZstd false (Slots.mkSlot 0 0 0 0 0) (Some (if i =? 1 then [31; 32] else [41; 42; 43])).
Definition demo_content (i : Z) : bytes := if i =? 1 then [31; 32; 0; 0] else [41; 42; 43; 0; 0].
Definition demo_c : CF := mkCF ∅ ∅ ∅ [] 0 [] 0 false 0 0 0.
Lemma demo_laid : laid demo_L.
Proof.
  split.
  - repeat apply Forall_cons_2; [unfold window_ends, zlen; cbn; lia..|apply Forall_nil_2].
  - intros w1 w2 x H1 H2 C1 C2. cbn in H1, H2. unfold window_ends, zlen in *.
    repeat (apply elem_of_cons in H1 as [H1|H1]); repeat (apply elem_of_cons in H2 as [H2|H2]); try (by apply elem_of_nil in H1); try (by apply elem_of_nil in H2); subst; cbn in *; done || lia.
  - unfold zlen. cbn. lia.
  - unfold zlen. cbn. lia.
  - cbn. lia.
Qed.
Lemma cold_request_exact_witness : exists pieces need c',
  classify_chunk demo_L false (fun _ _ => false) (fun _ _ => None) 1 27 demo_c [] = Some (pieces, need, c') /\
  concat ((fun p => shown demo_orig demo_content (p_src p)) <$> pieces) = [2; 3; 13; 14; 15; 9; 17; 18; 19; 0; 0; 0; 0; 0; 0; 7; 8; 0; 0; 41; 42; 43; 0; 0; 31; 32; 0].
Proof.
  destruct (cold_request_exact (CD := stored) demo_L false (fun _ _ => false) (fun _ _ => None) (fun _ => None) demo_held demo_orig demo_content demo_c 1 27 demo_laid) as (pieces & need & c' & E & _ & V & _).
  - reflexivity.
  - done.
  - intros i s Hi. assert (i <= 0 \/ i = 1 \/ 2 <= i) as [H|[->|H]] by lia.
    + rewrite Z2Nat.nonpos in Hi by lia. injection Hi as <-. split; [cbn; lia|]. split; [done|]. unfold slot_record, image, demo_held, demo_content. assert (i =? 1 = false) as -> by lia.
      unfold slot_at. rewrite Z2Nat.nonpos by lia. exists [41; 42; 43]. split; reflexivity.
    + injection Hi as <-. split; [cbn; lia|]. split; [done|]. exists [31; 32]. split; reflexivity.
    + exfalso. apply lookup_lt_Some in Hi. cbn in Hi. lia.
  - lia.
  - lia.
  - cbn. lia.
  - exists pieces, need, c'. split; [exact E|]. rewrite V. vm_compute. reflexivity.
Defined.
End ColdView.
