(* ===== verification/ColdSlots.v ===== *)
(** * The slots of a file in use: what is always true of them (src/plugin/ColdRun.cc)

    Every ready slot can be served, the memory held beyond what waits to be committed is counted exactly and bounded, and
    nobody who waits is forgotten, as long as no batch of foreign entries names two awaited slots. *)

From stdpp Require Import sorting gmap.
From S2P Require Import Prelude IOBackend Crc32c FillLayout SlotStore ColdRun.
Local Open Scope u64_scope.

Module ColdSlots.
Import Fill Cold ColdFill.

(** ** The budget of what is served and not kept *)
Definition cost (s : Info) : Z := if is_transient s then match mem s with Some m => zlen m | None => 0 end else 0.
Definition cost_at (m : gmap Z Info) (i : Z) : Z := match m !! i with Some s => cost s | None => 0 end.
Definition held (m : gmap Z Info) : Z := map_fold (fun _ s n => cost s + n) 0 m.

Lemma cost_nonneg s : 0 <= cost s.
Proof. unfold cost. destruct (is_transient s), (mem s); try lia. apply zlen_nonneg. Qed.
Lemma held_insert m i s : m !! i = None -> held (<[i:=s]> m) = cost s + held m.
Proof. intros H. unfold held. rewrite map_fold_insert_L; [done| |done]. intros. lia. Qed.
Lemma held_delete m i : held m = cost_at m i + held (delete i m).
Proof.
  unfold cost_at. destruct (m !! i) as [s|] eqn:E; [|by rewrite delete_id].
  rewrite <- (insert_delete_id m i s E) at 1. apply held_insert, lookup_delete_eq.
Qed.
Lemma held_put m i s : held (<[i:=s]> m) = held m - cost_at m i + cost s.
Proof. rewrite (held_delete m i), <- insert_delete_eq, held_insert by apply lookup_delete_eq. lia. Qed.
Lemma held_nonneg m : 0 <= held m.
Proof.
  induction m as [|i s m H IH] using map_ind; [unfold held; by rewrite map_fold_empty|]. rewrite held_insert by done. pose proof (cost_nonneg s). lia.
Qed.
Lemma cost_at_le m i : 0 <= cost_at m i <= held m.
Proof. rewrite (held_delete m i). pose proof (held_nonneg (delete i m)). unfold cost_at. destruct (m !! i) as [s|]; [pose proof (cost_nonneg s)|]; lia. Qed.
Lemma cost_at_fresh m i : cost_at m i = cost (default new_info (m !! i)).
Proof. unfold cost_at. by destruct (m !! i). Qed.

(** The budget says what is held, within the file's share; and what it counts can be found to be dropped, and is in no store. *)
Definition counts (c : CF) : Prop := transientBytes c = held (info c) /\ transientBytes c <= kTransientBytes.
Definition listed (m : gmap Z Info) (dq : list Z) : Prop := forall i s, m !! i = Some s -> is_transient s = true -> i ∈ dq /\ inStore s = false /\ is_Some (mem s) /\ persist s = false.
Lemma release_spec c s : cost s <= transientBytes c <= kTransientBytes ->
  exists g, releaseMemLocked c s = (set_budget c (transientBytes c - cost s) g, with_mem s false None).
Proof.
  intros Hb. change kTransientBytes with 16777216 in Hb. unfold releaseMemLocked, cost in *. destruct (mem s) as [m|], (is_transient s).
  2,3,4: exists (g_transientTotal c); rewrite Z.sub_0_r; by destruct c.
  pose proof (zlen_nonneg m). rewrite Z.min_r by lia. rewrite w64_small by lia. by eexists.
Qed.
(** [s] holds in memory what is known of slot [i], whatever else was changed in it. *)
Lemma release_at c i s : counts c -> cost s = cost_at (info c) i ->
  exists g, releaseMemLocked c s = (set_budget c (transientBytes c - cost_at (info c) i) g, with_mem s false None).
Proof. intros [H1 H2] E. rewrite <- E. apply release_spec. pose proof (cost_at_le (info c) i). lia. Qed.
Lemma counts_put c i s g : counts c -> is_transient s = false -> counts (put_info (set_budget c (transientBytes c - cost_at (info c) i) g) i s).
Proof. intros [H1 H2] Hs. pose proof (cost_at_le (info c) i). split; cbn; [|lia]. rewrite held_put. unfold cost at 1. rewrite Hs. lia. Qed.
Lemma counts_delete c i g : counts c -> counts (set_info (set_budget c (transientBytes c - cost_at (info c) i) g) (delete i (info c))).
Proof. intros [H1 H2]. pose proof (cost_at_le (info c) i). split; cbn; [|lia]. pose proof (held_delete (info c) i). lia. Qed.
Lemma listed_put m dq i s : listed m dq -> is_transient s = false -> listed (<[i:=s]> m) dq.
Proof. intros H Hs j s' Hj Ht. destruct (decide (j = i)) as [->|]; [rewrite lookup_insert_eq in Hj; congruence|]. rewrite lookup_insert_ne in Hj by done. by eapply H. Qed.
Lemma listed_delete m dq i : listed m dq -> listed (delete i m) dq.
Proof. intros H j s' [_ Hj]%lookup_delete_Some Ht. by eapply H. Qed.

(** ** Ready means servable *)
Section file.
Context (L : FillLayout) (rnt : bool).
Definition servable (s : Info) : Prop := inStore s = true \/ is_Some (mem s) \/ (rnt = false /\ i_kind s = kOriginal).
Definition fine (c : CF) (i : Z) : Prop :=
  match info c !! i with Some s => state_of c i = kReady /\ servable s | None => state_of c i <> kReady end.

Lemma state_of_set c i s k : state_of (set_state c i s) k = if decide (k = i) then s else state_of c k.
Proof. unfold state_of. cbn. destruct (decide (k = i)) as [->|]; [by rewrite lookup_insert_eq|by rewrite lookup_insert_ne]. Qed.

(** Forgetting one slot. *)
Record forgotten_at (i : Z) (c c' : CF) : Prop := {
  fg_info : info c' = delete i (info c);
  fg_state : forall k, state_of c' k = if decide (k = i /\ state_of c i = kReady) then kAbsent else state_of c k;
  fg_waiters : waiters c' = waiters c; fg_deque : transient c' = transient c; fg_counts : counts c';
  fg_less : transientBytes c' <= transientBytes c }.
Lemma forget_spec c i : counts c -> forgotten_at i c (forgetLocked c i).
Proof.
  intros Hc. unfold forgetLocked. set (c0 := if decide (state_of c i = kReady) then _ else c).
  assert (info c0 = info c /\ waiters c0 = waiters c /\ transient c0 = transient c /\ transientBytes c0 = transientBytes c) as (E1 & E2 & E3 & E4) by (unfold c0; by destruct (decide _)).
  assert (forall k, state_of c0 k = if decide (k = i /\ state_of c i = kReady) then kAbsent else state_of c k) as E5.
  { intros k. unfold c0. destruct (decide (state_of c i = kReady)) as [Hr|Hr]; [rewrite state_of_set; destruct (decide (k = i))|]; destruct (decide (k = i /\ _)); tauto. }
  assert (counts c0) as Hc0 by (unfold counts in *; rewrite E1, E4; done). clearbody c0.
  destruct (info c0 !! i) as [s|] eqn:Es.
  - destruct (release_at c0 i s Hc0) as [g ->]; [unfold cost_at; by rewrite Es|]. split; cbn; try done; [by rewrite E1|by apply (counts_delete c0 i g)|].
    pose proof (cost_at_le (info c0) i). lia.
  - split; try done; [by rewrite <- E1, delete_id|lia].
Qed.
Lemma fine_forget c i k : counts c -> fine c k -> fine (forgetLocked c i) k.
Proof.
  intros Hc Hk. destruct (forget_spec c i Hc). unfold fine. rewrite fg_info0, fg_state0. destruct (decide (k = i)) as [->|Hn].
  - rewrite lookup_delete_eq. destruct (decide (i = i /\ state_of c i = kReady)); naive_solver.
  - rewrite lookup_delete_ne by done. destruct (decide _); [naive_solver|]. exact Hk.
Qed.

(** What changes nothing of who waits and who fetches, but perhaps at [i]. *)
Definition quiet (X : Z -> Prop) (c c' : CF) : Prop :=
  waiters c' = waiters c /\ forall k, ~ X k -> (state_of c' k = kFetching <-> state_of c k = kFetching).
Definition never (_ : Z) : Prop := False.
Lemma quiet_refl X c : quiet X c c.
Proof. by split. Qed.
Lemma quiet_trans X c1 c2 c3 : quiet X c1 c2 -> quiet X c2 c3 -> quiet X c1 c3.
Proof. intros [A1 A2] [B1 B2]. split; [by rewrite B1|]. intros k Hk. by rewrite B2, A2. Qed.
Lemma quiet_weaken (X Y : Z -> Prop) c c' : (forall k, X k -> Y k) -> quiet X c c' -> quiet Y c c'.
Proof. intros H [A1 A2]. split; [done|]. intros k Hk. apply A2. auto. Qed.
Lemma quiet_forget X c i : counts c -> quiet X c (forgetLocked c i).
Proof.
  intros Hc. destruct (forget_spec c i Hc). split; [done|]. intros k _. rewrite fg_state0. destruct (decide _) as [[-> E]|]; [|done]. by rewrite E.
Qed.

(** *** Making room *)
Lemma make_room_spec i b dq : forall c lost, counts c -> listed (info c) dq -> cost_at (info c) i = 0 ->
  (forall s, info c !! i = Some s -> is_transient s = false) ->
  let '(dq', c', _) := make_room i b dq c lost in
  counts c' /\ listed (info c') dq' /\ quiet never c c' /\ (forall k, fine c k -> fine c' k) /\ info c' !! i = info c !! i.
Proof.
  induction dq as [|j dq IH]; intros c lost Hc Hl Hi Hs; cbn [make_room].
  { split_and!; try done; apply Hc. }
  destruct (over c b); cbn [negb]; [|split_and!; try done; apply Hc].
  assert (forall m, listed m (j :: dq) -> (forall s, m !! j = Some s -> is_transient s = false) -> listed m dq) as Hdrop.
  { intros m Hm Hj k s Hk Ht. destruct (Hm k s Hk Ht) as [Hin Hst]. split; [|done]. apply elem_of_cons in Hin as [->|]; [|done]. specialize (Hj s Hk). congruence. }
  destruct (j =? i) eqn:Ej; b2p; [subst j; apply IH; [done|by apply Hdrop|done..]|].
  destruct (info c !! j) as [s|] eqn:Es.
  2: { apply IH; try done. apply Hdrop; [done|]. intros s. by rewrite Es. }
  destruct (is_transient s && negb (inStore s)) eqn:Et.
  - pose proof (forget_spec c j Hc) as F. destruct F. assert (i <> j) as Hij by done.
    specialize (IH (forgetLocked c j) (lost + 1) fg_counts0). rewrite fg_info0 in IH.
    assert (forall s', delete j (info c) !! j = Some s' -> is_transient s' = false) as Hd by (intros s'; by rewrite lookup_delete_eq).
    specialize (IH (Hdrop _ (listed_delete _ _ j Hl) Hd)). unfold cost_at in IH, Hi. rewrite !lookup_delete_ne in IH by done. specialize (IH Hi Hs).
    destruct (make_room i b dq (forgetLocked c j) (lost + 1)) as [[dq' c'] l']. destruct IH as (A1 & A2 & A3 & A4 & A5).
    split; [done|]. split; [done|]. split; [eapply quiet_trans; [by apply quiet_forget|done]|]. split; [intros k Hk; by apply A4, fine_forget|done].
  - apply IH; try done. apply Hdrop; [done|]. intros s' E. rewrite Es in E. injection E as <-.
    destruct (is_transient s) eqn:Ets; [|done]. destruct (Hl j s Es Ets) as (_ & Hst & _). by rewrite Hst in Et.
Qed.

(** *** Staging a record *)
Lemma fine_ext c c' k : info c' !! k = info c !! k -> state_of c' k = state_of c k -> fine c k -> fine c' k.
Proof. unfold fine. by intros -> ->. Qed.
Lemma quiet_same X c c' : waiters c' = waiters c -> state c' = state c -> quiet X c c'.
Proof. intros H1 H2. split; [done|]. intros k _. unfold state_of. by rewrite H2. Qed.
Lemma counts_same c i s : counts c -> cost s = cost_at (info c) i -> counts (put_info c i s).
Proof. intros [H1 H2] Hs. split; cbn; [|done]. rewrite held_put. lia. Qed.

Record staged (i : Z) (c c1 : CF) (s1 : Info) (keep : bool) : Prop := {
  sg_fine : forall k, k <> i -> fine c k -> fine c1 k;
  sg_servable : keep = true -> servable s1;
  sg_counts : if keep then counts (put_info c1 i s1) else counts c1 /\ cost_at (info c1) i = 0;
  sg_listed : if keep then listed (<[i:=s1]> (info c1)) (transient c1) else listed (info c1) (transient c1);
  sg_quiet : quiet never c c1 }.

Lemma over_false c b : counts c -> 0 <= b < p63 -> over c b = false -> transientBytes c +% b = transientBytes c + b /\ transientBytes c + b <= kTransientBytes.
Proof.
  intros [H1 H2] Hb [Ho _]%orb_false_iff. pose proof (held_nonneg (info c)). change kTransientBytes with 16777216 in *. rewrite w64_small in * by lia. b2p. lia.
Qed.
Lemma stage_kept_spec hasRange i k rec cached c s : counts c -> listed (info c) (transient c) -> info c !! i = Some s -> is_transient s = false -> mem s = None ->
  inStore s = false -> zlen rec < p63 ->
  let '(c1, s1, keep, _, _) := stage_kept L rnt hasRange c i s k rec cached in staged i c c1 s1 keep.
Proof.
  intros Hc Hl Hi Ht Hm Hs Hr. unfold stage_kept. pose proof (zlen_nonneg rec).
  set (fs := slot_at L i). destruct (negb rnt && bool_decide (k = kOriginal) && hasRange (origSeek fs) (origLen fs)) eqn:Ec.
  { assert (servable (mkInfo k (inStore s) false cached (is_transient s) (i_e s) (mem s)) /\ forall p m, servable (mkInfo k (inStore s) p cached (is_transient s) (i_e s) m)) as [Sv0 Sv].
    { apply andb_true_iff in Ec as [Ec _]. apply andb_true_iff in Ec as [Ec1 Ec2]. apply bool_decide_eq_true in Ec2. split; intros; right; right; (split; [by destruct rnt|done]). }
    assert (forall p, cost (mkInfo k (inStore s) p cached (is_transient s) (i_e s) None) = cost_at (info c) i) as Hcost.
    { intros p. unfold cost_at. rewrite Hi. unfold cost. by rewrite Ht. }
    destruct (negb (storeGone c) && _); cbn [with_mem i_kind inStore persist fromCache is_transient i_e mem]; rewrite ?Hm; (split; [|intros _; apply Sv| | |]).
    all: try (intros j _; by apply fine_ext). all: try (by apply quiet_same). all: try (by apply listed_put).
    - pose proof (counts_same c i _ Hc (Hcost true)) as [P1 P2]. by split.
    - by apply counts_same. }
  destruct (negb (storeGone c) && _); cbn [with_mem i_kind inStore persist fromCache is_transient i_e mem].
  { split; [intros j _; by apply fine_ext|intros _; right; left; by eexists| |by apply listed_put|by apply quiet_same].
    assert (cost (mkInfo k (inStore s) true cached (is_transient s) (i_e s) (Some rec)) = cost_at (info c) i) as Hcost.
    { unfold cost_at. rewrite Hi. unfold cost. by rewrite Ht. }
    pose proof (counts_same c i _ Hc Hcost) as [P1 P2]. by split. }
  assert (cost_at (info c) i = 0) as Hz by (unfold cost_at; rewrite Hi; unfold cost; by rewrite Ht).
  pose proof (make_room_spec i (zlen rec) (transient c) c 0 Hc Hl Hz) as M. specialize (M ltac:(intros s' E; congruence)).
  destruct (make_room i (zlen rec) (transient c) c 0) as [[dq c1] lost]. destruct M as (M1 & M2 & M3 & M4 & M5).
  assert (cost_at (info c1) i = 0) as Hz1 by (unfold cost_at in *; by rewrite M5).
  destruct (over (set_transient c1 dq) (zlen rec)) eqn:Eo.
  - split; [intros j _ Hj; apply (fine_ext c1); [done..|by apply M4]|done|by split|done|]. eapply quiet_trans; [exact M3|by apply quiet_same].
  - destruct (over_false (set_transient c1 dq) (zlen rec) M1 ltac:(lia) Eo) as [O1 O2]. cbn [transientBytes set_transient] in *. split.
    + intros j _ Hj; apply (fine_ext c1); [done..|by apply M4].
    + intros _. right; left. by eexists.
    + destruct M1 as [C1 C2]. split; cbn; [|lia]. rewrite O1, held_put, Hz1. unfold cost. cbn. lia.
    + cbn. intros j s' Hj Htj. destruct (decide (j = i)) as [->|Hn].
      * rewrite lookup_insert_eq in Hj. injection Hj as <-. split; [apply elem_of_app; right; left|by split_and!; [|eexists|]].
      * rewrite lookup_insert_ne in Hj by done. destruct (M2 j s' Hj Htj) as [Hin Hst]. split; [apply elem_of_app; by left|done].
    + eapply quiet_trans; [exact M3|by apply quiet_same].
Qed.

(** Every slot fine, the counts exact. *)
Record good (c : CF) : Prop := { gd_fine : forall i, fine c i; gd_counts : counts c; gd_listed : listed (info c) (transient c) }.
(** Who waits is told of [i], and it is no longer being fetched. *)
Record settles (i : Z) (c c' : CF) : Prop := {
  se_waiters : waiters c' = delete i (waiters c); se_here : state_of c' i <> kFetching;
  se_state : forall k, k <> i -> (state_of c' k = kFetching <-> state_of c k = kFetching) }.
Lemma take_spec c i out : takeWaitersLocked c i out = (set_waiters c (delete i (waiters c)), default out (waiters c !! i)).
Proof. unfold takeWaitersLocked. destruct (waiters c !! i) eqn:E; [done|]. cbn. rewrite delete_id by done. by destruct c. Qed.

Definition waiting_at (c : CF) (i : Z) : list Z := default [] (waiters c !! i).
Lemma good_stage hasRange c i k rec cached keepIt : good c -> zlen rec < p63 ->
  let '(c', ts, _, _) := stage L rnt hasRange c i k rec cached keepIt in
  good c' /\ settles i c c' /\ ts = told (waiting_at c i) true (Some rec).
Proof.
  intros [Hf Hc Hl] Hr. unfold stage. set (s := default new_info (info c !! i)).
  set (x := if inStore s then _ else _).
  assert (let '(c1, s1, keep, _, _) := x in staged i c c1 s1 keep) as Hx.
  { unfold x. pose proof (cost_at_fresh (info c) i) as Hcost. fold s in Hcost. destruct (inStore s) eqn:Es.
    - assert (is_transient s = false) as Ht.
      { unfold s in *. destruct (info c !! i) as [s'|] eqn:E; [|done]. cbn in *. destruct (is_transient s') eqn:Et; [|done]. destruct (Hl i s' E Et) as (_ & ? & _). congruence. }
      split; [intros j Hj; apply fine_ext; [cbn; by rewrite lookup_insert_ne|done]|intros _; by left| | |by apply quiet_same].
      + apply counts_same; [by apply counts_same|]. cbn. unfold cost_at. by rewrite lookup_insert_eq.
      + cbn. rewrite insert_insert_eq. by apply listed_put.
    - destruct (release_at c i s Hc) as [g ->]; [done|]. set (c0 := put_info _ i _).
      assert (counts c0) as Hc0 by (by apply counts_put). assert (listed (info c0) (transient c0)) as Hl0 by (by apply listed_put).
      assert (info c0 !! i = Some (with_mem s false None)) as Hi0 by apply lookup_insert_eq.
      assert (forall j, j <> i -> fine c j -> fine c0 j) as Hf0 by (intros j Hj; apply fine_ext; [cbn; by rewrite lookup_insert_ne|done]).
      destruct keepIt.
      + pose proof (stage_kept_spec hasRange i k rec cached c0 _ Hc0 Hl0 Hi0 eq_refl eq_refl Es Hr) as K.
        destruct (stage_kept _ _ _ _ _ _ _ _ _) as [[[[c1 s1] keep] lost] kick]. destruct K. split; try done. intros j Hj Hfj. by apply sg_fine0, Hf0.
      + split; try done. split; [done|]. unfold cost_at. by rewrite Hi0. }
  destruct x as [[[[c1 s1] keep] lost] kick]. rewrite take_spec. destruct Hx. destruct sg_quiet0 as [Q1 Q2].
  rewrite Q1. unfold waiting_at. split; [|split; [|done]].
  - destruct keep; (split; [intros j|..]).
    + destruct (decide (j = i)) as [->|Hn]; [|by apply (fine_ext c1); [cbn; rewrite lookup_insert_ne|rewrite state_of_set, decide_False|apply sg_fine0]].
      unfold fine. cbn. rewrite lookup_insert_eq, state_of_set, decide_True by done. split; [done|by apply sg_servable0].
    + exact sg_counts0.
    + exact sg_listed0.
    + destruct (decide (j = i)) as [->|Hn]; [|by apply (fine_ext c1); [cbn; rewrite lookup_delete_ne|rewrite state_of_set, decide_False|apply sg_fine0]].
      unfold fine. cbn. by rewrite lookup_delete_eq, state_of_set, decide_True by done.
    + destruct sg_counts0 as [[C1 C2] C3]. split; cbn; [|done]. pose proof (held_delete (info c1) i). lia.
    + by apply listed_delete.
  - assert (forall c' s', state c' = state c1 -> waiters c' = delete i (waiters c) -> s' <> kFetching -> settles i c (set_state c' i s')) as St.
    { intros c' s' E1 E2 Hs. split; [done|by rewrite state_of_set, decide_True|]. intros j Hj. rewrite state_of_set, decide_False by done. rewrite <- Q2 by (intros []). unfold state_of. by rewrite E1. }
    destruct keep; by apply St.
Qed.


(** *** The other operations *)
Lemma good_put c i s s2 g : good c -> info c !! i = Some s -> is_transient s2 = false -> servable s2 ->
  good (put_info (set_budget c (transientBytes c - cost_at (info c) i) g) i s2).
Proof.
  intros [Hf Hc Hl] Hi Ht Hs. split; [|by apply counts_put|by apply listed_put]. intros j. specialize (Hf j). destruct (decide (j = i)) as [->|Hn].
  - unfold fine in *. rewrite Hi in Hf. cbn. rewrite lookup_insert_eq. split; [apply Hf|done].
  - apply (fine_ext c); [cbn; by rewrite lookup_insert_ne|done..].
Qed.
(** The record goes, the rest stays as [s2] says. *)
Lemma good_release c i s s2 : good c -> info c !! i = Some s -> is_transient s2 = is_transient s -> mem s2 = mem s -> servable (with_mem s2 false None) ->
  let '(c', s') := releaseMemLocked c s2 in good (put_info c' i s') /\ quiet never c (put_info c' i s').
Proof.
  intros Hg Hi Ht Hm Hs. destruct (release_at c i s2 (gd_counts _ Hg)) as [g ->]; [unfold cost_at; rewrite Hi; unfold cost; by rewrite Ht, Hm|].
  split; [by eapply good_put|by apply quiet_same].
Qed.
Lemma good_forget c i : good c -> good (forgetLocked c i).
Proof.
  intros [Hf Hc Hl]. destruct (forget_spec c i Hc). split; [intros j; by apply fine_forget|done|]. rewrite fg_info0, fg_deque0. by apply listed_delete.
Qed.
Lemma good_collect_one i cr : good (fst cr) -> good (fst (collect_one cr i)) /\ quiet never (fst cr) (fst (collect_one cr i)).
Proof.
  destruct cr as [c recs]. cbn [fst]. intros Hg. unfold collect_one. destruct (info c !! i) as [s|] eqn:Ei; [|done]. destruct (inStore s) eqn:Es.
  - pose proof (good_release c i s (with_persist s false) Hg Ei eq_refl eq_refl ltac:(by left)) as H. by destruct (releaseMemLocked _ _).
  - destruct (negb (persist s) || _ || _); [done|]. cbn [fst]. split; [|by apply quiet_same]. destruct Hg as [Hf Hc Hl]. split.
    + intros j. specialize (Hf j). destruct (decide (j = i)) as [->|Hn]; [|apply (fine_ext c); [cbn; by rewrite lookup_insert_ne|done..]].
      unfold fine in *. rewrite Ei in Hf. cbn. rewrite lookup_insert_eq. exact Hf.
    + apply counts_same; [done|]. unfold cost_at. rewrite Ei. done.
    + intros j s' Hj Ht. cbn in *. destruct (decide (j = i)) as [->|Hn]; [|rewrite lookup_insert_ne in Hj by done; by eapply Hl].
      rewrite lookup_insert_eq in Hj. injection Hj as <-. destruct (Hl i s Ei Ht) as (B1 & B2 & B3 & _). done.
Qed.
(** The deque is walked once, and what it named is counted no more. *)
Lemma good_collect_transient j dq cr : good (fst cr) -> listed (info (fst cr)) (j :: dq) ->
  let cr' := collect_transient cr j in good (fst cr') /\ quiet never (fst cr) (fst cr') /\ listed (info (fst cr')) dq.
Proof.
  destruct cr as [c recs]. cbn [fst]. intros Hg Hl. unfold collect_transient.
  assert ((forall s, info c !! j = Some s -> is_transient s = false) -> listed (info c) dq) as Hdrop.
  { intros Hj k s Hk Ht. destruct (Hl k s Hk Ht) as [Hin Hr]. split; [|done]. apply elem_of_cons in Hin as [->|]; [|done]. specialize (Hj s Hk). congruence. }
  destruct (info c !! j) as [s|] eqn:Ei; [|by split_and!; [| |apply Hdrop]].
  destruct (mem s) as [m|] eqn:Em.
  - destruct (negb (is_transient s) || inStore s) eqn:Et.
    + split_and!; [done|done|]. apply Hdrop. intros s' [= <-]. destruct (is_transient s) eqn:Et'; [|done]. destruct (Hl j s Ei Et') as (_ & Hst & _). by rewrite Hst in Et.
    + destruct (release_at c j s (gd_counts _ Hg)) as [g ->]; [unfold cost_at; by rewrite Ei|]. cbn [fst]. split_and!.
      * eapply good_put; [done|done|done|]. right. left. by eexists.
      * by apply quiet_same.
      * intros k s' Hk Ht. cbn in Hk. destruct (decide (k = j)) as [->|Hn]; [rewrite lookup_insert_eq in Hk; injection Hk as <-; done|].
        rewrite lookup_insert_ne in Hk by done. destruct (Hl k s' Hk Ht) as [Hin Hr]. split; [|done]. by apply elem_of_cons in Hin as [|].
  - split_and!; [done|done|]. apply Hdrop. intros s' [= <-]. destruct (is_transient s) eqn:Et'; [|done]. destruct (Hl j s Ei Et') as (_ & _ & Hsm & _). rewrite Em in Hsm. by destruct Hsm.
Qed.

Lemma good_fold {A} (f : CF -> A -> CF) l : (forall c x, good c -> good (f c x) /\ quiet never c (f c x)) ->
  forall c, good c -> good (foldl f c l) /\ quiet never c (foldl f c l).
Proof.
  intros Hf. induction l as [|x l IH]; intros c Hg; cbn [foldl]; [done|]. destruct (Hf c x Hg) as [G1 Q1]. destruct (IH _ G1) as [G2 Q2].
  split; [done|]. by eapply quiet_trans.
Qed.
Lemma foldl_fst {A B S} (f : A * S -> B -> A * S) (P : A -> Prop) (R : A -> A -> Prop) `{!PreOrder R} l :
  (forall x b, P (fst x) -> P (fst (f x b)) /\ R (fst x) (fst (f x b))) -> forall x, P (fst x) -> P (fst (foldl f x l)) /\ R (fst x) (fst (foldl f x l)).
Proof.
  intros Hf. induction l as [|b l IH]; intros x Hx; cbn [foldl]; [by split|]. destruct (Hf x b Hx) as [H1 H2]. destruct (IH _ H1) as [H3 H4]. split; [done|]. by etrans.
Qed.
#[local] Instance quiet_preorder : PreOrder (quiet never).
Proof. split; [by intros c|]. intros c1 c2 c3. apply quiet_trans. Qed.
Lemma good_same c c' : info c' = info c -> state c' = state c -> transient c' = transient c -> transientBytes c' = transientBytes c -> good c -> good c'.
Proof.
  intros E1 E2 E3 E4 [Hf Hc Hl]. split; [intros i; apply (fine_ext c); [by rewrite E1|unfold state_of; by rewrite E2|done]|unfold counts; by rewrite E1, E4|by rewrite E1, E3].
Qed.
Lemma good_collect c : good c -> good (fst (collect c)) /\ quiet never c (fst (collect c)).
Proof.
  intros Hg. unfold collect. destruct (foldl_fst collect_one good (quiet never) (pending c) ltac:(intros x b; apply good_collect_one) (c, []) Hg) as [G1 Q1].
  destruct (foldl collect_one (c, []) (pending c)) as [c1 recs]. cbn [fst] in *. set (c2 := set_pending c1 [] 0 _).
  assert (good c2 /\ quiet never c c2) as [G2 Q2] by (split; [by apply (good_same c1)|by eapply quiet_trans; [exact Q1|apply quiet_same]]). clearbody c2.
  destruct (storeGone c2); [done|].
  assert (forall dq cr, good (fst cr) -> listed (info (fst cr)) dq -> let cr' := foldl collect_transient cr dq in good (fst cr') /\ quiet never (fst cr) (fst cr') /\ listed (info (fst cr')) []) as Hfold.
  { induction dq as [|j dq IH]; intros cr G Hl; cbn [foldl]; [done|]. destruct (good_collect_transient j dq cr G Hl) as (A1 & A2 & A3). destruct (IH _ A1 A3) as (B1 & B2 & B3).
    split; [done|]. split; [by etrans|done]. }
  destruct (Hfold (transient c2) (c2, recs) G2 (gd_listed _ G2)) as (A1 & A2 & A3). destruct (foldl collect_transient _ _) as [c3 recs3]. cbn [fst] in *. split.
  - destruct A1 as [F1 F2 F3]. split; [intros i; apply (fine_ext c3); [done..|apply F1]|done|done].
  - etrans; [exact Q2|]. etrans; [exact A2|]. by apply quiet_same.
Qed.
Lemma good_releaseCollected recs c : good c -> good (releaseCollected c recs) /\ quiet never c (releaseCollected c recs).
Proof.
  apply good_fold. intros c0 r Hg. destruct (info c0 !! Slots.rslot r) as [s|]; [|done]. destruct (negb (inStore s) && negb (persist s)); [|done].
  split; [by apply good_forget|apply quiet_forget, Hg].
Qed.
Lemma good_skip_one c r : good c -> good (skip_one c r) /\ quiet never c (skip_one c r).
Proof.
  intros Hg. unfold skip_one. destruct (info c !! Slots.rslot r) as [s|] eqn:Ei; [|done]. destruct (inStore s) eqn:Es; [|done].
  pose proof (good_release c _ s (with_persist s false) Hg Ei eq_refl eq_refl ltac:(by left)) as H. by destruct (releaseMemLocked _ _).
Qed.
Lemma good_land_one ko x e : good (fst (fst x)) -> good (fst (fst (land_one L ko x e))) /\ quiet never (fst (fst x)) (fst (fst (land_one L ko x e))).
Proof.
  destruct x as [[c punch] forgotten]. cbn [fst]. intros Hg. unfold land_one. destruct (info c !! Slots.slot e) as [s|] eqn:Ei; [|done].
  pose proof (good_release c _ s (mkInfo (basketKind (Slots.kind e)) true false false (is_transient s) e (mem s)) Hg Ei eq_refl eq_refl ltac:(by left)) as H.
  by destruct (releaseMemLocked _ _).
Qed.

(** ** Who waits *)
Definition waiters_ok (c : CF) : Prop := forall i l, waiters c !! i = Some l -> state_of c i = kFetching.
(** Nothing starts to be fetched, and who waits, waits for something fetched. *)
Definition calm (c c' : CF) : Prop := (waiters_ok c -> waiters_ok c') /\ forall k, state_of c' k = kFetching -> state_of c k = kFetching.
#[local] Instance calm_preorder : PreOrder calm.
Proof. split; [by intros c|]. intros c1 c2 c3 [A1 A2] [B1 B2]. split; [tauto|]. intros k Hk. by apply A2, B2. Qed.
Lemma quiet_calm c c' : quiet never c c' -> calm c c'.
Proof.
  intros [A1 A2]. split; [|intros k; by rewrite A2 by intros []]. intros H i l Hi. rewrite A1 in Hi. rewrite A2 by intros []. by eapply H.
Qed.
Lemma settles_calm i c c' : settles i c c' -> calm c c'.
Proof.
  intros [A1 A2 A3]. split.
  - intros H k l Hk. rewrite A1 in Hk. apply lookup_delete_Some in Hk as [Hn Hk]. apply A3; [done|]. by eapply H.
  - intros k Hk. destruct (decide (k = i)) as [->|Hn]; [done|]. by apply A3.
Qed.

Definition waiting (m : gmap Z (list Z)) : list Z := concat (snd <$> map_to_list m).
Lemma waiting_delete m i : waiting m ≡ₚ default [] (m !! i) ++ waiting (delete i m).
Proof.
  unfold waiting. destruct (m !! i) as [l|] eqn:E; [|by rewrite delete_id]. rewrite <- (map_to_list_delete m i l E). by rewrite fmap_cons.
Qed.
Lemma waiting_insert m i l : waiting (<[i:=l]> m) ≡ₚ l ++ waiting (delete i m).
Proof. rewrite (waiting_delete _ i), lookup_insert_eq. cbn. by rewrite delete_insert_eq. Qed.

Lemma apply_one_spec c wake e : good c -> waiters_ok c ->
  let '(c', wake') := apply_one L (c, wake) e in
  good c' /\ calm c c' /\
  ((waiters c' = waiters c /\ wake' = wake) \/ (waiters c' = delete (Slots.slot e) (waiters c) /\ waiters c !! Slots.slot e = Some wake')).
Proof.
  intros Hg Hw. unfold apply_one. set (i := Slots.slot e). destruct (zlen (slots L) <=? i); [by split_and!; [| |left]|].
  set (s := default new_info (info c !! i)). pose proof (cost_at_fresh (info c) i) as Hcost. fold s in Hcost.
  destruct (release_at c i (mkInfo (basketKind (Slots.kind e)) true (persist s) (fromCache s) (is_transient s) e (mem s)) (gd_counts _ Hg)) as [g ->]; [done|].
  set (s2 := with_persist _ false). set (c1 := put_info _ i s2).
  assert (counts c1) as C1 by (apply counts_put; [apply Hg|done]). assert (listed (info c1) (transient c1)) as L1 by (apply listed_put; [apply Hg|done]).
  assert (forall k, k <> i -> fine c1 k) as F1 by (intros k Hk; apply (fine_ext c); [cbn; by rewrite lookup_insert_ne|done|apply Hg]).
  assert (info c1 !! i = Some s2) as I1 by apply lookup_insert_eq.
  change (state_of c1 i) with (state_of c i). destruct (decide (state_of c i = kReady)) as [Hr|Hr].
  - split_and!; [|by apply quiet_calm, quiet_same|by left]. split; [|done|done]. intros k. destruct (decide (k = i)) as [->|]; [|auto].
    unfold fine. rewrite I1. split; [exact Hr|by left].
  - rewrite take_spec. cbn [waiters set_state]. change (waiters c1) with (waiters c). set (c2 := set_waiters _ _). split_and!.
    + split; [|done|done]. intros k. destruct (decide (k = i)) as [->|Hk].
      * unfold fine. change (info c2) with (info c1). rewrite I1. change (state_of c2 i) with (state_of (set_state c1 i kReady) i). rewrite state_of_set, decide_True by done. split; [done|by left].
      * apply (fine_ext c1); [done| |auto]. change (state_of c2 k) with (state_of (set_state c1 i kReady) k). by rewrite state_of_set, decide_False.
    + apply (settles_calm i). split; [done| |].
      * change (state_of c2 i) with (state_of (set_state c1 i kReady) i). by rewrite state_of_set, decide_True.
      * intros k Hk. change (state_of c2 k) with (state_of (set_state c1 i kReady) k). by rewrite state_of_set, decide_False.
    + destruct (waiters c !! i) as [l|] eqn:El; cbn; [by right|]. left. by rewrite delete_id.
Qed.
Lemma apply_one_good x e : good (fst x) /\ waiters_ok (fst x) -> (good (fst (apply_one L x e)) /\ waiters_ok (fst (apply_one L x e))) /\ calm (fst x) (fst (apply_one L x e)).
Proof.
  destruct x as [c wake]. cbn [fst]. intros [Hg Hw]. pose proof (apply_one_spec c wake e Hg Hw) as H. destruct (apply_one L (c, wake) e) as [c' wake']. cbn [fst].
  destruct H as (G & K & _). split; [|done]. split; [done|by apply K].
Qed.
Lemma good_apply c es : good c -> waiters_ok c -> good (fst (apply L c es)) /\ calm c (fst (apply L c es)).
Proof.
  intros Hg Hw. destruct (foldl_fst (apply_one L) (fun c => good c /\ waiters_ok c) calm es apply_one_good (c, []) (conj Hg Hw)) as [[G _] K].
  unfold apply. by destruct (foldl (apply_one L) (c, []) es).
Qed.
(** No batch names two slots that are both waited for. *)
Definition lone (c : CF) (es : list Slots.SlotEntry) : Prop :=
  forall e1 e2, e1 ∈ es -> e2 ∈ es -> is_Some (waiters c !! Slots.slot e1) -> is_Some (waiters c !! Slots.slot e2) -> Slots.slot e1 = Slots.slot e2.
Lemma apply_wakes es : forall c wake, good c -> waiters_ok c -> lone c es -> (wake = [] \/ forall e, e ∈ es -> waiters c !! Slots.slot e = None) ->
  let '(c', wake') := foldl (apply_one L) (c, wake) es in wake' ++ waiting (waiters c') ≡ₚ wake ++ waiting (waiters c).
Proof.
  induction es as [|e es IH]; intros c wake Hg Hw Hl Hk; cbn [foldl]; [done|]. pose proof (apply_one_spec c wake e Hg Hw) as H.
  destruct (apply_one L (c, wake) e) as [c1 wake1]. destruct H as (G1 & K1 & [[W1 ->]|[W1 W2]]).
  - apply (IH c1 wake) in G1; [|by apply K1| |]; [destruct (foldl _ _ _); by rewrite <- W1| |].
    + intros e1 e2 H1 H2. rewrite W1. apply Hl; by right.
    + destruct Hk as [|Hk]; [by left|right]. intros e' He'. rewrite W1. apply Hk. by right.
  - assert (wake = []) as -> by (destruct Hk as [|Hk]; [done|]; specialize (Hk e ltac:(left)); congruence).
    apply (IH c1 wake1) in G1; [|by apply K1| |].
    + destruct (foldl _ _ _) as [c2 wake2]. rewrite G1, W1. rewrite (waiting_delete (waiters c) (Slots.slot e)), W2. done.
    + intros e1 e2 H1 H2 S1 S2. rewrite W1 in S1, S2. destruct S1 as [l1 [_ S1]%lookup_delete_Some], S2 as [l2 [_ S2]%lookup_delete_Some]. apply Hl; [by right|by right|by eexists..].
    + right. intros e' He'. rewrite W1. destruct (decide (Slots.slot e' = Slots.slot e)) as [->|Hn]; [apply lookup_delete_eq|]. rewrite lookup_delete_ne by done.
      destruct (waiters c !! Slots.slot e') eqn:E; [|done]. destruct Hn. apply Hl; [by right|by left|by eexists..].
Qed.
Lemma told_who ws ok rec : (fun x => fst (fst x)) <$> told ws ok rec = ws.
Proof. unfold told. rewrite <- list_fmap_compose. by rewrite list_fmap_id. Qed.

(** ** Runs of a process *)
(** Beside the file's slots: the claims handed out and not given back, who was ever registered to wait, and the calls made. *)
Record Run := mkRun { cf : CF; claims : list Z; asked : list Z; heard : list Told }.
Definition start (gp gt : Z) : Run := mkRun (mkCF ∅ ∅ ∅ [] 0 [] 0 false 0 gp gt) [] [] [].
Definition claim (r : Run) (i cb : Z) : Run :=
  match claimOrWait (cf r) i cb with
  | (c, Claimed) => mkRun c (i :: claims r) (asked r) (heard r)
  | (c, Ready) => mkRun c (claims r) (asked r) (heard r)
  | (c, Waits) => mkRun c (claims r) (cb :: asked r) (heard r)
  end.
Definition now (r : Run) (c : CF) (ts : list Told) : Run := mkRun c (claims r) (asked r) (heard r ++ ts).
(** Any method of the file's slots, by any thread: a claim is given back by [stage] or by [abandon], a commit is [collect], at most one
    [apply], then [land] or [releaseCollected]; what the byte cache holds, which entries a store returns, the other
    files' totals and the life of the store and of the handles are anything. *)
Inductive step (strict : bool) : Run -> Run -> Prop :=
| s_claim r i cb : step strict r (claim r i cb)
| s_abandon r i l1 l2 c ts : claims r = l1 ++ i :: l2 -> abandon (cf r) i = (c, ts) ->
    step strict r (mkRun c (l1 ++ l2) (asked r) (heard r ++ ts))
| s_stage r i l1 l2 hasRange k rec cached keepIt c ts lost kick : claims r = l1 ++ i :: l2 -> zlen rec < p63 ->
    stage L rnt hasRange (cf r) i k rec cached keepIt = (c, ts, lost, kick) -> step strict r (mkRun c (l1 ++ l2) (asked r) (heard r ++ ts))
| s_apply r es c ts : (strict = true -> lone (cf r) es) -> apply L (cf r) es = (c, ts) -> step strict r (now r c ts)
| s_forget r i : step strict r (now r (forgetLocked (cf r) i) [])
| s_gone r hasRange i c b : keptOriginalGone L rnt hasRange (cf r) i = (c, b) -> step strict r (now r c [])
| s_collect r c recs : collect (cf r) = (c, recs) -> step strict r (now r c [])
| s_release r recs : step strict r (now r (releaseCollected (cf r) recs) [])
| s_land r ko committed recs c punch ts : (strict = true -> lone (cf r) committed) -> land L ko (cf r) committed recs = (c, punch, ts) -> step strict r (now r c ts)
| s_env r gone h gp gt :
    step strict r (now r (let c := cf r in mkCF (state c) (info c) (waiters c) (pending c) (pendingBytes c) (transient c) (transientBytes c) gone h gp gt) []).

Record inv (r : Run) : Prop := {
  in_good : good (cf r); in_waiters : waiters_ok (cf r);
  in_claimed : forall i, state_of (cf r) i = kFetching -> i ∈ claims r }.
Definition who (ts : list Told) : list Z := (fun x => fst (fst x)) <$> ts.
Definition accounted (r : Run) : Prop := asked r ≡ₚ who (heard r) ++ waiting (waiters (cf r)).

Lemma settled_claim i c c' l1 l2 : settles i c c' -> (forall k, state_of c k = kFetching -> k ∈ l1 ++ i :: l2) -> forall k, state_of c' k = kFetching -> k ∈ l1 ++ l2.
Proof.
  intros [S1 S2 S3] H k Hk. destruct (decide (k = i)) as [->|Hn]; [done|]. apply S3 in Hk; [|done]. specialize (H k Hk).
  rewrite elem_of_app, elem_of_cons in H. rewrite elem_of_app. tauto.
Qed.
Lemma abandon_spec c i : good c -> waiters_ok c -> let '(c', ts) := abandon c i in good c' /\ settles i c c' /\ ts = told (waiting_at c i) false None.
Proof.
  intros Hg Hw. unfold abandon. rewrite take_spec. set (c1 := if decide _ then _ else c).
  assert (info c1 = info c /\ waiters c1 = waiters c /\ transient c1 = transient c /\ transientBytes c1 = transientBytes c) as (E1 & E2 & E3 & E4) by (unfold c1; by destruct (decide _)).
  assert (forall k, k <> i -> state_of c1 k = state_of c k) as Ek by (intros k Hk; unfold c1; destruct (decide _); [by rewrite state_of_set, decide_False|done]).
  assert (state_of c1 i <> kFetching /\ (state_of c1 i = kReady <-> state_of c i = kReady)) as [Ei Er].
  { unfold c1. destruct (decide (state_of c i = kFetching)) as [E|E]; [rewrite state_of_set, decide_True by done; rewrite E; done|done]. }
  rewrite E2. split_and!; [|by split; [|exact Ei|intros k Hk; change (state_of c1 k = kFetching <-> state_of c k = kFetching); by rewrite Ek]|done].
  destruct Hg as [Hf [C1 C2] Hl]. split; [|unfold counts; cbn; by rewrite E1, E4|cbn; by rewrite E1, E3].
  intros k. specialize (Hf k). unfold fine in *. change (info (set_waiters c1 _)) with (info c1). change (state_of (set_waiters c1 _) k) with (state_of c1 k). rewrite E1.
  destruct (decide (k = i)) as [->|Hk]; [|by rewrite Ek]. destruct (info c !! i); tauto.
Qed.

Lemma good_gone hasRange c i : good c -> good (fst (keptOriginalGone L rnt hasRange c i)) /\ quiet never c (fst (keptOriginalGone L rnt hasRange c i)).
Proof.
  intros Hg. unfold keptOriginalGone. destruct (rnt || _); [done|]. destruct (info c !! i) as [s|]; [|done]. destruct (negb _ || _); [done|].
  destruct (hasRange _ _); [done|]. split; [by apply good_forget|apply quiet_forget, Hg].
Qed.
Lemma forgotten_committed ko committed : forall x, snd (foldl (land_one L ko) x committed) ⊆ snd x ++ committed.
Proof.
  induction committed as [|e l IH]; intros x; cbn [foldl]; [by rewrite app_nil_r|]. rewrite (IH (land_one L ko x e)).
  destruct x as [[c punch] forgotten]. unfold land_one. destruct (info c !! Slots.slot e) as [s|]; [destruct (releaseMemLocked _ _); cbn; set_solver|cbn; set_solver].
Qed.
(** A commit that landed, before the entries of slots forgotten meanwhile are applied. *)
Lemma land_spec ko committed recs c : good c -> waiters_ok c ->
  exists c1 punch forgotten, foldl (land_one L ko) (c, [], []) committed = (c1, punch, forgotten) /\ forgotten ⊆ committed /\
  let c2 := foldl skip_one c1 recs in good c2 /\ quiet never c c2 /\
  land L ko c committed recs = (fst (apply L c2 forgotten), punch, snd (apply L c2 forgotten)).
Proof.
  intros Hg Hw. pose proof (forgotten_committed ko committed (c, [], [])) as Hsub.
  assert (good (fst (fst (foldl (land_one L ko) (c, [], []) committed))) /\ quiet never c (fst (fst (foldl (land_one L ko) (c, [], []) committed)))) as [G1 Q1].
  { generalize (@nil (Z * Z)), (@nil Slots.SlotEntry). revert c Hg Hw Hsub. induction committed as [|e l IH]; intros c Hg Hw _ pu fo; cbn [foldl]; [done|].
    pose proof (good_land_one ko (c, pu, fo) e Hg) as [G Q]. destruct (land_one L ko (c, pu, fo) e) as [[c1 pu1] fo1]. cbn [fst] in *.
    destruct (IH c1 G (proj1 (quiet_calm _ _ Q) Hw) ltac:(apply (forgotten_committed ko l (c1, [], []))) pu1 fo1) as [G2 Q2]. split; [done|by etrans]. }
  unfold land. destruct (foldl (land_one L ko) (c, [], []) committed) as [[c1 punch] forgotten]. cbn [fst snd app] in *. exists c1, punch, forgotten.
  split; [done|]. split; [done|]. destruct (good_fold skip_one recs good_skip_one c1 G1) as [G2 Q2]. split; [done|]. split; [by etrans|].
  destruct (decide (forgotten = [])) as [->|]; [done|]. by destruct (apply L _ forgotten).
Qed.
Lemma inv_now r c ts : inv r -> good c -> calm (cf r) c -> inv (now r c ts).
Proof. intros [G W C] Hg [K1 K2]. split; [done|by apply K1|]. intros i Hi. apply C, K2, Hi. Qed.
Lemma inv_step strict r r' : inv r -> step strict r r' -> inv r'.
Proof.
  intros Hr Hs. pose proof Hr as [Hg Hw Hc]. destruct Hs as [r i cb|r i l1 l2 c ts El Ea|r i l1 l2 hasRange k rec cached keepIt c ts lost kick El Hz Es|r es c ts _ Ea|r i|r hasRange i c b Eg|r c recs Ec|r recs|r ko committed recs c punch ts _ El|r gone h gp gt].
  - unfold claim, claimOrWait. destruct (state_of (cf r) i) eqn:Est.
    + assert (forall k, state_of (set_state (cf r) i kFetching) k = if decide (k = i) then kFetching else state_of (cf r) k) as Est' by (intros k; apply state_of_set).
      split; cbn [cf claims].
      * destruct Hg as [Hf C Hl]. split; [|done|done]. intros k. destruct (decide (k = i)) as [->|Hn]; [|by apply (fine_ext (cf r)); [|rewrite Est', decide_False|]].
        specialize (Hf i). unfold fine in *. change (info (set_state (cf r) i kFetching)) with (info (cf r)). rewrite Est', decide_True by done. rewrite Est in Hf. destruct (info (cf r) !! i); [by destruct Hf|done].
      * intros k l Hk. rewrite Est'. destruct (decide (k = i)); [done|]. by eapply Hw.
      * intros k. rewrite Est'. destruct (decide (k = i)) as [->|]; [left|]. intros Hk. right. by apply Hc.
    + split; cbn [cf claims]; [by apply (good_same (cf r))| |exact Hc]. intros k l Hk. cbn in Hk. destruct (decide (k = i)) as [->|Hn]; [done|].
      rewrite lookup_insert_ne in Hk by done. by eapply Hw.
    + done.
  - pose proof (abandon_spec (cf r) i Hg Hw) as H. rewrite Ea in H. destruct H as (G & S & _). split; [done|by apply (settles_calm _ _ _ S)|].
    cbn [cf claims]. eapply settled_claim; [exact S|]. intros k Hk. rewrite <- El. by apply Hc.
  - pose proof (good_stage hasRange (cf r) i k rec cached keepIt Hg Hz) as H. rewrite Es in H. destruct H as (G & S & _). split; [done|by apply (settles_calm _ _ _ S)|].
    cbn [cf claims]. eapply settled_claim; [exact S|]. intros j Hj. rewrite <- El. by apply Hc.
  - destruct (good_apply (cf r) es Hg Hw) as [G K]. rewrite Ea in G, K. by apply inv_now.
  - apply inv_now; [done|by apply good_forget|apply quiet_calm, quiet_forget, Hg].
  - destruct (good_gone hasRange (cf r) i Hg) as [G Q]. rewrite Eg in G, Q. apply inv_now; [done..|by apply quiet_calm].
  - destruct (good_collect (cf r) Hg) as [G Q]. rewrite Ec in G, Q. apply inv_now; [done..|by apply quiet_calm].
  - destruct (good_releaseCollected recs (cf r) Hg) as [G Q]. apply inv_now; [done..|by apply quiet_calm].
  - destruct (land_spec ko committed recs (cf r) Hg Hw) as (c1 & pu & fo & _ & _ & G & Q & E). rewrite E in El. injection El as <- _ _.
    pose proof (quiet_calm _ _ Q) as K. destruct (good_apply _ fo G (proj1 K Hw)) as [G2 K2]. apply inv_now; [done..|by etrans].
  - apply inv_now; [done|by apply (good_same (cf r))|by apply quiet_calm, quiet_same].
Qed.
Lemma inv_start gp gt : inv (start gp gt).
Proof.
  assert (forall i, state_of (cf (start gp gt)) i = kAbsent) as E by (intros i; unfold state_of; cbn; by rewrite lookup_empty). split.
  - split; [|split; [cbn; unfold held; by rewrite map_fold_empty|done]|intros i s Hi; cbn in Hi; by rewrite lookup_empty in Hi].
    intros i. unfold fine. rewrite E. cbn. by rewrite lookup_empty.
  - intros i l Hi. cbn in Hi. by rewrite lookup_empty in Hi.
  - intros i. by rewrite E.
Qed.
Lemma inv_reachable strict gp gt r : rtc (step strict) (start gp gt) r -> inv r.
Proof. generalize (inv_start gp gt). generalize (start gp gt). intros r0 H0. induction 1 as [|x y z Hs _ IH]; [done|]. by eapply IH, inv_step. Qed.

Lemma accounted_now r c ts : accounted r -> who ts ++ waiting (waiters c) ≡ₚ waiting (waiters (cf r)) -> accounted (now r c ts).
Proof. unfold accounted. intros -> H. cbn. unfold who in *. rewrite fmap_app, <- app_assoc. by rewrite H. Qed.
Lemma accounted_quiet r c : accounted r -> quiet never (cf r) c -> accounted (now r c []).
Proof. intros H [E _]. apply accounted_now; [done|]. cbn. by rewrite E. Qed.
Lemma accounted_settles r i c l ok rec : accounted r -> settles i (cf r) c -> accounted (mkRun c l (asked r) (heard r ++ told (waiting_at (cf r) i) ok rec)).
Proof.
  unfold accounted. intros H [E _ _]. cbn. unfold who in *. rewrite fmap_app, told_who, <- app_assoc, E. unfold waiting_at. by rewrite <- waiting_delete.
Qed.
Lemma accounted_apply r c es : good c -> waiters_ok c -> lone c es -> accounted r -> quiet never (cf r) c -> accounted (now r (fst (apply L c es)) (snd (apply L c es))).
Proof.
  intros Hg Hw Hl Ha [Q _]. pose proof (apply_wakes es c [] Hg Hw Hl (or_introl eq_refl)) as H. unfold apply. destruct (foldl (apply_one L) (c, []) es) as [c' wake].
  cbn [fst snd]. apply accounted_now; [done|]. unfold who. rewrite told_who, H, <- Q. done.
Qed.
Lemma accounted_step r r' : inv r -> accounted r -> step true r r' -> accounted r'.
Proof.
  intros [Hg Hw _] Ha Hs. destruct Hs as [r i cb|r i l1 l2 c ts El Ea|r i l1 l2 hasRange k rec cached keepIt c ts lost kick El Hz Es|r es c ts Hl Ea|r i|r hasRange i c b Eg|r c recs Ec|r recs|r ko committed recs c punch ts Hl El|r gone h gp gt].
  - unfold claim, claimOrWait, accounted in *. destruct (state_of (cf r) i); cbn [cf asked heard]; [exact Ha| |exact Ha].
    cbn [waiters set_waiters]. rewrite waiting_insert, <- app_assoc, Ha. rewrite (waiting_delete (waiters (cf r)) i). cbn. rewrite !app_assoc. solve_Permutation.
  - pose proof (abandon_spec (cf r) i Hg Hw) as H. rewrite Ea in H. destruct H as (_ & S & ->). by apply accounted_settles.
  - pose proof (good_stage hasRange (cf r) i k rec cached keepIt Hg Hz) as H. rewrite Es in H. destruct H as (_ & S & ->). by apply accounted_settles.
  - pose proof (accounted_apply r (cf r) es Hg Hw (Hl eq_refl) Ha (quiet_refl _ _)) as H. by rewrite Ea in H.
  - apply accounted_quiet; [done|apply quiet_forget, Hg].
  - destruct (good_gone hasRange (cf r) i Hg) as [_ Q]. rewrite Eg in Q. by apply accounted_quiet.
  - destruct (good_collect (cf r) Hg) as [_ Q]. rewrite Ec in Q. by apply accounted_quiet.
  - destruct (good_releaseCollected recs (cf r) Hg) as [_ Q]. by apply accounted_quiet.
  - destruct (land_spec ko committed recs (cf r) Hg Hw) as (c1 & pu & fo & _ & Hsub & G & Q & E). rewrite E in El. injection El as <- _ <-.
    apply accounted_apply; [done|by apply (quiet_calm _ _ Q)| |done|done]. destruct Q as [Qw _]. intros e1 e2 H1 H2. rewrite Qw. apply (Hl eq_refl); by apply Hsub.
  - apply accounted_quiet; [done|by apply quiet_same].
Qed.
Lemma accounted_reachable gp gt r : rtc (step true) (start gp gt) r -> accounted r.
Proof.
  assert (inv (start gp gt) /\ accounted (start gp gt)) as H0 by (split; [apply inv_start|unfold accounted, waiting; cbn; by rewrite map_to_list_empty]). revert H0. generalize (start gp gt). intros r0 H0.
  induction 1 as [|x y z Hs _ IH]; [apply H0|]. destruct H0 as [Hi Ha]. apply IH. split; [by eapply inv_step|by eapply accounted_step].
Qed.
Lemma nobody_waits r : inv r -> claims r = [] -> waiters (cf r) = ∅.
Proof.
  intros [_ Hw Hc] E. apply map_empty. intros i. destruct (waiters (cf r) !! i) as [l|] eqn:Ei; [|done]. specialize (Hc i (Hw i l Ei)). rewrite E in Hc. by apply elem_of_nil in Hc.
Qed.

(** ** What a commit frees *)
Definition slots_of (recs : list Slots.SlotRecord) : list Z := Slots.rslot <$> recs.
Definition once (cr : CF * list Slots.SlotRecord) : Prop :=
  NoDup (slots_of (snd cr)) /\ forall i, i ∈ slots_of (snd cr) -> exists s, info (fst cr) !! i = Some s /\ persist s = false /\ is_transient s = false.
Lemma once_same c c' recs i s2 : once (c, recs) -> info c' = <[i:=s2]> (info c) -> persist s2 = false -> is_transient s2 = false -> once (c', recs).
Proof.
  intros [N H] E P T. split; [done|]. cbn in *. intros k Hk. rewrite E. destruct (decide (k = i)) as [->|Hn]; [rewrite lookup_insert_eq; by eexists|].
  rewrite lookup_insert_ne by done. by apply H.
Qed.
Lemma once_more c c' recs i s s2 r : once (c, recs) -> info c' = <[i:=s2]> (info c) -> persist s2 = false -> is_transient s2 = false ->
  info c !! i = Some s -> persist s = true \/ is_transient s = true -> Slots.rslot r = i -> once (c', recs ++ [r]).
Proof.
  intros Ho E P T Ei Hs Hr. destruct (once_same c c' recs i s2 Ho E P T) as [N H]. destruct Ho as [_ H0]. cbn in *.
  unfold once, slots_of. cbn. rewrite fmap_app. cbn. rewrite Hr. split.
  - apply NoDup_app. split; [done|]. split; [|apply NoDup_singleton]. intros k Hk ->%list_elem_of_singleton. destruct (H0 i Hk) as (s' & E' & P' & T'). rewrite Ei in E'. injection E' as <-. destruct Hs; congruence.
  - intros k [Hk| ->%list_elem_of_singleton]%elem_of_app; [by apply H|]. exists s2. by rewrite E, lookup_insert_eq.
Qed.
Lemma once_collect_one i cr : good (fst cr) -> once cr -> once (collect_one cr i).
Proof.
  destruct cr as [c recs]. cbn [fst]. intros Hg Ho. unfold collect_one. destruct (info c !! i) as [s|] eqn:Ei; [|done]. destruct (inStore s) eqn:Es.
  - destruct (release_at c i (with_persist s false) (gd_counts _ Hg)) as [g ->]; [unfold cost_at; by rewrite Ei|]. by eapply once_same.
  - destruct (negb (persist s) || _ || _) eqn:E; [done|]. assert (persist s = true) as Hp by (destruct (persist s); done).
    eapply once_more; [done|done|done| |done|by left|done]. cbn. destruct (is_transient s) eqn:Et; [|done]. destruct (gd_listed _ Hg i s Ei Et) as (_ & _ & _ & ?). congruence.
Qed.
Lemma once_collect_transient j cr : good (fst cr) -> once cr -> once (collect_transient cr j).
Proof.
  destruct cr as [c recs]. cbn [fst]. intros Hg Ho. unfold collect_transient. destruct (info c !! j) as [s|] eqn:Ei; [|done]. destruct (mem s) as [m|] eqn:Em; [|done].
  destruct (negb (is_transient s) || inStore s) eqn:E; [done|]. assert (is_transient s = true) as Ht by (destruct (is_transient s); done).
  destruct (release_at c j s (gd_counts _ Hg)) as [g ->]; [unfold cost_at; by rewrite Ei|].
  eapply once_more; [done|done| |done|done|by right|done]. apply (gd_listed _ Hg j s Ei Ht).
Qed.
(** What waits is collected once, however often it was staged. *)
Lemma collect_once c : good c -> NoDup (slots_of (snd (collect c))).
Proof.
  intros Hg. unfold collect.
  assert (forall l cr, good (fst cr) -> once cr -> good (fst (foldl collect_one cr l)) /\ once (foldl collect_one cr l)) as H1.
  { induction l as [|i l IH]; intros cr G O; cbn [foldl]; [done|]. apply IH; [by apply good_collect_one|by apply once_collect_one]. }
  destruct (H1 (pending c) (c, []) Hg ltac:(split; [apply NoDup_nil_2|intros i Hi; by apply elem_of_nil in Hi])) as [G1 O1]. destruct (foldl collect_one (c, []) (pending c)) as [c1 recs]. cbn [fst] in G1.
  set (c2 := set_pending c1 [] 0 _). assert (good c2) as G2 by (by apply (good_same c1)). assert (once (c2, recs)) as O2 by exact O1. clearbody c2.
  destruct (storeGone c2); [apply O2|].
  assert (forall dq cr, good (fst cr) -> listed (info (fst cr)) dq -> once cr -> once (foldl collect_transient cr dq)) as H2.
  { induction dq as [|j dq IH]; intros cr G Hl O; cbn [foldl]; [done|]. destruct (good_collect_transient j dq cr G Hl) as (A1 & _ & A3). apply IH; [done|done|by apply once_collect_transient]. }
  specialize (H2 (transient c2) (c2, recs) G2 (gd_listed _ G2) O2). destruct (foldl collect_transient _ _) as [c3 recs3]. apply H2.
Qed.

Definition known_kind (k : Z) : Prop := k = Slots.kZstd \/ k = Slots.kRaw \/ k = Slots.kKept.
Lemma entryKind_known k : known_kind (entryKind k).
Proof. unfold known_kind. destruct k; cbn; tauto. Qed.
Lemma collect_kinds c : Forall (fun r => known_kind (Slots.rkind r)) (snd (collect c)).
Proof.
  set (P := fun cr : CF * list Slots.SlotRecord => Forall (fun r => known_kind (Slots.rkind r)) (snd cr)).
  assert (forall f : CF * list Slots.SlotRecord -> Z -> CF * list Slots.SlotRecord, (forall cr i, P cr -> P (f cr i)) -> forall l cr, P cr -> P (foldl f cr l)) as Hf.
  { intros f H. induction l as [|i l IH]; intros cr Hcr; cbn [foldl]; [done|]. by apply IH, H. }
  unfold collect. pose proof (Hf collect_one ltac:(intros [c0 recs] i H; unfold collect_one; destruct (info c0 !! i) as [s|]; [|done]; destruct (inStore s);
    [by destruct (releaseMemLocked _ _)|]; destruct (_ || _); [done|]; apply Forall_app; (split; [done|]); apply Forall_singleton, entryKind_known) (pending c) (c, []) (Forall_nil_2 _)) as H1.
  destruct (foldl collect_one (c, []) (pending c)) as [c1 recs]. destruct (storeGone _); [exact H1|].
  pose proof (Hf collect_transient ltac:(intros [c0 recs0] i H; unfold collect_transient; destruct (info c0 !! i) as [s|]; [|done]; destruct (mem s); [|done];
    destruct (_ || _); [done|]; destruct (releaseMemLocked _ _); apply Forall_app; (split; [done|]); apply Forall_singleton, entryKind_known)) as H2.
  specialize (H2 (transient (set_pending c1 [] 0 (g_pendingTotal c1 -% pendingBytes c1))) (set_pending c1 [] 0 (g_pendingTotal c1 -% pendingBytes c1), recs) H1).
  by destruct (foldl collect_transient _ _).
Qed.

(** [r] is the original of a converted basket that a store holds. *)
Definition freed (c : CF) (r : Z * Z) (i : Z) : Prop := r = (origSeek (slot_at L i), slot_end L i) /\ released c i = true.
Lemma released_ext c c' i : info c' !! i = info c !! i -> released c' i = released c i.
Proof. unfold released. by intros ->. Qed.
Lemma land_one_spec ko l : forall c punch forgotten, good c -> NoDup (Slots.slot <$> l) -> Forall (fun e => known_kind (Slots.kind e)) l ->
  (forall r, r ∈ punch -> exists i, freed c r i /\ i ∉ Slots.slot <$> l) -> (forall e, e ∈ forgotten -> info c !! Slots.slot e = None) ->
  let '(c', punch', forgotten') := foldl (land_one L ko) (c, punch, forgotten) l in
  (forall r, r ∈ punch' -> exists i, freed c' r i) /\ (forall e, e ∈ forgotten' -> info c' !! Slots.slot e = None).
Proof.
  induction l as [|e l IH]; intros c punch forgotten Hg N K Hp Hf; cbn [foldl].
  { split; [|done]. intros r Hr. destruct (Hp r Hr) as (i & F & _). by exists i. }
  rewrite fmap_cons in N, Hp. apply NoDup_cons in N as [Ne N]. apply Forall_cons in K as [Ke K].
  assert (forall r, r ∈ punch -> exists i, freed c r i /\ i <> Slots.slot e /\ i ∉ Slots.slot <$> l) as Hp'.
  { intros r Hr. destruct (Hp r Hr) as (i & F & Hi). exists i. rewrite elem_of_cons in Hi. tauto. }
  pose proof (good_land_one ko (c, punch, forgotten) e Hg) as [Gn _]. unfold land_one at 2. unfold land_one in Gn. destruct (info c !! Slots.slot e) as [s|] eqn:Ei.
  - destruct (release_at c (Slots.slot e) (mkInfo (basketKind (Slots.kind e)) true false false (is_transient s) e (mem s)) (gd_counts _ Hg)) as [g E]; [unfold cost_at; by rewrite Ei|].
    rewrite E in Gn |- *. set (c1 := put_info _ _ _) in *. apply IH; [exact Gn|done|done| |].
    + assert (forall i r, i <> Slots.slot e -> freed c r i -> freed c1 r i) as Hm.
      { intros i r Hn [F1 F2]. split; [done|]. rewrite <- F2. apply released_ext. cbn. by rewrite lookup_insert_ne. }
      intros r Hr. destruct (fromCache s && negb ko && negb (Slots.kind e =? Slots.kKept)) eqn:Eb.
      * apply elem_of_app in Hr as [Hr| ->%list_elem_of_singleton].
        -- destruct (Hp' r Hr) as (i & F & Hn & Hi). exists i. split; [by apply Hm|done].
        -- exists (Slots.slot e). split; [|done]. split; [done|]. unfold released. cbn. rewrite lookup_insert_eq. cbn.
           apply andb_true_iff in Eb as [_ Eb]. b2p. destruct Ke as [Ke|[Ke|Ke]]; [by rewrite Ke|by rewrite Ke|done].
      * destruct (Hp' r Hr) as (i & F & Hn & Hi). exists i. split; [by apply Hm|done].
    + intros e' He'. cbn. specialize (Hf e' He'). rewrite lookup_insert_ne; [done|congruence].
  - apply IH; [done..| |].
    + intros r Hr. destruct (Hp' r Hr) as (i & F & Hn & Hi). by exists i.
    + intros e' [He'| ->%list_elem_of_singleton]%elem_of_app; [by apply Hf|done].
Qed.
Lemma skip_one_info c r k : released (skip_one c r) k = released c k /\ (info c !! k = None -> info (skip_one c r) !! k = None).
Proof.
  unfold skip_one. destruct (info c !! Slots.rslot r) as [s|] eqn:Ei; [|done]. destruct (inStore s) eqn:Es; [|done]. unfold releaseMemLocked.
  assert (forall c0, info c0 = info c -> released (put_info c0 (Slots.rslot r) (with_mem (with_persist s false) false None)) k = released c k /\
    (info c !! k = None -> info (put_info c0 (Slots.rslot r) (with_mem (with_persist s false) false None)) !! k = None)) as H.
  { intros c0 E. unfold released. cbn. rewrite E. destruct (decide (k = Slots.rslot r)) as [->|]; [rewrite lookup_insert_eq, Ei; done|by rewrite lookup_insert_ne]. }
  destruct (mem (with_persist s false)); [destruct (is_transient (with_persist s false))|]; by apply H.
Qed.
Lemma skip_info l : forall c k, released (foldl skip_one c l) k = released c k /\ (info c !! k = None -> info (foldl skip_one c l) !! k = None).
Proof.
  induction l as [|r l IH]; intros c k; cbn [foldl]; [done|]. destruct (IH (skip_one c r) k) as [A1 A2], (skip_one_info c r k) as [B1 B2]. split; [congruence|auto].
Qed.
Lemma apply_one_info x e k : k <> Slots.slot e -> info (fst (apply_one L x e)) !! k = info (fst x) !! k.
Proof.
  intros Hk. destruct x as [c wake]. unfold apply_one. destruct (zlen (slots L) <=? Slots.slot e); [done|].
  set (s := mkInfo _ _ _ _ _ _ _). assert (info (fst (releaseMemLocked c s)) = info c) as E by (unfold releaseMemLocked; destruct (mem s); [destruct (is_transient s)|]; done).
  destruct (releaseMemLocked c s) as [c1 s1]. cbn [fst] in E. destruct (decide _); [|rewrite take_spec]; cbn; rewrite E; by rewrite lookup_insert_ne.
Qed.
Lemma apply_info es : forall c k, k ∉ Slots.slot <$> es -> info (fst (apply L c es)) !! k = info c !! k.
Proof.
  intros c k Hk. unfold apply. assert (forall es x, k ∉ Slots.slot <$> es -> info (fst (foldl (apply_one L) x es)) !! k = info (fst x) !! k) as H.
  { clear. induction es as [|e es IH]; intros x Hk; cbn [foldl]; [done|]. rewrite fmap_cons, elem_of_cons in Hk. rewrite IH, apply_one_info by tauto. done. }
  specialize (H es (c, []) Hk). by destruct (foldl (apply_one L) (c, []) es).
Qed.
Lemma land_punch ko committed recs c : good c -> waiters_ok c -> NoDup (Slots.slot <$> committed) -> Forall (fun e => known_kind (Slots.kind e)) committed ->
  forall r, r ∈ snd (fst (land L ko c committed recs)) -> exists i, freed (fst (fst (land L ko c committed recs))) r i.
Proof.
  intros Hg Hw N K r. destruct (land_spec ko committed recs c Hg Hw) as (c1 & punch & forgotten & E & _ & _ & _ & ->). cbn [fst snd].
  pose proof (land_one_spec ko committed c [] [] Hg N K ltac:(intros ? []%elem_of_nil) ltac:(intros ? []%elem_of_nil)) as H. rewrite E in H. destruct H as [H1 H2].
  intros Hr. destruct (H1 r Hr) as (i & F1 & F2). exists i. split; [done|]. rewrite <- F2, <- (proj1 (skip_info recs c1 i)). apply released_ext, apply_info.
  intros (e & -> & He)%list_elem_of_fmap. unfold released in F2. by rewrite (H2 e He) in F2.
Qed.

Section punch.
Context (ps : Z) (Hps : 0 < ps) (Hsize : 0 <= originSize L /\ originSize L + ps < p64).
Context (Hslots : Forall (fun s => 0 <= origSeek s /\ 0 <= origLen s /\ origSeek s + origLen s <= originSize L) (slots L)).
(** Byte [x] of the original is of a basket whose converted record a store holds. *)
Definition free (c : CF) (x : Z) : Prop := exists i, released c i = true /\ origSeek (slot_at L i) <= x < origSeek (slot_at L i) + origLen (slot_at L i).
Lemma slot_bounds i : 0 <= origSeek (slot_at L i) /\ 0 <= origLen (slot_at L i) /\ origSeek (slot_at L i) + origLen (slot_at L i) <= originSize L /\
  slot_end L i = origSeek (slot_at L i) + origLen (slot_at L i).
Proof.
  assert (0 <= origSeek (slot_at L i) /\ 0 <= origLen (slot_at L i) /\ origSeek (slot_at L i) + origLen (slot_at L i) <= originSize L) as H.
  { unfold slot_at. destruct (slots L !! Z.to_nat i) as [s|] eqn:E; [|cbn; lia]. rewrite Forall_lookup in Hslots. by apply (Hslots _ _ E). }
  split_and!; try apply H. unfold slot_end. apply w64_small. lia.
Qed.
Lemma cover_spec c b l : forall covered, cover L c b covered l = true -> forall x, covered <= x < b -> free c x.
Proof.
  induction l as [|k l IH]; intros covered H x Hx; cbn [cover] in H; [b2p; lia|]. destruct (b <=? covered) eqn:E1; b2p; [lia|].
  destruct (covered <? origSeek (slot_at L k)) eqn:E2; [done|]. destruct (released c k) eqn:E3; [|done]. cbn [negb] in H. b2p.
  destruct (slot_bounds k) as (B1 & B2 & B3 & B4). destruct (Z.lt_ge_cases x (slot_end L k)); [exists k; split; [done|lia]|]. eapply IH; [exact H|lia].
Qed.
Lemma page_spec c pg : 0 <= pg -> pg * ps <= originSize L -> pageDeadLocked L c pg ps = true ->
  kKeepHead <= pg * ps /\ forall x, pg * ps <= x < pg * ps + ps -> x < originSize L -> free c x.
Proof.
  intros H0 H1 H. unfold pageDeadLocked in H. rewrite !w64_small in H by nia. destruct (pg * ps <? kKeepHead) eqn:E1; [done|]. cbn [orb] in H.
  destruct (_ <=? pg * ps) eqn:E2; [done|]. b2p. split; [lia|]. intros x Hx Hx2. eapply cover_spec; [exact H|lia].
Qed.

Definition within (x : Z) (r : Z * Z) : Prop := fst r <= x < snd r.
Definition bounded (r : Z * Z) : Prop := 0 <= fst r <= originSize L /\ 0 <= snd r <= originSize L.
(** Joining adds no byte. *)
Lemma join_spec l : (forall r x, r ∈ join_runs l -> within x r -> exists r0, r0 ∈ l /\ within x r0) /\ (Forall bounded l -> Forall bounded (join_runs l)).
Proof.
  unfold join_runs. pose proof (merge_sort_Permutation range_le l) as Ep. set (l' := merge_sort range_le l) in *.
  assert (forall l2 acc, (forall r x, r ∈ foldl join_one acc l2 -> within x r -> exists r0, r0 ∈ acc ++ l2 /\ within x r0) /\ (Forall bounded acc -> Forall bounded l2 -> Forall bounded (foldl join_one acc l2))) as H.
  { induction l2 as [|r2 l2 IH]; intros acc; cbn [foldl]; [split; [intros r x Hr Hx; exists r; by rewrite app_nil_r|done]|]. destruct (IH (join_one acc r2)) as [I1 I2].
    assert ((forall r x, r ∈ join_one acc r2 -> within x r -> exists r0, (r0 ∈ acc \/ r0 = r2) /\ within x r0) /\ (Forall bounded acc -> bounded r2 -> Forall bounded (join_one acc r2))) as [J1 J2].
    { unfold join_one. destruct acc as [|[a b] acc].
      - split; [intros r x ->%list_elem_of_singleton Hx; exists r2; tauto|intros _ H; by apply Forall_singleton].
      - destruct (fst r2 <=? b) eqn:E; b2p.
        + split.
          * intros r x [-> |Hr]%elem_of_cons Hx; [|exists r; split; [left; by right|done]]. unfold within in Hx. cbn in Hx.
            destruct (Z.lt_ge_cases x b); [exists (a, b); split; [left; left|unfold within; cbn; lia]|exists r2; split; [by right|unfold within; lia]].
          * intros [[B1 B2] B3]%Forall_cons [C1 C2]. cbn in *. apply Forall_cons. split; [|done]. unfold bounded. cbn. lia.
        + split; [|intros H1 H2; by apply Forall_cons]. intros r x [-> |Hr]%elem_of_cons Hx; [exists r2; tauto|exists r; tauto]. }
    split.
    - intros r x Hr Hx. destruct (I1 r x Hr Hx) as (r0 & [Hj|Hl]%elem_of_app & Hx0); [|exists r0; split; [apply elem_of_app; right; by right|done]].
      destruct (J1 r0 x Hj Hx0) as (r3 & [Ha| ->] & Hx3); [exists r3; split; [apply elem_of_app; by left|done]|exists r2; split; [apply elem_of_app; right; left|done]].
    - intros Ha [H2 Hl2]%Forall_cons. apply I2; [by apply J2|done]. }
  destruct (H l' []) as [H1 H2]. split.
  - intros r x Hr Hx. apply list_elem_of_In, in_rev, list_elem_of_In in Hr. destruct (H1 r x Hr Hx) as (r0 & Hr0 & Hx0). exists r0. split; [|done]. cbn in Hr0. by rewrite Ep in Hr0.
  - intros Hl. apply Forall_rev, H2; [constructor|by rewrite Ep].
Qed.
Lemma grow_spec c r : bounded r -> (forall x, within x r -> free c x) -> forall x, within x (grow L c ps r) -> free c x.
Proof.
  destruct r as [a b]. intros [[A1 A2] [B1 B2]] Hin x Hx. cbn in *. unfold within, grow in Hx. cbn [fst snd] in Hx.
  pose proof (Z.div_mod a ps ltac:(lia)). pose proof (Z.mod_pos_bound a ps ltac:(lia)). pose proof (Z.div_mod b ps ltac:(lia)). pose proof (Z.mod_pos_bound b ps ltac:(lia)).
  assert (0 <= a / ps) by (apply Z.div_pos; lia). assert (0 <= b / ps) by (apply Z.div_pos; lia).
  destruct (Z.lt_ge_cases x a).
  - destruct (negb (a mod ps =? 0) && pageDeadLocked L c (a / ps) ps) eqn:E; [|lia]. apply andb_true_iff in E as [_ E].
    rewrite w64_small in Hx by lia. apply (proj2 (page_spec c (a / ps) ltac:(lia) ltac:(nia) E)); nia.
  - destruct (Z.lt_ge_cases x b); [by apply Hin|].
    destruct (negb (b mod ps =? 0) && (b <? originSize L) && pageDeadLocked L c (b / ps) ps) eqn:E; [|lia]. apply andb_true_iff in E as [_ E].
    rewrite !w64_small in Hx by (rewrite ?w64_small by lia; lia). apply (proj2 (page_spec c (b / ps) ltac:(lia) ltac:(nia) E)); nia.
Qed.
Lemma punched_spec c punch : (forall r, r ∈ punch -> exists i, freed c r i) ->
  forall o n, (o, n) ∈ punched L c ps punch -> kKeepHead <= o /\ 0 < n /\ forall x, o <= x < o + n -> free c x.
Proof.
  intros Hp o n Hin. unfold punched in Hin. apply list_elem_of_omap in Hin as (r & Hr & E). apply list_elem_of_fmap in Hr as (r0 & -> & Hr0).
  destruct (join_spec punch) as [J1 J2]. assert (Forall bounded punch) as Hb.
  { apply Forall_forall. intros r Hr. destruct (Hp r Hr) as (i & -> & _). destruct (slot_bounds i) as (S1 & S2 & S3 & S4). unfold bounded. cbn. rewrite S4. lia. }
  specialize (J2 Hb). rewrite Forall_forall in J2. specialize (J2 r0 Hr0).
  assert (forall x, within x (grow L c ps r0) -> free c x) as Hg.
  { apply grow_spec; [done|]. intros x Hx. destruct (J1 r0 x Hr0 Hx) as (r1 & Hr1 & Hx1). destruct (Hp r1 Hr1) as (i & -> & F). exists i. split; [done|].
    destruct (slot_bounds i) as (_ & _ & _ & S4). unfold within in Hx1. cbn in Hx1. lia. }
  unfold past_head in E. set (a := Z.max (fst (grow L c ps r0)) kKeepHead) in *. destruct (a <? snd (grow L c ps r0)) eqn:Ea; [|done]. b2p. injection E as <- <-.
  assert (0 <= a) by (unfold a, kKeepHead; lia). assert (snd (grow L c ps r0) < p64).
  { unfold grow. destruct r0 as [a0 b0]. destruct J2 as [_ [B1 B2]]. cbn in *. destruct (_ && _ && _); cbn; lia. }
  rewrite w64_small by lia. split; [unfold a; lia|]. split; [lia|]. intros x Hx. apply Hg. unfold within, a in *. lia.
Qed.
End punch.

(** *** The whole of a commit *)
Lemma now_now r c1 ts1 c2 ts2 : now (now r c1 ts1) c2 ts2 = now r c2 (ts1 ++ ts2).
Proof. unfold now. cbn. by rewrite app_assoc. Qed.
Section whole.
Context {W : Type} `{!IOBackend W} `{CK : Checksum}.
Lemma place_slots id base l : forall at_, Slots.slot <$> Slots.place id base at_ l = slots_of l.
Proof. induction l as [|r l IH]; intros at_; cbn; [done|]. destruct (Slots.rkind r =? Slots.kKept); cbn; by rewrite IH. Qed.
Lemma place_kinds id base l : forall at_, Forall (fun r => known_kind (Slots.rkind r)) l -> Forall (fun e => known_kind (Slots.kind e)) (Slots.place id base at_ l).
Proof. induction l as [|r l IH]; intros at_ H; cbn; [constructor|]. apply Forall_cons in H as [H1 H2]. destruct (Slots.rkind r =? Slots.kKept); apply Forall_cons; (split; [exact H1|by apply IH]). Qed.
Ltac run H := repeat match type of H with
  | mbind_ _ _ _ = _ => apply mbind_inv in H as (? & ? & ? & H)
  | (match ?x with _ => _ end) _ = _ => destruct x eqn:?
  | mret_ _ _ = _ => unfold mret_ in H
  end; simplify_eq/=.
Lemma commit_write_entries size write fsync s r s' : Slots.commit_write size write fsync s = (r, s') ->
  snd r = [] \/ exists id base at_, snd r = Slots.place id base at_ write.
Proof. unfold Slots.commit_write. intros H. run H; first [by left|right; by eexists _, _, _]. Qed.
Lemma store_commit_result {C} (onO : C -> list Slots.SlotEntry -> C) tk recs fsync c s n committed c' s' :
  Slots.commit onO tk recs fsync c s = (Some (n, committed, c'), s') ->
  (c' = c \/ exists others, c' = onO c others) /\
  (committed = [] \/ exists id base at_, committed = Slots.place id base at_ (filter (fun r => tk c' (Slots.rslot r) = false) recs)).
Proof.
  unfold Slots.commit, Slots.unlocking. intros H. run H; (split; [first [by left|by right; eexists|destruct l; [by left|by right; eexists]]|first [by left|idtac]]).
  match goal with E : Slots.commit_write _ _ _ _ = _, F : _ = _ :: _ |- _ => rewrite <- F in E; exact (commit_write_entries _ _ _ _ _ _ E) end.
Qed.
Lemma NoDup_slots_filter (P : Slots.SlotRecord -> Prop) `{HD : forall r, Decision (P r)} recs : NoDup (slots_of recs) -> NoDup (slots_of (filter P recs)).
Proof. intros H. eapply sublist_NoDup; [exact H|]. apply fmap_sublist, sublist_filter. Qed.
(** A commit takes only steps of [step], and what it punches was freed. *)
Lemma commit_is_steps ko hasStore room fsync ps r s c punch ts s' : inv r -> commit L ko hasStore room fsync ps (cf r) s = (Some (c, punch, ts), s') ->
  rtc (step false) r (now r c ts) /\ (punch = [] \/ exists ranges, punch = punched L c ps ranges /\ forall x, x ∈ ranges -> exists i, freed c x i).
Proof.
  intros Hi H. unfold commit in H. pose proof (collect_once (cf r) (in_good _ Hi)) as N. pose proof (collect_kinds (cf r)) as K.
  destruct (collect (cf r)) as [c0 recs] eqn:Ec. cbn [snd] in N, K. assert (step false r (now r c0 [])) as S0 by by eapply s_collect.
  assert (inv (now r c0 [])) as Hi0 by by eapply inv_step. destruct recs as [|rec0 recs0]; [unfold mret_ in H; injection H as <- <- <- _; split; [by apply rtc_once|by left]|].
  set (recs := rec0 :: recs0) in *. destruct (negb hasStore || storeGone c0 || negb room).
  { unfold mret_ in H. injection H as <- <- <- _. split; [|by left]. eapply rtc_l; [exact S0|]. apply rtc_once. pose proof (s_release false (now r c0 []) recs) as S1. by rewrite now_now in S1. }
  apply mbind_inv in H as (res & s1 & Hs & H). destruct res as [[[n committed] [c1 ts1]]|]; [|done]. destruct (store_commit_result _ _ _ _ _ _ _ _ _ _ Hs) as [Hc Hp].
  assert (rtc (step false) r (now r c1 ts1) /\ inv (now r c1 ts1)) as [S1 Hi1].
  { destruct Hc as [[= -> ->]|[others Ho]]; [split; [by apply rtc_once|done]|]. unfold onOthers in Ho. cbn [fst snd app] in Ho. destruct (apply L c0 others) as [c2 ts2] eqn:Ea. injection Ho as -> ->.
    assert (step false (now r c0 []) (now (now r c0 []) c2 ts2)) as S1 by (eapply s_apply; [done|exact Ea]). split; [|eapply inv_step in S1; [by rewrite now_now in S1|done]].
    eapply rtc_l; [exact S0|]. apply rtc_once. by rewrite now_now in S1. }
  destruct (n =? - ESTALE); [|destruct (n <? 0)].
  - unfold mret_ in H. injection H as <- <- <- _. split; [|by left]. etrans; [exact S1|].
    pose proof (s_env false (now r c1 ts1) true (handles c1) (g_pendingTotal c1) (g_transientTotal c1)) as S2. rewrite now_now in S2. eapply rtc_l; [exact S2|]. apply rtc_once.
    pose proof (s_release false (now r (set_gone c1) ts1) recs) as S3. rewrite now_now, app_nil_r in S3. by rewrite app_nil_r.
  - unfold mret_ in H. injection H as <- <- <- _. split; [|by left]. etrans; [exact S1|]. apply rtc_once. pose proof (s_release false (now r c1 ts1) recs) as S2. by rewrite now_now, app_nil_r in S2.
  - destruct (land L ko c1 committed recs) as [[c2 ranges] ts2] eqn:El. unfold mret_ in H. injection H as <- <- <- _. split.
    + etrans; [exact S1|]. apply rtc_once. rewrite <- (now_now r c1 ts1). by eapply s_land.
    + right. exists ranges. split; [done|]. pose proof (land_punch ko committed recs c1 (in_good _ Hi1) (in_waiters _ Hi1)) as Hl. rewrite El in Hl. cbn [fst snd] in Hl. apply Hl.
      * destruct Hp as [-> |(id & base & at_ & ->)]; [apply NoDup_nil_2|]. rewrite place_slots. by apply NoDup_slots_filter.
      * destruct Hp as [-> |(id & base & at_ & ->)]; [constructor|]. apply place_kinds, Forall_forall. intros x [_ Hx]%list_elem_of_filter. rewrite Forall_forall in K. by apply K.
Qed.
End whole.

(** C21: The slots of a file in use, after any methods in any order by any number of readers, commits and other
    processes: what is known of a slot is known exactly when it is ready; a ready slot has its record in a store, in memory, or
    in the byte cache's copy of a basket kept as stored; a slot is being fetched only while a claim of it is out, and
    readers wait only for such slots; and the bytes served and not kept are counted exactly, and never above 16 MiB. *)
Theorem slots_invariant gp gt r : rtc (step false) (start gp gt) r ->
  let c := cf r in
  (forall i, match info c !! i with
             | Some s => state_of c i = kReady /\ (inStore s = true \/ is_Some (mem s) \/ (rnt = false /\ i_kind s = kOriginal))
             | None => state_of c i <> kReady end) /\
  (forall i, state_of c i = kFetching -> i ∈ claims r) /\
  (forall i l, waiters c !! i = Some l -> state_of c i = kFetching) /\
  transientBytes c = map_fold (fun _ s n => (if is_transient s then match mem s with Some m => zlen m | None => 0 end else 0) + n) 0 (info c) /\
  transientBytes c <= kTransientBytes.
Proof. intros H. destruct (inv_reachable false gp gt r H) as [[Hf [C1 C2] _] Hw Hc]. by split_and!. Qed.

(** C20: Nobody who waits for a slot is forgotten: in every run in which no batch of entries from a store names two slots
    that are both waited for, each waiter ever registered was called once or still waits, and none still waits
    when no claim is out. *)
Theorem waiters_told gp gt r : rtc (step true) (start gp gt) r ->
  asked r ≡ₚ who (heard r) ++ waiting (waiters (cf r)) /\ (claims r = [] -> asked r ≡ₚ who (heard r)).
Proof.
  intros H. pose proof (accounted_reachable gp gt r H) as Ha. split; [done|]. intros E. unfold accounted in Ha.
  rewrite (nobody_waits r (inv_reachable true gp gt r H) E) in Ha. unfold waiting in Ha. by rewrite map_to_list_empty, app_nil_r in Ha.
Qed.

(** C25: A commit - what waits in memory written to the store as one block, whatever the backend fails and whatever other processes
    committed - is a sequence of the methods above, so it keeps all they keep; and every byte it punches out of the byte cache's copy of
    the file lies past the first 128 KiB and in the original of a basket whose converted record a store holds. *)
Theorem commit_punches_converted `{!IOBackend W} `{CK : Checksum} gp gt r ko hasStore room fsync ps s c punch ts s' :
  rtc (step false) (start gp gt) r -> 0 < ps -> 0 <= originSize L -> originSize L + ps < p64 ->
  Forall (fun f => 0 <= origSeek f /\ 0 <= origLen f /\ origSeek f + origLen f <= originSize L) (slots L) ->
  commit L ko hasStore room fsync ps (cf r) s = (Some (c, punch, ts), s') ->
  rtc (step false) r (now r c ts) /\
  forall o n, (o, n) ∈ punch -> kKeepHead <= o /\ 0 < n /\ forall x, o <= x < o + n ->
    exists i e, info c !! i = Some e /\ inStore e = true /\ i_kind e <> kOriginal /\
      origSeek (slot_at L i) <= x < origSeek (slot_at L i) + origLen (slot_at L i).
Proof.
  intros Hr Hps H0 H1 Hf Hc. destruct (commit_is_steps _ _ _ _ _ _ _ _ _ _ _ (inv_reachable false gp gt r Hr) Hc) as [S [-> |(ranges & -> & Hfr)]].
  - split; [done|]. intros o n []%elem_of_nil.
  - split; [done|]. intros o n Hin. destruct (punched_spec ps Hps (conj H0 H1) Hf c ranges Hfr o n Hin) as (A1 & A2 & A3). split; [done|]. split; [done|].
    intros x Hx. destruct (A3 x Hx) as (i & Hrel & Hb). unfold released in Hrel. destruct (info c !! i) as [e|] eqn:E; [|done]. apply andb_true_iff in Hrel as [R1 R2]. apply negb_true_iff, bool_decide_eq_false in R2. by exists i, e.
Qed.
End file.

(** ** Examples *)
(** Two baskets that touch; the second shares its first page with the first. *)
Definition demo_L : FillLayout := mkLayout [] 300000 600000 [] 300000 [] 310000 [mkSlot 200000 5000 310000 15000 0 0; mkSlot 205000 5000 325000 15000 0 1] [0].
Definition cached (_ _ : Z) : bool := false.
Definition demo_one : Run := Eval vm_compute in claim (claim (start 0 0) 0 10) 0 11.
Definition demo_ready : Run := Eval vm_compute in
  let '(c, ts, _, _) := stage demo_L false cached (cf demo_one) 0 kZstd [1; 2; 3] true true in mkRun c [] (asked demo_one) (heard demo_one ++ ts).
Lemma demo_reach strict : rtc (step demo_L false strict) (start 0 0) demo_ready.
Proof.
  eapply rtc_l; [apply (s_claim _ _ _ _ 0 10)|]. eapply rtc_l; [apply (s_claim _ _ _ _ 0 11)|]. apply rtc_once.
  eapply (s_stage _ _ strict demo_one 0 [] [] cached kZstd [1; 2; 3] true true); vm_compute; reflexivity.
Qed.
Lemma slots_invariant_witness : state_of (cf demo_ready) 0 = kReady /\ transientBytes (cf demo_ready) <= kTransientBytes.
Proof. split; [vm_compute; reflexivity|]. apply (slots_invariant demo_L false 0 0 demo_ready (demo_reach false)). Defined.
Lemma waiters_told_witness : claims demo_ready = [] /\ [11] ≡ₚ who (heard demo_ready).
Proof. split; [vm_compute; reflexivity|]. exact (proj2 (waiters_told demo_L false 0 0 demo_ready (demo_reach true)) eq_refl). Defined.

Definition demo_hdr : Slots.SlotStoreHeader := Slots.mkHdr 3 0 300 false [] 300000 0 0 0 600000 2 0 0 0 0.
Definition demo_created : Slots.result * memw := Eval vm_compute in
  Slots.openOrCreate (fun _ => (42, 1, 0, 0)) (bs "/c") (bs "ab") demo_hdr [] (mkMem (mkFs ∅ ∅ ∅) []).
Definition demo_store : Slots.SlotStore := Eval vm_compute in match fst demo_created with inl (st, _) => st | inr _ => Slots.new_store 0 [] demo_hdr [] end.
Definition demo_commit : option (CF * list (Z * Z) * list Told) * Slots.St := commit demo_L false true true true 4096 (cf demo_ready) (demo_store, snd demo_created).
Definition demo_after : CF := Eval vm_compute in match fst demo_commit with Some (c, _, _) => c | None => cf demo_ready end.
Definition demo_end : Slots.St := Eval vm_compute in snd demo_commit.
Lemma demo_commits : commit demo_L false true true true 4096 (cf demo_ready) (demo_store, snd demo_created) = (Some (demo_after, [(200000, 5000)], []), demo_end).
Proof. vm_compute. reflexivity. Qed.
Lemma commit_punches_converted_witness :
  exists i e, info demo_after !! i = Some e /\ inStore e = true /\ i_kind e <> kOriginal /\ origSeek (slot_at demo_L i) <= 204999 < origSeek (slot_at demo_L i) + origLen (slot_at demo_L i).
Proof.
  destruct (commit_punches_converted demo_L false 0 0 demo_ready false true true true 4096 (demo_store, snd demo_created) demo_after [(200000, 5000)] [] demo_end (demo_reach false)) as [_ H].
  - lia.
  - cbn. lia.
  - cbn. lia.
  - repeat apply Forall_cons_2; [cbn; lia..|apply Forall_nil_2].
  - exact demo_commits.
  - destruct (H 200000 5000 ltac:(left)) as (_ & _ & Hx). apply Hx. lia.
Defined.

(** Two readers wait for two slots that another process then commits in one batch. *)
Definition demo_waiting : Run := Eval vm_compute in claim (claim (claim (claim (start 0 0) 0 10) 1 11) 0 12) 1 13.
Definition demo_entries : list Slots.SlotEntry := [Slots.mkSlot 0 1 8192 3 0; Slots.mkSlot 1 1 8195 3 0].
Definition demo_applied : Run := Eval vm_compute in let '(c, ts) := apply demo_L (cf demo_waiting) demo_entries in now demo_waiting c ts.
Definition demo_given : Run := Eval vm_compute in let '(c, ts) := abandon (cf demo_applied) 0 in mkRun c [1] (asked demo_applied) (heard demo_applied ++ ts).
Definition demo_lost : Run := Eval vm_compute in let '(c, ts) := abandon (cf demo_given) 1 in mkRun c [] (asked demo_given) (heard demo_given ++ ts).
Lemma demo_lost_reach : rtc (step demo_L false false) (start 0 0) demo_lost.
Proof.
  assert (rtc (step demo_L false false) (start 0 0) demo_waiting) as H1.
  { replace demo_waiting with (claim (claim (claim (claim (start 0 0) 0 10) 1 11) 0 12) 1 13) by (vm_compute; reflexivity).
    eapply rtc_l; [apply (s_claim _ _ _ _ 0 10)|]. eapply rtc_l; [apply (s_claim _ _ _ _ 1 11)|]. eapply rtc_l; [apply (s_claim _ _ _ _ 0 12)|]. apply rtc_once, (s_claim _ _ _ _ 1 13). }
  assert (step demo_L false false demo_waiting demo_applied) as H2 by (apply (s_apply demo_L false false demo_waiting demo_entries (cf demo_applied) (heard demo_applied)); [done|vm_compute; reflexivity]).
  assert (step demo_L false false demo_applied demo_given) as H3 by (apply (s_abandon demo_L false false demo_applied 0 [1] [] (cf demo_given) []); vm_compute; reflexivity).
  assert (step demo_L false false demo_given demo_lost) as H4 by (apply (s_abandon demo_L false false demo_given 1 [] [] (cf demo_lost) []); vm_compute; reflexivity).
  eapply rtc_r; [eapply rtc_r; [by eapply rtc_r|exact H3]|exact H4].
Qed.
(** Of two readers whose slots one batch names only the second is told: the first was asked to wait, nothing is being fetched any more,
    nobody waits, and it was never called. *)
Theorem apply_drops_waiters : exists r, rtc (step demo_L false false) (start 0 0) r /\ claims r = [] /\ 12 ∈ asked r /\ ~ 12 ∈ who (heard r) /\ waiting (waiters (cf r)) = [].
Proof.
  exists demo_lost. split; [exact demo_lost_reach|].
  split; [done|]. split; [right; left|]. split; [|vm_compute; reflexivity]. vm_compute. intros H. repeat (apply elem_of_cons in H as [H|H]; [done|]). by apply elem_of_nil in H.
Qed.
End ColdSlots.
